(* ===== verification/_CoqProject ===== *)
-Q . S2P
Prelude.v
Errors.v
ScriptNum.v
Stack.v
Opcode.v
Text.v
Script.v
Builder.v
Address.v
Standard.v
Tx.v
RlpModel.v
AssetId.v
Float64.v
TxProps.v
TxFlow.v
SigHash.v
SigCache.v
Engine.v
SigEncoding.v
EngineInv.v
EngineRun.v
EngineProps.v
SigCheck.v
Steps.v
Spend.v
Redeem.v
Sign.v
SignProps.v
TokenApi.v
ApiProps.v
Conditional.v
TxFee.v
Unit.v
ValPayment.v
ValPayProps.v
ValSigned.v
ValTx.v
ValTxProps.v
ValRules.v
ValUnit.v
ValUnitProps.v
HeapSort.v
Uint128.v
ChainParams.v
Schedule.v
Pledge.v
Produce.v
ProduceProps.v
StateDb.v
Rwset.v
RwsetProps.v
Ledger.v
LedgerProps.v
Mediators.v
UnitStore.v
SaveUnit.v
SaveUnitProps.v
LifeCycle.v
Pickup.v
Wallet.v
WalletProps.v
Payout.v
PayoutProps.v
Jury.v
JuryProps.v
TempDb.v
Nth.v
MemDag.v
MemDagProps.v
TxPool.v
TxPoolProps.v
TxPoolSorted.v
