(* ===== verification/Prelude.v ===== *)
(** * A verification of the ledger core of zwschain

    zwschain is a node of a DAG-structured ledger whose value moves by unspent transaction
    outputs.  An output is locked by a script, an input carries an unlocking script, and a
    payment is valid when a stack machine accepts the two.  Elected mediators take turns to
    produce units of transactions; contracts run off the ledger and commit sets of writes.  This
    development models the script machine, signing, the validator, the ledger of outputs, the
    read and write sets of contracts, what contracts pay out and their juries sign, the payments of
    accounts, the transaction pool, the tree of units that are not stable yet, and the election and
    schedule of mediators, and proves what the rest of the node relies on.

    ** The program

    - src/tokenengine/internal/txscript: script numbers (scriptnum.go), the stack (stack.go), the
      opcode table and handlers (opcode.go), parsing and signature data (script.go), building
      scripts (scriptbuilder.go), standard scripts (standard.go, types.go), the cache of verified
      signatures (sigcache.go), the engine (engine.go, consensus.go, error.go) and signing
      (sign.go).  src/tokenengine/api.go is what the rest of the node calls.
    - src/dag/modules: transactions, their messages and payloads, their wire format, unspent
      outputs, asset identifiers, headers and units, the global properties, pledges.
    - src/validator: the rules for payments, contract results, whole transactions, units and
      headers, and the cache of verdicts.
    - src/dag/storage and src/dag/common: the tables of outputs, contract states and properties,
      applying payments (utxo_repository.go), the production schedule (prop_repository.go), vote
      counting (state_repository.go), saving (unit_repository.go) and pushing a unit
      (unit_produce_repository.go).
    - src/dag/rwset: the simulators that contracts read and write through.
    - src/consensus/jury: the payments made of the result of a contract (invokeresult.go) and the
      signatures of its jury (common.go).
    - src/core/utxo_pickup.go, src/dag/dag_transaction.go: choosing outputs, the payments of
      accounts.
    - src/txspool: the transactions that wait for a unit.
    - src/dag/memunit: the units that are not stable yet, temporary databases over the stable one.
    - src/core/chain_parameters.go, src/common: parameters, addresses, hashes, sorting, 128-bit
      integers.

    The validator asks the engine whether the scripts of a payment accept it and the ledger what
    its inputs are; the engine asks script.go for the data signed, a copy of the transaction with
    its scripts edited, in the wire format.  A valid payment is applied to the tables of outputs,
    a contract result to the contract states, all of it by saving the unit, message by message.
    Before that a transaction waits in the pool, which asks the validator and the ledger and hands
    out the transactions of the next unit; and a unit waits in the tree of units, where each branch
    is saved into a temporary database, until enough mediators have confirmed it and it is saved
    into the stable one.  A unit pushed updates the slot history of the mediators, and at a
    maintenance time votes are counted, the active mediators replaced and parameters changed.

    ** How code is modelled

    A Go call returns a value, returns an error or panics: [result].  A method that mutates its
    receiver is a function from the old state to the new one and a [result] ([ST]); mutations
    made before an error or a panic are kept.  [let!] and [let?] are the binds of the two, [;;;]
    the sequence.  Integers are [Z], with [int32], [int64], [uint64] ... written where the source
    wraps around; bytes are [Byte.byte], a slice is a list (nil and empty are the same where the
    source does not tell them apart), an index out of range is [Panic].  A pointer that may
    be nil is an [option].  A Go map is a [gmap] or [gset]; where its iteration order matters,
    the order is an argument.  Definitions have the names of the source; [Hash_], [Script_],
    [db_GetUtxoEntry] and the like avoid a clash.  A Go loop is a fixpoint on its list or, when it
    is not structural, on fuel.  A database table is a map from what its key encodes.  Records that
    are shared and changed in place stand in a store and are named by references (the transactions
    of the pool, the simulators); a [go] statement adds a job to a list, which a scheduler that is
    an argument runs.

    ** Files

    Scripts and transactions:
    - Prelude: results, the state monad, machine integers, slices, byte strings; the tactics and
      hint databases ([len], [engine], ...) of the development.  Errors: the error values.  Text:
      texts, hexadecimal and base36.
    - ScriptNum, Stack, Opcode, Script, Builder: scriptnum.go, stack.go, opcode.go, script.go and
      scriptbuilder.go.  Codecs and round trips, what the stack operations do, limits.
    - Address, Standard, AssetId: addresses, lock scripts, asset identifiers and their texts; each
      determines the other.  Float64: the floating-point operations the source uses.
    - Tx: the data of transactions and messages and the operations on them; the interface
      [RlpLib] with its laws [RlpLaws] stands for the RLP library.  RlpModel: an instance.
      TxProps, TxFlow, TxFee: the wire format, copies, caches, fees and their allocation, created
      and spent outputs, the request hash from request to result.
    - SigHash: the data a signature covers, and that SigHashAll commits to the transaction.
    - SigCache: sigcache.go, bound and contents of the cache.
    - Engine: the engine, every opcode handler, [NewEngine], [Step], [Execute]; the interface
      [ScriptEnv] stands for the hash functions, the signature scheme, the jury redeem scripts,
      the iteration order of the cache and randomness.  SigEncoding: the canonical DER test.
    - EngineInv, EngineRun, EngineProps: a specification of every handler (stack growth, fields
      left alone, no panic), composed to the invariant of [Step]; limits, end and absence of
      panics of every run.
    - SigCheck, Steps, Spend, Redeem, Conditional: OP_CHECKMULTISIG against assignments of
      signatures to keys; running concrete scripts: pay to public key hash, script hash,
      multi-signature and contract; IF/ELSE/ENDIF.
    - Sign, SignProps, TokenApi, ApiProps: sign.go and api.go.  What is signed and merged, the
      engine accepts; redeem scripts belong to the set of their keys.
    Validation:
    - Unit: headers, units and heights, with the cached hash.
    - ValPayment, ValTx, ValUnit: the rules for payments, transactions and units; the class [Node]
      collects what they ask of the rest of the node.
    - ValPayProps, ValSigned, ValTxProps, ValRules, ValUnitProps: soundness of the verdict VALID,
      acceptance of what a wallet signs, contract signatures, coinbases, units transaction by
      transaction; the double spends, replays and skipped checks that the rules let through.
    The ledger:
    - Ledger, LedgerProps: utxodb.go and utxo_repository.go.  The effect of a payment; index,
      spent outputs and balances agree with the unspent outputs; a validated payment makes no
      money; outputs without an address are lost.
    - StateDb: contract states with their versions; what is saved is read back.
    - Rwset, RwsetProps: src/dag/rwset.  An execution sees its own writes, and committing its
      write set leaves what it saw; the limits of this isolation; the life of the simulators.
    - Mediators: the records of mediators and the calls of the deposit contract that write them.
    - UnitStore: the key-value store under headers, bodies, transactions, contracts and indexes,
      with the prefixes of the keys.  SaveUnit: saving a unit, with the handler of every message.
    - SaveUnitProps, LifeCycle: what every handler may write; reading a unit back; the ledger
      after a unit; the valid unit that is lost; contracts deployed and stopped.
    Mediators:
    - HeapSort, Nth, Uint128: the packages sort and uint128 of src/common.  Partial sorting,
      selecting the nth element (right below 24 elements, wrong on 25), exact division, counting
      bits.
    - ChainParams: the parameters, their checks and their update by name.
    - Schedule: slots, the shuffle, thresholds.  Every mediator has one turn in a round.
    - Pledge: pledges and votes.
    - Produce, ProduceProps: pushing units: missed slots, elections, maintenance, parameter
      changes.  The winners of an election; the invariant of every run; the change that halts.
    Payments and contracts:
    - Pickup: the greedy choice of outputs.  Wallet, WalletProps: the payments of accounts; what
      they spend, pay and leave as the fee.
    - Payout, PayoutProps: the payments of contracts; they keep the money of the contract.
    - Jury, JuryProps: the signatures of a jury, from the results of single jurors to the unlock
      script; the engine accepts what they sign, unless the jury is too large.
    Units and transactions that wait:
    - TempDb: the interface of databases, the database in memory and temporary databases; a
      temporary database implements the interface over any other.
    - MemDag, MemDagProps: the tree of unstable units.  What making a unit stable saves and keeps,
      which number counts as confirmed, the gap in heights that stops the node.
    - TxPool: the transaction pool.  TxPoolProps: its invariant under every call and schedule.
      TxPoolSorted: the choice of the transactions of a unit; making room from the wrong end.

    Classes and sections carry the interfaces: [RlpLib] and [RlpLaws] (Tx), [ScriptEnv] (Engine),
    [Node] (ValPayment), [LessOrder] (HeapSort), [StoreCodecs] (UnitStore), [Database] and
    [DatabaseLaws] (TempDb), [MemUnit] and [Repos] (MemDag), [PoolItem] and [Dags] (TxPool).
    [GoRange] and [GoKeys] (below) give the order of a range over a map, [GoSorter] (Pickup) and
    [PrioritySort] (TxPool) what sort.Sort makes of equal elements; theorems hold for every
    instance.  The witnesses use one instance of each.

    ** Fuel

    [parse_loop] has as much fuel as the script has bytes: each turn consumes at least one.
    [exec_fuel] is one more than the opcodes of the two scripts and [MaxScriptElementSize]: each
    step consumes an opcode, a redeem script is one pushed item of at most that many bytes, and an
    empty script takes one turn.  Both are proved to be enough ([parse_loop_some] and
    [exec_fuel_enough]).  [sift_loop] has as many turns as the heap has elements: the root moves
    down.  [mergeScripts] has its depth as fuel, and the inputs on which no fuel is enough are
    characterised ([mergeScripts_termination]).  The loops of Nth panic without fuel and are proved
    to return ([Element_ends]).  [addUnit] has one more than there are orphans ([addUnit_enough]),
    [removeUnitAndChildren] and [setNextStableUnit] one more than there are units: each call removes
    one ([setStableUnit_spec]).  [getPrecusorTxs] and [removeTransaction] have one more than there
    are transactions in the store, which is enough when hashes have no cycles, as
    [GetSortedTxs_spec] proves for the first; with a cycle the source does not return either.  Lists that the engine keeps are far below 2^31
    items, the condition under which the int32 indices of the stack do not wrap around; the limits
    guarantee it.

    ** Parameters

    Third-party code is a parameter: the RLP library (a codec per wire type; the laws are that
    decoding inverts encoding on encodable values, and that the older wire form of a deploy result
    is not one of the newer form), base58check, JSON, the parsing of floating-point numbers, the
    hash functions and the signature scheme (no law is assumed of them).  So are the places where
    this development stops: the queries of the validator on contracts and properties, the votes
    recorded for an account, the parsers of group keys and node addresses and, in Produce, the
    saving of the unit.  Where an empty slice of the source may be nil, a flag says so.  The
    texts of errors, logging and JSON forms are not modelled.  A mutex that a method holds
    throughout makes it one function; a method that takes it twice is two ([find_sim] and
    [add_sim]).

    ** Not modelled

    Networking and the synchronisation of nodes; the key-value store and tries, key stores and the
    command line; the plug-ins that run consensus (the election of juries and threshold
    signatures) and the containers of contracts, which are concurrent processes and I/O; the system
    contracts, apart from the records of mediators that the deposit contract writes; the
    cryptographic wrappers and the vendored packages.  Of the files modelled, the header of each
    part says what is left out.  How methods interleave is modelled for the simulators, where a
    method gives up its lock, and for the jobs of the pool; everything else is one step for each
    method. *)

From Stdlib Require Import ZArith Lia Bool.
From Stdlib Require Export Strings.Byte.
From stdpp Require Export base tactics list gmap strings.

#[global] Open Scope Z_scope.

(** ** Results of Go calls *)

(** A Go call either returns a value, returns a non-nil [error], or panics
    (index out of range, failed type assertion, nil dereference). *)
Inductive result (E A : Type) : Type :=
| Ok (a : A)
| Err (e : E)
| Panic.
Arguments Ok {E A} a.
Arguments Err {E A} e.
Arguments Panic {E A}.

(** A computation over a mutable object of type [S]: the state is kept on every
    outcome, because Go mutations made before an error stay visible. *)
Definition ST (S E A : Type) : Type := S -> S * result E A.

Definition ret {S E A} (a : A) : ST S E A := fun s => (s, Ok a).
Definition throw {S E A} (e : E) : ST S E A := fun s => (s, Err e).
Definition panic {S E A} : ST S E A := fun s => (s, Panic).
Definition bind {S E A B} (m : ST S E A) (k : A -> ST S E B) : ST S E B :=
  fun s => match m s with
           | (s', Ok a) => k a s'
           | (s', Err e) => (s', Err e)
           | (s', Panic) => (s', Panic)
           end.
Definition gets {S E A} (f : S -> A) : ST S E A := fun s => (s, Ok (f s)).
Definition modify {S E} (f : S -> S) : ST S E unit := fun s => (f s, Ok tt).
Definition lift {S E A} (r : result E A) : ST S E A := fun s => (s, r).

Definition rbind {E A B} (r : result E A) (k : A -> result E B) : result E B :=
  match r with
  | Ok a => k a
  | Err e => Err e
  | Panic => Panic
  end.

(** [for i := k; i > 0; i-- { m }] with a body that does not use [i]. *)
Fixpoint repeatM {S E} (k : nat) (m : ST S E unit) : ST S E unit :=
  match k with
  | O => ret tt
  | S k' => bind m (fun _ => repeatM k' m)
  end.

(** A computation on a component of the state. *)
Definition focus {S T E A} (pick : S -> T) (put : T -> S -> S) (m : ST T E A) : ST S E A :=
  fun s => let '(t, r) := m (pick s) in (put t s, r).

Declare Scope go_scope.
Delimit Scope go_scope with go.
Notation "'let!' x ':=' m 'in' k" := (bind m (fun x => k))
  (at level 10, x pattern, m at level 100, k at level 200) : go_scope.
Notation "m ';;;' k" := (bind m (fun _ => k))
  (at level 199, right associativity) : go_scope.
Notation "'let?' x ':=' r 'in' k" := (rbind r (fun x => k))
  (at level 10, x pattern, r at level 100, k at level 200) : go_scope.
#[global] Open Scope go_scope.

Section Outcomes.
Context {S E : Type}.

  (** [m] run in [s] does not panic. *)
Definition no_panic {A} (m : ST S E A) (s : S) : Prop := (m s).2 <> Panic.

Lemma bind_ok {A B} (m : ST S E A) (k : A -> ST S E B) s s' a :
    m s = (s', Ok a) -> bind m k s = k a s'.
Proof. intros H. unfold bind. now rewrite H. Qed.

Lemma bind_err {A B} (m : ST S E A) (k : A -> ST S E B) s s' e :
    m s = (s', Err e) -> bind m k s = (s', Err e).
Proof. intros H. unfold bind. now rewrite H. Qed.

Lemma bind_inv {A B} (m : ST S E A) (k : A -> ST S E B) s s' b :
    bind m k s = (s', Ok b) -> exists s1 a, m s = (s1, Ok a) /\ k a s1 = (s', Ok b).
Proof.
    unfold bind. destruct (m s) as [s1 [a|e|]] eqn:Hm; intros H; try discriminate. eauto.
Qed.

  (** An invariant of the state: [m] keeps [I] on every outcome and does not panic under it. *)
Definition keeps {A} (I : S -> Prop) (m : ST S E A) : Prop :=
    forall s, I s -> I (m s).1 /\ no_panic m s.

Lemma keeps_bind {A B} I (m : ST S E A) (k : A -> ST S E B) :
    keeps I m -> (forall a, keeps I (k a)) -> keeps I (bind m k).
Proof.
    intros Hm Hk s Hs. unfold no_panic, bind. specialize (Hm s Hs). unfold no_panic in Hm.
    destruct (m s) as [s1 [a|e|]]; simpl in *; try tauto.
    - apply Hk; tauto.
    - split; [tauto|done].
Qed.

Lemma keeps_ret {A} I (a : A) : keeps I (ret a).
Proof. intros s Hs. split; done. Qed.

End Outcomes.

(** ** Machine integers *)

Definition wrapU (w z : Z) : Z := z mod 2 ^ w.
Definition wrapS (w z : Z) : Z := (z + 2 ^ (w - 1)) mod 2 ^ w - 2 ^ (w - 1).

Definition int32 : Z -> Z := wrapS 32.
Definition int64 : Z -> Z := wrapS 64.
Definition uint8 : Z -> Z := wrapU 8.
Definition uint16 : Z -> Z := wrapU 16.
Definition uint32 : Z -> Z := wrapU 32.
Definition uint64 : Z -> Z := wrapU 64.

Lemma wrapU_small w z : 0 <= z < 2 ^ w -> wrapU w z = z.
Proof. intros; unfold wrapU; now apply Z.mod_small. Qed.

Lemma wrapU_range w z : 0 <= w -> 0 <= wrapU w z < 2 ^ w.
Proof. intros; apply Z.mod_pos_bound, Z.pow_pos_nonneg; lia. Qed.

Lemma wrapS_small w z : 0 < w -> - 2 ^ (w - 1) <= z < 2 ^ (w - 1) -> wrapS w z = z.
Proof.
  intros Hw Hz. unfold wrapS.
  assert (2 ^ w = 2 * 2 ^ (w - 1)).
  { rewrite <- Z.pow_succ_r by lia. f_equal; lia. }
  rewrite Z.mod_small; lia.
Qed.

Lemma wrapS_range w z : 0 < w -> - 2 ^ (w - 1) <= wrapS w z < 2 ^ (w - 1).
Proof.
  intros Hw. unfold wrapS.
  assert (2 ^ w = 2 * 2 ^ (w - 1)).
  { rewrite <- Z.pow_succ_r by lia. f_equal; lia. }
  assert (0 < 2 ^ (w - 1)) by (apply Z.pow_pos_nonneg; lia).
  pose proof (Z.mod_pos_bound (z + 2 ^ (w - 1)) (2 ^ w)); lia.
Qed.

Lemma int32_small z : -2147483648 <= z < 2147483648 -> int32 z = z.
Proof. intros; apply wrapS_small; simpl; lia. Qed.
Lemma int64_small z : -9223372036854775808 <= z < 9223372036854775808 -> int64 z = z.
Proof. intros; apply wrapS_small; simpl; lia. Qed.
Lemma uint64_small z : 0 <= z < 18446744073709551616 -> uint64 z = z.
Proof. intros; apply wrapU_small; simpl; lia. Qed.

(** *** Bit operations *)

Lemma lor_shiftl_add a b k : 0 <= k -> 0 <= a < 2 ^ k -> Z.lor a (Z.shiftl b k) = a + b * 2 ^ k.
Proof.
  intros Hk Ha. rewrite <- Z.shiftl_mul_pow2 by lia.
  assert (Hand : Z.land a (Z.shiftl b k) = 0).
  { apply Z.bits_inj'. intros i Hi. rewrite Z.land_spec, Z.bits_0.
    destruct (Z.ltb_spec i k).
    - rewrite Z.shiftl_spec_low by lia. apply andb_false_r.
    - replace (Z.testbit a i) with false; [done|].
      destruct (Z.eq_dec a 0) as [->|]; [now rewrite Z.bits_0|].
      symmetry. apply Z.bits_above_log2; [lia|].
      apply Z.log2_lt_pow2; [lia|].
      apply Z.lt_le_trans with (2 ^ k); [lia|]. apply Z.pow_le_mono_r; lia. }
  rewrite Z.add_nocarry_lxor by done. symmetry. now apply Z.lxor_lor.
Qed.

Lemma land_ff n : Z.land n 0xff = n mod 256.
Proof. apply (Z.land_ones n 8); lia. Qed.

(** ** Bytes *)

Abbreviation bytes := (list byte).

Definition b2z (b : byte) : Z := Z.of_N (Byte.to_N b).

Definition z2b (z : Z) : byte :=
  match Byte.of_N (Z.to_N (z mod 256)) with
  | Some b => b
  | None => x00
  end.

Lemma b2z_range b : 0 <= b2z b < 256.
Proof.
  unfold b2z. pose proof (Byte.to_N_bounded b). lia.
Qed.

Lemma b2z_z2b z : b2z (z2b z) = z mod 256.
Proof.
  unfold b2z, z2b. pose proof (Z.mod_pos_bound z 256).
  destruct (Byte.of_N (Z.to_N (z mod 256))) as [b|] eqn:E.
  - apply Byte.to_of_N in E. rewrite E. lia.
  - apply Byte.of_N_None_iff in E. lia.
Qed.

Lemma b2z_inj b1 b2 : b2z b1 = b2z b2 -> b1 = b2.
Proof.
  unfold b2z. intros H. apply N2Z.inj in H.
  pose proof (Byte.of_to_N b1) as E1. pose proof (Byte.of_to_N b2) as E2.
  rewrite H in E1. congruence.
Qed.

Lemma z2b_b2z b : z2b (b2z b) = b.
Proof.
  apply b2z_inj. rewrite b2z_z2b. apply Z.mod_small, b2z_range.
Qed.

Lemma z2b_eq z b : z mod 256 = b2z b -> z2b z = b.
Proof. intros H. apply b2z_inj. now rewrite b2z_z2b. Qed.

#[global] Instance byte_eq_dec : EqDecision byte := Byte.byte_eq_dec.

#[global] Program Instance byte_countable : Countable byte :=
  inj_countable Byte.to_N Byte.of_N _.
Next Obligation. intros b. apply Byte.of_to_N. Qed.

#[global] Instance byte_inhabited : Inhabited byte := populate x00.

(** Boolean tests on bytes as the code writes them. *)
Definition beq (a b : byte) : bool := b2z a =? b2z b.
Definition ble (a b : byte) : bool := b2z a <=? b2z b.
Definition blt (a b : byte) : bool := b2z a <? b2z b.

Lemma beq_true a b : beq a b = true <-> a = b.
Proof.
  unfold beq. rewrite Z.eqb_eq. split; [apply b2z_inj | congruence].
Qed.
Lemma beq_false a b : beq a b = false <-> a <> b.
Proof. rewrite <- beq_true. destruct (beq a b); naive_solver. Qed.
Lemma beq_refl a : beq a a = true.
Proof. now apply beq_true. Qed.

(** [bytes.Equal] *)
Definition bytes_equal (a b : bytes) : bool := bool_decide (a = b).

(** [bytes.Compare]: lexicographic order, a proper prefix is smaller. *)
Fixpoint bytes_compare (a b : bytes) : comparison :=
  match a, b with
  | [], [] => Eq
  | [], _ :: _ => Lt
  | _ :: _, [] => Gt
  | x :: a', y :: b' =>
      match Z.compare (b2z x) (b2z y) with
      | Eq => bytes_compare a' b'
      | c => c
      end
  end.

(** [bytes.Contains] *)
Fixpoint is_prefix (sub b : bytes) : bool :=
  match sub, b with
  | [], _ => true
  | _ :: _, [] => false
  | x :: s', y :: b' => beq x y && is_prefix s' b'
  end.

Fixpoint bytes_contains (b sub : bytes) : bool :=
  is_prefix sub b ||
  match b with
  | [] => false
  | _ :: b' => bytes_contains b' sub
  end.

(** ** Slices and lengths *)

Definition len {A} (l : list A) : Z := Z.of_nat (length l).
#[global] Arguments len : simpl never.

(** [l[i]]: [None] is an index out of range, a panic in Go. *)
Definition index {A} (l : list A) (i : Z) : option A :=
  if i <? 0 then None else l !! Z.to_nat i.

(** [l[a:b]], for [0 <= a <= b <= len l] (a slice within the length). *)
Definition slice {A} (l : list A) (a b : Z) : list A :=
  take (Z.to_nat (b - a)) (drop (Z.to_nat a) l).

Definition get {S E A} (o : option A) : ST S E A :=
  match o with Some a => ret a | None => panic end.

Definition rget {E A} (o : option A) : result E A :=
  match o with Some a => Ok a | None => Panic end.

Lemma len_nonneg {A} (l : list A) : 0 <= len l.
Proof. unfold len; lia. Qed.
Lemma len_nil {A} : len (@nil A) = 0.
Proof. reflexivity. Qed.
Lemma len_cons {A} (x : A) l : len (x :: l) = len l + 1.
Proof. unfold len; simpl; lia. Qed.
Lemma len_app {A} (l k : list A) : len (l ++ k) = len l + len k.
Proof. unfold len; rewrite length_app; lia. Qed.
Lemma len_zero {A} (l : list A) : len l = 0 -> l = [].
Proof. unfold len; destruct l; simpl; [done | lia]. Qed.

Lemma index_app_l {A} (l k : list A) i : i < len l -> index (l ++ k) i = index l i.
Proof.
  unfold index, len. intros. destruct (i <? 0) eqn:E; [done|].
  apply lookup_app_l. lia.
Qed.
Lemma index_app_r {A} (l k : list A) i : len l <= i -> index (l ++ k) i = index k (i - len l).
Proof.
  unfold index, len. intros.
  destruct (i <? 0) eqn:E; [lia|]. destruct (i - _ <? 0) eqn:E'; [lia|].
  rewrite lookup_app_r by lia. f_equal. lia.
Qed.
Lemma index_Some {A} (l : list A) i : 0 <= i < len l -> exists x, index l i = Some x.
Proof.
  unfold index, len. intros. destruct (i <? 0) eqn:E; [lia|].
  destruct (l !! Z.to_nat i) eqn:El; [eauto|].
  apply lookup_ge_None in El. lia.
Qed.
Lemma index_None {A} (l : list A) i : index l i = None <-> ~ (0 <= i < len l).
Proof.
  split; intros H.
  - intros [x Hx]%index_Some. congruence.
  - unfold index, len in *. destruct (i <? 0) eqn:E; [done|].
    apply lookup_ge_None. lia.
Qed.
Lemma index_middle {A} (l k : list A) x i : i = len l -> index (l ++ x :: k) i = Some x.
Proof. intros ->. rewrite index_app_r by lia. now rewrite Z.sub_diag. Qed.

Lemma index_cons {A} (x : A) l i : index (x :: l) i = if i =? 0 then Some x else index l (i - 1).
Proof.
  unfold index. destruct (Z.eqb_spec i 0) as [->|]; [done|].
  destruct (Z.ltb_spec i 0), (Z.ltb_spec (i - 1) 0); try lia; [done|].
  now replace (Z.to_nat i) with (S (Z.to_nat (i - 1))) by lia.
Qed.

Lemma index_cons_pos {A} (x : A) l i : 0 < i -> index (x :: l) i = index l (i - 1).
Proof. intros P. rewrite index_cons. now destruct (Z.eqb_spec i 0); [lia|]. Qed.

Lemma slice_app {A} (l m k : list A) a b :
  a = len l -> b = len l + len m -> slice (l ++ m ++ k) a b = m.
Proof.
  unfold slice, len. intros -> ->.
  rewrite drop_app_length' by lia. rewrite take_app_length'; [done|lia].
Qed.
Lemma slice_prefix {A} (l k : list A) b : b = len l -> slice (l ++ k) 0 b = l.
Proof. intros ->. apply (slice_app [] l k); [done | unfold len; simpl; lia]. Qed.
Lemma slice_suffix {A} (l k : list A) a b :
  a = len l -> b = len l + len k -> slice (l ++ k) a b = k.
Proof. intros. rewrite <- (app_nil_r k) at 1. now apply slice_app. Qed.

Lemma NoDup_map_inj {A B} (f : A -> B) (l : list A) a b :
  NoDup (map f l) -> a ∈ l -> b ∈ l -> f a = f b -> a = b.
Proof.
  induction l as [|x l IH]; simpl; intros ND Ha Hb E; [by apply not_elem_of_nil in Ha|].
  apply NoDup_cons in ND as [Nx ND]. apply elem_of_cons in Ha as [-> |Ha], Hb as [-> |Hb]; auto.
  - exfalso. apply Nx. rewrite E. by apply list_elem_of_fmap_2.
  - exfalso. apply Nx. rewrite <- E. by apply list_elem_of_fmap_2.
Qed.

Create HintDb len.
Create Rewrite HintDb len.
#[export] Hint Rewrite @len_nil @len_cons @len_app : len.
#[export] Hint Resolve len_nonneg : len.

(** ** Tactics of the development *)

(** Case analysis on every boolean comparison of integers in sight. *)
Ltac bdestruct_step :=
  match goal with
  | |- context [?a =? ?b] => destruct (Z.eqb_spec a b)
  | |- context [?a <=? ?b] => destruct (Z.leb_spec a b)
  | |- context [?a <? ?b] => destruct (Z.ltb_spec a b)
  | H : context [?a =? ?b] |- _ => destruct (Z.eqb_spec a b)
  | H : context [?a <=? ?b] |- _ => destruct (Z.leb_spec a b)
  | H : context [?a <? ?b] |- _ => destruct (Z.ltb_spec a b)
  end.
Ltac bdestruct := repeat (bdestruct_step; try lia; simpl).

(** [lia] that also knows the defining equations of [/] and [mod]. *)
Ltac dlia := Z.to_euclidean_division_equations; lia.

(** Inversion of the result of a monadic computation. *)
Ltac inv_result :=
  repeat match goal with
  | H : (_, _) = (_, _) |- _ => injection H as H; subst
  | H : Ok _ = Ok _ |- _ => injection H as H; subst
  | H : Err _ = Err _ |- _ => injection H as H; subst
  | H : Ok _ = Err _ |- _ => discriminate H
  | H : Err _ = Ok _ |- _ => discriminate H
  | H : Panic = Ok _ |- _ => discriminate H
  | H : Ok _ = Panic |- _ => discriminate H
  | H : Err _ = Panic |- _ => discriminate H
  | H : Panic = Err _ |- _ => discriminate H
  end.

(** Unfold the monad's plumbing. *)
Ltac munfold := unfold bind, ret, throw, panic, gets, modify, lift, get, rget, rbind in *.

Lemma forallb_Forall {A} (f : A -> bool) l : forallb f l = true <-> Forall (fun x => f x = true) l.
Proof. rewrite forallb_forall, List.Forall_forall. done. Qed.

(** A loop with a variable, and one without. *)
Fixpoint foldM {S Er A B} (f : B -> A -> ST S Er B) (l : list A) (b : B) : ST S Er B :=
  match l with
  | [] => ret b
  | a :: l => let! b := f b a in foldM f l b
  end.
Fixpoint each {S Er A} (f : A -> ST S Er unit) (l : list A) : ST S Er unit :=
  match l with
  | [] => ret tt
  | a :: l => f a ;;; each f l
  end.

(** ** The order of a range over a Go map: any one *)

Class GoRange (K V : Type) `{Countable K} := {
  go_range : gmap K V -> list (K * V);
  go_range_perm : forall m, go_range m ≡ₚ map_to_list m }.
#[export] Instance list_range (K V : Type) `{Countable K} : GoRange K V := {| go_range := map_to_list; go_range_perm := fun m => reflexivity _ |}.

(** The keys of a map whose values do not matter. *)
Class GoKeys (K : Type) `{Countable K} := {
  go_keys : gset K -> list K;
  go_keys_perm : forall s, go_keys s ≡ₚ elements s }.
#[export] Instance set_keys (K : Type) `{Countable K} : GoKeys K := {| go_keys := elements; go_keys_perm := fun s => reflexivity _ |}.
