(* ===== verification/Errors.v ===== *)
(** The error values of the script engine: the sentinel errors of
    src/tokenengine/internal/txscript/error.go, one constructor for each place of the
    package that builds an error with [fmt.Errorf] or [errors.New], and [ErrExternal] for an
    error handed over by code outside the package. *)

From S2P Require Import Prelude.

(** Why [checkSignatureEncoding] rejects a signature (engine.go). *)
Inductive sig_error :=
| SigTooShort | SigTooLong | SigWrongType | SigBadLength | SigSOutOfBounds
| SigInvalidRLength | SigMissingFirstMarker | SigRLengthZero | SigRNegative
| SigInvalidR | SigMissingSecondMarker | SigSLengthZero | SigSNegative | SigInvalidS.

Inductive error :=
| ErrStackShortScript
| ErrStackLongScript
| ErrStackUnderflow
| ErrStackInvalidArgs
| ErrStackOpDisabled
| ErrStackVerifyFailed
| ErrStackNumberTooBig
| ErrStackInvalidOpcode
| ErrStackReservedOpcode
| ErrStackEarlyReturn
| ErrStackNoIf
| ErrStackMissingEndif
| ErrStackTooManyPubKeys
| ErrStackTooManyOperations
| ErrStackElementTooBig
| ErrStackUnknownAddress
| ErrStackScriptFailed
| ErrStackScriptUnfinished
| ErrStackEmptyStack
| ErrStackP2SHNonPushOnly
| ErrStackP2CHNonPushOnly
| ErrStackInvalidParseType
| ErrStackInvalidAddrOffset
| ErrStackInvalidIndex
| ErrStackNonPushOnly
| ErrStackOverflow
| ErrStackInvalidLowSSignature
| ErrStackInvalidPubKey
| ErrStackCleanStack
| ErrStackMinimalData
| ErrInvalidFlags
| ErrInvalidIndex
| ErrUnsupportedAddress
| ErrBadNumRequired
(* errors built in place *)
| ErrInvalidOpcodeLength (l : Z)
| ErrPastInputScripts
| ErrInvalidHashType (hashType : Z)
| ErrMalformedSignature (why : sig_error)
| ErrNopReserved (n : Z)
| ErrNegativeLockTime
| ErrMismatchedLockTime
| ErrUnsatisfiedLockTime
| ErrNegativeSignatureCount
| ErrMoreSignaturesThanKeys
| ErrMultisigDummy
| ErrScriptNotCanonical
| ErrCannotParseOutput
| ErrCannotSignInput
| ErrCannotSignNullData
| ErrCannotSignUnknown
| ErrInvalidUnlockScript
| ErrInvalidPaymentMessage
| ErrUtxoNotFound
| ErrExternal (msg : string).
