(* ===== verification/ScriptNum.v ===== *)
(** Script numbers: src/tokenengine/internal/txscript/scriptnum.go.

    A script number is an int64 serialised little endian with a sign bit in the most
    significant byte.  [Bytes], [Int32], [checkMinimalDataEncoding] and [makeScriptNum] are the
    functions of the file.  The specification side is [sm_value], the sign-magnitude value of a
    byte string: the lemmas show that decoding computes it, that [Bytes] is its inverse on
    minimal encodings, and hence that every number has exactly one minimal encoding. *)

From Stdlib Require Import ZArith Lia.
From S2P Require Import Prelude Errors.

Definition maxInt32 : Z := 2 ^ 31 - 1.
Definition minInt32 : Z := - 2 ^ 31.
Definition defaultScriptNumLen : Z := 4.

Definition checkMinimalDataEncoding (v : bytes) : result error unit :=
  if len v =? 0 then Ok tt
  else
    let? msb := rget (index v (len v - 1)) in
    if Z.land (b2z msb) 0x7f =? 0 then
      if len v =? 1 then Err ErrStackMinimalData
      else
        let? prev := rget (index v (len v - 2)) in
        if Z.land (b2z prev) 0x80 =? 0 then Err ErrStackMinimalData else Ok tt
    else Ok tt.

(** The loop [for n > 0 { result = append(result, byte(n&0xff)); n >>= 8 }]; an int64 has at
    most 8 bytes, which is the fuel the caller gives. *)
Fixpoint le_loop (fuel : nat) (n : Z) : bytes :=
  match fuel with
  | O => []
  | S f => if 0 <? n then z2b (Z.land n 0xff) :: le_loop f (Z.shiftr n 8) else []
  end.

Definition Bytes (n : Z) : result error bytes :=
  if n =? 0 then Ok []
  else
    let isNegative := n <? 0 in
    let n := if isNegative then int64 (- n) else n in
    let result := le_loop 8 n in
    let? msb := rget (index result (len result - 1)) in
    if negb (Z.land (b2z msb) 0x80 =? 0) then
      let extraByte := if isNegative then x80 else x00 in
      Ok (result ++ [extraByte])
    else if isNegative then
      Ok (slice result 0 (len result - 1) ++ [z2b (Z.lor (b2z msb) 0x80)])
    else Ok result.

Definition Int32 (n : Z) : Z :=
  if maxInt32 <? n then maxInt32
  else if n <? minInt32 then minInt32
  else int32 n.

(** The loop [for i, val := range v { result |= int64(val) << uint8(8*i) }]. *)
Fixpoint decode_loop (i : Z) (result : Z) (v : bytes) : Z :=
  match v with
  | [] => result
  | val :: v' => decode_loop (i + 1) (Z.lor result (int64 (Z.shiftl (b2z val) (uint8 (8 * i))))) v'
  end.

Definition makeScriptNum (v : bytes) (requireMinimal : bool) (scriptNumLen : Z)
  : result error Z :=
  if scriptNumLen <? len v then Err ErrStackNumberTooBig
  else
    let? _ := if requireMinimal then checkMinimalDataEncoding v else Ok tt in
    if len v =? 0 then Ok 0
    else
      let result := decode_loop 0 0 v in
      let? msb := rget (index v (len v - 1)) in
      if negb (Z.land (b2z msb) 0x80 =? 0) then
        let result :=
          Z.land result (Z.lnot (int64 (Z.shiftl 0x80 (uint8 (8 * (len v - 1)))))) in
        Ok (int64 (- result))
      else Ok result.

(** ** Arithmetic of little-endian digits *)

Fixpoint le_val (v : bytes) : Z :=
  match v with
  | [] => 0
  | b :: v' => b2z b + 256 * le_val v'
  end.

(** The sign-magnitude value of a byte string. *)
Definition sm_value (v : bytes) : Z :=
  match last v with
  | None => 0
  | Some msb =>
      let m := le_val (take (length v - 1) v) + 256 ^ (len v - 1) * (b2z msb mod 128) in
      if 128 <=? b2z msb then - m else m
  end.

Lemma le_val_snoc v b : le_val (v ++ [b]) = le_val v + 256 ^ len v * b2z b.
Proof.
  induction v as [|c v IH]; simpl.
  - unfold len; simpl; lia.
  - rewrite IH, len_cons, Z.pow_add_r by (pose proof (len_nonneg v); lia). lia.
Qed.

Lemma le_val_range v : 0 <= le_val v < 256 ^ len v.
Proof.
  induction v as [|b v IH]; simpl.
  - unfold len; simpl; lia.
  - rewrite len_cons, Z.pow_add_r by (pose proof (len_nonneg v); lia).
    pose proof (b2z_range b). lia.
Qed.

Lemma pow256 n : 0 <= n -> 256 ^ n = 2 ^ (8 * n).
Proof. intros. rewrite Z.pow_mul_r by lia. reflexivity. Qed.

Lemma byte_high_bit b : Z.land (b2z b) 0x80 = 0 <-> b2z b < 128.
Proof. split; destruct b; vm_compute; congruence. Qed.

Lemma byte_low_bits b : Z.land (b2z b) 0x7f = b2z b mod 128.
Proof. destruct b; reflexivity. Qed.

Lemma byte_set_high b : b2z b < 128 -> b2z (z2b (Z.lor (b2z b) 0x80)) = b2z b + 128.
Proof. destruct b; vm_compute; congruence. Qed.

Lemma pow256_le_7 n : 0 <= n <= 7 -> 1 <= 256 ^ n <= 2 ^ 56.
Proof.
  intros. rewrite pow256 by lia. split.
  - apply (Z.pow_le_mono_r 2 0); lia.
  - apply Z.pow_le_mono_r; lia.
Qed.

(** ** Decoding computes the sign-magnitude value *)

Lemma decode_loop_snoc v b i r :
  decode_loop i r (v ++ [b]) =
  Z.lor (decode_loop i r v) (int64 (Z.shiftl (b2z b) (uint8 (8 * (i + len v))))).
Proof.
  revert i r. induction v as [|c v IH]; intros i r; simpl.
  - now replace (i + len (@nil byte)) with i by (unfold len; simpl; lia).
  - rewrite IH, len_cons. do 4 f_equal. lia.
Qed.

Lemma shift_byte b k : 0 <= k <= 6 ->
  int64 (Z.shiftl (b2z b) (uint8 (8 * k))) = b2z b * 2 ^ (8 * k) /\
  uint8 (8 * k) = 8 * k.
Proof.
  intros Hk.
  assert (Hu : uint8 (8 * k) = 8 * k) by (apply wrapU_small; simpl; lia).
  rewrite Hu, Z.shiftl_mul_pow2 by lia. split; [|done].
  apply int64_small. pose proof (b2z_range b).
  pose proof (Z.pow_le_mono_r 2 (8 * k) 48). pose proof (Z.pow_pos_nonneg 2 (8 * k)). nia.
Qed.

Lemma decode_loop_le_val v : len v <= 7 -> decode_loop 0 0 v = le_val v.
Proof.
  induction v as [|b v IH] using rev_ind; intros Hl; [done|].
  rewrite len_app in Hl. change (len [b]) with 1 in Hl. pose proof (len_nonneg v).
  rewrite decode_loop_snoc, IH, le_val_snoc by lia.
  destruct (shift_byte b (0 + len v)) as [_ Hu]; [lia|].
  rewrite Hu. pose proof (le_val_range v) as Hv. rewrite pow256 in Hv |- * by lia.
  rewrite <- Hu. destruct (shift_byte b (0 + len v)) as [-> _]; [lia|].
  rewrite <- Z.shiftl_mul_pow2 by lia. rewrite lor_shiftl_add by (rewrite ?Z.add_0_l; lia).
  rewrite Z.add_0_l. lia.
Qed.

Lemma sm_value_snoc v b :
  sm_value (v ++ [b]) =
  (let m := le_val v + 256 ^ len v * (b2z b mod 128) in if 128 <=? b2z b then - m else m).
Proof.
  unfold sm_value. rewrite last_snoc, len_app, length_app.
  change (len [b]) with 1. change (length [b]) with 1%nat.
  rewrite Nat.add_sub, take_app_length, Z.add_simpl_r. reflexivity.
Qed.

Lemma sm_value_range v : 0 < len v -> - (2 * 256 ^ len v) < 4 * sm_value v < 2 * 256 ^ len v.
Proof.
  destruct v as [|b v _] using rev_ind; [unfold len; simpl; lia|]. intros _.
  rewrite sm_value_snoc, len_app. change (len [b]) with 1.
  rewrite Z.pow_add_r by (pose proof (len_nonneg v); lia).
  pose proof (le_val_range v). pose proof (b2z_range b).
  pose proof (Z.mod_pos_bound (b2z b) 128). cbv zeta. bdestruct; nia.
Qed.

Lemma clear_sign_bit a m k : 0 <= k -> 0 <= a < 2 ^ k -> 128 <= m < 256 ->
  Z.land (a + m * 2 ^ k) (Z.lnot (0x80 * 2 ^ k)) = a + (m mod 128) * 2 ^ k.
Proof.
  intros Hk Ha Hm.
  rewrite <- !lor_shiftl_add, <- Z.shiftl_mul_pow2 by lia.
  rewrite <- Z.ldiff_land. apply Z.bits_inj'. intros i Hi.
  rewrite Z.ldiff_spec, !Z.lor_spec.
  destruct (Z.ltb_spec i k).
  - rewrite !Z.shiftl_spec_low by lia. now rewrite !orb_false_r, andb_true_r.
  - rewrite !Z.shiftl_spec by lia.
    assert (Z.testbit a i = false) as ->.
    { destruct (Z.eq_dec a 0) as [->|]; [now rewrite Z.bits_0|].
      apply Z.bits_above_log2; [lia|]. apply Z.log2_lt_pow2; [lia|].
      apply Z.lt_le_trans with (2 ^ k); [lia|]. apply Z.pow_le_mono_r; lia. }
    simpl. rewrite <- Z.ldiff_spec by lia. f_equal.
    assert (Hc : forallb (fun x => Z.ldiff (128 + Z.of_nat x) 128 =? (128 + Z.of_nat x) mod 128)
                   (seq 0 128) = true) by reflexivity.
    rewrite forallb_forall in Hc. specialize (Hc (Z.to_nat (m - 128))).
    rewrite in_seq in Hc. specialize (Hc ltac:(lia)). apply Z.eqb_eq in Hc.
    now replace (128 + Z.of_nat (Z.to_nat (m - 128))) with m in Hc by lia.
Qed.

Lemma makeScriptNum_decode v minimal k :
  k <= 7 -> len v <= k -> (minimal = true -> checkMinimalDataEncoding v = Ok tt) ->
  makeScriptNum v minimal k = Ok (sm_value v).
Proof.
  intros Hk Hl Hm. unfold makeScriptNum.
  destruct (Z.ltb_spec k (len v)); [lia|].
  assert ((if minimal then checkMinimalDataEncoding v else Ok tt) = Ok tt) as ->
    by (destruct minimal; auto).
  simpl. destruct v as [|b v _] using rev_ind; [done|].
  rewrite decode_loop_le_val by lia. rewrite le_val_snoc.
  rewrite len_app in *. change (len [b]) with 1 in *. pose proof (len_nonneg v).
  rewrite Z.add_simpl_r. rewrite index_middle by done. simpl.
  destruct (Z.eqb_spec (len v + 1) 0); [lia|]. rewrite sm_value_snoc.
  pose proof (b2z_range b). pose proof (le_val_range v) as Hv. pose proof (byte_high_bit b).
  cbv zeta. destruct (Z.eqb_spec (Z.land (b2z b) 128) 0); simpl.
  - rewrite (Z.mod_small (b2z b) 128) by lia. bdestruct. done.
  - destruct (Z.leb_spec 128 (b2z b)); [|lia].
    assert (Hu : uint8 (8 * len v) = 8 * len v) by (apply wrapU_small; simpl; lia).
    rewrite Hu, Z.shiftl_mul_pow2 by lia. rewrite pow256 in Hv |- * by lia.
    pose proof (Z.pow_le_mono_r 2 (8 * len v) 48). pose proof (Z.pow_pos_nonneg 2 (8 * len v)).
    pose proof (Z.mod_pos_bound (b2z b) 128).
    rewrite (int64_small (128 * _)) by lia.
    rewrite (Z.mul_comm (2 ^ _) (b2z b)), clear_sign_bit by lia.
    rewrite int64_small by nia. f_equal. lia.
Qed.

(** ** Encoding inverts it on minimal encodings *)

Lemma le_loop_val f n : 0 <= n < 256 ^ Z.of_nat f -> le_val (le_loop f n) = n.
Proof.
  revert n. induction f as [|f IH]; intros n Hn; simpl.
  - simpl in Hn. lia.
  - destruct (Z.ltb_spec 0 n); simpl; [|lia].
    rewrite Nat2Z.inj_succ, Z.pow_succ_r in Hn by lia.
    rewrite Z.shiftr_div_pow2 by lia. change (2 ^ 8) with 256.
    rewrite b2z_z2b, land_ff, Z.mod_mod, IH by dlia. dlia.
Qed.

Lemma le_loop_last f n : 0 < n < 256 ^ Z.of_nat f ->
  exists ds b, le_loop f n = ds ++ [b] /\ b2z b <> 0.
Proof.
  revert n. induction f as [|f IH]; intros n Hn; [simpl in Hn; lia|].
  rewrite Nat2Z.inj_succ, Z.pow_succ_r in Hn by lia. simpl.
  destruct (Z.ltb_spec 0 n); [|lia].
  rewrite Z.shiftr_div_pow2 by lia. change (2 ^ 8) with 256.
  destruct (Z.ltb_spec 0 (n / 256)).
  - destruct (IH (n / 256)) as (ds & b & -> & Hb); [dlia|].
    exists (z2b (Z.land n 255) :: ds), b. done.
  - exists [], (z2b (Z.land n 255)). split.
    + destruct f; simpl; [done|]. bdestruct. done.
    + rewrite b2z_z2b, land_ff, Z.mod_mod by lia. dlia.
Qed.

Lemma le_val_pos ds b : b2z b <> 0 -> 0 < le_val (ds ++ [b]).
Proof.
  intros Hb. rewrite le_val_snoc. pose proof (le_val_range ds). pose proof (b2z_range b).
  pose proof (Z.pow_pos_nonneg 256 (len ds)). pose proof (len_nonneg ds). nia.
Qed.

Lemma le_loop_canon f ds b : (length ds < f)%nat -> b2z b <> 0 ->
  le_loop f (le_val (ds ++ [b])) = ds ++ [b].
Proof.
  revert ds. induction f as [|f IH]; intros ds Hf Hb; [lia|]. simpl.
  pose proof (le_val_pos ds b Hb). bdestruct.
  destruct ds as [|c ds]; simpl in *.
  - rewrite land_ff, Z.shiftr_div_pow2 by lia. change (2 ^ 8) with 256.
    pose proof (b2z_range b). rewrite (Z.div_small (b2z b + 0)) by lia.
    f_equal; [apply z2b_eq; now rewrite Z.mod_mod, Z.add_0_r, Z.mod_small by lia|].
    destruct f; simpl; done.
  - rewrite land_ff, Z.shiftr_div_pow2 by lia. change (2 ^ 8) with 256.
    pose proof (b2z_range c). f_equal.
    + apply z2b_eq. rewrite Z.mod_mod by lia.
      rewrite (Z.mul_comm 256), Z.mod_add by lia. now apply Z.mod_small.
    + rewrite (Z.mul_comm 256), Z.div_add by lia. rewrite (Z.div_small (b2z c)) by lia.
      apply IH; [lia|done].
Qed.

(** [Bytes] on the magnitude digits [ds ++ [b]] of a non-zero number. *)
Lemma Bytes_digits n ds b :
  -2 ^ 63 < n < 2 ^ 63 -> n <> 0 -> le_loop 8 (Z.abs n) = ds ++ [b] ->
  Bytes n =
  Ok (if 128 <=? b2z b then (ds ++ [b]) ++ [if n <? 0 then x80 else x00]
      else if n <? 0 then ds ++ [z2b (Z.lor (b2z b) 0x80)] else ds ++ [b]).
Proof.
  intros Hn Hz Hd. unfold Bytes. destruct (Z.eqb_spec n 0); [done|].
  assert ((if n <? 0 then int64 (- n) else n) = Z.abs n) as ->.
  { bdestruct; rewrite ?int64_small; lia. }
  rewrite Hd, len_app. change (len [b]) with 1. rewrite Z.add_simpl_r, index_middle by done.
  simpl. rewrite slice_prefix by done. pose proof (byte_high_bit b).
  destruct (Z.eqb_spec (Z.land (b2z b) 128) 0), (Z.leb_spec 128 (b2z b));
    try lia; simpl; destruct (n <? 0); done.
Qed.

Lemma checkMinimal_snoc ds b :
  checkMinimalDataEncoding (ds ++ [b]) = Ok tt <->
  (b2z b mod 128 <> 0 \/ exists ds' c, ds = ds' ++ [c] /\ 128 <= b2z c).
Proof.
  unfold checkMinimalDataEncoding. rewrite len_app. change (len [b]) with 1.
  pose proof (len_nonneg ds). rewrite Z.add_simpl_r, index_middle by done. simpl.
  rewrite byte_low_bits. destruct (Z.eqb_spec (len ds + 1) 0); [lia|].
  destruct (Z.eqb_spec (b2z b mod 128) 0) as [Hb|Hb]; [|naive_solver].
  destruct ds as [|c ds' _] using rev_ind; simpl.
  - split; [done|]. intros [?|(ds' & c & E & _)]; [lia|].
    destruct ds'; discriminate.
  - rewrite len_app. change (len [c]) with 1. pose proof (len_nonneg ds').
    destruct (Z.eqb_spec (len ds' + 1 + 1) 1); [lia|].
    replace (len ds' + 1 + 1 - 2) with (len ds') by lia.
    rewrite <- app_assoc; simpl. rewrite index_middle by done. simpl. pose proof (byte_high_bit c).
    destruct (Z.eqb_spec (Z.land (b2z c) 128) 0).
    + split; [done|]. intros [?|(x & y & E & ?)]; [lia|].
      apply app_inj_2 in E as [_ [= ->]]; [lia|done].
    + split; [|done]. intros _. right. exists ds', c. split; [done|lia].
Qed.

Lemma int64_shape v n : -2 ^ 63 < n < 2 ^ 63 -> n <> 0 -> Bytes n = Ok v ->
  checkMinimalDataEncoding v = Ok tt /\ sm_value v = n.
Proof.
  intros Hn Hz HB.
  destruct (le_loop_last 8 (Z.abs n)) as (ds & b & Hd & Hb); [simpl; lia|].
  rewrite (Bytes_digits n ds b) in HB by done. inv_result.
  assert (Hv : le_val (ds ++ [b]) = Z.abs n) by (rewrite <- Hd; apply le_loop_val; simpl; lia).
  pose proof (b2z_range b). pose proof (len_nonneg ds). rewrite le_val_snoc in Hv.
  destruct (Z.leb_spec 128 (b2z b)).
  - split.
    + apply checkMinimal_snoc. right. eauto.
    + rewrite sm_value_snoc, le_val_snoc.
      destruct (Z.ltb_spec n 0); cbv zeta; [change (b2z x80) with 128 | change (b2z x00) with 0];
        bdestruct; rewrite ?Z.mod_same, ?Z.mod_0_l by lia; nia.
  - pose proof (byte_set_high b). destruct (Z.ltb_spec n 0).
    + split; [apply checkMinimal_snoc; left; dlia|].
      rewrite sm_value_snoc. cbv zeta. bdestruct.
      replace (b2z (z2b (Z.lor (b2z b) 128)) mod 128) with (b2z b) by dlia. lia.
    + split; [apply checkMinimal_snoc; left; dlia|].
      rewrite sm_value_snoc. cbv zeta. bdestruct. rewrite Z.mod_small by lia. lia.
Qed.

Lemma minimal_encoded v : len v <= 7 -> checkMinimalDataEncoding v = Ok tt ->
  Bytes (sm_value v) = Ok v.
Proof.
  destruct v as [|b ds _] using rev_ind; [done|]. intros Hl Hm.
  pose proof (sm_value_range (ds ++ [b])) as Hr. rewrite len_app in Hl, Hr.
  change (len [b]) with 1 in Hl, Hr. pose proof (len_nonneg ds).
  pose proof (pow256_le_7 (len ds + 1)) as Hp.
  assert (Hn : -2 ^ 63 < sm_value (ds ++ [b]) < 2 ^ 63) by lia. clear Hr Hp.
  apply checkMinimal_snoc in Hm. rewrite sm_value_snoc in *.
  pose proof (b2z_range b). pose proof (le_val_range ds) as Hd.
  destruct (decide (b2z b mod 128 = 0)) as [Hb|Hb].
  - destruct Hm as [?|(ds' & c & -> & Hc)]; [done|]. rewrite Hb, Z.mul_0_r, Z.add_0_r in *.
    pose proof (le_val_pos ds' c ltac:(lia)).
    set (n := (let m := le_val (ds' ++ [c]) in if 128 <=? b2z b then - m else m)) in *.
    assert (Hab : Z.abs n = le_val (ds' ++ [c])) by (subst n; cbv zeta; bdestruct).
    rewrite (Bytes_digits n ds' c); [| lia | lia |].
    + destruct (Z.leb_spec 128 (b2z c)); [|lia]. f_equal. f_equal. f_equal.
      subst n; cbv zeta in *.
      destruct (Z.leb_spec 128 (b2z b)), (Z.ltb_spec (le_val (ds' ++ [c])) 0),
        (Z.ltb_spec (- le_val (ds' ++ [c])) 0); try lia; apply b2z_inj;
        assert (b2z x80 = 128) by done; assert (b2z x00 = 0) by done; dlia.
    + rewrite Hab. apply le_loop_canon; [|lia]. rewrite len_app in *. unfold len in *; simpl in *; lia.
  - set (b' := z2b (b2z b mod 128)).
    assert (Hb' : b2z b' = b2z b mod 128) by (subst b'; rewrite b2z_z2b; apply Z.mod_small; dlia).
    set (n := (let m := le_val ds + 256 ^ len ds * (b2z b mod 128)
               in if 128 <=? b2z b then - m else m)) in *. pose proof (le_val_pos ds b' ltac:(lia)) as Hpos.
    assert (Hab : Z.abs n = le_val (ds ++ [b'])).
    { rewrite le_val_snoc, Hb' in *. subst n; cbv zeta; bdestruct. }
    rewrite (Bytes_digits n ds b'); [| lia | lia |].
    + destruct (Z.leb_spec 128 (b2z b')); [dlia|]. rewrite le_val_snoc, Hb' in Hpos.
      pose proof (byte_set_high b' ltac:(lia)) as Hs.
      subst n; cbv zeta. destruct (Z.leb_spec 128 (b2z b)); bdestruct; f_equal; f_equal; f_equal;
        apply b2z_inj; rewrite ?Hs; dlia.
    + rewrite Hab. apply le_loop_canon; [|lia]. unfold len in *; lia.
Qed.

Lemma makeScriptNum_inv v minimal k n : k <= 7 -> makeScriptNum v minimal k = Ok n ->
  len v <= k /\ sm_value v = n /\ (minimal = true -> checkMinimalDataEncoding v = Ok tt).
Proof.
  intros Hk H. unfold makeScriptNum in H. destruct (Z.ltb_spec k (len v)); [done|].
  assert (Hm : minimal = true -> checkMinimalDataEncoding v = Ok tt).
  { intros ->. destruct (checkMinimalDataEncoding v) as [[]| |]; simpl in H; done. }
  split; [lia|]. split; [|done].
  pose proof (makeScriptNum_decode v minimal k Hk ltac:(lia) Hm) as D.
  unfold makeScriptNum in D. destruct (Z.ltb_spec k (len v)); [lia|]. congruence.
Qed.

Lemma Bytes_total n : -2 ^ 63 < n < 2 ^ 63 -> exists v, Bytes n = Ok v.
Proof.
  intros Hn. destruct (decide (n = 0)) as [->|]; [by eexists|].
  destruct (le_loop_last 8 (Z.abs n)) as (ds & b & Hd & Hb); [simpl; lia|].
  rewrite (Bytes_digits n ds b) by done. eauto.
Qed.

Lemma Bytes_length n v k : 1 <= k <= 7 -> - 2 ^ (8 * k - 1) < n < 2 ^ (8 * k - 1) ->
  Bytes n = Ok v -> len v <= k.
Proof.
  intros Hk Hn HB. destruct (decide (n = 0)) as [->|Hz].
  { injection HB as <-. unfold len; simpl; lia. }
  assert (Hp : 2 ^ (8 * k) = 2 * 2 ^ (8 * k - 1)).
  { rewrite <- Z.pow_succ_r by lia. f_equal; lia. }
  pose proof (pow256_le_7 k ltac:(lia)) as Hp7. rewrite pow256 in Hp7 by lia.
  assert (Hn63 : Z.abs n < 9223372036854775808) by (change (2 ^ 56) with 72057594037927936 in Hp7; lia).
  destruct (le_loop_last 8 (Z.abs n)) as (ds & b & Hd & Hb); [change (256 ^ Z.of_nat 8) with 18446744073709551616; lia|].
  assert (Hv : le_val (ds ++ [b]) = Z.abs n) by (rewrite <- Hd; apply le_loop_val; change (256 ^ Z.of_nat 8) with 18446744073709551616; lia).
  rewrite (Bytes_digits n ds b) in HB; [|change (2 ^ 63) with 9223372036854775808; lia|done|done]. inv_result.
  rewrite le_val_snoc in Hv. pose proof (le_val_range ds). pose proof (b2z_range b).
  pose proof (len_nonneg ds) as Hl. rewrite pow256 in * by lia.
  assert (Hlt : len ds < k).
  { destruct (Z.le_gt_cases k (len ds)); [|lia].
    pose proof (Z.pow_le_mono_r 2 (8 * k) (8 * len ds)). nia. }
  destruct (Z.leb_spec 128 (b2z b)).
  - rewrite !len_app. change (len [b]) with 1. destruct (n <? 0); change (len [_]) with 1.
    all: destruct (Z.eq_dec (len ds + 1) k) as [E|]; [|lia].
    all: replace (8 * k - 1) with (8 * len ds + 7) in * by lia; rewrite Z.pow_add_r in * by lia; nia.
  - destruct (n <? 0); rewrite len_app; change (len [_]) with 1; lia.
Qed.

Lemma Bytes_decode n v minimal k : -2 ^ 63 < n < 2 ^ 63 -> k <= 7 ->
  Bytes n = Ok v -> len v <= k -> makeScriptNum v minimal k = Ok n.
Proof.
  intros Hn Hk HB Hl. destruct (decide (n = 0)) as [->|Hz].
  - injection HB as <-. rewrite makeScriptNum_decode; done.
  - destruct (int64_shape v n Hn Hz HB) as [Hm <-]. now apply makeScriptNum_decode.
Qed.

(** ** Properties *)

(** A script number has exactly one minimal encoding: for every int64 value other than the
    most negative one and every length limit up to 7 bytes, decoding [v] with the minimality
    check yields [n] exactly when [v] is what [Bytes] produces for [n] and fits the limit. *)
Theorem scriptNum_codec (n k : Z) (v : bytes) :
  -2 ^ 63 < n < 2 ^ 63 -> k <= 7 ->
  (makeScriptNum v true k = Ok n <-> Bytes n = Ok v /\ len v <= k).
Proof.
  intros Hn Hk. split.
  - intros (Hl & Hv & Hm)%makeScriptNum_inv; [|done]. rewrite <- Hv.
    split; [apply minimal_encoded; auto; lia | done].
  - intros [HB Hl]. now apply Bytes_decode.
Qed.

Lemma scriptNum_codec_witness :
  makeScriptNum [xff; x00] true 4 = Ok 255 <-> Bytes 255 = Ok [xff; x00] /\ len [xff; x00] <= 4.
Proof. apply (scriptNum_codec 255 4 [xff; x00]); lia. Defined.

Lemma makeScriptNum_no_panic v minimal k : k <= 7 -> makeScriptNum v minimal k <> Panic.
Proof.
  intros Hk. destruct (Z.ltb_spec k (len v)) as [H|H].
  - unfold makeScriptNum. now rewrite (proj2 (Z.ltb_lt _ _)).
  - destruct minimal.
    + destruct (checkMinimalDataEncoding v) as [[]|e|] eqn:E.
      * now rewrite makeScriptNum_decode.
      * unfold makeScriptNum. rewrite (proj2 (Z.ltb_ge _ _)) by done. now rewrite E.
      * exfalso. revert E. unfold checkMinimalDataEncoding.
        destruct (Z.eqb_spec (len v) 0); [done|]. pose proof (len_nonneg v).
        destruct (index_Some v (len v - 1)) as [b ->]; [lia|]. simpl.
        destruct (_ =? 0); [|done]. destruct (Z.eqb_spec (len v) 1); [done|].
        destruct (index_Some v (len v - 2)) as [c ->]; [lia|]. simpl. now destruct (_ =? 0).
    + now rewrite makeScriptNum_decode.
Qed.

Lemma default_range (v : bytes) (minimal : bool) (n : Z) :
  makeScriptNum v minimal defaultScriptNumLen = Ok n ->
  - (2 ^ 31 - 1) <= n <= 2 ^ 31 - 1 /\ Int32 n = n.
Proof.
  intros (Hl & Hv & _)%makeScriptNum_inv; [|done]. unfold defaultScriptNumLen in Hl.
  assert (Hr : - (2 ^ 31 - 1) <= n <= 2 ^ 31 - 1).
  { destruct (decide (v = [])) as [->|Hne].
    - unfold sm_value in Hv; simpl in Hv; lia.
    - pose proof (sm_value_range v) as H.
      assert (0 < len v) by (destruct v; [done | rewrite len_cons; pose proof (len_nonneg v); lia]).
      pose proof (Z.pow_le_mono_r 256 (len v) 4). change (256 ^ 4) with 4294967296 in *. lia. }
  split; [done|]. unfold Int32, maxInt32, minInt32. bdestruct. apply int32_small. lia.
Qed.

(** Numeric operands are confined: whatever a 4-byte decoding accepts lies in
    [[-2^31 + 1, 2^31 - 1]], so converting it with [Int32] never clamps nor truncates. *)
Theorem scriptNum_default_range (v : bytes) (minimal : bool) (n : Z) :
  makeScriptNum v minimal defaultScriptNumLen = Ok n ->
  - (2 ^ 31 - 1) <= n <= 2 ^ 31 - 1 /\ Int32 n = n.
Proof. apply default_range. Qed.

Lemma scriptNum_default_range_witness :
  - (2 ^ 31 - 1) <= -2147483647 <= 2 ^ 31 - 1 /\ Int32 (-2147483647) = -2147483647.
Proof. apply (scriptNum_default_range [xff; xff; xff; xff] true). vm_compute. reflexivity. Defined.

(** [Bytes] is total on int64 except at the minimum value -2^63, whose negation
    overflows back to itself, so the digit loop produces nothing and indexing its last byte
    panics. *)
Lemma Bytes_panics_only_at_min (n : Z) :
  -2 ^ 63 <= n < 2 ^ 63 -> (Bytes n = Panic <-> n = -2 ^ 63).
Proof.
  intros Hn. split.
  - intros HB. destruct (decide (n = -2 ^ 63)) as [|Hne]; [done|].
    destruct (Bytes_total n) as [v Hv]; [lia|]. congruence.
  - intros ->. vm_compute. reflexivity.
Qed.
