(* ===== verification/Stack.v ===== *)
(** The script stack: src/tokenengine/internal/txscript/stack.go.

    A stack is a Go slice of byte slices, bottom first, with a flag.  Each method is a
    computation over the stack that keeps its mutations on error.  Indices are int32 as in the
    source.  The lemmas relate the slice manipulations to the stack transformations the
    comments of the source promise, written on [below ++ top] with the top of the stack at the
    right, as the comments write them. *)

From Stdlib Require Import ZArith Lia.
From S2P Require Import Prelude Errors ScriptNum.

Record stack := mkStack { stk : list bytes; verifyMinimalData : bool }.

Definition set_stk (l : list bytes) (s : stack) : stack :=
  {| stk := l; verifyMinimalData := verifyMinimalData s |}.

Definition stackM (A : Type) : Type := ST stack error A.

Definition asBool_at (n i : Z) (b : byte) : option bool :=
  if negb (beq b x00) then
    if (i =? n - 1) && beq b x80 then Some false else Some true
  else None.

(** [for i := range t { if t[i] != 0 { ... } }] *)
Fixpoint asBool_loop (n i : Z) (t : bytes) : bool :=
  match t with
  | [] => false
  | b :: t' => match asBool_at n i b with
               | Some r => r
               | None => asBool_loop n (i + 1) t'
               end
  end.

Definition asBool (t : bytes) : bool := asBool_loop (len t) 0 t.

Definition fromBool (v : bool) : bytes := if v then [x01] else [].

Definition Depth (s : stack) : Z := int32 (len (stk s)).

Definition PushByteArray (so : bytes) : stackM unit :=
  modify (fun s => set_stk (stk s ++ [so]) s).

Definition PushInt (val : Z) : stackM unit :=
  let! b := lift (Bytes val) in PushByteArray b.

Definition PushBool (val : bool) : stackM unit := PushByteArray (fromBool val).

Definition nipN (idx : Z) : stackM bytes :=
  let! s := gets stk in
  let sz := int32 (len s) in
  if (idx <? 0) || (int32 (sz - 1) <? idx) then throw ErrStackUnderflow
  else
    let! so := get (index s (sz - idx - 1)) in
    (if idx =? 0 then modify (set_stk (slice s 0 (sz - 1)))
     else if idx =? sz - 1 then modify (set_stk (slice s 1 sz))
     else modify (set_stk (slice s 0 (sz - idx - 1) ++ slice s (sz - idx) sz))) ;;;
    ret so.

Definition PopByteArray : stackM bytes := nipN 0.

Definition PopInt : stackM Z :=
  let! so := PopByteArray in
  let! minimal := gets verifyMinimalData in
  lift (makeScriptNum so minimal defaultScriptNumLen).

Definition PopBool : stackM bool :=
  let! so := PopByteArray in ret (asBool so).

Definition PeekByteArray (idx : Z) : stackM bytes :=
  let! s := gets stk in
  let sz := int32 (len s) in
  if (idx <? 0) || (sz <=? idx) then throw ErrStackUnderflow
  else get (index s (sz - idx - 1)).

Definition PeekInt (idx : Z) : stackM Z :=
  let! so := PeekByteArray idx in
  let! minimal := gets verifyMinimalData in
  lift (makeScriptNum so minimal defaultScriptNumLen).

Definition PeekBool (idx : Z) : stackM bool :=
  let! so := PeekByteArray idx in ret (asBool so).

Definition NipN (idx : Z) : stackM unit := nipN idx ;;; ret tt.

Definition Tuck : stackM unit :=
  let! so2 := PopByteArray in
  let! so1 := PopByteArray in
  PushByteArray so2 ;;;
  PushByteArray so1 ;;;
  PushByteArray so2.

Definition DropN (n : Z) : stackM unit :=
  if n <? 1 then throw ErrStackInvalidArgs
  else repeatM (Z.to_nat n) (PopByteArray ;;; ret tt).

Definition DupN (n : Z) : stackM unit :=
  if n <? 1 then throw ErrStackInvalidArgs
  else repeatM (Z.to_nat n) (let! so := PeekByteArray (n - 1) in PushByteArray so).

Definition RotN (n : Z) : stackM unit :=
  if n <? 1 then throw ErrStackInvalidArgs
  else
    let entry := int32 (int32 (3 * n) - 1) in
    repeatM (Z.to_nat n) (let! so := nipN entry in PushByteArray so).

Definition SwapN (n : Z) : stackM unit :=
  if n <? 1 then throw ErrStackInvalidArgs
  else
    let entry := int32 (int32 (2 * n) - 1) in
    repeatM (Z.to_nat n) (let! so := nipN entry in PushByteArray so).

Definition OverN (n : Z) : stackM unit :=
  if n <? 1 then throw ErrStackInvalidArgs
  else
    let entry := int32 (int32 (2 * n) - 1) in
    repeatM (Z.to_nat n) (let! so := PeekByteArray entry in PushByteArray so).

Definition PickN (n : Z) : stackM unit :=
  let! so := PeekByteArray n in PushByteArray so.

Definition RollN (n : Z) : stackM unit :=
  let! so := nipN n in PushByteArray so.

(** ** Lemmas *)

(** A Go slice that fits in memory has an int32 length here. *)
Definition fits (s : stack) : Prop := len (stk s) < 2 ^ 31.

(** Side conditions about lengths of stacks. *)
Ltac slen :=
  first [ done
        | unfold fits, len in *; simpl in *; rewrite ?length_app in *; simpl in *; lia ].

Lemma nipN_at (s : stack) (a b : list bytes) (x : bytes) :
  stk s = a ++ x :: b -> fits s -> nipN (len b) s = (set_stk (a ++ b) s, Ok x).
Proof.
  intros E F. unfold fits in F. destruct s as [l v]; simpl in *; subst l.
  pose proof (len_nonneg a). pose proof (len_nonneg b).
  autorewrite with len in F.
  unfold nipN. munfold; simpl. autorewrite with len.
  rewrite !int32_small by (rewrite ?int32_small by lia; lia).
  destruct (Z.ltb_spec (len b) 0); [lia|].
  destruct (Z.ltb_spec (len a + (len b + 1) - 1) (len b)); [lia|]. simpl.
  rewrite index_middle by lia. unfold set_stk; simpl.
  destruct (Z.eqb_spec (len b) 0) as [Hb|Hb].
  - apply len_zero in Hb as ->. rewrite slice_prefix by (unfold len; simpl; lia).
    now rewrite app_nil_r.
  - destruct (Z.eqb_spec (len b) (len a + (len b + 1) - 1)).
    + assert (Ha : a = []) by (apply len_zero; lia). subst a. simpl.
      rewrite (slice_suffix [x] b); [done|done|unfold len; simpl; lia].
    + rewrite slice_prefix by lia.
      replace (a ++ x :: b) with ((a ++ [x]) ++ b) by (now rewrite <- app_assoc).
      rewrite slice_suffix by (autorewrite with len; lia). done.
Qed.

Lemma nipN_short (s : stack) idx :
  fits s -> idx < 0 \/ len (stk s) <= idx -> nipN idx s = (s, Err ErrStackUnderflow).
Proof.
  intros F H. unfold fits in F. pose proof (len_nonneg (stk s)).
  unfold nipN. munfold. rewrite !int32_small by (rewrite ?int32_small by lia; lia).
  bdestruct; done.
Qed.

Lemma split_at_depth {A} (l : list A) idx : 0 <= idx < len l ->
  exists a x b, l = a ++ x :: b /\ len b = idx.
Proof.
  intros H. destruct (index_Some l (len l - idx - 1)) as [x Hx]; [lia|].
  unfold index in Hx. destruct (_ <? 0) eqn:E; [lia|].
  apply take_drop_middle in Hx.
  set (i := Z.to_nat (len l - idx - 1)) in *.
  exists (take i l), x, (drop (S i) l). split; [done|].
  unfold len in *; rewrite length_drop; lia.
Qed.

Lemma nipN_cases (s : stack) idx : fits s ->
  nipN idx s = (s, Err ErrStackUnderflow) \/
  exists a x b, stk s = a ++ x :: b /\ len b = idx /\ nipN idx s = (set_stk (a ++ b) s, Ok x).
Proof.
  intros F. destruct (decide (0 <= idx < len (stk s))) as [H|H].
  - right. destruct (split_at_depth (stk s) idx H) as (a & x & b & E & <-).
    exists a, x, b. split; [done|]. split; [done|]. now apply nipN_at.
  - left. apply nipN_short; [done|lia].
Qed.

Lemma PeekByteArray_at (s : stack) (a b : list bytes) (x : bytes) :
  stk s = a ++ x :: b -> fits s -> PeekByteArray (len b) s = (s, Ok x).
Proof.
  intros E F. unfold fits in F. rewrite E in F.
  pose proof (len_nonneg a). pose proof (len_nonneg b). autorewrite with len in F.
  unfold PeekByteArray. munfold. rewrite E. autorewrite with len.
  rewrite int32_small by lia. bdestruct. rewrite index_middle by lia. done.
Qed.

Lemma PeekByteArray_short (s : stack) idx :
  fits s -> idx < 0 \/ len (stk s) <= idx -> PeekByteArray idx s = (s, Err ErrStackUnderflow).
Proof.
  intros F H. unfold fits in F. pose proof (len_nonneg (stk s)).
  unfold PeekByteArray. munfold. rewrite int32_small by lia. bdestruct; done.
Qed.

Lemma PeekByteArray_cases (s : stack) idx : fits s ->
  PeekByteArray idx s = (s, Err ErrStackUnderflow) \/
  exists a x b, stk s = a ++ x :: b /\ len b = idx /\ PeekByteArray idx s = (s, Ok x).
Proof.
  intros F. destruct (decide (0 <= idx < len (stk s))) as [H|H].
  - right. destruct (split_at_depth (stk s) idx H) as (a & x & b & E & <-).
    exists a, x, b. split; [done|]. split; [done|]. now apply (PeekByteArray_at s a b).
  - left. apply PeekByteArray_short; [done|lia].
Qed.

Lemma PopByteArray_snoc (s : stack) a x :
  stk s = a ++ [x] -> fits s -> PopByteArray s = (set_stk a s, Ok x).
Proof.
  intros E F. unfold PopByteArray. change 0 with (len (@nil bytes)).
  erewrite nipN_at by done. now rewrite app_nil_r.
Qed.

Lemma PopByteArray_nil (s : stack) : stk s = [] -> PopByteArray s = (s, Err ErrStackUnderflow).
Proof. intros E. apply nipN_short; unfold fits; rewrite E; unfold len; simpl; lia. Qed.

Lemma set_stk_set l l' s : set_stk l (set_stk l' s) = set_stk l s.
Proof. done. Qed.
Lemma set_stk_stk s : set_stk (stk s) s = s.
Proof. now destruct s. Qed.

(** Moving the [L]-th item to the top [k] times rotates the top [L] items by [k]. *)
Lemma roll_loop (k : nat) (L : Z) (s : stack) (a w : list bytes) :
  stk s = a ++ w -> len w = L -> (k <= length w)%nat -> fits s -> 0 < L ->
  repeatM k (let! so := nipN (L - 1) in PushByteArray so) s
  = (set_stk (a ++ drop k w ++ take k w) s, Ok tt).
Proof.
  revert s w. induction k as [|k IH]; intros s w E HL Hk F HL0; simpl.
  - unfold ret. rewrite drop_0, take_0, app_nil_r, <- E. now rewrite set_stk_stk.
  - destruct w as [|x w]; [simpl in Hk; lia|]. simpl in Hk.
    rewrite len_cons in HL.
    assert (N : nipN (L - 1) s = (set_stk (a ++ w) s, Ok x)).
    { replace (L - 1) with (len w) by lia. now apply nipN_at. }
    erewrite bind_ok; [|erewrite bind_ok; [reflexivity|exact N]].
    assert (E' : stk (set_stk (stk (set_stk (a ++ w) s) ++ [x]) (set_stk (a ++ w) s))
                 = a ++ (w ++ [x])) by (simpl; now rewrite app_assoc).
    erewrite (IH _ (w ++ [x])); [| exact E' | | rewrite length_app; simpl; lia | | done].
    + rewrite !set_stk_set. f_equal. f_equal. f_equal. simpl.
      rewrite drop_app_le, take_app_le by lia. now rewrite <- app_assoc.
    + autorewrite with len. lia.
    + unfold fits in *. rewrite E'. rewrite E in F. autorewrite with len in *. lia.
Qed.

(** Copying the [L]-th item to the top [k] times copies the first [k] of the top [L] items. *)
Lemma copy_loop (k : nat) (L : Z) (s : stack) (a w : list bytes) :
  stk s = a ++ w -> len w = L -> (k <= length w)%nat -> 0 < L ->
  len (stk s) + Z.of_nat k < 2 ^ 31 ->
  repeatM k (let! so := PeekByteArray (L - 1) in PushByteArray so) s
  = (set_stk (a ++ w ++ take k w) s, Ok tt).
Proof.
  revert s a w. induction k as [|k IH]; intros s a w E HL Hk HL0 F; simpl.
  - unfold ret. rewrite take_0, app_nil_r, <- E. now rewrite set_stk_stk.
  - destruct w as [|x w]; [simpl in Hk; lia|]. simpl in Hk. rewrite len_cons in HL.
    assert (P : PeekByteArray (L - 1) s = (s, Ok x)).
    { replace (L - 1) with (len w) by lia. apply (PeekByteArray_at s a w); [done|].
      unfold fits. lia. }
    erewrite bind_ok; [|erewrite bind_ok; [reflexivity|exact P]].
    erewrite (IH _ (a ++ [x]) (w ++ [x])).
    + rewrite set_stk_set. f_equal. f_equal. simpl. rewrite <- !app_assoc. simpl.
      do 3 f_equal. rewrite take_app_le by lia. done.
    + simpl. rewrite E. now rewrite <- !app_assoc.
    + autorewrite with len. lia.
    + rewrite length_app; simpl; lia.
    + done.
    + simpl. autorewrite with len. lia.
Qed.

Lemma drop_loop (s : stack) (a w : list bytes) :
  stk s = a ++ w -> fits s ->
  repeatM (length w) (PopByteArray ;;; ret tt) s = (set_stk a s, Ok tt).
Proof.
  revert s. induction w as [|x w IH] using rev_ind; intros s E F; simpl.
  - rewrite app_nil_r in E. unfold ret. rewrite <- E. now rewrite set_stk_stk.
  - rewrite length_app, Nat.add_comm. simpl.
    rewrite app_assoc in E.
    pose proof (PopByteArray_snoc s (a ++ w) x E F) as N.
    erewrite bind_ok; [|erewrite bind_ok; [reflexivity|exact N]].
    rewrite IH; [done|done|]. unfold fits in *. simpl. rewrite E in F.
    autorewrite with len in *. lia.
Qed.

Lemma entry_small m n : 1 <= n -> 0 <= m -> m * n < 2 ^ 31 -> int32 (int32 (m * n) - 1) = m * n - 1.
Proof. intros. rewrite (int32_small (m * n)) by nia. apply int32_small. nia. Qed.

Lemma repeatM_err {S E} k (m : ST S E unit) s s' e :
  m s = (s', Err e) -> (0 < k)%nat -> repeatM k m s = (s', Err e).
Proof. intros H Hk. destruct k; [lia|]. simpl. now apply bind_err. Qed.

Lemma drop_all (k : nat) (s : stack) : fits s -> len (stk s) < Z.of_nat k ->
  repeatM k (PopByteArray ;;; ret tt) s = (set_stk [] s, Err ErrStackUnderflow).
Proof.
  intros F. destruct s as [l v]. revert l F. induction k as [|k IH]; intros l F Hk; simpl in *.
  - pose proof (len_nonneg l). lia.
  - destruct l as [|x l _] using rev_ind.
    + apply bind_err, bind_err. now apply PopByteArray_nil.
    + pose proof (PopByteArray_snoc (mkStack (l ++ [x]) v) l x eq_refl F) as N.
      erewrite bind_ok; [|erewrite bind_ok; [reflexivity|exact N]].
      unfold set_stk, fits in *. simpl in *. autorewrite with len in *.
      apply IH; [unfold fits; simpl|]; lia.
Qed.

(** ** Properties *)

(** The multi-item stack operations perform the transformations their comments promise,
    for every count [n]: SwapN, RotN, OverN, DupN and DropN on the top blocks [xs], [ys], [zs]
    of [n] items each, above any [a]. *)
Theorem stack_shuffles (n : Z) (a xs ys zs : list bytes) (v : bool) :
  1 <= n -> len xs = n -> len ys = n -> len zs = n -> len a + 4 * n < 2 ^ 31 ->
  SwapN n (mkStack (a ++ xs ++ ys) v) = (mkStack (a ++ ys ++ xs) v, Ok tt) /\
  RotN n (mkStack (a ++ xs ++ ys ++ zs) v) = (mkStack (a ++ ys ++ zs ++ xs) v, Ok tt) /\
  OverN n (mkStack (a ++ xs ++ ys) v) = (mkStack (a ++ xs ++ ys ++ xs) v, Ok tt) /\
  DupN n (mkStack (a ++ xs) v) = (mkStack (a ++ xs ++ xs) v, Ok tt) /\
  DropN n (mkStack (a ++ xs) v) = (mkStack a v, Ok tt).
Proof.
  intros Hn Hx Hy Hz Hb. pose proof (len_nonneg a).
  assert (Hnx : Z.to_nat n = length xs) by (unfold len in Hx; lia).
  unfold SwapN, RotN, OverN, DupN, DropN. rewrite !entry_small by lia.
  destruct (Z.ltb_spec n 1); [lia|]. split; [|split; [|split; [|split]]].
  - erewrite (roll_loop _ (2 * n) _ a (xs ++ ys)) by slen.
    now rewrite Hnx, drop_app_length, take_app_length.
  - erewrite (roll_loop _ (3 * n) _ a (xs ++ ys ++ zs)) by slen.
    rewrite Hnx, drop_app_length, take_app_length. now rewrite <- app_assoc.
  - erewrite (copy_loop _ (2 * n) _ a (xs ++ ys)) by slen.
    rewrite Hnx, take_app_length. now rewrite <- app_assoc.
  - erewrite (copy_loop _ n _ a xs) by slen. now rewrite Hnx, firstn_all.
  - rewrite Hnx. now erewrite (drop_loop _ a xs) by slen.
Qed.

Lemma stack_shuffles_witness :
  SwapN 2 (mkStack ([[]] ++ [[x01]; [x02]] ++ [[x03]; [x04]]) true)
  = (mkStack ([[]] ++ [[x03]; [x04]] ++ [[x01]; [x02]]) true, Ok tt).
Proof.
  apply (stack_shuffles 2 [[]] [[x01]; [x02]] [[x03]; [x04]] [[x05]; [x06]] true);
    vm_compute; congruence.
Defined.

(** The single-item operations act on the item [x] that has [b] above it: PickN copies it
    to the top, RollN moves it there, NipN removes it, PeekByteArray reads it; Tuck puts a copy
    of the top item below the second one. *)
Theorem stack_item_access (a b : list bytes) (x y : bytes) (v : bool) :
  len a + len b + 3 < 2 ^ 31 ->
  PickN (len b) (mkStack (a ++ x :: b) v) = (mkStack (a ++ x :: b ++ [x]) v, Ok tt) /\
  RollN (len b) (mkStack (a ++ x :: b) v) = (mkStack (a ++ b ++ [x]) v, Ok tt) /\
  NipN (len b) (mkStack (a ++ x :: b) v) = (mkStack (a ++ b) v, Ok tt) /\
  PeekByteArray (len b) (mkStack (a ++ x :: b) v) = (mkStack (a ++ x :: b) v, Ok x) /\
  Tuck (mkStack (a ++ [x; y]) v) = (mkStack (a ++ [y; x; y]) v, Ok tt).
Proof.
  intros Hb. pose proof (len_nonneg a). pose proof (len_nonneg b).
  assert (F : fits (mkStack (a ++ x :: b) v)) by (unfold fits; simpl; autorewrite with len; lia).
  pose proof (nipN_at (mkStack (a ++ x :: b) v) a b x eq_refl F) as N.
  pose proof (PeekByteArray_at (mkStack (a ++ x :: b) v) a b x eq_refl F) as P.
  split; [|split; [|split; [|split; [done|]]]].
  - unfold PickN. erewrite bind_ok by exact P. unfold PushByteArray, modify, set_stk. simpl.
    now rewrite <- app_assoc.
  - unfold RollN. erewrite bind_ok by exact N. unfold PushByteArray, modify, set_stk. simpl.
    now rewrite <- app_assoc.
  - unfold NipN. now erewrite bind_ok by exact N.
  - unfold Tuck.
    erewrite bind_ok; [| apply (PopByteArray_snoc _ (a ++ [x]) y); simpl;
      [now rewrite <- app_assoc | unfold fits; simpl; autorewrite with len; lia]].
    erewrite bind_ok; [| apply (PopByteArray_snoc _ a x); simpl;
      [done | unfold fits; simpl; autorewrite with len; lia]].
    unfold PushByteArray, modify, set_stk, bind. simpl. now rewrite <- !app_assoc.
Qed.

Lemma stack_item_access_witness :
  RollN (len [[x03]]) (mkStack ([[x01]] ++ [x02] :: [[x03]]) false)
  = (mkStack ([[x01]] ++ [[x03]] ++ [[x02]]) false, Ok tt).
Proof. apply (stack_item_access [[x01]] [[x03]] [x02] [] false). vm_compute. reflexivity. Defined.

(** A stack that is too short makes every operation fail with ErrStackUnderflow and never
    panic; the failing operation leaves the stack as it was, except DropN, which has emptied it. *)
Lemma stack_underflow (n : Z) (s : stack) :
  1 <= n -> 3 * n < 2 ^ 31 -> fits s ->
  (len (stk s) < 2 * n -> SwapN n s = (s, Err ErrStackUnderflow)) /\
  (len (stk s) < 3 * n -> RotN n s = (s, Err ErrStackUnderflow)) /\
  (len (stk s) < 2 * n -> OverN n s = (s, Err ErrStackUnderflow)) /\
  (len (stk s) < n -> DupN n s = (s, Err ErrStackUnderflow)) /\
  (len (stk s) < n -> DropN n s = (set_stk [] s, Err ErrStackUnderflow)) /\
  (len (stk s) <= n -> PickN n s = (s, Err ErrStackUnderflow)) /\
  (len (stk s) <= n -> RollN n s = (s, Err ErrStackUnderflow)).
Proof.
  intros Hn H3 F.
  unfold SwapN, RotN, OverN, DupN, DropN. rewrite !entry_small by lia.
  destruct (Z.ltb_spec n 1); [lia|].
  repeat split; intros Hs; try (apply drop_all; [done|lia]);
    try (apply repeatM_err; [|lia]); apply bind_err;
    first [apply nipN_short | apply PeekByteArray_short]; done || lia.
Qed.

(** Popping an encoded number. *)
Lemma PopInt_snoc (s : stack) a n v : stk s = a ++ [v] -> Bytes n = Ok v -> - (2 ^ 31 - 1) <= n <= 2 ^ 31 - 1 ->
  fits s -> PopInt s = (set_stk a s, Ok n).
Proof.
  intros E B R F. assert (Hl : len v <= 4) by (apply (Bytes_length n); [lia|simpl; lia|done]).
  unfold PopInt. rewrite (bind_ok _ _ _ _ _ (PopByteArray_snoc s a v E F)). unfold bind, gets, lift.
  f_equal. apply Bytes_decode; unfold defaultScriptNumLen; [lia|lia|done|lia].
Qed.

(** A number pushed with PushInt and popped with PopInt comes back unchanged, whatever the
    minimal-data setting, for every value a 4-byte number can hold. *)
Lemma PushInt_PopInt (n : Z) (s : stack) :
  - (2 ^ 31 - 1) <= n <= 2 ^ 31 - 1 -> len (stk s) + 1 < 2 ^ 31 ->
  (PushInt n ;;; PopInt) s = (s, Ok n).
Proof.
  intros Hn F. destruct (Bytes_total n) as [v Hv]; [lia|].
  erewrite bind_ok.
  2:{ unfold PushInt. erewrite bind_ok; [|unfold lift; now rewrite Hv]. reflexivity. }
  rewrite (PopInt_snoc _ (stk s) n v); [now destruct s|done|done|done|].
  unfold fits. simpl. autorewrite with len. lia.
Qed.
