(* ===== verification/Opcode.v ===== *)
(** Opcodes: src/tokenengine/internal/txscript/opcode.go, the constants, the table
    [opcodeArray] and the methods of [parsedOpcode].

    The handler of an opcode, a function pointer in the source, is named here by a constructor
    of [opfunc] (one for each function the table refers to); Engine.v runs it. *)

From Stdlib Require Import ZArith Lia.
From S2P Require Import Prelude Errors.

(** ** Opcode values *)

Definition OP_0 : byte := x00.
Definition OP_FALSE : byte := x00.
Definition OP_DATA_1 : byte := x01.
Definition OP_DATA_20 : byte := x14.
Definition OP_PUSHDATA1 : byte := x4c.
Definition OP_PUSHDATA2 : byte := x4d.
Definition OP_PUSHDATA4 : byte := x4e.
Definition OP_1NEGATE : byte := x4f.
Definition OP_RESERVED : byte := x50.
Definition OP_1 : byte := x51.
Definition OP_TRUE : byte := x51.
Definition OP_2 : byte := x52.
Definition OP_3 : byte := x53.
Definition OP_4 : byte := x54.
Definition OP_5 : byte := x55.
Definition OP_6 : byte := x56.
Definition OP_7 : byte := x57.
Definition OP_8 : byte := x58.
Definition OP_9 : byte := x59.
Definition OP_10 : byte := x5a.
Definition OP_11 : byte := x5b.
Definition OP_12 : byte := x5c.
Definition OP_13 : byte := x5d.
Definition OP_14 : byte := x5e.
Definition OP_15 : byte := x5f.
Definition OP_16 : byte := x60.
Definition OP_NOP : byte := x61.
Definition OP_VER : byte := x62.
Definition OP_IF : byte := x63.
Definition OP_NOTIF : byte := x64.
Definition OP_VERIF : byte := x65.
Definition OP_VERNOTIF : byte := x66.
Definition OP_ELSE : byte := x67.
Definition OP_ENDIF : byte := x68.
Definition OP_VERIFY : byte := x69.
Definition OP_RETURN : byte := x6a.
Definition OP_TOALTSTACK : byte := x6b.
Definition OP_FROMALTSTACK : byte := x6c.
Definition OP_2DROP : byte := x6d.
Definition OP_2DUP : byte := x6e.
Definition OP_3DUP : byte := x6f.
Definition OP_2OVER : byte := x70.
Definition OP_2ROT : byte := x71.
Definition OP_2SWAP : byte := x72.
Definition OP_IFDUP : byte := x73.
Definition OP_DEPTH : byte := x74.
Definition OP_DROP : byte := x75.
Definition OP_DUP : byte := x76.
Definition OP_NIP : byte := x77.
Definition OP_OVER : byte := x78.
Definition OP_PICK : byte := x79.
Definition OP_ROLL : byte := x7a.
Definition OP_ROT : byte := x7b.
Definition OP_SWAP : byte := x7c.
Definition OP_TUCK : byte := x7d.
Definition OP_CAT : byte := x7e.
Definition OP_SUBSTR : byte := x7f.
Definition OP_LEFT : byte := x80.
Definition OP_RIGHT : byte := x81.
Definition OP_SIZE : byte := x82.
Definition OP_INVERT : byte := x83.
Definition OP_AND : byte := x84.
Definition OP_OR : byte := x85.
Definition OP_XOR : byte := x86.
Definition OP_EQUAL : byte := x87.
Definition OP_EQUALVERIFY : byte := x88.
Definition OP_RESERVED1 : byte := x89.
Definition OP_RESERVED2 : byte := x8a.
Definition OP_1ADD : byte := x8b.
Definition OP_1SUB : byte := x8c.
Definition OP_2MUL : byte := x8d.
Definition OP_2DIV : byte := x8e.
Definition OP_NEGATE : byte := x8f.
Definition OP_ABS : byte := x90.
Definition OP_NOT : byte := x91.
Definition OP_0NOTEQUAL : byte := x92.
Definition OP_ADD : byte := x93.
Definition OP_SUB : byte := x94.
Definition OP_MUL : byte := x95.
Definition OP_DIV : byte := x96.
Definition OP_MOD : byte := x97.
Definition OP_LSHIFT : byte := x98.
Definition OP_RSHIFT : byte := x99.
Definition OP_BOOLAND : byte := x9a.
Definition OP_BOOLOR : byte := x9b.
Definition OP_NUMEQUAL : byte := x9c.
Definition OP_NUMEQUALVERIFY : byte := x9d.
Definition OP_NUMNOTEQUAL : byte := x9e.
Definition OP_LESSTHAN : byte := x9f.
Definition OP_GREATERTHAN : byte := xa0.
Definition OP_LESSTHANOREQUAL : byte := xa1.
Definition OP_GREATERTHANOREQUAL : byte := xa2.
Definition OP_MIN : byte := xa3.
Definition OP_MAX : byte := xa4.
Definition OP_WITHIN : byte := xa5.
Definition OP_RIPEMD160 : byte := xa6.
Definition OP_SHA1 : byte := xa7.
Definition OP_SHA256 : byte := xa8.
Definition OP_HASH160 : byte := xa9.
Definition OP_HASH256 : byte := xaa.
Definition OP_CODESEPARATOR : byte := xab.
Definition OP_CHECKSIG : byte := xac.
Definition OP_CHECKSIGVERIFY : byte := xad.
Definition OP_CHECKMULTISIG : byte := xae.
Definition OP_CHECKMULTISIGVERIFY : byte := xaf.
Definition OP_NOP1 : byte := xb0.
Definition OP_NOP2 : byte := xb1.
Definition OP_CHECKLOCKTIMEVERIFY : byte := xb1.
Definition OP_NOP3 : byte := xb2.
Definition OP_NOP4 : byte := xb3.
Definition OP_NOP5 : byte := xb4.
Definition OP_NOP6 : byte := xb5.
Definition OP_NOP7 : byte := xb6.
Definition OP_NOP8 : byte := xb7.
Definition OP_NOP9 : byte := xb8.
Definition OP_NOP10 : byte := xb9.
Definition OP_JURY_REDEEM_EQUAL : byte := xc8.
Definition OP_SMALLDATA : byte := xf9.
Definition OP_SMALLINTEGER : byte := xfa.
Definition OP_PUBKEYS : byte := xfb.
Definition OP_PUBKEYHASH : byte := xfd.
Definition OP_PUBKEY : byte := xfe.
Definition OP_INVALIDOPCODE : byte := xff.

Definition OpCondFalse : Z := 0.
Definition OpCondTrue : Z := 1.
Definition OpCondSkip : Z := 2.

(** ** The opcode table *)

Inductive opfunc :=
| fnFalse | fnPushData | fn1Negate | fnReserved | fnN | fnNop | fnIf | fnNotIf | fnElse
| fnEndif | fnVerify | fnCheckLockTimeVerify | fnToAltStack | fnFromAltStack | fn2Drop
| fn2Dup | fn3Dup | fn2Over | fn2Rot | fn2Swap | fnIfDup | fnDepth | fnDrop | fnDup | fnNip
| fnOver | fnPick | fnRoll | fnRot | fnSwap | fnTuck | fnDisabled | fnSize | fnEqual
| fnEqualVerify | fn1Add | fn1Sub | fnNegate | fnAbs | fnNot | fn0NotEqual | fnAdd | fnSub
| fnBoolAnd | fnBoolOr | fnNumEqual | fnNumEqualVerify | fnNumNotEqual | fnLessThan
| fnGreaterThan | fnLessThanOrEqual | fnGreaterThanOrEqual | fnMin | fnMax | fnWithin
| fnRipemd160 | fnSha1 | fnSha256 | fnHash160 | fnHash256 | fnCodeSeparator | fnCheckSig
| fnCheckSigVerify | fnCheckMultiSig | fnCheckMultiSigVerify | fnInvalid
| fnCheckJuryRedeemEqual.

Record opcode := mkOpcode {
  op_value : byte;
  op_name : string;
  op_length : Z;
  op_func : opfunc;
}.

(** Data push opcodes *)
Definition opcodeArray_push : list opcode := [
  mkOpcode OP_FALSE "OP_0" 1 fnFalse;
  mkOpcode OP_DATA_1 "OP_DATA_1" 2 fnPushData;
  mkOpcode x02 "OP_DATA_2" 3 fnPushData;
  mkOpcode x03 "OP_DATA_3" 4 fnPushData;
  mkOpcode x04 "OP_DATA_4" 5 fnPushData;
  mkOpcode x05 "OP_DATA_5" 6 fnPushData;
  mkOpcode x06 "OP_DATA_6" 7 fnPushData;
  mkOpcode x07 "OP_DATA_7" 8 fnPushData;
  mkOpcode x08 "OP_DATA_8" 9 fnPushData;
  mkOpcode x09 "OP_DATA_9" 10 fnPushData;
  mkOpcode x0a "OP_DATA_10" 11 fnPushData;
  mkOpcode x0b "OP_DATA_11" 12 fnPushData;
  mkOpcode x0c "OP_DATA_12" 13 fnPushData;
  mkOpcode x0d "OP_DATA_13" 14 fnPushData;
  mkOpcode x0e "OP_DATA_14" 15 fnPushData;
  mkOpcode x0f "OP_DATA_15" 16 fnPushData;
  mkOpcode x10 "OP_DATA_16" 17 fnPushData;
  mkOpcode x11 "OP_DATA_17" 18 fnPushData;
  mkOpcode x12 "OP_DATA_18" 19 fnPushData;
  mkOpcode x13 "OP_DATA_19" 20 fnPushData;
  mkOpcode OP_DATA_20 "OP_DATA_20" 21 fnPushData;
  mkOpcode x15 "OP_DATA_21" 22 fnPushData;
  mkOpcode x16 "OP_DATA_22" 23 fnPushData;
  mkOpcode x17 "OP_DATA_23" 24 fnPushData;
  mkOpcode x18 "OP_DATA_24" 25 fnPushData;
  mkOpcode x19 "OP_DATA_25" 26 fnPushData;
  mkOpcode x1a "OP_DATA_26" 27 fnPushData;
  mkOpcode x1b "OP_DATA_27" 28 fnPushData;
  mkOpcode x1c "OP_DATA_28" 29 fnPushData;
  mkOpcode x1d "OP_DATA_29" 30 fnPushData;
  mkOpcode x1e "OP_DATA_30" 31 fnPushData;
  mkOpcode x1f "OP_DATA_31" 32 fnPushData;
  mkOpcode x20 "OP_DATA_32" 33 fnPushData;
  mkOpcode x21 "OP_DATA_33" 34 fnPushData;
  mkOpcode x22 "OP_DATA_34" 35 fnPushData;
  mkOpcode x23 "OP_DATA_35" 36 fnPushData;
  mkOpcode x24 "OP_DATA_36" 37 fnPushData;
  mkOpcode x25 "OP_DATA_37" 38 fnPushData;
  mkOpcode x26 "OP_DATA_38" 39 fnPushData;
  mkOpcode x27 "OP_DATA_39" 40 fnPushData;
  mkOpcode x28 "OP_DATA_40" 41 fnPushData;
  mkOpcode x29 "OP_DATA_41" 42 fnPushData;
  mkOpcode x2a "OP_DATA_42" 43 fnPushData;
  mkOpcode x2b "OP_DATA_43" 44 fnPushData;
  mkOpcode x2c "OP_DATA_44" 45 fnPushData;
  mkOpcode x2d "OP_DATA_45" 46 fnPushData;
  mkOpcode x2e "OP_DATA_46" 47 fnPushData;
  mkOpcode x2f "OP_DATA_47" 48 fnPushData;
  mkOpcode x30 "OP_DATA_48" 49 fnPushData;
  mkOpcode x31 "OP_DATA_49" 50 fnPushData;
  mkOpcode x32 "OP_DATA_50" 51 fnPushData;
  mkOpcode x33 "OP_DATA_51" 52 fnPushData;
  mkOpcode x34 "OP_DATA_52" 53 fnPushData;
  mkOpcode x35 "OP_DATA_53" 54 fnPushData;
  mkOpcode x36 "OP_DATA_54" 55 fnPushData;
  mkOpcode x37 "OP_DATA_55" 56 fnPushData;
  mkOpcode x38 "OP_DATA_56" 57 fnPushData;
  mkOpcode x39 "OP_DATA_57" 58 fnPushData;
  mkOpcode x3a "OP_DATA_58" 59 fnPushData;
  mkOpcode x3b "OP_DATA_59" 60 fnPushData;
  mkOpcode x3c "OP_DATA_60" 61 fnPushData;
  mkOpcode x3d "OP_DATA_61" 62 fnPushData;
  mkOpcode x3e "OP_DATA_62" 63 fnPushData;
  mkOpcode x3f "OP_DATA_63" 64 fnPushData;
  mkOpcode x40 "OP_DATA_64" 65 fnPushData;
  mkOpcode x41 "OP_DATA_65" 66 fnPushData;
  mkOpcode x42 "OP_DATA_66" 67 fnPushData;
  mkOpcode x43 "OP_DATA_67" 68 fnPushData;
  mkOpcode x44 "OP_DATA_68" 69 fnPushData;
  mkOpcode x45 "OP_DATA_69" 70 fnPushData;
  mkOpcode x46 "OP_DATA_70" 71 fnPushData;
  mkOpcode x47 "OP_DATA_71" 72 fnPushData;
  mkOpcode x48 "OP_DATA_72" 73 fnPushData;
  mkOpcode x49 "OP_DATA_73" 74 fnPushData;
  mkOpcode x4a "OP_DATA_74" 75 fnPushData;
  mkOpcode x4b "OP_DATA_75" 76 fnPushData;
  mkOpcode OP_PUSHDATA1 "OP_PUSHDATA1" (-1) fnPushData;
  mkOpcode OP_PUSHDATA2 "OP_PUSHDATA2" (-2) fnPushData;
  mkOpcode OP_PUSHDATA4 "OP_PUSHDATA4" (-4) fnPushData;
  mkOpcode OP_1NEGATE "OP_1NEGATE" 1 fn1Negate;
  mkOpcode OP_RESERVED "OP_RESERVED" 1 fnReserved;
  mkOpcode OP_TRUE "OP_1" 1 fnN;
  mkOpcode OP_2 "OP_2" 1 fnN;
  mkOpcode OP_3 "OP_3" 1 fnN;
  mkOpcode OP_4 "OP_4" 1 fnN;
  mkOpcode OP_5 "OP_5" 1 fnN;
  mkOpcode OP_6 "OP_6" 1 fnN;
  mkOpcode OP_7 "OP_7" 1 fnN;
  mkOpcode OP_8 "OP_8" 1 fnN;
  mkOpcode OP_9 "OP_9" 1 fnN;
  mkOpcode OP_10 "OP_10" 1 fnN;
  mkOpcode OP_11 "OP_11" 1 fnN;
  mkOpcode OP_12 "OP_12" 1 fnN;
  mkOpcode OP_13 "OP_13" 1 fnN;
  mkOpcode OP_14 "OP_14" 1 fnN;
  mkOpcode OP_15 "OP_15" 1 fnN;
  mkOpcode OP_16 "OP_16" 1 fnN
].

(** Control opcodes *)
Definition opcodeArray_control : list opcode := [
  mkOpcode OP_NOP "OP_NOP" 1 fnNop;
  mkOpcode OP_VER "OP_VER" 1 fnReserved;
  mkOpcode OP_IF "OP_IF" 1 fnIf;
  mkOpcode OP_NOTIF "OP_NOTIF" 1 fnNotIf;
  mkOpcode OP_VERIF "OP_VERIF" 1 fnReserved;
  mkOpcode OP_VERNOTIF "OP_VERNOTIF" 1 fnReserved;
  mkOpcode OP_ELSE "OP_ELSE" 1 fnElse;
  mkOpcode OP_ENDIF "OP_ENDIF" 1 fnEndif;
  mkOpcode OP_VERIFY "OP_VERIFY" 1 fnVerify;
  mkOpcode OP_RETURN "OP_RETURN" 1 fnFalse;
  mkOpcode OP_CHECKLOCKTIMEVERIFY "OP_CHECKLOCKTIMEVERIFY" 1 fnCheckLockTimeVerify
].

(** Stack opcodes *)
Definition opcodeArray_stack : list opcode := [
  mkOpcode OP_TOALTSTACK "OP_TOALTSTACK" 1 fnToAltStack;
  mkOpcode OP_FROMALTSTACK "OP_FROMALTSTACK" 1 fnFromAltStack;
  mkOpcode OP_2DROP "OP_2DROP" 1 fn2Drop;
  mkOpcode OP_2DUP "OP_2DUP" 1 fn2Dup;
  mkOpcode OP_3DUP "OP_3DUP" 1 fn3Dup;
  mkOpcode OP_2OVER "OP_2OVER" 1 fn2Over;
  mkOpcode OP_2ROT "OP_2ROT" 1 fn2Rot;
  mkOpcode OP_2SWAP "OP_2SWAP" 1 fn2Swap;
  mkOpcode OP_IFDUP "OP_IFDUP" 1 fnIfDup;
  mkOpcode OP_DEPTH "OP_DEPTH" 1 fnDepth;
  mkOpcode OP_DROP "OP_DROP" 1 fnDrop;
  mkOpcode OP_DUP "OP_DUP" 1 fnDup;
  mkOpcode OP_NIP "OP_NIP" 1 fnNip;
  mkOpcode OP_OVER "OP_OVER" 1 fnOver;
  mkOpcode OP_PICK "OP_PICK" 1 fnPick;
  mkOpcode OP_ROLL "OP_ROLL" 1 fnRoll;
  mkOpcode OP_ROT "OP_ROT" 1 fnRot;
  mkOpcode OP_SWAP "OP_SWAP" 1 fnSwap;
  mkOpcode OP_TUCK "OP_TUCK" 1 fnTuck
].

(** Splice opcodes *)
Definition opcodeArray_splice : list opcode := [
  mkOpcode OP_CAT "OP_CAT" 1 fnDisabled;
  mkOpcode OP_SUBSTR "OP_SUBSTR" 1 fnDisabled;
  mkOpcode OP_LEFT "OP_LEFT" 1 fnDisabled;
  mkOpcode OP_RIGHT "OP_RIGHT" 1 fnDisabled;
  mkOpcode OP_SIZE "OP_SIZE" 1 fnSize
].

(** Bitwise logic opcodes *)
Definition opcodeArray_bitwise : list opcode := [
  mkOpcode OP_INVERT "OP_INVERT" 1 fnDisabled;
  mkOpcode OP_AND "OP_AND" 1 fnDisabled;
  mkOpcode OP_OR "OP_OR" 1 fnDisabled;
  mkOpcode OP_XOR "OP_XOR" 1 fnDisabled;
  mkOpcode OP_EQUAL "OP_EQUAL" 1 fnEqual;
  mkOpcode OP_EQUALVERIFY "OP_EQUALVERIFY" 1 fnEqualVerify;
  mkOpcode OP_RESERVED1 "OP_RESERVED1" 1 fnReserved;
  mkOpcode OP_RESERVED2 "OP_RESERVED2" 1 fnReserved
].

(** Numeric related opcodes *)
Definition opcodeArray_numeric : list opcode := [
  mkOpcode OP_1ADD "OP_1ADD" 1 fn1Add;
  mkOpcode OP_1SUB "OP_1SUB" 1 fn1Sub;
  mkOpcode OP_2MUL "OP_2MUL" 1 fnDisabled;
  mkOpcode OP_2DIV "OP_2DIV" 1 fnDisabled;
  mkOpcode OP_NEGATE "OP_NEGATE" 1 fnNegate;
  mkOpcode OP_ABS "OP_ABS" 1 fnAbs;
  mkOpcode OP_NOT "OP_NOT" 1 fnNot;
  mkOpcode OP_0NOTEQUAL "OP_0NOTEQUAL" 1 fn0NotEqual;
  mkOpcode OP_ADD "OP_ADD" 1 fnAdd;
  mkOpcode OP_SUB "OP_SUB" 1 fnSub;
  mkOpcode OP_MUL "OP_MUL" 1 fnDisabled;
  mkOpcode OP_DIV "OP_DIV" 1 fnDisabled;
  mkOpcode OP_MOD "OP_MOD" 1 fnDisabled;
  mkOpcode OP_LSHIFT "OP_LSHIFT" 1 fnDisabled;
  mkOpcode OP_RSHIFT "OP_RSHIFT" 1 fnDisabled;
  mkOpcode OP_BOOLAND "OP_BOOLAND" 1 fnBoolAnd;
  mkOpcode OP_BOOLOR "OP_BOOLOR" 1 fnBoolOr;
  mkOpcode OP_NUMEQUAL "OP_NUMEQUAL" 1 fnNumEqual;
  mkOpcode OP_NUMEQUALVERIFY "OP_NUMEQUALVERIFY" 1 fnNumEqualVerify;
  mkOpcode OP_NUMNOTEQUAL "OP_NUMNOTEQUAL" 1 fnNumNotEqual;
  mkOpcode OP_LESSTHAN "OP_LESSTHAN" 1 fnLessThan;
  mkOpcode OP_GREATERTHAN "OP_GREATERTHAN" 1 fnGreaterThan;
  mkOpcode OP_LESSTHANOREQUAL "OP_LESSTHANOREQUAL" 1 fnLessThanOrEqual;
  mkOpcode OP_GREATERTHANOREQUAL "OP_GREATERTHANOREQUAL" 1 fnGreaterThanOrEqual;
  mkOpcode OP_MIN "OP_MIN" 1 fnMin;
  mkOpcode OP_MAX "OP_MAX" 1 fnMax;
  mkOpcode OP_WITHIN "OP_WITHIN" 1 fnWithin
].

(** Crypto opcodes *)
Definition opcodeArray_crypto : list opcode := [
  mkOpcode OP_RIPEMD160 "OP_RIPEMD160" 1 fnRipemd160;
  mkOpcode OP_SHA1 "OP_SHA1" 1 fnSha1;
  mkOpcode OP_SHA256 "OP_SHA256" 1 fnSha256;
  mkOpcode OP_HASH160 "OP_HASH160" 1 fnHash160;
  mkOpcode OP_HASH256 "OP_HASH256" 1 fnHash256;
  mkOpcode OP_CODESEPARATOR "OP_CODESEPARATOR" 1 fnCodeSeparator;
  mkOpcode OP_CHECKSIG "OP_CHECKSIG" 1 fnCheckSig;
  mkOpcode OP_CHECKSIGVERIFY "OP_CHECKSIGVERIFY" 1 fnCheckSigVerify;
  mkOpcode OP_CHECKMULTISIG "OP_CHECKMULTISIG" 1 fnCheckMultiSig;
  mkOpcode OP_CHECKMULTISIGVERIFY "OP_CHECKMULTISIGVERIFY" 1 fnCheckMultiSigVerify
].

(** Reserved opcodes *)
Definition opcodeArray_reserved : list opcode := [
  mkOpcode OP_NOP1 "OP_NOP1" 1 fnNop;
  mkOpcode OP_NOP3 "OP_NOP3" 1 fnNop;
  mkOpcode OP_NOP4 "OP_NOP4" 1 fnNop;
  mkOpcode OP_NOP5 "OP_NOP5" 1 fnNop;
  mkOpcode OP_NOP6 "OP_NOP6" 1 fnNop;
  mkOpcode OP_NOP7 "OP_NOP7" 1 fnNop;
  mkOpcode OP_NOP8 "OP_NOP8" 1 fnNop;
  mkOpcode OP_NOP9 "OP_NOP9" 1 fnNop;
  mkOpcode OP_NOP10 "OP_NOP10" 1 fnNop
].

(** Undefined opcodes *)
Definition opcodeArray_undefined : list opcode := [
  mkOpcode xba "OP_UNKNOWN186" 1 fnInvalid;
  mkOpcode xbb "OP_UNKNOWN187" 1 fnInvalid;
  mkOpcode xbc "OP_UNKNOWN188" 1 fnInvalid;
  mkOpcode xbd "OP_UNKNOWN189" 1 fnInvalid;
  mkOpcode xbe "OP_UNKNOWN190" 1 fnInvalid;
  mkOpcode xbf "OP_UNKNOWN191" 1 fnInvalid;
  mkOpcode xc0 "OP_UNKNOWN192" 1 fnInvalid;
  mkOpcode xc1 "OP_UNKNOWN193" 1 fnInvalid;
  mkOpcode xc2 "OP_UNKNOWN194" 1 fnInvalid;
  mkOpcode xc3 "OP_UNKNOWN195" 1 fnInvalid;
  mkOpcode xc4 "OP_UNKNOWN196" 1 fnInvalid;
  mkOpcode xc5 "OP_UNKNOWN197" 1 fnInvalid;
  mkOpcode xc6 "OP_UNKNOWN198" 1 fnInvalid;
  mkOpcode xc7 "OP_UNKNOWN199" 1 fnInvalid;
  mkOpcode OP_JURY_REDEEM_EQUAL "OP_JURY_REDEEM_EQUAL" 1 fnCheckJuryRedeemEqual;
  mkOpcode xc9 "OP_UNKNOWN201" 1 fnInvalid;
  mkOpcode xca "OP_UNKNOWN202" 1 fnInvalid;
  mkOpcode xcb "OP_UNKNOWN203" 1 fnInvalid;
  mkOpcode xcc "OP_UNKNOWN204" 1 fnInvalid;
  mkOpcode xcd "OP_UNKNOWN205" 1 fnInvalid;
  mkOpcode xce "OP_UNKNOWN206" 1 fnInvalid;
  mkOpcode xcf "OP_UNKNOWN207" 1 fnInvalid;
  mkOpcode xd0 "OP_UNKNOWN208" 1 fnInvalid;
  mkOpcode xd1 "OP_UNKNOWN209" 1 fnInvalid;
  mkOpcode xd2 "OP_UNKNOWN210" 1 fnInvalid;
  mkOpcode xd3 "OP_UNKNOWN211" 1 fnInvalid;
  mkOpcode xd4 "OP_UNKNOWN212" 1 fnInvalid;
  mkOpcode xd5 "OP_UNKNOWN213" 1 fnInvalid;
  mkOpcode xd6 "OP_UNKNOWN214" 1 fnInvalid;
  mkOpcode xd7 "OP_UNKNOWN215" 1 fnInvalid;
  mkOpcode xd8 "OP_UNKNOWN216" 1 fnInvalid;
  mkOpcode xd9 "OP_UNKNOWN217" 1 fnInvalid;
  mkOpcode xda "OP_UNKNOWN218" 1 fnInvalid;
  mkOpcode xdb "OP_UNKNOWN219" 1 fnInvalid;
  mkOpcode xdc "OP_UNKNOWN220" 1 fnInvalid;
  mkOpcode xdd "OP_UNKNOWN221" 1 fnInvalid;
  mkOpcode xde "OP_UNKNOWN222" 1 fnInvalid;
  mkOpcode xdf "OP_UNKNOWN223" 1 fnInvalid;
  mkOpcode xe0 "OP_UNKNOWN224" 1 fnInvalid;
  mkOpcode xe1 "OP_UNKNOWN225" 1 fnInvalid;
  mkOpcode xe2 "OP_UNKNOWN226" 1 fnInvalid;
  mkOpcode xe3 "OP_UNKNOWN227" 1 fnInvalid;
  mkOpcode xe4 "OP_UNKNOWN228" 1 fnInvalid;
  mkOpcode xe5 "OP_UNKNOWN229" 1 fnInvalid;
  mkOpcode xe6 "OP_UNKNOWN230" 1 fnInvalid;
  mkOpcode xe7 "OP_UNKNOWN231" 1 fnInvalid;
  mkOpcode xe8 "OP_UNKNOWN232" 1 fnInvalid;
  mkOpcode xe9 "OP_UNKNOWN233" 1 fnInvalid;
  mkOpcode xea "OP_UNKNOWN234" 1 fnInvalid;
  mkOpcode xeb "OP_UNKNOWN235" 1 fnInvalid;
  mkOpcode xec "OP_UNKNOWN236" 1 fnInvalid;
  mkOpcode xed "OP_UNKNOWN237" 1 fnInvalid;
  mkOpcode xee "OP_UNKNOWN238" 1 fnInvalid;
  mkOpcode xef "OP_UNKNOWN239" 1 fnInvalid;
  mkOpcode xf0 "OP_UNKNOWN240" 1 fnInvalid;
  mkOpcode xf1 "OP_UNKNOWN241" 1 fnInvalid;
  mkOpcode xf2 "OP_UNKNOWN242" 1 fnInvalid;
  mkOpcode xf3 "OP_UNKNOWN243" 1 fnInvalid;
  mkOpcode xf4 "OP_UNKNOWN244" 1 fnInvalid;
  mkOpcode xf5 "OP_UNKNOWN245" 1 fnInvalid;
  mkOpcode xf6 "OP_UNKNOWN246" 1 fnInvalid;
  mkOpcode xf7 "OP_UNKNOWN247" 1 fnInvalid;
  mkOpcode xf8 "OP_UNKNOWN248" 1 fnInvalid
].

(** Bitcoin Core internal use opcode.  Defined here for completeness *)
Definition opcodeArray_internal : list opcode := [
  mkOpcode OP_SMALLDATA "OP_SMALLDATA" 1 fnInvalid;
  mkOpcode OP_SMALLINTEGER "OP_SMALLINTEGER" 1 fnInvalid;
  mkOpcode OP_PUBKEYS "OP_PUBKEYS" 1 fnInvalid;
  mkOpcode xfc "OP_UNKNOWN252" 1 fnInvalid;
  mkOpcode OP_PUBKEYHASH "OP_PUBKEYHASH" 1 fnInvalid;
  mkOpcode OP_PUBKEY "OP_PUBKEY" 1 fnInvalid;
  mkOpcode OP_INVALIDOPCODE "OP_INVALIDOPCODE" 1 fnInvalid
].

Definition opcodeTable : list opcode :=
  opcodeArray_push ++ opcodeArray_control ++ opcodeArray_stack ++ opcodeArray_splice ++ opcodeArray_bitwise ++
  opcodeArray_numeric ++ opcodeArray_crypto ++ opcodeArray_reserved ++ opcodeArray_undefined ++ opcodeArray_internal.

(** The table's entry for a byte.  A Go array has an entry at every index; [zeroOpcode] is the
    zero value that an index without an initialiser would hold, and no byte is one. *)
Definition zeroOpcode : opcode := mkOpcode x00 "" 0 fnInvalid.

Definition opcodeArray (b : byte) : opcode :=
  match find (fun o => beq (op_value o) b) opcodeTable with
  | Some o => o
  | None => zeroOpcode
  end.

(** ** Parsed opcodes *)

Record parsedOpcode := mkPop { pop_opcode : opcode; pop_data : bytes }.

(** The value of a parsed opcode, [pop.opcode.value]. *)
Definition pop_value (pop : parsedOpcode) : byte := op_value (pop_opcode pop).

Definition byte_in (b : byte) (l : bytes) : bool := existsb (beq b) l.

Definition isDisabled (pop : parsedOpcode) : bool :=
  byte_in (pop_value pop)
    [OP_CAT; OP_SUBSTR; OP_LEFT; OP_RIGHT; OP_INVERT; OP_AND; OP_OR; OP_XOR; OP_2MUL; OP_2DIV;
     OP_MUL; OP_DIV; OP_MOD; OP_LSHIFT; OP_RSHIFT].

Definition alwaysIllegal (pop : parsedOpcode) : bool :=
  byte_in (pop_value pop) [OP_VERIF; OP_VERNOTIF].

Definition isConditional (pop : parsedOpcode) : bool :=
  byte_in (pop_value pop) [OP_IF; OP_NOTIF; OP_ELSE; OP_ENDIF].

(** [data[0]] where [len(data) = 1]; 0 never shows because the length is tested first. *)
Definition first_byte (data : bytes) : Z :=
  match data with b :: _ => b2z b | [] => 0 end.

(** [nil] is [None]. *)
Definition checkMinimalDataPush (pop : parsedOpcode) : option error :=
  let data := pop_data pop in
  let dataLen := len data in
  let opcode := b2z (pop_value pop) in
  if (dataLen =? 0) && negb (opcode =? b2z OP_0) then Some ErrStackMinimalData
  else if (dataLen =? 1) && (1 <=? first_byte data) && (first_byte data <=? 16) then
    if negb (opcode =? uint8 (b2z OP_1 + first_byte data - 1)) then Some ErrStackMinimalData
    else None
  else if (dataLen =? 1) && (first_byte data =? 129) then
    if negb (opcode =? b2z OP_1NEGATE) then Some ErrStackMinimalData else None
  else if dataLen <=? 75 then
    if negb (opcode =? dataLen) then Some ErrStackMinimalData else None
  else if dataLen <=? 255 then
    if negb (opcode =? b2z OP_PUSHDATA1) then Some ErrStackMinimalData else None
  else if dataLen <=? 65535 then
    if negb (opcode =? b2z OP_PUSHDATA2) then Some ErrStackMinimalData else None
  else None.

(** *** Printing *)

Definition opcodeOnelineRepls : list (string * string) :=
  [("OP_1NEGATE", "-1"); ("OP_0", "0"); ("OP_1", "1"); ("OP_2", "2"); ("OP_3", "3");
   ("OP_4", "4"); ("OP_5", "5"); ("OP_6", "6"); ("OP_7", "7"); ("OP_8", "8"); ("OP_9", "9");
   ("OP_10", "10"); ("OP_11", "11"); ("OP_12", "12"); ("OP_13", "13"); ("OP_14", "14");
   ("OP_15", "15"); ("OP_16", "16")]%string.

Fixpoint assoc_string {A} (k : string) (l : list (string * A)) : option A :=
  match l with
  | [] => None
  | (k', v) :: l' => if String.eqb k k' then Some v else assoc_string k l'
  end.

Definition hex_digit (d : Z) : string :=
  match String.get (Z.to_nat d) "0123456789abcdef" with
  | Some c => String c ""
  | None => ""
  end.

(** [%x] of a byte slice *)
Fixpoint hex_bytes (l : bytes) : string :=
  match l with
  | [] => ""
  | b :: l' => hex_digit (b2z b / 16) +:+ hex_digit (b2z b mod 16) +:+ hex_bytes l'
  end.

(** [%0wx] of a non-negative int: at least [w] digits, no more than needed above that. *)
Fixpoint hex_int (w : nat) (fuel : nat) (z : Z) : string :=
  match fuel with
  | O => ""
  | S fuel' =>
      if (z =? 0) && Nat.eqb w 0 then ""
      else hex_int (w - 1) fuel' (z / 16) +:+ hex_digit (z mod 16)
  end.

(** [%02x] of a byte slice: the width only shows when the slice is empty. *)
Definition hex_bytes_02 (l : bytes) : string :=
  match l with [] => "00" | _ => hex_bytes l end.

Definition print (pop : parsedOpcode) (oneline : bool) : string :=
  let name := op_name (pop_opcode pop) in
  let length := op_length (pop_opcode pop) in
  if oneline then
    let name := match assoc_string name opcodeOnelineRepls with Some r => r | None => name end in
    if length =? 1 then name else hex_bytes (pop_data pop)
  else if length =? 1 then name
  else
    let retString :=
      if length =? -1 then name +:+ " 0x" +:+ hex_int 2 16 (len (pop_data pop))
      else if length =? -2 then name +:+ " 0x" +:+ hex_int 4 16 (len (pop_data pop))
      else if length =? -4 then name +:+ " 0x" +:+ hex_int 8 16 (len (pop_data pop))
      else name in
    retString +:+ " 0x" +:+ hex_bytes_02 (pop_data pop).

(** *** Encoding *)

(** The length prefix that [bytes] appends for an opcode of negative length. *)
Definition length_prefix (oplen l : Z) : bytes :=
  if oplen =? -1 then [z2b l]
  else if oplen =? -2 then [z2b (Z.land l 255); z2b (Z.land (Z.shiftr l 8) 255)]
  else if oplen =? -4 then
    [z2b (Z.land l 255); z2b (Z.land (Z.shiftr l 8) 255); z2b (Z.land (Z.shiftr l 16) 255);
     z2b (Z.land (Z.shiftr l 24) 255)]
  else [].

(** [binary.LittleEndian.Uint16] and [Uint32] on a prefix of that many bytes. *)
Fixpoint le_uint (l : bytes) : Z :=
  match l with
  | [] => 0
  | b :: l' => Z.lor (b2z b) (Z.shiftl (le_uint l') 8)
  end.

Definition pop_bytes (pop : parsedOpcode) : result error bytes :=
  let length := op_length (pop_opcode pop) in
  let data := pop_data pop in
  if length =? 1 then
    if negb (len data =? 0) then Err ErrStackInvalidOpcode else Ok [pop_value pop]
  else
    let prefix := length_prefix length (len data) in
    let retbytes := pop_value pop :: prefix in
    let nbytes := if (length =? -1) || (length =? -2) || (length =? -4)
                  then le_uint prefix + len retbytes else length in
    let retbytes := retbytes ++ data in
    if negb (len retbytes =? nbytes) then Err ErrStackInvalidOpcode else Ok retbytes.

(** ** Facts about the table *)

Lemma opcodeArray_value b : op_value (opcodeArray b) = b.
Proof. destruct b; reflexivity. Qed.

(** The encoded length of every opcode: the data pushes [OP_DATA_1 .. OP_DATA_75], the three
    [OP_PUSHDATA] opcodes, and one byte for all others. *)
Lemma opcodeArray_length b :
  op_length (opcodeArray b) =
  if (1 <=? b2z b) && (b2z b <=? 75) then b2z b + 1
  else if beq b OP_PUSHDATA1 then -1
  else if beq b OP_PUSHDATA2 then -2
  else if beq b OP_PUSHDATA4 then -4
  else 1.
Proof. destruct b; reflexivity. Qed.

(** A parsed opcode that refers to the table. *)
Definition from_table (pop : parsedOpcode) : Prop :=
  pop_opcode pop = opcodeArray (pop_value pop).

(** The shapes a table entry can have. *)
Lemma table_length_cases b :
  op_length (opcodeArray b) = 1 \/
  2 <= op_length (opcodeArray b) <= 76 \/
  op_length (opcodeArray b) = -1 \/ op_length (opcodeArray b) = -2 \/
  op_length (opcodeArray b) = -4.
Proof.
  rewrite opcodeArray_length. bdestruct; destruct (beq b OP_PUSHDATA1), (beq b OP_PUSHDATA2),
    (beq b OP_PUSHDATA4); lia.
Qed.

Lemma le_uint_1 a : le_uint [a] = b2z a.
Proof. simpl. now rewrite Z.shiftl_0_l, Z.lor_0_r. Qed.

Lemma le_uint_cons b l : le_uint (b :: l) = b2z b + 256 * le_uint l.
Proof.
  simpl. pose proof (b2z_range b).
  rewrite lor_shiftl_add by (simpl; lia). change (2 ^ 8) with 256. lia.
Qed.

Lemma byte_of_shift l k : 0 <= k -> b2z (z2b (Z.land (Z.shiftr l k) 255)) = l / 2 ^ k mod 256.
Proof.
  intros. rewrite b2z_z2b, land_ff, Z.shiftr_div_pow2 by done. apply Z.mod_mod; lia.
Qed.

(** The length prefix holds the length modulo its width. *)
Lemma length_prefix_value oplen l : oplen = -1 \/ oplen = -2 \/ oplen = -4 ->
  len (length_prefix oplen l) = - oplen /\
  le_uint (length_prefix oplen l) = l mod 256 ^ (- oplen).
Proof.
  intros [-> | [-> | ->]]; (split; [done|]); unfold length_prefix; cbn [Z.eqb Pos.eqb].
  - rewrite le_uint_1, b2z_z2b. done.
  - rewrite !le_uint_cons, byte_of_shift by lia.
    rewrite b2z_z2b, land_ff. cbn [le_uint]; simpl Z.pow. change (2 ^ 8) with 256. dlia.
  - rewrite !le_uint_cons, !byte_of_shift by lia.
    rewrite b2z_z2b, land_ff. cbn [le_uint]; simpl Z.pow.
    change (2 ^ 8) with 256; change (2 ^ 16) with 65536; change (2 ^ 24) with 16777216. dlia.
Qed.
