(* ===== verification/Text.v ===== *)
(** Texts and numerals: what the program uses of the packages strings, encoding/hex and math/big,
    and the base 36 codec (src/vendor/github.com/martinlindhe/base36/base36.go).

    A [big.Int] is a [Z]; its digits in a base are most significant first.  The digits of [n] are
    computed with [Z.log2 n + 1] steps, at least the number of its digits in any base. *)

From Stdlib Require Import ZArith Lia Ascii.
From S2P Require Import Prelude Opcode.

(** ** Strings *)

(** [strings.Split(s, sep)] with a separator of one character *)
Fixpoint Split (sep : ascii) (s : string) : list string :=
  match s with
  | EmptyString => [EmptyString]
  | String c s' =>
      if Ascii.eqb c sep then EmptyString :: Split sep s'
      else match Split sep s' with
           | w :: ws => String c w :: ws
           | [] => [String c EmptyString]
           end
  end.

(** [strings.Fields] of a text whose only white space is the space. *)
Definition Fields (s : string) : list string :=
  List.filter (fun w => negb (String.eqb w "")) (Split " " s).

(** [strings.ToUpper] of a text in ASCII *)
Definition upper (c : ascii) : ascii :=
  let n := Ascii.nat_of_ascii c in
  if ((97 <=? n)%nat && (n <=? 122)%nat) then Ascii.ascii_of_nat (n - 32) else c.
Fixpoint ToUpper (s : string) : string :=
  match s with EmptyString => EmptyString | String c s' => String (upper c) (ToUpper s') end.

(** ** Hexadecimal *)

Definition fromHexChar (c : ascii) : option Z :=
  let n := Z.of_nat (Ascii.nat_of_ascii c) in
  if (48 <=? n) && (n <=? 57) then Some (n - 48)
  else if (97 <=? n) && (n <=? 102) then Some (n - 87)
  else if (65 <=? n) && (n <=? 70) then Some (n - 55)
  else None.

(** [hex.DecodeString]: the bytes before an error, and whether there was none. *)
Fixpoint hex_decode (s : string) : bytes * bool :=
  match s with
  | EmptyString => ([], true)
  | String a (String b s') =>
      match fromHexChar a, fromHexChar b with
      | Some x, Some y => let '(l, ok) := hex_decode s' in (z2b (16 * x + y) :: l, ok)
      | _, _ => ([], false)
      end
  | _ => ([], false)
  end.
Definition DecodeString (s : string) : bytes := (hex_decode s).1.

(** ** Numerals *)

Fixpoint from_base (base : Z) (acc : Z) (ds : list Z) : Z :=
  match ds with [] => acc | d :: ds' => from_base base (acc * base + d) ds' end.

Fixpoint to_base_fuel (fuel : nat) (base x : Z) (acc : list Z) : list Z :=
  match fuel with
  | O => acc
  | S fuel' => if x <=? 0 then acc else to_base_fuel fuel' base (x / base) (x mod base :: acc)
  end.
Definition to_base (base x : Z) : list Z := to_base_fuel (Z.to_nat (Z.log2 x + 1)) base x [].

(** [big.Int.SetBytes] and [big.Int.Bytes] *)
Definition big_of_bytes (b : bytes) : Z := from_base 256 0 (map b2z b).
Definition big_Bytes (x : Z) : bytes := map z2b (to_base 256 (Z.abs x)).

(** The digits 0-9, A-Z *)
Definition alphabet : string := "0123456789ABCDEFGHIJKLMNOPQRSTUVWXYZ".
Definition digit_char (d : Z) : ascii := match String.get (Z.to_nat d) alphabet with Some c => c | None => "0"%char end.
Fixpoint index_in (c : ascii) (s : string) (i : Z) : option Z :=
  match s with
  | EmptyString => None
  | String c' s' => if Ascii.eqb c c' then Some i else index_in c s' (i + 1)
  end.
Definition char_digit (c : ascii) : option Z := index_in c alphabet 0.

Definition chars (s : string) : list ascii := String.list_ascii_of_string s.
Definition of_chars (l : list ascii) : string := String.string_of_list_ascii l.

(** How many elements at the front are zero. *)
Fixpoint leading {A} (is_zero : A -> bool) (l : list A) : nat :=
  match l with x :: l' => if is_zero x then S (leading is_zero l') else O | [] => O end.

(** [EncodeBytes]: a zero for each leading zero byte, then the number in base 36. *)
Definition EncodeBytes (b : bytes) : string :=
  of_chars (replicate (leading (beq x00) b) "0"%char ++ map digit_char (to_base 36 (big_of_bytes b))).

(** [DecodeToBytes]: nothing for a text with another character. *)
Definition DecodeToBytes (s : string) : bytes :=
  match mapM char_digit (chars s) with
  | None => []
  | Some ds => replicate (leading (Ascii.eqb "0"%char) (chars s)) x00 ++ big_Bytes (from_base 36 0 ds)
  end.

(** [big.Int.String] of a number that is not negative *)
Definition big_String (x : Z) : string :=
  match to_base 10 x with [] => "0" | ds => of_chars (map digit_char ds) end.

(** [big.Int.SetString(s, 0)]: an optional sign, a prefix that gives the base, and digits of the
    base.  The value after a failure is undefined in Go. *)
Definition digits_below (base : Z) (l : list ascii) : option (list Z) :=
  match l with
  | [] => None
  | _ => mapM (fun c => match char_digit (upper c) with Some d => if d <? base then Some d else None | None => None end) l
  end.
Definition unsigned_base0 (l : list ascii) : option Z :=
  match l with
  | "0"%char :: c :: l' =>
      if Ascii.eqb c "x" || Ascii.eqb c "X" then from_base 16 0 <$> digits_below 16 l'
      else if Ascii.eqb c "b" || Ascii.eqb c "B" then from_base 2 0 <$> digits_below 2 l'
      else from_base 8 0 <$> digits_below 8 (c :: l')
  | _ => from_base 10 0 <$> digits_below 10 l
  end.
Definition SetString0 (s : string) : option Z :=
  match chars s with
  | "-"%char :: l => Z.opp <$> unsigned_base0 l
  | "+"%char :: l => unsigned_base0 l
  | l => unsigned_base0 l
  end.

(** ** Lemmas *)

Definition in_base (base d : Z) : Prop := 0 <= d < base.

Lemma from_base_app base ds1 : forall acc ds2, from_base base acc (ds1 ++ ds2) = from_base base (from_base base acc ds1) ds2.
Proof. induction ds1 as [|d ds1 IH]; intros; simpl; [done|apply IH]. Qed.

Lemma from_base_acc base ds : forall acc, from_base base acc ds = acc * base ^ len ds + from_base base 0 ds.
Proof.
  induction ds as [|d ds IH]; intros acc; cbn [from_base]; [rewrite len_nil; simpl; lia|].
  rewrite (IH (acc * base + d)). rewrite (IH (0 * base + d)). rewrite len_cons.
  rewrite Z.pow_add_r, Z.pow_1_r by (pose proof (len_nonneg ds); lia). ring.
Qed.

Lemma from_base_bound base ds : 2 <= base -> Forall (in_base base) ds -> 0 <= from_base base 0 ds < base ^ len ds.
Proof.
  intros B. induction 1 as [|d ds [Hd1 Hd2] F IH]; cbn [from_base]; [unfold len; simpl; lia|].
  rewrite from_base_acc, len_cons, Z.pow_add_r, Z.pow_1_r by (pose proof (len_nonneg ds); lia).
  assert (0 < base ^ len ds) by (apply Z.pow_pos_nonneg; [lia|apply len_nonneg]). nia.
Qed.

Lemma to_base_fuel_spec base fuel : 2 <= base -> forall x acc, 0 <= x < base ^ Z.of_nat fuel ->
  exists ds, to_base_fuel fuel base x acc = ds ++ acc /\ Forall (in_base base) ds /\ from_base base 0 ds = x /\
    (forall d ds', ds = d :: ds' -> 0 < d).
Proof.
  intros B. induction fuel as [|fuel IH]; intros x acc R.
  - simpl in R. exists []. split_and!; [done|constructor|simpl; lia|done].
  - cbn [to_base_fuel]. destruct (Z.leb_spec x 0); [exists []; split_and!; [done|constructor|simpl; lia|done]|].
    rewrite Nat2Z.inj_succ, Z.pow_succ_r in R by lia.
    destruct (IH (x / base) (x mod base :: acc)) as (ds & E & F & V & P).
    { split; [apply Z.div_pos; lia|]. apply Z.div_lt_upper_bound; lia. }
    exists (ds ++ [x mod base]). rewrite E, <- app_assoc. split_and!; [done| | |].
    + rewrite Forall_app. split; [done|]. repeat constructor; apply Z.mod_pos_bound; lia.
    + rewrite from_base_app, V. cbn [from_base]. pose proof (Z.div_mod x base). lia.
    + intros d ds' Q. destruct ds as [|d0 ds0]; [|injection Q as -> _; by eapply P].
      simpl in V, Q. injection Q as <- _. pose proof (Z.div_mod x base). lia.
Qed.

Lemma to_base_spec base x : 2 <= base -> 0 <= x ->
  Forall (in_base base) (to_base base x) /\ from_base base 0 (to_base base x) = x /\
  (forall d ds, to_base base x = d :: ds -> 0 < d).
Proof.
  intros B X. unfold to_base. destruct (to_base_fuel_spec base (Z.to_nat (Z.log2 x + 1)) B x []) as (ds & E & F & V & P).
  - split; [done|]. pose proof (Z.log2_nonneg x). rewrite Z2Nat.id by lia. destruct (Z.eq_dec x 0) as [->|]; [apply Z.pow_pos_nonneg; lia|].
    apply Z.lt_le_trans with (2 ^ (Z.log2 x + 1)); [apply Z.log2_spec; lia|]. apply Z.pow_le_mono_l; lia.
  - rewrite E, app_nil_r. by split_and!.
Qed.

(** Numerals without leading zero are unique. *)
Lemma numeral_unique base ds1 : 2 <= base -> forall ds2, Forall (in_base base) ds1 -> Forall (in_base base) ds2 ->
  (forall d ds', ds1 = d :: ds' -> 0 < d) -> (forall d ds', ds2 = d :: ds' -> 0 < d) ->
  from_base base 0 ds1 = from_base base 0 ds2 -> ds1 = ds2.
Proof.
  intros B ds2 F1 F2 P1 P2 E.
  assert (Low : forall d ds, Forall (in_base base) (d :: ds) -> 0 < d -> base ^ len ds <= from_base base 0 (d :: ds)).
  { intros d ds F D. apply Forall_cons in F as [_ F]. cbn [from_base]. rewrite from_base_acc.
    pose proof (from_base_bound base ds B F). assert (0 < base ^ len ds) by (apply Z.pow_pos_nonneg; [lia|apply len_nonneg]). nia. }
  assert (L : len ds1 = len ds2).
  { assert (K : forall a b, Forall (in_base base) a -> Forall (in_base base) b -> (forall d ds', b = d :: ds' -> 0 < d) ->
      from_base base 0 a = from_base base 0 b -> len b <= len a).
    { intros a [|d b] Fa Fb Pb Eab; [rewrite len_nil; apply len_nonneg|]. rewrite len_cons.
      pose proof (Low d b Fb (Pb _ _ eq_refl)). pose proof (from_base_bound base a B Fa).
      assert (base ^ len b < base ^ len a) as L by lia. apply Z.pow_lt_mono_r_iff in L; [lia|lia|apply len_nonneg]. }
    pose proof (K ds1 ds2 F1 F2 P2 E). pose proof (K ds2 ds1 F2 F1 P1 (eq_sym E)). lia. }
  clear P1 P2 Low. revert ds2 L F2 E. induction ds1 as [|d1 ds1 IH]; intros [|d2 ds2] L F2 E; try done;
    rewrite ?len_nil, ?len_cons in L; try (pose proof (len_nonneg ds1); pose proof (len_nonneg ds2); lia).
  apply Forall_cons in F1 as [[] F1]. apply Forall_cons in F2 as [[] F2]. cbn [from_base] in E.
  rewrite (from_base_acc base ds1), (from_base_acc base ds2) in E. assert (L' : len ds1 = len ds2) by lia. rewrite L' in E.
  pose proof (from_base_bound base ds1 B F1). pose proof (from_base_bound base ds2 B F2). rewrite L' in *.
  assert (d1 = d2) as -> by nia. f_equal. apply IH; [done|done|done|nia].
Qed.

Lemma to_from_base base ds : 2 <= base -> Forall (in_base base) ds -> (forall d ds', ds = d :: ds' -> 0 < d) ->
  to_base base (from_base base 0 ds) = ds.
Proof.
  intros B F P. destruct (to_base_spec base (from_base base 0 ds) B) as (F' & V & P'); [apply from_base_bound; done|].
  by eapply numeral_unique.
Qed.

(** Leading zeros change no value. *)
Lemma from_base_zeros base n ds : from_base base 0 (replicate n 0 ++ ds) = from_base base 0 ds.
Proof. induction n as [|n IH]; [done|]. cbn [replicate app from_base]. by rewrite Z.mul_0_l, Z.add_0_l. Qed.

Lemma hex_decode_hex d : hex_decode (hex_bytes d) = (d, true).
Proof.
  induction d as [|b d IH]; [done|]. cbn [hex_bytes].
  transitivity (let '(l, ok) := hex_decode (hex_bytes d) in (b :: l, ok)); [destruct b; reflexivity|by rewrite IH].
Qed.
Lemma DecodeString_hex d : DecodeString (hex_bytes d) = d.
Proof. unfold DecodeString. by rewrite hex_decode_hex. Qed.

(** *** Base 36 *)

Lemma char_digit_char d : in_base 36 d -> char_digit (digit_char d) = Some d.
Proof.
  intros D. assert (E : d ∈ seqZ 0 36) by (apply elem_of_seqZ; unfold in_base in D; lia). clear D. revert d E.
  apply Forall_forall. repeat constructor.
Qed.
Lemma digit_char_digit c d : char_digit c = Some d -> in_base 36 d /\ digit_char d = c.
Proof. destruct c as [[] [] [] [] [] [] [] []]; intros E; try discriminate E; injection E as <-; split; [split; done|done|split; done|done..]. Qed.

Lemma leading_zeros {A} (is_zero : A -> bool) z l : (forall x, is_zero x = true <-> x = z) ->
  exists l', l = replicate (leading is_zero l) z ++ l' /\ (forall x l'', l' = x :: l'' -> is_zero x = false).
Proof.
  intros Z. induction l as [|x l (l' & E & N)]; [by exists []|]. cbn [leading]. destruct (is_zero x) eqn:X.
  - exists l'. split; [|done]. apply Z in X as ->. cbn [replicate app]. by f_equal.
  - exists (x :: l). split; [done|]. intros y l'' Q. by injection Q as -> _.
Qed.
Lemma leading_app {A} (is_zero : A -> bool) z n l : is_zero z = true -> (forall x l', l = x :: l' -> is_zero x = false) ->
  leading is_zero (replicate n z ++ l) = n.
Proof.
  intros Z N. induction n as [|n IH]; cbn [replicate app leading]; [|by rewrite Z, IH].
  destruct l as [|x l]; [done|]. simpl. by rewrite (N x l eq_refl).
Qed.

Lemma mapM_digits ds : Forall (in_base 36) ds -> mapM char_digit (map digit_char ds) = Some ds.
Proof. induction 1 as [|d ds D F IH]; [done|]. cbn [map mapM]. rewrite char_digit_char by done. simpl. by rewrite IH. Qed.
Lemma mapM_digits_inv l ds : mapM char_digit l = Some ds -> l = map digit_char ds /\ Forall (in_base 36) ds.
Proof.
  revert ds. induction l as [|c l IH]; intros ds E; [by injection E as <-|]. apply bind_Some in E as (d & D & E).
  apply bind_Some in E as (ds' & E' & E). injection E as <-. apply digit_char_digit in D as [B <-].
  destruct (IH _ E') as [-> F]. split; [done|by constructor].
Qed.
Lemma digit_zero d : in_base 36 d -> Ascii.eqb "0" (digit_char d) = (d =? 0).
Proof.
  intros D. assert (E : d ∈ seqZ 0 36) by (apply elem_of_seqZ; unfold in_base in D; lia). clear D. revert d E.
  apply Forall_forall. repeat constructor.
Qed.

Lemma bytes_in_base b : Forall (in_base 256) (map b2z b).
Proof. apply Forall_forall. intros x I. apply list_elem_of_fmap in I as (y & -> & _). apply b2z_range. Qed.
Lemma map_z2b_b2z b : map z2b (map b2z b) = b.
Proof. rewrite map_map. rewrite <- (map_id b) at 2. apply map_ext. apply z2b_b2z. Qed.
Lemma map_b2z_z2b ds : Forall (in_base 256) ds -> map b2z (map z2b ds) = ds.
Proof. induction 1 as [|d ds D F IH]; [done|]. cbn [map]. rewrite IH, b2z_z2b, Z.mod_small by done. done. Qed.

Lemma big_Bytes_value b : (forall x b', b = x :: b' -> beq x00 x = false) -> big_Bytes (big_of_bytes b) = b.
Proof.
  intros N. unfold big_Bytes, big_of_bytes. pose proof (from_base_bound 256 (map b2z b) ltac:(lia) (bytes_in_base b)).
  rewrite Z.abs_eq, to_from_base, map_z2b_b2z; [done|lia|apply bytes_in_base| |lia].
  intros d ds Q. destruct b as [|x b]; [done|]. injection Q as <- _. pose proof (b2z_range x). specialize (N x b eq_refl).
  unfold beq in N. apply Z.eqb_neq in N. change (b2z x00) with 0 in N. lia.
Qed.
Lemma big_of_zeros n b : big_of_bytes (replicate n x00 ++ b) = big_of_bytes b.
Proof. unfold big_of_bytes. rewrite map_app. replace (map b2z (replicate n x00)) with (replicate n 0) by (induction n; [done|]; simpl; by f_equal). apply from_base_zeros. Qed.

Lemma base36_decode b : DecodeToBytes (EncodeBytes b) = b.
Proof.
  destruct (leading_zeros (beq x00) x00 b) as (b' & E & N).
  { intros x. rewrite beq_true. done. }
  set (n := leading (beq x00) b) in *. unfold DecodeToBytes, EncodeBytes. fold n. rewrite E, big_of_zeros. unfold chars, of_chars.
  rewrite String.list_ascii_of_string_of_list_ascii.
  destruct (to_base_spec 36 (big_of_bytes b') ltac:(lia)) as (F & V & P).
  { apply (from_base_bound 256); [lia|apply bytes_in_base]. }
  set (ds := to_base 36 (big_of_bytes b')) in *.
  change "0"%char with (digit_char 0). replace (replicate n (digit_char 0)) with (map digit_char (replicate n 0)) by (clear; induction n; [done|]; simpl; by f_equal).
  rewrite <- map_app, mapM_digits by (rewrite Forall_app; split; [apply Forall_replicate; split; lia|done]).
  rewrite map_app. replace (map digit_char (replicate n 0)) with (replicate n (digit_char 0)) by (clear; induction n; [done|]; simpl; by f_equal).
  rewrite leading_app; [|done|].
  - by rewrite from_base_zeros, V, big_Bytes_value.
  - intros c l Q. destruct ds as [|d ds0] eqn:Ds; [done|]. injection Q as <- _. apply Forall_cons in F as [F _].
    change (digit_char 0) with "0"%char. rewrite digit_zero by done. specialize (P d ds0 eq_refl). apply Z.eqb_neq. lia.
Qed.

(** A text of upper case letters and digits *)
Definition base36_text (s : string) : Prop := exists ds, mapM char_digit (chars s) = Some ds.

Lemma base36_encode s : base36_text s -> EncodeBytes (DecodeToBytes s) = s.
Proof.
  intros (ds & M). unfold EncodeBytes, DecodeToBytes. rewrite M. apply mapM_digits_inv in M as [C F].
  destruct (leading_zeros (Ascii.eqb "0") "0"%char (chars s)) as (l' & E & N).
  { intros x. rewrite Ascii.eqb_eq. done. }
  set (n := leading (Ascii.eqb "0") (chars s)) in *.
  assert (Ed : exists ds', ds = replicate n 0 ++ ds' /\ l' = map digit_char ds').
  { rewrite E in C. clearbody n. clear E N. revert ds C F. induction n as [|n IH]; intros ds C F; [by exists ds|].
    destruct ds as [|d ds]; [done|]. simpl in C. injection C as C1 C. apply Forall_cons in F as [Fd F].
    destruct (IH ds C F) as (ds' & -> & ->). exists ds'. split; [|done]. cbn [replicate app]. f_equal.
    pose proof (digit_zero d Fd) as Z. rewrite <- C1 in Z. symmetry in Z. by apply Z.eqb_eq in Z. }
  destruct Ed as (ds' & -> & ->). apply Forall_app in F as [_ F]. rewrite from_base_zeros.
  pose proof (from_base_bound 36 ds' ltac:(lia) F) as Bd.
  destruct (to_base_spec 256 (from_base 36 0 ds') ltac:(lia) ltac:(lia)) as (F' & V & P).
  unfold big_Bytes. rewrite Z.abs_eq by lia. set (bs := to_base 256 (from_base 36 0 ds')) in *.
  rewrite (leading_app (beq x00) x00); [|done|].
  - rewrite big_of_zeros. unfold big_of_bytes. rewrite map_b2z_z2b, V by done. rewrite to_from_base; [|lia|done|].
    + rewrite <- E. apply String.string_of_list_ascii_of_string.
    + intros d dd Q. subst ds'. specialize (N (digit_char d) (map digit_char dd) eq_refl). apply Forall_cons in F as [Fd _].
      rewrite digit_zero in N by done. apply Z.eqb_neq in N. unfold in_base in Fd. lia.
  - intros x b' Q. destruct bs as [|d bs0] eqn:Bs; [done|]. injection Q as <- _. apply beq_false. intros Q.
    specialize (P d bs0 eq_refl). apply Forall_cons in F' as [Fd _]. apply (f_equal b2z) in Q. rewrite b2z_z2b, Z.mod_small in Q by done.
    change (b2z x00) with 0 in Q. lia.
Qed.

(** *** Splitting *)

Definition free_of (sep : ascii) (s : string) : bool := forallb (fun c => negb (Ascii.eqb c sep)) (chars s).

Lemma chars_app s1 s2 : chars (s1 +:+ s2) = chars s1 ++ chars s2.
Proof.
  induction s1 as [|c s1 IH]; [done|]. change (String c s1 +:+ s2) with (String c (s1 +:+ s2)).
  change (c :: chars (s1 +:+ s2) = c :: chars s1 ++ chars s2). by f_equal.
Qed.
Lemma chars_of l : chars (of_chars l) = l.
Proof. apply String.list_ascii_of_string_of_list_ascii. Qed.
Lemma of_chars_chars s : of_chars (chars s) = s.
Proof. apply String.string_of_list_ascii_of_string. Qed.
Lemma length_chars s : length (chars s) = String.length s.
Proof. induction s; simpl; congruence. Qed.
Lemma free_of_app sep s1 s2 : free_of sep (s1 +:+ s2) = free_of sep s1 && free_of sep s2.
Proof. unfold free_of. by rewrite chars_app, forallb_app. Qed.

Lemma Split_word sep w : free_of sep w = true -> Split sep w = [w].
Proof.
  induction w as [|c w IH]; [done|]. unfold free_of. cbn [chars String.list_ascii_of_string forallb Split]. intros E.
  apply andb_true_iff in E as [C E]. apply negb_true_iff in C. rewrite C, (IH E). done.
Qed.
Lemma Split_first sep w s : free_of sep w = true -> Split sep (w +:+ String sep s) = w :: Split sep s.
Proof.
  induction w as [|c w IH]; intros E.
  { change (EmptyString +:+ String sep s) with (String sep s). cbn [Split]. by rewrite Ascii.eqb_refl. }
  unfold free_of in E.
  cbn [chars String.list_ascii_of_string forallb] in E. apply andb_true_iff in E as [C E]. apply negb_true_iff in C.
  change (String c w +:+ String sep s) with (String c (w +:+ String sep s)). cbn [Split]. by rewrite C, (IH E).
Qed.

(** Base 36 texts have no lower case letters and no separators. *)
Lemma base36_chars s : base36_text s -> Forall (fun c => upper c = c /\ c <> "+"%char /\ c <> "-"%char) (chars s).
Proof.
  intros (ds & M). apply mapM_digits_inv in M as [-> F]. rewrite Forall_fmap. eapply Forall_impl; [exact F|]. intros d D.
  assert (E : d ∈ seqZ 0 36) by (apply elem_of_seqZ; unfold in_base in D; lia). clear D. revert d E.
  apply Forall_forall. repeat (constructor; [split; [reflexivity|split; discriminate]|]). constructor.
Qed.
Lemma chars_free sep s : Forall (fun c => c <> sep) (chars s) -> free_of sep s = true.
Proof.
  unfold free_of. induction 1 as [|c l N F IH]; [done|]. cbn [forallb]. rewrite IH. apply Ascii.eqb_neq in N. by rewrite N.
Qed.
Lemma ToUpper_id s : Forall (fun c => upper c = c) (chars s) -> ToUpper s = s.
Proof. induction s as [|c s IH]; [done|]. cbn. intros F. apply Forall_cons in F as [-> F]. by rewrite IH. Qed.

Lemma EncodeBytes_text b : base36_text (EncodeBytes b).
Proof.
  unfold base36_text, EncodeBytes. rewrite chars_of.
  destruct (to_base_spec 36 (big_of_bytes b) ltac:(lia)) as (F & _); [apply (from_base_bound 256); [lia|apply bytes_in_base]|].
  exists (replicate (leading (beq x00) b) 0 ++ to_base 36 (big_of_bytes b)).
  replace (replicate (leading (beq x00) b) "0"%char) with (map digit_char (replicate (leading (beq x00) b) 0))
    by (generalize (leading (beq x00) b); intros n; induction n; [done|]; simpl; by f_equal).
  rewrite <- map_app. apply mapM_digits. rewrite Forall_app. split; [apply Forall_replicate; split; lia|done].
Qed.

Lemma EncodeBytes_digit b : b2z b < 36 -> EncodeBytes [b] = String (digit_char (b2z b)) EmptyString.
Proof.
  intros L. rewrite <- (z2b_b2z b). pose proof (b2z_range b).
  assert (E : b2z b ∈ seqZ 0 36) by (apply elem_of_seqZ; lia). revert E. generalize (b2z b). clear.
  apply (Forall_forall (fun n => EncodeBytes [z2b n] = String (digit_char (b2z (z2b n))) EmptyString)). repeat constructor.
Qed.
