(* ===== verification/Script.v ===== *)
(** Parsing and inspecting scripts: src/tokenengine/internal/txscript/script.go (all of it but the
    signature hash, which is in SigHash.v).

    [parse_step] is one turn of the loop of [parseScriptTemplate] on [script[i:]]; [parse_loop]
    iterates it with fuel, [None] being a loop that has not ended.  The length of the script is
    enough fuel for the real opcode table ([parseScriptTemplate_total]). *)

From Stdlib Require Import ZArith Lia.
From S2P Require Import Prelude Errors Opcode.

Definition MaxOpsPerScript : Z := 201.
Definition MaxPubKeysPerMultiSig : Z := 20.
Definition MaxScriptElementSize : Z := 520.

Definition isSmallInt (op : opcode) : bool :=
  beq (op_value op) OP_0 || (ble OP_1 (op_value op) && ble (op_value op) OP_16).

Definition isScriptHash (pops : list parsedOpcode) : bool :=
  match pops with
  | [p0; p1; p2] => beq (pop_value p0) OP_HASH160 && beq (pop_value p1) OP_DATA_20 &&
                    beq (pop_value p2) OP_EQUAL
  | _ => false
  end.

Definition isContractHash (pops : list parsedOpcode) : bool :=
  match pops with
  | [p0; p1] => beq (pop_value p0) OP_DATA_20 && beq (pop_value p1) OP_JURY_REDEEM_EQUAL
  | _ => false
  end.

Fixpoint isPushOnly (pops : list parsedOpcode) : bool :=
  match pops with
  | [] => true
  | pop :: pops' => if blt OP_16 (pop_value pop) then false else isPushOnly pops'
  end.

(** ** Parsing *)

(** The data of a [OP_PUSHDATA] opcode, [script] being [script[off:]] in the source. *)
Definition parse_pushdata (op : opcode) (script : bytes) : result error (parsedOpcode * bytes) :=
  let n := - op_length op in
  if len script <? n then Err ErrStackShortScript
  else if negb ((op_length op =? -1) || (op_length op =? -2) || (op_length op =? -4))
  then Err (ErrInvalidOpcodeLength (op_length op))
  else
    let l := le_uint (slice script 0 n) in
    let rest := drop (Z.to_nat n) script in
    if (len rest <? int64 l) || (int64 l <? 0) then Err ErrStackShortScript
    else Ok (mkPop op (slice rest 0 (int64 l)), drop (Z.to_nat (int64 l)) rest).

(** One turn of the loop at [instr = script[i]], [script] being [script[i+1:]]; the result is
    the parsed opcode and what follows it. *)
Definition parse_step (opcodes : byte -> opcode) (instr : byte) (script : bytes)
  : result error (parsedOpcode * bytes) :=
  let op := opcodes instr in
  if op_length op =? 1 then Ok (mkPop op [], script)
  else if 1 <? op_length op then
    if len (instr :: script) <? op_length op then Err ErrStackShortScript
    else Ok (mkPop op (slice (instr :: script) 1 (op_length op)),
             drop (Z.to_nat (op_length op)) (instr :: script))
  else if op_length op <? 0 then parse_pushdata op script
  else Ok (mkPop op [], instr :: script).

(** Like the source, the opcodes parsed before an error are returned with it. *)
Fixpoint parse_loop (fuel : nat) (opcodes : byte -> opcode) (script : bytes)
  : option (list parsedOpcode * option error) :=
  match script with
  | [] => Some ([], None)
  | instr :: script' =>
      match fuel with
      | O => None
      | S fuel' =>
          match parse_step opcodes instr script' with
          | Ok (pop, rest) =>
              match parse_loop fuel' opcodes rest with
              | Some (pops, err) => Some (pop :: pops, err)
              | None => None
              end
          | Err e => Some ([], Some e)
          | Panic => None
          end
      end
  end.

Definition parseScriptTemplate (script : bytes) (opcodes : byte -> opcode)
  : option (list parsedOpcode * option error) :=
  parse_loop (length script) opcodes script.

(** [None] never shows, by [parseScriptTemplate_total]. *)
Definition parseScript (script : bytes) : list parsedOpcode * option error :=
  match parseScriptTemplate script opcodeArray with
  | Some r => r
  | None => ([], None)
  end.

Definition IsPayToScriptHash (script : bytes) : bool :=
  match parseScript script with
  | (_, Some _) => false
  | (pops, None) => isScriptHash pops
  end.

Definition IsPushOnlyScript (script : bytes) : bool :=
  match parseScript script with
  | (_, Some _) => false
  | (pops, None) => isPushOnly pops
  end.

Fixpoint unparseScript (pops : list parsedOpcode) : result error bytes :=
  match pops with
  | [] => Ok []
  | pop :: pops' =>
      let? b := pop_bytes pop in
      let? script := unparseScript pops' in
      Ok (b ++ script)
  end.

(** ** Inspection *)

(** The opcodes joined by spaces: each is written with a space after it and the last space is
    cut off. *)
Fixpoint disasm_pops (pops : list parsedOpcode) : string :=
  match pops with
  | [] => ""
  | [pop] => print pop true
  | pop :: pops' => print pop true +:+ " " +:+ disasm_pops pops'
  end.

Definition DisasmString (buf : bytes) : string * option error :=
  let '(opcodes, err) := parseScript buf in
  let disbuf := disasm_pops opcodes in
  (match err with Some _ => disbuf +:+ "[error]" | None => disbuf end, err).

Definition removeOpcode (pkscript : list parsedOpcode) (opcode : byte) : list parsedOpcode :=
  List.filter (fun pop => negb (beq (pop_value pop) opcode)) pkscript.

Definition canonicalPush (pop : parsedOpcode) : bool :=
  let opcode := pop_value pop in
  let dataLen := len (pop_data pop) in
  if blt OP_16 opcode then true
  else if blt opcode OP_PUSHDATA1 && blt OP_0 opcode &&
          ((dataLen =? 1) && (first_byte (pop_data pop) <=? 16)) then false
  else if beq opcode OP_PUSHDATA1 && (dataLen <? b2z OP_PUSHDATA1) then false
  else if beq opcode OP_PUSHDATA2 && (dataLen <=? 0xff) then false
  else if beq opcode OP_PUSHDATA4 && (dataLen <=? 0xffff) then false
  else true.

Definition removeOpcodeByData (pkscript : list parsedOpcode) (data : bytes) : list parsedOpcode :=
  List.filter (fun pop => negb (canonicalPush pop) || negb (bytes_contains (pop_data pop) data))
    pkscript.

Definition asSmallInt (op : opcode) : Z :=
  if beq (op_value op) OP_0 then 0 else uint8 (b2z (op_value op) - (b2z OP_1 - 1)).

(** [prev] is [pops[i-1]] where [i > 0]. *)
Definition sigops_of (prev : option parsedOpcode) (pop : parsedOpcode) (precise : bool) : Z :=
  if byte_in (pop_value pop) [OP_CHECKSIG; OP_CHECKSIGVERIFY] then 1
  else if byte_in (pop_value pop) [OP_CHECKMULTISIG; OP_CHECKMULTISIGVERIFY] then
    match prev with
    | Some p => if precise && ble OP_1 (pop_value p) && ble (pop_value p) OP_16
                then asSmallInt (pop_opcode p) else MaxPubKeysPerMultiSig
    | None => MaxPubKeysPerMultiSig
    end
  else 0.

Fixpoint sigop_loop (nSigs : Z) (prev : option parsedOpcode) (pops : list parsedOpcode)
    (precise : bool) : Z :=
  match pops with
  | [] => nSigs
  | pop :: pops' => sigop_loop (nSigs + sigops_of prev pop precise) (Some pop) pops' precise
  end.

Definition getSigOpCount (pops : list parsedOpcode) (precise : bool) : Z :=
  sigop_loop 0 None pops precise.

Definition GetSigOpCount (script : bytes) : Z :=
  getSigOpCount (parseScript script).1 false.

Definition GetPreciseSigOpCount (scriptSig scriptPubKey : bytes) (bip16 : bool) : Z :=
  let '(pops, _) := parseScript scriptPubKey in
  if negb (bip16 && isScriptHash pops) then getSigOpCount pops true
  else
    match parseScript scriptSig with
    | (_, Some _) => 0
    | (sigPops, None) =>
        if negb (isPushOnly sigPops) then 0
        else
          match last sigPops with
          | None => 0
          | Some pop =>
              let shScript := pop_data pop in
              if len shScript =? 0 then 0
              else getSigOpCount (parseScript shScript).1 true
          end
    end.

Definition IsUnspendable (pkScript : bytes) : bool :=
  match parseScript pkScript with
  | (_, Some _) => true
  | (pops, None) => match pops with
                    | pop :: _ => beq (pop_value pop) OP_RETURN
                    | [] => false
                    end
  end.

(** ** Lemmas on parsing *)

Lemma split_len {A} (l : list A) n : 0 <= n <= len l ->
  exists a b, l = a ++ b /\ len a = n.
Proof.
  intros H. exists (take (Z.to_nat n) l), (drop (Z.to_nat n) l). split.
  - now rewrite take_drop.
  - unfold len in *. rewrite length_take. lia.
Qed.

Lemma drop_len {A} (a b : list A) n : len a = n -> drop (Z.to_nat n) (a ++ b) = b.
Proof. intros <-. apply drop_app_length'. unfold len; lia. Qed.

Lemma le_uint_bound l : 0 <= le_uint l < 256 ^ len l.
Proof.
  induction l as [|b l IH]; [done|]. rewrite le_uint_cons, len_cons.
  rewrite Z.pow_add_r by (try apply len_nonneg; lia).
  pose proof (b2z_range b). change (256 ^ 1) with 256. nia.
Qed.

(** The length prefix of [bytes] and the length read by [parseScriptTemplate] agree. *)
Lemma length_prefix_le_uint oplen l : oplen = -1 \/ oplen = -2 \/ oplen = -4 ->
  len l = - oplen -> length_prefix oplen (le_uint l) = l.
Proof.
  intros Ho Hl. destruct (length_prefix_value oplen (le_uint l) Ho) as [Hlen Hval].
  pose proof (le_uint_bound l) as B. rewrite Hl in B. rewrite Z.mod_small in Hval by lia.
  assert (inj : forall a b, len a = len b -> le_uint a = le_uint b -> a = b).
  { clear. induction a as [|x a IH]; intros [|y b]; try (unfold len; simpl; lia); [done|].
    rewrite !len_cons, !le_uint_cons. intros H1 H2.
    pose proof (b2z_range x). pose proof (b2z_range y).
    assert (b2z x = b2z y) as ->%b2z_inj by lia. f_equal. apply IH; lia. }
  apply inj; lia.
Qed.

(** [length_prefix] loses nothing exactly when the length fits in the prefix. *)
Definition data_fits (op : opcode) (data : bytes) : Prop :=
  if op_length op =? 1 then data = []
  else if 1 <? op_length op then len data = op_length op - 1
  else len data < 256 ^ (- op_length op).

Definition encoding (pop : parsedOpcode) : bytes :=
  pop_value pop ::
  (if op_length (pop_opcode pop) <? 0
   then length_prefix (op_length (pop_opcode pop)) (len (pop_data pop)) else []) ++
  pop_data pop.
#[global] Arguments encoding : simpl never.

Lemma pop_bytes_inv pop e : from_table pop -> pop_bytes pop = Ok e ->
  e = encoding pop /\ data_fits (pop_opcode pop) (pop_data pop).
Proof.
  intros F. unfold pop_bytes, encoding, data_fits. rewrite F.
  pose proof (len_nonneg (pop_data pop)).
  destruct (table_length_cases (pop_value pop)) as [E|[E|E]].
  - rewrite E. simpl. destruct (Z.eqb_spec (len (pop_data pop)) 0) as [Z|]; [|done].
    apply len_zero in Z. rewrite Z. intros [= <-]. done.
  - set (n := op_length _) in *. unfold length_prefix.
    rewrite !(proj2 (Z.eqb_neq n _)), (proj2 (Z.ltb_ge n 0)), (proj2 (Z.ltb_lt 1 n)) by lia.
    cbn [orb]. destruct (Z.eqb_spec (len ([pop_value pop] ++ pop_data pop)) n) as [Q|]; [|done].
    intros [= <-]. split; [done|]. autorewrite with len in Q. lia.
  - set (n := op_length _) in *.
    destruct (length_prefix_value n (len (pop_data pop)) E) as [L V].
    replace ((n =? -1) || (n =? -2) || (n =? -4)) with true by (bdestruct; done).
    destruct (Z.eqb_spec n 1); [lia|]. rewrite V.
    destruct (Z.ltb_spec 1 n), (Z.ltb_spec n 0); try lia.
    destruct (Z.eqb_spec (len ((pop_value pop :: length_prefix n (len (pop_data pop))) ++
       pop_data pop)) (len (pop_data pop) mod 256 ^ (- n) +
       len (pop_value pop :: length_prefix n (len (pop_data pop))))) as [Q|]; [|done].
    intros [= <-]. split; [done|]. autorewrite with len in Q.
    assert (0 < 256 ^ (- n)) by (apply Z.pow_pos_nonneg; lia).
    pose proof (Z.mod_pos_bound (len (pop_data pop)) (256 ^ (- n))). lia.
Qed.

Lemma pop_bytes_fits pop : from_table pop -> data_fits (pop_opcode pop) (pop_data pop) ->
  pop_bytes pop = Ok (encoding pop).
Proof.
  intros F. unfold pop_bytes, encoding, data_fits. rewrite F.
  pose proof (len_nonneg (pop_data pop)).
  destruct (table_length_cases (pop_value pop)) as [E|[E|E]].
  - rewrite E. simpl. intros ->. done.
  - set (n := op_length _) in *. unfold length_prefix.
    rewrite !(proj2 (Z.eqb_neq n _)), (proj2 (Z.ltb_ge n 0)), (proj2 (Z.ltb_lt 1 n)) by lia.
    cbn [orb]. intros Q.
    destruct (Z.eqb_spec (len ([pop_value pop] ++ pop_data pop)) n) as [|N]; [done|].
    autorewrite with len in N. lia.
  - set (n := op_length _) in *.
    destruct (length_prefix_value n (len (pop_data pop)) E) as [L V].
    replace ((n =? -1) || (n =? -2) || (n =? -4)) with true by (bdestruct; done).
    destruct (Z.eqb_spec n 1); [lia|]. rewrite V.
    destruct (Z.ltb_spec 1 n), (Z.ltb_spec n 0); try lia.
    intros B. rewrite Z.mod_small by lia.
    destruct (Z.eqb_spec (len ((pop_value pop :: length_prefix n (len (pop_data pop))) ++
       pop_data pop)) (len (pop_data pop) +
       len (pop_value pop :: length_prefix n (len (pop_data pop))))) as [|N]; [done|].
    autorewrite with len in N. lia.
Qed.

Lemma encoding_nonempty pop : exists e, encoding pop = pop_value pop :: e.
Proof. unfold encoding; eauto. Qed.

(** Parsing an encoded opcode gives it back, whatever follows. *)
Lemma parse_step_encoding pop rest : from_table pop -> data_fits (pop_opcode pop) (pop_data pop) ->
  exists e, encoding pop = pop_value pop :: e /\
            parse_step opcodeArray (pop_value pop) (e ++ rest) = Ok (pop, rest).
Proof.
  intros F D. unfold encoding. eexists; split; [reflexivity|].
  unfold parse_step, data_fits in *. destruct pop as [op data]; unfold pop_value in *; simpl in *.
  unfold from_table, pop_value in F; simpl in F. rewrite <- F.
  pose proof (table_length_cases (op_value op)) as C. rewrite <- F in C.
  pose proof (len_nonneg data). pose proof (len_nonneg rest).
  set (n := op_length op) in *. destruct C as [E|[E|E]].
  - rewrite E in *. simpl in *. now subst data.
  - rewrite (proj2 (Z.eqb_neq n _)), (proj2 (Z.ltb_ge n 0)), (proj2 (Z.ltb_lt 1 n)) in * by lia.
    simpl. rewrite (proj2 (Z.ltb_ge _ _)) by (autorewrite with len; lia).
    change (op_value op :: data ++ rest) with ([op_value op] ++ data ++ rest).
    rewrite slice_app by (unfold len in *; simpl in *; lia).
    rewrite app_assoc, drop_len by (rewrite len_app; unfold len in *; simpl in *; lia). done.
  - rewrite (proj2 (Z.eqb_neq n _)), (proj2 (Z.ltb_lt n 0)), (proj2 (Z.ltb_ge 1 n)) in * by lia.
    destruct (length_prefix_value n (len data) E) as [L V].
    assert (256 ^ (- n) <= 256 ^ 4) by (apply Z.pow_le_mono_r; lia).
    rewrite Z.mod_small in V by lia. unfold parse_pushdata. fold n.
    replace ((n =? -1) || (n =? -2) || (n =? -4)) with true by (bdestruct; done).
    rewrite (proj2 (Z.ltb_ge _ _)) by (autorewrite with len; lia). cbn [negb].
    rewrite <- app_assoc, slice_prefix, drop_len by lia. rewrite V.
    simpl in *. rewrite int64_small by lia. autorewrite with len.
    rewrite !(proj2 (Z.ltb_ge _ _)) by lia. cbn [orb].
    rewrite slice_prefix, drop_len by done. done.
Qed.

(** What [parse_step] returns is a table entry whose encoding is what was consumed. *)
Lemma parse_step_inv b script pop rest : parse_step opcodeArray b script = Ok (pop, rest) ->
  from_table pop /\ data_fits (pop_opcode pop) (pop_data pop) /\
  b :: script = encoding pop ++ rest.
Proof.
  unfold parse_step, from_table, data_fits, encoding, pop_value.
  pose proof (opcodeArray_value b) as OV. pose proof (table_length_cases b) as C.
  set (n := op_length (opcodeArray b)) in *. destruct C as [E|[E|E]].
  - rewrite E. simpl. intros [= <- <-]; simpl. rewrite OV. fold n. rewrite E. done.
  - rewrite (proj2 (Z.eqb_neq n _)), (proj2 (Z.ltb_lt 1 n)) by lia.
    destruct (Z.ltb_spec (len (b :: script)) n) as [|B]; [done|].
    intros [= <- <-]; simpl. rewrite OV. fold n.
    rewrite (proj2 (Z.eqb_neq n _)), (proj2 (Z.ltb_ge n 0)), (proj2 (Z.ltb_lt 1 n)) by lia.
    rewrite len_cons in B. destruct (split_len script (n - 1)) as (d & r & -> & Ld); [lia|].
    change (b :: d ++ r) with ([b] ++ d ++ r).
    rewrite slice_app by (unfold len in *; simpl in *; lia).
    rewrite app_assoc, drop_len by (rewrite len_app; unfold len in *; simpl in *; lia). done.
  - rewrite (proj2 (Z.eqb_neq n _)), (proj2 (Z.ltb_lt n 0)), (proj2 (Z.ltb_ge 1 n)) by lia.
    unfold parse_pushdata. fold n.
    replace ((n =? -1) || (n =? -2) || (n =? -4)) with true by (bdestruct; done).
    destruct (Z.ltb_spec (len script) (- n)) as [|B]; [done|]. cbn [negb].
    destruct (split_len script (- n)) as (p & r & -> & Lp); [lia|].
    rewrite slice_prefix, drop_len by lia.
    pose proof (le_uint_bound p) as U. rewrite Lp in U.
    assert (256 ^ (- n) <= 256 ^ 4) by (apply Z.pow_le_mono_r; lia). simpl in *.
    rewrite int64_small by lia.
    destruct (Z.ltb_spec (len r) (le_uint p)) as [|B2]; [done|].
    rewrite (proj2 (Z.ltb_ge _ 0)) by lia. cbn [orb].
    destruct (split_len r (le_uint p)) as (d & r' & -> & Ld); [lia|].
    rewrite slice_prefix, drop_len by lia. intros [= <- <-]; simpl. rewrite OV. fold n.
    rewrite (proj2 (Z.eqb_neq n _)), (proj2 (Z.ltb_lt n 0)), (proj2 (Z.ltb_ge 1 n)) by lia.
    rewrite Ld, length_prefix_le_uint, <- app_assoc by lia. split_and!; done || lia.
Qed.

Lemma parse_step_no_panic b script : parse_step opcodeArray b script <> Panic.
Proof.
  unfold parse_step, parse_pushdata. repeat case_match; done.
Qed.

(** A step consumes at least the opcode byte. *)
Lemma parse_step_shrinks b script pop rest : parse_step opcodeArray b script = Ok (pop, rest) ->
  (length rest <= length script)%nat.
Proof.
  intros H. apply parse_step_inv in H as (_ & _ & E). apply (f_equal length) in E.
  destruct (encoding_nonempty pop) as [e He]. rewrite He, length_app in E. simpl in E. lia.
Qed.

Lemma parse_loop_fuel fuel fuel' script : (length script <= fuel)%nat -> (length script <= fuel')%nat ->
  parse_loop fuel opcodeArray script = parse_loop fuel' opcodeArray script.
Proof.
  revert fuel' script. induction fuel as [|fuel IH]; intros [|fuel'] [|b s]; simpl; try lia; auto.
  intros H H'. destruct (parse_step opcodeArray b s) as [[pop rest]|e|] eqn:E; try done.
  apply parse_step_shrinks in E. rewrite (IH fuel') by lia. done.
Qed.

Lemma parse_loop_some fuel script : (length script <= fuel)%nat ->
  exists r, parse_loop fuel opcodeArray script = Some r.
Proof.
  revert script. induction fuel as [|fuel IH]; intros [|b s]; simpl; try lia; eauto.
  intros H. destruct (parse_step opcodeArray b s) as [[pop rest]|e|] eqn:E; eauto.
  - apply parse_step_shrinks in E. destruct (IH rest) as [[pops err] ->]; [lia|]. eauto.
  - now apply parse_step_no_panic in E.
Qed.

(** [parseScript] by its recursion equation, without fuel. *)
Lemma parseScript_nil : parseScript [] = ([], None).
Proof. reflexivity. Qed.

Lemma parseScript_cons b s : parseScript (b :: s) =
  match parse_step opcodeArray b s with
  | Ok (pop, rest) => let '(pops, err) := parseScript rest in (pop :: pops, err)
  | Err e => ([], Some e)
  | Panic => ([], None)
  end.
Proof.
  unfold parseScript at 1, parseScriptTemplate. simpl.
  destruct (parse_step opcodeArray b s) as [[pop rest]|e|] eqn:E; try done.
  apply parse_step_shrinks in E. unfold parseScript, parseScriptTemplate.
  rewrite (parse_loop_fuel _ (length rest)) by lia.
  destruct (parse_loop_some (length rest) rest) as [[pops err] ->]; [lia|]. done.
Qed.

(** Opcodes that a script can be made of. *)
Definition good_pop (pop : parsedOpcode) : Prop :=
  from_table pop /\ data_fits (pop_opcode pop) (pop_data pop).

Lemma parseScript_app pop script : good_pop pop ->
  parseScript (encoding pop ++ script) = let '(pops, err) := parseScript script in (pop :: pops, err).
Proof.
  intros [F D]. destruct (parse_step_encoding pop script F D) as (e & -> & S).
  simpl. rewrite parseScript_cons, S. done.
Qed.

Lemma parseScript_encodings pops script : Forall good_pop pops ->
  parseScript (concat (map encoding pops) ++ script) =
  let '(pops', err) := parseScript script in (pops ++ pops', err).
Proof.
  induction 1 as [|pop pops G _ IH]; cbn [map concat]; [simpl; now destruct (parseScript script)|].
  rewrite <- app_assoc. rewrite parseScript_app, IH by done. now destruct (parseScript script).
Qed.

Lemma parseScript_encoded pops : Forall good_pop pops ->
  parseScript (concat (map encoding pops)) = (pops, None).
Proof.
  intros G. rewrite <- (app_nil_r (concat _)), parseScript_encodings by done.
  simpl. now rewrite app_nil_r.
Qed.

Lemma parseScript_inv script : forall pops err, parseScript script = (pops, err) ->
  exists rest, Forall good_pop pops /\ script = concat (map encoding pops) ++ rest /\
               (err = None <-> rest = []).
Proof.
  induction script as [script IH] using (induction_ltof1 _ (@length byte)); unfold ltof in IH.
  destruct script as [|b s]; intros pops err.
  - rewrite parseScript_nil. intros [= <- <-]. exists []. done.
  - rewrite parseScript_cons.
    destruct (parse_step opcodeArray b s) as [[pop rest]|e|] eqn:E.
    + pose proof (parse_step_shrinks _ _ _ _ E). apply parse_step_inv in E as (F & D & ->).
      destruct (parseScript rest) as [pops' err'] eqn:P. intros [= <- <-].
      destruct (IH rest) with (pops := pops') (err := err') as (r & G & -> & N); [simpl; lia|done|].
      exists r. split; [by constructor|]. split; [|exact N].
      cbn [map concat]. by rewrite app_assoc.
    + intros [= <- <-]. exists (b :: s). done.
    + now apply parse_step_no_panic in E.
Qed.

Lemma unparse_good pops : Forall good_pop pops ->
  unparseScript pops = Ok (concat (map encoding pops)).
Proof.
  induction 1 as [|pop pops [F D] _ IH]; [done|]. simpl.
  rewrite pop_bytes_fits, IH by done. done.
Qed.

Lemma unparse_inv pops s : Forall from_table pops -> unparseScript pops = Ok s ->
  Forall good_pop pops /\ s = concat (map encoding pops).
Proof.
  intros F. revert s. induction F as [|pop pops Fp _ IH]; simpl; intros s.
  - by intros [= <-].
  - destruct (pop_bytes pop) as [e| |] eqn:E; try done. simpl.
    destruct (unparseScript pops) as [r| |]; try done. simpl. intros [= <-].
    apply pop_bytes_inv in E as [-> D]; [|done]. destruct (IH r) as [G ->]; [done|].
    split; [|done]. constructor; [split|]; done.
Qed.

Lemma good_filter f pops : Forall good_pop pops -> Forall good_pop (List.filter f pops).
Proof.
  induction 1; simpl; [constructor|]. destruct (f x); [constructor|]; done.
Qed.

Lemma parsed_good script pops err : parseScript script = (pops, err) -> Forall good_pop pops.
Proof. intros H. now apply parseScript_inv in H as (? & ? & _). Qed.

(** ** Properties *)

(** Parsing terminates on every script: the loop of [parseScriptTemplate] on the engine's
    opcode table ends within as many turns as the script has bytes. *)
Theorem parseScriptTemplate_total (script : bytes) :
  parseScriptTemplate script opcodeArray = Some (parseScript script).
Proof.
  unfold parseScript, parseScriptTemplate.
  now destruct (parse_loop_some (length script) script) as [r ->].
Qed.

(** Parsing loses nothing.  For every script, [unparseScript] of the parsed opcodes
    succeeds and gives back the bytes that were parsed; the parser reports an error exactly when
    bytes are left over, so a script that parses is given back whole. *)
Theorem parse_unparse (script : bytes) :
  let '(pops, err) := parseScript script in
  exists parsed rest, unparseScript pops = Ok parsed /\ script = parsed ++ rest /\
                      (err = None <-> rest = []).
Proof.
  destruct (parseScript script) as [pops err] eqn:P.
  apply parseScript_inv in P as (rest & G & E & N).
  exists (concat (map encoding pops)), rest. rewrite unparse_good by done. done.
Qed.

(** Unparsing loses nothing.  Whenever [unparseScript] accepts a list of opcodes of the
    table, parsing the result gives back exactly that list. *)
Theorem unparse_parse (pops : list parsedOpcode) (script : bytes) :
  Forall from_table pops -> unparseScript pops = Ok script -> parseScript script = (pops, None).
Proof.
  intros F U. apply unparse_inv in U as [G ->]; [|done]. now apply parseScript_encoded.
Qed.
Lemma unparse_parse_witness :
  parseScript [x4c; x02; xaa; xbb; x76] =
  ([mkPop (opcodeArray OP_PUSHDATA1) [xaa; xbb]; mkPop (opcodeArray OP_DUP) []], None).
Proof.
  apply unparse_parse; [repeat constructor | reflexivity].
Defined.

(** Removing an opcode, or the pushes of some data, from a script that parses leaves a
    script that can be unparsed, and that parses back to the remaining opcodes (the comment in
    [calcSignatureData]: unparsing cannot fail there). *)
Theorem remove_unparse (script : bytes) (op : byte) (data : bytes) (pops : list parsedOpcode) :
  parseScript script = (pops, None) ->
  (exists s, unparseScript (removeOpcode pops op) = Ok s /\
             parseScript s = (removeOpcode pops op, None)) /\
  (exists s, unparseScript (removeOpcodeByData pops data) = Ok s /\
             parseScript s = (removeOpcodeByData pops data, None)).
Proof.
  intros P. apply parsed_good in P.
  split; eexists; (split; [apply unparse_good, good_filter, P|]);
    apply parseScript_encoded, good_filter, P.
Qed.
Lemma remove_unparse_witness :
  exists s, unparseScript (removeOpcode (parseScript [xab; x01; x07; xac]).1 OP_CODESEPARATOR) = Ok s.
Proof.
  destruct (remove_unparse [xab; x01; x07; xac] OP_CODESEPARATOR [x07]
              (parseScript [xab; x01; x07; xac]).1) as [[s [H _]] _]; [reflexivity|].
  exists s. exact H.
Defined.

(** *** Scripts of a known shape *)

(** An opcode without data. *)
Definition plain (b : byte) : parsedOpcode := mkPop (opcodeArray b) [].
(** A direct push of data, [OP_DATA_n]. *)
Definition push (data : bytes) : parsedOpcode := mkPop (opcodeArray (z2b (len data))) data.

Lemma from_table_mk b data : from_table (mkPop (opcodeArray b) data).
Proof. unfold from_table, pop_value; simpl. now rewrite opcodeArray_value. Qed.

Lemma plain_good b : op_length (opcodeArray b) = 1 -> good_pop (plain b).
Proof.
  intros H. split; [apply from_table_mk|]. unfold data_fits; simpl. now rewrite H.
Qed.

Lemma push_opcode_length (data : bytes) : 1 <= len data <= 75 ->
  op_length (opcodeArray (z2b (len data))) = len data + 1.
Proof.
  intros H. rewrite opcodeArray_length, b2z_z2b, Z.mod_small by lia. bdestruct.
Qed.

Lemma push_good data : 1 <= len data <= 75 -> good_pop (push data).
Proof.
  intros H. split; [apply from_table_mk|]. unfold data_fits; simpl.
  rewrite push_opcode_length by lia. bdestruct.
Qed.

Lemma encoding_plain b : op_length (opcodeArray b) = 1 -> encoding (plain b) = [b].
Proof.
  intros H. unfold encoding, pop_value; simpl. now rewrite opcodeArray_value, H.
Qed.

Lemma encoding_push data : 1 <= len data <= 75 -> encoding (push data) = z2b (len data) :: data.
Proof.
  intros H. unfold encoding, pop_value; simpl. rewrite opcodeArray_value, push_opcode_length by lia.
  rewrite (proj2 (Z.ltb_ge _ 0)) by lia. done.
Qed.

(** A good opcode is determined by its value and its data. *)
Lemma good_plain pop b : good_pop pop -> pop_value pop = b -> op_length (opcodeArray b) = 1 ->
  pop = plain b.
Proof.
  intros [F D] V L. destruct pop as [op data]; unfold from_table in F; simpl in *.
  rewrite V in F. subst op. unfold data_fits in D; simpl in D. rewrite L in D; simpl in D.
  now subst data.
Qed.

Lemma good_push pop n : good_pop pop -> pop_value pop = z2b n -> 1 <= n <= 75 ->
  len (pop_data pop) = n /\ pop = push (pop_data pop).
Proof.
  intros [F D] V L. destruct pop as [op data]; unfold from_table in F; simpl in *.
  rewrite V in F. subst op. unfold data_fits in D; simpl in D.
  rewrite opcodeArray_length, b2z_z2b, Z.mod_small in D by lia.
  rewrite !(proj2 (Z.leb_le _ _)) in D by lia. cbn [andb] in D.
  rewrite (proj2 (Z.eqb_neq _ _)), (proj2 (Z.ltb_lt _ _)) in D by lia.
  assert (len data = n) as E by lia. split; [done|]. unfold push. now rewrite E.
Qed.

(** The parsed-opcode test for a pay-to-script-hash script recognises exactly the 23-byte
    scripts [OP_HASH160 <20 bytes> OP_EQUAL]. *)
Theorem IsPayToScriptHash_iff (script : bytes) :
  IsPayToScriptHash script = true <->
  exists h : bytes, len h = 20 /\ script = [OP_HASH160; OP_DATA_20] ++ h ++ [OP_EQUAL].
Proof.
  unfold IsPayToScriptHash. split.
  - destruct (parseScript script) as [pops [e|]] eqn:P; [done|].
    apply parseScript_inv in P as (rest & G & -> & N). rewrite (proj1 N eq_refl), app_nil_r.
    destruct pops as [|p0 [|p1 [|p2 [|? ?]]]]; try done. cbn [isScriptHash].
    rewrite !andb_true_iff, !beq_true. intros [[V0 V1] V2].
    inversion G as [|? ? G0 G']; subst. inversion G' as [|? ? G1 G'']; subst.
    inversion G'' as [|? ? G2 _]; subst.
    rewrite (good_plain p0 OP_HASH160), (good_plain p2 OP_EQUAL) by done.
    destruct (good_push p1 20 G1) as [L E]; [done|lia|]. rewrite E.
    exists (pop_data p1). split; [done|]. cbn [map concat].
    rewrite !encoding_plain, encoding_push, L by first [reflexivity | lia]. done.
  - intros (h & L & ->).
    replace ([OP_HASH160; OP_DATA_20] ++ h ++ [OP_EQUAL])
      with (concat (map encoding [plain OP_HASH160; push h; plain OP_EQUAL])).
    + rewrite parseScript_encoded.
      * simpl. unfold pop_value; simpl. now rewrite L.
      * rewrite !Forall_cons. split_and!; [by apply plain_good|apply push_good; lia|
          by apply plain_good|by constructor].
    + cbn [map concat]. rewrite !encoding_plain, encoding_push, L by first [reflexivity | lia]. done.
Qed.

(** Counting signature operations: the precise count never exceeds the quick one, both
    lie between 0 and 20 for each byte of the script. *)
Theorem sigop_count_bounds (script : bytes) :
  0 <= getSigOpCount (parseScript script).1 true <= GetSigOpCount script /\
  GetSigOpCount script <= MaxPubKeysPerMultiSig * len script.
Proof.
  assert (step : forall prev pop, 0 <= sigops_of prev pop true <= sigops_of prev pop false /\
                   sigops_of prev pop false <= MaxPubKeysPerMultiSig).
  { intros prev pop. unfold sigops_of, MaxPubKeysPerMultiSig. destruct (byte_in _ _); [lia|].
    destruct (byte_in _ _); [|lia]. destruct prev as [p|]; [|lia]. simpl.
    destruct (ble OP_1 _) eqn:E1; simpl; [|lia]. destruct (ble _ OP_16) eqn:E2; simpl; [|lia].
    unfold asSmallInt, uint8, ble, pop_value in *. apply Z.leb_le in E1, E2.
    change (b2z OP_1) with 81 in *. change (b2z OP_16) with 96 in *.
    destruct (beq _ _); rewrite ?wrapU_small by (simpl; lia); lia. }
  assert (loop : forall pops n n' prev, n <= n' ->
    n <= sigop_loop n prev pops true <= sigop_loop n' prev pops false /\
    sigop_loop n' prev pops false <= n' + MaxPubKeysPerMultiSig * len pops).
  { induction pops as [|pop pops IH]; intros n n' prev H; [unfold len; simpl; lia|].
    simpl. rewrite len_cons. specialize (step prev pop).
    destruct (IH (n + sigops_of prev pop true) (n' + sigops_of prev pop false) (Some pop)); lia. }
  unfold GetSigOpCount, getSigOpCount.
  destruct (parseScript script) as [pops err] eqn:P. simpl.
  apply parseScript_inv in P as (rest & _ & -> & _).
  specialize (loop pops 0 0 None). rewrite len_app.
  assert (len pops <= len (concat (map encoding pops))).
  { clear. induction pops as [|p pops IH]; cbn [map concat]; [done|].
    destruct (encoding_nonempty p) as [e ->]. autorewrite with len. pose proof (len_nonneg e). lia. }
  pose proof (len_nonneg rest). unfold MaxPubKeysPerMultiSig in *. lia.
Qed.
