(* ===== verification/Builder.v ===== *)
(** Building scripts: src/tokenengine/internal/txscript/scriptbuilder.go.

    A [ScriptBuilder] is the script built so far and the first error; the methods are functions
    on it, in the order the calls are chained in the source.  [AddInt64] can panic, because
    [scriptNum.Bytes] can. *)

From Stdlib Require Import ZArith Lia.
From S2P Require Import Prelude Errors ScriptNum Opcode Script.

(** engine.go *)
Definition maxScriptSize : Z := 10000.

Record ScriptBuilder := mkBuilder { script : bytes; err : option error }.

Definition append (l : bytes) (b : ScriptBuilder) : ScriptBuilder :=
  {| script := script b ++ l; err := err b |}.

Definition fail_canonical (b : ScriptBuilder) : ScriptBuilder :=
  {| script := script b; err := Some ErrScriptNotCanonical |}.

Definition AddOp (opcode : byte) (b : ScriptBuilder) : ScriptBuilder :=
  match err b with
  | Some _ => b
  | None => if maxScriptSize <? len (script b) + 1 then fail_canonical b else append [opcode] b
  end.

Definition canonicalDataSize (data : bytes) : Z :=
  let dataLen := len data in
  if dataLen =? 0 then 1
  else if (dataLen =? 1) && (first_byte data <=? 16) then 1
  else if (dataLen =? 1) && (first_byte data =? 0x81) then 1
  else if dataLen <? b2z OP_PUSHDATA1 then 1 + dataLen
  else if dataLen <=? 0xff then 2 + dataLen
  else if dataLen <=? 0xffff then 3 + dataLen
  else 5 + dataLen.

(** [binary.LittleEndian.PutUint16] and [PutUint32] into a fresh buffer *)
Definition putUint16 (v : Z) : bytes := [z2b v; z2b (Z.shiftr v 8)].
Definition putUint32 (v : Z) : bytes :=
  [z2b v; z2b (Z.shiftr v 8); z2b (Z.shiftr v 16); z2b (Z.shiftr v 24)].

Definition addData (data : bytes) (b : ScriptBuilder) : ScriptBuilder :=
  let dataLen := len data in
  if (dataLen =? 0) || ((dataLen =? 1) && (first_byte data =? 0)) then append [OP_0] b
  else if (dataLen =? 1) && (first_byte data <=? 16) then
    append [z2b ((b2z OP_1 - 1) + first_byte data)] b
  else if (dataLen =? 1) && (first_byte data =? 0x81) then append [OP_1NEGATE] b
  else
    let b :=
      if dataLen <? b2z OP_PUSHDATA1 then append [z2b ((b2z OP_DATA_1 - 1) + dataLen)] b
      else if dataLen <=? 0xff then append [OP_PUSHDATA1; z2b dataLen] b
      else if dataLen <=? 0xffff then
        append (putUint16 (uint16 dataLen)) (append [OP_PUSHDATA2] b)
      else append (putUint32 (uint32 dataLen)) (append [OP_PUSHDATA4] b) in
    append data b.

Definition AddFullData (data : bytes) (b : ScriptBuilder) : ScriptBuilder :=
  match err b with
  | Some _ => b
  | None => addData data b
  end.

Definition AddData (data : bytes) (b : ScriptBuilder) : ScriptBuilder :=
  match err b with
  | Some _ => b
  | None =>
      let dataSize := canonicalDataSize data in
      if maxScriptSize <? len (script b) + dataSize then fail_canonical b
      else if MaxScriptElementSize <? len data then fail_canonical b
      else addData data b
  end.

Definition AddInt64 (val : Z) (b : ScriptBuilder) : result error ScriptBuilder :=
  match err b with
  | Some _ => Ok b
  | None =>
      if maxScriptSize <? len (script b) + 1 then Ok (fail_canonical b)
      else if val =? 0 then Ok (append [OP_0] b)
      else if (val =? -1) || ((1 <=? val) && (val <=? 16)) then
        Ok (append [z2b ((b2z OP_1 - 1) + val)] b)
      else
        let? data := Bytes val in
        Ok (AddData data b)
  end.

Definition Reset (b : ScriptBuilder) : ScriptBuilder := {| script := []; err := None |}.

(** [Script()] returns both fields; a caller that checks the error has a [result]. *)
Definition Script_ (b : ScriptBuilder) : result error bytes :=
  match err b with
  | Some e => Err e
  | None => Ok (script b)
  end.

Definition NewScriptBuilder : ScriptBuilder := {| script := []; err := None |}.

(** ** The opcode that pushes some data *)

(** What [addData] appends, as a parsed opcode. *)
Definition canonical_pop (data : bytes) : parsedOpcode :=
  if (len data =? 0) || ((len data =? 1) && (first_byte data =? 0)) then plain OP_0
  else if (len data =? 1) && (first_byte data <=? 16) then plain (z2b (80 + first_byte data))
  else if (len data =? 1) && (first_byte data =? 0x81) then plain OP_1NEGATE
  else if len data <=? 75 then push data
  else if len data <=? 0xff then mkPop (opcodeArray OP_PUSHDATA1) data
  else if len data <=? 0xffff then mkPop (opcodeArray OP_PUSHDATA2) data
  else mkPop (opcodeArray OP_PUSHDATA4) data.

(** The bytes that executing a push opcode puts on the stack: [opcodeFalse], [opcodeN],
    [opcode1Negate] and [opcodePushData] (Engine.v relates them to the handlers). *)
Definition pushed_value (pop : parsedOpcode) : bytes :=
  let v := b2z (pop_value pop) in
  if v =? 0 then []
  else if (81 <=? v) && (v <=? 96) then [z2b (v - 80)]
  else if v =? 79 then [x81]
  else pop_data pop.

Lemma first_byte_single (data : bytes) : len data = 1 ->
  exists b, data = [b] /\ first_byte data = b2z b.
Proof.
  destruct data as [|b [|? ?]]; unfold len; simpl; try lia. eauto.
Qed.

Lemma first_byte_range data : 0 <= first_byte data < 256.
Proof. destruct data as [|b ?]; simpl; [lia|apply b2z_range]. Qed.

Lemma small_int_length n : 0 <= n <= 16 -> op_length (opcodeArray (z2b (80 + n))) = 1.
Proof.
  intros H. rewrite opcodeArray_length, b2z_z2b, Z.mod_small by lia. bdestruct.
  unfold beq. rewrite b2z_z2b, Z.mod_small by lia.
  change (b2z OP_PUSHDATA1) with 76; change (b2z OP_PUSHDATA2) with 77;
    change (b2z OP_PUSHDATA4) with 78. bdestruct.
Qed.

(** Case analysis along the branches of [addData]. *)
Ltac data_cases data :=
  destruct (Z.eqb_spec (len data) 0) as [L0|L0]; cbn [orb andb];
  [|destruct (Z.eqb_spec (len data) 1) as [L1|L1]; cbn [orb andb];
    [destruct (Z.eqb_spec (first_byte data) 0) as [F0|F0]; cbn [orb andb];
     [|destruct (Z.leb_spec (first_byte data) 16) as [F1|F1];
       [|destruct (Z.eqb_spec (first_byte data) 0x81) as [F2|F2]]]|]].

Lemma canonical_pop_good data : len data < 2 ^ 32 -> good_pop (canonical_pop data).
Proof.
  intros B. unfold canonical_pop. pose proof (len_nonneg data).
  pose proof (first_byte_range data).
  assert (forall b, op_length (opcodeArray b) < 0 -> len data < 256 ^ (- op_length (opcodeArray b)) ->
            good_pop (mkPop (opcodeArray b) data)) as big.
  { intros b N L. split; [apply from_table_mk|]. unfold data_fits; simpl. bdestruct. }
  data_cases data; try (apply plain_good; try done; apply small_int_length; lia);
    repeat case_match; try (apply push_good; lia); apply big; simpl in *; try done; lia.
Qed.

Lemma putUint16_prefix v : 0 <= v < 2 ^ 16 -> putUint16 (uint16 v) = length_prefix (-2) v.
Proof.
  intros H. unfold uint16. rewrite wrapU_small by done. unfold putUint16, length_prefix; simpl.
  repeat (apply f_equal2; [apply b2z_inj; rewrite !b2z_z2b, land_ff; dlia|]); done.
Qed.

Lemma putUint32_prefix v : 0 <= v < 2 ^ 32 -> putUint32 (uint32 v) = length_prefix (-4) v.
Proof.
  intros H. unfold uint32. rewrite wrapU_small by done. unfold putUint32, length_prefix; simpl.
  repeat (apply f_equal2; [apply b2z_inj; rewrite !b2z_z2b, land_ff; dlia|]); done.
Qed.

Lemma append_append a c b : append a (append c b) = append (c ++ a) b.
Proof. unfold append; simpl. now rewrite app_assoc. Qed.

Lemma addData_appends data b : len data < 2 ^ 32 ->
  addData data b = append (encoding (canonical_pop data)) b.
Proof.
  intros B. unfold addData, canonical_pop. pose proof (len_nonneg data).
  pose proof (first_byte_range data).
  change (b2z OP_PUSHDATA1) with 76; change (b2z OP_1 - 1) with 80;
    change (b2z OP_DATA_1 - 1) with 0.
  assert (big : forall o p, p = length_prefix (op_length (opcodeArray o)) (len data) ->
            op_length (opcodeArray o) < 0 ->
            append data (append p (append [o] b)) = append (encoding (mkPop (opcodeArray o) data)) b).
  { intros o p -> N. rewrite !append_append. f_equal. unfold encoding, pop_value; simpl.
    rewrite opcodeArray_value, (proj2 (Z.ltb_lt _ 0)) by done. done. }
  data_cases data; try (rewrite encoding_plain; [done|first [done | apply small_int_length; lia]]);
    repeat (bdestruct_step; try lia);
    try (rewrite encoding_push, append_append by lia; done).
  - rewrite <- (big OP_PUSHDATA1 [z2b (len data)]) by done. now rewrite !append_append.
  - apply big; [apply putUint16_prefix; lia|done].
  - apply big; [apply putUint32_prefix; lia|done].
Qed.

Lemma canonicalDataSize_encoding data : len data < 2 ^ 32 ->
  canonicalDataSize data = len (encoding (canonical_pop data)).
Proof.
  intros B. unfold canonicalDataSize, canonical_pop. pose proof (len_nonneg data).
  pose proof (first_byte_range data). change (b2z OP_PUSHDATA1) with 76.
  assert (big : forall o, op_length (opcodeArray o) < 0 ->
            len (encoding (mkPop (opcodeArray o) data)) = 1 - op_length (opcodeArray o) + len data).
  { intros o N. pose proof (table_length_cases o).
    unfold encoding; simpl. rewrite (proj2 (Z.ltb_lt _ 0)) by done.
    rewrite len_cons, len_app.
    destruct (length_prefix_value (op_length (opcodeArray o)) (len data)) as [-> _]; lia. }
  data_cases data; try (rewrite encoding_plain; [done|first [done | apply small_int_length; lia]]);
    repeat (bdestruct_step; try lia);
    try (rewrite encoding_push, len_cons by lia; lia); try (now rewrite encoding_plain);
    rewrite big by done; simpl; lia.
Qed.

(** A builder whose script has been accepted so far. *)
Definition building (b : ScriptBuilder) (pops : list parsedOpcode) : Prop :=
  err b = None /\ Forall good_pop pops /\ script b = concat (map encoding pops).

Lemma building_new : building NewScriptBuilder [].
Proof. repeat constructor. Qed.

Lemma building_append b pops pop : building b pops -> good_pop pop ->
  building (append (encoding pop) b) (pops ++ [pop]).
Proof.
  intros (E & G & S) Gp. split; [done|]. split.
  - apply Forall_app; split; [done|]. by apply Forall_singleton.
  - unfold append; simpl. rewrite map_app, concat_app, S. cbn [map concat]. now rewrite app_nil_r.
Qed.

Lemma building_AddOp b pops op : building b pops -> op_length (opcodeArray op) = 1 ->
  len (script b) < maxScriptSize -> building (AddOp op b) (pops ++ [plain op]).
Proof.
  intros H L S. pose proof H as (E & _). unfold AddOp. rewrite E.
  rewrite (proj2 (Z.ltb_ge _ _)) by lia. rewrite <- (encoding_plain op L).
  apply building_append; [done|]. now apply plain_good.
Qed.

Lemma building_AddData b pops data : building b pops -> len data <= MaxScriptElementSize ->
  len (script b) + canonicalDataSize data <= maxScriptSize ->
  building (AddData data b) (pops ++ [canonical_pop data]).
Proof.
  intros H L S. pose proof H as (E & _). unfold AddData, MaxScriptElementSize in *. rewrite E.
  rewrite !(proj2 (Z.ltb_ge _ _)) by lia. rewrite addData_appends by lia.
  apply building_append; [done|]. apply canonical_pop_good; lia.
Qed.

Lemma building_parse b pops : building b pops -> parseScript (script b) = (pops, None).
Proof. intros (_ & G & ->). now apply parseScript_encoded. Qed.

Lemma building_Script b pops : building b pops ->
  Script_ b = Ok (concat (map encoding pops)).
Proof. intros (E & _ & S). unfold Script_. now rewrite E, S. Qed.

Lemma pushed_value_plain v : 0 <= v <= 16 ->
  pushed_value (plain (z2b (80 + v))) = [z2b v] \/ v = 0.
Proof.
  intros H. destruct (Z.eq_dec v 0); [by right|left]. unfold pushed_value, pop_value; simpl.
  rewrite opcodeArray_value, b2z_z2b, Z.mod_small by lia. bdestruct.
  f_equal. f_equal. lia.
Qed.

Lemma canonical_pop_value data : data <> [x00] -> len data < 2 ^ 32 ->
  pushed_value (canonical_pop data) = data.
Proof.
  intros N B. unfold canonical_pop. pose proof (len_nonneg data).
  assert (big : forall o, (b2z o =? 0) = false -> (81 <=? b2z o) && (b2z o <=? 96) = false ->
            (b2z o =? 79) = false -> pushed_value (mkPop (opcodeArray o) data) = data).
  { intros o H1 H2 H3. unfold pushed_value, pop_value; simpl.
    now rewrite opcodeArray_value, H1, H2, H3. }
  data_cases data.
  - apply len_zero in L0 as ->. done.
  - destruct (first_byte_single data L1) as (b & -> & E). rewrite F0 in E.
    destruct N. f_equal. now apply b2z_inj.
  - destruct (first_byte_single data L1) as (b & -> & E). rewrite E in *.
    pose proof (b2z_range b).
    destruct (pushed_value_plain (b2z b)) as [->|]; [lia| |lia]. now rewrite z2b_b2z.
  - destruct (first_byte_single data L1) as (b & -> & E). rewrite E in *.
    replace b with x81 by (now apply b2z_inj). done.
  - rewrite (proj2 (Z.leb_le _ _)) by lia.
    apply big; rewrite b2z_z2b, Z.mod_small by lia; bdestruct; done.
  - repeat (bdestruct_step; try lia); apply big; try done;
      rewrite b2z_z2b, Z.mod_small by lia; bdestruct; done.
Qed.

(** The canonical push is the one [checkMinimalDataPush] asks for. *)
Lemma canonical_pop_minimal data : len data < 2 ^ 32 ->
  b2z (pop_value (canonical_pop data)) <= b2z OP_PUSHDATA4 ->
  checkMinimalDataPush (canonical_pop data) = None.
Proof.
  intros B. unfold canonical_pop. pose proof (len_nonneg data).
  pose proof (first_byte_range data).
  assert (val : forall o d, pop_value (mkPop (opcodeArray o) d) = o)
    by (intros; apply opcodeArray_value).
  data_cases data; try done.
  - unfold plain. rewrite val, b2z_z2b, Z.mod_small by lia.
    change (b2z OP_PUSHDATA4) with 78. lia.
  - intros _. rewrite (proj2 (Z.leb_le (len data) 75)) by lia.
    unfold checkMinimalDataPush, push. rewrite val, b2z_z2b, Z.mod_small by lia.
    cbn [pop_data]. repeat (bdestruct_step; try lia; cbn [andb negb]); done.
  - intros _. unfold checkMinimalDataPush.
    destruct (Z.leb_spec (len data) 75); [|destruct (Z.leb_spec (len data) 0xff);
      [|destruct (Z.leb_spec (len data) 0xffff)]]; unfold push; rewrite val; cbn [pop_data];
      repeat (bdestruct_step; try lia; cbn [andb negb]); try done.
    all: rewrite b2z_z2b, Z.mod_small in * by lia; lia.
Qed.

(** ** Properties *)

(** [AddData] respects canonical encoding.  As long as the element and script size limits
    hold, it appends one opcode that parses back, is a minimal push in the sense of
    [checkMinimalDataPush], and pushes exactly the data given; the one exception is the single
    byte 0x00, for which it appends OP_0, a push of empty data. *)
Theorem AddData_canonical (b : ScriptBuilder) (pops : list parsedOpcode) (data : bytes) :
  err b = None -> parseScript (script b) = (pops, None) ->
  len data <= MaxScriptElementSize ->
  len (script b) + canonicalDataSize data <= maxScriptSize ->
  exists pop,
    err (AddData data b) = None /\
    parseScript (script (AddData data b)) = (pops ++ [pop], None) /\
    len (script (AddData data b)) = len (script b) + canonicalDataSize data /\
    (b2z (pop_value pop) <= b2z OP_PUSHDATA4 -> checkMinimalDataPush pop = None) /\
    pushed_value pop = (if bool_decide (data = [x00]) then [] else data).
Proof.
  intros E P L S. exists (canonical_pop data).
  assert (B : len data < 2 ^ 32) by (unfold MaxScriptElementSize in L; lia).
  apply parseScript_inv in P as (rest & G & Eq & N). rewrite (proj1 N eq_refl), app_nil_r in Eq.
  assert (H : building (AddData data b) (pops ++ [canonical_pop data])).
  { apply building_AddData; [split_and!|..]; done. }
  split; [apply H|]. split; [now apply building_parse|]. split; [|split].
  - destruct H as (_ & _ & ->). rewrite map_app, concat_app, len_app, <- Eq. cbn [map concat].
    now rewrite app_nil_r, canonicalDataSize_encoding.
  - now apply canonical_pop_minimal.
  - case_bool_decide as D; [now subst data|]. now apply canonical_pop_value.
Qed.
Lemma AddData_canonical_witness :
  exists pop, parseScript (script (AddData [x05; x06] NewScriptBuilder)) = ([] ++ [pop], None) /\
              pushed_value pop = [x05; x06].
Proof.
  destruct (AddData_canonical NewScriptBuilder [] [x05; x06]) as (pop & _ & P & _ & _ & V);
    [reflexivity | reflexivity | vm_compute; congruence | vm_compute; congruence |].
  exists pop. split; [exact P | exact V].
Defined.

(** The builder never exceeds the engine's limit, and an error is sticky: every method that
    checks sizes keeps the script within 10000 bytes, and once an error is recorded no method
    changes the script or the error (until [Reset]). *)
Theorem builder_limits (b : ScriptBuilder) :
  len (script b) <= maxScriptSize ->
  (forall op, len (script (AddOp op b)) <= maxScriptSize) /\
  (forall data, len (script (AddData data b)) <= maxScriptSize) /\
  (forall val b', AddInt64 val b = Ok b' -> len (script b') <= maxScriptSize) /\
  (err b <> None -> forall op data val,
     AddOp op b = b /\ AddData data b = b /\ AddFullData data b = b /\ AddInt64 val b = Ok b).
Proof.
  intros H.
  assert (HD : forall data, len (script (AddData data b)) <= maxScriptSize).
  { intros data. unfold AddData. destruct (err b); [done|]. destruct (Z.ltb_spec maxScriptSize
      (len (script b) + canonicalDataSize data)) as [|L]; [done|].
    destruct (Z.ltb_spec MaxScriptElementSize (len data)) as [|L']; [done|].
    unfold MaxScriptElementSize in L'. rewrite addData_appends by lia. simpl.
    rewrite len_app, <- canonicalDataSize_encoding by lia. done. }
  split_and!; [|exact HD| |].
  - intros op. unfold AddOp. destruct (err b); [done|]. bdestruct_step; simpl; [done|].
    rewrite len_app. unfold len in *; simpl; lia.
  - intros val b'. unfold AddInt64. destruct (err b); [congruence|].
    destruct (Z.ltb_spec maxScriptSize (len (script b) + 1)); [by intros [= <-]|].
    assert (forall x, len (script (append [x] b)) <= maxScriptSize).
    { intros x. unfold append; simpl. rewrite len_app. unfold len in *; simpl; lia. }
    repeat case_match; try (intros [= <-]; auto); auto.
    destruct (Bytes val) as [v| |]; simpl; try done. intros [= <-]. apply HD.
  - intros E op data val. unfold AddOp, AddData, AddFullData, AddInt64.
    destruct (err b); done.
Qed.
Lemma builder_limits_witness : len (script (AddOp OP_DUP NewScriptBuilder)) <= maxScriptSize.
Proof.
  apply (builder_limits NewScriptBuilder). vm_compute; congruence.
Defined.
