(* ===== verification/Address.v ===== *)
(** Addresses: src/common/address.go.

    An [Address] is a Go array of 21 bytes, here a list of length 21 ([wf_address]): the hash160
    and the address type.  The base58check codec of the string form is a third-party package, a
    parameter of the string conversions. *)

From Stdlib Require Import ZArith Lia Ascii.
From S2P Require Import Prelude.

Definition AddressLength : Z := 21.

Definition Address : Type := bytes.

(** The zero value, [Address{}]. *)
Definition zeroAddress : Address := replicate 21 x00.
Definition DestroyAddress : Address := zeroAddress.

Definition wf_address (a : Address) : Prop := len a = AddressLength.

Definition AddressType : Type := byte.
Definition ErrorAddress : AddressType := xff.
Definition PublicKeyHash : AddressType := x00.
Definition ScriptHash : AddressType := x05.
Definition ContractHash : AddressType := x1c.

(** [a[i]] of an array, which has a byte at every index of its type. *)
Definition at_ (a : bytes) (i : nat) : byte := nth i a x00.

Definition GetType (a : Address) : AddressType := at_ a 20.

(** The 20 bytes without the type. *)
Definition Address_Bytes (a : Address) : bytes := slice a 0 20.
Definition Bytes21 (a : Address) : bytes := a.

Definition contract_bound : bytes := replicate 18 x00 ++ [xff; xff].

Definition IsSystemContractId (contractId : bytes) : bool :=
  if negb (len contractId =? 20) then false
  else if beq (at_ contractId 18) x00 && beq (at_ contractId 19) x00 then false
  else match bytes_compare contractId contract_bound with Lt => true | _ => false end.

Definition IsUserContractId (contractId : bytes) : bool :=
  if negb (len contractId =? 20) then false
  else match bytes_compare contractId contract_bound with Gt => true | _ => false end.

Definition IsSystemContractAddress (a : Address) : bool := IsSystemContractId (Address_Bytes a).

(** [copy(dst, src)] on a fresh destination: the shorter length is copied. *)
Definition copy (dst src : bytes) : bytes :=
  take (length dst) src ++ drop (length src) dst.

(** [a.SetBytes(b)] on a zero [a]: the last 21 bytes of [b], padded with zeros at the left. *)
Definition BytesToAddress (b : bytes) : Address :=
  let b := if AddressLength <? len b then slice b (len b - AddressLength) (len b) else b in
  take (Z.to_nat (AddressLength - len b)) zeroAddress ++
  copy (drop (Z.to_nat (AddressLength - len b)) zeroAddress) b.

Definition NewAddress (hash160 : bytes) (ty : AddressType) : Address :=
  let newBytes := copy (replicate 21 x00) hash160 in
  BytesToAddress (<[20%nat := (ty : byte)]> newBytes).

Fixpoint Equal_loop (a b : bytes) : bool :=
  match a, b with
  | x :: a', y :: b' => if negb (beq x y) then false else Equal_loop a' b'
  | _, _ => true
  end.
Definition Equal (a b : Address) : bool := Equal_loop a b.

Definition IsZero (a : Address) : bool := forallb (fun v => beq v x00) a.

Fixpoint Less_loop (a b : bytes) : bool :=
  match a, b with
  | x :: a', y :: b' => if blt x y then true else if blt y x then false else Less_loop a' b'
  | _, _ => false
  end.
Definition Less (a b : Address) : bool := Less_loop a b.

(** ** The string form *)

Inductive address_error :=
| ErrAddressNull | ErrAddressPrefix | ErrInvalidAddressType
| ErrBase58 (msg : string).

Section Strings.
  (** [base58.CheckEncode] and [base58.CheckDecode] of btcutil. *)
Variable CheckEncode : bytes -> byte -> string.
Variable CheckDecode : string -> result address_error (bytes * byte).

Definition StringToAddress (a : string) : result address_error Address :=
  match a with
  | EmptyString => Err ErrAddressNull
  | String c a' =>
      if negb (Ascii.eqb c "P"%char) then Err ErrAddressPrefix
      else
        let? (addrb, version) := CheckDecode a' in
        if beq version x00 then Ok (BytesToAddress (addrb ++ [PublicKeyHash]))
        else if beq version x05 then Ok (BytesToAddress (addrb ++ [ScriptHash]))
        else if beq version x1c then Ok (BytesToAddress (addrb ++ [ContractHash]))
        else Err ErrInvalidAddressType
  end.

Definition IsValidAddress (s : string) : bool :=
  match StringToAddress s with Ok _ => true | _ => false end.

Definition Str (a : Address) : string := "P" +:+ CheckEncode (Address_Bytes a) (GetType a).
End Strings.

(** ** Lemmas *)

Lemma copy_full dst src : length src = length dst -> copy dst src = src.
Proof.
  intros E. unfold copy. rewrite <- E, firstn_all, E, drop_all. apply app_nil_r.
Qed.

Lemma BytesToAddress_full b : len b = AddressLength -> BytesToAddress b = b.
Proof.
  intros E. unfold BytesToAddress. rewrite E. cbn [Z.ltb Z.compare AddressLength Pos.compare].
  rewrite Z.ltb_irrefl, E, Z.sub_diag. cbn [Z.to_nat take drop app].
  apply copy_full. unfold len, AddressLength in E. simpl. lia.
Qed.

Lemma NewAddress_20 h ty : len h = 20 -> NewAddress h ty = h ++ [ty].
Proof.
  intros E. assert (L : length h = 20%nat) by (unfold len in E; lia).
  unfold NewAddress, copy, AddressType in *. rewrite length_replicate, take_ge by lia. rewrite L.
  replace (drop 20 (replicate 21 x00)) with [x00] by done.
  rewrite insert_app_r_alt by lia. rewrite L. cbn [Nat.sub].
  change (<[0%nat:=ty]> [x00]) with [ty].
  apply BytesToAddress_full. rewrite len_app, E. done.
Qed.

Lemma wf_split a : wf_address a -> exists h ty, a = h ++ [ty] /\ len h = 20.
Proof.
  intros W. unfold wf_address, AddressLength, len in W.
  destruct (exists_last (l := a)) as (h & ty & ->); [destruct a; simpl in *; lia || done|].
  exists h, ty. split; [done|]. rewrite length_app in W. simpl in W. unfold len; lia.
Qed.

Lemma GetType_app h ty : len h = 20 -> GetType (h ++ [ty]) = ty.
Proof.
  intros E. unfold GetType, at_. rewrite app_nth2 by (unfold len in E; lia).
  replace (20 - length h)%nat with 0%nat by (unfold len in E; lia). done.
Qed.

Lemma Address_Bytes_app h ty : len h = 20 -> Address_Bytes (h ++ [ty]) = h.
Proof. intros E. unfold Address_Bytes. now apply slice_prefix. Qed.

(** [Less] is the lexicographic order of the bytes. *)
Lemma Less_compare a b : len a = len b -> Less a b = match bytes_compare a b with Lt => true | _ => false end.
Proof.
  unfold Less. revert b. induction a as [|x a IH]; intros [|y b] E;
    try (exfalso; revert E; unfold len; simpl; lia); [done|]. rewrite !len_cons in E. simpl. unfold blt.
  destruct (Z.compare_spec (b2z x) (b2z y)); bdestruct; try done. apply IH; lia.
Qed.

Lemma bytes_compare_eq a b : bytes_compare a b = Eq <-> a = b.
Proof.
  revert b. induction a as [|x a IH]; intros [|y b]; simpl; try done.
  destruct (Z.compare_spec (b2z x) (b2z y)) as [E|E|E].
  - apply b2z_inj in E as ->. rewrite IH. split; congruence.
  - split; [done|]. intros [= -> _]. lia.
  - split; [done|]. intros [= -> _]. lia.
Qed.

Lemma bytes_compare_antisym a b : bytes_compare b a = CompOpp (bytes_compare a b).
Proof.
  revert b. induction a as [|x a IH]; intros [|y b]; simpl; try done.
  rewrite Z.compare_antisym. destruct (Z.compare_spec (b2z x) (b2z y)); simpl; auto.
Qed.

Lemma bytes_compare_trans a b c :
  bytes_compare a b = Lt -> bytes_compare b c = Lt -> bytes_compare a c = Lt.
Proof.
  revert b c. induction a as [|x a IH]; intros [|y b] [|z c]; simpl; try done.
  destruct (Z.compare_spec (b2z x) (b2z y)) as [E1|E1|E1]; try done;
    destruct (Z.compare_spec (b2z y) (b2z z)) as [E2|E2|E2]; try done;
    destruct (Z.compare_spec (b2z x) (b2z z)) as [E3|E3|E3]; try done; try lia. apply IH.
Qed.

Lemma Equal_iff a b : len a = len b -> Equal a b = true <-> a = b.
Proof.
  unfold Equal. revert b. induction a as [|x a IH]; intros [|y b] E;
    try (exfalso; revert E; unfold len; simpl; lia); [done|]. rewrite !len_cons in E. simpl.
  destruct (beq x y) eqn:B; simpl.
  - apply beq_true in B as ->. rewrite IH by lia. split; congruence.
  - apply beq_false in B. split; [done|]. congruence.
Qed.

(** A contract id compared with [contract_bound]: only the last two bytes matter below it. *)
Lemma below_bound (h : bytes) (x y : byte) : length h = 18%nat ->
  bytes_compare (h ++ [x; y]) contract_bound = Lt <->
  h = replicate 18 x00 /\ ~ (x = xff /\ y = xff).
Proof.
  unfold contract_bound. generalize 18%nat as n.
  induction h as [|b h IH]; intros [|n] L; simpl in *; try lia.
  - pose proof (b2z_range x). pose proof (b2z_range y). change (b2z xff) with 255.
    destruct (Z.compare_spec (b2z x) 255) as [E|E|E]; try lia.
    + apply (b2z_inj x xff) in E as ->.
      destruct (Z.compare_spec (b2z y) 255) as [E|E|E]; try lia.
      * apply (b2z_inj y xff) in E as ->. split; [done|]. intros [_ []]; done.
      * split; [|done]. intros _. split; [done|]. intros [_ ->]. change (b2z xff) with 255 in E. lia.
    + split; [|done]. intros _. split; [done|]. intros [-> _]. change (b2z xff) with 255 in E. lia.
  - pose proof (b2z_range b). change (b2z x00) with 0.
    destruct (Z.compare_spec (b2z b) 0) as [E|E|E]; try lia.
    + apply (b2z_inj b x00) in E as ->. rewrite IH by lia.
      split; intros [A B]; (split; [congruence|done]).
    + split; [done|]. intros [[= -> _] _]. change (b2z x00) with 0 in E. lia.
Qed.

(** ** Properties *)

(** An address is its 20-byte hash and its type: [NewAddress] builds a 21-byte address from
    which [Bytes] and [GetType] give both back, and every address is rebuilt from the two. *)
Theorem NewAddress_roundtrip (h : bytes) (ty : AddressType) (a : Address) :
  len h = 20 -> wf_address a ->
  wf_address (NewAddress h ty) /\ Address_Bytes (NewAddress h ty) = h /\
  GetType (NewAddress h ty) = ty /\ NewAddress (Address_Bytes a) (GetType a) = a.
Proof.
  intros L W. rewrite NewAddress_20 by done.
  split; [unfold wf_address; rewrite len_app, L; done|].
  rewrite Address_Bytes_app, GetType_app by done. do 2 (split; [done|]).
  destruct (wf_split a W) as (h' & ty' & -> & L').
  now rewrite Address_Bytes_app, GetType_app, NewAddress_20.
Qed.
Lemma NewAddress_roundtrip_witness :
  GetType (NewAddress (replicate 20 x07) ContractHash) = ContractHash.
Proof.
  apply (NewAddress_roundtrip (replicate 20 x07) ContractHash zeroAddress); reflexivity.
Defined.

(** The string form is lossless.  Given a base58check codec whose decoder inverts its
    encoder, [StringToAddress] gives back every address of a known type from its string, so
    two such addresses never share a string. *)
Theorem address_string_roundtrip (CheckEncode : bytes -> byte -> string)
    (CheckDecode : string -> result address_error (bytes * byte)) (a : Address) :
  (forall payload version, CheckDecode (CheckEncode payload version) = Ok (payload, version)) ->
  wf_address a -> GetType a ∈ [PublicKeyHash; ScriptHash; ContractHash] ->
  StringToAddress CheckDecode (Str CheckEncode a) = Ok a.
Proof.
  intros B W T. destruct (wf_split a W) as (h & ty & -> & L).
  rewrite GetType_app in T by done. unfold Str. rewrite Address_Bytes_app, GetType_app by done.
  change ("P" +:+ CheckEncode h ty) with (String "P" (CheckEncode h ty)).
  cbn [StringToAddress]. cbn [Ascii.eqb Bool.eqb negb]. rewrite B. cbn [rbind].
  assert (F : forall t, BytesToAddress (h ++ [t]) = h ++ [t]).
  { intros t. apply BytesToAddress_full. rewrite len_app, L. done. }
  rewrite !elem_of_cons in T. destruct T as [-> | [-> | [-> | T]]]; try (cbn; now rewrite F).
Qed.
(** A codec that meets the hypothesis: the payload and the version as characters. *)
Definition toy_encode (payload : bytes) (version : byte) : string :=
  String.string_of_list_byte (version :: payload).
Definition toy_decode (s : string) : result address_error (bytes * byte) :=
  match String.list_byte_of_string s with
  | v :: p => Ok (p, v)
  | [] => Err (ErrBase58 "too short")
  end.
Lemma address_string_roundtrip_witness :
  StringToAddress toy_decode (Str toy_encode (NewAddress (replicate 20 x07) ScriptHash)) =
  Ok (NewAddress (replicate 20 x07) ScriptHash).
Proof.
  apply (address_string_roundtrip toy_encode toy_decode).
  - intros p v. unfold toy_decode, toy_encode. rewrite String.list_byte_of_string_of_list_byte. reflexivity.
  - reflexivity.
  - vm_compute. right. left.
Defined.

(** System contracts are exactly the 20-byte ids that are zero but for a last pair of
    bytes, itself neither 0x0000 nor 0xffff, and no id is both a system and a user contract. *)
Theorem contract_id_classes (c : bytes) :
  (IsSystemContractId c = true <->
   exists x y, c = replicate 18 x00 ++ [x; y] /\ ~ (x = x00 /\ y = x00) /\ ~ (x = xff /\ y = xff)) /\
  ~ (IsSystemContractId c = true /\ IsUserContractId c = true).
Proof.
  split; unfold IsSystemContractId, IsUserContractId.
  - destruct (Z.eqb_spec (len c) 20) as [L|L]; cbn [negb].
    + assert (exists h x y, c = h ++ [x; y] /\ length h = 18%nat) as (h & x & y & -> & Lh).
      { unfold len in L. exists (take 18 c), (nth 18 c x00), (nth 19 c x00).
        split; [|rewrite length_take; lia]. do 20 (destruct c as [|? c]; [simpl in L; lia|]).
        destruct c; [done|simpl in L; lia]. }
      unfold at_. rewrite !app_nth2, Lh by lia. cbn [Nat.sub nth].
      destruct (beq x x00 && beq y x00) eqn:B.
      * rewrite andb_true_iff, !beq_true in B. destruct B as [-> ->]. split; [done|].
        intros (x & y & E & N & _). apply app_inj_2 in E as [_ E]; [|done]. injection E as <- <-.
        destruct N; done.
      * destruct (bytes_compare (h ++ [x; y]) contract_bound) eqn:C; [split; [done|]| |split; [done|]].
        2:{ apply below_bound in C as [-> N]; [|done]. split; [|done]. intros _.
            exists x, y. split; [done|]. split; [|done]. intros [-> ->]. done. }
        all: intros (x' & y' & E & _ & N); apply app_inj_2 in E as [-> E]; [|done];
          injection E as <- <-;
          assert (bytes_compare (replicate 18 x00 ++ [x; y]) contract_bound = Lt)
            by (now apply below_bound); congruence.
    + split; [done|]. intros (x & y & -> & _). destruct L. rewrite len_app. done.
  - intros [H1 H2]. destruct (negb _); [done|]. destruct (_ && _); [done|].
    destruct (bytes_compare _ _); done.
Qed.

(** [Less] is a strict total order on addresses whose equivalence is [Equal]: sorting
    addresses with it is deterministic. *)
Theorem Less_strict_order (a b c : Address) :
  wf_address a -> wf_address b -> wf_address c ->
  Less a a = false /\
  (Less a b = true -> Less b c = true -> Less a c = true) /\
  (Less a b = true \/ Less b a = true \/ Equal a b = true) /\
  (Less a b = true -> Less b a = false /\ Equal a b = false).
Proof.
  unfold wf_address. intros Wa Wb Wc. rewrite !Less_compare by congruence.
  pose proof (bytes_compare_antisym a b) as An. rewrite An.
  assert (Eab : Equal a b = true <-> bytes_compare a b = Eq).
  { rewrite Equal_iff, bytes_compare_eq by congruence. done. }
  rewrite (proj2 (bytes_compare_eq a a) eq_refl).
  split; [done|]. split; [|split].
  - destruct (bytes_compare a b) eqn:E1, (bytes_compare b c) eqn:E2; try done.
    now rewrite (bytes_compare_trans a b c).
  - destruct (bytes_compare a b); simpl; tauto.
  - destruct (bytes_compare a b); try done. intros _. split; [done|].
    destruct (Equal a b); [|done]. destruct Eab as [E _]. specialize (E eq_refl). done.
Qed.
Lemma Less_strict_order_witness :
  Less (NewAddress (replicate 20 x07) ScriptHash) zeroAddress = false /\
  Equal zeroAddress (NewAddress (replicate 20 x07) ScriptHash) = false.
Proof.
  apply (Less_strict_order zeroAddress (NewAddress (replicate 20 x07) ScriptHash) zeroAddress); reflexivity.
Defined.
