(* ===== verification/Standard.v ===== *)
(** Standard scripts: src/tokenengine/internal/txscript/standard.go and types.go.

    The classes of scripts, the recognisers, the scripts that pay to an address and the
    extraction of the addresses of a script. [Hash160] (crypto/hash160, on third-party hash
    functions) is a parameter of what uses it. *)

From Stdlib Require Import ZArith Lia.
From S2P Require Import Prelude Errors ScriptNum Opcode Script Builder Address.

Definition MaxDataCarrierSize : Z := 80.

(** [type ScriptClass byte] *)
Definition ScriptClass : Type := byte.
Definition NonStandardTy : ScriptClass := x00.
Definition PubKeyTy : ScriptClass := x01.
Definition PubKeyHashTy : ScriptClass := x02.
Definition ScriptHashTy : ScriptClass := x03.
Definition MultiSigTy : ScriptClass := x04.
Definition NullDataTy : ScriptClass := x05.
Definition ContractHashTy : ScriptClass := x06.

Definition scriptClassToName : list string :=
  ["nonstandard"; "pubkey"; "pubkeyhash"; "scripthash"; "multisig"; "nulldata"; "contracthash"]%string.

(** [ScriptClass.String]; the index can be out of range. *)
Definition ScriptClass_String (t : ScriptClass) : result error string :=
  if (len scriptClassToName <? b2z t) || (b2z t <? 0) then Ok "Invalid"
  else rget (index scriptClassToName (b2z t)).

Definition is_pubkey_len (data : bytes) : bool := (len data =? 33) || (len data =? 65).

Definition isPubkey (pops : list parsedOpcode) : bool :=
  match pops with
  | [p0; p1] => is_pubkey_len (pop_data p0) && beq (pop_value p1) OP_CHECKSIG
  | _ => false
  end.

Definition isPubkeyHash (pops : list parsedOpcode) : bool :=
  match pops with
  | [p0; p1; p2; p3; p4] =>
      beq (pop_value p0) OP_DUP && beq (pop_value p1) OP_HASH160 &&
      beq (pop_value p2) OP_DATA_20 && beq (pop_value p3) OP_EQUALVERIFY &&
      beq (pop_value p4) OP_CHECKSIG
  | _ => false
  end.

(** [pops[i]] for an index that the code knows to be in range. *)
Definition pop_at (pops : list parsedOpcode) (i : Z) : parsedOpcode :=
  match index pops i with Some p => p | None => plain OP_0 end.

Definition isMultiSig (pops : list parsedOpcode) : bool :=
  let l := len pops in
  if l <? 4 then false
  else if negb (isSmallInt (pop_opcode (pop_at pops 0))) then false
  else if negb (isSmallInt (pop_opcode (pop_at pops (l - 2)))) then false
  else if negb (beq (pop_value (pop_at pops (l - 1))) OP_CHECKMULTISIG) then false
  else if negb (l - 2 - 1 =? asSmallInt (pop_opcode (pop_at pops (l - 2)))) then false
  else forallb (fun pop => is_pubkey_len (pop_data pop)) (slice pops 1 (l - 2)).

Definition isNullData (pops : list parsedOpcode) : bool :=
  match pops with
  | [p0] => beq (pop_value p0) OP_RETURN
  | [p0; p1] => beq (pop_value p0) OP_RETURN && ble (pop_value p1) OP_PUSHDATA4 &&
                (len (pop_data p1) <=? MaxDataCarrierSize)
  | _ => false
  end.

Definition typeOfScript (pops : list parsedOpcode) : ScriptClass :=
  if isPubkey pops then PubKeyTy
  else if isPubkeyHash pops then PubKeyHashTy
  else if isScriptHash pops then ScriptHashTy
  else if isContractHash pops then ContractHashTy
  else if isMultiSig pops then MultiSigTy
  else if isNullData pops then NullDataTy
  else NonStandardTy.

Definition GetScriptClass (script : bytes) : ScriptClass :=
  match parseScript script with
  | (_, Some _) => NonStandardTy
  | (pops, None) => typeOfScript pops
  end.

Definition expectedInputs (pops : list parsedOpcode) (class : ScriptClass) : Z :=
  if beq class PubKeyTy then 1
  else if beq class PubKeyHashTy then 2
  else if beq class ScriptHashTy then 1
  else if beq class MultiSigTy then asSmallInt (pop_opcode (pop_at pops 0)) + 1
  else -1.

Record ScriptInfo := mkScriptInfo
  { PkScriptClass : ScriptClass; NumInputs : Z; ExpectedInputs : Z; SigOps : Z }.

(** A parse whose error the caller returns. *)
Definition parsed (script : bytes) : result error (list parsedOpcode) :=
  match parseScript script with
  | (pops, None) => Ok pops
  | (_, Some e) => Err e
  end.

Definition CalcScriptInfo (sigScript pkScript : bytes) (bip16 : bool) : result error ScriptInfo :=
  let? sigPops := parsed sigScript in
  let? pkPops := parsed pkScript in
  let class := typeOfScript pkPops in
  if negb (isPushOnly sigPops) then Err ErrStackNonPushOnly
  else
    let expected := expectedInputs pkPops class in
    let num := len sigPops in
    if beq class ScriptHashTy && bip16 then
      let? pop := rget (index sigPops (len sigPops - 1)) in
      let? shPops := parsed (pop_data pop) in
      let shInputs := expectedInputs shPops (typeOfScript shPops) in
      Ok (mkScriptInfo class num (if shInputs =? -1 then -1 else expected + shInputs)
            (getSigOpCount shPops true))
    else Ok (mkScriptInfo class num expected (getSigOpCount pkPops true)).

(** The numbers of public keys and of signatures. *)
Definition CalcMultiSigStats (script : bytes) : result error (Z * Z) :=
  let? pops := parsed script in
  if len pops <? 4 then Err ErrStackUnderflow
  else
    let numSigs := asSmallInt (pop_opcode (pop_at pops 0)) in
    let numPubKeys := asSmallInt (pop_opcode (pop_at pops (len pops - 2))) in
    Ok (numPubKeys, numSigs).

Definition payToPubKeyHashScript (pubKeyHash : bytes) : result error bytes :=
  Script_ (AddOp OP_CHECKSIG (AddOp OP_EQUALVERIFY (AddData pubKeyHash
    (AddOp OP_HASH160 (AddOp OP_DUP NewScriptBuilder))))).

Definition payToScriptHashScript (scriptHash : bytes) : result error bytes :=
  Script_ (AddOp OP_EQUAL (AddData scriptHash (AddOp OP_HASH160 NewScriptBuilder))).

Definition payToContractHash (serializedPubKey : bytes) : result error bytes :=
  Script_ (AddOp OP_JURY_REDEEM_EQUAL (AddData serializedPubKey NewScriptBuilder)).

Definition PayToAddrScript (addr : Address) : result error bytes :=
  if beq (GetType addr) PublicKeyHash then payToPubKeyHashScript (Address_Bytes addr)
  else if beq (GetType addr) ScriptHash then payToScriptHashScript (Address_Bytes addr)
  else if beq (GetType addr) ContractHash then payToContractHash (Address_Bytes addr)
  else Err ErrUnsupportedAddress.

(** [for _, key := range pubkeys { builder.AddData(key) }] *)
Fixpoint addKeys (pubkeys : list bytes) (b : ScriptBuilder) : ScriptBuilder :=
  match pubkeys with
  | [] => b
  | key :: pubkeys' => addKeys pubkeys' (AddData key b)
  end.

Definition MultiSigScript (pubkeys : list bytes) (nrequired : Z) : result error bytes :=
  if len pubkeys <? nrequired then Err ErrBadNumRequired
  else
    let? builder := AddInt64 nrequired NewScriptBuilder in
    let builder := addKeys pubkeys builder in
    let? builder := AddInt64 (len pubkeys) builder in
    Script_ (AddOp OP_CHECKMULTISIG builder).

(** [pop.data != nil] in a parsed script: the opcodes with data are those whose length is not 1;
    their data is a slice of the script, never nil. *)
Definition has_data (pop : parsedOpcode) : bool := negb (op_length (pop_opcode pop) =? 1).

Fixpoint pushed_data_loop (pops : list parsedOpcode) : list bytes :=
  match pops with
  | [] => []
  | pop :: pops' =>
      if has_data pop then pop_data pop :: pushed_data_loop pops'
      else if beq (pop_value pop) OP_0 then [] :: pushed_data_loop pops'
      else pushed_data_loop pops'
  end.

Definition PushedData (script : bytes) : result error (list bytes) :=
  let? pops := parsed script in Ok (pushed_data_loop pops).

Record AddressOriginalData := mkAOD { aod_Address : Address; aod_Original : bytes }.

Section Extract.
Variable Hash160 : bytes -> bytes.

Definition NewAddressOriginalData (data : bytes) (at_ : ScriptClass) : AddressOriginalData :=
  let hash160 := if negb (len data =? 20) then Hash160 data else data in
  if beq at_ PubKeyHashTy then mkAOD (NewAddress hash160 PublicKeyHash) data
  else if beq at_ ScriptHashTy then mkAOD (NewAddress hash160 ScriptHash) data
  else if beq at_ ContractHashTy then mkAOD (NewAddress hash160 ContractHash) data
  else if beq at_ PubKeyTy then mkAOD (NewAddress hash160 PublicKeyHash) data
  else mkAOD zeroAddress data.

(** The class, the addresses and the number of required signatures. *)
Definition ExtractPkScriptAddrs (pkScript : bytes)
  : result error (ScriptClass * list AddressOriginalData * Z) :=
  let? pops := parsed pkScript in
  let scriptClass := typeOfScript pops in
  if beq scriptClass PubKeyHashTy then
    Ok (scriptClass, [NewAddressOriginalData (pop_data (pop_at pops 2)) scriptClass], 1)
  else if beq scriptClass PubKeyTy then
    Ok (scriptClass, [NewAddressOriginalData (pop_data (pop_at pops 0)) scriptClass], 1)
  else if beq scriptClass ScriptHashTy then
    Ok (scriptClass, [NewAddressOriginalData (pop_data (pop_at pops 1)) scriptClass], 1)
  else if beq scriptClass ContractHashTy then
    Ok (scriptClass, [NewAddressOriginalData (pop_data (pop_at pops 0)) scriptClass], 1)
  else if beq scriptClass MultiSigTy then
    let requiredSigs := asSmallInt (pop_opcode (pop_at pops 0)) in
    let numPubKeys := asSmallInt (pop_opcode (pop_at pops (len pops - 2))) in
    let addrs := map (fun i => NewAddressOriginalData (pop_data (pop_at pops (i + 1))) PubKeyTy)
                   (seqZ 0 numPubKeys) in
    Ok (scriptClass, addrs, requiredSigs)
  else Ok (scriptClass, [], 0).
End Extract.

(** ** The three kinds of lock script *)

Definition p2pkh_pops (h : bytes) : list parsedOpcode :=
  [plain OP_DUP; plain OP_HASH160; push h; plain OP_EQUALVERIFY; plain OP_CHECKSIG].
Definition p2sh_pops (h : bytes) : list parsedOpcode :=
  [plain OP_HASH160; push h; plain OP_EQUAL].
Definition p2ch_pops (h : bytes) : list parsedOpcode :=
  [push h; plain OP_JURY_REDEEM_EQUAL].

Lemma canonical_pop_push data : 2 <= len data <= 75 -> canonical_pop data = push data.
Proof. intros H. unfold canonical_pop. repeat (bdestruct_step; try lia; cbn [andb orb]). done. Qed.

Lemma canonicalDataSize_push data : 2 <= len data <= 75 -> canonicalDataSize data = 1 + len data.
Proof.
  intros H. rewrite canonicalDataSize_encoding, canonical_pop_push, encoding_push, len_cons by lia. lia.
Qed.

Lemma building_len b pops : building b pops ->
  len (script b) = len (concat (map encoding pops)).
Proof. now intros (_ & _ & ->). Qed.

Lemma building_push b pops data : building b pops -> 2 <= len data <= 75 ->
  len (script b) <= 9900 -> building (AddData data b) (pops ++ [push data]).
Proof.
  intros B L S. rewrite <- canonical_pop_push by done.
  apply building_AddData; [done|unfold MaxScriptElementSize; lia|].
  rewrite canonicalDataSize_push by done. unfold maxScriptSize; lia.
Qed.

Lemma encodings_len_app pops pops' : len (concat (map encoding (pops ++ pops'))) =
  len (concat (map encoding pops)) + len (concat (map encoding pops')).
Proof. now rewrite map_app, concat_app, len_app. Qed.

(** Size side conditions of a chain of builder calls. *)
Ltac build_size :=
  erewrite building_len by eassumption; rewrite ?encodings_len_app; cbn [map concat];
  rewrite ?app_nil_r, ?encoding_plain, ?encoding_push by first [reflexivity | lia];
  autorewrite with len; unfold maxScriptSize; unfold len in *; simpl; lia.

Ltac build_op op :=
  match goal with
  | B : building ?b ?pops |- _ =>
      let B' := fresh in
      assert (B' : building (AddOp op b) (pops ++ [plain op]))
        by (apply building_AddOp; [exact B | reflexivity | build_size]);
      clear B; cbn [app] in B'
  end.
Ltac build_data data :=
  match goal with
  | B : building ?b ?pops |- _ =>
      let B' := fresh in
      assert (B' : building (AddData data b) (pops ++ [push data]))
        by (apply building_push; [exact B | lia | build_size]);
      clear B; cbn [app] in B'
  end.

Lemma payToPubKeyHashScript_ok h : len h = 20 ->
  payToPubKeyHashScript h = Ok (concat (map encoding (p2pkh_pops h))).
Proof.
  intros L. unfold payToPubKeyHashScript. pose proof building_new as B.
  build_op OP_DUP. build_op OP_HASH160. build_data h. build_op OP_EQUALVERIFY. build_op OP_CHECKSIG.
  now apply building_Script.
Qed.

Lemma payToScriptHashScript_ok h : len h = 20 ->
  payToScriptHashScript h = Ok (concat (map encoding (p2sh_pops h))).
Proof.
  intros L. unfold payToScriptHashScript. pose proof building_new as B.
  build_op OP_HASH160. build_data h. build_op OP_EQUAL. now apply building_Script.
Qed.

Lemma payToContractHash_ok h : len h = 20 ->
  payToContractHash h = Ok (concat (map encoding (p2ch_pops h))).
Proof.
  intros L. unfold payToContractHash. pose proof building_new as B.
  build_data h. build_op OP_JURY_REDEEM_EQUAL. now apply building_Script.
Qed.

Lemma push_value h : len h = 20 -> pop_value (push h) = OP_DATA_20.
Proof. intros L. unfold push, pop_value; simpl. now rewrite L. Qed.

Lemma lock_pops_good h : len h = 20 ->
  Forall good_pop (p2pkh_pops h) /\ Forall good_pop (p2sh_pops h) /\ Forall good_pop (p2ch_pops h).
Proof.
  intros L. unfold p2pkh_pops, p2sh_pops, p2ch_pops. rewrite !Forall_cons, !Forall_nil.
  assert (good_pop (push h)) by (apply push_good; lia).
  split_and!; try done; by apply plain_good.
Qed.

Lemma lock_pops_type h : len h = 20 ->
  typeOfScript (p2pkh_pops h) = PubKeyHashTy /\ typeOfScript (p2sh_pops h) = ScriptHashTy /\
  typeOfScript (p2ch_pops h) = ContractHashTy.
Proof.
  intros L. unfold typeOfScript, p2pkh_pops, p2sh_pops, p2ch_pops, isPubkey, isPubkeyHash,
    isScriptHash, isContractHash, is_pubkey_len.
  rewrite !push_value by done. cbn [push pop_data]. rewrite L. done.
Qed.

(** A script of one of these classes is the lock script of the hash it holds. *)
Lemma isPubkeyHash_inv pops : Forall good_pop pops -> isPubkeyHash pops = true ->
  exists h, len h = 20 /\ pops = p2pkh_pops h.
Proof.
  intros G. destruct pops as [|p0 [|p1 [|p2 [|p3 [|p4 [|? ?]]]]]]; try done. cbn [isPubkeyHash].
  rewrite !andb_true_iff, !beq_true. intros [[[[V0 V1] V2] V3] V4].
  rewrite !Forall_cons in G. destruct G as (G0 & G1 & G2 & G3 & G4 & _).
  destruct (good_push p2 20 G2) as [L E]; [done|lia|].
  exists (pop_data p2). split; [done|]. unfold p2pkh_pops. rewrite <- E.
  rewrite (good_plain p0 OP_DUP), (good_plain p1 OP_HASH160), (good_plain p3 OP_EQUALVERIFY),
    (good_plain p4 OP_CHECKSIG) by done. done.
Qed.

Lemma isScriptHash_inv pops : Forall good_pop pops -> isScriptHash pops = true ->
  exists h, len h = 20 /\ pops = p2sh_pops h.
Proof.
  intros G. destruct pops as [|p0 [|p1 [|p2 [|? ?]]]]; try done. cbn [isScriptHash].
  rewrite !andb_true_iff, !beq_true. intros [[V0 V1] V2].
  rewrite !Forall_cons in G. destruct G as (G0 & G1 & G2 & _).
  destruct (good_push p1 20 G1) as [L E]; [done|lia|].
  exists (pop_data p1). split; [done|]. unfold p2sh_pops. rewrite <- E.
  now rewrite (good_plain p0 OP_HASH160), (good_plain p2 OP_EQUAL) by done.
Qed.

Lemma isContractHash_inv pops : Forall good_pop pops -> isContractHash pops = true ->
  exists h, len h = 20 /\ pops = p2ch_pops h.
Proof.
  intros G. destruct pops as [|p0 [|p1 [|? ?]]]; try done. cbn [isContractHash].
  rewrite !andb_true_iff, !beq_true. intros [V0 V1].
  rewrite !Forall_cons in G. destruct G as (G0 & G1 & _).
  destruct (good_push p0 20 G0) as [L E]; [done|lia|].
  exists (pop_data p0). split; [done|]. unfold p2ch_pops. rewrite <- E.
  now rewrite (good_plain p1 OP_JURY_REDEEM_EQUAL) by done.
Qed.

Lemma typeOfScript_inv pops : Forall good_pop pops ->
  (typeOfScript pops = PubKeyHashTy -> exists h, len h = 20 /\ pops = p2pkh_pops h) /\
  (typeOfScript pops = ScriptHashTy -> exists h, len h = 20 /\ pops = p2sh_pops h) /\
  (typeOfScript pops = ContractHashTy -> exists h, len h = 20 /\ pops = p2ch_pops h).
Proof.
  intros G. unfold typeOfScript.
  destruct (isPubkey pops); [done|]. destruct (isPubkeyHash pops) eqn:E1.
  { split_and!; try done. intros _. now apply isPubkeyHash_inv. }
  destruct (isScriptHash pops) eqn:E2.
  { split_and!; try done. intros _. now apply isScriptHash_inv. }
  destruct (isContractHash pops) eqn:E3.
  { split_and!; try done. intros _. now apply isContractHash_inv. }
  destruct (isMultiSig pops); [done|]. now destruct (isNullData pops).
Qed.

(** The class of the lock script of an address type. *)
Definition class_of_type (ty : AddressType) : ScriptClass :=
  if beq ty PublicKeyHash then PubKeyHashTy
  else if beq ty ScriptHash then ScriptHashTy else ContractHashTy.

Definition lock_pops (ty : AddressType) (h : bytes) : list parsedOpcode :=
  if beq ty PublicKeyHash then p2pkh_pops h
  else if beq ty ScriptHash then p2sh_pops h else p2ch_pops h.

Definition known_type (ty : AddressType) : Prop := ty ∈ [PublicKeyHash; ScriptHash; ContractHash].

Lemma known_type_inv ty : known_type ty -> ty = PublicKeyHash \/ ty = ScriptHash \/ ty = ContractHash.
Proof.
  unfold known_type. rewrite !elem_of_cons, elem_of_nil. tauto.
Qed.

Lemma PayToAddrScript_ok h ty : len h = 20 -> known_type ty ->
  PayToAddrScript (h ++ [ty]) = Ok (concat (map encoding (lock_pops ty h))).
Proof.
  intros L K. unfold PayToAddrScript. rewrite GetType_app, Address_Bytes_app by done.
  destruct (known_type_inv ty K) as [-> | [-> | ->]]; simpl.
  - now apply payToPubKeyHashScript_ok.
  - now apply payToScriptHashScript_ok.
  - now apply payToContractHash_ok.
Qed.

Lemma NewAddressOriginalData_20 Hash160 h ty : len h = 20 -> known_type ty ->
  NewAddressOriginalData Hash160 h (class_of_type ty) = mkAOD (h ++ [ty]) h.
Proof.
  intros L K. unfold NewAddressOriginalData. rewrite L.
  destruct (known_type_inv ty K) as [-> | [-> | ->]]; cbn -[NewAddress];
    now rewrite NewAddress_20.
Qed.

Lemma Extract_lock_pops Hash160 script h ty : len h = 20 -> known_type ty ->
  parsed script = Ok (lock_pops ty h) ->
  ExtractPkScriptAddrs Hash160 script = Ok (class_of_type ty, [mkAOD (h ++ [ty]) h], 1).
Proof.
  intros L K P. unfold ExtractPkScriptAddrs. rewrite P. cbn [rbind].
  destruct (lock_pops_type h L) as (T1 & T2 & T3).
  rewrite <- (NewAddressOriginalData_20 Hash160) by done.
  destruct (known_type_inv ty K) as [-> | [-> | ->]]; unfold lock_pops;
    cbn -[typeOfScript NewAddressOriginalData]; rewrite ?T1, ?T2, ?T3; reflexivity.
Qed.

(** ** Properties *)

(** C29: lock scripts and addresses are in bijection.  [PayToAddrScript] succeeds on every
    address of a known type and [ExtractPkScriptAddrs] reads the same address, of the
    corresponding class and with one required signature, back from the script. *)
Theorem lock_script_of_address (Hash160 : bytes -> bytes) (a : Address) :
  wf_address a -> known_type (GetType a) ->
  exists s, PayToAddrScript a = Ok s /\
    ExtractPkScriptAddrs Hash160 s = Ok (class_of_type (GetType a), [mkAOD a (Address_Bytes a)], 1).
Proof.
  intros W K. destruct (wf_split a W) as (h & ty & -> & L).
  rewrite GetType_app in * by done. rewrite Address_Bytes_app by done.
  eexists. split; [by apply PayToAddrScript_ok|]. apply Extract_lock_pops; try done.
  unfold parsed. rewrite parseScript_encoded; [done|].
  destruct (lock_pops_good h L) as (G1 & G2 & G3).
  unfold lock_pops. destruct (beq _ _); [done|]. now destruct (beq _ _).
Qed.
Lemma lock_script_of_address_witness :
  exists s, PayToAddrScript (NewAddress (replicate 20 x07) ContractHash) = Ok s.
Proof.
  destruct (lock_script_of_address (fun x => x) (NewAddress (replicate 20 x07) ContractHash))
    as (s & P & _); [reflexivity | vm_compute; right; right; left |].
  exists s. exact P.
Defined.

(** Conversely, a script of a pay-to-address class determines and is determined by the one
    address extracted from it: paying to that address gives the script back byte for byte. *)
Theorem address_of_lock_script (Hash160 : bytes -> bytes) (script : bytes) :
  GetScriptClass script ∈ [PubKeyHashTy; ScriptHashTy; ContractHashTy] ->
  exists a, wf_address a /\ GetScriptClass script = class_of_type (GetType a) /\
    ExtractPkScriptAddrs Hash160 script = Ok (GetScriptClass script, [mkAOD a (Address_Bytes a)], 1) /\
    PayToAddrScript a = Ok script.
Proof.
  unfold GetScriptClass. destruct (parseScript script) as [pops [e|]] eqn:P.
  { rewrite !elem_of_cons, elem_of_nil. intros [|[|[|]]]; done. }
  intros C. assert (exists h ty, len h = 20 /\ known_type ty /\ pops = lock_pops ty h)
    as (h & ty & L & K & ->).
  { destruct (typeOfScript_inv pops (parsed_good _ _ _ P)) as (T1 & T2 & T3).
    rewrite !elem_of_cons, elem_of_nil in C.
    assert (K : forall ty, ty = PublicKeyHash \/ ty = ScriptHash \/ ty = ContractHash -> known_type ty).
    { intros ty. unfold known_type. rewrite !elem_of_cons. tauto. }
    destruct C as [C|[C|[C|]]]; [destruct (T1 C) as (h & L & ->)|destruct (T2 C) as (h & L & ->)|
      destruct (T3 C) as (h & L & ->)|done]; exists h.
    - exists PublicKeyHash. split_and!; auto.
    - exists ScriptHash. split_and!; auto.
    - exists ContractHash. split_and!; auto. }
  exists (h ++ [ty]). split; [unfold wf_address; rewrite len_app, L; done|].
  rewrite GetType_app, Address_Bytes_app by done.
  assert (T : typeOfScript (lock_pops ty h) = class_of_type ty).
  { destruct (lock_pops_type h L) as (T1 & T2 & T3). unfold lock_pops, class_of_type.
    destruct (beq _ _); [done|]. now destruct (beq _ _). }
  rewrite T. split; [done|]. split.
  - apply Extract_lock_pops; try done. unfold parsed. now rewrite P.
  - rewrite PayToAddrScript_ok by done. f_equal. apply parseScript_inv in P as (r & _ & -> & N).
    rewrite (proj1 N eq_refl). now rewrite app_nil_r.
Qed.
Lemma address_of_lock_script_witness :
  exists a, PayToAddrScript a = Ok ([OP_HASH160; OP_DATA_20] ++ replicate 20 x09 ++ [OP_EQUAL]).
Proof.
  destruct (address_of_lock_script (fun x => x)
    ([OP_HASH160; OP_DATA_20] ++ replicate 20 x09 ++ [OP_EQUAL])) as (a & _ & _ & _ & P);
    [vm_compute; right; left | exists a; exact P].
Defined.

(** *** Multi-signature scripts *)

(** The opcode [AddInt64] uses for 0..16. *)
Definition small_op (n : Z) : byte := if n =? 0 then OP_0 else z2b (80 + n).

Definition multisig_pops (keys : list bytes) (n : Z) : list parsedOpcode :=
  plain (small_op n) :: map push keys ++ [plain (small_op (len keys)); plain OP_CHECKMULTISIG].

Lemma small_op_facts n : 0 <= n <= 16 ->
  op_length (opcodeArray (small_op n)) = 1 /\ isSmallInt (opcodeArray (small_op n)) = true /\
  asSmallInt (opcodeArray (small_op n)) = n /\ small_op n <> OP_DUP.
Proof.
  intros H. assert (E : n ∈ seqZ 0 17) by (apply elem_of_seqZ; lia). clear H. revert n E.
  apply Forall_forall. repeat constructor; done.
Qed.

Lemma building_AddInt64_small b pops n : building b pops -> 0 <= n <= 16 ->
  len (script b) < maxScriptSize ->
  exists b', AddInt64 n b = Ok b' /\ building b' (pops ++ [plain (small_op n)]).
Proof.
  intros B H S. destruct (small_op_facts n H) as (L & _).
  exists (append (encoding (plain (small_op n))) b).
  split; [|apply building_append; [done|now apply plain_good]].
  pose proof B as (E & _). unfold AddInt64. rewrite E.
  rewrite (proj2 (Z.ltb_ge _ _)) by lia. rewrite encoding_plain by done. unfold small_op.
  destruct (Z.eqb_spec n 0); [done|].
  replace ((n =? -1) || ((1 <=? n) && (n <=? 16))) with true by (bdestruct; done). done.
Qed.

Lemma pubkey_len_bounds k : is_pubkey_len k = true -> 33 <= len k <= 65.
Proof. unfold is_pubkey_len. bdestruct; done || lia. Qed.

Lemma addKeys_building keys : forall b pops, building b pops -> Forall (fun k => is_pubkey_len k = true) keys ->
  len (script b) + 66 * len keys <= 9900 ->
  building (addKeys keys b) (pops ++ map push keys) /\
  len (script (addKeys keys b)) <= len (script b) + 66 * len keys.
Proof.
  induction keys as [|k keys IH]; intros b pops B F S; simpl.
  - rewrite app_nil_r. split; [done|]. unfold len; simpl; lia.
  - inversion F as [|? ? Fk F']; subst. apply pubkey_len_bounds in Fk.
    rewrite len_cons in *. pose proof (len_nonneg keys).
    assert (B' : building (AddData k b) (pops ++ [push k])) by (apply building_push; done || lia).
    assert (L' : len (script (AddData k b)) = len (script b) + 1 + len k).
    { rewrite (building_len _ _ B'), encodings_len_app, <- (building_len _ _ B). cbn [map concat].
      rewrite app_nil_r, encoding_push, len_cons by lia. lia. }
    destruct (IH _ _ B' F') as [B'' L'']; [lia|].
    rewrite <- app_assoc in B''. split; [done|lia].
Qed.

Lemma MultiSigScript_building keys n :
  1 <= len keys <= 16 -> 0 <= n <= len keys -> Forall (fun k => is_pubkey_len k = true) keys ->
  exists b, MultiSigScript keys n = Script_ b /\ building b (multisig_pops keys n).
Proof.
  intros K N F. unfold MultiSigScript. rewrite (proj2 (Z.ltb_ge _ _)) by lia.
  destruct (building_AddInt64_small NewScriptBuilder [] n) as (b1 & -> & B1);
    [apply building_new|lia|done|]. cbn [rbind].
  assert (L1 : len (script b1) = 1).
  { rewrite (building_len _ _ B1). cbn [app map concat].
    rewrite app_nil_r, encoding_plain by (apply small_op_facts; lia). done. }
  destruct (addKeys_building keys b1 _ B1 F) as [B2 L2]; [lia|].
  destruct (building_AddInt64_small _ _ (len keys) B2) as (b3 & -> & B3);
    [lia|unfold maxScriptSize; lia|]. cbn [rbind].
  assert (L3 : len (script b3) <= 2000).
  { rewrite (building_len _ _ B3), encodings_len_app, <- (building_len _ _ B2). cbn [map concat].
    rewrite app_nil_r, encoding_plain by (apply small_op_facts; lia). unfold len at 2; simpl. lia. }
  assert (B4 := building_AddOp _ _ OP_CHECKMULTISIG B3 eq_refl ltac:(unfold maxScriptSize; lia)).
  eexists. split; [reflexivity|]. unfold multisig_pops. rewrite <- !app_assoc in B4. exact B4.
Qed.

Lemma pop_at_middle a p b i : i = len a -> pop_at (a ++ p :: b) i = p.
Proof. intros E. unfold pop_at. now rewrite index_middle. Qed.

Lemma multisig_pops_at keys n : 1 <= len keys ->
  let pops := multisig_pops keys n in
  len pops = len keys + 3 /\ pop_at pops 0 = plain (small_op n) /\
  pop_at pops (len pops - 2) = plain (small_op (len keys)) /\
  pop_at pops (len pops - 1) = plain OP_CHECKMULTISIG /\
  slice pops 1 (len pops - 2) = map push keys.
Proof.
  intros H pops. assert (M : len (map push keys) = len keys).
  { unfold len. now rewrite length_map. }
  assert (L : len pops = len keys + 3).
  { unfold pops, multisig_pops. autorewrite with len. rewrite M. lia. }
  split; [done|]. rewrite L. unfold pops, multisig_pops. split; [done|].
  split; [|split].
  - apply (pop_at_middle (plain (small_op n) :: map push keys)). rewrite len_cons, M. lia.
  - replace (plain (small_op n) :: map push keys ++ [plain (small_op (len keys)); plain OP_CHECKMULTISIG])
      with ((plain (small_op n) :: map push keys ++ [plain (small_op (len keys))]) ++
            [plain OP_CHECKMULTISIG]) by (simpl; now rewrite <- app_assoc).
    apply pop_at_middle. autorewrite with len. rewrite M. lia.
  - apply (slice_app [plain (small_op n)] (map push keys)); [done|]. rewrite M, len_cons, len_nil. lia.
Qed.

Lemma multisig_pops_type keys n : 1 <= len keys <= 16 -> 0 <= n <= 16 ->
  Forall (fun k => is_pubkey_len k = true) keys -> typeOfScript (multisig_pops keys n) = MultiSigTy.
Proof.
  intros K N F. destruct (multisig_pops_at keys n) as (L & P0 & P2 & P1 & S); [lia|].
  destruct (small_op_facts n N) as (_ & Sn & _ & Dn).
  destruct (small_op_facts (len keys)) as (_ & Sk & Ak & _); [lia|].
  assert (M : isMultiSig (multisig_pops keys n) = true).
  { unfold isMultiSig. rewrite S, P0, P1, P2, L. cbn [plain pop_opcode].
    rewrite Sn, Sk, Ak. rewrite (proj2 (Z.ltb_ge _ _)) by lia. simpl.
    rewrite (proj2 (Z.eqb_eq _ _)) by lia. simpl. apply forallb_forall.
    intros p (k & <- & I)%in_map_iff. rewrite Forall_forall in F. apply F, list_elem_of_In, I. }
  assert (V0 : pop_value (plain (small_op n)) = small_op n) by apply opcodeArray_value.
  unfold typeOfScript. rewrite M. unfold multisig_pops in *.
  destruct keys as [|k1 [|k2 keys]]; [unfold len in K; simpl in K; lia|done|].
  destruct keys as [|k3 [|? [|? ?]]]; try done. cbn -[pop_value plain push].
  rewrite V0, (proj2 (beq_false _ _) Dn). done.
Qed.

(** The addresses of a multi-signature script are those of its keys, in order. *)
Lemma multisig_pops_keys keys n : map (fun i => pop_at (multisig_pops keys n) (i + 1)) (seqZ 0 (len keys)) = map push keys.
Proof.
  apply list_eq. intros i. rewrite !list_lookup_fmap. unfold len at 1.
  destruct (decide (i < length keys)%nat) as [Hi|Hi].
  - rewrite lookup_seqZ_lt by lia. simpl. unfold multisig_pops, pop_at, index.
    replace (_ <? 0) with false by (symmetry; apply Z.ltb_ge; lia).
    replace (Z.to_nat (0 + Z.of_nat i + 1)) with (S i) by lia. simpl.
    rewrite lookup_app_l by (rewrite length_map; lia). rewrite list_lookup_fmap.
    destruct (keys !! i) eqn:Ki; [done|]. apply lookup_ge_None in Ki. lia.
  - rewrite lookup_seqZ_ge by lia. rewrite (proj2 (lookup_ge_None keys i)) by lia. done.
Qed.

Lemma Extract_multisig Hash160 s keys n : 1 <= len keys <= 16 -> 0 <= n <= 16 ->
  Forall (fun k => is_pubkey_len k = true) keys -> parsed s = Ok (multisig_pops keys n) ->
  ExtractPkScriptAddrs Hash160 s = Ok (MultiSigTy, map (fun k => NewAddressOriginalData Hash160 k PubKeyTy) keys, n).
Proof.
  intros K N F P. destruct (multisig_pops_at keys n) as (L & P0 & P2 & _); [lia|].
  destruct (small_op_facts n) as (_ & _ & An & _); [lia|].
  destruct (small_op_facts (len keys)) as (_ & _ & Ak & _); [lia|].
  unfold ExtractPkScriptAddrs. rewrite P. cbn [rbind]. rewrite multisig_pops_type, P0, P2 by done.
  cbn [plain pop_opcode]. rewrite An, Ak. simpl.
  do 3 f_equal. rewrite <- (map_map push (fun p => NewAddressOriginalData Hash160 (pop_data p) PubKeyTy)).
  by rewrite <- (multisig_pops_keys keys n), map_map.
Qed.

(** [MultiSigScript] builds what the engine recognises: for 1 to 16 keys of 33 or 65 bytes
    and at most as many required signatures, it succeeds, the script is of the multi-signature
    class, [CalcMultiSigStats] reads both numbers back, and [ExtractPkScriptAddrs] the addresses
    of the keys in order. *)
Theorem MultiSigScript_recognised (Hash160 : bytes -> bytes) (keys : list bytes) (n : Z) :
  1 <= len keys <= 16 -> 0 <= n <= len keys -> Forall (fun k => is_pubkey_len k = true) keys ->
  exists s, MultiSigScript keys n = Ok s /\ GetScriptClass s = MultiSigTy /\
    CalcMultiSigStats s = Ok (len keys, n) /\
    ExtractPkScriptAddrs Hash160 s =
      Ok (MultiSigTy, map (fun k => NewAddressOriginalData Hash160 k PubKeyTy) keys, n).
Proof.
  intros K N F. destruct (MultiSigScript_building keys n K N F) as (b & -> & B).
  exists (script b). pose proof B as (E & _). unfold Script_. rewrite E. split; [done|].
  pose proof (building_parse _ _ B) as P.
  assert (T : typeOfScript (multisig_pops keys n) = MultiSigTy) by (apply multisig_pops_type; done || lia).
  destruct (multisig_pops_at keys n) as (L & P0 & P2 & _); [lia|].
  destruct (small_op_facts n) as (_ & _ & An & _); [lia|].
  destruct (small_op_facts (len keys)) as (_ & _ & Ak & _); [lia|].
  assert (Px : parsed (script b) = Ok (multisig_pops keys n)) by (unfold parsed; by rewrite P).
  split; [unfold GetScriptClass; by rewrite P|]. split; [|apply Extract_multisig; done || lia].
  unfold CalcMultiSigStats. rewrite Px. cbn [rbind]. rewrite P0, P2, L. cbn [plain pop_opcode]. rewrite An, Ak.
  by rewrite (proj2 (Z.ltb_ge _ _)) by lia.
Qed.
Lemma MultiSigScript_recognised_witness :
  exists s, MultiSigScript [replicate 33 x02; replicate 33 x03] 1 = Ok s /\
            GetScriptClass s = MultiSigTy.
Proof.
  destruct (MultiSigScript_recognised (fun x => x) [replicate 33 x02; replicate 33 x03] 1)
    as (s & M & C & _); [vm_compute; split; congruence | vm_compute; split; congruence |
      repeat constructor |].
  exists s. split; [exact M | exact C].
Defined.

(** [CalcScriptInfo] is safe except in one case: it panics exactly when it is asked, with
    BIP16, about a pay-to-script-hash script and an empty signature script, whose last push it
    indexes without a test. *)
Lemma CalcScriptInfo_panics_iff (sigScript pkScript : bytes) (bip16 : bool) :
  CalcScriptInfo sigScript pkScript bip16 = Panic <->
  sigScript = [] /\ GetScriptClass pkScript = ScriptHashTy /\ bip16 = true.
Proof.
  unfold CalcScriptInfo, GetScriptClass.
  assert (NP : forall s, parsed s <> Panic).
  { intros s. unfold parsed. destruct (parseScript s) as [? [?|]]; done. }
  split.
  - unfold parsed at 1. destruct (parseScript sigScript) as [sp [e|]] eqn:Ps; [done|]. cbn [rbind].
    unfold parsed at 1. destruct (parseScript pkScript) as [pp [e|]] eqn:Pp; [done|]. cbn [rbind].
    destruct (isPushOnly sp); [|done]. cbn [negb].
    destruct (beq (typeOfScript pp) ScriptHashTy) eqn:C; [|done]. destruct bip16; [|done].
    cbn [andb]. apply beq_true in C. unfold rget.
    destruct (index sp (len sp - 1)) as [p|] eqn:I.
    + simpl. destruct (parsed (pop_data p)) eqn:Pd; [done|done|]. now apply NP in Pd.
    + intros _. split_and!; [|done|done]. apply index_None in I.
      destruct sp as [|p sp]; [|rewrite len_cons in I; pose proof (len_nonneg sp); lia].
      apply parseScript_inv in Ps as (r & _ & -> & N). now rewrite (proj1 N eq_refl).
  - intros (-> & C & ->). unfold parsed at 1. simpl (parseScript []). cbn [rbind].
    unfold parsed. destruct (parseScript pkScript) as [pp [e|]]; [done|]. cbn [rbind].
    rewrite C. done.
Qed.

(** The name of a script class is defined for the seven classes and for every larger value
    but one: the bound test of [String] is off by one, so the class value 7 indexes past the
    table of names and panics. *)
Lemma ScriptClass_String_defect (t : ScriptClass) :
  ScriptClass_String t = Panic <-> t = x07.
Proof. destruct t; vm_compute; split; congruence. Qed.
