(* ===== verification/Tx.v ===== *)
(** Transactions: src/dag/modules/{transaction,message,payment,transaction_rlp,utxo}.go.

    A transaction is a list of messages; a message is a type byte and a payload, a Go interface
    value here an [option] of the [payload] sum (the source asserts its type, and a failed
    assertion is a panic).  [CopyMessage] and [Messages] copy; no operation below writes through
    a shared pointer, so messages are values.  The RLP library is the interface [RlpLib] with the
    laws [RlpLaws]; the flattening of transactions and inputs that transaction_rlp.go puts in
    front of it is modelled. *)

From Stdlib Require Import ZArith Lia.
From S2P Require Import Prelude Address.

Inductive tx_error :=
| TxNotPayment | TxUtxoMissing (e : string) | TxInOverflow | TxOutOverflow | TxInLessThanOut
| TxRlp (msg : string) | TxSigners (e : string).

(** ** Data *)

Definition Hash : Type := bytes.
Definition zeroHash : Hash := replicate 32 x00.
Definition EmptyHash (h : Hash) : bool := bytes_equal h zeroHash.
Definition IsSelfHash (h : Hash) : bool := forallb (fun v => beq v xff) h.

Record OutPoint := mkOutPoint { TxHash : Hash; MessageIndex : Z; OutIndex : Z }.
Record Asset := mkAsset { AssetId : bytes; UniqueId : bytes }.

Definition Asset_Bytes (a : Asset) : bytes := AssetId a ++ UniqueId a.
Definition IsSameAssetId (a b : Asset) : bool := bytes_equal (AssetId a) (AssetId b).
Definition Asset_Equal (a b : Asset) : bool := bytes_equal (Asset_Bytes a) (Asset_Bytes b).

Record Output := mkOutput { Value : Z; PkScript : bytes; out_Asset : option Asset }.
Record Input := mkInput
  { SignatureScript : bytes; Extra : bytes; PreviousOutPoint : option OutPoint }.
Record PaymentPayload := mkPayment { Inputs : list Input; Outputs : list Output; LockTime : Z }.

Record ChainIndex := mkChainIndex { ci_AssetID : bytes; ci_Index : Z }.
Record StateVersion := mkVersion { Height : option ChainIndex; TxIndex : Z }.
Record ContractReadSet := mkReadSet { rs_Key : string; rs_Version : option StateVersion; rs_ContractId : bytes }.
Record ContractWriteSet := mkWriteSet
  { ws_IsDelete : bool; ws_Key : string; ws_Value : bytes; ws_ContractId : bytes }.
Record ContractError := mkContractError { Code : Z; ErrMessage : string }.
Record ElectionInf := mkElectionInf { EType : byte; el_AddrHash : Hash; Proof : bytes; el_PublicKey : bytes }.
Record ElectionNode := mkElectionNode { JuryCount : Z; EleList : list ElectionInf }.

Record ContractInstallRequestPayload := mkInstallReq
  { TplName : string; TplDescription : string; Path : string; ir_Version : string; Abi : string;
    Language : string; ir_AddrHash : list Hash; Creator : string }.
Record ContractTplPayload := mkTpl
  { tpl_TemplateId : bytes; tpl_Size : Z; ByteCode : bytes; tpl_ErrMsg : ContractError }.
Record ContractDeployRequestPayload := mkDeployReq
  { dr_TemplateId : bytes; dr_Args : list bytes; dr_ExtData : bytes; dr_Timeout : Z }.
Record ContractDeployPayload := mkDeploy
  { dp_TemplateId : bytes; dp_ContractId : bytes; dp_Name : string; dp_Args : list bytes;
    dp_EleNode : ElectionNode; dp_ReadSet : list ContractReadSet;
    dp_WriteSet : list ContractWriteSet; dp_DuringTime : Z; dp_ErrMsg : ContractError }.
Record ContractInvokeRequestPayload := mkInvokeReq
  { vr_ContractId : bytes; vr_Args : list bytes; vr_Timeout : Z }.
Record ContractInvokePayload := mkInvoke
  { iv_ContractId : bytes; iv_Args : list bytes; iv_ReadSet : list ContractReadSet;
    iv_WriteSet : list ContractWriteSet; iv_Payload : bytes; iv_ErrMsg : ContractError }.
Record ContractStopRequestPayload := mkStopReq
  { sr_ContractId : bytes; sr_Txid : string; sr_DeleteImage : bool }.
Record ContractStopPayload := mkStop
  { st_ContractId : bytes; st_ReadSet : list ContractReadSet; st_WriteSet : list ContractWriteSet;
    st_ErrMsg : ContractError }.
Record SignatureSet := mkSignatureSet { ss_PubKey : bytes; ss_Signature : bytes }.
Record SignaturePayload := mkSignature { Signatures : list SignatureSet }.
Record DataPayload := mkData { MainData : bytes; ExtraData : bytes; Reference : bytes }.
Record AccountStateWriteSet := mkAccountWrite { as_IsDelete : bool; as_Key : string; as_Value : bytes }.
Record AccountStateUpdatePayload := mkAccountUpdate { au_WriteSet : list AccountStateWriteSet }.

Inductive payload :=
| PayPayment (p : PaymentPayload)
| PayTpl (p : ContractTplPayload)
| PayDeploy (p : ContractDeployPayload)
| PayInvoke (p : ContractInvokePayload)
| PayStop (p : ContractStopPayload)
| PaySignature (p : SignaturePayload)
| PayData (p : DataPayload)
| PayAccountUpdate (p : AccountStateUpdatePayload)
| PayTplRequest (p : ContractInstallRequestPayload)
| PayDeployRequest (p : ContractDeployRequestPayload)
| PayInvokeRequest (p : ContractInvokeRequestPayload)
| PayStopRequest (p : ContractStopRequestPayload).

(** [type MessageType byte] *)
Definition MessageType : Type := Z.
Definition APP_PAYMENT : MessageType := 0.
Definition APP_CONTRACT_TPL : MessageType := 1.
Definition APP_CONTRACT_DEPLOY : MessageType := 2.
Definition APP_CONTRACT_INVOKE : MessageType := 3.
Definition APP_CONTRACT_STOP : MessageType := 4.
Definition APP_SIGNATURE : MessageType := 5.
Definition APP_DATA : MessageType := 6.
Definition APP_ACCOUNT_UPDATE : MessageType := 7.
Definition APP_UNKNOW : MessageType := 99.
Definition APP_CONTRACT_TPL_REQUEST : MessageType := 100.
Definition APP_CONTRACT_DEPLOY_REQUEST : MessageType := 101.
Definition APP_CONTRACT_INVOKE_REQUEST : MessageType := 102.
Definition APP_CONTRACT_STOP_REQUEST : MessageType := 103.

Definition IsRequest (mt : MessageType) : bool := APP_UNKNOW <? mt.

Record Message := mkMessage { App : MessageType; Payload : option payload }.

Record transaction_sdw := mkSdw { sdw_TxMessages : list Message; sdw_CertId : bytes; sdw_Illegal : bool }.

(** The transaction with its hash cache; the size cache is not modelled. *)
Record Transaction := mkTx { txdata : transaction_sdw; tx_hash : option Hash }.

Definition new_tx (d : transaction_sdw) : Transaction := mkTx d None.
Definition emptySdw : transaction_sdw := mkSdw [] [] false.

(** [msg.Payload.( *PaymentPayload)], which panics on any other payload. *)
Definition as_payment {E} (m : Message) : result E PaymentPayload :=
  match Payload m with Some (PayPayment p) => Ok p | _ => Panic end.

Definition GetPaymentPayLoad {E} (m : Message) : result E (option PaymentPayload) :=
  if negb (App m =? APP_PAYMENT) then Ok None
  else let? p := as_payment m in Ok (Some p).

Definition IsCoinbase (pay : PaymentPayload) : bool :=
  (len (Inputs pay) =? 0) ||
  existsb (fun i => match PreviousOutPoint i with None => true | Some _ => false end) (Inputs pay).

(** ** Copying messages *)

Fixpoint mapR {E A B} (f : A -> result E B) (l : list A) : result E (list B) :=
  match l with
  | [] => Ok []
  | a :: l' => let? b := f a in let? bs := mapR f l' in Ok (b :: bs)
  end.

(** An output is copied through its asset, which must not be nil. *)
Definition CopyOutput {E} (out : Output) : result E Output :=
  match out_Asset out with
  | Some a => Ok (mkOutput (Value out) (PkScript out) (Some (mkAsset (AssetId a) (UniqueId a))))
  | None => Panic
  end.

Definition CopyInput (i : Input) : Input :=
  mkInput (SignatureScript i) (Extra i)
    (match PreviousOutPoint i with
     | Some o => Some (mkOutPoint (TxHash o) (MessageIndex o) (OutIndex o))
     | None => None
     end).

(** Read sets of deploy and stop results: [*rs.Version] must not be nil. *)
Definition CopyReadSet {E} (rs : ContractReadSet) : result E ContractReadSet :=
  match rs_Version rs with
  | Some v => Ok (mkReadSet (rs_Key rs) (Some v) (rs_ContractId rs))
  | None => Panic
  end.

(** Read sets of invoke results: a nil version becomes a zero one. *)
Definition CopyInvokeReadSet (rs : ContractReadSet) : ContractReadSet :=
  mkReadSet (rs_Key rs)
    (Some (match rs_Version rs with Some v => v | None => mkVersion None 0 end)) (rs_ContractId rs).

(** The payload of a copy; [Panic] for a payload that does not have the type of [App]. *)
Definition CopyPayload {E} (app : MessageType) (p : option payload) : result E (option payload) :=
  if app =? APP_PAYMENT then
    match p with
    | Some (PayPayment p) =>
        let? outs := mapR CopyOutput (Outputs p) in
        Ok (Some (PayPayment (mkPayment (map CopyInput (Inputs p)) outs (LockTime p))))
    | _ => Panic
    end
  else if app =? APP_CONTRACT_TPL then match p with Some (PayTpl _) => Ok p | _ => Panic end
  else if app =? APP_CONTRACT_DEPLOY then
    match p with
    | Some (PayDeploy d) =>
        let? rs := mapR CopyReadSet (dp_ReadSet d) in
        Ok (Some (PayDeploy (mkDeploy (dp_TemplateId d) (dp_ContractId d) (dp_Name d) (dp_Args d)
              (dp_EleNode d) rs (dp_WriteSet d) (dp_DuringTime d) (dp_ErrMsg d))))
    | _ => Panic
    end
  else if app =? APP_CONTRACT_INVOKE then
    match p with
    | Some (PayInvoke i) =>
        Ok (Some (PayInvoke (mkInvoke (iv_ContractId i) (iv_Args i)
              (map CopyInvokeReadSet (iv_ReadSet i)) (iv_WriteSet i) (iv_Payload i) (iv_ErrMsg i))))
    | _ => Panic
    end
  else if app =? APP_CONTRACT_STOP then
    match p with
    | Some (PayStop s) =>
        let? rs := mapR CopyReadSet (st_ReadSet s) in
        Ok (Some (PayStop (mkStop (st_ContractId s) rs (st_WriteSet s) (st_ErrMsg s))))
    | _ => Panic
    end
  else if app =? APP_SIGNATURE then match p with Some (PaySignature _) => Ok p | _ => Panic end
  else if app =? APP_DATA then match p with Some (PayData _) => Ok p | _ => Panic end
  else if app =? APP_ACCOUNT_UPDATE then match p with Some (PayAccountUpdate _) => Ok p | _ => Panic end
  else if app =? APP_CONTRACT_TPL_REQUEST then match p with Some (PayTplRequest _) => Ok p | _ => Panic end
  else if app =? APP_CONTRACT_DEPLOY_REQUEST then match p with Some (PayDeployRequest _) => Ok p | _ => Panic end
  else if app =? APP_CONTRACT_INVOKE_REQUEST then match p with Some (PayInvokeRequest _) => Ok p | _ => Panic end
  else if app =? APP_CONTRACT_STOP_REQUEST then match p with Some (PayStopRequest _) => Ok p | _ => Panic end
  else Ok p.

(** The value of the copy; which parts it shares with the original is not modelled. *)
Definition CopyMessage {E} (m : Message) : result E Message :=
  let? p := CopyPayload (App m) (Payload m) in Ok (mkMessage (App m) p).

(** ** RLP *)

(** A codec of the RLP library for one type, with the values it is meant for. *)
Record Codec (A : Type) := mkCodec
  { enc : A -> result tx_error bytes; dec : bytes -> result tx_error A; encodable : A -> Prop }.
Arguments mkCodec {A}. Arguments enc {A}. Arguments dec {A}. Arguments encodable {A}.

(** Decoding inverts encoding. *)
Definition codec_ok {A} (c : Codec A) : Prop :=
  forall a, encodable c a -> exists b, enc c a = Ok b /\ dec c b = Ok a.

(** The wire forms of an input, a payment, a message and a transaction. *)
Record inputTemp := mkInputTemp
  { it_SignatureScript : bytes; it_Extra : bytes; it_TxHash : Hash; it_MessageIndex : Z;
    it_OutIndex : Z }.
Record paymentTemp := mkPaymentTemp
  { pt_Inputs : list inputTemp; pt_Outputs : list Output; pt_LockTime : Z }.
Record messageTemp := mkMessageTemp { mt_App : MessageType; mt_Data : bytes }.
Record transactionTemp := mkTransactionTemp
  { tt_TxMessages : list messageTemp; tt_CertId : bytes; tt_Illegal : bool }.
Record ContractDeployPayloadV1 := mkDeployV1
  { d1_TemplateId : bytes; d1_ContractId : bytes; d1_Name : string; d1_Args : list bytes;
    d1_EleList : list ElectionInf; d1_ReadSet : list ContractReadSet;
    d1_WriteSet : list ContractWriteSet; d1_ErrMsg : ContractError }.

(** What the program uses of the RLP library: a codec for each wire type. *)
Class RlpLib := {
  c_payment : Codec paymentTemp;
  c_tpl : Codec ContractTplPayload;
  c_deploy : Codec ContractDeployPayload;
  c_deploy_v1 : Codec ContractDeployPayloadV1;
  c_invoke : Codec ContractInvokePayload;
  c_stop : Codec ContractStopPayload;
  c_signature : Codec SignaturePayload;
  c_data : Codec DataPayload;
  c_account : Codec AccountStateUpdatePayload;
  c_tpl_req : Codec ContractInstallRequestPayload;
  c_deploy_req : Codec ContractDeployRequestPayload;
  c_invoke_req : Codec ContractInvokeRequestPayload;
  c_stop_req : Codec ContractStopRequestPayload;
  c_tx : Codec transactionTemp
}.

Class RlpLaws (L : RlpLib) : Prop := {
  ok_payment : codec_ok c_payment;
  ok_tpl : codec_ok c_tpl;
  ok_deploy : codec_ok c_deploy;
  ok_deploy_v1 : codec_ok c_deploy_v1;
  (* a list of eight items is not the wire form of a struct of nine fields *)
  v1_not_v2 : forall t b, enc c_deploy_v1 t = Ok b -> exists e, dec c_deploy b = Err e;
  ok_invoke : codec_ok c_invoke;
  ok_stop : codec_ok c_stop;
  ok_signature : codec_ok c_signature;
  ok_data : codec_ok c_data;
  ok_account : codec_ok c_account;
  ok_tpl_req : codec_ok c_tpl_req;
  ok_deploy_req : codec_ok c_deploy_req;
  ok_invoke_req : codec_ok c_invoke_req;
  ok_stop_req : codec_ok c_stop_req;
  ok_tx : codec_ok c_tx
}.

(** [Input.EncodeRLP] and [Input.DecodeRLP] *)
Definition flatten_input (i : Input) : inputTemp :=
  match PreviousOutPoint i with
  | Some o => mkInputTemp (SignatureScript i) (Extra i) (TxHash o) (MessageIndex o) (OutIndex o)
  | None => mkInputTemp (SignatureScript i) (Extra i) zeroHash 0 0
  end.

Definition unflatten_input (t : inputTemp) : Input :=
  mkInput (it_SignatureScript t) (it_Extra t)
    (if negb (EmptyHash (it_TxHash t))
     then Some (mkOutPoint (it_TxHash t) (it_MessageIndex t) (it_OutIndex t)) else None).

Definition flatten_payment (p : PaymentPayload) : paymentTemp :=
  mkPaymentTemp (map flatten_input (Inputs p)) (Outputs p) (LockTime p).
Definition unflatten_payment (t : paymentTemp) : PaymentPayload :=
  mkPayment (map unflatten_input (pt_Inputs t)) (pt_Outputs t) (pt_LockTime t).

Section Rlp.
Context {L : RlpLib}.

(** [EncodeRLP] of a deploy result (message_rlp.go): system contracts keep the older wire form,
    which has neither the jury count nor the duration; the newer one, [ContractDeployPayloadV2],
    has the fields of the payload. *)
Definition deploy_v1 (p : ContractDeployPayload) : ContractDeployPayloadV1 :=
  mkDeployV1 (dp_TemplateId p) (dp_ContractId p) (dp_Name p) (dp_Args p) (EleList (dp_EleNode p))
    (dp_ReadSet p) (dp_WriteSet p) (dp_ErrMsg p).
Definition enc_deploy (p : ContractDeployPayload) : result tx_error bytes :=
  if IsSystemContractId (dp_ContractId p) then enc c_deploy_v1 (deploy_v1 p) else enc c_deploy p.

(** [rlp.EncodeToBytes(m.Payload)]; the library panics on a nil interface. *)
Definition enc_payload (p : option payload) : result tx_error bytes :=
  match p with
  | Some (PayPayment p) => enc c_payment (flatten_payment p)
  | Some (PayTpl p) => enc c_tpl p
  | Some (PayDeploy p) => enc_deploy p
  | Some (PayInvoke p) => enc c_invoke p
  | Some (PayStop p) => enc c_stop p
  | Some (PaySignature p) => enc c_signature p
  | Some (PayData p) => enc c_data p
  | Some (PayAccountUpdate p) => enc c_account p
  | Some (PayTplRequest p) => enc c_tpl_req p
  | Some (PayDeployRequest p) => enc c_deploy_req p
  | Some (PayInvokeRequest p) => enc c_invoke_req p
  | Some (PayStopRequest p) => enc c_stop_req p
  | None => Panic
  end.

Definition tx2Temp (d : transaction_sdw) : result tx_error transactionTemp :=
  let? msgs := mapR (fun m => let? data := enc_payload (Payload m) in
                              Ok (mkMessageTemp (App m) data)) (sdw_TxMessages d) in
  Ok (mkTransactionTemp msgs (sdw_CertId d) (sdw_Illegal d)).

(** A deploy result in the newer wire form or, failing that, the older one. *)
Definition dec_deploy (data : bytes) : result tx_error ContractDeployPayload :=
  match dec c_deploy data with
  | Err _ =>
      let? t := dec c_deploy_v1 data in
      Ok (mkDeploy (d1_TemplateId t) (d1_ContractId t) (d1_Name t) (d1_Args t)
            (mkElectionNode 0 (d1_EleList t)) (d1_ReadSet t) (d1_WriteSet t) 0 (d1_ErrMsg t))
  | r => r
  end.

(** The payload for a message type; unknown types are printed and keep a nil payload. *)
Definition dec_payload (app : MessageType) (data : bytes) : result tx_error (option payload) :=
  if app =? APP_PAYMENT then
    let? t := dec c_payment data in Ok (Some (PayPayment (unflatten_payment t)))
  else if app =? APP_DATA then let? p := dec c_data data in Ok (Some (PayData p))
  else if app =? APP_CONTRACT_TPL_REQUEST then let? p := dec c_tpl_req data in Ok (Some (PayTplRequest p))
  else if app =? APP_CONTRACT_TPL then let? p := dec c_tpl data in Ok (Some (PayTpl p))
  else if app =? APP_CONTRACT_DEPLOY_REQUEST then
    let? p := dec c_deploy_req data in Ok (Some (PayDeployRequest p))
  else if app =? APP_CONTRACT_DEPLOY then let? p := dec_deploy data in Ok (Some (PayDeploy p))
  else if app =? APP_CONTRACT_INVOKE_REQUEST then
    let? p := dec c_invoke_req data in Ok (Some (PayInvokeRequest p))
  else if app =? APP_CONTRACT_INVOKE then let? p := dec c_invoke data in Ok (Some (PayInvoke p))
  else if app =? APP_CONTRACT_STOP_REQUEST then
    let? p := dec c_stop_req data in Ok (Some (PayStopRequest p))
  else if app =? APP_CONTRACT_STOP then let? p := dec c_stop data in Ok (Some (PayStop p))
  else if app =? APP_SIGNATURE then let? p := dec c_signature data in Ok (Some (PaySignature p))
  else if app =? APP_ACCOUNT_UPDATE then let? p := dec c_account data in Ok (Some (PayAccountUpdate p))
  else Ok None.

Definition temp2Tx (temp : transactionTemp) : result tx_error transaction_sdw :=
  let? msgs := mapR (fun m => let? p := dec_payload (mt_App m) (mt_Data m) in
                              Ok (mkMessage (mt_App m) p)) (tt_TxMessages temp) in
  Ok (mkSdw msgs (tt_CertId temp) (tt_Illegal temp)).

Definition EncodeRLP (d : transaction_sdw) : result tx_error bytes :=
  let? temp := tx2Temp d in enc c_tx temp.
Definition DecodeRLP (raw : bytes) : result tx_error transaction_sdw :=
  let? temp := dec c_tx raw in temp2Tx temp.

(** [Clone]: encoding and decoding errors are ignored, the new transaction then being empty. *)
Definition Clone (tx : Transaction) : result tx_error Transaction :=
  match EncodeRLP (txdata tx) with
  | Panic => Panic
  | r =>
      let data := match r with Ok b => b | _ => [] end in
      match DecodeRLP data with
      | Ok d => Ok (new_tx d)
      | Err _ => Ok (new_tx emptySdw)
      | Panic => Panic
      end
  end.
End Rlp.

(** ** Operations on transactions *)

(** [tx.Messages()], a copy of the slice, and [tx.TxMessages()], a deep copy. *)
Definition Messages (tx : Transaction) : list Message := sdw_TxMessages (txdata tx).
Definition TxMessages {E} (tx : Transaction) : result E (list Message) :=
  mapR CopyMessage (Messages tx).
Definition CertId (tx : Transaction) : bytes := sdw_CertId (txdata tx).
Definition Illegal (tx : Transaction) : bool := sdw_Illegal (txdata tx).

(** The index of the first message that satisfies [f]; -1 if there is none. *)
Fixpoint find_index_from (i : Z) (f : Message -> bool) (l : list Message) : Z :=
  match l with
  | [] => -1
  | m :: l' => if f m then i else find_index_from (i + 1) f l'
  end.

Definition GetRequestMsgIndex (tx : Transaction) : Z :=
  find_index_from 0 (fun m => IsRequest (App m)) (Messages tx).

Definition GetContractInvokeReqMsgIdx (tx : Transaction) : Z :=
  find_index_from 0 (fun m => App m =? APP_CONTRACT_INVOKE_REQUEST) (Messages tx).

Definition IsContractTx (tx : Transaction) : bool :=
  existsb (fun m => (APP_CONTRACT_TPL <=? App m) && (App m <=? APP_SIGNATURE)) (Messages tx).

(** [tx.txdata.TxMessages[len-1]] panics on a transaction without messages. *)
Definition IsNewContractInvokeRequest {E} (tx : Transaction) : result E bool :=
  let? m := rget (index (Messages tx) (len (Messages tx) - 1)) in Ok (IsRequest (App m)).

Fixpoint IsSystemContract_loop {E} (l : list Message) : result E bool :=
  match l with
  | [] => Ok true
  | m :: l' =>
      if App m =? APP_CONTRACT_INVOKE_REQUEST then
        match Payload m with
        | Some (PayInvokeRequest p) =>
            Ok (IsSystemContractAddress (NewAddress (vr_ContractId p) ContractHash))
        | _ => Panic
        end
      else if App m =? APP_CONTRACT_TPL_REQUEST then Ok true
      else if APP_CONTRACT_DEPLOY_REQUEST <=? App m then Ok false
      else IsSystemContract_loop l'
  end.
Definition IsSystemContract {E} (tx : Transaction) : result E bool :=
  IsSystemContract_loop (Messages tx).

Fixpoint DataPayloadSize_loop {E} (size : Z) (l : list Message) : result E Z :=
  match l with
  | [] => Ok size
  | m :: l' =>
      if App m =? APP_DATA then
        match Payload m with
        | Some (PayData d) =>
            DataPayloadSize_loop (size + (len (MainData d) + len (ExtraData d) + len (Reference d))) l'
        | _ => Panic
        end
      else DataPayloadSize_loop size l'
  end.
Definition DataPayloadSize {E} (tx : Transaction) : result E Z := DataPayloadSize_loop 0 (Messages tx).

(** The messages up to and including the first that satisfies [f]. *)
Fixpoint upto (f : Message -> bool) (l : list Message) : list Message :=
  match l with
  | [] => []
  | m :: l' => if f m then [m] else m :: upto f l'
  end.

Definition GetRequestTx {E} (tx : Transaction) : result E Transaction :=
  let? msgs := TxMessages tx in
  Ok (new_tx (mkSdw (upto (fun m => IsRequest (App m)) msgs) (CertId tx) false)).

(** [in.SignatureScript = nil] for every input. *)
Definition clear_signatures (p : PaymentPayload) : PaymentPayload :=
  mkPayment (map (fun i => mkInput [] (Extra i) (PreviousOutPoint i)) (Inputs p)) (Outputs p) (LockTime p).

Fixpoint ResultRaw_loop {E} (isResultMsg : bool) (l : list Message) : result E (list Message) :=
  match l with
  | [] => Ok []
  | m :: l' =>
      let isResultMsg := isResultMsg || IsRequest (App m) in
      if App m =? APP_SIGNATURE then ResultRaw_loop isResultMsg l'
      else
        let? m := (if isResultMsg && (App m =? APP_PAYMENT) then
                     let? p := as_payment m in
                     Ok (mkMessage (App m) (Some (PayPayment (clear_signatures p))))
                   else Ok m) in
        let? rest := ResultRaw_loop isResultMsg l' in
        Ok (m :: rest)
  end.

Definition GetResultRawTx {E} (tx : Transaction) : result E Transaction :=
  let? msgs := TxMessages tx in
  let? msgs := ResultRaw_loop false msgs in
  Ok (new_tx (mkSdw msgs (CertId tx) (Illegal tx))).

Definition GetResultTx {E} (tx : Transaction) : result E Transaction :=
  let? msgs := TxMessages tx in
  Ok (new_tx (mkSdw (List.filter (fun m => negb (App m =? APP_SIGNATURE)) msgs) (CertId tx) false)).

(** Whether a payment other than a coinbase follows the request, and where. *)
Fixpoint Payout_loop {E} (i : Z) (isInvokeResult : bool) (l : list Message)
  : result E (option (Z * Message)) :=
  match l with
  | [] => Ok None
  | m :: l' =>
      if IsRequest (App m) then Payout_loop (i + 1) true l'
      else if isInvokeResult && (App m =? APP_PAYMENT) then
        let? pay := as_payment m in
        if negb (IsCoinbase pay) then Ok (Some (i, m)) else Payout_loop (i + 1) isInvokeResult l'
      else Payout_loop (i + 1) isInvokeResult l'
  end.
Definition HasContractPayoutMsg {E} (tx : Transaction) : result E (option (Z * Message)) :=
  Payout_loop 0 false (Messages tx).

(** ** Hashes *)

Section Hashing.
Context {L : RlpLib}.
Variable keccak : bytes -> Hash.

(** [util.RlpHash]: nothing is written to the hash when encoding fails. *)
Definition RlpHash (d : transaction_sdw) : result tx_error Hash :=
  match EncodeRLP d with
  | Ok b => Ok (keccak b)
  | Err _ => Ok (keccak [])
  | Panic => Panic
  end.

Definition legal (d : transaction_sdw) : transaction_sdw :=
  mkSdw (sdw_TxMessages d) (sdw_CertId d) false.

Definition Hash_ : ST Transaction tx_error Hash :=
  let! c := gets tx_hash in
  match c with
  | Some h => ret h
  | None =>
      let! d := gets txdata in
      let! v := lift (RlpHash (if sdw_Illegal d then legal d else d)) in
      modify (fun tx => mkTx (txdata tx) (Some v)) ;;;
      ret v
  end.

(** [temp := &Transaction{txdata: d}; tx.txdata = d; tx.hash.Store(temp.Hash())] *)
Definition set_data (d : transaction_sdw) : ST Transaction tx_error unit :=
  modify (fun tx => mkTx d (tx_hash tx)) ;;;
  let! h := lift ((Hash_ (new_tx d)).2) in
  modify (fun tx => mkTx (txdata tx) (Some h)).

Definition SetMessages (msgs : list Message) : ST Transaction tx_error unit :=
  if 0 <? len msgs then
    let! tx := gets (fun tx => tx) in
    set_data (mkSdw msgs (CertId tx) (Illegal tx))
  else ret tt.

Definition AddMessage (msg : option Message) : ST Transaction tx_error unit :=
  let! msgs := gets Messages in
  let! msgs := match msg with
               | Some m => let! c := lift (CopyMessage m) in ret (msgs ++ [c])
               | None => ret msgs
               end in
  SetMessages msgs.

Definition SetCertId (certid : bytes) : ST Transaction tx_error unit :=
  let! tx := gets (fun tx => tx) in
  set_data (mkSdw (Messages tx) certid (Illegal tx)).

Definition SetIllegal (illegal : bool) : ST Transaction tx_error unit :=
  let! tx := gets (fun tx => tx) in
  set_data (mkSdw (Messages tx) (CertId tx) illegal).

Fixpoint replace_at (i index : Z) (msg : Message) (l : list Message) : list Message :=
  match l with
  | [] => []
  | m :: l' => (if i =? index then msg else m) :: replace_at (i + 1) index msg l'
  end.

Definition ModifiedMsg (index : Z) (msg : Message) : ST Transaction tx_error unit :=
  let! tx := gets (fun tx => tx) in
  if len (Messages tx) <? index then ret tt
  else set_data (mkSdw (replace_at 0 index msg (Messages tx)) (CertId tx) (Illegal tx)).

Definition RequestHash (tx : Transaction) : result tx_error Hash :=
  let? msgs := TxMessages tx in
  RlpHash (mkSdw (upto (fun m => APP_CONTRACT_TPL_REQUEST <=? App m) msgs) [] false).
End Hashing.

Definition NewTransaction (msg : list Message) : Transaction := new_tx (mkSdw msg [] false).

(** ** Unspent outputs *)

Record Utxo := mkUtxo
  { u_Amount : Z; u_Asset : option Asset; u_PkScript : bytes; u_LockTime : Z; u_Timestamp : Z;
    u_Flags : Z }.

Definition tfCoinBase : Z := 1.
Definition tfSpent : Z := 2.
Definition tfModified : Z := 4.

Definition NewUtxo (output : Output) (lockTime timestamp : Z) : Utxo :=
  mkUtxo (Value output) (out_Asset output) (PkScript output) lockTime (uint64 timestamp) 0.

Definition set_flags (f : Z) (u : Utxo) : Utxo :=
  mkUtxo (u_Amount u) (u_Asset u) (u_PkScript u) (u_LockTime u) (u_Timestamp u) f.

Definition Utxo_IsEmpty (u : Utxo) : bool :=
  negb (negb (len (u_PkScript u) =? 0) || (0 <? u_Amount u) || (0 <? u_LockTime u) ||
        match u_Asset u with Some _ => true | None => false end).
(** The flags are multiplied here where the other tests mask them. *)
Definition IsModified (u : Utxo) : bool := uint8 (u_Flags u * tfModified) =? tfModified.
Definition IsSpent (u : Utxo) : bool := Z.land (u_Flags u) tfSpent =? tfSpent.
Definition Utxo_IsCoinBase (u : Utxo) : bool := Z.land (u_Flags u) tfCoinBase =? tfCoinBase.
Definition Spend (u : Utxo) : Utxo :=
  if IsSpent u then u else set_flags (Z.lor (u_Flags u) (Z.lor tfSpent tfModified)) u.
Definition SetCoinBase (u : Utxo) : Utxo := set_flags (Z.lor (u_Flags u) tfCoinBase) u.

#[global] Instance OutPoint_eq_dec : EqDecision OutPoint.
Proof. solve_decision. Defined.
#[global] Program Instance OutPoint_countable : Countable OutPoint :=
  inj_countable' (fun o => (TxHash o, MessageIndex o, OutIndex o))
    (fun t => mkOutPoint t.1.1 t.1.2 t.2) _.
Next Obligation. by intros []. Qed.

Fixpoint output_utxos (txHash : Hash) (msgIndex outIndex : Z) (lockTime : Z) (outs : list Output)
    (acc : gmap OutPoint Utxo) : gmap OutPoint Utxo :=
  match outs with
  | [] => acc
  | txout :: outs' =>
      let utxo := mkUtxo (Value txout) (out_Asset txout) (PkScript txout) lockTime 0 0 in
      let outpoint := mkOutPoint txHash (uint32 msgIndex) (uint32 outIndex) in
      output_utxos txHash msgIndex (outIndex + 1) lockTime outs' (<[outpoint := utxo]> acc)
  end.

Fixpoint message_utxos {E} (txHash : Hash) (msgIndex : Z) (msgs : list Message)
    (acc : gmap OutPoint Utxo) : result E (gmap OutPoint Utxo) :=
  match msgs with
  | [] => Ok acc
  | m :: msgs' =>
      if negb (App m =? APP_PAYMENT) then message_utxos txHash (msgIndex + 1) msgs' acc
      else
        let? pay := as_payment m in
        message_utxos txHash (msgIndex + 1) msgs'
          (output_utxos txHash msgIndex 0 (LockTime pay) (Outputs pay) acc)
  end.

Section Utxos.
Context {L : RlpLib}.
Variable keccak : bytes -> Hash.

Definition GetNewUtxos : ST Transaction tx_error (gmap OutPoint Utxo) :=
  let! txHash := Hash_ keccak in
  let! msgs := gets Messages in
  lift (message_utxos txHash 0 msgs ∅).

(** [tx.Hash()] is called again for each self reference; it is cached after the first call. *)
Fixpoint spend_inputs (inputs : list Input) : ST Transaction tx_error (list OutPoint) :=
  match inputs with
  | [] => ret []
  | i :: inputs' =>
      match PreviousOutPoint i with
      | None => spend_inputs inputs'
      | Some o =>
          let! op := (if IsSelfHash (TxHash o) then
                        let! h := Hash_ keccak in ret (mkOutPoint h (MessageIndex o) (OutIndex o))
                      else ret o) in
          let! rest := spend_inputs inputs' in
          ret (op :: rest)
      end
  end.

Fixpoint spend_messages (msgs : list Message) : ST Transaction tx_error (list OutPoint) :=
  match msgs with
  | [] => ret []
  | m :: msgs' =>
      if negb (App m =? APP_PAYMENT) then spend_messages msgs'
      else
        let! pay := lift (as_payment m) in
        let! ops := spend_inputs (Inputs pay) in
        let! rest := spend_messages msgs' in
        ret (ops ++ rest)
  end.

Definition GetSpendOutpoints : ST Transaction tx_error (list OutPoint) :=
  let! msgs := gets Messages in spend_messages msgs.
End Utxos.

(** ** The fee of a transaction *)

Record AmountAsset := mkAmountAsset { aa_Amount : Z; aa_Asset : option Asset }.

(** The asset id of PTN, assetId.go. *)
Definition PTNCOIN : bytes := [x40; x00; x82; xbb; x08] ++ replicate 11 x00.
Definition PTNAsset : Asset := mkAsset PTNCOIN (replicate 16 x00).

Section Fee.
(** The function that looks an unspent output up. *)
Variable queryUtxoFunc : option OutPoint -> result string Utxo.

Definition maxUint64 : Z := 2 ^ 64 - 1.

(** The sums are uint64: [a + b > 1<<64 - 1] compares the sum after it has wrapped. *)
Fixpoint fee_inputs (inAmount : Z) (feeAsset : option Asset) (ins : list Input)
  : result tx_error (Z * option Asset) :=
  match ins with
  | [] => Ok (inAmount, feeAsset)
  | txin :: ins' =>
      match queryUtxoFunc (PreviousOutPoint txin) with
      | Err e => Err (TxUtxoMissing e)
      | Panic => Panic
      | Ok utxo =>
          if maxUint64 <? uint64 (inAmount + u_Amount utxo) then Err TxInOverflow
          else fee_inputs (uint64 (inAmount + u_Amount utxo)) (u_Asset utxo) ins'
      end
  end.

Fixpoint fee_outputs (outAmount : Z) (outs : list Output) : result tx_error Z :=
  match outs with
  | [] => Ok outAmount
  | txout :: outs' =>
      if maxUint64 <? uint64 (outAmount + Value txout) then Err TxOutOverflow
      else fee_outputs (uint64 (outAmount + Value txout)) outs'
  end.

(** The text of the last error includes the hash of the transaction, so the source may also fill
    the hash cache there; texts are not modelled. *)
Definition GetTxFee (tx : Transaction) : result tx_error AmountAsset :=
  let? msg0 := rget (index (Messages tx) 0) in
  if negb (App msg0 =? APP_PAYMENT) then Err TxNotPayment
  else
    let? payload := as_payment msg0 in
    if IsCoinbase payload then Ok (mkAmountAsset 0 (Some PTNAsset))
    else
      let? (inAmount, feeAsset) := fee_inputs 0 None (Inputs payload) in
      let? outAmount := fee_outputs 0 (Outputs payload) in
      if inAmount <? outAmount then Err TxInLessThanOut
      else Ok (mkAmountAsset (inAmount - outAmount) feeAsset).

(** ** Who pays *)

Variable getAddrFunc : bytes -> result string Address.

Fixpoint from_inputs (ins : list Input) (acc : gset Address) : result tx_error (gset Address) :=
  match ins with
  | [] => Ok acc
  | i :: ins' =>
      match PreviousOutPoint i with
      | None => from_inputs ins' acc
      | Some o =>
          match queryUtxoFunc (Some o) with
          | Err e => Err (TxUtxoMissing e)
          | Panic => Panic
          | Ok utxo =>
              match getAddrFunc (u_PkScript utxo) with
              | Ok addr => from_inputs ins' ({[ addr ]} ∪ acc)
              | Err _ => from_inputs ins' ({[ zeroAddress ]} ∪ acc)
              | Panic => Panic
              end
          end
      end
  end.

Fixpoint from_messages (msgs : list Message) (acc : gset Address) : result tx_error (gset Address) :=
  match msgs with
  | [] => Ok acc
  | m :: msgs' =>
      if App m =? APP_PAYMENT then
        let? pay := as_payment m in
        let? acc := from_inputs (Inputs pay) acc in
        from_messages msgs' acc
      else from_messages msgs' acc
  end.

(** The addresses as a set: the source lists the keys of a map in no particular order. *)
Definition GetFromAddrs (tx : Transaction) : result tx_error (gset Address) :=
  from_messages (Messages tx) ∅.

Definition GetRequesterAddr (tx : Transaction) : result tx_error Address :=
  let? msg0 := rget (index (Messages tx) 0) in
  if negb (App msg0 =? APP_PAYMENT) then Err TxNotPayment
  else
    let? pay := as_payment msg0 in
    let? i := rget (index (Inputs pay) 0) in
    match queryUtxoFunc (PreviousOutPoint i) with
    | Err e => Err (TxUtxoMissing e)
    | Panic => Panic
    | Ok utxo =>
        match getAddrFunc (u_PkScript utxo) with
        | Ok a => Ok a
        | Err e => Err (TxUtxoMissing e)
        | Panic => Panic
        end
    end.
End Fee.

(** ** Lemmas *)

Lemma rbind_inv {E A B} (r : result E A) (k : A -> result E B) b :
  rbind r k = Ok b -> exists a, r = Ok a /\ k a = Ok b.
Proof. destruct r; simpl; try done. eauto. Qed.

Lemma mapR_ok {E A B} (f : A -> result E B) (g : A -> B) l :
  (forall a, a ∈ l -> f a = Ok (g a)) -> mapR f l = Ok (map g l).
Proof.
  induction l as [|a l IH]; intros H; [done|]. simpl.
  rewrite H by constructor. simpl. rewrite IH; [done|]. intros; apply H; by constructor.
Qed.

(** A message that the rest of the system builds: its payload has the type of its [App], its
    outputs have assets and its read sets versions. *)
Definition read_versions (rs : list ContractReadSet) : Prop :=
  Forall (fun r => rs_Version r <> None) rs.

Definition kind (p : payload) : MessageType :=
  match p with
  | PayPayment _ => APP_PAYMENT | PayTpl _ => APP_CONTRACT_TPL | PayDeploy _ => APP_CONTRACT_DEPLOY
  | PayInvoke _ => APP_CONTRACT_INVOKE | PayStop _ => APP_CONTRACT_STOP
  | PaySignature _ => APP_SIGNATURE | PayData _ => APP_DATA | PayAccountUpdate _ => APP_ACCOUNT_UPDATE
  | PayTplRequest _ => APP_CONTRACT_TPL_REQUEST | PayDeployRequest _ => APP_CONTRACT_DEPLOY_REQUEST
  | PayInvokeRequest _ => APP_CONTRACT_INVOKE_REQUEST | PayStopRequest _ => APP_CONTRACT_STOP_REQUEST
  end.

Definition complete_payload (p : payload) : Prop :=
  match p with
  | PayPayment p => Forall (fun o => out_Asset o <> None) (Outputs p)
  | PayDeploy p => read_versions (dp_ReadSet p)
  | PayInvoke p => read_versions (iv_ReadSet p)
  | PayStop p => read_versions (st_ReadSet p)
  | _ => True
  end.

Definition complete (m : Message) : Prop :=
  exists p, Payload m = Some p /\ App m = kind p /\ complete_payload p.

Lemma CopyInput_id i : CopyInput i = i.
Proof. destruct i as [s e [[]|]]; done. Qed.

Lemma copy_outputs {E} outs : Forall (fun o => out_Asset o <> None) outs ->
  mapR (E := E) CopyOutput outs = Ok outs.
Proof.
  intros F. rewrite (mapR_ok _ (fun o => o)); [by rewrite map_id|].
  intros o Ho. rewrite Forall_forall in F. specialize (F o Ho).
  destruct o as [v s [[]|]]; done.
Qed.

Lemma copy_reads {E} rs : read_versions rs -> mapR (E := E) CopyReadSet rs = Ok rs.
Proof.
  intros F. rewrite (mapR_ok _ (fun r => r)); [by rewrite map_id|].
  intros r Hr. unfold read_versions in F. rewrite Forall_forall in F. specialize (F r Hr).
  destruct r as [k [v|] c]; done.
Qed.

Lemma copy_invoke_reads rs : read_versions rs -> map CopyInvokeReadSet rs = rs.
Proof.
  induction 1 as [|r rs H _ IH]; [done|]. simpl. rewrite IH. destruct r as [k [v|] c]; done.
Qed.

Lemma CopyMessage_id {E} m : complete m -> CopyMessage (E := E) m = Ok m.
Proof.
  intros (p & P & A & C). destruct m as [app pl]; simpl in *; subst. unfold CopyMessage; simpl.
  destruct p; try done; unfold CopyPayload; simpl in *.
  - rewrite copy_outputs by done. simpl.
    rewrite (map_ext _ (fun i => i)), map_id by apply CopyInput_id. by destruct p.
  - rewrite copy_reads by done. simpl. by destruct p.
  - rewrite copy_invoke_reads by done. by destruct p.
  - rewrite copy_reads by done. simpl. by destruct p.
Qed.

Lemma TxMessages_id {E} tx : Forall complete (Messages tx) -> TxMessages (E := E) tx = Ok (Messages tx).
Proof.
  intros F. unfold TxMessages. rewrite (mapR_ok _ (fun m => m)); [by rewrite map_id|].
  intros m Hm. rewrite Forall_forall in F. now apply CopyMessage_id, F.
Qed.

(** *** Encoding *)

Section RlpLemmas.
Context {L : RlpLib} {LL : RlpLaws L}.

(** An input whose previous output is not at the zero hash, which the wire form uses for nil. *)
Definition wire_input (i : Input) : Prop :=
  match PreviousOutPoint i with Some o => TxHash o <> zeroHash | None => True end.

Definition encodable_payload (p : payload) : Prop :=
  match p with
  | PayPayment p => Forall wire_input (Inputs p) /\ encodable c_payment (flatten_payment p)
  | PayTpl p => encodable c_tpl p
  | PayDeploy p =>
      if IsSystemContractId (dp_ContractId p)
      then JuryCount (dp_EleNode p) = 0 /\ dp_DuringTime p = 0 /\ encodable c_deploy_v1 (deploy_v1 p)
      else encodable c_deploy p
  | PayInvoke p => encodable c_invoke p
  | PayStop p => encodable c_stop p
  | PaySignature p => encodable c_signature p
  | PayData p => encodable c_data p
  | PayAccountUpdate p => encodable c_account p
  | PayTplRequest p => encodable c_tpl_req p
  | PayDeployRequest p => encodable c_deploy_req p
  | PayInvokeRequest p => encodable c_invoke_req p
  | PayStopRequest p => encodable c_stop_req p
  end.

Definition encodable_message (m : Message) : Prop :=
  exists p, Payload m = Some p /\ App m = kind p /\ encodable_payload p.

(** What the wire form can carry. *)
Definition encodable_tx (d : transaction_sdw) : Prop :=
  Forall encodable_message (sdw_TxMessages d) /\
  forall t, tx2Temp d = Ok t -> encodable c_tx t.

Lemma unflatten_flatten_input i : wire_input i -> unflatten_input (flatten_input i) = i.
Proof.
  unfold wire_input, unflatten_input, flatten_input, EmptyHash, bytes_equal.
  destruct i as [s e [[h m o]|]]; simpl; intros H.
  - case_bool_decide; done.
  - reflexivity.
Qed.

Lemma unflatten_flatten p : Forall wire_input (Inputs p) -> unflatten_payment (flatten_payment p) = p.
Proof.
  intros F. unfold unflatten_payment, flatten_payment; simpl. rewrite map_map.
  destruct p as [ins outs lt]; simpl in *. f_equal.
  induction F as [|i ins H _ IH]; [done|]. simpl. by rewrite unflatten_flatten_input, IH.
Qed.

Lemma deploy_roundtrip p : encodable_payload (PayDeploy p) ->
  exists b, enc_deploy p = Ok b /\ dec_deploy b = Ok p.
Proof.
  simpl. unfold enc_deploy, dec_deploy. destruct (IsSystemContractId (dp_ContractId p)); intros H.
  - destruct H as (J & T & H). destruct (ok_deploy_v1 _ H) as (b & E & D). exists b. split; [done|].
    destruct (v1_not_v2 _ _ E) as [e ->]. rewrite D. destruct p as [? ? ? ? [] ? ? ? ?]; simpl in *. by subst.
  - destruct (ok_deploy _ H) as (b & E & D). exists b. by rewrite D.
Qed.

Lemma payload_roundtrip p : encodable_payload p ->
  exists b, enc_payload (Some p) = Ok b /\ dec_payload (kind p) b = Ok (Some p).
Proof.
  destruct p as [p|p|p|p|p|p|p|p|p|p|p|p]; simpl; intros H; unfold dec_payload; simpl.
  1: { destruct H as [W H]. destruct (ok_payment _ H) as (b & E & D). exists b.
       rewrite E, D. simpl. by rewrite unflatten_flatten. }
  2: { destruct (deploy_roundtrip _ H) as (b & E & D). exists b. by rewrite E, D. }
  all: first [ destruct (ok_tpl _ H) as (b & E & D) | destruct (ok_invoke _ H) as (b & E & D)
    | destruct (ok_stop _ H) as (b & E & D) | destruct (ok_signature _ H) as (b & E & D)
    | destruct (ok_data _ H) as (b & E & D) | destruct (ok_account _ H) as (b & E & D)
    | destruct (ok_tpl_req _ H) as (b & E & D) | destruct (ok_deploy_req _ H) as (b & E & D)
    | destruct (ok_invoke_req _ H) as (b & E & D) | destruct (ok_stop_req _ H) as (b & E & D) ];
    exists b; rewrite E, D; done.
Qed.

Lemma messages_roundtrip msgs : Forall encodable_message msgs ->
  exists ts,
    mapR (fun m => let? data := enc_payload (Payload m) in Ok (mkMessageTemp (App m) data)) msgs = Ok ts /\
    mapR (fun m => let? p := dec_payload (mt_App m) (mt_Data m) in Ok (mkMessage (mt_App m) p)) ts = Ok msgs.
Proof.
  induction 1 as [|m msgs (p & P & A & H) _ (ts & E & D)]; [by exists []|].
  destruct (payload_roundtrip p H) as (b & Ep & Dp).
  exists (mkMessageTemp (App m) b :: ts). simpl. rewrite P, Ep. simpl. rewrite E. simpl.
  split; [done|]. rewrite A, Dp. simpl. rewrite D. simpl. do 2 f_equal. destruct m; simpl in *; congruence.
Qed.

Lemma rlp_roundtrip_data d : encodable_tx d -> exists b, EncodeRLP d = Ok b /\ DecodeRLP b = Ok d.
Proof.
  intros [F C]. destruct (messages_roundtrip _ F) as (ts & E & D).
  assert (T : tx2Temp d = Ok (mkTransactionTemp ts (sdw_CertId d) (sdw_Illegal d))).
  { unfold tx2Temp. now rewrite E. }
  destruct (ok_tx _ (C _ T)) as (b & Eb & Db). exists b.
  unfold EncodeRLP, DecodeRLP. rewrite T. simpl. rewrite Eb, Db. split; [done|]. simpl.
  unfold temp2Tx; simpl. rewrite D. simpl. by destruct d.
Qed.

Lemma EncodeRLP_inj d1 d2 b : encodable_tx d1 -> encodable_tx d2 ->
  EncodeRLP d1 = Ok b -> EncodeRLP d2 = Ok b -> d1 = d2.
Proof.
  intros H1 H2 E1 E2. destruct (rlp_roundtrip_data d1 H1) as (b1 & E1' & D1).
  destruct (rlp_roundtrip_data d2 H2) as (b2 & E2' & D2). congruence.
Qed.

Lemma Clone_data tx : encodable_tx (txdata tx) -> Clone tx = Ok (new_tx (txdata tx)).
Proof.
  intros H. unfold Clone. destruct (rlp_roundtrip_data _ H) as (b & -> & ->). done.
Qed.
End RlpLemmas.
