(* ===== verification/RlpModel.v ===== *)
(** A concrete RLP library: the interface [RlpLib] of Tx.v has an instance that meets [RlpLaws]
    for all values.  Every wire type is countable, and a value is encoded as the binary digits of
    its number, one byte for each.  It is not the RLP format; it shows that the laws can hold, and
    the witnesses of the theorems that assume them run on it. *)

From Stdlib Require Import ZArith Lia.
From S2P Require Import Prelude Address Tx.

#[global] Instance Asset_eq_dec : EqDecision Asset.
Proof. solve_decision. Defined.
#[global] Program Instance Asset_countable : Countable Asset :=
  inj_countable' (fun r => (AssetId r, UniqueId r)) (fun t => let '(a, b) := t in mkAsset a b) _.
Next Obligation. by intros []. Qed.

#[global] Instance Output_eq_dec : EqDecision Output.
Proof. solve_decision. Defined.
#[global] Program Instance Output_countable : Countable Output :=
  inj_countable' (fun r => (Value r, PkScript r, out_Asset r)) (fun t => let '(a, b, c) := t in mkOutput a b c) _.
Next Obligation. by intros []. Qed.

#[global] Instance inputTemp_eq_dec : EqDecision inputTemp.
Proof. solve_decision. Defined.
#[global] Program Instance inputTemp_countable : Countable inputTemp :=
  inj_countable' (fun r => (it_SignatureScript r, it_Extra r, it_TxHash r, it_MessageIndex r, it_OutIndex r)) (fun t => let '(a, b, c, d, e) := t in mkInputTemp a b c d e) _.
Next Obligation. by intros []. Qed.

#[global] Instance paymentTemp_eq_dec : EqDecision paymentTemp.
Proof. solve_decision. Defined.
#[global] Program Instance paymentTemp_countable : Countable paymentTemp :=
  inj_countable' (fun r => (pt_Inputs r, pt_Outputs r, pt_LockTime r)) (fun t => let '(a, b, c) := t in mkPaymentTemp a b c) _.
Next Obligation. by intros []. Qed.

#[global] Instance ChainIndex_eq_dec : EqDecision ChainIndex.
Proof. solve_decision. Defined.
#[global] Program Instance ChainIndex_countable : Countable ChainIndex :=
  inj_countable' (fun r => (ci_AssetID r, ci_Index r)) (fun t => let '(a, b) := t in mkChainIndex a b) _.
Next Obligation. by intros []. Qed.

#[global] Instance StateVersion_eq_dec : EqDecision StateVersion.
Proof. solve_decision. Defined.
#[global] Program Instance StateVersion_countable : Countable StateVersion :=
  inj_countable' (fun r => (Height r, TxIndex r)) (fun t => let '(a, b) := t in mkVersion a b) _.
Next Obligation. by intros []. Qed.

#[global] Instance ContractReadSet_eq_dec : EqDecision ContractReadSet.
Proof. solve_decision. Defined.
#[global] Program Instance ContractReadSet_countable : Countable ContractReadSet :=
  inj_countable' (fun r => (rs_Key r, rs_Version r, rs_ContractId r)) (fun t => let '(a, b, c) := t in mkReadSet a b c) _.
Next Obligation. by intros []. Qed.

#[global] Instance ContractWriteSet_eq_dec : EqDecision ContractWriteSet.
Proof. solve_decision. Defined.
#[global] Program Instance ContractWriteSet_countable : Countable ContractWriteSet :=
  inj_countable' (fun r => (ws_IsDelete r, ws_Key r, ws_Value r, ws_ContractId r)) (fun t => let '(a, b, c, d) := t in mkWriteSet a b c d) _.
Next Obligation. by intros []. Qed.

#[global] Instance ContractError_eq_dec : EqDecision ContractError.
Proof. solve_decision. Defined.
#[global] Program Instance ContractError_countable : Countable ContractError :=
  inj_countable' (fun r => (Code r, ErrMessage r)) (fun t => let '(a, b) := t in mkContractError a b) _.
Next Obligation. by intros []. Qed.

#[global] Instance ElectionInf_eq_dec : EqDecision ElectionInf.
Proof. solve_decision. Defined.
#[global] Program Instance ElectionInf_countable : Countable ElectionInf :=
  inj_countable' (fun r => (EType r, el_AddrHash r, Proof r, el_PublicKey r)) (fun t => let '(a, b, c, d) := t in mkElectionInf a b c d) _.
Next Obligation. by intros []. Qed.

#[global] Instance ElectionNode_eq_dec : EqDecision ElectionNode.
Proof. solve_decision. Defined.
#[global] Program Instance ElectionNode_countable : Countable ElectionNode :=
  inj_countable' (fun r => (JuryCount r, EleList r)) (fun t => let '(a, b) := t in mkElectionNode a b) _.
Next Obligation. by intros []. Qed.

#[global] Instance ContractInstallRequestPayload_eq_dec : EqDecision ContractInstallRequestPayload.
Proof. solve_decision. Defined.
#[global] Program Instance ContractInstallRequestPayload_countable : Countable ContractInstallRequestPayload :=
  inj_countable' (fun r => (TplName r, TplDescription r, Path r, ir_Version r, Abi r, Language r, ir_AddrHash r, Creator r)) (fun t => let '(a, b, c, d, e, f, g, h) := t in mkInstallReq a b c d e f g h) _.
Next Obligation. by intros []. Qed.

#[global] Instance ContractTplPayload_eq_dec : EqDecision ContractTplPayload.
Proof. solve_decision. Defined.
#[global] Program Instance ContractTplPayload_countable : Countable ContractTplPayload :=
  inj_countable' (fun r => (tpl_TemplateId r, tpl_Size r, ByteCode r, tpl_ErrMsg r)) (fun t => let '(a, b, c, d) := t in mkTpl a b c d) _.
Next Obligation. by intros []. Qed.

#[global] Instance ContractDeployRequestPayload_eq_dec : EqDecision ContractDeployRequestPayload.
Proof. solve_decision. Defined.
#[global] Program Instance ContractDeployRequestPayload_countable : Countable ContractDeployRequestPayload :=
  inj_countable' (fun r => (dr_TemplateId r, dr_Args r, dr_ExtData r, dr_Timeout r)) (fun t => let '(a, b, c, d) := t in mkDeployReq a b c d) _.
Next Obligation. by intros []. Qed.

#[global] Instance ContractDeployPayload_eq_dec : EqDecision ContractDeployPayload.
Proof. solve_decision. Defined.
#[global] Program Instance ContractDeployPayload_countable : Countable ContractDeployPayload :=
  inj_countable' (fun r => (dp_TemplateId r, dp_ContractId r, dp_Name r, dp_Args r, dp_EleNode r, dp_ReadSet r, dp_WriteSet r, dp_DuringTime r, dp_ErrMsg r)) (fun t => let '(a, b, c, d, e, f, g, h, i) := t in mkDeploy a b c d e f g h i) _.
Next Obligation. by intros []. Qed.

#[global] Instance ContractInvokeRequestPayload_eq_dec : EqDecision ContractInvokeRequestPayload.
Proof. solve_decision. Defined.
#[global] Program Instance ContractInvokeRequestPayload_countable : Countable ContractInvokeRequestPayload :=
  inj_countable' (fun r => (vr_ContractId r, vr_Args r, vr_Timeout r)) (fun t => let '(a, b, c) := t in mkInvokeReq a b c) _.
Next Obligation. by intros []. Qed.

#[global] Instance ContractInvokePayload_eq_dec : EqDecision ContractInvokePayload.
Proof. solve_decision. Defined.
#[global] Program Instance ContractInvokePayload_countable : Countable ContractInvokePayload :=
  inj_countable' (fun r => (iv_ContractId r, iv_Args r, iv_ReadSet r, iv_WriteSet r, iv_Payload r, iv_ErrMsg r)) (fun t => let '(a, b, c, d, e, f) := t in mkInvoke a b c d e f) _.
Next Obligation. by intros []. Qed.

#[global] Instance ContractStopRequestPayload_eq_dec : EqDecision ContractStopRequestPayload.
Proof. solve_decision. Defined.
#[global] Program Instance ContractStopRequestPayload_countable : Countable ContractStopRequestPayload :=
  inj_countable' (fun r => (sr_ContractId r, sr_Txid r, sr_DeleteImage r)) (fun t => let '(a, b, c) := t in mkStopReq a b c) _.
Next Obligation. by intros []. Qed.

#[global] Instance ContractStopPayload_eq_dec : EqDecision ContractStopPayload.
Proof. solve_decision. Defined.
#[global] Program Instance ContractStopPayload_countable : Countable ContractStopPayload :=
  inj_countable' (fun r => (st_ContractId r, st_ReadSet r, st_WriteSet r, st_ErrMsg r)) (fun t => let '(a, b, c, d) := t in mkStop a b c d) _.
Next Obligation. by intros []. Qed.

#[global] Instance SignatureSet_eq_dec : EqDecision SignatureSet.
Proof. solve_decision. Defined.
#[global] Program Instance SignatureSet_countable : Countable SignatureSet :=
  inj_countable' (fun r => (ss_PubKey r, ss_Signature r)) (fun t => let '(a, b) := t in mkSignatureSet a b) _.
Next Obligation. by intros []. Qed.

#[global] Instance SignaturePayload_eq_dec : EqDecision SignaturePayload.
Proof. solve_decision. Defined.
#[global] Program Instance SignaturePayload_countable : Countable SignaturePayload :=
  inj_countable' (fun r => Signatures r) (fun t => mkSignature t) _.
Next Obligation. by intros []. Qed.

#[global] Instance DataPayload_eq_dec : EqDecision DataPayload.
Proof. solve_decision. Defined.
#[global] Program Instance DataPayload_countable : Countable DataPayload :=
  inj_countable' (fun r => (MainData r, ExtraData r, Reference r)) (fun t => let '(a, b, c) := t in mkData a b c) _.
Next Obligation. by intros []. Qed.

#[global] Instance AccountStateWriteSet_eq_dec : EqDecision AccountStateWriteSet.
Proof. solve_decision. Defined.
#[global] Program Instance AccountStateWriteSet_countable : Countable AccountStateWriteSet :=
  inj_countable' (fun r => (as_IsDelete r, as_Key r, as_Value r)) (fun t => let '(a, b, c) := t in mkAccountWrite a b c) _.
Next Obligation. by intros []. Qed.

#[global] Instance AccountStateUpdatePayload_eq_dec : EqDecision AccountStateUpdatePayload.
Proof. solve_decision. Defined.
#[global] Program Instance AccountStateUpdatePayload_countable : Countable AccountStateUpdatePayload :=
  inj_countable' (fun r => au_WriteSet r) (fun t => mkAccountUpdate t) _.
Next Obligation. by intros []. Qed.

#[global] Instance messageTemp_eq_dec : EqDecision messageTemp.
Proof. solve_decision. Defined.
#[global] Program Instance messageTemp_countable : Countable messageTemp :=
  inj_countable' (fun r => (mt_App r, mt_Data r)) (fun t => let '(a, b) := t in mkMessageTemp a b) _.
Next Obligation. by intros []. Qed.

#[global] Instance transactionTemp_eq_dec : EqDecision transactionTemp.
Proof. solve_decision. Defined.
#[global] Program Instance transactionTemp_countable : Countable transactionTemp :=
  inj_countable' (fun r => (tt_TxMessages r, tt_CertId r, tt_Illegal r)) (fun t => let '(a, b, c) := t in mkTransactionTemp a b c) _.
Next Obligation. by intros []. Qed.

#[global] Instance ContractDeployPayloadV1_eq_dec : EqDecision ContractDeployPayloadV1.
Proof. solve_decision. Defined.
#[global] Program Instance ContractDeployPayloadV1_countable : Countable ContractDeployPayloadV1 :=
  inj_countable' (fun r => (d1_TemplateId r, d1_ContractId r, d1_Name r, d1_Args r, d1_EleList r, d1_ReadSet r, d1_WriteSet r, d1_ErrMsg r)) (fun t => let '(a, b, c, d, e, f, g, h) := t in mkDeployV1 a b c d e f g h) _.
Next Obligation. by intros []. Qed.

(** The digits of a positive number. *)
Fixpoint digits (p : positive) : bytes :=
  match p with
  | xH => []
  | xO p' => x00 :: digits p'
  | xI p' => x01 :: digits p'
  end.
Fixpoint undigits (l : bytes) : positive :=
  match l with
  | [] => xH
  | b :: l' => if beq b x00 then xO (undigits l') else xI (undigits l')
  end.

Lemma undigits_digits p : undigits (digits p) = p.
Proof. induction p as [p IH|p IH|]; simpl; rewrite ?IH; done. Qed.

Definition digit_codec (A : Type) `{Countable A} : Codec A :=
  mkCodec (fun a => Ok (digits (encode a)))
    (fun b => match decode (undigits b) with
              | Some a => if bytes_equal (digits (encode a)) b then Ok a else Err (TxRlp "invalid")
              | None => Err (TxRlp "invalid")
              end)
    (fun _ => True).

Lemma digit_codec_ok A `{Countable A} : codec_ok (digit_codec A).
Proof.
  intros a _. exists (digits (encode a)). split; [done|]. simpl.
  rewrite undigits_digits, decode_encode. unfold bytes_equal.
  now rewrite bool_decide_eq_true_2.
Qed.

(** A codec with a mark in front, which tells the two wire forms of a deploy result apart. *)
Definition marked (mark : byte) {A} (c : Codec A) : Codec A :=
  mkCodec (fun a => let? b := enc c a in Ok (mark :: b))
    (fun b => match b with
              | x :: b' => if beq x mark then dec c b' else Err (TxRlp "mark")
              | [] => Err (TxRlp "mark")
              end)
    (encodable c).

Lemma marked_ok mark A (c : Codec A) : codec_ok c -> codec_ok (marked mark c).
Proof.
  intros H a Ha. destruct (H a Ha) as (b & E & D). exists (mark :: b). simpl. rewrite E. simpl.
  rewrite beq_refl. done.
Qed.

Definition digit_lib : RlpLib := {|
  c_payment := digit_codec _; c_tpl := digit_codec _; c_deploy := marked x02 (digit_codec _);
  c_deploy_v1 := marked x01 (digit_codec _); c_invoke := digit_codec _; c_stop := digit_codec _;
  c_signature := digit_codec _; c_data := digit_codec _; c_account := digit_codec _;
  c_tpl_req := digit_codec _; c_deploy_req := digit_codec _; c_invoke_req := digit_codec _;
  c_stop_req := digit_codec _; c_tx := digit_codec _
|}.

#[global] Instance digit_laws : RlpLaws digit_lib.
Proof.
  constructor; try apply digit_codec_ok; try apply marked_ok, digit_codec_ok.
  intros t b E. simpl in E. inversion E; subst. by eexists.
Qed.

(** A codec that knows the values of a table: a value is encoded by its place. *)
Definition table_codec {A} `{EqDecision A} (l : list A) : Codec A :=
  mkCodec (fun a => match list_find (fun b => a = b) l with Some (i, _) => Ok (replicate i x01) | None => Err (TxRlp "unknown") end)
    (fun b => match l !! length b with Some a => Ok a | None => Err (TxRlp "unknown") end)
    (fun a => a ∈ l).

Lemma table_codec_ok {A} `{EqDecision A} (l : list A) : codec_ok (table_codec l).
Proof.
  intros a I. cbn [encodable enc dec table_codec] in *. destruct (list_find_elem_of (fun b => a = b) l a I eq_refl) as ([i b] & E).
  rewrite E. exists (replicate i x01). split; [done|]. apply list_find_Some in E as (L & <- & _). by rewrite length_replicate, L.
Qed.
