(* ===== verification/AssetId.v ===== *)
(** Assets: src/dag/modules/{assetId,uniqueId,asset}.go.

    An asset identifier packs a symbol, a type, a number of decimals, the kind of unique
    identifiers and the first 11 bytes of the request that created it into 16 bytes.  An [AssetId]
    and a [UniqueId] are Go arrays, here lists of length 16.  A slice out of range is a panic. *)

From Stdlib Require Import ZArith Lia Ascii.
From S2P Require Import Prelude Opcode Text Tx.

Inductive asset_error :=
| ErrSymbolLength | ErrDecimal | ErrRequestId | ErrUuidLength | ErrUuidFormat | ErrHex | ErrUniqueIdType | ErrAssetLength.

Abbreviation res := (result asset_error).

Definition ID_LENGTH : Z := 16.
Definition AssetType_FungibleToken : byte := x00.
Definition AssetType_NonFungibleToken : byte := x01.
Definition AssetType_VoteToken : byte := x02.
Definition UniqueIdType_Null : byte := x00.
Definition UniqueIdType_Sequence : byte := x01.
Definition UniqueIdType_Uuid : byte := x02.
Definition UniqueIdType_UserDefine : byte := x03.
Definition UniqueIdType_Ascii : byte := x04.

Definition ZeroIdType16 : bytes := replicate 16 x00.
Definition ZeroUniqueId : bytes := replicate 16 x00.

(** [bitutil.IsZero] *)
Definition IsZero (b : bytes) : bool := forallb (beq x00) b.

(** [SetBytes] of both: the last 16 bytes, aligned to the end; the bytes before are kept. *)
Definition SetBytes (it b : bytes) : bytes :=
  let b := if ID_LENGTH <? len b then slice b (len b - ID_LENGTH) (len b) else b in
  slice it 0 (ID_LENGTH - len b) ++ b.

(** ** Asset identifiers *)

Definition NewAssetId (symbol : string) (assetType decimal : byte) (requestId : bytes) (uniqueIdType : byte) : res bytes :=
  if (5 <? Z.of_nat (String.length symbol)) || (Z.of_nat (String.length symbol) =? 0) then Err ErrSymbolLength
  else if 18 <? b2z decimal then Err ErrDecimal
  else if len requestId <? 11 then Err ErrRequestId
  else
    let assetSymbol := DecodeToBytes symbol in
    if 4 <? len assetSymbol then Panic
    else
      let head := replicate (4 - length assetSymbol) x00 ++ assetSymbol in
      let firstByte := Z.lor (first_byte head) (b2z (z2b (Z.shiftl (len assetSymbol) 5))) in
      let firstByte := Z.lor firstByte (b2z (z2b (Z.shiftl (b2z assetType) 2))) in
      Ok (z2b firstByte :: slice head 1 4 ++
          z2b (Z.lor (b2z (z2b (Z.shiftl (b2z uniqueIdType) 5))) (b2z decimal)) :: slice requestId 0 11).

(** [len := assetId0 >> 5] and [assetId[4-len : 4]], computed in bytes *)
Definition GetSymbol (id : bytes) : res string :=
  let assetId0 := first_byte id in
  let len_ := Z.shiftr assetId0 5 in
  if 4 <? len_ then Panic
  else Ok (EncodeBytes (slice (z2b (Z.land assetId0 3) :: slice id 1 (len id)) (4 - len_) 4)).
Definition GetAssetType (id : bytes) : byte := z2b (Z.shiftr (Z.land (first_byte id) 0xc) 2).
Definition fourth (id : bytes) : Z := match index id 4 with Some b => b2z b | None => 0 end.
Definition GetDecimal (id : bytes) : byte := z2b (Z.land (fourth id) 0x1f).

Definition ParseAssetId (id : bytes) : res (string * byte * byte * bytes * byte) :=
  let? symbol := GetSymbol id in
  Ok (symbol, GetAssetType id, GetDecimal id, slice id 5 16, z2b (Z.shiftr (fourth id) 5)).

Definition AssetId_String (it : bytes) : res string :=
  if bytes_equal it PTNCOIN then Ok "PTN"%string
  else
    let? (symbol, assetType, decimal, txHash, uidType) := ParseAssetId it in
    if IsZero txHash && beq assetType AssetType_FungibleToken && (b2z decimal =? 8) then Ok symbol
    else
      let type2 := z2b (Z.lor (Z.shiftl (b2z assetType) 3) (b2z uidType)) in
      Ok (symbol +:+ "+" +:+ EncodeBytes [decimal] +:+ EncodeBytes [type2] +:+ EncodeBytes txHash).

(** [base36.DecodeToBytes(string(c))[0]] *)
Definition first_of (c : ascii) : res byte := rget (index (DecodeToBytes (String c EmptyString)) 0).

Definition String2AssetId (str : string) : res (bytes * byte) :=
  let str := ToUpper str in
  if String.eqb str "PTN" then Ok (PTNCOIN, UniqueIdType_Null)
  else
    match Split "+" str with
    | symbol :: word :: _ =>
        match chars word with
        | d :: t :: rest =>
            let? type2 := first_of t in
            let assetType := z2b (Z.shiftr (b2z type2) 3) in
            let uniqueIdType := z2b (Z.land (b2z type2) 7) in
            let? decimal := first_of d in
            let? assetId := NewAssetId symbol assetType decimal (DecodeToBytes (of_chars rest)) uniqueIdType in
            Ok (assetId, uniqueIdType)
        | _ => Panic
        end
    | symbol :: _ =>
        let? asset := NewAssetId symbol AssetType_FungibleToken x08 (replicate 11 x00) UniqueIdType_Null in
        Ok (asset, UniqueIdType_Null)
    | [] => Panic
    end.

(** ** Unique identifiers *)

Definition FormatUUID (buf : bytes) : string :=
  hex_bytes (slice buf 0 4) +:+ "-" +:+ hex_bytes (slice buf 4 6) +:+ "-" +:+ hex_bytes (slice buf 6 8) +:+ "-" +:+
  hex_bytes (slice buf 8 10) +:+ "-" +:+ hex_bytes (slice buf 10 16).

Definition char_is (l : list ascii) (i : Z) (c : ascii) : bool :=
  match index l i with Some c' => Ascii.eqb c' c | None => false end.

Definition ParseUUID (uuid : string) : res bytes :=
  let l := chars uuid in
  if negb (len l =? 36) then Err ErrUuidLength
  else if negb (char_is l 8 "-" && char_is l 13 "-" && char_is l 18 "-" && char_is l 23 "-") then Err ErrUuidFormat
  else
    match hex_decode (of_chars (slice l 0 8 ++ slice l 9 13 ++ slice l 14 18 ++ slice l 19 23 ++ slice l 24 36)) with
    | (ret, true) => if negb (len ret =? 16) then Err ErrUuidLength else Ok ret
    | (_, false) => Err ErrHex
    end.

(** [string(b)] and [[]byte(s)] *)
Definition text (b : bytes) : string := of_chars (map Ascii.ascii_of_byte b).
Definition raw (s : string) : bytes := map Ascii.byte_of_ascii (chars s).

Definition StringFriendly (it : bytes) (t : byte) : string :=
  if beq t UniqueIdType_Sequence then big_String (big_of_bytes it)
  else if beq t UniqueIdType_Null then ""
  else if beq t UniqueIdType_Uuid then FormatUUID it
  else if beq t UniqueIdType_UserDefine then hex_bytes it
  else if beq t UniqueIdType_Ascii then text it
  else "".

Section Parse.
(** What [SetString] leaves in the number when it fails *)
Variable undefined : string -> Z.

(** The identifier and the error, both of which the callers use. *)
Definition String2UniqueId (str : string) (t : byte) : bytes * option asset_error :=
  let uid := ZeroUniqueId in
  if beq t UniqueIdType_Sequence then
    let i := match SetString0 str with Some i => i | None => undefined str end in
    (SetBytes uid (big_Bytes i), None)
  else if beq t UniqueIdType_Null then (uid, None)
  else if beq t UniqueIdType_Uuid then
    match ParseUUID str with Ok b => (SetBytes uid b, None) | Err e => (uid, Some e) | Panic => (uid, None) end
  else if beq t UniqueIdType_UserDefine then
    let '(b, ok) := hex_decode str in (SetBytes uid b, if ok then None else Some ErrHex)
  else if beq t UniqueIdType_Ascii then (SetBytes uid (raw str), None)
  else (uid, Some ErrUniqueIdType).

(** ** Assets *)

Definition NewAsset (symbol : string) (assetType decimal : byte) (requestId : bytes) (uidType : byte) (uniqueId : bytes) : res Asset :=
  let? assetId := NewAssetId symbol assetType decimal requestId uidType in
  Ok (mkAsset assetId uniqueId).

Definition Asset_String (asset : Asset) : res string :=
  if bytes_equal (AssetId asset) PTNCOIN then Ok "PTN"%string
  else
    let? (_, t, _, _, uidType) := ParseAssetId (AssetId asset) in
    let? assetIdStr := AssetId_String (AssetId asset) in
    if negb (beq t AssetType_NonFungibleToken) then Ok assetIdStr
    else Ok (assetIdStr +:+ "-" +:+ StringFriendly (UniqueId asset) uidType).

(** [strings.Contains(str, "-")] *)
Definition has_dash (str : string) : bool := existsb (Ascii.eqb "-") (chars str).

(** The method changes the asset, and may have changed it before an error. *)
Definition SetString (str : string) : ST Asset asset_error unit :=
  if String.eqb str "PTN" then modify (fun asset => mkAsset PTNCOIN (UniqueId asset))
  else if negb (has_dash str) then
    let! (a, _) := lift (String2AssetId str) in modify (fun asset => mkAsset a (UniqueId asset))
  else
    let! s0 := lift (rget (index (Split "-" str) 0)) in
    let! (a, uniqueIdType) := lift (String2AssetId s0) in
    modify (fun asset => mkAsset a (UniqueId asset)) ;;;
    let uidStr := of_chars (slice (chars str) (Z.of_nat (String.length s0) + 1) (Z.of_nat (String.length str))) in
    let '(uniqueId, err) := String2UniqueId uidStr uniqueIdType in
    match err with
    | Some e => throw e
    | None => modify (fun asset => mkAsset (AssetId asset) uniqueId)
    end.

Definition StringToAsset (str : string) : res Asset :=
  let '(asset, r) := SetString str (mkAsset ZeroIdType16 ZeroUniqueId) in
  let? _ := r in Ok asset.
End Parse.

Definition Asset_SetBytes (asset : Asset) (data : bytes) : res Asset :=
  if negb (len data =? 32) then Err ErrAssetLength
  else Ok (mkAsset (SetBytes (AssetId asset) (slice data 0 16)) (SetBytes (UniqueId asset) (slice data 16 32))).

Definition IsSimilar (asset similar : Asset) : bool :=
  if negb (bytes_equal (AssetId asset) (AssetId similar)) then false
  else if negb (bytes_equal (UniqueId asset) (UniqueId similar)) then false
  else true.

(** ** Packing *)

Lemma pack_first h n t : 0 <= h < 4 -> 0 <= n <= 4 -> 0 <= t < 4 ->
  let fb := Z.lor (Z.lor h (b2z (z2b (Z.shiftl n 5)))) (b2z (z2b (Z.shiftl t 2))) in
  0 <= fb < 256 /\ Z.shiftr fb 5 = n /\ Z.land fb 3 = h /\ Z.shiftr (Z.land fb 12) 2 = t.
Proof.
  intros Hh Hn Ht. assert (h = 0 \/ h = 1 \/ h = 2 \/ h = 3) as [->|[->|[->| ->]]] by lia;
  assert (n = 0 \/ n = 1 \/ n = 2 \/ n = 3 \/ n = 4) as [->|[->|[->|[->| ->]]]] by lia;
  assert (t = 0 \/ t = 1 \/ t = 2 \/ t = 3) as [->|[->|[->| ->]]] by lia; vm_compute; repeat split; congruence.
Qed.

Lemma pack_fourth u d : 0 <= u < 8 -> 0 <= d < 32 ->
  let b := Z.lor (b2z (z2b (Z.shiftl u 5))) d in 0 <= b < 256 /\ Z.land b 31 = d /\ Z.shiftr b 5 = u.
Proof.
  intros Hu Hd. cbv zeta. rewrite b2z_z2b.
  rewrite (Z.mod_small (Z.shiftl u 5)) by (rewrite Z.shiftl_mul_pow2 by lia; lia).
  rewrite Z.lor_comm, lor_shiftl_add by lia. change (2 ^ 5) with 32.
  split; [lia|]. change 31 with (Z.ones 5). rewrite Z.land_ones, Z.shiftr_div_pow2 by lia. change (2 ^ 5) with 32.
  split; [rewrite Z.mod_add by lia; by apply Z.mod_small|]. rewrite Z.div_add by lia. rewrite Z.div_small by lia. lia.
Qed.

(** The first byte of four is the top of the number. *)
Lemma big_of_four a b c d : big_of_bytes [a; b; c; d] = ((b2z a * 256 + b2z b) * 256 + b2z c) * 256 + b2z d.
Proof. unfold big_of_bytes. cbn [map from_base]. lia. Qed.

(** What [NewAssetId] accepts: a symbol of one to five capitals and digits that fits 4 bytes, a
    type of two bits, the decimals, a kind of three bits. *)
Definition asset_fields (symbol : string) (assetType decimal : byte) (requestId : bytes) (uidType : byte) : Prop :=
  1 <= Z.of_nat (String.length symbol) <= 5 /\ base36_text symbol /\ len (DecodeToBytes symbol) <= 4 /\
  b2z assetType < 4 /\ b2z decimal <= 18 /\ 11 <= len requestId /\ b2z uidType < 8.

Lemma symbol_value symbol : Z.of_nat (String.length symbol) <= 5 -> 0 <= big_of_bytes (DecodeToBytes symbol) < 36 ^ 5.
Proof.
  intros L. unfold DecodeToBytes. destruct (mapM char_digit (chars symbol)) as [ds|] eqn:M; [|vm_compute; split; congruence].
  apply mapM_digits_inv in M as [C F]. rewrite big_of_zeros. unfold big_of_bytes, big_Bytes.
  pose proof (from_base_bound 36 ds ltac:(lia) F) as B.
  destruct (to_base_spec 256 (Z.abs (from_base 36 0 ds)) ltac:(lia) ltac:(lia)) as (F' & V & _).
  rewrite map_b2z_z2b, V by done. rewrite Z.abs_eq by lia. split; [lia|].
  apply Z.lt_le_trans with (36 ^ len ds); [lia|]. apply Z.pow_le_mono_r; [lia|].
  apply (f_equal length) in C. rewrite length_chars, length_map in C. unfold len. lia.
Qed.

(** The four bytes of the symbol *)
Lemma symbol_head symbol : Z.of_nat (String.length symbol) <= 5 -> len (DecodeToBytes symbol) <= 4 ->
  exists h0 h1 h2 h3, replicate (4 - length (DecodeToBytes symbol)) x00 ++ DecodeToBytes symbol = [h0; h1; h2; h3] /\ 0 <= b2z h0 < 4.
Proof.
  intros L Le. pose proof (symbol_value symbol L) as V. set (sym := DecodeToBytes symbol) in *. unfold len in Le.
  assert (Lh : length (replicate (4 - length sym) x00 ++ sym) = 4%nat) by (rewrite length_app, length_replicate; lia).
  rewrite <- (big_of_zeros (4 - length sym)) in V. destruct (replicate _ _ ++ sym) as [|h0 [|h1 [|h2 [|h3 [|]]]]]; try discriminate Lh.
  exists h0, h1, h2, h3. split; [done|]. rewrite big_of_four in V.
  pose proof (b2z_range h0); pose proof (b2z_range h1); pose proof (b2z_range h2); pose proof (b2z_range h3). lia.
Qed.

Lemma NewAssetId_parse symbol assetType decimal requestId uidType :
  asset_fields symbol assetType decimal requestId uidType ->
  exists id, NewAssetId symbol assetType decimal requestId uidType = Ok id /\ len id = 16 /\
    ParseAssetId id = Ok (symbol, assetType, decimal, slice requestId 0 11, uidType).
Proof.
  intros (Ls & Bs & Lb & Ht & Hd & Lr & Hu). unfold NewAssetId.
  replace ((5 <? Z.of_nat (String.length symbol)) || (Z.of_nat (String.length symbol) =? 0)) with false by (bdestruct; done).
  rewrite !(proj2 (Z.ltb_ge _ _)) by lia.
  destruct (symbol_head symbol ltac:(lia) Lb) as (h0 & h1 & h2 & h3 & Eh & Hh). rewrite Eh. set (sym := DecodeToBytes symbol) in *.
  pose proof (b2z_range assetType). pose proof (b2z_range decimal). pose proof (b2z_range uidType). pose proof (len_nonneg sym).
  destruct (pack_first (b2z h0) (len sym) (b2z assetType)) as (Rf & Fn & Fh & Ft); [lia..|].
  destruct (pack_fourth (b2z uidType) (b2z decimal)) as (R4 & Fd & Fu); [lia..|].
  change (first_byte [h0; h1; h2; h3]) with (b2z h0). change (slice [h0; h1; h2; h3] 1 4) with [h1; h2; h3]. cbn [app].
  set (f0 := z2b (Z.lor (Z.lor (b2z h0) _) _)). set (f4 := z2b (Z.lor _ (b2z decimal))).
  assert (E0 : b2z f0 = Z.lor (Z.lor (b2z h0) (b2z (z2b (Z.shiftl (len sym) 5)))) (b2z (z2b (Z.shiftl (b2z assetType) 2))))
    by (unfold f0; rewrite b2z_z2b; by apply Z.mod_small).
  assert (E4 : b2z f4 = Z.lor (b2z (z2b (Z.shiftl (b2z uidType) 5))) (b2z decimal)) by (unfold f4; rewrite b2z_z2b; by apply Z.mod_small).
  set (r := slice requestId 0 11).
  assert (Lr' : len r = 11) by (unfold r, slice, len in *; rewrite length_take, length_drop; lia).
  eexists. split; [reflexivity|]. split; [rewrite !len_cons; lia|].
  unfold ParseAssetId, GetSymbol, GetAssetType, GetDecimal, fourth.
  change (first_byte (f0 :: h1 :: h2 :: h3 :: f4 :: r)) with (b2z f0).
  change (index (f0 :: h1 :: h2 :: h3 :: f4 :: r) 4) with (Some f4). cbv iota beta.
  rewrite E0, E4, Fn, Fh, Ft, Fd, Fu. rewrite (proj2 (Z.ltb_ge 4 _)) by lia. cbn [rbind]. rewrite !z2b_b2z.
  change (f0 :: h1 :: h2 :: h3 :: f4 :: r) with ([f0] ++ [h1; h2; h3; f4] ++ r) at 1.
  rewrite (slice_suffix [f0] ([h1; h2; h3; f4] ++ r)) by (unfold len; simpl; lia). cbn [app].
  change (h0 :: h1 :: h2 :: h3 :: f4 :: r) with ([h0; h1; h2; h3] ++ (f4 :: r)). rewrite <- Eh, <- app_assoc.
  rewrite slice_app by (rewrite ?(len_app); unfold len; rewrite length_replicate; unfold len in Lb; lia).
  change (f0 :: h1 :: h2 :: h3 :: f4 :: r) with ([f0; h1; h2; h3; f4] ++ r).
  rewrite (slice_suffix [f0; h1; h2; h3; f4] r) by (unfold len in *; simpl; lia). unfold sym. by rewrite base36_encode.
Qed.

(** ** Texts *)

Lemma NewAssetId_request symbol assetType decimal requestId uidType :
  11 <= len requestId ->
  NewAssetId symbol assetType decimal (slice requestId 0 11) uidType = NewAssetId symbol assetType decimal requestId uidType.
Proof.
  intros L. unfold NewAssetId. assert (S : len (slice requestId 0 11) = 11) by (unfold slice, len in *; rewrite length_take, length_drop; lia).
  assert (T : slice (slice requestId 0 11) 0 11 = slice requestId 0 11).
  { unfold slice. rewrite !skipn_O, take_take. f_equal. }
  rewrite S, T. by rewrite (proj2 (Z.ltb_ge (len requestId) 11)) by lia.
Qed.

Lemma pack_type2 t u : b2z t < 4 -> b2z u < 8 ->
  let b := z2b (Z.lor (Z.shiftl (b2z t) 3) (b2z u)) in
  b2z b < 36 /\ z2b (Z.shiftr (b2z b) 3) = t /\ z2b (Z.land (b2z b) 7) = u.
Proof.
  intros Ht Hu. destruct t; try (exfalso; vm_compute in Ht; discriminate Ht); destruct u; try (exfalso; vm_compute in Hu; discriminate Hu);
    vm_compute; repeat split.
Qed.

Lemma first_of_digit b : b2z b < 36 -> first_of (digit_char (b2z b)) = Ok b.
Proof. intros L. unfold first_of. rewrite <- EncodeBytes_digit, base36_decode by done. done. Qed.

(** The text of an identifier names the identifier. *)
Lemma AssetId_text symbol assetType decimal requestId uidType id :
  asset_fields symbol assetType decimal requestId uidType ->
  NewAssetId symbol assetType decimal requestId uidType = Ok id ->
  (IsZero (slice requestId 0 11) && beq assetType AssetType_FungibleToken && (b2z decimal =? 8) = true -> uidType = UniqueIdType_Null) ->
  exists s, AssetId_String id = Ok s /\ String2AssetId s = Ok (id, uidType) /\ free_of "-" s = true.
Proof.
  intros Fl N Short. pose proof Fl as (Ls & Bs & Lb & Ht & Hd & Lr & Hu).
  destruct (NewAssetId_parse _ _ _ _ _ Fl) as (id' & N' & _ & Ps). assert (id' = id) by congruence. subst id'. clear N'.
  unfold AssetId_String, bytes_equal. case_bool_decide as Eq.
  { exists "PTN"%string. subst id. split; [done|]. vm_compute in Ps. injection Ps as _ _ _ _ <-. done. }
  rewrite Ps. cbn [rbind]. pose proof (base36_chars _ Bs) as Cs.
  assert (Fm : forall x, base36_text x -> free_of "-" x = true /\ free_of "+" x = true /\ ToUpper x = x).
  { intros x B. apply base36_chars in B. split_and!; [apply chars_free|apply chars_free|apply ToUpper_id];
      (eapply Forall_impl; [exact B|]; by intros c (? & ? & ?)). }
  destruct (Fm symbol Bs) as (D0 & P0 & U0). destruct (_ && (b2z decimal =? 8)) eqn:Sh.
  - exists symbol. split; [done|]. split; [|done]. rewrite (Short eq_refl) in *.
    apply andb_true_iff in Sh as [Sh D8]. apply andb_true_iff in Sh as [Z T]. apply beq_true in T as ->. apply Z.eqb_eq in D8.
    assert (decimal = x08) as -> by (apply b2z_inj; exact D8).
    assert (R : slice requestId 0 11 = replicate 11 x00).
    { assert (S : length (slice requestId 0 11) = 11%nat) by (unfold slice, len in *; rewrite length_take, length_drop; lia).
      symmetry. apply replicate_as_elem_of. split; [done|]. intros x I. apply forallb_forall with (x := x) in Z; [|by apply list_elem_of_In].
      symmetry. by apply beq_true in Z. }
    unfold String2AssetId. rewrite U0. destruct (String.eqb_spec symbol "PTN") as [->|].
    { exfalso. apply Eq. rewrite <- NewAssetId_request, R in N by done. vm_compute in N. by injection N as <-. }
    rewrite Split_word by done. cbv iota beta. rewrite <- R, NewAssetId_request, N by done. done.
  - destruct (pack_type2 assetType uidType Ht Hu) as (L2 & T2 & U2). set (type2 := z2b _) in *.
    set (tx := slice requestId 0 11) in *.
    assert (Tail : EncodeBytes [decimal] +:+ EncodeBytes [type2] +:+ EncodeBytes tx =
                   String (digit_char (b2z decimal)) (String (digit_char (b2z type2)) (EncodeBytes tx))).
    { rewrite !EncodeBytes_digit by lia. done. }
    assert (Bt : base36_text (String (digit_char (b2z decimal)) (String (digit_char (b2z type2)) (EncodeBytes tx)))).
    { destruct (EncodeBytes_text tx) as (ds & M). exists (b2z decimal :: b2z type2 :: ds).
      change (chars (String ?a (String ?b ?c))) with (a :: b :: chars c). cbn [mapM].
      pose proof (b2z_range decimal). pose proof (b2z_range type2). rewrite !char_digit_char by (split; lia). cbn. by rewrite M. }
    destruct (Fm _ Bt) as (Dt & Pt & Ut). eexists. split; [reflexivity|]. rewrite Tail. split.
    + unfold String2AssetId. 
      assert (Up : ToUpper (symbol +:+ "+" +:+ String (digit_char (b2z decimal)) (String (digit_char (b2z type2)) (EncodeBytes tx))) =
        symbol +:+ String "+" (String (digit_char (b2z decimal)) (String (digit_char (b2z type2)) (EncodeBytes tx)))).
      { apply ToUpper_id. rewrite chars_app. apply Forall_app. split; [eapply Forall_impl; [exact Cs|]; by intros c (? & _)|].
        change (chars ("+" +:+ ?x)) with ("+"%char :: chars x). constructor; [done|].
        eapply Forall_impl; [exact (base36_chars _ Bt)|]; by intros c (? & _). }
      rewrite Up. destruct (String.eqb_spec (symbol +:+ String "+" (String (digit_char (b2z decimal)) (String (digit_char (b2z type2)) (EncodeBytes tx)))) "PTN") as [Q|].
      { exfalso. apply (f_equal (free_of "+")) in Q. rewrite free_of_app in Q. cbn in Q. by rewrite andb_false_r in Q. }
      rewrite Split_first, Split_word by done. cbv iota beta. change (chars (String ?a (String ?b ?c))) with (a :: b :: chars c). cbv iota beta.
      rewrite !first_of_digit by lia. cbn [rbind]. rewrite T2, U2, of_chars_chars, base36_decode. unfold tx. rewrite NewAssetId_request, N by done. done.
    + rewrite !free_of_app, D0, Dt. done.
Qed.

(** ** Unique identifiers and assets *)

Lemma SetBytes_pad uid b n : uid = replicate n x00 ++ b -> len uid = 16 -> SetBytes ZeroUniqueId b = uid.
Proof.
  intros -> L. unfold SetBytes, ID_LENGTH. rewrite len_app in L. assert (Ln : len (replicate n x00) = Z.of_nat n) by (unfold len; by rewrite length_replicate).
  pose proof (len_nonneg b). rewrite (proj2 (Z.ltb_ge _ _)) by lia. f_equal. unfold slice, ZeroUniqueId. rewrite skipn_O, take_replicate.
  f_equal. lia.
Qed.
Lemma SetBytes_all uid : len uid = 16 -> SetBytes ZeroUniqueId uid = uid.
Proof. by apply (SetBytes_pad uid uid 0). Qed.

Lemma digits_below_ten ds : Forall (in_base 10) ds -> ds <> [] -> digits_below 10 (map digit_char ds) = Some ds.
Proof.
  intros F N. unfold digits_below. destruct (map digit_char ds) as [|c l] eqn:E; [by destruct ds|]. rewrite <- E. clear E N c l.
  induction F as [|d ds D F IH]; [done|]. cbn [map mapM].
  assert (Dg : (match char_digit (upper (digit_char d)) with Some d => if d <? 10 then Some d else None | None => None end) = Some d).
  { assert (E : d ∈ seqZ 0 10) by (apply elem_of_seqZ; unfold in_base in D; lia). clear -E. revert d E. apply Forall_forall. repeat constructor. }
  rewrite Dg. simpl. by rewrite IH.
Qed.

Lemma SetString0_String x : 0 <= x -> SetString0 (big_String x) = Some x.
Proof.
  intros X. destruct (to_base_spec 10 x ltac:(lia) X) as (F & V & P). unfold big_String. destruct (to_base 10 x) as [|d ds] eqn:E.
  { simpl in V. subst x. reflexivity. }
  specialize (P d ds eq_refl). unfold SetString0. rewrite chars_of. pose proof (digits_below_ten (d :: ds) F ltac:(done)) as D.
  cbn [map] in *. apply Forall_cons in F as [Fd _].
  assert (Hc : digit_char d <> "-"%char /\ digit_char d <> "+"%char /\ digit_char d <> "0"%char).
  { assert (I : d ∈ seqZ 1 9) by (apply elem_of_seqZ; unfold in_base in Fd; lia). clear -I. revert d I.
    apply Forall_forall. repeat (constructor; [split_and!; discriminate|]). constructor. }
  assert (U : unsigned_base0 (digit_char d :: map digit_char ds) = Some x).
  { assert (U : unsigned_base0 (digit_char d :: map digit_char ds) = from_base 10 0 <$> digits_below 10 (digit_char d :: map digit_char ds)).
    { clear D. destruct Hc as (_ & _ & Z). revert Z. generalize (digit_char d). intros [[] [] [] [] [] [] [] []] Z; try done. }
    rewrite U, D. simpl. by rewrite <- V. }
  rewrite <- U. destruct Hc as (M & Pl & _). revert M Pl. clear. generalize (digit_char d). by intros [[] [] [] [] [] [] [] []] M Pl.
Qed.

Lemma hex_bytes_app a b : hex_bytes (a ++ b) = hex_bytes a +:+ hex_bytes b.
Proof.
  induction a as [|x a IH]; [done|]. cbn [hex_bytes app]. rewrite IH. destruct x; reflexivity.
Qed.
Lemma hex_chars b : len (chars (hex_bytes b)) = 2 * len b.
Proof.
  induction b as [|x b IH]; [done|]. cbn [hex_bytes].
  assert (E : forall s, exists c c', chars (hex_digit (b2z x / 16) +:+ hex_digit (b2z x mod 16) +:+ s) = c :: c' :: chars s)
    by (intros s; destruct x; do 2 eexists; reflexivity).
  destruct (E (hex_bytes b)) as (c & c' & ->). rewrite !len_cons. lia.
Qed.

(** A list of five parts joined by dashes *)
Lemma dashed (c0 c1 c2 c3 c4 : list ascii) :
  len c0 = 8 -> len c1 = 4 -> len c2 = 4 -> len c3 = 4 -> len c4 = 12 ->
  let l := c0 ++ ["-"%char] ++ c1 ++ ["-"%char] ++ c2 ++ ["-"%char] ++ c3 ++ ["-"%char] ++ c4 in
  len l = 36 /\ char_is l 8 "-" && char_is l 13 "-" && char_is l 18 "-" && char_is l 23 "-" = true /\
  slice l 0 8 ++ slice l 9 13 ++ slice l 14 18 ++ slice l 19 23 ++ slice l 24 36 = c0 ++ c1 ++ c2 ++ c3 ++ c4.
Proof.
  intros L0 L1 L2 L3 L4 l.
  assert (Ix : forall pre post i, l = pre ++ "-"%char :: post -> i = len pre -> char_is l i "-" = true).
  { intros pre post i -> ->. unfold char_is. by rewrite index_middle. }
  assert (Sl : forall pre mid post a b, l = pre ++ mid ++ post -> a = len pre -> b = len pre + len mid -> slice l a b = mid).
  { intros pre mid post a b -> -> ->. by apply slice_app. }
  pose (d := ["-"%char]). assert (Ld : len d = 1) by done. fold d in l.
  split; [unfold l; rewrite !len_app; lia|]. split.
  - rewrite (Ix c0 (c1 ++ d ++ c2 ++ d ++ c3 ++ d ++ c4)), (Ix (c0 ++ d ++ c1) (c2 ++ d ++ c3 ++ d ++ c4)),
      (Ix (c0 ++ d ++ c1 ++ d ++ c2) (c3 ++ d ++ c4)), (Ix (c0 ++ d ++ c1 ++ d ++ c2 ++ d ++ c3) c4);
      rewrite ?len_app; try lia; try done; unfold l, d; by rewrite <- ?app_assoc.
  - rewrite (Sl [] c0 (d ++ c1 ++ d ++ c2 ++ d ++ c3 ++ d ++ c4)), (Sl (c0 ++ d) c1 (d ++ c2 ++ d ++ c3 ++ d ++ c4)),
      (Sl (c0 ++ d ++ c1 ++ d) c2 (d ++ c3 ++ d ++ c4)), (Sl (c0 ++ d ++ c1 ++ d ++ c2 ++ d) c3 (d ++ c4)),
      (Sl (c0 ++ d ++ c1 ++ d ++ c2 ++ d ++ c3 ++ d) c4 []);
      rewrite ?len_app, ?len_nil; try lia; try done; unfold l, d; by rewrite <- ?app_assoc, ?app_nil_r.
Qed.

Lemma ParseUUID_Format uid : len uid = 16 -> ParseUUID (FormatUUID uid) = Ok uid.
Proof.
  intros L. assert (Sl : forall a b, 0 <= a <= b -> b <= 16 -> len (slice uid a b) = b - a).
  { intros a b H1 H2. unfold slice, len in *. rewrite length_take, length_drop. lia. }
  assert (Eu : uid = slice uid 0 4 ++ slice uid 4 6 ++ slice uid 6 8 ++ slice uid 8 10 ++ slice uid 10 16).
  { unfold len in L. do 16 (destruct uid as [|? uid]; [discriminate L|]). destruct uid; [done|simpl in L; lia]. }
  unfold FormatUUID, ParseUUID. rewrite !chars_app. change (chars "-") with ["-"%char].
  destruct (dashed (chars (hex_bytes (slice uid 0 4))) (chars (hex_bytes (slice uid 4 6))) (chars (hex_bytes (slice uid 6 8)))
    (chars (hex_bytes (slice uid 8 10))) (chars (hex_bytes (slice uid 10 16)))) as (Ll & Dl & Es);
    [rewrite hex_chars, Sl by lia; done..|].
  cbv zeta in *. rewrite Ll, Dl, Es. cbn [negb Z.eqb Pos.eqb]. rewrite <- !chars_app, <- !hex_bytes_app, <- Eu, of_chars_chars, hex_decode_hex. by rewrite L.
Qed.

Lemma raw_text b : raw (text b) = b.
Proof. unfold raw, text. rewrite chars_of, map_map. rewrite <- (map_id b) at 2. apply map_ext. intros x. by destruct x. Qed.

(** What a text can carry of a unique identifier: nothing when there is none. *)
Definition uid_fields (uid : bytes) (t : byte) : Prop :=
  len uid = 16 /\ b2z t <= 4 /\ (t = UniqueIdType_Null -> uid = ZeroUniqueId).

Lemma UniqueId_text undefined uid t : uid_fields uid t -> String2UniqueId undefined (StringFriendly uid t) t = (uid, None).
Proof.
  intros (L & T & N). unfold String2UniqueId, StringFriendly. destruct (beq t UniqueIdType_Sequence) eqn:E1.
  { pose proof (from_base_bound 256 (map b2z uid) ltac:(lia) (bytes_in_base uid)) as [X _].
    rewrite (SetString0_String (big_of_bytes uid) X). f_equal.
    destruct (leading_zeros (beq x00) x00 uid) as (b' & E & Nz); [intros x; by rewrite beq_true|].
    apply (SetBytes_pad uid _ (leading (beq x00) uid)); [|done]. rewrite E at 1. f_equal. rewrite E, big_of_zeros. by rewrite big_Bytes_value. }
  destruct (beq t UniqueIdType_Null) eqn:E2; [apply beq_true in E2; by rewrite N|].
  destruct (beq t UniqueIdType_Uuid) eqn:E3; [by rewrite ParseUUID_Format, SetBytes_all|].
  destruct (beq t UniqueIdType_UserDefine) eqn:E4; [by rewrite hex_decode_hex, SetBytes_all|].
  destruct (beq t UniqueIdType_Ascii) eqn:E5; [by rewrite raw_text, SetBytes_all|].
  exfalso. apply beq_false in E1, E2, E3, E4, E5. destruct t; try done; vm_compute in T; by apply T.
Qed.

Lemma has_dash_free s : has_dash s = negb (free_of "-" s).
Proof.
  unfold has_dash, free_of. induction (chars s) as [|c l IH]; [done|]. cbn [existsb forallb]. rewrite IH, (Ascii.eqb_sym "-" c).
  by destruct (Ascii.eqb c "-").
Qed.

(** ** Properties *)

(** An asset identifier carries its fields.  For a symbol of one to five capitals and digits
    that fits four bytes, a type below 4, at most 18 decimals, a request of 11 bytes or more and a
    kind of unique identifier below 8, [NewAssetId] succeeds, [ParseAssetId] reads all fields back
    (of the request the first 11 bytes), and the text of the identifier names it again:
    [String2AssetId] of [String] gives the identifier and its kind; only for a token of the genesis
    unit, written as its bare symbol, the kind must be null. *)
Theorem assetId_roundtrip (symbol : string) (assetType decimal : byte) (requestId : bytes) (uidType : byte) :
  asset_fields symbol assetType decimal requestId uidType ->
  (IsZero (slice requestId 0 11) && beq assetType AssetType_FungibleToken && (b2z decimal =? 8) = true -> uidType = UniqueIdType_Null) ->
  exists id s, NewAssetId symbol assetType decimal requestId uidType = Ok id /\
    ParseAssetId id = Ok (symbol, assetType, decimal, slice requestId 0 11, uidType) /\
    AssetId_String id = Ok s /\ String2AssetId s = Ok (id, uidType).
Proof.
  intros F S. destruct (NewAssetId_parse _ _ _ _ _ F) as (id & N & _ & P).
  destruct (AssetId_text _ _ _ _ _ _ F N S) as (s & T & R & _). by exists id, s.
Qed.

Lemma DEVIN_fields : asset_fields "DEVIN" x01 x00 (replicate 11 x0a) UniqueIdType_Sequence.
Proof.
  unfold asset_fields. split_and!; try (by vm_compute); try (vm_compute; congruence). eexists. vm_compute. reflexivity.
Qed.
Lemma assetId_roundtrip_witness :
  exists id s, NewAssetId "DEVIN" x01 x00 (replicate 11 x0a) UniqueIdType_Sequence = Ok id /\
    AssetId_String id = Ok s /\ String2AssetId s = Ok (id, UniqueIdType_Sequence).
Proof.
  destruct (assetId_roundtrip "DEVIN" x01 x00 (replicate 11 x0a) UniqueIdType_Sequence DEVIN_fields) as (id & s & N & _ & T & R).
  - vm_compute. discriminate.
  - by exists id, s.
Defined.

(** The text of an asset names the asset: [StringToAsset] of [String] gives back the
    identifier and the unique identifier, for fungible tokens (whose unique identifier is zero)
    and for non-fungible ones of each kind: sequence numbers in decimal, UUIDs, hexadecimal and
    ASCII. *)
Theorem asset_text_roundtrip (undefined : string -> Z) (symbol : string) (assetType decimal : byte) (requestId : bytes)
    (uidType : byte) (id uid : bytes) :
  asset_fields symbol assetType decimal requestId uidType -> uid_fields uid uidType ->
  NewAssetId symbol assetType decimal requestId uidType = Ok id ->
  (IsZero (slice requestId 0 11) && beq assetType AssetType_FungibleToken && (b2z decimal =? 8) = true -> uidType = UniqueIdType_Null) ->
  (assetType <> AssetType_NonFungibleToken -> uid = ZeroUniqueId) ->
  exists s, Asset_String (mkAsset id uid) = Ok s /\ StringToAsset undefined s = Ok (mkAsset id uid).
Proof.
  intros F U N S Z. destruct (NewAssetId_parse _ _ _ _ _ F) as (id' & N' & _ & P). assert (id' = id) by congruence. subst id'.
  destruct (AssetId_text _ _ _ _ _ _ F N S) as (s & T & R & Fr).
  assert (Plain : uid = ZeroUniqueId -> StringToAsset undefined s = Ok (mkAsset id uid)).
  { intros ->. unfold StringToAsset, SetString. destruct (String.eqb_spec s "PTN") as [->|_].
    - change (Ok (PTNCOIN, UniqueIdType_Null) = Ok (id, uidType) :> res _) in R. assert (id = PTNCOIN) as -> by congruence. done.
    - rewrite has_dash_free, Fr. cbn [negb]. unfold bind, lift. by rewrite R. }
  unfold Asset_String. cbn [AssetId UniqueId]. unfold bytes_equal. case_bool_decide as E.
  { exists "PTN"%string. split; [done|]. rewrite E in P. vm_compute in P. injection P as _ Et _ _ _.
    unfold StringToAsset, SetString. simpl. rewrite E, Z; [done|]. intros ->. discriminate Et. }
  rewrite P, T. cbn [rbind]. destruct (beq assetType AssetType_NonFungibleToken) eqn:Nft; cbn [negb].
  2:{ exists s. split; [done|]. apply Plain, Z. by apply beq_false. }
  eexists. split; [reflexivity|]. set (us := StringFriendly uid uidType).
  assert (Dash : s +:+ "-" +:+ us = s +:+ String "-" us) by done. rewrite Dash. clear Dash.
  unfold StringToAsset, SetString. destruct (String.eqb_spec (s +:+ String "-" us) "PTN") as [Q|_].
  { exfalso. apply (f_equal (free_of "-")) in Q. rewrite free_of_app in Q. cbn in Q. by rewrite andb_false_r in Q. }
  rewrite has_dash_free, free_of_app. change (free_of "-" (String "-" us)) with false. rewrite andb_false_r. cbn [negb].
  rewrite Split_first by done. change (index (s :: Split "-" us) 0) with (Some s). unfold bind, lift, rget, modify, throw. rewrite R.
  rewrite <- !length_chars, chars_app. change (chars (String "-" us)) with ("-"%char :: chars us).
  assert (Sl : slice (chars s ++ "-"%char :: chars us) (Z.of_nat (length (chars s)) + 1) (Z.of_nat (length (chars s ++ "-"%char :: chars us))) = chars us).
  { change (chars s ++ "-"%char :: chars us) with (chars s ++ ["-"%char] ++ chars us). rewrite app_assoc.
    apply slice_suffix; unfold len; rewrite !length_app; simpl; lia. }
  rewrite Sl, of_chars_chars. unfold us. by rewrite UniqueId_text.
Qed.

Lemma asset_text_roundtrip_witness :
  exists id s, NewAssetId "DEVIN" x01 x00 (replicate 11 x0a) UniqueIdType_Sequence = Ok id /\
    Asset_String (mkAsset id (replicate 14 x00 ++ [x01; x02])) = Ok s /\
    StringToAsset (fun _ => 0) s = Ok (mkAsset id (replicate 14 x00 ++ [x01; x02])).
Proof.
  destruct (NewAssetId "DEVIN" x01 x00 (replicate 11 x0a) UniqueIdType_Sequence) as [id| |] eqn:E; [|vm_compute in E; discriminate E..].
  destruct (asset_text_roundtrip (fun _ => 0) "DEVIN" x01 x00 (replicate 11 x0a) UniqueIdType_Sequence id (replicate 14 x00 ++ [x01; x02]) DEVIN_fields)
    as (s & T & R).
  - split; [reflexivity|]. split; [vm_compute; congruence|discriminate].
  - exact E.
  - vm_compute. discriminate.
  - intros Ne. exfalso. apply Ne. reflexivity.
  - exists id, s. by split_and!.
Defined.

(** Two ways to crash on an asset identifier.  [GetSymbol], [ParseAssetId] and the text of
    an identifier panic exactly on the identifiers whose first byte is 0xa0 or above (the
    length of the symbol has three bits, but there are only four bytes for the symbol), and
    [NewAssetId] panics exactly on the symbols of at most five characters that decode to more than
    four bytes, such as [0000A]. *)
Theorem assetId_panics (id : bytes) (symbol : string) (assetType decimal : byte) (requestId : bytes) (uidType : byte) :
  (GetSymbol id = Panic <-> 160 <= first_byte id) /\ (ParseAssetId id = Panic <-> 160 <= first_byte id) /\
  (AssetId_String id = Panic <-> 160 <= first_byte id) /\
  (NewAssetId symbol assetType decimal requestId uidType = Panic <->
    1 <= Z.of_nat (String.length symbol) <= 5 /\ b2z decimal <= 18 /\ 11 <= len requestId /\ 4 < len (DecodeToBytes symbol)).
Proof.
  assert (Rg : 0 <= first_byte id < 256) by (destruct id as [|b ?]; simpl; [lia|apply b2z_range]).
  assert (Sh : (4 <? Z.shiftr (first_byte id) 5) = (160 <=? first_byte id)).
  { rewrite Z.shiftr_div_pow2 by lia. change (2 ^ 5) with 32. pose proof (Z.div_mod (first_byte id) 32). 
    pose proof (Z.mod_pos_bound (first_byte id) 32). bdestruct; try done; exfalso; nia. }
  split_and!.
  - unfold GetSymbol. rewrite Sh. destruct (Z.leb_spec 160 (first_byte id)); split; done || lia.
  - unfold ParseAssetId, GetSymbol. rewrite Sh. destruct (Z.leb_spec 160 (first_byte id)); cbn [rbind]; split; done || lia.
  - unfold AssetId_String, ParseAssetId, GetSymbol, bytes_equal. rewrite Sh. case_bool_decide as E.
    { subst id. split; [done|]. intros Hc. exfalso. apply Hc. reflexivity. }
    destruct (Z.leb_spec 160 (first_byte id)); cbn [rbind]; [done|]. split; [|lia]. by destruct (_ && _).
  - unfold NewAssetId. destruct (Z.ltb_spec 5 (Z.of_nat (String.length symbol))); cbn [orb]; [split; [done|lia]|].
    destruct (Z.eqb_spec (Z.of_nat (String.length symbol)) 0); [split; [done|lia]|].
    destruct (Z.ltb_spec 18 (b2z decimal)); [split; [done|lia]|]. destruct (Z.ltb_spec (len requestId) 11); [split; [done|lia]|].
    destruct (Z.ltb_spec 4 (len (DecodeToBytes symbol))); split; try done; lia.
Qed.
