(* ===== verification/Float64.v ===== *)
(** The float64 arithmetic of the program: IEEE 754 binary64 with rounding to nearest even, as the
    Standard Library's [SpecFloat] defines it (53 bits of precision, exponents below 1024).
    Conversions to integers out of range, which Go leaves to the implementation, are those of
    amd64. *)

From Stdlib Require Import ZArith Lia.
From Stdlib Require Import Floats.SpecFloat.
From S2P Require Import Prelude.

Definition float64 : Type := spec_float.
Definition prec : Z := 53.
Definition emax : Z := 1024.

(** [float64(n)] *)
Definition of_int (n : Z) : float64 := binary_normalize prec emax n 0 false.
Definition fadd : float64 -> float64 -> float64 := SFadd prec emax.
Definition fmul : float64 -> float64 -> float64 := SFmul prec emax.
Definition fdiv : float64 -> float64 -> float64 := SFdiv prec emax.

(** [x > y], [x == y] *)
Definition fgt (x y : float64) : bool := match SFcompare x y with Some Gt => true | _ => false end.
Definition feq (x y : float64) : bool := match SFcompare x y with Some Eq => true | _ => false end.

(** [math.Max] *)
Definition fmax (x y : float64) : float64 :=
  match x, y with
  | S754_infinity false, _ | _, S754_infinity false => S754_infinity false
  | S754_nan, _ | _, S754_nan => S754_nan
  | S754_zero s, S754_zero _ => if s then y else x
  | _, _ => if fgt x y then x else y
  end.

(** The integer part, towards zero *)
Definition trunc (x : float64) : option Z :=
  match x with
  | S754_zero _ => Some 0
  | S754_finite s m e =>
      let v := if 0 <=? e then Z.pos m * 2 ^ e else Z.pos m / 2 ^ (- e) in
      Some (if s then - v else v)
  | _ => None
  end.

(** [math.Ceil] *)
Definition fceil (x : float64) : float64 :=
  match x with
  | S754_finite s m e =>
      if 0 <=? e then x
      else
        let q := Z.pos m / 2 ^ (- e) in
        if s then (if q =? 0 then S754_zero true else of_int (- q))
        else of_int (if Z.pos m mod 2 ^ (- e) =? 0 then q else q + 1)
  | _ => x
  end.

(** [uint64(x)], [int(x)] and [byte(x)] *)
Definition to_uint64 (x : float64) : Z :=
  match trunc x with Some v => if (0 <=? v) && (v <? 2 ^ 64) then v else 2 ^ 63 | None => 2 ^ 63 end.
Definition to_int (x : float64) : Z :=
  match trunc x with Some v => if (- 2 ^ 63 <=? v) && (v <? 2 ^ 63) then v else - 2 ^ 63 | None => - 2 ^ 63 end.
Definition to_byte (x : float64) : byte := z2b (to_int x).

(** [math.Ceil((float64(count)*2 + 1) / 3)]: more than two thirds of a jury *)
Definition two_thirds (count : Z) : float64 :=
  fceil (fdiv (fadd (fmul (of_int count) (of_int 2)) (of_int 1)) (of_int 3)).

Lemma two_thirds_exact count : 0 <= count <= 2000 -> to_int (two_thirds count) = (2 * count + 3) / 3.
Proof.
  intros R. assert (E : count ∈ seqZ 0 2001) by (apply elem_of_seqZ; lia).
  assert (K : forallb (fun n => to_int (two_thirds n) =? (2 * n + 3) / 3) (seqZ 0 2001) = true) by (vm_compute; reflexivity).
  rewrite forallb_forall in K. apply Z.eqb_eq, K. by apply list_elem_of_In.
Qed.
