(* ===== verification/TxProps.v ===== *)
(** Properties of transactions (Tx.v): copying and cloning, the hash cache, the fee, the outputs
    a transaction creates and the flags of an unspent output. *)

From Stdlib Require Import ZArith Lia.
From S2P Require Import Prelude Address Tx RlpModel.

(** ** Copies *)

(** A one-message transaction for the witnesses. *)
Definition sample_input (b : byte) : Input :=
  mkInput [x51] [] (Some (mkOutPoint (replicate 32 b) 0 1)).
Definition sample_payment : PaymentPayload :=
  mkPayment [sample_input x11] [mkOutput 7 [x76] (Some PTNAsset)] 0.
Definition sample_tx : Transaction := NewTransaction [mkMessage APP_PAYMENT (Some (PayPayment sample_payment))].

(** C27: the wire format gives back what it can carry.  Given an RLP library whose decoder
    inverts its encoder, [DecodeRLP] gives back every transaction whose messages have the
    payload of their type, whose inputs do not refer to the zero hash (the wire form's nil) and
    whose deploy results of system contracts have no jury count and duration (which their older
    wire form lacks); [Clone] is therefore a faithful copy, without the cached hash. *)
Theorem rlp_roundtrip (L : RlpLib) (LL : RlpLaws L) (tx : Transaction) :
  encodable_tx (txdata tx) ->
  (exists b, EncodeRLP (txdata tx) = Ok b /\ DecodeRLP b = Ok (txdata tx)) /\
  Clone tx = Ok (new_tx (txdata tx)).
Proof.
  intros H. split; [now apply rlp_roundtrip_data | now apply Clone_data].
Qed.
Lemma rlp_roundtrip_witness : Clone (L := digit_lib) sample_tx = Ok (new_tx (txdata sample_tx)).
Proof.
  apply (rlp_roundtrip digit_lib digit_laws). split.
  - constructor; [|constructor]. eexists. split; [reflexivity|]. split; [reflexivity|].
    split; [|exact I]. constructor; [|constructor]. vm_compute. congruence.
  - intros t _. exact I.
Defined.

(** [CopyMessage] returns an equal message on complete messages, and not beyond them: it
    panics on a payment with an output without asset, and it replaces the nil version of a
    read set of an invoke result by a zero version. *)
Theorem CopyMessage_spec (m : Message) (p : PaymentPayload) (i : ContractInvokePayload) :
  complete m -> (exists o, o ∈ Outputs p /\ out_Asset o = None) ->
  (exists r, r ∈ iv_ReadSet i /\ rs_Version r = None) ->
  CopyMessage (E := tx_error) m = Ok m /\
  CopyMessage (E := tx_error) (mkMessage APP_PAYMENT (Some (PayPayment p))) = Panic /\
  exists i', CopyMessage (E := tx_error) (mkMessage APP_CONTRACT_INVOKE (Some (PayInvoke i))) =
               Ok (mkMessage APP_CONTRACT_INVOKE (Some (PayInvoke i'))) /\
             read_versions (iv_ReadSet i') /\ i' <> i.
Proof.
  intros Hm (o & Ho & Na) (r & Hr & Nv). split; [by apply CopyMessage_id|]. split.
  - unfold CopyMessage, CopyPayload; simpl.
    assert (mapR (E := tx_error) CopyOutput (Outputs p) = Panic) as ->; [|done].
    clear -Ho Na. induction (Outputs p) as [|x l IH]; [by apply not_elem_of_nil in Ho|].
    simpl. apply elem_of_cons in Ho as [<- | Ho].
    + unfold CopyOutput. now rewrite Na.
    + rewrite IH by done. unfold CopyOutput. destruct (out_Asset x); done.
  - eexists. split; [reflexivity|]. simpl. split.
    + apply Forall_fmap, Forall_forall. intros x _. done.
    + intros E. apply (f_equal iv_ReadSet) in E. simpl in E.
      apply list_elem_of_lookup in Hr as [n Hn].
      pose proof (f_equal (fun l => l !! n) E) as En. simpl in En.
      rewrite list_lookup_fmap, Hn in En. simpl in En. injection En as En.
      rewrite <- En in Nv. done.
Qed.
Lemma CopyMessage_spec_witness :
  CopyMessage (E := tx_error) (mkMessage APP_PAYMENT (Some (PayPayment sample_payment))) =
  Ok (mkMessage APP_PAYMENT (Some (PayPayment sample_payment))).
Proof.
  refine (proj1 (CopyMessage_spec (mkMessage APP_PAYMENT (Some (PayPayment sample_payment)))
    (mkPayment [] [mkOutput 1 [] None] 0)
    (mkInvoke [] [] [mkReadSet "k" None []] [] [] (mkContractError 0 "")) _ _ _)).
  - eexists. split; [reflexivity|]. split; [reflexivity|]. repeat constructor; discriminate.
  - exists (mkOutput 1 [] None). split; [left | reflexivity].
  - exists (mkReadSet "k" None []). split; [left | reflexivity].
Defined.

(** ** The hash cache *)

Section Cache.
Context {L : RlpLib}.
Variable keccak : bytes -> Hash.

(** A cached hash is the hash of the current data, computed with the [Illegal] mark cleared. *)
Definition coherent (tx : Transaction) : Prop :=
  forall h, tx_hash tx = Some h -> RlpHash keccak (legal (txdata tx)) = Ok h.

Lemma legal_hash d : RlpHash keccak (if sdw_Illegal d then legal d else d) = RlpHash keccak (legal d).
Proof. destruct d as [m c []]; done. Qed.

Lemma Hash_spec tx tx' h : coherent tx -> Hash_ keccak tx = (tx', Ok h) ->
  RlpHash keccak (legal (txdata tx)) = Ok h /\ txdata tx' = txdata tx /\ tx_hash tx' = Some h.
Proof.
  intros C. unfold Hash_, bind, gets, ret, lift, modify. destruct (tx_hash tx) as [h0|] eqn:E.
  - intros [= <- <-]. auto.
  - rewrite legal_hash. destruct (RlpHash keccak (legal (txdata tx))) as [v| |]; try done.
    intros [= <- <-]. done.
Qed.

Lemma set_data_spec d tx tx' : set_data keccak d tx = (tx', Ok tt) -> coherent tx' /\ txdata tx' = d.
Proof.
  unfold set_data. intros H. apply bind_inv in H as (t1 & [] & H1 & H). injection H1 as <-.
  apply bind_inv in H as (t2 & h & H2 & H). unfold lift in H2. injection H2 as <- H2.
  injection H as <-. simpl. split; [|done]. intros h' [= <-]. simpl.
  destruct (Hash_ keccak (new_tx d)) as [t3 r] eqn:Hh. simpl in H2. subst r.
  apply Hash_spec in Hh; [apply Hh|]. intros ? ?; discriminate.
Qed.
End Cache.

(** The cached transaction hash is never stale: [Hash] returns the hash of the current data
    (with the [Illegal] mark cleared, so that marking a transaction does not change its id), and
    every method that changes the data, [SetMessages], [AddMessage], [SetCertId], [SetIllegal]
    and [ModifiedMsg], leaves a cache that agrees with the new data. *)
Theorem hash_cache_coherent (L : RlpLib) (keccak : bytes -> Hash) (tx tx' : Transaction)
    (m : ST Transaction tx_error unit) :
  coherent keccak tx ->
  (exists msgs, m = SetMessages keccak msgs) \/ (exists msg, m = AddMessage keccak msg) \/
  (exists c, m = SetCertId keccak c) \/ (exists b, m = SetIllegal keccak b) \/
  (exists i msg, m = ModifiedMsg keccak i msg) ->
  m tx = (tx', Ok tt) ->
  coherent keccak tx' /\
  forall h tx'', Hash_ keccak tx' = (tx'', Ok h) ->
    RlpHash keccak (legal (txdata tx')) = Ok h /\ coherent keccak tx''.
Proof.
  intros C M R. assert (C' : coherent keccak tx').
  { assert (SM : forall msgs t, coherent keccak t -> SetMessages keccak msgs t = (tx', Ok tt) ->
              coherent keccak tx').
    { intros msgs t Ct. unfold SetMessages. destruct (0 <? len msgs); [|by intros [= <-]].
      intros H. apply bind_inv in H as (? & ? & H1 & H). injection H1 as <- <-.
      now apply set_data_spec in H. }
    destruct M as [(msgs & ->) | [(msg & ->) | [(c & ->) | [(b & ->) | (i & msg & ->)]]]].
    - now apply (SM msgs tx).
    - unfold AddMessage in R. apply bind_inv in R as (? & ? & H1 & H). injection H1 as <- <-.
      apply bind_inv in H as (t & msgs & H1 & H). apply (SM msgs t); [|done].
      destruct msg as [msg|]; [|by injection H1 as <- <-].
      apply bind_inv in H1 as (? & ? & H1 & H2). injection H1 as <- _. by injection H2 as <- _.
    - unfold SetCertId in R. apply bind_inv in R as (? & ? & H1 & H). injection H1 as <- <-.
      now apply set_data_spec in H.
    - unfold SetIllegal in R. apply bind_inv in R as (? & ? & H1 & H). injection H1 as <- <-.
      now apply set_data_spec in H.
    - unfold ModifiedMsg in R. apply bind_inv in R as (? & ? & H1 & H). injection H1 as <- <-.
      destruct (_ <? _); [by injection H as <-|]. now apply set_data_spec in H. }
  split; [done|]. intros h tx'' H. apply Hash_spec in H as (H1 & H2 & H3); [|done].
  split; [done|]. intros h' E. rewrite H2. congruence.
Qed.
Lemma hash_cache_coherent_witness :
  coherent (L := digit_lib) (fun b => b) (SetIllegal (L := digit_lib) (fun b => b) true sample_tx).1.
Proof.
  refine (proj1 (hash_cache_coherent digit_lib (fun b => b) sample_tx _
    (SetIllegal (fun b => b) true) _ _ _)).
  - intros h E. discriminate E.
  - right. right. right. left. exists true. reflexivity.
  - reflexivity.
Defined.

(** ** The fee *)

Definition sum_values (l : list Z) : Z := foldr Z.add 0 l.

Lemma uint64_range z : 0 <= uint64 z < 2 ^ 64.
Proof. apply wrapU_range; lia. Qed.

Lemma uint64_add a b : uint64 (uint64 a + b) = uint64 (a + b).
Proof. unfold uint64, wrapU. now rewrite Zplus_mod_idemp_l. Qed.

Section FeeLemmas.
Variable query : option OutPoint -> result string Utxo.

(** The inputs of a payment resolve to these unspent outputs. *)
Definition resolves (ins : list Input) (us : list Utxo) : Prop :=
  Forall2 (fun i u => query (PreviousOutPoint i) = Ok u) ins us.

(** The overflow tests never fire; the sums are taken modulo 2^64. *)
Lemma fee_inputs_sum ins us : resolves ins us -> forall a asset, 0 <= a < 2 ^ 64 ->
  fee_inputs query a asset ins =
  Ok (uint64 (a + sum_values (map u_Amount us)),
      match last us with Some u => u_Asset u | None => asset end).
Proof.
  induction 1 as [|i u ins us Q _ IH]; intros a asset Ha; simpl.
  - rewrite Z.add_0_r, uint64_small by lia. done.
  - rewrite Q. pose proof (uint64_range (a + u_Amount u)) as R.
    rewrite (proj2 (Z.ltb_ge _ _)) by (unfold maxUint64; lia).
    rewrite IH, uint64_add by done. rewrite Z.add_assoc.
    change (match us with [] => Some u | _ :: _ => last us end) with (last (u :: us)).
    rewrite last_cons. now destruct (last us).
Qed.

Lemma fee_outputs_sum outs : forall a, 0 <= a < 2 ^ 64 ->
  fee_outputs a outs = Ok (uint64 (a + sum_values (map Value outs))).
Proof.
  induction outs as [|o outs IH]; intros a Ha; simpl.
  - rewrite Z.add_0_r, uint64_small by lia. done.
  - pose proof (uint64_range (a + Value o)) as R.
    rewrite (proj2 (Z.ltb_ge _ _)) by (unfold maxUint64; lia).
    rewrite IH, uint64_add by done. do 2 f_equal. lia.
Qed.
End FeeLemmas.

(** The fee of a payment whose inputs resolve is the sum of its inputs minus the sum of its
    outputs, both modulo 2^64; when neither true sum reaches 2^64 it is the true difference, and
    an error exactly when the outputs exceed the inputs. *)
Theorem GetTxFee_spec (query : option OutPoint -> result string Utxo) (tx : Transaction)
    (m : Message) (ms : list Message) (p : PaymentPayload) (us : list Utxo) :
  Messages tx = m :: ms -> App m = APP_PAYMENT -> Payload m = Some (PayPayment p) ->
  IsCoinbase p = false -> resolves query (Inputs p) us ->
  let ins := sum_values (map u_Amount us) in
  let outs := sum_values (map Value (Outputs p)) in
  GetTxFee query tx =
    (if uint64 ins <? uint64 outs then Err TxInLessThanOut
     else Ok (mkAmountAsset (uint64 ins - uint64 outs)
                (match last us with Some u => u_Asset u | None => None end))) /\
  (0 <= ins < 2 ^ 64 -> 0 <= outs < 2 ^ 64 ->
   (GetTxFee query tx = Err TxInLessThanOut <-> ins < outs) /\
   forall fee, GetTxFee query tx = Ok fee -> aa_Amount fee = ins - outs).
Proof.
  intros M A P C R ins outs. assert (G : GetTxFee query tx =
    (if uint64 ins <? uint64 outs then Err TxInLessThanOut
     else Ok (mkAmountAsset (uint64 ins - uint64 outs)
                (match last us with Some u => u_Asset u | None => None end)))).
  { unfold GetTxFee. rewrite M. simpl. rewrite A. simpl. unfold as_payment. rewrite P. simpl.
    rewrite C, (fee_inputs_sum query (Inputs p) us R) by lia. simpl.
    now rewrite fee_outputs_sum by lia. }
  rewrite G. split; [done|]. intros Hi Ho. rewrite !uint64_small by lia.
  destruct (Z.ltb_spec ins outs); (split; [split; (done || lia)|]).
  - discriminate.
  - intros fee [= <-]. done.
Qed.

Lemma GetTxFee_spec_witness :
  GetTxFee (fun _ => Ok (mkUtxo 10 (Some PTNAsset) [] 0 0 0)) sample_tx = Ok (mkAmountAsset 3 (Some PTNAsset)).
Proof.
  refine (proj1 (GetTxFee_spec (fun _ => Ok (mkUtxo 10 (Some PTNAsset) [] 0 0 0)) sample_tx
    (mkMessage APP_PAYMENT (Some (PayPayment sample_payment))) [] sample_payment
    [mkUtxo 10 (Some PTNAsset) [] 0 0 0] eq_refl eq_refl eq_refl eq_refl _)).
  constructor; [reflexivity | constructor].
Defined.

(** The overflow tests of [GetTxFee] are dead: it never reports an overflow, and a payment
    that spends 5 and pays out 2^64 in two outputs is given the fee 5. *)
Theorem GetTxFee_overflow_unchecked :
  (forall query tx, GetTxFee query tx <> Err TxInOverflow /\ GetTxFee query tx <> Err TxOutOverflow) /\
  exists query p, IsCoinbase p = false /\ sum_values (map Value (Outputs p)) = 2 ^ 64 /\
    Forall (fun o => 0 <= Value o < 2 ^ 64) (Outputs p) /\
    GetTxFee query (NewTransaction [mkMessage APP_PAYMENT (Some (PayPayment p))]) =
    Ok (mkAmountAsset 5 (Some PTNAsset)).
Proof.
  split.
  - intros query tx.
    assert (I : forall ins a s, fee_inputs query a s ins <> Err TxInOverflow /\
                                fee_inputs query a s ins <> Err TxOutOverflow).
    { induction ins as [|i ins IH]; intros a s; [done|]. simpl.
      destruct (query _) as [u| |]; try done. pose proof (uint64_range (a + u_Amount u)).
      rewrite (proj2 (Z.ltb_ge _ _)) by (unfold maxUint64; lia). apply IH. }
    unfold GetTxFee, rget. destruct (index _ _) as [m|]; [|done]. simpl.
    destruct (negb _); [done|]. unfold as_payment. destruct (Payload m) as [[p| | | | | | | | | | |]|];
      try done. simpl.
    destruct (IsCoinbase p); [done|]. destruct (I (Inputs p) 0 None) as [I1 I2].
    destruct (fee_inputs query 0 None (Inputs p)) as [[a s]|e|]; simpl; [|split; congruence|done].
    rewrite fee_outputs_sum by lia. cbn [rbind].
    destruct (a <? _); split; discriminate.
  - exists (fun _ => Ok (mkUtxo 5 (Some PTNAsset) [] 0 0 0)),
      (mkPayment [sample_input x11] [mkOutput (2 ^ 64 - 1) [] (Some PTNAsset);
                                     mkOutput 1 [] (Some PTNAsset)] 0).
    split_and!; try reflexivity. repeat constructor; vm_compute; congruence.
Qed.

(** ** New outputs *)

(** The unspent output that output [o] of payment [p] creates. *)
Definition new_utxo (p : PaymentPayload) (o : Output) : Utxo :=
  mkUtxo (Value o) (out_Asset o) (PkScript o) (LockTime p) 0 0.

Lemma output_utxos_lookup h mi lt outs : forall oi acc h' i j,
  0 <= oi -> oi + len outs < 2 ^ 32 ->
  output_utxos h mi oi lt outs acc !! mkOutPoint h' i j =
  match (if bool_decide (h' = h) && (i =? uint32 mi) then index outs (j - oi) else None) with
  | Some o => Some (mkUtxo (Value o) (out_Asset o) (PkScript o) lt 0 0)
  | None => acc !! mkOutPoint h' i j
  end.
Proof.
  induction outs as [|o outs IH]; intros oi acc h' i j H0 Hl; simpl.
  - replace (index (A := Output) [] (j - oi)) with (@None Output).
    + now destruct (_ && _).
    + unfold index. now destruct (_ <? 0).
  - rewrite len_cons in Hl. pose proof (len_nonneg outs). rewrite IH by lia.
    assert (U : uint32 oi = oi) by (apply wrapU_small; lia). rewrite U.
    assert (Ix : index (o :: outs) (j - oi) = if j =? oi then Some o else index outs (j - (oi + 1))).
    { unfold index. bdestruct; subst; rewrite ?Z.sub_diag; try done.
      replace (Z.to_nat (j - oi)) with (S (Z.to_nat (j - (oi + 1)))) by lia. done. }
    rewrite Ix. destruct (bool_decide (h' = h) && (i =? uint32 mi)) eqn:E.
    + apply andb_true_iff in E as [E1%bool_decide_eq_true E2%Z.eqb_eq]. subst h' i.
      destruct (Z.eqb_spec j oi) as [->|N].
      * replace (index outs (oi - (oi + 1))) with (@None Output) by (unfold index; bdestruct; done).
        now rewrite lookup_insert_eq.
      * destruct (index outs (j - (oi + 1))); [done|]. apply lookup_insert_ne. congruence.
    + apply lookup_insert_ne. intros [= -> <- _]. rewrite bool_decide_eq_true_2, Z.eqb_refl in E by done.
      done.
Qed.

Definition payment_of (m : Message) : option PaymentPayload :=
  if App m =? APP_PAYMENT then
    match Payload m with Some (PayPayment p) => Some p | _ => None end
  else None.

(** Payment messages hold payments, and indices fit in 32 bits. *)
Definition small_message (m : Message) : Prop :=
  App m = APP_PAYMENT -> exists p, Payload m = Some (PayPayment p) /\ len (Outputs p) < 2 ^ 32.

(** The output that a list of messages creates at a position. *)
Definition created (msgs : list Message) (i j : Z) : option Utxo :=
  m ← index msgs i; p ← payment_of m; o ← index (Outputs p) j; Some (new_utxo p o).

Lemma created_cons m msgs i j :
  created (m :: msgs) i j =
  if i =? 0 then p ← payment_of m; o ← index (Outputs p) j; Some (new_utxo p o)
  else created msgs (i - 1) j.
Proof. unfold created. rewrite index_cons. now destruct (i =? 0). Qed.

Lemma message_utxos_lookup {E} h msgs : Forall small_message msgs -> forall mi acc,
  0 <= mi -> mi + len msgs < 2 ^ 32 ->
  exists r, message_utxos (E := E) h mi msgs acc = Ok r /\
    forall h' i j, r !! mkOutPoint h' i j =
      match (if bool_decide (h' = h) then created msgs (i - mi) j else None) with
      | Some u => Some u
      | None => acc !! mkOutPoint h' i j
      end.
Proof.
  induction 1 as [|m msgs Hm _ IH]; intros mi acc H0 Hl.
  { exists acc. split; [done|]. intros. unfold created, index.
    rewrite lookup_nil. destruct (bool_decide _); [|done]. destruct (i - mi <? 0); done. }
  rewrite len_cons in Hl. pose proof (len_nonneg msgs). simpl.
  assert (U : uint32 mi = mi) by (apply wrapU_small; lia).
  assert (NC : forall j, created msgs (mi - (mi + 1)) j = None).
  { intros j. unfold created, index. now rewrite (proj2 (Z.ltb_lt (mi - (mi + 1)) 0)) by lia. }
  destruct (Z.eqb_spec (App m) APP_PAYMENT) as [A|A]; cbn [negb].
  - destruct (Hm A) as (p & P & Lp). unfold as_payment. rewrite P. cbn [rbind].
    destruct (IH (mi + 1) (output_utxos h mi 0 (LockTime p) (Outputs p) acc)) as (r & -> & R); [lia..|].
    exists r. split; [done|]. intros h' i j. rewrite R, output_utxos_lookup by lia.
    rewrite U, Z.sub_0_r. destruct (bool_decide (h' = h)); [|done]. cbn [andb].
    rewrite created_cons. replace (i - mi =? 0) with (i =? mi) by (bdestruct; done).
    destruct (Z.eqb_spec i mi) as [->|N].
    + rewrite NC. unfold payment_of. rewrite A, P. simpl. now destruct (index (Outputs p) j).
    + now replace (i - (mi + 1)) with (i - mi - 1) by lia.
  - destruct (IH (mi + 1) acc) as (r & -> & R); [lia..|].
    exists r. split; [done|]. intros h' i j. rewrite R.
    destruct (bool_decide (h' = h)); [|done]. rewrite created_cons.
    replace (i - mi =? 0) with (i =? mi) by (bdestruct; done). destruct (Z.eqb_spec i mi) as [->|N].
    + rewrite NC. unfold payment_of. rewrite (proj2 (Z.eqb_neq _ _)) by done. done.
    + now replace (i - (mi + 1)) with (i - mi - 1) by lia.
Qed.

(** [GetNewUtxos] holds exactly the outputs of the transaction's payments: the entry at
    (hash, i, j) is output j of message i when that is a payment, with the payment's lock time,
    and there is no other entry; the hash is the transaction's. *)
Theorem GetNewUtxos_spec (L : RlpLib) (keccak : bytes -> Hash) (tx tx' : Transaction) (h : Hash) :
  Hash_ keccak tx = (tx', Ok h) -> Forall small_message (Messages tx) -> len (Messages tx) < 2 ^ 32 ->
  exists us, GetNewUtxos keccak tx = (tx', Ok us) /\
    forall o, us !! o = if bool_decide (TxHash o = h)
                        then created (Messages tx) (MessageIndex o) (OutIndex o) else None.
Proof.
  intros H F Hl. assert (D : Messages tx' = Messages tx).
  { unfold Hash_, bind, gets, ret, lift, modify in H. unfold Messages.
    destruct (tx_hash tx); [by injection H as <- _|].
    destruct (RlpHash _ _); try discriminate H. by injection H as <- _. }
  unfold GetNewUtxos. erewrite bind_ok by exact H. unfold bind, gets, lift. rewrite D.
  destruct (message_utxos_lookup (E := tx_error) h (Messages tx) F 0 ∅) as (us & -> & Lk); [lia..|].
  exists us. split; [done|]. intros [oh oi oj]. rewrite Lk, Z.sub_0_r, lookup_empty. simpl.
  destruct (bool_decide _); [|done]. now destruct (created _ _ _).
Qed.
Lemma GetNewUtxos_spec_witness :
  exists us, GetNewUtxos (L := digit_lib) (fun b => b) (mkTx (txdata sample_tx) (Some [x22])) =
               (mkTx (txdata sample_tx) (Some [x22]), Ok us) /\
             us !! mkOutPoint [x22] 0 0 = created (Messages sample_tx) 0 0.
Proof.
  destruct (GetNewUtxos_spec digit_lib (fun b => b) (mkTx (txdata sample_tx) (Some [x22]))
    (mkTx (txdata sample_tx) (Some [x22])) [x22]) as (us & E & K).
  - reflexivity.
  - constructor; [|constructor]. intros _. exists sample_payment. split; [reflexivity|].
    vm_compute; congruence.
  - vm_compute; reflexivity.
  - exists us. split; [exact E | apply K].
Defined.

(** ** Flags *)

(** Spending marks an output as spent, keeps its amount, asset, script and coinbase flag,
    and is idempotent; but the modified mark it sets is not seen: [IsModified] multiplies the
    flags instead of masking them, and is false of every spent output. *)
Theorem Spend_spec (u : Utxo) :
  0 <= u_Flags u < 8 ->
  IsSpent (Spend u) = true /\ Spend (Spend u) = Spend u /\
  u_Amount (Spend u) = u_Amount u /\ u_Asset (Spend u) = u_Asset u /\
  u_PkScript (Spend u) = u_PkScript u /\ Utxo_IsCoinBase (Spend u) = Utxo_IsCoinBase u /\
  IsModified (Spend u) = false.
Proof.
  intros F. destruct u as [a s k l t f]; simpl in F.
  assert (K : f ∈ seqZ 0 8) by (apply elem_of_seqZ; lia). clear F. revert f K.
  apply Forall_forall. repeat constructor; done.
Qed.
Lemma Spend_spec_witness : IsModified (Spend (mkUtxo 5 None [] 0 0 0)) = false.
Proof.
  refine (proj2 (proj2 (proj2 (proj2 (proj2 (proj2 (Spend_spec (mkUtxo 5 None [] 0 0 0) _)))))));
  vm_compute; split; congruence.
Defined.
