(* ===== verification/TxFlow.v ===== *)
(** What a contract transaction keeps while it moves from request to result (transaction.go,
    GetRequestTx, GetResultTx, GetResultRawTx, RequestHash) and which outputs it spends
    (GetSpendOutpoints). *)

From Stdlib Require Import ZArith Lia.
From S2P Require Import Prelude Address Tx RlpModel TxProps.

(** ** Requests and results *)

(** The request comes before any signature of the jury. *)
Definition request_first (msgs : list Message) : Prop :=
  exists before req after, msgs = before ++ req :: after /\ IsRequest (App req) = true /\
    Forall (fun m => IsRequest (App m) = false /\ App m <> APP_SIGNATURE) before.

Lemma upto_first f before req after : f req = true -> Forall (fun m => f m = false) before ->
  upto f (before ++ req :: after) = before ++ [req].
Proof.
  intros R. induction 1 as [|m before Hm _ IH]; simpl; [by rewrite R|]. by rewrite Hm, IH.
Qed.

Lemma request_code m : (APP_CONTRACT_TPL_REQUEST <=? App m) = IsRequest (App m).
Proof. unfold IsRequest, APP_UNKNOW, APP_CONTRACT_TPL_REQUEST. apply Bool.eq_iff_eq_true. lia. Qed.

Lemma request_kind m : IsRequest (App m) = true -> (App m =? APP_SIGNATURE) = false /\ (App m =? APP_PAYMENT) = false.
Proof. unfold IsRequest, APP_UNKNOW, APP_SIGNATURE, APP_PAYMENT. lia. Qed.

Lemma complete_payment m : complete m -> App m = APP_PAYMENT ->
  exists p, as_payment (E := tx_error) m = Ok p /\ complete (mkMessage (App m) (Some (PayPayment (clear_signatures p)))).
Proof.
  intros (p & P & A & C) Ap. rewrite Ap in A. destruct p; try discriminate A.
  unfold as_payment. rewrite P. eexists; split; [done|]. rewrite Ap.
  eexists; split; [done|]. split; [done|]. exact C.
Qed.

(** The messages kept in a raw result start with those before the request and the request. *)
Lemma ResultRaw_after msgs : Forall complete msgs ->
  exists r, ResultRaw_loop (E := tx_error) true msgs = Ok r /\ Forall complete r.
Proof.
  induction 1 as [|m msgs C _ (r & E & F)]; [by exists []|]. simpl. rewrite E.
  destruct (App m =? APP_SIGNATURE); [by exists r|].
  destruct (Z.eqb_spec (App m) APP_PAYMENT) as [A|_]; simpl; [|eexists; split; [done|]; by constructor].
  destruct (complete_payment m C A) as (p & -> & C'). simpl. eexists; split; [done|]. by constructor.
Qed.

Lemma ResultRaw_split before req after : Forall complete after -> IsRequest (App req) = true ->
  Forall (fun m => IsRequest (App m) = false /\ App m <> APP_SIGNATURE) before ->
  exists r, ResultRaw_loop (E := tx_error) false (before ++ req :: after) = Ok (before ++ req :: r) /\
            Forall complete r.
Proof.
  intros C R F. destruct (ResultRaw_after after C) as (r & E & Cr). exists r. split; [|done].
  destruct (request_kind req R) as [K1 K2].
  induction F as [|m before [Hm Hs] _ IH]; simpl.
  - rewrite R, K1, K2. simpl. by rewrite E.
  - rewrite Hm, (proj2 (Z.eqb_neq _ _) Hs). simpl. by rewrite IH.
Qed.

(** What [GetResultTx] keeps. *)
Lemma results_split before req after : IsRequest (App req) = true ->
  Forall (fun m => IsRequest (App m) = false /\ App m <> APP_SIGNATURE) before ->
  List.filter (fun m => negb (App m =? APP_SIGNATURE)) (before ++ req :: after) =
  before ++ req :: List.filter (fun m => negb (App m =? APP_SIGNATURE)) after.
Proof.
  intros R F. destruct (request_kind req R) as [K _].
  induction F as [|m before [_ Hs] _ IH]; simpl; [by rewrite K|].
  rewrite (proj2 (Z.eqb_neq _ _) Hs). simpl. by rewrite IH.
Qed.

Lemma complete_filter f msgs : Forall complete msgs -> Forall complete (List.filter f msgs).
Proof. induction 1; simpl; [done|]. destruct (f _); [by constructor|done]. Qed.

Section RequestHash.
Context {L : RlpLib} (keccak : bytes -> Hash).

Lemma RequestHash_split tx before req after : Messages tx = before ++ req :: after ->
  Forall complete before -> complete req -> Forall complete after -> IsRequest (App req) = true ->
  Forall (fun m => IsRequest (App m) = false /\ App m <> APP_SIGNATURE) before ->
  RequestHash keccak tx = RlpHash keccak (mkSdw (before ++ [req]) [] false).
Proof.
  intros M Cb Cr Ca R F. unfold RequestHash.
  rewrite TxMessages_id by (rewrite M, Forall_app, Forall_cons; done). simpl. rewrite M, upto_first; [done|..].
  - by rewrite request_code.
  - eapply Forall_impl; [exact F|]. intros m [Hm _]. by rewrite request_code.
Qed.
End RequestHash.

(** A call of a contract with its result and a signature. *)
Definition invoke_tx : Transaction :=
  NewTransaction [mkMessage APP_PAYMENT (Some (PayPayment sample_payment));
    mkMessage APP_CONTRACT_INVOKE_REQUEST (Some (PayInvokeRequest (mkInvokeReq [x01] [] 0)));
    mkMessage APP_PAYMENT (Some (PayPayment sample_payment));
    mkMessage APP_SIGNATURE (Some (PaySignature (mkSignature [])))].

(** The id of a request survives its execution.  For a contract transaction whose request
    comes before the signatures of the jury, the request sent out, the unsigned result and the raw
    result all have the same request hash as the transaction, so that a result can be matched with
    its request. *)
Theorem request_hash_stable (L : RlpLib) (keccak : bytes -> Hash) (tx : Transaction) :
  Forall complete (Messages tx) -> request_first (Messages tx) ->
  exists request result raw,
    GetRequestTx (E := tx_error) tx = Ok request /\ GetResultTx (E := tx_error) tx = Ok result /\
    GetResultRawTx (E := tx_error) tx = Ok raw /\
    RequestHash keccak request = RequestHash keccak tx /\
    RequestHash keccak result = RequestHash keccak tx /\
    RequestHash keccak raw = RequestHash keccak tx.
Proof.
  intros C (before & req & after & M & R & F).
  pose proof C as C0. rewrite M, Forall_app, Forall_cons in C0. destruct C0 as (Cb & Cr & Ca).
  destruct (ResultRaw_split before req after Ca R F) as (r & E & Fr).
  unfold GetRequestTx, GetResultTx, GetResultRawTx. rewrite TxMessages_id by done. simpl.
  rewrite M, E, upto_first, results_split by (done || by eapply Forall_impl; [exact F|intros ? []]). simpl.
  do 3 eexists. do 3 (split; [reflexivity|]).
  rewrite (RequestHash_split keccak tx before req after) by done.
  split_and!; eapply RequestHash_split; try reflexivity; try done.
  by apply complete_filter.
Qed.

Lemma request_hash_stable_witness :
  exists request, GetRequestTx (E := tx_error) invoke_tx = Ok request /\
    RequestHash (L := digit_lib) (fun b => b) request = RequestHash (L := digit_lib) (fun b => b) invoke_tx.
Proof.
  destruct (request_hash_stable digit_lib (fun b => b) invoke_tx) as (q & _ & _ & Q & _ & _ & E & _).
  - repeat constructor; eexists; split_and!; try reflexivity; repeat constructor; discriminate.
  - exists [mkMessage APP_PAYMENT (Some (PayPayment sample_payment))]. do 2 eexists.
    split; [reflexivity|]. split; [reflexivity|]. repeat constructor; discriminate.
  - exists q. split; [exact Q | exact E].
Defined.

(** ** Spent outputs *)

(** Payment messages hold payments. *)
Definition typed_message (m : Message) : Prop :=
  App m = APP_PAYMENT -> exists p, Payload m = Some (PayPayment p).

(** The output an input refers to, in a transaction whose hash is [h]: a reference to the
    transaction itself is written with the hash of ones. *)
Definition resolve (h : Hash) (o : OutPoint) : OutPoint :=
  if IsSelfHash (TxHash o) then mkOutPoint h (MessageIndex o) (OutIndex o) else o.

Definition spent (h : Hash) (msgs : list Message) : list OutPoint :=
  p ← omap payment_of msgs; map (resolve h) (omap PreviousOutPoint (Inputs p)).

Section Spent.
Context {L : RlpLib} (keccak : bytes -> Hash).

Lemma Hash_cached tx tx' h : Hash_ keccak tx = (tx', Ok h) ->
  Hash_ keccak tx' = (tx', Ok h) /\ txdata tx' = txdata tx.
Proof.
  unfold Hash_, bind, gets, ret, lift, modify. destruct (tx_hash tx) as [h0|] eqn:E.
  - intros [= <- <-]. by rewrite E.
  - destruct (RlpHash _ _); try done. by intros [= <- <-].
Qed.

(** A transaction whose hash is [h], cached or not. *)
Definition hashes (h : Hash) (d : transaction_sdw) (tx : Transaction) : Prop :=
  txdata tx = d /\ exists tx', Hash_ keccak tx = (tx', Ok h).

Lemma spend_inputs_spec h d ins : forall tx, hashes h d tx ->
  exists tx', spend_inputs keccak ins tx = (tx', Ok (map (resolve h) (omap PreviousOutPoint ins))) /\ hashes h d tx'.
Proof.
  induction ins as [|i ins IH]; intros tx H; [by exists tx|]. simpl.
  destruct (PreviousOutPoint i) as [o|] eqn:P; [|by apply IH]. simpl. unfold resolve at 1.
  destruct (IsSelfHash (TxHash o)) eqn:S.
  - destruct H as (D & tx1 & H1). destruct (Hash_cached _ _ _ H1) as [H2 D2].
    destruct (IH tx1) as (tx2 & E & H3); [split; [congruence|eauto]|].
    exists tx2. split; [|done]. unfold bind. rewrite H1. simpl. rewrite E, ?S. done.
  - destruct (IH tx H) as (tx2 & E & H3). exists tx2. split; [|done]. unfold bind. simpl. rewrite E, ?S. done.
Qed.

Lemma spend_messages_spec h d msgs : Forall typed_message msgs -> forall tx, hashes h d tx ->
  exists tx', spend_messages keccak msgs tx = (tx', Ok (spent h msgs)) /\ hashes h d tx'.
Proof.
  induction 1 as [|m msgs Tm _ IH]; intros tx H; [by exists tx|]. unfold spent. simpl. unfold payment_of at 1.
  destruct (Z.eqb_spec (App m) APP_PAYMENT) as [A|A]; simpl; [|by apply IH].
  destruct (Tm A) as (p & P). unfold as_payment. rewrite P.
  destruct (spend_inputs_spec h d (Inputs p) tx H) as (tx1 & E1 & H1).
  destruct (IH tx1 H1) as (tx2 & E2 & H2). exists tx2. split; [|done].
  unfold bind, lift. rewrite E1, E2. done.
Qed.
End Spent.

(** [GetSpendOutpoints] lists exactly the outputs the payments of the transaction refer to,
    in order, a reference to the transaction itself being given the transaction's own hash, the
    one under which [GetNewUtxos] files its outputs; the data of the transaction is unchanged. *)
Theorem GetSpendOutpoints_spec (L : RlpLib) (keccak : bytes -> Hash) (tx tx' : Transaction) (h : Hash) :
  Hash_ keccak tx = (tx', Ok h) -> Forall typed_message (Messages tx) ->
  exists tx'', GetSpendOutpoints keccak tx = (tx'', Ok (spent h (Messages tx))) /\ txdata tx'' = txdata tx.
Proof.
  intros H F. destruct (spend_messages_spec keccak h (txdata tx) (Messages tx) F tx) as (tx'' & E & D & _).
  - split; eauto.
  - exists tx''. split; [exact E | exact D].
Qed.

Lemma GetSpendOutpoints_spec_witness :
  exists tx'', GetSpendOutpoints (L := digit_lib) (fun b => b) (mkTx (txdata invoke_tx) (Some [x22])) =
                 (tx'', Ok (spent [x22] (Messages invoke_tx))) /\ txdata tx'' = txdata invoke_tx.
Proof.
  apply (GetSpendOutpoints_spec digit_lib (fun b => b) (mkTx (txdata invoke_tx) (Some [x22]))
           (mkTx (txdata invoke_tx) (Some [x22])) [x22]); [reflexivity|].
  repeat constructor; intros H; try discriminate H; eexists; reflexivity.
Defined.
