(* ===== verification/SigHash.v ===== *)
(** The data a signature covers: [calcSignatureData] and its callers in
    src/tokenengine/internal/txscript/script.go.

    The source makes a deep copy of the transaction, edits the copy's payments through pointers
    into it and encodes it.  Here the edited messages are a new list; a failed index, slice or
    type assertion is [Panic]. *)

From Stdlib Require Import ZArith Lia.
From S2P Require Import Prelude Errors Opcode Script Address Tx RlpModel TxProps.

(** [type SigHashType uint32] *)
Definition SigHashType : Type := Z.
Definition SigHashOld : SigHashType := 0x0.
Definition SigHashAll : SigHashType := 0x1.
Definition SigHashNone : SigHashType := 0x2.
Definition SigHashSingle : SigHashType := 0x3.
Definition SigHashRaw : SigHashType := 0x4.
Definition SigHashAnyOneCanPay : SigHashType := 0x80.
Definition SigHashOneMessage : SigHashType := 0x40.
Definition sigHashMask : Z := 0x1f.

Definition set_script (s : bytes) (i : Input) : Input := mkInput s (Extra i) (PreviousOutPoint i).

(** [for i := range pay.Inputs]: input [idx] of the signed message gets the script, the others
    lose theirs. *)
Fixpoint set_scripts (i idx : Z) (here : bool) (sigScript : bytes) (ins : list Input) : list Input :=
  match ins with
  | [] => []
  | x :: ins' =>
      set_script (if (i =? idx) && here then sigScript else []) x ::
      set_scripts (i + 1) idx here sigScript ins'
  end.

(** [for mIdx, mCopy := range msgs] *)
Fixpoint edit_messages {E} (mIdx msgIdx idx requestIndex : Z) (isInResult : bool) (hashType : SigHashType)
    (sigScript : bytes) (msgs : list Message) : result E (list Message) :=
  match msgs with
  | [] => Ok []
  | m :: msgs' =>
      let? m' :=
        (if App m =? APP_PAYMENT then
           let? pay := as_payment m in
           if isInResult && (mIdx <? requestIndex) then Ok m
           else
             let here := (mIdx =? msgIdx) && negb (hashType =? SigHashRaw) in
             Ok (mkMessage (App m) (Some (PayPayment
                   (mkPayment (set_scripts 0 idx here sigScript (Inputs pay)) (Outputs pay)
                      (LockTime pay)))))
         else Ok m) in
      let? rest := edit_messages (mIdx + 1) msgIdx idx requestIndex isInResult hashType sigScript msgs' in
      Ok (m' :: rest)
  end.

(** [s[:n]] and [s[a:b]].  Go lets a slice grow up to its capacity; here the bound is the length,
    which is what the guard above (for outputs) and [NewEngine] (for inputs) have established. *)
Definition slice_to {E A} (l : list A) (n : Z) : result E (list A) :=
  if (0 <=? n) && (n <=? len l) then Ok (slice l 0 n) else Panic.
Definition slice_at {E A} (l : list A) (a b : Z) : result E (list A) :=
  if (0 <=? a) && (a <=? b) && (b <=? len l) then Ok (slice l a b) else Panic.

Fixpoint zero_outputs (i idx : Z) (outs : list Output) : list Output :=
  match outs with
  | [] => []
  | o :: outs' =>
      (if i <? idx then mkOutput 0 [] (out_Asset o) else o) :: zero_outputs (i + 1) idx outs'
  end.

(** The [switch hashType & sigHashMask] and the AnyOneCanPay step, on [payCopy]. *)
Definition edit_outputs {E} (hashType : SigHashType) (idx : Z) (pay : PaymentPayload)
  : result E PaymentPayload :=
  if Z.land hashType sigHashMask =? SigHashNone then Ok (mkPayment (Inputs pay) [] (LockTime pay))
  else if Z.land hashType sigHashMask =? SigHashSingle then
    let? outs := slice_to (Outputs pay) (idx + 1) in
    Ok (mkPayment (Inputs pay) (zero_outputs 0 idx outs) (LockTime pay))
  else Ok pay.

Definition edit_inputs {E} (hashType : SigHashType) (idx : Z) (pay : PaymentPayload)
  : result E PaymentPayload :=
  if negb (Z.land hashType SigHashAnyOneCanPay =? 0) then
    let? ins := slice_at (Inputs pay) idx (idx + 1) in
    Ok (mkPayment ins (Outputs pay) (LockTime pay))
  else Ok pay.

Definition message_at {E} (msgs : list Message) (i : Z) : result E Message := rget (index msgs i).

Section SigHash.
Context {L : RlpLib}.
Variable keccak : bytes -> Hash.

(** The transaction that is signed: the whole one, or one with only the message at hand. *)
Definition signed_tx (hashType : SigHashType) (otx : Transaction) (omsgIdx : Z)
  : result tx_error (Transaction * Z) :=
  if Z.land hashType SigHashOneMessage =? SigHashOneMessage then
    let? msg := message_at (Messages otx) omsgIdx in
    match AddMessage keccak (Some msg) (new_tx emptySdw) with
    | (tx, Ok _) => Ok (tx, 0)
    | (_, Err e) => Err e
    | (_, Panic) => Panic
    end
  else Ok (otx, omsgIdx).

Definition calcSignatureData (script : list parsedOpcode) (hashType : SigHashType)
    (otx : Transaction) (omsgIdx idx : Z) : result tx_error bytes :=
  let? (tx, msgIdx) := signed_tx hashType otx omsgIdx in
  let? msg := message_at (Messages tx) msgIdx in
  let? pay := as_payment msg in
  if (Z.land hashType sigHashMask =? SigHashSingle) && (len (Outputs pay) <=? idx) then
    Ok (x01 :: replicate 31 x00)
  else
    let script := removeOpcode script OP_CODESEPARATOR in
    let? txCopy := Clone tx in
    let msgs := Messages txCopy in
    let? msgCopy := message_at msgs msgIdx in
    let? _ := as_payment msgCopy in
    let requestIndex := GetRequestMsgIndex tx in
    let isInResult := (requestIndex <? msgIdx) && negb (requestIndex =? -1) in
    let sigScript := match unparseScript script with Ok s => s | _ => [] end in
    let? msgs := edit_messages 0 msgIdx idx requestIndex isInResult hashType sigScript msgs in
    let? msgCopy := message_at msgs msgIdx in
    let? payCopy := as_payment msgCopy in
    let? payCopy := edit_outputs hashType idx payCopy in
    let? payCopy := edit_inputs hashType idx payCopy in
    let msgs := <[Z.to_nat msgIdx := mkMessage (App msgCopy) (Some (PayPayment payCopy))]> msgs in
    match EncodeRLP (mkSdw msgs (CertId txCopy) (Illegal txCopy)) with
    | Ok data => Ok data
    | Err _ => Ok []
    | Panic => Panic
    end.

(** [crypto.Hash], an [ICrypto] method; its error is ignored and the digest then nil. *)
Variable crypto_Hash : bytes -> result string bytes.

Definition calcSignatureHash (script : list parsedOpcode) (hashType : SigHashType)
    (tx : Transaction) (msgIdx idx : Z) : result tx_error bytes :=
  let? data := calcSignatureData script hashType tx msgIdx idx in
  match crypto_Hash data with
  | Ok hash => Ok hash
  | Err _ => Ok []
  | Panic => Panic
  end.

Definition CalcSignatureHash (script : bytes) (hashType : SigHashType) (tx : Transaction)
    (msgIdx idx : Z) : result error bytes :=
  match parseScript script with
  | (_, Some e) => Err ErrCannotParseOutput
  | (parsedScript, None) =>
      match calcSignatureHash parsedScript hashType tx msgIdx idx with
      | Ok h => Ok h
      | Err _ => Panic
      | Panic => Panic
      end
  end.
End SigHash.

(** ** Lemmas *)

(** A message, and the data of a transaction, without the signature scripts. *)
Definition strip_message (m : Message) : Message :=
  if App m =? APP_PAYMENT then
    match Payload m with
    | Some (PayPayment p) => mkMessage (App m) (Some (PayPayment (clear_signatures p)))
    | _ => m
    end
  else m.
Definition strip (d : transaction_sdw) : transaction_sdw :=
  mkSdw (map strip_message (sdw_TxMessages d)) (sdw_CertId d) (sdw_Illegal d).

Lemma strip_App m : App (strip_message m) = App m.
Proof. unfold strip_message. destruct (_ =? _); [|done]. destruct (Payload m) as [[]|]; done. Qed.

Lemma as_payment_strip {E} m : as_payment (E := E) (strip_message m) =
  let? p := as_payment m in Ok (if App m =? APP_PAYMENT then clear_signatures p else p).
Proof.
  unfold strip_message, as_payment. destruct (App m =? APP_PAYMENT).
  - destruct (Payload m) as [[]|] eqn:P; simpl; rewrite ?P; done.
  - destruct (Payload m) as [[]|]; done.
Qed.

Lemma set_scripts_clear ins : forall i idx here s,
  set_scripts i idx here s (map (fun x => mkInput [] (Extra x) (PreviousOutPoint x)) ins) =
  set_scripts i idx here s ins.
Proof. induction ins as [|x ins IH]; intros; simpl; [done|]. now rewrite IH. Qed.

Lemma clear_set_scripts ins : forall i idx here s,
  map (fun x => mkInput [] (Extra x) (PreviousOutPoint x)) (set_scripts i idx here s ins) =
  map (fun x => mkInput [] (Extra x) (PreviousOutPoint x)) ins.
Proof. induction ins as [|x ins IH]; intros; simpl; [done|]. now rewrite IH. Qed.

(** Outside contract results, the edit does not see the signature scripts ... *)
Lemma edit_messages_strip {E} msgs : forall mIdx msgIdx idx ri ht s,
  edit_messages (E := E) mIdx msgIdx idx ri false ht s (map strip_message msgs) =
  edit_messages mIdx msgIdx idx ri false ht s msgs.
Proof.
  induction msgs as [|m msgs IH]; intros; [done|]. cbn [map edit_messages].
  rewrite IH, strip_App, as_payment_strip. destruct (App m =? APP_PAYMENT) eqn:A.
  - destruct (as_payment m) as [p| |]; try done. simpl. now rewrite set_scripts_clear.
  - unfold strip_message. now rewrite A.
Qed.

(** ... and changes nothing else. *)
Lemma strip_edit_messages {E} msgs : forall mIdx msgIdx idx ri b ht s r,
  edit_messages (E := E) mIdx msgIdx idx ri b ht s msgs = Ok r ->
  map strip_message r = map strip_message msgs.
Proof.
  induction msgs as [|m msgs IH]; intros mIdx msgIdx idx ri b ht s r; cbn [edit_messages].
  { by intros [= <-]. }
  intros H. apply rbind_inv in H as (m' & Hm & H). apply rbind_inv in H as (rest & Hr & [= <-]).
  cbn [map]. rewrite (IH _ _ _ _ _ _ _ _ Hr). f_equal.
  destruct (Z.eqb_spec (App m) APP_PAYMENT) as [A|]; [|by injection Hm as <-].
  unfold as_payment in Hm. destruct (Payload m) as [[p| | | | | | | | | | |]|] eqn:P; try done.
  cbn [rbind] in Hm. destruct (_ && _) in Hm; [by injection Hm as <-|]. injection Hm as <-.
  unfold strip_message; simpl. rewrite A, P. simpl. unfold clear_signatures; simpl.
  now rewrite clear_set_scripts.
Qed.

Lemma find_index_strip f msgs : (forall m, f (strip_message m) = f m) -> forall i,
  find_index_from i f (map strip_message msgs) = find_index_from i f msgs.
Proof. intros F. induction msgs as [|m msgs IH]; intros i; simpl; [done|]. now rewrite F, IH. Qed.

Lemma index_map {A B} (f : A -> B) l i : index (map f l) i = f <$> index l i.
Proof. unfold index. destruct (_ <? 0); [done|]. apply list_lookup_fmap. Qed.

Section Data.
Context {L : RlpLib} {LL : RlpLaws L}.
Variable keccak : bytes -> Hash.

(** The signed form, once the transaction to sign is known. *)
Lemma calcSignatureData_form script ht otx omsgIdx idx tx msgIdx :
  signed_tx keccak ht otx omsgIdx = Ok (tx, msgIdx) -> encodable_tx (txdata tx) ->
  calcSignatureData keccak script ht otx omsgIdx idx =
  let? msg := message_at (Messages tx) msgIdx in
  let? pay := as_payment msg in
  if (Z.land ht sigHashMask =? SigHashSingle) && (len (Outputs pay) <=? idx) then
    Ok (x01 :: replicate 31 x00)
  else
    let requestIndex := GetRequestMsgIndex tx in
    let isInResult := (requestIndex <? msgIdx) && negb (requestIndex =? -1) in
    let sigScript := match unparseScript (removeOpcode script OP_CODESEPARATOR) with
                     | Ok s => s | _ => [] end in
    let? msgs := edit_messages 0 msgIdx idx requestIndex isInResult ht sigScript (Messages tx) in
    let? msgCopy := message_at msgs msgIdx in
    let? payCopy := as_payment msgCopy in
    let? payCopy := edit_outputs ht idx payCopy in
    let? payCopy := edit_inputs ht idx payCopy in
    let msgs := <[Z.to_nat msgIdx := mkMessage (App msgCopy) (Some (PayPayment payCopy))]> msgs in
    match EncodeRLP (mkSdw msgs (CertId tx) (Illegal tx)) with
    | Ok data => Ok data
    | Err _ => Ok []
    | Panic => Panic
    end.
Proof.
  intros S H. unfold calcSignatureData. rewrite S. cbn [rbind].
  destruct (message_at (Messages tx) msgIdx) as [m| |] eqn:M; try done. cbn [rbind].
  destruct (as_payment m) as [p| |] eqn:P; try done. cbn [rbind].
  destruct (_ && _); [done|]. rewrite Clone_data by done. cbn [rbind].
  unfold Messages in *; simpl. rewrite M. cbn [rbind]. rewrite P. reflexivity.
Qed.

(** ... and the transaction to sign is the whole one without [SigHashOneMessage]. *)
Lemma signed_whole ht tx msgIdx : Z.land ht SigHashOneMessage = 0 -> signed_tx keccak ht tx msgIdx = Ok (tx, msgIdx).
Proof. intros O. unfold signed_tx. now rewrite O. Qed.

(** *** The signed data can be computed *)

(** A message with a payload of its kind; any but a payment must be encodable. *)
Definition sendable (m : Message) : Prop :=
  exists p, Payload m = Some p /\ App m = kind p /\
    match p with PayPayment _ => True | p => encodable_payload p end.

Lemma sendable_encodable m : encodable_message m -> sendable m.
Proof. intros (p & P & A & N). exists p. split_and!; [done|done|now destruct p]. Qed.

Lemma sendable_payment m p : sendable m -> Payload m = Some (PayPayment p) -> App m = APP_PAYMENT.
Proof. intros (q & Q & A & _) P. rewrite P in Q. injection Q as <-. done. Qed.

Lemma sendable_as_payment {E} m : sendable m -> App m = APP_PAYMENT -> exists p, as_payment (E := E) m = Ok p.
Proof.
  intros (q & Q & A & _) P. unfold as_payment. rewrite Q. rewrite A in P. destruct q; try discriminate P. by eexists.
Qed.

Lemma sendable_strip m m' : strip_message m' = strip_message m -> sendable m -> sendable m'.
Proof.
  intros S (p & P & A & N). assert (A' : App m' = kind p) by (rewrite <- A, <- (strip_App m), <- S; symmetry; apply strip_App).
  unfold strip_message in S. rewrite A, A' in S.
  destruct p; simpl in S; try (rewrite S in *; eexists; split_and!; done).
  rewrite P in S. destruct (Payload m') as [[]|] eqn:P'; try (rewrite S in P'; done).
  eexists. split_and!; done.
Qed.

Lemma edit_messages_ok {E} msgs : Forall sendable msgs -> forall mIdx msgIdx idx ri b ht s,
  exists r, edit_messages (E := E) mIdx msgIdx idx ri b ht s msgs = Ok r.
Proof.
  induction 1 as [|m msgs Sm _ IH]; intros; cbn [edit_messages]; [by eexists|].
  match goal with |- context [rbind ?c _] => assert (C : exists m', c = Ok m') end.
  { destruct (Z.eqb_spec (App m) APP_PAYMENT) as [A|]; [|by eexists].
    destruct (sendable_as_payment (E := E) m Sm A) as [p ->]. cbn [rbind]. destruct (b && _); by eexists. }
  destruct C as [m' ->]. cbn [rbind]. destruct (IH (mIdx + 1) msgIdx idx ri b ht s) as [r ->]. by eexists.
Qed.

(** The codecs of what is edited report errors instead of panicking. *)
Definition codec_safe {A} (c : Codec A) : Prop := forall a, enc c a <> Panic.

Lemma EncodeRLP_safe d : codec_safe c_payment -> codec_safe c_tx -> Forall sendable (sdw_TxMessages d) ->
  EncodeRLP d <> Panic.
Proof.
  intros CP CT F. unfold EncodeRLP, tx2Temp.
  enough (M : mapR (fun m => let? data := enc_payload (Payload m) in Ok (mkMessageTemp (App m) data)) (sdw_TxMessages d) <> Panic).
  { destruct (mapR _ _); cbn [rbind]; [apply CT|done|done]. }
  induction F as [|m msgs (p & P & A & N) _ IH]; [done|]. cbn [mapR]. rewrite P.
  assert (X : enc_payload (Some p) <> Panic).
  { destruct p; try (destruct (payload_roundtrip _ N) as (b & -> & _); done). apply CP. }
  destruct (enc_payload (Some p)); cbn [rbind]; [|done|done]. destruct (mapR _ msgs); done.
Qed.

Lemma payment_strip_eq m m' p : strip_message m' = strip_message m -> sendable m -> Payload m = Some (PayPayment p) ->
  exists p', Payload m' = Some (PayPayment p') /\ Outputs p' = Outputs p /\ len (Inputs p') = len (Inputs p).
Proof.
  intros S Sm P. pose proof (sendable_payment _ _ Sm P) as A. pose proof (sendable_strip _ _ S Sm) as Sm'.
  assert (A' : App m' = APP_PAYMENT) by (rewrite <- A, <- (strip_App m), <- S; symmetry; apply strip_App).
  unfold strip_message in S. rewrite A, A', P in S. simpl in S.
  destruct (Payload m') as [[]|] eqn:P'; try (destruct Sm' as (q & Q & K & _); rewrite P' in Q; injection Q as <-; rewrite K in A'; discriminate A').
  2:{ destruct Sm' as (q & Q & _). congruence. }
  injection S as S1 S2 S3. eexists. split; [done|]. split; [done|].
  apply (f_equal length) in S1. rewrite !length_map in S1. unfold len. now rewrite S1.
Qed.

(** *** Signing one message of a transaction *)
Lemma signed_one ht tx msgIdx m : Z.land ht SigHashOneMessage = SigHashOneMessage ->
  codec_safe c_payment -> codec_safe c_tx -> index (Messages tx) msgIdx = Some m -> complete m -> sendable m ->
  exists h, signed_tx keccak ht tx msgIdx = Ok (mkTx (mkSdw [m] [] false) h, 0).
Proof.
  intros O CP CT I C S. unfold signed_tx. rewrite O, Z.eqb_refl. unfold message_at. rewrite I. cbn [rget rbind].
  unfold AddMessage, bind at 1, gets at 1. unfold bind at 1, bind at 1, lift at 1. rewrite CopyMessage_id by done.
  unfold ret at 1, SetMessages. change (0 <? len (Messages (new_tx emptySdw) ++ [m])) with true. cbv iota.
  unfold set_data, bind, gets, modify, lift, Hash_, bind, gets, RlpHash. simpl.
  pose proof (EncodeRLP_safe (mkSdw [m] [] false) CP CT ltac:(repeat constructor; done)) as N.
  destruct (EncodeRLP (mkSdw [m] [] false)) eqn:EE; try done;
    change (CertId (new_tx emptySdw)) with (@nil byte); change (Illegal (new_tx emptySdw)) with false;
    rewrite EE; by eexists.
Qed.

(** The rest of the computation, on the transaction to sign. *)
Lemma signed_data_ok script ht otx omsgIdx idx tx msgIdx m p :
  signed_tx keccak ht otx omsgIdx = Ok (tx, msgIdx) -> encodable_tx (txdata tx) ->
  codec_safe c_payment -> codec_safe c_tx ->
  index (Messages tx) msgIdx = Some m -> Payload m = Some (PayPayment p) -> 0 <= idx < len (Inputs p) ->
  exists b, calcSignatureData keccak script ht otx omsgIdx idx = Ok b.
Proof.
  intros S En CP CT I P X. rewrite (calcSignatureData_form _ _ _ _ _ _ _ S En).
  unfold message_at at 1. rewrite I. cbn [rget rbind]. unfold as_payment at 1. rewrite P. cbn [rbind].
  destruct ((_ =? SigHashSingle) && _) eqn:Single; [by eexists|].
  assert (F : Forall sendable (Messages tx)) by (eapply Forall_impl; [apply En|apply sendable_encodable]).
  cbv zeta. match goal with |- context [edit_messages ?a ?b ?c ?d ?e ?f ?g ?h] =>
    destruct (edit_messages_ok (E := tx_error) h F a b c d e f g) as [msgs Ed]; rewrite Ed end. cbn [rbind].
  apply strip_edit_messages in Ed.
  assert (I' : strip_message <$> index msgs msgIdx = Some (strip_message m)) by (rewrite <- index_map, Ed, index_map, I; done).
  destruct (index msgs msgIdx) as [m'|] eqn:I2; [|done]. injection I' as Sm. unfold message_at. rewrite I2. cbn [rget rbind].
  assert (Snd : sendable m).
  { unfold index in I. destruct (_ <? 0); [done|]. eapply Forall_lookup_1; eauto. }
  destruct (payment_strip_eq _ _ _ Sm Snd P) as (p' & P' & Out & In).
  unfold as_payment. rewrite P'. cbn [rbind].
  assert (EO : exists q, edit_outputs (E := tx_error) ht idx p' = Ok q /\ Inputs q = Inputs p').
  { unfold edit_outputs. destruct (_ =? SigHashNone); [by eexists|]. destruct (_ =? SigHashSingle); [|by eexists].
    simpl in Single. apply Z.leb_gt in Single. unfold slice_to. rewrite Out.
    replace ((0 <=? idx + 1) && (idx + 1 <=? len (Outputs p))) with true by (bdestruct; done). by eexists. }
  destruct EO as (q & -> & Q). cbn [rbind].
  assert (EI : exists q', edit_inputs (E := tx_error) ht idx q = Ok q').
  { unfold edit_inputs. destruct (negb _); [|by eexists]. unfold slice_at. rewrite Q, In.
    replace ((0 <=? idx) && (idx <=? idx + 1) && (idx + 1 <=? len (Inputs p))) with true by (bdestruct; done). by eexists. }
  destruct EI as (q' & ->). cbn [rbind].
  match goal with |- context [EncodeRLP ?d] => pose proof (EncodeRLP_safe d CP CT) as N; destruct (EncodeRLP d) end;
    [by eexists|by eexists|exfalso; apply N; [|done]].
  simpl. apply Forall_insert.
  - apply Forall_forall. intros x Hx. apply (list_elem_of_fmap_2 strip_message) in Hx. change (strip_message <$> msgs) with (map strip_message msgs) in Hx.
    rewrite Ed in Hx. apply list_elem_of_fmap in Hx as (y & Y & Hy). rewrite Forall_forall in F.
    eapply sendable_strip; [exact Y|now apply F].
  - eexists. split; [done|]. split; [|done]. simpl. rewrite <- (strip_App m'), Sm, strip_App.
    eapply sendable_payment; eauto.
Qed.

(** Whatever the hash type, whole transaction or one message. *)
Lemma calcSignatureData_ok script ht tx msgIdx idx m p :
  encodable_tx (txdata tx) -> encodable_tx (mkSdw [m] [] false) -> complete m ->
  codec_safe c_payment -> codec_safe c_tx ->
  index (Messages tx) msgIdx = Some m -> Payload m = Some (PayPayment p) -> 0 <= idx < len (Inputs p) ->
  exists b, calcSignatureData keccak script ht tx msgIdx idx = Ok b.
Proof.
  intros En En1 C CP CT I P X.
  destruct (Z.eq_dec (Z.land ht SigHashOneMessage) SigHashOneMessage) as [O|O].
  - destruct (signed_one ht tx msgIdx m O CP CT I C) as [h S].
    { apply sendable_encodable. now inversion En1 as [F _]; inversion F. }
    by apply (signed_data_ok script ht tx msgIdx idx _ _ m p S).
  - apply (signed_data_ok script ht tx msgIdx idx tx msgIdx m p); try done.
    unfold signed_tx. now rewrite (proj2 (Z.eqb_neq _ _) O).
Qed.

(** Two transactions that differ in signature scripts only. *)
Definition same_but_signatures (tx1 tx2 : Transaction) : Prop :=
  strip (txdata tx1) = strip (txdata tx2).

Lemma same_messages tx1 tx2 : same_but_signatures tx1 tx2 ->
  map strip_message (Messages tx1) = map strip_message (Messages tx2) /\
  CertId tx1 = CertId tx2 /\ Illegal tx1 = Illegal tx2 /\
  GetRequestMsgIndex tx1 = GetRequestMsgIndex tx2.
Proof.
  intros S. unfold same_but_signatures, strip in S. injection S as S1 S2 S3.
  split_and!; try done. unfold GetRequestMsgIndex.
  rewrite <- (find_index_strip _ (Messages tx1)), <- (find_index_strip _ (Messages tx2))
    by (intros; now rewrite strip_App).
  unfold Messages. now rewrite S1.
Qed.

(** The test for an index without output reads only the outputs. *)
Lemma payment_outputs_strip {E} msgs1 msgs2 i :
  map strip_message msgs1 = map strip_message msgs2 ->
  (let? m := message_at (E := E) msgs1 i in let? p := as_payment m in Ok (Outputs p)) =
  (let? m := message_at msgs2 i in let? p := as_payment m in Ok (Outputs p)).
Proof.
  intros S.
  assert (K : forall msgs, (let? m := message_at (E := E) msgs i in let? p := as_payment m in Ok (Outputs p)) =
    (let? m := message_at (map strip_message msgs) i in let? p := as_payment m in Ok (Outputs p))).
  { intros msgs. unfold message_at. rewrite index_map. destruct (index msgs i) as [m|]; [|done]. simpl.
    rewrite as_payment_strip. destruct (as_payment m); try done. simpl. now destruct (_ =? _). }
  rewrite (K msgs1), (K msgs2). now rewrite S.
Qed.
End Data.

(** Whether a transaction can be encoded does not depend on its signature scripts. *)
Definition script_blind (L : RlpLib) : Prop :=
  forall d d', strip d = strip d' -> encodable_tx d -> encodable_tx d'.

Lemma list_insert_payment msgs i m p : index msgs i = Some m -> Payload m = Some (PayPayment p) ->
  <[Z.to_nat i := mkMessage (App m) (Some (PayPayment p))]> msgs = msgs.
Proof.
  intros I P. apply list_insert_id. unfold index in I. destruct (i <? 0); [done|].
  rewrite I. f_equal. destruct m; simpl in *. congruence.
Qed.

Lemma sighash_all_form {L : RlpLib} {LL : RlpLaws L} keccak script tx msgIdx idx b :
  script_blind L -> encodable_tx (txdata tx) ->
  calcSignatureData keccak script SigHashAll tx msgIdx idx = Ok b ->
  exists d, EncodeRLP d = Ok b /\ encodable_tx d /\ strip d = strip (txdata tx).
Proof.
  intros B H. rewrite (calcSignatureData_form _ _ _ _ _ _ _ _ (signed_whole _ SigHashAll _ _ eq_refl)) by done. intros E.
  apply rbind_inv in E as (m & _ & E). apply rbind_inv in E as (p & _ & E).
  cbn [andb] in E. change (Z.land SigHashAll sigHashMask =? SigHashSingle) with false in E.
  cbn [andb] in E. apply rbind_inv in E as (r & Hr & E).
  apply rbind_inv in E as (mc & Hm & E). apply rbind_inv in E as (pc & Hp & E).
  change (edit_outputs SigHashAll idx pc) with (Ok (E := tx_error) pc) in E. cbn [rbind] in E.
  change (edit_inputs SigHashAll idx pc) with (Ok (E := tx_error) pc) in E. cbn [rbind] in E.
  unfold message_at, rget in Hm. destruct (index r msgIdx) as [mc'|] eqn:I; [|done]. injection Hm as ->.
  unfold as_payment in Hp. destruct (Payload mc) as [[pc'| | | | | | | | | | |]|] eqn:P; try done.
  injection Hp as ->. rewrite (list_insert_payment r msgIdx mc pc I P) in E.
  set (d := mkSdw r (CertId tx) (Illegal tx)) in *.
  assert (S : strip d = strip (txdata tx)).
  { unfold strip, d; simpl. f_equal. now apply strip_edit_messages in Hr. }
  assert (Hd : encodable_tx d) by (apply (B (txdata tx)); done).
  exists d. split; [|done]. destruct (rlp_roundtrip_data d Hd) as (b' & E' & _).
  rewrite E' in E. congruence.
Qed.

(** The sample transaction with another signature script. *)
Definition resigned_tx : Transaction :=
  NewTransaction [mkMessage APP_PAYMENT (Some (PayPayment
    (mkPayment [mkInput [x52; x53] [] (Some (mkOutPoint (replicate 32 x11) 0 1))]
       [mkOutput 7 [x76] (Some PTNAsset)] 0)))].

Lemma digit_encodable d : Forall (encodable_message (L := digit_lib)) (sdw_TxMessages d) -> encodable_tx (L := digit_lib) d.
Proof. intros F. split; [done|]. intros t _. exact I. Qed.

Lemma one_payment_encodable ins outs lt :
  Forall wire_input ins ->
  encodable_tx (L := digit_lib)
    (txdata (NewTransaction [mkMessage APP_PAYMENT (Some (PayPayment (mkPayment ins outs lt)))])).
Proof.
  intros W. apply digit_encodable. constructor; [|constructor]. eexists.
  split; [reflexivity|]. split; [reflexivity|]. split; [done|exact I].
Qed.

Lemma wire_input_strip ins ins' :
  map (fun x => mkInput [] (Extra x) (PreviousOutPoint x)) ins =
  map (fun x => mkInput [] (Extra x) (PreviousOutPoint x)) ins' ->
  Forall wire_input ins -> Forall wire_input ins'.
Proof.
  revert ins'. induction ins as [|x ins IH]; intros [|y ins'] E F; try done.
  simpl in E. injection E as _ E1 E2. inversion F; subst. constructor; [|eauto].
  unfold wire_input in *. now rewrite <- E1.
Qed.

Lemma digit_message_blind m m' : strip_message m = strip_message m' ->
  encodable_message (L := digit_lib) m -> encodable_message (L := digit_lib) m'.
Proof.
  intros S (p & P & A & N). assert (A' : App m' = kind p).
  { rewrite <- A, <- (strip_App m), S. symmetry. apply strip_App. }
  unfold strip_message in S. rewrite A, A' in S.
  destruct p; simpl in S; try (rewrite S in *; eexists; split_and!; done).
  rewrite P in S. destruct N as [W _]. exists (match Payload m' with Some q => q | None => PayPayment p end).
  destruct (Payload m') as [[q| | | | | | | | | | |]|] eqn:P'; try (rewrite <- S in P'; discriminate P').
  split; [done|]. split; [done|]. split; [|exact I].
  apply (wire_input_strip (Inputs p)); [|done]. injection S as S _ _. exact S.
Qed.

Lemma digit_script_blind : script_blind digit_lib.
Proof.
  intros d d' S [F _]. apply digit_encodable.
  injection S as S _ _. revert S F. generalize (sdw_TxMessages d) (sdw_TxMessages d').
  induction l as [|m l IH]; intros [|m' l'] S F; try done. simpl in S. injection S as S1 S2.
  inversion F; subst. constructor; [|eauto]. eapply digit_message_blind; eauto.
Qed.

Lemma sample_signed_data :
  exists b, calcSignatureData (L := digit_lib) (fun b => b) [plain OP_DUP] SigHashAll sample_tx 0 0 = Ok b /\
            calcSignatureData (L := digit_lib) (fun b => b) [plain OP_DUP] SigHashAll resigned_tx 0 0 = Ok b.
Proof.
  rewrite !(calcSignatureData_form _ _ _ _ _ _ _ _ (signed_whole _ SigHashAll _ _ eq_refl))
    by first [done | apply one_payment_encodable; constructor; [discriminate | constructor]].
  unfold message_at, rget, index. change (Z.to_nat 0) with 0%nat.
  unfold edit_outputs, edit_inputs.
  change (Z.land SigHashAll sigHashMask =? SigHashSingle) with false.
  change (Z.land SigHashAll sigHashMask =? SigHashNone) with false.
  change (Z.land SigHashAll SigHashAnyOneCanPay =? 0) with true.
  cbn -[EncodeRLP unparseScript].
  unfold sample_input, set_script.
  destruct (unparseScript _) as [s| |]; cbn -[EncodeRLP];
  match goal with |- context [EncodeRLP ?d] => destruct (rlp_roundtrip_data (L := digit_lib) d) as (b & -> & _);
    [apply one_payment_encodable; constructor; [discriminate | constructor] | exists b] end;
  split; reflexivity.
Qed.

(** Outside contract results the signed data does not depend on the signature scripts. *)
Lemma sighash_stable (L : RlpLib) (LL : RlpLaws L) (keccak : bytes -> Hash)
    (script : list parsedOpcode) (ht : SigHashType) (tx1 tx2 : Transaction) (msgIdx idx : Z) :
  encodable_tx (txdata tx1) -> encodable_tx (txdata tx2) -> same_but_signatures tx1 tx2 ->
  Z.land ht SigHashOneMessage = 0 ->
  GetRequestMsgIndex tx1 = -1 \/ msgIdx <= GetRequestMsgIndex tx1 ->
  calcSignatureData keccak script ht tx1 msgIdx idx = calcSignatureData keccak script ht tx2 msgIdx idx.
Proof.
  intros H1 H2 S O R.
  rewrite !(calcSignatureData_form _ _ _ _ _ _ _ _ (signed_whole _ _ _ _ O)) by done.
  destruct (same_messages tx1 tx2 S) as (SM & -> & -> & SR). rewrite <- SR. clear SR.
  cbv zeta. set (ri := GetRequestMsgIndex tx1) in *.
  replace ((ri <? msgIdx) && negb (ri =? -1)) with false by (bdestruct; done).
  rewrite <- (edit_messages_strip (Messages tx1)), <- (edit_messages_strip (Messages tx2)), SM.
  match goal with |- rbind _ (fun _ => rbind _ (fun pay => if _ && (len (Outputs pay) <=? idx) then ?a else ?k)) = _ =>
    set (A := a); set (K := k) end.
  pose proof (payment_outputs_strip (E := tx_error) _ _ msgIdx SM) as PO. revert PO.
  destruct (message_at (Messages tx1) msgIdx) as [m1|e1|], (message_at (Messages tx2) msgIdx) as [m2|e2|];
    cbn [rbind];
    try destruct (as_payment m1) as [p1|e1'|]; try destruct (as_payment m2) as [p2|e2'|]; cbn [rbind];
    intros PO; try congruence.
  injection PO as ->. done.
Qed.

(** ** Properties *)

(** Signing is order independent: outside contract results, the signed data of an input does
    not depend on any signature script of the transaction, so adding or changing one signature
    leaves the data of all others as it was (whatever the hash type, if it covers the whole
    transaction). *)
Theorem sighash_ignores_signatures (L : RlpLib) (LL : RlpLaws L) (keccak : bytes -> Hash)
    (script : list parsedOpcode) (ht : SigHashType) (tx1 tx2 : Transaction) (msgIdx idx : Z) :
  encodable_tx (txdata tx1) -> encodable_tx (txdata tx2) -> same_but_signatures tx1 tx2 ->
  Z.land ht SigHashOneMessage = 0 ->
  GetRequestMsgIndex tx1 = -1 \/ msgIdx <= GetRequestMsgIndex tx1 ->
  calcSignatureData keccak script ht tx1 msgIdx idx = calcSignatureData keccak script ht tx2 msgIdx idx.
Proof. intros. by apply sighash_stable. Qed.

Lemma sighash_ignores_signatures_witness :
  calcSignatureData (L := digit_lib) (fun b => b) [plain OP_DUP] SigHashAll sample_tx 0 0 =
  calcSignatureData (L := digit_lib) (fun b => b) [plain OP_DUP] SigHashAll resigned_tx 0 0.
Proof.
  apply (sighash_ignores_signatures digit_lib digit_laws).
  - apply one_payment_encodable. constructor; [discriminate | constructor].
  - apply one_payment_encodable. constructor; [discriminate | constructor].
  - reflexivity.
  - reflexivity.
  - left. reflexivity.
Defined.

(** C21: a signature over the whole transaction commits to all of it: if two transactions have the
    same signed data under SigHashAll, for any inputs and scripts, they agree on everything but
    the signature scripts: the same messages, outputs, amounts, spent outputs and certificate. *)
Theorem sighash_all_commits (L : RlpLib) (LL : RlpLaws L) (keccak : bytes -> Hash)
    (script1 script2 : list parsedOpcode) (tx1 tx2 : Transaction) (m1 m2 i1 i2 : Z) (b : bytes) :
  script_blind L -> encodable_tx (txdata tx1) -> encodable_tx (txdata tx2) ->
  calcSignatureData keccak script1 SigHashAll tx1 m1 i1 = Ok b ->
  calcSignatureData keccak script2 SigHashAll tx2 m2 i2 = Ok b ->
  same_but_signatures tx1 tx2.
Proof.
  intros B H1 H2 E1 E2.
  apply sighash_all_form in E1 as (d1 & F1 & N1 & S1); [|done..].
  apply sighash_all_form in E2 as (d2 & F2 & N2 & S2); [|done..].
  unfold same_but_signatures. rewrite <- S1, <- S2.
  now rewrite (EncodeRLP_inj d1 d2 b N1 N2 F1 F2).
Qed.
Lemma sighash_all_commits_witness : same_but_signatures sample_tx resigned_tx.
Proof.
  destruct sample_signed_data as (b & E1 & E2).
  apply (sighash_all_commits digit_lib digit_laws (fun b => b) [plain OP_DUP] [plain OP_DUP]
    sample_tx resigned_tx 0 0 0 0 b).
  - exact digit_script_blind.
  - apply one_payment_encodable. constructor; [discriminate | constructor].
  - apply one_payment_encodable. constructor; [discriminate | constructor].
  - exact E1.
  - exact E2.
Defined.
