(* ===== verification/SigCache.v ===== *)
(** The signature cache: src/tokenengine/internal/txscript/sigcache.go.

    The cache is a set of triples with a bound.  The lock makes each operation atomic, so the
    operations are functions.  When the cache is full, [Add] evicts an entry chosen with a random
    hash and in the iteration order of a Go map: both are arguments, the order being any list of
    the entries of the set. *)

From Stdlib Require Import ZArith Lia.
From S2P Require Import Prelude Address.

Record sigInfo := mkSigInfo { si_sigHash : bytes; si_sig : bytes; si_pubKey : bytes }.

#[global] Instance sigInfo_eq_dec : EqDecision sigInfo.
Proof. solve_decision. Defined.
#[global] Program Instance sigInfo_countable : Countable sigInfo :=
  inj_countable' (fun i => (si_sigHash i, si_sig i, si_pubKey i)) (fun t => mkSigInfo t.1.1 t.1.2 t.2) _.
Next Obligation. by intros []. Qed.

Record SigCache := mkSigCache { validSigs : gset sigInfo; maxEntries : Z }.

Definition NewSigCache (maxEntries : Z) : SigCache := mkSigCache ∅ maxEntries.
Definition Count (s : SigCache) : Z := Z.of_nat (size (validSigs s)).

Definition Exists (s : SigCache) (sigHash sig pubKey : bytes) : bool :=
  bool_decide (mkSigInfo sigHash sig pubKey ∈ validSigs s).

(** [for sigEntry := range s.validSigs]: the entry to evict. *)
Fixpoint find_entry (foundEntry : sigInfo) (order : list sigInfo) (randHashBytes : bytes) : sigInfo :=
  match order with
  | [] => foundEntry
  | sigEntry :: order' =>
      let foundEntry := if len (si_sig foundEntry) =? 0 then sigEntry else foundEntry in
      match bytes_compare (si_sigHash sigEntry) randHashBytes with
      | Gt => sigEntry
      | _ => find_entry foundEntry order' randHashBytes
      end
  end.

(** [rand] is what [rand.Read] gives, [None] for its error. *)
Definition Add (order : list sigInfo) (rand : option bytes) (s : SigCache) (sigHash sig pubKey : bytes)
  : SigCache :=
  if maxEntries s <=? 0 then s
  else
    let info := mkSigInfo sigHash sig pubKey in
    if maxEntries s <? Z.of_nat (size (validSigs s)) + 1 then
      match rand with
      | None => s
      | Some randHashBytes =>
          let foundEntry := find_entry (mkSigInfo [] [] []) order randHashBytes in
          mkSigCache ({[ info ]} ∪ (validSigs s ∖ {[ foundEntry ]})) (maxEntries s)
      end
    else mkSigCache ({[ info ]} ∪ validSigs s) (maxEntries s).

(** ** Lemmas *)

(* [set_solver] clears hypotheses it may have cleared already. *)
#[local] Set Warnings "-clear-no-such-hyp".

(** An iteration order of the map. *)
Definition order_of (s : SigCache) (order : list sigInfo) : Prop :=
  forall i, i ∈ order <-> i ∈ validSigs s.

Lemma find_entry_mem rand l : forall f, find_entry f l rand ∈ f :: l.
Proof.
  induction l as [|x l IH]; intros f; simpl; [constructor|].
  destruct (bytes_compare _ _); try (destruct (_ =? _);
    match goal with |- find_entry ?g _ _ ∈ _ => specialize (IH g); set_solver end).
  set_solver.
Qed.

(** What is evicted is an entry of the cache. *)
Lemma find_entry_in rand l : l <> [] -> find_entry (mkSigInfo [] [] []) l rand ∈ l.
Proof.
  destruct l as [|x l]; [done|]. intros _. simpl.
  destruct (bytes_compare _ _); try apply find_entry_mem. constructor.
Qed.

Lemma size_add (X : gset sigInfo) i : (size ({[ i ]} ∪ X) <= S (size X))%nat.
Proof.
  pose proof (size_union_alt {[ i ]} X) as E. rewrite E, size_singleton.
  pose proof (subseteq_size (X ∖ {[ i ]}) X ltac:(set_solver)). lia.
Qed.

Lemma Add_mem order rand s h sig pk i : i ∈ validSigs (Add order rand s h sig pk) ->
  i = mkSigInfo h sig pk \/ i ∈ validSigs s.
Proof.
  unfold Add. destruct (_ <=? 0); [auto|]. destruct (_ <? _); [destruct rand; [|auto]|]; cbn [validSigs]; set_solver.
Qed.

(** ** Properties *)

(** The cache keeps its bound and its promise: starting from a cache within its bound, [Add]
    stays within it whatever the iteration order and the random hash; the added signature is
    then found, unless the cache has no capacity or is full and no randomness is available (in
    which case nothing changes); an eviction removes one entry and nothing else appears. *)
Theorem SigCache_Add_spec (s : SigCache) (order : list sigInfo) (rand : option bytes)
    (sigHash sig pubKey : bytes) :
  order_of s order -> 0 <= maxEntries s -> Count s <= maxEntries s ->
  let s' := Add order rand s sigHash sig pubKey in
  Count s' <= maxEntries s' /\ maxEntries s' = maxEntries s /\
  (s' = s \/ Exists s' sigHash sig pubKey = true) /\
  (0 < maxEntries s -> rand <> None \/ Count s < maxEntries s -> Exists s' sigHash sig pubKey = true) /\
  (forall i, i ∈ validSigs s' -> i = mkSigInfo sigHash sig pubKey \/ i ∈ validSigs s) /\
  exists e, forall i, i ∈ validSigs s -> i = e \/ i ∈ validSigs s'.
Proof.
  intros O M B s'. unfold s', Add, Count, Exists in *.
  set (info := mkSigInfo sigHash sig pubKey) in *. clear s'.
  destruct (Z.leb_spec (maxEntries s) 0) as [|P].
  { split_and!; auto; [lia|]. exists info. auto. }
  destruct (Z.ltb_spec (maxEntries s) (Z.of_nat (size (validSigs s)) + 1)) as [F|F].
  - destruct rand as [rand|].
    2:{ split_and!; auto; [|exists info; auto]. intros _ [|]; [done|lia]. }
    set (e := find_entry _ order rand). cbn [validSigs maxEntries].
    assert (He : e ∈ validSigs s).
    { apply O, find_entry_in. intros ->. assert (E : validSigs s ≡ ∅) by (intros i; rewrite <- (O i); set_solver).
      rewrite (set_size_proper _ _ E), size_empty in F. lia. }
    assert (S1 : size (validSigs s ∖ {[ e ]}) = (size (validSigs s) - 1)%nat).
    { rewrite size_difference by set_solver. now rewrite size_singleton. }
    assert (size (validSigs s) <> 0%nat) by (intros Z0; apply size_empty_inv in Z0; set_solver).
    pose proof (size_add (validSigs s ∖ {[ e ]}) info).
    split_and!; try (right; apply bool_decide_eq_true_2; set_solver); try done; [lia| | |].
    + intros _ _. apply bool_decide_eq_true_2. set_solver.
    + intros i. set_solver.
    + exists e. intros i Hi. destruct (decide (i = e)); set_solver.
  - cbn [validSigs maxEntries]. pose proof (size_add (validSigs s) info).
    split_and!; try (right; apply bool_decide_eq_true_2; set_solver); try done; [lia| | |].
    + intros _ _. apply bool_decide_eq_true_2. set_solver.
    + intros i. set_solver.
    + exists info. intros i Hi. set_solver.
Qed.
Lemma SigCache_Add_spec_witness :
  Count (Add [] (Some []) (NewSigCache 2) [] [x01] [x02]) <= 2.
Proof.
  refine (proj1 (SigCache_Add_spec (NewSigCache 2) [] (Some []) [] [x01] [x02] _ _ _)).
  - intros i. unfold NewSigCache. cbn [validSigs]. split; intros H; exfalso.
    + exact (not_elem_of_nil i H).
    + exact (not_elem_of_empty (C := gset sigInfo) i H).
  - vm_compute; congruence.
  - vm_compute; congruence.
Defined.
