(* ===== verification/Engine.v ===== *)
(** The script engine: src/tokenengine/internal/txscript/engine.go and the opcode handlers of
    opcode.go.

    The engine is a record of the mutable fields of the Go struct; a method is a computation
    over it ([engineM]) that keeps its mutations on error.  The hash functions, the signature
    check, the source of jury redeem scripts and the source of randomness are the interface
    [ScriptEnv].  Function pointers of the opcode table are dispatched by [opfunc_run]. *)

From Stdlib Require Import ZArith Lia.
From S2P Require Import Prelude Errors ScriptNum Stack Opcode Script Builder Address Tx SigHash SigCache.

(** ** Flags *)

(** [type ScriptFlags uint32], bit masks *)
Definition ScriptBip16 : Z := 1.
Definition ScriptStrictMultiSig : Z := 2.
Definition ScriptDiscourageUpgradableNops : Z := 4.
Definition ScriptVerifyCheckLockTimeVerify : Z := 8.
Definition ScriptVerifyCleanStack : Z := 16.
Definition ScriptVerifyDERSignatures : Z := 32.
Definition ScriptVerifyLowS : Z := 64.
Definition ScriptVerifyMinimalData : Z := 128.
Definition ScriptVerifySigPushOnly : Z := 256.
Definition ScriptVerifyStrictEncoding : Z := 512.

(** standard.go *)
Definition StandardVerifyFlags : Z :=
  Z.lor ScriptBip16 (Z.lor ScriptVerifyDERSignatures (Z.lor ScriptVerifyStrictEncoding
    (Z.lor ScriptVerifyMinimalData (Z.lor ScriptStrictMultiSig (Z.lor ScriptDiscourageUpgradableNops
      (Z.lor ScriptVerifyCleanStack (Z.lor ScriptVerifyCheckLockTimeVerify ScriptVerifyLowS))))))).
Definition StandardVerifyExcludeSignFlags : Z :=
  Z.lor ScriptBip16 (Z.lor ScriptVerifyMinimalData (Z.lor ScriptStrictMultiSig
    (Z.lor ScriptDiscourageUpgradableNops (Z.lor ScriptVerifyCleanStack
      ScriptVerifyCheckLockTimeVerify)))).

Definition maxStackSize : Z := 1000.
Definition LockTimeThreshold : Z := 500000000.

(** ** What the engine uses of the outside *)

Class ScriptEnv := {
  env_rlp :: RlpLib;
  env_keccakHash : bytes -> Hash;                         (* the hash of a transaction's encoding *)
  Verify : bytes -> bytes -> bytes -> bool;               (* ICrypto.Verify pubKey sig msg; its error is ignored *)
  Hash160 : bytes -> bytes;                               (* crypto.Hash160 *)
  Ripemd160 : bytes -> bytes;
  Sha1 : bytes -> bytes;
  Keccak256 : bytes -> bytes;                             (* crypto.Keccak256 and Keccak256Hash *)
  pickupJuryRedeemScript : Address -> result error bytes;
  cacheOrder : SigCache -> list sigInfo;                  (* iteration order of the cache's map *)
  cacheRand : SigCache -> option bytes                    (* rand.Read *)
}.

(** ** The engine *)

Record Engine := mkEngine {
  tx : Transaction;
  dstack : stack;
  astack : stack;
  scripts : list (list parsedOpcode);
  condStack : list Z;
  savedFirstStack : list bytes;
  scriptIdx : Z;
  scriptOff : Z;
  lastCodeSep : Z;
  msgIdx : Z;
  txIdx : Z;
  numOps : Z;
  sigCache : option SigCache;
  flags : Z;
  bip16 : bool;
  p2ch : bool
}.

Definition set_dstack (v : stack) (vm : Engine) : Engine :=
  mkEngine (tx vm) v (astack vm) (scripts vm) (condStack vm) (savedFirstStack vm) (scriptIdx vm)
    (scriptOff vm) (lastCodeSep vm) (msgIdx vm) (txIdx vm) (numOps vm) (sigCache vm) (flags vm)
    (bip16 vm) (p2ch vm).
Definition set_astack (v : stack) (vm : Engine) : Engine :=
  mkEngine (tx vm) (dstack vm) v (scripts vm) (condStack vm) (savedFirstStack vm) (scriptIdx vm)
    (scriptOff vm) (lastCodeSep vm) (msgIdx vm) (txIdx vm) (numOps vm) (sigCache vm) (flags vm)
    (bip16 vm) (p2ch vm).
Definition set_scripts_ (v : list (list parsedOpcode)) (vm : Engine) : Engine :=
  mkEngine (tx vm) (dstack vm) (astack vm) v (condStack vm) (savedFirstStack vm) (scriptIdx vm)
    (scriptOff vm) (lastCodeSep vm) (msgIdx vm) (txIdx vm) (numOps vm) (sigCache vm) (flags vm)
    (bip16 vm) (p2ch vm).
Definition set_condStack (v : list Z) (vm : Engine) : Engine :=
  mkEngine (tx vm) (dstack vm) (astack vm) (scripts vm) v (savedFirstStack vm) (scriptIdx vm)
    (scriptOff vm) (lastCodeSep vm) (msgIdx vm) (txIdx vm) (numOps vm) (sigCache vm) (flags vm)
    (bip16 vm) (p2ch vm).
Definition set_saved (v : list bytes) (vm : Engine) : Engine :=
  mkEngine (tx vm) (dstack vm) (astack vm) (scripts vm) (condStack vm) v (scriptIdx vm)
    (scriptOff vm) (lastCodeSep vm) (msgIdx vm) (txIdx vm) (numOps vm) (sigCache vm) (flags vm)
    (bip16 vm) (p2ch vm).
Definition set_scriptIdx (v : Z) (vm : Engine) : Engine :=
  mkEngine (tx vm) (dstack vm) (astack vm) (scripts vm) (condStack vm) (savedFirstStack vm) v
    (scriptOff vm) (lastCodeSep vm) (msgIdx vm) (txIdx vm) (numOps vm) (sigCache vm) (flags vm)
    (bip16 vm) (p2ch vm).
Definition set_scriptOff (v : Z) (vm : Engine) : Engine :=
  mkEngine (tx vm) (dstack vm) (astack vm) (scripts vm) (condStack vm) (savedFirstStack vm) (scriptIdx vm)
    v (lastCodeSep vm) (msgIdx vm) (txIdx vm) (numOps vm) (sigCache vm) (flags vm) (bip16 vm) (p2ch vm).
Definition set_lastCodeSep (v : Z) (vm : Engine) : Engine :=
  mkEngine (tx vm) (dstack vm) (astack vm) (scripts vm) (condStack vm) (savedFirstStack vm) (scriptIdx vm)
    (scriptOff vm) v (msgIdx vm) (txIdx vm) (numOps vm) (sigCache vm) (flags vm) (bip16 vm) (p2ch vm).
Definition set_numOps (v : Z) (vm : Engine) : Engine :=
  mkEngine (tx vm) (dstack vm) (astack vm) (scripts vm) (condStack vm) (savedFirstStack vm) (scriptIdx vm)
    (scriptOff vm) (lastCodeSep vm) (msgIdx vm) (txIdx vm) v (sigCache vm) (flags vm) (bip16 vm) (p2ch vm).
Definition set_sigCache (v : option SigCache) (vm : Engine) : Engine :=
  mkEngine (tx vm) (dstack vm) (astack vm) (scripts vm) (condStack vm) (savedFirstStack vm) (scriptIdx vm)
    (scriptOff vm) (lastCodeSep vm) (msgIdx vm) (txIdx vm) (numOps vm) v (flags vm) (bip16 vm) (p2ch vm).

Definition engineM (A : Type) : Type := ST Engine error A.

(** A method of the data stack, of the alternate stack. *)
Definition on_d {A} (m : stackM A) : engineM A := focus dstack set_dstack m.
Definition on_a {A} (m : stackM A) : engineM A := focus astack set_astack m.

Definition has_flag (fs flag : Z) : bool := Z.land fs flag =? flag.
Definition hasFlag (vm : Engine) (flag : Z) : bool := has_flag (flags vm) flag.

Definition isBranchExecuting (vm : Engine) : bool :=
  match last (condStack vm) with
  | None => true
  | Some c => c =? OpCondTrue
  end.

(** ** Encoding checks *)

Definition checkHashTypeEncoding (hashType : SigHashType) : engineM unit :=
  let! vm := gets (fun vm => vm) in
  if negb (hasFlag vm ScriptVerifyStrictEncoding) then ret tt
  else
    let sigHashType := Z.ldiff hashType SigHashAnyOneCanPay in
    if (sigHashType <? SigHashAll) || (SigHashRaw <? sigHashType) then throw (ErrInvalidHashType hashType)
    else ret tt.

Definition checkPubKeyEncoding (pubKey : bytes) : engineM unit :=
  let! vm := gets (fun vm => vm) in
  if negb (hasFlag vm ScriptVerifyStrictEncoding) then ret tt
  else if len pubKey =? 33 then ret tt
  else if (len pubKey =? 65) && (first_byte pubKey =? 0x04) then ret tt
  else throw ErrStackInvalidPubKey.

(** The DER rules, on the signature without its hash type; [sig[i]] can be out of range. *)
Definition check_der (sig : bytes) : result error unit :=
  let at_ i := rget (index sig i) in
  let fail why := Err (ErrMalformedSignature why) in
  if len sig <? 8 then fail SigTooShort
  else if 72 <? len sig then fail SigTooLong
  else
    let? b0 := at_ 0 in
    if negb (b2z b0 =? 0x30) then fail SigWrongType else
    let? b1 := at_ 1 in
    if negb (b2z b1 =? len sig - 2) then fail SigBadLength else
    let? b3 := at_ 3 in
    let rLen := b2z b3 in
    if len sig <? rLen + 5 then fail SigSOutOfBounds else
    let? bs := at_ (rLen + 5) in
    let sLen := b2z bs in
    if negb (rLen + sLen + 6 =? len sig) then fail SigInvalidRLength else
    let? b2 := at_ 2 in
    if negb (b2z b2 =? 0x02) then fail SigMissingFirstMarker else
    if rLen =? 0 then fail SigRLengthZero else
    let? b4 := at_ 4 in
    if negb (Z.land (b2z b4) 0x80 =? 0) then fail SigRNegative else
    let? b5 := at_ 5 in
    if (1 <? rLen) && (b2z b4 =? 0x00) && (Z.land (b2z b5) 0x80 =? 0) then fail SigInvalidR else
    let? bm := at_ (rLen + 4) in
    if negb (b2z bm =? 0x02) then fail SigMissingSecondMarker else
    if sLen =? 0 then fail SigSLengthZero else
    let? b6 := at_ (rLen + 6) in
    if negb (Z.land (b2z b6) 0x80 =? 0) then fail SigSNegative else
    if (1 <? sLen) && (b2z b6 =? 0x00) then
      let? b7 := at_ (rLen + 7) in
      if Z.land (b2z b7) 0x80 =? 0 then fail SigInvalidS else Ok tt
    else Ok tt.

Definition checkSignatureEncoding (sig : bytes) : engineM unit :=
  let! vm := gets (fun vm => vm) in
  if negb (hasFlag vm ScriptVerifyDERSignatures) && negb (hasFlag vm ScriptVerifyLowS) &&
     negb (hasFlag vm ScriptVerifyStrictEncoding) then ret tt
  else lift (check_der sig).

(** ** Opcode handlers *)

Section Handlers.
Context `{ScriptEnv}.

Definition opcodeDisabled (op : parsedOpcode) : engineM unit := throw ErrStackOpDisabled.
Definition opcodeReserved (op : parsedOpcode) : engineM unit := throw ErrStackReservedOpcode.
Definition opcodeInvalid (op : parsedOpcode) : engineM unit := throw ErrStackInvalidOpcode.

Definition opcodeFalse (op : parsedOpcode) : engineM unit := on_d (PushByteArray []).
Definition opcodePushData (op : parsedOpcode) : engineM unit := on_d (PushByteArray (pop_data op)).
Definition opcode1Negate (op : parsedOpcode) : engineM unit := on_d (PushInt (-1)).
Definition opcodeN (op : parsedOpcode) : engineM unit :=
  on_d (PushInt (uint8 (b2z (pop_value op) - (b2z OP_1 - 1)))).

Definition opcodeNop (op : parsedOpcode) : engineM unit :=
  let! vm := gets (fun vm => vm) in
  if byte_in (pop_value op) [OP_NOP1; OP_NOP3; OP_NOP4; OP_NOP5; OP_NOP6; OP_NOP7; OP_NOP8; OP_NOP9; OP_NOP10]
     && hasFlag vm ScriptDiscourageUpgradableNops
  then throw (ErrNopReserved (uint8 (b2z (pop_value op) - (b2z OP_NOP1 - 1))))
  else ret tt.

(** *** Conditionals *)

Definition push_cond (c : Z) : engineM unit := modify (fun vm => set_condStack (condStack vm ++ [c]) vm).

Definition opcodeIf (op : parsedOpcode) : engineM unit :=
  let! vm := gets (fun vm => vm) in
  if isBranchExecuting vm then
    let! ok := on_d PopBool in
    push_cond (if ok then OpCondTrue else OpCondFalse)
  else push_cond OpCondSkip.

Definition opcodeNotIf (op : parsedOpcode) : engineM unit :=
  let! vm := gets (fun vm => vm) in
  if isBranchExecuting vm then
    let! ok := on_d PopBool in
    push_cond (if negb ok then OpCondTrue else OpCondFalse)
  else push_cond OpCondSkip.

Definition flip_cond (c : Z) : Z :=
  if c =? OpCondTrue then OpCondFalse else if c =? OpCondFalse then OpCondTrue else c.

Definition opcodeElse (op : parsedOpcode) : engineM unit :=
  let! c := gets condStack in
  match last c with
  | None => throw ErrStackNoIf
  | Some v => modify (set_condStack (slice c 0 (len c - 1) ++ [flip_cond v]))
  end.

Definition opcodeEndif (op : parsedOpcode) : engineM unit :=
  let! c := gets condStack in
  if len c =? 0 then throw ErrStackNoIf
  else modify (set_condStack (slice c 0 (len c - 1))).

Definition opcodeVerify (op : parsedOpcode) : engineM unit :=
  let! verified := on_d PopBool in
  if negb verified then throw ErrStackVerifyFailed else ret tt.

(** Not in the table: [OP_RETURN] is given to [opcodeFalse] there. *)
Definition opcodeReturn (op : parsedOpcode) : engineM unit := throw ErrStackEarlyReturn.

Definition opcodeCheckLockTimeVerify (op : parsedOpcode) : engineM unit :=
  let! vm := gets (fun vm => vm) in
  if negb (hasFlag vm ScriptVerifyCheckLockTimeVerify) then
    if hasFlag vm ScriptDiscourageUpgradableNops then throw (ErrNopReserved 2) else ret tt
  else
    let! so := on_d (PeekByteArray 0) in
    let! lockTime := lift (makeScriptNum so (verifyMinimalData (dstack vm)) 5) in
    if lockTime <? 0 then throw ErrNegativeLockTime
    else
      let! msgs := lift (TxMessages (tx vm)) in
      let! msg0 := get (index msgs 0) in
      let! pay := lift (as_payment msg0) in
      let txlockTime := Tx.LockTime pay in
      if negb (((txlockTime <? LockTimeThreshold) && (lockTime <? LockTimeThreshold)) ||
               ((LockTimeThreshold <=? txlockTime) && (LockTimeThreshold <=? lockTime)))
      then throw ErrMismatchedLockTime
      else if txlockTime <? lockTime then throw ErrUnsatisfiedLockTime
      else ret tt.

(** *** Stack *)

Definition opcodeToAltStack (op : parsedOpcode) : engineM unit :=
  let! so := on_d PopByteArray in on_a (PushByteArray so).
Definition opcodeFromAltStack (op : parsedOpcode) : engineM unit :=
  let! so := on_a PopByteArray in on_d (PushByteArray so).
Definition opcode2Drop (op : parsedOpcode) : engineM unit := on_d (DropN 2).
Definition opcode2Dup (op : parsedOpcode) : engineM unit := on_d (DupN 2).
Definition opcode3Dup (op : parsedOpcode) : engineM unit := on_d (DupN 3).
Definition opcode2Over (op : parsedOpcode) : engineM unit := on_d (OverN 2).
Definition opcode2Rot (op : parsedOpcode) : engineM unit := on_d (RotN 2).
Definition opcode2Swap (op : parsedOpcode) : engineM unit := on_d (SwapN 2).
Definition opcodeIfDup (op : parsedOpcode) : engineM unit :=
  let! so := on_d (PeekByteArray 0) in
  if asBool so then on_d (PushByteArray so) else ret tt.
Definition opcodeDepth (op : parsedOpcode) : engineM unit :=
  let! d := gets (fun vm => Depth (dstack vm)) in on_d (PushInt d).
Definition opcodeDrop (op : parsedOpcode) : engineM unit := on_d (DropN 1).
Definition opcodeDup (op : parsedOpcode) : engineM unit := on_d (DupN 1).
Definition opcodeNip (op : parsedOpcode) : engineM unit := on_d (NipN 1).
Definition opcodeOver (op : parsedOpcode) : engineM unit := on_d (OverN 1).
Definition opcodePick (op : parsedOpcode) : engineM unit :=
  let! val := on_d PopInt in on_d (PickN (Int32 val)).
Definition opcodeRoll (op : parsedOpcode) : engineM unit :=
  let! val := on_d PopInt in on_d (RollN (Int32 val)).
Definition opcodeRot (op : parsedOpcode) : engineM unit := on_d (RotN 1).
Definition opcodeSwap (op : parsedOpcode) : engineM unit := on_d (SwapN 1).
Definition opcodeTuck (op : parsedOpcode) : engineM unit := on_d Tuck.
Definition opcodeSize (op : parsedOpcode) : engineM unit :=
  let! so := on_d (PeekByteArray 0) in on_d (PushInt (len so)).

Definition opcodeEqual (op : parsedOpcode) : engineM unit :=
  let! a := on_d PopByteArray in
  let! b := on_d PopByteArray in
  on_d (PushBool (bytes_equal a b)).
Definition opcodeEqualVerify (op : parsedOpcode) : engineM unit :=
  opcodeEqual op ;;; opcodeVerify op.

(** *** Arithmetic *)

(** Pop one integer, two ([v0] is the top), and push a number. *)
Definition unary (f : Z -> Z) : engineM unit :=
  let! m := on_d PopInt in on_d (PushInt (f m)).
Definition binary (f : Z -> Z -> Z) : engineM unit :=
  let! v0 := on_d PopInt in
  let! v1 := on_d PopInt in
  on_d (PushInt (f v0 v1)).
Definition num_of_bool (b : bool) : Z := if b then 1 else 0.

Definition opcode1Add (op : parsedOpcode) : engineM unit := unary (fun m => int64 (m + 1)).
Definition opcode1Sub (op : parsedOpcode) : engineM unit := unary (fun m => int64 (m - 1)).
Definition opcodeNegate (op : parsedOpcode) : engineM unit := unary (fun m => int64 (- m)).
Definition opcodeAbs (op : parsedOpcode) : engineM unit := unary (fun m => if m <? 0 then int64 (- m) else m).
Definition opcodeNot (op : parsedOpcode) : engineM unit := unary (fun m => num_of_bool (m =? 0)).
Definition opcode0NotEqual (op : parsedOpcode) : engineM unit := unary (fun m => if negb (m =? 0) then 1 else m).
Definition opcodeAdd (op : parsedOpcode) : engineM unit := binary (fun v0 v1 => int64 (v0 + v1)).
Definition opcodeSub (op : parsedOpcode) : engineM unit := binary (fun v0 v1 => int64 (v1 - v0)).
Definition opcodeBoolAnd (op : parsedOpcode) : engineM unit :=
  binary (fun v0 v1 => num_of_bool (negb (v0 =? 0) && negb (v1 =? 0))).
Definition opcodeBoolOr (op : parsedOpcode) : engineM unit :=
  binary (fun v0 v1 => num_of_bool (negb (v0 =? 0) || negb (v1 =? 0))).
Definition opcodeNumEqual (op : parsedOpcode) : engineM unit := binary (fun v0 v1 => num_of_bool (v0 =? v1)).
Definition opcodeNumEqualVerify (op : parsedOpcode) : engineM unit :=
  opcodeNumEqual op ;;; opcodeVerify op.
Definition opcodeNumNotEqual (op : parsedOpcode) : engineM unit :=
  binary (fun v0 v1 => num_of_bool (negb (v0 =? v1))).
Definition opcodeLessThan (op : parsedOpcode) : engineM unit := binary (fun v0 v1 => num_of_bool (v1 <? v0)).
Definition opcodeGreaterThan (op : parsedOpcode) : engineM unit := binary (fun v0 v1 => num_of_bool (v0 <? v1)).
Definition opcodeLessThanOrEqual (op : parsedOpcode) : engineM unit := binary (fun v0 v1 => num_of_bool (v1 <=? v0)).
Definition opcodeGreaterThanOrEqual (op : parsedOpcode) : engineM unit := binary (fun v0 v1 => num_of_bool (v0 <=? v1)).
Definition opcodeMin (op : parsedOpcode) : engineM unit := binary (fun v0 v1 => if v1 <? v0 then v1 else v0).
Definition opcodeMax (op : parsedOpcode) : engineM unit := binary (fun v0 v1 => if v0 <? v1 then v1 else v0).
Definition opcodeWithin (op : parsedOpcode) : engineM unit :=
  let! maxVal := on_d PopInt in
  let! minVal := on_d PopInt in
  let! x := on_d PopInt in
  on_d (PushInt (num_of_bool ((minVal <=? x) && (x <? maxVal)))).

(** *** Hashes *)

Definition hash_top (f : bytes -> bytes) : engineM unit :=
  let! buf := on_d PopByteArray in on_d (PushByteArray (f buf)).
Definition opcodeRipemd160 (op : parsedOpcode) : engineM unit := hash_top Ripemd160.
Definition opcodeSha1 (op : parsedOpcode) : engineM unit := hash_top Sha1.
Definition opcodeSha256 (op : parsedOpcode) : engineM unit := hash_top Keccak256.
Definition opcodeHash160 (op : parsedOpcode) : engineM unit := hash_top Hash160.
Definition opcodeHash256 (op : parsedOpcode) : engineM unit := hash_top Keccak256.

Definition opcodeCodeSeparator (op : parsedOpcode) : engineM unit :=
  modify (fun vm => set_lastCodeSep (scriptOff vm) vm).

(** *** Signatures *)

(** [vm.scripts[vm.scriptIdx][vm.lastCodeSep:]] *)
Definition subScript : engineM (list parsedOpcode) :=
  let! vm := gets (fun vm => vm) in
  let! s := get (index (scripts vm) (scriptIdx vm)) in
  lift (slice_at s (lastCodeSep vm) (len s)).

(** [calcSignatureData] on the engine's transaction and input *)
Definition signature_data (script : list parsedOpcode) (hashType : SigHashType) : engineM bytes :=
  let! vm := gets (fun vm => vm) in
  match calcSignatureData env_keccakHash script hashType (tx vm) (msgIdx vm) (txIdx vm) with
  | Ok data => ret data
  | _ => panic
  end.

(** The check of one signature, through the cache if there is one.  The key of the cache is made
    by copying the signed data into a nil slice, which copies nothing. *)
Definition verify_cached (pkBytes sigBytes data : bytes) : engineM bool :=
  let! c := gets sigCache in
  match c with
  | Some cache =>
      let sigHash := copy [] data in
      if Exists cache sigHash sigBytes pkBytes then ret true
      else if Verify pkBytes sigBytes data then
        modify (set_sigCache (Some (Add (cacheOrder cache) (cacheRand cache) cache sigHash sigBytes pkBytes))) ;;;
        ret true
      else ret false
  | None => ret (Verify pkBytes sigBytes data)
  end.

(** The hash type of a non-empty signature and the signature without it. *)
Definition split_sig (sig : bytes) : SigHashType * bytes :=
  (match last sig with Some b => b2z b | None => 0 end, slice sig 0 (len sig - 1)).

Definition opcodeCheckSig (op : parsedOpcode) : engineM unit :=
  let! pkBytes := on_d PopByteArray in
  let! fullSigBytes := on_d PopByteArray in
  if len fullSigBytes <? 1 then on_d (PushBool false)
  else
    let '(hashType, sigBytes) := split_sig fullSigBytes in
    checkHashTypeEncoding hashType ;;;
    checkSignatureEncoding sigBytes ;;;
    checkPubKeyEncoding pkBytes ;;;
    let! sub := subScript in
    let sub := removeOpcodeByData sub fullSigBytes in
    let! data := signature_data sub hashType in
    let! valid := verify_cached pkBytes sigBytes data in
    on_d (PushBool valid).

Definition opcodeCheckSigVerify (op : parsedOpcode) : engineM unit :=
  opcodeCheckSig op ;;; opcodeVerify op.

(** [for i := 0; i < n; i++ { x := vm.dstack.PopByteArray(); xs = append(xs, x) }] *)
Fixpoint pop_many (n : nat) : engineM (list bytes) :=
  match n with
  | O => ret []
  | S n' =>
      let! x := on_d PopByteArray in
      let! xs := pop_many n' in
      ret (x :: xs)
  end.

(** The loop [for numSignatures > 0]; [sigs] are [signatures[signatureIdx:]] and [keys] are
    [pubKeys[pubKeyIdx:]] once [pubKeyIdx] is incremented, so [numSignatures] and [numPubKeys]
    are their lengths. *)
Fixpoint multisig_loop (script : list parsedOpcode) (keys sigs : list bytes) : engineM bool :=
  match sigs with
  | [] => ret true
  | rawSig :: sigs' =>
      if len keys <? len sigs then ret false
      else
        match keys with
        | [] => panic
        | pubKey :: keys' =>
            if len rawSig =? 0 then multisig_loop script keys' sigs
            else
              let '(hashType, signature) := split_sig rawSig in
              checkHashTypeEncoding hashType ;;;
              let! data := signature_data script hashType in
              let! valid := verify_cached pubKey signature data in
              if valid then multisig_loop script keys' sigs' else multisig_loop script keys' sigs
        end
  end.

Definition opcodeCheckMultiSig (op : parsedOpcode) : engineM unit :=
  let! numKeys := on_d PopInt in
  let numPubKeys := Int32 numKeys in
  if (numPubKeys <? 0) || (MaxPubKeysPerMultiSig <? numPubKeys) then throw ErrStackTooManyPubKeys
  else
    modify (fun vm => set_numOps (numOps vm + numPubKeys) vm) ;;;
    let! ops := gets numOps in
    if MaxOpsPerScript <? ops then throw ErrStackTooManyOperations
    else
      let! pubKeys := pop_many (Z.to_nat numPubKeys) in
      let! numSigs := on_d PopInt in
      let numSignatures := Int32 numSigs in
      if numSignatures <? 0 then throw ErrNegativeSignatureCount
      else if numPubKeys <? numSignatures then throw ErrMoreSignaturesThanKeys
      else
        let! signatures := pop_many (Z.to_nat numSignatures) in
        let! dummy := on_d PopByteArray in
        let! vm := gets (fun vm => vm) in
        if hasFlag vm ScriptStrictMultiSig && negb (len dummy =? 0) then throw ErrMultisigDummy
        else
          let! script := subScript in
          let script := fold_left removeOpcodeByData signatures script in
          let! success := multisig_loop script pubKeys signatures in
          on_d (PushBool success).

Definition opcodeCheckMultiSigVerify (op : parsedOpcode) : engineM unit :=
  opcodeCheckMultiSig op ;;; opcodeVerify op.

Definition opcodeCheckJuryRedeemEqual (op : parsedOpcode) : engineM unit :=
  let! contractHash := on_d PopByteArray in
  let! redeemScript := on_d PopByteArray in
  let addr := NewAddress contractHash ContractHash in
  if negb (IsSystemContractAddress addr) then
    let! dbRedeem := lift (pickupJuryRedeemScript addr) in
    on_d (PushBool (bytes_equal dbRedeem redeemScript))
  else on_d (PushBool true).

(** The function pointer of a table entry. *)
Definition opfunc_run (f : opfunc) : parsedOpcode -> engineM unit :=
  match f with
  | fnFalse => opcodeFalse
  | fnPushData => opcodePushData
  | fn1Negate => opcode1Negate
  | fnReserved => opcodeReserved
  | fnN => opcodeN
  | fnNop => opcodeNop
  | fnIf => opcodeIf
  | fnNotIf => opcodeNotIf
  | fnElse => opcodeElse
  | fnEndif => opcodeEndif
  | fnVerify => opcodeVerify
  | fnCheckLockTimeVerify => opcodeCheckLockTimeVerify
  | fnToAltStack => opcodeToAltStack
  | fnFromAltStack => opcodeFromAltStack
  | fn2Drop => opcode2Drop
  | fn2Dup => opcode2Dup
  | fn3Dup => opcode3Dup
  | fn2Over => opcode2Over
  | fn2Rot => opcode2Rot
  | fn2Swap => opcode2Swap
  | fnIfDup => opcodeIfDup
  | fnDepth => opcodeDepth
  | fnDrop => opcodeDrop
  | fnDup => opcodeDup
  | fnNip => opcodeNip
  | fnOver => opcodeOver
  | fnPick => opcodePick
  | fnRoll => opcodeRoll
  | fnRot => opcodeRot
  | fnSwap => opcodeSwap
  | fnTuck => opcodeTuck
  | fnDisabled => opcodeDisabled
  | fnSize => opcodeSize
  | fnEqual => opcodeEqual
  | fnEqualVerify => opcodeEqualVerify
  | fn1Add => opcode1Add
  | fn1Sub => opcode1Sub
  | fnNegate => opcodeNegate
  | fnAbs => opcodeAbs
  | fnNot => opcodeNot
  | fn0NotEqual => opcode0NotEqual
  | fnAdd => opcodeAdd
  | fnSub => opcodeSub
  | fnBoolAnd => opcodeBoolAnd
  | fnBoolOr => opcodeBoolOr
  | fnNumEqual => opcodeNumEqual
  | fnNumEqualVerify => opcodeNumEqualVerify
  | fnNumNotEqual => opcodeNumNotEqual
  | fnLessThan => opcodeLessThan
  | fnGreaterThan => opcodeGreaterThan
  | fnLessThanOrEqual => opcodeLessThanOrEqual
  | fnGreaterThanOrEqual => opcodeGreaterThanOrEqual
  | fnMin => opcodeMin
  | fnMax => opcodeMax
  | fnWithin => opcodeWithin
  | fnRipemd160 => opcodeRipemd160
  | fnSha1 => opcodeSha1
  | fnSha256 => opcodeSha256
  | fnHash160 => opcodeHash160
  | fnHash256 => opcodeHash256
  | fnCodeSeparator => opcodeCodeSeparator
  | fnCheckSig => opcodeCheckSig
  | fnCheckSigVerify => opcodeCheckSigVerify
  | fnCheckMultiSig => opcodeCheckMultiSig
  | fnCheckMultiSigVerify => opcodeCheckMultiSigVerify
  | fnInvalid => opcodeInvalid
  | fnCheckJuryRedeemEqual => opcodeCheckJuryRedeemEqual
  end.

(** ** Execution *)

Definition executeOpcode (pop : parsedOpcode) : engineM unit :=
  if isDisabled pop then throw ErrStackOpDisabled
  else if alwaysIllegal pop then throw ErrStackReservedOpcode
  else
    (if blt OP_16 (pop_value pop) then
       modify (fun vm => set_numOps (numOps vm + 1) vm) ;;;
       let! ops := gets numOps in
       if MaxOpsPerScript <? ops then throw ErrStackTooManyOperations else ret tt
     else if MaxScriptElementSize <? len (pop_data pop) then throw ErrStackElementTooBig
     else ret tt) ;;;
    let! vm := gets (fun vm => vm) in
    if negb (isBranchExecuting vm) && negb (isConditional pop) then ret tt
    else
      (if verifyMinimalData (dstack vm) && isBranchExecuting vm && ble (pop_value pop) OP_PUSHDATA4 then
         match checkMinimalDataPush pop with
         | Some e => throw e
         | None => ret tt
         end
       else ret tt) ;;;
      opfunc_run (op_func (pop_opcode pop)) pop.

(** [vm.scripts[vm.scriptIdx]], in range where it is used. *)
Definition current_script (vm : Engine) : list parsedOpcode :=
  match index (scripts vm) (scriptIdx vm) with Some s => s | None => [] end.

Definition validPC : engineM unit :=
  let! vm := gets (fun vm => vm) in
  if len (scripts vm) <=? scriptIdx vm then throw ErrPastInputScripts
  else
    let! s := get (index (scripts vm) (scriptIdx vm)) in
    if len s <=? scriptOff vm then throw ErrPastInputScripts else ret tt.

Definition curPC : engineM (Z * Z) :=
  validPC ;;; gets (fun vm => (scriptIdx vm, scriptOff vm)).

(** [fmt.Sprintf("%02x:%04x: %s", ...)] *)
Definition disasm (idx off : Z) : engineM string :=
  let! vm := gets (fun vm => vm) in
  let! s := get (index (scripts vm) idx) in
  let! pop := get (index s off) in
  ret (hex_int 2 16 idx +:+ ":" +:+ hex_int 4 16 off +:+ ": " +:+ print pop false).

Definition DisasmPC : engineM string :=
  let! (i, off) := curPC in disasm i off.

Definition newline : string := String (Ascii.ascii_of_nat 10) "".

(** [for i := range vm.scripts[idx]] *)
Fixpoint disasm_all (idx i : Z) (n : nat) (disstr : string) : engineM string :=
  match n with
  | O => ret disstr
  | S n' =>
      let! d := disasm idx i in
      disasm_all idx (i + 1) n' (disstr +:+ d +:+ newline)
  end.

Definition DisasmScript (idx : Z) : engineM string :=
  let! vm := gets (fun vm => vm) in
  if len (scripts vm) <=? idx then throw ErrStackInvalidIndex
  else
    let! s := get (index (scripts vm) idx) in
    disasm_all idx 0 (length s) "".

(** A call whose error is dropped. *)
Definition ignore {A} (m : engineM A) : engineM unit :=
  fun vm => match m vm with
            | (vm', Panic) => (vm', Panic)
            | (vm', _) => (vm', Ok tt)
            end.

Definition CheckErrorCondition (finalScript : bool) : engineM unit :=
  let! vm := gets (fun vm => vm) in
  if scriptIdx vm <? len (scripts vm) then throw ErrStackScriptUnfinished
  else if finalScript && hasFlag vm ScriptVerifyCleanStack && negb (Depth (dstack vm) =? 1) then
    throw ErrStackCleanStack
  else if Depth (dstack vm) <? 1 then throw ErrStackEmptyStack
  else
    let! v := on_d PopBool in
    if negb v then
      ignore (DisasmScript 0) ;;;
      ignore (DisasmScript 1) ;;;
      throw ErrStackScriptFailed
    else ret tt.

(** [getStack]: the entries from the top down fill the array from its end. *)
Fixpoint get_loop (i : Z) (n : nat) (s : stack) (array : list bytes) : list bytes :=
  match n with
  | O => array
  | S n' =>
      let x := match (PeekByteArray i s).2 with Ok x => x | _ => [] end in
      get_loop (i + 1) n' s (x :: array)
  end.
Definition getStack (s : stack) : list bytes := get_loop 0 (Z.to_nat (Depth s)) s [].

(** [setStack]: drop everything (dropping nothing is an error, ignored), then push. *)
Definition setStack (s : stack) (data : list bytes) : stack :=
  let s := (DropN (Depth s) s).1 in
  fold_left (fun s x => (PushByteArray x s).1) data s.

Definition GetStack (vm : Engine) : list bytes := getStack (dstack vm).
Definition SetStack (data : list bytes) (vm : Engine) : Engine := set_dstack (setStack (dstack vm) data) vm.
Definition GetAltStack (vm : Engine) : list bytes := getStack (astack vm).
Definition SetAltStack (data : list bytes) (vm : Engine) : Engine := set_astack (setStack (astack vm) data) vm.

(** The end of a script: what [Step] does when the offset passes the last opcode. *)
Definition next_script : engineM bool :=
  let! c := gets condStack in
  if negb (len c =? 0) then throw ErrStackMissingEndif
  else
    ignore (fun vm => on_a (DropN (Depth (astack vm))) vm) ;;;
    modify (set_numOps 0) ;;;
    modify (set_scriptOff 0) ;;;
    let! vm := gets (fun vm => vm) in
    (if (scriptIdx vm =? 0) && (bip16 vm || p2ch vm) then
       modify (fun vm => set_scriptIdx (scriptIdx vm + 1) vm) ;;;
       modify (fun vm => set_saved (GetStack vm) vm)
     else if (scriptIdx vm =? 1) && (bip16 vm || p2ch vm) then
       modify (fun vm => set_scriptIdx (scriptIdx vm + 1) vm) ;;;
       CheckErrorCondition false ;;;
       let! saved := gets savedFirstStack in
       let! script := get (index saved (len saved - 1)) in
       match parseScript script with
       | (_, Some e) => throw e
       | (pops, None) =>
           modify (fun vm => set_scripts_ (scripts vm ++ [pops]) vm) ;;;
           modify (SetStack (slice saved 0 (len saved - 1)))
       end
     else modify (fun vm => set_scriptIdx (scriptIdx vm + 1) vm)) ;;;
    modify (fun vm => if (scriptIdx vm <? len (scripts vm)) && (len (current_script vm) <=? scriptOff vm)
                      then set_scriptIdx (scriptIdx vm + 1) vm else vm) ;;;
    modify (set_lastCodeSep 0) ;;;
    gets (fun vm => len (scripts vm) <=? scriptIdx vm).

(** [Step]: the result is [done]. *)
Definition Step : engineM bool :=
  validPC ;;;
  let! vm := gets (fun vm => vm) in
  let! opcode := get (index (current_script vm) (scriptOff vm)) in
  executeOpcode opcode ;;;
  let! vm := gets (fun vm => vm) in
  if maxStackSize <? int32 (Depth (dstack vm) + Depth (astack vm)) then throw ErrStackOverflow
  else
    modify (fun vm => set_scriptOff (scriptOff vm + 1) vm) ;;;
    let! vm := gets (fun vm => vm) in
    if len (current_script vm) <=? scriptOff vm then next_script else ret false.

(** The loop of [Execute], with fuel; [None] is a loop that has not ended. *)
Fixpoint run_loop (fuel : nat) (vm : Engine) : Engine * option (result error unit) :=
  match fuel with
  | O => (vm, None)
  | S fuel' =>
      match Step vm with
      | (vm', Ok true) => (vm', Some (Ok tt))
      | (vm', Ok false) => run_loop fuel' vm'
      | (vm', Err e) => (vm', Some (Err e))
      | (vm', Panic) => (vm', Some Panic)
      end
  end.

(** Enough turns for any engine of [NewEngine]: one for each opcode of the two scripts, and at
    most [MaxScriptElementSize] for a redeem script, which is one element of the stack; one more
    to find out that a script is empty. *)
Definition exec_fuel (vm : Engine) : nat :=
  S (foldr (fun s n => length s + n)%nat (Z.to_nat MaxScriptElementSize) (scripts vm)).

Definition Execute_from (fuel : nat) (vm : Engine) : Engine * option (result error unit) :=
  match run_loop fuel vm with
  | (vm', Some (Ok _)) => let '(vm'', r) := CheckErrorCondition true vm' in (vm'', Some r)
  | r => r
  end.

Definition Execute (vm : Engine) : Engine * option (result error unit) :=
  Execute_from (exec_fuel vm) vm.

Definition newStack (minimal : bool) : stack := mkStack [] minimal.

(** Parse a script, after the test of its size. *)
Definition load_script (scr : bytes) : result error (list parsedOpcode) :=
  if maxScriptSize <? len scr then Err ErrStackLongScript
  else match parseScript scr with
       | (pops, None) => Ok pops
       | (_, Some e) => Err e
       end.

Definition NewEngine (scriptPubKey : bytes) (t : Transaction) (mIdx iIdx : Z) (fs : Z)
    (cache : option SigCache) : result error Engine :=
  let? msg := message_at (Messages t) mIdx in
  let? pay := as_payment msg in
  if (iIdx <? 0) || (len (Inputs pay) <=? iIdx) then Err ErrInvalidIndex
  else
    let? input := rget (index (Inputs pay) iIdx) in
    let scriptSig := SignatureScript input in
    if has_flag fs ScriptVerifyCleanStack && negb (has_flag fs ScriptBip16) then Err ErrInvalidFlags
    else if has_flag fs ScriptVerifySigPushOnly && negb (IsPushOnlyScript scriptSig) then
      Err ErrStackNonPushOnly
    else
      let? s0 := load_script scriptSig in
      let? s1 := load_script scriptPubKey in
      let start := if len scriptSig =? 0 then 1 else 0 in
      if has_flag fs ScriptBip16 && isScriptHash s1 && negb (isPushOnly s0) then Err ErrStackP2SHNonPushOnly
      else
        let b16 := has_flag fs ScriptBip16 && isScriptHash s1 in
        if isContractHash s1 && negb (isPushOnly s0) then Err ErrStackP2CHNonPushOnly
        else
          let minimal := has_flag fs ScriptVerifyMinimalData in
          Ok (mkEngine t (newStack minimal) (newStack minimal) [s0; s1] [] [] start 0 0 mIdx iIdx 0
                cache fs b16 (isContractHash s1)).
End Handlers.
