(* ===== verification/SigEncoding.v ===== *)
(** The encoding of signatures: [checkSignatureEncoding] of
    src/tokenengine/internal/txscript/engine.go (Engine.check_der) against the definition of a
    canonical DER signature. *)

From Stdlib Require Import ZArith Lia.
From S2P Require Import Prelude Errors Script Engine.

(** ** DER signatures *)

(** A canonical, positive ASN.1 integer: no sign bit, no padding that the sign does not ask for. *)
Definition der_integer (x : bytes) : Prop :=
  match x with
  | [] => False
  | [a] => b2z a < 128
  | a :: b :: _ => b2z a < 128 /\ (a = x00 -> 128 <= b2z b)
  end.

Definition der_signature (sig : bytes) : Prop :=
  len sig <= 72 /\
  exists r s, der_integer r /\ der_integer s /\
    sig = [x30; z2b (len sig - 2); x02; z2b (len r)] ++ r ++ [x02; z2b (len s)] ++ s.

(** The checks on one integer, as the code makes them: [a] its first byte, [b] the next. *)
Lemma sign_bit a : (Z.land (b2z a) 0x80 =? 0) = (b2z a <? 128).
Proof. destruct a; reflexivity. Qed.

Lemma der_integer_cons a t : der_integer (a :: t) <->
  b2z a < 128 /\ (1 < len (a :: t) -> a = x00 -> exists b, index (a :: t) 1 = Some b /\ 128 <= b2z b).
Proof.
  destruct t as [|b t]; simpl.
  - split; [intros; split; [done|]|tauto]. unfold len; simpl; lia.
  - rewrite !len_cons. pose proof (len_nonneg t). split; intros [P Q]; (split; [done|]).
    + intros _ E. exists b. auto.
    + intros E. destruct (Q ltac:(lia) E) as (b' & [= ->] & ?). done.
Qed.

(** The layout the code relies on once the length of R is known to fit. *)
Lemma der_layout sig b3 : 8 <= len sig -> index sig 3 = Some b3 -> b2z b3 + 5 < len sig ->
  exists b0 b1 b2 r bm bs s, sig = b0 :: b1 :: b2 :: b3 :: r ++ bm :: bs :: s /\ len r = b2z b3.
Proof.
  intros L I R. destruct sig as [|b0 [|b1 [|b2 [|b3' t]]]]; try (unfold len in L; simpl in L; lia).
  injection I as ->. rewrite !len_cons in R. pose proof (b2z_range b3).
  destruct (split_len t (b2z b3)) as (r & t' & -> & Lr); [lia|]. rewrite len_app in R.
  destruct t' as [|bm [|bs s]]; try (unfold len in *; simpl in *; lia).
  by exists b0, b1, b2, r, bm, bs, s.
Qed.

Lemma x00_iff a : (b2z a =? 0x00) = true <-> a = x00.
Proof. rewrite Z.eqb_eq. split; [|by intros ->]. intros E. now apply b2z_inj. Qed.

Section Layout.
Variables (b0 b1 b2 b3 bm bs : byte) (r s : bytes).
Definition layout : bytes := b0 :: b1 :: b2 :: b3 :: r ++ bm :: bs :: s.
Hypothesis Lr : len r = b2z b3.

Lemma layout_len : len layout = len r + len s + 6.
Proof. unfold layout. rewrite !len_cons, len_app, !len_cons. lia. Qed.
Lemma layout_r i : 0 <= i < len r -> index layout (i + 4) = index r i.
Proof. intros H. unfold layout. rewrite !index_cons_pos by lia. rewrite index_app_l by lia. f_equal. lia. Qed.
Lemma layout_bm : index layout (b2z b3 + 4) = Some bm.
Proof. pose proof (len_nonneg r). unfold layout. rewrite !index_cons_pos by lia. apply index_middle. lia. Qed.
Lemma layout_bs : index layout (b2z b3 + 5) = Some bs.
Proof.
  pose proof (len_nonneg r). unfold layout. rewrite !index_cons_pos by lia. rewrite index_app_r by lia.
  now replace (b2z b3 + 5 - 1 - 1 - 1 - 1 - len r) with 1 by lia.
Qed.
Lemma layout_s i : 0 <= i -> index layout (b2z b3 + 6 + i) = index s i.
Proof.
  intros H. pose proof (len_nonneg r). unfold layout. rewrite !index_cons_pos by lia.
  rewrite index_app_r by lia. rewrite !index_cons_pos by lia. f_equal. lia.
Qed.
End Layout.

(** The verdict [x] on a signature for which [A] is the specification. *)
Definition verdict (A : Prop) (x : result error unit) : Prop :=
  (x = Ok tt /\ A) \/ (exists e, x = Err e /\ ~ A).

Lemma verdict_if (A : Prop) (c : bool) e k :
  (c = true -> ~ A) -> (c = false -> verdict A k) -> verdict A (if c then Err e else k).
Proof. intros X Y. destruct c; [right; exists e; split; [done|auto]|auto]. Qed.

(** The end of the chain, the checks on S. *)
Lemma check_der_s sig b3 sLen s : 0 <= b3 -> sLen = len s ->
  (forall i, 0 <= i -> index sig (b3 + 6 + i) = index s i) ->
  verdict (der_integer s)
    (if sLen =? 0 then Err (ErrMalformedSignature SigSLengthZero) else
     let? b6 := rget (index sig (b3 + 6)) in
     if negb (Z.land (b2z b6) 0x80 =? 0) then Err (ErrMalformedSignature SigSNegative) else
     if (1 <? sLen) && (b2z b6 =? 0x00) then
       let? b7 := rget (index sig (b3 + 7)) in
       if Z.land (b2z b7) 0x80 =? 0 then Err (ErrMalformedSignature SigInvalidS) else Ok tt
     else Ok tt).
Proof.
  intros B -> IS. pose proof (IS 0 ltac:(lia)) as J0. pose proof (IS 1 ltac:(lia)) as J1.
  rewrite Z.add_0_r in J0. replace (b3 + 6 + 1) with (b3 + 7) in J1 by lia. rewrite J0, J1.
  destruct s as [|a [|b s]]; [right; eexists; split; [reflexivity|exact id]| |].
  - change (index [a] 0) with (Some a). change (len [a]) with 1. cbn [rget rbind]. rewrite sign_bit.
    apply verdict_if; [done|intros _]. apply verdict_if; [simpl; lia|intros C]. left. split; [done|simpl; lia].
  - change (index (a :: b :: s) 0) with (Some a). change (index (a :: b :: s) 1) with (Some b). cbn [rget rbind].
    rewrite !sign_bit, !len_cons. pose proof (len_nonneg s).
    apply verdict_if; [lia|intros _]. apply verdict_if; [simpl; lia|intros C].
    replace (1 <? len s + 1 + 1) with true by lia. cbn [andb]. destruct (b2z a =? 0x00) eqn:Z0.
    + apply x00_iff in Z0. apply verdict_if; [simpl; intros ? [_ D]; specialize (D Z0); lia|intros D].
      left. split; [done|]. simpl. split; [lia|intros _; lia].
    + left. split; [done|]. simpl. split; [lia|]. intros ->. discriminate Z0.
Qed.

Lemma verdict_iff (A B : Prop) x : (A <-> B) -> verdict A x -> verdict B x.
Proof. intros I [[-> b]|(e & -> & n)]; [left; tauto|right; exists e; tauto]. Qed.

(** The verdict on a signature of this layout. *)
Lemma check_der_layout sig b0 b1 b2 b3 bm bs r s : sig = layout b0 b1 b2 b3 bm bs r s -> len r = b2z b3 ->
  8 <= len sig <= 72 ->
  verdict (b0 = x30 /\ b2z b1 = len sig - 2 /\ b2 = x02 /\ bm = x02 /\ b2z bs = len s /\ der_integer r /\ der_integer s)
    (check_der sig).
Proof.
  intros Esig Lr L.
  assert (Ls : len sig = len r + len s + 6) by (rewrite Esig; apply layout_len).
  assert (I5 : index sig (b2z b3 + 5) = Some bs) by (rewrite Esig; by apply layout_bs).
  assert (I4 : index sig (b2z b3 + 4) = Some bm) by (rewrite Esig; by apply layout_bm).
  assert (IR : forall i, 0 <= i < len r -> index sig (i + 4) = index r i) by (rewrite Esig; intros; by apply layout_r).
  assert (IS : forall i, 0 <= i -> index sig (b2z b3 + 6 + i) = index s i) by (rewrite Esig; intros; by apply layout_s).
  assert (Hd : index sig 0 = Some b0 /\ index sig 1 = Some b1 /\ index sig 2 = Some b2 /\ index sig 3 = Some b3) by by rewrite Esig.
  clear Esig. destruct Hd as (H0 & H1 & H2 & H3). pose proof (len_nonneg r). pose proof (len_nonneg s).
  unfold check_der. replace (len sig <? 8) with false by lia. replace (72 <? len sig) with false by lia.
  rewrite H0, H1, H2, H3. cbn [rget rbind]. rewrite I5, I4. cbn [rget rbind].
  apply verdict_if; [intros C (-> & _); discriminate C|intros C0].
  apply verdict_if; [intros C (_ & E & _); rewrite E, Z.eqb_refl in C; discriminate C|intros C1].
  apply verdict_if; [lia|intros _].
  apply verdict_if; [intros C (_ & _ & _ & _ & E & _); lia|intros C2].
  apply verdict_if; [intros C (_ & _ & -> & _); discriminate C|intros C3].
  apply verdict_if; [intros C (_ & _ & _ & _ & _ & D & _); destruct r; [done|rewrite len_cons in Lr; pose proof (len_nonneg r); lia]|intros C4].
  destruct r as [|r0 r']; [rewrite len_nil in Lr; lia|]. rewrite len_cons in *. pose proof (len_nonneg r').
  pose proof (IR 0 ltac:(lia)) as I0. change (0 + 4) with 4 in I0. rewrite I0. change (index (r0 :: r') 0) with (Some r0). cbn [rget rbind].
  destruct (index_Some sig 5) as [a5 A5]; [lia|]. rewrite A5. cbn [rget rbind]. rewrite !sign_bit.
  pose proof (der_integer_cons r0 r') as Dr. rewrite len_cons in Dr.
  apply verdict_if; [intros C (_ & _ & _ & _ & _ & D & _); apply Dr in D; lia|intros C5].
  apply verdict_if.
  { intros C (_ & _ & _ & _ & _ & D & _). apply andb_true_iff in C as [C C']. apply andb_true_iff in C as [C C''].
    apply x00_iff in C''. apply Dr in D as [_ D]. destruct (D ltac:(lia) C'') as (b & B & B').
    specialize (IR 1 ltac:(lia)). change (1 + 4) with 5 in IR. rewrite A5, B in IR. injection IR as ->. lia. }
  intros C6. apply verdict_if; [intros C (_ & _ & _ & -> & _); discriminate C|intros C7].
  apply negb_false_iff, Z.eqb_eq in C0, C1, C2, C3, C7.
  eapply verdict_iff; [|apply (check_der_s sig (b2z b3) (b2z bs) s); [lia|lia|exact IS]].
  split; [|tauto]. intros D. split_and!; try done; try (by apply b2z_inj); [lia|].
  apply Dr. split; [lia|]. intros G ->. exists a5. specialize (IR 1 ltac:(lia)). change (1 + 4) with 5 in IR.
  split; [congruence|]. replace (1 <? b2z b3) with true in C6 by lia. simpl in C6. lia.
Qed.

Lemma z2b_small z b : 0 <= z < 256 -> (b2z b = z <-> b = z2b z).
Proof.
  intros R. split; [intros <-; symmetry; apply z2b_b2z|intros ->]. rewrite b2z_z2b. now apply Z.mod_small.
Qed.

(** When the length of R does not leave room for S. *)
Lemma check_der_short b0 b1 b2 b3 t : let sig := b0 :: b1 :: b2 :: b3 :: t in
  8 <= len sig <= 72 -> len sig <= b2z b3 + 5 ->
  match check_der sig with
  | Ok _ => False
  | Err _ => ~ (b0 = x30 /\ b2z b1 = len sig - 2 /\ b2z b3 = len sig - 5)
  | Panic => b0 = x30 /\ b2z b1 = len sig - 2 /\ b2z b3 = len sig - 5
  end.
Proof.
  intros sig L S. unfold check_der. replace (len sig <? 8) with false by lia. replace (72 <? len sig) with false by lia.
  change (index sig 0) with (Some b0). change (index sig 1) with (Some b1). change (index sig 3) with (Some b3). cbn [rget rbind].
  destruct (b2z b0 =? 0x30) eqn:C0; cbn [negb]; [|intros (-> & _); discriminate C0]. apply Z.eqb_eq in C0.
  destruct (b2z b1 =? len sig - 2) eqn:C1; cbn [negb]; [|lia].
  destruct (len sig <? b2z b3 + 5) eqn:C2; [lia|].
  rewrite (proj2 (index_None sig (b2z b3 + 5))) by lia. cbn [rget rbind].
  split_and!; [by apply b2z_inj|lia|lia].
Qed.

Lemma der_signature_layout b0 b1 b2 b3 t : let sig := b0 :: b1 :: b2 :: b3 :: t in der_signature sig ->
  8 <= len sig <= 72 /\ b2z b3 + 5 < len sig.
Proof.
  intros sig (L & r & s & Dr & Ds & E). simpl in E. unfold sig in E. injection E as -> Eb -> -> ->.
  assert (Nr : 1 <= len r) by (destruct r; [done|rewrite len_cons; pose proof (len_nonneg r); lia]).
  assert (Ns : 1 <= len s) by (destruct s; [done|rewrite len_cons; pose proof (len_nonneg s); lia]).
  assert (Le : len sig = len r + len s + 6) by (unfold sig; rewrite !len_cons, len_app, !len_cons; lia).
  rewrite b2z_z2b, Z.mod_small; lia.
Qed.

(** The specification on a layout. *)
Lemma der_signature_iff sig b0 b1 b2 b3 bm bs r s : sig = layout b0 b1 b2 b3 bm bs r s -> len r = b2z b3 ->
  8 <= len sig <= 72 ->
  der_signature sig <->
  b0 = x30 /\ b2z b1 = len sig - 2 /\ b2 = x02 /\ bm = x02 /\ b2z bs = len s /\ der_integer r /\ der_integer s.
Proof.
  intros Esig Lr L. assert (Ls : len sig = len r + len s + 6) by (rewrite Esig; apply layout_len).
  pose proof (len_nonneg r). pose proof (len_nonneg s). pose proof (b2z_range b3).
  rewrite (z2b_small _ b1), (z2b_small _ bs) by lia. split.
  - intros (_ & r' & s' & Dr & Ds & E). assert (E' := E). rewrite Esig in E at 1. unfold layout in E.
    injection E as -> -> -> E3 E.
    assert (Lr' : len r' = len r).
    { apply (f_equal len) in E'. rewrite !len_app in E'. change (len [_; _; _; _]) with 4 in E'. change (len [_; _]) with 2 in E'.
      pose proof (len_nonneg r'). pose proof (len_nonneg s').
      rewrite Lr. symmetry. apply z2b_small; [lia|done]. }
    apply app_inj_1 in E as [<- E]; [|unfold len in Lr'; lia]. by injection E as -> -> <-.
  - intros (-> & -> & -> & -> & -> & Dr & Ds). split; [lia|]. exists r, s. split; [done|]. split; [done|].
    rewrite Esig at 1. unfold layout. rewrite Lr, z2b_b2z. done.
Qed.

(** C28: [checkSignatureEncoding] accepts exactly the canonical DER signatures of at most 72 bytes:
    a sequence of two positive integers without needless padding and with exact lengths.  Its one
    panic is a signature whose R claims all but the five bytes before the marker of S: the guard
    compares [rLen+5] with [>] instead of [>=] before reading that position. *)
Theorem check_der_spec (sig : bytes) :
  (check_der sig = Ok tt <-> der_signature sig) /\
  (check_der sig = Panic <-> 8 <= len sig <= 72 /\
     exists x r, sig = [x30; z2b (len sig - 2); x; z2b (len sig - 5)] ++ r).
Proof.
  destruct (decide (8 <= len sig <= 72)) as [L|L].
  2:{ assert (E : exists e, check_der sig = Err e).
      { unfold check_der. destruct (Z.ltb_spec (len sig) 8); [by eexists|].
        destruct (Z.ltb_spec 72 (len sig)); [by eexists|lia]. }
      destruct E as [e ->]. split; (split; [done|]); [|tauto]. intros D. exfalso. apply L.
      destruct sig as [|b0 [|b1 [|b2 [|b3 t]]]]; try (destruct D as (_ & r & s & _ & _ & D); discriminate D).
      now apply der_signature_layout in D. }
  destruct sig as [|b0 [|b1 [|b2 [|b3 t]]]]; try (exfalso; unfold len in L; simpl in L; lia).
  pose proof (b2z_range b3). set (sig := b0 :: b1 :: b2 :: b3 :: t) in *.
  assert (Sh : (8 <= len sig <= 72 /\ exists x r, sig = [x30; z2b (len sig - 2); x; z2b (len sig - 5)] ++ r) <->
               (b0 = x30 /\ b2z b1 = len sig - 2 /\ b2z b3 = len sig - 5)).
  { rewrite (z2b_small _ b1), (z2b_small _ b3) by lia. split.
    - intros (_ & x & r & E). unfold sig at 1 in E. injection E as E0 E1 _ E3 _. done.
    - intros (E0 & E1 & E3). split; [done|]. exists b2, t. unfold sig at 1. now rewrite E0, E1, E3. }
  destruct (Z.le_gt_cases (len sig) (b2z b3 + 5)) as [S|S].
  - pose proof (check_der_short b0 b1 b2 b3 t L S) as C. fold sig in C.
    assert (ND : ~ der_signature sig) by (intros D; apply der_signature_layout in D; fold sig in D; lia).
    destruct (check_der sig); split; split; done || tauto.
  - destruct (der_layout sig b3) as (c0 & c1 & c2 & r & bm & bs & s & E & Lr); [lia|done|done|].
    unfold sig in E. injection E as E0 E1 E2 Et. subst c0 c1 c2.
    pose proof (check_der_layout sig b0 b1 b2 b3 bm bs r s ltac:(unfold sig, layout; now rewrite Et) Lr L) as V.
    assert (NP : check_der sig <> Panic) by (destruct V as [[-> _]|(e & -> & _)]; done).
    split; [|split; [done|intros (E0 & E1 & E3)%Sh; lia]].
    rewrite (der_signature_iff sig b0 b1 b2 b3 bm bs r s) by (done || (unfold sig, layout; now rewrite Et)).
    destruct V as [[-> A]|(e & -> & A)]; split; done || tauto.
Qed.
