(* ===== verification/EngineInv.v ===== *)
(** Invariants of the script engine (Engine.v).

    [sspec k m Q]: the stack method [m] adds at most [k] items, does not panic, and returns a
    value in [Q].  [espec k m Q] lifts this to the engine, with the fields a handler leaves
    alone ([frame]); a panic is possible only if the outside world misbehaves ([good] fails).
    Both compose along [bind], so each of the handlers is verified by the hint database
    [engine].  On top of it: the invariant of [Step], the bound on the number of steps, and the
    absence of panics. *)

From Stdlib Require Import ZArith Lia.
From S2P Require Import Prelude Errors ScriptNum Stack Opcode Script Builder Address Tx SigHash SigCache Engine.

(** ** Specifications of stack methods *)

Definition sspec {A} (k : Z) (m : stackM A) (Q : A -> Prop) : Prop :=
  forall s, len (stk s) + k < 2 ^ 31 ->
    let '(s', r) := m s in
    len (stk s') <= len (stk s) + k /\ verifyMinimalData s' = verifyMinimalData s /\
    match r with Ok a => Q a | Err _ => True | Panic => False end.

Lemma sspec_bind {A B} k1 k2 (m : stackM A) (f : A -> stackM B) Q R :
  0 <= k2 -> sspec k1 m Q -> (forall a, Q a -> sspec k2 (f a) R) -> sspec (k1 + k2) (bind m f) R.
Proof.
  intros K Hm Hf s Hs. unfold bind. specialize (Hm s ltac:(lia)).
  destruct (m s) as [s1 [a|e|]]; destruct Hm as (L & V & P); [|split_and!; done || lia|done].
  specialize (Hf a P s1 ltac:(lia)). destruct (f a s1) as [s2 r].
  destruct Hf as (L' & V' & P'). split_and!; [lia|congruence|done].
Qed.

Lemma sspec_weaken {A} k k' (m : stackM A) Q R : k <= k' -> (forall a, Q a -> R a) ->
  sspec k m Q -> sspec k' m R.
Proof.
  intros K QR H s Hs. specialize (H s ltac:(lia)). destruct (m s) as [s' [a|e|]];
    destruct H as (L & V & P); split_and!; auto; lia.
Qed.

Lemma sspec_ret {A} (a : A) (Q : A -> Prop) : Q a -> sspec 0 (ret a) Q.
Proof. intros H s Hs. simpl. split_and!; done || lia. Qed.

Lemma sspec_throw {A} e (Q : A -> Prop) : sspec 0 (throw e) Q.
Proof. intros s Hs. simpl. split_and!; done || lia. Qed.

Lemma sspec_push x : sspec 1 (PushByteArray x) (fun _ => True).
Proof.
  intros s Hs. unfold PushByteArray, modify, set_stk; simpl. rewrite len_app.
  split_and!; [unfold len in *; simpl; lia|done|done].
Qed.

Lemma sspec_nipN i : sspec 0 (nipN i) (fun _ => True).
Proof.
  intros s Hs. destruct (nipN_cases s i) as [-> | (a & x & b & E & L & ->)]; [unfold fits; lia| |].
  - split_and!; done || lia.
  - rewrite E. simpl. rewrite !len_app, len_cons. split_and!; done || lia.
Qed.

Lemma sspec_pop : sspec 0 PopByteArray (fun _ => True).
Proof. apply sspec_nipN. Qed.

Lemma sspec_peek i : sspec 0 (PeekByteArray i) (fun _ => True).
Proof.
  intros s Hs. destruct (PeekByteArray_cases s i) as [-> | (a & x & b & E & L & ->)];
    [unfold fits; lia| |]; split_and!; done || lia.
Qed.

(** The range of a decoded operand. *)
Definition operand (n : Z) : Prop := - (2 ^ 31 - 1) <= n <= 2 ^ 31 - 1.

Lemma sspec_popInt : sspec 0 PopInt operand.
Proof.
  intros s Hs. unfold PopInt. pose proof (sspec_pop s Hs) as P. unfold bind, gets, lift.
  destruct (PopByteArray s) as [s1 [so|e|]]; destruct P as (L & V & P); [|split_and!; done|done].
  split_and!; [done|done|].
  destruct (makeScriptNum so _ _) as [n|e|] eqn:E; [|done|now apply makeScriptNum_no_panic in E].
  apply default_range in E. apply E.
Qed.

Lemma sspec_popBool : sspec 0 PopBool (fun _ => True).
Proof.
  unfold PopBool. change 0 with (0 + 0). eapply sspec_bind; [lia|apply sspec_pop|].
  intros; now apply sspec_ret.
Qed.

Lemma Bytes_ok n : -2 ^ 63 < n -> exists v, Bytes n = Ok v.
Proof.
  intros Hn. destruct (Z.lt_ge_cases n (2 ^ 63)); [now apply Bytes_total|].
  unfold Bytes. replace (n =? 0) with false by lia. replace (n <? 0) with false by lia.
  set (r := le_loop 8 n).
  assert (0 < len r).
  { assert (E : r = z2b (Z.land n 0xff) :: le_loop 7 (Z.shiftr n 8))
      by (change r with (if 0 <? n then z2b (Z.land n 0xff) :: le_loop 7 (Z.shiftr n 8) else []);
          now replace (0 <? n) with true by lia).
    rewrite E, len_cons. pose proof (len_nonneg (le_loop 7 (Z.shiftr n 8))). lia. }
  destruct (index_Some r (len r - 1)) as [b Hb]; [lia|]. rewrite Hb. cbn [rget rbind].
  destruct (negb _); eauto.
Qed.

Lemma sspec_pushInt n : -2 ^ 63 < n -> sspec 1 (PushInt n) (fun _ => True).
Proof.
  intros H. destruct (Bytes_ok n H) as [v E]. intros s Hs. unfold PushInt, bind, lift.
  rewrite E. now apply sspec_push.
Qed.

Lemma sspec_pushBool b : sspec 1 (PushBool b) (fun _ => True).
Proof. apply sspec_push. Qed.

Lemma sspec_repeat k n (m : stackM unit) : 0 <= k -> sspec k m (fun _ => True) ->
  sspec (k * Z.of_nat n) (repeatM n m) (fun _ => True).
Proof.
  intros K H. induction n as [|n IH]; cbn [repeatM].
  - rewrite Z.mul_0_r. now apply sspec_ret.
  - replace (k * Z.of_nat (S n)) with (k + k * Z.of_nat n) by lia.
    eapply sspec_bind; [lia|exact H|]. intros; exact IH.
Qed.

(** Repeating a move or a copy of one item at most [n] times. *)
Lemma sspec_repeat_push n (m : stackM bytes) : 0 <= n -> sspec 0 m (fun _ => True) ->
  sspec n (repeatM (Z.to_nat n) (let! so := m in PushByteArray so)) (fun _ => True).
Proof.
  intros N H. replace n with (1 * Z.of_nat (Z.to_nat n)) at 1 by lia.
  apply sspec_repeat; [lia|]. change 1 with (0 + 1). eapply sspec_bind; [lia|exact H|].
  intros; apply sspec_push.
Qed.

Lemma sspec_DropN n : sspec 0 (DropN n) (fun _ => True).
Proof.
  unfold DropN. destruct (n <? 1); [apply sspec_throw|].
  change 0 with (0 * Z.of_nat (Z.to_nat n)). apply sspec_repeat; [lia|].
  change 0 with (0 + 0). eapply sspec_bind; [lia|apply sspec_pop|]. intros; now apply sspec_ret.
Qed.

Ltac sspec_n :=
  match goal with |- sspec ?n (if ?b then _ else _) _ =>
    destruct b; [apply (sspec_weaken 0 n _ (fun _ => True)); [lia|done|apply sspec_throw]|] end;
  apply sspec_repeat_push; [lia|]; first [apply sspec_peek | apply sspec_nipN].

Lemma sspec_DupN n : 0 <= n -> sspec n (DupN n) (fun _ => True).
Proof. intros. unfold DupN. sspec_n. Qed.
Lemma sspec_RotN n : 0 <= n -> sspec n (RotN n) (fun _ => True).
Proof. intros. unfold RotN. sspec_n. Qed.
Lemma sspec_SwapN n : 0 <= n -> sspec n (SwapN n) (fun _ => True).
Proof. intros. unfold SwapN. sspec_n. Qed.
Lemma sspec_OverN n : 0 <= n -> sspec n (OverN n) (fun _ => True).
Proof. intros. unfold OverN. sspec_n. Qed.

Lemma sspec_PickN n : sspec 1 (PickN n) (fun _ => True).
Proof.
  change 1 with (0 + 1). unfold PickN. eapply sspec_bind; [lia|apply sspec_peek|]. intros; apply sspec_push.
Qed.
Lemma sspec_RollN n : sspec 1 (RollN n) (fun _ => True).
Proof.
  change 1 with (0 + 1). unfold RollN. eapply sspec_bind; [lia|apply sspec_nipN|]. intros; apply sspec_push.
Qed.
Lemma sspec_NipN n : sspec 0 (NipN n) (fun _ => True).
Proof.
  change 0 with (0 + 0). unfold NipN. eapply sspec_bind; [lia|apply sspec_nipN|]. intros; now apply sspec_ret.
Qed.
Lemma sspec_Tuck : sspec 3 Tuck (fun _ => True).
Proof.
  unfold Tuck. change 3 with (0 + (0 + (1 + (1 + 1)))).
  repeat (eapply sspec_bind; [lia|first [apply sspec_pop | apply sspec_push]|intros ? _]).
  apply sspec_push.
Qed.

Create HintDb engine.
#[export] Hint Resolve sspec_push sspec_pop sspec_peek sspec_nipN sspec_popInt sspec_popBool
  sspec_pushBool sspec_DropN sspec_PickN sspec_RollN sspec_NipN sspec_Tuck : engine.

(** ** Specifications of engine methods *)

Section Specs.
Context `{ScriptEnv}.

(** What a handler leaves alone; OP_CODESEPARATOR records the offset. *)
Record frame (vm vm' : Engine) : Prop := mkFrame {
  fr_tx : tx vm' = tx vm;
  fr_scripts : scripts vm' = scripts vm;
  fr_saved : savedFirstStack vm' = savedFirstStack vm;
  fr_idx : scriptIdx vm' = scriptIdx vm;
  fr_off : scriptOff vm' = scriptOff vm;
  fr_msg : msgIdx vm' = msgIdx vm;
  fr_in : txIdx vm' = txIdx vm;
  fr_flags : flags vm' = flags vm;
  fr_bip16 : bip16 vm' = bip16 vm;
  fr_p2ch : p2ch vm' = p2ch vm;
  fr_sep : lastCodeSep vm' = lastCodeSep vm \/ lastCodeSep vm' = scriptOff vm
}.

Lemma frame_refl vm : frame vm vm.
Proof. constructor; auto. Qed.

Lemma frame_trans a b c : frame a b -> frame b c -> frame a c.
Proof.
  intros [] []. constructor; try congruence. destruct fr_sep0, fr_sep1; [left|right|right|right]; congruence.
Qed.

#[local] Instance frame_preorder : PreOrder frame.
Proof. split; [exact frame_refl | intros a b c; exact (frame_trans a b c)]. Qed.

(** The height of both stacks, the quantity the engine bounds. *)
Definition height (vm : Engine) : Z := len (stk (dstack vm)) + len (stk (astack vm)).

(** The program counter is at an opcode and the last code separator behind it. *)
Definition located (vm : Engine) : Prop :=
  0 <= scriptIdx vm < len (scripts vm) /\
  0 <= lastCodeSep vm <= scriptOff vm /\ scriptOff vm <= len (current_script vm).

(** What keeps the handlers from panicking: the signed data can be computed for every hash type
    byte, message 0 is a payment, the source of redeem scripts does not panic, and the flags do
    not ask for the DER checks. *)
Definition good (vm : Engine) : Prop :=
  (forall pops ht, 0 <= ht < 256 ->
     exists b, calcSignatureData env_keccakHash pops ht (tx vm) (msgIdx vm) (txIdx vm) = Ok b) /\
  (exists msgs m0 p, TxMessages (E := error) (tx vm) = Ok msgs /\ index msgs 0 = Some m0 /\
     Payload m0 = Some (PayPayment p)) /\
  hasFlag vm ScriptVerifyDERSignatures = false /\ hasFlag vm ScriptVerifyLowS = false /\
  hasFlag vm ScriptVerifyStrictEncoding = false /\
  (forall a, pickupJuryRedeemScript a <> Panic).

Lemma located_frame vm vm' : frame vm vm' -> located vm -> located vm'.
Proof.
  intros [] (A & B & C). unfold located, current_script in *.
  rewrite fr_scripts0, fr_idx0, fr_off0. split_and!; try lia; destruct fr_sep0; lia.
Qed.

Lemma good_frame vm vm' : frame vm vm' -> good vm -> good vm'.
Proof.
  intros [] (A & B & C). unfold good, hasFlag in *. rewrite fr_tx0, fr_msg0, fr_in0, fr_flags0. auto.
Qed.

Definition espec {A} (k : Z) (m : engineM A) (Q : A -> Prop) : Prop :=
  forall vm, located vm -> height vm + k < 2 ^ 31 ->
    let '(vm', r) := m vm in
    frame vm vm' /\ height vm' <= height vm + k /\
    match r with
    | Ok a => Q a /\ (numOps vm <= MaxOpsPerScript -> numOps vm' <= MaxOpsPerScript)
    | Err _ => True
    | Panic => ~ good vm
    end.

Lemma espec_bind {A B} k1 k2 (m : engineM A) (f : A -> engineM B) Q R :
  0 <= k2 -> espec k1 m Q -> (forall a, Q a -> espec k2 (f a) R) -> espec (k1 + k2) (bind m f) R.
Proof.
  intros K Hm Hf vm Lc Hh. unfold bind. specialize (Hm vm Lc ltac:(lia)).
  destruct (m vm) as [vm1 [a|e|]]; destruct Hm as (F & L & P).
  - destruct P as [Qa N]. specialize (Hf a Qa vm1 (located_frame _ _ F Lc) ltac:(lia)).
    destruct (f a vm1) as [vm2 r]. destruct Hf as (F' & L' & P').
    split; [now transitivity vm1|]. split; [lia|].
    destruct r; [split; [apply P'|]|done|].
    + intros N0. apply P', N, N0.
    + intros G. apply P'. eapply good_frame; eauto.
  - split_and!; done || lia.
  - split_and!; done || lia.
Qed.

Lemma espec_weaken {A} k k' (m : engineM A) Q R : k <= k' -> (forall a, Q a -> R a) ->
  espec k m Q -> espec k' m R.
Proof.
  intros K QR Hm vm Lc Hh. specialize (Hm vm Lc ltac:(lia)).
  destruct (m vm) as [vm' [a|e|]]; destruct Hm as (F & L & P); (split; [done|]);
    (split; [lia|]); [split; [apply QR, P|apply P]|done|done].
Qed.

Lemma espec_ret {A} (a : A) (Q : A -> Prop) : Q a -> espec 0 (ret a) Q.
Proof. intros q vm Lc Hh. simpl. split_and!; auto using frame_refl. lia. Qed.

Lemma espec_throw {A} e (Q : A -> Prop) : espec 0 (throw e) Q.
Proof. intros vm Lc Hh. simpl. split_and!; auto using frame_refl. lia. Qed.

Lemma espec_gets {A} (f : Engine -> A) : espec 0 (gets f) (fun _ => True).
Proof. intros vm Lc Hh. simpl. split_and!; auto using frame_refl. lia. Qed.

(** Reading the whole state: the continuation may use what holds of it. *)
Lemma espec_read {B} k (f : Engine -> engineM B) R :
  (forall vm, located vm -> height vm + k < 2 ^ 31 ->
     let '(vm', r) := f vm vm in
     frame vm vm' /\ height vm' <= height vm + k /\
     match r with
     | Ok a => R a /\ (numOps vm <= MaxOpsPerScript -> numOps vm' <= MaxOpsPerScript)
     | Err _ => True
     | Panic => ~ good vm
     end) ->
  espec k (bind (gets (fun vm => vm)) f) R.
Proof.
  intros D vm Lc Hh; unfold bind, gets. exact (D vm Lc Hh).
Qed.

Lemma espec_on_d {A} k (m : stackM A) Q : 0 <= k -> sspec k m Q -> espec k (on_d m) Q.
Proof.
  intros K Hm vm Lc Hh. unfold on_d, focus, height in *.
  pose proof (len_nonneg (stk (astack vm))). specialize (Hm (dstack vm) ltac:(lia)).
  destruct (m (dstack vm)) as [s r]. destruct Hm as (L & V & P).
  split; [constructor; auto|]. simpl. split; [lia|]. destruct r; auto.
Qed.

Lemma espec_on_a {A} k (m : stackM A) Q : 0 <= k -> sspec k m Q -> espec k (on_a m) Q.
Proof.
  intros K Hm vm Lc Hh. unfold on_a, focus, height in *.
  pose proof (len_nonneg (stk (dstack vm))). specialize (Hm (astack vm) ltac:(lia)).
  destruct (m (astack vm)) as [s r]. destruct Hm as (L & V & P).
  split; [constructor; auto|]. simpl. split; [lia|]. destruct r; auto.
Qed.

Lemma espec_push_cond c : espec 0 (push_cond c) (fun _ => True).
Proof. intros vm Lc Hh. simpl. split_and!; [constructor; auto|unfold height; simpl; lia|done|done]. Qed.

Lemma espec_set_condStack c : espec 0 (modify (set_condStack c)) (fun _ => True).
Proof. intros vm Lc Hh. simpl. split_and!; [constructor; auto|unfold height; simpl; lia|done|done]. Qed.

(** Tactic for handlers: split binds and branches, use the hints at the leaves. *)
Lemma espec_if {A} k (b : bool) (m1 m2 : engineM A) Q :
  espec k m1 Q -> espec k m2 Q -> espec k (if b then m1 else m2) Q.
Proof. now destruct b. Qed.

Lemma espec_up {A} k (m : engineM A) Q : espec 0 m Q -> 0 <= k -> espec k m Q.
Proof. intros Hm K. now apply (espec_weaken 0 k _ Q). Qed.

(** The encoding checks. *)
Lemma espec_checkHashType ht : espec 0 (checkHashTypeEncoding ht) (fun _ => True).
Proof.
  change 0 with (0 + 0). eapply espec_bind; [lia|apply espec_gets|]. intros vm0 _. cbv beta. apply espec_if; [now apply espec_ret|].
  cbv zeta. apply espec_if; [apply espec_throw|now apply espec_ret].
Qed.

Lemma espec_checkPubKey pk : espec 0 (checkPubKeyEncoding pk) (fun _ => True).
Proof.
  change 0 with (0 + 0). eapply espec_bind; [lia|apply espec_gets|]. intros vm0 _. cbv beta. apply espec_if; [now apply espec_ret|].
  apply espec_if; [now apply espec_ret|]. apply espec_if; [now apply espec_ret|apply espec_throw].
Qed.

Lemma espec_checkSignature sig : espec 0 (checkSignatureEncoding sig) (fun _ => True).
Proof.
  apply espec_read. intros vm Lc Hh.
  destruct (negb (hasFlag vm ScriptVerifyDERSignatures) && _ && _) eqn:E.
  - now apply espec_ret.
  - unfold lift. split; [apply frame_refl|]. split; [lia|]. destruct (check_der sig); [done|done|].
    intros (_ & _ & D & S & T & _). rewrite D, S, T in E. done.
Qed.

Lemma espec_subScript : espec 0 subScript (fun _ => True).
Proof.
  apply espec_read. intros vm Lc Hh. pose proof Lc as (I & S & O).
  unfold current_script in O. destruct (index_Some (scripts vm) (scriptIdx vm) I) as [s E].
  rewrite E in *. unfold get, bind, ret, lift, slice_at.
  replace ((0 <=? lastCodeSep vm) && (lastCodeSep vm <=? len s) && (len s <=? len s)) with true
    by (bdestruct; done).
  split; [apply frame_refl|]. split; [lia|done].
Qed.

Lemma espec_signature_data pops ht : 0 <= ht < 256 -> espec 0 (signature_data pops ht) (fun _ => True).
Proof.
  intros R. apply espec_read. intros vm Lc Hh.
  destruct (calcSignatureData _ _ _ _ _ _) as [b|e|] eqn:E; [now apply espec_ret| |].
  all: unfold panic; split; [apply frame_refl|]; split; [lia|]; intros (C & _);
    destruct (C pops ht R) as [b' E']; congruence.
Qed.

Lemma espec_verify_cached pk sig data : espec 0 (verify_cached pk sig data) (fun _ => True).
Proof.
  unfold verify_cached. change 0 with (0 + 0). eapply espec_bind; [lia|apply espec_gets|].
  intros [c|] _; [|now apply espec_ret]. cbv zeta. destruct (Exists _ _ _ _); [now apply espec_ret|].
  destruct (Verify _ _ _); [|now apply espec_ret].
  intros vm Lc Hh. simpl. split; [constructor; auto|]. split; [unfold height; simpl; lia|done].
Qed.

Lemma split_sig_range sig : 0 <= (split_sig sig).1 < 256.
Proof. simpl. destruct (last sig); [apply b2z_range|lia]. Qed.

Lemma espec_opcodeVerify op : espec 0 (opcodeVerify op) (fun _ => True).
Proof.
  change 0 with (0 + 0). eapply espec_bind; [lia|apply espec_on_d; [lia|apply sspec_popBool]|].
  intros b _. destruct (negb b); [apply espec_throw|now apply espec_ret].
Qed.

Lemma espec_pop_many n : espec 0 (pop_many n) (fun l => length l = n).
Proof.
  induction n as [|n IH]; cbn [pop_many]; [now apply espec_ret|].
  change 0 with (0 + (0 + 0)).
  eapply espec_bind; [lia|apply espec_on_d; [lia|apply sspec_pop]|]. intros x _.
  eapply espec_bind; [lia|exact IH|]. intros xs L. apply espec_ret. simpl. now f_equal.
Qed.

Lemma espec_multisig_loop script keys : forall sigs, espec 0 (multisig_loop script keys sigs) (fun _ => True).
Proof.
  induction keys as [|k keys IH]; intros [|sig sigs]; cbn [multisig_loop]; try now apply espec_ret.
  apply espec_if; [now apply espec_ret|]. apply espec_if; [apply IH|].
    pose proof (split_sig_range sig) as R. destruct (split_sig sig) as [ht s]. simpl in R.
    change 0 with (0 + (0 + (0 + 0))).
    eapply espec_bind; [lia|apply espec_checkHashType|]. intros _ _.
    eapply espec_bind; [lia|now apply espec_signature_data|]. intros data _.
    eapply espec_bind; [lia|apply espec_verify_cached|]. intros v _. apply espec_if; apply IH.
Qed.

(** *** The handlers with more than stack traffic *)

Lemma espec_CheckSig op : espec 1 (opcodeCheckSig op) (fun _ => True).
Proof.
  unfold opcodeCheckSig. change 1 with (0 + (0 + 1)).
  eapply espec_bind; [lia|apply espec_on_d; [lia|apply sspec_pop]|]. intros pk _.
  eapply espec_bind; [lia|apply espec_on_d; [lia|apply sspec_pop]|]. intros sig _.
  apply espec_if; [apply espec_on_d; [lia|apply sspec_pushBool]|].
  pose proof (split_sig_range sig) as R. destruct (split_sig sig) as [ht s]. simpl in R.
  change 1 with (0 + (0 + (0 + (0 + (0 + (0 + 1)))))).
  eapply espec_bind; [lia|apply espec_checkHashType|]. intros _ _.
  eapply espec_bind; [lia|apply espec_checkSignature|]. intros _ _.
  eapply espec_bind; [lia|apply espec_checkPubKey|]. intros _ _.
  eapply espec_bind; [lia|apply espec_subScript|]. intros sub _. cbv zeta.
  eapply espec_bind; [lia|now apply espec_signature_data|]. intros data _.
  eapply espec_bind; [lia|apply espec_verify_cached|]. intros v _.
  apply espec_on_d; [lia|apply sspec_pushBool].
Qed.

(** Charging [n] operations against the limit, then going on. *)
Lemma espec_charge {A} k n (m : engineM A) Q : 0 <= k -> espec k m Q ->
  espec k (modify (fun vm => set_numOps (numOps vm + n) vm) ;;;
           let! ops := gets numOps in
           if MaxOpsPerScript <? ops then throw ErrStackTooManyOperations else m) Q.
Proof.
  intros K Hm vm Lc Hh. set (vm1 := set_numOps (numOps vm + n) vm).
  assert (F : frame vm vm1) by (constructor; auto).
  change (let '(vm', r) := (if MaxOpsPerScript <? numOps vm1 then throw ErrStackTooManyOperations else m) vm1 in
    frame vm vm' /\ height vm' <= height vm + k /\
    match r with
    | Ok a => Q a /\ (numOps vm <= MaxOpsPerScript -> numOps vm' <= MaxOpsPerScript)
    | Err _ => True
    | Panic => ~ good vm
    end).
  destruct (Z.ltb_spec MaxOpsPerScript (numOps vm1)) as [O|O].
  { unfold throw. split; [exact F|]. split; [change (height vm1) with (height vm); lia|done]. }
  specialize (Hm vm1 (located_frame _ _ F Lc) Hh).
  destruct (m vm1) as [vm2 r]. destruct Hm as (F' & L' & P).
  change (height vm1) with (height vm) in L'.
  split; [now transitivity vm1|]. split; [done|].
  destruct r; [split; [apply P|intros _; now apply P]|done|].
  intros G. apply P. eapply good_frame; eauto.
Qed.

Lemma espec_CheckMultiSig op : espec 1 (opcodeCheckMultiSig op) (fun _ => True).
Proof.
  unfold opcodeCheckMultiSig. change 1 with (0 + 1).
  eapply espec_bind; [lia|apply espec_on_d; [lia|apply sspec_popInt]|]. intros n Hn. cbv zeta.
  apply espec_if; [apply espec_up; [apply espec_throw|lia]|].
  apply espec_charge; [lia|]. change 1 with (0 + (0 + 1)).
  eapply espec_bind; [lia|apply espec_pop_many|]. intros keys _.
  eapply espec_bind; [lia|apply espec_on_d; [lia|apply sspec_popInt]|]. intros m _. cbv zeta.
  do 2 (apply espec_if; [apply espec_up; [apply espec_throw|lia]|]). change 1 with (0 + (0 + (0 + 1))).
  eapply espec_bind; [lia|apply espec_pop_many|]. intros sigs _.
  eapply espec_bind; [lia|apply espec_on_d; [lia|apply sspec_pop]|]. intros dummy _.
  eapply espec_bind; [lia|apply espec_gets|]. intros vm1 _. cbv beta.
  apply espec_if; [apply espec_up; [apply espec_throw|lia]|]. change 1 with (0 + (0 + 1)).
  eapply espec_bind; [lia|apply espec_subScript|]. intros script _. cbv zeta.
  eapply espec_bind; [lia|apply espec_multisig_loop|]. intros ok _.
  apply espec_on_d; [lia|apply sspec_pushBool].
Qed.

Lemma espec_CheckLockTimeVerify op : espec 0 (opcodeCheckLockTimeVerify op) (fun _ => True).
Proof.
  unfold opcodeCheckLockTimeVerify. apply espec_read. intros vm Lc Hh.
  destruct (negb (hasFlag vm ScriptVerifyCheckLockTimeVerify)).
  { destruct (hasFlag vm _); [now apply espec_throw|now apply espec_ret]. }
  pose proof (espec_on_d 0 (PeekByteArray 0) (fun _ => True) ltac:(lia) (sspec_peek 0) vm Lc Hh) as P.
  unfold bind at 1. destruct (on_d (PeekByteArray 0) vm) as [vm1 [so|e|]]; [|done|done].
  destruct P as (F & L & _ & N).
  pose proof (makeScriptNum_no_panic so (verifyMinimalData (dstack vm)) 5 ltac:(lia)) as NP.
  unfold bind at 1, lift at 1. destruct (makeScriptNum _ _ _) as [lt|e|]; [|done|done].
  assert (Fin : forall e, frame vm vm1 /\ height vm1 <= height vm + 0 /\
    match (Err e : result error unit) with Ok a => True /\ (numOps vm <= MaxOpsPerScript -> numOps vm1 <= MaxOpsPerScript)
    | Err _ => True | Panic => ~ good vm end) by done.
  destruct (lt <? 0); [apply Fin; exact ErrNegativeLockTime|].
  unfold bind at 1, lift at 1.
  destruct (TxMessages (tx vm)) as [msgs|e|] eqn:T; [|by destruct (Fin e)|].
  2:{ split; [done|]. split; [lia|]. intros (_ & (ms & ? & ? & T' & _) & _). congruence. }
  unfold bind at 1, get. destruct (index msgs 0) as [m0|] eqn:I.
  2:{ split; [done|]. split; [lia|]. intros (_ & (ms & ? & ? & T' & I' & _) & _). congruence. }
  unfold ret at 1, bind at 1, lift, as_payment.
  destruct (Payload m0) as [[p| | | | | | | | | | |]|] eqn:Pm;
    try (split; [done|]; split; [lia|]; intros (_ & (ms & ? & ? & T' & I' & P') & _); congruence).
  cbv zeta. destruct (negb _); [split_and!; done|]. destruct (_ <? _); split_and!; done.
Qed.

Lemma espec_JuryRedeem op : espec 1 (opcodeCheckJuryRedeemEqual op) (fun _ => True).
Proof.
  unfold opcodeCheckJuryRedeemEqual. change 1 with (0 + (0 + 1)).
  eapply espec_bind; [lia|apply espec_on_d; [lia|apply sspec_pop]|]. intros ch _.
  eapply espec_bind; [lia|apply espec_on_d; [lia|apply sspec_pop]|]. intros rs _. cbv zeta.
  apply espec_if; [|apply espec_on_d; [lia|apply sspec_pushBool]]. change 1 with (0 + 1).
  eapply (espec_bind _ _ _ _ (fun _ => True)); [lia| |intros db _; apply espec_on_d; [lia|apply sspec_pushBool]].
  intros vm Lc Hh. unfold lift. split; [apply frame_refl|]. split; [lia|].
  destruct (pickupJuryRedeemScript _) eqn:E; [done|done|]. intros (_ & _ & _ & _ & _ & P). now apply P in E.
Qed.

(** *** The handlers that only move data *)

Lemma espec_d {A} k (m : stackM A) Q : 0 <= k <= 4 -> sspec k m Q -> espec 4 (on_d m) (fun _ => True).
Proof.
  intros K Hm. apply (espec_weaken k 4 _ Q); [lia|done|]. apply espec_on_d; [lia|done].
Qed.

(** Pop an operand, an item, a boolean; then go on. *)
Lemma espec_popInt_bind {B} (f : Z -> engineM B) R :
  (forall n, operand n -> espec 4 (f n) R) -> espec 4 (bind (on_d PopInt) f) R.
Proof.
  intros F. change 4 with (0 + 4). eapply espec_bind; [lia|apply espec_on_d; [lia|apply sspec_popInt]|]. auto.
Qed.
Lemma espec_pop_bind {A B} (m : stackM A) (f : A -> engineM B) R : sspec 0 m (fun _ => True) ->
  (forall x, espec 4 (f x) R) -> espec 4 (bind (on_d m) f) R.
Proof.
  intros M F. change 4 with (0 + 4). eapply espec_bind; [lia|apply espec_on_d; [lia|exact M]|]. auto.
Qed.
Lemma espec_popA_bind {A B} (m : stackM A) (f : A -> engineM B) R : sspec 0 m (fun _ => True) ->
  (forall x, espec 4 (f x) R) -> espec 4 (bind (on_a m) f) R.
Proof.
  intros M F. change 4 with (0 + 4). eapply espec_bind; [lia|apply espec_on_a; [lia|exact M]|]. auto.
Qed.
Lemma espec_gets_bind {A B} (g : Engine -> A) (f : A -> engineM B) R :
  (forall x, espec 4 (f x) R) -> espec 4 (bind (gets g) f) R.
Proof. intros F. change 4 with (0 + 4). eapply espec_bind; [lia|apply espec_gets|]. auto. Qed.
Lemma espec_throw4 {A} e (Q : A -> Prop) : espec 4 (throw e) Q.
Proof. apply espec_up; [apply espec_throw|lia]. Qed.
Lemma espec_ret4 {A} (a : A) (Q : A -> Prop) : Q a -> espec 4 (ret a) Q.
Proof. intros. apply espec_up; [now apply espec_ret|lia]. Qed.

Lemma espec_pushInt n : -2 ^ 63 < n -> espec 4 (on_d (PushInt n)) (fun _ => True).
Proof. intros. eapply (espec_d 1); [lia|now apply sspec_pushInt]. Qed.

Lemma espec_then_verify k (m : engineM unit) op : 0 <= k <= 4 -> espec k m (fun _ => True) ->
  espec 4 (m ;;; opcodeVerify op) (fun _ => True).
Proof.
  intros K M. apply (espec_weaken (k + 0) 4 _ (fun _ => True)); [lia|done|].
  eapply espec_bind; [lia|exact M|]. intros; apply espec_opcodeVerify.
Qed.

Lemma int64_low z : -2 ^ 63 < z < 2 ^ 63 -> -2 ^ 63 < int64 z.
Proof. intros. rewrite int64_small; lia. Qed.

Ltac range := unfold operand, num_of_bool in *; bdestruct; try apply int64_low; lia.

Ltac handler :=
  repeat first
    [ apply espec_popInt_bind; intros ? ?
    | apply espec_pop_bind; [solve [eauto with engine]|intros ?]
    | apply espec_popA_bind; [solve [eauto with engine]|intros ?]
    | apply espec_gets_bind; intros ?; cbv beta
    | apply espec_if
    | apply espec_throw4
    | apply espec_ret4; exact I
    | apply espec_pushInt; range
    | eapply (espec_d 0); [lia|solve [eauto with engine]]
    | eapply (espec_d 1); [lia|solve [eauto with engine]]
    | eapply (espec_d 3); [lia|solve [eauto with engine]] ].

Lemma espec_unary f : (forall m, operand m -> -2 ^ 63 < f m) -> espec 4 (unary f) (fun _ => True).
Proof. intros R. unfold unary. apply espec_popInt_bind. intros. apply espec_pushInt. auto. Qed.
Lemma espec_binary f : (forall a b, operand a -> operand b -> -2 ^ 63 < f a b) ->
  espec 4 (binary f) (fun _ => True).
Proof. intros R. unfold binary. handler. apply espec_pushInt. auto. Qed.

Lemma espec_push_cond4 c : espec 4 (push_cond c) (fun _ => True).
Proof. apply espec_up; [apply espec_push_cond|lia]. Qed.
Lemma espec_set_cond4 c : espec 4 (modify (set_condStack c)) (fun _ => True).
Proof. apply espec_up; [apply espec_set_condStack|lia]. Qed.

Lemma espec_conditional op : espec 4 (opcodeIf op) (fun _ => True) /\ espec 4 (opcodeNotIf op) (fun _ => True) /\
  espec 4 (opcodeElse op) (fun _ => True) /\ espec 4 (opcodeEndif op) (fun _ => True).
Proof.
  unfold opcodeIf, opcodeNotIf, opcodeElse, opcodeEndif. split_and!; handler; try apply espec_push_cond4.
  - destruct (last _); [apply espec_set_cond4|apply espec_throw4].
  - apply espec_set_cond4.
Qed.

Lemma espec_NumEqual op : espec 4 (opcodeNumEqual op) (fun _ => True).
Proof. apply espec_binary. intros. range. Qed.

Lemma uint8_nonneg z : 0 <= uint8 z.
Proof. apply wrapU_range. lia. Qed.

Lemma int32_low z : -2 ^ 63 < int32 z.
Proof. pose proof (wrapS_range 32 z). unfold int32. lia. Qed.

Lemma espec_opcodeCodeSeparator op : espec 4 (opcodeCodeSeparator op) (fun _ => True).
Proof.
  intros vm Lc Hh. simpl. split; [constructor; auto|]. split; [unfold height; simpl; lia|done].
Qed.

Lemma espec_opcodeDepth op : espec 4 (opcodeDepth op) (fun _ => True).
Proof.
  unfold opcodeDepth. intros vm Lc Hh. unfold bind, gets.
  apply (espec_pushInt (Depth (dstack vm)) (int32_low _) vm Lc Hh).
Qed.

(** Every handler of the table. *)
Lemma espec_opfunc f op : espec 4 (opfunc_run f op) (fun _ => True).
Proof.
  destruct (espec_conditional op) as (? & ? & ? & ?).
  destruct f; cbn [opfunc_run]; try assumption;
    try first [apply espec_unary; intros; range | apply espec_binary; intros; range];
    try (unfold opcodeFalse, opcodePushData, opcode1Negate, opcodeReserved, opcodeNop, opcodeVerify,
      opcodeToAltStack, opcodeFromAltStack, opcodeIfDup, opcodeDrop, opcodeNip, opcodePick, opcodeRoll,
      opcode2Drop, opcodeTuck, opcodeDisabled, opcodeSize, opcodeEqual, opcodeWithin, opcodeInvalid, hash_top; solve [handler]).
  - apply espec_pushInt. pose proof (uint8_nonneg (b2z (pop_value op) - (b2z OP_1 - 1))). lia.
  - apply espec_up; [apply espec_CheckLockTimeVerify|lia].
  - apply espec_pop_bind; [apply sspec_pop|]. intros. apply (espec_weaken 1 4 _ (fun _ => True)); [lia|done|].
    apply espec_on_a; [lia|apply sspec_push].
  - eapply (espec_d 2); [lia|now apply sspec_DupN].
  - eapply (espec_d 3); [lia|now apply sspec_DupN].
  - eapply (espec_d 2); [lia|now apply sspec_OverN].
  - eapply (espec_d 2); [lia|now apply sspec_RotN].
  - eapply (espec_d 2); [lia|now apply sspec_SwapN].
  - apply espec_opcodeDepth.
  - eapply (espec_d 1); [lia|now apply sspec_DupN].
  - eapply (espec_d 1); [lia|now apply sspec_OverN].
  - eapply (espec_d 1); [lia|now apply sspec_RotN].
  - eapply (espec_d 1); [lia|now apply sspec_SwapN].
  - apply espec_pop_bind; [apply sspec_peek|]. intros x. apply espec_pushInt. pose proof (len_nonneg x). lia.
  - eapply (espec_then_verify 4); [lia|]. unfold opcodeEqual. handler.
  - eapply (espec_then_verify 4); [lia|apply espec_NumEqual].
  - apply espec_opcodeCodeSeparator.
  - apply (espec_weaken 1 4 _ (fun _ => True)); [lia|done|apply espec_CheckSig].
  - apply (espec_then_verify 1); [lia|apply espec_CheckSig].
  - apply (espec_weaken 1 4 _ (fun _ => True)); [lia|done|apply espec_CheckMultiSig].
  - apply (espec_then_verify 1); [lia|apply espec_CheckMultiSig].
  - apply (espec_weaken 1 4 _ (fun _ => True)); [lia|done|apply espec_JuryRedeem].
Qed.

Lemma espec_executeOpcode pop : espec 4 (executeOpcode pop) (fun _ => True).
Proof.
  unfold executeOpcode. apply espec_if; [apply espec_throw4|]. apply espec_if; [apply espec_throw4|].
  change 4 with (0 + 4). eapply (espec_bind _ _ _ _ (fun _ => True)); [lia| |].
  - apply espec_if; [apply espec_charge; [lia|now apply espec_ret]|].
    apply espec_if; [apply espec_throw|now apply espec_ret].
  - intros _ _. apply espec_gets_bind. intros vm. cbv beta.
    apply espec_if; [now apply espec_ret4|].
    change 4 with (0 + 4). eapply (espec_bind _ _ _ _ (fun _ => True)); [lia| |intros _ _; apply espec_opfunc].
    apply espec_if; [|now apply espec_ret].
    destruct (checkMinimalDataPush pop); [apply espec_throw|now apply espec_ret].
Qed.

End Specs.
