(* ===== verification/EngineRun.v ===== *)
(** Runs of the script engine: the invariant of [Step], the end of every run, and the limits and
    panics of the states on the way.

    While the signature script of a pay-to-script-hash or pay-to-contract spend runs, the data
    stack holds one item of at most [MaxScriptElementSize] bytes for each opcode executed
    ([pushing]); so the redeem script it leaves has at most that many opcodes, which bounds the
    number of steps ([rest]). *)

From Stdlib Require Import ZArith Lia.
From S2P Require Import Prelude Errors ScriptNum Stack Opcode Script Builder Address Tx SigHash SigCache Engine EngineInv.

(** ** Reading and writing whole stacks *)

Lemma get_loop_spec (s : stack) n : forall (a w : list bytes), fits s -> stk s = a ++ w -> length a = n ->
  get_loop (len w) n s w = stk s.
Proof.
  induction n as [|n IH]; intros a w F E L; cbn [get_loop].
  - destruct a; [now rewrite E|done].
  - destruct (exists_last (l := a)) as (a' & x & ->); [by destruct a|].
    rewrite <- app_assoc in E. simpl in E.
    rewrite (PeekByteArray_at s a' w x E F). cbn [snd].
    rewrite length_app in L; simpl in L. rewrite <- (IH a' (x :: w)); [|done|done|lia].
    now rewrite len_cons.
Qed.

Lemma getStack_spec (s : stack) : fits s -> getStack s = stk s.
Proof.
  intros F. unfold getStack, Depth. unfold fits in F. pose proof (len_nonneg (stk s)).
  rewrite int32_small by lia. change 0 with (len (@nil bytes)).
  apply (get_loop_spec s _ (stk s)); [done|now rewrite app_nil_r|unfold len; lia].
Qed.

Lemma drop_depth (s : stack) : fits s -> (DropN (Depth s) s).1 = set_stk [] s.
Proof.
  intros F. pose proof (len_nonneg (stk s)). unfold DropN, Depth. rewrite int32_small by (unfold fits in F; lia).
  destruct (Z.ltb_spec (len (stk s)) 1).
  - rewrite <- (len_zero (stk s)) by lia. now destruct s.
  - replace (Z.to_nat (len (stk s))) with (length (stk s)) by (unfold len; lia).
    now rewrite (drop_loop s [] (stk s)).
Qed.

Lemma setStack_spec (s : stack) data : fits s -> setStack s data = set_stk data s.
Proof.
  intros F. unfold setStack. rewrite drop_depth by done.
  assert (G : forall l a, fold_left (fun s x => (PushByteArray x s).1) l (set_stk a s) = set_stk (a ++ l) s).
  { induction l as [|x l IH]; intros a; cbn [fold_left]; [now rewrite app_nil_r|].
    change (PushByteArray x (set_stk a s)).1 with (set_stk (a ++ [x]) s). rewrite IH. now rewrite <- app_assoc. }
  apply (G data []).
Qed.

(** ** Executing an opcode of a push-only script *)

Definition small (x : bytes) : Prop := len x <= MaxScriptElementSize.

Lemma push_opfunc b : b2z b <= b2z OP_16 ->
  op_func (opcodeArray b) = fnFalse \/ op_func (opcodeArray b) = fnPushData \/
  op_func (opcodeArray b) = fn1Negate \/ op_func (opcodeArray b) = fnReserved \/
  op_func (opcodeArray b) = fnN.
Proof. destruct b; intros L; try (exfalso; vm_compute in L; by apply L); vm_compute; tauto. Qed.

Lemma Bytes_uint8 z : exists v, Bytes (uint8 z) = Ok v /\ small v.
Proof.
  pose proof (wrapU_range 8 z ltac:(lia)). unfold uint8.
  destruct (Bytes_total (wrapU 8 z)) as [v E]; [lia|]. exists v. split; [done|].
  unfold small, MaxScriptElementSize. apply (Bytes_length _ _ 2) in E; lia.
Qed.

Section Runs.
Context `{ScriptEnv}.

Lemma execute_push pop vm : good_pop pop -> blt OP_16 (pop_value pop) = false -> condStack vm = [] ->
  (exists e, executeOpcode pop vm = (vm, Err e)) \/
  (exists x, small x /\ executeOpcode pop vm = (set_dstack (set_stk (stk (dstack vm) ++ [x]) (dstack vm)) vm, Ok tt)).
Proof.
  intros [T D] P C. unfold executeOpcode.
  destruct (isDisabled pop); [left; by eexists|]. destruct (alwaysIllegal pop); [left; by eexists|].
  rewrite P. destruct (Z.ltb_spec MaxScriptElementSize (len (pop_data pop))); [left; by eexists|].
  rewrite (bind_ok (ret tt) _ vm vm tt eq_refl), (bind_ok (gets _) _ vm vm vm eq_refl).
  replace (isBranchExecuting vm) with true by (unfold isBranchExecuting; now rewrite C). cbn [negb andb].
  match goal with |- context [bind ?c _] => assert (R : c vm = (vm, Ok tt) \/ exists e, c vm = (vm, Err e)) end.
  { destruct (_ && _ && _); [destruct (checkMinimalDataPush pop)|]; eauto. }
  destruct R as [R |[e R]]; [rewrite (bind_ok _ _ _ _ _ R)|rewrite (bind_err _ _ _ _ _ R); left; by eexists].
  rewrite T. unfold blt in P. apply Z.ltb_ge in P.
  destruct (push_opfunc (pop_value pop) P) as [-> |[-> |[-> |[-> | ->]]]]; cbn [opfunc_run].
  - right. exists []. split; [by vm_compute|done].
  - right. exists (pop_data pop). done.
  - right. exists [x81]. split; [by vm_compute|done].
  - left. by eexists.
  - right. destruct (Bytes_uint8 (b2z (pop_value pop) - (b2z OP_1 - 1))) as (v & B & S). exists v.
    split; [done|]. unfold opcodeN, on_d, focus, PushInt, bind, lift. now rewrite B.
Qed.

(** ** The invariant of [Step] *)

(** The redeem-script convention applies: the script that locks the output is a script hash or
    a contract hash. *)
Definition redeeming (vm : Engine) : bool := bip16 vm || p2ch vm.

(** Before the redeem script: there are the two scripts of the spend, [s1] the locking one. *)
Definition lock_shape (vm : Engine) (s1 : list parsedOpcode) : Prop :=
  Forall good_pop s1 /\ (bip16 vm = true -> isScriptHash s1 = true) /\ (p2ch vm = true -> isContractHash s1 = true).

(** Only pushes have run, one item each. *)
Definition pushing (vm : Engine) : Prop :=
  condStack vm = [] /\ len (stk (dstack vm)) = scriptOff vm /\ Forall small (stk (dstack vm)).

(** The spend before its redeem script: pushes, then the locking script, which fails if there was
    nothing to push. *)
Definition redeem_inv (vm : Engine) : Prop :=
  redeeming vm = true -> scriptIdx vm <= 1 ->
  exists s0 s1, scripts vm = [s0; s1] /\ lock_shape vm s1 /\
    (scriptIdx vm = 0 -> Forall good_pop s0 /\ isPushOnly s0 = true /\ pushing vm) /\
    (scriptIdx vm = 1 -> savedFirstStack vm = [] -> pushing vm /\ (bip16 vm = true -> scriptOff vm = 0)).

Definition saved_inv (vm : Engine) : Prop :=
  Forall small (savedFirstStack vm) /\ len (savedFirstStack vm) <= maxStackSize.

Record Inv (vm : Engine) : Prop := mkInv {
  inv_located : located vm;
  inv_height : height vm <= maxStackSize;
  inv_ops : numOps vm <= MaxOpsPerScript;
  inv_saved : saved_inv vm;
  inv_two : 2 <= len (scripts vm);
  inv_redeem : redeem_inv vm
}.

(** What remains to run: the opcodes of the scripts from the current one on, and those of the
    redeem script. *)
Definition size (l : list (list parsedOpcode)) : Z := foldr (fun s n => len s + n) 0 l.
Definition rest (vm : Engine) : Z :=
  size (drop (Z.to_nat (scriptIdx vm)) (scripts vm)) - scriptOff vm +
  (if redeeming vm && (scriptIdx vm <=? 1) then MaxScriptElementSize else 0).

Lemma size_nonneg l : 0 <= size l.
Proof. induction l as [|s l IH]; simpl; [lia|]. pose proof (len_nonneg s). lia. Qed.

Lemma drop_index {A} (l : list A) i x : index l i = Some x ->
  drop (Z.to_nat i) l = x :: drop (Z.to_nat (i + 1)) l.
Proof.
  unfold index. destruct (Z.ltb_spec i 0); [done|]. intros E.
  replace (Z.to_nat (i + 1)) with (S (Z.to_nat i)) by lia. now apply drop_S.
Qed.

Lemma located_script vm : located vm -> index (scripts vm) (scriptIdx vm) = Some (current_script vm).
Proof.
  intros (I & _). unfold current_script. now destruct (index_Some _ _ I) as [s ->].
Qed.

(** *** The end of a script *)

(** The fields that no step changes. *)
Definition fixed (vm : Engine) := (tx vm, msgIdx vm, txIdx vm, flags vm, bip16 vm, p2ch vm).

Lemma good_fixed vm vm' : fixed vm = fixed vm' -> good vm -> good vm'.
Proof. unfold fixed, good, hasFlag. intros [= -> -> -> -> _ _]. auto. Qed.

Lemma disasm_all_ok idx s vm : index (scripts vm) idx = Some s -> forall n i str, 0 <= i -> i + Z.of_nat n <= len s ->
  exists r, disasm_all idx i n str vm = (vm, Ok r).
Proof.
  intros E n. induction n as [|n IH]; intros i str Hi L; cbn [disasm_all]; [by eexists|].
  destruct (index_Some s i) as [pop P]; [lia|].
  assert (D : exists d, disasm idx i vm = (vm, Ok d)).
  { unfold disasm, bind, gets, get. rewrite E. cbn. rewrite P. by eexists. }
  destruct D as [d D]. rewrite (bind_ok _ _ _ _ _ D). apply IH; lia.
Qed.

Lemma DisasmScript_ok idx vm : 0 <= idx -> exists r, DisasmScript idx vm = (vm, r) /\ r <> Panic.
Proof.
  intros I. unfold DisasmScript. rewrite (bind_ok (gets _) _ vm vm vm eq_refl).
  destruct (Z.leb_spec (len (scripts vm)) idx); [by eexists|].
  destruct (index_Some (scripts vm) idx) as [s E]; [lia|]. rewrite E.
  rewrite (bind_ok (get (Some s)) _ vm vm s eq_refl).
  destruct (disasm_all_ok idx s vm E (length s) 0 "") as [r ->]; [lia|unfold len; lia|]. by eexists.
Qed.

Lemma ignore_Disasm idx vm : 0 <= idx -> ignore (DisasmScript idx) vm = (vm, Ok tt).
Proof. intros I. unfold ignore. destruct (DisasmScript_ok idx vm I) as ([?|?|] & -> & N); done. Qed.

Lemma CheckErrorCondition_spec fin vm : fits (dstack vm) ->
  exists l r, CheckErrorCondition fin vm = (set_dstack (set_stk l (dstack vm)) vm, r) /\
    len l <= len (stk (dstack vm)) /\ r <> Panic.
Proof.
  intros F. assert (Same : vm = set_dstack (set_stk (stk (dstack vm)) (dstack vm)) vm) by now destruct vm as [? [] ? ? ? ? ? ? ? ? ? ? ? ? ? ?].
  unfold CheckErrorCondition. rewrite (bind_ok (gets _) _ vm vm vm eq_refl).
  destruct (_ <? _); [exists (stk (dstack vm)); eexists; rewrite <- Same; done|].
  destruct (_ && _ && _); [exists (stk (dstack vm)); eexists; rewrite <- Same; done|].
  destruct (_ <? 1); [exists (stk (dstack vm)); eexists; rewrite <- Same; done|].
  unfold PopBool, PopByteArray. destruct (nipN_cases (dstack vm) 0 F) as [N|(a & x & b & E & L & N)].
  - exists (stk (dstack vm)), (Err ErrStackUnderflow). rewrite <- Same. split; [|done].
    unfold bind at 1, on_d, focus, bind at 1. rewrite N. now destruct vm.
  - exists (a ++ b). set (vm1 := set_dstack (set_stk (a ++ b) (dstack vm)) vm).
    rewrite (bind_ok _ _ vm vm1 (asBool x)) by (unfold on_d, focus, bind; now rewrite N).
    assert (len (a ++ b) <= len (stk (dstack vm))) by (rewrite E, !len_app, len_cons; lia).
    destruct (negb (asBool x)); [|by eexists].
    rewrite (bind_ok _ _ _ _ _ (ignore_Disasm 0 vm1 ltac:(lia))).
    rewrite (bind_ok _ _ _ _ _ (ignore_Disasm 1 vm1 ltac:(lia))). by eexists.
Qed.

(** What the code does once the index of the next script is set. *)
Definition enter_script : engineM bool :=
  modify (fun vm => if (scriptIdx vm <? len (scripts vm)) && (len (current_script vm) <=? scriptOff vm)
                    then set_scriptIdx (scriptIdx vm + 1) vm else vm) ;;;
  modify (set_lastCodeSep 0) ;;;
  gets (fun vm => len (scripts vm) <=? scriptIdx vm).

(** The outcome of a step that passed its checks, [m] being what remained before it. *)
Definition step_ok (m : Z) (vm vm' : Engine) (r : result error bool) : Prop :=
  fixed vm = fixed vm' /\
  match r with
  | Ok false => Inv vm' /\ rest vm' <= m
  | Ok true => height vm' <= maxStackSize /\ len (scripts vm') <= scriptIdx vm'
  | Err _ => True
  | Panic => False
  end.

Lemma enter_script_spec vm :
  1 <= scriptIdx vm -> scriptOff vm = 0 -> numOps vm = 0 -> height vm <= maxStackSize -> saved_inv vm ->
  2 <= len (scripts vm) -> redeem_inv vm ->
  let '(vm', r) := enter_script vm in step_ok (rest vm) vm vm' r.
Proof.
  intros I O N Hh S Two R. unfold enter_script, bind, modify, gets.
  destruct (Z.ltb_spec (scriptIdx vm) (len (scripts vm))) as [L|L]; cbn [andb].
  2:{ split; [done|]. simpl. bdestruct. done. }
  assert (Lc : located (set_lastCodeSep 0 vm)).
  { unfold located, current_script. simpl. rewrite O. pose proof (len_nonneg (current_script vm)) as P.
    unfold current_script in P. split_and!; lia. }
  pose proof (located_script _ Lc) as Cur. simpl in Cur.
  destruct (Z.leb_spec (len (current_script vm)) (scriptOff vm)) as [E|E].
  - (* an empty script *)
    unfold current_script in E. rewrite Cur in E.
    pose proof (len_nonneg (current_script (set_lastCodeSep 0 vm))). 
    assert (Z0 : len (current_script (set_lastCodeSep 0 vm)) = 0) by lia.
    split; [done|]. simpl. destruct (Z.leb_spec (len (scripts vm)) (scriptIdx vm + 1)) as [|L1]; [done|].
    split.
    + constructor; try done.
      * unfold located, current_script. simpl. rewrite O.
        pose proof (len_nonneg (match index (scripts vm) (scriptIdx vm + 1) with Some s => s | None => [] end)).
        split_and!; lia.
      * simpl. rewrite N. by vm_compute.
      * intros _ C. simpl in C. lia.
    + unfold rest; simpl. rewrite (drop_index _ _ _ Cur). simpl. rewrite Z0.
      unfold redeeming; simpl. bdestruct; destruct (bip16 vm || p2ch vm); simpl; unfold MaxScriptElementSize; lia.
  - split; [done|]. simpl. replace (len (scripts vm) <=? scriptIdx vm) with false by lia.
    split; [|unfold rest, redeeming; simpl; lia]. constructor; try done.
    simpl. rewrite N. by vm_compute.
Qed.

(** The state [next_script] works on: the alternate stack is empty, the counters are reset. *)
Definition fresh (vm : Engine) : Engine :=
  set_scriptOff 0 (set_numOps 0 (set_astack (set_stk [] (astack vm)) vm)).

Definition select_script : engineM unit :=
  let! vm := gets (fun vm => vm) in
  if (scriptIdx vm =? 0) && (bip16 vm || p2ch vm) then
    modify (fun vm => set_scriptIdx (scriptIdx vm + 1) vm) ;;;
    modify (fun vm => set_saved (GetStack vm) vm)
  else if (scriptIdx vm =? 1) && (bip16 vm || p2ch vm) then
    modify (fun vm => set_scriptIdx (scriptIdx vm + 1) vm) ;;;
    CheckErrorCondition false ;;;
    let! saved := gets savedFirstStack in
    let! script := get (index saved (len saved - 1)) in
    match parseScript script with
    | (_, Some e) => throw e
    | (pops, None) =>
        modify (fun vm => set_scripts_ (scripts vm ++ [pops]) vm) ;;;
        modify (SetStack (slice saved 0 (len saved - 1)))
    end
  else modify (fun vm => set_scriptIdx (scriptIdx vm + 1) vm).

Lemma next_script_eq vm : condStack vm = [] -> fits (astack vm) ->
  next_script vm = (select_script ;;; enter_script) (fresh vm).
Proof.
  intros C F. unfold next_script. rewrite (bind_ok (gets _) _ vm vm (condStack vm) eq_refl), C.
  cbn [len length negb]. change (negb (len (@nil Z) =? 0)) with false. cbv iota.
  set (vm1 := set_astack (set_stk [] (astack vm)) vm).
  assert (I : ignore (fun vm => on_a (DropN (Depth (astack vm))) vm) vm = (vm1, Ok tt) \/
              ignore (fun vm => on_a (DropN (Depth (astack vm))) vm) vm = (vm1, Panic)).
  { unfold ignore, on_a, focus. pose proof (drop_depth (astack vm) F) as D.
    destruct (DropN (Depth (astack vm)) (astack vm)) as [s [?|?|]]; simpl in D; subst s; auto. }
  destruct I as [I|I].
  - rewrite (bind_ok _ _ _ _ _ I). reflexivity.
  - exfalso. revert I. unfold ignore, on_a, focus.
    pose proof (sspec_DropN (Depth (astack vm)) (astack vm)) as P. unfold fits in F. specialize (P ltac:(lia)).
    destruct (DropN (Depth (astack vm)) (astack vm)) as [s [?|?|]]; [done|done|tauto].
Qed.

Lemma parse_length script pops : parseScript script = (pops, None) -> len pops <= len script.
Proof.
  intros E. apply parseScript_inv in E as (r & _ & -> & R). rewrite (proj1 R eq_refl), app_nil_r.
  induction pops as [|p pops IH]; [done|]. cbn [map concat]. rewrite len_app, len_cons.
  destruct (encoding_nonempty p) as [e ->]. rewrite len_cons. pose proof (len_nonneg e). lia.
Qed.

(** A script has just ended. *)
Record ended (vm : Engine) : Prop := mkEnded {
  e_idx : 0 <= scriptIdx vm < len (scripts vm);
  e_off : scriptOff vm = len (current_script vm);
  e_height : height vm <= maxStackSize;
  e_saved : saved_inv vm;
  e_two : 2 <= len (scripts vm);
  e_redeem : redeeming vm = true -> scriptIdx vm <= 1 ->
    exists s0 s1, scripts vm = [s0; s1] /\ lock_shape vm s1 /\
      (scriptIdx vm = 0 -> stk (dstack vm) <> [] /\ Forall small (stk (dstack vm))) /\
      (scriptIdx vm = 1 -> savedFirstStack vm <> [])
}.

Lemma ended_rest vm : ended vm ->
  rest vm = size (drop (Z.to_nat (scriptIdx vm + 1)) (scripts vm)) +
    (if redeeming vm && (scriptIdx vm <=? 1) then MaxScriptElementSize else 0).
Proof.
  intros [I O _ _ _ _]. unfold rest. unfold current_script in O. destruct (index_Some _ _ I) as [s E].
  rewrite E in O. rewrite (drop_index _ _ _ E). simpl. lia.
Qed.

Lemma fits_height vm : height vm <= maxStackSize -> fits (dstack vm) /\ fits (astack vm).
Proof.
  unfold height, fits, maxStackSize. pose proof (len_nonneg (stk (dstack vm))).
  pose proof (len_nonneg (stk (astack vm))). lia.
Qed.

Lemma fresh_height vm : height (fresh vm) <= height vm.
Proof. unfold height; simpl. rewrite len_nil. pose proof (len_nonneg (stk (astack vm))). lia. Qed.

Lemma step_ok_weaken m m' vm0 vm vm' r : fixed vm0 = fixed vm -> m <= m' -> step_ok m vm vm' r -> step_ok m' vm0 vm' r.
Proof.
  intros F M [F' P]. split; [congruence|]. destruct r as [[]| |]; auto. split; [apply P|]. destruct P. lia.
Qed.

(** From the signature script to the locking script. *)
Lemma select_first vm : ended vm -> scriptIdx vm = 0 -> redeeming vm = true ->
  let '(vm', r) := (select_script ;;; enter_script) (fresh vm) in step_ok (rest vm) vm vm' r.
Proof.
  intros E Z0 R. destruct (e_redeem _ E R ltac:(lia)) as (s0 & s1 & Sc & Sh & First & _).
  destruct (First Z0) as [Ne Sm]. pose proof (e_height _ E) as Hh. destruct (fits_height _ Hh) as [Fd Fa].
  pose proof (ended_rest _ E) as Re.
  set (vm2 := set_saved (stk (dstack vm)) (set_scriptIdx 1 (fresh vm))).
  assert (S2 : select_script (fresh vm) = (vm2, Ok tt)).
  { unfold select_script, bind, gets, modify. simpl. unfold redeeming in R. rewrite Z0, R. simpl.
    unfold GetStack. simpl. rewrite getStack_spec by done. now rewrite Z0. }
  rewrite (bind_ok _ _ _ _ _ S2).
  assert (Hs : len (stk (dstack vm)) <= maxStackSize).
  { unfold height in Hh. pose proof (len_nonneg (stk (astack vm))). lia. }
  pose proof (enter_script_spec vm2) as P. destruct (enter_script vm2) as [vm' r].
  apply (step_ok_weaken (rest vm2) _ _ vm2); [done| |].
  - rewrite Re, Z0, R. unfold rest, vm2; simpl. change (redeeming _) with (redeeming vm). rewrite R. simpl. change (Z.to_nat (0 + 1)) with (Z.to_nat 1). lia.
  - apply P; try done; [pose proof (fresh_height vm); unfold vm2, height in *; simpl in *; lia|exact (e_two _ E)|].
    intros _ _. exists s0, s1. split_and!; [done|exact Sh|done|]. intros _ C. now apply Ne in C.
Qed.

(** From the locking script to the redeem script. *)
Lemma select_redeem vm : ended vm -> scriptIdx vm = 1 -> redeeming vm = true ->
  let '(vm', r) := (select_script ;;; enter_script) (fresh vm) in step_ok (rest vm) vm vm' r.
Proof.
  intros E Z1 R. destruct (e_redeem _ E R ltac:(lia)) as (s0 & s1 & Sc & Sh & _ & Second).
  specialize (Second Z1). pose proof (e_height _ E) as Hh. destruct (fits_height _ Hh) as [Fd Fa].
  pose proof (ended_rest _ E) as Re. destruct (e_saved _ E) as [Sm Sl].
  unfold bind at 1. unfold select_script. rewrite (bind_ok (gets _) _ (fresh vm) (fresh vm) (fresh vm) eq_refl).
  change (scriptIdx (fresh vm)) with (scriptIdx vm). change (bip16 (fresh vm) || p2ch (fresh vm)) with (redeeming vm). rewrite Z1, R. change (1 =? 0) with false. change (1 =? 1) with true. cbv beta iota delta [andb].
  rewrite (bind_ok (modify _) _ (fresh vm) (set_scriptIdx 2 (fresh vm)) tt) by (unfold modify; simpl; now rewrite Z1).
  destruct (CheckErrorCondition_spec false (set_scriptIdx 2 (fresh vm)) Fd) as (l & r & C & Ll & Np).
  unfold bind at 1. rewrite C. simpl in Ll. destruct r as [[]|e|]; [|done|done].
  set (vm3 := set_dstack _ _). rewrite (bind_ok (gets _) _ vm3 vm3 (savedFirstStack vm) eq_refl).
  destruct (exists_last Second) as (saved & script & Sv). rewrite Sv.
  rewrite index_middle by (rewrite len_app; unfold len; simpl; lia).
  rewrite (bind_ok (get (Some script)) _ vm3 vm3 script eq_refl).
  rewrite slice_prefix by (rewrite len_app; unfold len; simpl; lia).
  destruct (parseScript script) as [pops [e|]] eqn:Pa; [done|].
  rewrite (bind_ok (modify (fun vm0 => set_scripts_ (scripts vm0 ++ [pops]) vm0)) _ vm3 (set_scripts_ (scripts vm3 ++ [pops]) vm3) tt eq_refl).
  unfold modify at 1, SetStack.
  change (dstack (set_scripts_ (scripts vm3 ++ [pops]) vm3)) with (set_stk l (dstack vm)).
  assert (F3 : fits (set_stk l (dstack vm))) by (unfold fits in *; simpl in *; lia).
  rewrite setStack_spec by done.
  set (vm4 := set_dstack (set_stk saved (set_stk l (dstack vm))) (set_scripts_ (scripts vm3 ++ [pops]) vm3)).
  pose proof (enter_script_spec vm4) as P. destruct (enter_script vm4) as [vm' r].
  rewrite Sv in Sm, Sl. rewrite len_app in Sl. apply Forall_app in Sm as [Sm1 Sm2].
  apply (step_ok_weaken (rest vm4) _ _ vm4); [done| |apply P; try done].
  - rewrite Re, Z1, R, Sc. unfold rest, vm4; simpl. rewrite Sc. simpl. rewrite andb_false_r.
    apply parse_length in Pa. inversion Sm2; subst. unfold small in *. lia.
  - unfold height; simpl. rewrite len_nil. pose proof (len_nonneg [script]). lia.
  - split; simpl; rewrite Sv; [now apply Forall_app|now rewrite len_app].
  - simpl. rewrite len_app, Sc. unfold len; simpl. lia.
  - intros _ L. simpl in L. lia.
Qed.

(** From a script to the next without the redeem convention. *)
Lemma select_plain vm : ended vm -> redeeming vm && (scriptIdx vm <=? 1) = false ->
  let '(vm', r) := (select_script ;;; enter_script) (fresh vm) in step_ok (rest vm) vm vm' r.
Proof.
  intros E R. pose proof (e_height _ E) as Hh. pose proof (e_idx _ E) as I. pose proof (ended_rest _ E) as Re.
  set (vm2 := set_scriptIdx (scriptIdx vm + 1) (fresh vm)).
  assert (S2 : select_script (fresh vm) = (vm2, Ok tt)).
  { unfold select_script, bind, gets, modify. simpl. fold (redeeming vm).
    destruct (redeeming vm); [|now rewrite !andb_false_r]. bdestruct; done. }
  rewrite (bind_ok _ _ _ _ _ S2). pose proof (enter_script_spec vm2) as P. destruct (enter_script vm2) as [vm' r].
  apply (step_ok_weaken (rest vm2) _ _ vm2); [done| |apply P; try done].
  - rewrite Re, R. unfold rest, vm2; simpl. change (redeeming _) with (redeeming vm).
    destruct (redeeming vm); simpl in *; bdestruct; lia.
  - unfold vm2; simpl. lia.
  - pose proof (fresh_height vm). unfold vm2, height in *; simpl in *; lia.
  - exact (e_saved _ E).
  - exact (e_two _ E).
  - intros R' L. change (redeeming vm = true) in R'. rewrite R' in R. unfold vm2 in L; simpl in *. bdestruct.
Qed.

Lemma next_script_spec vm : ended vm -> let '(vm', r) := next_script vm in step_ok (rest vm) vm vm' r.
Proof.
  intros E. pose proof (e_idx _ E). destruct (fits_height _ (e_height _ E)) as [Fd Fa].
  destruct (condStack vm) as [|c cs] eqn:C.
  2:{ unfold next_script. rewrite (bind_ok (gets _) _ vm vm (condStack vm) eq_refl), C.
      rewrite len_cons. replace (negb (len cs + 1 =? 0)) with true by (pose proof (len_nonneg cs); bdestruct; done). done. }
  rewrite next_script_eq by done.
  destruct (redeeming vm && (scriptIdx vm <=? 1)) eqn:R; [|now apply select_plain].
  apply andb_true_iff in R as [R L]. apply Z.leb_le in L.
  destruct (Z.eq_dec (scriptIdx vm) 0); [now apply select_first|apply select_redeem; auto; lia].
Qed.

(** ** Steps *)

Lemma set_numOps_id vm : set_numOps (numOps vm) vm = vm.
Proof. now destruct vm. Qed.

(** An opcode that runs, in a branch that is executing, has run its handler. *)
Lemma execute_handler pop vm vm' : executeOpcode pop vm = (vm', Ok tt) -> isBranchExecuting vm = true ->
  exists n, opfunc_run (op_func (pop_opcode pop)) pop (set_numOps n vm) = (vm', Ok tt).
Proof.
  unfold executeOpcode. destruct (isDisabled pop); [done|]. destruct (alwaysIllegal pop); [done|].
  intros E B. apply bind_inv in E as (vm1 & [] & E1 & E).
  assert (vm1 = set_numOps (numOps vm1) vm) as V.
  { destruct (blt OP_16 (pop_value pop)).
    - apply bind_inv in E1 as (? & [] & [= <-] & E1). apply bind_inv in E1 as (? & ops & [= <- <-] & E1).
      destruct (_ <? _) in E1; [done|]. injection E1 as <-. done.
    - destruct (_ <? _) in E1; [done|]. injection E1 as <-. now rewrite set_numOps_id. }
  exists (numOps vm1). rewrite <- V. apply bind_inv in E as (vm2 & v & [= <- <-] & E).
  replace (isBranchExecuting vm1) with true in E by (rewrite V; now rewrite <- B). cbn [negb andb] in E.
  apply bind_inv in E as (vm3 & [] & E3 & E). destruct (_ && _ && _) in E3; [destruct (checkMinimalDataPush pop) in E3|];
    injection E3 as <-; done.
Qed.

Lemma hash160_underflow pop vm vm' : from_table pop -> pop_value pop = OP_HASH160 -> condStack vm = [] ->
  stk (dstack vm) = [] -> executeOpcode pop vm <> (vm', Ok tt).
Proof.
  intros T V C S E. apply execute_handler in E as [n E]; [|unfold isBranchExecuting; now rewrite C].
  rewrite T, V in E. change (op_func (opcodeArray OP_HASH160)) with fnHash160 in E.
  cbn [opfunc_run] in E. unfold opcodeHash160, hash_top in E. apply bind_inv in E as (? & ? & E & _).
  unfold on_d, focus in E. simpl in E. now rewrite (PopByteArray_nil _ S) in E.
Qed.

Lemma jury_underflow pop vm vm' : from_table pop -> pop_value pop = OP_JURY_REDEEM_EQUAL -> condStack vm = [] ->
  len (stk (dstack vm)) = 1 -> executeOpcode pop vm <> (vm', Ok tt).
Proof.
  intros T V C S E. apply execute_handler in E as [n E]; [|unfold isBranchExecuting; now rewrite C].
  rewrite T, V in E. change (op_func (opcodeArray OP_JURY_REDEEM_EQUAL)) with fnCheckJuryRedeemEqual in E.
  cbn [opfunc_run] in E. unfold opcodeCheckJuryRedeemEqual in E.
  destruct (stk (dstack vm)) as [|x [|y l]] eqn:St; [done| |exfalso; rewrite !len_cons in S; pose proof (len_nonneg l); lia].
  apply bind_inv in E as (vm1 & a & E1 & E). apply bind_inv in E as (vm2 & b & E2 & _).
  unfold on_d, focus in E1. simpl in E1.
  rewrite (PopByteArray_snoc (dstack vm) [] x) in E1; [|done|unfold fits; rewrite St; by vm_compute].
  injection E1 as <- <-. now unfold on_d, focus in E2.
Qed.

Lemma isPushOnly_index s pop i : isPushOnly s = true -> index s i = Some pop -> blt OP_16 (pop_value pop) = false.
Proof.
  unfold index. destruct (i <? 0); [done|]. generalize (Z.to_nat i) as n. clear i.
  induction s as [|p s IH]; intros n P E; [done|]. simpl in P. destruct (blt OP_16 (pop_value p)) eqn:B; [done|].
  destruct n; simpl in E; [by injection E as ->|eauto].
Qed.

Lemma Forall_index {A} (P : A -> Prop) l i x : Forall P l -> index l i = Some x -> P x.
Proof. unfold index. destruct (i <? 0); [done|]. intros F E. eapply Forall_lookup_1; eauto. Qed.

Lemma push_keeps vm pop vm1 : pushing vm -> good_pop pop -> blt OP_16 (pop_value pop) = false ->
  executeOpcode pop vm = (vm1, Ok tt) ->
  condStack vm1 = [] /\ len (stk (dstack vm1)) = scriptOff vm + 1 /\ Forall small (stk (dstack vm1)).
Proof.
  intros (C & L & S) G B E. destruct (execute_push pop vm G B C) as [[e E']|(x & Sx & E')]; rewrite E' in E; [done|].
  injection E as <-. simpl. split_and!; [done|rewrite len_app, L; done|]. apply Forall_app. auto.
Qed.

(** A contract's locking script that found nothing to redeem: only its first opcode can run. *)
Lemma contract_push vm s1 pop vm1 : isContractHash s1 = true -> Forall good_pop s1 -> pushing vm ->
  index s1 (scriptOff vm) = Some pop -> executeOpcode pop vm = (vm1, Ok tt) ->
  blt OP_16 (pop_value pop) = false /\ scriptOff vm + 1 < len s1.
Proof.
  intros K G (C & L & S) I E. destruct s1 as [|p0 [|p1 [|]]]; try done. simpl in K.
  apply andb_true_iff in K as [K0 K1]. apply beq_true in K0, K1.
  destruct (decide (scriptOff vm = 0)) as [O|].
  { rewrite O in *. injection I as ->. rewrite K0. done. }
  destruct (decide (scriptOff vm = 1)) as [O|].
  { exfalso. rewrite O in *. injection I as ->. inversion G as [|? ? _ G']; subst.
    inversion G' as [|? ? [T _] _]; subst. by eapply jury_underflow in E. }
  exfalso. enough (index [p0; p1] (scriptOff vm) = None) by congruence.
  apply index_None. unfold len in *; simpl. lia.
Qed.

Lemma exec_phase vm pop vm1 : Inv vm -> redeeming vm = true -> scriptIdx vm <= 1 ->
  (scriptIdx vm = 0 \/ savedFirstStack vm = []) ->
  index (current_script vm) (scriptOff vm) = Some pop -> executeOpcode pop vm = (vm1, Ok tt) ->
  condStack vm1 = [] /\ len (stk (dstack vm1)) = scriptOff vm + 1 /\ Forall small (stk (dstack vm1)) /\
  (scriptIdx vm = 1 -> bip16 vm = false /\ scriptOff vm + 1 < len (current_script vm)).
Proof.
  intros I R L Ph X E. destruct (inv_redeem _ I R L) as (s0 & s1 & Sc & (G1 & B & P) & First & Second).
  pose proof (inv_located _ I) as (Ix & _). unfold current_script in *. rewrite Sc in *.
  destruct (decide (scriptIdx vm = 0)) as [Z0|N0].
  - destruct (First Z0) as (G0 & PO & Pu). rewrite Z0 in *. simpl in X.
    destruct (push_keeps vm pop vm1 Pu (Forall_index _ _ _ _ G0 X) (isPushOnly_index _ _ _ PO X) E) as (? & ? & ?).
    split_and!; done || lia.
  - assert (Z1 : scriptIdx vm = 1) by lia. rewrite Z1 in *. destruct Ph as [?|Ph]; [lia|].
    destruct (Second eq_refl Ph) as [Pu Off]. change (index [s0; s1] 1) with (Some s1) in *. cbv iota in *.
    pose proof (Forall_index _ _ _ _ G1 X) as Gp.
    destruct (bip16 vm) eqn:B16.
    + exfalso. specialize (B eq_refl). specialize (Off eq_refl). destruct Pu as (C & Ld & _).
      rewrite Off in *. destruct s1 as [|p0 [|p1 [|p2 [|]]]]; try done. injection X as ->. simpl in B.
      apply andb_true_iff in B as [B _]. apply andb_true_iff in B as [B _]. apply beq_true in B.
      eapply hash160_underflow in E; [done|apply Gp|done|done|now apply len_zero].
    + unfold redeeming in R. rewrite B16 in R.
      destruct (contract_push vm s1 pop vm1 (P R) G1 Pu X E) as [Bl Lt].
      destruct (push_keeps vm pop vm1 Pu Gp Bl E) as (? & ? & ?). split_and!; done.
Qed.

Lemma frame_fixed vm vm' : frame vm vm' -> fixed vm = fixed vm'.
Proof. intros []. unfold fixed. congruence. Qed.

Lemma validPC_spec vm : located vm ->
  (exists e, validPC vm = (vm, Err e)) \/ (validPC vm = (vm, Ok tt) /\ scriptOff vm < len (current_script vm)).
Proof.
  intros Lc. pose proof (located_script _ Lc) as Cur. destruct Lc as (I & _). unfold validPC.
  rewrite (bind_ok (gets _) _ vm vm vm eq_refl). replace (len (scripts vm) <=? scriptIdx vm) with false by lia.
  rewrite Cur, (bind_ok (get (Some _)) _ vm vm (current_script vm) eq_refl).
  destruct (Z.leb_spec (len (current_script vm)) (scriptOff vm)); [left; by eexists|right; done].
Qed.

(** One opcode on: the state after the handler, with the counter moved. *)
Lemma advance_current vm vm1 : frame vm vm1 ->
  current_script (set_scriptOff (scriptOff vm1 + 1) vm1) = current_script vm.
Proof. intros []. unfold current_script; simpl. now rewrite fr_scripts, fr_idx. Qed.

Lemma advance_rest vm vm1 : frame vm vm1 -> rest (set_scriptOff (scriptOff vm1 + 1) vm1) = rest vm - 1.
Proof.
  intros []. unfold rest, redeeming; simpl. rewrite fr_scripts, fr_idx, fr_off, fr_bip16, fr_p2ch. lia.
Qed.

Lemma advance_inv vm pop vm1 : Inv vm -> index (current_script vm) (scriptOff vm) = Some pop ->
  executeOpcode pop vm = (vm1, Ok tt) -> frame vm vm1 -> numOps vm1 <= MaxOpsPerScript ->
  height vm1 <= maxStackSize -> scriptOff vm + 1 < len (current_script vm) ->
  Inv (set_scriptOff (scriptOff vm1 + 1) vm1).
Proof.
  intros I X E F N Hh L. pose proof F as []. destruct (inv_located _ I) as (Ix & Sep & Off).
  constructor; try done.
  - unfold located. rewrite (advance_current vm vm1 F). simpl. rewrite fr_idx, fr_scripts, fr_off.
    destruct fr_sep as [-> | ->]; lia.
  - unfold saved_inv; simpl. rewrite fr_saved. exact (inv_saved _ I).
  - simpl. rewrite fr_scripts. exact (inv_two _ I).
  - unfold redeem_inv, redeeming, lock_shape, pushing; simpl. rewrite fr_scripts, fr_idx, fr_off, fr_bip16, fr_p2ch, fr_saved.
    intros R Le. destruct (inv_redeem _ I R Le) as (s0 & s1 & Sc & Sh & First & _).
    exists s0, s1. split; [done|]. split; [exact Sh|]. split.
    + intros Z0. destruct (First Z0) as (? & ? & _).
      destruct (exec_phase vm pop vm1 I R Le ltac:(auto) X E) as (? & ? & ? & _). auto.
    + intros Z1 Sv. destruct (exec_phase vm pop vm1 I R Le ltac:(auto) X E) as (? & ? & ? & P).
      split; [done|]. intros B. destruct (P Z1). congruence.
Qed.

Lemma advance_ended vm pop vm1 : Inv vm -> index (current_script vm) (scriptOff vm) = Some pop ->
  executeOpcode pop vm = (vm1, Ok tt) -> frame vm vm1 ->
  height vm1 <= maxStackSize -> scriptOff vm + 1 = len (current_script vm) ->
  ended (set_scriptOff (scriptOff vm1 + 1) vm1).
Proof.
  intros I X E F Hh L. pose proof F as []. destruct (inv_located _ I) as (Ix & Sep & Off).
  constructor.
  - simpl. now rewrite fr_idx, fr_scripts.
  - rewrite (advance_current vm vm1 F). simpl. now rewrite fr_off.
  - done.
  - unfold saved_inv; simpl. rewrite fr_saved. exact (inv_saved _ I).
  - simpl. rewrite fr_scripts. exact (inv_two _ I).
  - unfold redeeming, lock_shape; simpl. rewrite fr_scripts, fr_idx, fr_bip16, fr_p2ch, fr_saved.
    intros R Le. destruct (inv_redeem _ I R Le) as (s0 & s1 & Sc & Sh & _).
    exists s0, s1. split; [done|]. split; [exact Sh|]. split.
    + intros Z0. destruct (exec_phase vm pop vm1 I R Le ltac:(auto) X E) as (_ & Ls & ? & _).
      split; [|done]. intros C. rewrite C, len_nil in Ls. lia.
    + intros Z1 Sv. destruct (exec_phase vm pop vm1 I R Le ltac:(auto) X E) as (_ & _ & _ & P).
      destruct (P Z1). lia.
Qed.

(** A step keeps the invariant and makes progress, or ends the run. *)
Lemma Step_spec vm : Inv vm -> let '(vm', r) := Step vm in
  fixed vm = fixed vm' /\
  match r with
  | Ok false => Inv vm' /\ rest vm' < rest vm
  | Ok true => height vm' <= maxStackSize /\ len (scripts vm') <= scriptIdx vm'
  | Err _ => True
  | Panic => ~ good vm
  end.
Proof.
  intros I. pose proof (inv_located _ I) as Lc. pose proof Lc as (Ix & Sep & Off). pose proof (inv_height _ I) as Hh.
  unfold Step. destruct (validPC_spec vm Lc) as [[e V]|[V Lt]].
  { rewrite (bind_err _ _ _ _ _ V). done. }
  rewrite (bind_ok _ _ _ _ _ V), (bind_ok (gets _) _ vm vm vm eq_refl).
  destruct (index_Some (current_script vm) (scriptOff vm)) as [pop X]; [lia|].
  rewrite X, (bind_ok (get (Some pop)) _ vm vm pop eq_refl).
  pose proof (espec_executeOpcode pop vm Lc ltac:(unfold maxStackSize in *; lia)) as P.
  destruct (executeOpcode pop vm) as [vm1 r] eqn:E. destruct P as (F & H1 & P). pose proof (frame_fixed _ _ F) as Fx.
  destruct r as [[]|e|]; [|rewrite (bind_err _ _ _ _ _ E); done|unfold bind; rewrite E; done].
  rewrite (bind_ok _ _ _ _ _ E), (bind_ok (gets _) _ vm1 vm1 vm1 eq_refl).
  destruct (_ <? int32 _) eqn:O; [done|]. apply Z.ltb_ge in O.
  assert (H1' : height vm1 <= maxStackSize).
  { unfold height, Depth, maxStackSize in *. pose proof (len_nonneg (stk (dstack vm1))).
    pose proof (len_nonneg (stk (astack vm1))).
    rewrite (int32_small (len (stk (dstack vm1)))), (int32_small (len (stk (astack vm1)))), int32_small in O; lia. }
  rewrite (bind_ok (modify (fun v => set_scriptOff (scriptOff v + 1) v)) _ vm1 (set_scriptOff (scriptOff vm1 + 1) vm1) tt eq_refl).
  set (vm2 := set_scriptOff (scriptOff vm1 + 1) vm1). rewrite (bind_ok (gets _) _ vm2 vm2 vm2 eq_refl).
  pose proof (advance_rest vm vm1 F) as Re. fold vm2 in Re. pose proof (advance_current vm vm1 F) as Cu. fold vm2 in Cu.
  pose proof (fr_off _ _ F) as Fo. rewrite Cu. change (scriptOff vm2) with (scriptOff vm1 + 1). rewrite Fo.
  destruct (Z.leb_spec (len (current_script vm)) (scriptOff vm + 1)).
  - pose proof (advance_ended vm pop vm1 I X E F H1' ltac:(lia)) as En. fold vm2 in En.
    pose proof (next_script_spec vm2 En) as S. destruct (next_script vm2) as [vm3 r]. destruct S as [F3 S].
    split; [rewrite Fx; exact F3|]. destruct r as [[]|e|]; auto. destruct S. split; [done|lia].
  - split; [done|]. simpl. split; [|lia]. apply (advance_inv vm pop); auto. apply P, (inv_ops _ I).
Qed.

(** ** Runs *)

(** The states a run goes through. *)
Inductive reachable (vm : Engine) : Engine -> Prop :=
| reach_start : reachable vm vm
| reach_step vm1 vm2 : reachable vm vm1 -> Step vm1 = (vm2, Ok false) -> reachable vm vm2.

Lemma load_script_good scr pops : load_script scr = Ok pops -> Forall good_pop pops /\ parseScript scr = (pops, None).
Proof.
  unfold load_script. destruct (_ <? _); [done|]. destruct (parseScript scr) as [ps [e|]] eqn:P; [done|].
  intros [= <-]. split; [by eapply parsed_good|done].
Qed.

(** What [NewEngine] has checked and set up. *)
Lemma NewEngine_ok pk t mIdx iIdx fs cache vm : NewEngine pk t mIdx iIdx fs cache = Ok vm ->
  exists m p input s0 s1,
    index (Messages t) mIdx = Some m /\ Payload m = Some (PayPayment p) /\ 0 <= iIdx < len (Inputs p) /\
    index (Inputs p) iIdx = Some input /\
    load_script (SignatureScript input) = Ok s0 /\ load_script pk = Ok s1 /\
    let b16 := has_flag fs ScriptBip16 && isScriptHash s1 in
    let ch := isContractHash s1 in
    (b16 || ch = true -> isPushOnly s0 = true) /\
    vm = mkEngine t (newStack (has_flag fs ScriptVerifyMinimalData)) (newStack (has_flag fs ScriptVerifyMinimalData))
           [s0; s1] [] [] (if len (SignatureScript input) =? 0 then 1 else 0) 0 0 mIdx iIdx 0 cache fs b16 ch.
Proof.
  unfold NewEngine. intros N. apply rbind_inv in N as (m & M & N). apply rbind_inv in N as (p & P & N).
  destruct ((iIdx <? 0) || (len (Inputs p) <=? iIdx)) eqn:R; [done|]. apply orb_false_iff in R as [R1 R2].
  apply rbind_inv in N as (input & Ii & N). destruct (_ && negb _) in N; [done|]. destruct (_ && negb _) in N; [done|].
  apply rbind_inv in N as (s0 & S0 & N). apply rbind_inv in N as (s1 & S1 & N). cbv zeta in N.
  destruct (has_flag fs ScriptBip16 && isScriptHash s1 && negb (isPushOnly s0)) eqn:B; [done|].
  destruct (isContractHash s1 && negb (isPushOnly s0)) eqn:C; [done|]. injection N as <-.
  unfold message_at in M. destruct (index (Messages t) mIdx) as [m'|] eqn:Im; [|done]. injection M as ->.
  destruct (index (Inputs p) iIdx) as [i'|] eqn:In; [|done]. injection Ii as ->.
  unfold as_payment in P. destruct (Payload m) as [[]|] eqn:Pm; try done. injection P as ->.
  exists m, p, input, s0, s1. split_and!; try done; [lia|lia|].
  intros O. destruct (isPushOnly s0); [done|]. rewrite andb_true_r in *. rewrite B, C in O. done.
Qed.

Lemma NewEngine_inv pk t mIdx iIdx fs cache vm : NewEngine pk t mIdx iIdx fs cache = Ok vm -> Inv vm.
Proof.
  intros N. apply NewEngine_ok in N as (m & p & input & s0 & s1 & _ & _ & _ & _ & S0 & S1 & PO & ->).
  apply load_script_good in S0 as [G0 _], S1 as [G1 _].
  pose proof (len_nonneg s0). pose proof (len_nonneg s1).
  constructor.
  - unfold located, current_script; simpl. destruct (_ =? 0); simpl; unfold len in *; simpl; lia.
  - by vm_compute.
  - by vm_compute.
  - split; [constructor|by vm_compute].
  - by vm_compute.
  - intros R L. simpl in *. exists s0, s1. split; [done|]. split.
    { split; [done|]. simpl. split; [|done]. intros B. now apply andb_true_iff in B. }
    assert (Pu : forall v, condStack v = [] -> stk (dstack v) = [] -> scriptOff v = 0 -> pushing v).
    { intros v C D O. unfold pushing. rewrite C, D, O. split_and!; [done|done|constructor]. }
    split; [intros _; split; [done|]; split; [auto|]|intros _ _; split; [|done]]; by apply Pu.
Qed.

Lemma reachable_inv vm vm' : Inv vm -> reachable vm vm' -> Inv vm' /\ fixed vm = fixed vm'.
Proof.
  intros I. induction 1 as [|vm1 vm2 _ [I1 F1] S]; [done|]. pose proof (Step_spec vm1 I1) as P. rewrite S in P.
  destruct P as (F & P & _). split; [done|congruence].
Qed.

Lemma rest_nonneg vm : Inv vm -> 0 <= rest vm.
Proof.
  intros I. pose proof (inv_located _ I) as Lc. pose proof (located_script _ Lc) as Cur. destruct Lc as (_ & _ & Off).
  unfold rest. rewrite (drop_index _ _ _ Cur). simpl.
  pose proof (size_nonneg (drop (Z.to_nat (scriptIdx vm + 1)) (scripts vm))).
  destruct (_ && _); unfold MaxScriptElementSize; lia.
Qed.

(** Enough turns: more than what remains. *)
Lemma run_loop_total fuel : forall vm, Inv vm -> rest vm < Z.of_nat fuel ->
  exists vm' r, run_loop fuel vm = (vm', Some r) /\ fixed vm = fixed vm' /\
    match r with
    | Ok _ => height vm' <= maxStackSize
    | Err _ => True
    | Panic => ~ good vm
    end.
Proof.
  induction fuel as [|fuel IH]; intros vm I L.
  { pose proof (rest_nonneg _ I). lia. }
  cbn [run_loop]. pose proof (Step_spec vm I) as P. destruct (Step vm) as [vm1 [[]|e|]]; destruct P as [F P].
  - exists vm1, (Ok tt). tauto.
  - destruct P as [I1 R]. destruct (IH vm1 I1 ltac:(lia)) as (vm2 & r & -> & F2 & P). exists vm2, r.
    split; [done|]. split; [congruence|]. destruct r; try done.
    intros G. apply P. by apply (good_fixed vm).
  - exists vm1, (Err e). done.
  - exists vm1, Panic. done.
Qed.

(** At the start there is no redeem script yet and both scripts are ahead. *)
Lemma NewEngine_start pk t mIdx iIdx fs cache vm : NewEngine pk t mIdx iIdx fs cache = Ok vm ->
  0 <= scriptIdx vm /\ scriptOff vm = 0.
Proof.
  intros N. apply NewEngine_ok in N as (m & p & input & s0 & s1 & _ & _ & _ & _ & _ & _ & _ & ->).
  simpl. destruct (_ =? 0); done.
Qed.

Lemma exec_fuel_enough vm : 0 <= scriptIdx vm /\ scriptOff vm = 0 -> rest vm < Z.of_nat (exec_fuel vm).
Proof.
  intros [I O]. unfold rest, exec_fuel. rewrite O.
  assert (D : forall l n, size (drop n l) <= size l).
  { induction l as [|s l IH]; intros [|n]; simpl; try lia. pose proof (len_nonneg s). specialize (IH n). lia. }
  specialize (D (scripts vm) (Z.to_nat (scriptIdx vm))).
  assert (F : forall l k, Z.of_nat (foldr (fun s n => (length s + n)%nat) k l) = size l + Z.of_nat k).
  { intros l k. induction l as [|s l IH]; simpl; [done|]. rewrite Nat2Z.inj_add, IH. unfold len. lia. }
  rewrite Nat2Z.inj_succ, F. unfold MaxScriptElementSize in *. destruct (_ && _); lia.
Qed.

Lemma Execute_spec vm : Inv vm -> 0 <= scriptIdx vm /\ scriptOff vm = 0 ->
  exists vm' r, Execute vm = (vm', Some r) /\ (r = Panic -> ~ good vm).
Proof.
  intros I St. destruct (run_loop_total (exec_fuel vm) vm I (exec_fuel_enough vm St)) as (vm1 & r & R & _ & P).
  unfold Execute, Execute_from. rewrite R. destruct r as [[]|e|]; [|by do 2 eexists|by do 2 eexists].
  destruct (fits_height _ P) as [Fd _]. destruct (CheckErrorCondition_spec true vm1 Fd) as (l & r & -> & _ & N).
  do 2 eexists. split; [done|]. intros ->. done.
Qed.

End Runs.
