(* ===== verification/EngineProps.v ===== *)
(** Properties of the runs of the script engine (engine.go, NewEngine, Step and Execute): the
    limits, the end and the panics of a run; and the environment of the witnesses. *)

From Stdlib Require Import ZArith Lia.
From S2P Require Import Prelude Errors ScriptNum Stack Opcode Script Builder Address Standard Tx RlpModel TxProps SigHash SigCache Engine EngineInv EngineRun.

(** An environment for the witnesses: a signature is valid if it starts with its public key, a
    hash is the first 20 bytes. *)
Definition sample_env : ScriptEnv := {|
  env_rlp := digit_lib;
  env_keccakHash := fun b => take 32 b;
  Verify := fun pk sig _ => is_prefix pk sig;
  Hash160 := fun b => take 20 (b ++ replicate 20 x00);
  Ripemd160 := fun b => b; Sha1 := fun b => b; Keccak256 := fun b => b;
  pickupJuryRedeemScript := fun _ => Err ErrStackEmptyStack;
  cacheOrder := fun c => elements (validSigs c);
  cacheRand := fun _ => None
|}.

(** The spend of the first input of [sample_tx], whose signature script is [OP_1]. *)
Definition sample_engine (lock : bytes) : result error Engine :=
  NewEngine lock sample_tx 0 0 StandardVerifyExcludeSignFlags None.

(** ** Runs *)

(** C19: on every state of a run the two stacks hold at most [maxStackSize] items, at most
    [MaxOpsPerScript] operations have been counted in the current script, and the program counter
    and the code separator are inside the script. *)
Theorem engine_limits `{ScriptEnv} (pk : bytes) (t : Transaction) (mIdx iIdx fs : Z)
    (cache : option SigCache) (vm vm' : Engine) :
  NewEngine pk t mIdx iIdx fs cache = Ok vm -> reachable vm vm' ->
  len (stk (dstack vm')) + len (stk (astack vm')) <= maxStackSize /\
  numOps vm' <= MaxOpsPerScript /\ located vm'.
Proof.
  intros N R. apply NewEngine_inv in N. destruct (reachable_inv _ _ N R) as [[] _]. done.
Qed.
Lemma engine_limits_witness :
  exists vm vm' : Engine, sample_engine [x76; x93] = Ok vm /\ reachable (H := sample_env) vm vm' /\
    scriptOff vm' = 1 /\ len (stk (dstack vm')) + len (stk (astack vm')) <= maxStackSize.
Proof.
  destruct (sample_engine [x76; x93]) as [vm| |] eqn:E; [|vm_compute in E; discriminate E..].
  vm_compute in E. injection E as E.
  destruct (Step (H := sample_env) vm) as [vm1 r1] eqn:S1. rewrite <- E in S1. vm_compute in S1. injection S1 as S1 R1.
  destruct (Step (H := sample_env) vm1) as [vm2 r2] eqn:S2. rewrite <- S1 in S2. vm_compute in S2. injection S2 as S2 R2.
  assert (R : reachable (H := sample_env) vm vm2).
  { apply (reach_step _ vm1); [apply (reach_step _ vm); [apply reach_start|]|]; subst; vm_compute; reflexivity. }
  exists vm, vm2. split; [reflexivity|]. split; [exact R|]. split; [subst; reflexivity|].
  apply (engine_limits (H := sample_env) [x76; x93] sample_tx 0 0 StandardVerifyExcludeSignFlags None vm vm2); [|exact R].
  subst; vm_compute; reflexivity.
Defined.

(** C20: [Execute] ends on every engine [NewEngine] makes: the loop needs at most one turn for
    each opcode of the two scripts and [MaxScriptElementSize] for a redeem script (plus one for
    an empty script), so with that fuel there is a verdict. *)
Theorem Execute_total `{ScriptEnv} (pk : bytes) (t : Transaction) (mIdx iIdx fs : Z)
    (cache : option SigCache) (vm : Engine) :
  NewEngine pk t mIdx iIdx fs cache = Ok vm -> exists vm' r, Execute vm = (vm', Some r).
Proof.
  intros N. destruct (Execute_spec vm) as (vm' & r & E & _); [by eapply NewEngine_inv|by eapply NewEngine_start|]. eauto.
Qed.
Lemma Execute_total_witness :
  exists vm vm' r, sample_engine [x76; x93] = Ok vm /\ Execute (H := sample_env) vm = (vm', Some r).
Proof.
  destruct (sample_engine [x76; x93]) as [vm| |] eqn:E; [|vm_compute in E; discriminate E..].
  destruct (Execute_total (H := sample_env) [x76; x93] sample_tx 0 0 StandardVerifyExcludeSignFlags None vm E)
    as (vm' & r & X).
  exists vm, vm', r. split; [reflexivity|exact X].
Defined.

(** C4: with the flags of [ScriptValidate] no script makes the engine panic: if the transaction is
    one the wire format can carry, all its messages are complete, its message 0 is a payment, the
    RLP library reports errors instead of panicking, and the source of jury redeem scripts does
    not panic, then [Execute] returns a verdict, whatever the scripts. *)
Theorem Execute_no_panic `{ScriptEnv} (LL : RlpLaws env_rlp) (pk : bytes) (t : Transaction)
    (mIdx iIdx : Z) (cache : option SigCache) (vm : Engine) (m m0 : Message) (p0 : PaymentPayload) :
  NewEngine pk t mIdx iIdx StandardVerifyExcludeSignFlags cache = Ok vm ->
  encodable_tx (txdata t) -> Forall complete (Messages t) ->
  index (Messages t) mIdx = Some m -> encodable_tx (mkSdw [m] [] false) ->
  index (Messages t) 0 = Some m0 -> Payload m0 = Some (PayPayment p0) ->
  codec_safe c_payment -> codec_safe c_tx -> (forall a, pickupJuryRedeemScript a <> Panic) ->
  exists vm' r, Execute vm = (vm', Some r) /\ r <> Panic.
Proof.
  intros N En C Im En1 I0 P0 CP CT J.
  destruct (Execute_spec vm) as (vm' & r & E & P); [by eapply NewEngine_inv|by eapply NewEngine_start|].
  exists vm', r. split; [done|]. intros R. apply (P R). clear R P E.
  apply NewEngine_ok in N as (m' & p & input & s0 & s1 & Im' & Pm & X & _ & _ & _ & _ & ->).
  rewrite Im in Im'. injection Im' as <-. split_and!; try (by vm_compute); simpl.
  - intros pops ht _. eapply calcSignatureData_ok; eauto. eapply Forall_index; eauto.
  - exists (Messages t), m0, p0. split; [by apply TxMessages_id|done].
Qed.
Lemma Execute_no_panic_witness :
  exists vm vm' r, sample_engine [x76; xac] = Ok vm /\ Execute (H := sample_env) vm = (vm', Some r) /\ r <> Panic.
Proof.
  destruct (sample_engine [x76; xac]) as [vm| |] eqn:E; [|vm_compute in E; discriminate E..].
  assert (En : encodable_tx (L := digit_lib) (txdata sample_tx)).
  { apply one_payment_encodable. constructor; [discriminate | constructor]. }
  destruct (Execute_no_panic (H := sample_env) digit_laws [x76; xac] sample_tx 0 0 None vm
    (mkMessage APP_PAYMENT (Some (PayPayment sample_payment)))
    (mkMessage APP_PAYMENT (Some (PayPayment sample_payment))) sample_payment E En) as (vm' & r & X & P).
  - constructor; [|constructor]. eexists. split; [reflexivity|]. split; [reflexivity|].
    constructor; [discriminate|constructor].
  - reflexivity.
  - exact En.
  - reflexivity.
  - reflexivity.
  - intros a. discriminate.
  - intros a. discriminate.
  - intros a. discriminate.
  - exists vm, vm', r. split; [reflexivity|]. split; [exact X|exact P].
Defined.
