(* ===== verification/SigCheck.v ===== *)
(** The checks of signatures by the engine (opcode.go, opcodeCheckSig and opcodeCheckMultiSig):
    which signatures OP_CHECKMULTISIG accepts, and what the signature cache does to the check. *)

From Stdlib Require Import ZArith Lia.
From S2P Require Import Prelude Errors ScriptNum Stack Opcode Script Builder Address Standard Tx RlpModel TxProps SigHash SigCache Engine EngineInv EngineRun EngineProps.

(** ** Order-preserving assignments of signatures to keys *)

(** Every signature is by a key of its own, and the keys come in the order of the signatures. *)
Inductive signed_in_order (ok : bytes -> bytes -> bool) : list bytes -> list bytes -> Prop :=
| sio_done keys : signed_in_order ok keys []
| sio_take k keys s sigs : ok k s = true -> signed_in_order ok keys sigs -> signed_in_order ok (k :: keys) (s :: sigs)
| sio_skip k keys sigs : signed_in_order ok keys sigs -> signed_in_order ok (k :: keys) sigs.

Section Order.
Variable ok : bytes -> bytes -> bool.
Abbreviation sio := (signed_in_order ok).

Lemma sio_length keys sigs : sio keys sigs -> len sigs <= len keys.
Proof. induction 1; rewrite ?len_cons; try lia. rewrite len_nil. apply len_nonneg. Qed.

Lemma sio_drop keys s sigs : sio keys (s :: sigs) -> sio keys sigs.
Proof.
  remember (s :: sigs) as l eqn:E. induction 1 as [|k keys s' sigs' _ H _|k keys sigs' _ IH]; [done| |].
  - injection E as _ ->. by apply sio_skip.
  - apply sio_skip. auto.
Qed.

Lemma sio_cons_ok k keys s sigs : ok k s = true -> sio (k :: keys) (s :: sigs) <-> sio keys sigs.
Proof.
  intros O. split; [|by apply sio_take]. intros H. inversion H; subst; [done|]. by eapply sio_drop.
Qed.

Lemma sio_cons_bad k keys s sigs : ok k s = false -> sio (k :: keys) (s :: sigs) <-> sio keys (s :: sigs).
Proof. intros O. split; [|by apply sio_skip]. intros H. inversion H; subst; [congruence|done]. Qed.
End Order.

Lemma copy_nil src : copy [] src = [].
Proof. by destruct src. Qed.

Lemma sio_impl (ok ok' : bytes -> bytes -> bool) keys sigs :
  (forall k s, k ∈ keys -> ok k s = true -> ok' k s = true) ->
  signed_in_order ok keys sigs -> signed_in_order ok' keys sigs.
Proof.
  intros I H. induction H as [|k keys s sigs O _ IH|k keys sigs _ IH]; [constructor| |].
  - apply sio_take; [apply I; [constructor|done]|]. apply IH. intros; apply I; [by constructor|done].
  - apply sio_skip, IH. intros; apply I; [by constructor|done].
Qed.

Lemma sio_app ok keys sigs keys' sigs' : signed_in_order ok keys sigs -> signed_in_order ok keys' sigs' ->
  signed_in_order ok (keys ++ keys') (sigs ++ sigs').
Proof.
  induction 1 as [keys|k keys s sigs O _ IH|k keys sigs _ IH]; intros S; simpl; [|by apply sio_take; auto|by apply sio_skip; auto].
  induction keys as [|k keys IH]; [done|]. by apply sio_skip.
Qed.

Lemma sio_rev ok keys sigs : signed_in_order ok keys sigs -> signed_in_order ok (rev keys) (rev sigs).
Proof.
  induction 1 as [keys|k keys s sigs O _ IH|k keys sigs _ IH]; simpl; [constructor| |].
  - apply sio_app; [done|]. apply sio_take; [done|constructor].
  - rewrite <- (app_nil_r (rev sigs)). apply sio_app; [done|constructor].
Qed.

Section Checks.
Context `{ScriptEnv}.

(** A signature with its hash type is by a key over the engine's transaction. *)
Definition sig_ok (vm : Engine) (script : list parsedOpcode) (key sig : bytes) : bool :=
  negb (len sig =? 0) &&
  match calcSignatureData env_keccakHash script (split_sig sig).1 (tx vm) (msgIdx vm) (txIdx vm) with
  | Ok data => Verify key (split_sig sig).2 data
  | _ => false
  end.

(** The engine checks signatures itself, without encoding rules, on data it can compute. *)
Record plain_checks (vm : Engine) : Prop := mkPlain {
  pc_cache : sigCache vm = None;
  pc_strict : hasFlag vm ScriptVerifyStrictEncoding = false;
  pc_data : forall script ht, 0 <= ht < 256 ->
    exists data, calcSignatureData env_keccakHash script ht (tx vm) (msgIdx vm) (txIdx vm) = Ok data
}.

Lemma checkHashType_plain vm ht : hasFlag vm ScriptVerifyStrictEncoding = false ->
  checkHashTypeEncoding ht vm = (vm, Ok tt).
Proof. intros S. unfold checkHashTypeEncoding, bind, gets. now rewrite S. Qed.

Lemma signature_data_ok vm script ht data :
  calcSignatureData env_keccakHash script ht (tx vm) (msgIdx vm) (txIdx vm) = Ok data ->
  signature_data script ht vm = (vm, Ok data).
Proof. intros D. unfold signature_data, bind, gets. now rewrite D. Qed.

(** The answer of the engine on one signature, and the cache after it: a cached signature is
    accepted, any other is verified. *)
Definition accepts (c : option SigCache) (pk sig data : bytes) : bool :=
  match c with Some cache => Exists cache [] sig pk || Verify pk sig data | None => Verify pk sig data end.
Definition cached (c : option SigCache) (pk sig data : bytes) : option SigCache :=
  match c with
  | Some cache =>
      if negb (Exists cache [] sig pk) && Verify pk sig data
      then Some (Add (cacheOrder cache) (cacheRand cache) cache [] sig pk) else c
  | None => None
  end.

Lemma verify_cached_eq vm pk sig data :
  verify_cached pk sig data vm =
  (set_sigCache (cached (sigCache vm) pk sig data) vm, Ok (accepts (sigCache vm) pk sig data)).
Proof.
  unfold verify_cached, bind, gets, accepts, cached. destruct (sigCache vm) as [c|] eqn:C.
  - rewrite copy_nil. destruct (Exists c [] sig pk), (Verify pk sig data); (done || (rewrite <- C; by destruct vm)).
  - rewrite <- C. by destruct vm.
Qed.

Lemma verify_uncached vm pk sig data : sigCache vm = None -> verify_cached pk sig data vm = (vm, Ok (Verify pk sig data)).
Proof. intros C. rewrite verify_cached_eq, C. simpl. rewrite <- C. by destruct vm. Qed.

Lemma accepts_verified c pk sig data : Verify pk sig data = true -> accepts c pk sig data = true.
Proof. intros V. destruct c; simpl; rewrite V; [apply orb_true_r|done]. Qed.

Lemma multisig_loop_spec vm script keys : plain_checks vm -> forall sigs,
  exists b, multisig_loop script keys sigs vm = (vm, Ok b) /\
    (b = true <-> signed_in_order (sig_ok vm script) keys sigs).
Proof.
  intros P. induction keys as [|k keys IH]; intros [|s sigs]; cbn [multisig_loop];
    try (exists true; split; [done|split; [intros _; constructor|done]]).
  - exists false. split; [done|]. split; [done|]. intros S. apply sio_length in S. rewrite len_cons, len_nil in S.
    pose proof (len_nonneg sigs). lia.
  - destruct (Z.ltb_spec (len (k :: keys)) (len (s :: sigs))) as [L|L].
    { exists false. split; [done|]. split; [done|]. intros S. apply sio_length in S. lia. }
    destruct (len s =? 0) eqn:Z0.
    { destruct (IH (s :: sigs)) as (b & -> & B). exists b. split; [done|]. rewrite B. symmetry. apply sio_cons_bad.
      unfold sig_ok. now rewrite Z0. }
    pose proof (split_sig_range s) as R. destruct (pc_data _ P script _ R) as [data D].
    destruct (split_sig s) as [ht sb] eqn:Sp. simpl in D.
    rewrite (bind_ok _ _ _ _ _ (checkHashType_plain vm ht (pc_strict _ P))).
    rewrite (bind_ok _ _ _ _ _ (signature_data_ok vm script ht data D)).
    rewrite (bind_ok _ _ _ _ _ (verify_uncached vm k sb data (pc_cache _ P))).
    assert (O : sig_ok vm script k s = Verify k sb data) by (unfold sig_ok; rewrite Z0, Sp; simpl; now rewrite D).
    destruct (Verify k sb data).
    + destruct (IH sigs) as (b & -> & B). exists b. split; [done|]. rewrite B. symmetry. by apply sio_cons_ok.
    + destruct (IH (s :: sigs)) as (b & -> & B). exists b. split; [done|]. rewrite B. symmetry. by apply sio_cons_bad.
Qed.

(** With a signature cache the answer lies between two bounds: signatures that verify are
    accepted, and what is accepted verifies or was in the cache at the start. *)
Definition sig_believed (c : option SigCache) (vm : Engine) (script : list parsedOpcode) (key sig : bytes) : bool :=
  negb (len sig =? 0) &&
  match calcSignatureData env_keccakHash script (split_sig sig).1 (tx vm) (msgIdx vm) (txIdx vm) with
  | Ok data => accepts c key (split_sig sig).2 data
  | _ => false
  end.

Lemma accepts_cached c k s data k' s' data' : k' <> k ->
  accepts (cached c k s data) k' s' data' = true -> accepts c k' s' data' = true.
Proof.
  intros N. destruct c as [c|]; [|done]. unfold cached. destruct (negb _ && _); [|done]. unfold accepts.
  intros X. apply orb_true_iff in X as [X|X]; [|by rewrite X, orb_true_r].
  unfold Exists in *. apply bool_decide_eq_true_1, Add_mem in X as [X|X]; [by injection X|].
  by rewrite bool_decide_eq_true_2.
Qed.

Lemma multisig_loop_bounds vm script keys : NoDup keys -> hasFlag vm ScriptVerifyStrictEncoding = false ->
  (forall script ht, 0 <= ht < 256 ->
    exists data, calcSignatureData env_keccakHash script ht (tx vm) (msgIdx vm) (txIdx vm) = Ok data) ->
  forall sigs c, exists b c', multisig_loop script keys sigs (set_sigCache c vm) = (set_sigCache c' vm, Ok b) /\
    (signed_in_order (sig_ok vm script) keys sigs -> b = true) /\
    (b = true -> signed_in_order (sig_believed c vm script) keys sigs).
Proof.
  intros ND F D. induction ND as [|k keys Nk _ IH]; intros [|s sigs] c; cbn [multisig_loop];
    try (exists true, c; split_and!; [done|done|intros _; constructor]).
  - exists false, c. split_and!; [done| |done]. intros S. apply sio_length in S. rewrite len_cons, len_nil in S.
    pose proof (len_nonneg sigs). lia.
  - destruct (Z.ltb_spec (len (k :: keys)) (len (s :: sigs))) as [L|L].
    { exists false, c. split_and!; [done| |done]. intros S. apply sio_length in S. lia. }
    destruct (len s =? 0) eqn:Z0.
    { destruct (IH (s :: sigs) c) as (b & c' & -> & Lo & Up). exists b, c'. split_and!; [done| |].
      - rewrite sio_cons_bad; [done|]. unfold sig_ok. now rewrite Z0.
      - intros B. apply sio_skip. auto. }
    destruct (D script _ (split_sig_range s)) as [data Ds]. destruct (split_sig s) as [ht sb] eqn:Sp. simpl in Ds.
    set (v := set_sigCache c vm).
    rewrite (bind_ok _ _ _ _ _ (checkHashType_plain v ht F)), (bind_ok _ _ _ _ _ (signature_data_ok v script ht data Ds)),
      (bind_ok _ _ _ _ _ (verify_cached_eq v k sb data)).
    change (sigCache v) with c. change (set_sigCache ?x v) with (set_sigCache x vm).
    assert (O : sig_ok vm script k s = Verify k sb data) by (unfold sig_ok; rewrite Z0, Sp; simpl; now rewrite Ds).
    assert (Be : sig_believed c vm script k s = accepts c k sb data) by (unfold sig_believed; rewrite Z0, Sp; simpl; now rewrite Ds).
    assert (Mo : forall l, signed_in_order (sig_believed (cached c k sb data) vm script) keys l ->
                 signed_in_order (sig_believed c vm script) keys l).
    { intros l. apply sio_impl. intros k' s' K. unfold sig_believed. destruct (negb (len s' =? 0)); [|done].
      cbn [andb]. destruct (calcSignatureData _ _ (split_sig s').1 _ _ _); try done. apply accepts_cached. intros ->. done. }
    destruct (accepts c k sb data) eqn:A.
    + destruct (IH sigs (cached c k sb data)) as (b & c' & -> & Lo & Up). exists b, c'. split_and!; [done| |].
      * intros S. apply Lo. inversion S; subst; [done|]. by eapply sio_drop.
      * intros B. apply sio_take; [congruence|auto].
    + destruct (IH (s :: sigs) (cached c k sb data)) as (b & c' & -> & Lo & Up). exists b, c'. split_and!; [done| |].
      * rewrite sio_cons_bad; [done|]. rewrite O. destruct (Verify k sb data) eqn:V; [|done].
        apply (accepts_verified c) in V. congruence.
      * intros B. apply sio_skip. auto.
Qed.

(** *** The stack of OP_CHECKMULTISIG *)

Lemma pop_many_spec (l a : list bytes) vm : stk (dstack vm) = a ++ rev l -> fits (dstack vm) ->
  pop_many (length l) vm = (set_dstack (set_stk a (dstack vm)) vm, Ok l).
Proof.
  revert vm. induction l as [|x l IH]; intros vm E F; cbn [pop_many length].
  - simpl in E. rewrite app_nil_r in E. unfold ret. rewrite <- E, set_stk_stk. by destruct vm.
  - simpl in E. rewrite app_assoc in E. set (vm1 := set_dstack (set_stk (a ++ rev l) (dstack vm)) vm).
    rewrite (bind_ok _ _ vm vm1 x) by (unfold on_d, focus; by rewrite (PopByteArray_snoc _ _ _ E F)).
    assert (F1 : fits (dstack vm1)) by (unfold fits in *; rewrite E, len_app in F; simpl; pose proof (len_nonneg [x]); lia).
    by rewrite (bind_ok _ _ vm1 _ l (IH vm1 eq_refl F1)).
Qed.

Lemma on_d_PopInt vm a n v : stk (dstack vm) = a ++ [v] -> Bytes n = Ok v -> - (2 ^ 31 - 1) <= n <= 2 ^ 31 - 1 ->
  fits (dstack vm) -> on_d PopInt vm = (set_dstack (set_stk a (dstack vm)) vm, Ok n).
Proof. intros E B R F. unfold on_d, focus. by rewrite (PopInt_snoc _ a n v). Qed.

Lemma on_d_Pop vm a x : stk (dstack vm) = a ++ [x] -> fits (dstack vm) ->
  on_d PopByteArray vm = (set_dstack (set_stk a (dstack vm)) vm, Ok x).
Proof. intros E F. unfold on_d, focus. by rewrite (PopByteArray_snoc _ a x). Qed.

(** The script a signature covers: the current one from the last code separator on. *)
Definition signed_script (vm : Engine) : list parsedOpcode :=
  slice (current_script vm) (lastCodeSep vm) (len (current_script vm)).

Lemma subScript_ok vm : located vm -> subScript vm = (vm, Ok (signed_script vm)).
Proof.
  intros Lc. pose proof (located_script _ Lc) as Cur. destruct Lc as (_ & S & O). unfold subScript, bind, gets, get.
  rewrite Cur. unfold ret, lift, slice_at.
  replace ((0 <=? lastCodeSep vm) && (lastCodeSep vm <=? len (current_script vm)) &&
           (len (current_script vm) <=? len (current_script vm))) with true by (bdestruct; done). done.
Qed.

Lemma small_int32 n : 0 <= n <= 20 -> Int32 n = n.
Proof. intros R. unfold Int32, maxInt32, minInt32. bdestruct; try (apply int32_small); lia. Qed.

(** The state in which the signatures are checked: the operands popped, the keys counted. *)
Definition multisig_state (a : list bytes) (n : Z) (vm : Engine) : Engine :=
  set_dstack (set_stk a (dstack vm)) (set_numOps (numOps vm + n) vm).

Lemma CheckMultiSig_operands op vm a keys sigs nb mb :
  stk (dstack vm) = (((a ++ [[]]) ++ rev sigs) ++ [mb]) ++ rev keys ++ [nb] -> fits (dstack vm) ->
  Bytes (len keys) = Ok nb -> Bytes (len sigs) = Ok mb ->
  len keys <= MaxPubKeysPerMultiSig -> len sigs <= len keys -> numOps vm + len keys <= MaxOpsPerScript ->
  opcodeCheckMultiSig op vm =
  (let! script := subScript in
   let! success := multisig_loop (fold_left removeOpcodeByData sigs script) keys sigs in
   on_d (PushBool success)) (multisig_state a (len keys) vm).
Proof.
  intros E F Bn Bm K M O. rewrite app_assoc in E.
  unfold MaxPubKeysPerMultiSig in K. pose proof (len_nonneg keys). pose proof (len_nonneg sigs).
  assert (Fit : forall l k, stk (dstack vm) = l ++ k -> fits (set_stk l (dstack vm))).
  { intros l k El. unfold fits in *. rewrite El, len_app in F. pose proof (len_nonneg k). simpl. lia. }
  unfold opcodeCheckMultiSig.
  rewrite (bind_ok _ _ _ _ _ (on_d_PopInt vm _ (len keys) nb E Bn ltac:(lia) F)).
  rewrite small_int32 by lia. replace ((len keys <? 0) || (MaxPubKeysPerMultiSig <? len keys)) with false
    by (unfold MaxPubKeysPerMultiSig; bdestruct; done).
  match goal with |- bind (modify ?f) _ ?v = _ => rewrite (bind_ok (modify f) _ v (f v) tt eq_refl) end.
  match goal with |- bind (gets ?f) _ ?v = _ => rewrite (bind_ok (gets f) _ v v (f v) eq_refl) end.
  cbn [numOps set_numOps set_dstack]. replace (MaxOpsPerScript <? numOps vm + len keys) with false by lia.
  replace (Z.to_nat (len keys)) with (length keys) by (unfold len; lia).
  match goal with |- bind ?m _ ?v = _ => rewrite (bind_ok m _ v _ _ (pop_many_spec keys _ v eq_refl (Fit _ _ E))) end. rewrite <- app_assoc in E.
  match goal with |- bind ?m _ ?v = _ => rewrite (bind_ok m _ v _ _ (on_d_PopInt v _ (len sigs) mb eq_refl Bm ltac:(lia) (Fit _ _ E))) end. rewrite <- app_assoc in E.
  rewrite small_int32 by lia. replace (len sigs <? 0) with false by lia. replace (len keys <? len sigs) with false by lia.
  replace (Z.to_nat (len sigs)) with (length sigs) by (unfold len; lia).
  match goal with |- bind ?m _ ?v = _ => rewrite (bind_ok m _ v _ _ (pop_many_spec sigs _ v eq_refl (Fit _ _ E))) end. rewrite <- app_assoc in E.
  match goal with |- bind ?m _ ?v = _ => rewrite (bind_ok m _ v _ _ (on_d_Pop v _ [] eq_refl (Fit _ _ E))) end.
  match goal with |- bind (gets ?f) _ ?v = _ => rewrite (bind_ok (gets f) _ v v (f v) eq_refl) end.
  change (len (@nil byte) =? 0) with true. cbn [negb]. rewrite andb_false_r. reflexivity.
Qed.

Lemma plain_multisig_state a n vm : plain_checks vm -> plain_checks (multisig_state a n vm).
Proof. by intros []. Qed.
Lemma located_multisig_state a n vm : located vm -> located (multisig_state a n vm).
Proof. done. Qed.
End Checks.

(** ** Properties *)

(** C17: On an engine without signature cache and without strict encoding checks, OP_CHECKMULTISIG pushes true exactly when the signatures can be assigned, in order, to
    public keys that verify them; it consumes its operands, charges one operation for each key,
    and pushes false otherwise.  The keys and signatures are listed from the top of the stack;
    the signed script is the current one without the signatures themselves. *)
Theorem CheckMultiSig_spec `{ScriptEnv} (op : parsedOpcode) (vm : Engine) (a keys sigs : list bytes) (nb mb : bytes) :
  stk (dstack vm) = (((a ++ [[]]) ++ rev sigs) ++ [mb]) ++ rev keys ++ [nb] -> fits (dstack vm) ->
  Bytes (len keys) = Ok nb -> Bytes (len sigs) = Ok mb ->
  len keys <= MaxPubKeysPerMultiSig -> len sigs <= len keys -> numOps vm + len keys <= MaxOpsPerScript ->
  located vm -> plain_checks vm ->
  exists b, opcodeCheckMultiSig op vm =
      (set_dstack (set_stk (a ++ [fromBool b]) (dstack vm)) (set_numOps (numOps vm + len keys) vm), Ok tt) /\
    (b = true <->
     signed_in_order (sig_ok vm (fold_left removeOpcodeByData sigs (signed_script vm))) keys sigs).
Proof.
  intros E F Bn Bm K M O Lc P. rewrite (CheckMultiSig_operands op vm a keys sigs nb mb) by done.
  set (vm1 := multisig_state a (len keys) vm).
  rewrite (bind_ok _ _ _ _ _ (subScript_ok vm1 (located_multisig_state _ _ _ Lc))).
  destruct (multisig_loop_spec vm1 (fold_left removeOpcodeByData sigs (signed_script vm1)) keys
              (plain_multisig_state _ _ _ P) sigs) as (b & L & B).
  rewrite (bind_ok _ _ _ _ _ L). exists b. split; [reflexivity|exact B].
Qed.

(** A two-of-two check for the witness: the key is the first byte of its signature. *)
Definition multisig_vm : Engine :=
  mkEngine sample_tx (mkStack [[]; [x0b; x77; x01]; [x0a; x01]; [x02]; [x0b]; [x0c]; [x0a]; [x03]] true) (newStack true)
    [[]; [plain OP_CHECKMULTISIG]] [] [] 1 0 0 0 0 1 None StandardVerifyExcludeSignFlags false false.

Lemma multisig_vm_plain : plain_checks (H := sample_env) multisig_vm.
Proof.
  constructor; [reflexivity|reflexivity|]. intros script ht _.
  assert (En : encodable_tx (L := digit_lib) (txdata sample_tx)).
  { apply one_payment_encodable. constructor; [discriminate | constructor]. }
  apply (calcSignatureData_ok (L := digit_lib) (LL := digit_laws) (fun b => take 32 b) script ht sample_tx 0 0
    (mkMessage APP_PAYMENT (Some (PayPayment sample_payment))) sample_payment);
    try done; try (intros ?; discriminate).
  eexists. split; [reflexivity|]. split; [reflexivity|]. constructor; [discriminate|constructor].
Qed.

Lemma CheckMultiSig_spec_witness :
  exists b, opcodeCheckMultiSig (H := sample_env) (plain OP_CHECKMULTISIG) multisig_vm =
    (set_dstack (mkStack [fromBool b] true) (set_numOps 4 multisig_vm), Ok tt).
Proof.
  destruct (CheckMultiSig_spec (H := sample_env) (plain OP_CHECKMULTISIG) multisig_vm []
    [[x0a]; [x0c]; [x0b]] [[x0a; x01]; [x0b; x77; x01]] [x03] [x02]) as (b & E & _);
    try reflexivity; try (vm_compute; congruence).
  - unfold located. vm_compute. intuition congruence.
  - exact multisig_vm_plain.
  - exists b. exact E.
Defined.

(** The signature cache does not look at what was signed.  Once a signature by a key has
    been verified over some data and cached, the engine accepts the same signature and key over
    any other data, whether or not it verifies: the key of the cache is made by copying the data
    into a nil slice, which copies nothing.  (The cache is meant to answer for a signature over
    the same data only.) *)
Theorem sigcache_replay `{ScriptEnv} (vm : Engine) (cache : SigCache) (pk sig data other : bytes) :
  sigCache vm = Some cache -> Verify pk sig data = true ->
  0 < maxEntries cache -> Count cache < maxEntries cache ->
  exists vm', verify_cached pk sig data vm = (vm', Ok true) /\ verify_cached pk sig other vm' = (vm', Ok true).
Proof.
  intros C V M N. unfold verify_cached, bind, gets. rewrite C, copy_nil.
  destruct (Exists cache [] sig pk) eqn:X.
  - exists vm. unfold ret. by rewrite C, copy_nil, X.
  - rewrite V. unfold modify, ret. eexists. split; [reflexivity|]. simpl. rewrite copy_nil.
    unfold Add. unfold Count in N. replace (maxEntries cache <=? 0) with false by lia.
    replace (maxEntries cache <? Z.of_nat (base.size (validSigs cache)) + 1) with false by lia.
    unfold Exists. simpl. by rewrite bool_decide_true by set_solver.
Qed.
Lemma sigcache_replay_witness :
  exists vm', verify_cached (H := sample_env) [x0a] [x0a; x0b] [x01]
      (set_sigCache (Some (NewSigCache 20000)) multisig_vm) = (vm', Ok true) /\
    verify_cached (H := sample_env) [x0a] [x0a; x0b] [x02] vm' = (vm', Ok true).
Proof.
  apply (sigcache_replay (H := sample_env) _ (NewSigCache 20000) [x0a] [x0a; x0b] [x01] [x02]); vm_compute; congruence.
Defined.
