(* ===== verification/Steps.v ===== *)
(** Running concrete scripts: the effect of one opcode ([exec_push], [exec_op]), of one step
    ([step_on], [step_end]) and of the change from one script to the next ([next_plain],
    [next_first], [next_redeem]), for engines described by [spot]; and the verdict of a run from
    the verdict of its continuation ([executes]). *)

From Stdlib Require Import ZArith Lia.
From S2P Require Import Prelude Errors ScriptNum Stack Opcode Script Builder Address Standard Tx RlpModel TxProps SigHash SigCache Engine EngineInv EngineRun EngineProps SigCheck.

Definition push_on (x : bytes) (vm : Engine) : Engine :=
  set_dstack (set_stk (stk (dstack vm) ++ [x]) (dstack vm)) vm.

(** ** One opcode *)

Lemma push_not_illegal b data : b2z b <= b2z OP_16 ->
  isDisabled (mkPop (opcodeArray b) data) = false /\ alwaysIllegal (mkPop (opcodeArray b) data) = false.
Proof. intros L. destruct b; try (exfalso; vm_compute in L; by apply L); done. Qed.

Lemma pop_value_mk b data : pop_value (mkPop (opcodeArray b) data) = b.
Proof. unfold pop_value; simpl. apply opcodeArray_value. Qed.

Section Ops.
Context `{ScriptEnv}.

Lemma push_handler b data vm : b2z b <= b2z OP_16 -> b <> OP_RESERVED ->
  opfunc_run (op_func (opcodeArray b)) (mkPop (opcodeArray b) data) vm =
  (push_on (pushed_value (mkPop (opcodeArray b) data)) vm, Ok tt).
Proof. intros L N. destruct b; try (exfalso; vm_compute in L; by apply L); done. Qed.

(** A push opcode puts its value on the stack, if it is minimal where the engine asks for it. *)
Lemma exec_push pop vm : from_table pop -> b2z (pop_value pop) <= b2z OP_16 -> pop_value pop <> OP_RESERVED ->
  len (pop_data pop) <= MaxScriptElementSize ->
  (b2z (pop_value pop) <= b2z OP_PUSHDATA4 -> checkMinimalDataPush pop = None) -> condStack vm = [] ->
  executeOpcode pop vm = (push_on (pushed_value pop) vm, Ok tt).
Proof.
  intros T L N D M C. destruct pop as [o data]. assert (exists b, o = opcodeArray b) as [b ->] by by eexists.
  rewrite pop_value_mk in *. simpl in D. destruct (push_not_illegal b data L) as [I1 I2].
  unfold executeOpcode. rewrite I1, I2, pop_value_mk.
  replace (blt OP_16 b) with false by (unfold blt; symmetry; apply Z.ltb_ge; done).
  replace (MaxScriptElementSize <? len (pop_data (mkPop (opcodeArray b) data))) with false by (simpl; lia).
  rewrite (bind_ok (ret tt) _ vm vm tt eq_refl), (bind_ok (gets _) _ vm vm vm eq_refl).
  replace (isBranchExecuting vm) with true by (unfold isBranchExecuting; now rewrite C). cbn [negb andb].
  erewrite (bind_ok _ _ vm vm tt); [by apply push_handler|].
  destruct (verifyMinimalData (dstack vm) && true && ble b OP_PUSHDATA4) eqn:B; [|done].
  apply andb_true_iff in B as [_ B]. rewrite M by (by apply Z.leb_le). done.
Qed.

(** Any other opcode that runs: it is counted, then its handler decides. *)
Lemma exec_op b vm : isDisabled (plain b) = false -> alwaysIllegal (plain b) = false -> blt OP_16 b = true ->
  condStack vm = [] -> numOps vm < MaxOpsPerScript ->
  executeOpcode (plain b) vm =
  opfunc_run (op_func (opcodeArray b)) (plain b) (set_numOps (numOps vm + 1) vm).
Proof.
  intros D A G C N. unfold executeOpcode. rewrite D, A.
  unfold plain. rewrite pop_value_mk, G. fold (plain b).
  set (vm1 := set_numOps (numOps vm + 1) vm).
  rewrite (bind_ok _ _ vm vm1 tt).
  2:{ unfold bind, modify, gets. change (numOps (set_numOps (numOps vm + 1) vm)) with (numOps vm + 1).
      replace (MaxOpsPerScript <? numOps vm + 1) with false by lia. done. }
  rewrite (bind_ok (gets _) _ vm1 vm1 vm1 eq_refl).
  replace (isBranchExecuting vm1) with true by (unfold isBranchExecuting; simpl; now rewrite C). cbn [negb andb].
  replace (ble b OP_PUSHDATA4) with false.
  2:{ unfold blt, ble in *. apply Z.ltb_lt in G. change (b2z OP_16) with 96 in G. change (b2z OP_PUSHDATA4) with 78. lia. }
  rewrite andb_false_r. by rewrite (bind_ok (ret tt) _ vm1 vm1 tt eq_refl).
Qed.
(** ** One step *)

Lemma validPC_ok vm pop : located vm -> index (current_script vm) (scriptOff vm) = Some pop -> validPC vm = (vm, Ok tt).
Proof.
  intros Lc X. assert (Rg : ~ (index (current_script vm) (scriptOff vm) = None)) by congruence.
  rewrite index_None in Rg. unfold validPC. pose proof (located_script _ Lc) as Cur. destruct Lc as ((I1 & I2) & _).
  rewrite (bind_ok (gets _) _ vm vm vm eq_refl), (proj2 (Z.leb_gt _ _) I2), Cur.
  rewrite (bind_ok (get (Some _)) _ vm vm (current_script vm) eq_refl).
  rewrite (proj2 (Z.leb_gt _ _)) by lia. done.
Qed.

Lemma Step_exec vm pop vm1 : located vm -> index (current_script vm) (scriptOff vm) = Some pop ->
  executeOpcode pop vm = (vm1, Ok tt) -> scriptOff vm1 = scriptOff vm -> current_script vm1 = current_script vm ->
  height vm1 <= maxStackSize ->
  Step vm = (let vm2 := set_scriptOff (scriptOff vm + 1) vm1 in
             if len (current_script vm) <=? scriptOff vm + 1 then next_script vm2 else (vm2, Ok false)).
Proof.
  intros Lc X E O Cu Hh. unfold Step.
  rewrite (bind_ok _ _ _ _ _ (validPC_ok vm pop Lc X)), (bind_ok (gets _) _ vm vm vm eq_refl), X.
  rewrite (bind_ok (get (Some pop)) _ vm vm pop eq_refl).
  rewrite (bind_ok _ _ _ _ _ E), (bind_ok (gets _) _ vm1 vm1 vm1 eq_refl).
  replace (maxStackSize <? int32 (Depth (dstack vm1) + Depth (astack vm1))) with false.
  2:{ unfold height, Depth, maxStackSize in *. pose proof (len_nonneg (stk (dstack vm1))).
      pose proof (len_nonneg (stk (astack vm1))).
      rewrite (int32_small (len (stk (dstack vm1)))), (int32_small (len (stk (astack vm1)))), int32_small; lia. }
  rewrite (bind_ok (modify (fun v => set_scriptOff (scriptOff v + 1) v)) _ vm1 (set_scriptOff (scriptOff vm1 + 1) vm1) tt eq_refl).
  rewrite O. set (vm2 := set_scriptOff (scriptOff vm + 1) vm1). rewrite (bind_ok (gets _) _ vm2 vm2 vm2 eq_refl).
  change (current_script vm2) with (current_script vm1). rewrite Cu.
  change (scriptOff vm2) with (scriptOff vm + 1). by destruct (_ <=? _).
Qed.

(** *** Engines at a given place *)

Section Spots.
Variables (t : Transaction) (m i : Z) (fs : Z) (b16 p2 : bool).

(** The engine in script [idx] of [ss] at opcode [off], with [ops] operations counted, [d] on the
    stack, the signature cache [c] and [sv] saved from the first script. *)
Definition spot (ss : list (list parsedOpcode)) (sv : list bytes) (c : option SigCache) (idx off ops : Z)
    (d : list bytes) : Engine :=
  mkEngine t (mkStack d true) (newStack true) ss [] sv idx off 0 m i ops c fs b16 p2.

Lemma spot_current ss sv c idx off ops d s : index ss idx = Some s -> current_script (spot ss sv c idx off ops d) = s.
Proof. intros E. unfold current_script; simpl. by rewrite E. Qed.

Lemma spot_located ss sv c idx off ops d s : index ss idx = Some s -> 0 <= off <= len s -> located (spot ss sv c idx off ops d).
Proof.
  intros E O. unfold located. rewrite (spot_current _ _ _ _ _ _ _ s) by done. simpl.
  assert (Q : index ss idx <> None) by congruence. rewrite index_None in Q. lia.
Qed.

Lemma spot_step ss sv c idx off ops d s pop c' ops' d' : index ss idx = Some s -> index s off = Some pop ->
  len d' <= maxStackSize -> executeOpcode pop (spot ss sv c idx off ops d) = (spot ss sv c' idx off ops' d', Ok tt) ->
  Step (spot ss sv c idx off ops d) =
  (if len s <=? off + 1 then next_script (spot ss sv c' idx (off + 1) ops' d')
   else (spot ss sv c' idx (off + 1) ops' d', Ok false)).
Proof.
  intros E X D Ex. assert (Q : index s off <> None) by congruence. rewrite index_None in Q.
  rewrite (Step_exec _ pop (spot ss sv c' idx off ops' d')); rewrite ?(spot_current _ _ _ _ _ _ _ s); try done.
  - by apply (spot_located _ _ _ _ _ _ _ s); [|lia].
  - unfold height; simpl. rewrite len_nil. lia.
Qed.

(** An opcode that is not the last of its script ... *)
Lemma step_on ss sv c idx off ops d s pop c' off' ops' d' : off' = off + 1 -> index ss idx = Some s ->
  index s off = Some pop -> off' < len s -> len d' <= maxStackSize ->
  executeOpcode pop (spot ss sv c idx off ops d) = (spot ss sv c' idx off ops' d', Ok tt) ->
  Step (spot ss sv c idx off ops d) = (spot ss sv c' idx off' ops' d', Ok false).
Proof.
  intros -> E X L D Ex. rewrite (spot_step _ _ _ _ _ _ _ s pop c' ops' d') by done.
  by rewrite (proj2 (Z.leb_gt _ _)).
Qed.

(** ... and the last one. *)
Lemma step_end ss sv c idx off ops d s pop c' ops' d' : index ss idx = Some s -> index s off = Some pop ->
  off + 1 = len s -> len d' <= maxStackSize ->
  executeOpcode pop (spot ss sv c idx off ops d) = (spot ss sv c' idx off ops' d', Ok tt) ->
  Step (spot ss sv c idx off ops d) = next_script (spot ss sv c' idx (off + 1) ops' d').
Proof.
  intros E X L D Ex. rewrite (spot_step _ _ _ _ _ _ _ s pop c' ops' d') by done.
  by rewrite (proj2 (Z.leb_le _ _)) by lia.
Qed.

(** A step that fails, or panics, ends the run. *)
Lemma spot_exec ss sv c idx off ops d s pop : index ss idx = Some s -> index s off = Some pop ->
  Step (spot ss sv c idx off ops d) =
  (executeOpcode pop ;;;
   let! vm := gets (fun vm => vm) in
   if maxStackSize <? int32 (Depth (dstack vm) + Depth (astack vm)) then throw ErrStackOverflow
   else
     modify (fun vm => set_scriptOff (scriptOff vm + 1) vm) ;;;
     let! vm := gets (fun vm => vm) in
     if len (current_script vm) <=? scriptOff vm then next_script else ret false) (spot ss sv c idx off ops d).
Proof.
  intros E X. set (vm := spot ss sv c idx off ops d) in *.
  assert (Q : index s off <> None) by congruence. rewrite index_None in Q.
  assert (X' : index (current_script vm) (scriptOff vm) = Some pop) by (unfold vm; by rewrite (spot_current _ _ _ _ _ _ _ s)).
  assert (Lc : located vm) by (apply (spot_located _ _ _ _ _ _ _ s); [done|lia]).
  unfold Step. rewrite (bind_ok _ _ _ _ _ (validPC_ok vm pop Lc X')).
  by rewrite (bind_ok (gets _) _ vm vm vm eq_refl), X', (bind_ok (get (Some pop)) _ vm vm pop eq_refl).
Qed.

Lemma step_err ss sv c idx off ops d s pop vm1 e : index ss idx = Some s -> index s off = Some pop ->
  executeOpcode pop (spot ss sv c idx off ops d) = (vm1, Err e) -> Step (spot ss sv c idx off ops d) = (vm1, Err e).
Proof. intros E X Ex. rewrite (spot_exec _ _ _ _ _ _ _ s pop) by done. by rewrite (bind_err _ _ _ _ _ Ex). Qed.
Lemma step_panic ss sv c idx off ops d s pop vm1 : index ss idx = Some s -> index s off = Some pop ->
  executeOpcode pop (spot ss sv c idx off ops d) = (vm1, Panic) -> Step (spot ss sv c idx off ops d) = (vm1, Panic).
Proof. intros E X Ex. rewrite (spot_exec _ _ _ _ _ _ _ s pop) by done. unfold bind at 1. by rewrite Ex. Qed.

(** *** From one script to the next *)

(** Into a script that has opcodes, past an empty one, and past the last one. *)
Lemma enter_full ss sv c idx d s : index ss idx = Some s -> 0 < len s ->
  enter_script (spot ss sv c idx 0 0 d) = (spot ss sv c idx 0 0 d, Ok false).
Proof.
  intros E L. assert (Q : index ss idx <> None) by congruence. rewrite index_None in Q.
  unfold enter_script, bind, modify, gets. rewrite (spot_current _ _ _ _ _ _ _ s) by done. simpl.
  replace (len s <=? 0) with false by lia. rewrite andb_false_r. simpl.
  by replace (len ss <=? idx) with false by lia.
Qed.
Lemma enter_over ss sv c idx d : index ss idx = Some [] ->
  enter_script (spot ss sv c idx 0 0 d) = (spot ss sv c (idx + 1) 0 0 d, Ok (len ss <=? idx + 1)).
Proof.
  intros E. assert (Q : index ss idx <> None) by congruence. rewrite index_None in Q.
  unfold enter_script, bind, modify, gets. rewrite (spot_current _ _ _ _ _ _ _ []) by done. simpl.
  by replace (idx <? len ss) with true by lia.
Qed.
Lemma enter_done ss sv c idx d : idx = len ss ->
  enter_script (spot ss sv c idx 0 0 d) = (spot ss sv c idx 0 0 d, Ok true).
Proof.
  intros ->. unfold enter_script, bind, modify, gets. simpl. rewrite Z.ltb_irrefl. simpl. by rewrite Z.leb_refl.
Qed.

Lemma next_plain ss sv c idx off ops d : 0 <= idx -> b16 || p2 = false \/ 2 <= idx ->
  next_script (spot ss sv c idx off ops d) = enter_script (spot ss sv c (idx + 1) 0 0 d).
Proof.
  intros I D. rewrite next_script_eq by done. unfold select_script.
  rewrite (bind_ok _ _ (fresh (spot ss sv c idx off ops d)) (spot ss sv c (idx + 1) 0 0 d) tt); [done|].
  unfold bind, gets, modify. simpl. destruct D as [-> |]; [by rewrite !andb_false_r|].
  by replace (idx =? 0) with false by lia; replace (idx =? 1) with false by lia.
Qed.

(** Under the redeem convention the stack of the unlock script is kept ... *)
Lemma next_first ss sv c off ops d : b16 || p2 = true -> len d <= maxStackSize ->
  next_script (spot ss sv c 0 off ops d) = enter_script (spot ss d c 1 0 0 d).
Proof.
  intros R D. rewrite next_script_eq by done. unfold select_script.
  rewrite (bind_ok _ _ (fresh (spot ss sv c 0 off ops d)) (spot ss d c 1 0 0 d) tt); [done|].
  unfold bind, gets, modify. simpl. rewrite R. simpl. unfold set_saved, GetStack; simpl.
  rewrite getStack_spec by (unfold fits, maxStackSize in *; simpl; lia). done.
Qed.

(** The test at the end of a script: the top of the stack decides. *)
Lemma check_cond fin vm a x : len (scripts vm) <= scriptIdx vm -> stk (dstack vm) = a ++ [x] -> fits (dstack vm) ->
  fin && hasFlag vm ScriptVerifyCleanStack = false \/ a = [] ->
  CheckErrorCondition fin vm =
  (set_dstack (set_stk a (dstack vm)) vm, if asBool x then Ok tt else Err ErrStackScriptFailed).
Proof.
  intros I S F C. unfold CheckErrorCondition. rewrite (bind_ok (gets _) _ vm vm vm eq_refl).
  replace (scriptIdx vm <? len (scripts vm)) with false by lia.
  assert (D : Depth (dstack vm) = len a + 1).
  { unfold Depth, fits in *. rewrite S in *. rewrite len_app, len_cons, len_nil in *. rewrite int32_small; pose proof (len_nonneg a); lia. }
  rewrite D. replace (fin && _ && negb (len a + 1 =? 1)) with false.
  2:{ destruct C as [-> | ->]; [done|]. by rewrite andb_false_r. }
  pose proof (len_nonneg a). replace (len a + 1 <? 1) with false by lia.
  set (vm1 := set_dstack _ _).
  rewrite (bind_ok _ _ vm vm1 (asBool x)) by (unfold on_d, focus, PopBool, bind; by rewrite (PopByteArray_snoc _ a x)).
  destruct (asBool x); [done|]. cbn [negb].
  rewrite (bind_ok _ _ _ _ _ (ignore_Disasm 0 vm1 ltac:(lia))).
  by rewrite (bind_ok _ _ _ _ _ (ignore_Disasm 1 vm1 ltac:(lia))).
Qed.

(** ... and its last item is the next script, if the lock script has accepted it. *)
Lemma next_redeem s0 s1 items R c off ops d x : b16 || p2 = true -> len (items ++ [R]) <= maxStackSize ->
  len (d ++ [x]) <= maxStackSize ->
  next_script (spot [s0; s1] (items ++ [R]) c 1 off ops (d ++ [x])) =
    if asBool x then
      match parseScript R with
      | (_, Some e) => (spot [s0; s1] (items ++ [R]) c 2 0 0 d, Err e)
      | (pops, None) => enter_script (spot [s0; s1; pops] (items ++ [R]) c 2 0 0 items)
      end
    else (spot [s0; s1] (items ++ [R]) c 2 0 0 d, Err ErrStackScriptFailed).
Proof.
  intros Rd Li D. rewrite next_script_eq by done. unfold select_script.
  set (vm := fresh _). unfold bind at 1. rewrite (bind_ok (gets _) _ vm vm vm eq_refl).
  change (scriptIdx vm) with 1. change (bip16 vm || p2ch vm) with (b16 || p2). rewrite Rd. cbn [Z.eqb Pos.eqb andb].
  set (vm1 := spot [s0; s1] (items ++ [R]) c 2 0 0 (d ++ [x])).
  match goal with |- context [bind (modify ?f) _ vm] => rewrite (bind_ok (modify f) _ vm vm1 tt eq_refl) end.
  pose proof (check_cond false vm1 d x ltac:(done) eq_refl ltac:(unfold fits, maxStackSize in *; simpl; lia) (or_introl eq_refl)) as C.
  destruct (asBool x); [|by rewrite (bind_err _ _ _ _ _ C)].
  rewrite (bind_ok _ _ _ _ _ C).
  rewrite (bind_ok (gets _) _ _ (spot [s0; s1] (items ++ [R]) c 2 0 0 d) (items ++ [R]) eq_refl).
  rewrite len_app, len_cons, len_nil, index_middle by lia.
  rewrite (bind_ok (get (Some R)) _ (spot [s0; s1] (items ++ [R]) c 2 0 0 d) (spot [s0; s1] (items ++ [R]) c 2 0 0 d) R eq_refl).
  destruct (parseScript R) as [pops [e|]]; [done|]. unfold bind, modify.
  unfold set_scripts_, SetStack, set_dstack, spot. simpl. rewrite setStack_spec.
  2:{ unfold fits, maxStackSize in *. simpl. rewrite !len_app, !len_cons, !len_nil in *. pose proof (len_nonneg d). lia. }
  rewrite slice_prefix by lia. done.
Qed.
End Spots.

(** ** Runs *)

(** [Execute], started in [vm] with enough fuel, ends in [v] with the verdict [r]. *)
Definition executes (vm v : Engine) (r : result error unit) : Prop := exists n, Execute_from n vm = (v, Some r).

Lemma run_loop_more n k : forall vm v r, run_loop n vm = (v, Some r) -> run_loop (n + k) vm = (v, Some r).
Proof.
  induction n as [|n IH]; intros vm v r; simpl; [done|]. destruct (Step vm) as [vm1 [[]|e|]]; try done. apply IH.
Qed.

Lemma Execute_from_more n k vm v r : Execute_from n vm = (v, Some r) -> Execute_from (n + k) vm = (v, Some r).
Proof.
  unfold Execute_from. destruct (run_loop n vm) as [v1 [r1|]] eqn:E; [|done].
  by rewrite (run_loop_more n k vm v1 r1 E).
Qed.

Lemma executes_det vm v r v' r' : executes vm v r -> executes vm v' r' -> v = v' /\ r = r'.
Proof.
  intros [n E] [n' E']. apply (Execute_from_more n n') in E. apply (Execute_from_more n' n) in E'.
  rewrite Nat.add_comm in E'. rewrite E in E'. by injection E'.
Qed.

(** The fuel of [Execute] is enough, so it finds the verdict. *)
Lemma Execute_executes pk t mIdx iIdx fs cache vm v r : NewEngine pk t mIdx iIdx fs cache = Ok vm ->
  executes vm v r -> Execute vm = (v, Some r).
Proof.
  intros N X. destruct (Execute_spec vm) as (v' & r' & E & _); [by eapply NewEngine_inv|by eapply NewEngine_start|].
  destruct (executes_det vm v r v' r' X) as [-> ->]; [|done]. by eexists.
Qed.

Lemma executes_step vm vm' v r : Step vm = (vm', Ok false) -> executes vm' v r -> executes vm v r.
Proof. intros E [n X]. exists (S n). revert X. unfold Execute_from. cbn [run_loop]. by rewrite E. Qed.
Lemma executes_done vm vm' v r : Step vm = (vm', Ok true) -> CheckErrorCondition true vm' = (v, r) -> executes vm v r.
Proof. intros E C. exists 1%nat. unfold Execute_from. cbn [run_loop]. by rewrite E, C. Qed.
Lemma executes_err vm vm' e : Step vm = (vm', Err e) -> executes vm vm' (Err e).
Proof. intros E. exists 1%nat. unfold Execute_from. cbn [run_loop]. by rewrite E. Qed.

(** What a step leads to. *)
Definition goes (o : Engine * result error bool) (v : Engine) (r : result error unit) : Prop :=
  match o with
  | (vm', Ok false) => executes vm' v r
  | (vm', Ok true) => CheckErrorCondition true vm' = (v, r)
  | (vm', Err e) => v = vm' /\ r = Err e
  | (vm', Panic) => v = vm' /\ r = Panic
  end.

Lemma executes_iff vm v r : executes vm v r <-> goes (Step vm) v r.
Proof.
  destruct (Step vm) as [vm' o] eqn:E. split.
  - intros [[|n] X]; [done|]. revert X. unfold Execute_from. cbn [run_loop]. rewrite E.
    destruct o as [[]|e|]; simpl; try (intros [= <- <-]; done).
    + destruct (CheckErrorCondition true vm'). by intros [= <- <-].
    + intros X. by exists n.
  - destruct o as [[]|e|]; simpl.
    + by apply executes_done.
    + by apply executes_step.
    + intros [-> ->]. by apply executes_err.
    + intros [-> ->]. exists 1%nat. unfold Execute_from. cbn [run_loop]. by rewrite E.
Qed.

Lemma Execute_iff pk t mIdx iIdx fs cache vm v r : NewEngine pk t mIdx iIdx fs cache = Ok vm ->
  Execute vm = (v, Some r) <-> executes vm v r.
Proof. intros N. split; [by eexists|by eapply Execute_executes]. Qed.
End Ops.
