(* ===== verification/Spend.v ===== *)
(** Standard spends: what [Execute] answers for the scripts the node makes. *)

From Stdlib Require Import ZArith Lia.
From S2P Require Import Prelude Errors ScriptNum Stack Opcode Script Builder Address Standard Tx RlpModel TxProps SigHash SigCache Engine EngineInv EngineRun EngineProps SigCheck Steps.

(** ** Pay to public key hash *)

(** What [NewEngine] makes of two scripts that load, with the flags of [ScriptValidate]. *)
Lemma NewEngine_load `{ScriptEnv} t m i mg p input lock s0 s1 c fs :
  index (Messages t) m = Some mg -> Payload mg = Some (PayPayment p) -> index (Inputs p) i = Some input ->
  fs = StandardVerifyExcludeSignFlags ->
  load_script (SignatureScript input) = Ok s0 -> load_script lock = Ok s1 ->
  NewEngine lock t m i fs c =
  if isScriptHash s1 && negb (isPushOnly s0) then Err ErrStackP2SHNonPushOnly
  else if isContractHash s1 && negb (isPushOnly s0) then Err ErrStackP2CHNonPushOnly
  else Ok (spot t m i fs (isScriptHash s1) (isContractHash s1) [s0; s1] [] c
             (if len (SignatureScript input) =? 0 then 1 else 0) 0 0 []).
Proof.
  intros Im Pm Ii -> L0 L1. assert (Q : index (Inputs p) i <> None) by congruence. rewrite index_None in Q.
  unfold NewEngine, message_at. rewrite Im. cbn [rget rbind]. unfold as_payment. rewrite Pm. cbn [rbind].
  replace ((i <? 0) || (len (Inputs p) <=? i)) with false by (bdestruct; done).
  rewrite Ii. cbn [rget rbind]. rewrite L0. cbn [rbind]. rewrite L1. reflexivity.
Qed.

Section P2PKH.
Context `{ScriptEnv}.

Lemma exec_push_data data vm : 2 <= len data <= 75 -> condStack vm = [] ->
  executeOpcode (push data) vm = (push_on data vm, Ok tt).
Proof.
  intros L C. assert (V : pop_value (push data) = z2b (len data)) by apply pop_value_mk.
  assert (B : b2z (z2b (len data)) = len data) by (rewrite b2z_z2b; apply Z.mod_small; lia).
  rewrite exec_push; try done.
  - rewrite <- (canonical_pop_push data L), canonical_pop_value; [done| |lia].
    intros ->. unfold len in L; simpl in L. lia.
  - apply from_table_mk.
  - rewrite V, B. change (b2z OP_16) with 96. lia.
  - rewrite V. intros E. apply (f_equal b2z) in E. rewrite B in E. change (b2z OP_RESERVED) with 80 in E. lia.
  - simpl. unfold MaxScriptElementSize. lia.
  - rewrite <- (canonical_pop_push data L). apply canonical_pop_minimal. lia.
Qed.

Variables (t : Transaction) (m i : Z) (h sig pk : bytes) (c : option SigCache).
Hypothesis Hh : len h = 20.
Hypothesis Hs : 2 <= len sig <= 75.
Hypothesis Hp : 2 <= len pk <= 75.

Definition unlock_pops : list parsedOpcode := [push sig; push pk].
Abbreviation fs := StandardVerifyExcludeSignFlags.
Abbreviation SS := [unlock_pops; p2pkh_pops h].
Abbreviation P := (spot t m i fs false false SS [] c).

Lemma unlock_load : load_script (concat (map encoding unlock_pops)) = Ok unlock_pops.
Proof.
  assert (Gu : Forall good_pop unlock_pops) by (repeat constructor; by (apply from_table_mk || (apply push_good; lia))).
  unfold load_script. rewrite parseScript_encoded by done. cbn [map concat unlock_pops].
  rewrite !encoding_push by lia. rewrite (proj2 (Z.ltb_ge _ _)); [done|].
  unfold maxScriptSize. rewrite !len_app, !len_cons, len_nil. lia.
Qed.

Lemma p2pkh_load : load_script (concat (map encoding (p2pkh_pops h))) = Ok (p2pkh_pops h).
Proof.
  destruct (lock_pops_good h Hh) as (G & _ & _). unfold load_script. rewrite parseScript_encoded by done.
  cbn [map concat p2pkh_pops]. rewrite !encoding_plain, encoding_push by (done || lia). rewrite (proj2 (Z.ltb_ge _ _)); [done|].
  unfold maxScriptSize. rewrite !len_app, !len_cons, !len_nil. lia.
Qed.

Lemma p2pkh_engine mg p input lock :
  index (Messages t) m = Some mg -> Payload mg = Some (PayPayment p) -> index (Inputs p) i = Some input ->
  SignatureScript input = concat (map encoding unlock_pops) -> payToPubKeyHashScript h = Ok lock ->
  NewEngine lock t m i fs c = Ok (P 0 0 0 []).
Proof.
  intros Im Pm Ii Ss Lk. rewrite payToPubKeyHashScript_ok in Lk by done. injection Lk as <-.
  rewrite (NewEngine_load _ _ _ _ _ _ _ _ _ _ _ Im Pm Ii eq_refl ltac:(rewrite Ss; apply unlock_load) p2pkh_load).
  assert (Ne : (len (SignatureScript input) =? 0) = false).
  { rewrite Ss. cbn [map concat unlock_pops]. rewrite encoding_push by lia. rewrite len_app, len_cons.
    pose proof (len_nonneg sig). match goal with |- (_ + len ?x =? 0) = _ => pose proof (len_nonneg x) end. lia. }
  rewrite Ne. reflexivity.
Qed.

(** The opcodes of the locking script. *)
Lemma p2pkh_dup : executeOpcode (plain OP_DUP) (P 1 0 0 [sig; pk]) = (P 1 0 1 [sig; pk; pk], Ok tt).
Proof. by rewrite exec_op. Qed.
Lemma p2pkh_hash : executeOpcode (plain OP_HASH160) (P 1 1 1 [sig; pk; pk]) = (P 1 1 2 [sig; pk; Hash160 pk], Ok tt).
Proof. by rewrite exec_op. Qed.
Lemma p2pkh_equal x : executeOpcode (plain OP_EQUALVERIFY) (P 1 3 2 [sig; pk; x; h]) =
  (P 1 3 3 [sig; pk], if bytes_equal h x then Ok tt else Err ErrStackVerifyFailed).
Proof.
  rewrite exec_op by done. change (opfunc_run _ ?op) with (opcodeEqual op ;;; opcodeVerify op).
  set (vm := set_numOps _ _).
  rewrite (bind_ok (opcodeEqual _) _ vm (P 1 3 3 [sig; pk; fromBool (bytes_equal h x)]) tt eq_refl).
  by destruct (bytes_equal h x).
Qed.

Variable data : bytes.
Hypothesis Hd : calcSignatureData env_keccakHash (removeOpcodeByData (p2pkh_pops h) sig) (split_sig sig).1 t m i = Ok data.
Abbreviation sb := (split_sig sig).2.
Abbreviation P' := (spot t m i fs false false SS [] (cached c pk sb data)).

Lemma p2pkh_checksig : executeOpcode (plain OP_CHECKSIG) (P 1 4 3 [sig; pk]) =
  (P' 1 4 4 [fromBool (accepts c pk sb data)], Ok tt).
Proof.
  rewrite exec_op by done. change (opfunc_run _ ?op) with (opcodeCheckSig op). unfold opcodeCheckSig.
  set (vm := set_numOps _ _).
  rewrite (bind_ok (on_d PopByteArray) _ vm (P 1 4 4 [sig]) pk eq_refl).
  rewrite (bind_ok (on_d PopByteArray) _ (P 1 4 4 [sig]) (P 1 4 4 []) sig eq_refl).
  replace (len sig <? 1) with false by lia. destruct (split_sig sig) as [ht sb'] eqn:Sp. simpl fst in *. simpl snd.
  set (v := P 1 4 4 []).
  rewrite (bind_ok (checkHashTypeEncoding _) _ v v tt eq_refl), (bind_ok (checkSignatureEncoding _) _ v v tt eq_refl),
    (bind_ok (checkPubKeyEncoding _) _ v v tt eq_refl).
  assert (Lc : located v) by (apply (spot_located _ _ _ _ _ _ _ _ _ _ _ _ _ (p2pkh_pops h)); [done|unfold len; simpl; lia]).
  rewrite (bind_ok _ _ _ _ _ (subScript_ok v Lc)). change (signed_script v) with (p2pkh_pops h). cbv zeta.
  rewrite (bind_ok _ _ _ _ _ (signature_data_ok v _ ht data Hd)).
  by rewrite (bind_ok _ _ _ _ _ (verify_cached_eq v pk sb' data)).
Qed.

(** The whole run. *)
Definition p2pkh_verdict : result error unit :=
  if bytes_equal h (Hash160 pk) then
    if accepts c pk sb data then Ok tt else Err ErrStackScriptFailed
  else Err ErrStackVerifyFailed.
Definition p2pkh_final : Engine := if bytes_equal h (Hash160 pk) then P' 2 0 0 [] else P 1 3 3 [sig; pk].

Lemma p2pkh_run : executes (P 0 0 0 []) p2pkh_final p2pkh_verdict.
Proof.
  eapply executes_step; [eapply (step_on _ _ _ _ _ _ _ _ _ _ _ _ _ unlock_pops (push sig) c 1 0 [sig]); try done; by apply exec_push_data|].
  eapply executes_step.
  { rewrite (step_end _ _ _ _ _ _ _ _ _ _ _ _ _ unlock_pops (push pk) c 0 [sig; pk]) by (done || by apply exec_push_data).
    rewrite next_plain by (done || auto). by apply (enter_full _ _ _ _ _ _ _ _ _ _ _ (p2pkh_pops h)). }
  eapply executes_step; [eapply (step_on _ _ _ _ _ _ _ _ _ _ _ _ _ (p2pkh_pops h) (plain OP_DUP) c 1 1 [sig; pk; pk]); try done; apply p2pkh_dup|].
  eapply executes_step; [eapply (step_on _ _ _ _ _ _ _ _ _ _ _ _ _ (p2pkh_pops h) (plain OP_HASH160) c 2 2 [sig; pk; Hash160 pk]); try done; apply p2pkh_hash|].
  eapply executes_step; [eapply (step_on _ _ _ _ _ _ _ _ _ _ _ _ _ (p2pkh_pops h) (push h) c 3 2 [sig; pk; Hash160 pk; h]); try done; apply exec_push_data; [lia|done]|].
  unfold p2pkh_verdict, p2pkh_final. pose proof (p2pkh_equal (Hash160 pk)) as E. destruct (bytes_equal h (Hash160 pk)).
  2:{ by eapply executes_err, (step_err _ _ _ _ _ _ _ _ _ _ _ _ _ (p2pkh_pops h) (plain OP_EQUALVERIFY)). }
  eapply executes_step; [by eapply (step_on _ _ _ _ _ _ _ _ _ _ _ _ _ (p2pkh_pops h) (plain OP_EQUALVERIFY) c 4 3 [sig; pk])|].
  eapply executes_done.
  - rewrite (step_end _ _ _ _ _ _ SS [] c 1 4 3 [sig; pk] (p2pkh_pops h) (plain OP_CHECKSIG) (cached c pk sb data) 4
      [fromBool (accepts c pk sb data)]) by (done || apply p2pkh_checksig).
    rewrite next_plain by (done || auto). by apply enter_done.
  - rewrite (check_cond true _ [] (fromBool (accepts c pk sb data))) by (done || auto). by destruct (accepts c pk sb data).
Qed.
End P2PKH.

Lemma p2pkh_execute `{ScriptEnv} (t : Transaction) (m i : Z) (mg : Message) (p : PaymentPayload) (input : Input)
    (h sig pk lock data : bytes) (c : option SigCache) :
  len h = 20 -> 2 <= len sig <= 75 -> 2 <= len pk <= 75 ->
  index (Messages t) m = Some mg -> Payload mg = Some (PayPayment p) -> index (Inputs p) i = Some input ->
  SignatureScript input = concat (map encoding [push sig; push pk]) -> payToPubKeyHashScript h = Ok lock ->
  calcSignatureData env_keccakHash (removeOpcodeByData (p2pkh_pops h) sig) (split_sig sig).1 t m i = Ok data ->
  exists vm vm' r, NewEngine lock t m i StandardVerifyExcludeSignFlags c = Ok vm /\ Execute vm = (vm', Some r) /\
    r = p2pkh_verdict h sig pk c data /\
    (r = Ok tt <-> Hash160 pk = h /\ accepts c pk (split_sig sig).2 data = true) /\
    (sigCache vm' = c \/ sigCache vm' = cached c pk (split_sig sig).2 data).
Proof.
  intros Hh Hs Hp Im Pm Ii Ss Lk Hd.
  pose proof (p2pkh_engine t m i h sig pk c Hh Hs Hp mg p input lock Im Pm Ii Ss Lk) as N.
  exists (spot t m i StandardVerifyExcludeSignFlags false false [unlock_pops sig pk; p2pkh_pops h] [] c 0 0 0 []),
    (p2pkh_final t m i h sig pk c data), (p2pkh_verdict h sig pk c data).
  split; [done|]. split; [|split; [done|split]].
  - by eapply Execute_executes, p2pkh_run.
  - unfold p2pkh_verdict, bytes_equal. case_bool_decide as E; [|split; [done|intros [? _]; congruence]].
    destruct (accepts c pk _ data); split; try done. by intros [_ ?].
  - unfold p2pkh_final. destruct (bytes_equal _ _); auto.
Qed.

(** ** Properties *)

(** C15: a pay-to-public-key-hash output is spent by exactly the holder of the key.  With the
    flags of [ScriptValidate], the lock script of a hash and an unlock script of a signature and
    a public key, [Execute] succeeds if and only if the key hashes to the hash and the signature,
    without its hash type, is accepted under the key over the data that [calcSignatureData] gives
    for this input: it verifies or, with a signature cache, is cached; the error tells which of
    the two failed, and the cache only gains a signature that verifies. *)
Theorem p2pkh_spend `{ScriptEnv} (t : Transaction) (m i : Z) (mg : Message) (p : PaymentPayload) (input : Input)
    (h sig pk lock data : bytes) (c : option SigCache) :
  len h = 20 -> 2 <= len sig <= 75 -> 2 <= len pk <= 75 ->
  index (Messages t) m = Some mg -> Payload mg = Some (PayPayment p) -> index (Inputs p) i = Some input ->
  SignatureScript input = concat (map encoding [push sig; push pk]) -> payToPubKeyHashScript h = Ok lock ->
  calcSignatureData env_keccakHash (removeOpcodeByData (p2pkh_pops h) sig) (split_sig sig).1 t m i = Ok data ->
  exists vm vm' r, NewEngine lock t m i StandardVerifyExcludeSignFlags c = Ok vm /\ Execute vm = (vm', Some r) /\
    r = p2pkh_verdict h sig pk c data /\
    (r = Ok tt <-> Hash160 pk = h /\ accepts c pk (split_sig sig).2 data = true) /\
    (sigCache vm' = c \/ sigCache vm' = cached c pk (split_sig sig).2 data).
Proof. apply p2pkh_execute. Qed.

(** A spend for the witness: the key is [0a 0b], its hash is padded with zeros. *)
Definition spend_input (script : bytes) : Input :=
  mkInput script [] (Some (mkOutPoint (replicate 32 x11) 0 1)).
Definition spend_payment (script : bytes) : PaymentPayload :=
  mkPayment [spend_input script] [mkOutput 7 [x76] (Some PTNAsset)] 0.
Definition spend_message (script : bytes) : Message := mkMessage APP_PAYMENT (Some (PayPayment (spend_payment script))).
Definition spend_with (script : bytes) : Transaction := NewTransaction [spend_message script].
Definition spend_tx : Transaction := spend_with [x03; x0a; x0b; x01; x02; x0a; x0b].
Definition spend_hash : bytes := [x0a; x0b] ++ replicate 18 x00.

Lemma spend_with_data unlock script ht :
  exists data, calcSignatureData (L := digit_lib) (fun b => take 32 b) script ht (spend_with unlock) 0 0 = Ok data.
Proof.
  assert (En : encodable_tx (L := digit_lib) (txdata (spend_with unlock))).
  { apply one_payment_encodable. constructor; [discriminate | constructor]. }
  eapply (calcSignatureData_ok (L := digit_lib) (LL := digit_laws)); try reflexivity;
    try exact En; try (intros ?; discriminate).
  - eexists. split; [reflexivity|]. split; [reflexivity|]. constructor; [discriminate|constructor].
  - by vm_compute.
Qed.

Lemma p2pkh_spend_witness :
  exists lock vm vm', NewEngine lock spend_tx 0 0 StandardVerifyExcludeSignFlags (Some (NewSigCache 20000)) = Ok vm /\
    Execute (H := sample_env) vm = (vm', Some (Ok tt)).
Proof.
  destruct (payToPubKeyHashScript spend_hash) as [lock| |] eqn:L; [|vm_compute in L; discriminate L..].
  destruct (spend_with_data [x03; x0a; x0b; x01; x02; x0a; x0b] (removeOpcodeByData (p2pkh_pops spend_hash) [x0a; x0b; x01])
    (split_sig [x0a; x0b; x01]).1) as [data D].
  set (sc := [x03; x0a; x0b; x01; x02; x0a; x0b]).
  assert (R3 : 2 <= len [x0a; x0b; x01] <= 75) by (vm_compute; split; congruence).
  assert (R2 : 2 <= len [x0a; x0b] <= 75) by (vm_compute; split; congruence).
  destruct (p2pkh_spend (H := sample_env) spend_tx 0 0 (spend_message sc) (spend_payment sc) (spend_input sc)
    spend_hash [x0a; x0b; x01] [x0a; x0b] lock data (Some (NewSigCache 20000)) eq_refl R3 R2 eq_refl eq_refl eq_refl eq_refl L D)
    as (vm & vm' & r & N & X & _ & R & _).
  exists lock, vm, vm'. split; [exact N|]. rewrite X. do 2 f_equal. apply R. split; reflexivity.
Defined.

(** An output locked with OP_RETURN is not guaranteed to be unspendable, although
    [IsUnspendable] says so: the table gives OP_RETURN the handler of OP_FALSE, so the script
    [OP_RETURN OP_NOT] leaves true on the stack and anyone can spend the output with an empty
    unlock script. *)
Theorem op_return_spendable `{ScriptEnv} (t : Transaction) (m i : Z) (mg : Message) (p : PaymentPayload) (input : Input) :
  index (Messages t) m = Some mg -> Payload mg = Some (PayPayment p) -> index (Inputs p) i = Some input ->
  SignatureScript input = [] ->
  IsUnspendable [OP_RETURN; OP_NOT] = true /\
  exists vm vm', NewEngine [OP_RETURN; OP_NOT] t m i StandardVerifyExcludeSignFlags None = Ok vm /\
    Execute vm = (vm', Some (Ok tt)).
Proof.
  intros Im Pm Ii Ss. split; [reflexivity|]. 
  assert (Li : 0 <= i < len (Inputs p)).
  { assert (Q : index (Inputs p) i <> None) by congruence. rewrite index_None in Q. lia. }
  unfold NewEngine, message_at. rewrite Im. cbn [rget rbind]. unfold as_payment. rewrite Pm. cbn [rbind].
  replace ((i <? 0) || (len (Inputs p) <=? i)) with false by (bdestruct; done).
  rewrite Ii. cbn [rget rbind]. rewrite Ss. do 2 eexists. split; [reflexivity|]. vm_compute. reflexivity.
Qed.

Lemma op_return_spendable_witness :
  exists vm vm', NewEngine [OP_RETURN; OP_NOT] (spend_with []) 0 0 StandardVerifyExcludeSignFlags None = Ok vm /\
    Execute (H := sample_env) vm = (vm', Some (Ok tt)).
Proof.
  apply (op_return_spendable (H := sample_env) (spend_with []) 0 0 (spend_message []) (spend_payment []) (spend_input []));
    reflexivity.
Defined.
