(* ===== verification/Redeem.v ===== *)
(** Spends with a redeem script (engine.go, [Step]): pay-to-script-hash and pay-to-contract-hash.
    The unlock script pushes its items and the redeem script; the lock script tests the redeem
    script; then the redeem script runs on the items. *)

From Stdlib Require Import ZArith Lia.
From S2P Require Import Prelude Errors ScriptNum Stack Opcode Script Builder Address Standard Tx RlpModel TxProps SigHash SigCache Engine EngineInv EngineRun EngineProps SigCheck Steps Spend.

(** Data that a push opcode of [AddData] puts on the stack as it is. *)
Definition pushable (x : bytes) : Prop := len x <= MaxScriptElementSize /\ x <> [x00].

Lemma canonical_pop_push_op data : len data <= MaxScriptElementSize ->
  b2z (pop_value (canonical_pop data)) <= b2z OP_16 /\ pop_value (canonical_pop data) <> OP_RESERVED /\
  len (pop_data (canonical_pop data)) <= MaxScriptElementSize.
Proof.
  unfold MaxScriptElementSize. intros L. pose proof (first_byte_range data). unfold canonical_pop, plain, push.
  assert (K : forall n, 0 <= n <= 96 -> n <> 80 -> b2z (z2b n) <= b2z OP_16 /\ z2b n <> OP_RESERVED).
  { intros n R N. assert (b2z (z2b n) = n) by (rewrite b2z_z2b; apply Z.mod_small; lia). change (b2z OP_16) with 96.
    split; [lia|]. intros E. apply (f_equal b2z) in E. change (b2z OP_RESERVED) with 80 in E. lia. }
  repeat match goal with |- context [if ?b then _ else _] => destruct b eqn:? end;
    rewrite pop_value_mk; cbn [pop_data]; try (split_and!; [by vm_compute|by vm_compute|by vm_compute || lia]).
  - destruct (K (80 + first_byte data)) as [? ?]; [lia|lia|split_and!; done || (rewrite len_nil; lia)].
  - destruct (K (len data)) as [? ?]; [pose proof (len_nonneg data); lia|lia|split_and!; done || lia].
Qed.

Section Pushes.
Context `{ScriptEnv}.

Lemma exec_canonical x vm : pushable x -> condStack vm = [] ->
  executeOpcode (canonical_pop x) vm = (push_on x vm, Ok tt).
Proof.
  intros [L N] C. destruct (canonical_pop_push_op x L) as (V & R & D). unfold MaxScriptElementSize in L.
  rewrite exec_push; try done.
  - by rewrite canonical_pop_value by (done || lia).
  - apply canonical_pop_good. lia.
  - apply canonical_pop_minimal. lia.
Qed.

Variables (t : Transaction) (m i fs : Z) (b16 p2 : bool) (ss : list (list parsedOpcode)) (sv : list bytes)
  (c : option SigCache) (idx : Z).
Abbreviation P := (spot t m i fs b16 p2 ss sv c idx).

(** A run of pushes in the middle of a script. *)
Lemma run_pushes_on s ops v r : index ss idx = Some s -> forall items pre pop post d,
  s = pre ++ map canonical_pop items ++ pop :: post -> Forall pushable items -> len (d ++ items) <= maxStackSize ->
  executes (P (len pre) ops d) v r <-> executes (P (len pre + len items) ops (d ++ items)) v r.
Proof.
  intros Is. induction items as [|x items IH]; intros pre pop post d Es F L.
  { by rewrite len_nil, Z.add_0_r, app_nil_r. }
  apply Forall_cons in F as [Fx F']. rewrite len_app, len_cons in L. pose proof (len_nonneg items).
  assert (X : index s (len pre) = Some (canonical_pop x)) by (rewrite Es; by apply index_middle).
  assert (Ls : len pre + 1 < len s).
  { rewrite Es. cbn [map app]. rewrite len_app, len_cons, len_app, len_cons. pose proof (len_nonneg post).
    pose proof (len_nonneg (map canonical_pop items)). lia. }
  rewrite executes_iff, (step_on _ _ _ _ _ _ _ _ _ _ _ _ _ s (canonical_pop x) c (len (pre ++ [canonical_pop x])) ops (d ++ [x])).
  - simpl goes. rewrite (IH _ pop post); rewrite <- ?app_assoc; try done.
    + rewrite len_app, !len_cons, len_nil. by replace (len pre + (0 + 1) + len items) with (len pre + (len items + 1)) by lia.
    + rewrite len_app. simpl. rewrite len_cons. lia.
  - by rewrite len_app, len_cons, len_nil.
  - done.
  - done.
  - rewrite len_app, len_cons, len_nil. lia.
  - rewrite len_app, len_cons, len_nil. lia.
  - by rewrite exec_canonical.
Qed.

(** A script of pushes puts its items on the stack and hands over to the next script. *)
Lemma run_pushes s v r : index ss idx = Some s -> forall items pre d, s = pre ++ map canonical_pop items -> items <> [] ->
  Forall pushable items -> len (d ++ items) <= maxStackSize ->
  executes (P (len pre) 0 d) v r <-> goes (next_script (P (len s) 0 (d ++ items))) v r.
Proof.
  intros Is. induction items as [|x items IH]; intros pre d Es N F L; [done|].
  apply Forall_cons in F as [Fx F'].
  assert (X : index s (len pre) = Some (canonical_pop x)) by (rewrite Es; by apply index_middle).
  assert (Ls : len s = len pre + 1 + len items) by (rewrite Es, len_app; unfold len; simpl; rewrite length_map; lia).
  rewrite len_app, len_cons in L.
  assert (Ld : len (d ++ [x]) <= maxStackSize) by (rewrite len_app, len_cons, len_nil; pose proof (len_nonneg items); lia).
  assert (Ex : executeOpcode (canonical_pop x) (P (len pre) 0 d) = (P (len pre) 0 (d ++ [x]), Ok tt)) by (by rewrite exec_canonical).
  rewrite executes_iff. destruct items as [|y items].
  - rewrite len_nil in *.
    rewrite (step_end _ _ _ _ _ _ _ _ _ _ _ _ _ s (canonical_pop x) c 0 (d ++ [x])) by (done || lia).
    by replace (len pre + 1) with (len s) by lia.
  - pose proof (len_nonneg items). rewrite len_cons in *.
    rewrite (step_on _ _ _ _ _ _ _ _ _ _ _ _ _ s (canonical_pop x) c (len (pre ++ [canonical_pop x])) 0 (d ++ [x]))
      by (done || rewrite len_app, len_cons, len_nil; lia).
    simpl goes. rewrite (IH (pre ++ [canonical_pop x]) (d ++ [x])); rewrite <- ?app_assoc; try done.
    rewrite len_app. simpl. rewrite !len_cons. lia.
Qed.
End Pushes.

Lemma pushes_good items : Forall pushable items -> Forall good_pop (map canonical_pop items).
Proof.
  induction 1 as [|x items [L _] _ IH]; [constructor|]. constructor; [|done]. unfold MaxScriptElementSize in L.
  apply canonical_pop_good. lia.
Qed.

Lemma pushes_only items : Forall pushable items -> isPushOnly (map canonical_pop items) = true.
Proof.
  induction 1 as [|x items [L _] _ IH]; [done|]. cbn [map isPushOnly].
  destruct (canonical_pop_push_op x L) as (V & _). replace (blt OP_16 _) with false; [done|].
  unfold blt. symmetry. by apply Z.ltb_ge.
Qed.

Lemma p2sh_load h : len h = 20 -> load_script (concat (map encoding (p2sh_pops h))) = Ok (p2sh_pops h).
Proof.
  intros Hh. destruct (lock_pops_good h Hh) as (_ & G & _). unfold load_script. rewrite parseScript_encoded by done.
  cbn [map concat p2sh_pops]. rewrite !encoding_plain, encoding_push by (done || lia). rewrite (proj2 (Z.ltb_ge _ _)); [done|].
  unfold maxScriptSize. rewrite !len_app, !len_cons, !len_nil. lia.
Qed.
Lemma p2ch_load h : len h = 20 -> load_script (concat (map encoding (p2ch_pops h))) = Ok (p2ch_pops h).
Proof.
  intros Hh. destruct (lock_pops_good h Hh) as (_ & _ & G). unfold load_script. rewrite parseScript_encoded by done.
  cbn [map concat p2ch_pops]. rewrite !encoding_plain, encoding_push by (done || lia). rewrite (proj2 (Z.ltb_ge _ _)); [done|].
  unfold maxScriptSize. rewrite !len_app, !len_cons, !len_nil. lia.
Qed.
Lemma lock_pops_class h : len h = 20 -> isScriptHash (p2sh_pops h) = true /\ isContractHash (p2sh_pops h) = false /\ isScriptHash (p2ch_pops h) = false /\ isContractHash (p2ch_pops h) = true.
Proof.
  intros Hh. unfold p2sh_pops, p2ch_pops, isScriptHash, isContractHash. rewrite !push_value by done. done.
Qed.

Section Redeems.
Context `{ScriptEnv}.
Variables (t : Transaction) (m i : Z) (items : list bytes) (R h : bytes) (c : option SigCache).
Hypothesis Hh : len h = 20.
Hypothesis Hpush : Forall pushable (items ++ [R]).
Hypothesis Hcount : len (items ++ [R]) < maxStackSize.
Abbreviation fs := StandardVerifyExcludeSignFlags.

(** The unlock script: the items, then the redeem script. *)
Definition redeem_unlock : list parsedOpcode := map canonical_pop (items ++ [R]).
Hypothesis Hsize : len (concat (map encoding redeem_unlock)) <= maxScriptSize.

Lemma redeem_unlock_load : load_script (concat (map encoding redeem_unlock)) = Ok redeem_unlock.
Proof.
  unfold load_script. rewrite parseScript_encoded by (by apply pushes_good). by rewrite (proj2 (Z.ltb_ge _ _)).
Qed.

Lemma redeem_unlock_nonempty : (len (concat (map encoding redeem_unlock)) =? 0) = false.
Proof.
  unfold redeem_unlock. rewrite map_app, encodings_len_app. cbn [map concat].
  destruct (encoding_nonempty (canonical_pop R)) as [e ->]. rewrite app_nil_r, len_cons. pose proof (len_nonneg e).
  match goal with |- (len ?x + _ =? 0) = _ => pose proof (len_nonneg x) end. lia.
Qed.

(** An engine of a spend under the redeem convention. *)
Section Convention.
Variables (b16 p2 : bool) (s1 : list parsedOpcode).
Hypothesis Hconv : b16 || p2 = true.
Abbreviation SS := [redeem_unlock; s1].
Abbreviation P0 := (spot t m i fs b16 p2 SS [] c).
Abbreviation P := (spot t m i fs b16 p2 SS (items ++ [R]) c).

Lemma redeem_engine mg p input lock :
  index (Messages t) m = Some mg -> Payload mg = Some (PayPayment p) -> index (Inputs p) i = Some input ->
  SignatureScript input = concat (map encoding redeem_unlock) -> load_script lock = Ok s1 ->
  isScriptHash s1 = b16 -> isContractHash s1 = p2 ->
  NewEngine lock t m i fs c = Ok (P0 0 0 0 []).
Proof.
  intros Im Pm Ii Ss L1 <- <-.
  rewrite (NewEngine_load _ _ _ _ _ _ _ _ _ _ _ Im Pm Ii eq_refl ltac:(rewrite Ss; apply redeem_unlock_load) L1).
  unfold redeem_unlock at 1 2. rewrite pushes_only by done. rewrite !andb_false_r, Ss, redeem_unlock_nonempty. done.
Qed.

(** The unlock script leads to the lock script with the items and the redeem script. *)
Lemma unlock_run v r : 0 < len s1 -> executes (P0 0 0 0 []) v r <-> executes (P 1 0 0 (items ++ [R])) v r.
Proof.
  intros L. change 0 with (len (@nil parsedOpcode)) at 2.
  rewrite (run_pushes t m i fs b16 p2 SS [] c 0 redeem_unlock v r eq_refl (items ++ [R]) [] [] eq_refl); try done.
  - cbn [app]. rewrite next_first by (done || lia). by rewrite (enter_full _ _ _ _ _ _ _ _ _ _ _ s1).
  - by destruct items.
  - simpl. lia.
Qed.

(** What the verdict of the lock script leads to. *)
Definition redeem_goes (b : bool) (v : Engine) (r : result error unit) : Prop :=
  if b then
    match parseScript R with
    | (_, Some e) => v = P 2 0 0 items /\ r = Err e
    | (pops, None) => goes (enter_script (spot t m i fs b16 p2 [redeem_unlock; s1; pops] (items ++ [R]) c 2 0 0 items)) v r
    end
  else v = P 2 0 0 items /\ r = Err ErrStackScriptFailed.

Lemma lock_decides off ops b v r :
  goes (next_script (P 1 off ops (items ++ [fromBool b]))) v r <-> redeem_goes b v r.
Proof.
  rewrite next_redeem; [|done|lia|rewrite !len_app, !len_cons, !len_nil in *; lia]. unfold redeem_goes.
  destruct b; [|done]. change (asBool (fromBool true)) with true. cbv iota. by destruct (parseScript R) as [? [|]].
Qed.
End Convention.

(** *** The opcodes of the two lock scripts *)

Lemma stack_fits a : len a <= maxStackSize -> fits (mkStack a true).
Proof. unfold fits, maxStackSize. simpl. lia. Qed.

Abbreviation S2 := [redeem_unlock; p2sh_pops h].
Abbreviation P := (spot t m i fs true false S2 (items ++ [R]) c).

Lemma p2sh_hash : executeOpcode (plain OP_HASH160) (P 1 0 0 (items ++ [R])) = (P 1 0 1 (items ++ [Hash160 R]), Ok tt).
Proof.
  rewrite exec_op by done. change (opfunc_run _ ?op) with (hash_top Hash160). unfold hash_top.
  by rewrite (bind_ok _ _ _ _ _ (on_d_Pop (set_numOps 1 (P 1 0 0 (items ++ [R]))) items R eq_refl (stack_fits (items ++ [R]) ltac:(lia)))).
Qed.

Lemma p2sh_equal x : executeOpcode (plain OP_EQUAL) (P 1 2 1 ((items ++ [x]) ++ [h])) =
  (P 1 2 2 (items ++ [fromBool (bytes_equal h x)]), Ok tt).
Proof.
  rewrite !len_app, !len_cons, !len_nil in Hcount.
  rewrite exec_op by done. change (opfunc_run _ ?op) with (opcodeEqual op). unfold opcodeEqual.
  rewrite (bind_ok _ _ _ _ _ (on_d_Pop (set_numOps 2 (P 1 2 1 ((items ++ [x]) ++ [h]))) (items ++ [x]) h eq_refl
    (stack_fits ((items ++ [x]) ++ [h]) ltac:(rewrite !len_app, !len_cons, !len_nil; lia)))).
  by rewrite (bind_ok _ _ _ _ _ (on_d_Pop (P 1 2 2 (items ++ [x])) items x eq_refl
    (stack_fits (items ++ [x]) ltac:(rewrite !len_app, !len_cons, !len_nil; lia)))).
Qed.

Lemma p2sh_lock v r : executes (P 1 0 0 (items ++ [R])) v r <->
  redeem_goes true false (p2sh_pops h) (bytes_equal h (Hash160 R)) v r.
Proof.
  pose proof Hcount as Hc. rewrite !len_app, !len_cons, !len_nil in Hc.
  assert (Ls : len (p2sh_pops h) = 3) by done.
  rewrite executes_iff, (step_on _ _ _ _ _ _ _ _ _ _ _ _ _ (p2sh_pops h) (plain OP_HASH160) c 1 1 (items ++ [Hash160 R]));
    try done; [|rewrite !len_app, !len_cons, !len_nil; lia|apply p2sh_hash].
  simpl goes. rewrite executes_iff, (step_on _ _ _ _ _ _ _ _ _ _ _ _ _ (p2sh_pops h) (push h) c 2 1 ((items ++ [Hash160 R]) ++ [h]));
    try done; [|rewrite !len_app, !len_cons, !len_nil; lia|apply exec_push_data; [lia|done]].
  simpl goes. rewrite executes_iff, (step_end _ _ _ _ _ _ _ _ _ _ _ _ _ (p2sh_pops h) (plain OP_EQUAL) c 2 (items ++ [fromBool (bytes_equal h (Hash160 R))]));
    try done; [|rewrite !len_app, !len_cons, !len_nil; lia|apply p2sh_equal].
  by apply lock_decides.
Qed.

(** *** Pay to contract hash *)

(** The redeem script of a user contract is the one of its jury; a system contract has none. *)
Definition jury_accepts : result error bool :=
  if IsSystemContractAddress (NewAddress h ContractHash) then Ok true
  else let? db := pickupJuryRedeemScript (NewAddress h ContractHash) in Ok (bytes_equal db R).

Abbreviation S3 := [redeem_unlock; p2ch_pops h].
Abbreviation Q := (spot t m i fs false true S3 (items ++ [R]) c).

Lemma p2ch_jury : executeOpcode (plain OP_JURY_REDEEM_EQUAL) (Q 1 1 0 ((items ++ [R]) ++ [h])) =
  match jury_accepts with
  | Ok b => (Q 1 1 1 (items ++ [fromBool b]), Ok tt)
  | Err e => (Q 1 1 1 items, Err e)
  | Panic => (Q 1 1 1 items, Panic)
  end.
Proof.
  rewrite exec_op by done. change (opfunc_run _ ?op) with (opcodeCheckJuryRedeemEqual op). unfold opcodeCheckJuryRedeemEqual.
  rewrite (bind_ok _ _ _ _ _ (on_d_Pop (set_numOps 1 (Q 1 1 0 ((items ++ [R]) ++ [h]))) (items ++ [R]) h eq_refl
    (stack_fits ((items ++ [R]) ++ [h]) ltac:(rewrite len_app, len_cons, len_nil; lia)))).
  rewrite (bind_ok _ _ _ _ _ (on_d_Pop (Q 1 1 1 (items ++ [R])) items R eq_refl (stack_fits (items ++ [R]) ltac:(lia)))).
  unfold jury_accepts. cbv zeta. destruct (IsSystemContractAddress _); [done|]. cbn [negb].
  unfold bind, lift. by destruct (pickupJuryRedeemScript _).
Qed.

Lemma p2ch_lock v r : executes (Q 1 0 0 (items ++ [R])) v r <->
  match jury_accepts with
  | Ok b => redeem_goes false true (p2ch_pops h) b v r
  | Err e => v = Q 1 1 1 items /\ r = Err e
  | Panic => v = Q 1 1 1 items /\ r = Panic
  end.
Proof.
  pose proof Hcount as Hc. rewrite !len_app, !len_cons, !len_nil in Hc.
  assert (Ls : len (p2ch_pops h) = 2) by done.
  rewrite executes_iff, (step_on _ _ _ _ _ _ _ _ _ _ _ _ _ (p2ch_pops h) (push h) c 1 0 ((items ++ [R]) ++ [h]));
    try done; [|rewrite !len_app, !len_cons, !len_nil; lia|apply exec_push_data; [lia|done]].
  simpl goes. rewrite executes_iff. pose proof p2ch_jury as J. destruct jury_accepts as [b|e|].
  - rewrite (step_end _ _ _ _ _ _ _ _ _ _ _ _ _ (p2ch_pops h) (plain OP_JURY_REDEEM_EQUAL) c 1 (items ++ [fromBool b]));
      try done; [|rewrite !len_app, !len_cons, !len_nil; lia]. by apply lock_decides.
  - by rewrite (step_err _ _ _ _ _ _ _ _ _ _ _ _ _ (p2ch_pops h) (plain OP_JURY_REDEEM_EQUAL) (Q 1 1 1 items) e).
  - by rewrite (step_panic _ _ _ _ _ _ _ _ _ _ _ _ _ (p2ch_pops h) (plain OP_JURY_REDEEM_EQUAL) (Q 1 1 1 items)).
Qed.
End Redeems.

(** ** Multi-signature redeem scripts *)

Lemma small_op_canonical n : 1 <= n <= 16 -> plain (small_op n) = canonical_pop [z2b n].
Proof.
  intros R. assert (B : b2z (z2b n) = n) by (rewrite b2z_z2b; apply Z.mod_small; lia).
  unfold small_op, canonical_pop, first_byte. simpl. rewrite B. change (len [z2b n]) with 1. simpl.
  replace (n =? 0) with false by lia. by replace (n <=? 16) with true by lia.
Qed.

Lemma Bytes_small n : 1 <= n <= 16 -> Bytes n = Ok [z2b n].
Proof.
  intros R. assert (E : n ∈ seqZ 1 16) by (apply elem_of_seqZ; lia). clear R. revert n E.
  apply Forall_forall. repeat constructor; done.
Qed.

Lemma key_pushable k : 33 <= len k <= 65 -> pushable k /\ push k = canonical_pop k.
Proof.
  intros L. split; [split; [unfold MaxScriptElementSize; lia|]|by rewrite canonical_pop_push by lia].
  intros ->. change (len [x00]) with 1 in L. lia.
Qed.

Lemma multisig_pops_canonical keys n : 1 <= n <= 16 -> 1 <= len keys <= 16 -> Forall (fun k => 33 <= len k <= 65) keys ->
  multisig_pops keys n = map canonical_pop ([z2b n] :: keys ++ [[z2b (len keys)]]) ++ [plain OP_CHECKMULTISIG].
Proof.
  intros N K F. unfold multisig_pops. rewrite !small_op_canonical by done. simpl. f_equal.
  rewrite map_app, <- app_assoc. f_equal.
  clear K. induction F as [|k keys Lk _ IH]; [done|]. simpl. rewrite IH. f_equal. by apply key_pushable.
Qed.

Lemma num_pushable n : 1 <= n <= 16 -> pushable [z2b n].
Proof.
  intros J. split; [by vm_compute|]. intros E. injection E as E. apply (f_equal b2z) in E.
  rewrite b2z_z2b, Z.mod_small in E by lia. change (b2z x00) with 0 in E. lia.
Qed.

Lemma multisig_good keys n : 1 <= n <= 16 -> 1 <= len keys <= 16 -> Forall (fun k => 33 <= len k <= 65) keys ->
  Forall good_pop (multisig_pops keys n).
Proof.
  intros N K F. rewrite multisig_pops_canonical by done. apply Forall_app. split.
  - apply pushes_good. rewrite Forall_cons, Forall_app, Forall_singleton. split_and!; try by apply num_pushable.
    eapply Forall_impl; [exact F|]. intros key L. by apply key_pushable.
  - repeat constructor; by apply plain_good.
Qed.

Lemma NoDup_rev' {A} (l : list A) : NoDup l -> NoDup (rev l).
Proof. intros N. rewrite <- (Permutation_rev l). done. Qed.

Section MultiSig.
Context `{ScriptEnv}.
Variables (t : Transaction) (m i : Z) (b16 p2 : bool) (s0 s1 : list parsedOpcode) (sv keys sigs : list bytes)
  (c : option SigCache).
Abbreviation fs := StandardVerifyExcludeSignFlags.
Abbreviation n := (len sigs).
Abbreviation k := (len keys).
Hypothesis Hk : 1 <= k <= 16.
Hypothesis Hn : 1 <= n <= k.
Hypothesis Hkeys : Forall (fun key => 33 <= len key <= 65) keys.
Hypothesis Hdup : NoDup keys.
Hypothesis Hdata : forall script ht, 0 <= ht < 256 -> exists data, calcSignatureData env_keccakHash script ht t m i = Ok data.

Abbreviation pops := (multisig_pops keys n).
Abbreviation SS := [s0; s1; pops].
Definition multisig_stack : list bytes := ([] :: sigs) ++ [z2b n] :: keys ++ [[z2b k]].
Abbreviation P := (spot t m i fs b16 p2 SS sv c).
Abbreviation Pc c' := (spot t m i fs b16 p2 SS sv c').

(** The script a signature covers. *)
Definition multisig_code : list parsedOpcode := fold_left removeOpcodeByData (rev sigs) pops.

Lemma multisig_pops_end : len pops = len ([z2b n] :: keys ++ [[z2b k]]) + 1 /\
  index pops (len ([z2b n] :: keys ++ [[z2b k]])) = Some (plain OP_CHECKMULTISIG).
Proof.
  rewrite multisig_pops_canonical by (done || lia). split.
  - rewrite len_app, len_cons, len_nil. unfold len. rewrite length_map. lia.
  - apply index_middle. unfold len. by rewrite length_map.
Qed.

Lemma checkmultisig_exec off : 0 <= off <= len pops ->
  exists b c', executeOpcode (plain OP_CHECKMULTISIG) (P 2 off 0 multisig_stack) = (Pc c' 2 off (1 + k) [fromBool b], Ok tt) /\
    (signed_in_order (sig_ok (P 2 0 0 []) multisig_code) keys sigs -> b = true) /\
    (b = true -> signed_in_order (sig_believed c (P 2 0 0 []) multisig_code) keys sigs).
Proof.
  intros Off. rewrite exec_op by done. change (opfunc_run _ ?op) with (opcodeCheckMultiSig op).
  set (vm := set_numOps _ _).
  assert (Ls : len multisig_stack = 1 + n + 1 + k + 1).
  { unfold multisig_stack. rewrite len_app, !len_cons, len_app, len_cons, len_nil. lia. }
  pose proof (CheckMultiSig_operands (plain OP_CHECKMULTISIG) vm [] (rev keys) (rev sigs) [z2b k] [z2b n]) as E.
  rewrite !rev_involutive in E. assert (Lk : len (rev keys) = k) by (unfold len; by rewrite length_rev).
  assert (Ln : len (rev sigs) = n) by (unfold len; by rewrite length_rev). rewrite Lk, Ln in E.
  rewrite E; clear E; try (by apply Bytes_small; lia).
  2:{ unfold vm, multisig_stack. simpl. by rewrite <- !app_assoc. }
  2:{ unfold fits, vm. simpl. rewrite Ls. lia. }
  2:{ unfold MaxPubKeysPerMultiSig. lia. }
  2:{ lia. }
  2:{ unfold vm, MaxOpsPerScript. simpl. lia. }
  set (v := multisig_state [] k vm).
  assert (Lc : located v) by (apply (spot_located t m i fs b16 p2 SS sv c 2 off (1 + k) [] pops); done).
  rewrite (bind_ok _ _ _ _ _ (subScript_ok v Lc)).
  replace (signed_script v) with pops by (unfold signed_script; change (current_script v) with pops; symmetry;
    unfold slice; change (lastCodeSep v) with 0; unfold len; rewrite drop_0, Z.sub_0_r, Nat2Z.id; by apply firstn_all).
  destruct (multisig_loop_bounds v multisig_code (rev keys) (NoDup_rev' keys Hdup) eq_refl Hdata (rev sigs) c)
    as (b & c' & E & Lo & Up).
  change (set_sigCache c v) with v in E. rewrite (bind_ok _ _ _ _ _ E). exists b, c'. split; [done|]. split.
  - intros S. by apply Lo, sio_rev.
  - intros B. apply Up, sio_rev in B. by rewrite !rev_involutive in B.
Qed.

(** The run of a multi-signature script as the last script. *)
Lemma multisig_run v r : Forall pushable sigs -> goes (enter_script (P 2 0 0 ([] :: sigs))) v r ->
  exists b : bool, r = (if b then Ok tt else Err ErrStackScriptFailed) /\
    (signed_in_order (sig_ok (P 2 0 0 []) multisig_code) keys sigs -> b = true) /\
    (b = true -> signed_in_order (sig_believed c (P 2 0 0 []) multisig_code) keys sigs).
Proof.
  intros Fs. destruct multisig_pops_end as [Lp Ie]. set (push := [z2b n] :: keys ++ [[z2b k]]) in *.
  assert (Lpush : len push = k + 2) by (unfold push; rewrite len_cons, len_app, len_cons, len_nil; lia).
  rewrite (enter_full _ _ _ _ _ _ _ _ _ _ _ pops) by (done || lia). simpl goes.
  change 0 with (len (@nil parsedOpcode)) at 1.
  rewrite (run_pushes_on t m i fs b16 p2 SS sv c 2 pops 0 v r eq_refl push [] (plain OP_CHECKMULTISIG) [] ([] :: sigs)).
  - change (len [] + len push) with (len push). change (([] :: sigs) ++ push) with multisig_stack.
    destruct (checkmultisig_exec (len push) ltac:(lia)) as (b & c' & Ex & Lo & Up).
    rewrite executes_iff, (step_end _ _ _ _ _ _ _ _ _ _ _ _ _ pops (plain OP_CHECKMULTISIG) c' (1 + k) [fromBool b]) by done.
    rewrite next_plain by (lia || auto). rewrite enter_done by done. simpl goes.
    rewrite (check_cond true _ [] (fromBool b)) by (done || auto). intros [= _ <-]. exists b. by destruct b.
  - apply multisig_pops_canonical; done || lia.
  - unfold push. rewrite Forall_cons, Forall_app, Forall_singleton. split_and!; try (apply num_pushable; lia).
    eapply Forall_impl; [exact Hkeys|]. intros key L. by apply key_pushable.
  - rewrite len_app, len_cons, Lpush. unfold maxStackSize. lia.
Qed.
End MultiSig.

(** The verdict on a multi-signature spend. *)
Lemma p2sh_multisig_verdict `{ScriptEnv} (t : Transaction) (m i : Z) (mg : Message) (p : PaymentPayload) (input : Input)
    (keys sigs : list bytes) (R h lock : bytes) (c : option SigCache) :
  len h = 20 -> 1 <= len keys <= 16 -> 1 <= len sigs <= len keys -> NoDup keys ->
  Forall (fun key => 33 <= len key <= 65) keys -> Forall pushable sigs ->
  R = concat (map encoding (multisig_pops keys (len sigs))) -> len R <= MaxScriptElementSize -> Hash160 R = h ->
  (forall script ht, 0 <= ht < 256 -> exists data, calcSignatureData env_keccakHash script ht t m i = Ok data) ->
  len (SignatureScript input) <= maxScriptSize ->
  index (Messages t) m = Some mg -> Payload mg = Some (PayPayment p) -> index (Inputs p) i = Some input ->
  SignatureScript input = concat (map encoding (map canonical_pop (([] :: sigs) ++ [R]))) -> payToScriptHashScript h = Ok lock ->
  exists vm v (b : bool), NewEngine lock t m i StandardVerifyExcludeSignFlags c = Ok vm /\
    Execute vm = (v, Some (if b then Ok tt else Err ErrStackScriptFailed)) /\
    (signed_in_order (sig_ok vm (multisig_code keys sigs)) keys sigs -> b = true) /\
    (b = true -> signed_in_order (sig_believed c vm (multisig_code keys sigs)) keys sigs).
Proof.
  intros Hh Hk Hn ND Fk Fs HR LR Hash Hd Sz Im Pm Ii Ss Lk. rewrite payToScriptHashScript_ok in Lk by done. injection Lk as <-.
  destruct (multisig_pops_end keys sigs Hk Hn Fk) as [Lp _].
  assert (Ps : parseScript R = (multisig_pops keys (len sigs), None)).
  { subst R. apply parseScript_encoded. apply multisig_good; done || lia. }
  assert (Lr : 4 <= len R).
  { apply parse_length in Ps. rewrite Lp, len_cons, len_app, len_cons, len_nil in Ps. lia. }
  assert (F : Forall pushable (([] :: sigs) ++ [R])).
  { apply Forall_app. split; [|repeat constructor; [done|]; intros ->; by vm_compute in Lr].
    constructor; [|done]. by split; [by vm_compute|]. }
  assert (L : len (([] :: sigs) ++ [R]) < maxStackSize) by (rewrite len_app, !len_cons, len_nil; unfold maxStackSize; lia).
  rewrite Ss in Sz. destruct (lock_pops_class h Hh) as (C1 & C2 & _).
  pose proof (redeem_engine t m i _ R c F Sz true false (p2sh_pops h) eq_refl mg p input _ Im Pm Ii Ss (p2sh_load h Hh) C1 C2) as N.
  destruct (Execute_spec _ (NewEngine_inv _ _ _ _ _ _ _ N) (NewEngine_start _ _ _ _ _ _ _ N)) as (v & r & E & _).
  pose proof E as G. rewrite (Execute_iff _ _ _ _ _ _ _ _ _ N), unlock_run, p2sh_lock in G by done.
  unfold bytes_equal in G. rewrite bool_decide_eq_true_2 in G by done. unfold redeem_goes in G. rewrite Ps in G.
  apply multisig_run in G as (b & -> & Lo & Up); try done.
  eexists _, v, b. split; [exact N|]. split; [exact E|]. split; [exact Lo|exact Up].
Qed.

(** ** Properties *)

(** A pay-to-script-hash spend, when the unlock script pushes some items and a redeem script:
    the run ends exactly as [redeem_goes] says.  If the redeem script does not have the locked
    hash the verdict is [ErrStackScriptFailed]; if it has, but does not parse, its parse error;
    otherwise the verdict is the one of the redeem script run on the items alone, as a third
    script. *)
Theorem p2sh_spend `{ScriptEnv} (t : Transaction) (m i : Z) (mg : Message) (p : PaymentPayload) (input : Input)
    (items : list bytes) (R h lock : bytes) (c : option SigCache) :
  len h = 20 -> Forall pushable (items ++ [R]) -> len (items ++ [R]) < maxStackSize ->
  len (SignatureScript input) <= maxScriptSize ->
  index (Messages t) m = Some mg -> Payload mg = Some (PayPayment p) -> index (Inputs p) i = Some input ->
  SignatureScript input = concat (map encoding (map canonical_pop (items ++ [R]))) -> payToScriptHashScript h = Ok lock ->
  exists vm, NewEngine lock t m i StandardVerifyExcludeSignFlags c = Ok vm /\
    forall v r, Execute vm = (v, Some r) <->
      redeem_goes t m i items R c true false (p2sh_pops h) (bytes_equal h (Hash160 R)) v r.
Proof.
  intros Hh F L Sz Im Pm Ii Ss Lk. rewrite Ss in Sz. rewrite payToScriptHashScript_ok in Lk by done. injection Lk as <-.
  destruct (lock_pops_class h Hh) as (C1 & C2 & _).
  pose proof (redeem_engine t m i items R c F Sz true false (p2sh_pops h) eq_refl mg p input _ Im Pm Ii Ss (p2sh_load h Hh) C1 C2) as N.
  eexists. split; [exact N|]. intros v r. rewrite (Execute_iff _ _ _ _ _ _ _ _ _ N), unlock_run by done. by apply p2sh_lock.
Qed.

(** The spend of an output that asks for a redeem script of [OP_1], for the witness. *)
Lemma p2sh_spend_witness :
  exists lock vm, payToScriptHashScript (x51 :: replicate 19 x00) = Ok lock /\
    NewEngine lock (spend_with [x01; x51]) 0 0 StandardVerifyExcludeSignFlags None = Ok vm /\
    forall v r, Execute (H := sample_env) vm = (v, Some r) <->
      redeem_goes (H := sample_env) (spend_with [x01; x51]) 0 0 [] [x51] None true false (p2sh_pops (x51 :: replicate 19 x00)) true v r.
Proof.
  destruct (payToScriptHashScript (x51 :: replicate 19 x00)) as [lock| |] eqn:L; [|vm_compute in L; discriminate L..].
  assert (F : Forall pushable ([] ++ [[x51]])).
  { constructor; [|constructor]. split; [vm_compute; congruence|discriminate]. }
  destruct (p2sh_spend (H := sample_env) (spend_with [x01; x51]) 0 0 (spend_message [x01; x51]) (spend_payment [x01; x51])
    (spend_input [x01; x51]) [] [x51] (x51 :: replicate 19 x00) lock None eq_refl F eq_refl ltac:(vm_compute; congruence)
    eq_refl eq_refl eq_refl eq_refl L) as (vm & N & E).
  exists lock, vm. split; [reflexivity|]. split; [exact N|exact E].
Defined.

(** A pay-to-contract spend: the redeem script of a user contract must be the one of the
    contract's jury, and then decides on the items; an error of the jury lookup is the verdict.
    For a system contract the redeem script is not compared with anything. *)
Theorem p2ch_spend `{ScriptEnv} (t : Transaction) (m i : Z) (mg : Message) (p : PaymentPayload) (input : Input)
    (items : list bytes) (R h lock : bytes) (c : option SigCache) :
  len h = 20 -> Forall pushable (items ++ [R]) -> len (items ++ [R]) < maxStackSize ->
  len (SignatureScript input) <= maxScriptSize ->
  index (Messages t) m = Some mg -> Payload mg = Some (PayPayment p) -> index (Inputs p) i = Some input ->
  SignatureScript input = concat (map encoding (map canonical_pop (items ++ [R]))) -> payToContractHash h = Ok lock ->
  exists vm, NewEngine lock t m i StandardVerifyExcludeSignFlags c = Ok vm /\
    forall v r, Execute vm = (v, Some r) <->
      match jury_accepts R h with
      | Ok b => redeem_goes t m i items R c false true (p2ch_pops h) b v r
      | bad => v = spot t m i StandardVerifyExcludeSignFlags false true [redeem_unlock items R; p2ch_pops h]
                     (items ++ [R]) c 1 1 1 items /\
               r = match bad with Err e => Err e | _ => Panic end
      end.
Proof.
  intros Hh F L Sz Im Pm Ii Ss Lk. rewrite Ss in Sz. rewrite payToContractHash_ok in Lk by done. injection Lk as <-.
  destruct (lock_pops_class h Hh) as (_ & _ & C1 & C2).
  pose proof (redeem_engine t m i items R c F Sz false true (p2ch_pops h) eq_refl mg p input _ Im Pm Ii Ss (p2ch_load h Hh) C1 C2) as N.
  eexists. split; [exact N|]. intros v r. rewrite (Execute_iff _ _ _ _ _ _ _ _ _ N), unlock_run, p2ch_lock by done.
  by destruct (jury_accepts R h).
Qed.

(** An output locked to a system contract can be spent by anyone: for every contract id in
    the system range, the two-byte unlock script that pushes the redeem script [OP_1] is
    accepted, without any signature. *)
Theorem system_contract_spendable `{ScriptEnv} (t : Transaction) (m i : Z) (mg : Message) (p : PaymentPayload)
    (input : Input) (h lock : bytes) (c : option SigCache) :
  len h = 20 -> IsSystemContractId h = true ->
  index (Messages t) m = Some mg -> Payload mg = Some (PayPayment p) -> index (Inputs p) i = Some input ->
  SignatureScript input = [x01; OP_1] -> PayToAddrScript (NewAddress h ContractHash) = Ok lock ->
  exists vm vm', NewEngine lock t m i StandardVerifyExcludeSignFlags c = Ok vm /\ Execute vm = (vm', Some (Ok tt)).
Proof.
  intros Hh Sy Im Pm Ii Ss Lk. rewrite NewAddress_20 in Lk by done.
  unfold PayToAddrScript in Lk. rewrite GetType_app, Address_Bytes_app in Lk by done.
  change (payToContractHash h = Ok lock) in Lk. rewrite payToContractHash_ok in Lk by done. injection Lk as <-.
  destruct (lock_pops_class h Hh) as (_ & _ & C1 & C2).
  assert (F : Forall pushable ([] ++ [[OP_1]])) by (constructor; [split; [by vm_compute|done]|constructor]).
  assert (Sz : len (concat (map encoding (redeem_unlock [] [OP_1]))) <= maxScriptSize) by by vm_compute.
  pose proof (redeem_engine t m i [] [OP_1] c F Sz false true (p2ch_pops h) eq_refl mg p input _ Im Pm Ii Ss (p2ch_load h Hh) C1 C2) as N.
  eexists _, (spot t m i StandardVerifyExcludeSignFlags false true _ _ c 3 0 0 []). split; [exact N|].
  rewrite (Execute_iff _ _ _ _ _ _ _ _ _ N), unlock_run, p2ch_lock by done.
  unfold jury_accepts. rewrite NewAddress_20 by done. unfold IsSystemContractAddress. rewrite Address_Bytes_app, Sy by done.
  unfold redeem_goes. change (parseScript [OP_1]) with ([plain OP_1], @None error). cbv beta iota.
  rewrite (enter_full _ _ _ _ _ _ _ _ _ _ _ [plain OP_1]) by done. simpl goes. rewrite executes_iff.
  rewrite (step_end _ _ _ _ _ _ _ _ _ _ _ _ _ [plain OP_1] (plain OP_1) c 0 [[x01]]) by (done || by apply exec_push).
  rewrite next_plain by (lia || auto). rewrite enter_done by done. simpl goes.
  by rewrite (check_cond true _ [] [x01]) by (done || auto).
Qed.

Lemma system_contract_spendable_witness :
  exists lock vm vm', PayToAddrScript (NewAddress (replicate 19 x00 ++ [x01]) ContractHash) = Ok lock /\
    NewEngine lock (spend_with [x01; x51]) 0 0 StandardVerifyExcludeSignFlags None = Ok vm /\
    Execute (H := sample_env) vm = (vm', Some (Ok tt)).
Proof.
  destruct (PayToAddrScript (NewAddress (replicate 19 x00 ++ [x01]) ContractHash)) as [lock| |] eqn:L;
    [|vm_compute in L; discriminate L..].
  destruct (system_contract_spendable (H := sample_env) (spend_with [x01; x51]) 0 0 (spend_message [x01; x51])
    (spend_payment [x01; x51]) (spend_input [x01; x51]) (replicate 19 x00 ++ [x01]) lock None
    eq_refl eq_refl eq_refl eq_refl eq_refl eq_refl L) as (vm & vm' & N & E).
  exists lock, vm, vm'. split; [reflexivity|]. split; [exact N|exact E].
Defined.

Lemma p2ch_spend_witness :
  exists lock vm, payToContractHash (replicate 20 x11) = Ok lock /\
    NewEngine lock (spend_with [x01; x51]) 0 0 StandardVerifyExcludeSignFlags None = Ok vm /\
    exists v, Execute (H := sample_env) vm = (v, Some (Err ErrStackEmptyStack)).
Proof.
  destruct (payToContractHash (replicate 20 x11)) as [lock| |] eqn:L; [|vm_compute in L; discriminate L..].
  assert (F : Forall pushable ([] ++ [[x51]])).
  { constructor; [|constructor]. split; [vm_compute; congruence|discriminate]. }
  destruct (p2ch_spend (H := sample_env) (spend_with [x01; x51]) 0 0 (spend_message [x01; x51]) (spend_payment [x01; x51])
    (spend_input [x01; x51]) [] [x51] (replicate 20 x11) lock None eq_refl F eq_refl ltac:(vm_compute; congruence)
    eq_refl eq_refl eq_refl eq_refl L) as (vm & N & E).
  exists lock, vm. split; [reflexivity|]. split; [exact N|]. eexists. apply E. split; reflexivity.
Defined.

(** C16: a pay-to-script-hash multi-signature spend: the unlock script is OP_0, the signatures and
    the redeem script with the locked hash.  Signatures that can be assigned, in order, to keys
    that verify them are accepted, whatever the signature cache holds; and what is accepted can be
    so assigned, counting a signature that was in the cache from the start as verified.  There is
    no other verdict than success and [ErrStackScriptFailed]. *)
Theorem p2sh_multisig_spend `{ScriptEnv} (t : Transaction) (m i : Z) (mg : Message) (p : PaymentPayload) (input : Input)
    (keys sigs : list bytes) (R h lock : bytes) (c : option SigCache) :
  len h = 20 -> 1 <= len keys <= 16 -> 1 <= len sigs <= len keys -> NoDup keys ->
  Forall (fun key => 33 <= len key <= 65) keys -> Forall pushable sigs ->
  R = concat (map encoding (multisig_pops keys (len sigs))) -> len R <= MaxScriptElementSize -> Hash160 R = h ->
  (forall script ht, 0 <= ht < 256 -> exists data, calcSignatureData env_keccakHash script ht t m i = Ok data) ->
  len (SignatureScript input) <= maxScriptSize ->
  index (Messages t) m = Some mg -> Payload mg = Some (PayPayment p) -> index (Inputs p) i = Some input ->
  SignatureScript input = concat (map encoding (map canonical_pop (([] :: sigs) ++ [R]))) -> payToScriptHashScript h = Ok lock ->
  exists vm v (b : bool), NewEngine lock t m i StandardVerifyExcludeSignFlags c = Ok vm /\
    Execute vm = (v, Some (if b then Ok tt else Err ErrStackScriptFailed)) /\
    (signed_in_order (sig_ok vm (multisig_code keys sigs)) keys sigs -> b = true) /\
    (b = true -> signed_in_order (sig_believed c vm (multisig_code keys sigs)) keys sigs).
Proof. apply p2sh_multisig_verdict. Qed.

(** A one-of-two spend for the witness; the key is the start of its signature. *)
Definition ms_keys : list bytes := [replicate 33 x0a; replicate 33 x0b].
Definition ms_sigs : list bytes := [replicate 33 x0b ++ [x01]].
Definition ms_redeem : bytes := concat (map encoding (multisig_pops ms_keys 1)).
Definition ms_unlock : bytes := concat (map encoding (map canonical_pop (([] :: ms_sigs) ++ [ms_redeem]))).
Definition ms_hash : bytes := take 20 ms_redeem.

Lemma p2sh_multisig_spend_witness :
  exists lock vm v, payToScriptHashScript ms_hash = Ok lock /\
    NewEngine lock (spend_with ms_unlock) 0 0 StandardVerifyExcludeSignFlags None = Ok vm /\
    Execute (H := sample_env) vm = (v, Some (Ok tt)).
Proof.
  destruct (payToScriptHashScript ms_hash) as [lock| |] eqn:L; [|vm_compute in L; discriminate L..].
  assert (Fs : Forall pushable ms_sigs) by (constructor; [split; [vm_compute; congruence|discriminate]|constructor]).
  assert (ND : NoDup ms_keys).
  { constructor; [|constructor; [apply not_elem_of_nil|constructor]]. intros E; apply list_elem_of_singleton in E; discriminate E. }
  assert (Fk : Forall (fun key => 33 <= len key <= 65) ms_keys) by (repeat constructor; vm_compute; congruence).
  destruct (p2sh_multisig_spend (H := sample_env) (spend_with ms_unlock) 0 0 (spend_message ms_unlock) (spend_payment ms_unlock)
    (spend_input ms_unlock) ms_keys ms_sigs ms_redeem ms_hash lock None eq_refl ltac:(vm_compute; split; congruence)
    ltac:(vm_compute; split; congruence) ND Fk Fs eq_refl ltac:(vm_compute; congruence) eq_refl
    (fun script ht _ => spend_with_data ms_unlock script ht) ltac:(vm_compute; congruence) eq_refl eq_refl eq_refl eq_refl L)
    as (vm & v & b & N & E & Lo & _).
  exists lock, vm, v. split; [reflexivity|]. split; [exact N|]. rewrite Lo in E; [exact E|].
  apply sio_skip, sio_take; [|constructor]. unfold sig_ok. apply NewEngine_ok in N as (? & ? & ? & ? & ? & _ & _ & _ & _ & _ & _ & _ & ->).
  cbn [tx msgIdx txIdx]. destruct (spend_with_data ms_unlock (multisig_code ms_keys ms_sigs) (split_sig (replicate 33 x0b ++ [x01])).1) as [d D].
  change (@env_rlp sample_env) with digit_lib. change (@env_keccakHash sample_env) with (fun b : bytes => take 32 b). rewrite D. reflexivity.
Defined.
