(* ===== verification/Sign.v ===== *)
(** Signing inputs: src/tokenengine/internal/txscript/sign.go.

    The keys and the redeem scripts come from the caller: the class [Signer] is the part of
    [ICrypto] that signs ([Sign], [GetPubKey]) and [ScriptDB] ([GetScript]); signatures are
    checked with [Verify] of the engine's environment.  An address string is the key of the map of
    [mergeMultiSig].  [builder.Script()] whose error is dropped is the script built so far,
    [script].  [mergeScripts] calls itself on the last push of the new script, with fuel: [None]
    is a call that has not returned. *)

From Stdlib Require Import ZArith Lia.
From S2P Require Import Prelude Errors ScriptNum Stack Opcode Script Builder Address Standard Tx RlpModel TxProps SigHash SigCache Engine EngineInv EngineRun EngineProps SigCheck Steps Spend Redeem.

Class Signer := {
  Sign : Address -> bytes -> result string bytes;
  GetPubKey : Address -> result string bytes;
  GetScript : Address -> result string bytes;
  CheckEncode_ : bytes -> byte -> string              (* base58.CheckEncode *)
}.

Section Signing.
Context `{ScriptEnv} `{Signer}.

(** An error handed over by the caller's functions. *)
Definition external {A} (r : result string A) : result error A :=
  match r with Ok a => Ok a | Err e => Err (ErrExternal e) | Panic => Panic end.

Definition sign_data (script : list parsedOpcode) (hashType : SigHashType) (tx : Transaction) (msgIdx idx : Z)
  : result error bytes :=
  match calcSignatureData env_keccakHash script hashType tx msgIdx idx with Ok data => Ok data | _ => Panic end.

Definition RawTxInSignature (tx : Transaction) (msgIdx idx : Z) (subScript : bytes) (hashType : SigHashType)
    (addr : Address) : result error bytes :=
  match parseScript subScript with
  | (_, Some _) => Err ErrCannotParseOutput
  | (parsedScript, None) =>
      let? data := sign_data parsedScript hashType tx msgIdx idx in
      match Sign addr data with
      | Ok sign => Ok (sign ++ [z2b hashType])
      | Err _ => Err ErrCannotSignInput
      | Panic => Panic
      end
  end.

(** [SignatureScript] of sign.go. *)
Definition SignatureScript_ (tx : Transaction) (msgIdx idx : Z) (subscript : bytes) (hashType : SigHashType)
    (pubKey : bytes) (addr : Address) : result error bytes :=
  let? sig := RawTxInSignature tx msgIdx idx subscript hashType addr in
  Script_ (AddData pubKey (AddData sig NewScriptBuilder)).

Definition p2pkSignatureScript (tx : Transaction) (msgIdx idx : Z) (subScript : bytes) (hashType : SigHashType)
    (addr : Address) : result error bytes :=
  let? sig := RawTxInSignature tx msgIdx idx subScript hashType addr in
  Script_ (AddData sig NewScriptBuilder).

(** [for _, addr := range addresses]: the addresses that cannot sign are passed over. *)
Fixpoint sign_each (tx : Transaction) (msgIdx idx : Z) (subScript : bytes) (hashType : SigHashType) (nRequired : Z)
    (addresses : list AddressOriginalData) (signed : Z) (builder : ScriptBuilder) : result error (ScriptBuilder * Z) :=
  match addresses with
  | [] => Ok (builder, signed)
  | addr :: addresses' =>
      match RawTxInSignature tx msgIdx idx subScript hashType (aod_Address addr) with
      | Panic => Panic
      | Err _ => sign_each tx msgIdx idx subScript hashType nRequired addresses' signed builder
      | Ok sig =>
          let builder := AddData sig builder in
          let signed := signed + 1 in
          if signed =? nRequired then Ok (builder, signed)
          else sign_each tx msgIdx idx subScript hashType nRequired addresses' signed builder
      end
  end.

Definition signMultiSig (tx : Transaction) (msgIdx idx : Z) (subScript : bytes) (hashType : SigHashType)
    (addresses : list AddressOriginalData) (nRequired : Z) : result error (bytes * bool) :=
  let? (builder, signed) :=
    sign_each tx msgIdx idx subScript hashType nRequired addresses 0 (AddOp OP_0 NewScriptBuilder) in
  Ok (script builder, signed =? nRequired).

(** The unlock script, or the redeem script, for an output script. *)
Definition sign (tx : Transaction) (msgIdx idx : Z) (subScript : bytes) (hashType : SigHashType)
  : result error (bytes * ScriptClass * list AddressOriginalData * Z) :=
  let? (class, addresses, nrequired) := ExtractPkScriptAddrs Hash160 subScript in
  if beq class PubKeyTy then
    let? a0 := rget (index addresses 0) in
    let? script := p2pkSignatureScript tx msgIdx idx subScript hashType (aod_Address a0) in
    Ok (script, class, addresses, nrequired)
  else if beq class PubKeyHashTy then
    let? a0 := rget (index addresses 0) in
    let? pubkey := external (GetPubKey (aod_Address a0)) in
    let? script := SignatureScript_ tx msgIdx idx subScript hashType pubkey (aod_Address a0) in
    Ok (script, class, addresses, nrequired)
  else if beq class ScriptHashTy || beq class ContractHashTy then
    let? a0 := rget (index addresses 0) in
    let? script := external (GetScript (aod_Address a0)) in
    Ok (script, class, addresses, nrequired)
  else if beq class MultiSigTy then
    let? (script, _) := signMultiSig tx msgIdx idx subScript hashType addresses nrequired in
    Ok (script, class, addresses, nrequired)
  else if beq class NullDataTy then Err ErrCannotSignNullData
  else Err ErrCannotSignUnknown.

(** ** Merging two unlock scripts *)

(** [extractSigs]: the non-empty pushes. *)
Definition extractSigs (pops : list parsedOpcode) : list bytes :=
  List.filter (fun d => negb (len d =? 0)) (map pop_data pops).

Abbreviation addr_string a := (Str CheckEncode_ (aod_Address a)).

(** [for _, addr := range addresses]: the first key that verifies the signature gets it, unless
    its address has one already. *)
Fixpoint assign_sig (addresses : list AddressOriginalData) (sig tSig data : bytes) (addrToSig : gmap string bytes)
  : gmap string bytes :=
  match addresses with
  | [] => addrToSig
  | addr :: addresses' =>
      if Verify (aod_Original addr) tSig data then
        match addrToSig !! addr_string addr with
        | Some _ => addrToSig
        | None => <[addr_string addr := sig]> addrToSig
        end
      else assign_sig addresses' sig tSig data addrToSig
  end.

Fixpoint sigLoop (tx : Transaction) (msgIdx idx : Z) (pkPops : list parsedOpcode) (addresses : list AddressOriginalData)
    (possibleSigs : list bytes) (addrToSig : gmap string bytes) : result error (gmap string bytes) :=
  match possibleSigs with
  | [] => Ok addrToSig
  | sig :: sigs' =>
      if len sig <? 1 then sigLoop tx msgIdx idx pkPops addresses sigs' addrToSig
      else
        let '(hashType, tSig) := split_sig sig in
        let? data := sign_data pkPops hashType tx msgIdx idx in
        sigLoop tx msgIdx idx pkPops addresses sigs' (assign_sig addresses sig tSig data addrToSig)
  end.

(** The signatures in the order of the addresses, [nRequired] of them at most. *)
Fixpoint add_sigs (addrToSig : gmap string bytes) (nRequired : Z) (addresses : list AddressOriginalData) (doneSigs : Z)
    (builder : ScriptBuilder) : ScriptBuilder * Z :=
  match addresses with
  | [] => (builder, doneSigs)
  | addr :: addresses' =>
      match addrToSig !! addr_string addr with
      | None => add_sigs addrToSig nRequired addresses' doneSigs builder
      | Some sig =>
          let builder := AddData sig builder in
          let doneSigs := doneSigs + 1 in
          if doneSigs =? nRequired then (builder, doneSigs)
          else add_sigs addrToSig nRequired addresses' doneSigs builder
      end
  end.

(** [for i := doneSigs; i < nRequired; i++ { builder.AddOp(OP_0) }] *)
Definition pad_sigs (doneSigs nRequired : Z) (builder : ScriptBuilder) : ScriptBuilder :=
  Nat.iter (Z.to_nat (nRequired - doneSigs)) (AddOp OP_0) builder.

Definition mergeMultiSig (tx : Transaction) (msgIdx idx : Z) (addresses : list AddressOriginalData) (nRequired : Z)
    (pkScript sigScript prevScript : bytes) : result error bytes :=
  let pkPops := (parseScript pkScript).1 in
  match parseScript sigScript with
  | (_, Some _) | ([], _) => Ok prevScript
  | (sigPops, None) =>
      match parseScript prevScript with
      | (_, Some _) | ([], _) => Ok sigScript
      | (prevPops, None) =>
          let? addrToSig :=
            sigLoop tx msgIdx idx pkPops addresses (extractSigs sigPops ++ extractSigs prevPops) ∅ in
          let '(builder, doneSigs) := add_sigs addrToSig nRequired addresses 0 (AddOp OP_0 NewScriptBuilder) in
          Ok (script (pad_sigs doneSigs nRequired builder))
      end
  end.

(** [builder.script = s] *)
Definition builder_with (s : bytes) : ScriptBuilder := mkBuilder s None.

Fixpoint mergeScripts (fuel : nat) (tx : Transaction) (msgIdx idx : Z) (pkScript : bytes) (class : ScriptClass)
    (addresses : list AddressOriginalData) (nRequired : Z) (sigScript prevScript : bytes) : option (result error bytes) :=
  match fuel with
  | O => None
  | S fuel' =>
      if beq class ScriptHashTy then
        match parseScript sigScript with
        | (_, Some _) | ([], _) => Some (Ok prevScript)
        | (sigPops, None) =>
            match parseScript prevScript with
            | (_, Some _) | ([], _) => Some (Ok sigScript)
            | (prevPops, None) =>
                let script_ := pop_data (pop_at sigPops (len sigPops - 1)) in
                let '(class', addresses', nrequired') :=
                  match ExtractPkScriptAddrs Hash160 script_ with Ok r => r | _ => (NonStandardTy, [], 0) end in
                let sigScript' := match unparseScript sigPops with Ok s => s | _ => [] end in
                let prevScript' := match unparseScript prevPops with Ok s => s | _ => [] end in
                match mergeScripts fuel' tx msgIdx idx script_ class' addresses' nrequired' sigScript' prevScript' with
                | Some (Ok mergedScript) => Some (Ok (script (AddData script_ (builder_with mergedScript))))
                | r => r
                end
            end
        end
      else if beq class MultiSigTy then
        Some (mergeMultiSig tx msgIdx idx addresses nRequired pkScript sigScript prevScript)
      else Some (Ok (if len prevScript <? len sigScript then sigScript else prevScript))
  end.

Definition SignTxOutput (fuel : nat) (tx : Transaction) (msgIdx idx : Z) (pkScript : bytes) (hashType : SigHashType)
    (previousScript : bytes) : option (result error bytes) :=
  let r :=
    let? (sigScript, class, addresses, nrequired) := sign tx msgIdx idx pkScript hashType in
    let? sigScript :=
      (if beq class ScriptHashTy || beq class ContractHashTy then
         let? (realSigScript, _, _, _) := sign tx msgIdx idx sigScript hashType in
         Ok (script (AddData sigScript (builder_with realSigScript)))
       else Ok sigScript) in
    Ok (sigScript, class, addresses, nrequired) in
  match r with
  | Ok (sigScript, class, addresses, nrequired) =>
      mergeScripts fuel tx msgIdx idx pkScript class addresses nrequired sigScript previousScript
  | Err e => Some (Err e)
  | Panic => Some Panic
  end.
End Signing.
