(* ===== verification/SignProps.v ===== *)
(** What signing promises (sign.go): the unlock script of a pay-to-public-key-hash output, when
    [mergeScripts] returns, and what the merge of two multi-signature unlock scripts holds. *)

From Stdlib Require Import ZArith Lia.
From S2P Require Import Prelude Errors ScriptNum Stack Opcode Script Builder Address Standard Tx RlpModel TxProps SigHash SigCache Engine EngineInv EngineRun EngineProps SigCheck Steps Spend Redeem Sign.

(** ** Scripts *)

Lemma is_prefix_len sub b : is_prefix sub b = true -> len sub <= len b.
Proof.
  revert b. induction sub as [|x sub IH]; intros b; [intros _; apply len_nonneg|]. destruct b as [|y b]; [done|].
  cbn [is_prefix]. intros E. apply andb_true_iff in E as [_ E]. apply IH in E. rewrite !len_cons. lia.
Qed.

Lemma bytes_contains_len b sub : bytes_contains b sub = true -> len sub <= len b.
Proof.
  induction b as [|x b IH]; cbn [bytes_contains]; intros E; apply orb_true_iff in E as [E|E]; try done;
    try (by apply is_prefix_len in E). apply IH in E. rewrite len_cons. lia.
Qed.

(** A signature longer than every push of a script is not removed from it. *)
Lemma remove_long pops sig : Forall (fun pop => len (pop_data pop) < len sig) pops -> removeOpcodeByData pops sig = pops.
Proof.
  induction 1 as [|pop pops L _ IH]; [done|]. cbn [removeOpcodeByData List.filter] in *. unfold removeOpcodeByData in IH.
  rewrite IH. destruct (bytes_contains (pop_data pop) sig) eqn:C; [apply bytes_contains_len in C; lia|]. by rewrite orb_true_r.
Qed.

Lemma unparse_parsed s pops : parseScript s = (pops, None) -> unparseScript pops = Ok s.
Proof.
  intros E. pose proof (parsed_good _ _ _ E) as G. apply parseScript_inv in E as (r & _ & Es & R).
  rewrite unparse_good by done. by rewrite Es, (proj1 R eq_refl), app_nil_r.
Qed.

Lemma split_sig_app s ht : 0 <= ht < 256 -> split_sig (s ++ [z2b ht]) = (ht, s).
Proof.
  intros R. unfold split_sig. rewrite last_snoc, b2z_z2b, Z.mod_small by done. f_equal.
  apply slice_prefix. rewrite len_app, len_cons, len_nil. lia.
Qed.

Section Props.
Context `{ScriptEnv} `{Signer}.

(** ** Pay to public key hash *)

Lemma sign_p2pkh tx m i h lock ht pk sg data : len h = 20 -> payToPubKeyHashScript h = Ok lock ->
  GetPubKey (h ++ [PublicKeyHash]) = Ok pk -> 2 <= len pk <= 75 ->
  calcSignatureData env_keccakHash (p2pkh_pops h) ht tx m i = Ok data ->
  Sign (h ++ [PublicKeyHash]) data = Ok sg -> 1 <= len sg <= 74 ->
  sign tx m i lock ht =
  Ok (concat (map encoding [push (sg ++ [z2b ht]); push pk]), PubKeyHashTy, [mkAOD (h ++ [PublicKeyHash]) h], 1).
Proof.
  intros Hh Lk Gp Lp Hd Sg Ls. rewrite payToPubKeyHashScript_ok in Lk by done.
  assert (El : lock = concat (map encoding (p2pkh_pops h))) by congruence. subst lock. clear Lk.
  destruct (lock_pops_good h Hh) as (G & _ & _).
  assert (Ps : parseScript (concat (map encoding (p2pkh_pops h))) = (p2pkh_pops h, None)) by by apply parseScript_encoded.
  assert (Kt : known_type PublicKeyHash) by constructor.
  assert (Ls' : 2 <= len (sg ++ [z2b ht]) <= 75) by (rewrite len_app, len_cons, len_nil; lia).
  assert (Px : parsed (concat (map encoding (p2pkh_pops h))) = Ok (lock_pops PublicKeyHash h)) by (unfold parsed; by rewrite Ps).
  unfold sign. rewrite (Extract_lock_pops Hash160 _ h PublicKeyHash Hh Kt Px). cbn [rbind].
  change (class_of_type PublicKeyHash) with PubKeyHashTy.
  change (beq PubKeyHashTy PubKeyTy) with false. change (beq PubKeyHashTy PubKeyHashTy) with true. cbv iota.
  change (index [mkAOD (h ++ [PublicKeyHash]) h] 0) with (Some (mkAOD (h ++ [PublicKeyHash]) h)). cbn [rget rbind aod_Address].
  rewrite Gp. cbn [external rbind]. unfold SignatureScript_, RawTxInSignature, sign_data. rewrite Ps, Hd. cbn [rbind].
  rewrite Sg. cbn [rbind]. pose proof building_new as B. build_data (sg ++ [z2b ht]). build_data pk.
  by erewrite building_Script.
Qed.

Lemma SignTxOutput_p2pkh fuel tx m i h lock ht pk sg data : len h = 20 -> payToPubKeyHashScript h = Ok lock ->
  GetPubKey (h ++ [PublicKeyHash]) = Ok pk -> 2 <= len pk <= 75 ->
  calcSignatureData env_keccakHash (p2pkh_pops h) ht tx m i = Ok data ->
  Sign (h ++ [PublicKeyHash]) data = Ok sg -> 1 <= len sg <= 74 ->
  SignTxOutput (S fuel) tx m i lock ht [] = Some (Ok (concat (map encoding [push (sg ++ [z2b ht]); push pk]))).
Proof.
  intros. unfold SignTxOutput. erewrite sign_p2pkh by done. cbn [rbind].
  change (beq PubKeyHashTy ScriptHashTy || beq PubKeyHashTy ContractHashTy) with false. cbn [rbind mergeScripts].
  change (beq PubKeyHashTy ScriptHashTy) with false. change (beq PubKeyHashTy MultiSigTy) with false. cbv iota.
  set (s := concat _). replace (len [] <? len s) with true; [done|].
  symmetry. apply Z.ltb_lt. unfold s. cbn [map concat]. rewrite !encoding_push by (rewrite ?len_app, ?len_cons, ?len_nil; lia).
  rewrite len_app, len_cons, len_nil. match goal with |- context [len ?a + 1 + len ?b] => pose proof (len_nonneg a); pose proof (len_nonneg b) end. lia.
Qed.

(** ** When [mergeScripts] returns *)

(** The last push of a script. *)
Definition last_push (s : bytes) : bytes := pop_data (pop_at (parseScript s).1 (len (parseScript s).1 - 1)).

(** A script that parses to at least one opcode. *)
Definition has_opcodes (s : bytes) : Prop := exists pop pops, parseScript s = (pop :: pops, None).

(** Both scripts are there to be merged, and the redeem script of the new one pays to a script
    hash itself. *)
Definition nested (sigScript prevScript : bytes) : Prop :=
  has_opcodes sigScript /\ has_opcodes prevScript /\ GetScriptClass (last_push sigScript) = ScriptHashTy.

Lemma extract_class s : match ExtractPkScriptAddrs Hash160 s with Ok (c, _, _) => c = GetScriptClass s | _ => GetScriptClass s = NonStandardTy end.
Proof.
  unfold ExtractPkScriptAddrs, parsed, GetScriptClass. destruct (parseScript s) as [pops [e|]]; [done|]. cbn [rbind].
  repeat match goal with |- context [if ?b then _ else _] => destruct b end; done.
Qed.

Lemma mergeScripts_stuck fuel : forall tx m i pk addrs n sg prev, nested sg prev ->
  mergeScripts fuel tx m i pk ScriptHashTy addrs n sg prev = None.
Proof.
  induction fuel as [|fuel IH]; intros tx m i pk addrs n sg prev N; [done|].
  pose proof N as ((p1 & ps1 & E1) & (p2 & ps2 & E2) & C). cbn [mergeScripts].
  change (beq ScriptHashTy ScriptHashTy) with true. cbv iota. rewrite E1, E2.
  rewrite (unparse_parsed _ _ E1), (unparse_parsed _ _ E2). unfold last_push in C. rewrite E1 in C. simpl fst in C.
  set (scr := pop_data _) in *. pose proof (extract_class scr) as X.
  destruct (ExtractPkScriptAddrs Hash160 scr) as [[[c a] k]| |]; [|rewrite C in X; discriminate X..].
  rewrite X, C. by rewrite IH.
Qed.

Lemma mergeScripts_plain fuel tx m i pk class addrs n sg prev : class <> ScriptHashTy ->
  exists r, mergeScripts (S fuel) tx m i pk class addrs n sg prev = Some r.
Proof.
  intros C. cbn [mergeScripts]. apply beq_false in C. rewrite C. destruct (beq class MultiSigTy); by eexists.
Qed.

Lemma mergeScripts_returns fuel tx m i pk class addrs n sg prev :
  ~ (class = ScriptHashTy /\ nested sg prev) ->
  exists r, mergeScripts (S (S fuel)) tx m i pk class addrs n sg prev = Some r.
Proof.
  intros N. destruct (decide (class = ScriptHashTy)) as [-> |C]; [|by apply mergeScripts_plain].
  cbn [mergeScripts]. change (beq ScriptHashTy ScriptHashTy) with true. cbv iota.
  destruct (parseScript sg) as [[|p1 ps1] [e|]] eqn:E1; try by eexists.
  destruct (parseScript prev) as [[|p2 ps2] [e|]] eqn:E2; try by eexists.
  set (scr := pop_data _).
  assert (C : GetScriptClass scr <> ScriptHashTy).
  { intros C. apply N. split; [done|]. split; [by do 2 eexists|]. split; [by do 2 eexists|].
    unfold last_push. by rewrite E1. }
  pose proof (extract_class scr) as X.
  assert (Fin : forall c' a' n' s' p', c' <> ScriptHashTy -> exists r,
    match mergeScripts (S fuel) tx m i scr c' a' n' s' p' with
    | Some (Ok mergedScript) => Some (Ok (script (AddData scr (builder_with mergedScript))))
    | r => r
    end = Some r).
  { intros c' a' n' s' p' Nc. destruct (mergeScripts_plain fuel tx m i scr c' a' n' s' p' Nc) as [[?|?|] ->]; by eexists. }
  destruct (ExtractPkScriptAddrs Hash160 scr) as [[[c a] k]| |]; [apply Fin; congruence|apply Fin; done..].
Qed.

(** ** Merging multi-signature unlock scripts *)

Section Merge.
Variables (tx : Transaction) (m i : Z) (pkPops : list parsedOpcode) (addresses : list AddressOriginalData).
Hypothesis Hdata : forall ht, 0 <= ht < 256 -> exists data, calcSignatureData env_keccakHash pkPops ht tx m i = Ok data.
Abbreviation addr_string a := (Str CheckEncode_ (aod_Address a)).

(** The data a signature is checked over, whether a key verifies it, and the first address whose
    key does. *)
Definition data_of (s : bytes) : bytes :=
  match sign_data pkPops (split_sig s).1 tx m i with Ok d => d | _ => [] end.
Definition key_ok (key s : bytes) : bool := Verify key (split_sig s).2 (data_of s).
Definition owner (s : bytes) : option AddressOriginalData := List.find (fun a => key_ok (aod_Original a) s) addresses.
Definition claims (str : string) (s : bytes) : bool :=
  negb (len s <? 1) && match owner s with Some a => bool_decide (addr_string a = str) | None => false end.

Lemma assign_sig_eq addrs sig tSig data mp : assign_sig addrs sig tSig data mp =
  match List.find (fun a => Verify (aod_Original a) tSig data) addrs with
  | Some a => match mp !! addr_string a with Some _ => mp | None => <[addr_string a := sig]> mp end
  | None => mp
  end.
Proof. induction addrs as [|a addrs IH]; [done|]. simpl. destruct (Verify _ _ _); [done|]. apply IH. Qed.

(** The loop gives each address the first signature that is its own. *)
Lemma sigLoop_lookup sigs : forall mp, exists mp', sigLoop tx m i pkPops addresses sigs mp = Ok mp' /\
  forall str, mp' !! str = match mp !! str with Some x => Some x | None => List.find (claims str) sigs end.
Proof.
  induction sigs as [|s sigs IH]; intros mp; cbn [sigLoop List.find].
  { exists mp. split; [done|]. intros str. by destruct (mp !! str). }
  unfold claims at 1. destruct (len s <? 1) eqn:L; cbn [negb andb]; [apply IH|].
  destruct (Hdata _ (split_sig_range s)) as [d D]. unfold owner, key_ok, data_of, sign_data.
  destruct (split_sig s) as [ht tSig] eqn:Sp. simpl fst in *. simpl snd. rewrite D. cbn [rbind].
  rewrite assign_sig_eq. set (mp1 := match List.find _ _ with Some _ => _ | None => _ end).
  destruct (IH mp1) as (mp' & -> & Lk). exists mp'. split; [done|]. intros str. rewrite Lk. unfold mp1.
  destruct (List.find _ addresses) as [a|]; [|done].
  case_bool_decide as E.
  - subst str. destruct (mp !! addr_string a) eqn:Em; rewrite ?Em, ?lookup_insert_eq; done.
  - destruct (mp !! addr_string a); [done|]. by rewrite lookup_insert_ne.
Qed.

(** The signatures of the merged script. *)
Definition picks (possible : list bytes) : list bytes :=
  omap (fun a => List.find (claims (addr_string a)) possible) addresses.

Lemma sio_take_prefix ok keys sigs k : signed_in_order ok keys sigs -> signed_in_order ok keys (take k sigs).
Proof.
  intros S. revert k. induction S as [|key keys s sigs O _ IH|key keys sigs _ IH]; intros k.
  - rewrite take_nil. constructor.
  - destruct k; [constructor|]. simpl. apply sio_take; auto.
  - apply sio_skip. auto.
Qed.

Lemma picks_signed possible : NoDup (map (fun a => addr_string a) addresses) ->
  signed_in_order key_ok (map aod_Original addresses) (picks possible).
Proof.
  intros ND. unfold picks.
  assert (A : forall a s, a ∈ addresses -> List.find (claims (addr_string a)) possible = Some s -> key_ok (aod_Original a) s = true).
  { intros a s Ha F. apply List.find_some in F as [_ C]. unfold claims in C. apply andb_true_iff in C as [_ C].
    destruct (owner s) as [a'|] eqn:O; [|done]. apply bool_decide_eq_true_1 in C. apply List.find_some in O as [Ia O].
    apply list_elem_of_In in Ia. by rewrite <- (NoDup_map_inj _ _ a' a ND Ia Ha C). }
  assert (G : forall l, (forall a, a ∈ l -> a ∈ addresses) -> signed_in_order key_ok (map aod_Original l)
    (omap (fun a => List.find (claims (addr_string a)) possible) l)).
  { induction l as [|a l IH]; intros I; [constructor|]. simpl.
    destruct (List.find (claims (addr_string a)) possible) as [s|] eqn:F.
    - apply sio_take; [apply (A a); [apply I; constructor|done]|]. apply IH. intros; apply I; by constructor.
    - apply sio_skip, IH. intros; apply I; by constructor. }
  by apply G.
Qed.

Lemma add_sigs_building (mp : gmap string bytes) n addrs : (forall str s, mp !! str = Some s -> 2 <= len s <= 75) ->
  forall done_ b pops, building b pops -> 0 <= done_ < n -> len (script b) + 76 * len addrs <= 9900 ->
  let got := take (Z.to_nat (n - done_)) (omap (fun a => mp !! addr_string a) addrs) in
  exists b', add_sigs mp n addrs done_ b = (b', done_ + len got) /\ building b' (pops ++ map push got) /\
    len (script b') <= len (script b) + 76 * len addrs.
Proof.
  intros Ls. induction addrs as [|a addrs IH]; intros done_ b pops B D Sz; cbn [add_sigs omap list_omap].
  { exists b. simpl. rewrite take_nil, app_nil_r. split_and!; [by rewrite len_nil, Z.add_0_r|done|unfold len; simpl; lia]. }
  rewrite len_cons in Sz. pose proof (len_nonneg addrs) as Ln. cbv zeta. destruct (mp !! addr_string a) as [s|] eqn:E.
  2:{ destruct (IH done_ b pops B D ltac:(lia)) as (b' & Ea & B' & L'). exists b'. split_and!; [exact Ea|exact B'|rewrite len_cons; lia]. }
  specialize (Ls _ _ E). replace (Z.to_nat (n - done_)) with (S (Z.to_nat (n - (done_ + 1)))) by lia. cbn [take firstn].
  assert (B1 : building (AddData s b) (pops ++ [push s])) by (apply building_push; [done|done|lia]).
  assert (L1 : len (script (AddData s b)) = len (script b) + (len s + 1)).
  { rewrite (building_len _ _ B1), (building_len _ _ B), encodings_len_app. cbn [map concat].
    rewrite encoding_push, app_nil_r, len_cons by lia. lia. }
  destruct (Z.eqb_spec (done_ + 1) n) as [En|En].
  - exists (AddData s b). replace (n - (done_ + 1)) with 0 by lia. change (Z.to_nat 0) with 0%nat.
    rewrite take_0. split_and!; [done|exact B1|rewrite len_cons; lia].
  - destruct (IH (done_ + 1) _ _ B1 ltac:(lia) ltac:(lia)) as (b' & Ea & B' & L'). exists b'. split_and!.
    + rewrite Ea, len_cons. f_equal. lia.
    + rewrite <- app_assoc in B'. exact B'.
    + rewrite len_cons. lia.
Qed.

Lemma building_pad k b pops : building b pops -> len (script b) + Z.of_nat k < maxScriptSize ->
  building (Nat.iter k (AddOp OP_0) b) (pops ++ replicate k (plain OP_0)).
Proof.
  revert b pops. induction k as [|k IH]; intros b pops B L; [by rewrite app_nil_r|].
  rewrite Nat.iter_succ_r, replicate_S, cons_middle, app_assoc. apply IH.
  - apply building_AddOp; [done|done|lia].
  - assert (B1 : building (AddOp OP_0 b) (pops ++ [plain OP_0])) by (apply building_AddOp; [done|done|lia]).
    rewrite (building_len _ _ B1), encodings_len_app, <- (building_len _ _ B). cbn [map concat].
    rewrite encoding_plain by done. rewrite app_nil_r, len_cons, len_nil. lia.
Qed.

Lemma pad_len k : len (concat (map encoding (replicate k (plain OP_0)))) = Z.of_nat k.
Proof.
  induction k as [|k IH]; [done|]. cbn [replicate map concat]. rewrite len_app, IH, encoding_plain by done.
  rewrite len_cons, len_nil. lia.
Qed.

(** The merged script: OP_0, the signatures of the first [n] addresses that have one, in the
    order of the addresses, and OP_0 for each one missing. *)
Definition merged_pops (possible : list bytes) (n : Z) : list parsedOpcode :=
  let got := take (Z.to_nat n) (picks possible) in
  plain OP_0 :: map push got ++ replicate (Z.to_nat (n - len got)) (plain OP_0).

Lemma mergeMultiSig_merged pkScript sigScript prevScript sigPops prevPops n err :
  parseScript pkScript = (pkPops, err) ->
  parseScript sigScript = (sigPops, None) -> sigPops <> [] -> parseScript prevScript = (prevPops, None) -> prevPops <> [] ->
  1 <= n <= 16 -> len addresses <= 16 ->
  let possible := extractSigs sigPops ++ extractSigs prevPops in
  (forall s, s ∈ possible -> owner s <> None -> 2 <= len s <= 75) ->
  mergeMultiSig tx m i addresses n pkScript sigScript prevScript = Ok (concat (map encoding (merged_pops possible n))) /\
  Forall good_pop (merged_pops possible n) /\ len (concat (map encoding (merged_pops possible n))) <= 1300.
Proof.
  intros Ep E1 N1 E2 N2 Rn Ra possible Small. unfold mergeMultiSig. rewrite E1, E2, Ep.
  destruct sigPops as [|p1 ps1]; [done|]. destruct prevPops as [|p2 ps2]; [done|]. cbn [fst].
  fold possible. destruct (sigLoop_lookup possible ∅) as (mp & -> & Lk). cbn [rbind].
  assert (Lk' : forall str, mp !! str = List.find (claims str) possible) by (intros str; rewrite Lk, lookup_empty; done).
  assert (Sm : forall str s, mp !! str = Some s -> 2 <= len s <= 75).
  { intros str s F. rewrite Lk' in F. apply List.find_some in F as [I C]. unfold claims in C. apply andb_true_iff in C as [_ C].
    apply Small; [by apply list_elem_of_In|]. by destruct (owner s). }
  assert (B0 : building (AddOp OP_0 NewScriptBuilder) [plain OP_0]) by (apply (building_AddOp _ [] OP_0 building_new); done).
  assert (L0 : len (script (AddOp OP_0 NewScriptBuilder)) = 1) by done.
  destruct (add_sigs_building mp n addresses Sm 0 _ _ B0 ltac:(lia) ltac:(lia)) as (b' & -> & B' & L'). cbv zeta.
  assert (Pk : omap (fun a => mp !! addr_string a) addresses = picks possible).
  { unfold picks. assert (O : forall l : list AddressOriginalData, omap (fun a => mp !! addr_string a) l = omap (fun a => List.find (claims (addr_string a)) possible) l).
    { induction l as [|a l IH]; [done|]. simpl. rewrite Lk'. destruct (List.find _ _); [f_equal|]; exact IH. } apply O. }
  rewrite Z.sub_0_r in *. rewrite Pk in B' |- *.
  set (got := take (Z.to_nat n) (picks possible)) in *. rewrite Z.add_0_l. unfold pad_sigs.
  assert (Bp : building (Nat.iter (Z.to_nat (n - len got)) (AddOp OP_0) b') (merged_pops possible n) /\
               len (concat (map encoding (merged_pops possible n))) <= 1300).
  { change (merged_pops possible n) with (([plain OP_0] ++ map push got) ++ replicate (Z.to_nat (n - len got)) (plain OP_0)).
    pose proof (len_nonneg got). split; [apply building_pad; [done|]; unfold maxScriptSize; lia|].
    rewrite encodings_len_app, <- (building_len _ _ B'), pad_len. lia. }
  destruct Bp as ((_ & G & ->) & Lm). done.
Qed.
End Merge.

(** *** The merge under a redeem script *)

Section MergeRedeem.
Variables (tx : Transaction) (m i : Z) (keys items1 items2 : list bytes) (n : Z) (R : bytes).
Hypothesis Hk : 1 <= len keys <= 16.
Hypothesis Hn : 1 <= n <= len keys.
Hypothesis Hkeys : Forall (fun key => is_pubkey_len key = true) keys.
Hypothesis HR : R = concat (map encoding (multisig_pops keys n)).
Hypothesis LR : len R <= MaxScriptElementSize.
Abbreviation pops := (multisig_pops keys n).
Hypothesis Hdata : forall ht, 0 <= ht < 256 -> exists data, calcSignatureData env_keccakHash pops ht tx m i = Ok data.
Hypothesis Hp1 : Forall pushable (items1 ++ [R]).
Hypothesis Hp2 : Forall pushable (items2 ++ [R]).

Definition ms_addresses : list AddressOriginalData := map (fun k => NewAddressOriginalData Hash160 k PubKeyTy) keys.
Definition unlock_of (items : list bytes) : bytes := concat (map encoding (map canonical_pop (items ++ [R]))).
(** What is tried as a signature: the redeem script is among it, as the source does not remove it. *)
Definition ms_possible : list bytes :=
  extractSigs (map canonical_pop (items1 ++ [R])) ++ extractSigs (map canonical_pop (items2 ++ [R])).
Abbreviation Owner := (owner tx m i pops ms_addresses).
Hypothesis Hsmall : forall s, s ∈ ms_possible -> Owner s <> None -> 2 <= len s <= 75.

Lemma key_bounds : Forall (fun key => 33 <= len key <= 65) keys.
Proof. eapply Forall_impl; [exact Hkeys|]. intros k. apply pubkey_len_bounds. Qed.

Lemma redeem_parse : parseScript R = (pops, None).
Proof. rewrite HR. apply parseScript_encoded, multisig_good; [lia|lia|apply key_bounds]. Qed.

Lemma redeem_len : 4 <= len R.
Proof.
  pose proof (parse_length _ _ redeem_parse) as L. destruct (multisig_pops_at keys n) as (L' & _); [lia|]. lia.
Qed.

Lemma unlock_parse items : Forall pushable (items ++ [R]) ->
  parseScript (unlock_of items) = (map canonical_pop (items ++ [R]), None) /\ map canonical_pop (items ++ [R]) <> [].
Proof. intros F. split; [by apply parseScript_encoded, pushes_good|by destruct items]. Qed.

Lemma last_is_redeem items : pop_data (pop_at (map canonical_pop (items ++ [R])) (len (map canonical_pop (items ++ [R])) - 1)) = R.
Proof.
  pose proof redeem_len. rewrite map_app. cbn [map]. rewrite len_app, len_cons, len_nil, pop_at_middle by lia.
  unfold canonical_pop. repeat (bdestruct_step; try lia; cbn [andb orb]); done.
Qed.

Lemma merged_good : Forall good_pop (merged_pops tx m i pops ms_addresses ms_possible n) /\
  len (concat (map encoding (merged_pops tx m i pops ms_addresses ms_possible n))) <= 1300 /\
  mergeMultiSig tx m i ms_addresses n R (unlock_of items1) (unlock_of items2) =
    Ok (concat (map encoding (merged_pops tx m i pops ms_addresses ms_possible n))).
Proof.
  destruct (unlock_parse items1 Hp1) as [E1 N1], (unlock_parse items2 Hp2) as [E2 N2].
  assert (La : len ms_addresses <= 16) by (unfold ms_addresses, len in *; rewrite length_map; lia).
  destruct (mergeMultiSig_merged tx m i pops ms_addresses Hdata R _ _ _ _ n None redeem_parse E1 N1 E2 N2 ltac:(lia) La Hsmall) as (Mg & G & Lm).
  done.
Qed.

Lemma merged_build : building (AddData R (builder_with (concat (map encoding (merged_pops tx m i pops ms_addresses ms_possible n)))))
    (merged_pops tx m i pops ms_addresses ms_possible n ++ [canonical_pop R]).
Proof.
  destruct merged_good as (G & Lm & _). unfold MaxScriptElementSize in LR.
  apply building_AddData; [done|done|]. cbn [builder_with script].
  assert (canonicalDataSize R <= 525) by (unfold canonicalDataSize; repeat (bdestruct_step; try lia; cbn [andb orb])).
  unfold maxScriptSize. lia.
Qed.

Lemma mergeScripts_size :
  len (concat (map encoding (merged_pops tx m i pops ms_addresses ms_possible n ++ [canonical_pop R]))) <= maxScriptSize.
Proof.
  destruct merged_good as (_ & Lm & _). unfold MaxScriptElementSize in LR. rewrite encodings_len_app. cbn [map concat].
  rewrite app_nil_r, <- canonicalDataSize_encoding by lia.
  assert (canonicalDataSize R <= 525) by (unfold canonicalDataSize; repeat (bdestruct_step; try lia; cbn [andb orb])).
  unfold maxScriptSize. lia.
Qed.

Lemma mergeScripts_redeem fuel pk addrs k :
  mergeScripts (S (S fuel)) tx m i pk ScriptHashTy addrs k (unlock_of items1) (unlock_of items2) =
  Some (Ok (concat (map encoding (merged_pops tx m i pops ms_addresses ms_possible n ++ [canonical_pop R])))).
Proof.
  destruct (unlock_parse items1 Hp1) as [E1 N1], (unlock_parse items2 Hp2) as [E2 N2].
  destruct merged_good as (_ & _ & Mg). cbn [mergeScripts]. change (beq ScriptHashTy ScriptHashTy) with true. cbv iota.
  rewrite E1, E2, last_is_redeem, (unparse_parsed _ _ E1), (unparse_parsed _ _ E2).
  rewrite (Extract_multisig Hash160 R keys n) by (done || lia || (unfold parsed; by rewrite redeem_parse)).
  fold ms_addresses. change (beq MultiSigTy ScriptHashTy) with false. change (beq MultiSigTy MultiSigTy) with true. cbv iota.
  rewrite Mg. destruct (map canonical_pop (items1 ++ [R])) as [|? ?]; [done|]. destruct (map canonical_pop (items2 ++ [R])) as [|? ?]; [done|].
  by destruct merged_build as (_ & _ & ->).
Qed.
End MergeRedeem.
End Props.

(** A check that only looks at keys of a list and signatures of a list. *)
Lemma sio_impl_sigs (ok ok' : bytes -> bytes -> bool) keys sigs :
  (forall k s, s ∈ sigs -> ok k s = true -> ok' k s = true) ->
  signed_in_order ok keys sigs -> signed_in_order ok' keys sigs.
Proof.
  intros I S. induction S as [|k keys s sigs O _ IH|k keys sigs _ IH]; [constructor| |].
  - apply sio_take; [apply I; [constructor|done]|]. apply IH. intros; apply I; [by constructor|done].
  - apply sio_skip, IH. intros; apply I; [done|done].
Qed.

Section Accepted.
Context `{ScriptEnv} `{Signer}.

Lemma picks_claimed tx m i pops addresses possible s : s ∈ picks tx m i pops addresses possible ->
  s ∈ possible /\ owner tx m i pops addresses s <> None /\ 1 <= len s.
Proof.
  unfold picks. rewrite list_elem_of_omap. intros (a & _ & F). apply List.find_some in F as [I C]. unfold claims in C.
  apply andb_true_iff in C as [L C]. split; [by apply list_elem_of_In|]. split; [by destruct (owner _ _ _ _ _ s)|lia].
Qed.

Lemma code_kept keys sigs : (forall s k, s ∈ sigs -> k ∈ keys -> len k < len s) ->
  (forall s, s ∈ sigs -> 1 <= len s) -> multisig_code keys sigs = multisig_pops keys (len sigs).
Proof.
  intros L P. unfold multisig_code. assert (L' : forall s k, s ∈ rev sigs -> k ∈ keys -> len k < len s).
  { intros s k I Ik. apply L; [|done]. by apply list_elem_of_In, List.in_rev, list_elem_of_In in I. }
  assert (P' : forall s, s ∈ rev sigs -> 1 <= len s).
  { intros s I. apply P. by apply list_elem_of_In, List.in_rev, list_elem_of_In in I. }
  generalize (len sigs). revert L' P'. generalize (rev sigs). induction l as [|s l IH]; intros L' P' n; [done|]. cbn [fold_left].
  rewrite remove_long.
  { apply IH; [intros s' k I; apply L'; by apply elem_of_cons; right|intros s' I; apply P'; by apply elem_of_cons; right]. }
  assert (1 <= len s) by (apply P'; constructor). unfold multisig_pops.
  rewrite Forall_cons, Forall_app. split_and!; [simpl; rewrite len_nil; lia| |].
  - apply Forall_forall. intros pop I. apply list_elem_of_fmap in I as (k & -> & Ik). simpl. apply L'; [constructor|done].
  - repeat constructor; simpl; rewrite len_nil; lia.
Qed.

Lemma merged_full tx m i pops addresses possible n : 1 <= n <= len (picks tx m i pops addresses possible) ->
  let got := take (Z.to_nat n) (picks tx m i pops addresses possible) in
  len got = n /\ merged_pops tx m i pops addresses possible n = plain OP_0 :: map push got.
Proof.
  intros R got. assert (L : len got = n) by (unfold got, len in *; rewrite length_take; lia).
  split; [done|]. unfold merged_pops. fold got. rewrite L, Z.sub_diag. simpl. by rewrite app_nil_r.
Qed.
End Accepted.

(** ** Properties *)

(** [mergeScripts] returns, within two calls, exactly when it is not asked to merge two
    scripts whose redeem script is itself a pay-to-script-hash script; in that case it calls
    itself with the same scripts for ever, as the last push is not removed before the call. *)
Theorem mergeScripts_termination `{ScriptEnv} `{Signer} (tx : Transaction) (m i : Z) (pkScript : bytes) (class : ScriptClass)
    (addresses : list AddressOriginalData) (n : Z) (sigScript prevScript : bytes) :
  (exists fuel r, mergeScripts fuel tx m i pkScript class addresses n sigScript prevScript = Some r) <->
  ~ (class = ScriptHashTy /\ nested sigScript prevScript).
Proof.
  split.
  - intros (fuel & r & E) [-> N]. by rewrite mergeScripts_stuck in E.
  - intros N. exists 2%nat. by apply mergeScripts_returns.
Qed.

(** Merging two partial multi-signature unlock scripts keeps what they have: the result is
    OP_0, then at most [n] signatures taken from the two scripts, in the order of the keys and each
    verified by its own key, then OP_0 for every missing one.  (The signatures that verify have an
    ordinary size, and the addresses of the keys are distinct.) *)
Theorem mergeMultiSig_spec `{ScriptEnv} `{Signer} (tx : Transaction) (m i : Z) (addresses : list AddressOriginalData) (n : Z)
    (pkScript sigScript prevScript : bytes) (pkPops sigPops prevPops : list parsedOpcode) :
  parseScript pkScript = (pkPops, None) ->
  parseScript sigScript = (sigPops, None) -> sigPops <> [] -> parseScript prevScript = (prevPops, None) -> prevPops <> [] ->
  1 <= n <= 16 -> len addresses <= 16 -> NoDup (map (fun a => Str CheckEncode_ (aod_Address a)) addresses) ->
  (forall ht, 0 <= ht < 256 -> exists data, calcSignatureData env_keccakHash pkPops ht tx m i = Ok data) ->
  let possible := extractSigs sigPops ++ extractSigs prevPops in
  (forall s, s ∈ possible -> owner tx m i pkPops addresses s <> None -> 2 <= len s <= 75) ->
  exists got, mergeMultiSig tx m i addresses n pkScript sigScript prevScript =
      Ok (concat (map encoding (plain OP_0 :: map push got ++ replicate (Z.to_nat (n - len got)) (plain OP_0)))) /\
    len got = Z.min n (len (picks tx m i pkPops addresses possible)) /\
    Forall (fun s => s ∈ possible) got /\
    signed_in_order (key_ok tx m i pkPops) (map aod_Original addresses) got.
Proof.
  intros Ep E1 N1 E2 N2 Rn Ra ND Hd possible Small.
  exists (take (Z.to_nat n) (picks tx m i pkPops addresses possible)). split; [|split; [|split]].
  - by apply (mergeMultiSig_merged tx m i pkPops addresses Hd pkScript sigScript prevScript sigPops prevPops n None).
  - unfold len. rewrite length_take. lia.
  - apply Forall_take, Forall_forall. intros s I. by apply picks_claimed in I as [? _].
  - by apply sio_take_prefix, picks_signed.
Qed.

(** C24: enough signers make a spend: when the two unlock scripts of a pay-to-script-hash
    multi-signature output hold, between them, signatures of at least [n] of the keys, the script
    that [mergeScripts] makes of them is accepted by the engine, in a transaction whose signature
    data are those that were signed, whatever the signature cache holds. *)
Theorem merged_spend_accepted `{ScriptEnv} `{Signer} (tx t : Transaction) (m i : Z) (mg : Message) (p : PaymentPayload)
    (input : Input) (keys items1 items2 : list bytes) (n : Z) (R h lock pk : bytes) (addrs : list AddressOriginalData)
    (k : Z) (c : option SigCache) (fuel : nat) :
  let pops := multisig_pops keys n in
  let possible := ms_possible items1 items2 R in
  len h = 20 -> 1 <= len keys <= 16 -> 1 <= n <= len keys -> NoDup keys -> Forall (fun key => is_pubkey_len key = true) keys ->
  NoDup (map (fun a => Str CheckEncode_ (aod_Address a)) (ms_addresses keys)) ->
  R = concat (map encoding pops) -> len R <= MaxScriptElementSize -> Hash160 R = h ->
  Forall pushable (items1 ++ [R]) -> Forall pushable (items2 ++ [R]) ->
  (forall ht, 0 <= ht < 256 -> exists data, calcSignatureData env_keccakHash pops ht tx m i = Ok data) ->
  (forall script ht, 0 <= ht < 256 -> exists data, calcSignatureData env_keccakHash script ht t m i = Ok data) ->
  (forall s, s ∈ possible -> owner tx m i pops (ms_addresses keys) s <> None ->
    len s <= 75 /\ (forall key, key ∈ keys -> len key < len s) /\
    calcSignatureData env_keccakHash pops (split_sig s).1 t m i = calcSignatureData env_keccakHash pops (split_sig s).1 tx m i) ->
  n <= len (picks tx m i pops (ms_addresses keys) possible) ->
  payToScriptHashScript h = Ok lock ->
  exists unlock, mergeScripts (S (S fuel)) tx m i pk ScriptHashTy addrs k (unlock_of R items1) (unlock_of R items2) = Some (Ok unlock) /\
    unlock = concat (map encoding (plain OP_0 ::
      map push (take (Z.to_nat n) (picks tx m i pops (ms_addresses keys) possible)) ++ [canonical_pop R])) /\
    (index (Messages t) m = Some mg -> Payload mg = Some (PayPayment p) -> index (Inputs p) i = Some input ->
     SignatureScript input = unlock ->
     exists vm v, NewEngine lock t m i StandardVerifyExcludeSignFlags c = Ok vm /\ Execute vm = (v, Some (Ok tt))).
Proof.
  intros pops possible Hh Hk Hn ND Fk NDs HR LR Hash F1 F2 Hd Hd' Hs Le Lk.
  assert (Kb : Forall (fun key => 33 <= len key <= 65) keys) by by apply key_bounds.
  assert (Small : forall s, s ∈ possible -> owner tx m i pops (ms_addresses keys) s <> None -> 2 <= len s <= 75).
  { intros s Is O. destruct (Hs s Is O) as (L & K & _). split; [|done]. destruct keys as [|key keys]; [by vm_compute in Hk|].
    specialize (K key ltac:(constructor)). apply Forall_cons in Kb as [Lk' _]. simpl in Lk'. lia. }
  eexists. split; [by apply (mergeScripts_redeem tx m i keys items1 items2 n R Hk Hn Fk HR LR Hd F1 F2 Small)|].
  fold pops. fold possible.
  destruct (merged_full tx m i pops (ms_addresses keys) possible n (conj (proj1 Hn) Le)) as [Lg Mp]. rewrite Mp.
  split; [done|]. intros Im Pm Ii Ss.
  set (got := take (Z.to_nat n) (picks tx m i pops (ms_addresses keys) possible)) in *.
  assert (Got : forall s, s ∈ got -> s ∈ possible /\ owner tx m i pops (ms_addresses keys) s <> None /\ 1 <= len s).
  { intros s Is. apply (picks_claimed tx m i pops (ms_addresses keys)). by apply subseteq_take in Is. }
  assert (Gp : Forall pushable got /\ plain OP_0 :: map push got ++ [canonical_pop R] = map canonical_pop (([] :: got) ++ [R])).
  { assert (Gl : Forall (fun s => 2 <= len s <= 75) got).
    { apply Forall_forall. intros s Is. destruct (Got s Is) as (Ip & O & _). by apply Small. }
    split.
    - eapply Forall_impl; [exact Gl|]. intros s L. cbv beta in L. split; [unfold MaxScriptElementSize; lia|]. intros ->. change (len [x00]) with 1 in L. lia.
    - cbn [app map]. rewrite map_app. f_equal. cbn [map]. f_equal. clear -Gl. induction Gl as [|s l L _ IH]; [done|].
      cbn [map]. by rewrite IH, canonical_pop_push. }
  destruct Gp as [Fg Eq]. cbn [app] in Ss. rewrite Eq in Ss.
  assert (Code : multisig_code keys got = pops).
  { rewrite code_kept, Lg; [done| |].
    - intros s key Is Ik. destruct (Got s Is) as (Ip & O & _). by apply (Hs s Ip O).
    - intros s Is. by apply Got. }
  assert (Hn' : 1 <= len got <= len keys) by lia.
  assert (HR' : R = concat (map encoding (multisig_pops keys (len got)))) by (rewrite Lg; exact HR).
  assert (Sz : len (SignatureScript input) <= maxScriptSize).
  { rewrite Ss, <- Eq. change (plain OP_0 :: map push got ++ [canonical_pop R]) with ((plain OP_0 :: map push got) ++ [canonical_pop R]).
    rewrite <- Mp. apply (mergeScripts_size tx m i keys items1 items2 n R); done. }
  destruct (p2sh_multisig_verdict t m i mg p input keys got R h lock c Hh Hk Hn' ND Kb Fg HR' LR Hash Hd' Sz Im Pm Ii Ss Lk)
    as (vm & v & b & N & E & Lo & _).
  exists vm, v. split; [done|]. rewrite Lo in E; [exact E|]. rewrite Code.
  apply (sio_impl_sigs (key_ok tx m i pops)).
  - intros key s Is O. destruct (Got s Is) as (Ip & Ow & L1). destruct (Hs s Ip Ow) as (_ & _ & Ed).
    apply NewEngine_ok in N as (? & ? & ? & ? & ? & _ & _ & _ & _ & _ & _ & _ & ->). unfold sig_ok. cbn [Engine.tx msgIdx txIdx].
    replace (len s =? 0) with false by lia. rewrite Ed. revert O. unfold key_ok, data_of, sign_data.
    destruct (Hd _ (split_sig_range s)) as [d ->]. done.
  - replace keys with (map aod_Original (ms_addresses keys)); [by apply sio_take_prefix, picks_signed|].
    unfold ms_addresses. rewrite map_map. clear. induction keys as [|key l IH]; [done|]. cbn [map]. by rewrite IH.
Qed.

(** A signer for the witnesses: the key of an address is its first two bytes, and its signature
    is the key. *)
Definition sample_signer : Signer := {|
  Sign := fun a _ => Ok (take 2 a);
  GetPubKey := fun a => Ok (take 2 a);
  GetScript := fun _ => Err "no script"%string;
  CheckEncode_ := toy_encode
|}.

(** A two-of-two redeem script and one signature by each key. *)
Definition two_redeem : bytes := concat (map encoding (multisig_pops ms_keys 2)).
Definition sig_a : bytes := replicate 33 x0a ++ [x11; x01].
Definition sig_b : bytes := replicate 33 x0b ++ [x22; x01].
Definition two_unlock : bytes := concat (map encoding (plain OP_0 :: map push [sig_a; sig_b] ++ [canonical_pop two_redeem])).

Lemma two_addresses : NoDup (map (fun a => Str (CheckEncode_ (Signer := sample_signer)) (aod_Address a)) (ms_addresses (H := sample_env) ms_keys)).
Proof.
  cbn [ms_addresses ms_keys map]. constructor; [|constructor; [apply not_elem_of_nil|constructor]].
  intros E. apply list_elem_of_singleton in E. vm_compute in E. discriminate E.
Qed.

Lemma two_picks : picks (H := sample_env) (H0 := sample_signer) (spend_with []) 0 0 (multisig_pops ms_keys 2)
  (ms_addresses (H := sample_env) ms_keys) (ms_possible [[]; sig_b] [[]; sig_a] two_redeem) = [sig_a; sig_b].
Proof. reflexivity. Qed.

Lemma two_owner_small s : s ∈ ms_possible [[]; sig_b] [[]; sig_a] two_redeem ->
  owner (H := sample_env) (spend_with []) 0 0 (multisig_pops ms_keys 2) (ms_addresses (H := sample_env) ms_keys) s <> None ->
  s = sig_a \/ s = sig_b.
Proof.
  change (ms_possible [[]; sig_b] [[]; sig_a] two_redeem) with [sig_b; two_redeem; sig_a; two_redeem].
  rewrite !elem_of_cons, elem_of_nil. intros [-> |[-> |[-> |[-> |[]]]]] O; auto; exfalso; apply O; reflexivity.
Qed.

Lemma mergeMultiSig_spec_witness :
  exists out, mergeMultiSig (H := sample_env) (H0 := sample_signer) (spend_with []) 0 0 (ms_addresses (H := sample_env) ms_keys) 2
    two_redeem (unlock_of two_redeem [[]; sig_b]) (unlock_of two_redeem [[]; sig_a]) = Ok out.
Proof.
  destruct (mergeMultiSig_spec (H := sample_env) (H0 := sample_signer) (spend_with []) 0 0 (ms_addresses (H := sample_env) ms_keys) 2
    two_redeem (unlock_of two_redeem [[]; sig_b]) (unlock_of two_redeem [[]; sig_a]) (multisig_pops ms_keys 2)
    (map canonical_pop ([[]; sig_b] ++ [two_redeem])) (map canonical_pop ([[]; sig_a] ++ [two_redeem]))
    ltac:(vm_compute; reflexivity) ltac:(vm_compute; reflexivity) ltac:(discriminate) ltac:(vm_compute; reflexivity) ltac:(discriminate)
    ltac:(vm_compute; split; congruence) ltac:(vm_compute; congruence) two_addresses
    (fun ht _ => spend_with_data [] (multisig_pops ms_keys 2) ht)) as (got & E & _).
  - intros s Is O. destruct (two_owner_small s Is O) as [-> | ->]; vm_compute; split; congruence.
  - eexists. exact E.
Defined.

Lemma two_data s : s = sig_a \/ s = sig_b ->
  calcSignatureData (L := digit_lib) (fun b => take 32 b) (multisig_pops ms_keys 2) (split_sig s).1 (spend_with two_unlock) 0 0 =
  calcSignatureData (L := digit_lib) (fun b => take 32 b) (multisig_pops ms_keys 2) (split_sig s).1 (spend_with []) 0 0.
Proof.
  intros S. apply (sighash_stable digit_lib digit_laws).
  - apply one_payment_encodable. constructor; [discriminate | constructor].
  - apply one_payment_encodable. constructor; [discriminate | constructor].
  - reflexivity.
  - destruct S as [-> | ->]; reflexivity.
  - left. reflexivity.
Qed.

Lemma merged_spend_accepted_witness :
  exists lock vm v, payToScriptHashScript (take 20 two_redeem) = Ok lock /\
    NewEngine lock (spend_with two_unlock) 0 0 StandardVerifyExcludeSignFlags None = Ok vm /\
    Execute (H := sample_env) vm = (v, Some (Ok tt)).
Proof.
  destruct (payToScriptHashScript (take 20 two_redeem)) as [lock| |] eqn:L; [|vm_compute in L; discriminate L..].
  assert (ND : NoDup ms_keys).
  { constructor; [|constructor; [apply not_elem_of_nil|constructor]]. intros E; apply list_elem_of_singleton in E; discriminate E. }
  assert (Push : forall s, s = sig_a \/ s = sig_b -> Forall pushable ([[]; s] ++ [two_redeem])).
  { intros s S. repeat constructor; try discriminate; destruct S as [-> | ->]; try discriminate; vm_compute; congruence. }
  destruct (merged_spend_accepted (H := sample_env) (H0 := sample_signer) (spend_with []) (spend_with two_unlock) 0 0
    (spend_message two_unlock) (spend_payment two_unlock) (spend_input two_unlock) ms_keys [[]; sig_b] [[]; sig_a] 2
    two_redeem (take 20 two_redeem) lock [] [] 0 None 0 eq_refl ltac:(vm_compute; split; congruence)
    ltac:(vm_compute; split; congruence) ND ltac:(repeat constructor) two_addresses eq_refl ltac:(vm_compute; congruence) eq_refl
    (Push sig_b (or_intror eq_refl)) (Push sig_a (or_introl eq_refl))
    (fun ht _ => spend_with_data [] (multisig_pops ms_keys 2) ht) (fun script ht _ => spend_with_data two_unlock script ht))
    as (unlock & _ & U & Acc).
  - intros s Is O. destruct (two_owner_small s Is O) as [S|S]; (split; [|split; [|apply two_data; auto]]); rewrite S;
      try (vm_compute; congruence); intros key Ik; apply elem_of_cons in Ik as [-> |Ik];
      try (vm_compute; congruence); apply list_elem_of_singleton in Ik as ->; vm_compute; congruence.
  - rewrite two_picks. vm_compute. congruence.
  - exact L.
  - destruct (Acc eq_refl eq_refl eq_refl) as (vm & v & N & E).
    + rewrite U, two_picks. reflexivity.
    + exists lock, vm, v. split; [reflexivity|]. split; [exact N|exact E].
Defined.
