(* ===== verification/TokenApi.v ===== *)
(** The token engine: src/tokenengine/api.go, the package the rest of the node calls to make,
    read, unlock and check scripts; and the addresses of keys and redeem scripts
    (src/common/crypto/crypto.go).

    A [TokenEngine] is its signature cache: [ScriptValidate] and [ScriptValidate1Msg] are
    computations over it.  A map keyed by [OutPoint.String()], the printed fields of the outpoint,
    is a map keyed by the outpoint.  [Execute] always ends ([Execute_spec]), and the input scripts
    that [SignTx1MsgPaymentInput] gives to [SignTxOutput] are empty, so that its merge returns at
    once: [sign_fuel].  What Go drops with [_] is dropped here. *)

From Stdlib Require Import ZArith Lia Ascii.
From S2P Require Import Prelude Errors ScriptNum Stack Opcode Text Script Builder Address Standard Tx RlpModel TxProps SigHash SigCache Engine EngineInv EngineRun EngineProps SigCheck Steps Spend Redeem Sign.

(** ** Lock scripts *)

Definition GenerateP2PKHLockScript (pubKeyHash : bytes) : bytes :=
  script (AddOp OP_CHECKSIG (AddOp OP_EQUALVERIFY (AddData pubKeyHash
    (AddOp OP_HASH160 (AddOp OP_DUP NewScriptBuilder))))).

Definition GenerateP2SHLockScript (redeemScriptHash : bytes) : bytes :=
  script (AddOp OP_EQUAL (AddData redeemScriptHash (AddOp OP_HASH160 NewScriptBuilder))).

Definition GenerateP2CHLockScript (contractId : Address) : bytes :=
  script (AddOp OP_JURY_REDEEM_EQUAL (AddData (Address_Bytes contractId) NewScriptBuilder)).

(** [script, _ := PayToAddrScript(address)]: nil for an unknown type of address. *)
Definition GenerateLockScript (address : Address) : bytes :=
  match PayToAddrScript address with Ok s => s | _ => [] end.

Definition GenerateP2PKHUnlockScript (sign pubKey : bytes) : bytes :=
  script (AddData pubKey (AddData sign NewScriptBuilder)).

(** [PubKey4Sort]: the greater key comes first. *)
Definition PubKey_Less (a b : bytes) : bool := match bytes_compare a b with Gt => true | _ => false end.

(** [sort.Sort]: an insertion sort; keys that compare equal are equal, so every sort gives the
    same list. *)
Fixpoint insert_key (x : bytes) (l : list bytes) : list bytes :=
  match l with
  | [] => [x]
  | y :: l' => if PubKey_Less y x then y :: insert_key x l' else x :: l
  end.
Definition sort_keys (l : list bytes) : list bytes := foldr insert_key [] l.

(** The redeem script and the caller's slice after it, which is sorted in place. *)
Definition GenerateRedeemScript (needed : byte) (pubKeys : list bytes) : bytes * list bytes :=
  if beq needed x00 then ([], pubKeys)
  else
    match pubKeys with
    | [pubKey] => (script (AddOp OP_CHECKSIG (AddData pubKey NewScriptBuilder)), pubKeys)
    | _ =>
        let pubKeys := sort_keys pubKeys in
        let builder := AddOp (z2b (b2z needed + 80)) NewScriptBuilder in
        let builder := addKeys pubKeys builder in
        (script (AddOp OP_CHECKMULTISIG (AddOp (z2b (len pubKeys + 80)) builder)), pubKeys)
    end.

(** [builder.AddData(sign + SigHashRaw)] for each signature *)
Definition MergeContractUnlockScript (signs : list bytes) (redeemScript : bytes) : bytes :=
  let builder := AddOp OP_0 NewScriptBuilder in
  let builder := fold_left (fun b sign => AddData (sign ++ [x04]) b) signs builder in
  script (AddData redeemScript builder).

Section Api.
Context `{ScriptEnv}.

(** ** Addresses *)

Definition PubkeyBytesToAddress (pubKeyCompressBytes : bytes) : Address :=
  if len pubKeyCompressBytes =? 0 then zeroAddress
  else NewAddress (Hash160 pubKeyCompressBytes) PublicKeyHash.
Definition ScriptToAddress (redeemScript : bytes) : Address := NewAddress (Hash160 redeemScript) ScriptHash.
Definition ScriptHashToAddress (scriptHash : bytes) : Address := NewAddress scriptHash ScriptHash.

(** A script without exactly one address has the zero address, and no error. *)
Definition GetAddressFromScript (lockScript : bytes) : result error Address :=
  let? (scriptClass, addrs, _) := ExtractPkScriptAddrs Hash160 lockScript in
  if beq scriptClass NonStandardTy then Ok zeroAddress
  else
    match addrs with
    | [a] => Ok (aod_Address a)
    | _ => Ok zeroAddress
    end.

Definition GetAddressFromUnlockScript (unlockScript : bytes) : result error Address :=
  match DisasmString unlockScript with
  | (_, Some e) => Err e
  | (scriptStr, None) =>
      let scriptArray := Split " " scriptStr in
      match scriptArray with
      | [_; pubKey] => Ok (PubkeyBytesToAddress (DecodeString pubKey))
      | _ =>
          if len scriptArray <? 2 then Err ErrInvalidUnlockScript
          else
            let? redeemStr := rget (index scriptArray (len scriptArray - 1)) in
            Ok (ScriptToAddress (DecodeString redeemStr))
      end
  end.

(** ** Checking scripts *)

(** [tx.Clone()], [tx.GetRequestTx()] and the like, whose errors cannot occur. *)
Definition tx_value {A} (r : result tx_error A) : result error A :=
  match r with Ok a => Ok a | _ => Panic end.

(** [for idx, msg := range msgs]: whether message [msgIdx] comes before every request. *)
Fixpoint before_request (idx msgIdx : Z) (isRequestMsg : bool) (msgs : list Message) : bool :=
  match msgs with
  | [] => false
  | msg :: msgs' =>
      let isRequestMsg := isRequestMsg || IsRequest (App msg) in
      ((idx =? msgIdx) && negb isRequestMsg) || before_request (idx + 1) msgIdx isRequestMsg msgs'
  end.

(** [NewEngine] and [Execute] with the engine's cache. *)
Definition run_script (utxoLockScript : bytes) (txCopy : Transaction) (msgIdx inputIndex : Z) : ST SigCache error unit :=
  fun cache =>
    match NewEngine utxoLockScript txCopy msgIdx inputIndex StandardVerifyExcludeSignFlags (Some cache) with
    | Ok vm =>
        let '(vm', r) := Execute vm in
        (match sigCache vm' with Some c => c | None => cache end,
         match r with Some r => r | None => Panic end)
    | Err e => (cache, Err e)
    | Panic => (cache, Panic)
    end.

Definition ScriptValidate (utxoLockScript : bytes) (tx : Transaction) (msgIdx inputIndex : Z) : ST SigCache error unit :=
  let! txCopy := lift (tx_value (Clone tx)) in
  let! txCopy :=
    (if IsContractTx tx then
       let! msgs := lift (tx_value (TxMessages tx)) in
       if before_request 0 msgIdx false msgs then lift (tx_value (GetRequestTx tx)) else ret txCopy
     else ret txCopy) in
  run_script utxoLockScript txCopy msgIdx inputIndex.

(** The inputs of a message, in order; an outpoint without an entry has a nil lock script. *)
Fixpoint validate_inputs (utxoLockScripts : gmap OutPoint bytes) (txCopy : Transaction) (msgIdx inputIndex : Z)
    (inputs : list Input) : ST SigCache error unit :=
  match inputs with
  | [] => ret tt
  | input :: inputs' =>
      let! o := get (PreviousOutPoint input) in
      let utxoLockScript := match utxoLockScripts !! o with Some s => s | None => [] end in
      run_script utxoLockScript txCopy msgIdx inputIndex ;;;
      validate_inputs utxoLockScripts txCopy msgIdx (inputIndex + 1) inputs'
  end.

(** The transaction a message's scripts are checked against. *)
Definition message_tx (tx : Transaction) (msgIdx : Z) : result error Transaction :=
  if IsContractTx tx then
    if before_request 0 msgIdx false (Messages tx) then tx_value (GetRequestTx tx) else Ok tx
  else Ok tx.

Definition ScriptValidate1Msg (utxoLockScripts : gmap OutPoint bytes) (tx : Transaction) (msgIdx : Z)
  : ST SigCache error unit :=
  let! txCopy := lift (message_tx tx msgIdx) in
  let! msg := get (index (Messages tx) msgIdx) in
  let! pay := lift (as_payment msg) in
  validate_inputs utxoLockScripts txCopy msgIdx 0 (Inputs pay).

(** ** Who signed *)

(** [crypto.MyCryptoLib.Hash] *)
Variable crypto_Hash : bytes -> result string bytes.

Definition CalcSignatureHash_ (tx : Transaction) (hashType msgIdx inputIdx : Z) (lockOrRedeemScript : bytes)
  : result error bytes :=
  CalcSignatureHash env_keccakHash crypto_Hash lockOrRedeemScript hashType tx msgIdx inputIdx.

(** [for i, op := range ops]: the signatures, the public keys of the redeem script, the redeem
    script and the hash type of the last signature. *)
Fixpoint signer_ops (i n : Z) (ops : list string) (signatures pubkeys : list bytes) (redeem : bytes) (hashType : byte)
  : result error (list bytes * list bytes * bytes * byte) :=
  match ops with
  | [] => Ok (signatures, pubkeys, redeem, hashType)
  | op :: ops' =>
      if String.eqb op "0" then signer_ops (i + 1) n ops' signatures pubkeys redeem hashType
      else if i + 1 =? n then
        let redeem := DecodeString op in
        let rops := Fields (DisasmString redeem).1 in
        let keys := map DecodeString (slice rops 1 (Z.max 1 (len rops - 2))) in
        signer_ops (i + 1) n ops' signatures (pubkeys ++ keys) redeem hashType
      else
        let s := DecodeString op in
        match last s with
        | None => Panic
        | Some t => signer_ops (i + 1) n ops' (signatures ++ [slice s 0 (len s - 1)]) pubkeys redeem t
        end
  end.

Definition GetScriptSigners (tx : Transaction) (msgIdx inputIndex : Z) : result error (list Address) :=
  let? msg := rget (index (Messages tx) msgIdx) in
  let? pay := as_payment msg in
  let? input := rget (index (Inputs pay) inputIndex) in
  let ops := Fields (DisasmString (SignatureScript input)).1 in
  let? (signatures, pubkeys, redeem, hashType) := signer_ops 0 (len ops) ops [] [] [] x00 in
  match CalcSignatureHash_ tx (b2z hashType) msgIdx inputIndex redeem with
  | Panic => Panic
  | r =>
      let hash := match r with Ok h => h | _ => [] end in
      Ok (flat_map (fun sign =>
            map PubkeyBytesToAddress (List.filter (fun pubkey => Verify pubkey sign hash) pubkeys)) signatures)
  end.

(** ** Signing *)

(** The functions the caller gives; the redeem script of every address is the one given. *)
Record account := mkAccount { pubKeyFn : Address -> result string bytes; signFn : Address -> bytes -> result string bytes }.
Variable CheckEncode : bytes -> byte -> string.

Definition account_signer (acc : account) (redeemScript : bytes) : Signer := {|
  Sign := signFn acc;
  GetPubKey := pubKeyFn acc;
  GetScript := fun _ => Ok redeemScript;
  CheckEncode_ := CheckEncode
|}.

Definition MultiSignOnePaymentInput (fuel : nat) (tx : Transaction) (hashType msgIdx id : Z) (utxoLockScript redeemScript : bytes)
    (acc : account) (previousScript : bytes) : option (result error bytes) :=
  SignTxOutput (H0 := account_signer acc redeemScript) fuel tx msgIdx id utxoLockScript hashType previousScript.

(** The error of a call, and the entry of [SignatureError] when there is one. *)
Inductive sign_failure :=
| InvalidPayment
| UtxoNotFound (o : OutPoint)
| SignError (MsgIndex InputIndex : Z) (e : error).

Definition sign_fuel : nat := 2.

(** A call of a method of [Transaction] without errors. *)
Definition on_tx {E A} (f : ST Transaction tx_error A) : ST Transaction E A :=
  fun tx => match f tx with (tx', Ok a) => (tx', Ok a) | (tx', _) => (tx', Panic) end.

Section SignTx.
Variables (acc : account) (redeemScript : bytes) (hashType : Z) (utxoLockScripts : gmap OutPoint bytes).

(** [for j, input := range pay.Inputs], in message [i]: [signed_] are the inputs before [j]. *)
Fixpoint sign_inputs (i j : Z) (app : MessageType) (outs : list Output) (lt : Z) (signed_ inputs : list Input)
  : ST Transaction sign_failure unit :=
  match inputs with
  | [] => ret tt
  | input :: inputs' =>
      if 0 <? len (SignatureScript input) then sign_inputs i (j + 1) app outs lt (signed_ ++ [input]) inputs'
      else
        let! o := get (PreviousOutPoint input) in
        match utxoLockScripts !! o with
        | None => throw (UtxoNotFound o)
        | Some checkscript =>
            if negb (Z.land hashType SigHashSingle =? SigHashSingle) || (j <? len outs) then
              let! tx := gets (fun tx => tx) in
              match SignTxOutput (H0 := account_signer acc redeemScript) sign_fuel tx i j checkscript hashType (SignatureScript input) with
              | Some (Ok sigScript) =>
                  let input' := mkInput sigScript (Extra input) (PreviousOutPoint input) in
                  on_tx (ModifiedMsg env_keccakHash i
                    (mkMessage app (Some (PayPayment (mkPayment (signed_ ++ input' :: inputs') outs lt))))) ;;;
                  sign_inputs i (j + 1) app outs lt (signed_ ++ [input']) inputs'
              | Some (Err e) => throw (SignError i j e)
              | _ => panic
              end
            else sign_inputs i (j + 1) app outs lt (signed_ ++ [input]) inputs'
        end
  end.

(** [for i, msg := range tx.TxMessages()] *)
Fixpoint sign_messages (i msgIdx : Z) (msgs : list Message) : ST Transaction sign_failure unit :=
  match msgs with
  | [] => ret tt
  | msg :: msgs' =>
      (if ((i =? msgIdx) || (msgIdx =? -1)) && (App msg =? APP_PAYMENT) then
         match Payload msg with
         | Some (PayPayment pay) => sign_inputs i 0 (App msg) (Outputs pay) (LockTime pay) [] (Inputs pay)
         | _ => throw InvalidPayment
         end
       else ret tt) ;;;
      sign_messages (i + 1) msgIdx msgs'
  end.

Definition SignTx1MsgPaymentInput (msgIdx : Z) : ST Transaction sign_failure unit :=
  let! msgs := on_tx (fun tx => (tx, TxMessages tx)) in
  sign_messages 0 msgIdx msgs.

Definition SignTxAllPaymentInput : ST Transaction sign_failure unit := SignTx1MsgPaymentInput (-1).
End SignTx.
End Api.
