(* ===== verification/ApiProps.v ===== *)
(** The token engine's promises: what a wallet signs with [SignTxAllPaymentInput] a node accepts
    with [ScriptValidate1Msg], and the redeem scripts of [GenerateRedeemScript] do not depend on
    the order of the keys. *)

From Stdlib Require Import ZArith Lia Ascii.
From stdpp Require Import sorting.
From S2P Require Import Prelude Errors ScriptNum Stack Opcode Text Script Builder Address Standard Tx RlpModel TxProps SigHash SigCache Engine EngineInv EngineRun EngineProps SigCheck Steps Spend Redeem Sign SignProps TokenApi.

(** ** Signing and validating *)

Section Signed.
Context `{ScriptEnv} (LL : RlpLaws env_rlp) (acc : account) (CheckEncode : bytes -> byte -> string).
Variables (redeemScript : bytes) (utxos : gmap OutPoint bytes).
Hypothesis (Blind : script_blind env_rlp) (SafeP : codec_safe c_payment) (SafeT : codec_safe c_tx).

(** The account holds the key of the output an input spends: the key hashes to the address, and
    what it signs verifies. *)
Definition holds (input : Input) : Prop :=
  exists o h pk lock, PreviousOutPoint input = Some o /\ utxos !! o = Some lock /\ len h = 20 /\
    payToPubKeyHashScript h = Ok lock /\ pubKeyFn acc (h ++ [PublicKeyHash]) = Ok pk /\ Hash160 pk = h /\
    2 <= len pk <= 75 /\
    forall data, exists sg, signFn acc (h ++ [PublicKeyHash]) data = Ok sg /\ 20 <= len sg <= 74 /\ Verify pk sg data = true.

(** An input signed over the data of [tx0]. *)
Definition signed_in (tx0 : Transaction) (m i : Z) (input : Input) : Prop :=
  exists o h pk lock sg data, PreviousOutPoint input = Some o /\ utxos !! o = Some lock /\ len h = 20 /\
    payToPubKeyHashScript h = Ok lock /\ Hash160 pk = h /\ 2 <= len pk <= 75 /\ 20 <= len sg <= 74 /\
    calcSignatureData env_keccakHash (p2pkh_pops h) SigHashAll tx0 m i = Ok data /\ Verify pk sg data = true /\
    SignatureScript input = concat (map encoding [push (sg ++ [z2b SigHashAll]); push pk]).

Variable tx0 : Transaction.
Hypothesis En0 : encodable_tx (txdata tx0).

Lemma resigned_encodable tx : same_but_signatures tx0 tx -> encodable_tx (txdata tx).
Proof. intros S. by apply (Blind (txdata tx0)). Qed.

Lemma signed_data_stable tx m i script : same_but_signatures tx0 tx ->
  GetRequestMsgIndex tx0 = -1 \/ m <= GetRequestMsgIndex tx0 ->
  calcSignatureData env_keccakHash script SigHashAll tx m i = calcSignatureData env_keccakHash script SigHashAll tx0 m i.
Proof. intros S R. symmetry. apply sighash_stable; try done. by apply resigned_encodable. Qed.

(** *** One input *)
Lemma sign_one tx m i input o lock mg p : same_but_signatures tx0 tx ->
  GetRequestMsgIndex tx0 = -1 \/ m <= GetRequestMsgIndex tx0 ->
  index (Messages tx0) m = Some mg -> Payload mg = Some (PayPayment p) -> 0 <= i < len (Inputs p) ->
  holds input -> PreviousOutPoint input = Some o -> utxos !! o = Some lock ->
  exists s, SignTxOutput (H0 := account_signer CheckEncode acc redeemScript) sign_fuel tx m i lock SigHashAll [] = Some (Ok s) /\
    signed_in tx0 m i (mkInput s (Extra input) (PreviousOutPoint input)).
Proof.
  intros S R Im P Ri (o' & h & pk & lock' & Po & U & Hh & Lk & Gp & Hp & Lp & Sg) Po' U'.
  assert (o' = o) by congruence. subst o'. assert (lock' = lock) by congruence. subst lock'.
  destruct (signed_data_ok env_keccakHash (p2pkh_pops h) SigHashAll tx0 m i tx0 m mg p) as [data Hd]; try done.
  destruct (Sg data) as (sg & Es & Ls & V).
  eexists. split.
  - apply (SignTxOutput_p2pkh (H0 := account_signer CheckEncode acc redeemScript) 1 tx m i h lock SigHashAll pk sg data); try done; [|lia].
    by rewrite signed_data_stable.
  - exists o, h, pk, lock, sg, data. split_and!; try done; lia.
Qed.

(** A signed input passes, whatever the cache. *)
Lemma signed_runs tx m i mg p input cache : same_but_signatures tx0 tx ->
  GetRequestMsgIndex tx0 = -1 \/ m <= GetRequestMsgIndex tx0 ->
  index (Messages tx) m = Some mg -> Payload mg = Some (PayPayment p) -> index (Inputs p) i = Some input ->
  signed_in tx0 m i input ->
  exists o lock cache', PreviousOutPoint input = Some o /\ utxos !! o = Some lock /\
    run_script lock tx m i cache = (cache', Ok tt).
Proof.
  intros S R Im P Ii (o & h & pk & lock & sg & data & Po & U & Hh & Lk & Hp & Lp & Ls & Hd & V & Ss).
  exists o, lock.
  assert (L : len (sg ++ [z2b SigHashAll]) = len sg + 1) by (rewrite len_app; reflexivity).
  pose proof (split_sig_app sg SigHashAll ltac:(unfold SigHashAll; lia)) as Sp.
  destruct (p2pkh_execute tx m i mg p input h (sg ++ [z2b SigHashAll]) pk lock data (Some cache)) as (vm & vm' & r & N & X & _ & R' & _);
    try done; try lia.
  { rewrite Sp, remove_long; [cbn [fst]; by rewrite signed_data_stable|].
    repeat constructor; rewrite L; simpl; rewrite ?len_nil; lia. }
  rewrite Sp in R'. cbn [snd] in R'.
  assert (r = Ok tt) as -> by (apply R'; split; [done|by apply accepts_verified]).
  unfold run_script. rewrite N, X. eexists. by split_and!.
Qed.

(** *** All inputs of a message *)
Lemma replace_at_app pre m0 post msg : forall j,
  replace_at j (j + len pre) msg (pre ++ m0 :: post) = pre ++ msg :: post.
Proof.
  induction pre as [|x pre IH]; intros j; simpl.
  - rewrite len_nil, Z.add_0_r, Z.eqb_refl. f_equal. assert (K : j < j + 1) by lia. revert K. generalize (j + 1).
    induction post as [|y post IH]; intros k K; [done|]. simpl. replace (k =? j) with false by lia. f_equal. apply IH. lia.
  - rewrite len_cons. pose proof (len_nonneg pre). replace (j =? j + (len pre + 1)) with false by lia. f_equal.
    replace (j + (len pre + 1)) with (j + 1 + len pre) by lia. apply IH.
Qed.

(** Storing a message that differs in signature scripts only. *)
Lemma ModifiedMsg_resigned {E} tx pre m0 post msg : same_but_signatures tx0 tx -> Messages tx = pre ++ m0 :: post ->
  strip_message msg = strip_message m0 ->
  exists tx', on_tx (E := E) (ModifiedMsg env_keccakHash (len pre) msg) tx = (tx', Ok tt) /\
    same_but_signatures tx0 tx' /\ Messages tx' = pre ++ msg :: post.
Proof.
  intros S M Sm. unfold on_tx, ModifiedMsg, bind at 1, gets at 1. rewrite M, len_app, len_cons.
  pose proof (len_nonneg post). replace (_ <? _) with false by lia.
  pose proof (replace_at_app pre m0 post msg 0) as Ra. rewrite Z.add_0_l in Ra. rewrite Ra.
  set (d := mkSdw (pre ++ msg :: post) (CertId tx) (Illegal tx)).
  assert (S' : same_but_signatures tx0 (new_tx d)).
  { unfold same_but_signatures in *. rewrite S. unfold d, strip, new_tx. simpl. fold (Messages tx). rewrite M.
    rewrite !map_app. simpl. by rewrite Sm. }
  pose proof (resigned_encodable _ S') as En.
  assert (N : forall b, EncodeRLP (mkSdw (pre ++ msg :: post) (CertId tx) b) <> Panic).
  { intros b. apply EncodeRLP_safe; [done..|]. eapply Forall_impl; [apply En|apply sendable_encodable]. }
  assert (Hx : exists h, (Hash_ env_keccakHash (new_tx d)).2 = Ok h).
  { unfold Hash_, bind, gets, lift, RlpHash, legal. cbn [tx_hash new_tx txdata d sdw_Illegal sdw_TxMessages sdw_CertId snd].
    assert (K : (if Illegal tx then mkSdw (pre ++ msg :: post) (CertId tx) false else d) = mkSdw (pre ++ msg :: post) (CertId tx) false)
      by (unfold d; by destruct (Illegal tx)).
    rewrite K. pose proof (N false) as N1. destruct (EncodeRLP _); [by eexists|by eexists|done]. }
  destruct Hx as [h Hx]. unfold set_data, bind, modify, lift. rewrite Hx. cbn. eexists. by split_and!.
Qed.

Lemma strip_payment m a b outs lt :
  map (fun x => mkInput [] (Extra x) (PreviousOutPoint x)) a = map (fun x => mkInput [] (Extra x) (PreviousOutPoint x)) b ->
  strip_message (mkMessage m (Some (PayPayment (mkPayment a outs lt)))) =
  strip_message (mkMessage m (Some (PayPayment (mkPayment b outs lt)))) \/ m <> APP_PAYMENT.
Proof.
  intros E. destruct (Z.eq_dec m APP_PAYMENT) as [->|]; [left|by right]. unfold strip_message. simpl.
  unfold clear_signatures. simpl. by rewrite E.
Qed.

Lemma sign_inputs_ok pre post outs lt mg p :
  GetRequestMsgIndex tx0 = -1 \/ len pre <= GetRequestMsgIndex tx0 ->
  index (Messages tx0) (len pre) = Some mg -> Payload mg = Some (PayPayment p) ->
  forall inputs signed_ tx, same_but_signatures tx0 tx ->
  Messages tx = pre ++ mkMessage APP_PAYMENT (Some (PayPayment (mkPayment (signed_ ++ inputs) outs lt))) :: post ->
  len signed_ + len inputs = len (Inputs p) ->
  Forall (fun x => SignatureScript x = [] /\ holds x) inputs ->
  exists tx' inputs', sign_inputs CheckEncode acc redeemScript SigHashAll utxos (len pre) (len signed_) APP_PAYMENT outs lt signed_ inputs tx =
      (tx', Ok tt) /\ same_but_signatures tx0 tx' /\
    Messages tx' = pre ++ mkMessage APP_PAYMENT (Some (PayPayment (mkPayment (signed_ ++ inputs') outs lt))) :: post /\
    forall k x, index inputs' k = Some x -> signed_in tx0 (len pre) (len signed_ + k) x.
Proof.
  intros R Im P. induction inputs as [|input inputs IH]; intros signed_ tx S M L F.
  { exists tx, []. split_and!; try done. intros k x. unfold index. destruct (k <? 0); [done|]. by rewrite lookup_nil. }
  rewrite len_cons in L. pose proof (len_nonneg inputs). pose proof (len_nonneg signed_).
  apply Forall_cons in F as [[Ss Ho] F]. cbn [sign_inputs]. rewrite Ss. change (0 <? len []) with false. cbv iota.
  pose proof Ho as (o & h & pk & lock & Po & U & _). rewrite Po. change (get (Some o)) with (ret (S := Transaction) (E := sign_failure) o).
  unfold bind at 1, ret at 1. rewrite U.
  change (negb (Z.land SigHashAll SigHashSingle =? SigHashSingle)) with true. cbn [orb]. unfold bind at 1, gets at 1.
  destruct (sign_one tx (len pre) (len signed_) input o lock mg p) as (s & Sx & Si); try done; [lia|]. rewrite Sx.
  set (input' := mkInput s (Extra input) (Some o)). rewrite Po in Si. fold input' in Si.
  destruct (ModifiedMsg_resigned (E := sign_failure) tx pre _ post
    (mkMessage APP_PAYMENT (Some (PayPayment (mkPayment (signed_ ++ input' :: inputs) outs lt)))) S M) as (tx1 & E1 & S1 & M1).
  { edestruct strip_payment as [->|N]; [|reflexivity|done]. rewrite !map_app. simpl. by rewrite Po. }
  unfold bind at 1. rewrite E1.
  destruct (IH (signed_ ++ [input']) tx1 S1) as (tx' & inputs' & E & S' & M' & Si').
  { by rewrite <- app_assoc. } { rewrite len_app, len_cons, len_nil. lia. } { done. }
  rewrite len_app, len_cons, len_nil, Z.add_0_l in E, Si'. rewrite E. exists tx', (input' :: inputs').
  split_and!; [done|done|by rewrite M', <- app_assoc|].
  intros k x. rewrite index_cons. destruct (Z.eqb_spec k 0) as [->|]; [intros I; injection I as <-; by rewrite Z.add_0_r|].
  intros I. replace (len signed_ + k) with (len signed_ + 1 + (k - 1)) by lia. by apply Si'.
Qed.

(** *** All messages *)

(** Every payment input of a message, at index [m], is signed. *)
Definition signed_message (m : Z) (mg : Message) : Prop :=
  App mg = APP_PAYMENT -> exists p, Payload mg = Some (PayPayment p) /\
    forall i x, index (Inputs p) i = Some x -> signed_in tx0 m i x.

(** A payment that the account can sign. *)
Definition signable (mg : Message) : Prop :=
  App mg = APP_PAYMENT -> exists p, Payload mg = Some (PayPayment p) /\
    Forall (fun x => SignatureScript x = [] /\ holds x) (Inputs p).

Hypothesis Req : forall m mg, index (Messages tx0) m = Some mg -> App mg = APP_PAYMENT ->
  GetRequestMsgIndex tx0 = -1 \/ m <= GetRequestMsgIndex tx0.

Lemma sign_messages_ok : forall msgs pre0 pre tx, Messages tx0 = pre0 ++ msgs -> len pre0 = len pre ->
  same_but_signatures tx0 tx -> Messages tx = pre ++ msgs -> Forall signable msgs ->
  exists tx' msgs', sign_messages CheckEncode acc redeemScript SigHashAll utxos (len pre) (-1) msgs tx = (tx', Ok tt) /\
    same_but_signatures tx0 tx' /\ Messages tx' = pre ++ msgs' /\
    forall k mg, index msgs' k = Some mg -> signed_message (len pre + k) mg.
Proof.
  induction msgs as [|mg msgs IH]; intros pre0 pre tx M0 L0 S M F.
  { exists tx, []. split_and!; try done. intros k x. unfold index. destruct (k <? 0); [done|]. by rewrite lookup_nil. }
  apply Forall_cons in F as [Fm F]. cbn [sign_messages]. rewrite orb_true_r. cbn [andb].
  assert (Step : exists tx1 mg1,
    (if App mg =? APP_PAYMENT then
       match Payload mg with
       | Some (PayPayment pay) => sign_inputs CheckEncode acc redeemScript SigHashAll utxos (len pre) 0 (App mg) (Outputs pay) (LockTime pay) [] (Inputs pay)
       | _ => throw InvalidPayment
       end
     else ret tt) tx = (tx1, Ok tt) /\ same_but_signatures tx0 tx1 /\ Messages tx1 = pre ++ mg1 :: msgs /\ signed_message (len pre) mg1).
  { destruct (Z.eqb_spec (App mg) APP_PAYMENT) as [A|A]; [|exists tx, mg; split_and!; [done..|intros A'; done]].
    destruct (Fm A) as (p & P & Fi). rewrite P, A.
    assert (I0 : index (Messages tx0) (len pre) = Some mg) by (rewrite M0; by apply index_middle).
    destruct (sign_inputs_ok pre msgs (Outputs p) (LockTime p) mg p (Req _ _ I0 A) I0 P (Inputs p) [] tx S) as (tx1 & ins & E & S1 & M1 & Si);
      [|done|done|].
    - rewrite M. do 2 f_equal. destruct mg, p; simpl in *; congruence.
    - exists tx1. eexists. split_and!; [exact E|exact S1|exact M1|]. intros _. eexists. by split. }
  destruct Step as (tx1 & mg1 & E1 & S1 & M1 & Sg). unfold bind at 1. rewrite E1.
  destruct (IH (pre0 ++ [mg]) (pre ++ [mg1]) tx1) as (tx' & msgs' & E & S' & M' & Si); try done.
  { by rewrite <- app_assoc. } { rewrite !len_app, !len_cons, !len_nil. lia. } { by rewrite <- app_assoc. }
  rewrite len_app, len_cons, len_nil, Z.add_0_l in E, Si. exists tx', (mg1 :: msgs').
  split_and!; [done|done|by rewrite M', <- app_assoc|].
  intros k x. rewrite index_cons. destruct (Z.eqb_spec k 0) as [->|]; [intros I; injection I as <-; by rewrite Z.add_0_r|].
  intros I. replace (len pre + k) with (len pre + 1 + (k - 1)) by lia. by apply Si.
Qed.

Lemma validate_inputs_ok tx m mg p : same_but_signatures tx0 tx ->
  GetRequestMsgIndex tx0 = -1 \/ m <= GetRequestMsgIndex tx0 ->
  index (Messages tx) m = Some mg -> Payload mg = Some (PayPayment p) ->
  (forall i x, index (Inputs p) i = Some x -> signed_in tx0 m i x) ->
  forall inputs pre cache, Inputs p = pre ++ inputs ->
  exists cache', validate_inputs utxos tx m (len pre) inputs cache = (cache', Ok tt).
Proof.
  intros S R Im P Si. induction inputs as [|x inputs IH]; intros pre cache E; [by eexists|].
  assert (I : index (Inputs p) (len pre) = Some x) by (rewrite E; by apply index_middle).
  destruct (signed_runs tx m (len pre) mg p x cache S R Im P I (Si _ _ I)) as (o & lock & cache1 & Po & U & X).
  cbn [validate_inputs]. rewrite Po. change (get (Some o)) with (ret (S := SigCache) (E := error) o).
  unfold bind at 1, ret at 1. rewrite U. unfold bind. rewrite X.
  destruct (IH (pre ++ [x]) cache1) as (cache' & V); [by rewrite <- app_assoc|].
  rewrite len_app, len_cons, len_nil, Z.add_0_l in V. by exists cache'.
Qed.
End Signed.

Lemma IsContractTx_strip tx1 tx2 : same_but_signatures tx1 tx2 -> IsContractTx tx1 = IsContractTx tx2.
Proof.
  intros S. destruct (same_messages _ _ S) as (E & _). unfold IsContractTx. revert E.
  generalize (Messages tx2). induction (Messages tx1) as [|m l IH]; intros [|m' l'] E; try done.
  simpl in E |- *. injection E as Em E. rewrite (IH _ E). by rewrite <- (strip_App m), <- (strip_App m'), Em.
Qed.

(** ** Redeem scripts *)

(** No key is before a greater one. *)
Definition descending (a b : bytes) : Prop := PubKey_Less b a = false.

Lemma PubKey_Less_asym a b : PubKey_Less a b = true -> PubKey_Less b a = false.
Proof. unfold PubKey_Less. rewrite (bytes_compare_antisym b a). by destruct (bytes_compare b a). Qed.
Lemma PubKey_Less_total a b : PubKey_Less a b = false -> PubKey_Less b a = false -> a = b.
Proof.
  unfold PubKey_Less. rewrite (bytes_compare_antisym b a). destruct (bytes_compare b a) eqn:C; try done.
  intros _ _. symmetry. by apply bytes_compare_eq.
Qed.
#[global] Instance descending_trans : Transitive descending.
Proof.
  intros a b c H1 H2. unfold descending, PubKey_Less in *. rewrite (bytes_compare_antisym a c).
  destruct (bytes_compare a c) eqn:C; try done. exfalso.
  rewrite (bytes_compare_antisym a b) in H1. rewrite (bytes_compare_antisym b c) in H2.
  destruct (bytes_compare a b) eqn:A, (bytes_compare b c) eqn:B; try done.
  - apply bytes_compare_eq in A, B. subst. assert (bytes_compare c c = Eq) by by apply bytes_compare_eq. congruence.
  - apply bytes_compare_eq in A. subst. congruence.
  - apply bytes_compare_eq in B. subst. congruence.
  - assert (X : bytes_compare c a = Lt).
    { apply (bytes_compare_trans c b a); rewrite bytes_compare_antisym; by rewrite ?A, ?B. }
    rewrite bytes_compare_antisym, C in X. done.
Qed.
#[global] Instance descending_antisymm : AntiSymm (=) descending.
Proof. intros a b A B. by apply PubKey_Less_total. Qed.

Lemma insert_key_perm x l : insert_key x l ≡ₚ x :: l.
Proof. induction l as [|y l IH]; simpl; [done|]. destruct (PubKey_Less y x); [|done]. rewrite IH. constructor. Qed.
Lemma sort_keys_perm l : sort_keys l ≡ₚ l.
Proof. induction l as [|x l IH]; simpl; [done|]. by rewrite insert_key_perm, IH. Qed.
Lemma insert_key_sorted x l : StronglySorted descending l -> StronglySorted descending (insert_key x l).
Proof.
  induction 1 as [|y l S IH F]; simpl; [repeat constructor|]. destruct (PubKey_Less y x) eqn:L.
  - constructor; [done|]. rewrite insert_key_perm. constructor; [by apply PubKey_Less_asym|done].
  - constructor; [by constructor|]. constructor; [done|]. eapply Forall_impl; [exact F|]. intros z Z. by transitivity y.
Qed.
Lemma sort_keys_sorted l : StronglySorted descending (sort_keys l).
Proof. induction l as [|x l IH]; simpl; [constructor|]. by apply insert_key_sorted. Qed.
Lemma sort_keys_order l l' : l ≡ₚ l' -> sort_keys l = sort_keys l'.
Proof.
  intros P. apply (StronglySorted_unique descending); try apply sort_keys_sorted. by rewrite !sort_keys_perm.
Qed.

(** A redeem script of two keys or more is the multi-signature script of the sorted keys. *)
Lemma GenerateRedeemScript_pops needed keys : 2 <= len keys <= 16 -> 1 <= b2z needed <= 16 ->
  Forall (fun k => is_pubkey_len k = true) keys ->
  GenerateRedeemScript needed keys = (concat (map encoding (multisig_pops (sort_keys keys) (b2z needed))), sort_keys keys) /\
  Forall good_pop (multisig_pops (sort_keys keys) (b2z needed)).
Proof.
  intros K N F. unfold GenerateRedeemScript.
  assert (beq needed x00 = false) as ->.
  { apply beq_false. intros ->. vm_compute in N. by destruct N. }
  destruct keys as [|k1 [|k2 keys]]; [unfold len in K; simpl in K; lia..|]. set (ks := k1 :: k2 :: keys) in *.
  assert (Lk : len (sort_keys ks) = len ks) by (unfold len; by rewrite sort_keys_perm).
  assert (Fs : Forall (fun k => is_pubkey_len k = true) (sort_keys ks)) by by rewrite sort_keys_perm.
  assert (Op : forall n, 1 <= n <= 16 -> z2b (n + 80) = small_op n).
  { intros n Hn. unfold small_op. rewrite (proj2 (Z.eqb_neq n 0)) by lia. f_equal. lia. }
  rewrite (Op (b2z needed)), (Op (len (sort_keys ks))) by (rewrite ?Lk; lia). pose proof building_new as B.
  assert (B1 := building_AddOp _ _ (small_op (b2z needed)) B (proj1 (small_op_facts (b2z needed) ltac:(lia))) ltac:(done)).
  assert (L1 : len (script (AddOp (small_op (b2z needed)) NewScriptBuilder)) = 1).
  { rewrite (building_len _ _ B1). cbn [app map concat]. rewrite app_nil_r, encoding_plain by (apply small_op_facts; lia). done. }
  destruct (addKeys_building (sort_keys ks) _ _ B1 Fs) as [B2 L2]; [lia|].
  assert (B3 := building_AddOp _ _ (small_op (len (sort_keys ks))) B2 (proj1 (small_op_facts (len (sort_keys ks)) ltac:(lia))) ltac:(unfold maxScriptSize; lia)).
  assert (L3 : len (script (AddOp (small_op (len (sort_keys ks))) (addKeys (sort_keys ks) (AddOp (small_op (b2z needed)) NewScriptBuilder)))) <= 2000).
  { rewrite (building_len _ _ B3), encodings_len_app, <- (building_len _ _ B2). cbn [map concat].
    rewrite app_nil_r, encoding_plain by (apply small_op_facts; lia). change (len [small_op (len (sort_keys ks))]) with 1. lia. }
  assert (B4 := building_AddOp _ _ OP_CHECKMULTISIG B3 eq_refl ltac:(unfold maxScriptSize; lia)).
  rewrite <- !app_assoc in B4. cbn [app] in B4. destruct B4 as (_ & G & S). split; [by rewrite S|exact G].
Qed.

(** ** Addresses of unlock scripts *)

Abbreviation no_space := (free_of " ").

Lemma hex_no_space d : no_space (hex_bytes d) = true.
Proof. induction d as [|b d IH]; [done|]. cbn [hex_bytes]. destruct b; exact IH. Qed.
(** The words of a script of pushes. *)
Definition word (pop : parsedOpcode) : string := print pop true.

Lemma word_data pop : op_length (pop_opcode pop) <> 1 -> word pop = hex_bytes (pop_data pop).
Proof. intros L. unfold word, print. by rewrite (proj2 (Z.eqb_neq _ _) L). Qed.

Lemma Split_disasm pops : pops <> [] -> Forall (fun pop => no_space (word pop) = true) pops ->
  Split " " (disasm_pops pops) = map word pops.
Proof.
  intros N F. induction F as [|pop pops W F IH]; [done|]. destruct pops as [|pop' pops]; [by apply Split_word|].
  change (disasm_pops (pop :: pop' :: pops)) with (word pop +:+ String " " (disasm_pops (pop' :: pops))).
  rewrite (Split_first " ") by done. by rewrite IH.
Qed.

Lemma push_word d : 1 <= len d <= 75 -> word (push d) = hex_bytes d.
Proof.
  intros L. apply word_data. unfold push. cbn [pop_opcode]. intros E.
  assert (X : len d ∈ seqZ 1 75) by (apply elem_of_seqZ; lia). revert X E. generalize (len d). clear.
  apply (Forall_forall (fun n => op_length (opcodeArray (z2b n)) = 1 -> False)). repeat constructor; done.
Qed.
Lemma canonical_word d : 2 <= len d -> word (canonical_pop d) = hex_bytes d.
Proof.
  intros L. unfold canonical_pop. rewrite !(proj2 (Z.eqb_neq (len d) _)) by lia. cbn [orb andb].
  repeat match goal with |- context [if ?b then _ else _] => destruct b eqn:? end; try (by apply word_data).
  apply push_word. lia.
Qed.

Lemma canonicalDataSize_bound d : canonicalDataSize d <= len d + 5.
Proof.
  unfold canonicalDataSize. pose proof (len_nonneg d). change (b2z OP_PUSHDATA1) with 76.
  repeat match goal with |- context [if ?b then _ else _] => destruct b end; lia.
Qed.

Lemma building_signs signs : forall b pops, building b pops -> Forall (fun s => 1 <= len s <= 74) signs ->
  len (script b) + 76 * len signs <= 9000 ->
  let b' := fold_left (fun b sign => AddData (sign ++ [x04]) b) signs b in
  building b' (pops ++ map (fun s => push (s ++ [x04])) signs) /\ len (script b') <= len (script b) + 76 * len signs.
Proof.
  induction signs as [|s signs IH]; intros b pops B F S; cbn [fold_left map].
  - rewrite app_nil_r. split; [done|]. change (len (@nil bytes)) with 0; lia.
  - apply Forall_cons in F as [Fs F]. rewrite len_cons in *. pose proof (len_nonneg signs).
    assert (Ls : len (s ++ [x04]) = len s + 1) by (rewrite len_app; reflexivity).
    assert (B' : building (AddData (s ++ [x04]) b) (pops ++ [push (s ++ [x04])])) by (apply building_push; done || lia).
    assert (L' : len (script (AddData (s ++ [x04]) b)) = len (script b) + 1 + len (s ++ [x04])).
    { rewrite (building_len _ _ B'), encodings_len_app, <- (building_len _ _ B). cbn [map concat].
      rewrite app_nil_r, encoding_push, len_cons by lia. lia. }
    destruct (IH _ _ B' F) as [B'' L'']; [lia|]. rewrite <- app_assoc in B''. split; [done|lia].
Qed.

Lemma GetAddress_words `{ScriptEnv} b pops : building b pops -> pops <> [] ->
  Forall (fun pop => no_space (word pop) = true) pops ->
  GetAddressFromUnlockScript (script b) =
    match map word pops with
    | [_; pubKey] => Ok (PubkeyBytesToAddress (DecodeString pubKey))
    | ws =>
        if len ws <? 2 then Err ErrInvalidUnlockScript
        else let? redeemStr := rget (index ws (len ws - 1)) in Ok (ScriptToAddress (DecodeString redeemStr))
    end.
Proof.
  intros B N F. unfold GetAddressFromUnlockScript, DisasmString. rewrite (building_parse _ _ B).
  rewrite Split_disasm by done. cbv zeta. by destruct (map word pops) as [|? [|? [|]]].
Qed.

(** ** Properties *)

(** What a wallet signs, a node accepts.  For a transaction that is not yet a contract result
    (its payments, if it has a request, come before it), whose payments spend outputs locked to
    the hashes of keys the account holds, [SignTxAllPaymentInput] signs every input and changes
    nothing but the signature scripts, and then [ScriptValidate1Msg] accepts every payment of the
    transaction, whatever the signature cache of the node holds. *)
Theorem signed_transaction_valid `{ScriptEnv} (LL : RlpLaws env_rlp) (acc : account) (CheckEncode : bytes -> byte -> string)
    (redeemScript : bytes) (utxoLockScripts : gmap OutPoint bytes) (tx : Transaction) :
  script_blind env_rlp -> codec_safe c_payment -> codec_safe c_tx -> encodable_tx (txdata tx) ->
  Forall complete (Messages tx) -> IsContractTx tx = false ->
  (forall m mg, index (Messages tx) m = Some mg -> App mg = APP_PAYMENT ->
    GetRequestMsgIndex tx = -1 \/ m <= GetRequestMsgIndex tx) ->
  Forall (signable acc utxoLockScripts) (Messages tx) ->
  exists tx', SignTxAllPaymentInput CheckEncode acc redeemScript SigHashAll utxoLockScripts tx = (tx', Ok tt) /\
    same_but_signatures tx tx' /\
    forall m mg cache, index (Messages tx') m = Some mg -> App mg = APP_PAYMENT ->
      exists cache', ScriptValidate1Msg utxoLockScripts tx' m cache = (cache', Ok tt).
Proof.
  intros B SP ST En C Ct Rq F.
  destruct (sign_messages_ok LL acc CheckEncode redeemScript utxoLockScripts B SP ST tx En Rq (Messages tx) [] [] tx)
    as (tx' & msgs & E & S & M & Si); try done.
  exists tx'. split_and!; [|done|].
  - unfold SignTxAllPaymentInput, SignTx1MsgPaymentInput, bind, on_tx. rewrite TxMessages_id by done. exact E.
  - intros m mg cache I A. simpl in M. assert (I' := I). rewrite M in I'.
    destruct (Si m mg I' A) as (p & P & Sp). rewrite len_nil, Z.add_0_l in Sp.
    assert (Rq' : GetRequestMsgIndex tx = -1 \/ m <= GetRequestMsgIndex tx).
    { destruct (same_messages _ _ S) as (Em & _). 
      destruct (index (Messages tx) m) as [mg0|] eqn:I0.
      - apply (Rq m mg0 I0). apply (f_equal (fun l => index l m)) in Em. rewrite !index_map, I, I0 in Em.
        injection Em as Em. by rewrite <- (strip_App mg0), Em, strip_App.
      - apply (f_equal (fun l => index l m)) in Em. by rewrite !index_map, I, I0 in Em. }
    unfold ScriptValidate1Msg, message_tx. rewrite <- (IsContractTx_strip tx tx') by done. rewrite Ct.
    rewrite I. assert (Ap : as_payment (E := error) mg = Ok p) by (unfold as_payment; by rewrite P).
    unfold bind, lift, get, ret. rewrite Ap.
    exact (validate_inputs_ok LL utxoLockScripts B tx En tx' m mg p S Rq' I P Sp (Inputs p) [] cache eq_refl).
Qed.

(** An account with the key [0a 0b] and the output it can spend. *)
Definition sample_account : account :=
  mkAccount (fun a => Ok (take 2 a)) (fun a _ => Ok (take 2 a ++ replicate 20 x01)).
Definition sample_utxos : gmap OutPoint bytes :=
  {[ mkOutPoint (replicate 32 x11) 0 1 := concat (map encoding (p2pkh_pops spend_hash)) ]}.

Lemma signed_transaction_valid_witness :
  exists tx', SignTxAllPaymentInput (H := sample_env) toy_encode sample_account [] SigHashAll sample_utxos (spend_with []) = (tx', Ok tt) /\
    forall m mg cache, index (Messages tx') m = Some mg -> App mg = APP_PAYMENT ->
      exists cache', ScriptValidate1Msg (H := sample_env) sample_utxos tx' m cache = (cache', Ok tt).
Proof.
  destruct (signed_transaction_valid (H := sample_env) digit_laws sample_account toy_encode [] sample_utxos (spend_with []))
    as (tx' & E & _ & V).
  - exact digit_script_blind.
  - intros a. discriminate.
  - intros a. discriminate.
  - apply one_payment_encodable. constructor; [discriminate|constructor].
  - constructor; [|constructor]. eexists. split; [reflexivity|]. split; [reflexivity|]. constructor; [discriminate|constructor].
  - reflexivity.
  - intros. left. reflexivity.
  - constructor; [|constructor]. intros _. eexists. split; [reflexivity|]. constructor; [|constructor]. split; [reflexivity|].
    exists (mkOutPoint (replicate 32 x11) 0 1), spend_hash, [x0a; x0b]. eexists.
    split; [reflexivity|]. split; [apply lookup_singleton_eq|]. split; [reflexivity|]. split; [apply payToPubKeyHashScript_ok; reflexivity|].
    split; [reflexivity|]. split; [reflexivity|]. split; [vm_compute; split; congruence|].
    intros data. eexists. split; [reflexivity|]. split; [vm_compute; split; congruence|reflexivity].
  - exists tx'. by split.
Defined.

(** A redeem script belongs to a set of keys.  For 2 to 16 keys of 33 or 65 bytes and as many
    required signatures at most, [GenerateRedeemScript] gives the same script, and so the same
    address, for any order of the keys, leaves the caller's slice sorted, and the script is the
    multi-signature script of these keys: [MultiSigScript] of the sorted keys builds it and
    [ExtractPkScriptAddrs] reads them back. *)
Theorem redeem_script_order (Hash160 : bytes -> bytes) (needed : byte) (keys keys' : list bytes) :
  keys ≡ₚ keys' -> 2 <= len keys <= 16 -> 1 <= b2z needed <= len keys ->
  Forall (fun k => is_pubkey_len k = true) keys ->
  exists s sorted, GenerateRedeemScript needed keys = (s, sorted) /\ GenerateRedeemScript needed keys' = (s, sorted) /\
    sorted ≡ₚ keys /\ StronglySorted descending sorted /\ MultiSigScript sorted (b2z needed) = Ok s /\
    ExtractPkScriptAddrs Hash160 s = Ok (MultiSigTy, map (fun k => NewAddressOriginalData Hash160 k PubKeyTy) sorted, b2z needed).
Proof.
  intros P K N F. assert (Lk : len (sort_keys keys) = len keys) by (unfold len; by rewrite sort_keys_perm).
  assert (Fs : Forall (fun k => is_pubkey_len k = true) (sort_keys keys)) by by rewrite sort_keys_perm.
  assert (Lp : len keys' = len keys) by (unfold len; by rewrite P).
  destruct (GenerateRedeemScript_pops needed keys K ltac:(lia) F) as [E G].
  destruct (GenerateRedeemScript_pops needed keys' ltac:(lia) ltac:(lia) ltac:(by rewrite <- P)) as [E' _].
  rewrite <- (sort_keys_order keys keys' P) in E'. do 2 eexists. split; [exact E|]. split; [exact E'|].
  split_and!; [apply sort_keys_perm|apply sort_keys_sorted| |].
  - destruct (MultiSigScript_building (sort_keys keys) (b2z needed)) as (b & -> & B); [lia|lia|done|]. by apply building_Script.
  - apply Extract_multisig; [lia|lia|done|]. unfold parsed. by rewrite parseScript_encoded.
Qed.

Lemma redeem_script_order_witness :
  exists s sorted, GenerateRedeemScript x02 [replicate 33 x02; replicate 33 x03] = (s, sorted) /\
    GenerateRedeemScript x02 [replicate 33 x03; replicate 33 x02] = (s, sorted).
Proof.
  destruct (redeem_script_order (fun b => b) x02 [replicate 33 x02; replicate 33 x03] [replicate 33 x03; replicate 33 x02])
    as (s & sorted & E & E' & _).
  - constructor.
  - vm_compute. split; congruence.
  - vm_compute. split; congruence.
  - repeat constructor.
  - by exists s, sorted.
Defined.

(** [GetAddressFromUnlockScript] finds the owner.  The unlock script of a signature and a
    public key gives the address of the key, and one of two or more signatures and a redeem
    script, as [MergeContractUnlockScript] makes it, the address of the redeem script.  With a
    single signature without the leading zero, as for the redeem script that
    [GenerateRedeemScript] makes for one key, the redeem script is taken for a public key and
    the type of the address is wrong. *)
Theorem unlock_script_address `{ScriptEnv} (sign pubKey redeemScript : bytes) (signs : list bytes) :
  2 <= len sign <= 75 -> 2 <= len pubKey <= 75 -> 2 <= len redeemScript <= 520 ->
  1 <= len signs <= 16 -> Forall (fun s => 1 <= len s <= 74) signs ->
  GetAddressFromUnlockScript (GenerateP2PKHUnlockScript sign pubKey) = Ok (PubkeyBytesToAddress pubKey) /\
  GetAddressFromUnlockScript (MergeContractUnlockScript signs redeemScript) = Ok (ScriptToAddress redeemScript) /\
  GetAddressFromUnlockScript (script (AddData redeemScript (AddData sign NewScriptBuilder))) =
    Ok (NewAddress (Hash160 redeemScript) PublicKeyHash).
Proof.
  intros Ls Lp Lr Ln Fs. pose proof building_new as B0.
  assert (Two : forall d, 2 <= len d <= 520 ->
    GetAddressFromUnlockScript (script (AddData d (AddData sign NewScriptBuilder))) = Ok (NewAddress (Hash160 d) PublicKeyHash)).
  { intros d Ld. pose proof (canonicalDataSize_bound d). build_data sign.
    assert (B2 : building (AddData d (AddData sign NewScriptBuilder)) ([push sign] ++ [canonical_pop d])).
    { apply building_AddData; [done|unfold MaxScriptElementSize; lia|].
      erewrite building_len by eassumption. cbn [map concat]. rewrite app_nil_r, encoding_push, len_cons by lia. unfold maxScriptSize; lia. }
    rewrite (GetAddress_words _ _ B2); [|done|].
    - cbn [app map]. rewrite canonical_word, DecodeString_hex by lia. unfold PubkeyBytesToAddress. by rewrite (proj2 (Z.eqb_neq _ _)) by lia.
    - repeat constructor; [rewrite push_word by lia|rewrite canonical_word by lia]; apply hex_no_space. }
  split; [|split; [|by apply Two]].
  - unfold GenerateP2PKHUnlockScript. rewrite Two by lia. unfold PubkeyBytesToAddress. by rewrite (proj2 (Z.eqb_neq _ _)) by lia.
  - unfold MergeContractUnlockScript. pose proof (canonicalDataSize_bound redeemScript).
    assert (B1 := building_AddOp _ _ OP_0 B0 eq_refl ltac:(done)).
    destruct (building_signs signs _ _ B1 Fs) as [B2 L2]; [change (len (script (AddOp OP_0 NewScriptBuilder))) with 1; lia|].
    change (len (script (AddOp OP_0 NewScriptBuilder))) with 1 in L2.
    eapply (building_AddData _ _ redeemScript) in B2; [|unfold MaxScriptElementSize; lia|unfold maxScriptSize; lia].
    destruct signs as [|s1 signs]; [rewrite len_nil in Ln; lia|]. rewrite (GetAddress_words _ _ B2); [|done|].
    + cbn [app map]. rewrite map_app. cbn [map]. rewrite canonical_word by lia.
      set (ws := map word (map _ signs)). 
      assert (R : forall l : list string, index (l ++ [hex_bytes redeemScript]) (len (l ++ [hex_bytes redeemScript]) - 1) = Some (hex_bytes redeemScript)).
      { intros l. apply index_middle. rewrite len_app, len_cons, len_nil. lia. }
      destruct (ws ++ [hex_bytes redeemScript]) as [|w l] eqn:W; [by destruct ws|].
      change (word (plain OP_0) :: ?x :: w :: l) with ([word (plain OP_0); x] ++ w :: l). rewrite <- W, app_assoc, R. cbn [rget rbind].
      rewrite (proj2 (Z.ltb_ge _ _)), DecodeString_hex; [done|]. rewrite !len_app. pose proof (len_nonneg ws). unfold len at 1. simpl. unfold len at 2; simpl. lia.
    + cbn [app]. constructor; [done|]. rewrite Forall_app. split; [|repeat constructor; rewrite canonical_word by lia; apply hex_no_space].
      apply Forall_forall. intros pop I. apply list_elem_of_fmap in I as (x & -> & I). rewrite Forall_forall in Fs. specialize (Fs _ I).
      rewrite push_word by (rewrite len_app, len_cons, len_nil; lia). apply hex_no_space.
Qed.

Lemma unlock_script_address_witness :
  GetAddressFromUnlockScript (H := sample_env) (MergeContractUnlockScript [[x0a]; [x0b]] [x51; x52; xae]) =
  Ok (ScriptToAddress (H := sample_env) [x51; x52; xae]).
Proof.
  apply (unlock_script_address (H := sample_env) [x0a; x0b] [x0a; x0b] [x51; x52; xae] [[x0a]; [x0b]]);
    repeat constructor; vm_compute; congruence.
Defined.
