(* ===== verification/Conditional.v ===== *)
(** Conditionals of the script engine (opcode.go, opcodeIf to opcodeEndif; engine.go,
    executeOpcode): a branch that is not taken changes nothing but the count of operations, however
    its conditionals nest, and IF/ELSE/ENDIF runs exactly one of its branches. *)

From Stdlib Require Import ZArith Lia.
From S2P Require Import Prelude Errors ScriptNum Stack Opcode Script Builder Address Standard Tx RlpModel TxProps SigHash SigCache Engine EngineInv EngineRun EngineProps SigCheck Spend.

(** An opcode that may stand in a branch that is not taken: it is not rejected on sight. *)
Definition silent (pop : parsedOpcode) : Prop :=
  from_table pop /\ isDisabled pop = false /\ alwaysIllegal pop = false /\ isConditional pop = false /\
  (blt OP_16 (pop_value pop) = false -> len (pop_data pop) <= MaxScriptElementSize).

(** Branches whose conditionals are closed; [e] tells whether an ELSE of their own may occur. *)
Inductive balanced (e : bool) : list parsedOpcode -> Prop :=
| bal_nil : balanced e []
| bal_op pop l : silent pop -> balanced e l -> balanced e (pop :: l)
| bal_else l : e = true -> balanced e l -> balanced e (plain OP_ELSE :: l)
| bal_if b body l : b = OP_IF \/ b = OP_NOTIF -> balanced true body -> balanced e l ->
    balanced e (plain b :: body ++ plain OP_ENDIF :: l).

(** The operations a list of opcodes is charged for. *)
Definition charge (pop : parsedOpcode) : Z := if blt OP_16 (pop_value pop) then 1 else 0.
Definition charges (l : list parsedOpcode) : Z := foldr (fun p n => charge p + n) 0 l.

Lemma charge_nonneg pop : 0 <= charge pop.
Proof. unfold charge. destruct (blt _ _); lia. Qed.
Lemma charges_nonneg l : 0 <= charges l.
Proof. induction l as [|p l IH]; simpl; [lia|]. pose proof (charge_nonneg p). lia. Qed.
Lemma charges_app l k : charges (l ++ k) = charges l + charges k.
Proof. induction l as [|p l IH]; simpl; [done|]. rewrite IH. lia. Qed.

Lemma charges_block b body l : charge (plain b) = 1 ->
  charges (plain b :: body ++ plain OP_ENDIF :: l) = 2 + charges body + charges l.
Proof.
  intros C. change (charges (plain b :: body ++ plain OP_ENDIF :: l))
    with (charge (plain b) + charges (body ++ plain OP_ENDIF :: l)).
  rewrite charges_app, C. change (charges (plain OP_ENDIF :: l)) with (1 + charges l). lia.
Qed.

Section Branches.
Context `{ScriptEnv}.

(** Opcodes one after the other, as successive steps run them. *)
Fixpoint exec_all (l : list parsedOpcode) : engineM unit :=
  match l with
  | [] => ret tt
  | pop :: l' => executeOpcode pop ;;; exec_all l'
  end.

Lemma exec_all_app l k vm : exec_all (l ++ k) vm = (exec_all l ;;; exec_all k) vm.
Proof.
  revert vm. induction l as [|p l IH]; intros vm; simpl; [done|]. unfold bind in *.
  destruct (executeOpcode p vm) as [vm1 [[]| |]]; [|done|done]. rewrite IH. done.
Qed.

(** Counting, then deciding whether the opcode runs. *)
Lemma exec_count pop vm : isDisabled pop = false -> alwaysIllegal pop = false ->
  (blt OP_16 (pop_value pop) = false -> len (pop_data pop) <= MaxScriptElementSize) ->
  numOps vm + charge pop <= MaxOpsPerScript ->
  (isBranchExecuting vm = false \/ ble (pop_value pop) OP_PUSHDATA4 = false) ->
  executeOpcode pop vm =
  (let vm1 := set_numOps (numOps vm + charge pop) vm in
   if negb (isBranchExecuting vm) && negb (isConditional pop) then (vm1, Ok tt)
   else opfunc_run (op_func (pop_opcode pop)) pop vm1).
Proof.
  intros D A L N B. unfold executeOpcode. rewrite D, A. set (vm1 := set_numOps (numOps vm + charge pop) vm).
  rewrite (bind_ok _ _ vm vm1 tt).
  2:{ unfold vm1, charge in *. destruct (blt OP_16 (pop_value pop)).
      - unfold bind, modify, gets. change (numOps (set_numOps (numOps vm + 1) vm)) with (numOps vm + 1).
        replace (MaxOpsPerScript <? numOps vm + 1) with false by lia. done.
      - rewrite (proj2 (Z.ltb_ge _ _)) by auto. rewrite Z.add_0_r, set_numOps_id. done. }
  rewrite (bind_ok (gets _) _ vm1 vm1 vm1 eq_refl). change (isBranchExecuting vm1) with (isBranchExecuting vm).
  cbv zeta. destruct (negb (isBranchExecuting vm) && negb (isConditional pop)); [done|].
  replace (verifyMinimalData (dstack vm1) && isBranchExecuting vm && ble (pop_value pop) OP_PUSHDATA4) with false
    by (destruct B as [-> | ->]; by rewrite ?andb_false_r). done.
Qed.

Lemma last_snoc_cond cs c vm : condStack vm = cs ++ [c] -> isBranchExecuting vm = (c =? OpCondTrue).
Proof. intros E. unfold isBranchExecuting. by rewrite E, last_snoc. Qed.

Definition count (n : Z) (vm : Engine) : Engine := set_numOps (numOps vm + n) vm.

Lemma count_count n k vm : count n (count k vm) = count (k + n) vm.
Proof. unfold count. simpl. by rewrite Z.add_assoc. Qed.

(** The conditional opcodes. *)
Lemma cond_op b vm : b = OP_IF \/ b = OP_NOTIF \/ b = OP_ELSE \/ b = OP_ENDIF -> numOps vm + 1 <= MaxOpsPerScript ->
  executeOpcode (plain b) vm = opfunc_run (op_func (opcodeArray b)) (plain b) (count 1 vm).
Proof.
  intros B N. assert (C : charge (plain b) = 1) by (destruct B as [-> |[-> |[-> | ->]]]; reflexivity).
  rewrite exec_count; rewrite ?C; try done; try (destruct B as [-> |[-> |[-> | ->]]]; by (right || reflexivity)).
  cbv zeta. replace (isConditional (plain b)) with true by (destruct B as [-> |[-> |[-> | ->]]]; reflexivity).
  by rewrite andb_false_r.
Qed.

Lemma slice_init {A} (l : list A) (x : A) : slice (l ++ [x]) 0 (len (l ++ [x]) - 1) = l.
Proof. apply slice_prefix. rewrite len_app. unfold len; simpl. lia. Qed.

Lemma else_op cs c vm : condStack vm = cs ++ [c] -> opcodeElse (plain OP_ELSE) vm = (set_condStack (cs ++ [flip_cond c]) vm, Ok tt).
Proof.
  intros E. unfold opcodeElse. rewrite (bind_ok (gets _) _ vm vm (condStack vm) eq_refl), E, last_snoc, slice_init. done.
Qed.
Lemma endif_op cs c vm : condStack vm = cs ++ [c] -> opcodeEndif (plain OP_ENDIF) vm = (set_condStack cs vm, Ok tt).
Proof.
  intros E. unfold opcodeEndif. rewrite (bind_ok (gets _) _ vm vm (condStack vm) eq_refl), E, slice_init.
  replace (len (cs ++ [c]) =? 0) with false; [done|]. rewrite len_app. pose proof (len_nonneg cs). change (len [c]) with 1. lia.
Qed.

Lemma set_cond_cond vm c : condStack vm = c -> set_condStack c vm = vm.
Proof. intros <-. by destruct vm. Qed.

(** A branch that is not taken. *)
Lemma exec_dead e l : balanced e l -> forall vm cs c, condStack vm = cs ++ [c] ->
  (c = OpCondSkip \/ (c = OpCondFalse /\ e = false)) -> numOps vm + charges l <= MaxOpsPerScript ->
  exec_all l vm = (count (charges l) vm, Ok tt).
Proof.
  induction 1 as [e|e pop l (T & D & A & Cn & L) _ IH|e l He _ IH|e b body l B _ IHb _ IH]; intros vm cs c E X N.
  - simpl. unfold count. by rewrite Z.add_0_r, set_numOps_id.
  - simpl in N |- *. pose proof (charges_nonneg l). pose proof (charge_nonneg pop).
    assert (Ex : isBranchExecuting vm = false) by (rewrite (last_snoc_cond cs c vm E); by destruct X as [-> |[-> _]]).
    rewrite (bind_ok _ _ vm (count (charge pop) vm) tt).
    + rewrite (IH (count (charge pop) vm) cs c); [by rewrite count_count|done|done|simpl; lia].
    + rewrite exec_count; [|done|done|done|lia|by left]. rewrite Ex, Cn. done.
  - destruct X as [-> |[_ ?]]; [|congruence]. cbn [charges foldr] in N. change (charge (plain OP_ELSE)) with 1 in N.
    pose proof (charges_nonneg l). fold (charges l) in N. cbn [exec_all].
    rewrite (bind_ok _ _ vm (count 1 vm) tt).
    + rewrite (IH (count 1 vm) cs OpCondSkip); [|done|by left|simpl; lia]. by rewrite count_count.
    + rewrite cond_op by (auto || lia). change (opfunc_run _ ?op) with (opcodeElse op).
      rewrite (else_op cs OpCondSkip) by done. by rewrite set_cond_cond.
  - assert (Cb : charge (plain b) = 1) by (destruct B as [-> | ->]; reflexivity).
    rewrite (charges_block b body l Cb) in *.
    pose proof (charges_nonneg l). pose proof (charges_nonneg body). cbn [exec_all].
    assert (Ex : isBranchExecuting vm = false) by (rewrite (last_snoc_cond cs c vm E); by destruct X as [-> |[-> _]]).
    set (vm1 := set_condStack (cs ++ [c; OpCondSkip]) (count 1 vm)).
    rewrite (bind_ok _ _ vm vm1 tt).
    2:{ rewrite cond_op by (destruct B; auto || lia).
        assert (P : forall m : engineM unit, (let! v := gets (fun v => v) in if isBranchExecuting v then m else push_cond OpCondSkip) (count 1 vm) = (vm1, Ok tt)).
        { intros m. rewrite (bind_ok (gets _) _ (count 1 vm) (count 1 vm) (count 1 vm) eq_refl).
          change (isBranchExecuting (count 1 vm)) with (isBranchExecuting vm). rewrite Ex. unfold push_cond, modify, vm1.
          simpl. rewrite E, <- app_assoc. done. }
        destruct B as [-> | ->]; apply P. }
    rewrite exec_all_app.
    rewrite (bind_ok _ _ _ _ _ (IHb vm1 (cs ++ [c]) OpCondSkip ltac:(unfold vm1; simpl; by rewrite <- app_assoc) ltac:(by left) ltac:(unfold vm1; simpl; lia))).
    cbn [exec_all]. rewrite (bind_ok _ _ _ (count (2 + charges body) vm) tt).
    + rewrite (IH _ cs c); [|done|done|simpl; lia]. by rewrite count_count.
    + rewrite cond_op by (auto || (unfold vm1; simpl; lia)). change (opfunc_run _ ?op) with (opcodeEndif op).
      rewrite (endif_op (cs ++ [c]) OpCondSkip) by (simpl; by rewrite <- app_assoc).
      rewrite <- E. unfold vm1, count, set_condStack, set_numOps. cbn. f_equal. f_equal. lia.
Qed.
Lemma if_op a x vm : stk (dstack vm) = a ++ [x] -> fits (dstack vm) -> isBranchExecuting vm = true ->
  opcodeIf (plain OP_IF) vm =
  (set_condStack (condStack vm ++ [if asBool x then OpCondTrue else OpCondFalse]) (set_dstack (set_stk a (dstack vm)) vm), Ok tt).
Proof.
  intros S F B. unfold opcodeIf. rewrite (bind_ok (gets _) _ vm vm vm eq_refl), B.
  rewrite (bind_ok _ _ vm (set_dstack (set_stk a (dstack vm)) vm) (asBool x)); [done|].
  unfold on_d, focus, PopBool, bind. by rewrite (PopByteArray_snoc _ a x S F).
Qed.

(** The end of a conditional whose first branch was taken: the second is dead. *)
Lemma else_dead l vm cs : condStack vm = cs ++ [OpCondTrue] -> balanced false l ->
  numOps vm + (charges l + 2) <= MaxOpsPerScript ->
  exec_all (plain OP_ELSE :: l ++ [plain OP_ENDIF]) vm = (set_condStack cs (count (charges l + 2) vm), Ok tt).
Proof.
  intros E D N. pose proof (charges_nonneg l). cbn [exec_all].
  set (vm1 := set_condStack (cs ++ [OpCondFalse]) (count 1 vm)).
  rewrite (bind_ok _ _ vm vm1 tt).
  2:{ rewrite cond_op by (auto || lia). change (opfunc_run _ ?op) with (opcodeElse op). by rewrite (else_op cs OpCondTrue). }
  rewrite exec_all_app.
  rewrite (bind_ok _ _ _ _ _ (exec_dead false l D vm1 cs OpCondFalse eq_refl ltac:(by right) ltac:(unfold vm1; simpl; lia))).
  cbn [exec_all]. rewrite (bind_ok _ _ _ (set_condStack cs (count (charges l + 2) vm)) tt); [done|].
  rewrite cond_op by (auto || (unfold vm1; simpl; lia)). change (opfunc_run _ ?op) with (opcodeEndif op).
  rewrite (endif_op cs OpCondFalse) by done. unfold vm1, count, set_condStack, set_numOps. cbn. f_equal. f_equal. lia.
Qed.
End Branches.

(** ** Properties *)

(** C18: IF runs exactly one of its branches.  With [x] on top of the stack, the block
    [IF A ELSE B ENDIF] pops [x] and does what the chosen branch does, [A] if [x] is true and [B]
    if not; the other branch, whose conditionals may nest in any way, only has its operations
    counted; the conditional state is restored.  The chosen branch is any opcodes that run and
    close the conditionals they open. *)
Theorem if_else_spec `{ScriptEnv} (vm vm2 : Engine) (a : list bytes) (x : bytes) (A B : list parsedOpcode) :
  let before := if asBool x then 1 else charges A + 2 in
  let after := if asBool x then charges B + 2 else 1 in
  stk (dstack vm) = a ++ [x] -> fits (dstack vm) -> isBranchExecuting vm = true ->
  balanced false (if asBool x then B else A) ->
  numOps vm + before <= MaxOpsPerScript -> numOps vm2 + after <= MaxOpsPerScript ->
  exec_all (if asBool x then A else B)
    (set_condStack (condStack vm ++ [OpCondTrue]) (set_dstack (set_stk a (dstack vm)) (count before vm))) = (vm2, Ok tt) ->
  condStack vm2 = condStack vm ++ [OpCondTrue] ->
  exec_all (plain OP_IF :: A ++ plain OP_ELSE :: B ++ [plain OP_ENDIF]) vm =
  (set_condStack (condStack vm) (count after vm2), Ok tt).
Proof.
  intros before after S F Br D N N2 R C. cbn [exec_all].
  rewrite (bind_ok _ _ vm (set_condStack (condStack vm ++ [if asBool x then OpCondTrue else OpCondFalse])
    (set_dstack (set_stk a (dstack vm)) (count 1 vm))) tt).
  2:{ pose proof (charges_nonneg A). rewrite cond_op by (auto || (unfold before in N; destruct (asBool x); lia)).
      by apply (if_op a x (count 1 vm)). }
  rewrite exec_all_app. destruct (asBool x).
  - rewrite (bind_ok _ _ _ _ _ R). by apply else_dead.
  - match goal with |- bind _ _ ?v = _ => set (vm1 := v) end. pose proof (charges_nonneg A). unfold before, after in *.
    rewrite (bind_ok _ _ _ _ _ (exec_dead false A D vm1 (condStack vm) OpCondFalse eq_refl ltac:(by right) ltac:(unfold vm1; simpl; lia))).
    cbn [exec_all]. rewrite (bind_ok _ _ _ (set_condStack (condStack vm ++ [OpCondTrue]) (set_dstack (set_stk a (dstack vm)) (count (charges A + 2) vm))) tt).
    2:{ rewrite cond_op by (auto || (unfold vm1; simpl; lia)). change (opfunc_run _ ?op) with (opcodeElse op).
        rewrite (else_op (condStack vm) OpCondFalse) by done. unfold vm1, count, set_condStack, set_numOps, set_dstack. cbn.
        f_equal. f_equal. lia. }
    rewrite exec_all_app, (bind_ok _ _ _ _ _ R). cbn [exec_all].
    rewrite (bind_ok _ _ _ (set_condStack (condStack vm) (count 1 vm2)) tt); [done|].
    rewrite cond_op by (auto || lia). change (opfunc_run _ ?op) with (opcodeEndif op).
    by rewrite (endif_op (condStack vm) OpCondTrue).
Qed.

(** [IF 1 ELSE IF OP_RETURN ENDIF ENDIF] with true on the stack. *)
Definition cond_vm : Engine :=
  mkEngine spend_tx (mkStack [[x07]; [x01]] true) (newStack true) [] [] [] 0 0 0 0 0 0 None 0 false false.
Lemma if_else_spec_witness :
  exec_all (H := sample_env) (plain OP_IF :: [plain OP_DUP] ++
      plain OP_ELSE :: [plain OP_IF; plain OP_RETURN; plain OP_ENDIF] ++ [plain OP_ENDIF]) cond_vm =
  (set_condStack [] (count 5 (set_condStack [1] (set_dstack (mkStack [[x07]; [x07]] true) (count 2 cond_vm)))), Ok tt).
Proof.
  apply (if_else_spec (H := sample_env) cond_vm (set_condStack [1] (set_dstack (mkStack [[x07]; [x07]] true) (count 2 cond_vm)))
    [[x07]] [x01] [plain OP_DUP] [plain OP_IF; plain OP_RETURN; plain OP_ENDIF]); try reflexivity; try (vm_compute; congruence).
  apply (bal_if false OP_IF [plain OP_RETURN] []); [by left| |constructor].
  repeat constructor. intros C. vm_compute in C. discriminate C.
Defined.
