(* ===== verification/TxFee.v ===== *)
(** Sizes, and how the fee of a transaction is shared: src/dag/modules/transaction.go.

    The fee of a contract transaction is shared between the jurors who signed it and the producer
    of the unit, in float64. *)

From Stdlib Require Import ZArith Lia.
From S2P Require Import Prelude Errors ScriptNum Stack Opcode Text Script Builder Address Standard Tx AssetId Float64 SigHash SigCache Engine EngineProps TokenApi.

(** ** Sizes *)

Definition VarIntSerializeSize (val : Z) : Z :=
  if val <? 0xfd then 1 else if val <=? 65535 then 3 else if val <=? 4294967295 then 5 else 9.
Definition Output_SerializeSize (t : Output) : Z := 8 + VarIntSerializeSize (len (PkScript t)) + len (PkScript t).
Definition Input_SerializeSize (t : Input) : Z := 40 + VarIntSerializeSize (len (SignatureScript t)) + len (SignatureScript t).

Section Size.
Context {L : RlpLib}.

(** The bytes written before an error, none: [rlp.Encode] writes once, at the end. *)
Definition baseSize (tx : Transaction) : result tx_error Z :=
  match EncodeRLP (txdata tx) with Ok b => Ok (len b) | Err _ => Ok 0 | Panic => Panic end.

(** [tx.Size().Float64()] *)
Definition Size (tx : Transaction) : result tx_error float64 :=
  let? n := baseSize tx in Ok (of_int n).
End Size.

(** ** The asset of a transaction *)

(** The asset of the first output that has one, or the zero asset. *)
Definition Transaction_Asset {E} (tx : Transaction) : result E Asset :=
  let? msg := rget (index (Messages tx) 0) in
  if App msg =? APP_PAYMENT then
    let? pay := as_payment msg in
    Ok (match List.find (fun out => match out_Asset out with Some _ => true | None => false end) (Outputs pay) with
        | Some out => match out_Asset out with Some a => a | None => mkAsset ZeroIdType16 ZeroUniqueId end
        | None => mkAsset ZeroIdType16 ZeroUniqueId
        end)
  else Ok (mkAsset ZeroIdType16 ZeroUniqueId).

(** ** Sharing the fee *)

Record Addition := mkAddition { ad_Addr : Address; ad_Amount : Z; ad_Asset : option Asset }.

(** [Key]: the hexadecimal address and asset *)
Definition Addition_Key (a : Addition) : string :=
  match ad_Asset a with
  | Some s => hex_bytes (ad_Addr a ++ Asset_Bytes s)
  | None => hex_bytes (ad_Addr a)
  end.

Section Allocate.
Context `{ScriptEnv}.
Variables (queryUtxoFunc : option OutPoint -> result string Utxo)
  (getSignerFunc : Transaction -> Z -> Z -> result string (list Address))
  (mediatorReward : Address) (getJurorRewardFunc : Address -> Address)
  (ContractFeeJuryPercent : float64).

Definition as_signature {E} (m : Message) : result E SignaturePayload :=
  match Payload m with Some (PaySignature p) => Ok p | _ => Panic end.

(** [for msgIdx, msg := range tx.TxMessages()]: [starts] marks the requests after which a jury
    works; the jury is who signed last. *)
Fixpoint jury_of (starts : Message -> bool) (tx : Transaction) (msgIdx : Z) (inside : bool) (jury : list Address) (msgs : list Message)
  : result tx_error (bool * list Address) :=
  match msgs with
  | [] => Ok (inside, jury)
  | msg :: msgs' =>
      if starts msg then jury_of starts tx (msgIdx + 1) true jury msgs'
      else
        let? jury :=
          (if inside && (App msg =? APP_SIGNATURE) then
             let? payload := as_signature msg in
             Ok (jury ++ map (fun sig => PubkeyBytesToAddress (ss_PubKey sig)) (Signatures payload))
           else Ok jury) in
        let? jury :=
          (if inside && (App msg =? APP_PAYMENT) then
             let? payment := as_payment msg in
             if negb (IsCoinbase payment) then
               match getSignerFunc tx msgIdx 0 with Ok j => Ok j | Err e => Err (TxSigners e) | Panic => Panic end
             else Ok jury
           else Ok jury) in
        jury_of starts tx (msgIdx + 1) inside jury msgs'
  end.

(** The shares of the jury and the amount they add up to, and the producer's, which is the rest. *)
Definition share_fee (reward : Address -> Address) (fee : AmountAsset) (inside : bool) (jury : list Address) : list Addition :=
  let juryAmount := fmul (of_int (aa_Amount fee)) ContractFeeJuryPercent in
  let juryCount := of_int (len jury) in
  let share := to_uint64 (fdiv juryAmount juryCount) in
  let jurors := if inside then map (fun juror => mkAddition (reward juror) share (aa_Asset fee)) jury else [] in
  let juryAllocatedAmt := fold_left (fun n a => uint64 (n + ad_Amount a)) jurors 0 in
  jurors ++ [mkAddition mediatorReward (uint64 (aa_Amount fee - juryAllocatedAmt)) (aa_Asset fee)].

Definition allocate (starts : Message -> bool) (reward : Address -> Address) (tx : Transaction) : result tx_error (list Addition) :=
  let? fee := GetTxFee queryUtxoFunc tx in
  if aa_Amount fee =? 0 then Ok []
  else
    let? msgs := TxMessages tx in
    let? (inside, jury) := jury_of starts tx 0 false [] msgs in
    Ok (share_fee reward fee inside jury).

Definition GetTxFeeAllocateLegacyV1 (tx : Transaction) : result tx_error (list Addition) :=
  allocate (fun msg => IsRequest (App msg)) (fun juror => juror) tx.

Definition GetTxFeeAllocate (tx : Transaction) : result tx_error (list Addition) :=
  allocate (fun msg => (App msg =? APP_CONTRACT_INVOKE_REQUEST) || (App msg =? APP_CONTRACT_DEPLOY_REQUEST) ||
                       (App msg =? APP_CONTRACT_STOP_REQUEST)) getJurorRewardFunc tx.

(** ** Lemmas *)

Definition total (l : list Addition) : Z := fold_right (fun a n => ad_Amount a + n) 0 l.

Lemma total_app l k : total (l ++ k) = total l + total k.
Proof. induction l as [|a l IH]; simpl; lia. Qed.

Lemma allocated_wraps l : forall n, 0 <= n < 2 ^ 64 ->
  fold_left (fun n a => uint64 (n + ad_Amount a)) l n = uint64 (n + total l).
Proof.
  induction l as [|a l IH]; intros n N; cbn [fold_left total fold_right].
  - rewrite Z.add_0_r. symmetry. by apply uint64_small.
  - rewrite IH by (apply Z.mod_pos_bound; lia). unfold uint64, wrapU. rewrite Zplus_mod_idemp_l. f_equal. unfold total. lia.
Qed.

Lemma total_map (f : Address -> Addition) x jury : (forall j, ad_Amount (f j) = x) -> total (map f jury) = len jury * x.
Proof. intros E. induction jury as [|j jury IH]; [reflexivity|]. cbn [map total fold_right]. fold (total (map f jury)). rewrite E, IH, len_cons. lia. Qed.

Lemma to_uint64_range x : 0 <= to_uint64 x < 2 ^ 64.
Proof. unfold to_uint64. destruct (trunc x) as [v|]; [|lia]. destruct ((0 <=? v) && (v <? 2 ^ 64)) eqn:E; lia. Qed.

Lemma share_fee_total reward fee inside jury : 0 <= aa_Amount fee < 2 ^ 64 ->
  exists share rest, share_fee reward fee inside jury =
      (if inside then map (fun j => mkAddition (reward j) share (aa_Asset fee)) jury else []) ++ [mkAddition mediatorReward rest (aa_Asset fee)] /\
    0 <= share < 2 ^ 64 /\ 0 <= rest < 2 ^ 64 /\ uint64 (total (share_fee reward fee inside jury)) = aa_Amount fee /\
    (inside = false -> rest = aa_Amount fee) /\
    (len jury * share <= aa_Amount fee -> total (share_fee reward fee inside jury) = aa_Amount fee).
Proof.
  intros A. unfold share_fee. set (share := to_uint64 _). pose proof (to_uint64_range (fdiv (fmul (of_int (aa_Amount fee)) ContractFeeJuryPercent) (of_int (len jury)))) as R. fold share in R.
  set (jurors := if inside then _ else []). rewrite allocated_wraps by lia. rewrite Z.add_0_l.
  exists share, (uint64 (aa_Amount fee - uint64 (total jurors))). rewrite total_app. cbn [total fold_right ad_Amount]. rewrite Z.add_0_r.
  assert (T : total jurors = if inside then len jury * share else 0).
  { unfold jurors. destruct inside; [|done]. by apply total_map. }
  assert (Rr : 0 <= uint64 (aa_Amount fee - uint64 (total jurors)) < 2 ^ 64) by (apply Z.mod_pos_bound; lia).
  split_and!; try done; try lia.
  - unfold uint64, wrapU. rewrite Zplus_mod_idemp_r.
    transitivity ((aa_Amount fee + (total jurors - total jurors mod 2 ^ 64)) mod 2 ^ 64); [f_equal; lia|].
    rewrite (Z.mod_eq (total jurors)) by lia. replace (aa_Amount fee + _) with (aa_Amount fee + total jurors / 2 ^ 64 * 2 ^ 64) by lia.
    rewrite Z.mod_add by lia. by apply Z.mod_small.
  - intros ->. rewrite T. unfold uint64, wrapU. rewrite Z.mod_0_l, Z.sub_0_r by lia. by apply Z.mod_small.
  - intros Le. fold (total jurors). rewrite T. destruct inside.
    + pose proof (len_nonneg jury). rewrite (uint64_small (len jury * share)) by nia. rewrite uint64_small by nia. lia.
    + rewrite (uint64_small 0), uint64_small by lia. lia.
Qed.
End Allocate.

Lemma fee_inputs_range q : forall ins inAmount feeAsset r, 0 <= inAmount < 2 ^ 64 ->
  fee_inputs q inAmount feeAsset ins = Ok r -> 0 <= r.1 < 2 ^ 64.
Proof.
  induction ins as [|i ins IH]; intros n a r N E; cbn [fee_inputs] in E; [by injection E as <-|].
  destruct (q (PreviousOutPoint i)) as [u| |]; try done. destruct (maxUint64 <? _); [done|].
  eapply IH; [|exact E]. apply Z.mod_pos_bound. lia.
Qed.
Lemma fee_outputs_range : forall outs n r, 0 <= n < 2 ^ 64 -> fee_outputs n outs = Ok r -> 0 <= r < 2 ^ 64.
Proof.
  induction outs as [|o outs IH]; intros n r N E; cbn [fee_outputs] in E; [by injection E as <-|].
  destruct (maxUint64 <? _); [done|]. eapply IH; [|exact E]. apply Z.mod_pos_bound. lia.
Qed.
Lemma GetTxFee_range q tx fee : GetTxFee q tx = Ok fee -> 0 <= aa_Amount fee < 2 ^ 64.
Proof.
  unfold GetTxFee. intros E. apply rbind_inv in E as (m & _ & E). destruct (negb _); [done|].
  apply rbind_inv in E as (p & _ & E). destruct (IsCoinbase p); [injection E as <-; simpl; lia|].
  apply rbind_inv in E as ([n a] & I & E). apply rbind_inv in E as (o & O & E).
  apply fee_inputs_range in I; [|lia]. apply fee_outputs_range in O; [|lia]. simpl in I.
  destruct (Z.ltb_spec n o); [done|]. injection E as <-. simpl. lia.
Qed.

(** ** Properties *)

(** The fee is shared out, no more and no less.  Both allocations return nothing for a zero
    fee; otherwise one share for each juror who signed, all equal, when the transaction asked a
    jury for work, and the rest for the producer of the unit, all in the asset of the fee.  The
    amounts add up to the fee modulo 2^64 whatever the percentage, and exactly when the shares,
    computed in float64, do not exceed the fee; without a jury the producer gets all of it. *)
Theorem fee_allocation `{ScriptEnv} (queryUtxoFunc : option OutPoint -> result string Utxo)
    (getSignerFunc : Transaction -> Z -> Z -> result string (list Address)) (mediatorReward : Address)
    (getJurorRewardFunc : Address -> Address) (ContractFeeJuryPercent : float64) (tx : Transaction) (fee : AmountAsset)
    (l : list Addition) :
  GetTxFee queryUtxoFunc tx = Ok fee ->
  GetTxFeeAllocate queryUtxoFunc getSignerFunc mediatorReward getJurorRewardFunc ContractFeeJuryPercent tx = Ok l \/
  GetTxFeeAllocateLegacyV1 queryUtxoFunc getSignerFunc mediatorReward ContractFeeJuryPercent tx = Ok l ->
  (aa_Amount fee = 0 -> l = []) /\
  (aa_Amount fee <> 0 ->
    uint64 (total l) = aa_Amount fee /\
    exists jurors share rest, l = map (fun j => mkAddition j share (aa_Asset fee)) jurors ++ [mkAddition mediatorReward rest (aa_Asset fee)] /\
      (jurors = [] -> rest = aa_Amount fee) /\ (len jurors * share <= aa_Amount fee -> total l = aa_Amount fee)).
Proof.
  intros G A. pose proof (GetTxFee_range _ _ _ G) as R.
  assert (K : forall starts reward, allocate queryUtxoFunc getSignerFunc mediatorReward ContractFeeJuryPercent starts reward tx = Ok l ->
    (aa_Amount fee = 0 -> l = []) /\ (aa_Amount fee <> 0 -> exists inside jury, l = share_fee mediatorReward ContractFeeJuryPercent reward fee inside jury)).
  { intros starts reward E. unfold allocate in E. rewrite G in E. cbn [rbind] in E. destruct (Z.eqb_spec (aa_Amount fee) 0).
    - injection E as <-. done.
    - split; [done|]. intros _. apply rbind_inv in E as (msgs & _ & E). apply rbind_inv in E as ([inside jury] & _ & E).
      injection E as <-. by exists inside, jury. }
  assert (K' : exists reward : Address -> Address, (aa_Amount fee = 0 -> l = []) /\
    (aa_Amount fee <> 0 -> exists inside jury, l = share_fee mediatorReward ContractFeeJuryPercent reward fee inside jury)).
  { destruct A as [A|A]; apply K in A; eauto. }
  destruct K' as (reward & Z0 & Nz). split; [done|]. intros Ne. destruct (Nz Ne) as (inside & jury & ->).
  destruct (share_fee_total mediatorReward ContractFeeJuryPercent reward fee inside jury R) as (share & rest & E & Rs & Rr & U & Rn & T).
  split; [done|]. rewrite E in T |- *. destruct inside.
  - exists (map reward jury), share, rest. rewrite map_map. split; [done|]. split.
    + intros Nj. destruct jury; [|done]. rewrite E in U. cbn [total fold_right ad_Amount app map] in U.
      rewrite Z.add_0_r in U. by rewrite uint64_small in U by lia.
    + unfold len. rewrite length_map. exact T.
  - exists [], share, rest. split; [done|]. split; [by intros _; apply Rn|]. intros _. cbn [app total fold_right ad_Amount].
    rewrite Rn by done. lia.
Qed.

(** A payment of 1000 with a fee of 500. *)
Definition fee_tx : Transaction :=
  NewTransaction [mkMessage APP_PAYMENT (Some (PayPayment (mkPayment
    [mkInput [] [] (Some (mkOutPoint (replicate 32 x11) 0 0))] [mkOutput 500 [x76] (Some PTNAsset)] 0)))].
Definition fee_query : option OutPoint -> result string Utxo := fun _ => Ok (mkUtxo 1000 (Some PTNAsset) [] 0 0 0).

Lemma fee_allocation_witness :
  exists l, GetTxFeeAllocate (H := sample_env) fee_query (fun _ _ _ => Ok []) zeroAddress (fun a => a) (of_int 1) fee_tx = Ok l /\
    uint64 (total l) = 500.
Proof.
  eexists. split; [reflexivity|].
  refine (proj1 (proj2 (fee_allocation (H := sample_env) fee_query (fun _ _ _ => Ok []) zeroAddress (fun a => a) (of_int 1) fee_tx
    (mkAmountAsset 500 (Some PTNAsset)) _ eq_refl (or_introl eq_refl)) _)). discriminate.
Defined.
