(* ===== verification/Unit.v ===== *)
(** Units and their headers: src/dag/modules/unit.go and unit_rlp.go.

    A header caches its hash; the setters reset the cache.  [Header.header] is never nil, as
    [NewHeader], [CopyHeader] and [DecodeRLP] leave it.  A [*Header] inside a unit may be nil.  The
    RLP library is a codec for the wire form [headerTemp].  Sizes of units and the forms for logs
    are not modelled. *)

From Stdlib Require Import ZArith Lia.
From S2P Require Import Prelude Errors ScriptNum Stack Opcode Text Script Builder Address Standard Tx RlpModel AssetId SigHash SigCache Engine TokenApi.

Record Authentifier := mkAuthentifier { PubKey : bytes; au_Signature : bytes }.

Definition Authentifier_Empty (au : Authentifier) : bool := (len (PubKey au) =? 0) || (len (au_Signature au) =? 0).

Record header_sdw := mkHeaderSdw {
  ParentsHash : list Hash; Authors : Authentifier; sdw_TxRoot : Hash; TxsIllegal : list Z; Number : option ChainIndex;
  sdw_Extra : bytes; Time : Z; CryptoLib : bytes }.

Record Header := mkHeader { header : header_sdw; h_hash : Hash; group_sign : bytes; group_pubKey : bytes }.

Definition no_author : Authentifier := mkAuthentifier [] [].

(** ** Making headers *)

Definition initHeaderSdw (parents : list Hash) (tx_root : Hash) (pubkey sig extra crypto_lib : bytes) (txs_illegal : list Z)
    (asset_id : bytes) (idx t : Z) : header_sdw :=
  mkHeaderSdw parents (mkAuthentifier pubkey sig) tx_root txs_illegal (Some (mkChainIndex asset_id idx)) extra t crypto_lib.

Definition new_header_sdw : header_sdw :=
  mkHeaderSdw [] no_author zeroHash [] (Some (mkChainIndex (replicate 16 x00) 0)) [] 0 [].

Definition NewHeader (parents : list Hash) (tx_root : Hash) (pubkey sig extra crypto_lib : bytes) (txs_illegal : list Z)
    (asset_id : bytes) (idx t : Z) : Header :=
  mkHeader (initHeaderSdw parents tx_root pubkey sig extra crypto_lib txs_illegal asset_id idx t) zeroHash [] [].

(** ** Reading headers *)

Definition ParentHash (h : Header) : list Hash := ParentsHash (header h).
Definition TxRoot (h : Header) : Hash := sdw_TxRoot (header h).
Definition h_Extra (h : Header) : bytes := sdw_Extra (header h).
Definition Timestamp (h : Header) : Z := Time (header h).
Definition GetAuthors (h : Header) : Authentifier := Authors (header h).
Definition GetNumber (h : Header) : option ChainIndex := Number (header h).
Definition NumberU64 {E} (h : Header) : result E Z := let? n := rget (Number (header h)) in Ok (ci_Index n).
Definition Header_GetAssetId {E} (h : Header) : result E bytes := let? n := rget (Number (header h)) in Ok (ci_AssetID n).

Section Author.
Context `{ScriptEnv}.
Definition Header_Author (h : Header) : Address := PubkeyBytesToAddress (PubKey (Authors (header h))).
Definition Authentifier_Address (au : Authentifier) : Address := PubkeyBytesToAddress (PubKey au).
End Author.

(** ** Changing headers *)

Definition with_sdw (f : header_sdw -> header_sdw) (h : Header) : Header := mkHeader (f (header h)) (h_hash h) (group_sign h) (group_pubKey h).
Definition set_root (r : Hash) (s : header_sdw) : header_sdw :=
  mkHeaderSdw (ParentsHash s) (Authors s) r (TxsIllegal s) (Number s) (sdw_Extra s) (Time s) (CryptoLib s).
Definition set_authors (a : Authentifier) (s : header_sdw) : header_sdw :=
  mkHeaderSdw (ParentsHash s) a (sdw_TxRoot s) (TxsIllegal s) (Number s) (sdw_Extra s) (Time s) (CryptoLib s).
Definition set_illegal (l : list Z) (s : header_sdw) : header_sdw :=
  mkHeaderSdw (ParentsHash s) (Authors s) (sdw_TxRoot s) l (Number s) (sdw_Extra s) (Time s) (CryptoLib s).

Definition ResetHash (h : Header) : Header := mkHeader (header h) zeroHash (group_sign h) (group_pubKey h).
Definition SetTxRoot (txroot : Hash) (h : Header) : Header := ResetHash (with_sdw (set_root txroot) h).
Definition SetAuthor (author : Authentifier) (h : Header) : Header := ResetHash (with_sdw (set_authors author) h).
Definition SetTxsIllegal (txsillegal : list Z) (h : Header) : Header := ResetHash (with_sdw (set_illegal txsillegal) h).
Definition SetGroupSign (sign : bytes) (h : Header) : Header := mkHeader (header h) (h_hash h) sign (group_pubKey h).
Definition SetGroupPubkey (key : bytes) (h : Header) : Header := mkHeader (header h) (h_hash h) (group_sign h) key.

(** [CopyHeader], function and method: the cached hash is not copied; a header without a number
    cannot be copied. *)
Definition CopyHeader {E} (h : Header) : result E Header :=
  let author := GetAuthors h in
  let? n := rget (GetNumber h) in
  Ok (mkHeader (initHeaderSdw (ParentHash h) (TxRoot h) (PubKey author) (au_Signature author) (h_Extra h) (CryptoLib (header h))
        (TxsIllegal (header h)) (ci_AssetID n) (ci_Index n) (Timestamp h)) zeroHash (group_sign h) (group_pubKey h)).

(** ** The wire form *)

Record headerTemp := mkHeaderTemp {
  ht_ParentsHash : list Hash; ht_Authors : Authentifier; ht_GroupSign : bytes; ht_GroupPubKey : bytes; ht_TxRoot : Hash;
  ht_TxsIllegal : list Z; ht_Number : option ChainIndex; ht_Extra : bytes; ht_Time : Z; ht_CryptoLib : bytes }.

Definition header2Temp (input : Header) : headerTemp :=
  let s := header input in
  mkHeaderTemp (ParentsHash s) (Authors s) (group_sign input) (group_pubKey input) (sdw_TxRoot s) (TxsIllegal s) (Number s) (sdw_Extra s)
    (uint32 (Time s)) (CryptoLib s).

(** The hash cached in the header that is decoded into stays. *)
Definition temp2Header (temp : headerTemp) (input : Header) : Header :=
  mkHeader (mkHeaderSdw (ht_ParentsHash temp) (ht_Authors temp) (ht_TxRoot temp) (ht_TxsIllegal temp) (ht_Number temp) (ht_Extra temp)
              (ht_Time temp) (ht_CryptoLib temp)) (h_hash input) (ht_GroupSign temp) (ht_GroupPubKey temp).

Section Wire.
Variables (c_header : Codec headerTemp) (keccak : bytes -> Hash).

Definition Header_EncodeRLP (input : Header) : result tx_error bytes := enc c_header (header2Temp input).
Definition Header_DecodeRLP (raw : bytes) : ST Header tx_error unit :=
  fun input => match dec c_header raw with Ok temp => (temp2Header temp input, Ok tt) | Err e => (input, Err e) | Panic => (input, Panic) end.

(** [util.RlpHash] *)
Definition Header_RlpHash (h : Header) : result tx_error Hash :=
  match Header_EncodeRLP h with Ok b => Ok (keccak b) | Err _ => Ok (keccak []) | Panic => Panic end.

(** A computation on the header without its group signature, which is put back afterwards. *)
Definition ungrouped {A} (m : ST Header tx_error A) : ST Header tx_error A :=
  let! groupSign := gets group_sign in
  let! groupPubKey := gets group_pubKey in
  modify (SetGroupSign []) ;;;
  modify (SetGroupPubkey []) ;;;
  let! a := m in
  modify (fun h => SetGroupSign (group_sign h ++ groupSign) h) ;;;
  modify (fun h => SetGroupPubkey (group_pubKey h ++ groupPubKey) h) ;;;
  ret a.

Definition rlp_hash : ST Header tx_error Hash := fun h => (h, Header_RlpHash h).

Definition Header_Hash : ST Header tx_error Hash :=
  let! h := gets h_hash in
  if bytes_equal h zeroHash then
    ungrouped (let! v := rlp_hash in modify (fun h => mkHeader (header h) v (group_sign h) (group_pubKey h))) ;;;
    gets h_hash
  else ret h.

Definition HashWithoutAuthor : ST Header tx_error Hash :=
  let! author := gets GetAuthors in
  let! hash := ungrouped (modify (with_sdw (set_authors no_author)) ;;; rlp_hash) in
  modify (with_sdw (set_authors author)) ;;;
  ret hash.

Definition HashWithOutTxRoot : ST Header tx_error Hash :=
  let! txroot := gets TxRoot in
  let! hash := ungrouped (modify (with_sdw (set_root zeroHash)) ;;; rlp_hash) in
  modify (with_sdw (set_root txroot)) ;;;
  ret hash.
End Wire.

(** ** Units *)

Record Unit := mkUnit { UnitHeader : option Header; Txs : list Transaction }.

Definition NewUnit (header : option Header) (txs : list Transaction) : Unit := mkUnit header txs.

(** [Units.Less] *)
Definition Units_Less {E} (a b : Unit) : result E bool :=
  let? ha := rget (UnitHeader a) in let? hb := rget (UnitHeader b) in
  let? i := NumberU64 ha in let? j := NumberU64 hb in Ok (i <? j).

Definition ContainsParent {E} (u : Unit) (pHash : Hash) : result E bool :=
  let? h := rget (UnitHeader u) in Ok (existsb (fun hash => bytes_equal pHash hash) (ParentHash h)).

(** ** Heights *)

(** [binary.LittleEndian.PutUint64] into a fresh buffer *)
Definition putUint64 (v : Z) : bytes := map (fun i => z2b (Z.shiftr v (8 * Z.of_nat i))) (seq 0 8).

Definition ChainIndex_Bytes (height : ChainIndex) : bytes := putUint64 (ci_Index height) ++ ci_AssetID height.
Definition ChainIndex_SetBytes {E} (height : ChainIndex) (data : bytes) : result E ChainIndex :=
  if len data <? 8 then Panic
  else Ok (mkChainIndex (SetBytes (ci_AssetID height) (slice data 8 (len data))) (le_uint (slice data 0 8))).
Definition ChainIndex_Equal (height : ChainIndex) (in_ : option ChainIndex) : bool :=
  match in_ with
  | None => false
  | Some c => if negb (bytes_equal (ci_AssetID height) (ci_AssetID c)) then false else ci_Index height =? ci_Index c
  end.

(** [FillBytes]: zeros in front, or the first bytes *)
Definition FillBytes (data : bytes) (lenth : Z) : bytes :=
  if len data <? lenth then replicate (Z.to_nat (lenth - len data)) x00 ++ data else slice data 0 lenth.

(** ** The cached hash *)

Section Cache.
Variables (c_header : Codec headerTemp) (keccak : bytes -> Hash).

Definition ungroup (h : Header) : Header := SetGroupPubkey [] (SetGroupSign [] h).
(** The cache is empty or holds the hash of the header without its group signature. *)
Definition coherent_header (h : Header) : Prop := h_hash h = zeroHash \/ Header_RlpHash c_header keccak (ungroup h) = Ok (h_hash h).

Inductive header_op :=
| OpTxRoot (r : Hash) | OpAuthor (a : Authentifier) | OpIllegal (l : list Z) | OpGroupSign (s : bytes) | OpGroupPubkey (k : bytes)
| OpHash | OpHashWithoutAuthor | OpHashWithOutTxRoot.

Definition run_op (op : header_op) : ST Header tx_error unit :=
  match op with
  | OpTxRoot r => modify (SetTxRoot r)
  | OpAuthor a => modify (SetAuthor a)
  | OpIllegal l => modify (SetTxsIllegal l)
  | OpGroupSign s => modify (SetGroupSign s)
  | OpGroupPubkey k => modify (SetGroupPubkey k)
  | OpHash => Header_Hash c_header keccak ;;; ret tt
  | OpHashWithoutAuthor => HashWithoutAuthor c_header keccak ;;; ret tt
  | OpHashWithOutTxRoot => HashWithOutTxRoot c_header keccak ;;; ret tt
  end.
Fixpoint run_ops (ops : list header_op) : ST Header tx_error unit :=
  match ops with [] => ret tt | op :: ops' => run_op op ;;; run_ops ops' end.

Lemma RlpHash_cache h v : Header_RlpHash c_header keccak (mkHeader (header h) v (group_sign h) (group_pubKey h)) = Header_RlpHash c_header keccak h.
Proof. done. Qed.

(** What the three hashes return, and what they leave *)
Lemma Header_Hash_spec h h' x : coherent_header h -> Header_Hash c_header keccak h = (h', Ok x) ->
  Header_RlpHash c_header keccak (ungroup h) = Ok x /\ h' = mkHeader (header h) x (group_sign h) (group_pubKey h).
Proof.
  intros C E. unfold Header_Hash, bind at 1, gets, bytes_equal in E. case_bool_decide as Z.
  - unfold bind, ungrouped, bind, gets, modify, rlp_hash, ret in E. fold (ungroup h) in E.
    destruct (Header_RlpHash c_header keccak (ungroup h)) as [v| |] eqn:R; try discriminate E.
    injection E as <- <-. cbn. done.
  - injection E as <- <-. destruct C as [C|C]; [done|]. split; [done|]. by destruct h.
Qed.
Lemma HashWithoutAuthor_spec h h' x : HashWithoutAuthor c_header keccak h = (h', Ok x) ->
  Header_RlpHash c_header keccak (with_sdw (set_authors no_author) (ungroup h)) = Ok x /\ h' = h.
Proof.
  intros E. unfold HashWithoutAuthor, ungrouped, bind, gets, modify, rlp_hash, ret in E. cbv beta iota in E.
  change (with_sdw _ (SetGroupPubkey [] (SetGroupSign [] h))) with (with_sdw (set_authors no_author) (ungroup h)) in E.
  destruct (Header_RlpHash c_header keccak (with_sdw (set_authors no_author) (ungroup h))) as [v| |] eqn:R; try discriminate E.
  injection E as <- <-. split; [done|]. by destruct h as [[]].
Qed.
Lemma HashWithOutTxRoot_spec h h' x : HashWithOutTxRoot c_header keccak h = (h', Ok x) ->
  Header_RlpHash c_header keccak (with_sdw (set_root zeroHash) (ungroup h)) = Ok x /\ h' = h.
Proof.
  intros E. unfold HashWithOutTxRoot, ungrouped, bind, gets, modify, rlp_hash, ret in E. cbv beta iota in E.
  change (with_sdw _ (SetGroupPubkey [] (SetGroupSign [] h))) with (with_sdw (set_root zeroHash) (ungroup h)) in E.
  destruct (Header_RlpHash c_header keccak (with_sdw (set_root zeroHash) (ungroup h))) as [v| |] eqn:R; try discriminate E.
  injection E as <- <-. split; [done|]. by destruct h as [[]].
Qed.

Lemma run_ops_coherent : forall ops h h', coherent_header h -> run_ops ops h = (h', Ok tt) -> coherent_header h'.
Proof.
  induction ops as [|op ops IH]; intros h h' C E; [by injection E as <-|]. cbn [run_ops] in E.
  apply bind_inv in E as (h1 & [] & E1 & E). apply (IH h1); [|done]. destruct op; cbn [run_op] in E1;
    try (injection E1 as <-; first [left; reflexivity | exact C]);
    apply bind_inv in E1 as (h2 & x & E1 & E2); injection E2 as <-.
  - apply Header_Hash_spec in E1 as [R ->]; [|done]. by right.
  - by apply HashWithoutAuthor_spec in E1 as [_ ->].
  - by apply HashWithOutTxRoot_spec in E1 as [_ ->].
Qed.
End Cache.

(** ** Properties *)

(** The hash of a header is that of what it says now.  From a new header, after any setters and
    hashes, [Hash] returns the hash of the current header without its group signature, so that
    signing as a group does not change the identity of a unit; the other two hashes leave the
    header as it was, and a hash changes nothing but the cache. *)
Theorem header_hash_coherent (c_header : Codec headerTemp) (keccak : bytes -> Hash) (h0 h h1 : Header) (ops : list header_op) (x : Hash) :
  h_hash h0 = zeroHash -> run_ops c_header keccak ops h0 = (h, Ok tt) ->
  (Header_Hash c_header keccak h = (h1, Ok x) ->
     Header_RlpHash c_header keccak (ungroup h) = Ok x /\ header h1 = header h /\ group_sign h1 = group_sign h /\ group_pubKey h1 = group_pubKey h) /\
  (HashWithoutAuthor c_header keccak h = (h1, Ok x) -> h1 = h) /\ (HashWithOutTxRoot c_header keccak h = (h1, Ok x) -> h1 = h).
Proof.
  intros Z R. assert (C : coherent_header c_header keccak h) by (eapply run_ops_coherent; [left; exact Z|exact R]). split_and!.
  - intros E. apply Header_Hash_spec in E as [E ->]; [|done]. done.
  - intros E. by apply HashWithoutAuthor_spec in E as [_ ->].
  - intros E. by apply HashWithOutTxRoot_spec in E as [_ ->].
Qed.

(** A codec for headers: parents and root only *)
Definition plain_codec : Codec headerTemp := mkCodec (fun t => Ok (ht_TxRoot t ++ concat (ht_ParentsHash t))) (fun _ => Err (TxRlp "")) (fun _ => False).
Definition sample_header : Header := NewHeader [replicate 32 x01] (replicate 32 x02) [x0a; x0b] [x0c] [] [] [] PTNCOIN 7 1600000000.

Lemma header_hash_coherent_witness :
  exists h1 x, Header_Hash plain_codec (fun b => b) (SetTxRoot (replicate 32 x03) sample_header) = (h1, Ok x) /\
    Header_RlpHash plain_codec (fun b => b) (ungroup (SetTxRoot (replicate 32 x03) sample_header)) = Ok x.
Proof.
  destruct (Header_Hash plain_codec (fun b => b) (SetTxRoot (replicate 32 x03) sample_header)) as [h1 [x| |]] eqn:E; [|discriminate E..].
  exists h1, x. split; [reflexivity|].
  apply (proj1 (header_hash_coherent plain_codec (fun b => b) sample_header (SetTxRoot (replicate 32 x03) sample_header) h1
    [OpHash; OpGroupSign [x01]; OpTxRoot (replicate 32 x03); OpGroupSign []] x eq_refl eq_refl) E).
Defined.

Lemma le_uint_put v : forall n k, 0 <= v -> 0 <= k ->
  le_uint (map (fun i => z2b (Z.shiftr v (8 * (k + Z.of_nat i)))) (seq 0 n)) = Z.shiftr v (8 * k) mod 256 ^ Z.of_nat n.
Proof.
  induction n as [|n IH]; intros k V K; [by rewrite Z.mod_1_r|].
  cbn [seq map]. rewrite le_uint_cons, b2z_z2b. rewrite <- seq_shift, map_map.
  rewrite (map_ext _ (fun i => z2b (Z.shiftr v (8 * (k + 1 + Z.of_nat i))))) by (intros i; do 3 f_equal; lia).
  rewrite IH by lia. rewrite Nat2Z.inj_succ, Z.pow_succ_r by lia. replace (8 * (k + Z.of_nat 0)) with (8 * k) by lia.
  rewrite !Z.shiftr_div_pow2 by lia. replace (2 ^ (8 * (k + 1))) with (2 ^ (8 * k) * 256) by (rewrite Z.mul_add_distr_l, Z.pow_add_r by lia; reflexivity).
  rewrite <- Z.div_div by lia. set (w := v / 2 ^ (8 * k)). rewrite Z.rem_mul_r by lia. done.
Qed.

Lemma putUint64_value v : 0 <= v < 2 ^ 64 -> le_uint (putUint64 v) = v.
Proof.
  intros R. transitivity (Z.shiftr v (8 * 0) mod 256 ^ Z.of_nat 8); [apply (le_uint_put v 8 0); lia|].
  rewrite Z.shiftr_0_r. apply Z.mod_small. simpl. lia.
Qed.

(** What goes over the wire comes back.  A height is restored from its 24 bytes, and a header
    from its encoding, save for its time, of which only the low 32 bits are sent, and the cached
    hash. *)
Theorem header_wire_roundtrip (c_header : Codec headerTemp) (h h0 : Header) (n n0 : ChainIndex) :
  codec_ok c_header -> encodable c_header (header2Temp h) ->
  0 <= ci_Index n < 2 ^ 64 -> len (ci_AssetID n) = 16 ->
  ChainIndex_SetBytes (E := tx_error) n0 (ChainIndex_Bytes n) = Ok n /\
  exists b, Header_EncodeRLP c_header h = Ok b /\
    Header_DecodeRLP c_header b h0 =
      (mkHeader (mkHeaderSdw (ParentHash h) (GetAuthors h) (TxRoot h) (TxsIllegal (header h)) (GetNumber h) (h_Extra h)
                   (Timestamp h mod 2 ^ 32) (CryptoLib (header h))) (h_hash h0) (group_sign h) (group_pubKey h), Ok tt).
Proof.
  intros Ok_ En R L. split.
  - unfold ChainIndex_SetBytes, ChainIndex_Bytes. assert (L8 : len (putUint64 (ci_Index n)) = 8) by (unfold putUint64, len; by rewrite length_map, length_seq).
    rewrite len_app, L8, L. change (8 + 16 <? 8) with false. cbv iota. f_equal. destruct n as [aid idx]. cbn [ci_Index ci_AssetID] in *.
    assert (E1 : slice (putUint64 idx ++ aid) 8 (8 + 16) = aid).
    { unfold slice. rewrite drop_app_length' by (unfold len in L8; lia). apply take_ge. unfold len in L. lia. }
    assert (E2 : slice (putUint64 idx ++ aid) 0 8 = putUint64 idx).
    { reflexivity. }
    rewrite E1, E2, putUint64_value by lia. f_equal. unfold SetBytes, ID_LENGTH. rewrite L. change (16 <? 16) with false. cbv iota zeta. by rewrite L.
  - destruct (Ok_ _ En) as (b & E & D). exists b. split; [done|]. unfold Header_DecodeRLP. by rewrite D.
Qed.

#[global] Instance headerTemp_eq_dec : EqDecision headerTemp.
Proof.
  assert (EqDecision Authentifier) by solve_decision. solve_decision.
Defined.

Lemma header_wire_roundtrip_witness :
  let c := table_codec [header2Temp sample_header] in
  exists b h, Header_EncodeRLP c sample_header = Ok b /\ Header_DecodeRLP c b sample_header = (h, Ok tt) /\ Timestamp h = 1600000000.
Proof.
  destruct (header_wire_roundtrip (table_codec [header2Temp sample_header]) sample_header sample_header (mkChainIndex PTNCOIN 7) (mkChainIndex PTNCOIN 0))
    as (_ & b & E & D).
  - apply table_codec_ok.
  - left.
  - vm_compute. split; congruence.
  - reflexivity.
  - exists b. eexists. split; [exact E|]. split; [exact D|reflexivity].
Defined.
