(* ===== verification/ValPayment.v ===== *)
(** The validator, payments: src/validator/{errors,dependency,validate_payment}.go.

    The validator reads the node through four interfaces, of which any may be nil: [IUtxoQuery],
    [IStateQuery], [IDagQuery] and [IPropQuery]; a call through a nil interface panics.  The first
    is replaced while the transactions of a unit are checked and is an argument; the others, the
    configuration and the libraries are the class [Node].  A function that returns a
    [ValidationCode] is a computation that ends normally for VALID and with the code as its error
    otherwise, so that [throw] is the source's early return.  A map keyed by [OutPoint.String()]
    is keyed by the outpoint. *)

From Stdlib Require Import ZArith Lia.
From S2P Require Import Prelude Errors ScriptNum Stack Opcode Text Script Builder Address Standard Tx AssetId Float64 SigHash SigCache Engine TokenApi TxFee Unit.

(** ** Codes *)

Definition ValidationCode : Type := Z.
Definition TxValidationCode_VALID : ValidationCode := 0.
Definition TxValidationCode_INVALID_CONTRACT_TEMPLATE : ValidationCode := 1.
Definition TxValidationCode_INVALID_FEE : ValidationCode := 2.
Definition TxValidationCode_BAD_COMMON_HEADER : ValidationCode := 3.
Definition TxValidationCode_BAD_CREATOR_SIGNATURE : ValidationCode := 4.
Definition TxValidationCode_INVALID_ENDORSER_TRANSACTION : ValidationCode := 5.
Definition TxValidationCode_INVALID_CONFIG_TRANSACTION : ValidationCode := 6.
Definition TxValidationCode_UNSUPPORTED_TX_PAYLOAD : ValidationCode := 7.
Definition TxValidationCode_BAD_PROPOSAL_TXID : ValidationCode := 8.
Definition TxValidationCode_DUPLICATE_TXID : ValidationCode := 9.
Definition TxValidationCode_ENDORSEMENT_POLICY_FAILURE : ValidationCode := 10.
Definition TxValidationCode_MVCC_READ_CONFLICT : ValidationCode := 11.
Definition TxValidationCode_PHANTOM_READ_CONFLICT : ValidationCode := 12.
Definition TxValidationCode_UNKNOWN_TX_TYPE : ValidationCode := 13.
Definition TxValidationCode_STATE_DATA_NOT_FOUND : ValidationCode := 14.
Definition TxValidationCode_MARSHAL_TX_ERROR : ValidationCode := 15.
Definition TxValidationCode_NIL_TXACTION : ValidationCode := 16.
Definition TxValidationCode_EXPIRED_CHAINCODE : ValidationCode := 17.
Definition TxValidationCode_CHAINCODE_VERSION_CONFLICT : ValidationCode := 18.
Definition TxValidationCode_BAD_HEADER_EXTENSION : ValidationCode := 19.
Definition TxValidationCode_BAD_CHANNEL_HEADER : ValidationCode := 20.
Definition TxValidationCode_BAD_RESPONSE_PAYLOAD : ValidationCode := 21.
Definition TxValidationCode_BAD_RWSET : ValidationCode := 22.
Definition TxValidationCode_ILLEGAL_WRITESET : ValidationCode := 23.
Definition TxValidationCode_INVALID_CONTRACT_SIGN : ValidationCode := 24.
Definition TxValidationCode_INVALID_MSG : ValidationCode := 25.
Definition TxValidationCode_INVALID_PAYMMENTLOAD : ValidationCode := 26.
Definition TxValidationCode_INVALID_PAYMMENT_INPUT : ValidationCode := 27.
Definition TxValidationCode_INVALID_PAYMMENT_INPUT_COUNT : ValidationCode := 28.
Definition TxValidationCode_INVALID_COINBASE : ValidationCode := 29.
Definition TxValidationCode_ADDRESS_IN_BLACKLIST : ValidationCode := 30.
Definition TxValidationCode_INVALID_AMOUNT : ValidationCode := 31.
Definition TxValidationCode_INVALID_ASSET : ValidationCode := 32.
Definition TxValidationCode_INVALID_CONTRACT : ValidationCode := 33.
Definition TxValidationCode_INVALID_DATAPAYLOAD : ValidationCode := 34.
Definition TxValidationCode_INVALID_DOUBLE_SPEND : ValidationCode := 35.
Definition TxValidationCode_INVALID_TOKEN_STATUS : ValidationCode := 36.
Definition TxValidationCode_NOT_COMPARE_SIZE : ValidationCode := 37.
Definition TxValidationCode_NOT_TPL_DEVELOPER : ValidationCode := 38.
Definition TxValidationCode_ORPHAN : ValidationCode := 255.
Definition TxValidationCode_INVALID_OTHER_REASON : ValidationCode := 251.
Definition TxValidationCode_NOT_VALIDATED : ValidationCode := 250.
Definition UNIT_STATE_AUTHOR_SIGNATURE_PASSED : ValidationCode := 101.
Definition UNIT_STATE_INVALID_MEDIATOR_SCHEDULE : ValidationCode := 102.
Definition UNIT_STATE_INVALID_AUTHOR_SIGNATURE : ValidationCode := 103.
Definition UNIT_STATE_INVALID_GROUP_SIGNATURE : ValidationCode := 104.
Definition UNIT_STATE_HAS_INVALID_TRANSACTIONS : ValidationCode := 105.
Definition UNIT_STATE_INVALID_AUTHOR : ValidationCode := 106.
Definition UNIT_STATE_INVALID_EXTRA_DATA : ValidationCode := 107.
Definition UNIT_STATE_INVALID_HEADER : ValidationCode := 108.
Definition UNIT_STATE_INVALID_HEADER_NUMBER : ValidationCode := 109.
Definition UNIT_STATE_INVALID_HEADER_TXROOT : ValidationCode := 110.
Definition UNIT_STATE_INVALID_HEADER_TIME : ValidationCode := 111.
Definition UNIT_STATE_ORPHAN : ValidationCode := 254.

(** [validationCode_name]; a missing name is the empty text. *)
Definition validationCode_names : list (Z * string) :=
  [(0, "VALID"); (1, "INVALID_CONTRACT_TEMPLATE"); (2, "INVALID_FEE"); (3, "BAD_COMMON_HEADER");
   (4, "BAD_CREATOR_SIGNATURE"); (5, "INVALID_ENDORSER_TRANSACTION"); (6, "INVALID_CONFIG_TRANSACTION");
   (7, "UNSUPPORTED_TX_PAYLOAD"); (8, "BAD_PROPOSAL_TXID"); (9, "DUPLICATE_TXID"); (10, "ENDORSEMENT_POLICY_FAILURE");
   (11, "MVCC_READ_CONFLICT"); (12, "PHANTOM_READ_CONFLICT"); (13, "UNKNOWN_TX_TYPE"); (14, "STATE_DATA_NOT_FOUND");
   (15, "MARSHAL_TX_ERROR"); (16, "NIL_TXACTION"); (17, "EXPIRED_CHAINCODE"); (18, "CHAINCODE_VERSION_CONFLICT");
   (19, "BAD_HEADER_EXTENSION"); (20, "BAD_CHANNEL_HEADER"); (21, "BAD_RESPONSE_PAYLOAD"); (22, "BAD_RWSET");
   (23, "ILLEGAL_WRITESET"); (24, "INVALID_CONTRACT_SIGN"); (25, "INVALID_MSG"); (26, "INVALID_PAYMMENTLOAD");
   (27, "INVALID_PAYMMENT_INPUT"); (28, "INVALID_PAYMMENT_INPUT_COUNT"); (29, "INVALID_PAYMMENT_COINBASE");
   (30, "ADDRESS_IN_BLACKLIST"); (31, "INVALID_AMOUNT"); (32, "INVALID_ASSET"); (33, "INVALID_CONTRACT");
   (34, "INVALID_DATAPAYLOAD"); (35, "DOUBLE_SPEND"); (36, "INVALID_TOKEN_STATUS"); (37, "NOT_COMPARE_SIZE");
   (101, "AUTHOR_SIGNATURE_PASSED"); (102, "UNIT_STATE_INVALID_MEDIATOR_SCHEDULE"); (103, "INVALID_AUTHOR_SIGNATURE");
   (104, "INVALID_GROUP_SIGNATURE"); (105, "HAS_INVALID_TRANSACTIONS"); (106, "INVALID_AUTHOR"); (107, "INVALID_EXTRA_DATA");
   (108, "INVALID_HEADER"); (109, "CHECK_HEADER_PASSED"); (110, "UNIT_STATE_INVALID_HEADER_TXROOT");
   (111, "INVALID_HEADER_TIME"); (125, "OTHER_ERROR"); (251, "NOT_VALIDATED"); (250, "INVALID_OTHER_REASON");
   (255, "ORPHAN TX"); (254, "ORPHAN UNIT")]%string.
Definition validationCode_name (code : ValidationCode) : string :=
  match List.find (fun p => p.1 =? code) validationCode_names with Some p => p.2 | None => "" end.

(** The text of the error; [None] is nil. *)
Definition NewValidateError (code : ValidationCode) : option string :=
  if code =? TxValidationCode_VALID then None else Some (validationCode_name code).
Definition IsOrphanError (err : string) : bool := String.eqb err "ORPHAN TX" || String.eqb err "ORPHAN UNIT".

(** ** What the validator reads *)

Record IUtxoQuery := mkUtxoQuery {
  GetUtxoEntry : OutPoint -> result string Utxo;     (* a nil entry is an error to the callers *)
  GetStxoEntry : OutPoint -> option Hash              (* the transaction that spent the output *)
}.

Record IStateQuery := mkStateQuery {
  HasContractTpl : bytes -> bool;                     (* GetContractTpl gives an entry *)
  GetContractJury : bytes -> result string (option ElectionNode);
  GetContractState : bytes -> string -> result string bytes;
  GetContractStatesByPrefix : bytes -> string -> result string (gmap string bytes);
  GetMediators : Address -> bool;
  GetMediator : Address -> option Address;            (* the reward address of a mediator *)
  GetBlacklistAddress : list Address;
  GetJurorByAddrHash : Hash -> result string bytes;   (* the public key of a juror *)
  GetJurorReward : Address -> Address;
  IsContractDeveloper : Address -> bool
}.

Record IDagQuery := mkDagQuery {
  IsTransactionExist : Hash -> bool;
  GetHeaderByHash : Hash -> result string Header;
  GetTxRequesterAddress : Transaction -> result string Address
}.

Record ChainParameters := mkChainParameters {
  MaximumMediatorCount : Z; ContractTxTimeoutUnitFee : Z; ContractTxSizeUnitFee : Z;
  ContractTxInstallFeeLevel : float64; ContractTxDeployFeeLevel : float64; ContractTxInvokeFeeLevel : float64;
  ContractTxStopFeeLevel : float64; AccountUpdateFee : Z; TransferPtnBaseFee : Z; TransferPtnPricePerKByte : Z }.

Record IPropQuery := mkPropQuery {
  GetSlotAtTime : Z -> Z;
  GetScheduledMediator : Z -> Address;
  GetNewestUnitTimestamp : bytes -> Z;
  GetChainParameters : ChainParameters
}.

Class Node := {
  node_env :: ScriptEnv;
  statequery : option IStateQuery;
  dagquery : option IDagQuery;
  propquery : option IPropQuery;
  light : bool;
  gasToken : bytes;                                             (* DagConfig.GetGasToken() *)
  jury_percent : float64;                                       (* CurrentSysParameters.ContractFeeJuryPercent *)
  GenerateUnitReward : Z;
  ContractCheckFun : option (Transaction -> bool);
  token_status : bytes -> option Z;                             (* json.Unmarshal of a GlobalTokenInfo, its Status *)
  vote_map : bytes -> option (gmap string bool);                (* json.Unmarshal of the voted mediators *)
  dec_amounts : bytes -> list AmountAsset * bool;               (* rlp.DecodeBytes, and whether it succeeds *)
  enc_amounts : list AmountAsset -> bytes;                      (* rlp.EncodeToBytes *)
  marshal_additions : list Addition -> option bytes;            (* json.Marshal *)
  unmarshal_additions : bytes -> option (list Addition);
  RlpHash_address : Address -> Hash;                            (* util.RlpHash of an address *)
  VerifyE : bytes -> bytes -> bytes -> result string bool;      (* MyCryptoLib.Verify with its error *)
  crypto_hash : bytes -> result string bytes;                   (* MyCryptoLib.Hash *)
  check_encode : bytes -> byte -> string;
  check_decode : string -> result address_error (bytes * byte);
  DeriveSha : list Transaction -> Hash;                         (* core.DeriveSha, the root of the transactions *)
  header_codec : Codec headerTemp                               (* the RLP library on headers *)
}.

Section Payment.
Context `{Node}.

(** ** Juries *)

Fixpoint juror_keys (sq : IStateQuery) (l : list ElectionInf) : result string (list bytes) :=
  match l with
  | [] => Ok []
  | ju :: l' =>
      let? key := GetJurorByAddrHash sq (el_AddrHash ju) in
      let? keys := juror_keys sq l' in
      Ok (key :: keys)
  end.

Definition generateJuryRedeemScript (sq : IStateQuery) (jury : option ElectionNode) : result string bytes :=
  match jury with
  | None => Err "Jury is empty"%string
  | Some jury =>
      let needed := to_byte (two_thirds (len (EleList jury))) in
      let? pubKeys := juror_keys sq (EleList jury) in
      Ok (GenerateRedeemScript needed pubKeys).1
  end.

(** Only user contracts have a jury; a system contract has the nil redeem script. *)
Definition pickJuryFn (contractAddr : Address) : result error bytes :=
  if negb (IsSystemContractAddress contractAddr) then
    let? sq := rget statequery in
    match GetContractJury sq (Address_Bytes contractAddr) with
    | Err _ => Err (ErrExternal "Cannot get contract jury")
    | Panic => Panic
    | Ok jury =>
        match generateJuryRedeemScript sq jury with Ok s => Ok s | Err e => Err (ErrExternal e) | Panic => Panic end
    end
  else Ok [].

(** The token engine with [pickJuryFn]. *)
Definition jury_env : ScriptEnv := {|
  env_rlp := env_rlp; env_keccakHash := env_keccakHash; Verify := Verify; Hash160 := Hash160; Ripemd160 := Ripemd160;
  Sha1 := Sha1; Keccak256 := Keccak256; pickupJuryRedeemScript := pickJuryFn; cacheOrder := cacheOrder; cacheRand := cacheRand
|}.

(** ** Payments *)

(** The signature cache and the outputs used so far by the transaction. *)
Record PayState := mkPayState { ps_sigs : SigCache; usedUtxo : gset OutPoint }.
Definition V (A : Type) : Type := ST PayState ValidationCode A.

(** Code the validator calls without looking at errors, or whose errors cannot occur *)
Definition call {E A} (r : result E A) : V A := fun s => (s, match r with Ok a => Ok a | _ => Panic end).

Definition getBlacklistAddress : gset Address :=
  match statequery with None => ∅ | Some sq => list_to_set (GetBlacklistAddress sq) end.

(** [addr, _ := GetAddressFromScript(script)] *)
Definition script_address (script : bytes) : V Address :=
  fun s => (s, match GetAddressFromScript script with Ok a => Ok a | Err _ => Ok zeroAddress | Panic => Panic end).

Definition check_blacklist (blacklistAddress : gset Address) (script : bytes) : V unit :=
  let! addr := script_address script in
  if bool_decide (addr ∈ blacklistAddress) then throw TxValidationCode_ADDRESS_IN_BLACKLIST else ret tt.

Definition checkTokenStatus (asset : Asset) : V unit :=
  let! sq := get statequery in
  let! symbol := call (GetSymbol (AssetId asset)) in
  match GetContractState sq (replicate 20 x00) ("Tokens_" +:+ symbol) with
  | Panic => panic
  | Err _ => throw TxValidationCode_INVALID_ASSET
  | Ok result =>
      match token_status result with
      | None => throw TxValidationCode_INVALID_ASSET
      | Some st => if negb (st =? 0) then throw TxValidationCode_INVALID_TOKEN_STATUS else ret tt
      end
  end.

(** The output an input spends: one of this transaction or one of the ledger; an output that is
    nowhere, spent or not, makes the transaction an orphan. *)
Definition input_utxo (utxoquery : option IUtxoQuery) (tx : Transaction) (txId : Hash) (o : OutPoint) : V Utxo :=
  if IsSelfHash (TxHash o) then
    let! msg := get (index (Messages tx) (MessageIndex o)) in
    let! pay := lift (as_payment msg) in
    let! output := get (index (Outputs pay) (OutIndex o)) in
    ret (mkUtxo (Value output) (out_Asset output) (PkScript output) 0 0 0)
  else
    let! q := get utxoquery in
    match GetUtxoEntry q o with
    | Ok utxo => ret utxo
    | Panic => panic
    | Err _ =>
        match GetStxoEntry q o with
        | Some spentBy => if negb (bytes_equal spentBy txId) then throw TxValidationCode_INVALID_DOUBLE_SPEND else throw TxValidationCode_ORPHAN
        | None => throw TxValidationCode_ORPHAN
        end
    end.

(** [asset.IsSimilar(other)] through pointers *)
Definition similar (asset other : option Asset) : V bool :=
  let! a := get asset in let! b := get other in ret (IsSimilar a b).

Record InputTotals := mkTotals { it_asset : option Asset; statusValid : bool; totalInput : Z; utxoScriptMap : gmap OutPoint bytes }.

(** [for _, in := range payment.Inputs] *)
Fixpoint check_inputs (utxoquery : option IUtxoQuery) (tx : Transaction) (txId : Hash) (msgIdx : Z) (blacklistAddress : gset Address)
    (t : InputTotals) (inputs : list Input) : V InputTotals :=
  match inputs with
  | [] => ret t
  | in_ :: inputs' =>
      match PreviousOutPoint in_ with
      | None => throw TxValidationCode_INVALID_PAYMMENT_INPUT
      | Some o =>
          let! used := gets usedUtxo in
          if bool_decide (o ∈ used) then throw TxValidationCode_INVALID_DOUBLE_SPEND
          else
            modify (fun s => mkPayState (ps_sigs s) ({[o]} ∪ usedUtxo s)) ;;;
            let! utxo := input_utxo utxoquery tx txId o in
            let! asset :=
              match it_asset t with
              | None => ret (u_Asset utxo)
              | Some _ =>
                  let! same := similar (it_asset t) (u_Asset utxo) in
                  if negb same then throw TxValidationCode_INVALID_ASSET else ret (it_asset t)
              end in
            let! statusValid :=
              (if negb (msgIdx =? 0) then
                 if statusValid t then ret true
                 else
                   let! a := get asset in
                   if negb (bytes_equal (AssetId a) gasToken) then checkTokenStatus a ;;; ret true else ret false
               else ret (statusValid t)) in
            check_blacklist blacklistAddress (u_PkScript utxo) ;;;
            check_inputs utxoquery tx txId msgIdx blacklistAddress
              (mkTotals asset statusValid (uint64 (totalInput t + u_Amount utxo)) (<[o := u_PkScript utxo]> (utxoScriptMap t))) inputs'
      end
  end.

(** [for _, out := range payment.Outputs]: [asset] is that of the inputs, [None] without inputs,
    [asset0] that of the first output. *)
Fixpoint check_outputs (isInputnil : bool) (asset asset0 : option Asset) (blacklistAddress : gset Address) (totalOutput : Z)
    (outs : list Output) : V Z :=
  match outs with
  | [] => ret totalOutput
  | out :: outs' =>
      let! same :=
        (if isInputnil then let! a := get asset0 in let! b := get (out_Asset out) in ret (IsSameAssetId a b)
         else similar asset (out_Asset out)) in
      if negb same then throw TxValidationCode_INVALID_ASSET
      else
        let totalOutput := uint64 (totalOutput + Value out) in
        if (totalOutput <? Value out) || (Value out =? 0) then throw TxValidationCode_INVALID_AMOUNT
        else
          check_blacklist blacklistAddress (PkScript out) ;;;
          check_outputs isInputnil asset asset0 blacklistAddress totalOutput outs'
  end.

(** [ScriptValidate1Msg] on the engine's cache *)
Definition validate_scripts (utxoScriptMap : gmap OutPoint bytes) (txForSign : Transaction) (msgIdx : Z) : V unit :=
  fun s =>
    let '(sigs, r) := ScriptValidate1Msg (H := jury_env) utxoScriptMap txForSign msgIdx (ps_sigs s) in
    (mkPayState sigs (usedUtxo s),
     match r with Ok _ => Ok tt | Err _ => Err TxValidationCode_INVALID_PAYMMENT_INPUT | Panic => Panic end).

Definition tx_Hash (tx : Transaction) : result tx_error Hash := (Hash_ env_keccakHash tx).2.

(** The inputs and their scripts: the asset and the total of the inputs *)
Definition validate_inputs_of (utxoquery : option IUtxoQuery) (tx : Transaction) (txId : Hash) (msgIdx : Z) (blacklistAddress : gset Address)
    (payment : PaymentPayload) : V (option Asset * Z) :=
  let! txForSign := call (Clone tx) in
  let! txForSign := (if msgIdx <? GetContractInvokeReqMsgIdx tx then call (E := tx_error) (GetRequestTx tx) else ret txForSign) in
  let! t := check_inputs utxoquery tx txId msgIdx blacklistAddress (mkTotals None false 0 ∅) (Inputs payment) in
  validate_scripts (utxoScriptMap t) txForSign msgIdx ;;;
  ret (it_asset t, totalInput t).

Definition validatePaymentPayload (utxoquery : option IUtxoQuery) (tx : Transaction) (msgIdx : Z) (payment : PaymentPayload) : V unit :=
  let! txId := call (tx_Hash tx) in
  let blacklistAddress := getBlacklistAddress in
  if 1000 <? len (Inputs payment) then throw TxValidationCode_INVALID_PAYMMENT_INPUT_COUNT
  else
    let isInputnil := len (Inputs payment) =? 0 in
    let! (asset, totalInput) :=
      (if isInputnil then ret (None, 0) else validate_inputs_of utxoquery tx txId msgIdx blacklistAddress payment) in
    match Outputs payment with
    | [] => ret tt
    | out0 :: _ =>
        let! totalOutput := check_outputs isInputnil asset (out_Asset out0) blacklistAddress 0 (Outputs payment) in
        if negb isInputnil && negb (msgIdx =? 0) && (totalInput <? totalOutput) then throw TxValidationCode_INVALID_AMOUNT
        else ret tt
    end.
End Payment.
