(* ===== verification/ValPayProps.v ===== *)
(** What a valid payment is: the conditions under which [validatePaymentPayload] returns VALID. *)

From Stdlib Require Import ZArith Lia.
From S2P Require Import Prelude Errors ScriptNum Stack Opcode Text Script Builder Address Standard Tx AssetId Float64 SigHash SigCache Engine TokenApi TxFee Unit ValPayment.

Section Sound.
Context `{Node}.

(** The output that an outpoint stands for *)
Definition resolves (q : option IUtxoQuery) (tx : Transaction) (o : OutPoint) (u : Utxo) : Prop :=
  if IsSelfHash (TxHash o) then
    exists msg pay out, index (Messages tx) (MessageIndex o) = Some msg /\ Payload msg = Some (PayPayment pay) /\
      index (Outputs pay) (OutIndex o) = Some out /\ u = mkUtxo (Value out) (out_Asset out) (PkScript out) 0 0 0
  else exists q', q = Some q' /\ GetUtxoEntry q' o = Ok u.

(** The address of a script, the zero address if it has none *)
Definition address_of (script : bytes) : Address :=
  match GetAddressFromScript script with Ok a => a | _ => zeroAddress end.

Definition sum_amounts (us : list Utxo) : Z := fold_right (fun u n => u_Amount u + n) 0 us.
Definition sum_values (outs : list Output) : Z := fold_right (fun o n => Value o + n) 0 outs.

Lemma IsSimilar_eq a b : IsSimilar a b = true <-> a = b.
Proof.
  unfold IsSimilar, bytes_equal. destruct a as [i u], b as [i' u']. simpl.
  case_bool_decide as E1; simpl; [|naive_solver]. case_bool_decide as E2; simpl; naive_solver.
Qed.

Lemma get_inv {S E A} (o : option A) s s' (a : A) : get (S := S) (E := E) o s = (s', Ok a) -> o = Some a /\ s' = s.
Proof. unfold get. destruct o; [|done]. by intros E'; injection E' as <- <-. Qed.

Lemma input_utxo_inv q tx txId o s s' u : input_utxo q tx txId o s = (s', Ok u) -> s' = s /\ resolves q tx o u.
Proof.
  unfold input_utxo, resolves. destruct (IsSelfHash (TxHash o)); intros E.
  - apply bind_inv in E as (s1 & msg & E1 & E). apply get_inv in E1 as [I ->].
    apply bind_inv in E as (s1 & pay & E1 & E). unfold lift, as_payment in E1. injection E1 as <- E1.
    destruct (Payload msg) as [[p| | | | | | | | | | |]|] eqn:P; try discriminate E1. injection E1 as ->.
    apply bind_inv in E as (s1 & out & E1 & E). apply get_inv in E1 as [O ->]. injection E as <- <-. split; [done|].
    by exists msg, pay, out.
  - apply bind_inv in E as (s1 & q' & E1 & E). apply get_inv in E1 as [-> ->].
    destruct (GetUtxoEntry q' o) as [u'| |] eqn:G; [injection E as <- <-; eauto| |done].
    destruct (GetStxoEntry q' o); [destruct (negb _)|]; done.
Qed.

Lemma checkTokenStatus_state a s s' r : checkTokenStatus a s = (s', Ok r) -> s' = s.
Proof.
  unfold checkTokenStatus. intros E. apply bind_inv in E as (s1 & sq & E1 & E). apply get_inv in E1 as [_ ->].
  apply bind_inv in E as (s1 & sy & E1 & E). unfold call in E1. injection E1 as <- _.
  destruct (GetContractState _ _ _); try done. destruct (token_status _); [|done]. destruct (negb _); [done|]. by injection E as <- _.
Qed.

Lemma check_blacklist_inv bl script s s' r : check_blacklist bl script s = (s', Ok r) -> s' = s /\ address_of script ∉ bl.
Proof.
  unfold check_blacklist. intros E. apply bind_inv in E as (s1 & a & E1 & E). unfold script_address in E1. injection E1 as <- Ea.
  case_bool_decide as B; [done|]. injection E as <- _. split; [done|]. unfold address_of.
  destruct (GetAddressFromScript script); simplify_eq; done.
Qed.

(** What an input adds to the totals *)
Definition merge_asset (a b : option Asset) : option Asset := match a with None => b | Some _ => a end.

(** The two computations of an input that read the asset *)
Lemma merged_inv t utxo s s' asset :
  match it_asset t with
  | None => ret (u_Asset utxo)
  | Some _ =>
      let! same := similar (it_asset t) (u_Asset utxo) in
      if negb same then throw TxValidationCode_INVALID_ASSET else ret (it_asset t)
  end s = (s', Ok asset) ->
  s' = s /\ asset = merge_asset (it_asset t) (u_Asset utxo) /\ (forall a, it_asset t = Some a -> u_Asset utxo = Some a).
Proof.
  intros E1. destruct (it_asset t) as [a|]; simpl; [|injection E1 as <- <-; by split_and!].
  apply bind_inv in E1 as (s3 & same & E2 & E1). unfold similar in E2.
  apply bind_inv in E2 as (s4 & a' & E3 & E2). apply get_inv in E3 as [Ea ->]. injection Ea as <-.
  apply bind_inv in E2 as (s5 & b & E3 & E2). apply get_inv in E3 as [Eb ->]. injection E2 as <- <-.
  destruct (IsSimilar a b) eqn:Sm; [|done]. simpl in E1. injection E1 as <- <-. apply IsSimilar_eq in Sm as <-.
  split_and!; try done. intros a' Q. by injection Q as <-.
Qed.

Lemma status_inv (b sv : bool) (asset : option Asset) s s' r :
  (if b then
     if sv then ret true
     else
       let! a := get asset in
       if negb (bytes_equal (AssetId a) gasToken) then checkTokenStatus a ;;; ret true else ret false
   else ret sv) s = (s', Ok r) -> s' = s.
Proof.
  intros E1. destruct b; [|by injection E1 as <- _]. destruct sv; [by injection E1 as <- _|].
  apply bind_inv in E1 as (s3 & a & E2 & E1). apply get_inv in E2 as [_ ->]. destruct (negb _); [|by injection E1 as <- _].
  apply bind_inv in E1 as (s4 & y & E2 & E1). apply checkTokenStatus_state in E2 as ->. by injection E1 as <- _.
Qed.

Lemma merge_keeps c l : foldl merge_asset (Some c) l = Some c.
Proof. induction l as [|[x|] l IH]; simpl; done. Qed.

Lemma check_inputs_sound q tx txId msgIdx bl : forall inputs t s s' t', 0 <= totalInput t < 2 ^ 64 ->
  check_inputs q tx txId msgIdx bl t inputs s = (s', Ok t') ->
  exists os us, map PreviousOutPoint inputs = map Some os /\ Forall2 (resolves q tx) os us /\ NoDup os /\
    (forall o, o ∈ os -> o ∉ usedUtxo s) /\ s' = mkPayState (ps_sigs s) (list_to_set os ∪ usedUtxo s) /\
    it_asset t' = foldl merge_asset (it_asset t) (map u_Asset us) /\
    (forall a, it_asset t = Some a -> Forall (fun u => u_Asset u = Some a) us) /\
    (forall a, it_asset t' = Some a -> Forall (fun u => u_Asset u = None \/ u_Asset u = Some a) us) /\
    Forall (fun u => address_of (u_PkScript u) ∉ bl) us /\
    totalInput t' = uint64 (totalInput t + sum_amounts us) /\
    (forall o, o ∉ os -> utxoScriptMap t' !! o = utxoScriptMap t !! o) /\
    Forall2 (fun o u => utxoScriptMap t' !! o = Some (u_PkScript u)) os us.
Proof.
  induction inputs as [|in_ inputs IH]; intros t s s' t' R E.
  { cbn in E. injection E as <- <-. exists [], []. split_and!; try done; try constructor.
    - intros o I. by apply elem_of_nil in I.
    - destruct s; simpl. f_equal. by rewrite (left_id_L ∅ (∪)).
    - simpl. rewrite Z.add_0_r. symmetry. by apply uint64_small. }
  cbn [check_inputs] in E. destruct (PreviousOutPoint in_) as [o|] eqn:Po; [|done].
  apply bind_inv in E as (s1 & used & E1 & E). unfold gets in E1. injection E1 as <- <-. case_bool_decide as U; [done|].
  apply bind_inv in E as (s1 & x & E1 & E). unfold modify in E1. injection E1 as <- _.
  apply bind_inv in E as (s1 & utxo & E1 & E). apply input_utxo_inv in E1 as [-> Rs].
  apply bind_inv in E as (s2 & asset & E1 & E). apply merged_inv in E1 as (-> & -> & As).
  apply bind_inv in E as (s2 & sv & E1 & E). apply status_inv in E1 as ->.
  apply bind_inv in E as (s2 & y & E1 & E). apply check_blacklist_inv in E1 as [-> Bl].
  pose proof (fun P => IH _ _ _ _ P E) as IH'. destruct (IH' ltac:(apply Z.mod_pos_bound; lia)) as (os & us & Ep & F2 & ND & Fr & Es & Ea & Aa & Ab & Fb & Ti & Mo & Ms).
  cbn [it_asset totalInput utxoScriptMap ps_sigs usedUtxo] in *.
  assert (No : o ∉ os) by (intros I; specialize (Fr o I); apply Fr, elem_of_union_l; by apply elem_of_singleton).
  exists (o :: os), (utxo :: us). split_and!.
  - simpl. by rewrite Po, Ep.
  - by constructor.
  - by constructor.
  - intros o' I. apply elem_of_cons in I as [->|I]; [done|]. specialize (Fr o' I). intros I'. apply Fr. by apply elem_of_union_r.
  - rewrite Es. f_equal. rewrite list_to_set_cons. rewrite (assoc_L (∪)), (comm_L (∪) (list_to_set os)). done.
  - rewrite Ea. done.
  - intros a Q. constructor; [by apply As|]. apply Aa. by rewrite Q.
  - intros a Q. constructor; [|by apply Ab]. destruct (u_Asset utxo) as [b|] eqn:Ub; [right|by left].
    destruct (it_asset t) as [c|] eqn:C; simpl in *; rewrite merge_keeps in Ea; [|congruence]. rewrite (As c eq_refl). congruence.
  - by constructor.
  - rewrite Ti. unfold uint64, wrapU. rewrite Zplus_mod_idemp_l. f_equal. simpl. unfold sum_amounts. lia.
  - intros o' I. apply not_elem_of_cons in I as [N I]. rewrite Mo by done. by apply lookup_insert_ne.
  - constructor; [|done]. rewrite Mo by done. apply lookup_insert_eq.
Qed.

Definition wf_values (outs : list Output) : Prop := Forall (fun o => 0 <= Value o < 2 ^ 64) outs.

Lemma check_outputs_sound isInputnil asset asset0 bl : forall outs n s s' n', wf_values outs -> 0 <= n < 2 ^ 64 ->
  check_outputs isInputnil asset asset0 bl n outs s = (s', Ok n') ->
  s' = s /\ n' = n + sum_values outs /\ n' < 2 ^ 64 /\ Forall (fun o => 0 < Value o) outs /\
  Forall (fun o => address_of (PkScript o) ∉ bl) outs /\
  Forall (fun o => if isInputnil then exists a b, asset0 = Some a /\ out_Asset o = Some b /\ AssetId b = AssetId a
                   else exists a, asset = Some a /\ out_Asset o = Some a) outs.
Proof.
  induction outs as [|out outs IH]; intros n s s' n' W R E.
  { cbn in E. injection E as <- <-. simpl. split_and!; try done; try constructor; lia. }
  apply Forall_cons in W as [Wv W]. cbn [check_outputs] in E. apply bind_inv in E as (s1 & same & E1 & E).
  assert (Sm : s1 = s /\ (same = true -> if isInputnil then exists a b, asset0 = Some a /\ out_Asset out = Some b /\ AssetId b = AssetId a
                   else exists a, asset = Some a /\ out_Asset out = Some a)).
  { destruct isInputnil.
    - apply bind_inv in E1 as (s2 & a & E2 & E1). apply get_inv in E2 as [-> ->].
      apply bind_inv in E1 as (s2 & b & E2 & E1). apply get_inv in E2 as [-> ->]. injection E1 as <- <-. split; [done|].
      unfold IsSameAssetId, bytes_equal. intros Q. apply bool_decide_eq_true in Q. by exists a, b.
    - unfold similar in E1. apply bind_inv in E1 as (s2 & a & E2 & E1). apply get_inv in E2 as [-> ->].
      apply bind_inv in E1 as (s2 & b & E2 & E1). apply get_inv in E2 as [-> ->]. injection E1 as <- <-. split; [done|].
      intros Q. apply IsSimilar_eq in Q as <-. by exists a. }
  destruct Sm as [-> Sm]. destruct same; [|done]. cbn [negb] in E. cbv zeta in E.
  assert (Ov : uint64 (n + Value out) = n + Value out \/ uint64 (n + Value out) = n + Value out - 2 ^ 64).
  { destruct (Z.lt_ge_cases (n + Value out) (2 ^ 64)); [left; apply uint64_small; lia|right].
    unfold uint64, wrapU. symmetry. apply (Z.mod_unique _ _ 1); lia. }
  destruct (Z.ltb_spec (uint64 (n + Value out)) (Value out)); [done|]. destruct (Z.eqb_spec (Value out) 0); [done|]. cbn [orb] in E.
  destruct Ov as [Ov|Ov]; [|lia]. rewrite Ov in *.
  apply bind_inv in E as (s1 & y & E2 & E). apply check_blacklist_inv in E2 as [-> Bl].
  assert (n + Value out < 2 ^ 64) by (rewrite <- Ov; apply Z.mod_pos_bound; lia).
  pose proof (fun P => IH _ _ _ _ W P E) as IH'. destruct (IH' ltac:(lia)) as (-> & -> & Lt & Fv & Fb & Fa).
  assert (Es : sum_values (out :: outs) = Value out + sum_values outs) by done. rewrite Es.
  split; [done|]. split; [lia|]. split; [lia|]. split; [constructor; [lia|done]|]. split; [by constructor|]. constructor; [by apply Sm|done].
Qed.

(** *** All of a payment *)

(** The transaction whose data the scripts of a payment sign *)
Definition signing_tx (tx : Transaction) (msgIdx : Z) (tx' : Transaction) : Prop :=
  if msgIdx <? GetContractInvokeReqMsgIdx tx then GetRequestTx (E := tx_error) tx = Ok tx' else Clone tx = Ok tx'.

Lemma call_inv {E A} (r : result E A) s s' a : call r s = (s', Ok a) -> r = Ok a /\ s' = s.
Proof. unfold call. destruct r; intros Q; try done. by injection Q as <- <-. Qed.

Lemma validate_inputs_sound q tx txId msgIdx bl payment s s' asset total :
  validate_inputs_of q tx txId msgIdx bl payment s = (s', Ok (asset, total)) ->
  exists os us tx' scripts, map PreviousOutPoint (Inputs payment) = map Some os /\ Forall2 (resolves q tx) os us /\ NoDup os /\
    (forall o, o ∈ os -> o ∉ usedUtxo s) /\ usedUtxo s' = list_to_set os ∪ usedUtxo s /\
    (forall a, asset = Some a -> Forall (fun u => u_Asset u = None \/ u_Asset u = Some a) us) /\
    Forall (fun u => address_of (u_PkScript u) ∉ bl) us /\ total = uint64 (sum_amounts us) /\
    signing_tx tx msgIdx tx' /\ Forall2 (fun o u => scripts !! o = Some (u_PkScript u)) os us /\
    ScriptValidate1Msg (H := jury_env) scripts tx' msgIdx (ps_sigs s) = (ps_sigs s', Ok tt).
Proof.
  unfold validate_inputs_of. intros E. apply bind_inv in E as (s1 & cl & E1 & E). apply call_inv in E1 as [Cl ->].
  apply bind_inv in E as (s1 & tx' & E1 & E).
  assert (Sg : s1 = s /\ signing_tx tx msgIdx tx').
  { unfold signing_tx. destruct (_ <? _); [apply call_inv in E1 as [? ->]; done|]. by injection E1 as <- <-. }
  destruct Sg as [-> Sg]. apply bind_inv in E as (s2 & t & E2 & E).
  apply check_inputs_sound in E2 as (os & us & Ep & F2 & ND & Fr & -> & Ea & _ & Ab & Fb & Ti & _ & Ms); [|simpl; lia].
  apply bind_inv in E as (s3 & y & E3 & E). injection E as <- <- <-. unfold validate_scripts in E3. cbn [ps_sigs usedUtxo] in E3.
  destruct (ScriptValidate1Msg (H := jury_env) (utxoScriptMap t) tx' msgIdx (ps_sigs s)) as [sg [[]| |]] eqn:SV; try done. injection E3 as <- _.
  exists os, us, tx', (utxoScriptMap t). cbn [usedUtxo ps_sigs]. simpl in Ti. by split_and!.
Qed.
End Sound.

(** ** Properties *)

Lemma validatePayment_inv `{Node} (q : option IUtxoQuery) (tx : Transaction) (msgIdx : Z) (payment : PaymentPayload) (s s' : PayState) :
  validatePaymentPayload q tx msgIdx payment s = (s', Ok tt) ->
  len (Inputs payment) <= 1000 /\
  exists txId asset totalInput s1,
    (Inputs payment = [] /\ s1 = s /\ asset = None \/
     Inputs payment <> [] /\ validate_inputs_of q tx txId msgIdx getBlacklistAddress payment s = (s1, Ok (asset, totalInput))) /\
    match Outputs payment with
    | [] => s' = s1
    | out0 :: _ =>
        exists totalOutput, check_outputs (len (Inputs payment) =? 0) asset (out_Asset out0) getBlacklistAddress 0 (Outputs payment) s1 = (s', Ok totalOutput) /\
          (Inputs payment <> [] -> msgIdx <> 0 -> totalOutput <= totalInput)
    end.
Proof.
  unfold validatePaymentPayload. intros E. apply bind_inv in E as (s1 & txId & E1 & E). apply call_inv in E1 as [_ ->].
  cbv zeta in E. destruct (Z.ltb_spec 1000 (len (Inputs payment))); [done|]. split; [done|].
  apply bind_inv in E as (s1 & [asset totalInput] & E1 & E). exists txId, asset, totalInput, s1. split.
  - destruct (Z.eqb_spec (len (Inputs payment)) 0) as [Z|Z].
    + left. apply len_zero in Z. injection E1 as <- <- _. done.
    + right. split; [|done]. intros Q. rewrite Q in Z. done.
  - destruct (Outputs payment) as [|out0 outs]; [by injection E as <-|].
    apply bind_inv in E as (s2 & totalOutput & E2 & E). destruct (_ && _ && _) eqn:C; [done|]. injection E as <-.
    exists totalOutput. split; [done|]. intros Ni Nm. destruct (Z.eqb_spec (len (Inputs payment)) 0) as [Z|Z]; [by apply len_zero in Z|].
    destruct (Z.eqb_spec msgIdx 0); [done|]. cbn [negb andb] in C. by apply Z.ltb_ge in C.
Qed.

Lemma sum_amounts_nonneg us : Forall (fun u => 0 <= u_Amount u) us -> 0 <= sum_amounts us.
Proof.
  induction 1 as [|u us U _ IH]; [reflexivity|]. change (sum_amounts (u :: us)) with (u_Amount u + sum_amounts us). lia.
Qed.

(** The rules below, for use in other proofs. *)
Lemma payment_rules `{Node} (q : option IUtxoQuery) (tx : Transaction) (msgIdx : Z) (payment : PaymentPayload) (s s' : PayState) :
  wf_values (Outputs payment) ->
  validatePaymentPayload q tx msgIdx payment s = (s', Ok tt) ->
  len (Inputs payment) <= 1000 /\ Forall (fun o => 0 < Value o) (Outputs payment) /\ sum_values (Outputs payment) < 2 ^ 64 /\
  Forall (fun o => address_of (PkScript o) ∉ getBlacklistAddress) (Outputs payment) /\
  exists os us, map PreviousOutPoint (Inputs payment) = map Some os /\ Forall2 (resolves q tx) os us /\ NoDup os /\
    (forall o, o ∈ os -> o ∉ usedUtxo s) /\ usedUtxo s' = list_to_set os ∪ usedUtxo s /\
    Forall (fun u => address_of (u_PkScript u) ∉ getBlacklistAddress) us /\
    (Inputs payment = [] -> exists id, Forall (fun o => exists b, out_Asset o = Some b /\ AssetId b = id) (Outputs payment)) /\
    (Inputs payment <> [] -> exists tx' scripts, signing_tx tx msgIdx tx' /\
       Forall2 (fun o u => scripts !! o = Some (u_PkScript u)) os us /\
       ScriptValidate1Msg (H := jury_env) scripts tx' msgIdx (ps_sigs s) = (ps_sigs s', Ok tt)) /\
    (Inputs payment <> [] -> Outputs payment <> [] -> exists a, Forall (fun o => out_Asset o = Some a) (Outputs payment) /\
       Forall (fun u => u_Asset u = None \/ u_Asset u = Some a) us) /\
    (Inputs payment <> [] -> msgIdx <> 0 -> Forall (fun u => 0 <= u_Amount u) us -> sum_values (Outputs payment) <= sum_amounts us).
Proof.
  intros W E. apply validatePayment_inv in E as (L & txId & asset & total & s1 & I & O). split; [done|].
  assert (Outs : s' = s1 /\ sum_values (Outputs payment) < 2 ^ 64 /\ Forall (fun o => 0 < Value o) (Outputs payment) /\
    Forall (fun o => address_of (PkScript o) ∉ getBlacklistAddress) (Outputs payment) /\
    (Inputs payment = [] -> exists id, Forall (fun o => exists b, out_Asset o = Some b /\ AssetId b = id) (Outputs payment)) /\
    (Inputs payment <> [] -> Outputs payment <> [] -> exists a, asset = Some a /\ Forall (fun o => out_Asset o = Some a) (Outputs payment)) /\
    (Inputs payment <> [] -> msgIdx <> 0 -> sum_values (Outputs payment) <= total \/ Outputs payment = [])).
  { destruct (Outputs payment) as [|out0 outs] eqn:Eo.
    - subst s'. split; [done|]. split; [done|]. split; [constructor|]. split; [constructor|]. split; [intros _; by exists []|].
      split; [done|]. intros _ _. by right.
    - destruct O as (n & O & Le). apply check_outputs_sound in O as (-> & -> & Lt & Fv & Fb & Fa); [|done|lia].
      rewrite Z.add_0_l in Lt, Le. split_and!; try done.
      + intros Q. rewrite Q in Fa. cbn in Fa. apply Forall_cons in Fa as [(a & b & A & B & Id) Fa].
        exists (AssetId a). constructor; [by exists b|]. eapply Forall_impl; [exact Fa|]. intros o (a' & b' & A' & B' & Id').
        exists b'. split; [done|]. congruence.
      + intros Ni _. rewrite (proj2 (Z.eqb_neq _ _)) in Fa by (intros Z; by apply len_zero in Z).
        apply Forall_cons in Fa as [(a & A & B) Fa]. exists a. split; [done|]. constructor; [done|].
        eapply Forall_impl; [exact Fa|]. intros o (a' & A' & B'). congruence.
      + intros Ni Nm. left. by apply Le. }
  destruct Outs as (-> & Lt & Fv & Fb & Nil & Same & Le). split_and!; try done. destruct I as [(Ei & -> & ->)|(Ni & V)].
  - exists [], []. rewrite Ei. split_and!; try done; try constructor.
    + intros o I. by apply elem_of_nil in I.
    + rewrite list_to_set_nil; by rewrite (left_id_L ∅ (∪)).
    + intros _; by apply Nil.
  - apply validate_inputs_sound in V as (os & us & tx' & scripts & Ep & F2 & ND & Fr & Us & Fa & Fbu & Ti & Sg & Ms & SV).
    exists os, us. split_and!; try done.
    + intros _. by exists tx', scripts.
    + intros _ No. destruct (Same Ni No) as (a & A & Fo). exists a. split; [done|]. by apply Fa.
    + intros _ Nm Pos. apply sum_amounts_nonneg in Pos. destruct (Le Ni Nm) as [Le'| ->]; [|done].
      rewrite Ti in Le'. unfold uint64, wrapU in Le'. pose proof (Z.mod_le (sum_amounts us) (2 ^ 64)). lia.
Qed.

(** C1: a payment that the validator accepts is sound.  Its inputs, at most 1000, are distinct and
    spend outputs that no earlier message of the transaction spends, each of which is unspent in
    the ledger or an output of this transaction; the scripts of all inputs accept the transaction
    that was signed; no address it pays from or to is on the blacklist; every output has a
    positive amount and their sum does not overflow.  A payment with inputs pays out in one asset,
    that of every output it spends that has one, and outside the first message, whose rest is the
    fee, it pays out no more than it spends.  Without inputs, which is how coins are made, only the
    asset identifiers of the outputs agree and nothing bounds what is paid out. *)
Theorem payment_sound `{Node} (q : option IUtxoQuery) (tx : Transaction) (msgIdx : Z) (payment : PaymentPayload) (s s' : PayState) :
  wf_values (Outputs payment) ->
  validatePaymentPayload q tx msgIdx payment s = (s', Ok tt) ->
  len (Inputs payment) <= 1000 /\ Forall (fun o => 0 < Value o) (Outputs payment) /\ sum_values (Outputs payment) < 2 ^ 64 /\
  Forall (fun o => address_of (PkScript o) ∉ getBlacklistAddress) (Outputs payment) /\
  exists os us, map PreviousOutPoint (Inputs payment) = map Some os /\ Forall2 (resolves q tx) os us /\ NoDup os /\
    (forall o, o ∈ os -> o ∉ usedUtxo s) /\ usedUtxo s' = list_to_set os ∪ usedUtxo s /\
    Forall (fun u => address_of (u_PkScript u) ∉ getBlacklistAddress) us /\
    (Inputs payment = [] -> exists id, Forall (fun o => exists b, out_Asset o = Some b /\ AssetId b = id) (Outputs payment)) /\
    (Inputs payment <> [] -> exists tx' scripts, signing_tx tx msgIdx tx' /\
       Forall2 (fun o u => scripts !! o = Some (u_PkScript u)) os us /\
       ScriptValidate1Msg (H := jury_env) scripts tx' msgIdx (ps_sigs s) = (ps_sigs s', Ok tt)) /\
    (Inputs payment <> [] -> Outputs payment <> [] -> exists a, Forall (fun o => out_Asset o = Some a) (Outputs payment) /\
       Forall (fun u => u_Asset u = None \/ u_Asset u = Some a) us) /\
    (Inputs payment <> [] -> msgIdx <> 0 -> Forall (fun u => 0 <= u_Amount u) us -> sum_values (Outputs payment) <= sum_amounts us).
Proof. apply payment_rules. Qed.

(** A payment can crash the validator.  An outpoint whose hash is all ones stands for an output
    of the transaction itself, and its indices, which come from the wire, are not compared with the
    messages and outputs there are: a first input that names a message beyond the end, a message
    that is no payment or an output beyond the end makes [validatePaymentPayload] panic. *)
Theorem self_outpoint_panics `{Node} (q : option IUtxoQuery) (tx tx1 : Transaction) (msgIdx : Z) (payment : PaymentPayload) (s : PayState)
    (in_ : Input) (rest : list Input) (o : OutPoint) (h : Hash) :
  tx_Hash tx = Ok h -> Clone tx = Ok tx1 -> GetContractInvokeReqMsgIdx tx <= msgIdx ->
  Inputs payment = in_ :: rest -> len (Inputs payment) <= 1000 -> PreviousOutPoint in_ = Some o -> o ∉ usedUtxo s ->
  IsSelfHash (TxHash o) = true -> (~ exists u, resolves q tx o u) ->
  exists s', validatePaymentPayload q tx msgIdx payment s = (s', Panic).
Proof.
  intros Eh Ec Ri Ei Li Po Nu Sf No.
  assert (Pa : forall s0, exists s1, input_utxo q tx h o s0 = (s1, Panic)).
  { intros s0. unfold input_utxo, resolves in *. rewrite Sf in *. unfold bind, get, lift, as_payment, ret, panic.
    destruct (index (Messages tx) (MessageIndex o)) as [msg|] eqn:I; [|by eexists].
    destruct (Payload msg) as [[p| | | | | | | | | | |]|] eqn:P; try (by eexists).
    destruct (index (Outputs p) (OutIndex o)) as [out|] eqn:O; [|by eexists]. exfalso. apply No. eexists. by exists msg, p, out. }
  unfold validatePaymentPayload, bind, call. rewrite Eh. cbv zeta. rewrite (proj2 (Z.ltb_ge 1000 _)) by lia.
  rewrite (proj2 (Z.eqb_neq (len (Inputs payment)) 0)) by (rewrite Ei, len_cons; pose proof (len_nonneg rest); lia).
  unfold validate_inputs_of, bind, call. rewrite Ec. rewrite (proj2 (Z.ltb_ge msgIdx (GetContractInvokeReqMsgIdx tx))) by lia.
  unfold ret at 1. rewrite Ei. cbn [check_inputs]. rewrite Po. unfold bind, gets, modify. rewrite bool_decide_eq_false_2 by done.
  destruct (Pa (mkPayState (ps_sigs s) ({[o]} ∪ usedUtxo s))) as (s1 & ->). by eexists.
Qed.
