(* ===== verification/ValSigned.v ===== *)
(** From the wallet to the validator: a payment signed with the keys of the outputs it spends is
    valid. *)

From Stdlib Require Import ZArith Lia.
From S2P Require Import Prelude Errors ScriptNum Stack Opcode Text Script Builder Address Standard Tx RlpModel AssetId Float64 SigHash SigCache Engine EngineProps Spend Redeem Sign SignProps TokenApi ApiProps TxFee Unit ValPayment ValPayProps.

Section Complete.
Context `{Node}.
Variables (q : IUtxoQuery) (tx : Transaction) (msgIdx : Z) (a : Asset).
Hypothesis Gas : msgIdx = 0 \/ AssetId a = gasToken.

(** An input of the ledger that is not blacklisted *)
Definition spendable (bl : gset Address) (in_ : Input) (o : OutPoint) (u : Utxo) : Prop :=
  PreviousOutPoint in_ = Some o /\ IsSelfHash (TxHash o) = false /\ GetUtxoEntry q o = Ok u /\ u_Asset u = Some a /\
  exists addr, GetAddressFromScript (u_PkScript u) = Ok addr /\ addr ∉ bl.

Lemma check_blacklist_ok bl script addr s : GetAddressFromScript script = Ok addr -> addr ∉ bl ->
  check_blacklist bl script s = (s, Ok tt).
Proof. intros E N. unfold check_blacklist, bind, script_address. rewrite E. by rewrite bool_decide_eq_false_2. Qed.

Lemma check_inputs_ok txId bl : forall inputs os us t s, Forall3 (spendable bl) inputs os us -> NoDup os ->
  (forall o, o ∈ os -> o ∉ usedUtxo s) -> it_asset t = None \/ it_asset t = Some a ->
  exists t', check_inputs (Some q) tx txId msgIdx bl t inputs s = (mkPayState (ps_sigs s) (list_to_set os ∪ usedUtxo s), Ok t') /\
    (inputs <> [] \/ it_asset t = Some a -> it_asset t' = Some a).
Proof.
  induction inputs as [|in_ inputs IH]; intros os us t s F ND Fr At; inversion F as [|x y z l k k' Sp F']; subst.
  { exists t. split; [|by intros [?|?]]. cbn. destruct s; simpl. rewrite (left_id_L ∅ (∪)). done. }
  destruct Sp as (Po & Sf & G & Au & addr & Ga & Nb). apply NoDup_cons in ND as [No ND].
  cbn [check_inputs]. rewrite Po. unfold bind at 1, gets. rewrite bool_decide_eq_false_2 by (apply Fr; constructor).
  unfold bind at 1, modify.
  assert (Iu : forall s, input_utxo (Some q) tx txId y s = (s, Ok z)).
  { intros s0. unfold input_utxo. rewrite Sf. unfold bind, get, ret. cbv beta iota. by rewrite G. }
  unfold bind at 1. rewrite Iu.
  assert (As : forall s, match it_asset t with
      | None => ret (u_Asset z)
      | Some _ => let! same := similar (it_asset t) (u_Asset z) in if negb same then throw TxValidationCode_INVALID_ASSET else ret (it_asset t)
      end s = (s, Ok (Some a))).
  { intros s0. destruct At as [-> | ->]; rewrite Au; [done|]. unfold similar, bind, get, ret. cbv beta iota. by rewrite (proj2 (IsSimilar_eq a a) eq_refl). }
  unfold bind at 1. rewrite As.
  assert (St : forall s, exists sv, (if negb (msgIdx =? 0) then
       if statusValid t then ret true
       else let! a := get (Some a) in if negb (bytes_equal (AssetId a) gasToken) then checkTokenStatus a ;;; ret true else ret false
     else ret (statusValid t)) s = (s, Ok sv)).
  { intros s0. destruct Gas as [-> | Eg]; [by eexists|]. destruct (negb (msgIdx =? 0)); [|by eexists]. destruct (statusValid t); [by eexists|].
    unfold bind, get, ret, bytes_equal. cbv beta iota. rewrite bool_decide_eq_true_2 by done. by eexists. }
  destruct (St (mkPayState (ps_sigs s) ({[y]} ∪ usedUtxo s))) as (sv & Es). unfold bind at 1. rewrite Es.
  unfold bind at 1. rewrite (check_blacklist_ok _ _ _ _ Ga Nb).
  destruct (IH _ _ (mkTotals (Some a) sv (uint64 (totalInput t + u_Amount z)) (<[y := u_PkScript z]> (utxoScriptMap t)))
    (mkPayState (ps_sigs s) ({[y]} ∪ usedUtxo s)) F' ND) as (t' & E & A').
  { intros o I. simpl. intros I'. apply elem_of_union in I' as [I'|I']; [apply elem_of_singleton in I'; congruence|].
    apply (Fr o); [by apply elem_of_cons; right|done]. }
  { by right. }
  exists t'. split; [|intros _; apply A'; by right]. rewrite E. cbn [ps_sigs usedUtxo]. do 2 f_equal.
  rewrite list_to_set_cons, (assoc_L (∪)), (comm_L (∪) (list_to_set k)). done.
Qed.

Definition payable (bl : gset Address) (o : Output) : Prop :=
  0 < Value o < 2 ^ 64 /\ out_Asset o = Some a /\ exists addr, GetAddressFromScript (PkScript o) = Ok addr /\ addr ∉ bl.

Lemma check_outputs_ok bl asset0 : forall outs n s, Forall (payable bl) outs -> 0 <= n -> n + sum_values outs < 2 ^ 64 ->
  check_outputs false (Some a) asset0 bl n outs s = (s, Ok (n + sum_values outs)).
Proof.
  induction outs as [|out outs IH]; intros n s F N Lt.
  { cbn [check_outputs]. change (sum_values []) with 0. by rewrite Z.add_0_r. }
  apply Forall_cons in F as [(V & A & addr & G & Nb) F]. change (sum_values (out :: outs)) with (Value out + sum_values outs) in *.
  assert (0 <= sum_values outs).
  { clear -F. induction F as [|o outs (V & _) _ IH]; [reflexivity|]. change (sum_values (o :: outs)) with (Value o + sum_values outs). lia. }
  cbn [check_outputs]. unfold bind at 1, similar, bind, get, ret. rewrite A. cbv beta iota.
  rewrite (proj2 (IsSimilar_eq a a) eq_refl). cbn [negb]. rewrite uint64_small by lia.
  rewrite (proj2 (Z.ltb_ge _ _)), (proj2 (Z.eqb_neq (Value out) 0)) by lia. cbn [orb].
  rewrite (check_blacklist_ok _ _ _ _ G Nb). rewrite IH by (done || lia). do 2 f_equal. lia.
Qed.

(** The inputs of a checked payment are those it was given. *)
Lemma spendable_resolves bl inputs os us os' us' : Forall3 (spendable bl) inputs os us ->
  map PreviousOutPoint inputs = map Some os' -> Forall2 (resolves (Some q) tx) os' us' -> os' = os /\ us' = us.
Proof.
  intros F. revert os' us'. induction F as [|x y z l k k' (Po & Sf & G & _) F IH]; intros os' us' E R.
  - destruct os'; [|done]. by inversion R.
  - destruct os' as [|o os']; [done|]. simpl in E. rewrite Po in E. injection E as -> E. inversion R as [|? u ? us0 Ru R']; subst.
    destruct (IH _ _ E R') as [-> ->]. unfold resolves in Ru. rewrite Sf in Ru. destruct Ru as (q' & Q & G'). injection Q as <-.
    split; congruence.
Qed.
End Complete.

(** ** Signed transactions *)

Lemma strip_payment_inv mg mg' p : strip_message mg = strip_message mg' -> App mg = APP_PAYMENT -> Payload mg = Some (PayPayment p) ->
  (exists p', Payload mg' = Some (PayPayment p')) ->
  exists p', Payload mg' = Some (PayPayment p') /\ Outputs p' = Outputs p /\ map PreviousOutPoint (Inputs p') = map PreviousOutPoint (Inputs p).
Proof.
  intros S A P (p' & P'). exists p'. split; [done|]. assert (A' : App mg' = APP_PAYMENT) by (rewrite <- A, <- (strip_App mg), S; symmetry; apply strip_App).
  unfold strip_message in S. rewrite A, A', P, P' in S. simpl in S. injection S as S1 S2 S3. split; [done|].
  apply (f_equal (map PreviousOutPoint)) in S1. rewrite !map_map in S1. done.
Qed.

Section Wallet.
Context `{Node} (LL : RlpLaws env_rlp).
Hypothesis (Blind : script_blind env_rlp) (SafeP : codec_safe c_payment) (SafeT : codec_safe c_tx).

Lemma tx_Hash_ok tx : encodable_tx (txdata tx) -> exists h, tx_Hash tx = Ok h.
Proof.
  intros En. unfold tx_Hash, Hash_, bind, gets. destruct (tx_hash tx); [by eexists|]. unfold lift, RlpHash.
  assert (N : forall b, EncodeRLP (mkSdw (Messages tx) (CertId tx) b) <> Panic).
  { intros b. apply EncodeRLP_safe; [done..|]. eapply Forall_impl; [apply En|apply sendable_encodable]. }
  assert (D : exists b, (if sdw_Illegal (txdata tx) then legal (txdata tx) else txdata tx) = mkSdw (Messages tx) (CertId tx) b).
  { destruct (sdw_Illegal (txdata tx)) eqn:I; [by exists false|]. exists false. unfold Messages, CertId. rewrite <- I. by destruct (txdata tx). }
  destruct D as (b & ->). pose proof (N b). destruct (EncodeRLP _); [by eexists|by eexists|done].
Qed.

(** The scripts of a signed payment accept a copy of it, with the ledger's scripts. *)
Lemma signed_scripts tx0 tx utxos scripts m mg p cache os us : encodable_tx (txdata tx0) -> same_but_signatures tx0 tx ->
  IsContractTx tx0 = false -> GetRequestMsgIndex tx0 = -1 \/ m <= GetRequestMsgIndex tx0 ->
  index (Messages tx) m = Some mg -> Payload mg = Some (PayPayment p) ->
  (forall i x, index (Inputs p) i = Some x -> signed_in utxos tx0 m i x) ->
  map PreviousOutPoint (Inputs p) = map Some os -> Forall2 (fun o u => utxos !! o = Some (u_PkScript u)) os us ->
  Forall2 (fun o u => scripts !! o = Some (u_PkScript u)) os us ->
  exists cache', ScriptValidate1Msg (H := jury_env) scripts (new_tx (txdata tx)) m cache = (cache', Ok tt).
Proof.
  intros En S Ct Rq I P Si Ep Fu Fs.
  assert (Si' : forall i x, index (Inputs p) i = Some x -> signed_in (H := jury_env) scripts tx0 m i x).
  { intros i x Ix. destruct (Si i x Ix) as (o & h & pk & lock & sg & data & Po & U & Rest).
    assert (Sc : scripts !! o = Some lock).
    { unfold index in Ix. destruct (i <? 0); [done|]. apply (f_equal (fun l => l !! Z.to_nat i)) in Ep.
      rewrite !list_lookup_fmap, Ix in Ep. simpl in Ep. rewrite Po in Ep. destruct (os !! Z.to_nat i) as [o'|] eqn:Oi; [|done].
      injection Ep as ->. destruct (Forall2_lookup_l _ _ _ _ _ Fu Oi) as (u & Ui & U'). 
      destruct (Forall2_lookup_l _ _ _ _ _ Fs Oi) as (u' & Ui' & U''). congruence. }
    exists o, h, pk, lock, sg, data. by split. }
  destruct (validate_inputs_ok (H := jury_env) LL scripts Blind tx0 En (new_tx (txdata tx)) m mg p S Rq I P Si' (Inputs p) [] cache eq_refl)
    as (c' & V). exists c'. unfold ScriptValidate1Msg, message_tx. rewrite <- (IsContractTx_strip tx0 (new_tx (txdata tx))) by done. rewrite Ct.
  change (Messages (new_tx (txdata tx))) with (Messages tx). rewrite I.
  assert (Ap : as_payment (E := error) mg = Ok p) by (unfold as_payment; by rewrite P).
  unfold bind, lift, get, ret. rewrite Ap. exact V.
Qed.
End Wallet.

Lemma GetContractInvokeReqMsgIdx_strip tx1 tx2 : same_but_signatures tx1 tx2 -> GetContractInvokeReqMsgIdx tx1 = GetContractInvokeReqMsgIdx tx2.
Proof.
  intros S. destruct (same_messages _ _ S) as (E & _). unfold GetContractInvokeReqMsgIdx.
  rewrite <- (find_index_strip _ (Messages tx1)), <- (find_index_strip _ (Messages tx2)) by (intros; by rewrite strip_App). by rewrite E.
Qed.

Lemma Forall3_inputs {A} (R : Input -> OutPoint -> A -> Prop) ins ins' os us :
  (forall x x' o u, PreviousOutPoint x = PreviousOutPoint x' -> R x o u -> R x' o u) ->
  map PreviousOutPoint ins' = map PreviousOutPoint ins -> Forall3 R ins os us -> Forall3 R ins' os us.
Proof.
  intros T E F. revert ins' E. induction F as [|x y z l k k' Rx F IH]; intros ins' E; [destruct ins'; [constructor|done]|].
  destruct ins' as [|x' ins']; [done|]. simpl in E. injection E as E1 E. constructor; [|by apply IH]. by eapply T.
Qed.

(** A signed payment is valid. *)
Lemma signed_payment_valid `{Node} (LL : RlpLaws env_rlp) (q : IUtxoQuery) (utxos : gmap OutPoint bytes) (tx0 tx : Transaction) (m : Z)
    (mg : Message) (p : PaymentPayload) (a : Asset) (os : list OutPoint) (us : list Utxo) (s : PayState) :
  script_blind env_rlp -> codec_safe c_payment -> codec_safe c_tx -> encodable_tx (txdata tx0) -> same_but_signatures tx0 tx ->
  IsContractTx tx0 = false -> GetRequestMsgIndex tx0 = -1 \/ m <= GetRequestMsgIndex tx0 -> GetContractInvokeReqMsgIdx tx0 <= m ->
  index (Messages tx) m = Some mg -> Payload mg = Some (PayPayment p) ->
  (forall i x, index (Inputs p) i = Some x -> signed_in utxos tx0 m i x) -> 1 <= len (Inputs p) <= 1000 ->
  Forall3 (spendable q a getBlacklistAddress) (Inputs p) os us -> NoDup os -> (forall o, o ∈ os -> o ∉ usedUtxo s) ->
  Forall2 (fun o u => utxos !! o = Some (u_PkScript u)) os us ->
  m = 0 \/ AssetId a = gasToken -> Forall (payable a getBlacklistAddress) (Outputs p) -> sum_values (Outputs p) < 2 ^ 64 ->
  (m <> 0 -> sum_values (Outputs p) <= uint64 (sum_amounts us)) ->
  exists s', validatePaymentPayload (Some q) tx m p s = (s', Ok tt).
Proof.
  intros B SP ST En S Ct Rq Ri I P Si Li F3 ND Fr Fu Ga Fo Lt Le.
  pose proof (resigned_encodable B tx0 En tx S) as En'. destruct (tx_Hash_ok LL SP ST tx En') as (h & Eh).
  destruct (check_inputs_ok q tx m a Ga h getBlacklistAddress (Inputs p) os us (mkTotals None false 0 ∅) s F3 ND Fr (or_introl eq_refl)) as (t & Ec & At).
  destruct (fun P => check_inputs_sound _ _ _ _ _ _ (mkTotals None false 0 ∅) _ _ _ P Ec) as (os' & us' & Ep & F2 & _ & _ & _ & _ & _ & _ & _ & Ti & _ & Ms); [simpl; lia|].
  destruct (spendable_resolves q tx a _ _ _ _ _ _ F3 Ep F2) as [-> ->]. simpl in Ti.
  destruct (signed_scripts LL B tx0 tx utxos (utxoScriptMap t) m mg p (ps_sigs s) os us) as (c' & SV); try done.
  assert (Ne : Inputs p <> []) by (intros Q; rewrite Q in Li; unfold len in Li; simpl in Li; lia).
  assert (Vi : validate_inputs_of (Some q) tx h m getBlacklistAddress p s = (mkPayState c' (list_to_set os ∪ usedUtxo s), Ok (Some a, uint64 (sum_amounts us)))).
  { unfold validate_inputs_of, bind, call. rewrite (Clone_data tx En'). rewrite <- (GetContractInvokeReqMsgIdx_strip tx0 tx S).
    rewrite (proj2 (Z.ltb_ge m (GetContractInvokeReqMsgIdx tx0))) by lia. unfold ret at 1. rewrite Ec. unfold validate_scripts. cbn [ps_sigs usedUtxo]. rewrite SV.
    unfold ret. rewrite At by auto. by rewrite Ti. }
  unfold validatePaymentPayload, bind, call. rewrite Eh. cbv zeta. rewrite (proj2 (Z.ltb_ge 1000 _)) by lia.
  rewrite (proj2 (Z.eqb_neq (len (Inputs p)) 0)) by lia. rewrite Vi. destruct (Outputs p) as [|out0 outs] eqn:Eo; [by eexists|].
  rewrite (check_outputs_ok a getBlacklistAddress (out_Asset out0) (out0 :: outs) 0) by (done || lia). rewrite Z.add_0_l. cbn [negb andb].
  destruct (Z.eqb_spec m 0); [by eexists|]. cbn [negb andb]. rewrite (proj2 (Z.ltb_ge _ _)) by (by apply Le). by eexists.
Qed.

(** ** Properties *)

(** C10: what a wallet signs, the validator accepts.  Let the payments of a transaction that is no
    contract result spend outputs locked to keys the account holds, and let the payment at [m] spend
    distinct unspent outputs of the ledger of one asset (the gas token, outside the first message)
    and pay positive amounts of it that do not overflow and, outside the first message, do not
    exceed what it spends, all without blacklisted addresses.  Then [SignTxAllPaymentInput] succeeds
    and [validatePaymentPayload] returns VALID for that payment of the signed transaction, whatever
    the signature cache holds. *)
Theorem wallet_payment_valid `{Node} (LL : RlpLaws env_rlp) (acc : account) (redeemScript : bytes) (utxoLockScripts : gmap OutPoint bytes)
    (q : IUtxoQuery) (tx : Transaction) (m : Z) (mg : Message) (p : PaymentPayload) (a : Asset) (os : list OutPoint) (us : list Utxo) (s : PayState) :
  script_blind env_rlp -> codec_safe c_payment -> codec_safe c_tx -> encodable_tx (txdata tx) -> Forall complete (Messages tx) ->
  IsContractTx tx = false ->
  (forall i mg, index (Messages tx) i = Some mg -> App mg = APP_PAYMENT -> GetRequestMsgIndex tx = -1 \/ i <= GetRequestMsgIndex tx) ->
  Forall (signable acc utxoLockScripts) (Messages tx) ->
  index (Messages tx) m = Some mg -> App mg = APP_PAYMENT -> Payload mg = Some (PayPayment p) -> GetContractInvokeReqMsgIdx tx <= m ->
  1 <= len (Inputs p) <= 1000 -> Forall3 (spendable q a getBlacklistAddress) (Inputs p) os us -> NoDup os ->
  (forall o, o ∈ os -> o ∉ usedUtxo s) -> Forall2 (fun o u => utxoLockScripts !! o = Some (u_PkScript u)) os us ->
  m = 0 \/ AssetId a = gasToken -> Forall (payable a getBlacklistAddress) (Outputs p) -> sum_values (Outputs p) < 2 ^ 64 ->
  (m <> 0 -> sum_values (Outputs p) <= uint64 (sum_amounts us)) ->
  exists tx' mg' p' s', SignTxAllPaymentInput check_encode acc redeemScript SigHashAll utxoLockScripts tx = (tx', Ok tt) /\
    index (Messages tx') m = Some mg' /\ Payload mg' = Some (PayPayment p') /\ Outputs p' = Outputs p /\
    validatePaymentPayload (Some q) tx' m p' s = (s', Ok tt).
Proof.
  intros B SP ST En C Ct Rq Fs I A P Ri Li F3 ND Fr Fu Ga Fo Lt Le.
  destruct (sign_messages_ok LL acc check_encode redeemScript utxoLockScripts B SP ST tx En Rq (Messages tx) [] [] tx)
    as (tx' & msgs & E & S & M & Si); try done.
  destruct (same_messages _ _ S) as (Em & _). apply (f_equal (fun l => index l m)) in Em. rewrite !index_map, I in Em.
  destruct (index (Messages tx') m) as [mg'|] eqn:I'; [|done]. injection Em as Em.
  assert (A' : App mg' = APP_PAYMENT) by (rewrite <- A, <- (strip_App mg), Em; symmetry; apply strip_App).
  simpl in M. assert (Im := I'). rewrite M in Im. destruct (Si m mg' Im A') as (p0 & P0 & Sp). rewrite len_nil, Z.add_0_l in Sp.
  destruct (strip_payment_inv mg mg' p Em A P) as (p' & P' & Eo & Ei); [by exists p0|]. assert (p0 = p') by congruence. subst p0.
  assert (Ll : len (Inputs p') = len (Inputs p)) by (apply (f_equal length) in Ei; rewrite !length_map in Ei; unfold len; by rewrite Ei).
  destruct (signed_payment_valid LL q utxoLockScripts tx tx' m mg' p' a os us s) as (s' & V); try done; rewrite ?Eo, ?Ll; try done.
  - by apply (Rq m mg).
  - eapply Forall3_inputs; [|exact Ei|exact F3]. intros x x' o u Ex (Po & Rest). split; [congruence|done].
  - exists tx', mg', p', s'. split_and!; try done.
    unfold SignTxAllPaymentInput, SignTx1MsgPaymentInput, bind, on_tx. rewrite TxMessages_id by done. exact E.
Qed.

(** A node without state, whose configuration does not matter here. *)
Definition sample_node : Node := {|
  node_env := sample_env; statequery := None; dagquery := None; propquery := None; light := false; gasToken := PTNCOIN;
  jury_percent := of_int 0; GenerateUnitReward := 100000000; ContractCheckFun := None; token_status := fun _ => None;
  vote_map := fun _ => None; dec_amounts := fun _ => ([], false); enc_amounts := fun _ => []; marshal_additions := fun _ => None;
  unmarshal_additions := fun _ => None; RlpHash_address := fun a => a; VerifyE := fun _ _ _ => Ok true; crypto_hash := fun b => Ok b;
  check_encode := toy_encode; check_decode := fun _ => Err ErrAddressNull; DeriveSha := fun _ => zeroHash; header_codec := plain_codec
|}.

(** The ledger holds the output that [spend_with] spends. *)
Definition sample_point : OutPoint := mkOutPoint (replicate 32 x11) 0 1.
Definition sample_utxo : Utxo := mkUtxo 9 (Some PTNAsset) (concat (map encoding (p2pkh_pops spend_hash))) 0 0 0.
Definition sample_query : IUtxoQuery :=
  mkUtxoQuery (fun o => if bool_decide (o = sample_point) then Ok sample_utxo else Err "not found"%string) (fun _ => None).

Lemma sample_signable : signable (H := sample_env) sample_account sample_utxos (spend_message []).
Proof.
  intros _. eexists. split; [reflexivity|]. constructor; [|constructor]. split; [reflexivity|].
  exists sample_point, spend_hash, [x0a; x0b]. eexists.
  split; [reflexivity|]. split; [apply lookup_singleton_eq|]. split; [reflexivity|]. split; [apply payToPubKeyHashScript_ok; reflexivity|].
  split; [reflexivity|]. split; [reflexivity|]. split; [vm_compute; split; congruence|].
  intros data. eexists. split; [reflexivity|]. split; [vm_compute; split; congruence|reflexivity].
Qed.

Lemma wallet_payment_valid_witness :
  exists tx' p' s', SignTxAllPaymentInput (H := sample_env) toy_encode sample_account [] SigHashAll sample_utxos (spend_with []) = (tx', Ok tt) /\
    validatePaymentPayload (H := sample_node) (Some sample_query) tx' 0 p' (mkPayState (NewSigCache 20000) ∅) = (s', Ok tt).
Proof.
  destruct (wallet_payment_valid (H := sample_node) digit_laws sample_account [] sample_utxos sample_query (spend_with []) 0 (spend_message [])
    (spend_payment []) PTNAsset [sample_point] [sample_utxo] (mkPayState (NewSigCache 20000) ∅)) as (tx' & mg' & p' & s' & E & _ & _ & _ & V).
  - exact digit_script_blind.
  - intros b. discriminate.
  - intros b. discriminate.
  - apply one_payment_encodable. constructor; [discriminate|constructor].
  - constructor; [|constructor]. eexists. split; [reflexivity|]. split; [reflexivity|]. constructor; [discriminate|constructor].
  - reflexivity.
  - intros. left. reflexivity.
  - constructor; [exact sample_signable|constructor].
  - reflexivity.
  - reflexivity.
  - reflexivity.
  - vm_compute. congruence.
  - vm_compute. split; congruence.
  - constructor; [|constructor]. split; [reflexivity|]. split; [reflexivity|]. split; [reflexivity|]. split; [reflexivity|].
    eexists. split; [reflexivity|]. vm_compute. congruence.
  - constructor; [apply not_elem_of_nil|constructor].
  - intros o _. apply not_elem_of_empty.
  - constructor; [apply lookup_singleton_eq|constructor].
  - left. reflexivity.
  - constructor; [|constructor]. split; [vm_compute; split; congruence|]. split; [reflexivity|]. eexists. split; [reflexivity|]. vm_compute. congruence.
  - vm_compute. reflexivity.
  - intros N. exfalso. apply N. reflexivity.
  - exists tx', p', s'. split; [exact E|exact V].
Defined.

(** An output that anyone can spend, for the first theorem on payments *)
Definition open_query : IUtxoQuery := mkUtxoQuery (fun _ => Ok (mkUtxo 9 (Some PTNAsset) [OP_1] 0 0 0)) (fun _ => None).

Lemma open_payment : exists s', validatePaymentPayload (H := sample_node) (Some open_query) (spend_with []) 0 (spend_payment [])
  (mkPayState (NewSigCache 20000) ∅) = (s', Ok tt).
Proof.
  assert (En : encodable_tx (L := digit_lib) (txdata (spend_with []))) by (apply one_payment_encodable; constructor; [discriminate|constructor]).
  destruct (tx_Hash_ok (H := sample_node) digit_laws ltac:(intros b; discriminate) ltac:(intros b; discriminate) (spend_with []) En) as (h & Eh).
  unfold validatePaymentPayload, bind, call. rewrite Eh. cbv zeta. change (1000 <? len (Inputs (spend_payment []))) with false.
  change (len (Inputs (spend_payment [])) =? 0) with false. cbv iota. unfold validate_inputs_of, bind, call.
  change (Clone (L := @env_rlp (@node_env sample_node)) (spend_with [])) with (Clone (L := digit_lib) (spend_with [])).
  rewrite (Clone_data (L := digit_lib) (LL := digit_laws) (spend_with []) En).
  eexists. vm_compute. reflexivity.
Qed.

Lemma payment_sound_witness :
  Forall (fun o => 0 < Value o) (Outputs (spend_payment [])) /\
  exists os us, map PreviousOutPoint (Inputs (spend_payment [])) = map Some os /\ Forall2 (resolves (Some open_query) (spend_with [])) os us /\ NoDup os.
Proof.
  destruct open_payment as (s' & E).
  destruct (payment_sound (H := sample_node) (Some open_query) (spend_with []) 0 (spend_payment []) (mkPayState (NewSigCache 20000) ∅) s')
    as (_ & Fv & _ & _ & os & us & Ep & F2 & ND & _).
  - repeat constructor; vm_compute; congruence.
  - exact E.
  - split; [exact Fv|]. exists os, us. by split_and!.
Defined.

(** A payment of an output of a message that does not exist *)
Definition self_point : OutPoint := mkOutPoint (replicate 32 xff) 7 0.
Definition self_payment : PaymentPayload := mkPayment [mkInput [] [] (Some self_point)] [] 0.
Definition self_tx : Transaction := NewTransaction [mkMessage APP_PAYMENT (Some (PayPayment self_payment))].

Lemma self_outpoint_panics_witness :
  exists s', validatePaymentPayload (H := sample_node) (Some sample_query) self_tx 0 self_payment (mkPayState (NewSigCache 20000) ∅) = (s', Panic).
Proof.
  assert (En : encodable_tx (L := digit_lib) (txdata self_tx)) by (apply one_payment_encodable; constructor; [discriminate|constructor]).
  destruct (tx_Hash_ok (H := sample_node) digit_laws ltac:(intros b; discriminate) ltac:(intros b; discriminate) self_tx En) as (h & Eh).
  apply (self_outpoint_panics (H := sample_node) (Some sample_query) self_tx (new_tx (txdata self_tx)) 0 self_payment
    (mkPayState (NewSigCache 20000) ∅) (mkInput [] [] (Some self_point)) [] self_point h).
  - exact Eh.
  - apply (Clone_data (L := digit_lib) (LL := digit_laws) self_tx En).
  - vm_compute. congruence.
  - reflexivity.
  - vm_compute. congruence.
  - reflexivity.
  - apply not_elem_of_empty.
  - reflexivity.
  - intros (u & R). vm_compute in R. destruct R as (msg & pay & out & I & _). discriminate I.
Defined.
