(* ===== verification/ValTx.v ===== *)
(** The validator, transactions: src/validator/{validate_tx,validate_contract}.go and the data
    payload check of validator.go.

    The checks of the messages are one computation that stops with a code, VALID included where the
    source returns early.  Log texts are not modelled.  The rewards of a coinbase are a map from
    addresses; the source iterates over Go maps, whose order does not matter unless two keys of the
    state name the same address. *)

From Stdlib Require Import ZArith Lia.
From S2P Require Import Prelude Errors ScriptNum Stack Opcode Text Script Builder Address Standard Tx AssetId Float64 SigHash SigCache Engine TokenApi TxFee Unit ValPayment.

(** What the validator remembers: the signature cache of the token engine, the cache of results
    (without its expiry) and the checks that are switched on. *)
Record Validate := mkValidate {
  v_sigs : SigCache; v_cache : gmap bytes bytes; enableTxFeeCheck : bool; enableContractSignCheck : bool;
  enableDeveloperCheck : bool; enableContractRwSetCheck : bool }.

(** ** Message types *)

Definition validateMessageType (app : MessageType) (p : option payload) : bool :=
  match p with
  | Some (PayPayment _) => app =? APP_PAYMENT
  | Some (PayTpl _) => app =? APP_CONTRACT_TPL
  | Some (PayDeploy _) => app =? APP_CONTRACT_DEPLOY
  | Some (PayInvokeRequest _) => app =? APP_CONTRACT_INVOKE_REQUEST
  | Some (PayInvoke _) => app =? APP_CONTRACT_INVOKE
  | Some (PaySignature _) => app =? APP_SIGNATURE
  | Some (PayData _) => app =? APP_DATA
  | Some (PayAccountUpdate _) => app =? APP_ACCOUNT_UPDATE
  | Some (PayDeployRequest _) => app =? APP_CONTRACT_DEPLOY_REQUEST
  | Some (PayTplRequest _) => app =? APP_CONTRACT_TPL_REQUEST
  | Some (PayStopRequest _) => app =? APP_CONTRACT_STOP_REQUEST
  | Some (PayStop _) => app =? APP_CONTRACT_STOP
  | None => false
  end.

(** ** Rewards *)

(** [a.Asset.Equal(b)] through pointers *)
Definition asset_equal {E} (a b : option Asset) : result E bool :=
  let? a := rget a in let? b := rget b in Ok (Asset_Equal a b).

Fixpoint add_to_income {E} (income : list AmountAsset) (newAmount : Z) (asset : option Asset) : result E (list AmountAsset * bool) :=
  match income with
  | [] => Ok ([], false)
  | aa :: income' =>
      let? same := asset_equal (aa_Asset aa) asset in
      let? (rest, had) := add_to_income income' newAmount asset in
      Ok ((if same then mkAmountAsset (uint64 (aa_Amount aa + newAmount)) (aa_Asset aa) else aa) :: rest, same || had)
  end.
Definition addIncome {E} (income : list AmountAsset) (newAmount : Z) (asset : option Asset) : result E (list AmountAsset) :=
  let? (newValue, hasOldValue) := add_to_income income newAmount asset in
  Ok (if hasOldValue then newValue else newValue ++ [mkAmountAsset newAmount asset]).

(** Whether all elements pass, in order, stopping at the first that does not *)
Fixpoint all_ok {E A} (f : A -> result E bool) (l : list A) : result E bool :=
  match l with
  | [] => Ok true
  | x :: l' => let? b := f x in if b then all_ok f l' else Ok false
  end.

(** The same asset has the same amount. *)
Definition amount_agrees {E} (a : AmountAsset) (asset : option Asset) (amount : Z) : result E bool :=
  let? same := asset_equal (aa_Asset a) asset in
  Ok (negb (same && negb (aa_Amount a =? amount))).

Section Tx.
Context `{Node}.

Definition rewardExistInOutputs (addr : Address) (aa : list AmountAsset) (outputs : list Output) : result ValidationCode bool :=
  all_ok (fun out =>
    let? outAddr := match GetAddressFromScript (PkScript out) with Ok a => Ok a | Err _ => Ok zeroAddress | Panic => Panic end in
    if bytes_equal outAddr addr then all_ok (fun a => amount_agrees a (out_Asset out) (Value out)) aa else Ok true) outputs.

Definition compareRewardAndOutput (rewards : gmap Address (list AmountAsset)) (outputs : list Output) : result ValidationCode bool :=
  let? ok := all_ok (fun p => rewardExistInOutputs p.1 p.2 outputs) (map_to_list rewards) in
  Ok (ok && (Z.of_nat (size rewards) =? len outputs)).

(** [constants.RewardAddressPrefix + addr.String()] *)
Definition RewardAddressPrefix : string := "Addr:".
Definition reward_key (addr : Address) : string := RewardAddressPrefix +:+ Str check_encode addr.

Definition compareRewardAndStateClear (rewards : gmap Address (list AmountAsset)) (writeset : list ContractWriteSet) : bool :=
  let empty := enc_amounts [] in
  let comparedCount := fold_right (fun p n =>
    len (List.filter (fun w => String.eqb (ws_Key w) (reward_key p.1) && bytes_equal (ws_Value w) empty) writeset) + n) 0 (map_to_list rewards) in
  comparedCount =? Z.of_nat (size rewards).

Definition rewardExist (addr : Address) (aa : list AmountAsset) (writeset : list ContractWriteSet) : result ValidationCode bool :=
  all_ok (fun w =>
    if String.eqb (ws_Key w) (reward_key addr) then
      match dec_amounts (ws_Value w) with
      | (_, false) => Ok false
      | (dbAa, true) => all_ok (fun a => all_ok (fun b => amount_agrees a (aa_Asset b) (aa_Amount b)) dbAa) aa
      end
    else Ok true) writeset.

Definition compareRewardAndWriteset (rewards : gmap Address (list AmountAsset)) (writeset : list ContractWriteSet) : result ValidationCode bool :=
  all_ok (fun p => rewardExist p.1 p.2 writeset) (map_to_list rewards).

(** ** Coinbase *)

Definition CoinbaseContractId : bytes := replicate 19 x00 ++ [x05].

(** [key[len(prefix):]] *)
Definition after_prefix (key : string) : result ValidationCode string :=
  if len (chars key) <? 5 then Panic else Ok (of_chars (slice (chars key) 5 (len (chars key)))).

(** The rewards of the state: entries that decode to nothing are left out. *)
Fixpoint state_rewards (rewards : gmap Address (list AmountAsset)) (l : list (string * bytes)) : result ValidationCode (gmap Address (list AmountAsset)) :=
  match l with
  | [] => Ok rewards
  | (key, v) :: l' =>
      let? addr := after_prefix key in
      let incomeAddr := match StringToAddress check_decode addr with Ok a => a | _ => zeroAddress end in
      let aa := (dec_amounts v).1 in
      state_rewards (if 0 <? len aa then <[incomeAddr := aa]> rewards else rewards) l'
  end.

Fixpoint add_rewards (rewards : gmap Address (list AmountAsset)) (ads : list Addition) : result ValidationCode (gmap Address (list AmountAsset)) :=
  match ads with
  | [] => Ok rewards
  | ad :: ads' =>
      let reward := match rewards !! ad_Addr ad with Some r => r | None => [] end in
      let? reward := addIncome reward (ad_Amount ad) (ad_Asset ad) in
      add_rewards (<[ad_Addr ad := reward]> rewards) ads'
  end.

(** The rewards of an account-model coinbase: each addition on top of the state, a later one for
    the same address instead of an earlier one. *)
Fixpoint account_rewards (sq : IStateQuery) (rewards : gmap Address (list AmountAsset)) (ads : list Addition)
  : result ValidationCode (gmap Address (list AmountAsset)) :=
  match ads with
  | [] => Ok rewards
  | v :: ads' =>
      let? income :=
        match GetContractState sq CoinbaseContractId (reward_key (ad_Addr v)) with
        | Ok data => Ok (dec_amounts data).1 | Err _ => Ok [] | Panic => Panic
        end in
      let? newValue := addIncome income (ad_Amount v) (ad_Asset v) in
      account_rewards sq (<[ad_Addr v := newValue]> rewards) ads'
  end.

Definition as_invoke {E} (m : Message) : result E ContractInvokePayload :=
  match Payload m with Some (PayInvoke p) => Ok p | _ => Panic end.

Definition check_that (b : bool) : result ValidationCode unit := if b then Ok tt else Err TxValidationCode_INVALID_COINBASE.

(** VALID is [Ok]. *)
Definition validateCoinbase (tx : Transaction) (ads : list Addition) : result ValidationCode unit :=
  let contractId := CoinbaseContractId in
  let? msgs := TxMessages tx in
  let? msg0 := rget (index msgs 0) in
  if App msg0 =? APP_PAYMENT then
    let? sq := rget statequery in
    match GetContractStatesByPrefix sq contractId RewardAddressPrefix with
    | Panic => Panic
    | Err _ => Err TxValidationCode_STATE_DATA_NOT_FOUND
    | Ok addrMap =>
        let? rewards := state_rewards ∅ (map_to_list addrMap) in
        let? rewards := add_rewards rewards ads in
        let? payment := as_payment msg0 in
        let? same := compareRewardAndOutput rewards (Outputs payment) in
        let? _ := check_that same in
        if 0 <? Z.of_nat (size addrMap) then
          let? msg1 := rget (index msgs 1) in
          let? clearStateInvoke := as_invoke msg1 in
          let? _ := check_that (bytes_equal (iv_ContractId clearStateInvoke) contractId) in
          check_that (compareRewardAndStateClear rewards (iv_WriteSet clearStateInvoke))
        else Ok tt
    end
  else if App msg0 =? APP_CONTRACT_INVOKE then
    let? sq := rget statequery in
    let? rewards := account_rewards sq ∅ ads in
    let? invoke := as_invoke msg0 in
    let? _ := check_that (bytes_equal (iv_ContractId invoke) contractId) in
    let? same := compareRewardAndWriteset rewards (iv_WriteSet invoke) in
    if same then Ok tt
    else
      (* the log reads the first write *)
      let? _ := rget (index (iv_WriteSet invoke) 0) in
      Err TxValidationCode_INVALID_COINBASE
  else Ok tt.

(** ** Fees *)

Record FeeParts := mkFeeParts { onlyPayment : bool; opFee : float64; timeout : Z; appDataFee : float64; accountUpdateFee : float64 }.

Definition zero_float : float64 := of_int 0.

Fixpoint fee_parts (cp : ChainParameters) (size : float64) (f : FeeParts) (msgs : list Message) : result tx_error FeeParts :=
  match msgs with
  | [] => Ok f
  | msg :: msgs' =>
      let? f :=
        (if App msg =? APP_CONTRACT_TPL_REQUEST then
           Ok (mkFeeParts false (ContractTxInstallFeeLevel cp) (timeout f) (appDataFee f) (accountUpdateFee f))
         else if App msg =? APP_CONTRACT_DEPLOY_REQUEST then
           Ok (mkFeeParts false (ContractTxDeployFeeLevel cp) (timeout f) (appDataFee f) (accountUpdateFee f))
         else if App msg =? APP_CONTRACT_INVOKE_REQUEST then
           match Payload msg with
           | Some (PayInvokeRequest p) =>
               Ok (mkFeeParts false (ContractTxInvokeFeeLevel cp) (vr_Timeout p) (appDataFee f) (accountUpdateFee f))
           | _ => Panic
           end
         else if App msg =? APP_CONTRACT_STOP_REQUEST then
           Ok (mkFeeParts false (ContractTxStopFeeLevel cp) (timeout f) (appDataFee f) (accountUpdateFee f))
         else if App msg =? APP_DATA then
           Ok (mkFeeParts false (opFee f) (timeout f)
                 (fmul (of_int (TransferPtnPricePerKByte cp)) (fdiv size (of_int 1024))) (accountUpdateFee f))
         else if App msg =? APP_ACCOUNT_UPDATE then
           Ok (mkFeeParts false (opFee f) (timeout f) (appDataFee f) (of_int (AccountUpdateFee cp)))
         else Ok f) in
      fee_parts cp size f msgs'
  end.

Definition needed_fee (cp : ChainParameters) (size extTime : float64) (f : FeeParts) : float64 :=
  if onlyPayment f then of_int (TransferPtnBaseFee cp)
  else
    let sizeFee := fmul (fmul (opFee f) (of_int (ContractTxSizeUnitFee cp))) size in
    let timeFee := fmul (fmul (opFee f) (of_int (ContractTxTimeoutUnitFee cp))) (fadd (of_int (timeout f)) extTime) in
    fadd (fadd (fadd sizeFee timeFee) (accountUpdateFee f)) (appDataFee f).

(** [utxoquery.GetUtxoEntry] as a function of the pointer *)
Definition query_of (q : IUtxoQuery) (o : option OutPoint) : result string Utxo :=
  match o with Some o => GetUtxoEntry q o | None => Panic end.

Definition ValidateTxFeeEnough (enable : bool) (utxoquery : option IUtxoQuery) (tx : option Transaction) (extSize extTime : float64)
  : result tx_error bool :=
  match tx with
  | None => Ok false
  | Some tx =>
      if negb enable then Ok true
      else
        let? _ := RequestHash env_keccakHash tx in
        let? txSize := Size tx in
        match propquery, utxoquery with
        | Some pq, Some uq =>
            match GetTxFee (query_of uq) tx with
            | Panic => Panic
            | Err _ => Ok false
            | Ok fees =>
                let cp := GetChainParameters pq in
                let? msgs := TxMessages tx in
                let? f := fee_parts cp (fadd txSize extSize) (mkFeeParts true zero_float 0 zero_float zero_float) msgs in
                let amount := of_int (aa_Amount fees) in
                Ok (feq (fmax amount (needed_fee cp (fadd txSize extSize) extTime f)) amount)
            end
        | _, _ => Ok true
        end
  end.

(** [validate.tokenEngine.GetScriptSigners] *)
Definition script_signers (tx : Transaction) (msgIdx inputIndex : Z) : result string (list Address) :=
  match GetScriptSigners crypto_hash tx msgIdx inputIndex with Ok l => Ok l | Err _ => Err ""%string | Panic => Panic end.

(** [feeAsset.Asset.String() != assetId.String()] for none *)
Definition fee_assets_ok (feeAllocate : list Addition) : result tx_error bool :=
  all_ok (fun fa =>
    let? a := rget (ad_Asset fa) in
    match Asset_String a, AssetId_String gasToken with
    | Ok s, Ok t => Ok (String.eqb s t)
    | _, _ => Panic
    end) feeAllocate.

Definition validateTxFeeValid (enable : bool) (utxoquery : option IUtxoQuery) (tx : Transaction) : result tx_error (bool * list Addition) :=
  let? _ := RequestHash env_keccakHash tx in
  match utxoquery with
  | None => Ok (true, [])
  | Some uq =>
      let checked (r : result tx_error (list Addition)) :=
        match r with
        | Panic => Panic
        | Err _ => Ok (false, [])
        | Ok feeAllocate => let? same := fee_assets_ok feeAllocate in Ok (same, feeAllocate)
        end in
      if enable then
        let? enough := ValidateTxFeeEnough enable utxoquery (Some tx) zero_float zero_float in
        if negb enough then Ok (false, [])
        else
          let? sq := rget statequery in
          checked (GetTxFeeAllocate (query_of uq) script_signers zeroAddress (GetJurorReward sq) jury_percent tx)
      else checked (GetTxFeeAllocateLegacyV1 (query_of uq) script_signers zeroAddress jury_percent tx)
  end.

(** ** Contracts *)

Definition validateContractTplPayload (p : ContractTplPayload) : result ValidationCode unit :=
  match statequery with
  | Some sq => if HasContractTpl sq (tpl_TemplateId p) then Err TxValidationCode_INVALID_CONTRACT_TEMPLATE else Ok tt
  | None => Ok tt
  end.

(** Both accept everything. *)
Definition validateContractState (contractID : bytes) (readSet : list ContractReadSet) (writeSet : list ContractWriteSet)
  : result ValidationCode unit := Ok tt.
Definition validateContractDeploy (tplId : bytes) : result ValidationCode unit := Ok tt.

Definition validateDataPayload (p : DataPayload) : result ValidationCode unit :=
  if len (MainData p) =? 0 then Err TxValidationCode_INVALID_DATAPAYLOAD else Ok tt.

Definition ContractTxCheck (tx : Transaction) : bool :=
  match ContractCheckFun with Some f => f tx | None => true end.

(** The jury of a deploy result and the contract of a request; the last of each counts. *)
Fixpoint jury_and_contract (jury : option ElectionNode) (contractId : bytes) (msgs : list Message)
  : result ValidationCode (option ElectionNode * bytes) :=
  match msgs with
  | [] => Ok (jury, contractId)
  | msg :: msgs' =>
      if App msg =? APP_CONTRACT_DEPLOY then
        match Payload msg with Some (PayDeploy d) => jury_and_contract (Some (dp_EleNode d)) contractId msgs' | _ => Panic end
      else if App msg =? APP_CONTRACT_INVOKE_REQUEST then
        match Payload msg with Some (PayInvokeRequest r) => jury_and_contract jury (vr_ContractId r) msgs' | _ => Panic end
      else if App msg =? APP_CONTRACT_STOP_REQUEST then
        match Payload msg with Some (PayStopRequest r) => jury_and_contract jury (sr_ContractId r) msgs' | _ => Panic end
      else jury_and_contract jury contractId msgs'
  end.

Fixpoint count_passes (txBytes : bytes) (passCount : Z) (signatures : list SignatureSet) : result ValidationCode Z :=
  match signatures with
  | [] => Ok passCount
  | s :: signatures' =>
      match VerifyE (ss_PubKey s) (ss_Signature s) txBytes with
      | Panic => Panic
      | Err _ => Err TxValidationCode_INVALID_CONTRACT_SIGN
      | Ok pass => count_passes txBytes (if pass then passCount + 1 else passCount) signatures'
      end
  end.

Definition is_juror (jury : ElectionNode) (s : SignatureSet) : bool :=
  let jAddrHash := RlpHash_address (PubkeyBytesToAddress (ss_PubKey s)) in
  existsb (fun node => bytes_equal jAddrHash (el_AddrHash node)) (EleList jury).

Definition validateContractSignature (signatures : list SignatureSet) (tx : Transaction) (isFullTx : bool) : result ValidationCode unit :=
  let? msgs := TxMessages tx in
  let? (jury, contractId) := jury_and_contract None [] msgs in
  let? jury :=
    (if IsUserContractId contractId then
       let? sq := rget statequery in
       match GetContractJury sq contractId with Ok j => Ok j | Err _ => Err TxValidationCode_INVALID_CONTRACT_SIGN | Panic => Panic end
     else Ok jury) in
  let? needSign :=
    match jury with
    | None => Ok 1
    | Some j => if forallb (is_juror j) signatures then Ok (to_int (two_thirds (len (EleList j)))) else Err TxValidationCode_INVALID_CONTRACT_SIGN
    end in
  let? tx4Sign := GetResultRawTx tx in
  let? txBytes := match EncodeRLP (txdata tx4Sign) with Ok b => Ok b | Err _ => Ok [] | Panic => Panic end in
  let? passCount := count_passes txBytes 0 signatures in
  if isFullTx && (passCount <? needSign) then Err TxValidationCode_INVALID_CONTRACT_SIGN else Ok tt.

(** ** Votes *)

Definition check_votes (sq : IStateQuery) (l : list (string * bool)) : result ValidationCode unit :=
  if forallb (fun p => p.2 && match StringToAddress check_decode p.1 with Ok a => GetMediators sq a | _ => false end) l
  then Ok tt else Err TxValidationCode_UNSUPPORTED_TX_PAYLOAD.

Fixpoint check_vote_writes (l : list AccountStateWriteSet) : result ValidationCode unit :=
  match l with
  | [] => Ok tt
  | w :: l' =>
      if negb (String.eqb (as_Key w) "VotedMediators") then check_vote_writes l'
      else
        match vote_map (as_Value w) with
        | None => Err TxValidationCode_UNSUPPORTED_TX_PAYLOAD
        | Some mediators =>
            let? pq := rget propquery in
            if MaximumMediatorCount (GetChainParameters pq) <? Z.of_nat (size mediators) then Err TxValidationCode_UNSUPPORTED_TX_PAYLOAD
            else
              let? sq := rget statequery in
              let? _ := check_votes sq (map_to_list mediators) in
              check_vote_writes l'
        end
  end.

Definition validateVoteMediatorTx (p : option payload) : result ValidationCode unit :=
  match p with
  | Some (PayAccountUpdate u) => check_vote_writes (au_WriteSet u)
  | _ => Err TxValidationCode_UNSUPPORTED_TX_PAYLOAD
  end.

(** ** Transactions *)

(** What the loop over the messages keeps *)
Record MsgState := mkMsgState { hasRequestMsg : bool; requestMsgIndex : Z; isSysContractCall : bool; isOrphanTx : bool }.

Definition request_seen (msgIdx : Z) (sys : bool) (st : MsgState) : MsgState :=
  mkMsgState true msgIdx (isSysContractCall st || sys) (isOrphanTx st).

Section Messages.
Variables (developerCheck : bool) (utxoquery : option IUtxoQuery) (tx : Transaction) (isFullTx : bool).

(** [validatePaymentPayload], whose ORPHAN does not stop the checks *)
Definition payment_or_orphan (msgIdx : Z) (payment : PaymentPayload) : V bool :=
  fun s =>
    match validatePaymentPayload utxoquery tx msgIdx payment s with
    | (s', Ok _) => (s', Ok false)
    | (s', Err c) => if c =? TxValidationCode_ORPHAN then (s', Ok true) else (s', Err c)
    | (s', Panic) => (s', Panic)
    end.

(** One message of the [switch] *)
Definition validate_message (msgIdx : Z) (msg : Message) (st : MsgState) : V MsgState :=
  if negb (validateMessageType (App msg) (Payload msg)) then throw TxValidationCode_UNKNOWN_TX_TYPE
  else
    match Payload msg with
    | Some (PayPayment payment) =>
        if (requestMsgIndex st <? msgIdx) && negb isFullTx then ret st
        else
          let! orphan := payment_or_orphan msgIdx payment in
          let st := mkMsgState (hasRequestMsg st) (requestMsgIndex st) (isSysContractCall st) (isOrphanTx st || orphan) in
          if negb (msgIdx =? 0) && IsCoinbase payment && negb (isSysContractCall st) then throw TxValidationCode_INVALID_COINBASE
          else ret st
    | Some (PayTpl p) => lift (validateContractTplPayload p) ;;; ret st
    | Some (PayDeploy p) => lift (validateContractState (dp_ContractId p) (dp_ReadSet p) (dp_WriteSet p)) ;;; ret st
    | Some (PayInvoke p) => lift (validateContractState (iv_ContractId p) (iv_ReadSet p) (iv_WriteSet p)) ;;; ret st
    | Some (PayTplRequest p) =>
        if hasRequestMsg st then throw TxValidationCode_INVALID_MSG
        else if String.eqb (TplName p) "" || String.eqb (Path p) "" || String.eqb (ir_Version p) "" then throw TxValidationCode_INVALID_CONTRACT
        else
          let! dq := get dagquery in
          match GetTxRequesterAddress dq tx with
          | Panic => panic
          | Err _ => throw TxValidationCode_INVALID_CONTRACT
          | Ok reqAddr =>
              (if developerCheck then
                 let! sq := get statequery in
                 if negb (IsContractDeveloper sq reqAddr) then throw TxValidationCode_NOT_TPL_DEVELOPER else ret tt
               else ret tt) ;;;
              ret (request_seen msgIdx false st)
          end
    | Some (PayDeployRequest p) =>
        if hasRequestMsg st then throw TxValidationCode_INVALID_MSG
        else if len (dr_TemplateId p) =? 0 then throw TxValidationCode_INVALID_CONTRACT
        else lift (validateContractDeploy (dr_TemplateId p)) ;;; ret (request_seen msgIdx false st)
    | Some (PayInvokeRequest p) =>
        if hasRequestMsg st then throw TxValidationCode_INVALID_MSG
        else if len (vr_ContractId p) <=? 0 then throw TxValidationCode_INVALID_CONTRACT
        else ret (request_seen msgIdx (IsSystemContractId (vr_ContractId p)) st)
    | Some (PayStopRequest p) =>
        if len (sr_ContractId p) =? 0 then throw TxValidationCode_INVALID_CONTRACT
        else ret (mkMsgState (hasRequestMsg st) msgIdx (isSysContractCall st) (isOrphanTx st))
    | Some (PayStop p) => lift (validateContractState (st_ContractId p) (st_ReadSet p) (st_WriteSet p)) ;;; ret st
    | Some (PaySignature p) => lift (validateContractSignature (Signatures p) tx isFullTx) ;;; ret st
    | Some (PayData p) => lift (validateDataPayload p) ;;; ret st
    | Some (PayAccountUpdate _) =>
        lift (validateVoteMediatorTx (Payload msg)) ;;; throw TxValidationCode_VALID
    | None => throw TxValidationCode_UNKNOWN_TX_TYPE
    end.

Fixpoint validate_messages (msgIdx : Z) (msgs : list Message) (st : MsgState) : V MsgState :=
  match msgs with
  | [] => ret st
  | msg :: msgs' =>
      let! st := validate_message msgIdx msg st in
      validate_messages (msgIdx + 1) msgs' st
  end.
End Messages.

(** Whether a signature or a payment follows a request *)
Fixpoint has_sign (isResultMsg : bool) (msgs : list Message) : bool :=
  match msgs with
  | [] => false
  | msg :: msgs' =>
      if IsRequest (App msg) then has_sign true msgs'
      else (isResultMsg && ((App msg =? APP_SIGNATURE) || (App msg =? APP_PAYMENT))) || has_sign isResultMsg msgs'
  end.

Definition TX_MAXSIZE : Z := 256 * 1024.

(** The checks after the fee *)
Definition validate_rest (v : Validate) (utxoquery : option IUtxoQuery) (tx : Transaction) (isFullTx : bool) (msgs : list Message) : V unit :=
  let! size := call (Size tx) in
  if fgt size (of_int TX_MAXSIZE) then throw TxValidationCode_NOT_COMPARE_SIZE
  else
    (if enableContractSignCheck v && isFullTx && IsContractTx tx then
       if enableContractRwSetCheck v && negb (ContractTxCheck tx) then throw TxValidationCode_INVALID_CONTRACT
       else if negb (has_sign false msgs) then throw TxValidationCode_INVALID_CONTRACT_SIGN
       else ret tt
     else ret tt) ;;;
    let! st := validate_messages (enableDeveloperCheck v) utxoquery tx isFullTx 0 msgs (mkMsgState false 9999 false false) in
    if isOrphanTx st then throw TxValidationCode_ORPHAN else ret tt.

(** The code and the shares of the fee; the validator's signature cache grows. *)
Definition validateTx (utxoquery : option IUtxoQuery) (tx : option Transaction) (isFullTx : bool)
  : ST Validate ValidationCode (ValidationCode * list Addition) :=
  match tx with
  | None => ret (TxValidationCode_VALID, [])
  | Some tx => fun v =>
      let early :=
        let? _ := RequestHash env_keccakHash tx in
        let? msgs := TxMessages tx in
        match msgs with
        | [] => Ok (inl TxValidationCode_INVALID_MSG)
        | msg0 :: _ =>
            if negb (App msg0 =? APP_PAYMENT) then Ok (inl TxValidationCode_INVALID_MSG)
            else
              let? (txFeePass, txFee) := validateTxFeeValid (enableTxFeeCheck v) utxoquery tx in
              if negb txFeePass then Ok (inl TxValidationCode_INVALID_FEE) else Ok (inr (msgs, txFee))
        end in
      match early with
      | Ok (inl code) => (v, Ok (code, []))
      | Ok (inr (msgs, txFee)) =>
          let '(s, r) := validate_rest v utxoquery tx isFullTx msgs (mkPayState (v_sigs v) ∅) in
          (mkValidate (ps_sigs s) (v_cache v) (enableTxFeeCheck v) (enableContractSignCheck v) (enableDeveloperCheck v) (enableContractRwSetCheck v),
           match r with Ok _ => Ok (TxValidationCode_VALID, txFee) | Err c => Ok (c, txFee) | Panic => Panic end)
      | _ => (v, Panic)
      end
  end.
End Tx.
