(* ===== verification/ValTxProps.v ===== *)
(** What a valid transaction is: the rules that [validateTx] enforces over the messages of a
    transaction, and where they stop. *)

From Stdlib Require Import ZArith Lia.
From S2P Require Import Prelude Errors ScriptNum Stack Opcode Text Script Builder Address Standard Tx AssetId Float64 SigHash SigCache Engine TokenApi TxFee Unit ValPayment ValPayProps ValTx.

(** ** Codes that are errors *)

(** A computation whose error codes are not VALID *)
Definition rejects {S A} (m : ST S ValidationCode A) : Prop := forall s s' c, m s = (s', Err c) -> c <> TxValidationCode_VALID.
Definition rejects_r {A} (r : result ValidationCode A) : Prop := forall c, r = Err c -> c <> TxValidationCode_VALID.

Lemma rejects_bind {S A B} (m : ST S ValidationCode A) (k : A -> ST S ValidationCode B) :
  rejects m -> (forall a, rejects (k a)) -> rejects (bind m k).
Proof.
  intros M K s s' c. unfold bind. destruct (m s) as [s1 [a|e|]] eqn:E; intros Q; [by eapply K| |done].
  injection Q as <- <-. by eapply M.
Qed.
Lemma rejects_ret {S A} (a : A) : rejects (S := S) (ret a).
Proof. by intros s s' c. Qed.
Lemma rejects_panic {S A} : rejects (S := S) (A := A) panic.
Proof. by intros s s' c. Qed.
Lemma rejects_throw {S A} c : c <> TxValidationCode_VALID -> rejects (S := S) (A := A) (throw c).
Proof. intros N s s' c' Q. by injection Q as <- <-. Qed.
Lemma rejects_get {S A} (o : option A) : rejects (S := S) (get o).
Proof. intros s s' c. by destruct o. Qed.
Lemma rejects_gets {S A} (f : S -> A) : rejects (gets f).
Proof. by intros s s' c. Qed.
Lemma rejects_modify {S} (f : S -> S) : rejects (modify f).
Proof. by intros s s' c. Qed.
Lemma rejects_lift {S A} (r : result ValidationCode A) : rejects_r r -> rejects (S := S) (lift r).
Proof. intros R s s' c Q. injection Q as <- Q. by apply R. Qed.
Lemma rejects_call `{Node} {E A} (r : result E A) : rejects (call r).
Proof. intros s s' c. unfold call. by destruct r. Qed.
Lemma rejects_as_payment {S} m : rejects (S := S) (lift (as_payment m)).
Proof. intros s s' c. unfold lift, as_payment. by destruct (Payload m) as [[]|]. Qed.

Create HintDb rejects.
#[export] Hint Resolve rejects_ret rejects_panic rejects_get rejects_gets rejects_modify rejects_call rejects_as_payment : rejects.
#[export] Hint Extern 1 (_ <> TxValidationCode_VALID) => discriminate : rejects.

(** Walks through a computation. *)
Ltac reject :=
  repeat first
    [ progress cbv zeta
    | solve [auto with rejects]
    | apply rejects_throw; discriminate
    | apply rejects_bind; [|intros]
    | match goal with
      | |- rejects (if ?b then _ else _) => destruct b
      | |- rejects (match ?x with _ => _ end) => destruct x
      | |- rejects (let '(_, _) := ?x in _) => destruct x
      end ].

(** The same for results *)
Lemma rejects_r_bind {A B} (r : result ValidationCode A) (k : A -> result ValidationCode B) :
  rejects_r r -> (forall a, rejects_r (k a)) -> rejects_r (rbind r k).
Proof. intros R K c. destruct r as [a|e|]; cbn [rbind]; [by apply K| |done].
  intros Q. injection Q as <-. by apply R.
Qed.
Lemma rejects_r_ok {A} (a : A) : rejects_r (Ok a).
Proof. by intros c. Qed.
Lemma rejects_r_panic {A} : rejects_r (A := A) Panic.
Proof. by intros c. Qed.
Lemma rejects_r_get {A} (o : option A) : rejects_r (rget o).
Proof. intros c. by destruct o. Qed.
Lemma rejects_r_err {A} c : c <> TxValidationCode_VALID -> rejects_r (A := A) (Err c).
Proof. intros N c' Q. by injection Q as <-. Qed.
Lemma mapR_never {E A B} (f : A -> result E B) l : (forall a e, f a <> Err e) -> forall e, mapR f l <> Err e.
Proof.
  intros F. induction l as [|a l IH]; intros e; [done|]. cbn [mapR]. destruct (f a) as [b|e'|] eqn:Fa; cbn [rbind]; [|by destruct (F _ _ Fa)|done].
  destruct (mapR f l) as [bs|e'|] eqn:M; cbn [rbind]; [done|by destruct (IH e')|done].
Qed.
Lemma CopyMessage_never {E} m (e : E) : CopyMessage m <> Err e.
Proof.
  assert (O : forall a (e : E), CopyOutput a <> Err e) by (intros a e'; unfold CopyOutput; by destruct (out_Asset a)).
  assert (R : forall a (e : E), CopyReadSet a <> Err e) by (intros a e'; unfold CopyReadSet; by destruct (rs_Version a)).
  unfold CopyMessage, CopyPayload.
  repeat match goal with |- context [if ?b then _ else _] => destruct b end;
    destruct (Payload m) as [[]|]; cbn [rbind]; try done;
    match goal with |- context [mapR ?f ?l] => destruct (mapR f l) as [x|e'|] eqn:M; [done| |done] end;
    exfalso; first [exact (mapR_never _ _ O e' M) | exact (mapR_never _ _ R e' M)].
Qed.
Lemma rejects_messages tx : rejects_r (TxMessages tx).
Proof. intros c Q. exfalso. exact (mapR_never _ _ CopyMessage_never c Q). Qed.
Lemma rejects_raw tx : rejects_r (GetResultRawTx tx).
Proof.
  unfold GetResultRawTx. apply rejects_r_bind; [apply rejects_messages|]. intros msgs. apply rejects_r_bind; [|intros; apply rejects_r_ok].
  generalize false. induction msgs as [|m msgs IH]; intros b; cbn [ResultRaw_loop]; [apply rejects_r_ok|].
  destruct (App m =? APP_SIGNATURE); [apply IH|]. apply rejects_r_bind; [|intros; apply rejects_r_bind; [apply IH|intros; apply rejects_r_ok]].
  destruct (_ && _); [|apply rejects_r_ok]. unfold as_payment. destruct (Payload m) as [[]|]; by intros c.
Qed.
#[export] Hint Resolve rejects_r_ok rejects_r_panic rejects_r_get rejects_messages rejects_raw : rejects.

Ltac rejectr :=
  repeat first
    [ progress cbv zeta
    | solve [auto with rejects]
    | apply rejects_r_err; discriminate
    | apply rejects_r_bind; [|intros]
    | match goal with
      | |- rejects_r (if ?b then _ else _) => destruct b
      | |- rejects_r (match ?x with _ => _ end) => destruct x
      | |- rejects_r (let '(_, _) := ?x in _) => destruct x
      end ].

Section Rejects.
Context `{Node}.

Lemma rejects_blacklist bl script : rejects (check_blacklist bl script).
Proof. unfold check_blacklist. reject. intros s s' c. unfold script_address. by destruct (GetAddressFromScript script). Qed.
Lemma rejects_status a : rejects (checkTokenStatus a).
Proof. unfold checkTokenStatus. reject. Qed.
Lemma rejects_utxo q tx h o : rejects (input_utxo q tx h o).
Proof. unfold input_utxo. reject. Qed.
Lemma rejects_similar a b : rejects (similar a b).
Proof. unfold similar. reject. Qed.
#[local] Hint Resolve rejects_blacklist rejects_status rejects_utxo rejects_similar : rejects.

Lemma rejects_inputs q tx h m bl : forall inputs t, rejects (check_inputs q tx h m bl t inputs).
Proof. induction inputs as [|i inputs IH]; intros t; cbn [check_inputs]; reject; apply IH. Qed.
Lemma rejects_outputs b a a0 bl : forall outs n, rejects (check_outputs b a a0 bl n outs).
Proof. induction outs as [|o outs IH]; intros n; cbn [check_outputs]; reject; apply IH. Qed.
Lemma rejects_scripts u tx m : rejects (validate_scripts u tx m).
Proof. intros s s' c. unfold validate_scripts. destruct (ScriptValidate1Msg u tx m (ps_sigs s)) as [c' [| |]]; intros Q; try discriminate Q; by injection Q as _ <-. Qed.
#[local] Hint Resolve rejects_inputs rejects_outputs rejects_scripts : rejects.

Lemma rejects_payment q tx m p : rejects (validatePaymentPayload q tx m p).
Proof. unfold validatePaymentPayload, validate_inputs_of. reject. Qed.
#[local] Hint Resolve rejects_payment : rejects.

Lemma rejects_signature sigs tx full : rejects_r (validateContractSignature sigs tx full).
Proof.
  unfold validateContractSignature. rejectr.
  - generalize (@None ElectionNode) (@nil byte). induction a as [|m msgs IH]; intros j b; cbn [jury_and_contract]; [auto with rejects|].
    repeat match goal with |- rejects_r (if ?b then _ else _) => destruct b end; try (destruct (Payload m) as [[]|]); auto with rejects.
  - generalize 0. induction sigs as [|sg sigs IH]; intros n; cbn [count_passes]; [auto with rejects|].
    destruct (VerifyE _ _ _); [apply IH|by intros c Q; injection Q as <-|auto with rejects].
Qed.

Lemma rejects_votes p : rejects_r (validateVoteMediatorTx p).
Proof.
  unfold validateVoteMediatorTx. destruct p as [[]|]; try (by intros c Q; injection Q as <-).
  induction (au_WriteSet p) as [|w l IH]; cbn [check_vote_writes]; rejectr; try exact IH; unfold check_votes; rejectr.
Qed.
End Rejects.

(** ** One message *)

Section Messages.
Context `{Node}.
Variables (dc : bool) (q : option IUtxoQuery) (tx : Transaction).

Lemma check_outputs_state b a a0 bl : forall outs n s s' n', check_outputs b a a0 bl n outs s = (s', Ok n') -> s' = s.
Proof.
  induction outs as [|out outs IH]; intros n s s' n' E; [by injection E as <- _|]. cbn [check_outputs] in E.
  apply bind_inv in E as (s1 & same & E1 & E). assert (s1 = s) as ->.
  { destruct b; [|unfold similar in E1]; apply bind_inv in E1 as (s2 & x & E2 & E1); apply get_inv in E2 as [_ ->];
      apply bind_inv in E1 as (s2 & y & E2 & E1); apply get_inv in E2 as [_ ->]; by injection E1 as <- _. }
  destruct (negb same); [done|]. cbv zeta in E. destruct (_ || _); [done|].
  apply bind_inv in E as (s1 & y & E2 & E). apply check_blacklist_inv in E2 as [-> _]. by eapply IH.
Qed.

(** The outputs that a message spends *)
Definition points_of (mg : Message) : list OutPoint :=
  match Payload mg with Some (PayPayment p) => omap PreviousOutPoint (Inputs p) | _ => [] end.

Lemma omap_points inputs os : map PreviousOutPoint inputs = map Some os -> omap PreviousOutPoint inputs = os.
Proof.
  revert os. induction inputs as [|i inputs IH]; intros [|o os] E; try done. simpl in E. injection E as E1 E.
  cbn [omap list_omap]. rewrite E1. f_equal. by apply IH.
Qed.

Lemma payment_points m p s s' : validatePaymentPayload q tx m p s = (s', Ok tt) ->
  NoDup (omap PreviousOutPoint (Inputs p)) /\ (forall o, o ∈ omap PreviousOutPoint (Inputs p) -> o ∉ usedUtxo s) /\
  usedUtxo s' = list_to_set (omap PreviousOutPoint (Inputs p)) ∪ usedUtxo s.
Proof.
  intros E. apply validatePayment_inv in E as (_ & txId & asset & total & s1 & I & O).
  assert (s' = s1) as -> by (destruct (Outputs p); [done|destruct O as (n & O & _); by eapply check_outputs_state]).
  destruct I as [(Ei & -> & _)|(_ & V)].
  - rewrite Ei. split; [constructor|]. split; [intros o I; by apply elem_of_nil in I|]. cbn. by rewrite (left_id_L ∅ (∪)).
  - apply validate_inputs_sound in V as (os & us & tx' & scripts & Ep & _ & ND & Fr & Us & _). rewrite (omap_points _ _ Ep). by split_and!.
Qed.

(** A request of which there may be one *)
Definition is_request (mg : Message) : bool :=
  match Payload mg with Some (PayTplRequest _) | Some (PayDeployRequest _) | Some (PayInvokeRequest _) => true | _ => false end.
(** A call of a system contract *)
Definition sys_call (mg : Message) : bool :=
  match Payload mg with Some (PayInvokeRequest p) => IsSystemContractId (vr_ContractId p) | _ => false end.
Definition is_update (mg : Message) : bool := match Payload mg with Some (PayAccountUpdate _) => true | _ => false end.

(** What a message that is let through is known to be *)
Definition passed (i : Z) (mg : Message) (st st' : MsgState) (s s' : PayState) : Prop :=
  validateMessageType (App mg) (Payload mg) = true /\ is_update mg = false /\
  hasRequestMsg st' = hasRequestMsg st || is_request mg /\ (is_request mg = true -> hasRequestMsg st = false) /\
  isSysContractCall st' = isSysContractCall st || sys_call mg /\ (isOrphanTx st = true -> isOrphanTx st' = true) /\
  match Payload mg with
  | Some (PayPayment p) =>
      (isOrphanTx st' = false -> validatePaymentPayload q tx i p s = (s', Ok tt)) /\ (i <> 0 -> IsCoinbase p = true -> isSysContractCall st = true)
  | _ => s' = s
  end.

Lemma lift_inv {S E A} (r : result E A) (s s' : S) (a : A) : lift r s = (s', Ok a) -> r = Ok a /\ s' = s.
Proof. unfold lift. intros Q. by injection Q as -> ->. Qed.

Lemma validate_message_passed i mg st s s' st' : validate_message dc q tx true i mg st s = (s', Ok st') -> passed i mg st st' s s'.
Proof.
  unfold validate_message, passed, is_update, is_request, sys_call. intros E.
  destruct (validateMessageType (App mg) (Payload mg)) eqn:T; [|done]. cbn [negb] in E. split; [done|].
  destruct (Payload mg) as [[p|p|p|p|p|p|p|p|p|p|p|p]|]; cbn iota;
    try (apply bind_inv in E as (s1 & x & E1 & E); apply lift_inv in E1 as [_ ->]; try done; injection E as <- <-; rewrite ?orb_false_r; by split_and!).
  - rewrite andb_false_r in E. apply bind_inv in E as (s1 & orphan & E1 & E). cbv zeta in E.
    destruct (negb (i =? 0) && IsCoinbase p && _) eqn:C; [done|]. injection E as <- <-. cbn [hasRequestMsg isSysContractCall isOrphanTx] in *.
    rewrite !orb_false_r. split_and!; try done; [by intros ->| |].
    + intros Q. apply orb_false_iff in Q as [_ ->]. unfold payment_or_orphan in E1.
      destruct (validatePaymentPayload q tx i p s) as [s2 [[]|c|]]; [by injection E1 as <-| |done].
      destruct (c =? TxValidationCode_ORPHAN); [|done]. by injection E1.
    + intros Ni Cb. rewrite (proj2 (Z.eqb_neq i 0) Ni), Cb in C. cbn [negb andb] in C. by apply negb_false_iff in C.
  - destruct (hasRequestMsg st) eqn:Hr; [done|]. destruct (_ || _); [done|].
    apply bind_inv in E as (s1 & dq & E1 & E). apply get_inv in E1 as [_ ->].
    destruct (GetTxRequesterAddress dq tx); try done. apply bind_inv in E as (s1 & x & E1 & E). injection E as <- <-.
    assert (s1 = s) as ->.
    { destruct dc; [|by injection E1 as <- _]. apply bind_inv in E1 as (s2 & sq & E2 & E1). apply get_inv in E2 as [_ ->].
      destruct (negb _); [done|]. by injection E1 as <- _. }
    cbn [request_seen hasRequestMsg isSysContractCall isOrphanTx]. by split_and!.
  - destruct (hasRequestMsg st) eqn:Hr; [done|]. destruct (_ =? 0); [done|].
    apply bind_inv in E as (s1 & x & E1 & E). apply lift_inv in E1 as [_ ->]. injection E as <- <-.
    cbn [request_seen hasRequestMsg isSysContractCall isOrphanTx]. by split_and!.
  - destruct (hasRequestMsg st) eqn:Hr; [done|]. destruct (_ <=? 0); [done|]. injection E as <- <-.
    cbn [request_seen hasRequestMsg isSysContractCall isOrphanTx]. by split_and!.
  - destruct (_ =? 0); [done|]. injection E as <- <-. cbn [hasRequestMsg isSysContractCall isOrphanTx]. by rewrite !orb_false_r.
  - done.
Qed.
(** ** All messages *)

Definition points (msgs : list Message) : list OutPoint := concat (map points_of msgs).

(** What the messages before one leave to it *)
Definition validated (i : Z) (msgs : list Message) (s : PayState) (k : nat) (p : PaymentPayload) : Prop :=
  exists s1 s2, usedUtxo s1 = list_to_set (points (take k msgs)) ∪ usedUtxo s /\
    validatePaymentPayload q tx (i + Z.of_nat k) p s1 = (s2, Ok tt).

Record well_formed (i : Z) (msgs : list Message) (st : MsgState) (s s' : PayState) : Prop := {
  wf_types : Forall (fun mg => validateMessageType (App mg) (Payload mg) = true /\ is_update mg = false) msgs;
  wf_request : (length (List.filter is_request msgs) <= if hasRequestMsg st then 0 else 1)%nat;
  wf_points : NoDup (points msgs);
  wf_fresh : forall o, o ∈ points msgs -> o ∉ usedUtxo s;
  wf_used : usedUtxo s' = list_to_set (points msgs) ∪ usedUtxo s;
  wf_payments : forall k mg p, msgs !! k = Some mg -> Payload mg = Some (PayPayment p) ->
    validated i msgs s k p /\ (i + Z.of_nat k <> 0 -> IsCoinbase p = true -> isSysContractCall st || existsb sys_call (take k msgs) = true) }.

Lemma passed_points i mg st st' s s' : passed i mg st st' s s' -> isOrphanTx st' = false ->
  NoDup (points_of mg) /\ (forall o, o ∈ points_of mg -> o ∉ usedUtxo s) /\ usedUtxo s' = list_to_set (points_of mg) ∪ usedUtxo s.
Proof.
  intros (_ & _ & _ & _ & _ & _ & P) Or. unfold points_of. destruct (Payload mg) as [[p| | | | | | | | | | |]|];
    [destruct P as [P _]; exact (payment_points _ _ _ _ (P Or))|..];
    subst s'; cbn; rewrite (left_id_L ∅ (∪)); (split; [constructor|split; [by intros o []%elem_of_nil|done]]).
Qed.

Lemma validate_messages_orphan : forall msgs i st s s' st',
  validate_messages dc q tx true i msgs st s = (s', Ok st') -> isOrphanTx st' = false -> isOrphanTx st = false.
Proof.
  induction msgs as [|mg msgs IH]; intros i st s s' st' E Or; [by injection E as <- <-|]. cbn [validate_messages] in E.
  apply bind_inv in E as (s1 & st1 & E1 & E). apply (IH _ _ _ _ _ E) in Or. apply validate_message_passed in E1 as (_ & _ & _ & _ & _ & O & _).
  destruct (isOrphanTx st); [|done]. by rewrite O in Or.
Qed.

Lemma validate_messages_sound : forall msgs i st s s' st',
  validate_messages dc q tx true i msgs st s = (s', Ok st') -> isOrphanTx st' = false -> well_formed i msgs st s s'.
Proof.
  induction msgs as [|mg msgs IH]; intros i st s s' st' E Or.
  { injection E as <- <-. split; try done; try constructor; [cbn; lia|by intros o []%elem_of_nil|cbn; by rewrite (left_id_L ∅ (∪))]. }
  cbn [validate_messages] in E. apply bind_inv in E as (s1 & st1 & E1 & E).
  pose proof (validate_messages_orphan _ _ _ _ _ _ E Or) as Or1. apply validate_message_passed in E1.
  pose proof (passed_points _ _ _ _ _ _ E1 Or1) as (ND1 & Fr1 & Us1). destruct E1 as (T & U & Hr & Hr' & Sy & _ & P).
  destruct (IH _ _ _ _ _ E Or) as [Ft Fq ND Fr Us Pay]. rewrite Us1 in Fr, Us.
  assert (Dj : forall o, o ∈ points_of mg -> o ∉ points msgs).
  { intros o I I'. apply (Fr o I'), elem_of_union. left. by apply elem_of_list_to_set. }
  split.
  - by constructor.
  - cbn [List.filter]. rewrite Hr in Fq. destruct (is_request mg) eqn:Q; [|by rewrite orb_false_r in Fq].
    rewrite (Hr' eq_refl) in *. cbn [orb] in Fq. cbn [length]. lia.
  - unfold points. cbn [map concat]. apply NoDup_app. by split_and!.
  - intros o. unfold points. cbn [map concat]. intros [I|I]%elem_of_app; [by apply Fr1|]. intros I'. apply (Fr o I), elem_of_union. by right.
  - rewrite Us. unfold points. cbn [map concat]. rewrite list_to_set_app_L, (assoc_L (∪)), (comm_L (∪) (list_to_set (points_of mg))). done.
  - intros [|k] mg' p L Ep.
    + injection L as <-. rewrite Ep in P. destruct P as [P C]. cbn [take]. rewrite Z.add_0_r. split.
      * exists s, s1. split; [cbn; by rewrite (left_id_L ∅ (∪))|]. rewrite Z.add_0_r. by apply P.
      * intros Ni Cb. by rewrite C.
    + cbn in L. destruct (Pay k mg' p L Ep) as [(s2 & s3 & U2 & V2) C]. replace (i + Z.of_nat (S k)) with (i + 1 + Z.of_nat k) by lia. split.
      * exists s2, s3. split; [|by replace (i + Z.of_nat (S k)) with (i + 1 + Z.of_nat k) by lia].
        rewrite U2, Us1. unfold points. cbn [take map concat]. rewrite list_to_set_app_L, (assoc_L (∪)), (comm_L (∪) (list_to_set (points_of mg))). done.
      * intros Ni Cb. specialize (C Ni Cb). rewrite Sy in C. cbn [take existsb]. by rewrite orb_assoc.
Qed.

(** The only way to VALID before the end of the messages *)
Lemma validate_message_early full i mg st s s' : validate_message dc q tx full i mg st s = (s', Err TxValidationCode_VALID) -> is_update mg = true.
Proof.
  unfold validate_message, is_update. destruct (negb _); [done|].
  assert (R : forall (m : V MsgState), rejects m -> m s = (s', Err TxValidationCode_VALID) -> false = true) by (intros m R E; by destruct (R _ _ _ E)).
  destruct (Payload mg) as [[p|p|p|p|p|p|p|p|p|p|p|p]|]; try done; apply R; unfold validateContractTplPayload, validateDataPayload; reject;
    try (apply rejects_lift; first [apply rejects_signature | apply rejects_r_ok | solve [rejectr]]).
  intros s1 s2 c. unfold payment_or_orphan. pose proof (rejects_payment q tx i p s1) as N. destruct (validatePaymentPayload q tx i p s1) as [s3 [|c'|]]; try done.
  destruct (c' =? TxValidationCode_ORPHAN); [done|]. intros Q. injection Q as -> ->. by eapply N.
Qed.

Lemma validate_messages_early full : forall msgs i st s s',
  validate_messages dc q tx full i msgs st s = (s', Err TxValidationCode_VALID) -> existsb is_update msgs = true.
Proof.
  induction msgs as [|mg msgs IH]; intros i st s s' E; [done|]. cbn [validate_messages existsb] in *. unfold bind in E.
  destruct (validate_message dc q tx full i mg st s) as [s1 [st1|c|]] eqn:V; [| |done].
  - by rewrite (IH _ _ _ _ E), orb_true_r.
  - injection E as -> ->. apply validate_message_early in V. by rewrite V.
Qed.
End Messages.

(** ** Messages off the wire *)

Definition known_types : list MessageType :=
  [APP_PAYMENT; APP_CONTRACT_TPL; APP_CONTRACT_DEPLOY; APP_CONTRACT_INVOKE; APP_CONTRACT_STOP; APP_SIGNATURE; APP_DATA; APP_ACCOUNT_UPDATE;
   APP_CONTRACT_TPL_REQUEST; APP_CONTRACT_DEPLOY_REQUEST; APP_CONTRACT_INVOKE_REQUEST; APP_CONTRACT_STOP_REQUEST].

Lemma dec_payload_typed {L : RlpLib} app data p : dec_payload app data = Ok p -> validateMessageType app p = existsb (Z.eqb app) known_types /\
  (existsb (Z.eqb app) known_types = false <-> p = None).
Proof.
  unfold dec_payload. intros E.
  repeat (let B := fresh "B" in match type of E with (if app =? ?c then _ else _) = _ => destruct (Z.eqb_spec app c) as [->|B] end;
    [apply rbind_inv in E as (t & _ & E); injection E as <-; split; [reflexivity|by split]|]).
  injection E as <-. cbn [validateMessageType]. assert (K : existsb (Z.eqb app) known_types = false); [|by rewrite K]. apply not_true_iff_false. intros Q. apply existsb_exists in Q as (c & I & Q).
  apply Z.eqb_eq in Q as <-. apply list_elem_of_In in I. unfold known_types in I. repeat (apply elem_of_cons in I as [->|I]; [done|]). by apply elem_of_nil in I.
Qed.

(** C26: what comes off the wire is well typed.  Every message of a decoded transaction has a payload
    of the type that its tag names; or its tag is not one of the twelve that are known, and exactly
    then it has no payload at all; so the check
    of message types in the validator rejects just the unknown tags, and the assertions of payload
    types by tag cannot fail on a received transaction. *)
Theorem decoded_well_typed (L : RlpLib) (raw : bytes) (d : transaction_sdw) :
  DecodeRLP raw = Ok d ->
  Forall (fun m => validateMessageType (App m) (Payload m) = existsb (Z.eqb (App m)) known_types /\
    (existsb (Z.eqb (App m)) known_types = false <-> Payload m = None)) (sdw_TxMessages d).
Proof.
  unfold DecodeRLP, temp2Tx. intros E. apply rbind_inv in E as (temp & _ & E). apply rbind_inv in E as (msgs & M & E). injection E as <-. cbn [sdw_TxMessages].
  revert msgs M. induction (tt_TxMessages temp) as [|t l IH]; intros msgs M; cbn [mapR] in M; [injection M as <-; constructor|].
  apply rbind_inv in M as (m & Em & M). apply rbind_inv in M as (ms & Ms & M). injection M as <-. constructor; [|by apply IH].
  apply rbind_inv in Em as (p & Ep & Em). injection Em as <-. cbn [App Payload]. by eapply dec_payload_typed.
Qed.
