(* ===== verification/ValRules.v ===== *)
(** The rules of valid transactions and coinbases, and what they leave out. *)

From Stdlib Require Import ZArith Lia.
From S2P Require Import Prelude Errors ScriptNum Stack Opcode Text Script Builder Address Standard Tx RlpModel TxProps AssetId Float64 SigHash SigCache Engine EngineProps Spend TokenApi TxFee Unit ValPayment ValPayProps ValSigned ValTx ValTxProps.

Section Rules.
Context `{Node}.

(** ** Transactions *)

Definition start : MsgState := mkMsgState false 9999 false false.

(** The stages of [validateTx] that a valid transaction went through *)
Lemma validateTx_stages q tx full v v' fees : validateTx q (Some tx) full v = (v', Ok (TxValidationCode_VALID, fees)) ->
  exists msg0 msgs s r, TxMessages tx (E := tx_error) = Ok (msg0 :: msgs) /\ App msg0 = APP_PAYMENT /\
    validateTxFeeValid (enableTxFeeCheck v) q tx = Ok (true, fees) /\
    validate_rest v q tx full (msg0 :: msgs) (mkPayState (v_sigs v) ∅) = (s, r) /\ v_sigs v' = ps_sigs s /\
    (r = Ok tt \/ r = Err TxValidationCode_VALID).
Proof.
  unfold validateTx. intros E. set (early := rbind (RequestHash env_keccakHash tx) _) in E.
  destruct early as [[c|[msgs fs]]| |] eqn:Ea; try done; subst early.
  - exfalso. apply rbind_inv in Ea as (h & _ & Ea). apply rbind_inv in Ea as (msgs & _ & Ea). destruct msgs as [|m msgs]; [injection Ea as <-; discriminate E|].
    destruct (negb _); [injection Ea as <-; discriminate E|]. apply rbind_inv in Ea as ([pass fs] & _ & Ea).
    destruct (negb pass); [injection Ea as <-; discriminate E|done].
  - apply rbind_inv in Ea as (h & _ & Ea). apply rbind_inv in Ea as (ms & M & Ea). destruct ms as [|msg0 ms]; [done|].
    destruct (negb (App msg0 =? APP_PAYMENT)) eqn:A; [done|]. apply negb_false_iff, Z.eqb_eq in A.
    apply rbind_inv in Ea as ([pass fs'] & F & Ea). destruct pass; [|done]. injection Ea as <- <-.
    destruct (validate_rest v q tx full (msg0 :: ms) (mkPayState (v_sigs v) ∅)) as [s r] eqn:R.
    injection E as <- E. exists msg0, ms, s, r. destruct r as [[]|c|]; [| |done].
    + injection E as ->. split_and!; try done. by left.
    + injection E as -> ->. split_and!; try done. by right.
Qed.

(** The stages of [validate_rest] *)
Lemma validate_rest_stages v q tx full msgs s s' : validate_rest v q tx full msgs s = (s', Ok tt) ->
  (exists size, Size tx = Ok size /\ fgt size (of_int TX_MAXSIZE) = false) /\
  (enableContractSignCheck v && full && IsContractTx tx = true -> has_sign false msgs = true /\ (enableContractRwSetCheck v = true -> ContractTxCheck tx = true)) /\
  exists st, validate_messages (enableDeveloperCheck v) q tx full 0 msgs start s = (s', Ok st) /\ isOrphanTx st = false.
Proof.
  unfold validate_rest. intros E. apply bind_inv in E as (s1 & size & E1 & E). apply call_inv in E1 as [Sz ->].
  destruct (fgt size (of_int TX_MAXSIZE)) eqn:G; [done|]. split; [by exists size|].
  apply bind_inv in E as (s1 & [] & E1 & E). assert (s1 = s) as ->.
  { destruct (_ && _ && _); [|by injection E1 as <-]. destruct (_ && _); [done|]. destruct (negb _); [done|]. by injection E1 as <-. }
  split.
  - intros C. rewrite C in E1. destruct (enableContractRwSetCheck v && negb (ContractTxCheck tx)) eqn:W; [done|].
    destruct (has_sign false msgs); [|done]. split; [done|]. intros Rw. rewrite Rw in W. by apply negb_false_iff in W.
  - apply bind_inv in E as (s2 & st & E2 & E). exists st. destruct (isOrphanTx st); [done|]. injection E as <-. done.
Qed.

Lemma validate_rest_early v q tx full msgs s s' :
  validate_rest v q tx full msgs s = (s', Err TxValidationCode_VALID) -> existsb is_update msgs = true.
Proof.
  unfold validate_rest. unfold bind at 1, call. destruct (Size tx); [|done|done]. destruct (fgt _ _); [done|]. unfold bind at 1.
  match goal with |- context [(if ?b then ?x else ?y) s] => destruct ((if b then x else y) s) as [s1 [[]|c|]] eqn:E1 end; [| |done].
  - unfold bind. destruct (validate_messages _ q tx full 0 msgs _ s1) as [s2 [st|c|]] eqn:E2; [| |done].
    + by destruct (isOrphanTx st).
    + intros Q. injection Q as -> ->. by eapply validate_messages_early.
  - intros Q. injection Q as -> ->. exfalso. destruct (_ && _ && _); [|done]. destruct (_ && _); [done|]. by destruct (negb _).
Qed.
End Rules.

(** C3: what the validator's verdict VALID on a complete transaction means, provided it does not
    update an account.  The first message is a payment, and the fee is in the gas token and, when
    the check is on, enough; every message has the type its payload has; the transaction has at
    most one request to install, deploy or invoke a contract (requests to stop one are not counted),
    and, when the check of contract signatures is on, a contract transaction has a signature or a
    payment after its request; no output is spent twice, whether within a payment or across the payments of the
    transaction; every payment was accepted by [validatePaymentPayload] in a state that knows
    exactly the outputs spent by the messages before it; and a payment other than the first that
    creates coins comes after a call of a system contract. *)
Theorem validateTx_sound `{Node} (q : option IUtxoQuery) (tx : Transaction) (v v' : Validate) (fees : list Addition) (msgs : list Message) :
  TxMessages tx (E := tx_error) = Ok msgs -> existsb is_update msgs = false ->
  validateTx q (Some tx) true v = (v', Ok (TxValidationCode_VALID, fees)) ->
  (exists mg0 p0, head msgs = Some mg0 /\ Payload mg0 = Some (PayPayment p0)) /\
  validateTxFeeValid (enableTxFeeCheck v) q tx = Ok (true, fees) /\
  (exists size, Size tx = Ok size /\ fgt size (of_int TX_MAXSIZE) = false) /\
  (enableContractSignCheck v = true -> IsContractTx tx = true -> has_sign false msgs = true) /\
  Forall (fun mg => validateMessageType (App mg) (Payload mg) = true) msgs /\
  (length (List.filter is_request msgs) <= 1)%nat /\
  NoDup (points msgs) /\
  forall k mg p, msgs !! k = Some mg -> Payload mg = Some (PayPayment p) ->
    (exists s1 s2, usedUtxo s1 = list_to_set (points (take k msgs)) /\ validatePaymentPayload q tx (Z.of_nat k) p s1 = (s2, Ok tt)) /\
    (k <> 0%nat -> IsCoinbase p = true -> existsb sys_call (take k msgs) = true).
Proof.
  intros M Nu E. apply validateTx_stages in E as (mg0 & ms & s & r & M' & A & F & R & _ & C). rewrite M in M'. injection M' as ->.
  destruct C as [-> | ->]; [|apply validate_rest_early in R; congruence].
  apply validate_rest_stages in R as (Sz & Sg & st & V & Or). apply validate_messages_sound in V as [T Rq ND _ _ P]; [|done].
  split_and!; try done.
  - apply Forall_cons in T as [[T _] _]. exists mg0. rewrite A in T. destruct (Payload mg0) as [[p| | | | | | | | | | |]|]; try discriminate T. by exists p.
  - intros Es Ct. apply Sg. by rewrite Es, Ct.
  - eapply Forall_impl; [exact T|]. by intros mg [? _].
  - intros k mg p L Ep. destruct (P k mg p L Ep) as [(s1 & s2 & U & Vp) Cb]. split.
    + exists s1, s2. cbn [usedUtxo] in U. rewrite (right_id_L ∅ (∪)) in U. split; [done|]. by rewrite Z.add_0_l in Vp.
    + intros Nk Ci. apply Cb; [lia|done].
Qed.

(** An account update ends the checks.  When the messages before it pass, be the transaction an
    orphan by then or not, a message that updates an account with permitted votes makes
    [validateTx] return VALID: the messages after it, payments among them, are not looked at. *)
Theorem account_update_ends_checks `{Node} (q : option IUtxoQuery) (tx : Transaction) (v : Validate) (full : bool) (pre post : list Message)
    (mg0 mg : Message) (h : Hash) (fees : list Addition) (size : float64) (s1 : PayState) (st1 : MsgState) :
  TxMessages tx (E := tx_error) = Ok ((mg0 :: pre) ++ mg :: post) -> RequestHash env_keccakHash tx = Ok h -> App mg0 = APP_PAYMENT ->
  validateTxFeeValid (enableTxFeeCheck v) q tx = Ok (true, fees) -> Size tx = Ok size -> fgt size (of_int TX_MAXSIZE) = false ->
  IsContractTx tx = false ->
  validate_messages (enableDeveloperCheck v) q tx full 0 (mg0 :: pre) start (mkPayState (v_sigs v) ∅) = (s1, Ok st1) ->
  validateMessageType (App mg) (Payload mg) = true -> is_update mg = true -> validateVoteMediatorTx (Payload mg) = Ok tt ->
  exists v', validateTx q (Some tx) full v = (v', Ok (TxValidationCode_VALID, fees)).
Proof.
  intros M Rh A F Sz G Ct V T U Vo.
  assert (Stop : forall msgs i st s, validate_messages (enableDeveloperCheck v) q tx full i msgs st s = (s1, Ok st1) ->
    validate_messages (enableDeveloperCheck v) q tx full i (msgs ++ mg :: post) st s = (s1, Err TxValidationCode_VALID)).
  { induction msgs as [|m msgs IH]; intros i st s E.
    - injection E as -> ->. cbn [app validate_messages]. unfold bind at 1, validate_message. rewrite T. cbn [negb]. revert U Vo. unfold is_update.
      destruct (Payload mg) as [[]|]; try done. intros _ Vo. unfold bind, lift. by rewrite Vo.
    - cbn [app validate_messages] in *. apply bind_inv in E as (s2 & st2 & E1 & E). unfold bind. rewrite E1. by apply IH. }
  apply Stop in V. unfold validateTx. rewrite Rh, M. cbn [rbind app]. rewrite A. cbn [negb]. change (APP_PAYMENT =? APP_PAYMENT) with true. cbn [negb].
  rewrite F. cbn [rbind negb]. unfold validate_rest, bind at 1, call. rewrite Sz, G, Ct, andb_false_r.
  unfold bind at 1, ret at 1, bind at 1. cbn [app] in V. unfold start in V. rewrite V. by eexists.
Qed.

(** ** Signatures of a jury *)

Section Jury.
Context `{Node}.

(** The signatures that verify *)
Definition passes (txBytes : bytes) (sg : SignatureSet) : bool :=
  match VerifyE (ss_PubKey sg) (ss_Signature sg) txBytes with Ok b => b | _ => false end.

Lemma count_passes_spec txBytes : forall sigs n, Forall (fun sg => exists b, VerifyE (ss_PubKey sg) (ss_Signature sg) txBytes = Ok b) sigs ->
  count_passes txBytes n sigs = Ok (n + len (List.filter (passes txBytes) sigs)).
Proof.
  induction sigs as [|sg sigs IH]; intros n F; cbn [count_passes List.filter]; [by rewrite len_nil, Z.add_0_r|].
  apply Forall_cons in F as [(b & E) F]. unfold passes at 1. rewrite E, IH by done. f_equal.
  destruct b; [rewrite len_cons; lia|done].
Qed.

Lemma count_passes_err txBytes : forall sigs n m, count_passes txBytes n sigs = Ok m ->
  Forall (fun sg => exists b, VerifyE (ss_PubKey sg) (ss_Signature sg) txBytes = Ok b) sigs.
Proof.
  induction sigs as [|sg sigs IH]; intros n m E; cbn [count_passes] in E; [constructor|].
  destruct (VerifyE _ _ _) as [b| |] eqn:V; try done. constructor; [by exists b|by eapply IH].
Qed.

(** A transaction with a user contract that has the jury [j] *)
Variables (sq : IStateQuery) (tx tx4Sign : Transaction) (msgs : list Message) (jury0 : option ElectionNode) (contractId txBytes : bytes) (j : ElectionNode).
Hypotheses (Sq : statequery = Some sq) (Ms : TxMessages tx (E := ValidationCode) = Ok msgs) (Jc : jury_and_contract None [] msgs = Ok (jury0, contractId))
  (Us : IsUserContractId contractId = true) (Gj : GetContractJury sq contractId = Ok (Some j))
  (Raw : GetResultRawTx tx (E := ValidationCode) = Ok tx4Sign) (En : EncodeRLP (txdata tx4Sign) = Ok txBytes).

Lemma contract_signature_iff signatures :
  validateContractSignature signatures tx true = Ok tt <->
  Forall (fun sg => is_juror j sg = true) signatures /\
  Forall (fun sg => exists b, VerifyE (ss_PubKey sg) (ss_Signature sg) txBytes = Ok b) signatures /\
  to_int (two_thirds (len (EleList j))) <= len (List.filter (passes txBytes) signatures).
Proof.
  unfold validateContractSignature. rewrite Ms. cbn [rbind]. rewrite Jc. cbn [rbind]. rewrite Us, Sq. cbn [rget rbind].
  rewrite Gj. cbn [rbind]. destruct (forallb (is_juror j) signatures) eqn:Fj; cbn [rbind].
  - rewrite Raw. cbn [rbind]. rewrite En. cbn [rbind andb]. apply forallb_Forall in Fj. split.
    + intros E. apply rbind_inv in E as (n & Cn & E). pose proof (count_passes_err _ _ _ _ Cn) as F. rewrite count_passes_spec in Cn by done.
      injection Cn as <-. destruct (Z.ltb_spec (0 + len (List.filter (passes txBytes) signatures)) (to_int (two_thirds (len (EleList j))))); [done|].
      split; [done|]. split; [done|lia].
    + intros (_ & F & Le). rewrite count_passes_spec by done. cbn [rbind]. by rewrite (proj2 (Z.ltb_ge _ _)) by lia.
  - split; [done|]. intros (F & _). apply forallb_Forall in F. congruence.
Qed.

(** C25: the signatures of a jury on the result of a user contract.  They are accepted on a complete
    transaction exactly when every signer is in the jury of the contract, no check of a signature
    fails with an error, and the signatures that verify against the transaction without its
    signatures are more than two thirds of the jury, which float64 computes exactly for a jury of
    at most 2000. *)
Theorem contract_signature_spec (signatures : list SignatureSet) :
  len (EleList j) <= 2000 ->
  validateContractSignature signatures tx true = Ok tt <->
  Forall (fun sg => is_juror j sg = true) signatures /\
  Forall (fun sg => exists b, VerifyE (ss_PubKey sg) (ss_Signature sg) txBytes = Ok b) signatures /\
  2 * len (EleList j) < 3 * len (List.filter (passes txBytes) signatures).
Proof.
  intros R. rewrite contract_signature_iff. pose proof (len_nonneg (EleList j)). rewrite two_thirds_exact by lia.
  assert (Q : forall n, (2 * len (EleList j) + 3) / 3 <= n <-> 2 * len (EleList j) < 3 * n) by (intros n; dlia). by rewrite Q.
Qed.

(** One juror can sign for the whole jury.  What is counted is signatures and not signers: a
    signature of one juror that verifies, repeated, is accepted as that of the jury. *)
Theorem juror_signature_replay (sg : SignatureSet) (n : nat) :
  is_juror j sg = true -> VerifyE (ss_PubKey sg) (ss_Signature sg) txBytes = Ok true ->
  len (EleList j) <= 2000 -> (length (EleList j) <= n)%nat -> (0 < n)%nat ->
  validateContractSignature (replicate n sg) tx true = Ok tt.
Proof.
  intros Ij Ve R Ln Pos. apply contract_signature_iff. split; [by apply Forall_replicate|].
  split; [apply Forall_replicate; by exists true|].
  assert (E : forall k, len (List.filter (passes txBytes) (replicate k sg)) = Z.of_nat k).
  { induction k as [|k IH]; [done|]. cbn [replicate List.filter]. unfold passes at 1. rewrite Ve, len_cons, IH. lia. }
  rewrite E. unfold len in *. rewrite two_thirds_exact by lia. dlia.
Qed.
End Jury.

(** ** Coinbases *)

Section Coinbase.
Context `{Node}.

Lemma all_ok_true {E A} (f : A -> result E bool) (P : A -> Prop) l : (forall x, x ∈ l -> exists b, f x = Ok b /\ (b = true <-> P x)) ->
  exists b, all_ok f l = Ok b /\ (b = true <-> Forall P l).
Proof.
  induction l as [|x l IH]; intros F; cbn [all_ok]; [exists true; split; [done|]; split; [constructor|done]|].
  destruct (F x) as (b & E1 & B); [left|]. rewrite E1. cbn [rbind]. destruct IH as (b' & E2 & B'); [intros y I; apply F; by right|].
  destruct b; [exists b'|exists false]; (split; [done|]); rewrite Forall_cons.
  - rewrite B'. pose proof (proj1 B eq_refl). tauto.
  - split; [done|]. intros [Px _]. by apply B in Px.
Qed.

(** What is promised of an asset and an address, and what an output pays *)
Definition pays_reward (addr : Address) (aa : list AmountAsset) (out : Output) : Prop :=
  address_of (PkScript out) = addr -> forall a asset, a ∈ aa -> aa_Asset a = Some asset -> out_Asset out = Some asset -> Value out = aa_Amount a.

(** Nothing that makes the comparison panic *)
Definition readable (out : Output) : Prop := GetAddressFromScript (PkScript out) <> Panic /\ exists a, out_Asset out = Some a.
Definition has_assets (aa : list AmountAsset) : Prop := Forall (fun a => exists asset, aa_Asset a = Some asset /\ length (AssetId asset) = 16%nat) aa.
Definition asset_sized (out : Output) : Prop := forall a, out_Asset out = Some a -> length (AssetId a) = 16%nat.

Lemma Asset_Equal_eq a b : length (AssetId a) = 16%nat -> length (AssetId b) = 16%nat -> Asset_Equal a b = true <-> a = b.
Proof.
  intros La Lb. unfold Asset_Equal, bytes_equal, Asset_Bytes. rewrite bool_decide_eq_true. split; [|by intros ->].
  intros E. apply app_inj_1 in E as [E1 E2]; [|congruence]. destruct a, b; simpl in *. congruence.
Qed.

Lemma rewardExistInOutputs_spec addr aa outputs : has_assets aa -> Forall (fun o => readable o /\ asset_sized o) outputs ->
  exists b, rewardExistInOutputs addr aa outputs = Ok b /\ (b = true <-> Forall (pays_reward addr aa) outputs).
Proof.
  intros Ha Fo. unfold rewardExistInOutputs. apply all_ok_true. intros out I.
  destruct (proj1 (Forall_forall _ _) Fo out I) as [[Np (oa & Eo)] Sz]. specialize (Sz _ Eo). unfold pays_reward.
  assert (G : exists r, match GetAddressFromScript (PkScript out) with Ok a => Ok a | Err _ => Ok zeroAddress | Panic => Panic end = Ok (E := ValidationCode) (address_of (PkScript out)) /\ r = tt).
  { exists tt. unfold address_of. by destruct (GetAddressFromScript (PkScript out)). }
  destruct G as (_ & G & _). rewrite G. cbn [rbind]. unfold bytes_equal.
  case_bool_decide as Ea; [|by exists true; split; [|split; [intros _ K|]]].
  destruct (all_ok_true (fun a => amount_agrees (E := ValidationCode) a (out_Asset out) (Value out))
    (fun a => aa_Asset a = Some oa -> Value out = aa_Amount a) aa) as (b & E & B).
  - intros a Ia. destruct (proj1 (Forall_forall _ _) Ha a Ia) as (asset & As & Ln). unfold amount_agrees, asset_equal. rewrite As, Eo. cbn [rget rbind].
    eexists. split; [done|]. rewrite negb_true_iff. pose proof (Asset_Equal_eq asset oa Ln Sz) as Q.
    destruct (Asset_Equal asset oa); cbn [andb].
    + rewrite negb_false_iff, Z.eqb_eq. split; [by intros -> _|]. intros K. symmetry. apply K. by rewrite (proj1 Q eq_refl).
    + split; [|done]. intros _ K. injection K as ->. by discriminate (proj2 Q eq_refl).
  - exists b. split; [done|]. rewrite B, Forall_forall. split.
    + intros K _ a asset Ia As Oa. rewrite Eo in Oa. injection Oa as <-. by apply K.
    + intros K a Ia As. by apply (K Ea a oa Ia).
Qed.

Lemma compareRewardAndOutput_iff (rewards : gmap Address (list AmountAsset)) (outputs : list Output) :
  map_Forall (fun _ aa => has_assets aa) rewards -> Forall (fun o => readable o /\ asset_sized o) outputs ->
  exists b, compareRewardAndOutput rewards outputs = Ok b /\
    (b = true <-> Z.of_nat (size rewards) = len outputs /\
       forall addr aa out, rewards !! addr = Some aa -> out ∈ outputs -> pays_reward addr aa out).
Proof.
  intros Hr Fo. unfold compareRewardAndOutput.
  destruct (all_ok_true (fun p => rewardExistInOutputs p.1 p.2 outputs) (fun p => Forall (pays_reward p.1 p.2) outputs) (map_to_list rewards)) as (b & E & B).
  { intros [addr aa] I. apply elem_of_map_to_list in I. apply rewardExistInOutputs_spec; [by apply (Hr addr)|done]. }
  exists (b && (Z.of_nat (size rewards) =? len outputs)). rewrite E. cbn [rbind]. split; [done|].
  rewrite andb_true_iff, Z.eqb_eq, B, Forall_forall. split.
  - intros [K ->]. split; [done|]. intros addr aa out L I. apply elem_of_map_to_list in L. specialize (K _ L). by apply (proj1 (Forall_forall _ _) K).
  - intros [-> K]. split; [|done]. intros [addr aa] I. apply elem_of_map_to_list in I. apply Forall_forall. intros out Io. by apply K.
Qed.

(** How the payment of a coinbase is compared with the rewards that are due.  The comparison
    succeeds exactly when there are as many outputs as rewarded addresses and no output to a
    rewarded address has another amount than the one due in its asset. *)
Theorem compareRewardAndOutput_spec (rewards : gmap Address (list AmountAsset)) (outputs : list Output) :
  map_Forall (fun _ aa => has_assets aa) rewards -> Forall (fun o => readable o /\ asset_sized o) outputs ->
  exists b, compareRewardAndOutput rewards outputs = Ok b /\
    (b = true <-> Z.of_nat (size rewards) = len outputs /\
       forall addr aa out, rewards !! addr = Some aa -> out ∈ outputs -> pays_reward addr aa out).
Proof. apply compareRewardAndOutput_iff. Qed.

(** The rewards do not bound what a coinbase creates.  A coinbase payment whose outputs, as many
    as there are rewarded addresses, all go to other addresses is accepted whatever their amounts;
    and a coinbase that calls the contract of the rewards is accepted without any writes. *)
Theorem coinbase_pays_anyone (tx : Transaction) (ads : list Addition) (sq : IStateQuery) (msg0 : Message) (msgs : list Message) :
  statequery = Some sq -> TxMessages tx (E := ValidationCode) = Ok (msg0 :: msgs) ->
  (forall rewards payment, App msg0 = APP_PAYMENT -> Payload msg0 = Some (PayPayment payment) ->
     GetContractStatesByPrefix sq CoinbaseContractId RewardAddressPrefix = Ok ∅ -> add_rewards ∅ ads = Ok rewards ->
     map_Forall (fun _ aa => has_assets aa) rewards -> Forall (fun o => readable o /\ asset_sized o) (Outputs payment) ->
     len (Outputs payment) = Z.of_nat (size rewards) -> Forall (fun o => rewards !! address_of (PkScript o) = None) (Outputs payment) ->
     validateCoinbase tx ads = Ok tt) /\
  (forall rewards invoke, App msg0 = APP_CONTRACT_INVOKE -> Payload msg0 = Some (PayInvoke invoke) -> account_rewards sq ∅ ads = Ok rewards ->
     iv_ContractId invoke = CoinbaseContractId -> iv_WriteSet invoke = [] -> validateCoinbase tx ads = Ok tt).
Proof.
  intros Sq M. split.
  - intros rewards payment A P St Ar Ha Fo Ln No. unfold validateCoinbase. rewrite M. cbn [rbind rget index]. change (index (msg0 :: msgs) 0) with (Some msg0).
    cbn [rget rbind]. rewrite A. change (APP_PAYMENT =? APP_PAYMENT) with true. cbv iota. rewrite Sq. cbn [rget rbind]. rewrite St.
    change (state_rewards ∅ (map_to_list ∅)) with (Ok (E := ValidationCode) (∅ : gmap Address (list AmountAsset))). cbn [rbind]. rewrite Ar. cbn [rbind].
    unfold as_payment. rewrite P. cbn [rbind]. destruct (compareRewardAndOutput_iff rewards (Outputs payment) Ha Fo) as (b & -> & B). cbn [rbind].
    assert (b = true) as ->; [|done]. apply B. split; [done|]. intros addr aa out L I Ea. rewrite Forall_forall in No. specialize (No out I). congruence.
  - intros rewards invoke A P Ar Ci Ws. unfold validateCoinbase. rewrite M. cbn [rbind]. change (index (msg0 :: msgs) 0) with (Some msg0).
    cbn [rget rbind]. rewrite A. change (APP_CONTRACT_INVOKE =? APP_PAYMENT) with false. change (APP_CONTRACT_INVOKE =? APP_CONTRACT_INVOKE) with true. cbv iota.
    rewrite Sq. cbn [rget rbind]. rewrite Ar. cbn [rbind]. unfold as_invoke. rewrite P. cbn [rbind]. unfold bytes_equal. rewrite bool_decide_eq_true_2 by done.
    cbn [check_that rbind]. assert (C : compareRewardAndWriteset rewards (iv_WriteSet invoke) = Ok true); [|by rewrite C].
    rewrite Ws. unfold compareRewardAndWriteset, rewardExist. cbn [all_ok]. induction (map_to_list rewards) as [|p l IH]; [done|]. exact IH.
Qed.
End Coinbase.

(** ** Samples *)

(** Payments of 7 out of 9, an account update and a payment out of nothing *)
Definition point (n : byte) : OutPoint := mkOutPoint (replicate 32 n) 0 0.
Definition pay_from (n : byte) : PaymentPayload := mkPayment [mkInput [] [] (Some (point n))] [mkOutput 7 [x76] (Some PTNAsset)] 0.
Definition mint : PaymentPayload := mkPayment [] [mkOutput 1000000000 [x76] (Some PTNAsset)] 0.
Definition as_message (p : PaymentPayload) : Message := mkMessage APP_PAYMENT (Some (PayPayment p)).
Definition update : Message := mkMessage APP_ACCOUNT_UPDATE (Some (PayAccountUpdate (mkAccountUpdate []))).
Definition two_payments : Transaction := NewTransaction [as_message (pay_from x11); as_message (pay_from x22)].
Definition sample_call : ContractInvokeRequestPayload := mkInvokeReq (replicate 20 x22) [] 0.
Definition jury_tx : Transaction := NewTransaction [as_message (pay_from x11); mkMessage APP_CONTRACT_INVOKE_REQUEST (Some (PayInvokeRequest sample_call))].
Definition sample_result : ContractInvokePayload := mkInvoke (replicate 20 x22) [] [] [] [] (mkContractError 0 "").
Definition unsigned_result : Transaction :=
  NewTransaction (Messages jury_tx ++ [mkMessage APP_CONTRACT_INVOKE (Some (PayInvoke sample_result))]).
Definition update_then_mint : Transaction := NewTransaction [as_message (pay_from x11); update; as_message mint].

Definition temp (l : list (MessageType * bytes)) : transactionTemp := mkTransactionTemp (map (fun p => mkMessageTemp p.1 p.2) l) [] false.
Definition table_lib (pays : list PaymentPayload) (temps : list transactionTemp) : RlpLib := {|
  c_payment := table_codec (map flatten_payment pays);
  c_tpl := digit_codec _; c_deploy := digit_codec _; c_deploy_v1 := digit_codec _; c_invoke := table_codec [sample_result]; c_stop := digit_codec _;
  c_signature := digit_codec _; c_data := digit_codec _; c_account := table_codec [mkAccountUpdate []];
  c_tpl_req := digit_codec _; c_deploy_req := digit_codec _; c_invoke_req := table_codec [sample_call]; c_stop_req := digit_codec _;
  c_tx := table_codec temps
|}.
Definition table_env (lib : RlpLib) : ScriptEnv := {|
  env_rlp := lib; env_keccakHash := fun b => take 32 (b ++ replicate 32 x00);
  Verify := fun pk sig _ => is_prefix pk sig; Hash160 := fun b => take 20 (b ++ replicate 20 x00);
  Ripemd160 := fun b => b; Sha1 := fun b => b; Keccak256 := fun b => b;
  pickupJuryRedeemScript := fun _ => Err ErrStackEmptyStack; cacheOrder := fun c => elements (validSigs c); cacheRand := fun _ => None
|}.

(** A contract with a jury of two, and no rewards from earlier units *)
Definition jury_key : bytes := [x0a; x0b].
Definition sample_jury : ElectionNode :=
  mkElectionNode 2 [mkElectionInf x00 (take 20 (jury_key ++ replicate 20 x00) ++ [x00]) [] jury_key; mkElectionInf x00 zeroHash [] []].
Definition sample_state : IStateQuery :=
  mkStateQuery (fun _ => false) (fun _ => Ok (Some sample_jury)) (fun _ _ => Err "none"%string) (fun _ _ => Ok ∅) (fun _ => false) (fun _ => None) []
    (fun _ => Err "none"%string) (fun a => a) (fun _ => false).
(** A node whose JSON knows one list of shares *)
Definition make_node (env : ScriptEnv) (sq : IStateQuery) (fees : list Addition) : Node := {|
  node_env := env; statequery := Some sq; dagquery := None; propquery := None; light := false; gasToken := PTNCOIN;
  jury_percent := of_int 0; GenerateUnitReward := 100000000; ContractCheckFun := None; token_status := fun _ => None;
  vote_map := fun _ => None; dec_amounts := fun _ => ([], false); enc_amounts := fun _ => []; marshal_additions := fun _ => Some [x5b];
  unmarshal_additions := fun _ => Some fees; RlpHash_address := fun a => a; VerifyE := fun pk sig _ => Ok (is_prefix pk sig);
  crypto_hash := fun b => Ok b; check_encode := toy_encode; check_decode := fun _ => Err ErrAddressNull; DeriveSha := fun _ => zeroHash; header_codec := plain_codec
|}.
Definition table_node : Node :=
  make_node (table_env (table_lib [pay_from x11; pay_from x22; mint]
    [temp [(APP_PAYMENT, []); (APP_CONTRACT_INVOKE_REQUEST, [])]; temp [(APP_PAYMENT, []); (APP_PAYMENT, [x01])]; temp [(APP_PAYMENT, []); (APP_ACCOUNT_UPDATE, []); (APP_PAYMENT, [x01; x01])];
     temp [(APP_PAYMENT, []); (APP_CONTRACT_INVOKE_REQUEST, []); (APP_CONTRACT_INVOKE, [])]]))
    sample_state [mkAddition zeroAddress 2 (Some PTNAsset)].
Definition sample_validate : Validate := mkValidate (NewSigCache 20000) ∅ true true true true.

Lemma two_payments_valid : exists v' fees,
  validateTx (H := table_node) (Some open_query) (Some two_payments) true sample_validate = (v', Ok (TxValidationCode_VALID, fees)).
Proof. eexists _, _. vm_compute. reflexivity. Qed.

Lemma validateTx_sound_witness :
  exists msgs, TxMessages two_payments (E := tx_error) = Ok msgs /\ NoDup (points msgs) /\ points msgs = [point x11; point x22].
Proof.
  destruct two_payments_valid as (v' & fees & V). eexists. split; [reflexivity|]. split; [|reflexivity].
  exact (proj1 (proj2 (proj2 (proj2 (proj2 (proj2 (proj2 (validateTx_sound (H := table_node) (Some open_query) two_payments sample_validate v' fees
    _ eq_refl eq_refl V)))))))).
Defined.

Lemma update_prefix : exists s1 st1, validate_messages (H := table_node) true (Some open_query) update_then_mint true 0 [as_message (pay_from x11)] start
  (mkPayState (NewSigCache 20000) ∅) = (s1, Ok st1).
Proof. eexists _, _. vm_compute. reflexivity. Qed.

Lemma account_update_ends_checks_witness :
  exists fees v', validateTx (H := table_node) (Some open_query) (Some update_then_mint) true sample_validate = (v', Ok (TxValidationCode_VALID, fees)).
Proof.
  destruct update_prefix as (s1 & st1 & V).
  eexists. eapply (account_update_ends_checks (H := table_node) (Some open_query) update_then_mint sample_validate true [] [as_message mint]
    (as_message (pay_from x11)) update _ _ _ s1 st1).
  - reflexivity.
  - vm_compute. reflexivity.
  - reflexivity.
  - vm_compute. reflexivity.
  - vm_compute. reflexivity.
  - vm_compute. reflexivity.
  - reflexivity.
  - exact V.
  - reflexivity.
  - reflexivity.
  - reflexivity.
Defined.

Definition juror : SignatureSet := mkSignatureSet jury_key jury_key.
Lemma juror_signature_replay_witness :
  validateContractSignature (H := table_node) [juror; juror] jury_tx true = Ok tt.
Proof.
  eapply (juror_signature_replay (H := table_node) sample_state jury_tx jury_tx (Messages jury_tx) None (replicate 20 x22) _ sample_jury
    eq_refl eq_refl eq_refl eq_refl eq_refl eq_refl) with (n := 2%nat); try (vm_compute; reflexivity); try (vm_compute; congruence); simpl; lia.
Defined.

Lemma contract_signature_spec_witness :
  validateContractSignature (H := table_node) [juror; mkSignatureSet jury_key []] jury_tx true <> Ok tt.
Proof.
  intros E. eapply (contract_signature_spec (H := table_node) sample_state jury_tx jury_tx (Messages jury_tx) None (replicate 20 x22) _ sample_jury
    eq_refl eq_refl eq_refl eq_refl eq_refl eq_refl) in E as (_ & _ & Lt); [vm_compute in Lt; discriminate Lt|reflexivity|vm_compute; congruence].
Defined.

(** The reward is 5 to one address; the coinbase pays a thousand million to another. *)
Definition due : list Addition := [mkAddition (replicate 20 x33 ++ [x00]) 5 (Some PTNAsset)].
Definition due_map : gmap Address (list AmountAsset) := {[ replicate 20 x33 ++ [x00] := [mkAmountAsset 5 (Some PTNAsset)] ]}.
Definition coinbase_tx : Transaction := NewTransaction [as_message mint].

Lemma compareRewardAndOutput_spec_witness :
  exists b, compareRewardAndOutput (H := table_node) due_map (Outputs mint) = Ok b /\ (b = true <-> Z.of_nat (size due_map) = len (Outputs mint) /\
    forall addr aa out, due_map !! addr = Some aa -> out ∈ Outputs mint -> pays_reward (H := table_node) addr aa out).
Proof.
  apply (compareRewardAndOutput_spec (H := table_node) due_map (Outputs mint)).
  - apply map_Forall_singleton. constructor; [|constructor]. eexists. split; reflexivity.
  - constructor; [|constructor]. split; [split; [vm_compute; congruence|by eexists]|]. intros a E. injection E as <-. reflexivity.
Defined.

Lemma coinbase_pays_anyone_witness : validateCoinbase (H := table_node) coinbase_tx due = Ok tt.
Proof.
  apply (proj1 (coinbase_pays_anyone (H := table_node) coinbase_tx due sample_state (as_message mint) [] eq_refl eq_refl) due_map mint).
  - reflexivity.
  - reflexivity.
  - reflexivity.
  - unfold due, due_map. cbn [add_rewards ad_Addr]. rewrite lookup_empty. reflexivity.
  - apply map_Forall_singleton. constructor; [|constructor]. eexists. split; reflexivity.
  - constructor; [|constructor]. split; [split; [vm_compute; congruence|by eexists]|]. intros a E. injection E as <-. reflexivity.
  - reflexivity.
  - constructor; [|constructor]. apply lookup_singleton_ne. vm_compute. discriminate.
Defined.

Lemma decoded_well_typed_witness :
  exists d, DecodeRLP (L := env_rlp (ScriptEnv := @node_env table_node)) [x01] = Ok d /\
    Forall (fun m => validateMessageType (App m) (Payload m) = existsb (Z.eqb (App m)) known_types /\
      (existsb (Z.eqb (App m)) known_types = false <-> Payload m = None)) (sdw_TxMessages d).
Proof.
  eexists. split; [reflexivity|]. eapply (decoded_well_typed (env_rlp (ScriptEnv := @node_env table_node)) [x01]). reflexivity.
Defined.
