(* ===== verification/ValUnit.v ===== *)
(** The validator, units: src/validator/{validator,validate_unit,validator_cache}.go.

    The cache of results is a map; entries do not expire here.  Texts of the log are not modelled.
    The order in which a Go map gives the shares of the fees is that of [map_to_list]. *)

From Stdlib Require Import ZArith Lia.
From S2P Require Import Prelude Errors ScriptNum Stack Opcode Text Script Builder Address Standard Tx AssetId Float64 SigHash SigCache Engine TokenApi TxFee Unit ValPayment ValTx.

(** ** The cache of results *)

Definition expireSeconds : Z := 600.
Definition prefixTx : bytes := [x56; x54].
Definition prefixUnit : bytes := [x56; x55].
Definition prefixHeader : bytes := [x56; x48].

Definition NewValidate : Validate := mkValidate (NewSigCache 20000) ∅ true true true true.

Definition with_cache (c : gmap bytes bytes) (v : Validate) : Validate :=
  mkValidate (v_sigs v) c (enableTxFeeCheck v) (enableContractSignCheck v) (enableDeveloperCheck v) (enableContractRwSetCheck v).
Definition with_checks (fee sign developer rwset : bool) (v : Validate) : Validate := mkValidate (v_sigs v) (v_cache v) fee sign developer rwset.

Section Unit.
Context `{Node}.

Definition AddTxValidateResult (txId : Hash) (validateResult : list Addition) (v : Validate) : Validate :=
  match marshal_additions validateResult with
  | None => v
  | Some data => with_cache (<[prefixTx ++ txId := data]> (v_cache v)) v
  end.
Definition HasTxValidateResult (txId : Hash) (v : Validate) : option (list Addition) :=
  match v_cache v !! (prefixTx ++ txId) with
  | None => None
  | Some data => if len data =? 0 then None else unmarshal_additions data
  end.
Definition AddUnitValidateResult (unitHash : Hash) (code : ValidationCode) (v : Validate) : Validate :=
  with_cache (<[prefixUnit ++ unitHash := [z2b code]]> (v_cache v)) v.
Definition AddHeaderValidateResult (unitHash : Hash) (code : ValidationCode) (v : Validate) : Validate :=
  with_cache (<[prefixHeader ++ unitHash := [z2b code]]> (v_cache v)) v.

(** [data[0]] *)
Definition cached_code (key : bytes) (v : Validate) : result ValidationCode (option ValidationCode) :=
  match v_cache v !! key with
  | None => Ok None
  | Some data => let? b := rget (index data 0) in Ok (Some (b2z b))
  end.
Definition HasUnitValidateResult (unitHash : Hash) (v : Validate) : result ValidationCode (option ValidationCode) := cached_code (prefixUnit ++ unitHash) v.
Definition HasHeaderValidateResult (unitHash : Hash) (v : Validate) : result ValidationCode (option ValidationCode) := cached_code (prefixHeader ++ unitHash) v.

(** ** Transactions *)

Definition VT (A : Type) : Type := ST Validate ValidationCode A.
Definition vcall {E A} (r : result E A) : VT A := fun v => (v, match r with Ok a => Ok a | _ => Panic end).

(** The outputs made by the unit on top of the ledger *)
Definition newUtxoQuery (oldUtxoQuery : option IUtxoQuery) (unitUtxo : gmap OutPoint Utxo) : IUtxoQuery :=
  mkUtxoQuery
    (fun o => match unitUtxo !! o with
              | Some utxo => Ok utxo
              | None => match oldUtxoQuery with Some q => GetUtxoEntry q o | None => Panic end
              end)
    (fun o => match oldUtxoQuery with Some q => GetStxoEntry q o | None => None end).

Definition validateTxAndCache (utxoquery : option IUtxoQuery) (tx : Transaction) (isFullTx : bool) : VT (list Addition * ValidationCode) :=
  let! txId := vcall (tx_Hash tx) in
  let! has := gets (HasTxValidateResult txId) in
  match has with
  | Some add => ret (add, TxValidationCode_VALID)
  | None =>
      let! (code, addition) := validateTx utxoquery (Some tx) isFullTx in
      if code =? TxValidationCode_VALID then modify (AddTxValidateResult txId addition) ;;; ret (addition, code)
      else ret ([], code)
  end.

(** The error is [NewValidateError code]. *)
Definition ValidateTx (utxoquery : option IUtxoQuery) (tx : Transaction) (isFullTx : bool) : VT (list Addition * ValidationCode) :=
  let! txId := vcall (tx_Hash tx) in
  let! has := gets (HasTxValidateResult txId) in
  match has with
  | Some add => ret (add, TxValidationCode_VALID)
  | None =>
      modify (with_checks true true true true) ;;;
      let! (code, addition) := validateTx utxoquery (Some tx) isFullTx in
      if code =? TxValidationCode_VALID then modify (AddTxValidateResult txId addition) ;;; ret (addition, code)
      else ret (addition, code)
  end.

Definition checkTxIsExist (tx : Transaction) : VT bool :=
  let! msgs := vcall (TxMessages (E := tx_error) tx) in
  if 2 <? len msgs then
    let! txHash := vcall (tx_Hash tx) in
    ret (match dagquery with None => false | Some dq => IsTransactionExist dq txHash end)
  else ret false.

(** ** Shares of the fees *)

(** Amounts of equal keys are added up in place. *)
Fixpoint arrange (out : gmap string Addition) (ads : list Addition) : gmap string Addition :=
  match ads with
  | [] => out
  | a :: ads' =>
      let key := Addition_Key a in
      arrange (match out !! key with
               | Some b => <[key := mkAddition (ad_Addr b) (uint64 (ad_Amount b + ad_Amount a)) (ad_Asset b)]> out
               | None => <[key := a]> out
               end) ads'
  end.
Definition arrangeAdditionFeeList (ads : list Addition) : list Addition :=
  if len ads <=? 0 then [] else map snd (map_to_list (arrange ∅ ads)).

(** [a.Addr.IsZero()] *)
Definition to_author (unitAuthor : Address) (a : Addition) : Addition :=
  if bytes_equal (ad_Addr a) zeroAddress then mkAddition unitAuthor (ad_Amount a) (ad_Asset a) else a.

(** ** The transactions of a unit *)

Section Transactions.
Variables (oldUtxoQuery : option IUtxoQuery) (unitAuthor : Address).
(** [spendOutpointMap] is keyed by pointers: where the outpoints of a transaction are. *)
Variable pointer : nat -> nat -> Z.

Fixpoint check_spent (q : IUtxoQuery) (txIndex i : nat) (spendOutpointMap : gset Z) (outpoints : list OutPoint) : VT (gset Z) :=
  match outpoints with
  | [] => ret spendOutpointMap
  | outpoint :: outpoints' =>
      let p := pointer txIndex i in
      if bool_decide (p ∈ spendOutpointMap) then throw TxValidationCode_INVALID_DOUBLE_SPEND
      else
        get oldUtxoQuery ;;;
        match GetStxoEntry q outpoint with
        | Some _ => throw TxValidationCode_INVALID_DOUBLE_SPEND
        | None => check_spent q txIndex (S i) ({[p]} ∪ spendOutpointMap) outpoints'
        end
  end.

(** [for txIndex, tx := range txs]: the shares of the fees *)
Fixpoint validate_txs (txIndex : nat) (unitUtxo : gmap OutPoint Utxo) (spendOutpointMap : gset Z) (ads : list Addition) (txs : list Transaction)
  : VT (list Addition) :=
  match txs with
  | [] => ret ads
  | tx :: txs' =>
      vcall (tx_Hash tx) ;;;
      let! known := checkTxIsExist tx in
      if known then throw TxValidationCode_DUPLICATE_TXID
      else
        match txIndex with
        | O => validate_txs 1 unitUtxo spendOutpointMap ads txs'
        | S _ =>
            let q := newUtxoQuery oldUtxoQuery unitUtxo in
            let! (txFeeAllocate, txCode) := validateTxAndCache (Some q) tx true in
            if negb (txCode =? TxValidationCode_VALID) then throw txCode
            else
              let! spends := vcall (GetSpendOutpoints env_keccakHash tx).2 in
              let! spendOutpointMap := check_spent q txIndex 0 spendOutpointMap spends in
              let! utxos := vcall (GetNewUtxos env_keccakHash tx).2 in
              validate_txs (S txIndex) (utxos ∪ unitUtxo) spendOutpointMap (ads ++ map (to_author unitAuthor) txFeeAllocate) txs'
        end
  end.

(** The code; the first transaction is the coinbase. *)
Definition validateTransactions (txs : list Transaction) (unitTime : Z) : VT unit :=
  let! ads := validate_txs 0 ∅ ∅ [] txs in
  match txs with
  | [] => ret tt
  | coinbase :: _ =>
      let out := arrangeAdditionFeeList (ads ++ [mkAddition unitAuthor GenerateUnitReward (Some PTNAsset)]) in
      if 1564675200 <? unitTime then lift (validateCoinbase coinbase out) else ret tt
  end.
End Transactions.

(** ** Headers *)

Definition ENABLE_TX_FEE_CHECK_TIME : Z := 1570870800.
Definition ENABLE_CONTRACT_SIGN_CHECK_TIME : Z := 1575129600.
Definition ENABLE_CONTRACT_DEVELOPER_CHECK_TIME : Z := 1577808000.
Definition ENABLE_CONTRACT_RWSET_CHECK_TIME : Z := 1582992000.
Definition MaximumExtraDataSize : Z := 32.
Definition UNIT_CREATION_DATE_INITIAL_UINT64 : Z := 1536451200.

Definition header_Hash (h : Header) : result tx_error Hash := (Header_Hash header_codec env_keccakHash h).2.

Definition validateUnitSignature (h : Header) : result ValidationCode unit :=
  let author := GetAuthors h in
  if Authentifier_Empty author then Err UNIT_STATE_INVALID_AUTHOR_SIGNATURE
  else
    match (HashWithoutAuthor header_codec env_keccakHash h).2 with
    | Ok hash =>
        match VerifyE (PubKey author) (au_Signature author) hash with
        | Panic => Panic
        | Ok true => Ok tt
        | _ => Err UNIT_STATE_INVALID_AUTHOR_SIGNATURE
        end
    | _ => Panic
    end.

(** [h.NumberU64()] is in the text of the log. *)
Definition validateUnitAuthor (h : Header) : result ValidationCode unit :=
  match statequery with
  | None => Ok tt
  | Some sq =>
      if negb (GetMediators sq (Header_Author h)) then
        let? _ := NumberU64 h in Err UNIT_STATE_INVALID_AUTHOR
      else Ok tt
  end.

Definition validateMediatorSchedule (h : Header) : result ValidationCode unit :=
  match propquery with
  | None => Ok tt
  | Some pq =>
      let ts := GetNewestUnitTimestamp pq gasToken in
      if negb (ts <? Timestamp h) then Err UNIT_STATE_INVALID_HEADER_TIME
      else
        let slotNum := GetSlotAtTime pq (Timestamp h) in
        if slotNum =? 0 then Err UNIT_STATE_INVALID_MEDIATOR_SCHEDULE
        else if negb (bytes_equal (GetScheduledMediator pq slotNum) (Header_Author h)) then Err UNIT_STATE_INVALID_MEDIATOR_SCHEDULE
        else Ok tt
  end.

(** The checks of a header alone.  [thisUnitIsNotTransmitted] is false, so that the signature is
    not checked. *)
Definition check_header (h : Header) : result ValidationCode unit :=
  if len (ParentHash h) =? 0 then Err UNIT_STATE_INVALID_HEADER
  else if MaximumExtraDataSize <? len (h_Extra h) then Err UNIT_STATE_INVALID_EXTRA_DATA
  else if Timestamp h <=? UNIT_CREATION_DATE_INITIAL_UINT64 then Err UNIT_STATE_INVALID_HEADER_TIME
  else match GetNumber h with
       | None => Err UNIT_STATE_INVALID_HEADER_NUMBER
       | Some _ =>
           let thisUnitIsNotTransmitted := false in
           if thisUnitIsNotTransmitted then validateUnitSignature h else Ok tt
       end.

Definition validateUnitBasic (unit_ : Unit) : result ValidationCode unit :=
  match UnitHeader unit_ with
  | None => Err UNIT_STATE_INVALID_HEADER
  | Some h =>
      let? _ := check_header h in
      if negb (bytes_equal (DeriveSha (Txs unit_)) (TxRoot h)) then Err UNIT_STATE_INVALID_HEADER_TXROOT else Ok tt
  end.

Definition validateHeaderExceptGroupSig (h : option Header) (enableMediatorSchedule : bool) : result ValidationCode unit :=
  match h with
  | None => Err UNIT_STATE_INVALID_HEADER
  | Some h =>
      let? _ := check_header h in
      let? _ := (if negb light then validateUnitAuthor h else Ok tt) in
      let? parent := rget (index (ParentHash h) 0) in
      match dagquery with
      | None => Ok tt
      | Some dq =>
          match GetHeaderByHash dq parent with
          | Panic => Panic
          | Err _ => Err UNIT_STATE_ORPHAN
          | Ok parentHeader =>
              let? pn := rget (GetNumber parentHeader) in
              let? n := rget (GetNumber h) in
              if negb (uint64 (ci_Index pn + 1) =? ci_Index n) then Err UNIT_STATE_INVALID_HEADER_NUMBER
              else if enableMediatorSchedule && negb light then validateMediatorSchedule h
              else Ok tt
          end
      end
  end.

(** The code of a check *)
Definition code_of {A} (r : result ValidationCode A) : result ValidationCode ValidationCode :=
  match r with Ok _ => Ok TxValidationCode_VALID | Err c => Ok c | Panic => Panic end.

(** The codes of a header with which the checks go on *)
Definition header_goes_on (code : ValidationCode) : bool :=
  (code =? TxValidationCode_VALID) || (code =? UNIT_STATE_AUTHOR_SIGNATURE_PASSED) || (code =? UNIT_STATE_ORPHAN).

Definition ValidateHeader (h : Header) : VT ValidationCode :=
  let! hash := vcall (header_Hash h) in
  fun v =>
    match HasHeaderValidateResult hash v with
    | Panic => (v, Panic)
    | Ok (Some code) => (v, Ok code)
    | _ =>
        match code_of (validateHeaderExceptGroupSig (Some h) false) with
        | Ok code =>
            if negb (header_goes_on code) then (v, Ok code)
            else (if code =? TxValidationCode_VALID then AddHeaderValidateResult hash code v else v, Ok TxValidationCode_VALID)
        | _ => (v, Panic)
        end
    end.

(** ** Units *)

(** [VALID] is a code like the others. *)
Definition validate_unit_txs (oldUtxoQuery : option IUtxoQuery) (pointer : nat -> nat -> Z) (unit_ : Unit) (h : Header) : VT unit :=
  if negb (bytes_equal (DeriveSha (Txs unit_)) (TxRoot h)) then throw UNIT_STATE_INVALID_HEADER_TXROOT
  else
    let! sq := get statequery in
    match GetMediator sq (Header_Author h) with
    | None => throw UNIT_STATE_INVALID_AUTHOR_SIGNATURE
    | Some reward =>
        let t := Timestamp h in
        modify (with_checks (ENABLE_TX_FEE_CHECK_TIME <? t) (ENABLE_CONTRACT_SIGN_CHECK_TIME <? t)
                  (ENABLE_CONTRACT_DEVELOPER_CHECK_TIME <? t) (ENABLE_CONTRACT_RWSET_CHECK_TIME <? t)) ;;;
        validateTransactions oldUtxoQuery reward pointer (Txs unit_) t
    end.

Definition ValidateUnitExceptGroupSig (oldUtxoQuery : option IUtxoQuery) (pointer : nat -> nat -> Z) (unit_ : Unit) : VT ValidationCode :=
  let! h := get (UnitHeader unit_) in
  let! unitHash := vcall (header_Hash h) in
  fun v =>
    match HasUnitValidateResult unitHash v with
    | Panic => (v, Panic)
    | Ok (Some code) => (v, Ok code)
    | _ =>
        match code_of (validateHeaderExceptGroupSig (Some h) (1570870800 <? Timestamp h)) with
        | Ok header_code =>
            if negb (header_goes_on header_code) then (v, Ok header_code)
            else
              match validate_unit_txs oldUtxoQuery pointer unit_ h v with
              | (v', Panic) => (v', Panic)
              | (v', r) =>
                  match code_of r with
                  | Ok code =>
                      if negb (code =? TxValidationCode_VALID) then (v', Ok code)
                      else if negb (header_code =? TxValidationCode_VALID) then (v', Ok header_code)
                      else (AddUnitValidateResult unitHash TxValidationCode_VALID v', Ok TxValidationCode_VALID)
                  | _ => (v', Panic)
                  end
              end
        | _ => (v, Panic)
        end
    end.

(** Passes everything. *)
Definition ValidateUnitGroupSign (h : Header) : result ValidationCode unit := Ok tt.
End Unit.
