(* ===== verification/ValUnitProps.v ===== *)
(** What a valid unit is: the transactions of a unit, its header, the cache of verdicts. *)

From Stdlib Require Import ZArith Lia.
From S2P Require Import Prelude Errors ScriptNum Stack Opcode Text Script Builder Address Standard Tx RlpModel AssetId Float64 SigHash SigCache Engine TokenApi TxFee Unit ValPayment ValPayProps ValSigned ValTx ValTxProps ValRules ValUnit.

Section Props.
Context `{Node}.

Lemma vcall_inv {E A} (r : result E A) v v' a : vcall r v = (v', Ok a) -> r = Ok a /\ v' = v.
Proof. unfold vcall. destruct r; intros Q; try done. by injection Q as <- <-. Qed.
Lemma vcall_ok {E A} (r : result E A) v a : r = Ok a -> vcall r v = (v, Ok a).
Proof. intros ->. done. Qed.

(** ** Transactions of a unit *)

Section Transactions.
Variables (q : IUtxoQuery) (unitAuthor : Address) (pointer : nat -> nat -> Z).
Hypothesis Distinct : forall i j i' j', pointer i j = pointer i' j' -> i = i' /\ j = j'.

(** Transactions accepted one after another: each is valid on the ledger with the outputs of those
    before it, and spends nothing that the ledger has as spent. *)
Inductive accepts : gmap OutPoint Utxo -> Validate -> list Transaction -> Validate -> list Addition -> Prop :=
| accepts_nil unitUtxo v : accepts unitUtxo v [] v []
| accepts_cons unitUtxo v v1 v2 tx txs h fees spends utxos ads :
    tx_Hash tx = Ok h -> checkTxIsExist tx v = (v, Ok false) ->
    validateTxAndCache (Some (newUtxoQuery (Some q) unitUtxo)) tx true v = (v1, Ok (fees, TxValidationCode_VALID)) ->
    (GetSpendOutpoints env_keccakHash tx).2 = Ok spends -> Forall (fun o => GetStxoEntry q o = None) spends ->
    (GetNewUtxos env_keccakHash tx).2 = Ok utxos ->
    accepts (utxos ∪ unitUtxo) v1 txs v2 ads ->
    accepts unitUtxo v (tx :: txs) v2 (map (to_author unitAuthor) fees ++ ads).

Lemma checkTxIsExist_state tx v v' b : checkTxIsExist tx v = (v', Ok b) -> v' = v.
Proof.
  unfold checkTxIsExist. intros E. apply bind_inv in E as (v1 & msgs & E1 & E). apply vcall_inv in E1 as [_ ->].
  destruct (2 <? len msgs); [|by injection E as <-]. apply bind_inv in E as (v1 & h & E1 & E). apply vcall_inv in E1 as [_ ->]. by injection E as <- _.
Qed.

(** Pointers of earlier transactions, and of this one before the place [i] *)
Definition older (txIndex i : nat) (s : gset Z) : Prop := forall p, p ∈ s -> exists k j, p = pointer k j /\ ((k < txIndex)%nat \/ k = txIndex /\ (j < i)%nat).

Lemma check_spent_spec unitUtxo txIndex : forall os i s v, older txIndex i s ->
  (forall v' s', check_spent (Some q) pointer (newUtxoQuery (Some q) unitUtxo) txIndex i s os v = (v', Ok s') ->
     v' = v /\ Forall (fun o => GetStxoEntry q o = None) os /\ older (S txIndex) 0 s') /\
  (Forall (fun o => GetStxoEntry q o = None) os ->
     exists s', check_spent (Some q) pointer (newUtxoQuery (Some q) unitUtxo) txIndex i s os v = (v, Ok s') /\ older (S txIndex) 0 s').
Proof.
  induction os as [|o os IH]; intros i s v Od; cbn [check_spent].
  { assert (O' : older (S txIndex) 0 s) by (intros p I; destruct (Od p I) as (k & j & -> & C); exists k, j; split; [done|lia]).
    split; [intros v' s' E; injection E as <- <-; split_and!; [done|constructor|done]|]. intros _. by exists s. }
  rewrite bool_decide_eq_false_2.
  2: { intros I. destruct (Od _ I) as (k & j & E & C). apply Distinct in E as [-> ->]. lia. }
  assert (Od' : older txIndex (S i) ({[pointer txIndex i]} ∪ s)).
  { intros p I. apply elem_of_union in I as [I|I]; [apply elem_of_singleton in I as ->; exists txIndex, i; split; [done|lia]|].
    destruct (Od p I) as (k & j & -> & C). exists k, j. split; [done|lia]. }
  destruct (IH (S i) _ v Od') as [S1 S2]. unfold bind, get, ret. cbn [newUtxoQuery GetStxoEntry]. split.
  - intros v' s' E. destruct (GetStxoEntry q o) eqn:G; [done|]. destruct (S1 _ _ E) as (-> & F & O). split_and!; [done|by constructor|done].
  - intros F. apply Forall_cons in F as [-> F]. by apply S2.
Qed.

Lemma validate_txs_spec : forall txs txIndex unitUtxo s v v' ads0 ads, older (S txIndex) 0 s ->
  validate_txs (Some q) unitAuthor pointer (S txIndex) unitUtxo s ads0 txs v = (v', Ok ads) <->
  exists ads1, ads = ads0 ++ ads1 /\ accepts unitUtxo v txs v' ads1.
Proof.
  induction txs as [|tx txs IH]; intros txIndex unitUtxo s v v' ads0 ads Od; cbn [validate_txs].
  { split.
    - intros E. injection E as <- <-. exists []. rewrite app_nil_r. split; [done|constructor].
    - intros (ads1 & -> & A). inversion A; subst. by rewrite app_nil_r. }
  split.
  - intros E. apply bind_inv in E as (v1 & h & E1 & E). apply vcall_inv in E1 as [Eh ->].
    apply bind_inv in E as (v1 & known & Ek & E). pose proof (checkTxIsExist_state _ _ _ _ Ek) as ->. destruct known; [done|]. cbv zeta in E.
    apply bind_inv in E as (v1 & [fees code] & Ev & E). destruct (Z.eqb_spec code TxValidationCode_VALID) as [->|]; [|done]. cbn [negb] in E.
    apply bind_inv in E as (v2 & spends & E2 & E). apply vcall_inv in E2 as [Es ->]. apply bind_inv in E as (v2 & s' & E2 & E).
    apply check_spent_spec in E2 as (-> & Fs & Od'); [|done]. apply bind_inv in E as (v2 & utxos & E2 & E). apply vcall_inv in E2 as [Eu ->].
    apply IH in E as (ads1 & -> & A); [|done]. exists (map (to_author unitAuthor) fees ++ ads1). rewrite app_assoc. split; [done|]. by econstructor.
  - intros (ads1 & -> & A). inversion A as [|? ? v1 ? ? ? h fees spends utxos ads2 Eh Ek Ev Es Fs Eu A']; subst. unfold bind at 1. rewrite (vcall_ok _ _ _ Eh).
    unfold bind at 1. rewrite Ek. cbv zeta. unfold bind at 1. rewrite Ev. rewrite Z.eqb_refl. cbn [negb]. unfold bind at 1. rewrite (vcall_ok _ _ _ Es).
    destruct (proj2 (check_spent_spec unitUtxo (S txIndex) spends 0 s v1 Od) Fs) as (s' & Ec & Od'). unfold bind at 1. rewrite Ec.
    unfold bind at 1. rewrite (vcall_ok _ _ _ Eu). apply IH; [done|]. exists ads2. by rewrite app_assoc.
Qed.
End Transactions.
End Props.

(** C5: which transactions make a valid unit.  When the outpoints of the transactions are objects of
    their own, as those of a unit that was received are, [validateTransactions] accepts exactly the
    lists whose transactions after the first are accepted one after another, each on the ledger
    with the outputs of those before it, and whose first is a valid coinbase for the shares of
    their fees and the reward of the unit.  The map of spent outpoints, which is keyed by pointers,
    does not matter. *)
Theorem validateTransactions_spec `{Node} (q : IUtxoQuery) (unitAuthor : Address) (pointer : nat -> nat -> Z) (coinbase : Transaction)
    (txs : list Transaction) (unitTime : Z) (v v' : Validate) :
  (forall i j i' j', pointer i j = pointer i' j' -> i = i' /\ j = j') ->
  validateTransactions (Some q) unitAuthor pointer (coinbase :: txs) unitTime v = (v', Ok tt) <->
  exists h ads, tx_Hash coinbase = Ok h /\ checkTxIsExist coinbase v = (v, Ok false) /\ accepts q unitAuthor ∅ v txs v' ads /\
    (1564675200 < unitTime ->
       validateCoinbase coinbase (arrangeAdditionFeeList (ads ++ [mkAddition unitAuthor GenerateUnitReward (Some PTNAsset)])) = Ok tt).
Proof.
  intros D. assert (O : older pointer 1 0 ∅) by (intros p I; by apply elem_of_empty in I).
  unfold validateTransactions. cbn [validate_txs]. split.
  - intros E. apply bind_inv in E as (v1 & ads & E1 & E). apply bind_inv in E1 as (v2 & h & E2 & E1). apply vcall_inv in E2 as [Eh ->].
    apply bind_inv in E1 as (v2 & known & Ek & E1). pose proof (checkTxIsExist_state _ _ _ _ Ek) as ->. destruct known; [done|].
    apply (validate_txs_spec q unitAuthor pointer D) in E1 as (ads1 & -> & A); [|done]. cbn [app] in E. exists h, ads1.
    destruct (Z.ltb_spec 1564675200 unitTime).
    + apply lift_inv in E as [E ->]. by split_and!.
    + injection E as <-. split_and!; try done. lia.
  - intros (h & ads & Eh & Ek & A & C). unfold bind at 1 2. rewrite (vcall_ok _ _ _ Eh). unfold bind at 1. rewrite Ek.
    rewrite (proj2 (validate_txs_spec q unitAuthor pointer D txs 0 ∅ ∅ v v' [] ads O) (ex_intro _ ads (conj eq_refl A))).
    destruct (Z.ltb_spec 1564675200 unitTime); [|done]. unfold lift. by rewrite C.
Qed.

(** ** Headers *)

(** Nobody has to sign a unit.  The checks of a header, and with them those of a unit whose
    verdict is not cached, give the same verdict when the signature of the author is replaced by
    anything else, nothing included: [validateUnitSignature] is never reached. *)
Theorem unit_signature_unchecked `{Node} (q : option IUtxoQuery) (pointer : nat -> nat -> Z) (h : Header) (txs : list Transaction) (sig : bytes)
    (x x' : Hash) (v : Validate) (enable : bool) :
  let h' := SetAuthor (mkAuthentifier (PubKey (GetAuthors h)) sig) h in
  header_Hash h = Ok x -> header_Hash h' = Ok x' -> HasUnitValidateResult x v = Ok None -> HasUnitValidateResult x' v = Ok None ->
  validateHeaderExceptGroupSig (Some h') enable = validateHeaderExceptGroupSig (Some h) enable /\
  (ValidateUnitExceptGroupSig q pointer (mkUnit (Some h') txs) v).2 = (ValidateUnitExceptGroupSig q pointer (mkUnit (Some h) txs) v).2.
Proof.
  intros h' E E' N N'. assert (Hd : forall e, validateHeaderExceptGroupSig (Some h') e = validateHeaderExceptGroupSig (Some h) e) by done. split; [apply Hd|].
  unfold ValidateUnitExceptGroupSig, bind, get, ret, vcall. cbn [UnitHeader]. rewrite E, E', N, N'. change (Timestamp h') with (Timestamp h). rewrite Hd.
  destruct (code_of _) as [hc| |]; [|done|done]. destruct (negb (header_goes_on hc)); [done|].
  change (validate_unit_txs q pointer (mkUnit (Some h') txs) h' v) with (validate_unit_txs q pointer (mkUnit (Some h) txs) h v).
  destruct (validate_unit_txs q pointer (mkUnit (Some h) txs) h v) as [v' r]. destruct r as [u|c|]; cbn [code_of]; [| |done].
  - change (TxValidationCode_VALID =? TxValidationCode_VALID) with true. cbn [negb]. by destruct (negb (hc =? _)).
  - destruct (negb (c =? _)); [done|]. by destruct (negb (hc =? _)).
Qed.

(** ** The cache of verdicts *)

(** The verdict on an incomplete transaction is taken for that on the complete one.  Once
    [ValidateTx] has accepted a transaction as incomplete, and its shares of the fee survive JSON,
    the checks of units accept it as complete without looking at it, whatever the ledger is by
    then: the key of the cache has neither the mode nor anything of the state. *)
Theorem cached_verdict_reused `{Node} (q q' : option IUtxoQuery) (tx : Transaction) (fees : list Addition) (data : bytes) (v v' : Validate) :
  marshal_additions fees = Some data -> data <> [] -> unmarshal_additions data = Some fees ->
  ValidateTx q tx false v = (v', Ok (fees, TxValidationCode_VALID)) ->
  validateTxAndCache q' tx true v' = (v', Ok (fees, TxValidationCode_VALID)).
Proof.
  intros M Nn U E. unfold ValidateTx in E. apply bind_inv in E as (v1 & txId & E1 & E). apply vcall_inv in E1 as [Eh ->].
  apply bind_inv in E as (v1 & has & E1 & E). injection E1 as <- <-.
  assert (K : HasTxValidateResult txId v' = Some fees).
  { destruct (HasTxValidateResult txId v) as [add|] eqn:Hs; [injection E as <- <-; exact Hs|].
    apply bind_inv in E as (v1 & [] & _ & E). apply bind_inv in E as (v2 & [code addition] & _ & E). destruct (Z.eqb_spec code TxValidationCode_VALID).
    - apply bind_inv in E as (v3 & [] & E1 & E). injection E as <- <- _. injection E1 as <-. unfold AddTxValidateResult, HasTxValidateResult.
      rewrite M. cbn [v_cache with_cache]. rewrite lookup_insert_eq. destruct (Z.eqb_spec (len data) 0) as [Z|]; [by apply len_zero in Z|done].
    - injection E as <- <- ?. done. }
  unfold validateTxAndCache, bind at 1. rewrite (vcall_ok _ _ _ Eh). unfold bind, gets. by rewrite K.
Qed.

(** ** Shares of the fees *)

(** The amounts under a key *)
Definition due_to (key : string) (ads : list Addition) : list Addition := List.filter (fun a => String.eqb (Addition_Key a) key) ads.

Lemma arrange_spec : forall ads out key, (forall k b, out !! k = Some b -> Addition_Key b = k) ->
  (forall k b, arrange out ads !! k = Some b -> Addition_Key b = k) /\
  match arrange out ads !! key with
  | Some b => uint64 (ad_Amount b) = uint64 (match out !! key with Some b0 => ad_Amount b0 | None => 0 end + total (due_to key ads))
  | None => out !! key = None /\ due_to key ads = []
  end.
Proof.
  induction ads as [|a ads IH]; intros out key K; cbn [arrange].
  { split; [done|]. change (total (due_to key [])) with 0. destruct (out !! key); [by rewrite Z.add_0_r|done]. }
  set (out' := match out !! Addition_Key a with Some b => _ | None => _ end).
  assert (K' : forall k b, out' !! k = Some b -> Addition_Key b = k).
  { intros k b. subst out'. destruct (out !! Addition_Key a) as [b0|] eqn:L; (destruct (decide (k = Addition_Key a)) as [->|N];
      [rewrite lookup_insert_eq; intros Q; injection Q as <-|rewrite lookup_insert_ne by done; apply K]); [|done].
    apply K in L. unfold Addition_Key in *. exact L. }
  destruct (IH out' key K') as [KK S]. split; [done|]. cbn [due_to List.filter]. fold (due_to key ads).
  destruct (String.eqb_spec (Addition_Key a) key) as [Ek|Nk].
  - assert (L' : exists b, out' !! key = Some b /\ uint64 (ad_Amount b) = uint64 (match out !! key with Some b0 => ad_Amount b0 | None => 0 end + ad_Amount a)).
    { subst out'. rewrite Ek. destruct (out !! key) as [b0|]; rewrite lookup_insert_eq; eexists; (split; [done|]); [|by rewrite Z.add_0_l].
      cbn [ad_Amount]. unfold uint64, wrapU. by rewrite Zmod_mod. }
    destruct L' as (b & L' & U). rewrite L' in S. destruct (arrange out' ads !! key) as [b'|]; [|by destruct S].
    rewrite S. change (total (a :: due_to key ads)) with (ad_Amount a + total (due_to key ads)). unfold uint64, wrapU in *.
    rewrite Zplus_mod, U, <- Zplus_mod. f_equal. lia.
  - assert (L' : out' !! key = out !! key) by (subst out'; destruct (out !! Addition_Key a); by rewrite lookup_insert_ne). by rewrite L' in S.
Qed.

Lemma arrange_keys : forall ads out key, is_Some (arrange out ads !! key) -> out !! key = None -> due_to key ads <> [].
Proof.
  induction ads as [|a ads IH]; intros out key [b L] N; cbn [arrange] in L; [congruence|].
  cbn [due_to List.filter]. destruct (String.eqb_spec (Addition_Key a) key) as [Ek|Nk]; [done|]. eapply IH; [exists b; exact L|].
  destruct (out !! Addition_Key a); by rewrite lookup_insert_ne.
Qed.

(** The shares of the fees are added up for each address and asset.  The list has one entry for
    each key among the shares, and its amount is the sum of theirs modulo 2^64. *)
Theorem arrangeAdditionFeeList_spec (ads : list Addition) :
  NoDup (map Addition_Key (arrangeAdditionFeeList ads)) /\
  (forall a, a ∈ ads -> exists b, b ∈ arrangeAdditionFeeList ads /\ Addition_Key b = Addition_Key a) /\
  (forall b, b ∈ arrangeAdditionFeeList ads -> due_to (Addition_Key b) ads <> [] /\ uint64 (ad_Amount b) = uint64 (total (due_to (Addition_Key b) ads))).
Proof.
  unfold arrangeAdditionFeeList. destruct (Z.leb_spec (len ads) 0) as [L|L].
  { assert (ads = []) as -> by (apply len_zero; pose proof (len_nonneg ads); lia). split; [constructor|]. split; intros x I; by apply elem_of_nil in I. }
  assert (K0 : forall k (b : Addition), (∅ : gmap string Addition) !! k = Some b -> Addition_Key b = k) by (intros k b Q; by rewrite lookup_empty in Q).
  assert (K : forall k b, arrange ∅ ads !! k = Some b -> Addition_Key b = k) by apply (proj1 (arrange_spec ads ∅ "" K0)). split_and!.
  - assert (E : map Addition_Key (map snd (map_to_list (arrange ∅ ads))) = map fst (map_to_list (arrange ∅ ads))).
    { rewrite map_map. apply map_ext_in. intros [k b] I. apply list_elem_of_In, elem_of_map_to_list in I. by apply K. }
    rewrite E. apply NoDup_fst_map_to_list.
  - intros a I. pose proof (proj2 (arrange_spec ads ∅ (Addition_Key a) K0)) as S. destruct (arrange ∅ ads !! Addition_Key a) as [b|] eqn:La.
    + exists b. split; [|by apply K]. apply list_elem_of_fmap. exists (Addition_Key a, b). split; [done|]. by apply elem_of_map_to_list.
    + destruct S as [_ S]. exfalso. assert (Ia : In a (due_to (Addition_Key a) ads)).
      { apply filter_In. split; [by apply list_elem_of_In|]. by rewrite String.eqb_refl. } by rewrite S in Ia.
  - intros b I. apply list_elem_of_fmap in I as ([k b'] & -> & I). apply elem_of_map_to_list in I. cbn [snd].
    pose proof (K _ _ I) as Ek. rewrite Ek. pose proof (proj2 (arrange_spec ads ∅ k K0)) as S. rewrite I, lookup_empty in S. rewrite Z.add_0_l in S. split; [|done].
    apply (arrange_keys ads ∅ k); [by exists b'|apply lookup_empty].
Qed.

(** ** Samples *)

(** Two payments of the same output, and a coinbase that pays the producer of the unit the reward
    and the two fees *)
Definition miner : Address := NewAddress (take 20 ([x0a; x0b] ++ replicate 20 x00)) PublicKeyHash.
Definition pay_again : PaymentPayload := mkPayment [mkInput [] [] (Some (point x11))] [mkOutput 6 [x76] (Some PTNAsset)] 0.
Definition reward_payment : PaymentPayload :=
  mkPayment [] [mkOutput 100000005 ([x76; xa9; x14] ++ take 20 ([x0a; x0b] ++ replicate 20 x00) ++ [x88; xac]) (Some PTNAsset)] 0.
Definition first_tx : Transaction := NewTransaction [as_message (pay_from x11)].
Definition second_tx : Transaction := NewTransaction [as_message pay_again].
Definition reward_tx : Transaction := NewTransaction [as_message reward_payment].

Definition unit_state : IStateQuery :=
  mkStateQuery (fun _ => false) (fun _ => Err "none"%string) (fun _ _ => Err "none"%string) (fun _ _ => Ok ∅) (fun _ => true) (fun _ => Some miner) []
    (fun _ => Err "none"%string) (fun a => a) (fun _ => false).
Definition unit_node : Node :=
  make_node (table_env (table_lib [pay_from x11; pay_again; reward_payment] [temp [(APP_PAYMENT, [])]; temp [(APP_PAYMENT, [x01])]; temp [(APP_PAYMENT, [x01; x01])]]))
    unit_state [].
Definition unit_header : Header := NewHeader [replicate 32 x01] zeroHash [x0a; x0b] [] [] [] [] PTNCOIN 7 1600000000.
Definition sample_unit : Unit := mkUnit (Some unit_header) [reward_tx; first_tx; second_tx].
Definition place (i j : nat) : Z := Z.pos (encode (i, j)).

Lemma sample_unit_valid : (ValidateUnitExceptGroupSig (H := unit_node) (Some open_query) place sample_unit NewValidate).2 = Ok TxValidationCode_VALID.
Proof. vm_compute. reflexivity. Qed.

Lemma place_distinct i j i' j' : place i j = place i' j' -> i = i' /\ j = j'.
Proof. unfold place. intros E. injection E as E. apply encode_inj in E. by injection E as -> ->. Qed.

(** A unit can spend an output twice.  There is a unit of a coinbase and two different
    transactions that spend the same output of the ledger, and [ValidateUnitExceptGroupSig] finds
    it VALID: the outputs spent by the unit are looked up by the pointers of the outpoints, which
    are never the same. *)
Theorem unit_double_spend :
  exists (N : Node) (q : IUtxoQuery) (pointer : nat -> nat -> Z) (h : Header) (coinbase t1 t2 : Transaction) (o : OutPoint) (os1 os2 : list OutPoint),
    (forall i j i' j', pointer i j = pointer i' j' -> i = i' /\ j = j') /\ txdata t1 <> txdata t2 /\
    (GetSpendOutpoints env_keccakHash t1).2 = Ok os1 /\ (GetSpendOutpoints env_keccakHash t2).2 = Ok os2 /\ o ∈ os1 /\ o ∈ os2 /\ IsSelfHash (TxHash o) = false /\
    (ValidateUnitExceptGroupSig (Some q) pointer (mkUnit (Some h) [coinbase; t1; t2]) NewValidate).2 = Ok TxValidationCode_VALID.
Proof.
  exists unit_node, open_query, place, unit_header, reward_tx, first_tx, second_tx, (point x11), [point x11], [point x11].
  split; [exact place_distinct|]. split; [discriminate|]. split; [reflexivity|]. split; [reflexivity|]. split; [left|]. split; [left|]. split; [reflexivity|].
  exact sample_unit_valid.
Qed.

Lemma validateTransactions_spec_witness : exists v' h ads,
  validateTransactions (H := unit_node) (Some open_query) miner place [reward_tx; first_tx; second_tx] 1600000000 NewValidate = (v', Ok tt) /\
  tx_Hash (H := unit_node) reward_tx = Ok h /\ accepts (H := unit_node) open_query miner ∅ NewValidate [first_tx; second_tx] v' ads.
Proof.
  assert (R : (validateTransactions (H := unit_node) (Some open_query) miner place [reward_tx; first_tx; second_tx] 1600000000 NewValidate).2 = Ok tt)
    by (vm_compute; reflexivity).
  destruct (validateTransactions (H := unit_node) (Some open_query) miner place [reward_tx; first_tx; second_tx] 1600000000 NewValidate) as [v' r] eqn:E.
  cbn [snd] in R. subst r.
  destruct (proj1 (validateTransactions_spec (H := unit_node) open_query miner place reward_tx [first_tx; second_tx] 1600000000 NewValidate v' place_distinct) E)
    as (h & ads & Eh & _ & A & _).
  exists v', h, ads. split; [reflexivity|]. split; [exact Eh|exact A].
Defined.

Lemma unit_signature_unchecked_witness :
  (ValidateUnitExceptGroupSig (H := unit_node) (Some open_query) place
     (mkUnit (Some (SetAuthor (mkAuthentifier [x0a; x0b] [x01; x02]) unit_header)) [reward_tx; first_tx; second_tx]) NewValidate).2 =
  Ok TxValidationCode_VALID.
Proof.
  rewrite <- sample_unit_valid.
  apply (unit_signature_unchecked (H := unit_node) (Some open_query) place unit_header [reward_tx; first_tx; second_tx] [x01; x02]
    (take 32 (zeroHash ++ replicate 32 x01)) (take 32 (zeroHash ++ replicate 32 x01)) NewValidate true); reflexivity.
Defined.

Lemma cached_verdict_reused_witness : exists v' fees,
  ValidateTx (H := table_node) (Some open_query) unsigned_result false NewValidate = (v', Ok (fees, TxValidationCode_VALID)) /\
  validateTxAndCache (H := table_node) None unsigned_result true v' = (v', Ok (fees, TxValidationCode_VALID)) /\
  (validateTxAndCache (H := table_node) (Some open_query) unsigned_result true NewValidate).2 = Ok ([], TxValidationCode_INVALID_CONTRACT_SIGN).
Proof.
  assert (R : (ValidateTx (H := table_node) (Some open_query) unsigned_result false NewValidate).2 = Ok ([mkAddition zeroAddress 2 (Some PTNAsset)], TxValidationCode_VALID))
    by (vm_compute; reflexivity).
  destruct (ValidateTx (H := table_node) (Some open_query) unsigned_result false NewValidate) as [v' r] eqn:E. cbn [snd] in R. subst r.
  exists v', [mkAddition zeroAddress 2 (Some PTNAsset)]. split; [reflexivity|]. split; [|vm_compute; reflexivity].
  apply (cached_verdict_reused (H := table_node) (Some open_query) None unsigned_result _ [x5b] NewValidate v' eq_refl); [discriminate|reflexivity|exact E].
Defined.
