(* ===== verification/HeapSort.v ===== *)
(** * The heap and partial sorts of the mediator election

    src/common/sort (heap_sort.go, partial_sort.go): sorting through Go's
    [sort.Interface].  The collection is a slice of elements with the [Less] and
    [Swap] methods of its type; an index outside the slice panics.  Indexes are
    [nat]: every caller passes non-negative ones.  The theorems hold for a [Less]
    that is a strict weak order ([LessOrder]), which the vote tallies of Produce.v
    and Go's own orders are. *)

From S2P Require Import Prelude.
From Stdlib Require Import ZArith Lia Bool Sorting.Sorted.
Local Open Scope nat_scope.

Module Heap.

(** The contract of [sort.Interface]'s [Less]: no two elements precede each other, and "does not
    precede" is transitive. *)
Class LessOrder {A : Type} (less : A -> A -> bool) : Prop := {
  less_asym : forall a b, less a b = true -> less b a = false;
  less_negtrans : forall a b c, less b a = false -> less c b = false -> less c a = false }.

(** [b] does not precede [a]: [a] may stand before [b] in a sorted slice. *)
Definition le_of {A : Type} (less : A -> A -> bool) (a b : A) : Prop := less b a = false.

Section Sort.
Context {A : Type} {E : Type} (less : A -> A -> bool).

(** ** The [sort.Interface] of a slice *)

Definition Len : ST (list A) E nat := gets length.
Definition Less (i j : nat) : ST (list A) E bool :=
  let! l := gets id in let! a := get (l !! i) in let! b := get (l !! j) in ret (less a b).
Definition Swap (i j : nat) : ST (list A) E unit :=
  let! l := gets id in let! a := get (l !! i) in let! b := get (l !! j) in modify (fun l => <[i := b]> (<[j := a]> l)).

(** ** heap_sort.go *)

(** The loop of siftDown: the root moves down, so [hi] turns are enough. *)
Fixpoint sift_loop (turns root hi first : nat) : ST (list A) E unit :=
  match turns with
  | O => ret tt
  | S turns =>
      let child := 2 * root + 1 in
      if hi <=? child then ret tt else
      let! next := if child + 1 <? hi then Less (first + child) (first + child + 1) else ret false in
      let child := if next : bool then child + 1 else child in
      let! below := Less (first + root) (first + child) in
      if negb below then ret tt else
      Swap (first + root) (first + child) ;;; sift_loop turns child hi first
  end.
Definition siftDown (lo hi first : nat) : ST (list A) E unit := sift_loop hi lo hi first.

(** [for i := n - 1; i >= 0; i--] *)
Fixpoint downto (n : nat) (body : nat -> ST (list A) E unit) : ST (list A) E unit :=
  match n with
  | O => ret tt
  | S i => body i ;;; downto i body
  end.

(** Build a heap with the greatest element at the top: [for i := (hi - 1) / 2; i >= 0; i--]; Go's
    [(0 - 1) / 2] is 0, as here. *)
Definition makeHeap (a b : nat) : ST (list A) E unit :=
  let first := a in
  let hi := b - a in
  downto (S ((hi - 1) / 2)) (fun i => siftDown i hi first).

(** Pop elements, largest first, into the end of the data. *)
Definition heapsort (a b : nat) : ST (list A) E unit :=
  let first := a in
  let hi := b - a in
  downto hi (fun i => Swap first (first + i) ;;; siftDown first i first).

Definition heapSort (a b : nat) : ST (list A) E unit := makeHeap a b ;;; heapsort a b.
Definition HeapSort : ST (list A) E unit := let! n := Len in heapSort 0 n.

(** ** partial_sort.go *)

(** [for i := m; i < len; i++]: an element smaller than the largest of the heap takes its place. *)
Fixpoint select_loop (turns i m : nat) : ST (list A) E unit :=
  match turns with
  | O => ret tt
  | S turns =>
      let! smaller := Less i 0 in
      (if smaller : bool then Swap i 0 ;;; siftDown 0 m 0 else ret tt) ;;;
      select_loop turns (S i) m
  end.

Definition PartialSort (m : nat) : ST (list A) E unit :=
  let! n := Len in
  makeHeap 0 m ;;; select_loop (n - m) m m ;;; heapsort 0 m.

(** [for i := mid; i > 0; i--] and [for i := m; i < n; i++] of IsPartialSorted. *)
Fixpoint descending (i : nat) : ST (list A) E bool :=
  match i with
  | O => ret true
  | S i' => let! x := Less i i' in if x : bool then ret false else descending i'
  end.
Fixpoint none_below (turns i mid : nat) : ST (list A) E bool :=
  match turns with
  | O => ret true
  | S turns => let! x := Less i mid in if x : bool then ret false else none_below turns (S i) mid
  end.
Definition IsPartialSorted (m : nat) : ST (list A) E bool :=
  match m with
  | O => let! n := Len in if n =? 0 then ret true else panic (* data.Less(0, -1) *)
  | S mid =>
      let! ok := descending mid in
      if negb ok then ret false else
      let! n := Len in none_below (n - m) m mid
  end.

End Sort.

(** ** Correctness *)

Section Correct.
Context {A : Type} {E : Type} `{Inhabited A} (less : A -> A -> bool) `{!LessOrder less}.
Local Abbreviation le := (le_of less).
Implicit Types (l : list A) (i j lo hi : nat).

Lemma le_refl a : le a a.
Proof. unfold le_of. destruct (less a a) eqn:Ha; [|done]. by rewrite (less_asym _ _ Ha) in Ha. Qed.
Lemma le_trans a b c : le a b -> le b c -> le a c.
Proof. apply less_negtrans. Qed.
Lemma less_le a b : less a b = true -> le a b.
Proof. apply less_asym. Qed.

(** The elements of [a, b) are rearranged among themselves. *)
Record shuffled (a b : nat) l l' : Prop := mkShuffled {
  sh_perm : l' ≡ₚ l;
  sh_out : forall i, i < a \/ b <= i -> l' !!! i = l !!! i;
  sh_in : forall i, a <= i < b -> exists j, a <= j < b /\ l' !!! i = l !!! j }.

Lemma shuffled_refl a b l : shuffled a b l l.
Proof. split; eauto. Qed.
Lemma shuffled_trans a b l1 l2 l3 : shuffled a b l1 l2 -> shuffled a b l2 l3 -> shuffled a b l1 l3.
Proof.
  intros [P1 O1 I1] [P2 O2 I2]. split.
  - by rewrite P2.
  - intros i Hi. by rewrite O2, O1.
  - intros i Hi. destruct (I2 i Hi) as (j & Hj & ->). by apply I1.
Qed.
Lemma shuffled_wider a b c d l l' : c <= a -> b <= d -> shuffled a b l l' -> shuffled c d l l'.
Proof.
  intros Ha Hb [P O I]. split; [done|intros i Hi; apply O; lia|].
  intros i Hi. destruct (decide (a <= i < b)) as [Hin|Hout].
  - destruct (I i Hin) as (j & Hj & Heq). exists j. split; [lia|done].
  - exists i. split; [done|]. apply O. lia.
Qed.
Lemma shuffled_length a b l l' : shuffled a b l l' -> length l' = length l.
Proof. intros [P _ _]. by rewrite P. Qed.
(** What holds of every element of the range still does. *)
Lemma shuffled_all a b l l' (P : A -> Prop) :
  shuffled a b l l' -> (forall i, a <= i < b -> P (l !!! i)) -> forall i, a <= i < b -> P (l' !!! i).
Proof. intros [_ _ I] HP i Hi. destruct (I i Hi) as (j & Hj & ->). by apply HP. Qed.

Definition swap l i j : list A := <[i := l !!! j]> (<[j := l !!! i]> l).

Lemma lookup_at l i : i < length l -> l !! i = Some (l !!! i).
Proof. apply list_lookup_lookup_total_lt. Qed.

Lemma swap_at l i j k : i < length l -> j < length l ->
  swap l i j !!! k = if decide (k = i) then l !!! j else if decide (k = j) then l !!! i else l !!! k.
Proof.
  intros Hi Hj. unfold swap. destruct (decide (k = i)) as [->|Hk].
  - by rewrite list_lookup_total_insert_eq; [|rewrite length_insert].
  - rewrite list_lookup_total_insert_ne by done. destruct (decide (k = j)) as [->|Hk'].
    + by rewrite list_lookup_total_insert_eq.
    + by rewrite list_lookup_total_insert_ne.
Qed.

Lemma swap_shuffled a b l i j : a <= i < b -> a <= j < b -> b <= length l -> shuffled a b l (swap l i j).
Proof.
  intros Hi Hj Hb. split.
  - apply Permutation_insert_swap; apply lookup_at; lia.
  - intros k Hk. rewrite swap_at by lia. repeat case_decide; try lia; done.
  - intros k Hk. rewrite swap_at by lia. repeat case_decide; eauto.
Qed.

Lemma Less_ok l i j : i < length l -> j < length l -> @Less A E less i j l = (l, Ok (less (l !!! i) (l !!! j))).
Proof.
  intros Hi Hj. unfold Less, bind, gets, get, ret, id. by rewrite (lookup_at l i), (lookup_at l j).
Qed.
Lemma Swap_ok l i j : i < length l -> j < length l -> @Swap A E i j l = (swap l i j, Ok tt).
Proof.
  intros Hi Hj. unfold Swap, bind, gets, get, ret, id, modify. by rewrite (lookup_at l i), (lookup_at l j).
Qed.

Definition child_of (p c : nat) : Prop := c = 2 * p + 1 \/ c = 2 * p + 2.

(** The subtrees rooted at [k] and after are heaps of [0, hi). *)
Definition heap_from (k hi : nat) l : Prop := forall p c, child_of p c -> k <= p -> c < hi -> le (l !!! c) (l !!! p).

(** While an element sinks, only its own children may exceed their parent, and they do not exceed
    their grandparent. *)
Definition sinking (lo hi root : nat) l : Prop :=
  (forall p c, child_of p c -> lo <= p -> p <> root -> c < hi -> le (l !!! c) (l !!! p)) /\
  (forall g c, child_of g root -> child_of root c -> lo <= g -> c < hi -> le (l !!! c) (l !!! g)).

(** The greater child of the root, as the loop picks it. *)
Lemma greater_child l root hi : 2 * root + 1 < hi -> hi <= length l ->
  exists ch, child_of root ch /\ ch < hi /\ (forall c, child_of root c -> c < hi -> le (l !!! c) (l !!! ch)) /\
    forall k : bool -> ST (list A) E unit,
      (let! next := if 2 * root + 1 + 1 <? hi then Less less (2 * root + 1) (2 * root + 1 + 1) else ret false in k next) l =
      k (negb (ch =? 2 * root + 1)) l.
Proof.
  intros Hc Hhi. destruct (2 * root + 1 + 1 <? hi) eqn:Hr; [apply Nat.ltb_lt in Hr|apply Nat.ltb_ge in Hr].
  - destruct (less (l !!! (2 * root + 1)) (l !!! (2 * root + 1 + 1))) eqn:Hl.
    + exists (2 * root + 2). split; [by right|]. split; [lia|]. split.
      * intros c [->| ->] _; [|apply le_refl]. replace (2 * root + 2) with (2 * root + 1 + 1) by lia. by apply less_le.
      * intros k. erewrite bind_ok by (apply Less_ok; lia). rewrite Hl. f_equal. symmetry.
        apply negb_true_iff, Nat.eqb_neq. lia.
    + exists (2 * root + 1). split; [by left|]. split; [lia|]. split.
      * intros c [->| ->] _; [apply le_refl|]. by replace (2 * root + 2) with (2 * root + 1 + 1) by lia.
      * intros k. erewrite bind_ok by (apply Less_ok; lia). by rewrite Hl, Nat.eqb_refl.
  - exists (2 * root + 1). split; [by left|]. split; [lia|]. split.
    + intros c [->| ->] Hlt; [apply le_refl|lia].
    + intros k. by rewrite Nat.eqb_refl.
Qed.

Lemma sinking_swap lo hi root ch l :
  sinking lo hi root l -> child_of root ch -> ch < hi -> hi <= length l -> lo <= root ->
  (forall c, child_of root c -> c < hi -> le (l !!! c) (l !!! ch)) -> less (l !!! root) (l !!! ch) = true ->
  sinking lo hi ch (swap l root ch).
Proof.
  intros [H1 H2] Hch Hlt Hlen Hlo Hmax Hless. unfold sinking, child_of in *. split.
  - intros p c Hc Hp Hne Hc'. rewrite !swap_at by lia. repeat case_decide; subst; try lia.
    all: first [by apply H2 | by apply less_le | by apply Hmax | by apply H1 | idtac].
  - intros g c Hg Hc Hg' Hc'. assert (g = root) as -> by lia. rewrite !swap_at by lia. repeat case_decide; try lia.
    apply H1; auto; lia.
Qed.

Lemma sift_loop_spec turns : forall root lo hi l, hi <= length l -> lo <= root -> hi <= turns + root -> sinking lo hi root l ->
  exists l', @sift_loop A E less turns root hi 0 l = (l', Ok tt) /\ shuffled lo hi l l' /\ heap_from lo hi l'.
Proof.
  induction turns as [|turns IH]; intros root lo hi l Hlen Hlo Hturns Hs; simpl.
  - exists l. repeat split; eauto. intros p c Hc Hp Hlt. apply (proj1 Hs); unfold child_of in *; auto; lia.
  - destruct (hi <=? root + (root + 0) + 1) eqn:Hleaf; [apply Nat.leb_le in Hleaf|apply Nat.leb_gt in Hleaf].
    { exists l. repeat split; eauto. intros p c Hc Hp Hlt. apply (proj1 Hs); auto. unfold child_of in *. lia. }
    destruct (greater_child l root hi) as (ch & Hch & Hlt & Hmax & Hk); [lia|done|]. simpl in Hk. rewrite Hk.
    assert ((if negb (ch =? root + (root + 0) + 1) then root + (root + 0) + 1 + 1 else root + (root + 0) + 1) = ch) as ->.
    { unfold child_of in Hch. destruct (Nat.eqb_spec ch (root + (root + 0) + 1)); simpl; lia. }
    erewrite bind_ok by (apply Less_ok; unfold child_of in Hch; lia).
    destruct (less (l !!! root) (l !!! ch)) eqn:Hb; simpl.
    + erewrite bind_ok by (apply Swap_ok; unfold child_of in Hch; lia).
      destruct (IH ch lo hi (swap l root ch)) as (l' & Hl' & Hsh & Hheap).
      * unfold swap. by rewrite !length_insert.
      * unfold child_of in Hch. lia.
      * unfold child_of in Hch. lia.
      * by apply sinking_swap.
      * exists l'. split; [done|]. split; [|done]. eapply shuffled_trans; [|done].
        apply swap_shuffled; unfold child_of in Hch; lia.
    + exists l. repeat split; eauto. intros p c Hc Hp Hlt'. destruct (decide (p = root)) as [->|Hne].
      * eapply le_trans; [by apply Hmax|done].
      * by apply (proj1 Hs).
Qed.

(** siftDown restores the heap of [0, hi) when only its root [lo] may be out of place. *)
Lemma siftDown_spec lo hi l : hi <= length l -> heap_from (S lo) hi l ->
  exists l', @siftDown A E less lo hi 0 l = (l', Ok tt) /\ shuffled lo hi l l' /\ heap_from lo hi l'.
Proof.
  intros Hlen Hh. apply sift_loop_spec; [done|lia|lia|]. split.
  - intros p c Hc Hp Hne Hlt. apply Hh; auto. lia.
  - intros g c Hg Hc Hlo. unfold child_of in *. lia.
Qed.

(** An invariant of a loop that counts down. *)
Lemma downto_inv (I : nat -> list A -> Prop) (body : nat -> ST (list A) E unit) n : forall l,
  (forall i l, i < n -> I (S i) l -> exists l', body i l = (l', Ok tt) /\ I i l') -> I n l ->
  exists l', downto n body l = (l', Ok tt) /\ I 0 l'.
Proof.
  induction n as [|n IH]; intros l Hstep Hn; simpl; [eauto|].
  destruct (Hstep n l) as (l1 & Hb & H1); [lia|done|]. erewrite bind_ok by done.
  apply IH; [|done]. intros i l2 Hi. apply Hstep. lia.
Qed.

Lemma makeHeap_spec m l : m <= length l ->
  exists l', @makeHeap A E less 0 m l = (l', Ok tt) /\ shuffled 0 m l l' /\ heap_from 0 m l'.
Proof.
  intros Hm. unfold makeHeap. rewrite Nat.sub_0_r.
  apply (downto_inv (fun i l' => shuffled 0 m l l' /\ heap_from i m l')).
  - intros i l1 Hi [Hs Hh]. destruct (siftDown_spec i m l1) as (l2 & Hl2 & Hs2 & Hh2); [|done|].
    + by rewrite (shuffled_length _ _ _ _ Hs).
    + exists l2. split; [done|]. split; [|done]. eapply shuffled_trans; [done|]. eapply shuffled_wider; [| |done]; lia.
  - split; [apply shuffled_refl|]. intros p c Hc Hp Hlt. unfold child_of in Hc. exfalso.
    assert (p < S ((m - 1) / 2)); [|lia]. apply Nat.lt_succ_r, Nat.div_le_lower_bound; lia.
Qed.

(** The top of a heap is its greatest element. *)
Lemma heap_root hi l : heap_from 0 hi l -> forall i, i < hi -> le (l !!! i) (l !!! 0).
Proof.
  intros Hh i. induction (lt_wf i) as [i _ IH]. intros Hi. destruct i as [|i]; [apply le_refl|].
  assert (exists p, child_of p (S i) /\ p < S i) as (p & Hp & Hlt).
  { exists (i / 2). unfold child_of. pose proof (Nat.div_mod i 2). pose proof (Nat.mod_upper_bound i 2). lia. }
  eapply le_trans; [apply (Hh p); [done|lia|done]|]. apply IH; lia.
Qed.

(** Taking the top out of a heap leaves only its new top out of place. *)
Lemma heap_swap hi k l : heap_from 0 hi l -> 0 < hi -> hi <= S k -> k < length l -> heap_from 1 (Nat.min hi k) (swap l k 0).
Proof.
  intros Hh H0 Hk Hlt p c Hc Hp Hlt'. unfold child_of in Hc. rewrite !swap_at by lia. repeat case_decide; try lia.
  apply Hh; unfold child_of; lia.
Qed.

Lemma swap_sym l i j : i < length l -> j < length l -> swap l i j = swap l j i.
Proof.
  intros Hi Hj. unfold swap. destruct (decide (i = j)) as [->|Hne]; [done|]. by apply list_insert_insert_ne.
Qed.

Lemma heapsort_spec m l : m <= length l -> heap_from 0 m l ->
  exists l', @heapsort A E less 0 m l = (l', Ok tt) /\ shuffled 0 m l l' /\
    forall i j, i < j < m -> le (l' !!! i) (l' !!! j).
Proof.
  intros Hm Hheap. unfold heapsort. rewrite Nat.sub_0_r.
  destruct (downto_inv (fun k l' => shuffled 0 m l l' /\ heap_from 0 k l' /\
    forall i j, i < j < m -> k <= j -> le (l' !!! i) (l' !!! j))
    (fun i => Swap 0 (0 + i) ;;; @siftDown A E less 0 i 0) m l) as (l' & Hl' & Hs & _ & Hsort).
  - intros k l1 Hk (Hs & Hh & Hsort). simpl.
    assert (Hlen : length l1 = length l) by by apply (shuffled_length 0 m).
    erewrite bind_ok by (apply Swap_ok; lia). rewrite swap_sym by lia.
    assert (Hh1 : heap_from 1 k (swap l1 k 0)).
    { replace k with (Nat.min (S k) k) at 1 by lia. apply heap_swap; try lia. done. }
    destruct (siftDown_spec 0 k (swap l1 k 0)) as (l2 & Hl2 & Hs2 & Hh2); [unfold swap; rewrite !length_insert; lia|done|].
    exists l2. split; [done|].
    assert (Hs1 : shuffled 0 (S k) l1 l2).
    { eapply shuffled_trans; [apply (swap_shuffled 0 (S k) l1 k 0); lia|]. eapply shuffled_wider; [| |done]; lia. }
    split; [eapply shuffled_trans; [done|]; eapply shuffled_wider; [| |done]; lia|]. split; [done|].
    intros i j Hij Hkj. rewrite (sh_out _ _ _ _ Hs2 j) by lia. destruct (decide (j = k)) as [->|Hne].
    + rewrite (swap_at l1 k 0 k) by lia. rewrite decide_True by done.
      apply (shuffled_all 0 (S k) l1 l2 (fun x => le x (l1 !!! 0)) Hs1); [|lia].
      intros a Ha. apply (heap_root (S k)); [done|lia].
    + rewrite (swap_at l1 k 0 j) by lia. rewrite !decide_False by lia. destruct (decide (i <= k)) as [Hik|Hik].
      * apply (shuffled_all 0 (S k) l1 l2 (fun x => le x (l1 !!! j)) Hs1); [|lia]. intros a Ha. apply Hsort; lia.
      * rewrite (sh_out _ _ _ _ Hs1) by lia. apply Hsort; lia.
  - split; [apply shuffled_refl|]. split; [done|]. lia.
  - exists l'. split; [done|]. split; [done|]. intros i j Hij. apply Hsort; lia.
Qed.

Lemma select_loop_spec m turns : 0 < m -> forall i l, m <= i -> length l = i + turns -> heap_from 0 m l ->
  (forall j, m <= j < i -> le (l !!! 0) (l !!! j)) ->
  exists l', @select_loop A E less turns i m l = (l', Ok tt) /\ l' ≡ₚ l /\ heap_from 0 m l' /\
    forall j, m <= j < length l -> le (l' !!! 0) (l' !!! j).
Proof.
  intros Hm. induction turns as [|turns IH]; intros i l Hi Hlen Hh Hrest; simpl.
  - exists l. repeat split; auto. intros j Hj. apply Hrest. lia.
  - erewrite bind_ok by (apply Less_ok; lia). destruct (less (l !!! i) (l !!! 0)) eqn:Hl.
    + set (l2 := swap l i 0). assert (Hlen2 : length l2 = length l) by (unfold l2, swap; by rewrite !length_insert).
      assert (Hh2 : heap_from 1 m l2).
      { unfold l2. replace m with (Nat.min m i) by lia. apply heap_swap; try lia. done. }
      destruct (siftDown_spec 0 m l2) as (l3 & Hl3 & Hs3 & Hh3); [lia|done|].
      destruct (IH (S i) l3) as (l' & Hl' & Hp & Hh' & Hr'); [lia| |done| |].
      * rewrite (shuffled_length _ _ _ _ Hs3). lia.
      * assert (Htop : le (l3 !!! 0) (l !!! 0)).
        { apply (shuffled_all 0 m l2 l3 (fun x => le x (l !!! 0)) Hs3); [|lia]. intros a Ha. unfold l2.
          rewrite swap_at by lia. repeat case_decide; subst; try lia; [by apply less_le|apply (heap_root m); [done|lia]]. }
        intros j Hj. rewrite (sh_out _ _ _ _ Hs3 j) by lia. unfold l2. rewrite swap_at by lia.
        repeat case_decide; try lia; [done|]. eapply le_trans; [done|]. apply Hrest. lia.
      * exists l'. split.
        { rewrite (bind_ok _ _ _ l3 tt); [done|]. rewrite (bind_ok _ _ _ l2 tt); [done|]. apply Swap_ok; lia. }
        rewrite (shuffled_length _ _ _ _ Hs3), Hlen2 in Hr'. split; [|done].
        rewrite Hp, (sh_perm _ _ _ _ Hs3). unfold l2. apply (sh_perm 0 (length l)). apply swap_shuffled; lia.
    + erewrite bind_ok by done. apply IH; [lia|lia|done|]. intros j Hj. destruct (decide (j = i)) as [->|]; [done|].
      apply Hrest. lia.
Qed.

(** With an empty heap the loop only brings the least element to the front. *)
Lemma select_loop_none turns : forall i l, length l = i + turns -> exists l', @select_loop A E less turns i 0 l = (l', Ok tt) /\ l' ≡ₚ l.
Proof.
  induction turns as [|turns IH]; intros i l Hlen; simpl; [eauto|].
  erewrite bind_ok by (apply Less_ok; lia). destruct (less (l !!! i) (l !!! 0)).
  - erewrite bind_ok; [|erewrite bind_ok by (apply Swap_ok; lia); done].
    destruct (IH (S i) (swap l i 0)) as (l' & Hl' & Hp); [unfold swap; rewrite !length_insert; lia|].
    exists l'. split; [done|]. rewrite Hp. apply (sh_perm 0 (length l)). apply swap_shuffled; lia.
  - erewrite bind_ok by done. apply IH. lia.
Qed.

Lemma PartialSort_correct m l : m <= length l ->
  exists l', @PartialSort A E less m l = (l', Ok tt) /\ l' ≡ₚ l /\
    forall i j, i < j -> i < m -> j < length l -> le (l' !!! i) (l' !!! j).
Proof.
  intros Hm. unfold PartialSort, Len. rewrite (bind_ok _ _ l l (length l)) by done.
  destruct (makeHeap_spec m l Hm) as (l1 & Hl1 & Hs1 & Hh1). erewrite bind_ok by done.
  assert (Hlen1 := shuffled_length _ _ _ _ Hs1). destruct (decide (m = 0)) as [->|Hne].
  - destruct (select_loop_none (length l - 0) 0 l1) as (l2 & Hl2 & Hp2); [lia|]. erewrite bind_ok by done.
    exists l2. split; [done|]. split; [by rewrite Hp2, (sh_perm _ _ _ _ Hs1)|]. lia.
  - destruct (select_loop_spec m (length l - m)) with (i := m) (l := l1) as (l2 & Hl2 & Hp2 & Hh2 & Hr2); try lia; [done|].
    erewrite bind_ok by done. assert (Hlen2 : length l2 = length l) by (by rewrite Hp2).
    destruct (heapsort_spec m l2) as (l3 & Hl3 & Hs3 & Hsort); [lia|done|]. exists l3. split; [done|].
    split; [by rewrite (sh_perm _ _ _ _ Hs3), Hp2, (sh_perm _ _ _ _ Hs1)|].
    intros i j Hij Hi Hj. destruct (decide (j < m)) as [Hjm|Hjm]; [by apply Hsort|].
    rewrite (sh_out _ _ _ _ Hs3 j) by lia.
    apply (shuffled_all 0 m l2 l3 (fun x => le x (l2 !!! j)) Hs3); [|lia]. intros a Ha.
    eapply le_trans; [apply (heap_root m); [done|lia]|]. apply Hr2. lia.
Qed.

End Correct.

(** ** The contract of the sorts *)

Lemma PartialSort_correct' {A E : Type} (less : A -> A -> bool) `{!LessOrder less} (m : nat) (l : list A) :
  m <= length l ->
  exists l', @PartialSort A E less m l = (l', Ok tt) /\ l' ≡ₚ l /\
    forall i j x y, i < j -> i < m -> l' !! i = Some x -> l' !! j = Some y -> less y x = false.
Proof.
  intros Hm. destruct l as [|a l].
  - exists []. destruct m; [|simpl in Hm; lia]. done.
  - assert (Inhabited A) as Hi by (constructor; exact a).
    destruct (PartialSort_correct (E := E) less m (a :: l) Hm) as (l' & Hl' & Hp & Hs). exists l'. split; [done|].
    split; [done|]. intros i j x y Hij Him Hx Hy. rewrite <- (list_lookup_total_correct _ _ _ Hx), <- (list_lookup_total_correct _ _ _ Hy).
    apply Hs; auto. rewrite <- Hp. by eapply lookup_lt_Some.
Qed.

(** C23: PartialSort terminates without a panic on any slice of at least [m] elements, rearranges it, and
    leaves the [m] least elements in order at the front: no later element precedes one of them. *)
Theorem PartialSort_spec {A E : Type} (less : A -> A -> bool) `{!LessOrder less} (m : nat) (l : list A) :
  m <= length l ->
  exists l', @PartialSort A E less m l = (l', Ok tt) /\ l' ≡ₚ l /\
    forall i j x y, i < j -> i < m -> l' !! i = Some x -> l' !! j = Some y -> less y x = false.
Proof. apply PartialSort_correct'; assumption. Qed.

(** HeapSort is PartialSort of the whole slice. *)
Lemma HeapSort_partial {A E : Type} (less : A -> A -> bool) l : @HeapSort A E less l = PartialSort less (length l) l.
Proof.
  unfold HeapSort, heapSort, PartialSort, Len. rewrite !(bind_ok (gets length) _ l l (length l)) by done.
  unfold bind. destruct (makeHeap less 0 (length l) l) as [l1 [[]|e|]]; try done.
  by rewrite Nat.sub_diag.
Qed.

Lemma Less_panics {A E : Type} (less : A -> A -> bool) i j l : length l <= j -> @Less A E less i j l = (l, Panic).
Proof.
  intros Hj. unfold Less, bind, gets, get, ret, panic, id. destruct (l !! i); [|done].
  by rewrite (proj2 (lookup_ge_None l j)).
Qed.

Lemma PartialSort_out_of_range {A E : Type} (less : A -> A -> bool) (m : nat) (l : list A) :
  length l < m -> (@PartialSort A E less m l).2 = Panic.
Proof.
  intros Hm. unfold PartialSort, Len. rewrite (bind_ok _ _ l l (length l)) by done.
  destruct (decide (m = 1)) as [->|H1]; [destruct l; [done|simpl in Hm; lia]|].
  cut (@makeHeap A E less 0 m l = (l, Panic)); [intros Hp; unfold bind; by rewrite Hp|].
  assert (Hlast : forall p l', length l' < m -> child_of p (m - 1) -> @siftDown A E less p m 0 l' = (l', Panic)).
  { intros p l' Hl' Hp. unfold siftDown, child_of in *. destruct m as [|m']; [lia|]. cbn [sift_loop].
    rewrite (proj2 (Nat.leb_gt _ _)) by lia. unfold bind at 1. destruct Hp as [Hp|Hp].
    - rewrite (proj2 (Nat.ltb_ge _ _)) by lia. simpl. unfold bind at 1. rewrite Less_panics by lia. done.
    - rewrite (proj2 (Nat.ltb_lt _ _)) by lia. rewrite Less_panics by lia. done. }
  unfold makeHeap. rewrite Nat.sub_0_r. destruct (Nat.Even_Odd_dec m) as [[k Hk]|[k Hk]].
  - assert ((m - 1) / 2 = k - 1) as -> by (symmetry; apply (Nat.div_unique _ 2 _ 1); lia).
    cbn [downto]. unfold bind. rewrite Hlast; [done|lia|]. unfold child_of. lia.
  - assert ((m - 1) / 2 = k) as -> by (symmetry; apply (Nat.div_unique _ 2 _ 0); lia).
    destruct k as [|k]; [lia|]. cbn [downto].
    rewrite (bind_ok _ _ l l tt).
    + unfold bind. rewrite Hlast; [done|lia|]. unfold child_of. lia.
    + unfold siftDown. destruct m as [|m']; [lia|]. cbn [sift_loop]. by rewrite (proj2 (Nat.leb_le _ _)) by lia.
Qed.

(** Asking for more elements than the slice has is an index out of range. *)
Theorem PartialSort_panics {A E : Type} (less : A -> A -> bool) (m : nat) (l : list A) :
  length l < m -> (@PartialSort A E less m l).2 = Panic.
Proof. apply PartialSort_out_of_range. Qed.

(** The check of the test-suite accepts what the sort leaves. *)
Theorem PartialSort_checked {A E : Type} (less : A -> A -> bool) `{!LessOrder less} (m : nat) (l : list A) :
  0 < m <= length l -> exists l', @PartialSort A E less m l = (l', Ok tt) /\ @IsPartialSorted A E less m l' = (l', Ok true).
Proof.
  intros [H0 Hm]. destruct (PartialSort_correct' (E := E) less m l Hm) as (l' & Hl' & Hp & Hs). exists l'. split; [done|].
  destruct l as [|a l]; [simpl in Hm; lia|]. assert (Inhabited A) as Hi by (constructor; exact a).
  assert (Hlen : length l' = length (a :: l)) by by rewrite Hp. destruct m as [|mid]; [lia|].
  assert (Hle : forall i j, i < j -> i < S mid -> j < length l' -> less (l' !!! j) (l' !!! i) = false).
  { intros i j Hij Hi' Hj. apply (Hs i j); [lia|lia| |]; apply lookup_at; lia. }
  unfold IsPartialSorted. rewrite (bind_ok _ _ l' l' true); [|].
  - change (negb true) with false. cbv beta iota. rewrite (bind_ok Len _ l' l' (length l')) by done.
    assert (forall turns i, S mid <= i -> i + turns = length l' -> @none_below A E less turns i mid l' = (l', Ok true)) as Hn.
    { induction turns as [|turns IH]; intros i Hi1 Hi2; simpl; [done|].
      rewrite (bind_ok _ _ l' l' false); [apply IH; lia|]. rewrite Less_ok by lia. by rewrite Hle by lia. }
    apply Hn; lia.
  - assert (forall k, k <= mid -> @descending A E less k l' = (l', Ok true)) as Hd; [|by apply Hd].
    induction k as [|k IH]; intros Hk; simpl; [done|].
    rewrite (bind_ok _ _ l' l' false); [apply IH; lia|]. rewrite Less_ok by lia. by rewrite Hle by lia.
Qed.

#[export] Instance ltb_order : LessOrder Z.ltb.
Proof. split; intros; bdestruct; simplify_eq; try lia; apply Z.ltb_ge; lia. Qed.

Lemma PartialSort_spec_witness :
  exists l', @PartialSort Z unit Z.ltb 2 [74; 59; 238; -784; 42]%Z = (l', Ok tt) /\ l' ≡ₚ [74; 59; 238; -784; 42]%Z /\
    forall i j x y, i < j -> i < 2 -> l' !! i = Some x -> l' !! j = Some y -> Z.ltb y x = false.
Proof. apply PartialSort_spec; [apply _|simpl; lia]. Defined.

Lemma PartialSort_panics_witness : (@PartialSort Z unit Z.ltb 3 [5; 1]%Z).2 = Panic.
Proof. apply PartialSort_panics. simpl. lia. Defined.

Lemma PartialSort_checked_witness :
  exists l', @PartialSort Z unit Z.ltb 3 [5; 1; 4; 2]%Z = (l', Ok tt) /\ @IsPartialSorted Z unit Z.ltb 3 l' = (l', Ok true).
Proof. apply PartialSort_checked; [apply _|simpl; lia]. Defined.

Example partial_sample : @PartialSort Z unit Z.ltb 2 [74; 59; 238; -784; 42]%Z = ([-784; 42; 238; 74; 59]%Z, Ok tt).
Proof. vm_compute. reflexivity. Qed.

(** Sorting a range that does not start at 0 goes wrong: the second phase passes [first] where the root
    of the heap, 0, is meant.  The package itself only sorts from 0. *)
Example heapSort_offset : @heapSort Z unit Z.ltb 1 5 [0; 4; 3; 1; 2]%Z = ([0; 3; 1; 2; 4]%Z, Ok tt).
Proof. vm_compute. reflexivity. Qed.

(** ** Orders on a part of a type *)

(** Fixed-size arrays are modelled by lists, so their order is only a strict weak order on the lists
    of the right length.  The sorts see an order only through the elements of the slice: two orders
    that agree on them give the same result. *)
Section Agree.
Context {A : Type} {E : Type} (P : A -> Prop) (less less' : A -> A -> bool).
Hypothesis less_agree : forall a b, P a -> P b -> less a b = less' a b.

Definition agrees {T} (m m' : ST (list A) E T) : Prop := forall l, Forall P l -> m l = m' l /\ Forall P (m l).1.

Lemma agrees_bind {T U} (m m' : ST (list A) E T) (k k' : T -> ST (list A) E U) :
  agrees m m' -> (forall a, agrees (k a) (k' a)) -> agrees (bind m k) (bind m' k').
Proof.
  intros Hm Hk l Hl. unfold bind. destruct (Hm l Hl) as [<- Hl']. destruct (m l) as [l' [a| |]]; [by apply Hk|done|done].
Qed.
Lemma agrees_refl_ret {T} (a : T) : agrees (ret a) (ret a).
Proof. done. Qed.
Lemma agrees_Len : agrees Len Len.
Proof. done. Qed.
Lemma agrees_Less i j : agrees (Less less i j) (Less less' i j).
Proof.
  intros l Hl. unfold Less, bind, gets, get, ret, panic, id. destruct (l !! i) as [a|] eqn:Ha; [|done].
  destruct (l !! j) as [b|] eqn:Hb; [|done]. rewrite Forall_forall in Hl.
  rewrite less_agree; [split; [done|by apply Forall_forall]| |]; eapply Hl, list_elem_of_lookup_2; eauto.
Qed.
Lemma agrees_Swap i j : agrees (Swap i j) (Swap i j).
Proof.
  intros l Hl. split; [done|]. unfold Swap, bind, gets, get, ret, panic, id, modify. destruct (l !! i) as [a|] eqn:Ha; [|done].
  destruct (l !! j) as [b|] eqn:Hb; [|done]. simpl.
  apply Forall_insert; [apply Forall_insert; [done|]|]; rewrite Forall_forall in Hl; eapply Hl, list_elem_of_lookup_2; eauto.
Qed.
Lemma agrees_if {T} (b : bool) (m1 m2 m1' m2' : ST (list A) E T) : agrees m1 m1' -> agrees m2 m2' -> agrees (if b then m1 else m2) (if b then m1' else m2').
Proof. by destruct b. Qed.
#[local] Hint Resolve agrees_bind agrees_refl_ret agrees_Len agrees_Less agrees_Swap agrees_if : core.

Lemma agrees_sift turns : forall root hi first, agrees (sift_loop less turns root hi first) (sift_loop less' turns root hi first).
Proof. induction turns as [|turns IH]; intros root hi first; simpl; auto 10. Qed.
#[local] Hint Resolve agrees_sift : core.
Lemma agrees_downto n (f f' : nat -> ST (list A) E unit) : (forall i, agrees (f i) (f' i)) -> agrees (downto n f) (downto n f').
Proof. intros Hf. induction n; simpl; auto. Qed.
Lemma agrees_select turns : forall i m, agrees (select_loop less turns i m) (select_loop less' turns i m).
Proof. induction turns as [|turns IH]; intros i m; simpl; unfold siftDown; auto 10. Qed.
Lemma agrees_PartialSort m : agrees (PartialSort less m) (PartialSort less' m).
Proof.
  unfold PartialSort, makeHeap, heapsort, siftDown.
  repeat (apply agrees_bind; [auto using agrees_downto, agrees_select|intros ?]). apply agrees_downto. auto.
Qed.

End Agree.

(** ** Go's sort.Sort *)

(** The result of [sort.Sort], which the package sort specifies: the elements in ascending order (the
    order of equal elements is unspecified; no caller here has any). *)
Section GoSort.
Context {A : Type} (less : A -> A -> bool).

Fixpoint insert_sorted (x : A) (l : list A) : list A :=
  match l with
  | [] => [x]
  | y :: l' => if less y x then y :: insert_sorted x l' else x :: l
  end.
Definition GoSort (l : list A) : list A := foldr insert_sorted [] l.

Lemma insert_sorted_perm x l : insert_sorted x l ≡ₚ x :: l.
Proof. induction l as [|y l IH]; simpl; [done|]. destruct (less y x); [|done]. rewrite IH. apply Permutation_swap. Qed.
Lemma GoSort_perm l : GoSort l ≡ₚ l.
Proof. induction l as [|x l IH]; simpl; [done|]. by rewrite insert_sorted_perm, IH. Qed.

Context `{!LessOrder less}.
Lemma insert_sorted_sorted x l : StronglySorted (le_of less) l -> StronglySorted (le_of less) (insert_sorted x l).
Proof.
  induction 1 as [|y l Hs IH Hy]; simpl; [by repeat constructor|].
  destruct (less y x) eqn:Hl.
  - constructor; [done|]. rewrite insert_sorted_perm. constructor; [by apply less_le|done].
  - constructor; [by constructor|]. constructor; [done|]. eapply Forall_impl; [exact Hy|]. intros z Hz. by eapply le_trans.
Qed.
Lemma GoSort_sorted l : StronglySorted (le_of less) (GoSort l).
Proof. induction l; simpl; [constructor|]. by apply insert_sorted_sorted. Qed.

(** When distinct elements are always ordered, the result does not depend on the order of the input. *)
Lemma GoSort_unique l l' : (forall a b, a ∈ l -> b ∈ l -> less a b = false -> less b a = false -> a = b) ->
  l ≡ₚ l' -> GoSort l = GoSort l'.
Proof.
  intros Hanti Hp. assert (Hs := GoSort_sorted l). assert (Hs' := GoSort_sorted l').
  assert (Hpp : GoSort l ≡ₚ GoSort l') by by rewrite !GoSort_perm.
  assert (Hin : forall a, a ∈ GoSort l -> a ∈ l) by (intros a; by rewrite GoSort_perm).
  revert Hs Hs' Hpp Hin. generalize (GoSort l) as s. generalize (GoSort l') as s'. clear Hp l'.
  intros s' s Hs. revert s'. induction Hs as [|a s Hs IH Ha]; intros s' Hs' Hpp Hin; [by apply Permutation_nil_l in Hpp|].
  destruct s' as [|b s']; [by apply Permutation_nil_r in Hpp|].
  apply StronglySorted_inv in Hs' as [Hs' Hb]. assert (a = b) as <-.
  { assert (Ha' : a ∈ b :: s') by (rewrite <- Hpp; left). assert (Hb' : b ∈ a :: s) by (rewrite Hpp; left).
    apply elem_of_cons in Ha' as [->|Ha']; [done|]. apply elem_of_cons in Hb' as [->|Hb']; [done|].
    rewrite Forall_forall in Ha, Hb. apply Hanti; [apply Hin; left|apply Hin; by right| |]; [by apply Hb|by apply Ha]. }
  f_equal. apply IH; [done|by apply Permutation_cons_inv in Hpp|]. intros x Hx. apply Hin. by right.
Qed.

End GoSort.

End Heap.
