(* ===== verification/Uint128.v ===== *)
(** * 128-bit unsigned integers

    src/common/uint128/uint128.go: the two-word integers that record which of the
    last 128 production slots were filled.  A value is a pair of 64-bit words; the
    functions of Go's [math/bits] they use are written out.  The theorems relate
    each operation to the integer the words denote ([val]): arithmetic is modulo
    2^128, division (by an estimated quotient) is exact, and the population count
    counts. *)

From S2P Require Import Prelude.
From Stdlib Require Import ZArith Lia Bool.
Local Open Scope Z_scope.

Module U128.

Definition W64 : Z := 18446744073709551616.

(** ** Package math/bits *)

Definition Add64 (x y carry : Z) : Z * Z := ((x + y + carry) mod W64, (x + y + carry) / W64).
Definition Sub64 (x y borrow : Z) : Z * Z := ((x - y - borrow) mod W64, if x <? y + borrow then 1 else 0).
Definition Mul64 (x y : Z) : Z * Z := (x * y / W64, (x * y) mod W64).
(** [Div64] panics for y == 0 (division by zero) or y <= hi (quotient overflow). *)
Definition Div64 {E} (hi lo y : Z) : result E (Z * Z) :=
  if (y =? 0) || (y <=? hi) then Panic else Ok ((hi * W64 + lo) / y, (hi * W64 + lo) mod y).
Definition LeadingZeros64 (x : Z) : Z := if x =? 0 then 64 else 63 - Z.log2 x.

(** A shift of a 64-bit word. *)
Definition shl64 (x n : Z) : Z := uint64 (Z.shiftl x n).
Definition shr64 (x n : Z) : Z := Z.shiftr x n.

(** ** The type *)

Record Uint128 := mkUint128 { lo : Z; hi : Z }.
#[export] Instance Uint128_eq_dec : EqDecision Uint128.
Proof. solve_decision. Defined.

Definition New (lo hi : Z) : Uint128 := mkUint128 lo hi.
Definition From64 (v : Z) : Uint128 := New v 0.
Definition Zero : Uint128 := mkUint128 0 0.
Definition MaxValue : Uint128 := New (W64 - 1) (W64 - 1).

Definition U_IsZero (u : Uint128) : bool := bool_decide (u = Zero).
Definition Equals (u v : Uint128) : bool := bool_decide (u = v).
Definition Equals64 (u : Uint128) (v : Z) : bool := (lo u =? v) && (hi u =? 0).

Definition Cmp (u v : Uint128) : Z :=
  if bool_decide (u = v) then 0
  else if (hi u <? hi v) || ((hi u =? hi v) && (lo u <? lo v)) then -1
  else 1.
Definition Cmp64 (u : Uint128) (v : Z) : Z :=
  if (hi u =? 0) && (lo u =? v) then 0
  else if (hi u =? 0) && (lo u <? v) then -1
  else 1.

Definition And (u v : Uint128) : Uint128 := mkUint128 (Z.land (lo u) (lo v)) (Z.land (hi u) (hi v)).
Definition And64 (u : Uint128) (v : Z) : Uint128 := mkUint128 (Z.land (lo u) v) 0.
Definition Or (u v : Uint128) : Uint128 := mkUint128 (Z.lor (lo u) (lo v)) (Z.lor (hi u) (hi v)).
Definition Or64 (u : Uint128) (v : Z) : Uint128 := mkUint128 (Z.lor (lo u) v) (hi u).
Definition Xor (u v : Uint128) : Uint128 := mkUint128 (Z.lxor (lo u) (lo v)) (Z.lxor (hi u) (hi v)).
Definition Xor64 (u : Uint128) (v : Z) : Uint128 := mkUint128 (Z.lxor (lo u) v) (hi u).

Definition Add (u v : Uint128) : Uint128 :=
  let '(lo', carry) := Add64 (lo u) (lo v) 0 in
  let '(hi', _) := Add64 (hi u) (hi v) carry in
  mkUint128 lo' hi'.
Definition U_Add64 (u : Uint128) (v : Z) : Uint128 :=
  let '(lo', carry) := Add64 (lo u) v 0 in
  mkUint128 lo' (uint64 (hi u + carry)).
Definition Sub (u v : Uint128) : Uint128 :=
  let '(lo', borrow) := Sub64 (lo u) (lo v) 0 in
  let '(hi', _) := Sub64 (hi u) (hi v) borrow in
  mkUint128 lo' hi'.
Definition U_Sub64 (u : Uint128) (v : Z) : Uint128 :=
  let '(lo', borrow) := Sub64 (lo u) v 0 in
  mkUint128 lo' (uint64 (hi u - borrow)).
Definition Mul (u v : Uint128) : Uint128 :=
  let '(hi', lo') := Mul64 (lo u) (lo v) in
  mkUint128 lo' (uint64 (hi' + uint64 (uint64 (hi u * lo v) + uint64 (lo u * hi v)))).
Definition U_Mul64 (u : Uint128) (v : Z) : Uint128 :=
  let '(hi', lo') := Mul64 (lo u) v in
  mkUint128 lo' (uint64 (hi' + uint64 (hi u * v))).

Definition Lsh (u : Uint128) (n : Z) : Uint128 :=
  if 64 <? n then mkUint128 0 (shl64 (lo u) (n - 64))
  else mkUint128 (shl64 (lo u) n) (Z.lor (shl64 (hi u) n) (shr64 (lo u) (64 - n))).
Definition Rsh (u : Uint128) (n : Z) : Uint128 :=
  if 64 <? n then mkUint128 (shr64 (hi u) (n - 64)) 0
  else mkUint128 (Z.lor (shr64 (lo u) n) (shl64 (hi u) (64 - n))) (shr64 (hi u) n).

Section Division.
Context {E : Type}.

Definition QuoRem64 (u : Uint128) (v : Z) : result E (Uint128 * Z) :=
  if hi u <? v then
    let? d := Div64 (hi u) (lo u) v in Ok (mkUint128 d.1 0, d.2)
  else
    let? d := Div64 0 (hi u) v in
    let? e := Div64 d.2 (lo u) v in Ok (mkUint128 e.1 d.1, e.2).

(** The quotient is estimated from the leading words, guaranteed to be within 1 of the actual
    quotient, then adjusted. *)
Definition QuoRem (u v : Uint128) : result E (Uint128 * Uint128) :=
  if hi v =? 0 then
    let? d := QuoRem64 u (lo v) in Ok (d.1, From64 d.2)
  else
    let n := LeadingZeros64 (hi v) in
    let v1 := Lsh v n in
    let u1 := Rsh u 1 in
    let? d := Div64 (hi u1) (lo u1) (hi v1) in
    let tq := shr64 d.1 (63 - n) in
    let tq := if tq =? 0 then tq else tq - 1 in
    let q := From64 tq in
    let r := Sub u (U_Mul64 v tq) in
    if 0 <=? Cmp r v then Ok (U_Add64 q 1, Sub r v) else Ok (q, r).

Definition Div (u v : Uint128) : result E Uint128 := let? d := QuoRem u v in Ok d.1.
Definition U_Div64 (u : Uint128) (v : Z) : result E Uint128 := let? d := QuoRem64 u v in Ok d.1.

End Division.

(** [FromBig], [Big]: conversions with arbitrary-precision integers. *)
Definition FromBig {E} (i : Z) : result E Uint128 :=
  if i <? 0 then Panic
  else if 2 ^ 128 <=? i then Panic
  else Ok (mkUint128 (uint64 i) (uint64 (Z.shiftr i 64))).
Definition Big (u : Uint128) : Z := Z.lxor (Z.shiftl (hi u) 64) (lo u).

(** ** Population count *)

Definition m_words : list Z :=
  [0x5555555555555555; 0x3333333333333333; 0x0F0F0F0F0F0F0F0F; 0x00FF00FF00FF00FF; 0x0000FFFF0000FFFF; 0x00000000FFFFFFFF].
Fixpoint pop_loop (ms : list Z) (w x : Z) : Z :=
  match ms with
  | [] => x
  | m :: ms => pop_loop ms (w + w) (uint64 (Z.land x m + Z.land (shr64 x w) m))
  end.
Definition PopCount64 (x : Z) : Z := uint8 (pop_loop m_words 1 x).
Definition PopCount (u : Uint128) : Z := uint8 (PopCount64 (lo u) + PopCount64 (hi u)).

(** ** The value of the words *)

Definition val (u : Uint128) : Z := hi u * W64 + lo u.
Definition wf (u : Uint128) : Prop := 0 <= lo u < W64 /\ 0 <= hi u < W64.
Definition W128 : Z := W64 * W64.

Section Values.
Context {E : Type}.
Implicit Types u v : Uint128.

Lemma val_range u : wf u -> 0 <= val u < W128.
Proof. unfold wf, val, W128, W64. lia. Qed.
Lemma val_inj u v : wf u -> wf v -> val u = val v -> u = v.
Proof. destruct u, v. unfold wf, val, W64; simpl. intros. f_equal; lia. Qed.
Lemma uint64_mod z : uint64 z = z mod W64.
Proof. done. Qed.

Lemma Add_val u v : wf u -> wf v -> wf (Add u v) /\ val (Add u v) = (val u + val v) mod W128.
Proof. unfold wf, val, Add, Add64, W128, W64; simpl. intros. dlia. Qed.
Lemma Add64_val u (v : Z) : wf u -> 0 <= v < W64 -> wf (U_Add64 u v) /\ val (U_Add64 u v) = (val u + v) mod W128.
Proof. unfold wf, val, U_Add64, Add64, W128. simpl. rewrite uint64_mod. unfold W64. intros. dlia. Qed.
Lemma Sub_val u v : wf u -> wf v -> wf (Sub u v) /\ val (Sub u v) = (val u - val v) mod W128.
Proof. unfold wf, val, Sub, Sub64, W128, W64; simpl. intros. bdestruct_step; dlia. Qed.
Lemma Sub64_val u (v : Z) : wf u -> 0 <= v < W64 -> wf (U_Sub64 u v) /\ val (U_Sub64 u v) = (val u - v) mod W128.
Proof. unfold wf, val, U_Sub64, Sub64, W128. simpl. rewrite uint64_mod. unfold W64. intros. bdestruct_step; dlia. Qed.

Lemma Cmp_val u v : wf u -> wf v -> Cmp u v = match val u ?= val v with Lt => -1 | Eq => 0 | Gt => 1 end.
Proof.
  intros Hu Hv. unfold Cmp. case_bool_decide as He.
  - subst. by rewrite Z.compare_refl.
  - assert (val u <> val v) by (intros H; by apply He, val_inj). destruct u as [ul uh], v as [vl vh].
    unfold wf, val, W64 in *; simpl in *. destruct (Z.compare_spec (uh * 18446744073709551616 + ul) (vh * 18446744073709551616 + vl));
      destruct (Z.ltb_spec uh vh), (Z.eqb_spec uh vh), (Z.ltb_spec ul vl); simpl; lia.
Qed.

(** The product modulo 2^128 from a low product and a high word. *)
Lemma high_word x h : (x / W64 + h) mod W64 * W64 + x mod W64 = (x + h * W64) mod W128.
Proof.
  unfold W128. rewrite (Z.rem_mul_r (x + h * W64)) by (unfold W64; lia).
  rewrite Z.mod_add, Z.div_add by (unfold W64; lia). lia.
Qed.

Lemma Mul_val u v : wf u -> wf v -> wf (Mul u v) /\ val (Mul u v) = (val u * val v) mod W128.
Proof.
  intros Hu Hv. unfold Mul, Mul64. cbv beta iota zeta. split.
  - split; simpl; apply Z.mod_pos_bound; unfold W64; lia.
  - unfold val at 1; simpl. rewrite !uint64_mod, <- Z.add_mod, Z.add_mod_idemp_r by (unfold W64; lia).
    rewrite (high_word (lo u * lo v) (hi u * lo v + lo u * hi v)).
    replace (val u * val v) with (lo u * lo v + (hi u * lo v + lo u * hi v) * W64 + hi u * hi v * W128) by (unfold val, W128; ring).
    by rewrite Z.mod_add by (unfold W128, W64; lia).
Qed.
Lemma Mul64_val u (v : Z) : wf u -> 0 <= v < W64 -> wf (U_Mul64 u v) /\ val (U_Mul64 u v) = (val u * v) mod W128.
Proof.
  intros Hu Hv. unfold U_Mul64, Mul64. cbv beta iota zeta. split.
  - split; simpl; apply Z.mod_pos_bound; unfold W64; lia.
  - unfold val at 1; simpl. rewrite !uint64_mod, Z.add_mod_idemp_r by (unfold W64; lia).
    rewrite (high_word (lo u * v) (hi u * v)). f_equal. unfold val. ring.
Qed.

(** *** Shifts *)

Lemma pow_split n : 0 <= n <= 64 -> 2 ^ n * 2 ^ (64 - n) = W64 /\ 0 < 2 ^ n /\ 0 < 2 ^ (64 - n).
Proof.
  intros Hn. split; [|split; apply Z.pow_pos_nonneg; lia].
  rewrite <- Z.pow_add_r by lia. by replace (n + (64 - n)) with 64 by lia.
Qed.
(** The high part a left shift keeps. *)
Lemma shl64_split x n : 0 <= n <= 64 -> shl64 x n = x mod 2 ^ (64 - n) * 2 ^ n.
Proof.
  intros Hn. destruct (pow_split n Hn) as (Hw & Hp & Hq). unfold shl64.
  rewrite uint64_mod, Z.shiftl_mul_pow2, <- Hw, (Z.mul_comm (2 ^ n)) by lia. apply Z.mul_mod_distr_r; lia.
Qed.
Lemma lor_words a b k : 0 <= k -> 0 <= a < 2 ^ k -> Z.lor (b * 2 ^ k) a = b * 2 ^ k + a.
Proof. intros Hk Ha. rewrite Z.lor_comm, <- Z.shiftl_mul_pow2, lor_shiftl_add, Z.shiftl_mul_pow2 by lia. lia. Qed.

Lemma Lsh_val u n : wf u -> 0 <= n -> wf (Lsh u n) /\ val (Lsh u n) = (val u * 2 ^ n) mod W128.
Proof.
  intros [Hl Hh] Hn. unfold Lsh. destruct (Z.ltb_spec 64 n) as [Hbig|Hsmall].
  - unfold wf, val, shl64; simpl. rewrite uint64_mod, Z.shiftl_mul_pow2 by lia.
    pose proof (Z.mod_pos_bound (lo u * 2 ^ (n - 64)) W64). split; [unfold W64 in *; lia|].
    replace (2 ^ n) with (2 ^ (n - 64) * W64) by (change W64 with (2 ^ 64); rewrite <- Z.pow_add_r by lia; f_equal; lia).
    replace ((hi u * W64 + lo u) * (2 ^ (n - 64) * W64)) with (lo u * 2 ^ (n - 64) * W64 + hi u * 2 ^ (n - 64) * W128) by (unfold W128; ring).
    rewrite Z.mod_add by (unfold W128, W64; lia). unfold W128. rewrite Z.mul_mod_distr_r by (unfold W64; lia). lia.
  - destruct (pow_split n) as (Hw & Hp & Hq); [lia|].
    assert (0 <= shr64 (lo u) (64 - n) < 2 ^ n).
    { unfold shr64. rewrite Z.shiftr_div_pow2 by lia. split; [apply Z.div_pos; lia|]. apply Z.div_lt_upper_bound; [lia|].
      rewrite Z.mul_comm, Hw. lia. }
    rewrite !shl64_split, lor_words by lia. unfold shr64 in *. rewrite Z.shiftr_div_pow2 in * by lia.
    unfold wf, val; simpl. set (P := 2 ^ n) in *. set (Q := 2 ^ (64 - n)) in *.
    pose proof (Z.mod_pos_bound (lo u) Q Hq). pose proof (Z.mod_pos_bound (hi u) Q Hq).
    pose proof (Z.div_mod (lo u) Q). pose proof (Z.div_mod (hi u) Q).
    assert (0 <= lo u mod Q * P < W64) by nia. assert (0 <= hi u mod Q * P + lo u / Q < W64) by nia.
    split; [lia|]. apply (Z.mod_unique _ _ (hi u / Q)); [left; unfold W128; nia|]. unfold W128. nia.
Qed.

Lemma Rsh_val u n : wf u -> 0 <= n -> wf (Rsh u n) /\ val (Rsh u n) = val u / 2 ^ n.
Proof.
  intros [Hl Hh] Hn. unfold Rsh, shr64. destruct (Z.ltb_spec 64 n) as [Hbig|Hsmall].
  - unfold wf, val; simpl. rewrite Z.shiftr_div_pow2 by lia.
    assert (0 < 2 ^ (n - 64)) by (apply Z.pow_pos_nonneg; lia).
    replace (2 ^ n) with (W64 * 2 ^ (n - 64)) by (change W64 with (2 ^ 64); rewrite <- Z.pow_add_r by lia; f_equal; lia).
    rewrite <- Z.div_div by (unfold W64; lia). rewrite Z.div_add_l, (Z.div_small (lo u)), Z.add_0_r by (unfold W64 in *; lia).
    pose proof (Z.div_pos (hi u) (2 ^ (n - 64))). pose proof (Z.div_le_upper_bound (hi u) (2 ^ (n - 64)) (hi u)).
    split; [split; [nia|unfold W64; lia]|lia].
  - destruct (pow_split n) as (Hw & Hp & Hq); [lia|].
    assert (0 <= Z.shiftr (lo u) n < 2 ^ (64 - n)).
    { rewrite Z.shiftr_div_pow2 by lia. split; [apply Z.div_pos; lia|]. apply Z.div_lt_upper_bound; lia. }
    rewrite shl64_split by lia. replace (64 - (64 - n)) with n by lia. rewrite Z.lor_comm, lor_words by lia.
    rewrite !Z.shiftr_div_pow2 in * by lia. unfold wf, val; simpl. set (P := 2 ^ n) in *. set (Q := 2 ^ (64 - n)) in *.
    pose proof (Z.mod_pos_bound (hi u) P Hp). pose proof (Z.div_mod (hi u) P). pose proof (Z.div_mod (lo u) P).
    pose proof (Z.mod_pos_bound (lo u) P Hp). pose proof (Z.div_pos (hi u) P). assert (hi u / P <= hi u) by nia.
    split; [split; nia|]. apply (Z.div_unique _ _ _ (lo u mod P)); [left; lia|]. nia.
Qed.

(** *** Division *)

Lemma QuoRem64_val u (v : Z) : wf u -> 0 < v < W64 ->
  exists q r, @QuoRem64 E u v = Ok (q, r) /\ wf q /\ val q = val u / v /\ r = val u mod v.
Proof.
  intros [Hl Hh] Hv. unfold QuoRem64, Div64, rbind. destruct (Z.ltb_spec (hi u) v) as [Hlt|Hge].
  - rewrite (proj2 (Z.eqb_neq v 0)), (proj2 (Z.leb_gt v (hi u))) by lia. simpl. do 2 eexists. split; [done|].
    change (hi u * W64 + lo u) with (val u). assert (0 <= val u / v < W64).
    { split; [apply Z.div_pos; unfold val, W64 in *; lia|]. apply Z.div_lt_upper_bound; [lia|]. unfold val, W64 in *. nia. }
    split; [split; simpl; [lia|unfold W64; lia]|]. split; [|done]. unfold val at 1; simpl. lia.
  - rewrite (proj2 (Z.eqb_neq v 0)), (proj2 (Z.leb_gt v 0)) by lia. simpl.
    change (0 * W64 + hi u) with (hi u). pose proof (Z.mod_pos_bound (hi u) v). rewrite (proj2 (Z.leb_gt v (hi u mod v))) by lia. simpl. do 2 eexists. split; [done|].
    pose proof (Z.div_mod (hi u) v). set (h := hi u / v) in *. set (d := hi u mod v) in *.
    pose proof (Z.div_mod (d * W64 + lo u) v). pose proof (Z.mod_pos_bound (d * W64 + lo u) v).
    assert (0 <= d * W64 + lo u) by (unfold W64 in *; nia).
    assert (0 <= (d * W64 + lo u) / v < W64).
    { split; [by apply Z.div_pos; [|lia]|]. apply Z.div_lt_upper_bound; [lia|]. unfold W64 in *. nia. }
    assert (0 <= h) by (unfold h; apply Z.div_pos; lia). assert (h <= hi u) by nia.
    split; [split; simpl; [lia|unfold W64 in *; lia]|]. unfold val at 1; simpl.
    assert (Heq : val u = v * (h * W64 + (d * W64 + lo u) / v) + (d * W64 + lo u) mod v) by (unfold val; nia).
    split; [apply (Z.div_unique _ _ _ ((d * W64 + lo u) mod v)); [left; lia|done]|].
    apply (Z.mod_unique _ _ (h * W64 + (d * W64 + lo u) / v)); [left; lia|done].
Qed.

(** The estimate from the leading words is the quotient or one more. *)
Lemma trial_quotient U V n b : 0 <= n <= 63 -> 0 <= U < W128 ->
  b * 2 ^ (64 - n) <= V < (b + 1) * 2 ^ (64 - n) -> 2 ^ 63 <= b < W64 ->
  U / V <= U / (b * 2 ^ (64 - n)) <= U / V + 1.
Proof.
  intros Hn HU HV Hb. set (c := 2 ^ (64 - n)) in *. assert (0 < c) by (apply Z.pow_pos_nonneg; lia).
  assert (Hc : 4 <= c \/ c = 2).
  { destruct (Z.eq_dec n 63) as [->|]; [by right|left]. change 4 with (2 ^ 2). apply Z.pow_le_mono_r; lia. }
  set (D := b * c) in *. assert (0 < D) by nia. assert (0 < V) by lia. split.
  - apply Z.div_le_compat_l; lia.
  - set (T := U / D). assert (HT : D * T <= U < D * T + D) by (pose proof (Z.mul_div_le U D); pose proof (Z.mul_succ_div_gt U D); unfold T; lia).
    assert (0 <= T) by (apply Z.div_pos; lia). cut (T - 1 <= U / V); [lia|]. apply Z.div_le_lower_bound; [lia|].
    destruct (Z.eq_dec T 0) as [->|HT0]; [lia|].
    assert (D * T < W128) by lia. assert ((T - 1) * (V - D) <= D); [|lia].
    assert (HD : 2 ^ 63 * c <= D) by nia. change (2 ^ 63) with 9223372036854775808 in *. unfold W128, W64 in *.
    destruct Hc as [Hc|Hc].
    + (* T c 2^63 < 2^128, so (T - 1) (c - 1) < 2^65 <= D *)
      assert (T * c < 36893488147419103232) by nia. assert ((T - 1) * (V - D) <= T * c) by nia. nia.
    + rewrite Hc in *. assert (V - D <= 1) by lia. assert (T < 18446744073709551616) by nia. nia.
Qed.

Lemma LeadingZeros64_spec x : 0 < x < W64 -> 0 <= LeadingZeros64 x <= 63 /\ 2 ^ 63 <= x * 2 ^ LeadingZeros64 x < W64.
Proof.
  intros Hx. unfold LeadingZeros64. rewrite (proj2 (Z.eqb_neq x 0)) by lia. pose proof (Z.log2_spec x) as [Hlo Hhi]; [lia|].
  pose proof (Z.log2_nonneg x). assert (Z.log2 x < 64) by (apply Z.log2_lt_pow2; [lia|]; change (2 ^ 64) with W64; lia).
  split; [lia|]. rewrite Z.pow_succ_r in Hhi by lia.
  assert (Hp : 2 ^ Z.log2 x * 2 ^ (63 - Z.log2 x) = 2 ^ 63) by (rewrite <- Z.pow_add_r by lia; f_equal; lia).
  assert (0 < 2 ^ (63 - Z.log2 x)) by (apply Z.pow_pos_nonneg; lia). change W64 with (2 * 2 ^ 63). nia.
Qed.

(** The leading words of the two numbers: the divisor shifted to the top, half of the dividend. *)
Lemma leading_words u v : wf u -> wf v -> hi v <> 0 -> let n := LeadingZeros64 (hi v) in let b := hi (Lsh v n) in
  b * 2 ^ (64 - n) <= val v < (b + 1) * 2 ^ (64 - n) /\ 2 ^ 63 <= b < W64 /\
  hi (Rsh u 1) < b /\ val (Rsh u 1) = val u / 2.
Proof.
  intros Hu Hv Hne n b. destruct (LeadingZeros64_spec (hi v)) as [Hn Hb]; [unfold wf in Hv; lia|]. fold n in Hn, Hb.
  destruct (Lsh_val v n Hv) as [Hwf Hval]; [lia|]. destruct (Rsh_val u 1 Hu) as [Hwf1 Hval1]; [lia|]. change (2 ^ 1) with 2 in Hval1.
  destruct (pow_split n) as (Hw & Hp & Hq); [lia|]. set (P := 2 ^ n) in *. set (Q := 2 ^ (64 - n)) in *.
  rewrite Z.mod_small in Hval.
  2:{ unfold val, W128, wf in *. split; [unfold W64 in *; nia|]. assert (hi v * P + 1 <= W64 - P + 1 + P - 1).
      { lia. } assert (hi v * P <= W64 - P).
      { assert (hi v < Q) by nia. nia. } unfold W64 in *. nia. }
  assert (Hbv : b * W64 <= val v * P < (b + 1) * W64).
  { rewrite <- Hval. unfold val, b. destruct Hwf. lia. }
  assert (Hrange : 2 ^ 63 <= b < W64).
  { destruct Hwf as [Hwl Hwh]. fold b in Hwh. split; [|lia]. unfold val, wf in *. unfold W64 in *. change (2 ^ 63) with 9223372036854775808 in *. nia. }
  split; [split; nia|]. split; [done|]. split; [|done].
  assert (val u / 2 < W128 / 2) by (apply Z.div_lt_upper_bound; [lia|]; pose proof (val_range u Hu); change (2 * (W128 / 2)) with W128; lia).
  destruct Hwf1 as [Hwl1 _]. rewrite <- Hval1 in *. unfold val in *. change (W128 / 2) with (2 ^ 63 * W64) in *. unfold W64 in *.
  change (2 ^ 63) with 9223372036854775808 in *. lia.
Qed.

(** The trial quotient of the code, before it is decremented. *)
Lemma trial_word U b n : 0 <= n <= 63 -> 0 < b -> 0 <= U -> U / 2 / b / 2 ^ (63 - n) = U / (b * 2 ^ (64 - n)).
Proof.
  intros Hn Hb HU. assert (0 < 2 ^ (63 - n)) by (apply Z.pow_pos_nonneg; lia).
  rewrite !Z.div_div by nia. f_equal. replace (64 - n) with (Z.succ (63 - n)) by lia. rewrite Z.pow_succ_r by lia. ring.
Qed.

(** Adjusting an estimate that is at most one too small. *)
Lemma adjust_val u v tq : wf u -> wf v -> 0 < val v -> 0 <= tq < W64 -> tq <= val u / val v <= tq + 1 ->
  let r := Sub u (U_Mul64 v tq) in
  exists q' r', (if 0 <=? Cmp r v then Ok (U_Add64 (From64 tq) 1, Sub r v) else Ok (From64 tq, r)) = @Ok E _ (q', r') /\
    wf q' /\ wf r' /\ val q' = val u / val v /\ val r' = val u mod val v.
Proof.
  intros Hu Hv H0 Htq Hq r. pose proof (val_range u Hu). pose proof (val_range v Hv).
  pose proof (Z.div_mod (val u) (val v)). pose proof (Z.mod_pos_bound (val u) (val v)).
  destruct (Mul64_val v tq Hv) as [Hwm Hm]; [lia|]. rewrite Z.mod_small in Hm by nia.
  destruct (Sub_val u (U_Mul64 v tq) Hu Hwm) as [Hwr Hr]. fold r in Hwr, Hr. rewrite Hm, Z.mod_small in Hr by nia.
  assert (Hwq : wf (From64 tq)) by (split; simpl; unfold W64 in *; lia).
  assert (Hvq : val (From64 tq) = tq) by (unfold val; simpl; lia).
  rewrite Cmp_val by done. destruct (Z.compare_spec (val r) (val v)) as [Heq|Hlt|Hgt]; simpl.
  2:{ do 2 eexists. split; [done|]. split; [done|]. split; [done|]. assert (val u / val v = tq) by nia. split; [lia|]. nia. }
  all: destruct (Add64_val (From64 tq) 1 Hwq) as [Hwa Ha]; [unfold W64; lia|]; rewrite Hvq, Z.mod_small in Ha by (unfold W128, W64 in *; lia);
    destruct (Sub_val r v Hwr Hv) as [Hws Hs]; rewrite Z.mod_small in Hs by nia;
    do 2 eexists; split; [done|]; split; [done|]; split; [done|];
    assert (val u / val v = tq + 1) by nia; split; [lia|nia].
Qed.

Lemma QuoRem_val u v : wf u -> wf v -> 0 < val v ->
  exists q r, @QuoRem E u v = Ok (q, r) /\ wf q /\ wf r /\ val q = val u / val v /\ val r = val u mod val v.
Proof.
  intros Hu Hv H0. unfold QuoRem. destruct (Z.eqb_spec (hi v) 0) as [Hz|Hz].
  - assert (Hvv : val v = lo v) by (unfold val; lia). destruct (QuoRem64_val u (lo v) Hu) as (q & r & Heq & Hwq & Hq & Hr).
    { destruct Hv. lia. }
    rewrite Heq. simpl. exists q, (From64 r). pose proof (Z.mod_pos_bound (val u) (lo v)). destruct Hv.
    split; [done|]. split; [done|]. rewrite Hvv. split; [split; simpl; [lia|unfold W64; lia]|]. split; [done|]. unfold val at 1; simpl. lia.
  - destruct (leading_words u v Hu Hv Hz) as (HV & Hb & Hlt & Hhalf). destruct (LeadingZeros64_spec (hi v)) as [Hn _].
    { destruct Hv. lia. }
    set (n := LeadingZeros64 (hi v)) in *. cbv zeta. set (b := hi (Lsh v n)) in *. pose proof (val_range u Hu) as HU.
    unfold Div64. assert (0 < b) by (change (2 ^ 63) with 9223372036854775808 in Hb; lia).
    rewrite (proj2 (Z.eqb_neq b 0)), (proj2 (Z.leb_gt b (hi (Rsh u 1)))) by lia. cbn [rbind orb fst snd].
    change (hi (Rsh u 1) * W64 + lo (Rsh u 1)) with (val (Rsh u 1)). rewrite Hhalf. unfold shr64.
    rewrite Z.shiftr_div_pow2, trial_word by lia.
    pose proof (trial_quotient (val u) (val v) n b Hn HU HV Hb) as HT. set (T := val u / (b * 2 ^ (64 - n))) in *.
    assert (0 <= val u / val v) by (apply Z.div_pos; lia). assert (HQ : val u / val v < W64).
    { apply Z.div_lt_upper_bound; [lia|]. destruct Hv. unfold W128 in HU. unfold val in *. unfold W64 in *. nia. }
    destruct (Z.eqb_spec T 0) as [HT0|HT0].
    + rewrite HT0. apply adjust_val; auto; unfold W64; lia.
    + apply adjust_val; auto; lia.
Qed.

End Values.

(** ** Counting bits *)

Section Bits.

(** The value of a list of digits in base [B], least significant first. *)
Fixpoint fields (B : Z) (l : list Z) : Z :=
  match l with
  | [] => 0
  | d :: l => d + B * fields B l
  end.
Definition sum (l : list Z) : Z := foldr Z.add 0 l.
Fixpoint pair_sums (l : list Z) : list Z :=
  match l with
  | a :: b :: l => a + b :: pair_sums l
  | l => l
  end.
Definition bit_list (n : nat) (x : Z) : list Z := map (fun i => Z.b2z (Z.testbit x (Z.of_nat i))) (seq 0 n).
Definition bits_set (n : nat) (x : Z) : list nat := List.filter (fun i => Z.testbit x (Z.of_nat i)) (seq 0 n).

Lemma land_split p q r s k : 0 <= k -> 0 <= p < 2 ^ k -> 0 <= r < 2 ^ k ->
  Z.land (p + 2 ^ k * q) (r + 2 ^ k * s) = Z.land p r + 2 ^ k * Z.land q s.
Proof.
  intros Hk Hp Hr. assert (0 < 2 ^ k) by (apply Z.pow_pos_nonneg; lia).
  assert (Hdiv : forall a b, 0 <= a < 2 ^ k -> (a + 2 ^ k * b) / 2 ^ k = b).
  { intros a b Ha. symmetry. apply (Z.div_unique _ _ _ a); [left; lia|ring]. }
  assert (Hmod : forall a b, 0 <= a < 2 ^ k -> (a + 2 ^ k * b) mod 2 ^ k = a).
  { intros a b Ha. symmetry. apply (Z.mod_unique _ _ b); [left; lia|ring]. }
  set (x := p + 2 ^ k * q). set (y := r + 2 ^ k * s).
  rewrite (Z.div_mod (Z.land x y) (2 ^ k)) by lia. rewrite Z.add_comm. f_equal.
  - rewrite <- Z.land_ones by lia. rewrite <- (Z.land_diag (Z.ones k)), Z.land_assoc, <- (Z.land_assoc x), (Z.land_comm y),
      Z.land_assoc, <- Z.land_assoc. rewrite !Z.land_ones by lia. unfold x, y. by rewrite !Hmod.
  - f_equal. rewrite <- !Z.shiftr_div_pow2, Z.shiftr_land, !Z.shiftr_div_pow2 by lia. unfold x, y. by rewrite !Hdiv.
Qed.

Lemma fields_range B l : 0 < B -> Forall (fun d => 0 <= d < B) l -> 0 <= fields B l < B ^ Z.of_nat (length l).
Proof.
  intros HB Hl. induction Hl as [|d l Hd _ IH]; [simpl; lia|].
  cbn [fields length]. rewrite Nat2Z.inj_succ, Z.pow_succ_r by lia. nia.
Qed.

(** One stage of the count: adjacent fields are added into fields of twice the width. *)
Lemma stage_land w k : 0 < w -> forall l, length l = (2 * k)%nat -> Forall (fun d => 0 <= d < 2 ^ w) l ->
  let m := fields (2 ^ (w + w)) (replicate k (2 ^ w - 1)) in
  Z.land (fields (2 ^ w) l) m + Z.land (shr64 (fields (2 ^ w) l) w) m = fields (2 ^ (w + w)) (pair_sums l).
Proof.
  intros Hw. assert (0 < 2 ^ w) by (apply Z.pow_pos_nonneg; lia).
  assert (Hpp : 2 ^ (w + w) = 2 ^ w * 2 ^ w) by (apply Z.pow_add_r; lia).
  induction k as [|k IH]; intros l Hlen Hl; [destruct l; [unfold shr64; simpl; by rewrite Z.shiftr_0_l|simpl in Hlen; lia]|].
  destruct l as [|a [|b l]]; try (simpl in Hlen; lia). apply Forall_cons in Hl as [Ha Hl]. apply Forall_cons in Hl as [Hb Hl].
  specialize (IH l ltac:(simpl in Hlen; lia) Hl). unfold shr64 in *. cbn [replicate fields pair_sums]. cbv zeta in *.
  set (x := fields (2 ^ w) l) in *. set (m := fields (2 ^ (w + w)) (replicate k (2 ^ w - 1))) in *. rewrite <- IH.
  assert (Hlow : forall p q, 0 <= p < 2 ^ w -> 0 <= q < 2 ^ w -> Z.land (p + 2 ^ w * q) (2 ^ w - 1) = p).
  { intros p q Hp Hq. replace (2 ^ w - 1) with (Z.ones w) by (rewrite Z.ones_equiv; lia). rewrite Z.land_ones by lia.
    symmetry. apply (Z.mod_unique _ _ q); [left; lia|ring]. }
  replace (a + 2 ^ w * (b + 2 ^ w * x)) with ((a + 2 ^ w * b) + 2 ^ (w + w) * x) by (rewrite Hpp; ring).
  rewrite (land_split (a + 2 ^ w * b)), Hlow by (rewrite ?Hpp; nia).
  replace (Z.shiftr (a + 2 ^ w * b + 2 ^ (w + w) * x) w) with ((b + 2 ^ w * (x mod 2 ^ w)) + 2 ^ (w + w) * Z.shiftr x w).
  - pose proof (Z.mod_pos_bound x (2 ^ w)). rewrite land_split, Hlow by (rewrite ?Hpp; nia). ring.
  - rewrite !Z.shiftr_div_pow2, Hpp by lia. apply (Z.div_unique _ _ _ a); [left; lia|].
    pose proof (Z.div_mod x (2 ^ w)). nia.
Qed.

Lemma pair_sums_sum l : sum (pair_sums l) = sum l.
Proof.
  revert l. fix IH 1. intros [|a [|b l]]; [done|done|]. cbn [pair_sums sum foldr]. unfold sum in IH. rewrite IH. lia.
Qed.
Lemma pair_sums_length k : forall l, length l = (2 * k)%nat -> length (pair_sums l) = k.
Proof. induction k as [|k IH]; intros [|a [|b l]] Hl; simpl in Hl; try lia; simpl; [done|]. f_equal. apply IH. lia. Qed.
Lemma pair_sums_bound c k : forall l, length l = (2 * k)%nat -> Forall (fun d => 0 <= d <= c) l -> Forall (fun d => 0 <= d <= c + c) (pair_sums l).
Proof.
  induction k as [|k IH]; intros [|a [|b l]] Hlen Hl; simpl in Hlen; try lia; simpl; [done|].
  apply Forall_cons in Hl as [Ha Hl]. apply Forall_cons in Hl as [Hb Hl]. constructor; [lia|]. apply IH; [lia|done].
Qed.

Lemma bit_list_value n x : fields 2 (bit_list n x) = x mod 2 ^ Z.of_nat n.
Proof.
  unfold bit_list. enough (forall n s, fields 2 (map (fun i => Z.b2z (Z.testbit x (Z.of_nat i))) (seq s n)) =
    (Z.shiftr x (Z.of_nat s)) mod 2 ^ Z.of_nat n) as Hg by apply Hg.
  clear n. induction n as [|n IH]; intros s; [by rewrite Z.mod_1_r|]. cbn [seq map fields]. rewrite IH.
  rewrite (Nat2Z.inj_succ n), Z.pow_succ_r by lia. assert (0 < 2 ^ Z.of_nat n) by (apply Z.pow_pos_nonneg; lia).
  rewrite Z.rem_mul_r by lia. rewrite <- Z.bit0_mod, Z.shiftr_spec, Z.add_0_l by lia. do 3 f_equal.
  replace (Z.of_nat (S s)) with (Z.of_nat s + 1) by lia. by rewrite <- Z.shiftr_shiftr, (Z.shiftr_div_pow2 _ 1) by lia.
Qed.
Lemma bit_list_sum n x : sum (bit_list n x) = len (bits_set n x).
Proof.
  unfold bit_list, bits_set. generalize (seq 0 n) as s. induction s as [|i s IH]; [done|]. simpl.
  unfold sum in *. simpl. rewrite IH. destruct (Z.testbit x (Z.of_nat i)); rewrite ?len_cons; simpl; lia.
Qed.

(** What a stage leaves: fields of [w] bits that hold counts adding up to [c]. *)
Definition counting (w c x : Z) : Prop :=
  exists l, x = fields (2 ^ w) l /\ Z.of_nat (length l) * w = 64 /\ Forall (fun d => 0 <= d <= w) l /\ sum l = c.

Lemma counting_stage w k c x m : 0 < w -> Z.of_nat (2 * k) * w = 64 -> m = fields (2 ^ (w + w)) (replicate k (2 ^ w - 1)) ->
  counting w c x -> counting (w + w) c (uint64 (Z.land x m + Z.land (shr64 x w) m)).
Proof.
  intros Hw Hk -> (l & -> & Hlen & Hl & Hsum). assert (Hk' : length l = (2 * k)%nat) by nia.
  assert (Hsmall : w < 2 ^ w) by (apply Z.pow_gt_lin_r; lia).
  assert (Hsmall2 : w + w < 2 ^ (w + w)) by (apply Z.pow_gt_lin_r; lia).
  rewrite (stage_land w k Hw l Hk'); [|eapply Forall_impl; [exact Hl|simpl; lia]].
  assert (Hb := pair_sums_bound w k l Hk' Hl). exists (pair_sums l). split.
  - apply wrapU_small. assert (0 < 2 ^ (w + w)) as Hp by (apply Z.pow_pos_nonneg; lia).
    pose proof (fields_range (2 ^ (w + w)) (pair_sums l) Hp) as Hr. rewrite (pair_sums_length k) in Hr by done.
    rewrite <- Z.pow_mul_r in Hr by lia. replace ((w + w) * Z.of_nat k) with 64 in Hr by lia.
    apply Hr. eapply Forall_impl; [exact Hb|simpl; lia].
  - rewrite (pair_sums_length k), pair_sums_sum by done. split; [lia|done].
Qed.

Lemma PopCount64_val x : 0 <= x < W64 -> PopCount64 x = len (bits_set 64 x).
Proof.
  intros Hx. unfold PopCount64. assert (H0 : counting 1 (len (bits_set 64 x)) x).
  { exists (bit_list 64 x). rewrite bit_list_sum. split; [|split; [done|split; [|done]]].
    - change (2 ^ 1) with 2. rewrite bit_list_value. symmetry. apply Z.mod_small. exact Hx.
    - apply Forall_map, Forall_forall. intros i _. destruct (Z.testbit x (Z.of_nat i)); simpl; lia. }
  assert (Hc : counting 64 (len (bits_set 64 x)) (pop_loop m_words 1 x)).
  { unfold m_words. cbn [pop_loop].
    apply (counting_stage 32 1); [lia|lia|by vm_compute|]. apply (counting_stage 16 2); [lia|lia|by vm_compute|].
    apply (counting_stage 8 4); [lia|lia|by vm_compute|]. apply (counting_stage 4 8); [lia|lia|by vm_compute|].
    apply (counting_stage 2 16); [lia|lia|by vm_compute|]. apply (counting_stage 1 32); [lia|lia|by vm_compute|done]. }
  destruct Hc as (l & -> & Hlen & Hl & Hsum).
  destruct l as [|d [|e l]]; cbn [length] in Hlen; try lia. apply Forall_cons in Hl as [Hd _].
  unfold sum in Hsum; simpl in Hsum. unfold fields. rewrite Z.mul_0_r. unfold uint8. rewrite wrapU_small by (simpl; lia). lia.
Qed.

(** The bits of the two words are the bits of the value. *)
Lemma bits_set_val u : wf u -> len (bits_set 128 (val u)) = len (bits_set 64 (lo u)) + len (bits_set 64 (hi u)).
Proof.
  intros [Hl Hh]. unfold bits_set. change (seq 0 128) with (seq 0 64 ++ map (Nat.add 64) (seq 0 64)).
  rewrite List.filter_app, len_app. f_equal.
  - f_equal. apply List.filter_ext_in. intros i Hi%in_seq. unfold val.
    rewrite Z.add_comm, <- (Z.mod_pow2_bits_low _ 64) by lia. change W64 with (2 ^ 64) in *. rewrite Z.mod_add, Z.mod_small by lia. done.
  - generalize (seq 0 64) as s. induction s as [|i s IH]; [done|]. cbn [map List.filter].
    replace (Z.testbit (val u) (Z.of_nat (64 + i))) with (Z.testbit (hi u) (Z.of_nat i)).
    + destruct (Z.testbit (hi u) (Z.of_nat i)); rewrite ?len_cons; lia.
    + unfold val. change W64 with (2 ^ 64) in *. rewrite Nat2Z.inj_add, Z.add_comm with (n := Z.of_nat 64).
      change (Z.of_nat 64) with 64. rewrite <- Z.shiftr_spec by lia. rewrite Z.shiftr_div_pow2, Z.div_add_l, Z.div_small by lia.
      by rewrite Z.add_0_r.
Qed.

Lemma PopCount_val u : wf u -> PopCount u = len (bits_set 128 (val u)).
Proof.
  intros Hu. unfold PopCount. destruct Hu as [Hl Hh]. rewrite !PopCount64_val, bits_set_val by done.
  assert (forall x, 0 <= len (bits_set 64 x) <= 64) as Hb.
  { intros x. unfold bits_set, len. pose proof (List.filter_length_le (fun i => Z.testbit x (Z.of_nat i)) (seq 0 64)) as H.
    rewrite length_seq in H. lia. }
  pose proof (Hb (lo u)). pose proof (Hb (hi u)). apply wrapU_small. simpl. lia.
Qed.

End Bits.

(** ** Theorems *)

(** Quotient and remainder are exact: the two-word division, which guesses the quotient from the
    leading words and corrects the guess, computes the quotient and remainder of the values for every
    non-zero divisor, and panics for zero. *)
Theorem QuoRem_spec {E} u v : wf u -> wf v ->
  if val v =? 0 then @QuoRem E u v = Panic
  else exists q r, @QuoRem E u v = Ok (q, r) /\ wf q /\ wf r /\ val q = val u / val v /\ val r = val u mod val v.
Proof.
  intros Hu Hv. destruct (Z.eqb_spec (val v) 0) as [H0|H0].
  - assert (lo v = 0 /\ hi v = 0) as [Hl Hh] by (unfold val, wf, W64 in *; lia). unfold QuoRem, QuoRem64, Div64.
    rewrite Hl, Hh. destruct (hi u <? 0); done.
  - apply QuoRem_val; auto. pose proof (val_range v Hv). lia.
Qed.

(** Addition, subtraction, multiplication and the shifts of the words are those of the values, modulo
    2^128. *)
Theorem words_arithmetic u v n : wf u -> wf v -> 0 <= n ->
  val (Add u v) = (val u + val v) mod W128 /\ val (Sub u v) = (val u - val v) mod W128 /\
  val (Mul u v) = (val u * val v) mod W128 /\ val (Lsh u n) = (val u * 2 ^ n) mod W128 /\ val (Rsh u n) = val u / 2 ^ n /\
  Cmp u v = match val u ?= val v with Lt => -1 | Eq => 0 | Gt => 1 end.
Proof.
  intros Hu Hv Hn. destruct (Add_val u v), (Sub_val u v), (Mul_val u v), (Lsh_val u n), (Rsh_val u n); auto.
  rewrite Cmp_val by done. done.
Qed.

(** PopCount, by six stages of masked additions, is the number of bits set in the value. *)
Theorem PopCount_spec u : wf u -> PopCount u = len (bits_set 128 (val u)).
Proof. apply PopCount_val. Qed.

Lemma QuoRem_spec_witness :
  let u := New 5 (W64 - 1) in let v := New (W64 - 1) 1 in
  if val v =? 0 then @QuoRem unit u v = Panic
  else exists q r, @QuoRem unit u v = Ok (q, r) /\ wf q /\ wf r /\ val q = val u / val v /\ val r = val u mod val v.
Proof. apply QuoRem_spec; repeat split; vm_compute; congruence. Defined.
Lemma words_arithmetic_witness : val (Add MaxValue (From64 1)) = (val MaxValue + val (From64 1)) mod W128.
Proof. apply (words_arithmetic MaxValue (From64 1) 0); repeat split; vm_compute; congruence. Defined.
Lemma PopCount_spec_witness : PopCount MaxValue = len (bits_set 128 (val MaxValue)).
Proof. apply PopCount_spec. repeat split; vm_compute; congruence. Defined.

Example pop_max : PopCount MaxValue = 128.
Proof. vm_compute. reflexivity. Qed.

End U128.
