(* ===== verification/ChainParams.v ===== *)
(** * Chain parameters

    src/core/chain_parameters.go and [updateChainParameter] of
    src/dag/common/unit_produce_repository.go: the parameters of the network, the
    checks of a proposed new value and the update that a maintenance performs
    through reflection.  As reflection sees it, the struct is a map from the names
    of its fields (promoted from the embedded structs) to values of their kinds;
    [typed] says that every field holds a value of its kind.  [strconv.ParseFloat]
    is an argument of the functions that call it. *)

From S2P Require Import Prelude Float64.
From Stdlib Require Import ZArith Lia Bool Ascii.
Local Open Scope Z_scope.

Module Params.

(** ** Package strconv *)

Inductive num_error := ErrSyntax | ErrRange.

Definition digit_of (c : ascii) : option Z :=
  let n := Z.of_nat (nat_of_ascii c) in if (48 <=? n) && (n <=? 57) then Some (n - 48) else None.

Fixpoint parse_digits (maxVal n : Z) (s : string) : Z * option num_error :=
  match s with
  | EmptyString => (n, None)
  | String c s' =>
      match digit_of c with
      | None => (0, Some ErrSyntax)
      | Some d => if maxVal <? n * 10 + d then (maxVal, Some ErrRange) else parse_digits maxVal (n * 10 + d) s'
      end
  end.
(** [strconv.ParseUint(s, 10, bitSize)] *)
Definition ParseUint (s : string) (bitSize : Z) : Z * option num_error :=
  match s with
  | EmptyString => (0, Some ErrSyntax)
  | _ => parse_digits (2 ^ bitSize - 1) 0 s
  end.
(** [strconv.ParseInt(s, 10, 64)] *)
Definition ParseInt (s0 : string) : Z * option num_error :=
  let '(neg, s) := match s0 with
                   | String "+" s => (false, s)
                   | String "-" s => (true, s)
                   | _ => (false, s0)
                   end in
  match ParseUint s 64 with
  | (_, Some ErrSyntax) => (0, Some ErrSyntax)
  | (un, _) =>
      if negb neg && (2 ^ 63 <=? un) then (2 ^ 63 - 1, Some ErrRange)
      else if neg && (2 ^ 63 <? un) then (- 2 ^ 63, Some ErrRange)
      else (if neg then - un else un, None)
  end.
Definition ParseBool (s : string) : option bool :=
  if existsb (String.eqb s) ["1"; "t"; "T"; "true"; "TRUE"; "True"]%string then Some true
  else if existsb (String.eqb s) ["0"; "f"; "F"; "false"; "FALSE"; "False"]%string then Some false
  else None.

(** ** The structs *)

Record ImmutableChainParameters := mkImmutable {
  MinMaintSkipSlots : Z; MinimumMediatorCount : Z; MinMediatorInterval : Z; UccPrivileged : bool; UccCapDrop : list string;
  UccNetworkMode : string; UccOOMKillDisable : bool }.

Inductive kind := KInt | KInt64 | KUint8 | KUint32 | KUint64 | KBool | KString | KFloat64 | KStruct.
Inductive fval := VInt (z : Z) | VUint (z : Z) | VBool (b : bool) | VString (s : string) | VFloat (f : float64).

Definition base_fields : list (string * kind) :=
  [("GenerateUnitReward", KUint64); ("PledgeDailyReward", KUint64); ("RewardHeight", KUint64); ("UnitMaxSize", KUint64);
   ("FoundationAddress", KString); ("DepositAmountForMediator", KUint64); ("DepositAmountForJury", KUint64);
   ("DepositAmountForDeveloper", KUint64); ("RmExpConFromSysParam", KBool); ("ActiveMediatorCount", KUint8);
   ("MaximumMediatorCount", KUint8); ("MediatorInterval", KUint8); ("MaintenanceInterval", KUint32);
   ("MaintenanceSkipSlots", KUint8); ("MediatorCreateFee", KUint64); ("AccountUpdateFee", KUint64);
   ("TransferPtnBaseFee", KUint64); ("TransferPtnPricePerKByte", KUint64)]%string.
Definition extra_fields : list (string * kind) :=
  [("UccMemory", KInt64); ("UccCpuShares", KInt64); ("UccCpuQuota", KInt64); ("UccDisk", KInt64); ("UccDuringTime", KInt64);
   ("TempUccMemory", KInt64); ("TempUccCpuShares", KInt64); ("TempUccCpuQuota", KInt64); ("ContractSystemVersion", KString);
   ("ContractSignatureNum", KInt); ("ContractElectionNum", KInt); ("ContractTxTimeoutUnitFee", KUint64);
   ("ContractTxSizeUnitFee", KUint64); ("ContractTxInstallFeeLevel", KFloat64); ("ContractTxDeployFeeLevel", KFloat64);
   ("ContractTxInvokeFeeLevel", KFloat64); ("ContractTxStopFeeLevel", KFloat64)]%string.
Definition own_extra_fields : list (string * kind) := [("PledgeAllocateThreshold", KInt); ("PledgeRecordsThreshold", KInt)]%string.
(** The fields that hold values, and the embedded structs, which have names too. *)
Definition value_fields : list (string * kind) := base_fields ++ extra_fields ++ own_extra_fields.
Definition struct_fields : list (string * kind) :=
  value_fields ++ [("ChainParametersBase", KStruct); ("ChainParametersExtra", KStruct); ("ChainParametersExtra104alpha", KStruct)]%string.

Abbreviation ChainParameters := (gmap string fval).

Fixpoint assoc {A} (k : string) (l : list (string * A)) : option A :=
  match l with [] => None | (k', a) :: l' => if String.eqb k k' then Some a else assoc k l' end.
(** [reflect.ValueOf(cp).FieldByName(field).Kind()]; [None] is [reflect.Invalid]. *)
Definition Kind (field : string) : option kind := assoc field struct_fields.

Definition uint_field (field : string) (cp : ChainParameters) : Z := match cp !! field with Some (VUint z) => z | _ => 0 end.
Definition ActiveMediatorCount (cp : ChainParameters) : Z := uint_field "ActiveMediatorCount" cp.
Definition MaximumMediatorCount (cp : ChainParameters) : Z := uint_field "MaximumMediatorCount" cp.
Definition MediatorInterval (cp : ChainParameters) : Z := uint_field "MediatorInterval" cp.
Definition MaintenanceInterval (cp : ChainParameters) : Z := uint_field "MaintenanceInterval" cp.
Definition MaintenanceSkipSlots (cp : ChainParameters) : Z := uint_field "MaintenanceSkipSlots" cp.

(** ** Default values *)

Definition NewImmutChainParams : ImmutableChainParameters :=
  mkImmutable 0 1 1 false
    ["mknod"; "setfcap"; "audit_write"; "net_bind_service"; "net_raw"; "kill"; "setgid"; "setuid"; "setpcap"; "chown"; "fowner"; "sys_chroot"]%string
    "gptn-net" false.
Definition NewChainParametersBase : list (string * fval) :=
  [("GenerateUnitReward", VUint 15000); ("RewardHeight", VUint 100); ("PledgeDailyReward", VUint 288745000);
   ("FoundationAddress", VString "P1LA8TkEWxU6FcMzkyeSbf9b9FwZwxrYRuF"); ("RmExpConFromSysParam", VBool true);
   ("DepositAmountForMediator", VUint (50 * 100000000)); ("DepositAmountForJury", VUint (10 * 100000000));
   ("DepositAmountForDeveloper", VUint (1 * 100000000)); ("ActiveMediatorCount", VUint 5); ("MaximumMediatorCount", VUint 1);
   ("MediatorInterval", VUint 2); ("MaintenanceInterval", VUint (60 * 5)); ("MaintenanceSkipSlots", VUint 0);
   ("MediatorCreateFee", VUint 50000); ("AccountUpdateFee", VUint 1000000); ("TransferPtnBaseFee", VUint 5000);
   ("TransferPtnPricePerKByte", VUint 30000); ("UnitMaxSize", VUint (5 * 1024 * 1024))]%string.
Definition half : float64 := fdiv (of_int 1) (of_int 2).
Definition NewChainParametersExtra104alpha : list (string * fval) :=
  [("UccMemory", VInt 524288000); ("UccCpuShares", VInt 1024); ("UccCpuQuota", VInt 100000); ("UccDisk", VInt 1073741824);
   ("UccDuringTime", VInt 0); ("TempUccMemory", VInt 1073741824); ("TempUccCpuShares", VInt 1024); ("TempUccCpuQuota", VInt 200000);
   ("ContractSystemVersion", VString ""); ("ContractSignatureNum", VInt 3); ("ContractElectionNum", VInt 4);
   ("ContractTxTimeoutUnitFee", VUint 10); ("ContractTxSizeUnitFee", VUint 1);
   ("ContractTxInstallFeeLevel", VFloat (fadd (of_int 2) half)); ("ContractTxDeployFeeLevel", VFloat (fadd (of_int 1) half));
   ("ContractTxInvokeFeeLevel", VFloat (of_int 1)); ("ContractTxStopFeeLevel", VFloat half)]%string.
Definition NewChainParametersExtra : list (string * fval) :=
  NewChainParametersExtra104alpha ++ [("PledgeAllocateThreshold", VInt 1000); ("PledgeRecordsThreshold", VInt 2000)]%string.
Definition NewChainParams : ChainParameters := list_to_map (NewChainParametersBase ++ NewChainParametersExtra).

(** ** The checks of a proposed value *)

Inductive param_error :=
| NoSuchField | UnexpectedType | NumError (e : num_error) | BoolError | FloatError
| IntervalTooSmall | SkipSlotsTooFew | CountNotOdd | CountTooSmall | CountTooLarge | MaintenanceTooShort | MaintenanceNotMultiple.

Definition num_result {A} (r : A * option num_error) : result param_error A :=
  match r with (a, None) => Ok a | (_, Some e) => Err (NumError e) end.

Section Updates.
Variable ParseFloat : string -> option float64.   (* strconv.ParseFloat(s, 64) *)

Definition CheckSysConfigArgType (field value : string) : result param_error unit :=
  match Kind field with
  | None => Err NoSuchField
  | Some (KInt | KInt64) => let? _ := num_result (ParseInt value) in Ok tt
  | Some KBool => match ParseBool value with Some _ => Ok tt | None => Err BoolError end
  | Some (KUint8 | KUint32 | KUint64) => let? _ := num_result (ParseUint value 64) in Ok tt
  | Some KString => Ok tt
  | Some KFloat64 => match ParseFloat value with Some _ => Ok tt | None => Err FloatError end
  | Some KStruct => Err UnexpectedType
  end.

(** The parse errors are ignored here: the value is then 0, or the greatest of its width. *)
Definition CheckChainParameterValue (field value : string) (icp : ImmutableChainParameters) (cp : ChainParameters) (fn : Z) :
    result param_error unit :=
  if String.eqb field "MediatorInterval" then
    let newMediatorInterval := (ParseUint value 64).1 in
    if newMediatorInterval <? MinMediatorInterval icp then Err IntervalTooSmall else Ok tt
  else if String.eqb field "MaintenanceSkipSlots" then
    let newMaintenanceSkipSlots := (ParseUint value 64).1 in
    if newMaintenanceSkipSlots <? MinMaintSkipSlots icp then Err SkipSlotsTooFew else Ok tt
  else if String.eqb field "ActiveMediatorCount" then
    let newActiveMediatorCount := (ParseUint value 16).1 in
    if Z.land newActiveMediatorCount 1 =? 0 then Err CountNotOdd
    else if newActiveMediatorCount <? MinimumMediatorCount icp then Err CountTooSmall
    else if fn <? newActiveMediatorCount then Err CountTooLarge else Ok tt
  else if String.eqb field "MaintenanceInterval" then
    let newMaintenanceInterval := (ParseUint value 64).1 in
    let minMaintenanceInterval := uint8 (MediatorInterval cp * MaintenanceSkipSlots cp) in
    if negb (minMaintenanceInterval <? newMaintenanceInterval) then Err MaintenanceTooShort
    else if MediatorInterval cp =? 0 then Panic
    else if negb (newMaintenanceInterval mod MediatorInterval cp =? 0) then Err MaintenanceNotMultiple else Ok tt
  else Ok tt.

(** ** The update *)

(** [SetInt] and [SetUint] store the value at the width of the field. *)
Definition set_int (k : kind) (z : Z) : fval := VInt (int64 z).
Definition set_uint (k : kind) (z : Z) : fval :=
  VUint (match k with KUint8 => uint8 z | KUint32 => uint32 z | _ => uint64 z end).

Definition updateChainParameter (field value : string) : ST ChainParameters param_error unit :=
  match Kind field with
  | None => throw NoSuchField
  | Some ((KInt | KInt64) as k) => let! iv := lift (num_result (ParseInt value)) in modify (<[field := set_int k iv]>)
  | Some KBool => match ParseBool value with Some iv => modify (<[field := VBool iv]>) | None => throw BoolError end
  | Some ((KUint8 | KUint32 | KUint64) as k) => let! uv := lift (num_result (ParseUint value 64)) in modify (<[field := set_uint k uv]>)
  | Some KString => modify (<[field := VString value]>)
  | Some KFloat64 => match ParseFloat value with Some fv => modify (<[field := VFloat fv]>) | None => throw FloatError end
  | Some KStruct => throw UnexpectedType
  end.

End Updates.

(** ** Typing *)

Definition has_kind (k : kind) (v : fval) : Prop :=
  match k, v with
  | (KInt | KInt64), VInt z => - 2 ^ 63 <= z < 2 ^ 63
  | KUint8, VUint z => 0 <= z < 2 ^ 8
  | KUint32, VUint z => 0 <= z < 2 ^ 32
  | KUint64, VUint z => 0 <= z < 2 ^ 64
  | KBool, VBool _ | KString, VString _ | KFloat64, VFloat _ => True
  | _, _ => False
  end.
(** The struct has exactly its fields, each with a value of its kind. *)
Definition typed (cp : ChainParameters) : Prop :=
  forall field, match Kind field with
                | Some KStruct | None => cp !! field = None
                | Some k => exists v, cp !! field = Some v /\ has_kind k v
                end.

Lemma set_uint_kind k z : k = KUint8 \/ k = KUint32 \/ k = KUint64 -> has_kind k (set_uint k z).
Proof. intros [->|[->| ->]]; simpl; apply wrapU_range; lia. Qed.
Lemma set_int_kind k z : k = KInt \/ k = KInt64 -> has_kind k (set_int k z).
Proof. intros [->| ->]; simpl; apply (wrapS_range 64); lia. Qed.

Lemma typed_insert cp field k v : typed cp -> Kind field = Some k -> has_kind k v -> typed (<[field := v]> cp).
Proof.
  intros Ht Hk Hv f. destruct (decide (f = field)) as [->|Hne].
  - rewrite Hk. destruct k; try done; exists v; split; auto; by simplify_map_eq.
  - specialize (Ht f). destruct (Kind f) as [[]|]; by simplify_map_eq.
Qed.

(** What an accepted value makes the field hold. *)
Definition parsed (ParseFloat : string -> option float64) (k : kind) (value : string) : option fval :=
  match k with
  | KInt | KInt64 => match ParseInt value with (z, None) => Some (VInt z) | _ => None end
  | KUint8 => match ParseUint value 64 with (z, None) => Some (VUint (z mod 2 ^ 8)) | _ => None end
  | KUint32 => match ParseUint value 64 with (z, None) => Some (VUint (z mod 2 ^ 32)) | _ => None end
  | KUint64 => match ParseUint value 64 with (z, None) => Some (VUint (z mod 2 ^ 64)) | _ => None end
  | KBool => VBool <$> ParseBool value
  | KString => Some (VString value)
  | KFloat64 => VFloat <$> ParseFloat value
  | KStruct => None
  end.

Lemma parse_digits_range maxVal s : 0 <= maxVal -> forall n, 0 <= n <= maxVal -> 0 <= (parse_digits maxVal n s).1 <= maxVal.
Proof.
  intros Hmax. induction s as [|c s IH]; intros n Hn; simpl; [done|].
  unfold digit_of. destruct ((48 <=? Z.of_nat (nat_of_ascii c)) && (Z.of_nat (nat_of_ascii c) <=? 57)) eqn:Hd; [|simpl; lia].
  apply andb_true_iff in Hd as [H1%Z.leb_le H2%Z.leb_le]. destruct (Z.ltb_spec maxVal (n * 10 + (Z.of_nat (nat_of_ascii c) - 48))); [simpl; lia|].
  apply IH. lia.
Qed.
Lemma ParseUint_range s w : 0 <= w -> 0 <= (ParseUint s w).1 < 2 ^ w.
Proof.
  intros Hw. assert (0 < 2 ^ w) by (apply Z.pow_pos_nonneg; lia). unfold ParseUint. destruct s; [simpl; lia|].
  pose proof (parse_digits_range (2 ^ w - 1) (String a s)) as Hr. specialize (Hr ltac:(lia) 0 ltac:(lia)). lia.
Qed.
Lemma ParseInt_range s z : ParseInt s = (z, None) -> - 2 ^ 63 <= z < 2 ^ 63.
Proof.
  unfold ParseInt. destruct (match s with | String "+" s => _ | String "-" s => _ | _ => _ end) as [neg t].
  pose proof (ParseUint_range t 64 ltac:(lia)) as Hr. destruct (ParseUint t 64) as [un [[]|]]; [discriminate| |]; simpl in Hr;
    destruct neg; cbn [negb andb]; destruct (Z.leb_spec (2 ^ 63) un), (Z.ltb_spec (2 ^ 63) un); intros [= <-]; lia.
Qed.

Lemma update_parsed pf field value cp : (updateChainParameter pf field value cp) =
  match Kind field with
  | None => (cp, Err NoSuchField)
  | Some k => match parsed pf k value with
              | Some v => (<[field := v]> cp, Ok tt)
              | None => (cp, (updateChainParameter pf field value cp).2)
              end
  end.
Proof.
  unfold updateChainParameter, parsed. destruct (Kind field) as [k|]; [|done].
  assert (Hint : forall z, ParseInt value = (z, None) -> int64 z = z).
  { intros z Hz. apply wrapS_small; [lia|]. by apply (ParseInt_range value). }
  destruct k; unfold bind, lift, num_result, modify, throw, set_int; repeat case_match; simplify_eq; try done.
  all: first [by rewrite Hint | simplify_option_eq; done].
Qed.

Lemma update_outcome pf field value cp : typed cp ->
  let '(cp', r) := updateChainParameter pf field value cp in
  typed cp' /\ r = CheckSysConfigArgType pf field value /\
  match r with
  | Ok tt => exists k v, Kind field = Some k /\ parsed pf k value = Some v /\ cp' = <[field := v]> cp
  | Err _ => cp' = cp
  | Panic => False
  end.
Proof.
  intros Ht. assert (Hc : (updateChainParameter pf field value cp).2 = CheckSysConfigArgType pf field value).
  { unfold updateChainParameter, CheckSysConfigArgType. destruct (Kind field) as [[]|]; unfold bind, lift, rbind, modify, throw; try done.
    all: repeat case_match; simplify_eq; try done. }
  assert (Hp := update_parsed pf field value cp). rewrite <- Hc. destruct (Kind field) as [k|] eqn:Hk.
  - destruct (parsed pf k value) as [v|] eqn:Hv; rewrite Hp; simpl.
    + split; [|split; [done|by exists k, v]]. eapply typed_insert; eauto.
      destruct k; simpl in Hv |- *; repeat case_match; simplify_option_eq; simpl; try done; try (apply wrapU_range; lia); eauto using ParseInt_range.
    + split; [done|]. split; [done|]. assert ((updateChainParameter pf field value cp).2 <> Ok tt /\ (updateChainParameter pf field value cp).2 <> Panic) as [H1 H2].
      { rewrite Hc. unfold CheckSysConfigArgType, parsed, rbind, num_result in *. rewrite Hk. destruct k; repeat case_match; simplify_option_eq; done. }
      destruct ((updateChainParameter pf field value cp).2) as [[]| |]; done.
  - rewrite Hp. simpl. done.
Qed.
Lemma update_keeps_typed pf field value cp : typed cp -> typed (updateChainParameter pf field value cp).1.
Proof. intros Ht. pose proof (update_outcome pf field value cp Ht) as Ho. destruct (updateChainParameter pf field value cp). apply Ho. Qed.

(** A maintenance that applies an accepted change of a parameter: the update succeeds exactly when the
    type check of the proposal does, stores the parsed value at the width of the field, leaves every
    other field as it is and keeps the struct well typed; a failing update changes nothing. *)
Theorem update_typed pf field value cp : typed cp ->
  let '(cp', r) := updateChainParameter pf field value cp in
  typed cp' /\ r = CheckSysConfigArgType pf field value /\
  match r with
  | Ok tt => exists k v, Kind field = Some k /\ parsed pf k value = Some v /\ cp' = <[field := v]> cp
  | Err _ => cp' = cp
  | Panic => False
  end.
Proof. apply update_outcome. Qed.

Lemma interval_wraps pf icp cp fn : MinMediatorInterval icp <= 256 ->
  CheckSysConfigArgType pf "MediatorInterval" "256" = Ok tt /\
  CheckChainParameterValue "MediatorInterval" "256" icp cp fn = Ok tt /\
  exists cp', updateChainParameter pf "MediatorInterval" "256" cp = (cp', Ok tt) /\ MediatorInterval cp' = 0.
Proof.
  intros Hmin. split; [done|]. split.
  - change (CheckChainParameterValue "MediatorInterval" "256" icp cp fn) with (if 256 <? MinMediatorInterval icp then Err IntervalTooSmall else @Ok param_error unit tt).
    by rewrite (proj2 (Z.ltb_ge _ _)).
  - eexists. split; [done|]. unfold MediatorInterval, uint_field. by simplify_map_eq.
Qed.
(** The value check accepts an interval of 256 seconds, which the one-byte field stores as 0. *)
Theorem checked_interval_wraps pf icp cp fn : MinMediatorInterval icp <= 256 ->
  CheckSysConfigArgType pf "MediatorInterval" "256" = Ok tt /\
  CheckChainParameterValue "MediatorInterval" "256" icp cp fn = Ok tt /\
  exists cp', updateChainParameter pf "MediatorInterval" "256" cp = (cp', Ok tt) /\ MediatorInterval cp' = 0.
Proof. apply interval_wraps. Qed.

Lemma new_params_typed : typed NewChainParams.
Proof.
  assert (Hnone : forall field, assoc field value_fields = None -> NewChainParams !! field = None).
  { intros field Hf. apply not_elem_of_list_to_map_1. intros Hin. revert Hf. cut (assoc field value_fields <> None); [done|].
    revert field Hin. apply Forall_forall. apply (bool_decide_unpack _). vm_compute. exact I. }
  assert (Hsome : Forall (fun fk => match NewChainParams !! fk.1 with Some v => has_kind fk.2 v | None => False end) value_fields).
  { change value_fields with (base_fields ++ extra_fields ++ own_extra_fields). unfold base_fields, extra_fields, own_extra_fields. simpl app.
    repeat (apply Forall_cons; split; [vm_compute; first [exact I | split; congruence]|]). by apply Forall_nil. }
  intros field. unfold Kind. unfold struct_fields.
  assert (Happ : forall l1 l2, assoc field (l1 ++ l2) = match assoc field l1 with Some k => Some k | None => @assoc kind field l2 end).
  { induction l1 as [|[k a] l1 IH]; intros l2; simpl; [done|]. destruct (String.eqb field k); [done|apply IH]. }
  rewrite Happ. destruct (assoc field value_fields) as [k|] eqn:Hk.
  - assert (Hin : (field, k) ∈ value_fields).
    { clear -Hk. revert Hk. generalize value_fields as l. induction l as [|[f a] l IH]; simpl; [done|].
      destruct (String.eqb_spec field f) as [->|Hne]; [intros [= ->]; left|right; auto]. }
    rewrite Forall_forall in Hsome. specialize (Hsome _ Hin). cbn [fst snd] in Hsome. revert Hsome. clear. generalize (NewChainParams !! field). intros [v|] Hs; [|destruct Hs].
    destruct k; try (exists v; split; [reflexivity|exact Hs]). destruct v; destruct Hs.
  - rewrite (Hnone field Hk). cbn [assoc]. repeat case_match; simplify_eq; done.
Qed.

Lemma update_typed_witness :
  let '(cp', r) := updateChainParameter (fun _ => None) "MediatorInterval" "3" NewChainParams in
  typed cp' /\ r = CheckSysConfigArgType (fun _ => None) "MediatorInterval" "3" /\
  match r with
  | Ok tt => exists k v, Kind "MediatorInterval" = Some k /\ parsed (fun _ => None) k "3" = Some v /\ cp' = <["MediatorInterval"%string := v]> NewChainParams
  | Err _ => cp' = NewChainParams
  | Panic => False
  end.
Proof. apply update_typed. apply new_params_typed. Defined.
Lemma checked_interval_wraps_witness :
  CheckSysConfigArgType (fun _ => None) "MediatorInterval" "256" = Ok tt /\
  CheckChainParameterValue "MediatorInterval" "256" NewImmutChainParams NewChainParams 5 = Ok tt /\
  exists cp', updateChainParameter (fun _ => None) "MediatorInterval" "256" NewChainParams = (cp', Ok tt) /\ MediatorInterval cp' = 0.
Proof. apply checked_interval_wraps. simpl. lia. Defined.

End Params.
