(* ===== verification/Schedule.v ===== *)
(** * The production schedule

    The properties of the chain and who produces when:
    src/dag/modules/global_property.go and mediator_schedule.go (the records and
    their initial values), src/dag/storage/propertydb.go (where they are kept),
    src/dag/common/prop_repository.go (slots, schedule, shuffle) and the two
    queries of src/dag/init_manage.go.  The database is a record of the stored
    values: a value is read back as it was stored, and a missing one gives the
    initial value together with an error.  A time is its number of nanoseconds
    since 1970, as [time.Time] measures it. *)

From S2P Require Import Prelude Float64 Address Opcode Tx Unit HeapSort Uint128 ChainParams.
From Stdlib Require Import ZArith Lia Bool.
Local Open Scope Z_scope.

(** ** global_property.go *)

Record GlobalProperty := mkGlobalProperty {
  ImmutableParameters : Params.ImmutableChainParameters; ChainParameters : Params.ChainParameters;
  ActiveMediators : gmap Address bool; PrecedingMediators : gmap Address bool }.
Definition NewGlobalProp : GlobalProperty := mkGlobalProperty Params.NewImmutChainParams Params.NewChainParams ∅ ∅.

Record DynamicGlobalProperty := mkDynamicGlobalProperty {
  LastMediator : Address; IsShuffledSchedule : bool; NextMaintenanceTime : Z; LastMaintenanceTime : Z;
  CurrentAbsoluteSlot : Z; RecentSlotsFilled : U128.Uint128; MaintenanceFlag : bool }.
Definition NewDynGlobalProp : DynamicGlobalProperty := mkDynamicGlobalProperty zeroAddress false 0 0 0 U128.MaxValue false.

Record UnitProperty := mkUnitProperty { up_Hash : Hash; up_ChainIndex : ChainIndex; up_Timestamp : Z }.

Definition ActiveMediatorsCount (gp : GlobalProperty) : Z := Z.of_nat (size (ActiveMediators gp)).
Definition PrecedingMediatorsCount (gp : GlobalProperty) : Z := Z.of_nat (size (PrecedingMediators gp)).
Definition PalletOne100Percent : Z := 10000.
Definition PalletOne1Percent : Z := PalletOne100Percent / 100.
Definition PalletOneIrreversibleThreshold : Z := 70 * PalletOne1Percent.
Definition calcThreshold (aSize : Z) : Z :=
  let offset := Z.quot ((PalletOne100Percent - PalletOneIrreversibleThreshold) * aSize) PalletOne100Percent in
  aSize - offset.
Definition ChainThreshold (gp : GlobalProperty) : Z := calcThreshold (ActiveMediatorsCount gp).
Definition PrecedingThreshold (gp : GlobalProperty) : Z := calcThreshold (PrecedingMediatorsCount gp).
(** A missing key reads as [false]. *)
Definition IsActiveMediator (gp : GlobalProperty) (add : Address) : bool := default false (ActiveMediators gp !! add).
Definition IsPrecedingMediator (gp : GlobalProperty) (add : Address) : bool := default false (PrecedingMediators gp !! add).

(** The keys of the map, in ascending order: the order of the iteration does not matter. *)
Definition keys_of (m : gmap Address bool) : list Address := (map_to_list m).*1.
Definition GetActiveMediators (gp : GlobalProperty) : list Address := Heap.GoSort Less (keys_of (ActiveMediators gp)).
Definition GetActiveMediatorAddr (gp : GlobalProperty) (idx : Z) : Address :=
  if (idx <? 0) || (ActiveMediatorsCount gp - 1 <? idx) then zeroAddress
  else default zeroAddress (index (GetActiveMediators gp) idx).

(** Genesis: the candidates listed first become active.  [StrToMedAdd] parses the text of an address;
    a candidate that is missing or does not parse is a panic. *)
Fixpoint init_active {E : Type} (StrToMedAdd : string -> result string Address) (candidates : list string) (count : nat)
    (active : gmap Address bool) : result E (gmap Address bool) :=
  match count with
  | O => Ok active
  | S count =>
      match candidates with
      | [] => Panic
      | AddStr :: candidates =>
          match StrToMedAdd AddStr with
          | Ok addr => init_active StrToMedAdd candidates count (<[addr := true]> active)
          | _ => Panic
          end
      end
  end.
Definition InitGlobalProp {E : Type} (StrToMedAdd : string -> result string Address) (InitialParameters : Params.ChainParameters)
    (immutable : Params.ImmutableChainParameters) (InitialMediatorCandidates : list string) : result E GlobalProperty :=
  let? active := init_active StrToMedAdd InitialMediatorCandidates (Z.to_nat (Params.ActiveMediatorCount InitialParameters)) ∅ in
  Ok (mkGlobalProperty immutable InitialParameters active ∅).
Definition InitDynGlobalProp : DynamicGlobalProperty := NewDynGlobalProp.

(** ** mediator_schedule.go *)

Record MediatorSchedule := mkMediatorSchedule { CurrentShuffledMediators : list Address }.
Definition NewMediatorSchl : MediatorSchedule := mkMediatorSchedule [].
Definition InitMediatorSchl (gp : GlobalProperty) : MediatorSchedule := mkMediatorSchedule (GetActiveMediators gp).

(** ** propertydb.go *)

Record PropertyDb := mkPropertyDb {
  global_property : option GlobalProperty; dynamic_global_property : option DynamicGlobalProperty;
  mediator_schedule : option MediatorSchedule; last_unit_info : gmap bytes UnitProperty }.

(** A value read, and whether it was there. *)
Definition RetrieveGlobalProp (db : PropertyDb) : GlobalProperty * bool :=
  match global_property db with Some gp => (gp, true) | None => (NewGlobalProp, false) end.
Definition RetrieveDynGlobalProp (db : PropertyDb) : DynamicGlobalProperty * bool :=
  match dynamic_global_property db with Some dgp => (dgp, true) | None => (NewDynGlobalProp, false) end.
Definition RetrieveMediatorSchl (db : PropertyDb) : MediatorSchedule * bool :=
  match mediator_schedule db with Some ms => (ms, true) | None => (NewMediatorSchl, false) end.
Definition StoreGlobalProp (gp : GlobalProperty) (db : PropertyDb) : PropertyDb :=
  mkPropertyDb (Some gp) (dynamic_global_property db) (mediator_schedule db) (last_unit_info db).
Definition StoreDynGlobalProp (dgp : DynamicGlobalProperty) (db : PropertyDb) : PropertyDb :=
  mkPropertyDb (global_property db) (Some dgp) (mediator_schedule db) (last_unit_info db).
Definition StoreMediatorSchl (ms : MediatorSchedule) (db : PropertyDb) : PropertyDb :=
  mkPropertyDb (global_property db) (dynamic_global_property db) (Some ms) (last_unit_info db).
Definition GetChainParameters (db : PropertyDb) : option Params.ChainParameters :=
  match RetrieveGlobalProp db with (gp, true) => Some (ChainParameters gp) | _ => None end.
(** The hash, height and time of the header; a header without a number is a nil dereference. *)
Definition SetNewestUnit {E : Type} (hash : Hash) (number : option ChainIndex) (time : Z) (db : PropertyDb) : result E PropertyDb :=
  match number with
  | None => Panic
  | Some idx => Ok (mkPropertyDb (global_property db) (dynamic_global_property db) (mediator_schedule db)
                      (<[ci_AssetID idx := mkUnitProperty hash idx (uint32 time)]> (last_unit_info db)))
  end.
Definition db_GetNewestUnit (asset : bytes) (db : PropertyDb) : option UnitProperty := last_unit_info db !! asset.

(** ** prop_repository.go *)

Section Repository.
Context {E : Type}.
Variable gas_token : bytes.      (* dagconfig.DagConfig.GetGasToken() *)

(** The repository reads the fields of the entry before it looks at the error: a missing entry panics. *)
Definition GetNewestUnit (token : bytes) (db : PropertyDb) : result E (Hash * ChainIndex) :=
  let? up := rget (db_GetNewestUnit token db) in Ok (up_Hash up, up_ChainIndex up).
Definition GetNewestUnitTimestamp (token : bytes) (db : PropertyDb) : result E Z :=
  let? up := rget (db_GetNewestUnit token db) in Ok (up_Timestamp up).
Definition GetChainThreshold (db : PropertyDb) : Z :=
  match RetrieveGlobalProp db with (gp, true) => ChainThreshold gp | _ => 0 end.

(** *** The shuffle *)

Definition shuffle_word : Z := 2685821657736338717.
(** xorshift64*, seeded with the upper half of the counter *)
Definition shuffle_key (nowHi i : Z) : Z :=
  let k := uint64 (nowHi + uint64 (i * shuffle_word)) in
  let k := Z.lxor k (Z.shiftr k 12) in
  let k := Z.lxor k (uint64 (Z.shiftl k 25)) in
  let k := Z.lxor k (Z.shiftr k 27) in
  uint64 (k * shuffle_word).
Fixpoint shuffle_loop (turns i aSize : nat) (nowHi : Z) : ST (list Address) E unit :=
  match turns with
  | O => ret tt
  | S turns =>
      let k := shuffle_key nowHi (Z.of_nat i) in
      let jmax := Z.of_nat (aSize - i) in
      let j := Z.of_nat i + k mod jmax in
      Heap.Swap i (Z.to_nat j) ;;; shuffle_loop turns (S i) aSize nowHi
  end.
Definition shuffleMediators (seed : Z) : ST (list Address) E unit :=
  let nowHi := uint64 (Z.shiftl seed 32) in
  let! aSize := gets length in shuffle_loop aSize 0 aSize nowHi.

(** [binary.BigEndian.Uint64] *)
Definition be_uint64 (b : bytes) : result E Z := if len b <? 8 then Panic else Ok (le_uint (rev (slice b 0 8))).

(** Reports whether the schedule was shuffled. *)
Definition UpdateMediatorSchedule : ST PropertyDb E bool :=
  let! gp := gets RetrieveGlobalProp in
  if negb gp.2 then ret false else
  let! ms := gets RetrieveMediatorSchl in
  if negb ms.2 then ret false else
  let! newest := (let! db := gets id in lift (GetNewestUnit gas_token db)) in
  let '(hash, idx) := newest in
  let aSize := ActiveMediatorsCount gp.1 in
  if aSize =? 0 then ret false else
  if negb (ci_Index idx mod aSize =? 0) then ret false else
  let meds := GetActiveMediators gp.1 in
  let! seed := lift (be_uint64 (slice hash 8 (len hash))) in
  match shuffleMediators seed meds with
  | (meds, Ok _) => modify (StoreMediatorSchl (mkMediatorSchedule meds)) ;;; ret true
  | (_, Err e) => throw e
  | (_, Panic) => panic
  end.

(** *** Slots *)

Definition Second : Z := 1000000000.
Definition time_Unix (sec : Z) : Z := sec * Second.
Definition Unix (t : Z) : Z := t / Second.

Definition GetSlotTime (slotNum : Z) (db : PropertyDb) : result E Z :=
  if slotNum =? 0 then Ok (time_Unix 0) else
  let '(gp, ok) := RetrieveGlobalProp db in
  if negb ok then Ok (time_Unix 0) else
  let '(dgp, ok) := RetrieveDynGlobalProp db in
  if negb ok then Ok (time_Unix 0) else
  match db_GetNewestUnit gas_token db with
  | None => Ok (time_Unix 0)
  | Some unitProperty =>
      let ts := up_Timestamp unitProperty in
      let interval := Params.MediatorInterval (ChainParameters gp) in
      if ci_Index (up_ChainIndex unitProperty) =? 0 then Ok (time_Unix (int64 (ts + int64 (slotNum * interval))))
      else if interval =? 0 then Panic
      else
        let unitAbsSlot := ts / interval in
        let headSlotTime := time_Unix (int64 (unitAbsSlot * interval)) in
        let slotNum := if MaintenanceFlag dgp then uint32 (slotNum + Params.MaintenanceSkipSlots (ChainParameters gp)) else slotNum in
        Ok (headSlotTime + int64 (int64 (Second * slotNum) * interval))
  end.

Definition GetSlotAtTime (when : Z) (db : PropertyDb) : result E Z :=
  let '(gp, ok) := RetrieveGlobalProp db in
  if negb ok then Ok 0 else
  let? firstSlotTime := GetSlotTime 1 db in
  if when <? firstSlotTime then Ok 0 else
  let diffSecs := int64 (Unix when - Unix firstSlotTime) in
  let interval := Params.MediatorInterval (ChainParameters gp) in
  if interval =? 0 then Ok 0 else Ok (uint32 (uint32 (Z.quot diffSecs interval) + 1)).

Definition GetScheduledMediator (slotNum : Z) (db : PropertyDb) : Address :=
  let ms := (RetrieveMediatorSchl db).1 in
  let dgp := (RetrieveDynGlobalProp db).1 in
  let currentAbsoluteSlot := uint64 (CurrentAbsoluteSlot dgp + slotNum) in
  let csmLen := len (CurrentShuffledMediators ms) in
  if csmLen =? 0 then zeroAddress
  else default zeroAddress (index (CurrentShuffledMediators ms) (uint64 (currentAbsoluteSlot - 1) mod csmLen)).

End Repository.

(** ** init_manage.go *)

Definition IsConsecutiveMediator (nextMediator : Address) (db : PropertyDb) : bool :=
  let dgp := (RetrieveDynGlobalProp db).1 in
  negb (IsShuffledSchedule dgp) && Equal nextMediator (LastMediator dgp).
Definition MediatorParticipationRate (db : PropertyDb) : Z :=
  let recentSlotsFilled := RecentSlotsFilled (RetrieveDynGlobalProp db).1 in
  uint32 (Z.quot (PalletOne100Percent * U128.PopCount recentSlotsFilled) 128).

(** ** The shuffle is fair in the sense that matters *)

Lemma shuffle_loop_perm {E} turns : forall i aSize nowHi l, (i + turns <= aSize)%nat -> aSize = length l ->
  exists l', @shuffle_loop E turns i aSize nowHi l = (l', Ok tt) /\ l' ≡ₚ l.
Proof.
  induction turns as [|turns IH]; intros i aSize nowHi l Hi ->; cbn [shuffle_loop]; [eauto|].
  set (j := Z.to_nat _). assert (Hj : (i <= j < length l)%nat).
  { unfold j. pose proof (Z.mod_pos_bound (shuffle_key nowHi (Z.of_nat i)) (Z.of_nat (length l - i))). lia. }
  erewrite bind_ok by (apply Heap.Swap_ok; lia).
  destruct (IH (S i) (length l) nowHi (Heap.swap l i j)) as (l' & Hl' & Hp).
  - lia.
  - unfold Heap.swap. by rewrite !length_insert.
  - exists l'. split; [done|]. rewrite Hp. apply (Heap.sh_perm 0 (length l)). apply Heap.swap_shuffled; lia.
Qed.
Lemma shuffle_perm {E} seed l : exists l', @shuffleMediators E seed l = (l', Ok tt) /\ l' ≡ₚ l.
Proof. unfold shuffleMediators. rewrite (bind_ok _ _ l l (length l)) by done. apply shuffle_loop_perm; lia. Qed.

(** What a call of UpdateMediatorSchedule does: it leaves the database alone, or stores a rearrangement of
    the active mediators at a height that is a multiple of their number. *)
Lemma UpdateMediatorSchedule_inv {E} gas_token db db' r : @UpdateMediatorSchedule E gas_token db = (db', Ok r) ->
  if r then exists gp ms up, global_property db = Some gp /\ last_unit_info db !! gas_token = Some up /\
    db' = StoreMediatorSchl ms db /\ CurrentShuffledMediators ms ≡ₚ keys_of (ActiveMediators gp) /\
    0 < ActiveMediatorsCount gp /\ ci_Index (up_ChainIndex up) mod ActiveMediatorsCount gp = 0
  else db' = db.
Proof.
  unfold UpdateMediatorSchedule, RetrieveGlobalProp, RetrieveMediatorSchl, GetNewestUnit, db_GetNewestUnit.
  unfold bind, gets, ret, lift, throw, panic, modify, rget, rbind, id.
  destruct (global_property db) as [gp|] eqn:Hgp; simpl; [|by intros [= <- <-]].
  destruct (mediator_schedule db) as [ms|]; simpl; [|by intros [= <- <-]].
  destruct (last_unit_info db !! gas_token) as [up|] eqn:Hup; simpl; [|done].
  destruct (Z.eqb_spec (ActiveMediatorsCount gp) 0) as [H0|H0]; [by intros [= <- <-]|].
  destruct (Z.eqb_spec (ci_Index (up_ChainIndex up) mod ActiveMediatorsCount gp) 0) as [Hm|Hm]; simpl; [|by intros [= <- <-]].
  unfold be_uint64. destruct (len (slice (up_Hash up) 8 (len (up_Hash up))) <? 8); [done|].
  destruct (shuffle_perm (E := E) (le_uint (rev (slice (slice (up_Hash up) 8 (len (up_Hash up))) 0 8))) (GetActiveMediators gp)) as (l & -> & Hp).
  intros [= <- <-]. exists gp, (mkMediatorSchedule l), up. unfold ActiveMediatorsCount in *.
  split_and!; try done; [|lia]. simpl. rewrite Hp. apply Heap.GoSort_perm.
Qed.

(** Only a successful call stores anything. *)
Lemma UpdateMediatorSchedule_fails {E} gas_token db db' r : @UpdateMediatorSchedule E gas_token db = (db', r) ->
  (exists e, r = Err e) \/ r = Panic -> db' = db.
Proof.
  unfold UpdateMediatorSchedule, RetrieveGlobalProp, RetrieveMediatorSchl, GetNewestUnit, db_GetNewestUnit, be_uint64.
  unfold bind, gets, ret, lift, throw, panic, modify, rget, rbind, id. intros H Hr. repeat case_match; simplify_eq; try done.
  all: destruct Hr as [[e He]|He]; simplify_eq.
Qed.

(** ** Slots *)

Record ready (gas_token : bytes) (db : PropertyDb) (gp : GlobalProperty) (dgp : DynamicGlobalProperty) (up : UnitProperty) : Prop := {
  rd_gp : global_property db = Some gp;
  rd_dgp : dynamic_global_property db = Some dgp;
  rd_up : last_unit_info db !! gas_token = Some up;
  rd_interval : 0 < Params.MediatorInterval (ChainParameters gp) < 256;
  rd_skip : 0 <= Params.MaintenanceSkipSlots (ChainParameters gp) < 256;
  rd_time : 0 <= up_Timestamp up < 2 ^ 32 }.

(** Slot [n] starts [n] intervals after this time, in seconds. *)
Definition slot_base (gp : GlobalProperty) (dgp : DynamicGlobalProperty) (up : UnitProperty) : Z :=
  let interval := Params.MediatorInterval (ChainParameters gp) in
  if ci_Index (up_ChainIndex up) =? 0 then up_Timestamp up
  else up_Timestamp up / interval * interval + (if MaintenanceFlag dgp then Params.MaintenanceSkipSlots (ChainParameters gp) * interval else 0).

Lemma slot_base_range tok db gp dgp up : ready tok db gp dgp up -> 0 <= slot_base gp dgp up.
Proof.
  intros [_ _ _ Hi Hs Ht]. unfold slot_base. set (I := Params.MediatorInterval _) in *. set (K := Params.MaintenanceSkipSlots _) in *.
  pose proof (Z.div_pos (up_Timestamp up) I). destruct (_ =? 0); [lia|]. destruct (MaintenanceFlag dgp); nia.
Qed.

Lemma GetSlotTime_value {E} tok db gp dgp up n : ready tok db gp dgp up -> 1 <= n -> n + 255 < 2 ^ 32 ->
  (n + 255) * Params.MediatorInterval (ChainParameters gp) <= 9223372036 ->
  @GetSlotTime E tok n db = Ok (Second * (slot_base gp dgp up + n * Params.MediatorInterval (ChainParameters gp))).
Proof.
  intros [Hgp Hdgp Hup Hi Hs Ht] Hn Hn32 Hni. unfold GetSlotTime, RetrieveGlobalProp, RetrieveDynGlobalProp, db_GetNewestUnit, slot_base, time_Unix.
  rewrite Hgp, Hdgp, Hup. simpl negb. cbv iota. set (I := Params.MediatorInterval _) in *. set (K := Params.MaintenanceSkipSlots _) in *.
  assert (0 <= n * I) by nia. rewrite (proj2 (Z.eqb_neq n 0)), (proj2 (Z.eqb_neq I 0)) by lia. destruct (ci_Index (up_ChainIndex up) =? 0).
  - rewrite (int64_small (n * I)), int64_small by lia. f_equal. lia.
  - assert (0 <= up_Timestamp up / I * I <= up_Timestamp up).
    { pose proof (Z.mul_div_le (up_Timestamp up) I). pose proof (Z.div_pos (up_Timestamp up) I). nia. }
    rewrite (int64_small (up_Timestamp up / I * I)) by lia. unfold Second. destruct (MaintenanceFlag dgp).
    + replace (uint32 (n + K)) with (n + K) by (symmetry; apply wrapU_small; lia).
      rewrite (int64_small (1000000000 * (n + K))) by lia. rewrite int64_small by nia. f_equal. lia.
    + rewrite (int64_small (1000000000 * n)) by lia. rewrite int64_small by nia. f_equal. lia.
Qed.

Lemma GetSlotAtTime_nonneg {E} tok when db n : @GetSlotAtTime E tok when db = Ok n -> 0 <= n.
Proof.
  unfold GetSlotAtTime. destruct (RetrieveGlobalProp db) as [gp []]; simpl; [|intros [= <-]; lia].
  destruct (GetSlotTime tok 1 db); simpl; try done. destruct (when <? a); [intros [= <-]; lia|].
  destruct (_ =? 0); [intros [= <-]; lia|]. intros [= <-]. apply (wrapU_range 32). lia.
Qed.

(** GetSlotAtTime finds the last slot that has started: of all slots whose start does not overflow, those
    that start at or before [when] are exactly the slots 1 to its result. *)
Theorem slot_at_time_spec {E} tok db gp dgp up when : ready tok db gp dgp up -> 0 <= when < 2 ^ 32 * Second ->
  exists N, @GetSlotAtTime E tok when db = Ok N /\ 0 <= N /\
    forall n, 1 <= n -> n + 255 < 2 ^ 32 -> (n + 255) * Params.MediatorInterval (ChainParameters gp) <= 9223372036 ->
      exists t, @GetSlotTime E tok n db = Ok t /\ (t <= when <-> n <= N).
Proof.
  intros Hr Hw. pose proof (slot_base_range _ _ _ _ _ Hr) as Hb. pose proof Hr as [Hgp Hdgp Hup Hi Hs Ht].
  set (I := Params.MediatorInterval (ChainParameters gp)) in *. set (B := slot_base gp dgp up) in *.
  assert (Hfirst : @GetSlotTime E tok 1 db = Ok (Second * (B + 1 * I))) by (apply (GetSlotTime_value tok db gp dgp up); auto; fold I; lia).
  assert (Hunix : forall z, Second * z <= when <-> z <= Unix when).
  { intros z. unfold Unix. pose proof (Z.div_mod when Second). pose proof (Z.mod_pos_bound when Second). unfold Second in *. lia. }
  assert (Hwb : 0 <= Unix when < 2 ^ 32).
  { unfold Unix, Second in *. split; [apply Z.div_pos; lia|apply Z.div_lt_upper_bound; lia]. }
  assert (Hslots : forall N, (forall n, 1 <= n -> (B + n * I <= Unix when <-> n <= N)) ->
    forall n, 1 <= n -> n + 255 < 2 ^ 32 -> (n + 255) * I <= 9223372036 -> exists t, @GetSlotTime E tok n db = Ok t /\ (t <= when <-> n <= N)).
  { intros N HN n H1 H2 H3. exists (Second * (B + n * I)). split; [by apply GetSlotTime_value|]. by rewrite Hunix, HN. }
  unfold GetSlotAtTime, RetrieveGlobalProp. rewrite Hgp. simpl negb. cbv iota. rewrite Hfirst. cbn [rbind]. fold I.
  rewrite (proj2 (Z.eqb_neq I 0)) by lia. destruct (Z.ltb_spec when (Second * (B + 1 * I))) as [Hlt|Hge].
  - exists 0. split; [done|]. split; [lia|]. apply Hslots. intros n Hn. assert (~ (B + 1 * I <= Unix when)) by (rewrite <- Hunix; lia). nia.
  - apply Hunix in Hge. assert (Unix (Second * (B + 1 * I)) = B + I) as ->.
    { unfold Unix. rewrite Z.mul_comm, Z.div_mul by (unfold Second; lia). lia. }
    rewrite int64_small by lia. rewrite Z.quot_div_nonneg by lia. set (q := (Unix when - (B + I)) / I).
    pose proof (Z.div_mod (Unix when - (B + I)) I). pose proof (Z.mod_pos_bound (Unix when - (B + I)) I).
    assert (0 <= q) by (apply Z.div_pos; lia). assert (q <= Unix when - (B + I)) by (fold q in H; nia).
    exists (q + 1). unfold uint32. rewrite !wrapU_small; [|simpl in *; lia|rewrite wrapU_small; simpl in *; lia].
    split; [done|]. split; [lia|]. apply Hslots. intros n Hn. fold q in H. nia.
Qed.

(** ** Turns *)

(** [n] consecutive indexes modulo [n] visit every position once. *)
Lemma rotation {A} (d : A) (l : list A) (a : nat) :
  (fun i => default d (l !! ((a + i) mod length l)%nat)) <$> seq 0 (length l) ≡ₚ l.
Proof.
  destruct (decide (l = [])) as [->|Hne]; [done|]. set (n := length l). assert (Hn : (0 < n)%nat) by (unfold n; destruct l; [done|simpl; lia]).
  set (r := (a mod n)%nat). assert (Hr : (r < n)%nat) by (apply Nat.mod_upper_bound; lia).
  cut ((fun i => default d (l !! ((a + i) mod n)%nat)) <$> seq 0 n = drop r l ++ take r l).
  { intros ->. rewrite (Permutation_app_comm (drop r l)). by rewrite take_drop. }
  apply list_eq. intros i. rewrite list_lookup_fmap. destruct (decide (i < n)%nat) as [Hi|Hi].
  - rewrite lookup_seq_lt by lia. simpl.
    assert ((a + i) mod n = (r + i) mod n)%nat as -> by (unfold r; by rewrite Nat.Div0.add_mod_idemp_l).
    assert (Hsome : forall k, (k < n)%nat -> Some (default d (l !! k)) = l !! k).
    { intros k Hk. destruct (lookup_lt_is_Some_2 l k Hk) as [x ->]. done. }
    destruct (decide (r + i < n)%nat) as [Hlt|Hge].
    + rewrite Nat.mod_small, lookup_app_l, lookup_drop by (rewrite ?length_drop; fold n; lia). apply Hsome. lia.
    + assert ((r + i) mod n = r + i - n)%nat as -> by (symmetry; apply (Nat.mod_unique _ _ 1); lia).
      rewrite lookup_app_r, length_drop by (rewrite ?length_drop; fold n; lia). fold n.
      rewrite lookup_take_lt by lia. replace (i - (n - r))%nat with (r + i - n)%nat by lia. apply Hsome. lia.
  - rewrite lookup_seq_ge by lia. symmetry. apply lookup_ge_None. rewrite length_app, length_drop, length_take. fold n. lia.
Qed.

(** The mediators scheduled for a run of slots as long as the schedule are the schedule, rearranged. *)
Lemma scheduled_round db s : 0 <= s ->
  let L := CurrentShuffledMediators (RetrieveMediatorSchl db).1 in
  let abs := CurrentAbsoluteSlot (RetrieveDynGlobalProp db).1 in
  0 <= abs -> abs + s + len L < 2 ^ 64 ->
  (fun i => GetScheduledMediator (s + 1 + Z.of_nat i) db) <$> seq 0 (length L) ≡ₚ L.
Proof.
  intros Hs L abs Habs Hlim. rewrite <- (rotation zeroAddress L (Z.to_nat (abs + s))) at 2. apply eq_reflexivity || idtac.
  assert (Heq : forall i, i ∈ seq 0 (length L) -> GetScheduledMediator (s + 1 + Z.of_nat i) db = default zeroAddress (L !! ((Z.to_nat (abs + s) + i) mod length L)%nat)).
  { intros i Hi%elem_of_seq. unfold GetScheduledMediator. fold L abs. unfold len in *.
    rewrite (proj2 (Z.eqb_neq _ 0)) by lia. unfold uint64. rewrite (wrapU_small 64 (abs + (s + 1 + Z.of_nat i))) by (simpl in *; lia).
    rewrite wrapU_small by (simpl in *; lia). unfold index. f_equal.
    replace (abs + (s + 1 + Z.of_nat i) - 1) with (Z.of_nat (Z.to_nat (abs + s) + i)) by lia. rewrite <- Nat2Z.inj_mod.
    rewrite (proj2 (Z.ltb_ge _ 0)) by lia. by rewrite Nat2Z.id. }
  rewrite (list_fmap_ext _ (fun i => default zeroAddress (L !! ((Z.to_nat (abs + s) + i) mod length L)%nat))); [done|].
  intros i x Hx. apply Heq. eapply list_elem_of_lookup_2; eauto.
Qed.

(** C11: A mediator's share of the round: after a shuffle, whatever slot comes next, every active mediator is
    scheduled for exactly one of the following [n] slots, [n] the number of active mediators. *)
Theorem every_mediator_scheduled {E} gas_token db db' gp s m :
  @UpdateMediatorSchedule E gas_token db = (db', Ok true) -> global_property db = Some gp -> 0 <= s ->
  0 <= CurrentAbsoluteSlot (RetrieveDynGlobalProp db').1 ->
  CurrentAbsoluteSlot (RetrieveDynGlobalProp db').1 + s + ActiveMediatorsCount gp < 2 ^ 64 ->
  m ∈ keys_of (ActiveMediators gp) ->
  exists i, 0 <= i < ActiveMediatorsCount gp /\ GetScheduledMediator (s + 1 + i) db' = m /\
    forall j, 0 <= j < ActiveMediatorsCount gp -> GetScheduledMediator (s + 1 + j) db' = m -> j = i.
Proof.
  intros Hup Hgp Hs Habs Hlim Hm. apply UpdateMediatorSchedule_inv in Hup as (gp' & ms & up & Hgp' & _ & -> & Hp & _).
  rewrite Hgp in Hgp'. injection Hgp' as <-.
  set (db' := StoreMediatorSchl ms db) in *. assert (HL : CurrentShuffledMediators (RetrieveMediatorSchl db').1 = CurrentShuffledMediators ms) by done.
  assert (Hlen : len (CurrentShuffledMediators ms) = ActiveMediatorsCount gp).
  { unfold len, ActiveMediatorsCount, keys_of in *. rewrite Hp, length_fmap. by rewrite length_map_to_list. }
  pose proof (scheduled_round db' s Hs Habs) as Hround. rewrite HL, Hlen in Hround. specialize (Hround Hlim).
  assert (Hnd : NoDup ((fun i => GetScheduledMediator (s + 1 + Z.of_nat i) db') <$> seq 0 (length (CurrentShuffledMediators ms)))).
  { rewrite Hround, Hp. apply NoDup_fst_map_to_list. }
  assert (Hlook : forall j, 0 <= j < ActiveMediatorsCount gp ->
    ((fun i => GetScheduledMediator (s + 1 + Z.of_nat i) db') <$> seq 0 (length (CurrentShuffledMediators ms))) !! Z.to_nat j =
    Some (GetScheduledMediator (s + 1 + j) db')).
  { intros j Hj. rewrite list_lookup_fmap, lookup_seq_lt by (unfold len in Hlen; lia). simpl. by rewrite Z2Nat.id by lia. }
  rewrite <- Hp, <- Hround in Hm. apply list_elem_of_fmap in Hm as (i & -> & Hi%elem_of_seq). exists (Z.of_nat i).
  unfold len in Hlen. split; [lia|]. split; [done|]. intros j Hj Heq.
  assert (Z.to_nat j = i); [|lia]. eapply NoDup_lookup; [exact Hnd|by apply Hlook|]. rewrite Heq.
  pose proof (Hlook (Z.of_nat i)) as Hi'. rewrite Nat2Z.id in Hi'. apply Hi'. lia.
Qed.

(** ** The threshold *)

(** A threshold of the active mediators: more than two thirds of them, the least number that is at least
    70 per cent. *)
Theorem threshold_majority aSize : 0 <= aSize ->
  let t := calcThreshold aSize in 0 <= t <= aSize /\ 7 * aSize <= 10 * t < 7 * aSize + 10 /\ (0 < aSize -> 2 * aSize < 3 * t).
Proof.
  intros Ha t. unfold t, calcThreshold. change (PalletOne100Percent - PalletOneIrreversibleThreshold) with 3000. unfold PalletOne100Percent.
  rewrite Z.quot_div_nonneg by lia. dlia.
Qed.

(** The participation rate is a percentage (in hundredths) of the last 128 slots. *)
Theorem participation_spec db : U128.wf (RecentSlotsFilled (RetrieveDynGlobalProp db).1) ->
  MediatorParticipationRate db = 10000 * len (U128.bits_set 128 (U128.val (RecentSlotsFilled (RetrieveDynGlobalProp db).1))) / 128 /\
  0 <= MediatorParticipationRate db <= 10000.
Proof.
  intros Hwf. unfold MediatorParticipationRate. rewrite U128.PopCount_val by done. unfold PalletOne100Percent, uint32.
  set (c := len _). assert (0 <= c <= 128).
  { unfold c, len, U128.bits_set. pose proof (List.filter_length_le (fun i => Z.testbit (U128.val (RecentSlotsFilled (RetrieveDynGlobalProp db).1)) (Z.of_nat i)) (seq 0 128)) as H.
    rewrite length_seq in H. lia. }
  rewrite Z.quot_div_nonneg by lia. assert (0 <= 10000 * c / 128 <= 10000) by dlia. rewrite wrapU_small by (simpl; lia). done.
Qed.

(** ** A sample chain *)

Definition sample_mediator (b : byte) : Address := replicate 20 b ++ [x00].
Definition sample_gp : GlobalProperty :=
  mkGlobalProperty Params.NewImmutChainParams Params.NewChainParams
    (list_to_map ((fun b => (sample_mediator b, true)) <$> [x01; x02; x03; x04; x05])) ∅.
Definition sample_dgp : DynamicGlobalProperty := mkDynamicGlobalProperty (sample_mediator x01) false 1600000300 1600000000 10 U128.MaxValue true.
Definition sample_token : bytes := replicate 16 x00.
Definition sample_up : UnitProperty := mkUnitProperty (replicate 32 x07) (mkChainIndex sample_token 10) 1600000001.
Definition sample_db : PropertyDb :=
  mkPropertyDb (Some sample_gp) (Some sample_dgp) (Some NewMediatorSchl) {[ sample_token := sample_up ]}.

Lemma sample_ready : ready sample_token sample_db sample_gp sample_dgp sample_up.
Proof. split; [reflexivity|reflexivity|by apply lookup_singleton_Some| | |]; vm_compute; split; congruence. Qed.

Lemma slot_at_time_spec_witness : let when := 1600000011 * Second in
  exists N, @GetSlotAtTime unit sample_token when sample_db = Ok N /\ 0 <= N /\
    forall n, 1 <= n -> n + 255 < 2 ^ 32 -> (n + 255) * Params.MediatorInterval (ChainParameters sample_gp) <= 9223372036 ->
      exists t, @GetSlotTime unit sample_token n sample_db = Ok t /\ (t <= when <-> n <= N).
Proof. apply slot_at_time_spec with (dgp := sample_dgp) (up := sample_up); [apply sample_ready|]. vm_compute. split; congruence. Defined.

Definition shuffled_db : PropertyDb := (@UpdateMediatorSchedule unit sample_token sample_db).1.
Lemma shuffled_ok : (@UpdateMediatorSchedule unit sample_token sample_db).2 = Ok true.
Proof. vm_compute. reflexivity. Qed.
Lemma every_mediator_scheduled_witness :
  exists i, 0 <= i < ActiveMediatorsCount sample_gp /\ GetScheduledMediator (0 + 1 + i) shuffled_db = sample_mediator x04 /\
    forall j, 0 <= j < ActiveMediatorsCount sample_gp -> GetScheduledMediator (0 + 1 + j) shuffled_db = sample_mediator x04 -> j = i.
Proof.
  apply (every_mediator_scheduled (E := unit) sample_token sample_db).
  - rewrite <- shuffled_ok. apply surjective_pairing.
  - reflexivity.
  - lia.
  - vm_compute. congruence.
  - vm_compute. reflexivity.
  - apply list_elem_of_fmap. exists (sample_mediator x04, true). split; [reflexivity|]. apply elem_of_map_to_list. vm_compute. reflexivity.
Defined.
Lemma threshold_majority_witness : let t := calcThreshold 5 in 0 <= t <= 5 /\ 7 * 5 <= 10 * t < 7 * 5 + 10 /\ (0 < 5 -> 2 * 5 < 3 * t).
Proof. apply threshold_majority. lia. Defined.
Lemma participation_spec_witness :
  MediatorParticipationRate sample_db = 10000 * len (U128.bits_set 128 (U128.val (RecentSlotsFilled (RetrieveDynGlobalProp sample_db).1))) / 128 /\
  0 <= MediatorParticipationRate sample_db <= 10000.
Proof. apply participation_spec. repeat split; vm_compute; congruence. Defined.
