(* ===== verification/Pledge.v ===== *)
(** * Pledges and votes

    src/dag/modules/pledge.go (the list of pledged amounts) and the two functions
    of src/dag/common/state_repository.go that count votes with it
    (GetPledgeListWithNew, GetMediatorVotedResults).  What they read from the state
    of the deposit contract and of the accounts, decoded from JSON, is an
    argument. *)

From S2P Require Import Prelude Address.
From Stdlib Require Import ZArith Lia Bool.
Local Open Scope Z_scope.

Record AddressRewardAmount := mkMember { p_Address : string; p_Amount : Z; p_Reward : Z }.
Record PledgeList := mkPledgeList { TotalAmount : Z; Date : string; Members : list AddressRewardAmount }.
Definition empty_pledge : PledgeList := mkPledgeList 0 "" [].

(** The loop of [Add]: the first entry of the address grows; otherwise a new one is appended. *)
Fixpoint add_member (addr : string) (amount reward : Z) (l : list AddressRewardAmount) : list AddressRewardAmount :=
  match l with
  | [] => [mkMember addr amount reward]
  | p :: l' =>
      if String.eqb (p_Address p) addr then mkMember (p_Address p) (uint64 (p_Amount p + amount)) (uint64 (p_Reward p + reward)) :: l'
      else p :: add_member addr amount reward l'
  end.
Definition pledge_Add (addr : string) (amount reward : Z) (pl : PledgeList) : PledgeList :=
  mkPledgeList (uint64 (TotalAmount pl + amount)) (Date pl) (add_member addr amount reward (Members pl)).

Fixpoint amount_of (addr : string) (acc : Z) (l : list AddressRewardAmount) : Z :=
  match l with
  | [] => acc
  | row :: l' => amount_of addr (if String.eqb (p_Address row) addr then uint64 (acc + p_Amount row) else acc) l'
  end.
Definition pledge_GetAmount (addr : string) (pl : PledgeList) : Z := amount_of addr 0 (Members pl).

Inductive pledge_error := NotEnoughAmount | AddressNotFound.
Definition MaxUint64 : Z := 18446744073709551615.

(** The loop of [Reduce]: the entries before the address, the amount taken and the entries after. *)
Fixpoint reduce_member (addr : string) (amount : Z) (l : list AddressRewardAmount) : result pledge_error (Z * list AddressRewardAmount) :=
  match l with
  | [] => Err AddressNotFound
  | p :: l' =>
      if String.eqb (p_Address p) addr then
        let amount := if amount =? MaxUint64 then p_Amount p else amount in
        if p_Amount p <? amount then Err NotEnoughAmount
        else if p_Amount p =? amount then Ok (amount, l')
        else Ok (amount, mkMember (p_Address p) (p_Amount p - amount) (p_Reward p) :: l')
      else let? r := reduce_member addr amount l' in Ok (r.1, p :: r.2)
  end.
Definition pledge_Reduce (addr : string) (amount : Z) : ST PledgeList pledge_error Z :=
  let! pl := gets id in
  let! r := lift (reduce_member addr amount (Members pl)) in
  modify (fun pl => mkPledgeList (uint64 (TotalAmount pl - r.1)) (Date pl) r.2) ;;; ret r.1.

(** ** Votes *)

(** What the count reads: the candidates, the stored pledge list, the pledges applied for and, for an
    account, the mediators it votes for.  [None] is an error. *)
Record VoteQuery := mkVoteQuery {
  CandidateMediatorList : option (list string);
  StoredPledgeList : option PledgeList;
  PledgeDepositApplyList : list (string * Z);
  AccountVotedMediators : Address -> list string }.

Definition GetPledgeListWithNew (q : VoteQuery) : PledgeList :=
  foldl (fun pl d => pledge_Add d.1 d.2 0 pl) (default empty_pledge (StoredPledgeList q)) (PledgeDepositApplyList q).

Section Votes.
Variable CheckDecode : string -> result address_error (bytes * byte).

(** [addr, _ := common.StringToAddress(s)]: the zero address on an error *)
Definition address_or_zero (s : string) : Address := match StringToAddress CheckDecode s with Ok a => a | _ => zeroAddress end.

Definition vote_once (amount : Z) (votes : gmap string Z) (med : string) : gmap string Z :=
  match votes !! med with
  | None => votes
  | Some n => <[med := uint64 (n + amount)]> votes
  end.
Definition GetMediatorVotedResults (q : VoteQuery) : gmap string Z :=
  match CandidateMediatorList q with
  | None => ∅
  | Some mediators =>
      let start := list_to_map ((fun a => (a, 0)) <$> mediators) in
      foldl (fun votes account => foldl (vote_once (p_Amount account)) votes (AccountVotedMediators q (address_or_zero (p_Address account))))
        start (Members (GetPledgeListWithNew q))
  end.
End Votes.

(** ** The list adds up *)

Definition total (l : list AddressRewardAmount) : Z := foldr (fun p acc => p_Amount p + acc) 0 l.
(** One entry per address, each within 64 bits, and the recorded total is their sum (modulo 2^64). *)
Record pledge_ok (pl : PledgeList) : Prop := {
  po_distinct : NoDup (p_Address <$> Members pl);
  po_range : Forall (fun p => 0 <= p_Amount p < 2 ^ 64) (Members pl);
  po_total : TotalAmount pl = total (Members pl) mod 2 ^ 64 }.

Lemma add_member_addresses addr a r l : p_Address <$> add_member addr a r l = p_Address <$> l \/
  ((addr ∉ (p_Address <$> l)) /\ p_Address <$> add_member addr a r l = (p_Address <$> l) ++ [addr]).
Proof.
  induction l as [|p l IH]; [right; split; [apply not_elem_of_nil|done]|]. cbn [add_member].
  destruct (String.eqb_spec (p_Address p) addr) as [<-|Hne]; rewrite !fmap_cons; [by left|].
  destruct IH as [->|[Hn ->]]; [by left|right]. split; [|done]. rewrite not_elem_of_cons. split; congruence.
Qed.
Lemma add_member_total addr a r l : total (add_member addr a r l) mod 2 ^ 64 = (total l + a) mod 2 ^ 64.
Proof.
  induction l as [|p l IH]; simpl; [f_equal; lia|]. destruct (String.eqb (p_Address p) addr); simpl.
  - unfold uint64, wrapU. rewrite Z.add_mod_idemp_l by lia. f_equal. lia.
  - rewrite <- Z.add_mod_idemp_r, IH, Z.add_mod_idemp_r by lia. f_equal. lia.
Qed.
Lemma pledge_Add_ok addr a r pl : 0 <= a < 2 ^ 64 -> pledge_ok pl -> pledge_ok (pledge_Add addr a r pl).
Proof.
  intros Ha [Hd Hr Ht]. split; simpl.
  - destruct (add_member_addresses addr a r (Members pl)) as [->|[Hn ->]]; [done|]. apply NoDup_app. split_and!; [done| |apply NoDup_singleton].
    intros x Hx ->%list_elem_of_singleton. done.
  - clear Hd Ht. revert Hr. generalize (Members pl). induction 1 as [|p l Hp Hr IH]; simpl; [by apply Forall_singleton|].
    destruct (String.eqb (p_Address p) addr); apply Forall_cons; split; auto. apply (wrapU_range 64). lia.
  - rewrite add_member_total, Ht. unfold uint64, wrapU. by rewrite Z.add_mod_idemp_l by lia.
Qed.

(** Asking for the greatest amount means all of it. *)
Definition asked (amount have : Z) : Z := if amount =? MaxUint64 then have else amount.
Lemma reduce_member_spec addr amount l : NoDup (p_Address <$> l) ->
  match reduce_member addr amount l with
  | Ok (taken, l') => exists l1 p l2, l = l1 ++ p :: l2 /\ p_Address p = addr /\ taken = asked amount (p_Amount p) /\ taken <= p_Amount p /\
      l' = l1 ++ (if p_Amount p =? taken then [] else [mkMember addr (p_Amount p - taken) (p_Reward p)]) ++ l2
  | Err NotEnoughAmount => exists p, p ∈ l /\ p_Address p = addr /\ p_Amount p < asked amount (p_Amount p)
  | Err AddressNotFound => addr ∉ (p_Address <$> l)
  | Panic => False
  end.
Proof.
  induction l as [|p l IH]; [intros _; apply not_elem_of_nil|]. rewrite fmap_cons. intros [Hp Hl]%NoDup_cons. cbn [reduce_member]. destruct (String.eqb_spec (p_Address p) addr) as [<-|Hne].
  - fold (asked amount (p_Amount p)). destruct (Z.ltb_spec (p_Amount p) (asked amount (p_Amount p))); [exists p; split; [by left|done]|].
    destruct (p_Amount p =? asked amount (p_Amount p)) eqn:He; exists [], p, l; rewrite He; done.
  - specialize (IH Hl). destruct (reduce_member addr amount l) as [[taken l']|[]|]; cbn [rbind fst snd].
    + destruct IH as (l1 & q & l2 & -> & Hq & Ht & Hle & ->). exists (p :: l1), q, l2. done.
    + destruct IH as (q & Hq & Hrest). exists q. split; [by right|done].
    + rewrite not_elem_of_cons. split; [congruence|done].
    + done.
Qed.

Lemma member_total_app l1 l2 : total (l1 ++ l2) = total l1 + total l2.
Proof. unfold total. induction l1 as [|p l1 IH]; simpl; [lia|]. rewrite IH. lia. Qed.

Lemma pledge_Reduce_ok addr amount pl : 0 <= amount < 2 ^ 64 -> pledge_ok pl -> pledge_ok (pledge_Reduce addr amount pl).1.
Proof.
  intros Ham [Hd Hr Ht]. unfold pledge_Reduce, bind, gets, lift, modify, ret, id.
  pose proof (reduce_member_spec addr amount (Members pl) Hd) as Hs. destruct (reduce_member addr amount (Members pl)) as [[taken l']|e|]; simpl; [|by split|done].
  destruct Hs as (l1 & p & l2 & Hl & Hp & Htk & Hle & ->). rewrite Hl in *. rewrite Forall_app, Forall_cons in Hr. destruct Hr as (Hr1 & Hpr & Hr2).
  assert (Htr : 0 <= taken) by (unfold asked in Htk; destruct (amount =? MaxUint64); lia). split; simpl.
  - rewrite !fmap_app, fmap_cons in *. rewrite Hp in Hd. destruct (p_Amount p =? taken); simpl; [|done].
    rewrite <- Permutation_middle in Hd. by apply NoDup_cons in Hd as [_ Hd].
  - rewrite !Forall_app. split_and!; auto. destruct (p_Amount p =? taken); [constructor|]. repeat constructor; simpl; lia.
  - rewrite Ht, !member_total_app. unfold uint64, wrapU. rewrite Zminus_mod_idemp_l. f_equal. change (total (p :: l2)) with (p_Amount p + total l2).
    destruct (Z.eqb_spec (p_Amount p) taken); simpl; lia.
Qed.

(** ** Theorems *)

(** Pledging and withdrawing in any order keep one entry per address and a total that is the sum of the
    entries; a withdrawal takes at most what the address has, all of it for the greatest amount, removes
    an entry that reaches zero, and fails without effect otherwise. *)
Inductive pledge_step : PledgeList -> PledgeList -> Prop :=
| step_add pl addr a r : 0 <= a < 2 ^ 64 -> pledge_step pl (pledge_Add addr a r pl)
| step_reduce pl addr a : 0 <= a < 2 ^ 64 -> pledge_step pl (pledge_Reduce addr a pl).1.
Inductive pledge_reachable : PledgeList -> Prop :=
| reach_empty : pledge_reachable empty_pledge
| reach_step pl pl' : pledge_reachable pl -> pledge_step pl pl' -> pledge_reachable pl'.

Lemma reachable_ok pl : pledge_reachable pl -> pledge_ok pl.
Proof.
  induction 1 as [|pl pl' _ IH Hs]; [split; [constructor|constructor|done]|].
  destruct Hs; [by apply pledge_Add_ok|by apply pledge_Reduce_ok].
Qed.
Theorem pledge_invariant pl : pledge_reachable pl -> pledge_ok pl.
Proof. apply reachable_ok. Qed.

(** *** Votes *)

Definition times (c : string) (l : list string) : Z := len (List.filter (String.eqb c) l).
(** The votes of a candidate: for every member of the list that votes for it, the amount pledged. *)
Definition votes_for (voted : AddressRewardAmount -> list string) (c : string) (l : list AddressRewardAmount) : Z :=
  foldr (fun p acc => times c (voted p) * p_Amount p + acc) 0 l.
Definition in_range (votes : gmap string Z) : Prop := forall c n, votes !! c = Some n -> 0 <= n < 2 ^ 64.

Lemma vote_once_lookup a votes med c :
  vote_once a votes med !! c = (fun n => if String.eqb c med then uint64 (n + a) else n) <$> votes !! c.
Proof.
  unfold vote_once. destruct (String.eqb_spec c med) as [->|Hne].
  - destruct (votes !! med) as [n|] eqn:Hm; [by simplify_map_eq|by rewrite Hm].
  - destruct (votes !! med) as [n|] eqn:Hm; [rewrite lookup_insert_ne by done|]; by destruct (votes !! c).
Qed.
Lemma vote_account a meds : forall votes c, in_range votes ->
  in_range (foldl (vote_once a) votes meds) /\
  foldl (vote_once a) votes meds !! c = (fun n => (n + times c meds * a) mod 2 ^ 64) <$> votes !! c.
Proof.
  induction meds as [|med meds IH]; intros votes c Hr; simpl.
  - split; [done|]. destruct (votes !! c) as [n|] eqn:Hc; simpl; [|done]. f_equal. rewrite Z.mod_small; [change (times c []) with 0; lia|].
    specialize (Hr c n Hc). change (times c []) with 0. lia.
  - destruct (IH (vote_once a votes med) c) as [H1 H2].
    + intros c' n'. rewrite vote_once_lookup. destruct (votes !! c') as [n|] eqn:Hc; simpl; [|done]. intros [= <-].
      destruct (String.eqb c' med); [apply (wrapU_range 64); lia|by apply (Hr c')].
    + split; [done|]. rewrite H2, vote_once_lookup. destruct (votes !! c) as [n|]; simpl; [|done]. f_equal. unfold times. simpl.
      destruct (String.eqb c med); [|done]. rewrite len_cons. unfold uint64, wrapU. rewrite Z.add_mod_idemp_l by lia. f_equal. lia.
Qed.

(** The vote count: exactly the candidates have one, and it is the amount pledged by the accounts that
    vote for the candidate (modulo 2^64); votes for anyone else are ignored. *)
Theorem votes_spec CheckDecode q ms c : CandidateMediatorList q = Some ms ->
  GetMediatorVotedResults CheckDecode q !! c =
  if decide (c ∈ ms) then
    Some (votes_for (fun p => AccountVotedMediators q (address_or_zero CheckDecode (p_Address p))) c (Members (GetPledgeListWithNew q)) mod 2 ^ 64)
  else None.
Proof.
  intros Hc. unfold GetMediatorVotedResults. rewrite Hc. set (voted := fun p => AccountVotedMediators q (address_or_zero CheckDecode (p_Address p))).
  assert (Hstart : forall c', (list_to_map ((fun a => (a, 0)) <$> ms) : gmap string Z) !! c' = if decide (c' ∈ ms) then Some 0 else None).
  { intros c'. case_decide as Hin.
    - destruct (list_to_map ((fun a => (a, 0)) <$> ms) !! c') as [n|] eqn:Hl.
      + apply elem_of_list_to_map_2, list_elem_of_fmap in Hl as (? & [= -> ->] & _). done.
      + apply not_elem_of_list_to_map_2 in Hl. destruct Hl. rewrite <- list_fmap_compose. by rewrite list_fmap_id.
    - apply not_elem_of_list_to_map_1. rewrite <- list_fmap_compose. by rewrite list_fmap_id. }
  assert (Hgen : forall l votes, in_range votes ->
    foldl (fun votes account => foldl (vote_once (p_Amount account)) votes (voted account)) votes l !! c =
    (fun n => (n + votes_for voted c l) mod 2 ^ 64) <$> votes !! c).
  { induction l as [|p l IH]; intros votes Hr; simpl.
    - destruct (votes !! c) as [n|] eqn:Hn; simpl; [|done]. f_equal. rewrite Z.mod_small; [lia|]. specialize (Hr c n Hn). lia.
    - destruct (vote_account (p_Amount p) (voted p) votes c Hr) as [H1 H2]. rewrite IH, H2 by done. destruct (votes !! c) as [n|]; simpl; [|done].
      f_equal. rewrite Z.add_mod_idemp_l by lia. f_equal. lia. }
  rewrite Hgen.
  - rewrite Hstart. by case_decide.
  - intros c' n. rewrite Hstart. case_decide; [|done]. intros [= <-]. lia.
Qed.

Definition sample_pledge : PledgeList := pledge_Add "b" 7 0 (pledge_Add "a" 5 0 empty_pledge).
Lemma pledge_invariant_witness : pledge_ok (pledge_Reduce "a" MaxUint64 sample_pledge).1.
Proof.
  apply pledge_invariant. eapply reach_step; [eapply reach_step; [eapply reach_step; [apply reach_empty|apply (step_add _ "a" 5 0); lia]|apply (step_add _ "b" 7 0); lia]|].
  apply (step_reduce _ "a" MaxUint64). unfold MaxUint64. lia.
Defined.
Definition sample_votes : VoteQuery := mkVoteQuery (Some ["m"; "n"]%string) (Some sample_pledge) [("a"%string, 3)] (fun _ => ["m"; "x"]%string).
Lemma votes_spec_witness : GetMediatorVotedResults (fun _ => Panic) sample_votes !! "m"%string = Some 15.
Proof. rewrite (votes_spec _ _ ["m"; "n"]%string) by reflexivity. vm_compute. reflexivity. Defined.
