(* ===== verification/Produce.v ===== *)
(** * Applying units: slots, elections and maintenance

    src/dag/common/unit_produce_repository.go: what a new unit does to the
    properties of the chain.  The state is the property database of Schedule.v, the
    records of the mediators, the parameter changes the foundation has asked for and
    the vote tally of a running maintenance.  A maintenance elects the active
    mediators by the votes of Pledge.v with the partial sort of HeapSort.v and
    applies the parameter changes of ChainParams.v.  The events that follow a
    maintenance are sent to other goroutines and left out; SaveUnit, the storage of
    the unit itself, is a parameter, as are the hash and the author of a header
    (Unit.v) and the text of addresses. *)

From S2P Require Import Prelude Float64 Address Opcode Tx Unit HeapSort Uint128 ChainParams Schedule Pledge.
From Stdlib Require Import ZArith Lia Bool.
Local Open Scope Z_scope.

(** ** State *)

Record MediatorInfoExpand := mkExpand { TotalMissed : Z; LastConfirmedUnitNum : Z; TotalVotes : Z; TotalProduct : Z }.
Definition NewMediatorInfoExpand : MediatorInfoExpand := mkExpand 0 0 0 0.

Record SysVoteResult := mkVoteResult { SelectOption : string; Num : Z }.
Record SysSupportResult := mkSupportResult { TopicTitle : string; VoteResults : list SysVoteResult }.
Record SysTokenIDInfo := mkSysInfo { LeastNum : Z; IsVoteEnd : bool; SupportResults : list SysSupportResult }.

Record voteTally := mkTally { candidate : Address; votedCount : Z }.
Definition newVoteTally (candidate : Address) : voteTally := mkTally candidate 0.
(** More votes first, then the smaller address. *)
Definition tally_Less (a b : voteTally) : bool :=
  if negb (votedCount a =? votedCount b) then votedCount b <? votedCount a else Less (candidate a) (candidate b).

Record SysParameters := mkSysParameters { DepositDailyReward : Z; sys_UnitMaxSize : Z; sys_GenerateUnitReward : Z; sys_RewardHeight : Z }.

Record Chain := mkChain {
  propDb : PropertyDb;
  mediator_info : gmap Address MediatorInfoExpand;                (* the stored records, by address *)
  desired_without_vote : option (gmap string string);            (* GetSysParamWithoutVote; None is an error *)
  desired_with_vote : option SysTokenIDInfo;                     (* GetSysParamsWithVotes; None is an error *)
  mediatorVoteTally : list voteTally;
  CurrentSysParameters : SysParameters }.

Definition set_propDb (db : PropertyDb) (c : Chain) : Chain :=
  mkChain db (mediator_info c) (desired_without_vote c) (desired_with_vote c) (mediatorVoteTally c) (CurrentSysParameters c).
Definition set_info (m : gmap Address MediatorInfoExpand) (c : Chain) : Chain :=
  mkChain (propDb c) m (desired_without_vote c) (desired_with_vote c) (mediatorVoteTally c) (CurrentSysParameters c).
Definition set_tally (l : list voteTally) (c : Chain) : Chain :=
  mkChain (propDb c) (mediator_info c) (desired_without_vote c) (desired_with_vote c) l (CurrentSysParameters c).
Definition set_desired (a : option (gmap string string)) (b : option SysTokenIDInfo) (c : Chain) : Chain :=
  mkChain (propDb c) (mediator_info c) a b (mediatorVoteTally c) (CurrentSysParameters c).
Definition set_sys (p : SysParameters) (c : Chain) : Chain :=
  mkChain (propDb c) (mediator_info c) (desired_without_vote c) (desired_with_vote c) (mediatorVoteTally c) p.

Inductive push_error := NotOnNewest | WrongHeight | SaveFailed (e : string).

Section Produce.
Variable gas_token : bytes.
Variable ParseFloat : string -> option float64.
Variable CheckEncode : bytes -> byte -> string.
Variable CheckDecode : string -> result address_error (bytes * byte).
Variable header_Hash : Header -> Hash.
Variable header_Author : Header -> Address.
Variable vote_query : VoteQuery.

Definition P (A : Type) : Type := ST Chain push_error A.
Definition on_db {A} (m : ST PropertyDb push_error A) : P A := focus propDb set_propDb m.
Definition read_db {A} (f : PropertyDb -> result push_error A) : P A := let! c := gets id in lift (f (propDb c)).

Definition GetGlobalProp : P GlobalProperty := gets (fun c => (RetrieveGlobalProp (propDb c)).1).
Definition GetDynGlobalProp : P DynamicGlobalProperty := gets (fun c => (RetrieveDynGlobalProp (propDb c)).1).
Definition store_dyn (dgp : DynamicGlobalProperty) : P unit := on_db (modify (StoreDynGlobalProp dgp)).
Definition store_global (gp : GlobalProperty) : P unit := on_db (modify (StoreGlobalProp gp)).
(** The record of a mediator; nil when it is not stored. *)
Definition GetMediator (add : Address) : P (option MediatorInfoExpand) := gets (fun c => mediator_info c !! add).
Definition UpdateMediatorInfoExpand (add : Address) (med : MediatorInfoExpand) : P unit :=
  modify (fun c => set_info (match mediator_info c !! add with None => mediator_info c | Some _ => <[add := med]> (mediator_info c) end) c).

(** ** Slots *)

Fixpoint miss_slots (i : Z) (n : nat) : P unit :=
  match n with
  | O => ret tt
  | S n =>
      let! mediatorMissed := gets (fun c => GetScheduledMediator (i + 1) (propDb c)) in
      let! med := GetMediator mediatorMissed in
      let! med := get med in
      UpdateMediatorInfoExpand mediatorMissed
        (mkExpand (uint64 (TotalMissed med + 1)) (LastConfirmedUnitNum med) (TotalVotes med) (TotalProduct med)) ;;;
      miss_slots (i + 1) n
  end.
(** The number of slots without a unit since the newest one. *)
Definition updateMediatorMissedUnits (unit_time : Z) : P Z :=
  let! missedUnits := read_db (GetSlotAtTime gas_token (time_Unix unit_time)) in
  if missedUnits =? 0 then ret 0 else
  let missedUnits := missedUnits - 1 in
  let! gp := GetGlobalProp in
  let aSize := ActiveMediatorsCount gp in
  (if missedUnits <? uint32 aSize then miss_slots 0 (Z.to_nat missedUnits) else ret tt) ;;;
  ret missedUnits.

Definition updateDynGlobalProp (unit : Header) (missedUnits : Z) : P Datatypes.unit :=
  let! dgp := GetDynGlobalProp in
  let! db := read_db (SetNewestUnit (header_Hash unit) (GetNumber unit) (Timestamp unit)) in
  modify (set_propDb db) ;;;
  let totalSlot := uint64 (missedUnits + 1) in
  store_dyn (mkDynamicGlobalProperty (header_Author unit) false (NextMaintenanceTime dgp) (LastMaintenanceTime dgp)
               (uint64 (CurrentAbsoluteSlot dgp + totalSlot))
               (U128.U_Add64 (U128.Lsh (RecentSlotsFilled dgp) totalSlot) 1) (MaintenanceFlag dgp)).

Definition updateMediatorSchedule : P unit :=
  let! dgp := GetDynGlobalProp in
  let! shuffled := on_db (UpdateMediatorSchedule gas_token) in
  if shuffled : bool then
    store_dyn (mkDynamicGlobalProperty (LastMediator dgp) true (NextMaintenanceTime dgp) (LastMaintenanceTime dgp)
                 (CurrentAbsoluteSlot dgp) (RecentSlotsFilled dgp) (MaintenanceFlag dgp))
  else ret tt.

Definition updateSigningMediator (newUnit : Header) : P unit :=
  let signingMediator := header_Author newUnit in
  let! med := GetMediator signingMediator in
  match med with
  | None => ret tt
  | Some med =>
      let! number := lift (NumberU64 newUnit) in
      UpdateMediatorInfoExpand signingMediator (mkExpand (TotalMissed med) (uint32 number) (TotalVotes med) (uint64 (TotalProduct med + 1)))
  end.

(** ** Elections *)

(** [GetMediators]: the candidates whose address parses, in the order of the iteration. *)
Definition GetMediators : list Address :=
  match CandidateMediatorList vote_query with
  | None => []
  | Some l => remove_dups (omap (fun s => match StringToAddress CheckDecode s with Ok a => Some a | _ => None end) l)
  end.
Definition performAccountMaintenance : P unit :=
  let mediatorVoteCount := GetMediatorVotedResults CheckDecode vote_query in
  modify (set_tally ((fun mediator => mkTally mediator (default 0 (mediatorVoteCount !! Str CheckEncode mediator))) <$> GetMediators)).

(** The results of a finished vote: for every topic, the first option with enough votes. *)
Fixpoint select_option (least : Z) (l : list SysVoteResult) : option string :=
  match l with
  | [] => None
  | v2 :: l => if least <=? Num v2 then Some (SelectOption v2) else select_option least l
  end.
Definition getSysParamsWithVote : P (gmap string string) :=
  let! info := gets desired_with_vote in
  ret (match info with
       | Some info =>
           if IsVoteEnd info then
             foldl (fun res v1 => match select_option (LeastNum info) (VoteResults v1) with
                                  | Some o => <[TopicTitle v1 := o]> res
                                  | None => res
                                  end) ∅ (SupportResults info)
           else ∅
       | None => ∅
       end).

Definition desired_count (old : Z) (m : option (gmap string string)) : Z :=
  match m ≫= lookup "ActiveMediatorCount"%string with
  | Some s => match Params.ParseUint s 16 with (n, None) => uint8 n | _ => old end
  | None => old
  end.
Definition getDesiredActiveMediatorCount : P Z :=
  let! cp := gets (fun c => GetChainParameters (propDb c)) in
  let! cp := get cp in
  let! desiredSysParams := gets desired_without_vote in
  let activeMediator := desired_count (Params.ActiveMediatorCount cp) desiredSysParams in
  let! infos := getSysParamsWithVote in
  ret (desired_count activeMediator (Some infos)).

Fixpoint update_votes (l : list voteTally) : P unit :=
  match l with
  | [] => ret tt
  | t :: l =>
      let! med := GetMediator (candidate t) in
      let! med := get med in
      UpdateMediatorInfoExpand (candidate t) (mkExpand (TotalMissed med) (LastConfirmedUnitNum med) (votedCount t) (TotalProduct med)) ;;;
      update_votes l
  end.
Definition on_tally {A} (m : ST (list voteTally) push_error A) : P A := focus mediatorVoteTally set_tally m.

Definition updateActiveMediators : P bool :=
  let! gp := GetGlobalProp in
  let! mediatorCount := getDesiredActiveMediatorCount in
  let! tally := gets mediatorVoteTally in
  (if 0 <? len tally then on_tally (Heap.PartialSort tally_Less (Z.to_nat mediatorCount)) else ret tt) ;;;
  let! tally := gets mediatorVoteTally in
  update_votes tally ;;;
  let! active := (if 0 <? len tally then
                    let! elected := lift (if len tally <? mediatorCount then Panic else Ok (take (Z.to_nat mediatorCount) tally)) in
                    ret (list_to_map ((fun t => (candidate t, true)) <$> elected))
                  else ret ∅) in
  store_global (mkGlobalProperty (ImmutableParameters gp) (ChainParameters gp) active (ActiveMediators gp)) ;;;
  ret true.

(** ** Parameters *)

(** The changes are made one by one; one that fails is logged. *)
Definition apply_changes (m : gmap string string) (cp : Params.ChainParameters) : Params.ChainParameters :=
  foldl (fun cp kv => (Params.updateChainParameter ParseFloat kv.1 kv.2 cp).1) cp (map_to_list m).
Definition set_params (cp : Params.ChainParameters) (gp : GlobalProperty) : GlobalProperty :=
  mkGlobalProperty (ImmutableParameters gp) cp (ActiveMediators gp) (PrecedingMediators gp).

Definition UpdateSysParams : P unit :=
  let! r := gets (fun c => RetrieveGlobalProp (propDb c)) in
  let '(gp, ok) := r in
  if negb ok then ret tt else
  let! modifies := gets desired_without_vote in
  let! gp := match modifies with
             | Some modifies =>
                 modify (fun c => set_desired None (desired_with_vote c) c) ;;;
                 ret (set_params (apply_changes modifies (ChainParameters gp)) gp)
             | None => ret gp
             end in
  let! infos := getSysParamsWithVote in
  let! gp := if bool_decide (infos = ∅) then ret gp
             else modify (fun c => set_desired (desired_without_vote c) None c) ;;;
                  ret (set_params (apply_changes infos (ChainParameters gp)) gp) in
  store_global gp.

Definition RefreshSysParameters : P unit :=
  let! cp := gets (fun c => GetChainParameters (propDb c)) in
  let! cp := get cp in
  modify (set_sys (mkSysParameters (Params.uint_field "PledgeDailyReward" cp) (Params.uint_field "UnitMaxSize" cp)
                     (Params.uint_field "GenerateUnitReward" cp) (Params.uint_field "RewardHeight" cp))).
Definition updateChainParameters : P unit := UpdateSysParams ;;; RefreshSysParameters.

(** ** Maintenance *)

Definition updateNextMaintenanceTime (nextUnit : Header) : P unit :=
  let! dgp := GetDynGlobalProp in
  let! gp := GetGlobalProp in
  let maintenanceInterval := Params.MaintenanceInterval (ChainParameters gp) in
  let headTime := Timestamp nextUnit in
  let! number := lift (NumberU64 nextUnit) in
  if maintenanceInterval =? 0 then panic else
  let nextMaintenanceTime :=
    if number =? 1 then uint32 (int64 (int64 (Z.quot headTime maintenanceInterval + 1) * maintenanceInterval))
    else
      let y := Z.quot (int64 (headTime - NextMaintenanceTime dgp)) maintenanceInterval in
      uint32 (NextMaintenanceTime dgp + uint32 (int64 (int64 (y + 1) * maintenanceInterval))) in
  store_dyn (mkDynamicGlobalProperty (LastMediator dgp) (IsShuffledSchedule dgp) nextMaintenanceTime (NextMaintenanceTime dgp)
               (CurrentAbsoluteSlot dgp) (RecentSlotsFilled dgp) (MaintenanceFlag dgp)).

Definition performChainMaintenance (nextUnit : Header) : P unit :=
  performAccountMaintenance ;;;
  let! _ := updateActiveMediators in
  updateChainParameters ;;;
  updateNextMaintenanceTime nextUnit ;;;
  modify (set_tally []).

Definition updateMaintenanceFlag (newMaintenanceFlag : bool) : P unit :=
  let! dgp := GetDynGlobalProp in
  store_dyn (mkDynamicGlobalProperty (LastMediator dgp) (IsShuffledSchedule dgp) (NextMaintenanceTime dgp) (LastMaintenanceTime dgp)
               (CurrentAbsoluteSlot dgp) (RecentSlotsFilled dgp) newMaintenanceFlag).

(** ** Units *)

Definition ApplyUnit (nextUnit : Header) : P unit :=
  let! missed := updateMediatorMissedUnits (Timestamp nextUnit) in
  updateDynGlobalProp nextUnit missed ;;;
  updateSigningMediator nextUnit ;;;
  let! dgp := GetDynGlobalProp in
  let maintenanceNeeded := negb (uint32 (Timestamp nextUnit) <? NextMaintenanceTime dgp) in
  (if maintenanceNeeded then performChainMaintenance nextUnit else ret tt) ;;;
  updateMaintenanceFlag maintenanceNeeded ;;;
  updateMediatorSchedule.

Variable SaveUnit : Unit -> result string unit.

Definition PushUnit (newUnit : Unit) : P unit :=
  let! h := get (UnitHeader newUnit) in
  let! asset := lift (Header_GetAssetId h) in
  let! newest := read_db (GetNewestUnit asset) in
  let '(uHash, uIndex) := newest in
  let! child := lift (ContainsParent newUnit uHash) in
  if negb child then (match ParentHash h with [] => panic | _ => throw NotOnNewest end) (* the message shows ParentHash()[0] *) else
  let! number := lift (NumberU64 h) in
  if negb (number =? uint64 (ci_Index uIndex + 1)) then throw WrongHeight else
  match SaveUnit newUnit with
  | Err e => throw (SaveFailed e)
  | Panic => panic
  | Ok _ => ApplyUnit h
  end.

End Produce.
