(* ===== verification/ProduceProps.v ===== *)
(** * What applying a unit guarantees

    The election takes the candidates with the most votes; the next maintenance
    falls after the unit and on the grid; the bit field of the last 128 slots says
    which were filled; the stored parameters stay well typed along every sequence of
    units; and the two ways in which an accepted parameter change stops the chain. *)

From S2P Require Import Prelude Float64 Address Opcode Tx Unit HeapSort Uint128 ChainParams Schedule Pledge Produce.
From Stdlib Require Import ZArith Lia Bool.
Local Open Scope Z_scope.

(** ** The order of the tally *)

Definition tally_before (a b : voteTally) : bool :=
  match votedCount b ?= votedCount a with
  | Lt => true
  | Gt => false
  | Eq => match bytes_compare (candidate a) (candidate b) with Lt => true | _ => false end
  end.
Definition tally_wf (t : voteTally) : Prop := wf_address (candidate t).

Lemma tally_before_eq a b : tally_wf a -> tally_wf b -> tally_Less a b = tally_before a b.
Proof.
  unfold tally_wf, wf_address, tally_Less, tally_before. intros Ha Hb. destruct (Z.compare_spec (votedCount b) (votedCount a)) as [He|Hl|Hg].
  - rewrite He, Z.eqb_refl. simpl. apply Less_compare. congruence.
  - rewrite (proj2 (Z.eqb_neq _ _)) by lia. simpl. by apply Z.ltb_lt.
  - rewrite (proj2 (Z.eqb_neq _ _)) by lia. simpl. apply Z.ltb_ge. lia.
Qed.
#[export] Instance tally_order : Heap.LessOrder tally_before.
Proof.
  split; unfold tally_before.
  - intros a b. rewrite (Z.compare_antisym (votedCount a)), (bytes_compare_antisym (candidate a)).
    destruct (votedCount a ?= votedCount b); simpl; try done. by destruct (bytes_compare (candidate a) (candidate b)).
  - intros a b c. destruct (Z.compare_spec (votedCount a) (votedCount b)), (Z.compare_spec (votedCount b) (votedCount c)),
      (Z.compare_spec (votedCount a) (votedCount c)); try lia; try done.
    rewrite (bytes_compare_antisym (candidate a) (candidate b)), (bytes_compare_antisym (candidate b) (candidate c)), (bytes_compare_antisym (candidate a) (candidate c)).
    pose proof (bytes_compare_trans (candidate a) (candidate b) (candidate c)) as Ht.
    destruct (bytes_compare (candidate a) (candidate b)) eqn:Eab, (bytes_compare (candidate b) (candidate c)) eqn:Ebc; simpl; try done; intros _ _.
    + apply bytes_compare_eq in Eab, Ebc. rewrite Eab, Ebc. by rewrite (proj2 (bytes_compare_eq (candidate c) _) eq_refl).
    + apply bytes_compare_eq in Eab. rewrite Eab. by rewrite Ebc.
    + apply bytes_compare_eq in Ebc. rewrite <- Ebc. by rewrite Eab.
    + by rewrite Ht.
Qed.
(** Only equal entries are unordered. *)
Lemma tally_before_total a b : tally_before a b = false -> tally_before b a = false -> a = b.
Proof.
  unfold tally_before. rewrite (Z.compare_antisym (votedCount a)), (bytes_compare_antisym (candidate a)).
  destruct (Z.compare_spec (votedCount a) (votedCount b)) as [He| |]; simpl; try done.
  destruct (bytes_compare (candidate a) (candidate b)) eqn:Ec; simpl; try done. apply bytes_compare_eq in Ec.
  intros _ _. destruct a, b; simpl in *. congruence.
Qed.

(** The sort of the election: the best [m] of the tally, best first. *)
Lemma tally_sorted m l : (m <= length l)%nat -> Forall tally_wf l ->
  exists l', @Heap.PartialSort _ push_error tally_Less m l = (l', Ok tt) /\ l' ≡ₚ l /\
    forall i j x y, (i < j)%nat -> (i < m)%nat -> l' !! i = Some x -> l' !! j = Some y -> tally_before y x = false.
Proof.
  intros Hm Hl. destruct (Heap.agrees_PartialSort (E := push_error) tally_wf tally_Less tally_before tally_before_eq m l Hl) as [-> _].
  exact (Heap.PartialSort_correct' tally_before m l Hm).
Qed.

(** ** The election *)

(** The candidates that come before [t]. *)
Definition rank (l : list voteTally) (t : voteTally) : Z := len (List.filter (fun u => tally_before u t) l).

Lemma rank_perm l l' t : l ≡ₚ l' -> rank l t = rank l' t.
Proof.
  unfold rank. induction 1 as [|x l l' _ IH|x y l|l1 l2 l3 _ IH1 _ IH2]; simpl; [done| | |by rewrite IH1].
  - destruct (tally_before x t); rewrite ?len_cons; lia.
  - destruct (tally_before x t), (tally_before y t); rewrite ?len_cons; lia.
Qed.
Lemma count_prefix {A} (f : A -> bool) (k : nat) (l : list A) :
  (forall i x, l !! i = Some x -> (i < k)%nat -> f x = true) -> (k <= length l)%nat -> Z.of_nat k <= len (List.filter f l).
Proof.
  revert k. induction l as [|a l IH]; intros k Hf Hk; simpl in *; [unfold len; simpl; lia|]. destruct k as [|k]; [unfold len; lia|].
  rewrite (Hf 0%nat a) by (done || lia). rewrite len_cons. specialize (IH k). assert (Z.of_nat k <= len (List.filter f l)); [|lia].
  apply IH; [|lia]. intros i x Hx Hi. apply (Hf (S i)); [done|lia].
Qed.
Lemma count_only_prefix {A} (f : A -> bool) (k : nat) (l : list A) :
  (forall i x, l !! i = Some x -> (k <= i)%nat -> f x = false) -> len (List.filter f l) <= Z.of_nat k.
Proof.
  revert k. induction l as [|a l IH]; intros k Hf; simpl; [unfold len; simpl; lia|]. destruct k as [|k].
  - rewrite (Hf 0%nat a) by (done || lia). apply (IH 0%nat). intros i x Hx _. apply (Hf (S i)); [done|lia].
  - assert (len (List.filter f l) <= Z.of_nat k) by (apply IH; intros i x Hx Hi; apply (Hf (S i)); [done|lia]).
    destruct (f a); rewrite ?len_cons; lia.
Qed.

(** The first [m] entries after the sort are those with fewer than [m] entries before them. *)
Lemma sorted_rank m l' : (m <= length l')%nat -> NoDup l' ->
  (forall i j x y, (i < j)%nat -> (i < m)%nat -> l' !! i = Some x -> l' !! j = Some y -> tally_before y x = false) ->
  forall i t, l' !! i = Some t -> ((i < m)%nat <-> rank l' t < Z.of_nat m).
Proof.
  intros Hm Hnd Hs i t Ht. assert (Hbefore : forall j u, l' !! j = Some u -> (j < i)%nat -> (j < m)%nat -> tally_before u t = true).
  { intros j u Hu Hji Hjm. destruct (tally_before u t) eqn:Hb; [done|]. assert (Hb' := Hs j i u t Hji Hjm Hu Ht).
    assert (u = t) as -> by by apply tally_before_total. assert (j = i) by by eapply NoDup_lookup. lia. }
  unfold rank. split; intros Hi.
  - assert (len (List.filter (fun u => tally_before u t) l') <= Z.of_nat i); [|lia]. apply count_only_prefix. intros j u Hu Hj.
    destruct (decide (j = i)) as [->|Hne]; [|apply (Hs i j); auto; lia].
    assert (u = t) as -> by congruence. destruct (tally_before t t) eqn:Hb; [|done]. by rewrite (Heap.less_asym _ _ Hb) in Hb.
  - destruct (decide (i < m)%nat) as [|Hge]; [done|]. exfalso.
    pose proof (count_prefix (fun u => tally_before u t) m l') as Hc. assert (Z.of_nat m <= len (List.filter (fun u => tally_before u t) l')); [|lia].
    apply Hc; [|done]. intros j u Hu Hj. apply (Hbefore j); auto. lia.
Qed.

Lemma BytesToAddress_wf b : wf_address (BytesToAddress b).
Proof.
  unfold wf_address, BytesToAddress, copy. set (b' := if AddressLength <? len b then slice b (len b - AddressLength) (len b) else b).
  assert (Hb : (length b' <= 21)%nat).
  { unfold b', AddressLength in *. destruct (Z.ltb_spec 21 (len b)); [unfold slice; rewrite length_take; unfold len in *; lia|unfold len in *; lia]. }
  unfold len, AddressLength in *. rewrite !length_app, !length_take, !length_drop. unfold zeroAddress. rewrite length_replicate. lia.
Qed.
Lemma StringToAddress_wf CheckDecode s a : StringToAddress CheckDecode s = Ok a -> wf_address a.
Proof.
  unfold StringToAddress. destruct s as [|c s]; [done|]. destruct (negb _); [done|]. destruct (CheckDecode s) as [[addrb version]| |]; simpl; [|done|done].
  destruct (beq version x00); [intros [= <-]; apply BytesToAddress_wf|]. destruct (beq version x05); [intros [= <-]; apply BytesToAddress_wf|].
  destruct (beq version x1c); [intros [= <-]; apply BytesToAddress_wf|done].
Qed.

Section Election.
Variable CheckEncode : bytes -> byte -> string.
Variable CheckDecode : string -> result address_error (bytes * byte).
Variable vote_query : VoteQuery.

Lemma GetMediators_wf : NoDup (GetMediators CheckDecode vote_query) /\ Forall wf_address (GetMediators CheckDecode vote_query).
Proof.
  unfold GetMediators. destruct (CandidateMediatorList vote_query) as [l|]; [|split; constructor]. split; [apply NoDup_remove_dups|].
  apply Forall_forall. intros a Ha. rewrite elem_of_remove_dups, list_elem_of_omap in Ha. destruct Ha as (s & _ & Hs).
  destruct (StringToAddress CheckDecode s) eqn:He; simplify_eq. by eapply StringToAddress_wf.
Qed.

(** Recording the votes touches nothing but the records of the mediators. *)
Lemma update_votes_ok l : forall c, (forall t, t ∈ l -> is_Some (mediator_info c !! candidate t)) ->
  exists m, update_votes l c = (set_info m c, Ok tt) /\ dom m = dom (mediator_info c).
Proof.
  induction l as [|t l IH]; intros c Hk; [exists (mediator_info c); by destruct c|].
  destruct (Hk t) as [e He]; [by left|]. cbn [update_votes]. unfold GetMediator. rewrite (bind_ok _ _ c c (Some e)) by (unfold gets; by rewrite He).
  rewrite (bind_ok (get (Some e)) _ c c e) by done. unfold UpdateMediatorInfoExpand at 1, bind, modify. cbv beta iota. rewrite He.
  set (m1 := <[candidate t := _]> (mediator_info c)). destruct (IH (set_info m1 c)) as (m & Hm & Hd).
  - intros t' Ht'. simpl. unfold m1. destruct (decide (candidate t' = candidate t)) as [->|Hne]; [rewrite lookup_insert_eq; eauto|].
    rewrite lookup_insert_ne by done. apply Hk. by right.
  - rewrite Hm. exists m. split; [by destruct c|]. rewrite Hd. simpl. unfold m1. rewrite dom_insert_L.
    assert (Hin : candidate t ∈ dom (mediator_info c)) by (apply elem_of_dom; eauto). clear - Hin. set_solver.
Qed.

Lemma desired_reads c n : (getDesiredActiveMediatorCount c).2 = Ok n -> getDesiredActiveMediatorCount c = (c, Ok n).
Proof.
  unfold getDesiredActiveMediatorCount, getSysParamsWithVote, bind, gets, get, ret, panic.
  destruct (GetChainParameters (propDb c)); simpl; [|done]. by intros [= <-].
Qed.

Definition votes_of (a : Address) : Z := default 0 (GetMediatorVotedResults CheckDecode vote_query !! Str CheckEncode a).
Definition candidates : list voteTally := (fun a => mkTally a (votes_of a)) <$> GetMediators CheckDecode vote_query.

Lemma candidates_ok : NoDup (candidate <$> candidates) /\ NoDup candidates /\ Forall tally_wf candidates.
Proof.
  destruct GetMediators_wf as [Hnd Hwf]. unfold candidates. rewrite <- list_fmap_compose. simpl. rewrite list_fmap_id.
  split; [done|]. split; [apply NoDup_fmap_2; [intros a b [= ->]; done|done]|]. by apply Forall_fmap.
Qed.

(** The first step of a maintenance and the election, one after the other. *)
Definition election : P bool := performAccountMaintenance CheckEncode CheckDecode vote_query ;;; updateActiveMediators.

Lemma election_runs c gp n : global_property (propDb c) = Some gp -> getDesiredActiveMediatorCount c = (c, Ok n) ->
  (forall t, t ∈ candidates -> is_Some (mediator_info c !! candidate t)) -> candidates <> [] -> 0 <= n <= len candidates ->
  exists c' l', election c = (c', Ok true) /\ l' ≡ₚ candidates /\
    (forall i j x y, (i < j)%nat -> (i < Z.to_nat n)%nat -> l' !! i = Some x -> l' !! j = Some y -> tally_before y x = false) /\
    global_property (propDb c') = Some (mkGlobalProperty (ImmutableParameters gp) (ChainParameters gp)
      (list_to_map ((fun t => (candidate t, true)) <$> take (Z.to_nat n) l')) (ActiveMediators gp)).
Proof.
  intros Hgp Hn Hk Hne Hrange. destruct candidates_ok as (_ & _ & Hwf).
  destruct (tally_sorted (Z.to_nat n) candidates) as (l' & Hsort & Hp & Hs); [unfold len in Hrange; lia|done|].
  unfold election, performAccountMaintenance. fold votes_of. change ((fun mediator => mkTally mediator (votes_of mediator)) <$> _) with candidates.
  rewrite (bind_ok _ _ c (set_tally candidates c) tt) by done. set (c1 := set_tally candidates c).
  unfold updateActiveMediators, GetGlobalProp. rewrite (bind_ok _ _ c1 c1 gp) by (unfold gets, RetrieveGlobalProp; simpl; by rewrite Hgp).
  assert (Hn1 : getDesiredActiveMediatorCount c1 = (c1, Ok n)).
  { unfold getDesiredActiveMediatorCount, getSysParamsWithVote, bind, gets, get, ret, panic in *. simpl.
    destruct (GetChainParameters (propDb c)); simplify_eq. done. }
  rewrite (bind_ok _ _ _ _ _ Hn1). rewrite (bind_ok (gets mediatorVoteTally) _ c1 c1 candidates) by done.
  assert (Hpos : (0 <? len candidates) = true) by (apply Z.ltb_lt; unfold len; destruct candidates; [done|simpl; lia]). rewrite Hpos.
  rewrite (bind_ok _ _ c1 (set_tally l' c1) tt) by (unfold on_tally, focus; simpl; by rewrite Hsort).
  rewrite (bind_ok (gets mediatorVoteTally) _ _ (set_tally l' c1) l') by done.
  destruct (update_votes_ok l' (set_tally l' c1)) as (m & Hm & _); [intros t Ht; apply Hk; by rewrite <- Hp|].
  rewrite (bind_ok _ _ _ _ _ Hm). assert (Hlen : len l' = len candidates) by (unfold len; by rewrite Hp). rewrite Hlen, Hpos.
  rewrite (proj2 (Z.ltb_ge _ _)) by lia. do 2 eexists. split; [reflexivity|]. split; [done|]. split; [done|]. reflexivity.
Qed.

(** C22: The election: with at least as many candidates as seats (and a record for each), the new active
    mediators are the candidates with the most votes, ties going to the smaller address: a candidate is
    active exactly when fewer than [n] others come before it.  There are [n] of them, nobody else is
    active, and the previous ones are kept as the preceding mediators. *)
Theorem election_spec c gp n : global_property (propDb c) = Some gp -> (getDesiredActiveMediatorCount c).2 = Ok n ->
  (forall t, t ∈ candidates -> is_Some (mediator_info c !! candidate t)) -> candidates <> [] -> 0 <= n <= len candidates ->
  exists c' gp', election c = (c', Ok true) /\ global_property (propDb c') = Some gp' /\
    PrecedingMediators gp' = ActiveMediators gp /\ ActiveMediatorsCount gp' = n /\
    (forall t, t ∈ candidates -> IsActiveMediator gp' (candidate t) = (rank candidates t <? n)) /\
    (forall a, IsActiveMediator gp' a = true -> exists t, t ∈ candidates /\ candidate t = a).
Proof.
  intros Hgp Hn Hk Hne Hr. destruct candidates_ok as (Hnc & Hnd & _).
  destruct (election_runs c gp n Hgp (desired_reads c n Hn) Hk Hne Hr) as (c' & l' & He & Hp & Hs & Hg). do 2 eexists. split; [exact He|]. split; [exact Hg|].
  split; [done|]. assert (Hnd' : NoDup (candidate <$> l')) by by rewrite Hp. assert (Hlen : length l' = length candidates) by by rewrite Hp.
  set (w := take (Z.to_nat n) l'). assert (Hkeys : ((fun t => (candidate t, true)) <$> w).*1 = candidate <$> w) by by rewrite <- list_fmap_compose.
  assert (Hw : NoDup (candidate <$> w)).
  { rewrite <- (take_drop (Z.to_nat n) l'), fmap_app in Hnd'. by apply NoDup_app in Hnd' as [? _]. }
  split_and!.
  - unfold ActiveMediatorsCount. simpl. rewrite map_size_list_to_map by by rewrite Hkeys. rewrite length_fmap. unfold w, len in *. rewrite length_take. lia.
  - intros t Ht. unfold IsActiveMediator. simpl. assert (Ht' : t ∈ l') by by rewrite Hp. apply list_elem_of_lookup in Ht' as [i Hi].
    rewrite <- (rank_perm l' candidates t Hp). pose proof (sorted_rank (Z.to_nat n) l') as Hrank.
    assert (Hrk : (i < Z.to_nat n)%nat <-> rank l' t < Z.of_nat (Z.to_nat n)).
    { apply Hrank; auto; [unfold len in Hr; lia|]. by apply NoDup_fmap_1 in Hnd'. }
    rewrite Z2Nat.id in Hrk by lia. destruct (Z.ltb_spec (rank l' t) n) as [Hlt|Hge].
    + assert (Hin : (candidate t, true) ∈ (fun t => (candidate t, true)) <$> w).
      { apply list_elem_of_fmap. exists t. split; [done|]. apply (list_elem_of_lookup_2 _ i). unfold w. by rewrite lookup_take_lt by by apply Hrk. }
      rewrite (proj1 (elem_of_list_to_map _ (candidate t) true ltac:(by rewrite Hkeys)) Hin). done.
    + rewrite not_elem_of_list_to_map_1; [done|]. rewrite Hkeys. intros (u & Hu & Huw)%list_elem_of_fmap.
      apply list_elem_of_lookup in Huw as [j Hj]. unfold w in Hj. apply lookup_take_Some in Hj as [Hj Hjn].
      assert (i = j); [|lia]. eapply NoDup_lookup; [exact Hnd'|by rewrite list_lookup_fmap, Hi|]. rewrite list_lookup_fmap, Hj. simpl. by rewrite Hu.
  - intros a. unfold IsActiveMediator. simpl. destruct (list_to_map _ !! a) as [b|] eqn:Ha; [|done]. intros _.
    apply elem_of_list_to_map_2, list_elem_of_fmap in Ha as (t & [= -> _] & Ht). exists t. split; [|done]. rewrite <- Hp.
    unfold w in Ht. by apply elem_of_take in Ht as (j & Hj & _); eapply list_elem_of_lookup_2.
Qed.

(** With fewer candidates than seats (but some) the election is an index out of range. *)
Theorem election_panics c n : global_property (propDb c) <> None -> (getDesiredActiveMediatorCount c).2 = Ok n ->
  candidates <> [] -> len candidates < n -> (election c).2 = Panic.
Proof.
  intros Hgp Hn Hne Hlt. unfold election, performAccountMaintenance. fold votes_of.
  change ((fun mediator => mkTally mediator (votes_of mediator)) <$> _) with candidates.
  rewrite (bind_ok _ _ c (set_tally candidates c) tt) by done. set (c1 := set_tally candidates c).
  unfold updateActiveMediators, GetGlobalProp. rewrite (bind_ok (gets _) _ c1 c1 (RetrieveGlobalProp (propDb c1)).1) by done.
  assert (Hn1 : getDesiredActiveMediatorCount c1 = (c1, Ok n)).
  { apply desired_reads in Hn. unfold getDesiredActiveMediatorCount, getSysParamsWithVote, bind, gets, get, ret, panic in *. simpl.
    destruct (GetChainParameters (propDb c)); simplify_eq. done. }
  rewrite (bind_ok _ _ _ _ _ Hn1). rewrite (bind_ok (gets mediatorVoteTally) _ c1 c1 candidates) by done.
  assert (Hpos : (0 <? len candidates) = true) by (apply Z.ltb_lt; unfold len; destruct candidates; [done|simpl; lia]). rewrite Hpos.
  unfold bind at 1, on_tally, focus. change (mediatorVoteTally c1) with candidates.
  pose proof (Heap.PartialSort_out_of_range (E := push_error) tally_Less (Z.to_nat n) candidates) as Hps.
  destruct (Heap.PartialSort tally_Less (Z.to_nat n) candidates) as [l r]. simpl in Hps. rewrite Hps; [done|]. unfold len in Hlt. lia.
Qed.

End Election.

(** ** The next maintenance *)

(** A maintenance sets the next one to the first point of its grid after the unit: at most one interval
    later, and a whole number of intervals after the one that was due (or, after the first unit, a
    multiple of the interval). *)
Theorem next_maintenance_spec c h gp dgp number :
  global_property (propDb c) = Some gp -> dynamic_global_property (propDb c) = Some dgp -> @NumberU64 push_error h = Ok number ->
  let I := Params.MaintenanceInterval (ChainParameters gp) in
  0 < I < 2 ^ 32 -> 0 <= NextMaintenanceTime dgp <= Timestamp h -> Timestamp h + I < 2 ^ 32 ->
  exists c' dgp', updateNextMaintenanceTime h c = (c', Ok tt) /\ dynamic_global_property (propDb c') = Some dgp' /\
    let N := NextMaintenanceTime dgp' in
    Timestamp h < N <= Timestamp h + I /\ LastMaintenanceTime dgp' = NextMaintenanceTime dgp /\
    (if number =? 1 then N mod I = 0 else (N - NextMaintenanceTime dgp) mod I = 0).
Proof.
  intros Hgp Hdgp Hnum I HI Hnext Hhead. unfold updateNextMaintenanceTime, GetDynGlobalProp, GetGlobalProp.
  rewrite (bind_ok (gets _) _ c c dgp) by (unfold gets, RetrieveDynGlobalProp; by rewrite Hdgp).
  rewrite (bind_ok (gets _) _ c c gp) by (unfold gets, RetrieveGlobalProp; by rewrite Hgp).
  rewrite (bind_ok (lift _) _ c c number) by (unfold lift; by rewrite Hnum). fold I. rewrite (proj2 (Z.eqb_neq I 0)) by lia.
  set (T := Timestamp h) in *. set (D := NextMaintenanceTime dgp) in *. do 2 eexists. split; [reflexivity|]. split; [reflexivity|]. simpl.
  assert (Hstep : forall x, 0 <= x <= T -> x / I * I <= x < x / I * I + I /\ 0 <= x / I * I).
  { intros x Hx. pose proof (Z.div_mod x I). pose proof (Z.mod_pos_bound x I). pose proof (Z.div_pos x I). nia. }
  destruct (number =? 1).
  - destruct (Hstep T) as [H1 H2]; [lia|]. assert (0 <= T / I) by (apply Z.div_pos; lia). assert (T / I <= T) by nia.
    rewrite Z.quot_div_nonneg by lia. rewrite (int64_small (T / I + 1)) by lia. rewrite int64_small by lia. unfold uint32.
    rewrite wrapU_small by lia. split_and!; [lia|lia|done|]. by rewrite Z.mod_mul by lia.
  - rewrite (int64_small (T - D)) by lia. rewrite Z.quot_div_nonneg by lia. destruct (Hstep (T - D)) as [H1 H2]; [lia|].
    assert (0 <= (T - D) / I) by (apply Z.div_pos; lia). assert ((T - D) / I <= T - D) by nia.
    rewrite (int64_small ((T - D) / I + 1)) by lia. rewrite int64_small by lia. unfold uint32.
    rewrite (wrapU_small 32 (((T - D) / I + 1) * I)) by lia. rewrite wrapU_small by lia. split_and!; [lia|lia|done|].
    replace (D + ((T - D) / I + 1) * I - D) with (((T - D) / I + 1) * I) by lia. by rewrite Z.mod_mul by lia.
Qed.

(** ** The record of the last 128 slots *)

(** A unit after [missed] empty slots shifts the record: its own bit is set, those of the empty slots are
    clear, older ones move up; and the absolute slot advances by as many. *)
Theorem slots_recorded HH HA c h missed dgp idx : dynamic_global_property (propDb c) = Some dgp -> GetNumber h = Some idx ->
  0 <= missed < 2 ^ 32 -> U128.wf (RecentSlotsFilled dgp) -> 0 <= CurrentAbsoluteSlot dgp -> CurrentAbsoluteSlot dgp + missed + 1 < 2 ^ 64 ->
  exists c' dgp', updateDynGlobalProp HH HA h missed c = (c', Ok tt) /\ dynamic_global_property (propDb c') = Some dgp' /\
    CurrentAbsoluteSlot dgp' = CurrentAbsoluteSlot dgp + missed + 1 /\ LastMediator dgp' = HA h /\
    forall i, 0 <= i < 128 -> Z.testbit (U128.val (RecentSlotsFilled dgp')) i =
      if i =? 0 then true else if i <=? missed then false else Z.testbit (U128.val (RecentSlotsFilled dgp)) (i - (missed + 1)).
Proof.
  intros Hdgp Hidx Hm Hwf Ha0 Ha. unfold updateDynGlobalProp, GetDynGlobalProp.
  rewrite (bind_ok (gets _) _ c c dgp) by (unfold gets, RetrieveDynGlobalProp; by rewrite Hdgp).
  unfold read_db, SetNewestUnit. rewrite Hidx. do 2 eexists. split; [reflexivity|]. split; [reflexivity|]. simpl.
  assert (Ht : uint64 (missed + 1) = missed + 1) by (apply wrapU_small; simpl; lia). rewrite Ht.
  split; [rewrite uint64_small by (simpl in *; lia); lia|]. split; [done|]. intros i Hi.
  destruct (U128.Lsh_val (RecentSlotsFilled dgp) (missed + 1) Hwf) as [Hw1 Hv1]; [lia|].
  destruct (U128.Add64_val _ 1 Hw1) as [_ ->]; [unfold U128.W64; lia|]. rewrite Hv1. clear Hv1.
  set (v := U128.val (RecentSlotsFilled dgp)). set (t := missed + 1) in *. change U128.W128 with (2 ^ 128).
  assert ((v * 2 ^ t) mod 2 ^ 128 + 1 < 2 ^ 128 /\ Z.testbit ((v * 2 ^ t) mod 2 ^ 128) 0 = false) as [Hlt Hbit0].
  { assert (Hb : Z.testbit ((v * 2 ^ t) mod 2 ^ 128) 0 = false).
    { rewrite Z.mod_pow2_bits_low by lia. rewrite Z.mul_pow2_bits_low by lia. done. }
    split; [|done]. pose proof (Z.mod_pos_bound (v * 2 ^ t) (2 ^ 128)). rewrite Z.bit0_eqb in Hb. apply Z.eqb_neq in Hb.
    assert ((v * 2 ^ t) mod 2 ^ 128 <> 2 ^ 128 - 1); [intros He; rewrite He in Hb; apply Hb; reflexivity|lia]. }
  pose proof (Z.mod_pos_bound (v * 2 ^ t) (2 ^ 128)). rewrite (Z.mod_small (_ + 1)) by lia.
  destruct (Z.eqb_spec i 0) as [->|Hi0].
  - rewrite Z.bit0_eqb in *. apply Z.eqb_eq. apply Z.eqb_neq in Hbit0. dlia.
  - replace ((v * 2 ^ t) mod 2 ^ 128 + 1) with (Z.lor 1 (Z.shiftl ((v * 2 ^ t) mod 2 ^ 128 / 2) 1)).
    + rewrite Z.lor_spec, Z.shiftl_spec by lia. rewrite (Z.bits_above_log2 1) by (simpl; lia). simpl orb.
      rewrite Z.div2_bits by lia. replace (Z.succ (i - 1)) with i by lia. rewrite Z.mod_pow2_bits_low by lia.
      destruct (Z.leb_spec i missed); [rewrite Z.mul_pow2_bits_low by lia; done|]. by rewrite Z.mul_pow2_bits by lia.
    + rewrite lor_shiftl_add by lia. rewrite Z.bit0_eqb in Hbit0. apply Z.eqb_neq in Hbit0. dlia.
Qed.

(** ** An invariant of the chain *)

(** The properties are stored and within their types. *)
Record chain_ok (c : Chain) : Prop := {
  ck_gp : exists gp, global_property (propDb c) = Some gp /\ Params.typed (ChainParameters gp);
  ck_dgp : exists dgp, dynamic_global_property (propDb c) = Some dgp /\ U128.wf (RecentSlotsFilled dgp) /\
    0 <= CurrentAbsoluteSlot dgp < 2 ^ 64 /\ 0 <= NextMaintenanceTime dgp < 2 ^ 32;
  ck_units : forall tok up, last_unit_info (propDb c) !! tok = Some up -> 0 <= up_Timestamp up < 2 ^ 32 }.

(** [m] keeps [I] whatever its outcome. *)
Definition stays {S E A} (I : S -> Prop) (m : ST S E A) : Prop := forall s, I s -> I (m s).1.
Lemma stays_bind {S E A B} (I : S -> Prop) (m : ST S E A) (k : A -> ST S E B) :
  stays I m -> (forall a, stays I (k a)) -> stays I (bind m k).
Proof. intros Hm Hk s Hs. unfold bind. specialize (Hm s Hs). destruct (m s) as [s' [a| |]]; [by apply Hk|done|done]. Qed.
(** A step that may use what it has read: [m] does not change the state. *)
Lemma stays_read {S E A B} (I : S -> Prop) (f : S -> A) (k : A -> ST S E B) :
  (forall s, I s -> I (k (f s) s).1) -> stays I (bind (gets f) k).
Proof. intros Hk s Hs. by apply Hk. Qed.
Lemma stays_ret {S E A} (I : S -> Prop) (a : A) : stays (E := E) I (ret a).
Proof. by intros s. Qed.
Lemma stays_lift {S E A} (I : S -> Prop) (r : result E A) : stays I (lift r).
Proof. by intros s. Qed.
Lemma stays_panic {S E A} (I : S -> Prop) : stays (E := E) (A := A) I panic.
Proof. by intros s. Qed.
Lemma stays_throw {S E A} (I : S -> Prop) (e : E) : stays (A := A) I (throw e).
Proof. by intros s. Qed.
Lemma stays_get {S E A} (I : S -> Prop) (o : option A) : stays (E := E) I (get o).
Proof. by destruct o; intros s. Qed.
Lemma stays_gets {S E A} (I : S -> Prop) (f : S -> A) : stays (E := E) I (gets f).
Proof. by intros s. Qed.
Lemma stays_if {S E A} (I : S -> Prop) (b : bool) (m m' : ST S E A) : stays I m -> stays I m' -> stays I (if b then m else m').
Proof. by destruct b. Qed.
(** A step that also establishes [Q] of its result. *)
Lemma stays_bind_post {S E A B} (I : S -> Prop) (Q : A -> Prop) (m : ST S E A) (k : A -> ST S E B) :
  (forall s, I s -> I (m s).1 /\ match (m s).2 with Ok a => Q a | _ => True end) -> (forall a, Q a -> stays I (k a)) -> stays I (bind m k).
Proof. intros Hm Hk s Hs. unfold bind. destruct (Hm s Hs) as [H1 H2]. destruct (m s) as [s' [a| |]]; [by apply Hk|done|done]. Qed.
Create HintDb stays.
#[export] Hint Resolve stays_ret stays_lift stays_panic stays_throw stays_get stays_gets stays_if : stays.
#[export] Hint Extern 2 (stays _ (bind _ _)) => (apply stays_bind; [|intros ?]) : stays.
Ltac stay := eauto 20 with stays.

(** What leaves the property database alone. *)
Lemma stays_db {A} (m : P A) : (forall c, propDb (m c).1 = propDb c) -> stays chain_ok m.
Proof. intros Hm c [H1 H2 H3]. specialize (Hm c). split; by rewrite Hm. Qed.
Lemma chain_ok_dgp c dgp : chain_ok c -> U128.wf (RecentSlotsFilled dgp) -> 0 <= CurrentAbsoluteSlot dgp < 2 ^ 64 ->
  0 <= NextMaintenanceTime dgp < 2 ^ 32 -> chain_ok (set_propDb (StoreDynGlobalProp dgp (propDb c)) c).
Proof. intros [H1 H2 H3] Hw Ha Hn. split; simpl; eauto. Qed.
Lemma chain_ok_gp c gp : chain_ok c -> Params.typed (ChainParameters gp) -> chain_ok (set_propDb (StoreGlobalProp gp (propDb c)) c).
Proof. intros [H1 H2 H3] Ht. split; simpl; eauto. Qed.

Lemma stays_UpdateInfo add med : stays chain_ok (UpdateMediatorInfoExpand add med).
Proof. apply stays_db. done. Qed.
Lemma stays_miss i n : stays chain_ok (miss_slots i n).
Proof.
  revert i. induction n as [|n IH]; intros i; cbn [miss_slots]; [apply stays_ret|]. unfold GetMediator.
  repeat (apply stays_bind; [eauto using stays_UpdateInfo with stays|intros ?]). apply IH.
Qed.
Lemma stays_votes l : stays chain_ok (update_votes l).
Proof.
  induction l as [|t l IH]; cbn [update_votes]; [apply stays_ret|]. unfold GetMediator.
  repeat (apply stays_bind; [eauto using stays_UpdateInfo with stays|intros ?]). apply IH.
Qed.
#[local] Hint Resolve stays_miss stays_votes stays_UpdateInfo : stays.

Lemma apply_changes_typed pf m cp : Params.typed cp -> Params.typed (apply_changes pf m cp).
Proof.
  unfold apply_changes. generalize (map_to_list m) as l. intros l. revert cp. induction l as [|[k v] l IH]; intros cp Ht; simpl; [done|].
  apply IH. by apply Params.update_keeps_typed.
Qed.

Section Invariant.
Variable gas_token : bytes.
Variable ParseFloat : string -> option float64.
Variable CheckEncode : bytes -> byte -> string.
Variable CheckDecode : string -> result address_error (bytes * byte).
Variable header_Hash : Header -> Hash.
Variable header_Author : Header -> Address.
Variable vote_query : VoteQuery.

Lemma stays_missed t : stays chain_ok (updateMediatorMissedUnits gas_token t).
Proof. unfold updateMediatorMissedUnits, read_db, GetGlobalProp. stay. Qed.

Lemma stays_dyn h missed : 0 <= missed -> stays chain_ok (updateDynGlobalProp header_Hash header_Author h missed).
Proof.
  intros Hm c Hc. unfold updateDynGlobalProp, GetDynGlobalProp. pose proof Hc as [Hgp (dgp & Hdgp & Hw & Ha & Hn) Hu].
  rewrite (bind_ok (gets _) _ c c dgp) by (unfold gets, RetrieveDynGlobalProp; by rewrite Hdgp).
  unfold read_db, SetNewestUnit, bind, gets, lift, id, modify. destruct (GetNumber h) as [idx|]; [|done]. simpl.
  split; simpl; [done| |].
  - eexists. split; [reflexivity|]. simpl. destruct (U128.Lsh_val (RecentSlotsFilled dgp) (uint64 (missed + 1)) Hw) as [Hw1 _]; [apply (wrapU_range 64); lia|].
    destruct (U128.Add64_val _ 1 Hw1) as [Hw2 _]; [unfold U128.W64; lia|]. split; [done|]. split; [apply (wrapU_range 64); lia|done].
  - intros tok up. destruct (decide (tok = ci_AssetID idx)) as [->|Hne].
    + rewrite lookup_insert_eq. intros [= <-]. simpl. apply (wrapU_range 32). lia.
    + rewrite lookup_insert_ne by done. apply Hu.
Qed.

Lemma stays_signing h : stays chain_ok (updateSigningMediator header_Author h).
Proof. unfold updateSigningMediator, GetMediator. apply stays_bind; [eauto with stays|]. intros [med|]; stay. Qed.

Lemma stays_global {A} (k : GlobalProperty -> P A) :
  (forall gp, Params.typed (ChainParameters gp) -> stays chain_ok (k gp)) -> stays chain_ok (bind GetGlobalProp k).
Proof.
  intros Hk c Hc. pose proof Hc as [(gp & Hgp & Ht) _ _]. unfold GetGlobalProp.
  rewrite (bind_ok (gets _) _ c c gp) by (unfold gets, RetrieveGlobalProp; by rewrite Hgp). by apply Hk.
Qed.
Lemma stays_dynamic {A} (k : DynamicGlobalProperty -> P A) :
  (forall dgp, U128.wf (RecentSlotsFilled dgp) -> 0 <= CurrentAbsoluteSlot dgp < 2 ^ 64 -> 0 <= NextMaintenanceTime dgp < 2 ^ 32 ->
    stays chain_ok (k dgp)) -> stays chain_ok (bind GetDynGlobalProp k).
Proof.
  intros Hk c Hc. pose proof Hc as [_ (dgp & Hdgp & Hw & Ha & Hn) _]. unfold GetDynGlobalProp.
  rewrite (bind_ok (gets _) _ c c dgp) by (unfold gets, RetrieveDynGlobalProp; by rewrite Hdgp). by apply Hk.
Qed.
Lemma stays_store_global gp : Params.typed (ChainParameters gp) -> stays chain_ok (store_global gp).
Proof. intros Ht c Hc. by apply chain_ok_gp. Qed.
Lemma stays_store_dyn dgp : U128.wf (RecentSlotsFilled dgp) -> 0 <= CurrentAbsoluteSlot dgp < 2 ^ 64 -> 0 <= NextMaintenanceTime dgp < 2 ^ 32 ->
  stays chain_ok (store_dyn dgp).
Proof. intros Hw Ha Hn c Hc. by apply chain_ok_dgp. Qed.
#[local] Hint Resolve stays_store_global stays_store_dyn : stays.

Lemma stays_desired : stays chain_ok getSysParamsWithVote /\ stays chain_ok getDesiredActiveMediatorCount.
Proof. unfold getDesiredActiveMediatorCount, getSysParamsWithVote. split; stay. Qed.

Lemma stays_election : stays chain_ok updateActiveMediators.
Proof.
  unfold updateActiveMediators. apply stays_global. intros gp Ht. destruct stays_desired.
  assert (forall k, stays chain_ok (on_tally (@Heap.PartialSort _ push_error tally_Less k))).
  { intros k. apply stays_db. intros c. unfold on_tally, focus. by destruct (Heap.PartialSort tally_Less k (mediatorVoteTally c)). }
  stay.
Qed.

Lemma stays_params : stays chain_ok (updateChainParameters ParseFloat).
Proof.
  destruct stays_desired as [Hd _]. assert (Hset : forall f : Chain -> option (gmap string string) * option SysTokenIDInfo,
    stays chain_ok (modify (E := push_error) (fun c => set_desired (f c).1 (f c).2 c))) by (intros f; by apply stays_db).
  unfold updateChainParameters. apply stays_bind; [|intros _; unfold RefreshSysParameters].
  - unfold UpdateSysParams. intros c Hc. pose proof Hc as [(gp & Hgp & Ht) _ _].
    rewrite (bind_ok (gets _) _ c c (gp, true)) by (unfold gets, RetrieveGlobalProp; by rewrite Hgp). simpl negb. cbv iota.
    revert c Hc Hgp. intros c Hc _. refine (stays_bind chain_ok _ _ _ _ c Hc); [stay|]. intros modifies.
    apply (stays_bind_post chain_ok (fun gp => Params.typed (ChainParameters gp))).
    + destruct modifies as [m|]; [|by intros s Hs]. intros s Hs. split; [apply (Hset (fun c => (None, desired_with_vote c)) s Hs)|]. simpl.
      by apply apply_changes_typed.
    + intros gp1 Ht1. apply stays_bind; [done|]. intros infos. apply (stays_bind_post chain_ok (fun gp => Params.typed (ChainParameters gp))).
      * case_bool_decide; [by intros s Hs|]. intros s Hs. split; [apply (Hset (fun c => (desired_without_vote c, None)) s Hs)|]. simpl.
        by apply apply_changes_typed.
      * intros gp2 Ht2. by apply stays_store_global.
  - assert (forall p, stays chain_ok (modify (E := push_error) (set_sys p))) by (intros p; by apply stays_db). stay.
Qed.

Lemma stays_next h : stays chain_ok (updateNextMaintenanceTime h).
Proof.
  unfold updateNextMaintenanceTime. apply stays_dynamic. intros dgp Hw Ha Hn. apply stays_global. intros gp _.
  apply stays_bind; [stay|]. intros number. apply stays_if; [stay|]. apply stays_store_dyn; auto. simpl.
  destruct (number =? 1); apply (wrapU_range 32); lia.
Qed.
Lemma stays_maintenance h : stays chain_ok (performChainMaintenance ParseFloat CheckEncode CheckDecode vote_query h).
Proof.
  assert (forall l, stays chain_ok (modify (E := push_error) (set_tally l))) by (intros l; by apply stays_db).
  unfold performChainMaintenance, performAccountMaintenance. pose proof stays_election. pose proof stays_params. pose proof stays_next. stay.
Qed.
Lemma stays_schedule : stays chain_ok (updateMediatorSchedule gas_token).
Proof.
  unfold updateMediatorSchedule. apply stays_dynamic. intros dgp Hw Ha Hn. apply stays_bind; [|intros []; [by apply stays_store_dyn|stay]].
  intros c Hc. unfold on_db, focus. destruct (UpdateMediatorSchedule gas_token (propDb c)) as [db' r] eqn:Hu. simpl.
  destruct r as [r| |].
  - apply UpdateMediatorSchedule_inv in Hu. destruct r; [destruct Hu as (gp & ms & up & _ & _ & -> & _); destruct Hc as [H1 H2 H3]; by split|].
    rewrite Hu. by destruct c.
  - rewrite (UpdateMediatorSchedule_fails _ _ _ _ Hu); [by destruct c|by left; eexists].
  - rewrite (UpdateMediatorSchedule_fails _ _ _ _ Hu); [by destruct c|by right].
Qed.
Lemma missed_nonneg t c c' n : updateMediatorMissedUnits gas_token t c = (c', Ok n) -> chain_ok c -> 0 <= n.
Proof.
  unfold updateMediatorMissedUnits, read_db, GetGlobalProp. intros H Hc. apply bind_inv in H as (c1 & m & Hm & H).
  assert (0 <= m) by (unfold bind, gets, lift, id in Hm; injection Hm as _ Hm; by eapply GetSlotAtTime_nonneg).
  destruct (Z.eqb_spec m 0); [unfold ret in H; injection H as _ <-; lia|]. apply bind_inv in H as (c2 & gp & _ & H).
  apply bind_inv in H as (c3 & _ & _ & H). unfold ret in H. injection H as _ <-. lia.
Qed.

Lemma stays_ApplyUnit h : stays chain_ok (ApplyUnit gas_token ParseFloat CheckEncode CheckDecode header_Hash header_Author vote_query h).
Proof.
  unfold ApplyUnit. apply (stays_bind_post chain_ok (fun n => 0 <= n)).
  - intros c Hc. split; [by apply stays_missed|]. destruct (updateMediatorMissedUnits gas_token (Timestamp h) c) as [c' [n| |]] eqn:Hm; try done.
    by eapply missed_nonneg.
  - intros missed Hm. apply stays_bind; [by apply stays_dyn|]. intros _. apply stays_bind; [apply stays_signing|]. intros _.
    apply stays_bind; [unfold GetDynGlobalProp; stay|]. intros dgp. apply stays_bind; [apply stays_if; [apply stays_maintenance|stay]|]. intros _.
    apply stays_bind; [|intros _; apply stays_schedule]. unfold updateMaintenanceFlag. apply stays_dynamic. intros dgp' Hw Ha Hn. by apply stays_store_dyn.
Qed.

Lemma stays_PushUnit save u : stays chain_ok (PushUnit gas_token ParseFloat CheckEncode CheckDecode header_Hash header_Author vote_query save u).
Proof.
  pose proof stays_ApplyUnit as Ha. unfold PushUnit, read_db.
  apply stays_bind; [stay|]. intros h. apply stays_bind; [stay|]. intros asset. apply stays_bind; [stay|]. intros [uHash uIndex].
  apply stays_bind; [stay|]. intros child. apply stays_if; [destruct (ParentHash h); stay|]. apply stays_bind; [stay|]. intros number.
  apply stays_if; [stay|]. destruct (save u); stay.
Qed.

(** With an interval of 0 every unit after the first is a division by zero. *)
Lemma zero_interval_panics c gp dgp up h : global_property (propDb c) = Some gp -> dynamic_global_property (propDb c) = Some dgp ->
  last_unit_info (propDb c) !! gas_token = Some up -> ci_Index (up_ChainIndex up) <> 0 -> Params.MediatorInterval (ChainParameters gp) = 0 ->
  (ApplyUnit gas_token ParseFloat CheckEncode CheckDecode header_Hash header_Author vote_query h c).2 = Panic.
Proof.
  intros Hgp Hdgp Hup Hidx Hi. assert (Hs : @GetSlotAtTime push_error gas_token (time_Unix (Timestamp h)) (propDb c) = Panic).
  { unfold GetSlotAtTime, GetSlotTime, RetrieveGlobalProp, RetrieveDynGlobalProp, db_GetNewestUnit. rewrite Hgp, Hdgp, Hup. simpl.
    rewrite (proj2 (Z.eqb_neq _ _) Hidx), Hi. done. }
  unfold ApplyUnit, updateMediatorMissedUnits, read_db, bind, gets, lift, id. by rewrite Hs.
Qed.
End Invariant.

(** ** Reachable states *)

(** The chain grows by units pushed by anyone, valid or not; between two units the contracts may change
    anything but the properties. *)
Inductive chain_reachable (gas_token : bytes) (c0 : Chain) : Chain -> Prop :=
| chain_start : chain_reachable gas_token c0 c0
| chain_push pf ce cd hh ha q save u c : chain_reachable gas_token c0 c ->
    chain_reachable gas_token c0 (PushUnit gas_token pf ce cd hh ha q save u c).1
| chain_contracts c c' : chain_reachable gas_token c0 c -> propDb c' = propDb c -> chain_reachable gas_token c0 c'.

Lemma typed_uint8 f cp : Params.Kind f = Some Params.KUint8 -> Params.typed cp -> 0 <= Params.uint_field f cp < 256.
Proof. intros Hk Ht. specialize (Ht f). rewrite Hk in Ht. destruct Ht as (v & Hv & Hkind). unfold Params.uint_field. rewrite Hv. by destruct v. Qed.

(** Along every run the stored properties stay within their types, whatever the units and whatever the
    parameter changes, failed units included; so as long as the interval is not 0, the slot functions
    work as specified. *)
Theorem chain_invariant gas_token c0 c : chain_ok c0 -> chain_reachable gas_token c0 c ->
  chain_ok c /\
  forall up, last_unit_info (propDb c) !! gas_token = Some up -> exists gp dgp,
    global_property (propDb c) = Some gp /\ dynamic_global_property (propDb c) = Some dgp /\
    (Params.MediatorInterval (ChainParameters gp) <> 0 -> ready gas_token (propDb c) gp dgp up).
Proof.
  intros H0 Hr. assert (Hc : chain_ok c).
  { induction Hr as [|pf ce cd hh ha q save u c _ IH|c c' _ IH Heq]; [done|by apply stays_PushUnit|]. destruct IH as [H1 H2 H3]. by split; rewrite Heq. }
  split; [done|]. intros up Hup. destruct Hc as [(gp & Hgp & Ht) (dgp & Hdgp & _) Hu]. exists gp, dgp. split; [done|]. split; [done|].
  intros Hi. assert (0 <= Params.MediatorInterval (ChainParameters gp) < 256) by by apply typed_uint8.
  split; try done; [lia|by apply typed_uint8|by apply (Hu gas_token)].
Qed.

(** A parameter change that passes every check stops the chain: an interval of 256 seconds is accepted,
    stored as 0 by the maintenance, and from then on no unit can be applied. *)
Theorem accepted_change_halts gas_token pf c gp up icp fn : chain_ok c -> global_property (propDb c) = Some gp ->
  last_unit_info (propDb c) !! gas_token = Some up -> ci_Index (up_ChainIndex up) <> 0 -> Params.MinMediatorInterval icp <= 256 ->
  desired_without_vote c = Some {[ "MediatorInterval" := "256" ]}%string -> desired_with_vote c = None ->
  Params.CheckSysConfigArgType pf "MediatorInterval" "256" = Ok tt /\
  Params.CheckChainParameterValue "MediatorInterval" "256" icp (ChainParameters gp) fn = Ok tt /\
  exists c', updateChainParameters pf c = (c', Ok tt) /\
    forall pf' ce cd hh ha q h, (ApplyUnit gas_token pf' ce cd hh ha q h c').2 = Panic.
Proof.
  intros Hc Hgp Hup Hidx Hmin Hd Hv. destruct (Params.interval_wraps pf icp (ChainParameters gp) fn Hmin) as (H1 & H2 & cp' & Hu & Hi).
  split; [done|]. split; [done|]. pose proof Hc as [_ (dgp & Hdgp & _) _].
  assert (Hch : apply_changes pf {[ "MediatorInterval" := "256" ]}%string (ChainParameters gp) = cp').
  { unfold apply_changes. rewrite map_to_list_singleton. cbn [foldl fst snd]. by rewrite Hu. }
  assert (Hrun : exists c', updateChainParameters pf c = (c', Ok tt) /\ global_property (propDb c') = Some (set_params cp' gp) /\
    dynamic_global_property (propDb c') = Some dgp /\ last_unit_info (propDb c') = last_unit_info (propDb c)).
  { unfold updateChainParameters, UpdateSysParams, RefreshSysParameters, getSysParamsWithVote, GetChainParameters, RetrieveGlobalProp.
    unfold bind, gets, modify, ret, store_global, on_db, focus. simpl. rewrite Hgp. simpl. rewrite Hd. simpl. rewrite Hv. simpl.
    rewrite bool_decide_eq_true_2 by done. simpl. rewrite Hch.
    eexists. split; [reflexivity|]. split; [reflexivity|]. split; [exact Hdgp|reflexivity]. }
  destruct Hrun as (c' & Hrun & Hg & Hdd & Hl). exists c'. split; [done|]. intros. eapply zero_interval_panics; [exact Hg|exact Hdd|by rewrite Hl|done|done].
Qed.

(** ** Samples *)

Definition sample_query : VoteQuery :=
  mkVoteQuery (Some ((fun b => Str toy_encode (sample_mediator b)) <$> [x01; x02; x03])) (Some sample_pledge) []
    (fun _ => [Str toy_encode (sample_mediator x02)]).
Definition sample_info : gmap Address MediatorInfoExpand :=
  list_to_map ((fun b => (sample_mediator b, NewMediatorInfoExpand)) <$> [x01; x02; x03]).
Definition sample_chain (wanted : option (gmap string string)) : Chain :=
  mkChain sample_db sample_info wanted None [] (mkSysParameters 0 0 0 0).
Definition one_seat : gmap string string := {[ "ActiveMediatorCount"%string := "1"%string ]}.
Definition sample_number_header : Header := NewHeader [replicate 32 x07] (replicate 32 x00) [] [] [] [] [] sample_token 11 1600000605.

Lemma sample_candidates : candidates toy_encode toy_decode sample_query =
  [mkTally (sample_mediator x01) 0; mkTally (sample_mediator x02) 12; mkTally (sample_mediator x03) 0].
Proof. vm_compute. reflexivity. Qed.
Lemma sample_known wanted t : t ∈ candidates toy_encode toy_decode sample_query -> is_Some (mediator_info (sample_chain wanted) !! candidate t).
Proof.
  rewrite sample_candidates. intros Ht. apply elem_of_dom. cut (candidate t ∈ candidate <$> [mkTally (sample_mediator x01) 0; mkTally (sample_mediator x02) 12; mkTally (sample_mediator x03) 0]); [|by apply list_elem_of_fmap_2].
  clear. revert t. simpl. intros t Ht. apply (bool_decide_unpack _). revert Ht. rewrite !elem_of_cons, elem_of_nil. intros [->|[->|[->|[]]]]; vm_compute; exact I.
Qed.

Lemma election_spec_witness :
  exists c' gp', election toy_encode toy_decode sample_query (sample_chain (Some one_seat)) = (c', Ok true) /\ global_property (propDb c') = Some gp' /\
    PrecedingMediators gp' = ActiveMediators sample_gp /\ ActiveMediatorsCount gp' = 1 /\
    (forall t, t ∈ candidates toy_encode toy_decode sample_query ->
      IsActiveMediator gp' (candidate t) = (rank (candidates toy_encode toy_decode sample_query) t <? 1)) /\
    (forall a, IsActiveMediator gp' a = true -> exists t, t ∈ candidates toy_encode toy_decode sample_query /\ candidate t = a).
Proof.
  apply election_spec; [reflexivity|vm_compute; reflexivity|apply sample_known|rewrite sample_candidates; discriminate|].
  rewrite sample_candidates. vm_compute. split; congruence.
Defined.
Lemma election_panics_witness : (election toy_encode toy_decode sample_query (sample_chain None)).2 = Panic.
Proof.
  apply (election_panics toy_encode toy_decode sample_query (sample_chain None) 5);
    [discriminate|vm_compute; reflexivity|rewrite sample_candidates; discriminate|rewrite sample_candidates; vm_compute; reflexivity].
Defined.
Lemma next_maintenance_spec_witness :
  exists c' dgp', updateNextMaintenanceTime sample_number_header (sample_chain None) = (c', Ok tt) /\ dynamic_global_property (propDb c') = Some dgp' /\
    let N := NextMaintenanceTime dgp' in
    1600000605 < N <= 1600000605 + 300 /\ LastMaintenanceTime dgp' = 1600000300 /\
    (if 11 =? 1 then N mod 300 = 0 else (N - 1600000300) mod 300 = 0).
Proof.
  apply (next_maintenance_spec (sample_chain None) sample_number_header sample_gp sample_dgp 11);
    [reflexivity|reflexivity|reflexivity| | |]; vm_compute; try split; congruence.
Defined.
Lemma slots_recorded_witness :
  exists c' dgp', updateDynGlobalProp (fun _ => replicate 32 x09) (fun _ => sample_mediator x01) sample_number_header 3 (sample_chain None) = (c', Ok tt) /\
    dynamic_global_property (propDb c') = Some dgp' /\ CurrentAbsoluteSlot dgp' = 10 + 3 + 1 /\ LastMediator dgp' = sample_mediator x01 /\
    forall i, 0 <= i < 128 -> Z.testbit (U128.val (RecentSlotsFilled dgp')) i =
      if i =? 0 then true else if i <=? 3 then false else Z.testbit (U128.val U128.MaxValue) (i - (3 + 1)).
Proof.
  apply (slots_recorded (fun _ => replicate 32 x09) (fun _ => sample_mediator x01) (sample_chain None) sample_number_header 3 sample_dgp (mkChainIndex sample_token 11));
    [reflexivity|reflexivity|lia|repeat split; vm_compute; congruence|simpl; lia|simpl; lia].
Defined.

Lemma sample_newest : last_unit_info sample_db !! sample_token = Some sample_up.
Proof. by apply lookup_singleton_Some. Qed.
Lemma sample_chain_ok wanted : chain_ok (sample_chain wanted).
Proof.
  split.
  - exists sample_gp. split; [reflexivity|apply Params.new_params_typed].
  - exists sample_dgp. split; [reflexivity|]. split; [repeat split; vm_compute; congruence|]. simpl. lia.
  - intros tok up Hup. change (({[ sample_token := sample_up ]} : gmap bytes UnitProperty) !! tok = Some up) in Hup.
    apply lookup_singleton_Some in Hup as [_ <-]. simpl. lia.
Qed.
Definition sample_pushed : Chain :=
  (PushUnit sample_token (fun _ => None) toy_encode toy_decode (fun _ => replicate 32 x09) (fun _ => sample_mediator x01) sample_query (fun _ => Ok tt)
     (mkUnit (Some sample_number_header) []) (sample_chain None)).1.
Lemma chain_invariant_witness : chain_ok sample_pushed /\
  forall up, last_unit_info (propDb sample_pushed) !! sample_token = Some up -> exists gp dgp,
    global_property (propDb sample_pushed) = Some gp /\ dynamic_global_property (propDb sample_pushed) = Some dgp /\
    (Params.MediatorInterval (ChainParameters gp) <> 0 -> ready sample_token (propDb sample_pushed) gp dgp up).
Proof. apply (chain_invariant sample_token (sample_chain None)); [apply sample_chain_ok|]. apply chain_push, chain_start. Defined.

Definition long_interval : gmap string string := {[ "MediatorInterval"%string := "256"%string ]}.
Lemma accepted_change_halts_witness :
  Params.CheckSysConfigArgType (fun _ => None) "MediatorInterval" "256" = Ok tt /\
  Params.CheckChainParameterValue "MediatorInterval" "256" Params.NewImmutChainParams Params.NewChainParams 5 = Ok tt /\
  exists c', updateChainParameters (fun _ => None) (sample_chain (Some long_interval)) = (c', Ok tt) /\
    forall pf' ce cd hh ha q h, (ApplyUnit sample_token pf' ce cd hh ha q h c').2 = Panic.
Proof.
  apply (accepted_change_halts sample_token (fun _ => None) (sample_chain (Some long_interval)) sample_gp sample_up Params.NewImmutChainParams 5);
    [apply sample_chain_ok|reflexivity|exact sample_newest|discriminate|simpl; lia|reflexivity|reflexivity].
Defined.
