(* ===== verification/StateDb.v ===== *)
(** * The contract state database

    src/dag/storage/statedb.go and statedb_contract.go: the values contracts store,
    kept with the version (height and transaction) that wrote them, and the version
    bytes of src/dag/modules/message.go.  The key-value store below is a map from
    keys to bytes; the lists that contracts store as JSON are decoded by a
    parameter. *)

From S2P Require Import Prelude Address Opcode Script AssetId Tx Unit.
From Stdlib Require Import ZArith Lia Bool.
Local Open Scope Z_scope.

Module State.

Abbreviation Db := (gmap bytes bytes).
Definition string_bytes (s : string) : bytes := String.list_byte_of_string s.
Definition bytes_string (b : bytes) : string := String.string_of_list_byte b.

(** ** Versions *)

(** [binary.LittleEndian.PutUint32] into a fresh buffer *)
Definition putUint32 (v : Z) : bytes := map (fun i => z2b (Z.shiftr v (8 * Z.of_nat i))) (seq 0 4).
Definition zero_id : bytes := replicate 16 x00.

Section Ops.
Context {E : Type}.

Definition StateVersion_Bytes (version : StateVersion) : result E bytes :=
  let? h := rget (Height version) in Ok (ChainIndex_Bytes h ++ putUint32 (TxIndex version)).
Definition StateVersion_SetBytes (b : bytes) : result E StateVersion :=
  if len b <? 28 then Panic else
  let? cidx := ChainIndex_SetBytes (mkChainIndex zero_id 0) (slice b 0 24) in
  Ok (mkVersion (Some cidx) (le_uint (slice b 24 28))).

End Ops.

Inductive db_error := NotFound | Irregular | NullState | BadList.

(** ** statedb.go *)

Definition storeBytesWithVersion (key : bytes) (version : StateVersion) (v : bytes) (db : Db) : result db_error Db :=
  let? vb := StateVersion_Bytes version in Ok (<[key := vb ++ v]> db).
Definition splitValueAndVersion (data : bytes) : result db_error (bytes * StateVersion) :=
  if len data <? 28 then Err Irregular else
  let? version := StateVersion_SetBytes (slice data 0 28) in Ok (slice data 28 (len data), version).
Definition retrieveWithVersion (key : bytes) (db : Db) : result db_error (bytes * StateVersion) :=
  match db !! key with
  | None => Err NotFound
  | Some data => splitValueAndVersion data
  end.

(** ** statedb_contract.go *)

Definition CONTRACT_STATE_PREFIX : bytes := string_bytes "cs".
Definition getContractStateKey (id : bytes) (field : string) : bytes := CONTRACT_STATE_PREFIX ++ id ++ string_bytes field.

(** The contract a write goes to: its own field, or the contract that ran (an empty field;
    saving a single write asks for nil, which is not told apart from empty here). *)
Definition write_target (id : bytes) (ws : ContractWriteSet) : bytes := if len (ws_ContractId ws) =? 0 then id else ws_ContractId ws.
Definition SaveContractState (contractId : bytes) (ws : ContractWriteSet) (version : StateVersion) (db : Db) : result db_error Db :=
  let key := getContractStateKey (write_target contractId ws) (ws_Key ws) in
  if ws_IsDelete ws then Ok (delete key db) else storeBytesWithVersion key version (ws_Value ws) db.
(** All writes go through one batch: none is made if one of them panics. *)
Fixpoint SaveContractStates (id : bytes) (wset : list ContractWriteSet) (version : StateVersion) (db : Db) : result db_error Db :=
  match wset with
  | [] => Ok db
  | write :: wset => let? db := SaveContractState id write version db in SaveContractStates id wset version db
  end.
Definition GetContractState (id : bytes) (field : string) (db : Db) : result db_error (bytes * StateVersion) :=
  retrieveWithVersion (getContractStateKey id field) db.

(** The entries whose key starts with [prefix]. *)
Definition getprefix (prefix : bytes) (db : Db) : Db := filter (fun kv => is_prefix prefix kv.1 = true) db.
(** An entry that does not split is left out of the map it belongs to (and reported). *)
Definition state_rows (skip : nat) (data : Db) : gmap string (bytes * StateVersion) :=
  list_to_map (omap (fun kv : bytes * bytes =>
    let realKey := bytes_string (drop skip kv.1) in
    if String.eqb realKey "" then None else
    match splitValueAndVersion kv.2 with Ok sv => Some (realKey, sv) | _ => None end) (map_to_list data)).
Definition GetContractStatesByPrefix (id : bytes) (prefix : string) (db : Db) : result db_error (gmap string (bytes * StateVersion)) :=
  let key := CONTRACT_STATE_PREFIX ++ id in
  let data := getprefix (key ++ string_bytes prefix) db in
  if bool_decide (data = ∅) then Err NullState else
  if existsb (fun kv => negb (28 <=? len kv.2)) (map_to_list data) then Err Irregular
  else Ok (state_rows (length key) data).
Definition GetContractStatesById (id : bytes) (db : Db) : result db_error (gmap string (bytes * StateVersion)) :=
  GetContractStatesByPrefix id "" db.

(** ** Lists kept by the deposit contract *)

Section Lists.
Variable unmarshal_list : bytes -> option (list string).      (* json.Unmarshal into a map[string]bool: its keys *)
Variable CheckDecode : string -> result address_error (bytes * byte).
Variable CheckEncode : bytes -> byte -> string.
Variable DepositContractAddress : Address.

Definition stored_list (field : string) (db : Db) : result db_error (list string) :=
  match GetContractState (Address_Bytes DepositContractAddress) field db with
  | Ok (v, _) => match unmarshal_list v with Some l => Ok l | None => Err BadList end
  | Err e => Err e
  | Panic => Panic
  end.
Definition JuryList : string := "JuryList".
Definition DeveloperList : string := "DeveloperList".
Definition GetJuryCandidateList (db : Db) : result db_error (list string) := stored_list JuryList db.
Definition IsInJuryCandidateList (address : Address) (db : Db) : bool :=
  match GetJuryCandidateList db with Ok l => existsb (String.eqb (Str CheckEncode address)) l | _ => false end.

(** The result slice is made with one zero address per entry, and the addresses are appended after them. *)
Definition GetContractDeveloperList (db : Db) : result db_error (list Address) :=
  let? depList := stored_list DeveloperList db in
  Ok (replicate (length depList) zeroAddress ++
      omap (fun addStr => match StringToAddress CheckDecode addStr with Ok add => Some add | _ => None end) depList).
Definition IsInContractDeveloperList (address : Address) (db : Db) : bool :=
  match GetContractDeveloperList db with Ok l => existsb (fun d => Equal d address) l | _ => false end.

End Lists.

(** ** Stored values come back *)

Definition version_ok (v : StateVersion) : Prop :=
  exists n, Height v = Some n /\ 0 <= ci_Index n < 2 ^ 64 /\ len (ci_AssetID n) = 16 /\ 0 <= TxIndex v < 2 ^ 32.

Lemma putUint32_value v : 0 <= v < 2 ^ 32 -> le_uint (putUint32 v) = v /\ len (putUint32 v) = 4.
Proof.
  intros R. split; [|done]. transitivity (Z.shiftr v (8 * 0) mod 256 ^ Z.of_nat 4); [apply (le_uint_put v 4 0); lia|].
  rewrite Z.shiftr_0_r. apply Z.mod_small. simpl in *. lia.
Qed.
Lemma height_bytes {E} n n0 : 0 <= ci_Index n < 2 ^ 64 -> len (ci_AssetID n) = 16 ->
  len (ChainIndex_Bytes n) = 24 /\ ChainIndex_SetBytes (E := E) n0 (ChainIndex_Bytes n) = Ok n.
Proof.
  intros R L. assert (L8 : len (putUint64 (ci_Index n)) = 8) by done.
  assert (L24 : len (ChainIndex_Bytes n) = 24) by (unfold ChainIndex_Bytes; rewrite len_app; lia). split; [done|].
  unfold ChainIndex_SetBytes. rewrite L24. simpl (24 <? 8). cbv iota. f_equal. destruct n as [aid idx]. unfold ChainIndex_Bytes. cbn [ci_Index ci_AssetID] in *.
  assert (slice (putUint64 idx ++ aid) 8 24 = aid) as ->.
  { unfold slice. rewrite drop_app_length' by done. apply take_ge. unfold len in L. lia. }
  assert (slice (putUint64 idx ++ aid) 0 8 = putUint64 idx) as -> by reflexivity.
  rewrite putUint64_value by lia. f_equal. unfold SetBytes, ID_LENGTH. rewrite L. change (16 <? 16) with false. cbv iota zeta. by rewrite L.
Qed.
Lemma version_bytes {E} v : version_ok v ->
  exists b, StateVersion_Bytes (E := E) v = Ok b /\ len b = 28 /\ StateVersion_SetBytes (E := E) b = Ok v.
Proof.
  intros (n & Hn & R & L & T). unfold StateVersion_Bytes. rewrite Hn. simpl. destruct (height_bytes (E := E) n (mkChainIndex zero_id 0) R L) as [L24 Hs].
  destruct (putUint32_value _ T) as [Hv L4]. exists (ChainIndex_Bytes n ++ putUint32 (TxIndex v)). split; [done|]. split; [rewrite len_app; lia|].
  unfold StateVersion_SetBytes. rewrite (proj2 (Z.ltb_ge _ _)) by (rewrite len_app; lia).
  assert (slice (ChainIndex_Bytes n ++ putUint32 (TxIndex v)) 0 24 = ChainIndex_Bytes n) as ->.
  { unfold slice. rewrite drop_0. apply take_app_length'. unfold len in L24. lia. }
  assert (slice (ChainIndex_Bytes n ++ putUint32 (TxIndex v)) 24 28 = putUint32 (TxIndex v)) as ->.
  { unfold slice. rewrite drop_app_length' by (unfold len in L24; lia). apply take_ge. unfold len in L4. lia. }
  rewrite Hs. cbn [rbind]. rewrite Hv. destruct v as [h t]. cbn [Height TxIndex] in *. by rewrite Hn.
Qed.
Lemma split_stored v b val : version_ok v -> StateVersion_Bytes (E := db_error) v = Ok b -> splitValueAndVersion (b ++ val) = Ok (val, v).
Proof.
  intros Hv Hb. destruct (version_bytes (E := db_error) v Hv) as (b' & Hb' & L & Hs). rewrite Hb in Hb'. injection Hb' as <-.
  unfold splitValueAndVersion. rewrite (proj2 (Z.ltb_ge _ _)) by (rewrite len_app; unfold len in *; lia).
  assert (slice (b ++ val) 0 28 = b) as -> by (unfold slice; rewrite drop_0; apply take_app_length'; unfold len in L; lia).
  rewrite Hs. simpl. do 2 f_equal. unfold slice. rewrite drop_app_length' by (unfold len in L; lia). apply take_ge.
  rewrite len_app. unfold len in *. lia.
Qed.

Lemma state_key_inj id id' f f' : length id = length id' -> getContractStateKey id f = getContractStateKey id' f' -> id = id' /\ f = f'.
Proof.
  intros Hl He. unfold getContractStateKey in He. apply app_inv_head in He. apply app_inj_1 in He as [-> He]; [|done]. split; [done|].
  unfold string_bytes in He. by rewrite <- (String.string_of_list_byte_of_string f), He, String.string_of_list_byte_of_string.
Qed.

(** The last write of a list to a key of a contract. *)
Fixpoint last_write (id : bytes) (wset : list ContractWriteSet) (cid : bytes) (field : string) : option ContractWriteSet :=
  match wset with
  | [] => None
  | w :: wset =>
      match last_write id wset cid field with
      | Some w' => Some w'
      | None => if bool_decide (write_target id w = cid) && String.eqb (ws_Key w) field then Some w else None
      end
  end.

Lemma save_one id w version db cid field : version_ok version -> length (write_target id w) = length cid ->
  exists db', SaveContractState id w version db = Ok db' /\
    GetContractState cid field db' =
      if bool_decide (write_target id w = cid) && String.eqb (ws_Key w) field
      then if ws_IsDelete w then Err NotFound else Ok (ws_Value w, version)
      else GetContractState cid field db.
Proof.
  intros Hv Hl. unfold SaveContractState, storeBytesWithVersion, GetContractState, retrieveWithVersion.
  destruct (version_bytes (E := db_error) version Hv) as (vb & Hvb & _ & _). rewrite Hvb. cbn [rbind].
  destruct (decide (write_target id w = cid /\ ws_Key w = field)) as [[<- <-]|Hne].
  - rewrite bool_decide_eq_true_2, String.eqb_refl by done. simpl andb. cbv iota. destruct (ws_IsDelete w); eexists; (split; [reflexivity|]).
    + by rewrite lookup_delete_eq.
    + rewrite lookup_insert_eq. by apply split_stored.
  - assert (Hk : getContractStateKey (write_target id w) (ws_Key w) <> getContractStateKey cid field).
    { intros He. apply state_key_inj in He; [|done]. by apply Hne. }
    assert (bool_decide (write_target id w = cid) && String.eqb (ws_Key w) field = false) as ->.
    { case_bool_decide; [|done]. simpl. apply String.eqb_neq. intros Hf. by apply Hne. }
    destruct (ws_IsDelete w); eexists; (split; [reflexivity|]); [by rewrite lookup_delete_ne|by rewrite lookup_insert_ne].
Qed.

Lemma save_states id wset version cid field : version_ok version -> Forall (fun w => length (write_target id w) = length cid) wset ->
  forall db, exists db', SaveContractStates id wset version db = Ok db' /\
    GetContractState cid field db' =
      match last_write id wset cid field with
      | Some w => if ws_IsDelete w then Err NotFound else Ok (ws_Value w, version)
      | None => GetContractState cid field db
      end.
Proof.
  intros Hv Hw. induction Hw as [|w wset Hl _ IH]; intros db; simpl; [eauto|].
  destruct (save_one id w version db cid field Hv Hl) as (db1 & -> & H1). simpl. destruct (IH db1) as (db2 & -> & H2). exists db2. split; [done|].
  rewrite H2, H1. destruct (last_write id wset cid field); [done|]. by destruct (bool_decide (write_target id w = cid) && String.eqb (ws_Key w) field).
Qed.

(** Saving a write set: reading any key of any contract afterwards gives what the last write of the list to
    it left, value and version (nothing after a deletion), and what was there before otherwise. *)
Theorem saved_states_read id wset version db cid field : version_ok version ->
  Forall (fun w => length (write_target id w) = length cid) wset ->
  exists db', SaveContractStates id wset version db = Ok db' /\
    GetContractState cid field db' =
      match last_write id wset cid field with
      | Some w => if ws_IsDelete w then Err NotFound else Ok (ws_Value w, version)
      | None => GetContractState cid field db
      end.
Proof. intros Hv Hw. by apply save_states. Qed.

(** The zero address passes for a developer as soon as anyone is one. *)
Theorem zero_address_is_developer um cd da db l : stored_list um da DeveloperList db = Ok l -> l <> [] ->
  IsInContractDeveloperList um cd da zeroAddress db = true.
Proof.
  intros Hl Hne. unfold IsInContractDeveloperList, GetContractDeveloperList. rewrite Hl. simpl. destruct l as [|a l]; [done|]. by simpl.
Qed.

Definition sample_version : StateVersion := mkVersion (Some (mkChainIndex (replicate 16 x01) 9)) 3.
Lemma sample_version_ok : version_ok sample_version.
Proof. exists (mkChainIndex (replicate 16 x01) 9). simpl. split_and!; try done; lia. Qed.
Definition sample_writes : list ContractWriteSet :=
  [mkWriteSet false "k" [x0a] []; mkWriteSet true "j" [] []; mkWriteSet false "k" [x0b] []].
Lemma saved_states_read_witness : let cid := replicate 20 x02 in
  exists db', SaveContractStates cid sample_writes sample_version ∅ = Ok db' /\ GetContractState cid "k" db' = Ok ([x0b], sample_version).
Proof. apply (saved_states_read (replicate 20 x02) sample_writes sample_version ∅ (replicate 20 x02) "k"); [apply sample_version_ok|repeat constructor]. Defined.
Definition developer_db : Db := <[getContractStateKey (replicate 20 x00) "DeveloperList" := replicate 28 x00 ++ [x01]]> ∅.
Lemma zero_address_is_developer_witness :
  IsInContractDeveloperList (fun _ => Some ["P1"%string]) (fun _ => Panic) zeroAddress zeroAddress developer_db = true.
Proof. apply (zero_address_is_developer _ _ _ _ ["P1"%string]); [vm_compute; reflexivity|discriminate]. Defined.

End State.
