(* ===== verification/Rwset.v ===== *)
(** * Read and write sets

    src/dag/rwset: what the execution of a contract reads and writes.
    kvrwset.go (entries), rwsetbuilder.go (the sets of each namespace, and the
    tokens paid out, defined and supplied), rwsetTxSimulator.go (the simulator a
    contract reads and writes through: pending writes are kept in a cache and the
    database is left alone), rwsetTxMgr.go (the simulators in use), and the
    functions of src/contracts/manger/support.go that turn the sets into messages.
    A byte slice that may be nil is an [option]; a nil value is a deletion.  The
    simulators are shared by reference: the manager keeps a heap of them.  Go
    iterates over a map in an unspecified order; where the result depends on the
    first entry it meets, [first_entry] chooses it. *)

From S2P Require Import Prelude Address Opcode Script Text AssetId Tx RlpModel HeapSort Unit Pledge StateDb.
From Stdlib Require Import ZArith Lia Bool Strings.Ascii.
From stdpp Require Import pretty.
Local Open Scope Z_scope.

Module Rw.

(** ** kvrwset.go *)

Record KVRead := mkKVRead { r_key : string; r_version : option StateVersion; r_value : option bytes; r_ContractId : bytes }.
Record KVWrite := mkKVWrite { w_key : string; w_isDelete : bool; w_value : option bytes; w_ContractId : bytes }.

Definition KVRead_Reset (m : KVRead) : KVRead := mkKVRead "" None None [].
Definition KVWrite_Reset (m : KVWrite) : KVWrite := mkKVWrite "" false None [].
(** The getters accept a nil receiver. *)
Definition KVRead_GetKey (m : option KVRead) : string := match m with Some m => r_key m | None => "" end.
Definition KVRead_GetVersion (m : option KVRead) : option StateVersion := match m with Some m => r_version m | None => None end.
Definition KVRead_GetValue (m : option KVRead) : option bytes := match m with Some m => r_value m | None => None end.
Definition KVWrite_GetKey (m : option KVWrite) : string := match m with Some m => w_key m | None => "" end.
Definition KVWrite_GetIsDelete (m : option KVWrite) : bool := match m with Some m => w_isDelete m | None => false end.
Definition KVWrite_GetValue (m : option KVWrite) : option bytes := match m with Some m => w_value m | None => None end.
Definition NewKVRead (contractId : bytes) (key : string) (version : option StateVersion) : KVRead := mkKVRead key version None contractId.
Definition newKVWrite (contractId : bytes) (key : string) (value : option bytes) : KVWrite :=
  mkKVWrite key (match value with None => true | Some _ => false end) value contractId.

(** ** The tokens of message.go and token.go *)

Record TokenPayOut := mkPayOut { po_Asset : option Asset; po_Amount : Z; po_PayTo : Address; po_LockTime : Z }.
Record TokenDefine := mkTokenDefine { td_TokenDefineJson : bytes; td_TokenType : Z; td_Creator : Address }.
Record TokenSupply := mkTokenSupply { ts_UniqueId : bytes; ts_AssetId : bytes; ts_Amount : Z; ts_Creator : Address }.

(** ** rwsetbuilder.go *)

Record nsPubRwBuilder := mkNs {
  namespace : string; readMap : gmap string KVRead; writeMap : gmap string KVWrite;
  tokenPayOut : list TokenPayOut; tokenSupply : list TokenSupply; tokenDefine : option TokenDefine }.
Abbreviation RWSetBuilder := (gmap string nsPubRwBuilder).

Definition NewRWSetBuilder : RWSetBuilder := ∅.
Definition newNsPubRwBuilder (ns : string) : nsPubRwBuilder := mkNs ns ∅ ∅ [] [] None.
Definition ns_of (ns : string) (b : RWSetBuilder) : nsPubRwBuilder := default (newNsPubRwBuilder ns) (b !! ns).
(** Creates the entry when it is missing; returns it together with the map that holds it. *)
Definition getOrCreateNsPubRwBuilder (ns : string) (b : RWSetBuilder) : nsPubRwBuilder * RWSetBuilder :=
  match b !! ns with
  | Some n => (n, b)
  | None => (newNsPubRwBuilder ns, <[ns := newNsPubRwBuilder ns]> b)
  end.
Definition update_ns (ns : string) (f : nsPubRwBuilder -> nsPubRwBuilder) (b : RWSetBuilder) : RWSetBuilder :=
  let '(n, b) := getOrCreateNsPubRwBuilder ns b in <[ns := f n]> b.

Section Builder.
Variable first_entry : gmap string KVRead -> option KVRead.
Variable CheckDecode : string -> result address_error (bytes * byte).

(** Without a version, that of the entry of the key is kept, or that of the entry met first is taken. *)
Definition read_version (m : gmap string KVRead) (key : string) (version : option StateVersion) : option StateVersion :=
  match version with
  | Some _ => version
  | None => match m !! key with
            | Some kvread => r_version kvread
            | None => match first_entry m with Some kvread => r_version kvread | None => None end
            end
  end.
Definition AddToReadSet (contractId : bytes) (ns key : string) (version : option StateVersion) : RWSetBuilder -> RWSetBuilder :=
  update_ns ns (fun n =>
    mkNs (namespace n) (<[key := NewKVRead contractId key (read_version (readMap n) key version)]> (readMap n)) (writeMap n)
         (tokenPayOut n) (tokenSupply n) (tokenDefine n)).
Definition AddToWriteSet (contractId : bytes) (ns key : string) (value : option bytes) : RWSetBuilder -> RWSetBuilder :=
  update_ns ns (fun n =>
    mkNs (namespace n) (readMap n) (<[key := newKVWrite contractId key value]> (writeMap n)) (tokenPayOut n) (tokenSupply n) (tokenDefine n)).

Definition AddTokenPayOut (ns addr : string) (asset : option Asset) (amount lockTime : Z) : RWSetBuilder -> RWSetBuilder :=
  update_ns ns (fun n =>
    mkNs (namespace n) (readMap n) (writeMap n) (tokenPayOut n ++ [mkPayOut asset amount (address_or_zero CheckDecode addr) lockTime]) (tokenSupply n) (tokenDefine n)).
Definition b_DefineToken (ns : string) (tokenType : Z) (define : bytes) (createAddr : Address) : RWSetBuilder -> RWSetBuilder :=
  update_ns ns (fun n =>
    mkNs (namespace n) (readMap n) (writeMap n) (tokenPayOut n) (tokenSupply n) (Some (mkTokenDefine define tokenType createAddr))).
Definition AddSupplyToken (ns : string) (assetId uniqueId : bytes) (amt : Z) (createAddr : Address) : RWSetBuilder -> RWSetBuilder :=
  update_ns ns (fun n =>
    mkNs (namespace n) (readMap n) (writeMap n) (tokenPayOut n) (tokenSupply n ++ [mkTokenSupply uniqueId assetId amt createAddr]) (tokenDefine n)).
(** The getters create the entry of the namespace too. *)
Definition GetTokenPayOut (ns : string) (b : RWSetBuilder) : list TokenPayOut * RWSetBuilder :=
  let '(n, b) := getOrCreateNsPubRwBuilder ns b in (tokenPayOut n, b).
Definition GetTokenDefine (ns : string) (b : RWSetBuilder) : option TokenDefine * RWSetBuilder :=
  let '(n, b) := getOrCreateNsPubRwBuilder ns b in (tokenDefine n, b).
Definition GetTokenSupply (ns : string) (b : RWSetBuilder) : list TokenSupply * RWSetBuilder :=
  let '(n, b) := getOrCreateNsPubRwBuilder ns b in (tokenSupply n, b).

(** ** rwsetTxSimulator.go *)

(** What the simulator asks of the ledger. *)
Record IDag := mkDag {
  UnstableHead : option ChainIndex;              (* of the gas token; nil when there is none *)
  d_state : State.Db;
  CurrentNumber : option ChainIndex;             (* the number of the current header; a nil header panics *)
  HeaderTime : ChainIndex -> option Z;           (* the time of the header at a height *)
  AddrUtxos : Address -> option Asset -> list Utxo }.   (* unspent outputs, in the order of the iteration *)

Record RwSetTxSimulator := mkSim {
  chainIndex : option ChainIndex; txid : Hash; rwsetBuilder : option RWSetBuilder;
  write_cache : option (gmap string (option bytes)); dag : option IDag;
  pvtdataQueriesPerformed : bool; doneInvoked : bool }.
Inductive rw_error := AfterDone | PvtdataQueries | NoHeader.
Definition Sim (A : Type) : Type := ST RwSetTxSimulator rw_error A.

Definition NewBasedTxSimulator {E} (idag : IDag) (hash : Hash) : result E RwSetTxSimulator :=
  let? cIndex := rget (UnstableHead idag) in
  Ok (mkSim (Some (mkChainIndex (ci_AssetID cIndex) (ci_Index cIndex))) hash (Some NewRWSetBuilder) (Some ∅) (Some idag) false false).

Definition set_builder (b : option RWSetBuilder) (s : RwSetTxSimulator) : RwSetTxSimulator :=
  mkSim (chainIndex s) (txid s) b (write_cache s) (dag s) (pvtdataQueriesPerformed s) (doneInvoked s).
Definition set_cache (w : option (gmap string (option bytes))) (s : RwSetTxSimulator) : RwSetTxSimulator :=
  mkSim (chainIndex s) (txid s) (rwsetBuilder s) w (dag s) (pvtdataQueriesPerformed s) (doneInvoked s).
(** [if s.rwsetBuilder != nil { ... }] *)
Definition if_builder (f : RWSetBuilder -> RWSetBuilder) : Sim unit := modify (fun s => set_builder (f <$> rwsetBuilder s) s).
(** A call of a method of the builder: a nil builder panics. *)
Definition on_builder {A} (f : RWSetBuilder -> A * RWSetBuilder) : Sim A :=
  let! s := gets id in let! b := get (rwsetBuilder s) in
  let '(a, b) := f b in modify (set_builder (Some b)) ;;; ret a.
Definition on_builder_ (f : RWSetBuilder -> RWSetBuilder) : Sim unit := on_builder (fun b => (tt, f b)).
Definition get_dag : Sim IDag := let! s := gets id in get (dag s).

Definition CheckDone : Sim unit := let! s := gets id in if doneInvoked s then throw AfterDone else ret tt.

(** An error of the database counts as an absent entry. *)
Definition GetState (contractid : bytes) (ns key : string) : Sim (option bytes) :=
  CheckDone ;;;
  let! s := gets id in
  match default ∅ (write_cache s) !! key with
  | Some value => if_builder (AddToReadSet contractid ns key None) ;;; ret value
  | None =>
      let! d := get_dag in
      match State.GetContractState contractid key (d_state d) with
      | Ok (val, ver) => if_builder (AddToReadSet contractid ns key (Some ver)) ;;; ret (Some val)
      | Err _ => ret None
      | Panic => panic
      end
  end.
Fixpoint prefix_rows (contractid : bytes) (ns : string) (data : list (string * (bytes * StateVersion))) : Sim (list (string * bytes)) :=
  match data with
  | [] => ret []
  | (key, (value, version)) :: data =>
      if_builder (AddToReadSet contractid ns key (Some version)) ;;;
      let! result := prefix_rows contractid ns data in ret ((key, value) :: result)
  end.
Definition GetStatesByPrefix (contractid : bytes) (ns prefix : string) : Sim (list (string * bytes)) :=
  CheckDone ;;;
  let! d := get_dag in
  match State.GetContractStatesByPrefix contractid prefix (d_state d) with
  | Ok data => prefix_rows contractid ns (map_to_list data)
  | Err _ => ret []
  | Panic => panic
  end.
(** The time of the last header whose height is a multiple of [rangeNumber], in decimal. *)
Definition GetTimestamp (rangeNumber : Z) : Sim string :=
  CheckDone ;;;
  let! d := get_dag in let! number := get (CurrentNumber d) in
  if rangeNumber =? 0 then panic else
  let timeIndex := uint64 (ci_Index number / rangeNumber * rangeNumber) in
  match HeaderTime d (mkChainIndex (ci_AssetID number) timeIndex) with
  | Some t => ret (pretty t)
  | None => throw NoHeader
  end.
Definition SetState (contractId : bytes) (ns key : string) (value : option bytes) : Sim unit :=
  CheckDone ;;;
  let! s := gets id in
  if pvtdataQueriesPerformed s then throw PvtdataQueries else
  on_builder_ (AddToWriteSet contractId ns key value) ;;;
  let! w := get (write_cache s) in
  modify (set_cache (Some (<[key := value]> w))).
Definition DeleteState (contractId : bytes) (ns key : string) : Sim unit := SetState contractId ns key None.

(** [sort.Strings] compares byte by byte. *)
Definition string_less (a b : string) : bool :=
  match bytes_compare (State.string_bytes a) (State.string_bytes b) with Lt => true | _ => false end.
Definition sorted_keys {A} (m : gmap string A) : list string := Heap.GoSort string_less (map_to_list m).*1.
Definition convertReadMap2Slice (rd : gmap string KVRead) : list KVRead := omap (fun key => rd !! key) (sorted_keys rd).
Definition convertWriteMap2Slice (wt : gmap string KVWrite) : list KVWrite := omap (fun key => wt !! key) (sorted_keys wt).
Definition GetRwData (ns : string) : Sim (list KVRead * list KVWrite) :=
  let! s := gets id in
  let n := match rwsetBuilder s with Some b => ns_of ns b | None => newNsPubRwBuilder ns end in
  ret (convertReadMap2Slice (readMap n), convertWriteMap2Slice (writeMap n)).
Definition GetContractStatesById (contractid : bytes) : Sim (result State.db_error (gmap string (bytes * StateVersion))) :=
  let! d := get_dag in ret (State.GetContractStatesById contractid (d_state d)).

Definition s_Close (s : RwSetTxSimulator) : RwSetTxSimulator :=
  mkSim None zeroHash None None None (pvtdataQueriesPerformed s) (doneInvoked s).
Definition Done (s : RwSetTxSimulator) : RwSetTxSimulator :=
  if doneInvoked s then s else
  let s := s_Close s in mkSim (chainIndex s) (txid s) (rwsetBuilder s) (write_cache s) (dag s) (pvtdataQueriesPerformed s) true.

Fixpoint add_balances {E} (result : gmap Asset Z) (utxos : list Utxo) : Prelude.result E (gmap Asset Z) :=
  match utxos with
  | [] => Ok result
  | v :: utxos =>
      let? a := rget (u_Asset v) in
      add_balances (<[a := match result !! a with Some val => uint64 (val + u_Amount v) | None => u_Amount v end]> result) utxos
  end.
Definition convertUtxo2Balance {E} (utxos : list Utxo) : result E (gmap Asset Z) := add_balances ∅ utxos.
Definition GetTokenBalance (addr : Address) (asset : option Asset) : Sim (gmap Asset Z) :=
  let! d := get_dag in lift (convertUtxo2Balance (AddrUtxos d addr asset)).
Definition PayOutToken (ns address : string) (token : option Asset) (amount lockTime : Z) : Sim unit :=
  on_builder_ (AddTokenPayOut ns address token amount lockTime).
Definition GetPayOutData (ns : string) : Sim (list TokenPayOut) := on_builder (GetTokenPayOut ns).
Definition GetTokenDefineData (ns : string) : Sim (option TokenDefine) := on_builder (GetTokenDefine ns).
Definition GetTokenSupplyData (ns : string) : Sim (list TokenSupply) := on_builder (GetTokenSupply ns).
Definition DefineToken (ns : string) (tokenType : Z) (define : bytes) (creator : string) : Sim unit :=
  on_builder_ (b_DefineToken ns tokenType define (address_or_zero CheckDecode creator)).
Definition SupplyToken (ns : string) (assetId uniqueId : bytes) (amt : Z) (creator : string) : Sim unit :=
  on_builder_ (AddSupplyToken ns assetId uniqueId amt (address_or_zero CheckDecode creator)).

(** ** The results of an execution (contracts/manger/support.go) *)

Record ContractInvokeResult := mkInvokeResult {
  ir_ContractId : bytes; ir_Args : list bytes; ir_ReadSet : list ContractReadSet; ir_WriteSet : list ContractWriteSet;
  ir_TokenPayOut : list TokenPayOut; ir_TokenSupply : list TokenSupply; ir_TokenDefine : option TokenDefine }.
Definition to_read_set (r : KVRead) : ContractReadSet := mkReadSet (KVRead_GetKey (Some r)) (KVRead_GetVersion (Some r)) (r_ContractId r).
Definition to_write_set (w : KVWrite) : ContractWriteSet :=
  mkWriteSet (KVWrite_GetIsDelete (Some w)) (KVWrite_GetKey (Some w)) (default [] (KVWrite_GetValue (Some w))) (w_ContractId w).

(** The log lines of the loops read [args[2]]. *)
Definition RwTxResult2DagInvokeUnit (nm : string) (deployId : bytes) (args : list bytes) : Sim ContractInvokeResult :=
  let! (rd, wt) := GetRwData nm in
  let! tokenPay := GetPayOutData nm in
  let! tokenDef := GetTokenDefineData nm in
  let! tokenSup := GetTokenSupplyData nm in
  if negb (len rd + len wt =? 0) && (len args <=? 2) then panic else
  ret (mkInvokeResult deployId args (map to_read_set rd) (map to_write_set wt) tokenPay tokenSup tokenDef).
(** The read and write sets of a deployment; the log line of its first loop dereferences the version. *)
Definition RwTxResult2DagDeployUnit (nm : string) (contractId : bytes) : Sim ContractDeployPayload :=
  let! (rd, wt) := GetRwData nm in
  if existsb (fun r => match r_version r with None => true | Some _ => false end) rd then panic else
  ret (mkDeploy [] contractId nm [] (mkElectionNode 0 []) (map to_read_set rd) (map to_write_set wt) 0 (mkContractError 0 "")).

(** ** rwsetTxMgr.go *)

(** [common.HexToHash] *)
Definition FromHex (s : string) : bytes :=
  let s := match s with
           | String c0 (String c1 s') => if Ascii.eqb c0 "0"%char && (Ascii.eqb c1 "x"%char || Ascii.eqb c1 "X"%char) then s' else s
           | _ => s
           end in
  DecodeString (if Nat.odd (String.length s) then String "0"%char s else s).
Definition BytesToHash (b : bytes) : Hash :=
  let b := if 32 <? len b then slice b (len b - 32) (len b) else b in replicate (32 - length b) x00 ++ b.
Definition HexToHash (s : string) : Hash := BytesToHash (FromHex s).

Record RwSetTxMgr := mkMgr {
  name : string; sims : list RwSetTxSimulator; baseTxSim : gmap string nat; closed : bool; wg : Z }.
Inductive mgr_error := NewFailed.
Definition M (A : Type) : Type := ST RwSetTxMgr mgr_error A.

Definition NewRwSetMgr (name : string) : RwSetTxMgr := mkMgr name [] ∅ false 0.
(** The two halves of [NewTxSimulator], each under the lock: looking a simulator up, and adding a new one. *)
Definition find_sim (chainid txId : string) (is_sys : bool) (m : RwSetTxMgr) : option nat :=
  if negb is_sys then
    match baseTxSim m !! String.append chainid txId with
    | Some r => match sims m !! r with
                | Some ts => if bytes_equal (txid ts) (HexToHash txId) then Some r else None
                | None => None
                end
    | None => None
    end
  else baseTxSim m !! chainid.
Definition add_sim (idag : IDag) (chainid txId : string) (is_sys : bool) : M nat :=
  let! t := lift (NewBasedTxSimulator idag (HexToHash txId)) in
  let! m := gets id in
  let r := length (sims m) in
  let key := if is_sys then chainid else String.append chainid txId in
  modify (fun m => mkMgr (name m) (sims m ++ [t]) (<[key := r]> (baseTxSim m)) (closed m) (wg m + 1)) ;;; ret r.
Definition NewTxSimulator (idag : IDag) (chainid txId : string) (is_sys : bool) : M nat :=
  let! m := gets id in
  match find_sim chainid txId is_sys m with
  | Some r => ret r
  | None => add_sim idag chainid txId is_sys
  end.
(** [ts.Done(); delete(m.baseTxSim, key); m.wg.Done()]; the wait group panics below zero. *)
Definition close_key (key : string) : M unit :=
  let! m := gets id in
  match baseTxSim m !! key with
  | None => ret tt
  | Some r =>
      modify (fun m => mkMgr (name m) (alter Done r (sims m)) (delete key (baseTxSim m)) (closed m) (wg m - 1)) ;;;
      if wg m <? 1 then panic else ret tt
  end.
Definition CloseTxSimulator (chainid txId : string) : M unit := close_key (String.append chainid txId) ;;; close_key chainid.
(** The loop over the simulators asks whether they are done and does nothing else. *)
Definition Close (m : RwSetTxMgr) : RwSetTxMgr :=
  if closed m then m else mkMgr (name m) (sims m) ∅ true (wg m).
(** A call through the reference a caller holds. *)
Definition with_sim {A} (r : nat) (f : Sim A) : M (result rw_error A) :=
  let! m := gets id in let! s := get (sims m !! r) in
  let '(s', a) := f s in
  modify (fun m => mkMgr (name m) (<[r := s']> (sims m)) (baseTxSim m) (closed m) (wg m)) ;;; ret a.

End Builder.

End Rw.
