(* ===== verification/RwsetProps.v ===== *)
(** * What an execution reads and writes

    The properties of the simulators of Rwset.v: a contract that runs alone sees its
    own writes on top of the database, and committing the write set of its execution
    leaves exactly what it saw; where the isolation ends (the cache is keyed by the
    name of the entry alone); and the life of the simulators in the manager. *)

From S2P Require Import Prelude Address Opcode Script AssetId Tx RlpModel HeapSort Unit Pledge StateDb Rwset.
From Stdlib Require Import ZArith Lia Bool Sorted.
Import Rw.
Local Open Scope Z_scope.

(** ** The order of keys *)

Lemma string_bytes_inj a b : State.string_bytes a = State.string_bytes b -> a = b.
Proof. unfold State.string_bytes. intros H. by rewrite <- (String.string_of_list_byte_of_string a), H, String.string_of_list_byte_of_string. Qed.
Lemma string_less_false a b : string_less a b = false <-> bytes_compare (State.string_bytes b) (State.string_bytes a) <> Gt.
Proof.
  unfold string_less. rewrite (bytes_compare_antisym (State.string_bytes a) (State.string_bytes b)).
  by destruct (bytes_compare (State.string_bytes a) (State.string_bytes b)).
Qed.
Lemma bytes_compare_gt a b c : bytes_compare a b <> Gt -> bytes_compare b c <> Gt -> bytes_compare a c <> Gt.
Proof.
  intros H1 H2. destruct (bytes_compare a b) eqn:C1; [apply bytes_compare_eq in C1 as ->; done| |done].
  destruct (bytes_compare b c) eqn:C2; [apply bytes_compare_eq in C2 as ->; by rewrite C1| |done]. by rewrite (bytes_compare_trans _ _ _ C1 C2).
Qed.
#[export] Instance string_order : Heap.LessOrder string_less.
Proof.
  split.
  - intros a b. unfold string_less. rewrite (bytes_compare_antisym (State.string_bytes a) (State.string_bytes b)).
    by destruct (bytes_compare (State.string_bytes a) (State.string_bytes b)).
  - intros a b c. rewrite !string_less_false. apply bytes_compare_gt.
Qed.

(** Strictly ascending keys. *)
Definition ascending (l : list string) : Prop := NoDup l /\ StronglySorted (Heap.le_of string_less) l.
Lemma sorted_keys_ascending {A} (m : gmap string A) : ascending (sorted_keys m).
Proof.
  split; [|apply Heap.GoSort_sorted, _]. unfold sorted_keys. rewrite Heap.GoSort_perm. apply NoDup_fst_map_to_list.
Qed.
Lemma elem_of_sorted_keys {A} (m : gmap string A) k : k ∈ sorted_keys m <-> is_Some (m !! k).
Proof.
  unfold sorted_keys. rewrite Heap.GoSort_perm. rewrite list_elem_of_fmap. split.
  - intros ([k' v] & -> & H). apply elem_of_map_to_list in H. eauto.
  - intros [v H]. exists (k, v). split; [done|]. by apply elem_of_map_to_list.
Qed.

(** ** Namespaces of the builder *)

Lemma ns_update ns ns' f b : ns_of ns' (update_ns ns f b) = if String.eqb ns ns' then f (ns_of ns b) else ns_of ns' b.
Proof.
  unfold update_ns, getOrCreateNsPubRwBuilder, ns_of. destruct (String.eqb_spec ns ns') as [<-|Hne].
  - destruct (b !! ns) eqn:Hb; simpl; by rewrite lookup_insert_eq.
  - destruct (b !! ns) eqn:Hb; simpl; rewrite ?lookup_insert_ne by done; done.
Qed.

Lemma state_no_panic cid k db : State.GetContractState cid k db <> Panic.
Proof.
  unfold State.GetContractState, State.retrieveWithVersion. destruct (db !! _) as [data|]; [|done].
  unfold State.splitValueAndVersion. destruct (len data <? 28) eqn:L; [done|]. apply Z.ltb_ge in L.
  assert (L28 : length (slice data 0 28) = 28%nat) by (unfold slice; rewrite length_take, length_drop; unfold len in L; lia).
  unfold State.StateVersion_SetBytes. rewrite (proj2 (Z.ltb_ge _ _)) by (unfold len; lia).
  unfold ChainIndex_SetBytes. rewrite (proj2 (Z.ltb_ge _ _)); [done|]. unfold len, slice at 1. rewrite length_take, length_drop. lia.
Qed.

Lemma GetState_eq fe c n k ci tx b w d p :
  GetState fe c n k (mkSim ci tx b (Some w) (Some d) p false) =
  match w !! k with
  | Some v => (mkSim ci tx (AddToReadSet fe c n k None <$> b) (Some w) (Some d) p false, Ok v)
  | None => match State.GetContractState c k (d_state d) with
            | Ok (v, ver) => (mkSim ci tx (AddToReadSet fe c n k (Some ver) <$> b) (Some w) (Some d) p false, Ok (Some v))
            | Err _ => (mkSim ci tx b (Some w) (Some d) p false, Ok None)
            | Panic => (mkSim ci tx b (Some w) (Some d) p false, Panic)
            end
  end.
Proof.
  unfold GetState, CheckDone, get_dag, if_builder, bind, gets, modify, id. cbn. destruct (w !! k); [done|]. cbn.
  destruct (State.GetContractState c k (d_state d)) as [[v ver]|e|]; done.
Qed.

Lemma on_builder_eq {A} (f : RWSetBuilder -> A * RWSetBuilder) ci tx b w d p q :
  on_builder f (mkSim ci tx (Some b) w d p q) = (mkSim ci tx (Some (f b).2) w d p q, Ok (f b).1).
Proof. unfold on_builder, bind, gets, modify, id. cbn. by destruct (f b). Qed.

(** ** One contract alone *)

(** The value a contract has stored under a key. *)
Definition stored (db : State.Db) (cid : bytes) (k : string) : option bytes :=
  match State.GetContractState cid k db with Ok (v, _) => Some v | _ => None end.

(** What a contract asks for, and its meaning on the contents of its storage. *)
Inductive call := CGet (k : string) | CSet (k : string) (v : option bytes) | CDel (k : string).
Definition contents : Type := string -> option bytes.
Definition upd (k : string) (v : option bytes) (σ : contents) : contents := fun k' => if String.eqb k k' then v else σ k'.
Definition abs_call (c : call) (σ : contents) : contents * option bytes :=
  match c with CGet k => (σ, σ k) | CSet k v => (upd k v σ, None) | CDel k => (upd k None σ, None) end.
Fixpoint abs_run (cs : list call) (σ : contents) : contents * list (option bytes) :=
  match cs with
  | [] => (σ, [])
  | c :: cs => let '(σ1, a) := abs_call c σ in let '(σ2, l) := abs_run cs σ1 in (σ2, a :: l)
  end.

Section Client.
Variable first_entry : gmap string KVRead -> option KVRead.
Variables (cid : bytes) (ns : string).

Definition sim_call (c : call) : Sim (option bytes) :=
  match c with
  | CGet k => GetState first_entry cid ns k
  | CSet k v => SetState cid ns k v ;;; ret None
  | CDel k => DeleteState cid ns k ;;; ret None
  end.
Fixpoint sim_run (cs : list call) : Sim (list (option bytes)) :=
  match cs with
  | [] => ret []
  | c :: cs => let! a := sim_call c in let! l := sim_run cs in ret (a :: l)
  end.

(** The simulator shows the contents [σ]: the cache over the database, with a write for each entry of the
    cache. *)
Definition tracks (d : IDag) (s : RwSetTxSimulator) (σ : contents) : Prop :=
  exists ci tx b w, s = mkSim ci tx (Some b) (Some w) (Some d) false false /\
  (forall k, σ k = match w !! k with Some v => v | None => stored (d_state d) cid k end) /\
  (forall k, writeMap (ns_of ns b) !! k = newKVWrite cid k <$> w !! k).

Lemma writes_of_read k v b : writeMap (ns_of ns (AddToReadSet first_entry cid ns k v b)) = writeMap (ns_of ns b).
Proof. unfold AddToReadSet. by rewrite ns_update, String.eqb_refl. Qed.

Lemma set_tracks d k v s σ : tracks d s σ -> exists s', SetState cid ns k v s = (s', Ok tt) /\ tracks d s' (upd k v σ).
Proof.
  intros (ci & tx & b & w & -> & Hσ & Hw). eexists. split; [reflexivity|]. exists ci, tx. do 2 eexists. split; [reflexivity|]. split; intros k'.
  - unfold upd. destruct (String.eqb_spec k k') as [<-|Hne]; [by rewrite lookup_insert_eq|by rewrite lookup_insert_ne].
  - unfold AddToWriteSet. rewrite ns_update, String.eqb_refl. cbn [writeMap].
    destruct (decide (k = k')) as [<-|Hne]; [by rewrite !lookup_insert_eq|by rewrite !lookup_insert_ne].
Qed.
Lemma call_tracks d c s σ : tracks d s σ ->
  exists s', sim_call c s = (s', Ok (abs_call c σ).2) /\ tracks d s' (abs_call c σ).1.
Proof.
  intros Ht. destruct c as [k|k v|k]; simpl.
  - destruct Ht as (ci & tx & b & w & -> & Hσ & Hw). rewrite GetState_eq, Hσ.
    destruct (w !! k) as [v|] eqn:Hk; [|unfold stored; destruct (State.GetContractState cid k (d_state d)) as [[v ver]|e|] eqn:Hg].
    1,2: eexists; (split; [reflexivity|]); exists ci, tx; do 2 eexists; (split; [reflexivity|]); (split; [done|]); intros k'; by rewrite writes_of_read.
    + eexists. split; [reflexivity|]. by exists ci, tx, b, w.
    + by apply state_no_panic in Hg.
  - destruct (set_tracks d k v s σ Ht) as (s' & Hs & Ht'). exists s'. split; [|done]. unfold bind. by rewrite Hs.
  - destruct (set_tracks d k None s σ Ht) as (s' & Hs & Ht'). exists s'. split; [|done]. unfold bind, DeleteState. by rewrite Hs.
Qed.
Lemma run_tracks d cs : forall s σ, tracks d s σ ->
  exists s', sim_run cs s = (s', Ok (abs_run cs σ).2) /\ tracks d s' (abs_run cs σ).1.
Proof.
  induction cs as [|c cs IH]; intros s σ Ht; simpl; [by exists s|].
  destruct (call_tracks d c s σ Ht) as (s1 & H1 & Ht1). destruct (abs_call c σ) as [σ1 a] eqn:Ha. cbn [fst snd] in *.
  destruct (IH s1 σ1 Ht1) as (s2 & H2 & Ht2). destruct (abs_run cs σ1) as [σ2 l] eqn:Hr. cbn [fst snd] in *.
  exists s2. split; [|done]. unfold bind. by rewrite H1, H2.
Qed.

(** *** The write set *)

Lemma converted_writes (w : gmap string (option bytes)) (wt : gmap string KVWrite) : (forall k, wt !! k = newKVWrite cid k <$> w !! k) ->
  map to_write_set (convertWriteMap2Slice wt) =
  map (fun k => to_write_set (newKVWrite cid k (default None (w !! k)))) (sorted_keys wt).
Proof.
  intros Hw. unfold convertWriteMap2Slice. assert (Hin : forall k, k ∈ sorted_keys wt -> is_Some (wt !! k)) by (intros k; apply elem_of_sorted_keys).
  induction (sorted_keys wt) as [|k l IH]; [done|]. destruct (Hin k) as [x Hx]; [left|].
  change (omap (fun key => wt !! key) (k :: l)) with (match wt !! k with Some y => y :: omap (fun key => wt !! key) l | None => omap (fun key => wt !! key) l end).
  rewrite Hx. cbn [map]. rewrite IH by (intros k' Hk'; apply Hin; by right). f_equal.
  rewrite Hw in Hx. destruct (w !! k); [|done]. injection Hx as <-. done.
Qed.
Lemma last_write_out l k : k ∉ map ws_Key l -> State.last_write cid l cid k = None.
Proof.
  induction l as [|z l IH]; intros Hl; [done|]. cbn [map] in Hl. apply not_elem_of_cons in Hl as [Hz Hl]. simpl. rewrite IH by done.
  destruct (String.eqb_spec (ws_Key z) k) as [Hk|_]; [by symmetry in Hk|]. by rewrite andb_false_r.
Qed.
Lemma last_write_in l k x : NoDup (map ws_Key l) -> Forall (fun w => State.write_target cid w = cid) l -> x ∈ l -> ws_Key x = k ->
  State.last_write cid l cid k = Some x.
Proof.
  intros Hn Ht Hx Hk. induction l as [|y l IH]; [by apply not_elem_of_nil in Hx|]. apply NoDup_cons in Hn as [Hy Hn]. apply Forall_cons in Ht as [Hty Ht].
  simpl. apply elem_of_cons in Hx as [->|Hx].
  - rewrite last_write_out by by rewrite <- Hk.
    rewrite Hk, String.eqb_refl, bool_decide_eq_true_2 by done. done.
  - by rewrite IH.
Qed.
Lemma committed d s σ : tracks d s σ -> forall args version, 3 <= len args -> State.version_ok version ->
  exists s' rst db', RwTxResult2DagInvokeUnit ns cid args s = (s', Ok rst) /\
    ascending (map ws_Key (ir_WriteSet rst)) /\
    State.SaveContractStates cid (ir_WriteSet rst) version (d_state d) = Ok db' /\
    forall k, stored db' cid k = σ k.
Proof.
  intros (ci & tx & b & w & -> & Hσ & Hw) args version Ha Hv.
  set (wt := writeMap (ns_of ns b)) in *. set (ws := map to_write_set (convertWriteMap2Slice wt)).
  assert (Hws := converted_writes w wt Hw). fold ws in Hws.
  assert (Hk : map ws_Key ws = sorted_keys wt) by (rewrite Hws, map_map; apply map_id).
  assert (Htgt : Forall (fun x => State.write_target cid x = cid) ws).
  { rewrite Hws. apply Forall_forall. intros x Hx. apply list_elem_of_In, in_map_iff in Hx as (k & <- & _). unfold State.write_target. simpl.
    destruct (len cid =? 0); done. }
  assert (exists s' rst, RwTxResult2DagInvokeUnit ns cid args (mkSim ci tx (Some b) (Some w) (Some d) false false) = (s', Ok rst) /\ ir_WriteSet rst = ws) as (s' & rst & Hr & Hrw).
  { unfold RwTxResult2DagInvokeUnit, GetPayOutData, GetTokenDefineData, GetTokenSupplyData, GetRwData, bind, gets, ret, id. cbn [rwsetBuilder].
    rewrite !on_builder_eq, (proj2 (Z.leb_gt _ _)) by lia. rewrite andb_false_r. by do 2 eexists. }
  destruct (State.save_states cid ws version cid "" Hv) with (db := d_state d) as (db' & Hs & _).
  { eapply Forall_impl; [exact Htgt|]. by intros x ->. }
  exists s', rst, db'. rewrite Hrw. split; [done|]. split; [rewrite Hk; apply sorted_keys_ascending|]. split; [done|].
  intros k. destruct (State.save_states cid ws version cid k Hv) with (db := d_state d) as (db2 & Hs2 & Hg).
  { eapply Forall_impl; [exact Htgt|]. by intros x ->. }
  rewrite Hs in Hs2. injection Hs2 as <-. unfold stored at 1. rewrite Hg, Hσ. destruct (w !! k) as [v|] eqn:Hwk.
  - assert (Hin : to_write_set (newKVWrite cid k v) ∈ ws).
    { rewrite Hws. apply list_elem_of_fmap. exists k. rewrite Hwk. split; [reflexivity|]. apply elem_of_sorted_keys. rewrite Hw, Hwk. done. }
    rewrite (last_write_in ws k (to_write_set (newKVWrite cid k v))); [by destruct v|rewrite Hk; apply sorted_keys_ascending|done|done|done].
  - rewrite last_write_out; [done|]. rewrite Hk, elem_of_sorted_keys, Hw, Hwk. by intros [? ?].
Qed.

End Client.

(** ** Theorems *)

(** C6: Isolation and commit: a contract that runs alone in its namespace, from a fresh simulator, and reads,
    writes and deletes single keys (queries by prefix, which do not see its own writes, are not covered), gets the
    answers it would get from a storage it writes directly; the write set of the result has strictly ascending
    keys, and saving it leaves exactly the contents the contract saw, while the database was not touched
    before. *)
Theorem simulation_commits first_entry cid ns d hash args version cs :
  is_Some (UnstableHead d) -> 3 <= len args -> State.version_ok version ->
  exists s0 s1 s2 rst db',
    NewBasedTxSimulator (E := rw_error) d hash = Ok s0 /\
    sim_run first_entry cid ns cs s0 = (s1, Ok (abs_run cs (stored (d_state d) cid)).2) /\
    RwTxResult2DagInvokeUnit ns cid args s1 = (s2, Ok rst) /\
    ascending (map ws_Key (ir_WriteSet rst)) /\
    State.SaveContractStates cid (ir_WriteSet rst) version (d_state d) = Ok db' /\
    forall k, stored db' cid k = (abs_run cs (stored (d_state d) cid)).1 k.
Proof.
  intros [ci Hci] Ha Hv. unfold NewBasedTxSimulator. rewrite Hci. cbn [rget rbind]. eexists.
  destruct (run_tracks first_entry cid ns d cs (mkSim (Some (mkChainIndex (ci_AssetID ci) (ci_Index ci))) hash (Some NewRWSetBuilder) (Some ∅) (Some d) false false)
    (stored (d_state d) cid)) as (s1 & Hr & Ht).
  { do 4 eexists. split; [reflexivity|]. by split. }
  destruct (committed cid ns d s1 _ Ht args version Ha Hv) as (s2 & rst & db' & H1 & H2 & H3 & H4).
  by exists s1, s2, rst, db'.
Qed.

(** The cache is keyed by the name of the entry alone: what one contract wrote, any other contract that runs
    on the same simulator reads as its own, whatever is stored for it. *)
Theorem cache_crosses_contracts first_entry c1 ns1 c2 ns2 k v s s1 :
  SetState c1 ns1 k v s = (s1, Ok tt) -> (GetState first_entry c2 ns2 k s1).2 = Ok v.
Proof.
  destruct s as [ci tx [b|] [w|] d [] []]; unfold SetState, CheckDone, on_builder_, bind, gets, modify, id; cbn; try done; rewrite ?on_builder_eq; cbn; try done.
  intros [= <-]. unfold GetState, CheckDone, bind, gets, id. cbn. by rewrite lookup_insert_eq.
Qed.

(** What a read leaves in the read set.  An entry of the database that is read is recorded with its version;
    one that is absent is not recorded at all. *)
Lemma read_recorded fe c n k ci tx b w d p v ver : w !! k = None -> State.GetContractState c k (d_state d) = Ok (v, ver) ->
  exists b', GetState fe c n k (mkSim ci tx (Some b) (Some w) (Some d) p false) = (mkSim ci tx (Some b') (Some w) (Some d) p false, Ok (Some v)) /\
    readMap (ns_of n b') !! k = Some (mkKVRead k (Some ver) None c).
Proof.
  intros Hw Hg. rewrite GetState_eq, Hw, Hg. eexists. split; [reflexivity|]. unfold AddToReadSet. rewrite ns_update, String.eqb_refl. cbn [readMap].
  by rewrite lookup_insert_eq.
Qed.
Lemma absent_read_leaves_no_trace fe c n k ci tx b w d p e : w !! k = None -> State.GetContractState c k (d_state d) = Err e ->
  GetState fe c n k (mkSim ci tx b (Some w) (Some d) p false) = (mkSim ci tx b (Some w) (Some d) p false, Ok None).
Proof. intros Hw Hg. by rewrite GetState_eq, Hw, Hg. Qed.

(** The choice of the entry met first is admissible: one of the entries, when there is one. *)
Definition meets_an_entry (first_entry : gmap string KVRead -> option KVRead) : Prop :=
  forall m, match first_entry m with Some r => exists k, m !! k = Some r | None => m = ∅ end.
Definition first_of (m : gmap string KVRead) : option KVRead := head (map_to_list m).*2.
Definition last_of (m : gmap string KVRead) : option KVRead := last (map_to_list m).*2.
Lemma values_of (m : gmap string KVRead) (r : KVRead) : r ∈ (map_to_list m).*2 -> exists k : string, m !! k = Some r.
Proof. intros ([k r'] & -> & H)%list_elem_of_fmap. apply elem_of_map_to_list in H. eauto. Qed.
Lemma values_nil (m : gmap string KVRead) : (map_to_list m).*2 = [] -> m = ∅.
Proof. intros H. apply fmap_nil_inv in H. by apply map_to_list_empty_iff. Qed.
Lemma first_of_meets : meets_an_entry first_of.
Proof.
  intros m. unfold first_of. destruct ((map_to_list m).*2) as [|r l] eqn:H; simpl; [by apply values_nil|]. apply values_of. rewrite H. left.
Qed.
Lemma last_of_meets : meets_an_entry last_of.
Proof.
  intros m. unfold last_of. destruct (last (map_to_list m).*2) as [r|] eqn:H; [|apply last_None in H; by apply values_nil].
  apply values_of. by apply last_Some_elem_of.
Qed.

Definition sample_cid : bytes := replicate 20 x02.
Definition sample_height (n : Z) : ChainIndex := mkChainIndex (replicate 16 x01) n.
Definition sample_row (n : Z) : bytes := ChainIndex_Bytes (sample_height n) ++ State.putUint32 0 ++ [x61].
Definition sample_store : State.Db :=
  <[State.getContractStateKey sample_cid "b" := sample_row 2]> (<[State.getContractStateKey sample_cid "a" := sample_row 1]> ∅).
Definition sample_dag : IDag := mkDag (Some (sample_height 5)) sample_store (Some (sample_height 5)) (fun _ => None) (fun _ _ => []).
Definition sample_sim : RwSetTxSimulator := mkSim (Some (sample_height 5)) zeroHash (Some ∅) (Some ∅) (Some sample_dag) false false.
Definition sample_calls : list call := [CGet "a"; CGet "b"; CSet "c" (Some [x00]); CGet "c"].
Definition read_versions (s : RwSetTxSimulator) (ns : string) : list (string * option StateVersion) :=
  match rwsetBuilder s with Some b => map (fun r => (r_key r, r_version r)) (convertReadMap2Slice (readMap (ns_of ns b))) | None => [] end.

(** The read set of an execution is not determined by the execution: for an entry that a contract writes and
    then reads, the version of whatever entry Go's iteration meets first is recorded, so two jurors that run
    the same calls on the same database can sign different results. *)
Theorem read_set_depends_on_iteration :
  exists first1 first2, meets_an_entry first1 /\ meets_an_entry first2 /\
    read_versions (sim_run first1 sample_cid "cc" sample_calls sample_sim).1 "cc" <>
    read_versions (sim_run first2 sample_cid "cc" sample_calls sample_sim).1 "cc".
Proof.
  exists first_of, last_of. split; [apply first_of_meets|]. split; [apply last_of_meets|]. vm_compute. congruence.
Qed.

(** The database query by prefix knows nothing of the pending writes. *)
Lemma prefix_query_ignores_writes fe c n prefix data ci tx b w d p : State.GetContractStatesByPrefix c prefix (d_state d) = Ok data ->
  (GetStatesByPrefix fe c n prefix (mkSim ci tx b w (Some d) p false)).2 = Ok (map (fun kv : string * (bytes * StateVersion) => (kv.1, kv.2.1)) (map_to_list data)).
Proof.
  intros Hd. unfold GetStatesByPrefix, CheckDone, get_dag, bind, gets, id. cbn. rewrite Hd. generalize (map_to_list data) as l. intros l.
  generalize b as b0. induction l as [|[k [v ver]] l IH]; intros b0; [done|]. cbn [prefix_rows map fst snd]. unfold if_builder, bind, modify, set_builder. cbn.
  specialize (IH (AddToReadSet fe c n k (Some ver) <$> b0)). destruct (prefix_rows fe c n l _) as [s' r]. cbn in IH. by rewrite IH.
Qed.

(** A simulator that is done answers reads and writes with an error, but the calls on tokens, which do not
    ask whether it is done, dereference the builder it no longer has. *)
Theorem done_simulator fe cd s c n k v asset amt lt ty df id uid creator : doneInvoked s = false ->
  (GetState fe c n k (Done s)).2 = Err AfterDone /\ (SetState c n k v (Done s)).2 = Err AfterDone /\
  (GetStatesByPrefix fe c n k (Done s)).2 = Err AfterDone /\ (GetRwData n (Done s)).2 = Ok ([], []) /\
  (PayOutToken cd n creator asset amt lt (Done s)).2 = Panic /\ (DefineToken cd n ty df creator (Done s)).2 = Panic /\
  (SupplyToken cd n id uid amt creator (Done s)).2 = Panic /\ (GetPayOutData n (Done s)).2 = Panic /\
  Done (Done s) = Done s.
Proof. destruct s. cbn. intros ->. split_and!; reflexivity. Qed.

(** ** The manager *)

(** The counter of the wait group covers the simulators in the map, and these exist. *)
Definition mgr_ok (m : RwSetTxMgr) : Prop :=
  Z.of_nat (size (baseTxSim m)) <= wg m /\ map_Forall (fun _ r => (r < length (sims m))%nat) (baseTxSim m).

Lemma size_insert_le {A} (k : string) (v : A) (m : gmap string A) : (size (<[k := v]> m) <= Datatypes.S (size m))%nat.
Proof. destruct (m !! k) eqn:H; [rewrite map_size_insert_Some by eauto; lia|rewrite map_size_insert_None by done; lia]. Qed.
Lemma add_sim_ok d chain t sys m : mgr_ok m -> mgr_ok (add_sim d chain t sys m).1 /\
  forall r, (add_sim d chain t sys m).2 = Ok r -> r = length (sims m) /\ UnstableHead d <> None /\
    baseTxSim (add_sim d chain t sys m).1 = <[(if sys then chain else String.append chain t) := r]> (baseTxSim m) /\
    length (sims (add_sim d chain t sys m).1) = Datatypes.S r /\ wg (add_sim d chain t sys m).1 = wg m + 1.
Proof.
  intros [Hw Hb]. unfold add_sim, lift, bind, gets, modify, NewBasedTxSimulator, id. destruct (UnstableHead d) as [ci|]; [|by split]. cbn. split.
  - split; cbn; [pose proof (size_insert_le (if sys then chain else String.append chain t) (length (sims m)) (baseTxSim m)); lia|].
    rewrite length_app. simpl. apply map_Forall_insert_2; [lia|]. eapply map_Forall_impl; [exact Hb|]. simpl. lia.
  - intros r [= <-]. rewrite length_app. simpl. split_and!; try done. lia.
Qed.
Lemma close_key_ok k m : mgr_ok m -> mgr_ok (close_key k m).1 /\ (close_key k m).2 = Ok tt /\
  baseTxSim (close_key k m).1 = delete k (baseTxSim m) /\
  (forall r s, sims m !! r = Some s -> sims (close_key k m).1 !! r = Some (if bool_decide (baseTxSim m !! k = Some r) then Done s else s)).
Proof.
  intros [Hw Hb]. unfold close_key, bind, gets, modify, ret, id. destruct (baseTxSim m !! k) as [r|] eqn:Hk.
  - assert (Hsz := map_size_delete k (baseTxSim m)). rewrite Hk in Hsz.
    assert (Hpos : size (baseTxSim m) <> 0%nat) by (apply (map_size_ne_0_lookup_2 _ k); eauto). simpl in Hsz.
    rewrite (proj2 (Z.ltb_ge _ _)) by lia. cbn. split; [split; cbn|].
    + lia.
    + rewrite length_alter. by apply map_Forall_delete.
    + split; [done|]. split; [done|]. intros r' s Hs. case_bool_decide as E; [injection E as <-; by rewrite list_lookup_alter_eq, Hs|].
      rewrite list_lookup_alter_ne; [done|]. intros ->. done.
  - cbn. split; [by split|]. split; [done|]. split; [by rewrite delete_id|]. intros r s Hs. by rewrite bool_decide_eq_false_2.
Qed.

Lemma Done_done s : doneInvoked (Done s) = true.
Proof. unfold Done. by destruct (doneInvoked s) eqn:H. Qed.
Lemma CloseTxSimulator_ok chain t m : mgr_ok m -> mgr_ok (CloseTxSimulator chain t m).1 /\ (CloseTxSimulator chain t m).2 = Ok tt /\
  baseTxSim (CloseTxSimulator chain t m).1 = delete chain (delete (String.append chain t) (baseTxSim m)) /\
  forall r s, baseTxSim m !! chain = Some r -> sims m !! r = Some s -> exists s', sims (CloseTxSimulator chain t m).1 !! r = Some s' /\ doneInvoked s' = true.
Proof.
  intros Hm. unfold CloseTxSimulator, bind. destruct (close_key_ok (String.append chain t) m Hm) as (Hm1 & H1 & Hb1 & Hs1).
  destruct (close_key _ m) as [m1 r1]. cbn in *. subst r1. destruct (close_key_ok chain m1 Hm1) as (Hm2 & H2 & Hb2 & Hs2).
  split; [done|]. split; [done|]. split; [by rewrite <- Hb1|]. intros r s Hr Hs. specialize (Hs1 r s Hs). specialize (Hs2 r _ Hs1).
  exists (if bool_decide (baseTxSim m1 !! chain = Some r) then Done (if bool_decide (baseTxSim m !! String.append chain t = Some r) then Done s else s)
          else if bool_decide (baseTxSim m !! String.append chain t = Some r) then Done s else s). split; [exact Hs2|].
  case_bool_decide as E; [apply Done_done|]. rewrite Hb1 in E. destruct (decide (String.append chain t = chain)) as [Heq|Hne].
  - rewrite Heq, Hr, bool_decide_eq_true_2 by done. apply Done_done.
  - rewrite lookup_delete_ne in E by done. congruence.
Qed.

(** The calls on a manager and on the simulators it has handed out, in any order and by any number of
    callers; a creation may run its two locked sections with other calls in between. *)
Inductive mgr_step : RwSetTxMgr -> RwSetTxMgr -> Prop :=
| step_new d chain t sys m : mgr_step m (NewTxSimulator d chain t sys m).1
| step_add d chain t sys m : mgr_step m (add_sim d chain t sys m).1
| step_close_sim chain t m : mgr_step m (CloseTxSimulator chain t m).1
| step_close m : mgr_step m (Close m)
| step_use {A} r (f : Sim A) m : mgr_step m (with_sim r f m).1.
Inductive mgr_reachable : RwSetTxMgr -> Prop :=
| mgr_new n : mgr_reachable (NewRwSetMgr n)
| mgr_next m m' : mgr_reachable m -> mgr_step m m' -> mgr_reachable m'.

Lemma new_sim_ok d chain t sys m : mgr_ok m -> mgr_ok (NewTxSimulator d chain t sys m).1.
Proof.
  intros Hm. unfold NewTxSimulator, bind, gets, id. destruct (find_sim chain t sys m); [done|]. by apply add_sim_ok.
Qed.
Lemma mgr_step_ok m m' : mgr_ok m -> mgr_step m m' -> mgr_ok m'.
Proof.
  intros Hm H. revert Hm. destruct H; intros Hm; [by apply new_sim_ok|by apply add_sim_ok|by apply CloseTxSimulator_ok| |].
  - unfold Close. destruct (closed m); [done|]. destruct Hm as [Hw _]. split; cbn; [rewrite map_size_empty; lia|apply map_Forall_empty].
  - unfold with_sim, bind, gets, modify, get, panic, ret, id. destruct (sims m !! r) as [s|]; [|done]. destruct (f s) as [s' a]. cbn.
    destruct Hm as [Hw Hb]. split; cbn; [done|]. by rewrite length_insert.
Qed.
Lemma mgr_reachable_ok m : mgr_reachable m -> mgr_ok m.
Proof. induction 1 as [n|m m' _ IH H]; [split; cbn; [rewrite map_size_empty; lia|apply map_Forall_empty]|by eapply mgr_step_ok]. Qed.

(** However creations, closings and uses interleave, closing the simulators of a transaction never panics:
    the wait group counts at least the simulators in the map, and each of them exists. *)
Theorem manager_invariant m chain t : mgr_reachable m ->
  Z.of_nat (size (baseTxSim m)) <= wg m /\ (forall k r, baseTxSim m !! k = Some r -> is_Some (sims m !! r)) /\
  (CloseTxSimulator chain t m).2 = Ok tt /\
  baseTxSim (CloseTxSimulator chain t m).1 = delete chain (delete (String.append chain t) (baseTxSim m)).
Proof.
  intros Hr. apply mgr_reachable_ok in Hr as Hm. destruct Hm as [Hw Hb]. split; [done|]. split.
  - intros k r Hk. apply lookup_lt_is_Some_2. by apply (Hb k).
  - by destruct (CloseTxSimulator_ok chain t m (conj Hw Hb)) as (_ & ? & ? & _).
Qed.

(** All system contract calls on a chain share one simulator, whatever their transaction, and closing the
    simulators of any transaction of the chain finishes it: the calls still running on it fail. *)
Theorem shared_simulator_closed d1 d2 chain t1 t2 t m m1 m2 r1 r2 : mgr_reachable m ->
  NewTxSimulator d1 chain t1 true m = (m1, Ok r1) -> NewTxSimulator d2 chain t2 true m1 = (m2, Ok r2) ->
  r1 = r2 /\ m1 = m2 /\
  exists s, sims (CloseTxSimulator chain t m2).1 !! r2 = Some s /\
    forall fe c n k v, (GetState fe c n k s).2 = Err AfterDone /\ (SetState c n k v s).2 = Err AfterDone.
Proof.
  intros Hr H1 H2. apply mgr_reachable_ok in Hr as Hm. assert (Hm1 : mgr_ok m1) by (pose proof (new_sim_ok d1 chain t1 true m Hm) as H; by rewrite H1 in H).
  assert (Hc : baseTxSim m1 !! chain = Some r1).
  { unfold NewTxSimulator, bind, gets, id, find_sim in H1. cbn [negb] in H1. destruct (baseTxSim m !! chain) as [r|] eqn:Hb; [by injection H1 as <- <-|].
    destruct (add_sim_ok d1 chain t1 true m Hm) as [_ Ha]. rewrite H1 in Ha. destruct (Ha r1 eq_refl) as (_ & _ & Hb1 & _). cbn [fst] in Hb1. by rewrite Hb1, lookup_insert_eq. }
  unfold NewTxSimulator, bind, gets, id, find_sim in H2. cbn [negb] in H2. rewrite Hc in H2. injection H2 as <- <-. split; [done|]. split; [done|].
  destruct (CloseTxSimulator_ok chain t m1 Hm1) as (_ & _ & _ & Hcl). destruct Hm1 as [_ Hb]. destruct (lookup_lt_is_Some_2 (sims m1) r1 (Hb chain r1 Hc)) as [s Hs].
  destruct (Hcl r1 s Hc Hs) as (s' & Hs' & Hd). exists s'. split; [done|]. intros. destruct s'. cbn in *. subst. done.
Qed.

(** The lookup and the insertion of a creation are two locked sections: two callers that both find nothing
    make two simulators, of which the first is forgotten. *)
Lemma interleaved_creation d chain t m m1 m2 r1 r2 : mgr_ok m -> find_sim chain t false m = None ->
  add_sim d chain t false m = (m1, Ok r1) -> add_sim d chain t false m1 = (m2, Ok r2) ->
  r1 <> r2 /\ baseTxSim m2 = <[String.append chain t := r2]> (baseTxSim m) /\ wg m2 = wg m + 2.
Proof.
  intros Hm _ H1 H2. destruct (add_sim_ok d chain t false m Hm) as [Hm1 A1]. rewrite H1 in *. destruct (A1 r1 eq_refl) as (-> & _ & B1 & L1 & W1).
  destruct (add_sim_ok d chain t false m1 Hm1) as [_ A2]. rewrite H2 in *. destruct (A2 r2 eq_refl) as (-> & _ & B2 & _ & W2). cbn [fst] in *.
  rewrite B2, B1, insert_insert_eq. split; [lia|]. split; [done|]. lia.
Qed.

(** ** Samples *)

Lemma simulation_commits_witness : exists s0 s1 s2 rst db',
  NewBasedTxSimulator (E := rw_error) sample_dag zeroHash = Ok s0 /\
  sim_run first_of sample_cid "cc" sample_calls s0 = (s1, Ok [Some [x61]; Some [x61]; None; Some [x00]]) /\
  RwTxResult2DagInvokeUnit "cc" sample_cid [[]; []; []] s1 = (s2, Ok rst) /\
  ascending (map ws_Key (ir_WriteSet rst)) /\
  State.SaveContractStates sample_cid (ir_WriteSet rst) State.sample_version sample_store = Ok db' /\
  forall k, stored db' sample_cid k = (abs_run sample_calls (stored sample_store sample_cid)).1 k.
Proof.
  apply (simulation_commits first_of sample_cid "cc" sample_dag zeroHash [[]; []; []] State.sample_version sample_calls);
    [by eexists|vm_compute; discriminate|apply State.sample_version_ok].
Defined.
Lemma cache_crosses_contracts_witness :
  (GetState first_of (replicate 20 x03) "other" "k" (SetState sample_cid "cc" "k" (Some [x07]) sample_sim).1).2 = Ok (Some [x07]).
Proof. apply (cache_crosses_contracts first_of sample_cid "cc" (replicate 20 x03) "other" "k" (Some [x07]) sample_sim). reflexivity. Defined.
Lemma done_simulator_witness : (PayOutToken (fun _ => Panic) "cc" "P1" None 5 0 (Done sample_sim)).2 = Panic.
Proof.
  apply (done_simulator first_of (fun _ => Panic) sample_sim sample_cid "cc" "k" None None 5 0 0 [] [] [] "P1" eq_refl).
Defined.
Definition sample_mgr : RwSetTxMgr := (NewTxSimulator sample_dag "palletone" "01" true (NewRwSetMgr "default")).1.
Lemma manager_invariant_witness : (CloseTxSimulator "palletone" "01" sample_mgr).2 = Ok tt.
Proof.
  apply (manager_invariant sample_mgr "palletone" "01"). apply (mgr_next (NewRwSetMgr "default")); [constructor|apply step_new].
Defined.
Lemma shared_simulator_closed_witness : exists s, sims (CloseTxSimulator "palletone" "01" sample_mgr).1 !! 0%nat = Some s /\
  forall fe c n k v, (GetState fe c n k s).2 = Err AfterDone /\ (SetState c n k v s).2 = Err AfterDone.
Proof.
  apply (shared_simulator_closed sample_dag sample_dag "palletone" "01" "02" "01" (NewRwSetMgr "default") sample_mgr sample_mgr 0 0);
    [constructor|reflexivity|reflexivity].
Defined.
