(* ===== verification/Ledger.v ===== *)
(** * The ledger of unspent outputs

    src/dag/storage/utxodb.go (the tables of unspent and spent outputs and the
    index of the outputs of each address), the account balances of
    src/dag/storage/statedb_account.go, and src/dag/common/utxo_repository.go, which
    applies a payment to them.  The tables have distinct two-byte prefixes and the
    key of an outpoint determines it ([outpoint_key_roundtrip] in LedgerProps.v), so
    each table is a map keyed by what its key encodes; a value is read back as it
    was stored.  Balances and the address index are kept under the 20 bytes of an
    address, without its type.  Writes to the database do not fail. *)

From S2P Require Import Prelude Errors Opcode Text Script Builder Address Standard Tx AssetId Float64 SigHash SigCache Engine TokenApi TxFee Unit ValPayment Pledge StateDb Rwset.
From Stdlib Require Import ZArith Lia Bool.
Local Open Scope Z_scope.

(** ** Keys (modules/utxo.go, common/bytes.go) *)

(** [binary.BigEndian.PutUint32] *)
Definition EncodeNumberUint32 (number : Z) : bytes := map (fun i => z2b (Z.shiftr number (24 - 8 * Z.of_nat i))) (seq 0 4).
Definition DecodeNumberUint32 {E} (key : bytes) : result E Z :=
  if len key <? 4 then Panic else Ok (le_uint (rev (slice key 0 4))).
Definition UTXO_PREFIX : bytes := [x75; x6f].   (* "uo" *)
Definition OutPoint_Bytes (outpoint : OutPoint) : bytes :=
  TxHash outpoint ++ EncodeNumberUint32 (MessageIndex outpoint) ++ EncodeNumberUint32 (OutIndex outpoint).
Definition ToKey (outpoint : OutPoint) : bytes := UTXO_PREFIX ++ OutPoint_Bytes outpoint.
(** The slices of a key shorter than 42 bytes are out of range. *)
Definition KeyToOutpoint {E} (key : bytes) : result E OutPoint :=
  let preLen := len UTXO_PREFIX in
  if len key <? preLen + 32 + 8 then Panic else
  let sTxHash := slice key preLen (len key - 8) in
  let sMessage := slice key (preLen + 32) (len key - 4) in
  let sIndex := slice key (preLen + 32 + 4) (len key) in
  let? m := DecodeNumberUint32 sMessage in
  let? i := DecodeNumberUint32 sIndex in
  Ok (mkOutPoint (Rw.BytesToHash sTxHash) m i).

(** ** Tables *)

Record Stxo := mkStxo {
  st_Amount : Z; st_Asset : option Asset; st_PkScript : bytes; st_LockTime : Z; st_Timestamp : Z; SpentByTxId : Hash; SpentTime : Z }.
Definition NewStxo (utxo : Utxo) (spentTxId : Hash) (spentTime : Z) : Stxo :=
  mkStxo (u_Amount utxo) (u_Asset utxo) (u_PkScript utxo) (u_LockTime utxo) (u_Timestamp utxo) spentTxId spentTime.

Record UtxoDb := mkUtxoDb {
  utxos : gmap OutPoint Utxo;
  stxos : gmap OutPoint Stxo;
  addr_outpoints : gset (bytes * OutPoint);     (* ADDR_OUTPOINT_PREFIX + address bytes + outpoint *)
  outpoint_addr : gmap OutPoint string;         (* OUTPOINT_ADDR_PREFIX + outpoint *)
  ptn_balance : gmap bytes Z }.                 (* ACCOUNT_PTN_BALANCE_PREFIX + address bytes *)
Definition empty_db : UtxoDb := mkUtxoDb ∅ ∅ ∅ ∅ ∅.
Definition set_utxos (m : gmap OutPoint Utxo) (db : UtxoDb) : UtxoDb := mkUtxoDb m (stxos db) (addr_outpoints db) (outpoint_addr db) (ptn_balance db).
Definition set_index (s : gset (bytes * OutPoint)) (db : UtxoDb) : UtxoDb := mkUtxoDb (utxos db) (stxos db) s (outpoint_addr db) (ptn_balance db).

Inductive utxo_error := ErrNullPoint | ErrUtxoNotFound | ErrNotFound.
Definition L (A : Type) : Type := ST UtxoDb utxo_error A.

Section Ledger.
Context `{Node}.

(** [addr, _ := GetAddressFromScript(script)] *)
Definition lock_address (script : bytes) : L Address :=
  lift (match GetAddressFromScript script with Ok a => Ok a | Err _ => Ok zeroAddress | Panic => Panic end).

Definition saveUtxoOutpoint (address : Address) (outpoint : OutPoint) (db : UtxoDb) : UtxoDb :=
  mkUtxoDb (utxos db) (stxos db) ({[(Address_Bytes address, outpoint)]} ∪ addr_outpoints db)
           (<[outpoint := Str check_encode address]> (outpoint_addr db)) (ptn_balance db).
(** The batch version leaves the reverse index alone. *)
Definition batchSaveUtxoOutpoint (address : Address) (outpoint : OutPoint) (db : UtxoDb) : UtxoDb :=
  set_index ({[(Address_Bytes address, outpoint)]} ∪ addr_outpoints db) db.
Definition deleteUtxoOutpoint (address : Address) (outpoint : OutPoint) (db : UtxoDb) : UtxoDb :=
  set_index (addr_outpoints db ∖ {[(Address_Bytes address, outpoint)]}) db.
Definition GetAddrOutpoints (address : Address) (db : UtxoDb) : list OutPoint :=
  omap (fun p : bytes * OutPoint => if bytes_equal p.1 (Address_Bytes address) then Some p.2 else None) (elements (addr_outpoints db)).

Definition SaveUtxoEntity (outpoint : OutPoint) (utxo : Utxo) : L unit :=
  let! address := lock_address (u_PkScript utxo) in
  modify (fun db => set_utxos (<[outpoint := utxo]> (utxos db)) db) ;;;
  modify (saveUtxoOutpoint address outpoint).
(** The view is a map of pointers; a nil entry is skipped.  The batch is written at the end. *)
Fixpoint save_view (view : list (OutPoint * option Utxo)) : L unit :=
  match view with
  | [] => ret tt
  | (outpoint, None) :: view => save_view view
  | (outpoint, Some utxo) :: view =>
      let! address := lock_address (u_PkScript utxo) in
      modify (fun db => set_utxos (<[outpoint := utxo]> (utxos db)) db) ;;;
      modify (batchSaveUtxoOutpoint address outpoint) ;;;
      save_view view
  end.
Definition SaveUtxoView (view : gmap OutPoint (option Utxo)) : L unit :=
  fun db => match save_view (map_to_list view) db with (_, Panic) => (db, Panic) | r => r end.

Definition db_GetUtxoEntry (outpoint : option OutPoint) : L Utxo :=
  match outpoint with
  | None => throw ErrNullPoint
  | Some o => let! m := gets utxos in match m !! o with Some utxo => ret utxo | None => throw ErrUtxoNotFound end
  end.
Definition SaveStxoEntry (outpoint : OutPoint) (stxo : Stxo) (db : UtxoDb) : UtxoDb :=
  mkUtxoDb (utxos db) (<[outpoint := stxo]> (stxos db)) (addr_outpoints db) (outpoint_addr db) (ptn_balance db).
Definition SaveUtxoSpent (outpoint : OutPoint) (utxo : Utxo) (spentTxId : Hash) (spentTime : Z) : UtxoDb -> UtxoDb :=
  SaveStxoEntry outpoint (NewStxo utxo spentTxId spentTime).
Definition IsUtxoSpent (outpoint : OutPoint) (db : UtxoDb) : bool := match stxos db !! outpoint with Some _ => true | None => false end.
Definition db_GetStxoEntry (outpoint : OutPoint) : L Stxo :=
  let! m := gets stxos in match m !! outpoint with Some stxo => ret stxo | None => throw ErrNotFound end.
Definition DeleteUtxo (outpoint : OutPoint) (spentTxId : Hash) (spentTime : Z) : L unit :=
  let! utxo := db_GetUtxoEntry (Some outpoint) in
  modify (fun db => set_utxos (delete outpoint (utxos db)) db) ;;;
  modify (SaveUtxoSpent outpoint utxo spentTxId spentTime) ;;;
  let! address := lock_address (u_PkScript utxo) in
  modify (deleteUtxoOutpoint address outpoint).

(** An entry of the index without an output is skipped; so is one of another asset. *)
Definition asset_fits (asset other : option Asset) : result utxo_error bool :=
  match asset with
  | None => Ok true
  | Some a => let? b := rget other in Ok (IsSimilar a b)
  end.
Fixpoint utxos_at (asset : option Asset) (outpoints : list OutPoint) (db : UtxoDb) : result utxo_error (gmap OutPoint Utxo) :=
  match outpoints with
  | [] => Ok ∅
  | out :: outpoints =>
      let? rest := utxos_at asset outpoints db in
      match utxos db !! out with
      | Some utxo => let? ok := asset_fits asset (u_Asset utxo) in Ok (if ok : bool then <[out := utxo]> rest else rest)
      | None => Ok rest
      end
  end.
Definition GetAddrUtxos (addr : Address) (asset : option Asset) (db : UtxoDb) : result utxo_error (gmap OutPoint Utxo) :=
  utxos_at asset (GetAddrOutpoints addr db) db.
Definition GetAllUtxos (db : UtxoDb) : gmap OutPoint Utxo := utxos db.
(** The reverse index, the spent outputs and the balances stay. *)
Definition ClearUtxo (db : UtxoDb) : UtxoDb := mkUtxoDb ∅ (stxos db) ∅ (outpoint_addr db) (ptn_balance db).
Definition ClearAddrUtxo (addr : Address) (db : UtxoDb) : UtxoDb :=
  set_utxos (foldr (fun o m => delete o m) (utxos db) (GetAddrOutpoints addr db)) db.

(** ** Balances (statedb_account.go) *)

Definition GetAccountBalance (address : Address) (db : UtxoDb) : Z := default 0 (ptn_balance db !! Address_Bytes address).
Definition UpdateAccountBalance (address : Address) (addAmount : Z) (db : UtxoDb) : UtxoDb :=
  let balance := GetAccountBalance address db in
  let balance := uint64 (int64 (int64 balance + addAmount)) in
  mkUtxoDb (utxos db) (stxos db) (addr_outpoints db) (outpoint_addr db) (<[Address_Bytes address := balance]> (ptn_balance db)).

(** ** utxo_repository.go *)

Definition GetUxto (txin : Input) (db : UtxoDb) : option Utxo :=
  match PreviousOutPoint txin with Some o => utxos db !! o | None => None end.

(** An output without an address (or with the zero address) makes no entry. *)
Fixpoint writeUtxo (unitTime : Z) (txHash : Hash) (msgIndex outIndex : Z) (txouts : list Output) (lockTime : Z) : L unit :=
  match txouts with
  | [] => ret tt
  | txout :: txouts =>
      let! sAddr := lock_address (PkScript txout) in
      (if bool_decide (sAddr = DestroyAddress) then ret tt else
       let utxo := mkUtxo (Value txout) (out_Asset txout) (PkScript txout) lockTime (uint64 unitTime) 0 in
       SaveUtxoEntity (mkOutPoint txHash msgIndex (uint32 outIndex)) utxo ;;;
       let! asset := get (out_Asset txout) in
       if bytes_equal (AssetId asset) gasToken then modify (UpdateAccountBalance sAddr (int64 (Value txout))) else ret tt) ;;;
      writeUtxo unitTime txHash msgIndex (outIndex + 1) txouts lockTime
  end.

(** The hash of a reference to the transaction itself is filled in. *)
Definition resolve_self (txid : Hash) (o : OutPoint) : OutPoint :=
  if IsSelfHash (TxHash o) then mkOutPoint txid (MessageIndex o) (OutIndex o) else o.
Fixpoint destroyUtxo (txid : Hash) (unitTime : Z) (txins : list Input) : L unit :=
  match txins with
  | [] => ret tt
  | txin :: txins =>
      match PreviousOutPoint txin with
      | None => ret tt
      | Some o =>
          let outpoint := resolve_self txid o in
          let! utxo := db_GetUtxoEntry (Some outpoint) in
          DeleteUtxo outpoint txid unitTime ;;;
          let! sAddr := lock_address (u_PkScript utxo) in
          let! asset := get (u_Asset utxo) in
          if bytes_equal (AssetId asset) gasToken
          then modify (UpdateAccountBalance sAddr (int64 (- int64 (u_Amount utxo)))) else ret tt
      end ;;;
      destroyUtxo txid unitTime txins
  end.
Definition UpdateUtxo (unitTime : Z) (txHash : Hash) (payment : PaymentPayload) (msgIndex : Z) : L unit :=
  destroyUtxo txHash (uint64 unitTime) (Inputs payment) ;;;
  writeUtxo unitTime txHash msgIndex 0 (Outputs payment) (LockTime payment).

(** What the validator is given of the ledger. *)
Definition ledger_query (db : UtxoDb) : IUtxoQuery :=
  mkUtxoQuery (fun o => match utxos db !! o with Some u => Ok u | None => Err "utxo not found" end)
              (fun o => SpentByTxId <$> stxos db !! o).

End Ledger.
