(* ===== verification/LedgerProps.v ===== *)
(** * What a payment does to the ledger

    Applying a payment moves money and makes none: the effect of UpdateUtxo as a
    list of outputs spent and created, the invariant that ties the address index,
    the spent outputs and the balances to the table of unspent outputs, and the
    composition with the validator: a payment it accepts pays out of the ledger at
    most what it takes.  Where this loses money: outputs whose script has no single
    address make no entry. *)

From S2P Require Import Prelude Errors Opcode Text Script Builder Address Standard Tx TxProps AssetId Float64 SigHash SigCache Engine TokenApi TxFee Unit ValPayment ValPayProps ValTx StateDb Rwset Ledger RlpModel SigCheck Steps Spend Redeem Sign SignProps ApiProps ValSigned.
From Stdlib Require Import ZArith Lia Bool.
Local Open Scope Z_scope.

#[local] Arguments lock_address : simpl never.

(** ** Sums over the outputs *)

Definition supply (f : Utxo -> Z) (m : gmap OutPoint Utxo) : Z := map_fold (fun _ u acc => f u + acc) 0 m.
Lemma supply_insert f o u m : m !! o = None -> supply f (<[o := u]> m) = f u + supply f m.
Proof. intros H. unfold supply. rewrite map_fold_insert_L; [done| |done]. intros. lia. Qed.
Lemma supply_delete f o u m : m !! o = Some u -> supply f m = f u + supply f (delete o m).
Proof. intros H. unfold supply. apply (map_fold_delete_L (fun _ u acc => f u + acc)); [|done]. intros. lia. Qed.
Lemma supply_empty f : supply f ∅ = 0.
Proof. apply map_fold_empty. Qed.
Definition total_of (f : Utxo -> Z) (l : list (OutPoint * Utxo)) : Z := foldr (fun ou acc => f ou.2 + acc) 0 l.
Lemma total_of_app f l l' : total_of f (l ++ l') = total_of f l + total_of f l'.
Proof. induction l as [|x l IH]; simpl; lia. Qed.

(** *** Arithmetic of balances *)

Lemma uint64_int64 z : uint64 (int64 z) = uint64 z.
Proof.
  unfold uint64, int64, wrapU, wrapS. rewrite Zminus_mod_idemp_l by lia. f_equal. lia.
Qed.
Lemma uint64_eq z z' : z mod 2 ^ 64 = z' mod 2 ^ 64 -> uint64 z = uint64 z'.
Proof. done. Qed.
Lemma balance_add b x : uint64 (int64 (int64 b + int64 x)) = uint64 (b + x).
Proof.
  rewrite uint64_int64. unfold uint64, wrapU. rewrite Zplus_mod. fold (wrapU 64 (int64 b)) (wrapU 64 (int64 x)). fold (uint64 (int64 b)) (uint64 (int64 x)).
  rewrite !uint64_int64. unfold uint64, wrapU. by rewrite <- Zplus_mod.
Qed.
Lemma balance_sub b x : uint64 (int64 (int64 b + int64 (- int64 x))) = uint64 (b - x).
Proof.
  rewrite balance_add. unfold uint64, wrapU. replace (b + - int64 x) with (b - int64 x) by lia. rewrite Zminus_mod. fold (wrapU 64 (int64 x)). fold (uint64 (int64 x)).
  rewrite uint64_int64. unfold uint64, wrapU. by rewrite <- Zminus_mod.
Qed.

Section Payments.
Context `{Node}.

(** ** The effect of a payment *)

Definition is_gas (u : Utxo) : bool := match u_Asset u with Some a => bytes_equal (AssetId a) gasToken | None => false end.
Definition owner (u : Utxo) : bytes := Address_Bytes (address_of (u_PkScript u)).
Definition spent_db (txid : Hash) (t : Z) (o : OutPoint) (u : Utxo) (db : UtxoDb) : UtxoDb :=
  let db := deleteUtxoOutpoint (address_of (u_PkScript u)) o (SaveUtxoSpent o u txid t (set_utxos (delete o (utxos db)) db)) in
  if is_gas u then UpdateAccountBalance (address_of (u_PkScript u)) (int64 (- int64 (u_Amount u))) db else db.
Definition created_db (o : OutPoint) (u : Utxo) (db : UtxoDb) : UtxoDb :=
  let db := saveUtxoOutpoint (address_of (u_PkScript u)) o (set_utxos (<[o := u]> (utxos db)) db) in
  if is_gas u then UpdateAccountBalance (address_of (u_PkScript u)) (int64 (u_Amount u)) db else db.

Inductive spends (txid : Hash) (t : Z) : UtxoDb -> list (OutPoint * Utxo) -> UtxoDb -> Prop :=
| spends_nil db : spends txid t db [] db
| spends_cons db o u l db' : utxos db !! o = Some u -> is_Some (u_Asset u) -> spends txid t (spent_db txid t o u db) l db' -> spends txid t db ((o, u) :: l) db'.
Inductive creates : UtxoDb -> list (OutPoint * Utxo) -> UtxoDb -> Prop :=
| creates_nil db : creates db [] db
| creates_cons db o u l db' : creates (created_db o u db) l db' -> creates db ((o, u) :: l) db'.

(** The entries a list of outputs makes. *)
Fixpoint new_entries (unitTime : Z) (txHash : Hash) (msgIndex outIndex : Z) (txouts : list Output) (lockTime : Z) : list (OutPoint * Utxo) :=
  match txouts with
  | [] => []
  | txout :: txouts =>
      let rest := new_entries unitTime txHash msgIndex (outIndex + 1) txouts lockTime in
      if bool_decide (address_of (PkScript txout) = DestroyAddress) then rest
      else (mkOutPoint txHash msgIndex (uint32 outIndex), mkUtxo (Value txout) (out_Asset txout) (PkScript txout) lockTime (uint64 unitTime) 0) :: rest
  end.

Lemma lock_address_inv script db : lock_address script db = (db, Panic) \/ lock_address script db = (db, Ok (address_of script)).
Proof. unfold lock_address, lift, address_of. destruct (GetAddressFromScript script); auto. Qed.

(** Consider the outcomes of the first lock_address of a run that does not panic. *)
Ltac lock_address_case E :=
  match type of E with
  | context [lock_address ?s ?d] =>
      let P := fresh "P" in destruct (lock_address_inv s d) as [P|P]; rewrite P in E; [by injection E as <- <-|]
  end.

Lemma destroy_effect txid t ins : forall db db' r, destroyUtxo txid t ins db = (db', r) -> r <> Panic ->
  exists l, spends txid t db l db' /\ (r = Ok tt -> map fst l = map (resolve_self txid) (omap PreviousOutPoint ins)).
Proof.
  induction ins as [|txin ins IH]; intros db db' r E Hr; cbn [destroyUtxo] in E; [injection E as <- <-; exists []; split; [constructor|done]|].
  cbn [omap list_omap]. destruct (PreviousOutPoint txin) as [o|]; [|apply IH in E; [done|done]].
  cbn [map]. set (o' := resolve_self txid o) in *. unfold db_GetUtxoEntry, DeleteUtxo, bind, gets, modify in E. cbn in E.
  destruct (utxos db !! o') as [u|] eqn:Hu; [|injection E as <- <-; exists []; split; [constructor|done]].
  cbn in E. rewrite Hu in E. cbn in E.
  do 2 (lock_address_case E).
  unfold get in E. destruct (u_Asset u) as [a|] eqn:Ha; [|injection E as <- <-; done].
  assert (E' : destroyUtxo txid t ins (spent_db txid t o' u db) = (db', r)).
  { unfold spent_db, is_gas. rewrite Ha. cbn in E |- *. destruct (bytes_equal (AssetId a) gasToken); exact E. }
  apply IH in E' as (l & Hl & Hok); [|done]. exists ((o', u) :: l). split; [constructor; by rewrite ?Ha|]. intros Ht. cbn. by rewrite Hok.
Qed.

Lemma write_effect t txHash mi lt outs : forall k db db' r, writeUtxo t txHash mi k outs lt db = (db', r) -> r <> Panic ->
  r = Ok tt /\ creates db (new_entries t txHash mi k outs lt) db'.
Proof.
  induction outs as [|out outs IH]; intros k db db' r E Hr; cbn [writeUtxo new_entries] in *; [injection E as <- <-; split; [done|constructor]|].
  unfold bind at 1 in E. lock_address_case E.
  case_bool_decide as B; [by apply IH in E|].
  unfold SaveUtxoEntity, bind, modify in E. cbn [u_PkScript] in E. rewrite P in E.
  unfold get in E. destruct (out_Asset out) as [a|] eqn:Ha; [|injection E as <- <-; done].
  set (o := mkOutPoint txHash mi (uint32 k)) in *. set (u := mkUtxo (Value out) (Some a) (PkScript out) lt (uint64 t) 0) in *.
  assert (E' : writeUtxo t txHash mi (k + 1) outs lt (created_db o u db) = (db', r)).
  { unfold created_db, is_gas. cbn [u_Asset u_PkScript u_Amount u]. cbn in E. destruct (bytes_equal (AssetId a) gasToken); exact E. }
  apply IH in E' as [-> Hc]; [|done]. split; [done|]. by constructor.
Qed.

Lemma spent_utxos txid t o u db : utxos (spent_db txid t o u db) = delete o (utxos db).
Proof. unfold spent_db. by destruct (is_gas u). Qed.
Lemma created_utxos o u db : utxos (created_db o u db) = <[o := u]> (utxos db).
Proof. unfold created_db. by destruct (is_gas u). Qed.

Lemma spends_supply txid t f db l db' : spends txid t db l db' -> supply f (utxos db) = total_of f l + supply f (utxos db').
Proof.
  induction 1 as [db|db o u l db' Hu _ _ IH]; [done|]. rewrite (supply_delete f o u) by done. rewrite spent_utxos in IH. rewrite IH. simpl. lia.
Qed.
Lemma creates_supply f db l db' : creates db l db' -> NoDup (map fst l) -> (forall o, o ∈ map fst l -> utxos db !! o = None) ->
  supply f (utxos db') = total_of f l + supply f (utxos db).
Proof.
  induction 1 as [db|db o u l db' _ IH]; intros Hn Hf; [done|]. cbn [map fst] in *. apply NoDup_cons in Hn as [Ho Hn].
  rewrite IH; [|done|].
  - rewrite created_utxos, supply_insert by (apply Hf; left). simpl. lia.
  - intros o' Ho'. rewrite created_utxos, lookup_insert_ne by (intros ->; done). apply Hf. by right.
Qed.

(** ** The invariant *)

Definition gas_at (a : bytes) (u : Utxo) : Z := if is_gas u && bytes_equal (owner u) a then u_Amount u else 0.
Lemma gas_at_eq a u : gas_at a u = if is_gas u && bytes_equal (owner u) a then u_Amount u else 0.
Proof. done. Qed.
Record ledger_ok (db : UtxoDb) : Prop := {
  ok_index : forall a o, (a, o) ∈ addr_outpoints db <-> exists u, utxos db !! o = Some u /\ owner u = a;
  ok_spent : forall o, is_Some (utxos db !! o) -> stxos db !! o = None;
  ok_balance : forall a, default 0 (ptn_balance db !! a) = supply (gas_at a) (utxos db) mod 2 ^ 64 }.

Lemma empty_ok : ledger_ok empty_db.
Proof. split; [intros a o|intros o|intros a]; cbn; [by split; [intros ?%elem_of_empty|intros (? & ? & _)]| |by rewrite supply_empty]. by intros []. Qed.

Lemma balance_update addr x db a : default 0 (ptn_balance (UpdateAccountBalance addr x db) !! a) =
  if bytes_equal (Address_Bytes addr) a then uint64 (int64 (int64 (default 0 (ptn_balance db !! a)) + x)) else default 0 (ptn_balance db !! a).
Proof.
  unfold UpdateAccountBalance, GetAccountBalance, bytes_equal. cbn. case_bool_decide as B; [subst; by rewrite lookup_insert_eq|by rewrite lookup_insert_ne].
Qed.
Lemma spent_balance txid t o u db a : default 0 (ptn_balance (spent_db txid t o u db) !! a) =
  if is_gas u && bytes_equal (owner u) a then uint64 (default 0 (ptn_balance db !! a) - u_Amount u) else default 0 (ptn_balance db !! a).
Proof. unfold spent_db, owner. destruct (is_gas u); [|done]. rewrite balance_update. cbn. by rewrite balance_sub. Qed.
Lemma created_balance o u db a : default 0 (ptn_balance (created_db o u db) !! a) =
  if is_gas u && bytes_equal (owner u) a then uint64 (default 0 (ptn_balance db !! a) + u_Amount u) else default 0 (ptn_balance db !! a).
Proof. unfold created_db, owner. destruct (is_gas u); [|done]. rewrite balance_update. cbn. by rewrite balance_add. Qed.

Lemma spent_ok txid t o u db : utxos db !! o = Some u -> ledger_ok db -> ledger_ok (spent_db txid t o u db).
Proof.
  intros Hu [Hi Hs Hb]. split.
  - intros a o'. assert (addr_outpoints (spent_db txid t o u db) = addr_outpoints db ∖ {[(owner u, o)]}) as -> by (unfold spent_db; by destruct (is_gas u)).
    rewrite spent_utxos, elem_of_difference, Hi, not_elem_of_singleton. destruct (decide (o = o')) as [<-|Hne].
    + split; [|intros (u' & H' & _); by rewrite lookup_delete_eq in H']. intros [(u' & Hu' & <-) Hp]. rewrite Hu in Hu'. by injection Hu' as <-.
    + rewrite lookup_delete_ne by done. split; [intros [Hex _]; done|]. intros Hex. split; [done|]. by intros [= _ ->].
  - intros o'. assert (stxos (spent_db txid t o u db) = <[o := NewStxo u txid t]> (stxos db)) as -> by (unfold spent_db; by destruct (is_gas u)).
    rewrite spent_utxos. destruct (decide (o = o')) as [<-|Hne]; [rewrite lookup_delete_eq; by intros []|].
    rewrite lookup_delete_ne, lookup_insert_ne by done. apply Hs.
  - intros a. rewrite spent_balance, Hb, spent_utxos, (supply_delete (gas_at a) o u (utxos db) Hu), gas_at_eq.
    destruct (is_gas u && bytes_equal (owner u) a); [|done]. unfold uint64, wrapU. rewrite Zminus_mod_idemp_l by lia. f_equal. lia.
Qed.
Lemma created_ok o u db : utxos db !! o = None -> stxos db !! o = None -> ledger_ok db -> ledger_ok (created_db o u db).
Proof.
  intros Hu Hx [Hi Hs Hb]. split.
  - intros a o'. assert (addr_outpoints (created_db o u db) = {[(owner u, o)]} ∪ addr_outpoints db) as -> by (unfold created_db; by destruct (is_gas u)).
    rewrite created_utxos, elem_of_union, elem_of_singleton, Hi. destruct (decide (o = o')) as [<-|Hne].
    + rewrite lookup_insert_eq. split; [|intros (u' & [= <-] & <-); by left]. intros [[= ->]|(u' & Hu' & _)]; [by exists u|congruence].
    + rewrite lookup_insert_ne by done. split; [intros [[= _ ->]|?]; done|auto].
  - intros o'. assert (stxos (created_db o u db) = stxos db) as -> by (unfold created_db; by destruct (is_gas u)).
    rewrite created_utxos. destruct (decide (o = o')) as [<-|Hne]; [done|]. rewrite lookup_insert_ne by done. apply Hs.
  - intros a. rewrite created_balance, Hb, created_utxos, supply_insert, gas_at_eq by done.
    destruct (is_gas u && bytes_equal (owner u) a); [|done]. unfold uint64, wrapU. rewrite Zplus_mod_idemp_l. f_equal. lia.
Qed.

Lemma spends_ok txid t db l db' : spends txid t db l db' -> ledger_ok db -> ledger_ok db'.
Proof. induction 1 as [db|db o u l db' Hu _ _ IH]; [done|]. intros Hok. by apply IH, spent_ok. Qed.
(** Outputs can be created where nothing is or was. *)
Definition unused (o : OutPoint) (db : UtxoDb) : Prop := utxos db !! o = None /\ stxos db !! o = None.
Lemma spends_unused txid t db l db' o : spends txid t db l db' -> unused o db -> unused o db'.
Proof.
  induction 1 as [db|db o' u l db' Hu _ _ IH]; [done|]. intros [H1 H2]. apply IH. assert (o' <> o) by (intros ->; congruence). split.
  - by rewrite spent_utxos, lookup_delete_ne.
  - assert (stxos (spent_db txid t o' u db) = <[o' := NewStxo u txid t]> (stxos db)) as -> by (unfold spent_db; by destruct (is_gas u)). by rewrite lookup_insert_ne.
Qed.
Lemma creates_ok db l db' : creates db l db' -> NoDup (map fst l) -> (forall o, o ∈ map fst l -> unused o db) -> ledger_ok db -> ledger_ok db'.
Proof.
  induction 1 as [db|db o u l db' _ IH]; [done|]. cbn [map fst]. intros [Ho Hn]%NoDup_cons Hf Hok. destruct (Hf o) as [F1 F2]; [left|].
  apply IH; [done| |by apply created_ok]. intros o' Ho'. destruct (Hf o') as [G1 G2]; [by right|]. split.
  - rewrite created_utxos, lookup_insert_ne; [done|]. by intros ->.
  - assert (stxos (created_db o u db) = stxos db) as -> by (unfold created_db; by destruct (is_gas u)). done.
Qed.

(** *** Fresh entries *)

Lemma new_entries_in t h i lt outs : forall k o, o ∈ map fst (new_entries t h i k outs lt) ->
  exists j, o = mkOutPoint h i (uint32 j) /\ k <= j < k + len outs.
Proof.
  induction outs as [|out outs IH]; intros k o Ho; [by apply not_elem_of_nil in Ho|]. rewrite len_cons. pose proof (len_nonneg outs). cbn [new_entries] in Ho.
  assert (IH' : o ∈ map fst (new_entries t h i (k + 1) outs lt) -> exists j, o = mkOutPoint h i (uint32 j) /\ k <= j < k + (len outs + 1)).
  { intros Hin. apply IH in Hin as (j & -> & Hj). exists j. split; [done|]. lia. }
  case_bool_decide; [exact (IH' Ho)|]. cbn [map fst] in Ho. apply elem_of_cons in Ho as [->|Ho]; [|exact (IH' Ho)]. exists k. split; [done|]. lia.
Qed.
Lemma new_entries_nodup t h i lt outs : forall k, 0 <= k -> k + len outs <= 2 ^ 32 -> NoDup (map fst (new_entries t h i k outs lt)).
Proof.
  induction outs as [|out outs IH]; intros k Hk Hl; [constructor|]. rewrite len_cons in Hl. pose proof (len_nonneg outs). cbn [new_entries].
  case_bool_decide; [apply IH; lia|]. cbn [map fst]. apply NoDup_cons. split; [|apply IH; lia].
  intros Hin. apply new_entries_in in Hin as (j & [= Hj] & Hr). unfold uint32, wrapU in Hj. rewrite !Z.mod_small in Hj by lia. lia.
Qed.
Definition fresh (h : Hash) (i : Z) (db : UtxoDb) : Prop := forall k, unused (mkOutPoint h i k) db.

(** A payment applied: what it spent, what it created, and its verdict. *)
Lemma update_effect t h pay i db db' r : UpdateUtxo t h pay i db = (db', r) -> r <> Panic ->
  exists l db1, spends h (uint64 t) db l db1 /\
    (r = Ok tt -> map fst l = map (resolve_self h) (omap PreviousOutPoint (Inputs pay)) /\ creates db1 (new_entries t h i 0 (Outputs pay) (LockTime pay)) db') /\
    (r <> Ok tt -> db' = db1).
Proof.
  unfold UpdateUtxo. intros E Hr. destruct (destroyUtxo h (uint64 t) (Inputs pay) db) as [db1 r1] eqn:Ed. unfold bind in E. rewrite Ed in E.
  assert (Hr1 : r1 <> Panic) by (intros ->; by injection E as <- <-). destruct (destroy_effect _ _ _ _ _ _ Ed Hr1) as (l & Hl & Hok).
  exists l, db1. split; [done|]. destruct r1 as [[]|e|]; [|injection E as <- <-; by split|done].
  apply write_effect in E as [-> Hc]; [|done]. split; [|done]. intros _. split; [by apply Hok|done].
Qed.

Inductive ledger_reachable : UtxoDb -> Prop :=
| ledger_empty : ledger_reachable empty_db
| ledger_payment t h pay i db db' r : ledger_reachable db -> fresh h i db -> len (Outputs pay) <= 2 ^ 32 ->
    UpdateUtxo t h pay i db = (db', r) -> r <> Panic -> ledger_reachable db'.

Lemma update_ok t h pay i db db' r : ledger_ok db -> fresh h i db -> len (Outputs pay) <= 2 ^ 32 ->
  UpdateUtxo t h pay i db = (db', r) -> r <> Panic -> ledger_ok db'.
Proof.
  intros Hok Hf Hl E Hr. destruct (update_effect _ _ _ _ _ _ _ E Hr) as (l & db1 & Hs & Hc & He).
  assert (Hok1 : ledger_ok db1) by by eapply spends_ok. destruct r as [[]|e|]; [|by rewrite He|done].
  destruct (Hc eq_refl) as [_ Hc']. eapply creates_ok; [exact Hc'|by apply new_entries_nodup| |done].
  intros o Ho. apply new_entries_in in Ho as (j & -> & _). eapply spends_unused; [exact Hs|apply Hf].
Qed.
Lemma ledger_reachable_ok db : ledger_reachable db -> ledger_ok db.
Proof. induction 1; [apply empty_ok|by eapply update_ok]. Qed.

Lemma utxos_at_lookup l db : exists m, utxos_at None l db = Ok m /\
  forall o u, m !! o = Some u <-> o ∈ l /\ utxos db !! o = Some u.
Proof.
  induction l as [|o1 l (m & Hm & IH)]; cbn [utxos_at].
  - exists ∅. split; [done|]. intros o u. rewrite lookup_empty. split; [done|]. intros [Hin _]. by apply not_elem_of_nil in Hin.
  - rewrite Hm. cbn [rbind]. destruct (utxos db !! o1) as [u1|] eqn:H1; cbn; eexists; (split; [reflexivity|]); intros o u; rewrite elem_of_cons.
    + destruct (decide (o1 = o)) as [<-|Hne]; [rewrite lookup_insert_eq; naive_solver|rewrite lookup_insert_ne by done; rewrite IH; naive_solver].
    + rewrite IH. naive_solver.
Qed.
Lemma addr_outpoints_spec addr db o : o ∈ GetAddrOutpoints addr db <-> (Address_Bytes addr, o) ∈ addr_outpoints db.
Proof.
  unfold GetAddrOutpoints. rewrite list_elem_of_omap. split.
  - intros ([b o'] & Hin & Heq). unfold bytes_equal in Heq. cbn in Heq. case_bool_decide as B; [|done]. injection Heq as ->. subst b. by apply elem_of_elements.
  - intros Hin. exists (Address_Bytes addr, o). split; [by apply elem_of_elements|]. unfold bytes_equal. cbn. by rewrite bool_decide_eq_true_2.
Qed.

(** ** Theorems *)

(** C9: The invariant of the ledger.  Whatever payments are applied to the empty ledger, accepted or not, as long
    as each creates outputs that neither are nor were there, at most 2^32 of them, and does not panic: no output is both spent and unspent, the balance of an address is the sum of its
    unspent outputs of the gas token (modulo 2^64), and the outputs found through the index of an address are
    exactly its unspent outputs. *)
Theorem ledger_invariant db : ledger_reachable db ->
  (forall o, is_Some (utxos db !! o) -> IsUtxoSpent o db = false) /\
  (forall addr, GetAccountBalance addr db = supply (gas_at (Address_Bytes addr)) (utxos db) mod 2 ^ 64) /\
  (forall addr, exists m, GetAddrUtxos addr None db = Ok m /\
     forall o u, m !! o = Some u <-> utxos db !! o = Some u /\ owner u = Address_Bytes addr).
Proof.
  intros [Hi Hs Hb]%ledger_reachable_ok. split; [|split].
  - intros o Ho. unfold IsUtxoSpent. by rewrite (Hs o Ho).
  - intros addr. apply Hb.
  - intros addr. unfold GetAddrUtxos. destruct (utxos_at_lookup (GetAddrOutpoints addr db) db) as (m & Hm & Hl). exists m. split; [done|].
    intros o u. rewrite Hl, addr_outpoints_spec, Hi. split; [intros [(u' & Hu' & Ho) Hu]; split; congruence|intros [Hu Ho]; eauto].
Qed.

Lemma spends_lookup txid t db l db' o : spends txid t db l db' ->
  utxos db' !! o = if bool_decide (o ∈ map fst l) then None else utxos db !! o.
Proof.
  induction 1 as [db|db o1 u l db' Hu _ _ IH]; [done|]. rewrite IH, spent_utxos. cbn [map fst].
  destruct (decide (o = o1)) as [->|Hne]; [rewrite lookup_delete_eq; rewrite (bool_decide_eq_true_2 (o1 ∈ o1 :: _)) by left; by case_bool_decide|].
  rewrite lookup_delete_ne by done. case_bool_decide as B1; case_bool_decide as B2; rewrite elem_of_cons in B2; try done; naive_solver.
Qed.
Lemma creates_lookup db l db' o : creates db l db' -> NoDup (map fst l) ->
  utxos db' !! o = match (list_to_map l : gmap OutPoint Utxo) !! o with Some u => Some u | None => utxos db !! o end.
Proof.
  induction 1 as [db|db o1 u l db' _ IH]; intros Hn; [done|]. cbn [map fst] in Hn. apply NoDup_cons in Hn as [Ho Hn]. rewrite IH by done. rewrite created_utxos.
  change (list_to_map ((o1, u) :: l)) with (<[o1 := u]> (list_to_map l : gmap OutPoint Utxo)).
  destruct (decide (o1 = o)) as [<-|Hne]; [rewrite (not_elem_of_list_to_map_1 l o1) by done; by rewrite !lookup_insert_eq|by rewrite !lookup_insert_ne].
Qed.
Lemma spends_all txid t db l db' : spends txid t db l db' -> NoDup (map fst l) /\ Forall (fun ou => utxos db !! ou.1 = Some ou.2) l.
Proof.
  induction 1 as [db|db o u l db' Hu _ _ [IH1 IH2]]; [by split; constructor|]. rewrite spent_utxos in IH2. cbn [map fst]. split.
  - apply NoDup_cons. split; [|done]. intros (ou & -> & Hin)%list_elem_of_fmap. rewrite Forall_forall in IH2. apply IH2 in Hin. by rewrite lookup_delete_eq in Hin.
  - constructor; [done|]. eapply Forall_impl; [exact IH2|]. intros [o' u'] Ho'. cbn in *. by apply lookup_delete_Some in Ho' as [_ ?].
Qed.

Lemma update_lookup t h pay i db db' : fresh h i db -> len (Outputs pay) <= 2 ^ 32 -> UpdateUtxo t h pay i db = (db', Ok tt) ->
  let os := map (resolve_self h) (omap PreviousOutPoint (Inputs pay)) in
  NoDup os /\ Forall (fun o => is_Some (utxos db !! o)) os /\
  forall o, utxos db' !! o = match (list_to_map (new_entries t h i 0 (Outputs pay) (LockTime pay)) : gmap OutPoint Utxo) !! o with
                            | Some u => Some u | None => if bool_decide (o ∈ os) then None else utxos db !! o end.
Proof.
  intros Hf Hl E. destruct (update_effect _ _ _ _ _ _ _ E) as (l & db1 & Hs & Hc & _); [done|]. destruct (Hc eq_refl) as [Hos Hcr]. cbn zeta. rewrite <- Hos.
  destruct (spends_all _ _ _ _ _ Hs) as [Hn Hall]. split; [done|]. split.
  - apply Forall_fmap. eapply Forall_impl; [exact Hall|]. intros [o u] Ho. cbn in *. eauto.
  - intros o. rewrite (creates_lookup _ _ _ o Hcr) by by apply new_entries_nodup. by rewrite (spends_lookup _ _ _ _ _ o Hs).
Qed.


(** The effect of a payment that is applied: it spent outputs that were there, each once; what it leaves is
    the ledger without them and with the outputs it makes, those without an address excepted. *)
Theorem payment_applied t h pay i db db' : fresh h i db -> len (Outputs pay) <= 2 ^ 32 ->
  UpdateUtxo t h pay i db = (db', Ok tt) ->
  let os := map (resolve_self h) (omap PreviousOutPoint (Inputs pay)) in
  let new : gmap OutPoint Utxo := list_to_map (new_entries t h i 0 (Outputs pay) (LockTime pay)) in
  NoDup os /\ Forall (fun o => is_Some (utxos db !! o)) os /\
  forall o, utxos db' !! o = match new !! o with Some u => Some u | None => if bool_decide (o ∈ os) then None else utxos db !! o end.
Proof. apply update_lookup. Qed.

(** Applying a payment moves every asset: what is unspent afterwards and what it spent amount to what was
    unspent before and what it made. *)
Lemma update_supply t h pay i db db' : fresh h i db -> len (Outputs pay) <= 2 ^ 32 -> UpdateUtxo t h pay i db = (db', Ok tt) ->
  exists l db1, spends h (uint64 t) db l db1 /\ map fst l = map (resolve_self h) (omap PreviousOutPoint (Inputs pay)) /\
    forall f, supply f (utxos db') + total_of f l = supply f (utxos db) + total_of f (new_entries t h i 0 (Outputs pay) (LockTime pay)).
Proof.
  intros Hf Hl E. destruct (update_effect _ _ _ _ _ _ _ E) as (l & db1 & Hs & Hc & _); [done|]. destruct (Hc eq_refl) as [Hos Hcr].
  exists l, db1. split; [done|]. split; [done|]. intros f. rewrite (spends_supply _ _ f _ _ _ Hs), (creates_supply f _ _ _ Hcr); [lia|by apply new_entries_nodup|].
  intros o Ho. apply new_entries_in in Ho as (j & -> & _). eapply spends_unused; [exact Hs|apply Hf].
Qed.

(** *** Composition with the validator *)

Definition value_of (a : Asset) (u : Utxo) : Z := if decide (u_Asset u = Some a) then u_Amount u else 0.
Definition asset_values (a : Asset) (outs : list Output) : Z := foldr (fun o acc => (if decide (out_Asset o = Some a) then Value o else 0) + acc) 0 outs.
Lemma asset_values_cons a o outs : asset_values a (o :: outs) = (if decide (out_Asset o = Some a) then Value o else 0) + asset_values a outs.
Proof. done. Qed.
Lemma asset_values_nonneg a outs : Forall (fun o => 0 < Value o) outs -> 0 <= asset_values a outs.
Proof. induction 1 as [|o outs Ho _ IH]; [done|]. rewrite asset_values_cons. destruct (decide _); lia. Qed.
Lemma new_entries_value a t h i lt outs : Forall (fun o => 0 < Value o) outs -> forall k, total_of (value_of a) (new_entries t h i k outs lt) <= asset_values a outs.
Proof.
  induction 1 as [|o outs Ho _ IH]; intros k; cbn [new_entries asset_values foldr]; [done|]. fold (asset_values a outs). specialize (IH (k + 1)).
  case_bool_decide; cbn [total_of foldr snd]; [destruct (decide _); lia|]. fold (total_of (value_of a) (new_entries t h i (k + 1) outs lt)).
  unfold value_of at 1. cbn [u_Asset u_Amount]. destruct (decide _); lia.
Qed.
Lemma asset_values_all a outs : Forall (fun o => out_Asset o = Some a) outs -> asset_values a outs = sum_values outs.
Proof. induction 1 as [|o outs Ho _ IH]; [done|]. by rewrite asset_values_cons, decide_True, IH. Qed.
Lemma new_entries_other a b t h i lt outs : b <> a -> Forall (fun o => out_Asset o = Some a) outs ->
  forall k, total_of (value_of b) (new_entries t h i k outs lt) = 0.
Proof.
  intros Hne. induction 1 as [|o outs Ho _ IH]; intros k; cbn [new_entries]; [done|]. specialize (IH (k + 1)).
  case_bool_decide; [done|]. cbn [total_of foldr snd]. fold (total_of (value_of b) (new_entries t h i (k + 1) outs lt)). rewrite IH.
  unfold value_of. cbn [u_Asset]. rewrite decide_False by congruence. done.
Qed.

(** The entries under the hash of a transaction are outputs of its messages. *)
Definition own_outputs (tx : Transaction) (h : Hash) (db : UtxoDb) : Prop :=
  forall m k u, utxos db !! mkOutPoint h m k = Some u -> exists msg pay out, index (Messages tx) m = Some msg /\ Payload msg = Some (PayPayment pay) /\
    index (Outputs pay) k = Some out /\ u_Amount u = Value out /\ u_Asset u = out_Asset out.

Lemma resolves_spent tx h db o u u' : own_outputs tx h db -> resolves (Some (ledger_query db)) tx o u -> utxos db !! resolve_self h o = Some u' ->
  u_Amount u' = u_Amount u /\ u_Asset u' = u_Asset u.
Proof.
  intros Ho Hr Hu. unfold resolves, resolve_self in *. destruct (IsSelfHash (TxHash o)).
  - destruct Hr as (msg & pay & out & H1 & H2 & H3 & ->). destruct (Ho _ _ _ Hu) as (msg' & pay' & out' & G1 & G2 & G3 & G4 & G5). cbn. naive_solver congruence.
  - destruct Hr as (q' & [= <-] & Hg). cbn in Hg. rewrite Hu in Hg. injection Hg as ->. done.
Qed.
Lemma spent_totals tx h db t os us l db1 : own_outputs tx h db -> Forall2 (resolves (Some (ledger_query db)) tx) os us -> spends h t db l db1 ->
  map fst l = map (resolve_self h) os -> Forall (fun ou => is_Some (u_Asset ou.2)) l ->
  Forall2 (fun u ou => u_Amount ou.2 = u_Amount u /\ u_Asset ou.2 = u_Asset u /\ is_Some (u_Asset u)) us l.
Proof.
  intros Hown Hr Hs Hm Ha. apply spends_all in Hs as [_ Hall]. revert l Hm Ha Hall. induction Hr as [|o u os us Hou Hr IH]; intros l Hm Ha Hall.
  - apply fmap_nil_inv in Hm as ->. constructor.
  - destruct l as [|[o' u'] l]; [done|]. cbn [map fst] in Hm. injection Hm as -> Hm. apply Forall_cons in Ha as [Ha1 Ha]. apply Forall_cons in Hall as [Hu Hall]. cbn in Ha1, Hu.
    constructor; [|by apply IH]. destruct (resolves_spent tx h db o u u' Hown Hou Hu) as [H1 H2]. cbn. by rewrite <- H2.
Qed.
Lemma spends_assets txid t db l db' : spends txid t db l db' -> Forall (fun ou => is_Some (u_Asset ou.2)) l.
Proof. induction 1; by constructor. Qed.
Lemma total_value a us l : Forall (fun u => u_Asset u = None \/ u_Asset u = Some a) us ->
  Forall2 (fun u (ou : OutPoint * Utxo) => u_Amount ou.2 = u_Amount u /\ u_Asset ou.2 = u_Asset u /\ is_Some (u_Asset u)) us l ->
  total_of (value_of a) l = sum_amounts us /\ forall b, b <> a -> total_of (value_of b) l = 0.
Proof.
  intros Hall H2. induction H2 as [|u ou us l (Hm & Ha & [b Hb]) _ IH]; [done|]. apply Forall_cons in Hall as [Hu Hall]. destruct (IH Hall) as [IH1 IH2].
  destruct Hu as [Hu|Hu]; [congruence|]. split.
  - cbn [total_of foldr]. fold (total_of (value_of a) l). rewrite IH1. unfold value_of. rewrite decide_True by congruence. rewrite Hm. done.
  - intros b' Hne. cbn [total_of foldr]. fold (total_of (value_of b') l). rewrite IH2 by done. unfold value_of. rewrite decide_False; [done|]. congruence.
Qed.

(** The fee check on the first message: what its inputs amount to in the ledger, modulo 2^64. *)
Lemma fee_inputs_resolved q ins : forall a asset r, fee_inputs q a asset ins = Ok r ->
  exists us, TxProps.resolves q ins us.
Proof.
  induction ins as [|i ins IH]; intros a asset r E; [by exists []; constructor|]. cbn [fee_inputs] in E.
  destruct (q (PreviousOutPoint i)) as [u|e|] eqn:Q; [|done|done]. destruct (maxUint64 <? _); [done|].
  destruct (IH _ _ _ E) as [us Hus]. exists (u :: us). by constructor.
Qed.
Lemma sum_amounts_map us : TxProps.sum_values (map u_Amount us) = sum_amounts us.
Proof. induction us as [|u us IH]; [done|]. change (u_Amount u + TxProps.sum_values (map u_Amount us) = u_Amount u + sum_amounts us). by rewrite IH. Qed.
Lemma sum_values_map outs : TxProps.sum_values (map Value outs) = sum_values outs.
Proof. induction outs as [|o outs IH]; [done|]. change (Value o + TxProps.sum_values (map Value outs) = Value o + sum_values outs). by rewrite IH. Qed.

(** No entry is kept under the hash that stands for the transaction itself. *)
Definition no_self_entries (db : UtxoDb) : Prop := forall o, is_Some (utxos db !! o) -> IsSelfHash (TxHash o) = false.
Lemma fee_covers db tx msg pay os us fee : no_self_entries db ->
  index (Messages tx) 0 = Some msg -> Payload msg = Some (PayPayment pay) -> Inputs pay <> [] ->
  map PreviousOutPoint (Inputs pay) = map Some os -> Forall2 (resolves (Some (ledger_query db)) tx) os us ->
  Forall (fun u => 0 <= u_Amount u) us -> Forall (fun o => 0 < Value o) (Outputs pay) -> sum_values (Outputs pay) < 2 ^ 64 ->
  GetTxFee (query_of (ledger_query db)) tx = Ok fee -> sum_values (Outputs pay) <= sum_amounts us.
Proof.
  intros Hno Hm Hp Hi Ho Hr Hu Hv Hs E. unfold GetTxFee in E. rewrite Hm in E. cbn [rget rbind] in E. destruct (negb (App msg =? APP_PAYMENT)); [done|].
  unfold as_payment in E. rewrite Hp in E. cbn [rbind] in E.
  assert (Hc : IsCoinbase pay = false).
  { unfold IsCoinbase. destruct (Inputs pay) as [|i ins] eqn:Ei; [done|]. rewrite <- Ei in *. rewrite (proj2 (Z.eqb_neq _ _)) by (rewrite Ei, len_cons; pose proof (len_nonneg ins); lia).
    cbn. clear -Ho. revert os Ho. induction (Inputs pay) as [|j l IH]; intros [|o os] Ho; try done. cbn in Ho. injection Ho as Hj Hl. cbn. rewrite Hj. by apply (IH os). }
  rewrite Hc in E. destruct (fee_inputs _ 0 None (Inputs pay)) as [[n fa]| |] eqn:Ef; [|done|done]. cbn [rbind] in E.
  destruct (fee_inputs_resolved _ _ _ _ _ Ef) as [us2 H2]. rewrite (TxProps.fee_inputs_sum _ _ _ H2) in Ef by lia. injection Ef as <- _.
  rewrite TxProps.fee_outputs_sum in E by lia. cbn [rbind] in E. rewrite !Z.add_0_l, sum_amounts_map, sum_values_map in E.
  assert (us2 = us) as ->.
  { clear -Hno Ho Hr H2. revert Ho us2 H2. generalize (Inputs pay) as ins. induction Hr as [|o u os us Hou _ IH]; intros ins Ho us2 H2.
    - apply fmap_nil_inv in Ho as ->. by inversion H2.
    - destruct ins as [|i ins]; [done|]. cbn in Ho. injection Ho as Hi Ho. inversion H2 as [|i' u2 ins' us2' Hq H2' E1 E2]; subst. f_equal; [|by apply (IH ins)].
      rewrite Hi in Hq. cbn in Hq. destruct (utxos db !! o) as [u'|] eqn:Hl; [|done]. injection Hq as <-.
      unfold resolves in Hou. rewrite (Hno o) in Hou by eauto. destruct Hou as (q' & [= <-] & Hg). cbn in Hg. rewrite Hl in Hg. by injection Hg as ->. }
  assert (Hsum : 0 <= sum_amounts us) by by apply sum_amounts_nonneg.
  assert (Ho0 : 0 <= sum_values (Outputs pay)) by (clear -Hv; induction Hv as [|o outs ? _ IH]; cbn; [done|fold (sum_values outs); lia]).
  destruct (uint64 (sum_amounts us) <? uint64 (sum_values (Outputs pay))) eqn:Lt; [done|]. apply Z.ltb_ge in Lt.
  rewrite (uint64_small (sum_values (Outputs pay))) in Lt by lia. unfold uint64, wrapU in Lt. pose proof (Z.mod_le (sum_amounts us) (2 ^ 64)). lia.
Qed.

Lemma payment_facts q tx msgIdx payment s s' : wf_values (Outputs payment) -> Inputs payment <> [] -> Outputs payment <> [] ->
  validatePaymentPayload (Some q) tx msgIdx payment s = (s', Ok tt) ->
  Forall (fun o => 0 < Value o) (Outputs payment) /\ sum_values (Outputs payment) < 2 ^ 64 /\
  exists os us, map PreviousOutPoint (Inputs payment) = map Some os /\ Forall2 (resolves (Some q) tx) os us /\
    (exists a, Forall (fun o => out_Asset o = Some a) (Outputs payment) /\ Forall (fun u => u_Asset u = None \/ u_Asset u = Some a) us) /\
    (msgIdx <> 0 -> Forall (fun u => 0 <= u_Amount u) us -> sum_values (Outputs payment) <= sum_amounts us).
Proof.
  intros Hwf Hi Ho V. apply payment_rules in V as (_ & Hv & Hs & _ & os & us & Hos & Hr & _ & _ & _ & _ & _ & _ & Ha & Hle); [|done].
  split; [done|]. split; [done|]. exists os, us. split; [done|]. split; [done|]. split; [by apply Ha|]. intros H0. by apply Hle.
Qed.

(** C2: No inflation: a payment with inputs that the validator accepts on the ledger (with its fee, for the first
    message of a transaction) and that is then applied leaves no more of any asset unspent than there was
    before, and touches no asset but that of its outputs. *)
Theorem validated_payment_conserves db db' tx h msgIdx payment s s' t :
  no_self_entries db -> own_outputs tx h db -> Forall (fun ou => 0 <= u_Amount ou.2) (map_to_list (utxos db)) ->
  (forall msg pay, msg ∈ Messages tx -> Payload msg = Some (PayPayment pay) -> Forall (fun o => 0 <= Value o) (Outputs pay)) ->
  wf_values (Outputs payment) -> Inputs payment <> [] -> Outputs payment <> [] ->
  validatePaymentPayload (Some (ledger_query db)) tx msgIdx payment s = (s', Ok tt) ->
  (msgIdx = 0 -> exists msg fee, index (Messages tx) 0 = Some msg /\ Payload msg = Some (PayPayment payment) /\
     GetTxFee (query_of (ledger_query db)) tx = Ok fee) ->
  fresh h msgIdx db -> len (Outputs payment) <= 2 ^ 32 ->
  UpdateUtxo t h payment msgIdx db = (db', Ok tt) ->
  exists a, Forall (fun o => out_Asset o = Some a) (Outputs payment) /\
    supply (value_of a) (utxos db') <= supply (value_of a) (utxos db) /\
    forall b, b <> a -> supply (value_of b) (utxos db') = supply (value_of b) (utxos db).
Proof.
  intros Hno Hown Hnn Htx Hwf Hi Ho V Hfee Hf Hl E.
  apply payment_facts in V as (Hv & Hs & os & us & Hos & Hr & Ha & Hle); [|done..].
  destruct Ha as (a & Hao & Hau). exists a. split; [done|].
  assert (Hus : Forall (fun u => 0 <= u_Amount u) us).
  { clear -Hr Hnn Htx. induction Hr as [|o u os us Hou _ IH]; constructor; [|done]. unfold resolves in Hou. destruct (IsSelfHash (TxHash o)).
    - destruct Hou as (msg & pay & out & H1 & H2 & H3 & ->). cbn. assert (Hm : msg ∈ Messages tx) by (unfold index in H1; destruct (_ <? 0); [done|]; by eapply list_elem_of_lookup_2).
      specialize (Htx msg pay Hm H2). rewrite Forall_forall in Htx. apply Htx. unfold index in H3. destruct (_ <? 0); [done|]. by eapply list_elem_of_lookup_2.
    - destruct Hou as (q' & [= <-] & Hg). cbn in Hg. destruct (utxos db !! o) as [u'|] eqn:Hu; [|done]. injection Hg as ->. rewrite Forall_forall in Hnn.
      apply (Hnn (o, u)). by apply elem_of_map_to_list. }
  assert (Hcov : sum_values (Outputs payment) <= sum_amounts us).
  { destruct (decide (msgIdx = 0)) as [H0|H0]; [|by apply Hle]. destruct (Hfee H0) as (msg & fee & Hm & Hp & HF). by eapply fee_covers. }
  destruct (update_supply _ _ _ _ _ _ Hf Hl E) as (l & db1 & Hsp & Hml & Hsup).
  assert (Hom : omap PreviousOutPoint (Inputs payment) = os).
  { clear -Hos. revert os Hos. induction (Inputs payment) as [|i ins IH]; intros [|o os] Hos; try done. cbn in Hos. injection Hos as Hi Hos. cbn. rewrite Hi. f_equal. by apply IH. }
  rewrite Hom in Hml. assert (Hsa := spends_assets _ _ _ _ _ Hsp).
  assert (H2 := spent_totals tx h db _ os us l db1 Hown Hr Hsp Hml Hsa). destruct (total_value a us l Hau H2) as [T1 T2].
  pose proof (new_entries_value a t h msgIdx (LockTime payment) (Outputs payment) Hv 0) as N. rewrite (asset_values_all a) in N by done. split; [specialize (Hsup (value_of a)); lia|].
  intros b Hb. specialize (Hsup (value_of b)) as Hb'. rewrite (T2 b Hb) in Hb'.
  rewrite (new_entries_other a b) in Hb' by done. lia.
Qed.

(** ** Outputs without an address *)

Lemma new_entries_skip t h i lt outs : forall k j out, 0 <= k -> k + len outs <= 2 ^ 32 -> index outs j = Some out ->
  address_of (PkScript out) = DestroyAddress -> mkOutPoint h i (k + j) ∉ map fst (new_entries t h i k outs lt).
Proof.
  induction outs as [|o outs IH]; intros k j out Hk Hl Hj Ha; [unfold index in Hj; destruct (j <? 0); done|].
  rewrite len_cons in Hl. pose proof (len_nonneg outs). unfold index in Hj. destruct (Z.ltb_spec j 0); [done|]. cbn [new_entries].
  destruct (decide (j = 0)) as [->|Hj0].
  - injection Hj as ->. rewrite bool_decide_eq_true_2 by done. intros (j' & [= Hj'] & R)%new_entries_in. unfold uint32, wrapU in Hj'. rewrite Z.mod_small in Hj' by lia. lia.
  - assert (Hj1 : index outs (j - 1) = Some out).
    { unfold index. rewrite (proj2 (Z.ltb_ge _ _)) by lia. replace (Z.to_nat j) with (S (Z.to_nat (j - 1))) in Hj by lia. done. }
    specialize (IH (k + 1) (j - 1) out ltac:(lia) ltac:(lia) Hj1 Ha). replace (k + 1 + (j - 1)) with (k + j) in IH by lia.
    case_bool_decide; [done|]. cbn [map fst]. rewrite not_elem_of_cons. split; [|done].
    intros [= Heq]. unfold uint32, wrapU in Heq. rewrite Z.mod_small in Heq by lia. lia.
Qed.

Lemma multisig_no_address keys n s : 2 <= len keys <= 16 -> 0 <= n <= len keys -> Forall (fun k => is_pubkey_len k = true) keys ->
  MultiSigScript keys n = Ok s -> GetAddressFromScript s = Ok zeroAddress.
Proof.
  intros K N F E. destruct (MultiSigScript_building keys n) as (b & Eb & B); [lia|lia|done|]. rewrite Eb in E.
  pose proof B as (Ee & _). unfold Script_ in E. rewrite Ee in E. injection E as <-.
  unfold GetAddressFromScript. rewrite (Extract_multisig Hash160 (script b) keys n); [|lia|lia|done|unfold parsed; by rewrite (building_parse _ _ B)].
  cbn [rbind]. change (beq MultiSigTy NonStandardTy) with false. cbv iota.
  destruct keys as [|k1 [|k2 keys]]; [unfold len in K; simpl in K; lia|unfold len in K; simpl in K; lia|done].
Qed.

(** An output to a bare multi-signature script of two or more keys, a standard script that the engine runs,
    is destroyed: its script has no single address, which the repository takes for the address to destroy
    coins at, so that applying the payment leaves no entry for it. *)
Theorem multisig_output_destroyed keys n s t h pay i db db' k out :
  2 <= len keys <= 16 -> 0 <= n <= len keys -> Forall (fun k => is_pubkey_len k = true) keys -> MultiSigScript keys n = Ok s ->
  index (Outputs pay) k = Some out -> PkScript out = s ->
  fresh h i db -> len (Outputs pay) <= 2 ^ 32 -> UpdateUtxo t h pay i db = (db', Ok tt) ->
  utxos db' !! mkOutPoint h i k = None.
Proof.
  intros K N F M Hk Hs Hf Hl E. destruct (update_lookup _ _ _ _ _ _ Hf Hl E) as (_ & _ & Hlk). rewrite Hlk.
  assert (Ha : address_of (PkScript out) = DestroyAddress) by (unfold address_of; by rewrite Hs, (multisig_no_address keys n s K N F M)).
  pose proof (new_entries_skip t h i (LockTime pay) (Outputs pay) 0 k out) as Hsk. rewrite Z.add_0_l in Hsk.
  rewrite not_elem_of_list_to_map_1 by (apply Hsk; done || lia). destruct (Hf k) as [-> _]. by case_bool_decide.
Qed.

End Payments.

(** ** Keys *)

Lemma encode_decode_uint32 {E} v : 0 <= v < 2 ^ 32 -> DecodeNumberUint32 (E := E) (EncodeNumberUint32 v) = Ok v.
Proof.
  intros R. change (DecodeNumberUint32 (E := E) (EncodeNumberUint32 v)) with (Ok (E := E) (le_uint (State.putUint32 v))). by rewrite (proj1 (State.putUint32_value v R)).
Qed.
(** The key of an outpoint determines it: KeyToOutpoint is the inverse of ToKey. *)
Theorem outpoint_key_roundtrip o : len (TxHash o) = 32 -> 0 <= MessageIndex o < 2 ^ 32 -> 0 <= OutIndex o < 2 ^ 32 ->
  KeyToOutpoint (E := unit) (ToKey o) = Ok o.
Proof.
  destruct o as [h m i]. cbn [TxHash MessageIndex OutIndex]. intros Hh Hm Hi. unfold ToKey, OutPoint_Bytes. cbn [TxHash MessageIndex OutIndex].
  set (em := EncodeNumberUint32 m). set (ei := EncodeNumberUint32 i). assert (Lm : length em = 4%nat) by done. assert (Li : length ei = 4%nat) by done.
  assert (Lh : length h = 32%nat) by (unfold len in Hh; lia).
  assert (Lk : len (UTXO_PREFIX ++ h ++ em ++ ei) = 42) by (unfold len; rewrite !length_app, Lm, Li, Lh; done).
  unfold KeyToOutpoint. rewrite Lk. change (len UTXO_PREFIX) with 2. cbv zeta. cbn [Z.ltb Z.add Z.compare Pos.compare Pos.compare_cont Pos.add Pos.succ].
  assert (S1 : slice (UTXO_PREFIX ++ h ++ em ++ ei) 2 (42 - 8) = h).
  { unfold slice. change (drop (Z.to_nat 2) (UTXO_PREFIX ++ h ++ em ++ ei)) with (h ++ em ++ ei). apply take_app_length'. rewrite Lh. done. }
  assert (S2 : slice (UTXO_PREFIX ++ h ++ em ++ ei) 34 (42 - 4) = em).
  { unfold slice. rewrite (app_assoc UTXO_PREFIX h). rewrite drop_app_length' by (rewrite length_app, Lh; done). by apply take_app_length'. }
  assert (S3 : slice (UTXO_PREFIX ++ h ++ em ++ ei) 38 42 = ei).
  { unfold slice. rewrite (app_assoc UTXO_PREFIX h), (app_assoc (UTXO_PREFIX ++ h) em). rewrite drop_app_length' by (rewrite !length_app, Lh, Lm; done).
    apply take_ge. rewrite Li. done. }
  change (2 + 32 + 4) with 38. change (2 + 32) with 34. rewrite S1, S2, S3. unfold em, ei. rewrite !encode_decode_uint32 by done. cbn [rbind]. do 2 f_equal.
  unfold Rw.BytesToHash. rewrite Hh. change (32 <? 32) with false. cbv iota zeta. by rewrite Lh.
Qed.

(** ** Samples *)

Lemma outcome {A B} (x : A * B) b : x.2 = b -> x = (x.1, b).
Proof. by destruct x as [a b'] ; intros <-. Qed.

(** A ledger with one output that anyone can spend. *)
Definition open_utxo : Utxo := mkUtxo 9 (Some PTNAsset) [OP_1] 0 0 0.
Definition open_db : UtxoDb := created_db (H := sample_node) sample_point open_utxo empty_db.
Definition spend_hash_id : Hash := replicate 32 x22.
Lemma open_db_utxos : utxos open_db = {[sample_point := open_utxo]}.
Proof. unfold open_db. rewrite created_utxos. done. Qed.
Lemma open_db_stxos : stxos open_db = ∅.
Proof. unfold open_db, created_db. by destruct (is_gas open_utxo). Qed.
Lemma open_fresh i : fresh spend_hash_id i open_db.
Proof. intros k. split; [rewrite open_db_utxos; apply lookup_singleton_ne; discriminate|by rewrite open_db_stxos]. Qed.

Lemma open_db_payment : exists s', validatePaymentPayload (H := sample_node) (Some (ledger_query open_db)) (spend_with []) 0 (spend_payment [])
  (mkPayState (NewSigCache 20000) ∅) = (s', Ok tt).
Proof.
  assert (En : encodable_tx (L := digit_lib) (txdata (spend_with []))) by (apply one_payment_encodable; constructor; [discriminate|constructor]).
  destruct (tx_Hash_ok (H := sample_node) digit_laws ltac:(intros b; discriminate) ltac:(intros b; discriminate) (spend_with []) En) as (h & Eh).
  unfold validatePaymentPayload, bind, call. rewrite Eh. cbv zeta. change (1000 <? len (Inputs (spend_payment []))) with false.
  change (len (Inputs (spend_payment [])) =? 0) with false. cbv iota. unfold validate_inputs_of, bind, call.
  change (Clone (L := @env_rlp (@node_env sample_node)) (spend_with [])) with (Clone (L := digit_lib) (spend_with [])).
  rewrite (Clone_data (L := digit_lib) (LL := digit_laws) (spend_with []) En).
  eexists. vm_compute. reflexivity.
Qed.

Definition spent_open_db : UtxoDb := (UpdateUtxo (H := sample_node) 5 spend_hash_id (spend_payment []) 0 open_db).1.
Lemma spent_open : UpdateUtxo (H := sample_node) 5 spend_hash_id (spend_payment []) 0 open_db = (spent_open_db, Ok tt).
Proof. apply outcome. vm_compute. reflexivity. Qed.

Lemma validated_payment_conserves_witness : exists a, supply (value_of a) (utxos spent_open_db) <= supply (value_of a) (utxos open_db).
Proof.
  destruct open_db_payment as (s' & V).
  destruct (validated_payment_conserves (H := sample_node) open_db spent_open_db (spend_with []) spend_hash_id 0 (spend_payment [])
    (mkPayState (NewSigCache 20000) ∅) s' 5) as (a & _ & Hle & _).
  - intros o [u Ho]. rewrite open_db_utxos in Ho. apply lookup_singleton_Some in Ho as [<- _]. reflexivity.
  - intros m k u Ho. rewrite open_db_utxos in Ho. apply lookup_singleton_Some in Ho as [Ho _]. discriminate Ho.
  - rewrite open_db_utxos, map_to_list_singleton. constructor; [vm_compute; discriminate|constructor].
  - intros msg pay Hm Hp. apply list_elem_of_singleton in Hm as ->. injection Hp as <-. constructor; [vm_compute; discriminate|constructor].
  - constructor; [vm_compute; split; congruence|constructor].
  - discriminate.
  - discriminate.
  - exact V.
  - intros _. eexists _, _. split; [reflexivity|]. split; [reflexivity|]. vm_compute. reflexivity.
  - apply open_fresh.
  - vm_compute. discriminate.
  - exact spent_open.
  - exists a. exact Hle.
Defined.
Lemma payment_applied_witness : utxos spent_open_db !! sample_point = None.
Proof.
  destruct (payment_applied (H := sample_node) 5 spend_hash_id (spend_payment []) 0 open_db spent_open_db) as (_ & _ & E);
    [apply open_fresh|vm_compute; discriminate|exact spent_open|]. rewrite E. reflexivity.
Defined.
(** A payment of new coins to the hash of a key. *)
Definition pay_hash : PaymentPayload := mkPayment [] [mkOutput 7 (concat (map encoding (p2pkh_pops spend_hash))) (Some PTNAsset)] 0.
Definition paid_db : UtxoDb := (UpdateUtxo (H := sample_node) 5 spend_hash_id pay_hash 0 empty_db).1.
Lemma paid_ok : UpdateUtxo (H := sample_node) 5 spend_hash_id pay_hash 0 empty_db = (paid_db, Ok tt).
Proof. apply outcome. vm_compute. reflexivity. Qed.
Lemma empty_fresh h i : fresh h i empty_db.
Proof. intros k. split; apply lookup_empty. Qed.
Lemma ledger_invariant_witness :
  GetAccountBalance (NewAddress spend_hash PublicKeyHash) paid_db = supply (gas_at (H := sample_node) (Address_Bytes (NewAddress spend_hash PublicKeyHash))) (utxos paid_db) mod 2 ^ 64.
Proof.
  apply (ledger_invariant (H := sample_node)). apply (ledger_payment (H := sample_node) 5 spend_hash_id pay_hash 0 empty_db paid_db (Ok tt));
    [constructor|apply empty_fresh|vm_compute; discriminate|exact paid_ok|discriminate].
Defined.
Definition two_keys : list bytes := [replicate 33 x02; replicate 33 x03].
Definition two_keys_script : bytes := match MultiSigScript two_keys 1 with Ok s => s | _ => [] end.
Definition pay_two_keys : PaymentPayload := mkPayment [] [mkOutput 7 two_keys_script (Some PTNAsset)] 0.
Definition lost_db : UtxoDb := (UpdateUtxo (H := sample_node) 5 spend_hash_id pay_two_keys 0 empty_db).1.
Lemma lost_ok : UpdateUtxo (H := sample_node) 5 spend_hash_id pay_two_keys 0 empty_db = (lost_db, Ok tt).
Proof. apply outcome. vm_compute. reflexivity. Qed.
Lemma multisig_output_destroyed_witness : utxos lost_db !! mkOutPoint spend_hash_id 0 0 = None.
Proof.
  apply (multisig_output_destroyed (H := sample_node) two_keys 1 two_keys_script 5 spend_hash_id pay_two_keys 0 empty_db lost_db 0 (mkOutput 7 two_keys_script (Some PTNAsset))).
  - vm_compute; split; congruence.
  - vm_compute; split; congruence.
  - repeat constructor.
  - vm_compute. reflexivity.
  - reflexivity.
  - reflexivity.
  - apply empty_fresh.
  - vm_compute. discriminate.
  - exact lost_ok.
Defined.
Lemma outpoint_key_roundtrip_witness : KeyToOutpoint (E := unit) (ToKey sample_point) = Ok sample_point.
Proof. apply (outpoint_key_roundtrip sample_point); vm_compute; try split; congruence. Defined.
