(* ===== verification/Mediators.v ===== *)
(** * The records of the mediators

    src/core/mediator.go and genesis.go (what a mediator and a juror send when they
    apply, and its validation), src/dag/modules/mediator.go, the records of
    src/dag/storage/statedb_mediator.go, and [UpdateStateByContractInvoke] of
    statedb_contract.go: the calls of the deposit contract that create and change
    the record of a mediator.  The RLP form of a record, the JSON forms of the
    arguments and of a juror, and the parsers of group keys and node addresses are
    parameters. *)

From S2P Require Import Prelude Opcode Script Text Address AssetId Tx Unit TokenApi Standard ValPayment Produce StateDb.
From Stdlib Require Import ZArith Lia Bool.
From stdpp Require Import pretty.
Local Open Scope Z_scope.

Module Med.
Import State.

Record MediatorInfoBase := mkBase { AddStr : string; RewardAdd : string; InitPubKey : string; Node : string }.
Record MediatorApplyInfo := mkApply { Logo : string; Name : string; Location : string; Url : string; Description : string }.
Record MediatorInfo := mkInfo { info_base : MediatorInfoBase; info_apply : MediatorApplyInfo; info_expand : MediatorInfoExpand }.
Definition NewMediatorInfoBase : MediatorInfoBase := mkBase "" "" "" "".
Definition NewMediatorApplyInfo : MediatorApplyInfo := mkApply "" "" "" "" "".
Definition NewMediatorInfo : MediatorInfo := mkInfo NewMediatorInfoBase NewMediatorApplyInfo NewMediatorInfoExpand.

Record JurorDepositExtraJson := mkExtraJson { PublicKey : string; json_RewardAddr : string }.
Record JurorDepositExtra := mkExtra { jde_PublicKey : bytes; RewardAddr : Address }.
Record JurorDeposit := mkJuror { Balance : Z; EnterTime : string; Role : string; juror_extra : JurorDepositExtra; juror_Address : string }.

Record MediatorCreateArgs := mkCreateArgs { create_base : MediatorInfoBase; create_apply : MediatorApplyInfo; create_juror : JurorDepositExtraJson }.
(** A field that is nil is not changed. *)
Record MediatorUpdateArgs := mkUpdateArgs {
  mua_AddStr : string; mua_RewardAdd : option string; mua_InitPubKey : option string; mua_Node : option string; mua_Logo : option string;
  mua_Name : option string; mua_Location : option string; mua_Url : option string; mua_Description : option string }.

Inductive med_error :=
| BadJson | EmptyAddress | BadAddress | BadHex | KeyMismatch | BadPoint | BadNode | NoMediator | StoreFailed.

(** ** Addresses *)

(** [strings.TrimSpace]: the encodings of the white space of Unicode. *)
Definition white_space : list bytes :=
  [[x09]; [x0a]; [x0b]; [x0c]; [x0d]; [x20]] ++
  [[xc2; x85]; [xc2; xa0]; [xe1; x9a; x80]] ++
  map (fun b => [xe2; x80; b]) [x80; x81; x82; x83; x84; x85; x86; x87; x88; x89; x8a; xa8; xa9; xaf] ++
  [[xe2; x81; x9f]; [xe3; x80; x80]].
Fixpoint first_prefix (cuts : list bytes) (s : bytes) : option bytes :=
  match cuts with
  | [] => None
  | c :: cuts => if is_prefix c s then Some (drop (length c) s) else first_prefix cuts s
  end.
Fixpoint trim_front (fuel : nat) (cuts : list bytes) (s : bytes) : bytes :=
  match fuel with
  | O => s
  | S fuel => match first_prefix cuts s with Some s' => trim_front fuel cuts s' | None => s end
  end.
Definition trim_left (cuts : list bytes) (s : bytes) : bytes := trim_front (length s) cuts s.
Definition trim (cuts : list bytes) (s : bytes) : bytes := rev (trim_left (map (@rev _) cuts) (rev (trim_left cuts s))).
Definition TrimSpace (s : string) : string := bytes_string (trim white_space (string_bytes s)).
Definition quote : bytes := [x22].
Definition TrimQuotes (s : string) : string := bytes_string (trim [quote] (string_bytes s)).

(** ** Times: [time.Unix(t, 0).UTC().Format("2006-01-02 15:04:05 MST")] *)

Definition digits (width : nat) (n : Z) : string :=
  let s := pretty n in String.string_of_list_byte (replicate (width - String.length s) x30 ++ string_bytes s).
(** The day of the civil calendar that is [z] days after 1970-01-01. *)
Definition civil (z : Z) : Z * Z * Z :=
  let z := z + 719468 in
  let era := z / 146097 in
  let doe := z mod 146097 in
  let yoe := (doe - doe / 1460 + doe / 36524 - doe / 146096) / 365 in
  let doy := doe - (365 * yoe + yoe / 4 - yoe / 100) in
  let mp := (5 * doy + 2) / 153 in
  let d := doy - (153 * mp + 2) / 5 + 1 in
  let m := if mp <? 10 then mp + 3 else mp - 9 in
  (yoe + era * 400 + (if m <=? 2 then 1 else 0), m, d).
Definition format_time (t : Z) : string :=
  let '(y, m, d) := civil (t / 86400) in
  let s := t mod 86400 in
  digits 4 y +:+ "-" +:+ digits 2 m +:+ "-" +:+ digits 2 d +:+ " " +:+
  digits 2 (s / 3600) +:+ ":" +:+ digits 2 (s / 60 mod 60) +:+ ":" +:+ digits 2 (s mod 60) +:+ " UTC".

(** ** Constants *)

Definition ApplyMediator : bytes := string_bytes "ApplyBecomeMediator".
Definition UpdateMediatorInfo : bytes := string_bytes "UpdateMediatorInfo".
Definition Jury : string := "Jury".
Definition DepositContractAddress : Address := replicate 19 x00 ++ [x01; x1c].
Definition MEDIATOR_INFO_PREFIX : bytes := string_bytes "mi".
Definition DEPOSIT_JURY_BALANCE_PREFIX : string := "djbp".
(** Mediators of the main network from before version 1.0.3, and their keys. *)
Definition OldMainNetMediatorAndPubKey : list (string * string) :=
  [
   ("P1ByTXr3sm42zLpRJb9avyFtfpGFzaq2TYc", "02d1ef149d47eccddbb670735429ff702f6cb6abb505ad5072d0e36d9c38263ebf");
   ("P1JVoNN1VdGEYzw2ZuYJBJr78wNqfnhjQGH", "039149e808099dc3f59c3e8bb7bf3ba1e24639ef0a755921d6a78af72979762a7a");
   ("P1FaqdTMUiuaZqnsa2wqB2ayQ7MjDqxeNZr", "0254e55902db3eb82c4288c82c8eaa94f060d7dcdb482947d7a27e1a0b95b6a2ca");
   ("P13XFCo3n4UJjDLmGcwEVLqRGjU3awsF5kJ", "03d2869118ff41340f90863f7a4e6b2f024aae16ff4f1599659f0152efbdc91a55");
   ("P1EdjUX1jVEAuQUG8Ev4MJ7mZhdbic4g5rB", "03573d69699190af6defb2c2d4212afb376c7942037bd3325ce88b52d8a57f9344");
   ("P15c2tpiRj7AZgQi3i8SHUZGwwDNF7zZSD8", "03e80f0b8b1a039b0e51ec7d8ae168dce01c8f3127b46ccaea883467528638544e");
   ("P1aNXZmxK1SdQSfB9y7jfpXc1E4SUPKvmv", "02047c2791f080264bbede8ddff970928182322f8721ecc8c61182e3c15e17fa30");
   ("P1KJSodB2vzJ1A7jyqWVGb9NN7pCSt9ZZnN", "03cd92fd5c42506d798cb6dc13a88344195522ae6e2ddb2311395c00f466571714");
   ("P1HSMef9d1LTDwohiFCsdFzNH89ywF9QhfD", "030021457c0cce06e19c897fef0d5d2e79f2717562b387ea4efb5f3da2e7f95cb8");
   ("P1DAXndc7dDG9iEaECXpbxAbU4mBw8ZHsKh", "03b18f2099c593d575bd803e2d12e0212415bb864573bfa4e3e7515793a4643d95");
   ("P18s59sBXd6iJMkpgHBgCPuQ8voP4KiYKbE", "03c751ca2d4811bf6d63009b770042b1d635320267faddbf10416d2a73406bbecd");
   ("P1NPgdaVvvC9VXaZL5wc1AZJ4wrReKNu1Jd", "03581ae3a136ee8d622009492b1d64cfe98c05b4e3e768095cd4b79fe5eead1c61");
   ("P13Ly89hV5UA5pwXimPXXSh3WDD7iutMKgJ", "028768b0e7edfbc85c53581a9026d9de4dcc81318d9b33a737e1d542f9c53d9153");
   ("P1K3Tw5NRbU7Jd3PsoWw3wvPvvwPmPMTEpq", "02e2fc1e70ac4f4c097ac58192655164d17ed793da627456b2626678cd86669400");
   ("P1LuuPivkdvUF76wcTeunfDirkoFQQfPEEj", "02cff3f49842b66b4c6bab82153b8dc1457645f587f4895afedcf8c570c1f4f01b");
   ("P1NedpmrH4513E5jeM3soV4DyNxbgWGxZ4Y", "02e1f964897cbe7cd6a7c32b0d92f2e6fc9a4a12e6180fadd37e147d5e1536f1ed");
   ("P1NzevLMVCFJKWr4KAcHxyyh9xXaVU8yv3N", "0326a0b144fd1df92f7d9e87d8d9929bc383059de4e0038b6d870f6f1d6ebb5219");
   ("P17rPHgV9D61JKrbpcHtArktyuQrG7NM2xu", "0214e22f395f7af11ffe75cd7a992d15dc6478bb30abb0fd3dca997a9766e8ee5f");
   ("P1FzmurBnMv15SEkcKKiVoshMrP3ngULmi", "022babc996955a7552919caecbb022ccb2fbd84d8162b8b4c7ee823dfd52b074fa");
   ("P1EkrPBuLATsTyz4qda52HtcUcuCxdUeF9e", "03cdd9b7c57f19d4284bca24aa3725e7610f7cacf6b16624af62d7be2a9d300a96");
   ("P1HD5bnL5JSHGghYcfkY19A6wgJR49kfszT", "02187443be44501236925c2ee322bfc9edfb0b359b9d5f139d33cae64ea4c12bf4")].
Definition find_old (addStr : string) : option string :=
  option_map snd (List.find (fun p => String.eqb p.1 addStr) OldMainNetMediatorAndPubKey).

(** What the parameters of this file are. *)
Class MediatorLib := {
  c_mediator : Codec MediatorInfo;
  unmarshal_create : bytes -> option (option MediatorCreateArgs);   (* json.Unmarshal into a pointer, which null makes nil *)
  unmarshal_update : bytes -> option MediatorUpdateArgs;
  marshal_juror : JurorDeposit -> option bytes;
  point_ok : string -> bool;                                        (* StrToPoint succeeds *)
  node_ok : string -> option bool                                   (* StrToMedNode, and whether the node is complete *)
}.

Section Mediators.
Context `{N : ValPayment.Node} `{M : MediatorLib}.

(** ** Validation *)

Definition StrToMedAdd (addStr : string) : result med_error Address :=
  let address := TrimQuotes (TrimSpace addStr) in
  if String.eqb address "" then Err EmptyAddress else
  match StringToAddress check_decode address with
  | Ok addr => if negb (beq (GetType addr) PublicKeyHash) then Err BadAddress else Ok addr
  | Err _ => Err BadAddress
  | Panic => Panic
  end.
Definition StrToPoint (pubStr : string) : result med_error unit := if point_ok pubStr then Ok tt else Err BadPoint.
Definition complete_node (medNode : string) : result med_error unit :=
  match node_ok medNode with Some true => Ok tt | _ => Err BadNode end.
Definition base_Validate (mib : MediatorInfoBase) : result med_error Address :=
  let? addr := StrToMedAdd (AddStr mib) in
  let? _ := (if negb (String.eqb (RewardAdd mib) "") then StrToMedAdd (RewardAdd mib) else Ok addr) in
  let? _ := StrToPoint (InitPubKey mib) in
  let? _ := complete_node (Node mib) in
  Ok addr.
Definition given {A} (f : string -> result med_error A) (x : option string) : result med_error unit :=
  match x with None => Ok tt | Some s => let? _ := f s in Ok tt end.
Definition mua_Validate (mua : MediatorUpdateArgs) : result med_error Address :=
  let? addr := StrToMedAdd (mua_AddStr mua) in
  let? _ := given StrToMedAdd (mua_RewardAdd mua) in
  let? _ := given StrToPoint (mua_InitPubKey mua) in
  let? _ := given complete_node (mua_Node mua) in
  Ok addr.
Definition json_Validate (json : JurorDepositExtraJson) (addStr : string) : result med_error JurorDepositExtra :=
  let '(byte, ok) := hex_decode (PublicKey json) in
  if negb ok then Err BadHex else
  let add := Str check_encode (PubkeyBytesToAddress byte) in
  if negb (String.eqb add addStr) then Err KeyMismatch else
  if negb (String.eqb (json_RewardAddr json) "") then
    match StringToAddress check_decode (json_RewardAddr json) with
    | Ok add => Ok (mkExtra byte add)
    | Err _ => Err BadAddress
    | Panic => Panic
    end
  else Ok (mkExtra byte zeroAddress).
Definition create_Validate (mco : MediatorCreateArgs) : result med_error (Address * JurorDepositExtra) :=
  let? addr := base_Validate (create_base mco) in
  let? jde := json_Validate (create_juror mco) (AddStr (create_base mco)) in
  Ok (addr, jde).

(** ** Stored records *)

Definition D (A : Type) : Type := ST Db med_error A.
Definition GetMmediatorKey (address : Address) : bytes := MEDIATOR_INFO_PREFIX ++ Address_Bytes address.
Definition StoreMediatorInfo (add : Address) (mi : MediatorInfo) : D unit :=
  match enc c_mediator mi with
  | Ok b => modify (fun db => <[GetMmediatorKey add := b]> db)
  | Err _ => throw StoreFailed
  | Panic => panic
  end.
Definition RetrieveMediatorInfo (address : Address) : D MediatorInfo :=
  let! db := gets id in
  match db !! GetMmediatorKey address with
  | None => throw NoMediator
  | Some b => match dec c_mediator b with Ok mi => ret mi | Err _ => throw NoMediator | Panic => panic end
  end.
(** The error of a missing record is swallowed. *)
Definition StoreMediatorInfoExpand (address : Address) (e : MediatorInfoExpand) : D unit :=
  fun db => match RetrieveMediatorInfo address db with
            | (db, Ok mi) => StoreMediatorInfo address (mkInfo (info_base mi) (info_apply mi) e) db
            | (db, Err _) => (db, Ok tt)
            | (db, Panic) => (db, Panic)
            end.

(** ** The calls of the deposit contract *)

Definition JuryDepositKey (jurorAddr : string) : string := DEPOSIT_JURY_BALANCE_PREFIX +:+ jurorAddr.
Definition save_state (id : bytes) (ws : ContractWriteSet) (version : StateVersion) : D unit :=
  fun db => match SaveContractState id ws version db with Ok db => (db, Ok tt) | Err _ => (db, Err StoreFailed) | Panic => (db, Panic) end.
Definition changed (x : option string) (old : string) : string := default old x.
Definition update_info (mua : MediatorUpdateArgs) (mi : MediatorInfo) : MediatorInfo :=
  let b := info_base mi in let a := info_apply mi in
  mkInfo (mkBase (AddStr b) (changed (mua_RewardAdd mua) (RewardAdd b)) (changed (mua_InitPubKey mua) (InitPubKey b)) (changed (mua_Node mua) (Node b)))
         (mkApply (changed (mua_Logo mua) (Logo a)) (changed (mua_Name mua) (Name a)) (changed (mua_Location mua) (Location a))
                  (changed (mua_Url mua) (Url a)) (changed (mua_Description mua) (Description a)))
         (info_expand mi).

Definition apply_mediator (arg : bytes) (unitTime : Z) (version : StateVersion) : D unit :=
  match unmarshal_create arg with
  | None => throw BadJson
  | Some mco =>
      let! mco := get mco in
      let addStr := AddStr (create_base mco) in
      let mi := mkInfo (create_base mco) (create_apply mco) NewMediatorInfoExpand in
      (match find_old addStr with
       | None => ret tt
       | Some pubKey =>
           let! jde := lift (json_Validate (mkExtraJson pubKey "") addStr) in
           match marshal_juror (mkJuror 0 (format_time unitTime) Jury jde addStr) with
           | None => throw BadJson
           | Some jurorByte =>
               save_state (Address_Bytes DepositContractAddress) (mkWriteSet false (JuryDepositKey addStr) jurorByte []) version
           end
       end) ;;;
      let! addr := lift (StrToMedAdd addStr) in
      fun db => match StoreMediatorInfo addr mi db with (db, Panic) => (db, Panic) | (db, _) => (db, Ok tt) end
  end.
Definition update_mediator (arg : bytes) : D unit :=
  match unmarshal_update arg with
  | None => throw BadJson
  | Some mua =>
      let! addr := lift (mua_Validate mua) in
      let! mi := RetrieveMediatorInfo addr in
      fun db => match StoreMediatorInfo addr (update_info mua mi) db with (db, Panic) => (db, Panic) | (db, _) => (db, Ok tt) end
  end.
(** The first argument of a call of the deposit contract is read without looking at how many there are. *)
Definition UpdateStateByContractInvoke (invoke : ContractInvokeRequestPayload) (unitTime : Z) (version : StateVersion) : D unit :=
  let contractAddress := NewAddress (vr_ContractId invoke) ContractHash in
  if bool_decide (contractAddress = DepositContractAddress) then
    let! name := get (index (vr_Args invoke) 0) in
    if bytes_equal name ApplyMediator then
      let! arg := get (index (vr_Args invoke) 1) in apply_mediator arg unitTime version
    else if bytes_equal name UpdateMediatorInfo then
      let! arg := get (index (vr_Args invoke) 1) in update_mediator arg
    else ret tt
  else ret tt.

End Mediators.
End Med.
