(* ===== verification/UnitStore.v ===== *)
(** * The stores a unit is saved into

    The key-value store under a node, as the repositories see it: the headers,
    bodies, transactions and lookups of src/dag/storage/dagdb.go and dagdb_tx.go,
    the contracts, templates, requests, juries and account states of
    statedb_contract.go, statedb_tpl.go and statedb_account.go, and the indexes of
    indexdb.go.  Every key has a prefix of two letters of
    src/dag/constants/prefix_info.go.  The unspent outputs are kept apart, as the
    ledger of Ledger.v, and so is the property database of Schedule.v.  Writes to
    the key-value store do not fail; the RLP library is a codec for each type. *)

From S2P Require Import Prelude Opcode Script Text Address AssetId Tx SigHash SigCache Engine TokenApi Unit ValPayment Schedule StateDb Rwset Ledger Mediators.
From Stdlib Require Import ZArith Lia Bool.
Local Open Scope Z_scope.

Module Store.
Import State.

(** ** Data: src/dag/modules/contract.go, contract_tpl.go, transaction.go, proof_of_existence.go, events.go *)

Record Contract := mkContract {
  co_ContractId : bytes; co_TemplateId : bytes; co_Name : string; co_Status : byte; co_Creator : bytes; CreationTime : Z; co_DuringTime : Z;
  co_Version : string }.
Definition NewContract (templateId : bytes) (deploy : ContractDeployPayload) (creator : Address) (unitTime : Z) (version : string) : Contract :=
  mkContract (dp_ContractId deploy) templateId (dp_Name deploy) x01 (Address_Bytes creator) unitTime (dp_DuringTime deploy) version.
Definition set_Status (status : byte) (c : Contract) : Contract :=
  mkContract (co_ContractId c) (co_TemplateId c) (co_Name c) status (co_Creator c) (CreationTime c) (co_DuringTime c) (co_Version c).

Record ContractTemplate := mkTemplate {
  TplId : bytes; ct_TplName : string; ct_TplDescription : string; ct_Path : string; ct_Version : string; ct_Abi : string; ct_Language : string;
  ct_AddrHash : list Hash; Size : Z; ct_Creator : string }.
(** The size is cut to 16 bits; the request must be there. *)
Definition NewContractTemplate {E} (req : option ContractInstallRequestPayload) (tpl : ContractTplPayload) : result E ContractTemplate :=
  let? req := rget req in
  Ok (mkTemplate (tpl_TemplateId tpl) (TplName req) (TplDescription req) (Path req) (ir_Version req) (Abi req) (Language req) (ir_AddrHash req)
        (wrapU 16 (len (ByteCode tpl))) (Creator req)).

Record TxLookupEntry := mkLookup { lu_UnitHash : Hash; UnitIndex : Z; Index : Z; lu_Timestamp : Z }.
Record ProofOfExistence := mkPoe {
  poe_MainData : bytes; poe_ExtraData : bytes; poe_Reference : bytes; UintHeight : Z; TxId : Hash; poe_UnitHash : Hash; poe_Timestamp : Z;
  poe_Creator : Address }.
Record SysContractStateChangeEvent := mkEvent { ev_ContractId : bytes; ev_WriteSet : list ContractWriteSet }.

(** ** State *)

Record Store := mkStore {
  ledger : UtxoDb; kv : Db; props : PropertyDb;
  events : list SysContractStateChangeEvent }.     (* what the observers were told, the newest first *)
Definition set_ledger (l : UtxoDb) (s : Store) : Store := mkStore l (kv s) (props s) (events s).
Definition set_kv (db : Db) (s : Store) : Store := mkStore (ledger s) db (props s) (events s).
Definition set_props (p : PropertyDb) (s : Store) : Store := mkStore (ledger s) (kv s) p (events s).
Definition add_event (e : SysContractStateChangeEvent) (s : Store) : Store := mkStore (ledger s) (kv s) (props s) (e :: events s).

Inductive store_error :=
| KeyNotFound | RlpError | StateError (e : db_error) | LedgerError (e : utxo_error) | MediatorError (e : Med.med_error) | NoHash
| SaveError (msg : string).
Definition St (A : Type) : Type := ST Store store_error A.

Class StoreCodecs := {
  c_contract : Codec Contract;
  c_template : Codec ContractTemplate;
  c_lookup : Codec TxLookupEntry;
  c_body : Codec (list Hash);
  c_hash : Codec Hash;
  c_jury : Codec ElectionNode;
  c_poe : Codec ProofOfExistence
}.

(** ** Keys *)

Definition HEADER_PREFIX : bytes := string_bytes "uh".
Definition HEADER_HEIGTH_PREFIX : bytes := string_bytes "hh".
Definition BODY_PREFIX : bytes := string_bytes "ub".
Definition TRANSACTION_PREFIX : bytes := string_bytes "tx".
Definition ADDR_TXID_PREFIX : bytes := string_bytes "at".
Definition CONTRACT_TPL : bytes := string_bytes "ct".
Definition CONTRACT_TPL_CODE : bytes := string_bytes "cc".
Definition CONTRACT_DEPLOY_REQ : bytes := string_bytes "ce".
Definition CONTRACT_STOP : bytes := string_bytes "cp".
Definition CONTRACT_STOP_REQ : bytes := string_bytes "cq".
Definition CONTRACT_INVOKE_REQ : bytes := string_bytes "ck".
Definition CONTRACT_SIGNATURE : bytes := string_bytes "cn".
Definition CONTRACT_PREFIX : bytes := string_bytes "co".
Definition CONTRACT_TPL_INSTANCE_MAP : bytes := string_bytes "cm".
Definition CONTRACT_JURY_PREFIX : bytes := string_bytes "cj".
Definition REQID_TXID_PREFIX : bytes := string_bytes "rq".
Definition ACCOUNT_INFO_PREFIX : bytes := string_bytes "ai".
Definition TOKEN_TXID_PREFIX : bytes := string_bytes "tt".
Definition LOOKUP_PREFIX : bytes := string_bytes "lu".
Definition GenesisUnitHash : bytes := string_bytes "GenesisUnitHash".
Definition IDX_MAIN_DATA_TXID : bytes := string_bytes "md".
Definition IDX_REF_DATA_PREFIX : bytes := string_bytes "re".

(** ** storage.go and getor.go *)

Definition Put (key value : bytes) : St unit := modify (fun s => set_kv (<[key := value]> (kv s)) s).
Definition Delete_ (key : bytes) : St unit := modify (fun s => set_kv (delete key (kv s)) s).
Definition Get (key : bytes) : St bytes :=
  let! db := gets kv in match db !! key with Some v => ret v | None => throw KeyNotFound end.
Definition Has (key : bytes) : St bool := let! db := gets kv in ret (bool_decide (is_Some (db !! key))).
Definition coded {A} (r : result tx_error A) : St A :=
  lift (match r with Ok a => Ok a | Err _ => Err RlpError | Panic => Panic end).
Definition StoreToRlpBytes {A} (c : Codec A) (key : bytes) (value : A) : St unit := let! val := coded (enc c value) in Put key val.
Definition RetrieveFromRlpBytes {A} (c : Codec A) (key : bytes) : St A := let! data := Get key in coded (dec c data).
Definition on_state (f : Db -> result db_error Db) : St unit :=
  fun s => match f (kv s) with Ok db => (set_kv db s, Ok tt) | Err e => (s, Err (StateError e)) | Panic => (s, Panic) end.
(** The error is logged and dropped. *)
Definition dropped {A} (m : St A) : St unit :=
  fun s => match m s with (s, Panic) => (s, Panic) | (s, _) => (s, Ok tt) end.
(** The values of the rows with a prefix. *)
Definition rows (prefix : bytes) : St (list bytes) := let! db := gets kv in ret (snd <$> map_to_list (getprefix prefix db)).

Section Stores.
Context `{N : Node} `{C : StoreCodecs}.

Definition tx_RequestHash (tx : Transaction) : result tx_error Hash := RequestHash env_keccakHash tx.
Definition unit_Hash (h : Header) : result tx_error Hash := (Header_Hash header_codec env_keccakHash h).2.

(** ** dagdb.go *)

Definition IsHeaderExist (uHash : Hash) : St bool := Has (HEADER_PREFIX ++ uHash).
Definition GetGenesisUnitHash : St Hash := let! hashb := Get GenesisUnitHash in ret (Rw.BytesToHash hashb).
Definition SaveGenesisUnitHash (hash : Hash) : St unit := Put GenesisUnitHash hash.
Definition saveHeader (h : Header) : St unit :=
  let! uHash := coded (unit_Hash h) in
  let! b := coded (Header_EncodeRLP header_codec h) in
  Put (HEADER_PREFIX ++ uHash) b.
Definition saveHeaderChainIndex (h : Header) : St unit :=
  let! number := get (GetNumber h) in
  let! uHash := coded (unit_Hash h) in
  StoreToRlpBytes c_hash (HEADER_HEIGTH_PREFIX ++ ChainIndex_Bytes number) uHash.
Definition SaveHeader (h : Header) : St unit := saveHeader h ;;; saveHeaderChainIndex h.
(** All headers go through one batch. *)
Fixpoint save_headers (headers : list Header) : St unit :=
  match headers with [] => ret tt | h :: headers => SaveHeader h ;;; save_headers headers end.
Definition SaveHeaders (headers : list Header) : St unit :=
  fun s => match save_headers headers s with (s', Ok _) => (s', Ok tt) | (_, r) => (s, r) end.
(** The index holds the RLP form of the hash, one byte longer than the hash: the last 32 bytes are kept. *)
Definition GetHashByNumber (number : ChainIndex) : St Hash :=
  let! data := Get (HEADER_HEIGTH_PREFIX ++ ChainIndex_Bytes number) in ret (Rw.BytesToHash data).
Definition SaveBody (unitHash : Hash) (txsHash : list Hash) : St unit := StoreToRlpBytes c_body (BODY_PREFIX ++ unitHash) txsHash.
Definition GetBody (unitHash : Hash) : St (list Hash) := RetrieveFromRlpBytes c_body (BODY_PREFIX ++ unitHash).
Definition SaveTxLookupEntry (hash : Hash) (height timestamp index : Z) (tx : Transaction) : St unit :=
  let! txHash := coded (tx_Hash tx) in
  StoreToRlpBytes c_lookup (LOOKUP_PREFIX ++ txHash) (mkLookup hash height (uint64 index) timestamp).
Definition GetTxLookupEntry (txHash : Hash) : St TxLookupEntry := RetrieveFromRlpBytes c_lookup (LOOKUP_PREFIX ++ txHash).
Definition new_header : Header := mkHeader new_header_sdw zeroHash [] [].
Definition GetHeaderByHash (hash : Hash) : St Header :=
  let! data := Get (HEADER_PREFIX ++ hash) in
  match Header_DecodeRLP header_codec data new_header with
  | (h, Ok _) => ret h
  | (_, Err _) => throw RlpError
  | (_, Panic) => panic
  end.

(** ** dagdb_tx.go *)

Definition saveReqIdByTx (tx : Transaction) : St unit :=
  let! txhash := coded (tx_Hash tx) in
  let! reqid := coded (tx_RequestHash tx) in
  if bytes_equal txhash reqid then ret tt else Put (REQID_TXID_PREFIX ++ reqid) txhash.
Definition SaveTransaction (tx : Transaction) : St unit :=
  let! txHash := coded (tx_Hash tx) in
  let! b := coded (EncodeRLP (txdata tx)) in
  Put (TRANSACTION_PREFIX ++ txHash) b ;;;
  if IsContractTx tx then dropped (saveReqIdByTx tx) else ret tt.
Definition GetTransactionOnly (hash : Hash) : St Transaction :=
  if bytes_equal hash zeroHash then throw NoHash else
  let! data := Get (TRANSACTION_PREFIX ++ hash) in
  let! d := coded (DecodeRLP data) in ret (new_tx d).
Definition IsTransactionExist (hash : Hash) : St bool := Has (TRANSACTION_PREFIX ++ hash).
Definition GetTxHashByReqId (reqid : Hash) : St Hash :=
  let! val := Get (REQID_TXID_PREFIX ++ reqid) in ret (Rw.BytesToHash val).
Fixpoint get_txs (txHashList : list Hash) : St (list Transaction) :=
  match txHashList with
  | [] => ret []
  | txHash :: txHashList =>
      let! tx := GetTransactionOnly txHash in
      let! txs := get_txs txHashList in ret (tx :: txs)
  end.
Definition GetUnitTransactions (hash : Hash) : St (list Transaction) := let! txHashList := GetBody hash in get_txs txHashList.

(** ** statedb_contract.go *)

Definition saveTplToContractMapping (contract : Contract) : St unit :=
  Put (CONTRACT_TPL_INSTANCE_MAP ++ co_TemplateId contract ++ co_ContractId contract) (co_ContractId contract).
Definition SaveContract (contract : Contract) : St unit :=
  StoreToRlpBytes c_contract (CONTRACT_PREFIX ++ co_ContractId contract) contract ;;;
  saveTplToContractMapping contract.
Definition GetContract (id : bytes) : St Contract := RetrieveFromRlpBytes c_contract (CONTRACT_PREFIX ++ id).
Definition GetContractIdsByTpl (tplId : bytes) : St (list bytes) := rows (CONTRACT_TPL_INSTANCE_MAP ++ tplId).
(** Rows that do not decode give an empty contract. *)
Definition empty_contract : Contract := mkContract [] [] "" x00 [] 0 0 "".
Definition decode_contract (v : bytes) : Contract := match dec c_contract v with Ok c => c | _ => empty_contract end.
Definition GetAllContracts : St (list Contract) := let! l := rows CONTRACT_PREFIX in ret (map decode_contract l).
Definition store_version (key : bytes) (version : StateVersion) (v : bytes) : St unit := on_state (storeBytesWithVersion key version v).
Definition SaveContractJury (contractId : bytes) (jury : ElectionNode) (version : StateVersion) : St unit :=
  let! juryb := coded (enc c_jury jury) in store_version (CONTRACT_JURY_PREFIX ++ contractId) version juryb.
Definition GetContractJury_ (contractId : bytes) : St ElectionNode :=
  let! db := gets kv in
  match retrieveWithVersion (CONTRACT_JURY_PREFIX ++ contractId) db with
  | Ok (data, _) => coded (dec c_jury data)
  | Err e => throw (StateError e)
  | Panic => panic
  end.
Definition SaveContractWithJuryAddr (addr : Hash) (contract : Contract) : St unit :=
  StoreToRlpBytes c_contract (CONTRACT_JURY_PREFIX ++ addr ++ co_ContractId contract) contract.
Definition GetContractsWithJuryAddr (addr : Hash) : St (list Contract) :=
  let! l := rows (CONTRACT_JURY_PREFIX ++ addr) in ret (map decode_contract l).

Definition SaveContractDeployReq (reqid : bytes) (deploy : ContractDeployRequestPayload) : St unit :=
  StoreToRlpBytes c_deploy_req (CONTRACT_DEPLOY_REQ ++ reqid) deploy.
Definition GetContractDeployReq (reqId : bytes) : St ContractDeployRequestPayload := RetrieveFromRlpBytes c_deploy_req (CONTRACT_DEPLOY_REQ ++ reqId).
Definition SaveContractInvokeReq (reqid : bytes) (invoke : ContractInvokeRequestPayload) : St unit :=
  StoreToRlpBytes c_invoke_req (CONTRACT_INVOKE_REQ ++ reqid) invoke.
Definition GetContractInvokeReq (reqId : bytes) : St ContractInvokeRequestPayload := RetrieveFromRlpBytes c_invoke_req (CONTRACT_INVOKE_REQ ++ reqId).
Definition SaveContractStop (reqid : bytes) (stop : ContractStopPayload) : St unit := StoreToRlpBytes c_stop (CONTRACT_STOP ++ reqid) stop.
Definition GetContractStop (reqId : bytes) : St ContractStopPayload := RetrieveFromRlpBytes c_stop (CONTRACT_STOP ++ reqId).
Definition SaveContractStopReq (reqid : bytes) (stopr : ContractStopRequestPayload) : St unit := StoreToRlpBytes c_stop_req (CONTRACT_STOP_REQ ++ reqid) stopr.
Definition GetContractStopReq (reqId : bytes) : St ContractStopRequestPayload := RetrieveFromRlpBytes c_stop_req (CONTRACT_STOP_REQ ++ reqId).
Definition SaveContractSignature (reqid : bytes) (sig : SignaturePayload) : St unit := StoreToRlpBytes c_signature (CONTRACT_SIGNATURE ++ reqid) sig.
Definition GetContractSignature (reqId : bytes) : St SignaturePayload := RetrieveFromRlpBytes c_signature (CONTRACT_SIGNATURE ++ reqId).

(** ** statedb_tpl.go *)

Definition SaveContractTpl (tpl : ContractTemplate) : St unit := StoreToRlpBytes c_template (CONTRACT_TPL ++ TplId tpl) tpl.
Definition SaveContractTplCode (tplId byteCode : bytes) : St unit := Put (CONTRACT_TPL_CODE ++ tplId) byteCode.
Definition GetContractTpl (tplId : bytes) : St ContractTemplate := RetrieveFromRlpBytes c_template (CONTRACT_TPL ++ tplId).
Definition GetContractTplCode (tplId : bytes) : St bytes := Get (CONTRACT_TPL_CODE ++ tplId).

(** ** statedb_account.go *)

Definition accountKey (address : Address) : bytes := ACCOUNT_INFO_PREFIX ++ Address_Bytes address.
(** Through one batch: none is made if one of them panics. *)
Fixpoint account_writes (address : Address) (writeset : list AccountStateWriteSet) (version : StateVersion) (db : Db) : result db_error Db :=
  match writeset with
  | [] => Ok db
  | write :: writeset =>
      let key := accountKey address ++ string_bytes (as_Key write) in
      let? db := (if as_IsDelete write then Ok (delete key db) else storeBytesWithVersion key version (as_Value write) db) in
      account_writes address writeset version db
  end.
Definition SaveAccountStates (address : Address) (writeset : list AccountStateWriteSet) (version : StateVersion) : St unit :=
  on_state (account_writes address writeset version).
Definition SaveAccountState (address : Address) (write : AccountStateWriteSet) (version : StateVersion) : St unit :=
  SaveAccountStates address [write] version.
Definition GetAccountState (address : Address) (statekey : string) : St (bytes * StateVersion) :=
  let! db := gets kv in
  lift (match retrieveWithVersion (accountKey address ++ string_bytes statekey) db with Ok v => Ok v | Err e => Err (StateError e) | Panic => Panic end).
Definition GetAccountVotedMediators (addr : Address) : St (gmap string bool) :=
  fun s => match GetAccountState addr "VotedMediators" s with
           | (s, Ok (v, _)) => (s, Ok (default ∅ (vote_map v)))
           | (s, Err _) => (s, Ok ∅)
           | (s, Panic) => (s, Panic)
           end.

(** ** indexdb.go *)

Definition SaveAddressTxId (address : Address) (txid : Hash) : St unit := Put (ADDR_TXID_PREFIX ++ Address_Bytes address ++ txid) txid.
Definition as_hashes (l : list bytes) : list Hash := map (Rw.BytesToHash) l.
Definition GetAddressTxIds (address : Address) : St (list Hash) :=
  let! l := rows (ADDR_TXID_PREFIX ++ Address_Bytes address) in ret (as_hashes l).
Definition TruncateAddressTxIds : St unit :=
  modify (fun s => set_kv (filter (fun e => is_prefix ADDR_TXID_PREFIX e.1 = false) (kv s)) s).
Definition SaveTokenTxId (asset : Asset) (txid : Hash) : St unit := Put (TOKEN_TXID_PREFIX ++ Asset_Bytes asset ++ txid) txid.
Definition GetTokenTxIds (asset : Asset) : St (list Hash) := let! l := rows (TOKEN_TXID_PREFIX ++ Asset_Bytes asset) in ret (as_hashes l).
(** [Hash.String] *)
Definition hash_text (h : Hash) : bytes := string_bytes "0x" ++ string_bytes (hex_bytes h).
Definition SaveMainDataTxId (filehash : bytes) (txid : Hash) : St unit := Put (IDX_MAIN_DATA_TXID ++ filehash ++ hash_text txid) txid.
Definition GetMainDataTxIds (filehash : bytes) : St (list Hash) := let! l := rows (IDX_MAIN_DATA_TXID ++ filehash) in ret (as_hashes l).
Definition SaveProofOfExistence (poe : ProofOfExistence) : St unit :=
  if len (poe_Reference poe) =? 0 then ret tt
  else StoreToRlpBytes c_poe (IDX_REF_DATA_PREFIX ++ poe_Reference poe ++ TxId poe) poe.
Definition decode_poes (l : list bytes) : St (list ProofOfExistence) := coded (mapR (dec c_poe) l).
Definition QueryProofOfExistenceByReference (ref : bytes) : St (list ProofOfExistence) :=
  let! l := rows (IDX_REF_DATA_PREFIX ++ ref) in decode_poes l.

End Stores.
End Store.
