(* ===== verification/SaveUnit.v ===== *)
(** * Saving a unit

    src/dag/common/unit_repository.go: [SaveUnit] and what it does with each
    message of each transaction.  Every handler is a computation on the stores of
    UnitStore.v that keeps what it wrote before an error; the boolean a handler
    returns is its success.  The observers of system contracts are told through the
    list of events.  The switches of the indexes are the flags of dagconfig; whether
    the contract id of a deployment that has none is nil or empty depends on where the
    unit comes from, so it is a parameter. *)

From S2P Require Import Prelude Opcode Script Text Address AssetId Tx SigHash SigCache Engine TokenApi Unit ValPayment Schedule StateDb Ledger Mediators UnitStore.
From Stdlib Require Import ZArith Lia Bool.
Local Open Scope Z_scope.

Module Save.
Import State Store.

Record IndexFlags := mkFlags { AddrTxsIndex : bool; Token721TxIndex : bool; TextFileHashIndex : bool }.

(** [err == nil], as a boolean *)
Definition succeeds {A} (m : St A) : St bool :=
  fun s => match m s with (s, Ok _) => (s, Ok true) | (s, Err _) => (s, Ok false) | (s, Panic) => (s, Panic) end.
(** [if ok := m; !ok { return errors.New(msg) }] *)
Definition or_error (msg : string) (m : St bool) : St unit := let! ok := m in if ok : bool then ret tt else throw (SaveError msg).
Definition on_ledger {A} (m : L A) : St A :=
  fun s => let '(db, r) := m (ledger s) in
           (set_ledger db s, match r with Ok a => Ok a | Err e => Err (LedgerError e) | Panic => Panic end).
Definition on_mediators (m : ST Db Med.med_error unit) : St unit :=
  fun s => let '(db, r) := m (kv s) in
           (set_kv db s, match r with Ok a => Ok a | Err e => Err (MediatorError e) | Panic => Panic end).

Section Save.
Context `{N : Node} `{C : StoreCodecs} `{M : Med.MediatorLib}.
Variable flags : IndexFlags.
Variable nil_contract_id : bool.                 (* an empty contract id of a deployment is nil *)

(** ** Messages *)

Fixpoint index_tokens (txHash : Hash) (outputs : list Output) : St unit :=
  match outputs with
  | [] => ret tt
  | output :: outputs =>
      let! asset := get (out_Asset output) in
      (if beq (GetAssetType (AssetId asset)) x01 then SaveTokenTxId asset txHash else ret tt) ;;;
      index_tokens txHash outputs
  end.
Definition savePaymentPayload (unitTime : Z) (txHash : Hash) (msg : PaymentPayload) (msgIndex : Z) : St bool :=
  let! ok := succeeds (on_ledger (UpdateUtxo unitTime txHash msg msgIndex)) in
  if negb ok then ret false else
  (if Token721TxIndex flags then index_tokens txHash (Outputs msg) else ret tt) ;;;
  ret true.

Definition saveDataPayload (requester : Address) (unitHash : Hash) (unitHeight timestamp : Z) (txHash : Hash) (dataPayload : DataPayload) : St bool :=
  if TextFileHashIndex flags then
    succeeds (
      SaveMainDataTxId (MainData dataPayload) txHash ;;;
      if 0 <? len (Reference dataPayload) then
        SaveProofOfExistence (mkPoe (MainData dataPayload) (ExtraData dataPayload) (Reference dataPayload) unitHeight txHash unitHash (uint64 timestamp) requester)
      else ret tt)
  else ret true.

(** A system contract that ran without error is announced; the deposit contract may change a mediator. *)
Definition saveContractInvokePayload (tx : Transaction) (height : option ChainIndex) (txIndex : Z) (msg : Message) (reqIndex unitTime : Z) : St bool :=
  match Payload msg with
  | Some (PayInvoke payload) =>
      let version := mkVersion height txIndex in
      let! ok := succeeds (on_state (SaveContractStates (iv_ContractId payload) (iv_WriteSet payload) version)) in
      if negb ok then ret false else
      (if IsSystemContractId (iv_ContractId payload) && (Code (iv_ErrMsg payload) =? 0) then
         modify (add_event (mkEvent (iv_ContractId payload) (iv_WriteSet payload))) ;;;
         if negb (reqIndex =? -1) then
           let! msgs := lift (TxMessages tx) in
           let! req := get (index msgs reqIndex) in
           match Payload req with
           | Some (PayInvokeRequest invoke) => dropped (on_mediators (Med.UpdateStateByContractInvoke invoke unitTime version))
           | _ => panic
           end
         else ret tt
       else ret tt) ;;;
      ret true
  | _ => ret false
  end.

Fixpoint save_for_jurors (nodes : list ElectionInf) (contract : Contract) : St unit :=
  match nodes with
  | [] => ret tt
  | node :: nodes => SaveContractWithJuryAddr (el_AddrHash node) contract ;;; save_for_jurors nodes contract
  end.
Definition saveContractInitPayload (height : option ChainIndex) (txIndex : Z) (templateId : bytes) (payload : ContractDeployPayload)
    (requester : Address) (unitTime : Z) : St bool :=
  if nil_contract_id && (len (dp_ContractId payload) =? 0) then ret true else
  let version := mkVersion height txIndex in
  succeeds (
    (if 0 <? len (dp_WriteSet payload) then on_state (SaveContractStates (dp_ContractId payload) (dp_WriteSet payload) version) else ret tt) ;;;
    let! v := (if negb (len templateId =? 0) then let! temC := GetContractTpl templateId in ret (ct_Version temC) else ret ""%string) in
    let contract := NewContract templateId payload requester (uint64 unitTime) v in
    SaveContract contract ;;;
    if 0 <? len (EleList (dp_EleNode payload)) then
      SaveContractJury (dp_ContractId payload) (dp_EleNode payload) version ;;;
      save_for_jurors (EleList (dp_EleNode payload)) contract
    else ret tt).

Definition saveContractTpl (installReq : option ContractInstallRequestPayload) (tpl : ContractTplPayload) : St bool :=
  let! template := lift (NewContractTemplate installReq tpl) in
  succeeds (SaveContractTpl template ;;; SaveContractTplCode (tpl_TemplateId tpl) (ByteCode tpl)).

Definition saveContractDeployReq (reqid : bytes) (msg : Message) : St bool :=
  match Payload msg with Some (PayDeployRequest payload) => succeeds (SaveContractDeployReq reqid payload) | _ => ret false end.
Definition saveContractInvokeReq (reqid : bytes) (msg : Message) : St bool :=
  match Payload msg with Some (PayInvokeRequest invoke) => succeeds (SaveContractInvokeReq reqid invoke) | _ => ret false end.
Definition saveContractStopReq (reqid : bytes) (msg : Message) : St bool :=
  match Payload msg with Some (PayStopRequest stop) => succeeds (SaveContractStopReq reqid stop) | _ => ret false end.
Definition saveSignature (reqid : bytes) (msg : Message) : St bool :=
  match Payload msg with Some (PaySignature sig) => succeeds (SaveContractSignature reqid sig) | _ => ret false end.
Definition saveContractStop (reqid : bytes) (msg : Message) : St bool :=
  match Payload msg with
  | Some (PayStop stop) =>
      succeeds (
        SaveContractStop reqid stop ;;;
        let! contract := GetContract (st_ContractId stop) in
        SaveContract (set_Status x00 contract))
  | _ => ret false
  end.
Definition updateAccountInfo (msg : Message) (account : Address) (index : option ChainIndex) (txIdx : Z) : St unit :=
  match Payload msg with
  | Some (PayAccountUpdate accountUpdateOp) => SaveAccountStates account (au_WriteSet accountUpdateOp) (mkVersion index txIdx)
  | _ => throw (SaveError "not a valid AccountStateUpdatePayload")
  end.

(** ** Addresses of a transaction *)

(** The first message and its first input are read without a test. *)
Definition GetTxRequesterAddress (tx : Transaction) : St Address :=
  let! msgs := lift (TxMessages tx) in
  let! msg0 := get (index msgs 0) in
  if negb (App msg0 =? APP_PAYMENT) then throw (SaveError "Invalid Tx, first message must be a payment") else
  let! pay := lift (as_payment msg0) in
  let! in0 := get (index (Inputs pay) 0) in
  let! utxo := on_ledger (db_GetUtxoEntry (PreviousOutPoint in0)) in
  lift (match GetAddressFromScript (u_PkScript utxo) with Ok a => Ok a | Err _ => Err (SaveError "script") | Panic => Panic end).

Definition script_owner (script : bytes) : St Address := on_ledger (lock_address script).
Fixpoint pay_to (outputs : list Output) : St (gset Address) :=
  match outputs with
  | [] => ret ∅
  | out :: outputs => let! addr := script_owner (PkScript out) in let! l := pay_to outputs in ret ({[addr]} ∪ l)
  end.
Fixpoint pay_to_msgs (msgs : list Message) : St (gset Address) :=
  match msgs with
  | [] => ret ∅
  | msg :: msgs =>
      let! l := (if App msg =? APP_PAYMENT then let! pay := lift (as_payment msg) in pay_to (Outputs pay) else ret ∅) in
      let! l' := pay_to_msgs msgs in ret (l ∪ l')
  end.
Definition getPayToAddresses (tx : Transaction) : St (gset Address) := pay_to_msgs (Messages tx).

(** The script an input spends; [None] when the output is nowhere. *)
Definition spent_script (msgs : list Message) (o : OutPoint) : St (option bytes) :=
  let! db := gets ledger in
  match utxos db !! o with
  | Some utxo => ret (Some (u_PkScript utxo))
  | None =>
      match stxos db !! o with
      | Some stxo => ret (Some (st_PkScript stxo))
      | None =>
          if IsSelfHash (TxHash o) then
            let! msg := get (index msgs (MessageIndex o)) in
            let! pay := lift (as_payment msg) in
            let! out := get (index (Outputs pay) (OutIndex o)) in ret (Some (PkScript out))
          else ret None
      end
  end.
Fixpoint pay_from (msgs : list Message) (inputs : list Input) (acc : gset Address) : St (option (gset Address)) :=
  match inputs with
  | [] => ret (Some acc)
  | input :: inputs =>
      match PreviousOutPoint input with
      | None => pay_from msgs inputs acc
      | Some o =>
          let! lockScript := spent_script msgs o in
          match lockScript with
          | None => ret None
          | Some script => let! addr := script_owner script in pay_from msgs inputs ({[addr]} ∪ acc)
          end
      end
  end.
Fixpoint pay_from_msgs (all msgs : list Message) (acc : gset Address) : St (gset Address) :=
  match msgs with
  | [] => ret acc
  | msg :: msgs =>
      if App msg =? APP_PAYMENT then
        let! pay := lift (as_payment msg) in
        let! r := pay_from all (Inputs pay) acc in
        match r with None => ret ∅ | Some acc => pay_from_msgs all msgs acc end
      else pay_from_msgs all msgs acc
  end.
Definition getPayFromAddresses (tx : Transaction) : St (gset Address) :=
  let! msgs := lift (TxMessages tx) in pay_from_msgs msgs msgs ∅.

Fixpoint index_addresses (addresses : list Address) (txHash : Hash) : St unit :=
  match addresses with [] => ret tt | addr :: addresses => SaveAddressTxId addr txHash ;;; index_addresses addresses txHash end.
Fixpoint index_contracts (msgs : list Message) (txHash : Hash) : St unit :=
  match msgs with
  | [] => ret tt
  | msg :: msgs =>
      (if App msg =? APP_CONTRACT_INVOKE_REQUEST then
         match Payload msg with
         | Some (PayInvokeRequest invoke) => SaveAddressTxId (NewAddress (vr_ContractId invoke) ContractHash) txHash
         | _ => panic
         end
       else ret tt) ;;;
      index_contracts msgs txHash
  end.
Definition saveAddrTxIndex (txHash : Hash) (tx : Transaction) : St unit :=
  let! addresses := getPayToAddresses tx in
  index_addresses (elements addresses) txHash ;;;
  let! fromAddrs := getPayFromAddresses tx in
  index_addresses (elements fromAddrs) txHash ;;;
  index_contracts (Messages tx) txHash.

(** ** Transactions *)

(** What the messages of a transaction are handled with. *)
Record TxContext := mkContext {
  c_tx : Transaction; c_txHash : Hash; c_reqId : bytes; c_unitHash : Hash; c_unitHeight : Z; c_number : option ChainIndex; c_unitTime : Z;
  c_txIndex : Z; c_requester : Address; c_reqIndex : Z }.
(** The request to install a template and the template id of a request to deploy, once they have been met. *)
Record Pending := mkPending { installReq : option ContractInstallRequestPayload; templateId : bytes }.

Definition save_message (c : TxContext) (p : Pending) (msgIndex : Z) (msg : Message) : St Pending :=
  let app := App msg in
  if app =? APP_PAYMENT then
    let! pay := lift (as_payment msg) in
    or_error "Save payment payload error." (savePaymentPayload (c_unitTime c) (c_txHash c) pay (uint32 msgIndex)) ;;; ret p
  else if app =? APP_CONTRACT_TPL then
    match Payload msg with
    | Some (PayTpl tpl) => or_error "Save contract template error." (saveContractTpl (installReq p) tpl) ;;; ret p
    | _ => panic
    end
  else if app =? APP_CONTRACT_DEPLOY then
    match Payload msg with
    | Some (PayDeploy deploy) =>
        or_error "Save contract init payload error."
          (saveContractInitPayload (c_number c) (uint32 (c_txIndex c)) (templateId p) deploy (c_requester c) (c_unitTime c)) ;;; ret p
    | _ => panic
    end
  else if app =? APP_CONTRACT_INVOKE then
    or_error "save contract invode payload error"
      (saveContractInvokePayload (c_tx c) (c_number c) (uint32 (c_txIndex c)) msg (c_reqIndex c) (c_unitTime c)) ;;; ret p
  else if app =? APP_CONTRACT_STOP then or_error "save contract stop payload failed." (saveContractStop (c_reqId c) msg) ;;; ret p
  else if app =? APP_ACCOUNT_UPDATE then
    or_error "apply Account Updating Operation error" (succeeds (updateAccountInfo msg (c_requester c) (c_number c) (uint32 (c_txIndex c)))) ;;; ret p
  else if app =? APP_CONTRACT_TPL_REQUEST then
    match Payload msg with Some (PayTplRequest req) => ret (mkPending (Some req) (templateId p)) | _ => panic end
  else if app =? APP_CONTRACT_DEPLOY_REQUEST then
    or_error "save contract of deploy request failed." (saveContractDeployReq (c_reqId c) msg) ;;;
    match Payload msg with Some (PayDeployRequest req) => ret (mkPending (installReq p) (dr_TemplateId req)) | _ => panic end
  else if app =? APP_CONTRACT_STOP_REQUEST then
    or_error "save contract of stop request failed." (saveContractStopReq (c_reqId c) msg) ;;; ret p
  else if app =? APP_CONTRACT_INVOKE_REQUEST then
    or_error "save contract of invoke request failed." (saveContractInvokeReq (c_reqId c) msg) ;;; ret p
  else if app =? APP_SIGNATURE then or_error "save contract of signature failed." (saveSignature (c_reqId c) msg) ;;; ret p
  else if app =? APP_DATA then
    match Payload msg with
    | Some (PayData data) =>
        or_error "save data payload faild."
          (saveDataPayload (c_requester c) (c_unitHash c) (c_unitHeight c) (c_unitTime c) (c_txHash c) data) ;;; ret p
    | _ => panic
    end
  else throw (SaveError "Message type is not supported now").

(** The messages of an illegal transaction are handled up to its request. *)
Fixpoint save_messages (c : TxContext) (p : Pending) (msgIndex : Z) (msgs : list Message) : St unit :=
  match msgs with
  | [] => ret tt
  | msg :: msgs =>
      if Illegal (c_tx c) && (c_reqIndex c <? msgIndex) then ret tt else
      let! p := save_message c p msgIndex msg in save_messages c p (msgIndex + 1) msgs
  end.

(** The header of a unit, which must not be nil. *)
Definition header_of (unit : Unit) : St Header := get (UnitHeader unit).
Definition saveTx4Unit (unit : Unit) (txIndex : Z) (tx : Transaction) : St Datatypes.unit :=
  let! requester := (if 0 <? txIndex then GetTxRequesterAddress tx else ret zeroAddress) in
  let! txHash := coded (tx_Hash tx) in
  let! reqId := coded (tx_RequestHash tx) in
  let! h := header_of unit in
  let! unitHash := coded (unit_Hash h) in
  let! unitHeight := lift (NumberU64 h) in
  let unitTime := Timestamp h in
  let! msgs := lift (TxMessages tx) in
  save_messages (mkContext tx txHash reqId unitHash unitHeight (GetNumber h) unitTime txIndex requester (GetRequestMsgIndex tx))
    (mkPending None []) 0 msgs ;;;
  SaveTransaction tx ;;;
  SaveTxLookupEntry unitHash unitHeight (uint64 unitTime) txIndex tx ;;;
  if AddrTxsIndex flags then saveAddrTxIndex txHash tx else ret tt.

(** ** Units *)

(** An error of a transaction is logged; its hash goes into the body all the same. *)
Fixpoint save_txs (unit : Unit) (txIndex : Z) (txs : list Transaction) : St (list Hash) :=
  match txs with
  | [] => ret []
  | tx :: txs =>
      dropped (saveTx4Unit unit txIndex tx) ;;;
      let! txHash := coded (tx_Hash tx) in
      let! txHashSet := save_txs unit (txIndex + 1) txs in ret (txHash :: txHashSet)
  end.
Definition set_newest (uHash : Hash) (h : Header) : St Datatypes.unit :=
  fun s => match SetNewestUnit (E := store_error) uHash (GetNumber h) (Timestamp h) (props s) with
           | Ok p => (set_props p s, Ok tt)
           | Err e => (s, Err e)
           | Panic => (s, Panic)
           end.
Definition SaveUnit (unit : Unit) (isGenesis : bool) : St Datatypes.unit :=
  let! h := header_of unit in
  let! uHash := coded (unit_Hash h) in
  (fun s => match SaveHeader h s with (s, Err _) => (s, Err (SaveError "ErrUnit(-3)")) | r => r end) ;;;
  let! txHashSet := save_txs unit 0 (Txs unit) in
  SaveBody uHash txHashSet ;;;
  if isGenesis then dropped (set_newest uHash h) ;;; SaveGenesisUnitHash uHash else ret tt.

End Save.
End Save.
