(* ===== verification/SaveUnitProps.v ===== *)
(** * What a saved unit leaves in the stores

    Theorems on SaveUnit.v.  A computation on the stores is described by a frame:
    what it may do to the ledger and the prefixes of the keys it may write.  The
    frames compose, so every handler has one and the transactions, lookups, headers
    and bodies are seen to be written by nobody else. *)

From S2P Require Import Prelude Opcode Script Text Address AssetId Tx RlpModel TxProps SigHash SigCache Engine TokenApi Unit ValPayment ValPayProps ValTx ValUnit ValRules ValUnitProps Schedule Rwset StateDb Ledger LedgerProps Mediators UnitStore SaveUnit.
From Stdlib Require Import ZArith Lia Bool.
Local Open Scope Z_scope.
Import State Store Save.

#[local] Arguments string_bytes : simpl never.

(** ** Frames *)

Section Frames.
Variable R : relation UtxoDb.
Context `{!PreOrder R}.

Definition frame (ps : list bytes) {A} (m : St A) : Prop :=
  forall s, R (ledger s) (ledger (m s).1) /\ forall key, take 2 key ∉ ps -> kv (m s).1 !! key = kv s !! key.

Lemma frame_bind ps {A B} (m : St A) (k : A -> St B) : frame ps m -> (forall a, frame ps (k a)) -> frame ps (bind m k).
Proof.
  intros Hm Hk s. unfold bind. destruct (Hm s) as [R1 K1]. destruct (m s) as [s1 [a|e|]]; [|done..]. cbn [fst] in R1, K1.
  destruct (Hk a s1) as [R2 K2]. split; [by etransitivity|]. intros key Hkey. by rewrite K2, K1.
Qed.
Lemma frame_weaken ps ps' {A} (m : St A) : ps ⊆ ps' -> frame ps m -> frame ps' m.
Proof. intros Hs Hm s. destruct (Hm s) as [HR K]. split; [done|]. intros key Hkey. apply K. intros Hin. by apply Hkey, Hs. Qed.
(** Nothing changes. *)
Lemma frame_still ps {A} (m : St A) : (forall s, (m s).1 = s) -> frame ps m.
Proof. intros Hm s. by rewrite Hm. Qed.
Lemma frame_put ps key value : take 2 key ∈ ps -> frame ps (Put key value).
Proof. intros Hk s. split; [done|]. intros key' Hkey. cbn. apply lookup_insert_ne. by intros ->. Qed.
Lemma frame_succeeds ps {A} (m : St A) : frame ps m -> frame ps (succeeds m).
Proof. intros Hm s. unfold succeeds. destruct (Hm s) as [HR K]. by destruct (m s) as [s1 [a|e|]]. Qed.
Lemma frame_dropped ps {A} (m : St A) : frame ps m -> frame ps (dropped m).
Proof. intros Hm s. unfold dropped. destruct (Hm s) as [HR K]. by destruct (m s) as [s1 [a|e|]]. Qed.
Lemma frame_event ps e : frame ps (modify (add_event e)).
Proof. by intros s. Qed.
Lemma frame_state (ps : list bytes) (f : Db -> result db_error Db) :
  (forall db db', f db = Ok db' -> forall key, take 2 key ∉ ps -> db' !! key = db !! key) -> frame ps (on_state f).
Proof. intros Hf s. unfold on_state. destruct (f (kv s)) as [db|e|] eqn:E; [|done..]. split; [done|]. by apply Hf. Qed.
Lemma frame_mediators (ps : list bytes) (m : ST Db Med.med_error unit) :
  (forall db key, take 2 key ∉ ps -> (m db).1 !! key = db !! key) -> frame ps (on_mediators m).
Proof.
  intros Hm s. unfold on_mediators. specialize (Hm (kv s)). by destruct (m (kv s)) as [db r].
Qed.

End Frames.

(** The prefix of a key *)
Lemma take_prefix (p rest : bytes) : length p = 2%nat -> take 2 (p ++ rest) = p.
Proof. intros H. rewrite <- H. apply take_app_length. Qed.
Lemma state_key_prefix (id : bytes) (field : string) : take 2 (getContractStateKey id field) = CONTRACT_STATE_PREFIX.
Proof. unfold getContractStateKey. by rewrite take_prefix. Qed.

(** The prefixes of what the handlers of messages write. *)
Definition handled : list bytes :=
  [CONTRACT_STATE_PREFIX; CONTRACT_TPL; CONTRACT_TPL_CODE; CONTRACT_PREFIX; CONTRACT_TPL_INSTANCE_MAP; CONTRACT_JURY_PREFIX; CONTRACT_DEPLOY_REQ;
   CONTRACT_INVOKE_REQ; CONTRACT_STOP; CONTRACT_STOP_REQ; CONTRACT_SIGNATURE; ACCOUNT_INFO_PREFIX; TOKEN_TXID_PREFIX; IDX_MAIN_DATA_TXID;
   IDX_REF_DATA_PREFIX; Med.MEDIATOR_INFO_PREFIX].
(** [p] is one of a closed list of prefixes. *)
Ltac in_prefixes := rewrite ?state_key_prefix, ?take_prefix by done; apply (bool_decide_eq_true_1 (_ ∈ _)); vm_compute; reflexivity.

Create HintDb frames.
Ltac frames :=
  repeat first
    [ apply frame_bind; [tc_solve| |intros ?]
    | apply frame_put; [tc_solve|in_prefixes]
    | apply frame_succeeds | apply frame_dropped | apply frame_event; tc_solve
    | progress cbv zeta
    | solve [eauto 2 with frames nocore]
    | match goal with |- frame _ _ (if ?b then _ else _) => destruct b | |- frame _ _ (match ?x with _ => _ end) => destruct x end ].

Section Handlers.
Context `{N : Node} `{C : StoreCodecs} `{M : Med.MediatorLib}.
Variable R : relation UtxoDb.
Context `{!PreOrder R}.

Lemma frame_coded ps {A} (r : result tx_error A) : frame R ps (coded r).
Proof. by apply frame_still. Qed.
Lemma frame_get ps {A} (o : option A) : frame R ps (get (S := Store) o).
Proof. apply frame_still; [done|]. by intros s; destruct o. Qed.
Lemma frame_lift ps {A} (r : result store_error A) : frame R ps (lift r).
Proof. by apply frame_still. Qed.
Lemma frame_ret ps {A} (a : A) : frame R ps (ret (S := Store) a).
Proof. by apply frame_still. Qed.
Lemma frame_throw ps {A} (e : store_error) : frame R ps (throw (A := A) e).
Proof. by apply frame_still. Qed.
Lemma frame_panic ps {A} : frame R ps (panic (S := Store) (E := store_error) (A := A)).
Proof. by apply frame_still. Qed.
Lemma frame_gets ps {A} (f : Store -> A) : frame R ps (gets f).
Proof. by apply frame_still. Qed.
Lemma frame_Get ps key : frame R ps (Get key).
Proof. apply frame_still; [done|]. intros s. unfold Get, bind, gets. by destruct (kv s !! key). Qed.
#[local] Hint Resolve frame_coded frame_get frame_lift frame_ret frame_throw frame_panic frame_gets frame_Get : frames.

Lemma frame_owner ps script : frame R ps (script_owner script).
Proof. apply frame_still; [done|]. intros []. done. Qed.
#[local] Hint Resolve frame_owner : frames.

Lemma states_keys (ps : list bytes) id wset version : CONTRACT_STATE_PREFIX ∈ ps -> forall db db', SaveContractStates id wset version db = Ok db' ->
  forall key, take 2 key ∉ ps -> db' !! key = db !! key.
Proof.
  intros Hp. induction wset as [|w wset IH]; intros db db'; cbn; [by intros [= ->]|]. unfold SaveContractState, storeBytesWithVersion.
  assert (Hne : forall key : bytes, take 2 key ∉ ps -> getContractStateKey (write_target id w) (ws_Key w) <> key)
    by (intros key Hk <-; apply Hk; by rewrite state_key_prefix).
  destruct (ws_IsDelete w); cbn [rbind].
  - intros H key Hk. rewrite (IH _ _ H key Hk). by apply lookup_delete_ne, Hne.
  - destruct (StateVersion_Bytes version); cbn; try done. intros H key Hk. rewrite (IH _ _ H key Hk). by apply lookup_insert_ne, Hne.
Qed.
Lemma frame_states id wset version : frame R handled (on_state (SaveContractStates id wset version)).
Proof. apply frame_state; [done|]. apply states_keys. in_prefixes. Qed.
Lemma account_keys (ps : list bytes) address wset version : ACCOUNT_INFO_PREFIX ∈ ps -> forall db db', account_writes address wset version db = Ok db' ->
  forall key, take 2 key ∉ ps -> db' !! key = db !! key.
Proof.
  intros Hp. induction wset as [|w wset IH]; intros db db'; cbn; [by intros [= ->]|]. unfold storeBytesWithVersion.
  assert (Hne : forall key : bytes, take 2 key ∉ ps -> accountKey address ++ string_bytes (as_Key w) <> key).
  { intros key Hk <-. apply Hk. unfold accountKey. by rewrite <- app_assoc, take_prefix. }
  destruct (as_IsDelete w); cbn [rbind].
  - intros H key Hk. rewrite (IH _ _ H key Hk). by apply lookup_delete_ne, Hne.
  - destruct (StateVersion_Bytes version); cbn; try done. intros H key Hk. rewrite (IH _ _ H key Hk). by apply lookup_insert_ne, Hne.
Qed.
Lemma frame_account address wset version : frame R handled (SaveAccountStates address wset version).
Proof. apply frame_state; [done|]. apply account_keys. in_prefixes. Qed.
#[local] Hint Resolve frame_states frame_account : frames.

Lemma frame_index_tokens h outs : frame R handled (index_tokens h outs).
Proof. induction outs; cbn; frames. Qed.
Lemma frame_StoreToRlpBytes ps {A} (c : Codec A) key v : take 2 key ∈ ps -> frame R ps (StoreToRlpBytes c key v).
Proof. intros Hk. unfold StoreToRlpBytes. apply frame_bind; [tc_solve|frames|intros ?]. by apply frame_put. Qed.

Lemma frame_SaveContract (c : Contract) : frame R handled (SaveContract c).
Proof. unfold SaveContract, saveTplToContractMapping. frames. Qed.
#[local] Hint Resolve frame_index_tokens frame_SaveContract : frames.
Ltac stores := repeat first [progress frames | apply frame_StoreToRlpBytes; in_prefixes].

Lemma frame_data requester uh height t h p flags : frame R handled (saveDataPayload flags requester uh height t h p).
Proof. unfold saveDataPayload, SaveMainDataTxId, SaveProofOfExistence. stores. Qed.

Lemma mediator_keys (ps : list bytes) invoke t version : Med.MEDIATOR_INFO_PREFIX ∈ ps -> CONTRACT_STATE_PREFIX ∈ ps ->
  forall db key, take 2 key ∉ ps -> (Med.UpdateStateByContractInvoke invoke t version db).1 !! key = db !! key.
Proof.
  intros Hm Hc db key Hk.
  assert (Hkm : forall a, Med.GetMmediatorKey a <> key) by (intros a <-; apply Hk; unfold Med.GetMmediatorKey; by rewrite take_prefix).
  assert (Hkc : forall id w, getContractStateKey id w <> key) by (intros id w <-; apply Hk; by rewrite state_key_prefix).
  assert (Hst : forall a mi (d : Db), (Med.StoreMediatorInfo a mi d).1 !! key = d !! key).
  { intros a mi d. unfold Med.StoreMediatorInfo. destruct (enc _ _); cbn; [|done..]. by apply lookup_insert_ne. }
  assert (Hst' : forall a mi (d : Db), (match Med.StoreMediatorInfo a mi d with (d, Panic) => (d, Panic) | (d, _) => (d, Ok tt) end :
    Db * result Med.med_error unit).1 !! key = d !! key) by (intros a mi d; rewrite <- (Hst a mi d); by destruct (Med.StoreMediatorInfo a mi d) as [d' [| |]]).
  unfold Med.UpdateStateByContractInvoke. case_bool_decide; [|done]. unfold bind, get. destruct (index _ 0) as [name|]; [|done]. cbn [ret].
  destruct (bytes_equal name Med.ApplyMediator); [|destruct (bytes_equal name Med.UpdateMediatorInfo); [|done]].
  - destruct (index _ 1) as [arg|]; [|done]. cbn [ret]. unfold Med.apply_mediator. destruct (Med.unmarshal_create arg) as [mco|]; [|done].
    destruct mco as [mco|]; [|done]. unfold bind, get. cbn [ret]. destruct (Med.find_old _) as [pubKey|].
    + unfold lift. destruct (Med.json_Validate _ _) as [jde|e|]; [|done..]. destruct (Med.marshal_juror _) as [j|]; [|done].
      unfold Med.save_state, SaveContractState, storeBytesWithVersion. cbn [ws_IsDelete].
      destruct (StateVersion_Bytes version) as [vb|e|]; cbn; [|done..].
      destruct (Med.StrToMedAdd _) as [a|e|]; [rewrite Hst'|..]; by apply lookup_insert_ne.
    + unfold lift, ret. by destruct (Med.StrToMedAdd _) as [a|e|].
  - destruct (index _ 1) as [arg|]; [|done]. cbn [ret]. unfold Med.update_mediator. destruct (Med.unmarshal_update arg) as [mua|]; [|done].
    unfold bind, lift. destruct (Med.mua_Validate mua) as [a|e|]; [|done..]. unfold Med.RetrieveMediatorInfo, bind, gets.
    destruct (id db !! _) as [b|]; [|done]. destruct (dec _ b) as [mi|e|]; [|done..].
    cbn [ret]. apply Hst'.
Qed.
Lemma frame_invoke tx height i msg reqIndex t : frame R handled (saveContractInvokePayload tx height i msg reqIndex t).
Proof. unfold saveContractInvokePayload. frames. apply frame_mediators; [done|]. intros db key. apply mediator_keys; in_prefixes. Qed.
Lemma frame_jurors nodes c : frame R handled (save_for_jurors nodes c).
Proof. induction nodes; cbn; unfold SaveContractWithJuryAddr; stores. Qed.
Lemma frame_version key version v : take 2 key ∈ handled -> frame R handled (store_version key version v).
Proof.
  intros Hin. apply frame_state; [done|]. intros db db'. unfold storeBytesWithVersion. destruct (StateVersion_Bytes version); cbn; [|done..].
  intros [= <-] key' Hk. apply lookup_insert_ne. by intros ->.
Qed.
#[local] Hint Resolve frame_jurors : frames.
Lemma frame_init nil height i tid p requester t : frame R handled (saveContractInitPayload nil height i tid p requester t).
Proof. unfold saveContractInitPayload, GetContractTpl, RetrieveFromRlpBytes, SaveContractJury. stores. apply frame_version. in_prefixes. Qed.
Lemma frame_tpl req tpl : frame R handled (saveContractTpl req tpl).
Proof. unfold saveContractTpl, SaveContractTpl, SaveContractTplCode. stores. Qed.
Lemma frame_stop reqid msg : frame R handled (saveContractStop reqid msg).
Proof. unfold saveContractStop, SaveContractStop, GetContract, RetrieveFromRlpBytes. stores. Qed.
Lemma frame_requests reqid msg : frame R handled (saveContractDeployReq reqid msg) /\ frame R handled (saveContractInvokeReq reqid msg) /\
  frame R handled (saveContractStopReq reqid msg) /\ frame R handled (saveSignature reqid msg).
Proof.
  unfold saveContractDeployReq, saveContractInvokeReq, saveContractStopReq, saveSignature, SaveContractDeployReq, SaveContractInvokeReq,
    SaveContractStopReq, SaveContractSignature. split_and!; stores.
Qed.
Lemma frame_or_error ps e m : frame R ps m -> frame R ps (or_error e m).
Proof. intros H. unfold or_error. frames. Qed.
Lemma frame_info msg a n i : frame R handled (updateAccountInfo msg a n i).
Proof. unfold updateAccountInfo. frames. Qed.

(** What a message other than a payment does. *)
Lemma frame_message flags nil c p i msg : App msg <> APP_PAYMENT -> frame R handled (save_message flags nil c p i msg).
Proof.
  intros Hp. unfold save_message. cbv zeta. rewrite (proj2 (Z.eqb_neq _ _) Hp). destruct (frame_requests (c_reqId c) msg) as (F1 & F2 & F3 & F4).
  repeat (first [ apply frame_bind; [tc_solve|apply frame_or_error|intros ?]
                | solve [eauto 3 using frame_data, frame_invoke, frame_init, frame_tpl, frame_stop, frame_succeeds, frame_info with frames nocore]
                | case_match ]).
Qed.

End Handlers.

(** *** Payments and whole transactions *)

(** Nothing is said of the ledger. *)
Definition any : relation UtxoDb := fun _ _ => True.
#[export] Instance any_preorder : PreOrder any.
Proof. by split. Qed.

Section Transactions.
Context `{N : Node} `{C : StoreCodecs} `{M : Med.MediatorLib}.
Variable flags : IndexFlags.
Variable nil_contract_id : bool.
#[local] Hint Resolve frame_coded frame_get frame_lift frame_ret frame_throw frame_panic frame_gets frame_Get frame_owner frame_index_tokens any_preorder : frames.

Lemma bind_run {A B} (m : St A) (k : A -> St B) s s' r : bind m k s = (s', r) -> r <> Panic ->
  (exists s1 a, m s = (s1, Ok a) /\ k a s1 = (s', r)) \/ (exists e, m s = (s', Err e) /\ r = Err e).
Proof. unfold bind. destruct (m s) as [s1 [a|e|]]; intros E Hr; [eauto| |congruence]. injection E as <- <-. eauto. Qed.

Lemma bind_ext {A B} (m : St A) (k k' : A -> St B) s : (forall a s1, k a s1 = k' a s1) -> bind m k s = bind m k' s.
Proof. intros H. unfold bind. destruct (m s) as [s1 [a|e|]]; [apply H|done..]. Qed.

Lemma frame_payment t h pay i : frame any handled (savePaymentPayload flags t h pay i).
Proof.
  unfold savePaymentPayload. apply frame_bind; [tc_solve| |intros ok; frames]. apply frame_succeeds. intros s. unfold on_ledger.
  by destruct (UpdateUtxo _ _ _ _ _).
Qed.
Lemma message_keys c p i msg : frame any handled (save_message flags nil_contract_id c p i msg).
Proof.
  destruct (decide (App msg = APP_PAYMENT)) as [E|E]; [|apply frame_message; [tc_solve|done]].
  unfold save_message. rewrite E. cbv zeta. change (APP_PAYMENT =? APP_PAYMENT) with true. cbv iota.
  apply frame_bind; [tc_solve|frames|intros pay]. apply frame_bind; [tc_solve| |intros ?; frames]. apply frame_or_error; [tc_solve|]. apply frame_payment.
Qed.
Lemma messages_keys c msgs : forall p i, frame any handled (save_messages flags nil_contract_id c p i msgs).
Proof.
  induction msgs as [|m msgs IH]; intros p i; cbn; [frames|]. case_match; [frames|]. apply frame_bind; [tc_solve|apply message_keys|intros ?]. apply IH.
Qed.

(** The ledger after a message: one payment at most. *)
Definition paid (t : Z) (h : Hash) (i : Z) (pay : PaymentPayload) (db db' : UtxoDb) : Prop :=
  exists r, UpdateUtxo t h pay i db = (db', r) /\ r <> Panic.
Lemma message_ledger c p i msg s s' r : save_message flags nil_contract_id c p i msg s = (s', r) -> r <> Panic ->
  ledger s' = ledger s \/
  exists pay, Payload msg = Some (PayPayment pay) /\ paid (c_unitTime c) (c_txHash c) (uint32 i) pay (ledger s) (ledger s').
Proof.
  intros E Hr. destruct (decide (App msg = APP_PAYMENT)) as [Ha|Ha].
  2: { left. destruct (frame_message eq flags nil_contract_id c p i msg Ha s) as [HR _]. rewrite E in HR. by symmetry. }
  unfold save_message in E. rewrite Ha in E. cbv zeta in E. change (APP_PAYMENT =? APP_PAYMENT) with true in E. cbv iota in E.
  unfold bind at 1, lift, as_payment in E. destruct (Payload msg) as [[pay| | | | | | | | | | |]|]; try (by injection E as <- <-).
  right. exists pay. split; [done|]. destruct (UpdateUtxo (c_unitTime c) (c_txHash c) pay (uint32 i) (ledger s)) as [db r0] eqn:Eu. exists r0.
  unfold or_error, savePaymentPayload, succeeds, on_ledger, bind in E. rewrite Eu in E.
  destruct r0 as [[]|e|]; [|injection E as <- <-; done|by injection E as <- <-]. cbn [negb] in E. split; [|done]. rewrite Eu. f_equal.
  destruct (Token721TxIndex flags); [|by injection E as <- <-].
  destruct (frame_index_tokens eq (c_txHash c) (Outputs pay) (set_ledger db s)) as [HR _].
  destruct (index_tokens (c_txHash c) (Outputs pay) (set_ledger db s)) as [s1 [[]|e|]]; cbn in *; by injection E as <- <-.
Qed.

(** *** New outputs *)

Lemma creates_unused db l db' o : creates db l db' -> o ∉ map fst l -> unused o db -> unused o db'.
Proof.
  induction 1 as [db|db o' u l db' _ IH]; [done|]. cbn [map fst]. rewrite not_elem_of_cons. intros [Hne Ho] [H1 H2]. apply IH; [done|]. split.
  - by rewrite created_utxos, lookup_insert_ne.
  - assert (stxos (created_db o' u db) = stxos db) as -> by (unfold created_db; by destruct (is_gas u)). done.
Qed.
Lemma paid_unused t h i pay db db' o : paid t h i pay db db' -> (TxHash o, MessageIndex o) <> (h, i) -> unused o db -> unused o db'.
Proof.
  intros (r & E & Hr) Hne Hu. destruct (update_effect _ _ _ _ _ _ _ E Hr) as (l & db1 & Hs & Hc & He). apply (spends_unused _ _ _ _ _ _ Hs) in Hu.
  destruct r as [[]|e|]; [|by rewrite He|done]. destruct (Hc eq_refl) as [_ Hc']. eapply creates_unused; [exact Hc'| |done].
  intros Hin. apply new_entries_in in Hin as (j & -> & _). by apply Hne.
Qed.

(** A transaction that has made no output yet, from message [i] on. *)
Definition unmade (h : Hash) (i : Z) (db : UtxoDb) : Prop := forall j, i <= j < 2 ^ 32 -> fresh h j db.
(** Payments have fewer than 2^32 outputs. *)
Definition sized (m : Message) : Prop := match Payload m with Some (PayPayment p) => len (Outputs p) <= 2 ^ 32 | _ => True end.

Lemma messages_ledger c msgs : forall p i s s' r, save_messages flags nil_contract_id c p i msgs s = (s', r) -> r <> Panic -> 0 <= i ->
  i + len msgs <= 2 ^ 32 -> Forall sized msgs -> ledger_reachable (ledger s) -> unmade (c_txHash c) i (ledger s) ->
  ledger_reachable (ledger s') /\ (forall h, h <> c_txHash c -> unmade h 0 (ledger s) -> unmade h 0 (ledger s')).
Proof.
  induction msgs as [|m msgs IH]; intros p i s s' r E Hr Hi Hl Hs Hok Hu; cbn in E; [by injection E as <- <-|].
  rewrite len_cons in Hl. pose proof (len_nonneg msgs). apply Forall_cons in Hs as [Hm Hs].
  destruct (Illegal (c_tx c) && (c_reqIndex c <? i)); [by injection E as <- <-|].
  assert (Step : forall s1 r1, save_message flags nil_contract_id c p i m s = (s1, r1) -> r1 <> Panic ->
    ledger_reachable (ledger s1) /\ unmade (c_txHash c) (i + 1) (ledger s1) /\ (forall h, h <> c_txHash c -> unmade h 0 (ledger s) -> unmade h 0 (ledger s1))).
  { intros s1 r1 E1 Hr1. destruct (message_ledger _ _ _ _ _ _ _ E1 Hr1) as [->|(pay & Hp & Hpaid)].
    - split_and!; try done. intros j Hj. apply Hu. lia.
    - assert (Hw : uint32 i = i) by (unfold uint32, wrapU; apply Z.mod_small; lia). rewrite Hw in Hpaid. split_and!.
      + destruct Hpaid as (r0 & E0 & Hr0). eapply ledger_payment; [exact Hok| | |exact E0|done]; [apply Hu; lia|].
        unfold sized in Hm. by rewrite Hp in Hm.
      + intros j Hj k. eapply paid_unused; [exact Hpaid| |apply Hu; lia]. cbn. intros [= ?]. lia.
      + intros h Hne Hh j Hj k. eapply paid_unused; [exact Hpaid| |by apply Hh]. cbn. by intros [= ?]. }
  destruct (bind_run _ _ _ _ _ E Hr) as [(s1 & p1 & E1 & E2)|(e & E1 & ->)].
  - destruct (Step _ _ E1) as (H1 & H2 & H3); [done|]. destruct (IH _ _ _ _ _ E2 Hr) as [H4 H5]; [lia|lia|done..|]. split; [done|].
    intros h Hne Hh. by apply H5, H3.
  - by destruct (Step _ _ E1) as (H1 & H2 & H3).
Qed.

(** *** What saves a transaction besides its messages *)

Definition requested : list bytes := [TRANSACTION_PREFIX; REQID_TXID_PREFIX].
(** Computations that never fail with an error. *)
Definition no_error {A} (m : St A) : Prop := forall s s' e, m s <> (s', Err e).
Lemma no_error_bind {A B} (m : St A) (k : A -> St B) : no_error m -> (forall a, no_error (k a)) -> no_error (bind m k).
Proof.
  intros Hm Hk s s' e E. unfold bind in E. destruct (m s) as [s1 [a|e1|]] eqn:E1; [by apply Hk in E| |done]. by apply Hm in E1.
Qed.
Lemma no_error_owner script : no_error (script_owner script).
Proof. intros s s' e. unfold script_owner, on_ledger. destruct (lock_address_inv script (ledger s)) as [-> | ->]; done. Qed.
Lemma no_error_still {A} (o : option A) : no_error (get o).
Proof. intros s s' e. by destruct o. Qed.
Lemma no_error_payment m : no_error (lift (as_payment m)).
Proof. intros s s' e. unfold lift, as_payment. by destruct (Payload m) as [[]|]. Qed.
Lemma no_error_ret {A} (a : A) : no_error (ret a).
Proof. by intros s s' e. Qed.
Ltac errless := repeat first
  [ apply no_error_bind; [|intros ?] | apply no_error_owner | apply no_error_still | apply no_error_payment | apply no_error_ret | by intros ? ? ? | case_match ].
Lemma no_error_index_addresses l h : no_error (index_addresses l h).
Proof. induction l; cbn; errless; try done. Qed.
Lemma no_error_index_contracts msgs h : no_error (index_contracts msgs h).
Proof. induction msgs; cbn; errless; try done. Qed.
Lemma no_error_pay_to outs : no_error (pay_to outs).
Proof. induction outs; cbn; errless; try done. Qed.
Lemma no_error_pay_to_msgs msgs : no_error (pay_to_msgs msgs).
Proof. induction msgs; cbn; errless; try first [apply no_error_pay_to|done]. Qed.
Lemma no_error_pay_from all ins : forall acc, no_error (pay_from all ins acc).
Proof.
  induction ins as [|i ins IH]; intros acc; cbn; [errless|]. destruct (PreviousOutPoint i); [|done]. apply no_error_bind; [|intros [script|]; errless; done].
  unfold spent_script. errless.
Qed.
Lemma no_error_pay_from_msgs all msgs : forall acc, no_error (pay_from_msgs all msgs acc).
Proof. induction msgs as [|m msgs IH]; intros acc; cbn; [errless|]. case_match; [|done]. errless; try first [apply no_error_pay_from|done]. Qed.
Lemma no_error_index h tx : Forall complete (Messages tx) -> no_error (saveAddrTxIndex h tx).
Proof.
  intros Hc. unfold saveAddrTxIndex, getPayToAddresses, getPayFromAddresses. rewrite (TxMessages_id _ Hc).
  errless; eauto using no_error_pay_to_msgs, no_error_index_addresses, no_error_pay_from_msgs, no_error_index_contracts.
Qed.

Section Quiet.
Variable R : relation UtxoDb.
Context `{!PreOrder R}.
Lemma frame_addresses l h : frame R [ADDR_TXID_PREFIX] (index_addresses l h).
Proof. induction l; cbn; unfold SaveAddressTxId; frames. Qed.
Lemma frame_contracts msgs h : frame R [ADDR_TXID_PREFIX] (index_contracts msgs h).
Proof. induction msgs; cbn; unfold SaveAddressTxId; frames. Qed.
Lemma frame_pay_to ps outs : frame R ps (pay_to outs).
Proof. induction outs; cbn; frames. Qed.
Lemma frame_pay_to_msgs ps msgs : frame R ps (pay_to_msgs msgs).
Proof. induction msgs; cbn; frames. apply frame_pay_to. Qed.
Lemma frame_spent_script ps msgs o : frame R ps (spent_script msgs o).
Proof. unfold spent_script. frames. Qed.
Lemma frame_pay_from ps all ins : forall acc, frame R ps (pay_from all ins acc).
Proof. induction ins; intros acc; cbn; frames; try first [apply frame_spent_script|done]. Qed.
Lemma frame_pay_from_msgs ps all msgs : forall acc, frame R ps (pay_from_msgs all msgs acc).
Proof. induction msgs; intros acc; cbn; frames; try first [apply frame_pay_from|done]. Qed.
Lemma frame_addr_index h tx : frame R [ADDR_TXID_PREFIX] (saveAddrTxIndex h tx).
Proof.
  unfold saveAddrTxIndex, getPayToAddresses, getPayFromAddresses.
  frames; eauto using frame_pay_to_msgs, frame_addresses, frame_pay_from_msgs, frame_contracts.
Qed.
Lemma frame_requester tx : frame R [] (GetTxRequesterAddress tx).
Proof.
  assert (Hg : forall o, frame R [] (on_ledger (db_GetUtxoEntry o))).
  { intros o. apply frame_still; [done|]. intros [l ? ? ?]. unfold on_ledger, db_GetUtxoEntry, bind, gets. destruct o as [o|]; [|done].
    cbn. by destruct (utxos l !! o). }
  unfold GetTxRequesterAddress. frames; try apply Hg.
Qed.
Lemma frame_transaction tx : frame R requested (SaveTransaction tx).
Proof. unfold SaveTransaction, saveReqIdByTx. frames. Qed.
Lemma frame_lookup uh height t i tx : frame R [LOOKUP_PREFIX] (SaveTxLookupEntry uh height t i tx).
Proof. unfold SaveTxLookupEntry. frames. Qed.
End Quiet.

(** *** One transaction *)

Lemma frame_at R ps {A} (m : St A) s s' r key : frame R ps m -> m s = (s', r) -> take 2 key ∉ ps -> kv s' !! key = kv s !! key.
Proof. intros Hf E Hk. destruct (Hf s) as [_ K]. rewrite E in K. by apply K. Qed.
Lemma SaveTransaction_run tx h s s' r : tx_Hash tx = Ok h -> SaveTransaction tx s = (s', r) -> r <> Panic ->
  (exists b, EncodeRLP (txdata tx) = Ok b /\ r = Ok tt /\
     forall key, take 2 key <> REQID_TXID_PREFIX -> kv s' !! key = <[TRANSACTION_PREFIX ++ h := b]> (kv s) !! key) \/
  (s' = s /\ exists e, r = Err e).
Proof.
  intros Hh E Hr. unfold SaveTransaction in E. rewrite Hh in E. cbn [bind coded lift] in E.
  destruct (EncodeRLP (txdata tx)) as [b|e|]; cbn in E; [left|right; injection E as <- <-; eauto|by injection E as <- <-].
  exists b. split; [done|]. destruct (IsContractTx tx); [|by injection E as <- <-].
  set (s1 := set_kv _ s) in E. assert (F : frame any [REQID_TXID_PREFIX] (saveReqIdByTx tx)) by (unfold saveReqIdByTx; frames).
  destruct (saveReqIdByTx tx s1) as [s2 r2] eqn:E2. unfold dropped in E. rewrite E2 in E.
  assert (K : forall key, take 2 key <> REQID_TXID_PREFIX -> kv s2 !! key = kv s1 !! key).
  { intros key Hk. eapply frame_at; [exact F|exact E2|]. by intros ?%list_elem_of_singleton. }
  destruct r2 as [[]|e|]; injection E as <- <-; done.
Qed.
Lemma SaveTxLookupEntry_run uh n t i tx h s s' r : tx_Hash tx = Ok h -> (forall v, exists b, enc c_lookup v = Ok b) ->
  SaveTxLookupEntry uh n t i tx s = (s', r) ->
  exists b, enc c_lookup (mkLookup uh n (uint64 i) t) = Ok b /\ r = Ok tt /\ kv s' = <[LOOKUP_PREFIX ++ h := b]> (kv s) /\ ledger s' = ledger s.
Proof.
  intros Hh Hl E. destruct (Hl (mkLookup uh n (uint64 i) t)) as [b Hb]. exists b. split; [done|].
  unfold SaveTxLookupEntry, StoreToRlpBytes in E. rewrite Hh in E. cbn in E. rewrite Hb in E. cbn in E. by injection E as <- <-.
Qed.

(** The rows of a transaction in a store: its bytes and where it is. *)
Definition stored (uh : Hash) (n t i : Z) (tx : Transaction) (h : Hash) (db : Db) : Prop :=
  exists b lb, EncodeRLP (txdata tx) = Ok b /\ db !! (TRANSACTION_PREFIX ++ h) = Some b /\
    enc c_lookup (mkLookup uh n (uint64 i) (uint64 t)) = Ok lb /\ db !! (LOOKUP_PREFIX ++ h) = Some lb.

(** A unit and what is read of its header. *)
Record unit_facts (unit : Unit) (hd : Header) (uh : Hash) (n : Z) : Prop := {
  uf_header : UnitHeader unit = Some hd; uf_hash : unit_Hash hd = Ok uh; uf_number : NumberU64 (E := store_error) hd = Ok n }.
Lemma saveTx_unfold unit hd uh n i tx h s : unit_facts unit hd uh n -> tx_Hash tx = Ok h -> Forall complete (Messages tx) ->
  saveTx4Unit flags nil_contract_id unit i tx s =
  bind (if 0 <? i then GetTxRequesterAddress tx else ret zeroAddress) (fun requester =>
    bind (coded (tx_RequestHash tx)) (fun reqId =>
      save_messages flags nil_contract_id (mkContext tx h reqId uh n (GetNumber hd) (Timestamp hd) i requester (GetRequestMsgIndex tx)) (mkPending None []) 0 (Messages tx) ;;;
      SaveTransaction tx ;;;
      SaveTxLookupEntry uh n (uint64 (Timestamp hd)) i tx ;;;
      if AddrTxsIndex flags then saveAddrTxIndex h tx else ret tt)) s.
Proof.
  intros [Hu Huh Hn] Hh Hc. unfold saveTx4Unit, header_of. apply bind_ext. intros req s1. rewrite Hu, Hh. unfold bind, coded, lift, get. cbn.
  rewrite Huh, Hn, (TxMessages_id _ Hc). cbn. by destruct (tx_RequestHash tx).
Qed.

Lemma saveTx_run unit hd uh n i tx h s s' r : unit_facts unit hd uh n ->
  tx_Hash tx = Ok h -> Forall complete (Messages tx) -> (forall v, exists b, enc c_lookup v = Ok b) ->
  saveTx4Unit flags nil_contract_id unit i tx s = (s', r) -> r <> Panic ->
  (r = Ok tt -> stored uh n (Timestamp hd) i tx h (kv s')) /\
  (r <> Ok tt -> kv s' !! (TRANSACTION_PREFIX ++ h) = kv s !! (TRANSACTION_PREFIX ++ h)).
Proof.
  intros Hf Hh Hc Hl E Hr. rewrite (saveTx_unfold _ _ _ _ _ _ _ _ Hf Hh Hc) in E.
  set (key := TRANSACTION_PREFIX ++ h). assert (Hk : forall ps : list bytes, TRANSACTION_PREFIX ∉ ps -> take 2 key ∉ ps) by (intros ps; unfold key; by rewrite take_prefix).
  apply bind_run in E as [(s0 & req & E0 & E)|(e & E0 & ->)]; [| |done].
  2: { split; [done|]. intros _. refine (frame_at any [] _ _ _ _ _ _ E0 _); [|by intros ?%elem_of_nil].
       destruct (0 <? i); [apply frame_requester; tc_solve|by apply frame_still]. }
  assert (K0 : kv s0 !! key = kv s !! key).
  { refine (frame_at any [] _ _ _ _ _ _ E0 _); [|by intros ?%elem_of_nil]. destruct (0 <? i); [apply frame_requester; tc_solve|by apply frame_still]. }
  apply bind_run in E as [(s1 & q & E1 & E)|(e & E1 & ->)]; [| |done].
  2: { split; [done|]. intros _. rewrite <- K0. injection E1 as <- _. done. }
  assert (s1 = s0) as -> by by injection E1.
  apply bind_run in E as [(s2 & [] & E2 & E)|(e & E2 & ->)]; [| |done].
  2: { split; [done|]. intros _. rewrite <- K0. refine (frame_at any handled _ _ _ _ _ _ E2 _); [apply messages_keys|apply Hk]. by apply (bool_decide_eq_false_1 (_ ∈ _)). }
  assert (K2 : kv s2 !! key = kv s !! key).
  { rewrite <- K0. refine (frame_at any handled _ _ _ _ _ _ E2 _); [apply messages_keys|apply Hk]. by apply (bool_decide_eq_false_1 (_ ∈ _)). }
  apply bind_run in E as [(s3 & [] & E3 & E)|(e & E3 & ->)]; [| |done].
  2: { split; [done|]. intros _. rewrite <- K2. destruct (SaveTransaction_run _ _ _ _ _ Hh E3) as [(b & _ & ? & _)|[-> _]]; done. }
  destruct (SaveTransaction_run _ _ _ _ _ Hh E3) as [(b & Hb & _ & K3)|[_ [e ?]]]; [done| |done].
  apply bind_run in E as [(s4 & [] & E4 & E)|(e & E4 & ->)]; [| |done].
  2: { by destruct (SaveTxLookupEntry_run _ _ _ _ _ _ _ _ _ Hh Hl E4) as (lb & _ & ? & _). }
  destruct (SaveTxLookupEntry_run _ _ _ _ _ _ _ _ _ Hh Hl E4) as (lb & Hlb & _ & K4 & _).
  assert (K5 : forall key, take 2 key ∉ [ADDR_TXID_PREFIX] -> kv s' !! key = kv s4 !! key).
  { intros key' Hk'. destruct (AddrTxsIndex flags); [|by injection E as <- <-]. refine (frame_at any _ _ _ _ _ _ _ E Hk'). apply frame_addr_index; tc_solve. }
  assert (r = Ok tt) as ->.
  { destruct (AddrTxsIndex flags); [|by injection E as <- <-]. destruct r as [[]|e|]; [done| |done]. by apply (no_error_index _ _ Hc) in E. }
  split; [|done]. intros _. exists b, lb. split_and!; [done| |done|].
  - rewrite K5, K4, lookup_insert_ne; [|done|by rewrite take_prefix; [apply (bool_decide_eq_false_1 (_ ∈ _))|]]. rewrite K3 by by rewrite take_prefix. apply lookup_insert_eq.
  - rewrite K5, K4 by (by rewrite take_prefix; [apply (bool_decide_eq_false_1 (_ ∈ _))|]). apply lookup_insert_eq.
Qed.

(** The keys a transaction may write *)
Definition writable (h : Hash) (key : bytes) : Prop :=
  take 2 key ∈ REQID_TXID_PREFIX :: ADDR_TXID_PREFIX :: handled \/ key = TRANSACTION_PREFIX ++ h \/ key = LOOKUP_PREFIX ++ h.
Definition writes (P : bytes -> Prop) {A} (m : St A) : Prop := forall s key, ~ P key -> kv (m s).1 !! key = kv s !! key.
Lemma writes_bind P {A B} (m : St A) (k : A -> St B) : writes P m -> (forall s s1 a, m s = (s1, Ok a) -> writes P (k a)) -> writes P (bind m k).
Proof.
  intros Hm Hk s key HP. specialize (Hm s key HP). unfold bind. destruct (m s) as [s1 [a|e|]] eqn:E; [|done..]. cbn [fst] in Hm. rewrite <- Hm. by eapply Hk.
Qed.
Lemma frame_writes ps h {A} (m : St A) : frame any ps m -> ps ⊆ REQID_TXID_PREFIX :: ADDR_TXID_PREFIX :: handled -> writes (writable h) m.
Proof. intros Hf Hs s key HP. apply Hf. intros Hin. apply HP. left. by apply Hs. Qed.
Lemma writes_own (P : bytes -> Prop) key v : P key -> writes P (Put key v).
Proof. intros HP s key' Hk. cbn. apply lookup_insert_ne. by intros <-. Qed.
Lemma writes_coded P {A} (r : result tx_error A) : writes P (coded r).
Proof. by intros s key _. Qed.

Lemma SaveTransaction_writes tx h : tx_Hash tx = Ok h -> writes (writable h) (SaveTransaction tx).
Proof.
  intros Hh. unfold SaveTransaction. apply writes_bind; [apply writes_coded|]. intros s s1 a Ha. rewrite Hh in Ha. injection Ha as _ <-.
  apply writes_bind; [apply writes_coded|]. intros _ _ b _. apply writes_bind; [apply writes_own; by right; left|]. intros _ _ _ _.
  eapply (frame_writes [REQID_TXID_PREFIX]); [unfold saveReqIdByTx; frames|set_solver].
Qed.
Lemma SaveTxLookupEntry_writes uh n t i tx h : tx_Hash tx = Ok h -> writes (writable h) (SaveTxLookupEntry uh n t i tx).
Proof.
  intros Hh. unfold SaveTxLookupEntry. apply writes_bind; [apply writes_coded|]. intros s s1 a Ha. rewrite Hh in Ha. injection Ha as _ <-.
  apply writes_bind; [apply writes_coded|]. intros _ _ b _. apply writes_own. by right; right.
Qed.
Lemma saveTx_writes unit hd uh n i tx h : unit_facts unit hd uh n -> tx_Hash tx = Ok h -> Forall complete (Messages tx) ->
  writes (writable h) (saveTx4Unit flags nil_contract_id unit i tx).
Proof.
  intros Hf Hh Hc s key HP. rewrite (saveTx_unfold _ _ _ _ _ _ _ _ Hf Hh Hc). revert s key HP.
  apply writes_bind; [eapply (frame_writes []); [|set_solver]; destruct (0 <? i); [apply frame_requester; tc_solve|by apply frame_still]|intros _ _ req _].
  apply writes_bind; [apply writes_coded|intros _ _ q _].
  apply writes_bind; [eapply frame_writes; [apply messages_keys|set_solver]|intros _ _ _ _].
  apply writes_bind; [by apply SaveTransaction_writes|intros _ _ _ _]. apply writes_bind; [by apply SaveTxLookupEntry_writes|intros _ _ _ _].
  eapply (frame_writes [ADDR_TXID_PREFIX]); [|set_solver]. destruct (AddrTxsIndex flags); [apply frame_addr_index; tc_solve|by apply frame_still].
Qed.

(** *** All transactions *)

(** What saving each transaction returns: errors are logged, and dropped. *)
Fixpoint outcomes (unit : Unit) (i : Z) (txs : list Transaction) (s : Store) : list (result store_error Datatypes.unit) :=
  match txs with
  | [] => []
  | tx :: txs => let '(s1, r) := saveTx4Unit flags nil_contract_id unit i tx s in r :: outcomes unit (i + 1) txs s1
  end.
Definition own_row (hs : list Hash) (key : bytes) : Prop := exists h, h ∈ hs /\ writable h key.

Lemma not_writable p h h' : p ∈ [TRANSACTION_PREFIX; LOOKUP_PREFIX] -> h <> h' -> ~ writable h' (p ++ h).
Proof.
  intros Hp Hne. assert (length p = 2%nat) as L by (set_unfold in Hp; by destruct Hp as [-> | [-> | []]]).
  unfold writable. rewrite take_prefix by done. assert (p = TRANSACTION_PREFIX \/ p = LOOKUP_PREFIX) as Hp' by (clear -Hp; set_solver). clear Hp. intros [Hw|[Hw|Hw]].
  - revert Hw. destruct Hp' as [-> | ->]; by apply (bool_decide_eq_false_1 (_ ∈ _)).
  - apply app_inj_1 in Hw as [_ ?]; [done|by rewrite L].
  - apply app_inj_1 in Hw as [_ ?]; [done|by rewrite L].
Qed.
Lemma dropped_run {A} (m : St A) s s' r : dropped m s = (s', r) -> r <> Panic -> exists r1, m s = (s', r1) /\ r1 <> Panic /\ r = Ok tt.
Proof. unfold dropped. destruct (m s) as [s1 [a|e|]]; intros [= <- <-]; eauto; done. Qed.

Lemma save_txs_run unit hd uh n : unit_facts unit hd uh n -> (forall v, exists b, enc c_lookup v = Ok b) ->
  forall txs hs i s s' r, Forall2 (fun tx h => tx_Hash tx = Ok h) txs hs -> Forall (fun tx => Forall complete (Messages tx)) txs ->
  NoDup hs -> save_txs flags nil_contract_id unit i txs s = (s', r) -> r <> Panic ->
  r = Ok hs /\ length (outcomes unit i txs s) = length txs /\
  (forall key, (forall h, h ∈ hs -> ~ writable h key) -> kv s' !! key = kv s !! key) /\
  (forall j tx h o, txs !! j = Some tx -> hs !! j = Some h -> outcomes unit i txs s !! j = Some o ->
     match o with
     | Ok _ => stored uh n (Timestamp hd) (i + Z.of_nat j) tx h (kv s')
     | _ => kv s' !! (TRANSACTION_PREFIX ++ h) = kv s !! (TRANSACTION_PREFIX ++ h)
     end).
Proof.
  intros Hf Hl txs. induction txs as [|tx txs IH]; intros hs i s s' r Hh Hc Hn E Hr.
  { apply Forall2_nil_inv_l in Hh as ->. injection E as <- <-. by split_and!. }
  apply Forall2_cons_inv_l in Hh as (h & hs' & Hh & Hhs & ->). apply Forall_cons in Hc as [Hc Hcs]. apply NoDup_cons in Hn as [Hh0 Hn]. cbn in E. apply bind_run in E as [(s1 & [] & E1 & E)|(e & E1 & ->)]; [| |done].
  2: { apply dropped_run in E1 as (? & _ & _ & ?); done. }
  apply dropped_run in E1 as (r1 & E1 & Hr1 & _); [|done]. rewrite Hh in E. apply bind_run in E as [(s2 & hs2 & E2 & E)|(e & E2 & ->)]; [|by injection E2|done].
  assert (s2 = s1 /\ hs2 = h) as [-> ->] by by injection E2.
  assert (Er : exists r2, save_txs flags nil_contract_id unit (i + 1) txs s1 = (s', r2) /\ r2 <> Panic /\ (forall l, r2 = Ok l -> r = Ok (h :: l))).
  { apply bind_run in E as [(s3 & l & E3 & E)|(e & E3 & ->)]; [| |done]; [injection E as <- <-|]; eexists; (split; [exact E3|]); split; [done|congruence|done|done]. }
  destruct Er as (r2 & E3 & Hr2 & Hrr). destruct (IH hs' _ _ _ _ Hhs Hcs Hn E3 Hr2) as (Hok & Hlen & Hkeys & Hrows). cbn [outcomes]. rewrite E1.
  pose proof (saveTx_writes unit hd uh n i tx h Hf Hh Hc s) as Hw. rewrite E1 in Hw. cbn [fst] in Hw.
  destruct (saveTx_run unit hd uh n i tx h s s1 r1 Hf Hh Hc Hl E1 Hr1) as [Hst Hno].
  assert (Hkeep : forall p, p ∈ [TRANSACTION_PREFIX; LOOKUP_PREFIX] -> kv s' !! (p ++ h) = kv s1 !! (p ++ h)).
  { intros p Hp. apply Hkeys. intros h' Hin. apply not_writable; [done|]. by intros ->. }
  split_and!; [by apply Hrr|cbn; by rewrite Hlen| |].
  - intros key Hk. rewrite Hkeys by (intros h' Hin; apply Hk; by right). apply Hw, Hk. left.
  - intros [|j] tx' h' o Ht Hj Ho; cbn in Ht, Hj, Ho.
    + injection Ht as <-. injection Hj as <-. injection Ho as <-. rewrite Z.add_0_r, Hkeep by left. destruct r1 as [[]|e|]; [|by apply Hno|done].
      destruct Hst as (b & lb & H1 & H2 & H3 & H4); [done|]. exists b, lb. rewrite !Hkeep by (set_solver). done.
    + specialize (Hrows j tx' h' o Ht Hj Ho). replace (i + Z.of_nat (S j)) with (i + 1 + Z.of_nat j) by lia.
      assert (Hs1 : kv s1 !! (TRANSACTION_PREFIX ++ h') = kv s !! (TRANSACTION_PREFIX ++ h')).
      { apply Hw, not_writable; [left|]. intros ->. apply Hh0. by eapply list_elem_of_lookup_2. }
      rewrite <- Hs1. exact Hrows.
Qed.

(** *** Reading a unit back *)

Lemma GetTransactionOnly_found h s b d : h <> zeroHash -> kv s !! (TRANSACTION_PREFIX ++ h) = Some b -> DecodeRLP b = Ok d ->
  GetTransactionOnly h s = (s, Ok (new_tx d)).
Proof.
  intros Hz Hb Hd. unfold GetTransactionOnly, bytes_equal. rewrite bool_decide_eq_false_2 by done. unfold Get, bind, gets. rewrite Hb. cbn. unfold coded, lift.
  by rewrite Hd.
Qed.
Lemma GetTransactionOnly_missing h s : h <> zeroHash -> kv s !! (TRANSACTION_PREFIX ++ h) = None -> GetTransactionOnly h s = (s, Err KeyNotFound).
Proof. intros Hz Hb. unfold GetTransactionOnly, bytes_equal. rewrite bool_decide_eq_false_2 by done. unfold Get, bind, gets. by rewrite Hb. Qed.

Definition is_ok {E A} (r : result E A) : bool := match r with Ok _ => true | _ => false end.
Lemma get_txs_read s txs hs (os : list (result store_error Datatypes.unit)) : length os = length txs -> length hs = length txs -> zeroHash ∉ hs ->
  (forall j tx h o, txs !! j = Some tx -> hs !! j = Some h -> os !! j = Some o ->
     if is_ok o then exists b, kv s !! (TRANSACTION_PREFIX ++ h) = Some b /\ DecodeRLP b = Ok (txdata tx) else kv s !! (TRANSACTION_PREFIX ++ h) = None) ->
  get_txs hs s = (s, if forallb is_ok os then Ok (map (fun tx => new_tx (txdata tx)) txs) else Err KeyNotFound).
Proof.
  revert hs os. induction txs as [|tx txs IH]; intros [|h hs] [|o os] Ho Hh Hz Hr; try done. cbn [get_txs]. apply not_elem_of_cons in Hz as [Hz Hz'].
  pose proof (Hr 0%nat tx h o eq_refl eq_refl eq_refl) as H0. cbn [forallb]. destruct (is_ok o); cbn [andb].
  - destruct H0 as (b & Hb & Hd). unfold bind. rewrite (GetTransactionOnly_found h s b (txdata tx)) by done.
    rewrite (IH hs os) by (first [by injection Ho|by injection Hh|done|intros j tx' h' o'; apply (Hr (S j))]). by destruct (forallb is_ok os).
  - unfold bind. by rewrite GetTransactionOnly_missing.
Qed.

Lemma SaveHeader_run hd uh hb ub idx s : unit_Hash hd = Ok uh -> Header_EncodeRLP header_codec hd = Ok hb -> GetNumber hd = Some idx -> enc c_hash uh = Ok ub ->
  SaveHeader hd s = (set_kv (<[HEADER_HEIGTH_PREFIX ++ ChainIndex_Bytes idx := ub]> (<[HEADER_PREFIX ++ uh := hb]> (kv s))) s, Ok tt).
Proof. intros Hu Hb Hn He. unfold SaveHeader, saveHeader, saveHeaderChainIndex, StoreToRlpBytes, bind, coded, lift, get. rewrite Hu, Hb. cbn. rewrite Hn. cbn. by rewrite He. Qed.

Lemma writable_prefix h key : writable h key -> take 2 key ∈ TRANSACTION_PREFIX :: LOOKUP_PREFIX :: REQID_TXID_PREFIX :: ADDR_TXID_PREFIX :: handled.
Proof. intros [Hw|[-> | ->]]; [by right; right|rewrite take_prefix by done; left|rewrite take_prefix by done; right; left]. Qed.

(** What the theorems assume of a unit: it reads, its codecs work, its transactions are complete and have
    hashes of their own. *)
Record saveable (unit : Unit) (hd : Header) (uh : Hash) (n : Z) (hs : list Hash) : Prop := {
  sv_facts : unit_facts unit hd uh n;
  sv_header : exists hb, Header_EncodeRLP header_codec hd = Ok hb;
  sv_index : exists ub, enc c_hash uh = Ok ub;
  sv_body : exists bb, enc c_body hs = Ok bb /\ dec c_body bb = Ok hs;
  sv_lookup : forall v, exists b, enc c_lookup v = Ok b /\ dec c_lookup b = Ok v;
  sv_txs : Forall (fun tx => Forall complete (Messages tx) /\ exists b, EncodeRLP (txdata tx) = Ok b /\ DecodeRLP b = Ok (txdata tx)) (Txs unit);
  sv_hashes : Forall2 (fun tx h => tx_Hash tx = Ok h) (Txs unit) hs;
  sv_nodup : NoDup hs;
  sv_nonzero : zeroHash ∉ hs }.

Lemma SaveUnit_run unit hd uh n hs genesis s s' r : saveable unit hd uh n hs ->
  SaveUnit flags nil_contract_id unit genesis s = (s', r) -> r <> Panic ->
  exists s1 s2 idx hb ub bb, GetNumber hd = Some idx /\ Header_EncodeRLP header_codec hd = Ok hb /\ enc c_hash uh = Ok ub /\ enc c_body hs = Ok bb /\
    s1 = set_kv (<[HEADER_HEIGTH_PREFIX ++ ChainIndex_Bytes idx := ub]> (<[HEADER_PREFIX ++ uh := hb]> (kv s))) s /\
    save_txs flags nil_contract_id unit 0 (Txs unit) s1 = (s2, Ok hs) /\
    r = Ok tt /\ ledger s' = ledger s2 /\
    kv s' = (let db := <[BODY_PREFIX ++ uh := bb]> (kv s2) in if genesis then <[GenesisUnitHash := uh]> db else db).
Proof.
  intros [Hf [hb Hb] [ub Hub] [bb [Hbb _]] Hlk Ht Hh Hn Hz] E Hr. pose proof Hf as [Hu Huh Hnum]. unfold NumberU64, rget in Hnum.
  destruct (GetNumber hd) as [idx|] eqn:Hidx; [|unfold GetNumber in Hidx; by rewrite Hidx in Hnum].
  exists (set_kv (<[HEADER_HEIGTH_PREFIX ++ ChainIndex_Bytes idx := ub]> (<[HEADER_PREFIX ++ uh := hb]> (kv s))) s).
  unfold SaveUnit, header_of in E. rewrite Hu in E. unfold bind at 1, get, ret at 1 in E. rewrite Huh in E. unfold bind at 1, coded at 1, lift at 1 in E.
  unfold bind at 1 in E. rewrite (SaveHeader_run hd uh hb ub idx s Huh Hb Hidx Hub) in E.
  match type of E with bind (save_txs _ _ _ _ _) _ ?x = _ => set (s1 := x) in * end.
  apply bind_run in E as [(s2 & l & E2 & E)|(e & E2 & ->)]; [| |done].
  2: { destruct (save_txs_run unit hd uh n Hf (fun v => let '(ex_intro _ b (conj H _)) := Hlk v in ex_intro _ b H) _ _ _ _ _ _ Hh
         (Forall_impl _ _ _ Ht (fun _ p => proj1 p)) Hn E2) as [? _]; done. }
  destruct (save_txs_run unit hd uh n Hf (fun v => let '(ex_intro _ b (conj H _)) := Hlk v in ex_intro _ b H) _ _ _ _ _ _ Hh
         (Forall_impl _ _ _ Ht (fun _ p => proj1 p)) Hn E2) as [[= ->] _]; [done|].
  exists s2, idx, hb, ub, bb. split_and!; try done.
  all: unfold SaveBody, StoreToRlpBytes, bind, coded, lift in E; rewrite Hbb in E; cbn in E; destruct genesis; [|by injection E as <- <-].
  all: unfold set_newest, SetNewestUnit, dropped in E; rewrite Hidx in E; cbn in E; by injection E as <- <-.
Qed.

(** *** The ledger of a unit *)

Lemma saveTx_ledger unit hd uh n i tx h s s' r : unit_facts unit hd uh n -> tx_Hash tx = Ok h -> Forall complete (Messages tx) -> Forall sized (Messages tx) ->
  len (Messages tx) <= 2 ^ 32 -> saveTx4Unit flags nil_contract_id unit i tx s = (s', r) -> r <> Panic ->
  ledger_reachable (ledger s) -> unmade h 0 (ledger s) ->
  ledger_reachable (ledger s') /\ (forall h', h' <> h -> unmade h' 0 (ledger s) -> unmade h' 0 (ledger s')).
Proof.
  intros Hf Hh Hc Hs Hlen E Hr Hok Hu. rewrite (saveTx_unfold _ _ _ _ _ _ _ _ Hf Hh Hc) in E.
  assert (Q : forall (ps : list bytes) A (m : St A) t t' x, frame eq ps m -> m t = (t', x) -> ledger t' = ledger t).
  { intros ps A m t t' x Hm Em. destruct (Hm t) as [HR _]. by rewrite Em in HR. }
  assert (Freq : frame eq [] (if 0 <? i then GetTxRequesterAddress tx else ret zeroAddress)) by (clear; destruct (0 <? i); [apply frame_requester; tc_solve|apply frame_still; [tc_solve|by intros ?]]).
  apply bind_run in E as [(s0 & req & E0 & E)|(e & E0 & ->)]; [| |done]; apply (Q _ _ _ _ _ _ Freq) in E0; [|by rewrite E0]. rewrite <- E0 in Hok, Hu |- *. clear E0 Freq.
  apply bind_run in E as [(s1 & q & E1 & E)|(e & E1 & ->)]; [| |done]; apply (Q _ _ _ _ _ _ (frame_coded eq [] _)) in E1; [|by rewrite E1]. rewrite <- E1 in Hok, Hu |- *. clear E1.
  apply bind_run in E as [(s2 & [] & E2 & E)|(e & E2 & ->)]; [| |done].
  2: { by eapply messages_ledger in E2. }
  assert (Hend : ledger s' = ledger s2).
  { refine (Q (handled ++ [TRANSACTION_PREFIX; REQID_TXID_PREFIX; LOOKUP_PREFIX; ADDR_TXID_PREFIX]) _ _ _ _ _ _ E).
    apply frame_bind; [tc_solve|eapply frame_weaken, frame_transaction; [set_solver|tc_solve]|intros _].
    apply frame_bind; [tc_solve|eapply frame_weaken, frame_lookup; [set_solver|tc_solve]|intros _].
    destruct (AddrTxsIndex flags); [eapply frame_weaken, frame_addr_index; [set_solver|tc_solve]|apply frame_still; [tc_solve|by intros ?]]. }
  rewrite Hend. by eapply messages_ledger in E2.
Qed.

Lemma save_txs_ledger unit hd uh n txs : unit_facts unit hd uh n -> forall hs i s s' r,
  Forall2 (fun tx h => tx_Hash tx = Ok h) txs hs -> Forall (fun tx => Forall complete (Messages tx) /\ Forall sized (Messages tx) /\ len (Messages tx) <= 2 ^ 32) txs ->
  NoDup hs -> save_txs flags nil_contract_id unit i txs s = (s', r) -> r <> Panic ->
  ledger_reachable (ledger s) -> (forall h, h ∈ hs -> unmade h 0 (ledger s)) -> ledger_reachable (ledger s').
Proof.
  intros Hf. induction txs as [|tx txs IH]; intros hs i s s' r Hh Hc Hn E Hr Hok Hu; [by injection E as <- <-|].
  apply Forall2_cons_inv_l in Hh as (h & hs' & Hh & Hhs & ->). apply Forall_cons in Hc as [(Hc & Hs & Hlen) Hcs]. apply NoDup_cons in Hn as [Hh0 Hn]. cbn in E.
  apply bind_run in E as [(s1 & [] & E1 & E)|(e & E1 & ->)]; [| |done].
  2: { apply dropped_run in E1 as (? & _ & _ & ?); done. }
  apply dropped_run in E1 as (r1 & E1 & Hr1 & _); [|done].
  destruct (saveTx_ledger unit hd uh n i tx h s s1 r1 Hf Hh Hc Hs Hlen E1 Hr1 Hok) as [Hok1 Hu1]; [apply Hu; left|].
  rewrite Hh in E. apply bind_run in E as [(s2 & hs2 & E2 & E)|(e & E2 & ->)]; [|by injection E2|done].
  assert (s2 = s1) as -> by by injection E2.
  assert (Hu2 : forall h', h' ∈ hs' -> unmade h' 0 (ledger s1)).
  { intros h' Hin. apply Hu1; [by intros ->|]. apply Hu. by right. }
  apply bind_run in E as [(s3 & l & E3 & E)|(e & E3 & ->)]; [|by eapply IH|done]. injection E as <- <-. by eapply IH.
Qed.

Lemma lookup_total unit hd uh n hs : saveable unit hd uh n hs -> forall v, exists b, enc c_lookup v = Ok b.
Proof. intros Hs v. destruct (sv_lookup _ _ _ _ _ Hs v) as (b & Hb & _). eauto. Qed.
(** Keys that are not those of a transaction survive it. *)
Lemma other_row key : take 2 key ∉ TRANSACTION_PREFIX :: LOOKUP_PREFIX :: REQID_TXID_PREFIX :: ADDR_TXID_PREFIX :: handled -> forall h, ~ writable h key.
Proof. intros Hk h Hw. by apply Hk, (writable_prefix h). Qed.
Ltac not_written := apply other_row; rewrite take_prefix by done; by apply (bool_decide_eq_false_1 (_ ∈ _)).

(** ** Theorems *)

(** C12: Reading a saved unit back.  [SaveUnit] returns no error whatever its transactions do: the body lists all of
    them, and the transactions of the unit can be read back, as they were, exactly when every one of them was
    saved without an error.  One that was not makes the whole unit unreadable. *)
Theorem unit_read_back unit hd uh n hs genesis s s' r : saveable unit hd uh n hs ->
  SaveUnit flags nil_contract_id unit genesis s = (s', r) -> r <> Panic ->
  (forall h, h ∈ hs -> kv s !! (TRANSACTION_PREFIX ++ h) = None) ->
  let os := outcomes unit 0 (Txs unit) (SaveHeader hd s).1 in
  r = Ok tt /\ GetBody uh s' = (s', Ok hs) /\
  GetUnitTransactions uh s' = (s', if forallb is_ok os then Ok (map (fun tx => new_tx (txdata tx)) (Txs unit)) else Err KeyNotFound) /\
  (forall j tx h o, Txs unit !! j = Some tx -> hs !! j = Some h -> os !! j = Some o -> is_ok o = true ->
     GetTxLookupEntry h s' = (s', Ok (mkLookup uh n (uint64 (Z.of_nat j)) (uint64 (Timestamp hd))))).
Proof.
  intros Hs E Hr Hfresh os. destruct (SaveUnit_run _ _ _ _ _ _ _ _ _ Hs E Hr) as (s1 & s2 & idx & hb & ub & bb & Hidx & Hb & Hub & Hbb & E1 & E2 & -> & _ & Hkv).
  destruct (save_txs_run unit hd uh n (sv_facts _ _ _ _ _ Hs) (lookup_total _ _ _ _ _ Hs) _ _ _ _ _ _ (sv_hashes _ _ _ _ _ Hs)
    (Forall_impl _ _ _ (sv_txs _ _ _ _ _ Hs) (fun _ p => proj1 p)) (sv_nodup _ _ _ _ _ Hs) E2) as (_ & Hlen & Hkeys & Hrows); [done|].
  assert (Hos : os = outcomes unit 0 (Txs unit) s1).
  { subst os s1. by rewrite (SaveHeader_run hd uh hb ub idx s (uf_hash _ _ _ _ (sv_facts _ _ _ _ _ Hs)) Hb Hidx Hub). }
  assert (Hkeep : forall p k, p ∈ [TRANSACTION_PREFIX; LOOKUP_PREFIX] -> kv s' !! (p ++ k) = kv s2 !! (p ++ k)).
  { intros p k Hp. rewrite Hkv. cbv zeta. assert (p = TRANSACTION_PREFIX \/ p = LOOKUP_PREFIX) as Hp' by (clear -Hp; set_solver).
    destruct genesis; rewrite ?lookup_insert_ne; destruct Hp' as [-> | ->]; done. }
  assert (Hold : forall h, h ∈ hs -> kv s1 !! (TRANSACTION_PREFIX ++ h) = None).
  { intros h Hin. subst s1. cbn. rewrite !lookup_insert_ne by done. by apply Hfresh. }
  assert (Hbody : GetBody uh s' = (s', Ok hs)).
  { unfold GetBody, RetrieveFromRlpBytes, Get, bind, gets, coded, lift. assert (kv s' !! (BODY_PREFIX ++ uh) = Some bb) as ->.
    { rewrite Hkv. cbv zeta. destruct genesis; [rewrite lookup_insert_ne by done|]; by rewrite lookup_insert_eq. }
    destruct (sv_body _ _ _ _ _ Hs) as (bb' & Hbb' & Hd). cbn. assert (bb' = bb) as -> by congruence. by rewrite Hd. }
  split; [done|]. split; [done|]. split.
  - unfold GetUnitTransactions, bind. rewrite Hbody. rewrite (get_txs_read s' (Txs unit) hs os); [done|by rewrite Hos| | |].
    + symmetry. by eapply Forall2_length, sv_hashes.
    + by eapply sv_nonzero.
    + intros j tx h o Ht Hj Ho. rewrite Hos in Ho. pose proof (Hrows j tx h o Ht Hj Ho) as Hrow. rewrite Hkeep by left.
      assert (Hin : h ∈ hs) by by eapply list_elem_of_lookup_2. destruct o as [[]|e|]; cbn [is_ok]; [|by rewrite Hrow, Hold..].
      destruct Hrow as (b & lb & Hbx & Hkb & _). exists b. split; [done|].
      destruct (Forall_lookup_1 _ _ _ _ (sv_txs _ _ _ _ _ Hs) Ht) as (_ & b' & Hb' & Hd). congruence.
  - intros j tx h o Ht Hj Ho Hok. rewrite Hos in Ho. pose proof (Hrows j tx h o Ht Hj Ho) as Hrow. destruct o as [[]|e|]; [|done..].
    destruct Hrow as (b & lb & _ & _ & Hlb & Hk). unfold GetTxLookupEntry, RetrieveFromRlpBytes, Get, bind, gets, coded, lift.
    rewrite Hkeep by (right; left). rewrite Hk. cbn. destruct (sv_lookup _ _ _ _ _ Hs (mkLookup uh n (uint64 (0 + Z.of_nat j)) (uint64 (Timestamp hd)))) as (b' & Hb' & Hd).
    assert (b' = lb) as -> by congruence. by rewrite Hd.
Qed.

(** The header of a saved unit.  After [SaveUnit] the header is found by its hash, with its time cut to 32 bits
    and no cached hash, and the hash is found by its number, although what the index holds is the RLP form of the
    hash: a byte and the hash. *)
Theorem saved_header_found unit hd uh n hs genesis s s' r idx : saveable unit hd uh n hs ->
  SaveUnit flags nil_contract_id unit genesis s = (s', r) -> r <> Panic -> GetNumber hd = Some idx ->
  codec_ok header_codec -> encodable header_codec (header2Temp hd) -> enc c_hash uh = Ok (xa0 :: uh) -> len uh = 32 ->
  IsHeaderExist uh s' = (s', Ok true) /\ GetHeaderByHash uh s' = (s', Ok (temp2Header (header2Temp hd) new_header)) /\ GetHashByNumber idx s' = (s', Ok uh).
Proof.
  intros Hs E Hr Hn Hc Henc Hx L32. destruct (SaveUnit_run _ _ _ _ _ _ _ _ _ Hs E Hr) as (s1 & s2 & idx' & hb & ub & bb & Hidx & Hb & Hub & Hbb & E1 & E2 & -> & _ & Hkv).
  assert (idx' = idx) as -> by congruence. assert (ub = xa0 :: uh) as -> by congruence.
  destruct (save_txs_run unit hd uh n (sv_facts _ _ _ _ _ Hs) (lookup_total _ _ _ _ _ Hs) _ _ _ _ _ _ (sv_hashes _ _ _ _ _ Hs)
    (Forall_impl _ _ _ (sv_txs _ _ _ _ _ Hs) (fun _ p => proj1 p)) (sv_nodup _ _ _ _ _ Hs) E2) as (_ & _ & Hkeys & _); [done|].
  assert (Hh : kv s' !! (HEADER_PREFIX ++ uh) = Some hb).
  { rewrite Hkv. cbv zeta. assert (kv s2 !! (HEADER_PREFIX ++ uh) = Some hb).
    { rewrite Hkeys by (intros h _; not_written). subst s1. cbn. rewrite lookup_insert_ne by done. apply lookup_insert_eq. }
    destruct genesis; rewrite ?lookup_insert_ne by done; done. }
  assert (Hi : kv s' !! (HEADER_HEIGTH_PREFIX ++ ChainIndex_Bytes idx) = Some (xa0 :: uh)).
  { rewrite Hkv. cbv zeta. assert (kv s2 !! (HEADER_HEIGTH_PREFIX ++ ChainIndex_Bytes idx) = Some (xa0 :: uh)).
    { rewrite Hkeys by (intros h _; not_written). subst s1. cbn. apply lookup_insert_eq. }
    destruct genesis; rewrite ?lookup_insert_ne by done; done. }
  unfold IsHeaderExist, Has, GetHeaderByHash, GetHashByNumber, Get, bind, gets. rewrite Hh, Hi. split; [done|]. split.
  - cbn. unfold Header_DecodeRLP. destruct (Hc _ Henc) as (b & Hb' & Hd). unfold Header_EncodeRLP in Hb. assert (b = hb) as -> by congruence. by rewrite Hd.
  - cbn. unfold Rw.BytesToHash. rewrite len_cons, L32. change (32 <? 32 + 1) with true. cbv iota. unfold ret. do 2 f_equal. unfold slice.
    change (Z.to_nat (32 + 1 - 32)) with 1%nat. change (Z.to_nat (32 + 1 - (32 + 1 - 32))) with 32%nat. cbn [drop].
    rewrite drop_0, take_ge by (unfold len in L32; lia). unfold len in L32. by replace (length uh) with 32%nat by lia.
Qed.

(** C14: The ledger of a saved unit.  If no output carries the hash of one of its transactions yet, saving a unit keeps
    the invariants of the ledger, even where transactions fail half way. *)
Theorem unit_keeps_ledger unit hd uh n hs genesis s s' r : saveable unit hd uh n hs ->
  Forall (fun tx => Forall sized (Messages tx) /\ len (Messages tx) <= 2 ^ 32) (Txs unit) ->
  SaveUnit flags nil_contract_id unit genesis s = (s', r) -> r <> Panic ->
  ledger_reachable (ledger s) -> (forall h i k, h ∈ hs -> unused (mkOutPoint h i k) (ledger s)) -> ledger_reachable (ledger s').
Proof.
  intros Hs Hsz E Hr Hok Hu. destruct (SaveUnit_run _ _ _ _ _ _ _ _ _ Hs E Hr) as (s1 & s2 & idx & hb & ub & bb & _ & _ & _ & _ & E1 & E2 & _ & -> & _).
  eapply (save_txs_ledger unit hd uh n (Txs unit) (sv_facts _ _ _ _ _ Hs) hs); [by eapply sv_hashes| |by eapply sv_nodup|exact E2|done|by subst s1|].
  - apply Forall_forall. intros tx Hin. pose proof (proj1 (Forall_forall _ _) (sv_txs _ _ _ _ _ Hs) tx Hin) as [Hc _].
    by destruct (proj1 (Forall_forall _ _) Hsz tx Hin).
  - intros h Hin j _ k. subst s1. by apply Hu.
Qed.

End Transactions.

(** ** A unit that is valid and is not saved *)

(** Two transactions of a unit pay from the same output, whose script is the hash of a script that succeeds. *)
Definition open_script : bytes := [xa9; x14; x51] ++ replicate 19 x00 ++ [x87].
Definition unlock_open : bytes := [x01; x51].
Definition pay_once (v : Z) : PaymentPayload := mkPayment [mkInput unlock_open [] (Some (point x11))] [mkOutput v [x76] (Some PTNAsset)] 0.
Definition tx_of (p : PaymentPayload) : Transaction := NewTransaction [as_message p].
Definition twice_payments : list PaymentPayload := [pay_once 7; pay_once 6; reward_payment].
Definition twice_node : Node :=
  make_node (table_env (table_lib twice_payments
    [temp []; temp [(APP_PAYMENT, [])]; temp [(APP_PAYMENT, [x01])]; temp [(APP_PAYMENT, [x01; x01])]])) unit_state [].
Definition twice_unit : Unit := mkUnit (Some unit_header) [reward_tx; tx_of (pay_once 7); tx_of (pay_once 6)].
Definition open_payment : PaymentPayload := mkPayment [] [mkOutput 9 open_script (Some PTNAsset)] 0.
Definition open_store : Store :=
  mkStore (UpdateUtxo (H := twice_node) 0 (replicate 32 x11) open_payment 0 empty_db).1 ∅ (mkPropertyDb None None None ∅) [].

#[global] Instance lookup_eq_dec : EqDecision TxLookupEntry.
Proof. solve_decision. Defined.
#[global] Program Instance lookup_countable : Countable TxLookupEntry :=
  inj_countable' (fun e => (lu_UnitHash e, UnitIndex e, Index e, lu_Timestamp e)) (fun t => mkLookup t.1.1.1 t.1.1.2 t.1.2 t.2) _.
Next Obligation. by intros []. Qed.
Definition no_codec {A} : Codec A := mkCodec (fun _ => Err (TxRlp "")) (fun _ => Err (TxRlp "")) (fun _ => False).
Definition hash_codec : Codec Hash :=
  mkCodec (fun h => Ok (xa0 :: h)) (fun b => match b with _ :: h => Ok h | [] => Err (TxRlp "") end) (fun h => len h = 32).
Definition sample_codecs : StoreCodecs := {|
  c_contract := no_codec; c_template := no_codec; c_lookup := digit_codec _; c_body := digit_codec _; c_hash := hash_codec; c_jury := no_codec; c_poe := no_codec
|}.
Definition no_mediators : Med.MediatorLib := {|
  Med.c_mediator := no_codec; Med.unmarshal_create := fun _ => None; Med.unmarshal_update := fun _ => None; Med.marshal_juror := fun _ => None;
  Med.point_ok := fun _ => false; Med.node_ok := fun _ => None
|}.
Definition no_flags : IndexFlags := mkFlags true true true.
Definition save_twice : Store * result store_error Datatypes.unit :=
  SaveUnit (N := twice_node) (C := sample_codecs) (M := no_mediators) no_flags false twice_unit false open_store.
Definition twice_hash : Hash := match unit_Hash (N := twice_node) unit_header with Ok h => h | _ => [] end.
Definition twice_hashes : list Hash := map (fun tx => match tx_Hash (H := twice_node) tx with Ok h => h | _ => [] end) (Txs twice_unit).

(** A unit can be valid and be lost.  There are a ledger and a unit such that [ValidateUnitExceptGroupSig], asking that
    ledger, finds the unit VALID, [SaveUnit] on that ledger returns no error, and the transactions of the unit cannot be
    read afterwards: two of them spend the same output, the second is not saved, and its hash is in the body. *)
Theorem valid_unit_lost : exists (N : Node) (C : StoreCodecs) (M : Med.MediatorLib) flags (pointer : nat -> nat -> Z) (s s' : Store) (unit : Unit) hd uh,
  (forall i j i' j', pointer i j = pointer i' j' -> i = i' /\ j = j') /\
  (ValidateUnitExceptGroupSig (Some (ledger_query (ledger s))) pointer unit NewValidate).2 = Ok TxValidationCode_VALID /\
  SaveUnit flags false unit false s = (s', Ok tt) /\ UnitHeader unit = Some hd /\ unit_Hash hd = Ok uh /\
  (GetUnitTransactions uh s').2 = Err KeyNotFound.
Proof.
  exists twice_node, sample_codecs, no_mediators, no_flags, place, open_store, save_twice.1, twice_unit, unit_header, twice_hash.
  split; [exact place_distinct|]. split; [vm_compute; reflexivity|]. split; [apply outcome; vm_compute; reflexivity|].
  split; [done|]. split; vm_compute; reflexivity.
Qed.

Lemma twice_complete : Forall (fun tx => Forall complete (Messages tx)) (Txs twice_unit).
Proof. repeat constructor; eexists; (split; [reflexivity|]); (split; [reflexivity|]); vm_compute; repeat constructor; discriminate. Qed.
Lemma twice_saveable : saveable (N := twice_node) (C := sample_codecs) twice_unit unit_header twice_hash 7 twice_hashes.
Proof.
  split.
  - split; vm_compute; reflexivity.
  - by eexists.
  - by eexists.
  - destruct (digit_codec_ok (list Hash) twice_hashes I) as (b & Hb & Hd). eauto.
  - intros v. destruct (digit_codec_ok TxLookupEntry v I) as (b & Hb & Hd). eauto.
  - apply Forall_forall. intros tx Hin. split; [by apply (proj1 (Forall_forall _ _) twice_complete)|].
    repeat (apply elem_of_cons in Hin as [->|Hin]; [eexists; split; vm_compute; reflexivity|]). by apply elem_of_nil in Hin.
  - repeat (constructor; [vm_compute; reflexivity|]). constructor.
  - apply (bool_decide_eq_true_1 (NoDup twice_hashes)). vm_compute. reflexivity.
  - apply (bool_decide_eq_false_1 (zeroHash ∈ twice_hashes)). vm_compute. reflexivity.
Qed.
Lemma save_twice_ok : save_twice = (save_twice.1, Ok tt).
Proof. apply outcome. vm_compute. reflexivity. Qed.
Lemma unit_read_back_witness : GetUnitTransactions (N := twice_node) (C := sample_codecs) twice_hash save_twice.1 = (save_twice.1, Err KeyNotFound).
Proof.
  destruct (unit_read_back (N := twice_node) (C := sample_codecs) (M := no_mediators) no_flags false twice_unit unit_header twice_hash 7 twice_hashes false
    open_store save_twice.1 (Ok tt) twice_saveable save_twice_ok ltac:(discriminate) ltac:(intros; reflexivity)) as (_ & _ & H & _).
  rewrite H. apply (f_equal (pair _)). vm_compute. reflexivity.
Defined.

(** A node with a codec for one header and a decoder of addresses *)
Definition one_header : Codec headerTemp :=
  mkCodec (fun _ => Ok [x07]) (fun _ => Ok (header2Temp unit_header)) (fun t => t = header2Temp unit_header).
Definition with_header_codec (c : Codec headerTemp) (n : Node) : Node := {|
  node_env := n.(node_env); statequery := n.(statequery); dagquery := n.(dagquery); propquery := n.(propquery); light := n.(light); gasToken := n.(gasToken);
  jury_percent := n.(jury_percent); GenerateUnitReward := n.(GenerateUnitReward); ContractCheckFun := n.(ContractCheckFun); token_status := n.(token_status);
  vote_map := n.(vote_map); dec_amounts := n.(dec_amounts); enc_amounts := n.(enc_amounts); marshal_additions := n.(marshal_additions);
  unmarshal_additions := n.(unmarshal_additions); RlpHash_address := n.(RlpHash_address); VerifyE := n.(VerifyE);
  crypto_hash := n.(crypto_hash); check_encode := n.(check_encode); check_decode := toy_decode; DeriveSha := n.(DeriveSha); header_codec := c
|}.
Definition header_node : Node := with_header_codec one_header twice_node.
Definition header_hash : Hash := match unit_Hash (N := header_node) unit_header with Ok h => h | _ => [] end.
Definition save_header_unit : Store * result store_error Datatypes.unit :=
  SaveUnit (N := header_node) (C := sample_codecs) (M := no_mediators) no_flags false twice_unit true open_store.
Lemma header_saveable : saveable (N := header_node) (C := sample_codecs) twice_unit unit_header header_hash 7 twice_hashes.
Proof.
  destruct twice_saveable as [_ _ _ Hb Hl Ht Hh Hn Hz]. split; [|by eexists|by eexists|exact Hb|exact Hl|exact Ht|exact Hh|exact Hn|exact Hz].
  split; vm_compute; reflexivity.
Qed.
Lemma saved_header_found_witness : GetHashByNumber (mkChainIndex PTNCOIN 7) save_header_unit.1 = (save_header_unit.1, Ok header_hash).
Proof.
  apply (saved_header_found (N := header_node) (C := sample_codecs) (M := no_mediators) no_flags false twice_unit unit_header header_hash 7 twice_hashes true
    open_store save_header_unit.1 (Ok tt) (mkChainIndex PTNCOIN 7) header_saveable); [apply outcome; vm_compute; reflexivity|discriminate|reflexivity| |reflexivity..].
  intros t ->. exists [x07]. by split.
Defined.

Lemma open_store_paid : UpdateUtxo (H := twice_node) 0 (replicate 32 x11) open_payment 0 empty_db = (ledger open_store, Ok tt).
Proof. apply outcome. vm_compute. reflexivity. Qed.
Lemma open_store_reachable : ledger_reachable (H := twice_node) (ledger open_store).
Proof. eapply ledger_payment; [apply ledger_empty| | |exact open_store_paid|discriminate]; [by intros k|vm_compute; discriminate]. Qed.
Lemma unit_keeps_ledger_witness : ledger_reachable (H := twice_node) (ledger save_twice.1).
Proof.
  apply (unit_keeps_ledger (N := twice_node) (C := sample_codecs) (M := no_mediators) no_flags false twice_unit unit_header twice_hash 7 twice_hashes false
    open_store save_twice.1 (Ok tt) twice_saveable); [repeat constructor; vm_compute; discriminate|apply save_twice_ok|discriminate|apply open_store_reachable|].
  intros h i k Hin. refine (paid_unused (N := twice_node) 0 (replicate 32 x11) 0 open_payment empty_db _ _ (ex_intro _ (Ok tt) (conj open_store_paid _)) _ _); [discriminate| |done].
  cbn [TxHash]. intros [= Hh _]. subst h. revert Hin. apply (bool_decide_eq_false_1 (_ ∈ twice_hashes)). vm_compute. reflexivity.
Defined.
