(* ===== verification/LifeCycle.v ===== *)
(** * The life of contracts and of the records of mediators

    Theorems on what the handlers of SaveUnit.v leave of a contract that is
    deployed and stopped, and on the records that the calls of the deposit contract
    create and change (Mediators.v). *)

From S2P Require Import Prelude Opcode Script Text Address AssetId Tx RlpModel TokenApi Unit ValPayment ValRules ValUnitProps Produce StateDb Ledger LedgerProps Mediators UnitStore SaveUnit SaveUnitProps.
From Stdlib Require Import ZArith Lia Bool.
Local Open Scope Z_scope.
Import State Store Save.

#[local] Arguments string_bytes : simpl never.

Section Contracts.
Context `{N : Node} `{C : StoreCodecs}.

(** ** Contracts *)

(** RLP carries every contract. *)
Definition contracts_encode : Prop := forall c, exists b, enc c_contract c = Ok b /\ dec c_contract b = Ok c.

Lemma SaveContract_run c b s : enc c_contract c = Ok b ->
  SaveContract c s = (set_kv (<[CONTRACT_TPL_INSTANCE_MAP ++ co_TemplateId c ++ co_ContractId c := co_ContractId c]>
                              (<[CONTRACT_PREFIX ++ co_ContractId c := b]> (kv s))) s, Ok tt).
Proof. intros Hb. unfold SaveContract, saveTplToContractMapping, StoreToRlpBytes, bind, coded, lift. by rewrite Hb. Qed.
Lemma GetContract_found id s b c : kv s !! (CONTRACT_PREFIX ++ id) = Some b -> dec c_contract b = Ok c -> GetContract id s = (s, Ok c).
Proof. intros Hb Hd. unfold GetContract, RetrieveFromRlpBytes, Get, bind, gets, coded, lift. rewrite Hb. cbn. by rewrite Hd. Qed.
Lemma GetContract_run id s s' c : GetContract id s = (s', Ok c) -> s' = s /\ exists b, kv s !! (CONTRACT_PREFIX ++ id) = Some b /\ dec c_contract b = Ok c.
Proof.
  unfold GetContract, RetrieveFromRlpBytes, Get, bind, gets, coded, lift. destruct (kv s !! _) as [b|]; cbn; [|done].
  destruct (dec c_contract b) eqn:E; intros [= <- <-]. eauto.
Qed.
Lemma succeeds_run {A} (m : St A) s s' : succeeds m s = (s', Ok true) -> exists a, m s = (s', Ok a).
Proof. unfold succeeds. destruct (m s) as [s1 [a|e|]]; intros [= <-]; eauto. Qed.
Lemma bind_ok_run {A B} (m : St A) (k : A -> St B) s s' b : bind m k s = (s', Ok b) -> exists s1 a, m s = (s1, Ok a) /\ k a s1 = (s', Ok b).
Proof. apply bind_inv. Qed.

(** Every juror of a contract gets a row with a copy of it. *)
Lemma save_for_jurors_run nodes c b : enc c_contract c = Ok b -> forall s s' r, save_for_jurors nodes c s = (s', r) -> r = Ok tt /\
  (forall key, kv s' !! key = Some b \/ kv s' !! key = kv s !! key) /\
  (forall node, node ∈ nodes -> kv s' !! (CONTRACT_JURY_PREFIX ++ el_AddrHash node ++ co_ContractId c) = Some b).
Proof.
  intros Hb. induction nodes as [|node nodes IH]; intros s s' r E; cbn in E.
  { injection E as <- <-. split; [done|]. split; [by right|]. by intros node ?%elem_of_nil. }
  unfold bind, SaveContractWithJuryAddr, StoreToRlpBytes, coded, lift in E. unfold bind at 1 in E. rewrite Hb in E. cbn in E.
  destruct (IH _ _ _ E) as (-> & Hkeep & Hrows). split; [done|]. split.
  - intros key. destruct (Hkeep key) as [|Hk]; [by left|]. rewrite Hk. cbn. destruct (decide (key = CONTRACT_JURY_PREFIX ++ el_AddrHash node ++ co_ContractId c)) as [->|Hne].
    + left. by rewrite lookup_insert_eq.
    + right. by rewrite lookup_insert_ne.
  - intros node' [->|Hin]%elem_of_cons; [|by apply Hrows]. destruct (Hkeep (CONTRACT_JURY_PREFIX ++ el_AddrHash node ++ co_ContractId c)) as [|Hk]; [done|].
    rewrite Hk. cbn. by rewrite lookup_insert_eq.
Qed.
Lemma GetContractsWithJuryAddr_found addr id b c s : kv s !! (CONTRACT_JURY_PREFIX ++ addr ++ id) = Some b -> dec c_contract b = Ok c ->
  exists l, GetContractsWithJuryAddr addr s = (s, Ok l) /\ c ∈ l.
Proof.
  intros Hb Hd. unfold GetContractsWithJuryAddr, rows, bind, gets, ret. eexists. split; [reflexivity|]. apply list_elem_of_fmap. exists b.
  split; [unfold decode_contract; by rewrite Hd|]. apply list_elem_of_fmap. exists (CONTRACT_JURY_PREFIX ++ addr ++ id, b). split; [done|].
  apply elem_of_map_to_list. unfold getprefix. apply map_lookup_filter_Some. split; [done|]. cbn. rewrite app_assoc.
  generalize (CONTRACT_JURY_PREFIX ++ addr) as p. intros p. induction p as [|x p IH]; [done|]. cbn. by rewrite beq_refl, IH.
Qed.

(** What a deployment leaves. *)
Lemma deploy_run nil height i tid p requester t s s1 : contracts_encode -> nil && (len (dp_ContractId p) =? 0) = false ->
  saveContractInitPayload nil height i tid p requester t s = (s1, Ok true) ->
  exists v b, let c := NewContract tid p requester (uint64 t) v in enc c_contract c = Ok b /\ dec c_contract b = Ok c /\
    kv s1 !! (CONTRACT_PREFIX ++ dp_ContractId p) = Some b /\
    (forall node, node ∈ EleList (dp_EleNode p) -> kv s1 !! (CONTRACT_JURY_PREFIX ++ el_AddrHash node ++ dp_ContractId p) = Some b).
Proof.
  intros Hc Hn E. unfold saveContractInitPayload in E. rewrite Hn in E. apply succeeds_run in E as ([] & E).
  apply bind_ok_run in E as (sa & [] & _ & E). apply bind_ok_run in E as (sb & v & _ & E). exists v. cbv zeta in E.
  destruct (Hc (NewContract tid p requester (uint64 t) v)) as (b & Hb & Hd). exists b. split; [done|]. split; [done|].
  apply bind_ok_run in E as (sc & [] & E1 & E). rewrite (SaveContract_run _ b sb Hb) in E1. injection E1 as <-.
  set (sc := set_kv _ sb) in E. assert (K : kv sc !! (CONTRACT_PREFIX ++ dp_ContractId p) = Some b).
  { subst sc. cbn. rewrite lookup_insert_ne by done. by rewrite lookup_insert_eq. }
  destruct (EleList (dp_EleNode p)) as [|node nodes] eqn:El; [injection E as <-; split; [done|by intros node ?%elem_of_nil]|].
  rewrite <- El in *. destruct (0 <? len (EleList (dp_EleNode p))) eqn:Hl; [|exfalso; rewrite El, len_cons in Hl; apply Z.ltb_ge in Hl; pose proof (len_nonneg nodes); lia].
  apply bind_ok_run in E as (sd & [] & E1 & E). destruct (save_for_jurors_run _ _ b Hb _ _ _ E) as (_ & Hkeep & Hrows). split; [|exact Hrows].
  destruct (Hkeep (CONTRACT_PREFIX ++ dp_ContractId p)) as [|Hk]; [done|]. rewrite Hk, <- K.
  refine (frame_at any [CONTRACT_JURY_PREFIX] _ _ _ _ _ _ E1 _); [|rewrite take_prefix by done; by apply (bool_decide_eq_false_1 (_ ∈ _))].
  unfold SaveContractJury. apply frame_bind; [tc_solve|by intros ?; split|intros juryb]. apply frame_state; [tc_solve|].
  intros db db'. unfold storeBytesWithVersion. destruct (StateVersion_Bytes _); cbn; [|done..]. intros [= <-] key Hkey. apply lookup_insert_ne.
  intros <-. apply Hkey. left.
Qed.

(** A contract that is stopped is still listed as running for its jurors.  After a deployment with a jury and a stop that
    are both saved, the record of the contract has status 0, and the list of contracts of each juror still has it with
    status 1: the stop does not reach the copies. *)
Theorem stopped_contract_listed nil height i tid p requester t s s1 reqid stop s2 node : contracts_encode ->
  nil && (len (dp_ContractId p) =? 0) = false -> node ∈ EleList (dp_EleNode p) ->
  saveContractInitPayload nil height i tid p requester t s = (s1, Ok true) ->
  st_ContractId stop = dp_ContractId p -> saveContractStop reqid (mkMessage APP_CONTRACT_STOP (Some (PayStop stop))) s1 = (s2, Ok true) ->
  (exists c, GetContract (dp_ContractId p) s2 = (s2, Ok c) /\ co_ContractId c = dp_ContractId p /\ co_Status c = x00) /\
  (exists l c, GetContractsWithJuryAddr (el_AddrHash node) s2 = (s2, Ok l) /\ c ∈ l /\ co_ContractId c = dp_ContractId p /\ co_Status c = x01).
Proof.
  intros Hc Hn Hnode E Hid E2. destruct (deploy_run _ _ _ _ _ _ _ _ _ Hc Hn E) as (v & b & Hb & Hd & Hk & Hrows).
  set (c := NewContract tid p requester (uint64 t) v) in *.
  unfold saveContractStop in E2. cbn [Payload] in E2. apply succeeds_run in E2 as ([] & E2). apply bind_ok_run in E2 as (sa & [] & E3 & E2).
  assert (F : forall q k, q ∈ [CONTRACT_PREFIX; CONTRACT_JURY_PREFIX] -> kv sa !! (q ++ k) = kv s1 !! (q ++ k)).
  { intros q k Hq. refine (frame_at any [CONTRACT_STOP] _ _ _ _ _ _ E3 _).
    - unfold SaveContractStop, StoreToRlpBytes. apply frame_bind; [tc_solve|by intros ?; split|intros ?]. apply frame_put; [tc_solve|]. rewrite take_prefix by done. left.
    - assert (q = CONTRACT_PREFIX \/ q = CONTRACT_JURY_PREFIX) as [-> | ->] by (clear -Hq; set_solver);
        rewrite take_prefix by done; by apply (bool_decide_eq_false_1 (_ ∈ _)). }
  rewrite Hid in E2. apply bind_ok_run in E2 as (sb & c' & E4 & E5). apply GetContract_run in E4 as [-> (b' & Hb' & Hd')].
  rewrite F in Hb' by left. assert (b' = b) as -> by congruence. assert (c' = c) as -> by congruence.
  destruct (Hc (set_Status x00 c)) as (b0 & Hb0 & Hd0). rewrite (SaveContract_run _ b0 sa Hb0) in E5. injection E5 as <-. split.
  - exists (set_Status x00 c). split; [|done]. apply (GetContract_found _ _ b0); [|done]. cbn. rewrite lookup_insert_ne by done. apply lookup_insert_eq.
  - destruct (GetContractsWithJuryAddr_found (el_AddrHash node) (dp_ContractId p) b c
      (set_kv (<[CONTRACT_TPL_INSTANCE_MAP ++ co_TemplateId (set_Status x00 c) ++ co_ContractId (set_Status x00 c) := co_ContractId (set_Status x00 c)]>
                 (<[CONTRACT_PREFIX ++ co_ContractId (set_Status x00 c) := b0]> (kv sa))) sa)) as (l & Hl & Hin); [|done|by exists l, c].
    cbn. rewrite !lookup_insert_ne by done. rewrite F by (right; left). by apply Hrows.
Qed.

End Contracts.

Section Mediators.
Context `{N : Node} `{M : Med.MediatorLib}.

(** ** Mediators *)

Lemma stored_mediator addr mi db : codec_ok Med.c_mediator -> encodable Med.c_mediator mi ->
  exists db', Med.StoreMediatorInfo addr mi db = (db', Ok tt) /\ Med.RetrieveMediatorInfo addr db' = (db', Ok mi).
Proof.
  intros Hc He. destruct (Hc mi He) as (b & Hb & Hd). exists (<[Med.GetMmediatorKey addr := b]> db). unfold Med.StoreMediatorInfo, Med.RetrieveMediatorInfo.
  rewrite Hb. split; [done|]. unfold bind, gets, id. rewrite lookup_insert_eq. by rewrite Hd.
Qed.
(** A call of the deposit contract *)
Definition deposit_call (name arg : bytes) : ContractInvokeRequestPayload := mkInvokeReq (Address_Bytes Med.DepositContractAddress) [name; arg] 0.

Lemma deposit_call_runs arg t version db :
  Med.UpdateStateByContractInvoke (deposit_call Med.ApplyMediator arg) t version db = Med.apply_mediator arg t version db /\
  Med.UpdateStateByContractInvoke (deposit_call Med.UpdateMediatorInfo arg) t version db = Med.update_mediator arg db.
Proof.
  assert (Hd : bool_decide (NewAddress (Address_Bytes Med.DepositContractAddress) ContractHash = Med.DepositContractAddress) = true) by (vm_compute; reflexivity).
  unfold Med.UpdateStateByContractInvoke. cbn [deposit_call vr_ContractId vr_Args]. rewrite Hd. by split.
Qed.

(** Applying and updating.  A call to become a mediator replaces whatever record the account has, and its counters are
    those of a new mediator; an update changes the fields it names, and neither the account nor the counters. *)
Theorem mediator_calls t version arg db addr : codec_ok Med.c_mediator -> (forall mi, encodable Med.c_mediator mi) ->
  (forall mco, Med.unmarshal_create arg = Some (Some mco) -> Med.find_old (Med.AddStr (Med.create_base mco)) = None ->
     Med.StrToMedAdd (Med.AddStr (Med.create_base mco)) = Ok addr ->
     exists db', Med.UpdateStateByContractInvoke (deposit_call Med.ApplyMediator arg) t version db = (db', Ok tt) /\
       Med.RetrieveMediatorInfo addr db' = (db', Ok (Med.mkInfo (Med.create_base mco) (Med.create_apply mco) NewMediatorInfoExpand))) /\
  (forall mua mi, Med.unmarshal_update arg = Some mua -> Med.mua_Validate mua = Ok addr -> Med.RetrieveMediatorInfo addr db = (db, Ok mi) ->
     exists db' mi', Med.UpdateStateByContractInvoke (deposit_call Med.UpdateMediatorInfo arg) t version db = (db', Ok tt) /\
       Med.RetrieveMediatorInfo addr db' = (db', Ok mi') /\ mi' = Med.update_info mua mi /\
       Med.AddStr (Med.info_base mi') = Med.AddStr (Med.info_base mi) /\ Med.info_expand mi' = Med.info_expand mi).
Proof.
  intros Hc He. destruct (deposit_call_runs arg t version db) as [-> ->]. split.
  - intros mco Hu Hf Ha. destruct (stored_mediator addr (Med.mkInfo (Med.create_base mco) (Med.create_apply mco) NewMediatorInfoExpand) db Hc (He _)) as (db' & Hs & Hr).
    exists db'. split; [|done]. unfold Med.apply_mediator. rewrite Hu. unfold bind, get, ret. rewrite Hf. unfold lift. rewrite Ha. by rewrite Hs.
  - intros mua mi Hu Ha Hm. destruct (stored_mediator addr (Med.update_info mua mi) db Hc (He _)) as (db' & Hs & Hr). exists db', (Med.update_info mua mi).
    split; [|by split_and!]. unfold Med.update_mediator. rewrite Hu. unfold bind, lift. rewrite Ha, Hm. by rewrite Hs.
Qed.
End Mediators.

(** ** Samples *)

#[global] Instance contract_eq_dec : EqDecision Contract.
Proof. solve_decision. Defined.
#[global] Program Instance contract_countable : Countable Contract :=
  inj_countable' (fun c => (co_ContractId c, co_TemplateId c, co_Name c, co_Status c, co_Creator c, CreationTime c, co_DuringTime c, co_Version c))
    (fun '(a, b, c, d, e, f, g, h) => mkContract a b c d e f g h) _.
Next Obligation. by intros []. Qed.
Definition life_codecs : StoreCodecs := {|
  c_contract := digit_codec _; c_template := no_codec; c_lookup := digit_codec _; c_body := digit_codec _; c_hash := hash_codec;
  c_jury := mkCodec (fun _ => Ok []) (fun _ => Err (TxRlp "")) (fun _ => False); c_poe := no_codec
|}.
Definition one_juror : ElectionInf := mkElectionInf x00 (replicate 32 x44) [] [].
Definition life_deploy : ContractDeployPayload :=
  mkDeploy [] (replicate 20 x22) "sample" [] (mkElectionNode 1 [one_juror]) [] [] 0 (mkContractError 0 "").
Definition life_stop : ContractStopPayload := mkStop (replicate 20 x22) [] [] (mkContractError 0 "").
Definition life_deployed : Store * result store_error bool :=
  saveContractInitPayload (C := life_codecs) true (Some (mkChainIndex PTNCOIN 7)) 1 [] life_deploy zeroAddress 5 open_store.
Definition life_stopped : Store * result store_error bool :=
  saveContractStop (N := twice_node) (C := life_codecs) (replicate 32 x55) (mkMessage APP_CONTRACT_STOP (Some (PayStop life_stop))) life_deployed.1.
Lemma stopped_contract_listed_witness :
  exists l c, GetContractsWithJuryAddr (C := life_codecs) (replicate 32 x44) life_stopped.1 = (life_stopped.1, Ok l) /\ c ∈ l /\ co_Status c = x01.
Proof.
  destruct (stopped_contract_listed (N := twice_node) (C := life_codecs) true (Some (mkChainIndex PTNCOIN 7)) 1 [] life_deploy zeroAddress 5 open_store life_deployed.1
    (replicate 32 x55) life_stop life_stopped.1 one_juror) as (_ & l & c & Hl & Hin & _ & Hc).
  - intros c. destruct (digit_codec_ok Contract c I) as (b & Hb & Hd). by exists b.
  - reflexivity.
  - left.
  - apply outcome. vm_compute. reflexivity.
  - reflexivity.
  - apply outcome. vm_compute. reflexivity.
  - exact (ex_intro _ l (ex_intro _ c (conj Hl (conj Hin Hc)))).
Defined.

#[global] Instance expand_eq_dec : EqDecision MediatorInfoExpand.
Proof. solve_decision. Defined.
#[global] Instance base_eq_dec : EqDecision Med.MediatorInfoBase.
Proof. solve_decision. Defined.
#[global] Instance apply_eq_dec : EqDecision Med.MediatorApplyInfo.
Proof. solve_decision. Defined.
#[global] Instance info_eq_dec : EqDecision Med.MediatorInfo.
Proof. solve_decision. Defined.
#[global] Program Instance expand_countable : Countable MediatorInfoExpand :=
  inj_countable' (fun e => (TotalMissed e, LastConfirmedUnitNum e, TotalVotes e, TotalProduct e)) (fun '(a, b, c, d) => mkExpand a b c d) _.
Next Obligation. by intros []. Qed.
#[global] Program Instance base_countable : Countable Med.MediatorInfoBase :=
  inj_countable' (fun e => (Med.AddStr e, Med.RewardAdd e, Med.InitPubKey e, Med.Node e)) (fun '(a, b, c, d) => Med.mkBase a b c d) _.
Next Obligation. by intros []. Qed.
#[global] Program Instance apply_countable : Countable Med.MediatorApplyInfo :=
  inj_countable' (fun e => (Med.Logo e, Med.Name e, Med.Location e, Med.Url e, Med.Description e)) (fun '(a, b, c, d, e) => Med.mkApply a b c d e) _.
Next Obligation. by intros []. Qed.
#[global] Program Instance info_countable : Countable Med.MediatorInfo :=
  inj_countable' (fun e => (Med.info_base e, Med.info_apply e, Med.info_expand e)) (fun '(a, b, c) => Med.mkInfo a b c) _.
Next Obligation. by intros []. Qed.

Definition applicant : Address := replicate 20 x07 ++ [x00].
Definition application : Med.MediatorCreateArgs :=
  Med.mkCreateArgs (Med.mkBase (Str toy_encode applicant) "" "key" "node") Med.NewMediatorApplyInfo (Med.mkExtraJson "" "").
Definition sample_mediators : Med.MediatorLib := {|
  Med.c_mediator := digit_codec _; Med.unmarshal_create := fun _ => Some (Some application); Med.unmarshal_update := fun _ => None;
  Med.marshal_juror := fun _ => None; Med.point_ok := fun _ => true; Med.node_ok := fun _ => Some true
|}.
Lemma mediator_calls_witness : exists db',
  Med.RetrieveMediatorInfo (M := sample_mediators) applicant db' =
    (db', Ok (Med.mkInfo (Med.create_base application) Med.NewMediatorApplyInfo NewMediatorInfoExpand)).
Proof.
  destruct (proj1 (mediator_calls (N := header_node) (M := sample_mediators) 5 (mkVersion None 0) [] ∅ applicant ltac:(apply digit_codec_ok) ltac:(done)) application)
    as (db' & _ & H); [reflexivity|vm_compute; reflexivity..|by exists db'].
Defined.
