(* ===== verification/Pickup.v ===== *)
(** * Choosing the outputs to spend

    src/core/utxo_pickup.go: what every payment made by a node or a contract
    spends.  The loop stops at the 500th output; the sum is a uint64 and wraps
    around.  [sort.Sort] leaves the order of equal elements open, and the slices it
    is given come from iterating over maps: the classes [GoSorter] and [GoRange]. *)

From S2P Require Import Prelude HeapSort.
From Stdlib Require Import ZArith Lia Bool Sorting.Sorted.
Local Open Scope Z_scope.

Module Pick.

(** ** sort.Sort with any order of equal elements, and the order of a range over a map *)

Class GoSorter {A : Type} (less : A -> A -> bool) := {
  sort_Sort : list A -> list A;
  sort_perm : forall l, sort_Sort l ≡ₚ l;
  sort_sorted : forall l, StronglySorted (Heap.le_of less) (sort_Sort l) }.

#[export] Instance GoSort_sorter {A : Type} (less : A -> A -> bool) `{!Heap.LessOrder less} : GoSorter less :=
  {| sort_Sort := Heap.GoSort less; sort_perm := Heap.GoSort_perm less; sort_sorted := Heap.GoSort_sorted less |}.

(** ** The choice *)

Inductive pick_error :=
| Fragment          (* Utxo Fragment More 500,Please Decrease Amount To Pay *)
| NotEnough.        (* Amount Not Enough to pay *)

Section Select.
Context {A : Type} (GetAmount : A -> Z).

(** [Utxos.Less]: the greater amount comes first. *)
Definition Less (a b : A) : bool := GetAmount b <? GetAmount a.

#[export] Instance Less_order : Heap.LessOrder Less.
Proof. split; unfold Less; intros *; rewrite ?Z.ltb_lt, ?Z.ltb_ge; lia. Qed.

(** [for i, utxo := range utxos] and what follows it. *)
Fixpoint pick_loop (i accum : Z) (taken utxos : list A) (amount : Z) : result pick_error (list A * Z) :=
  match utxos with
  | [] => if accum <? amount then Err NotEnough else Ok (taken, uint64 (accum - amount))
  | utxo :: utxos =>
      let accum := uint64 (accum + GetAmount utxo) in
      let taken := taken ++ [utxo] in
      if 499 <=? i then
        if accum <? amount then Err Fragment else Ok (taken, uint64 (accum - amount))
      else pick_loop (i + 1) accum taken utxos amount
  end.

Context `{!GoSorter Less}.
Definition Select_utxo_Greedy (utxos : list A) (amount : Z) : result pick_error (list A * Z) :=
  pick_loop 0 0 [] (sort_Sort utxos) amount.

(** ** What it does *)

Definition total (l : list A) : Z := foldr (fun a s => GetAmount a + s) 0 l.
Definition cap : nat := 500.

Lemma picked_app l k : total (l ++ k) = total l + total k.
Proof. induction l; simpl; lia. Qed.
#[export] Instance total_proper : Proper ((≡ₚ) ==> (=)) total.
Proof. induction 1; simpl; lia. Qed.

Lemma pick_loop_eq amount us : forall i accum taken, 0 <= i <= 499 -> 0 <= accum < 2 ^ 64 -> 0 <= amount < 2 ^ 64 ->
  pick_loop i accum taken us amount =
    let top := take (500 - Z.to_nat i) us in
    let sum := uint64 (accum + total top) in
    if sum <? amount then Err (if (500 - Z.to_nat i <=? length us)%nat then Fragment else NotEnough)
    else Ok (taken ++ top, sum - amount).
Proof.
  assert (Hsub : forall x y, 0 <= x < 2 ^ 64 -> 0 <= y < 2 ^ 64 -> (x <? y) = false -> uint64 (x - y) = x - y).
  { intros x y Hx Hy Hlt. apply uint64_small. apply Z.ltb_ge in Hlt. lia. }
  induction us as [|u us IH]; intros i accum taken Hi Ha Hm; cbn [pick_loop].
  - rewrite take_nil. cbn [total foldr]. rewrite Z.add_0_r, (uint64_small accum) by lia. cbv zeta.
    rewrite app_nil_r. destruct (accum <? amount) eqn:Hlt.
    + rewrite (proj2 (Nat.leb_gt _ _)); [done|]. simpl. lia.
    + by rewrite Hsub.
  - assert (Hacc : 0 <= uint64 (accum + GetAmount u) < 2 ^ 64) by (apply wrapU_range; lia).
    destruct (Z.leb_spec 499 i) as [Hle|Hgt].
    + replace (500 - Z.to_nat i)%nat with 1%nat by lia. cbn [take total foldr]. rewrite Z.add_0_r.
      replace (1 <=? length (u :: us))%nat with true by (symmetry; apply Nat.leb_le; simpl; lia).
      destruct (_ <? amount) eqn:Hlt; [done|]. by rewrite Hsub.
    + rewrite IH by lia. replace (500 - Z.to_nat i)%nat with (S (500 - Z.to_nat (i + 1))) by lia. cbv zeta.
      assert (uint64 (uint64 (accum + GetAmount u) + total (take (500 - Z.to_nat (i + 1)) us)) =
              uint64 (accum + total (take (S (500 - Z.to_nat (i + 1))) (u :: us)))) as ->.
      { cbn [take total foldr]. fold (total (take (500 - Z.to_nat (i + 1)) us)). unfold uint64, wrapU. rewrite Zplus_mod_idemp_l. f_equal. lia. }
      change (length (u :: us)) with (S (length us)). cbn [Nat.leb take]. by rewrite <- (app_assoc taken).
Qed.

(** The 500 outputs of the greatest amounts. *)
Definition top (utxos : list A) : list A := take cap (sort_Sort utxos).

Lemma Select_eq utxos amount : 0 <= amount < 2 ^ 64 ->
  Select_utxo_Greedy utxos amount =
    if uint64 (total (top utxos)) <? amount then Err (if (cap <=? length utxos)%nat then Fragment else NotEnough)
    else Ok (top utxos, uint64 (total (top utxos)) - amount).
Proof.
  intros Hm. unfold Select_utxo_Greedy. rewrite pick_loop_eq by lia. cbv zeta. rewrite Z.add_0_l, app_nil_l.
  change (500 - Z.to_nat 0)%nat with cap. by rewrite (Permutation_length (sort_perm utxos)).
Qed.

Lemma top_split utxos : exists rest, utxos ≡ₚ top utxos ++ rest /\ forall a b, a ∈ top utxos -> b ∈ rest -> GetAmount b <= GetAmount a.
Proof.
  exists (drop cap (sort_Sort utxos)). unfold top. split; [by rewrite take_drop, sort_perm|].
  pose proof (sort_sorted utxos) as Hs. rewrite <- (take_drop cap (sort_Sort utxos)) in Hs. revert Hs.
  generalize (take cap (sort_Sort utxos)) as l. intros l. induction l as [|x l IH]; intros Hs a b Ha Hb; [by apply not_elem_of_nil in Ha|].
  apply StronglySorted_inv in Hs as [Hs Hx]. apply elem_of_cons in Ha as [->|Ha]; [|by apply IH].
  rewrite Forall_forall in Hx. assert (Hlt : Less b x = false) by (apply Hx, elem_of_app; by right).
  unfold Less in Hlt. apply Z.ltb_ge in Hlt. done.
Qed.
Lemma top_length utxos : (length (top utxos) <= cap)%nat.
Proof. unfold top. rewrite length_take. lia. Qed.
Lemma top_subset utxos : top utxos ⊆+ utxos.
Proof. destruct (top_split utxos) as (rest & Hp & _). transitivity (top utxos ++ rest); [apply submseteq_inserts_r; done|]. by apply Permutation_submseteq. Qed.

Lemma total_nonneg l : Forall (fun a => 0 <= GetAmount a) l -> 0 <= total l.
Proof. induction 1; simpl; lia. Qed.
Lemma total_dominated l : forall k, (length l <= length k)%nat -> Forall (fun a => 0 <= GetAmount a) k ->
  (forall a b, a ∈ k -> b ∈ l -> GetAmount b <= GetAmount a) -> total l <= total k.
Proof.
  induction l as [|b l IH]; intros [|a k] Hlen Hk Hle; simpl in *; try lia; [apply (total_nonneg (a :: k)); done|].
  apply Forall_cons in Hk as [Ha Hk]. assert (GetAmount b <= GetAmount a) by (apply Hle; left).
  assert (total l <= total k); [|lia]. apply IH; [lia|done|]. intros. apply Hle; by right.
Qed.

(** No choice of at most 500 outputs is worth more. *)
Lemma top_greatest utxos l : Forall (fun a => 0 <= GetAmount a) utxos -> l ⊆+ utxos -> (length l <= cap)%nat ->
  total l <= total (top utxos).
Proof.
  intros Hpos Hl Hlen. destruct (top_split utxos) as (rest & Hp & Hge).
  assert (Htop : Forall (fun a => 0 <= GetAmount a) (top utxos)).
  { rewrite Hp in Hpos. by apply Forall_app in Hpos as [? _]. }
  assert (Hl' : l ⊆+ top utxos ++ rest) by (transitivity utxos; [done|by apply Permutation_submseteq]).
  apply submseteq_app_r in Hl' as (l1 & l2 & Hl12 & H1 & H2).
  apply submseteq_Permutation in H1 as (k & Hk). rewrite Hl12, Hk, !picked_app.
  assert (total l2 <= total k); [|lia]. apply total_dominated.
  - assert (Hn : length utxos = length (top utxos ++ rest)) by (by apply Permutation_length).
    apply submseteq_length in H2. apply (Permutation_length) in Hl12, Hk. rewrite length_app in *.
    assert (length (top utxos) = Nat.min cap (length utxos)) by (unfold top; by rewrite length_take, (Permutation_length (sort_perm utxos))).
    lia.
  - rewrite Hk in Htop. by apply Forall_app in Htop as [_ ?].
  - intros a b Ha Hb. apply Hge; [rewrite Hk; apply elem_of_app; by right|by eapply elem_of_submseteq].
Qed.

(** The outputs taken are the 500 greatest (all of them when there are fewer), whatever is asked for:
    the loop never stops because the amount is reached. *)
Theorem Select_takes_all utxos amount taken change : 0 <= amount < 2 ^ 64 ->
  Select_utxo_Greedy utxos amount = Ok (taken, change) -> length taken = Nat.min cap (length utxos).
Proof.
  intros Hm H. rewrite Select_eq in H by done. destruct (_ <? _); [done|]. injection H as <- _.
  unfold top. by rewrite length_take, (Permutation_length (sort_perm utxos)).
Qed.

(** C31: Bounds of the choice.  At most 500 outputs are taken, each as often as it was offered and
    none smaller than one left behind, and the change is what they are worth above the amount.
    When the 500 greatest do not overflow 64 bits, the choice fails exactly when no 500 outputs
    cover the amount. *)
Theorem Select_bounds utxos amount :
  0 <= amount < 2 ^ 64 -> Forall (fun a => 0 <= GetAmount a) utxos -> total (top utxos) < 2 ^ 64 ->
  (forall taken change, Select_utxo_Greedy utxos amount = Ok (taken, change) ->
     (length taken <= cap)%nat /\ 0 <= change < 2 ^ 64 /\ total taken = amount + change /\
     exists left, utxos ≡ₚ taken ++ left /\ forall a b, a ∈ taken -> b ∈ left -> GetAmount b <= GetAmount a) /\
  ((exists e, Select_utxo_Greedy utxos amount = Err e) <->
     forall l, l ⊆+ utxos -> (length l <= cap)%nat -> total l < amount) /\
  Select_utxo_Greedy utxos amount <> Panic.
Proof.
  intros Hm Hpos Hsum. rewrite Select_eq by done.
  assert (H0 : 0 <= total (top utxos)).
  { destruct (top_split utxos) as (rest & Hp & _). rewrite Hp in Hpos. apply total_nonneg. by apply Forall_app in Hpos as [? _]. }
  rewrite uint64_small by lia. split_and!.
  - intros taken change H. destruct (_ <? _) eqn:Hlt; [done|]. apply Z.ltb_ge in Hlt. injection H as <- <-.
    split_and!; [apply top_length|lia|lia|lia|]. apply top_split.
  - destruct (_ <? _) eqn:Hlt; [apply Z.ltb_lt in Hlt|apply Z.ltb_ge in Hlt]; split.
    + intros _ l Hl Hlen. pose proof (top_greatest utxos l Hpos Hl Hlen). lia.
    + eauto.
    + intros [e He]. done.
    + intros Hall. specialize (Hall (top utxos) (top_subset utxos) (top_length utxos)). lia.
  - by destruct (_ <? _).
Qed.

End Select.

Lemma Select_bounds_witness :
  Select_utxo_Greedy (fun z : Z => z) [3; 10; 4] 5 = Ok ([10; 4; 3], 12) /\
  (length [10; 4; 3] <= cap)%nat.
Proof.
  assert (E : Select_utxo_Greedy (fun z : Z => z) [3; 10; 4] 5 = Ok ([10; 4; 3], 12)) by reflexivity.
  split; [exact E|]. refine (proj1 (proj1 (Select_bounds (fun z : Z => z) [3; 10; 4] 5 _ _ _) _ _ E)).
  - lia.
  - repeat constructor; lia.
  - reflexivity.
Defined.

Lemma Select_takes_all_witness : length [10; 4; 3] = Nat.min cap (length [3; 10; 4]).
Proof. apply (Select_takes_all (fun z : Z => z) [3; 10; 4] 5 [10; 4; 3] 12); [lia|reflexivity]. Defined.

(** Two outputs of 2^63 are "not enough" to pay 1: the sum wraps around to 0. *)
Example Select_wraps : Select_utxo_Greedy (fun z : Z => z) [2 ^ 63; 2 ^ 63] 1 = Err NotEnough.
Proof. reflexivity. Qed.
(** An output covers the amount, a second is spent all the same. *)
Example Select_not_least : Select_utxo_Greedy (fun z : Z => z) [10; 1] 5 = Ok ([10; 1], 6).
Proof. reflexivity. Qed.

End Pick.
