(* ===== verification/Wallet.v ===== *)
(** * Building the payments of an account

    src/dag/dag_transaction.go: the transactions a node makes for its own accounts:
    a transfer, a transfer of a token, a vote, each a payment whose inputs
    utxo_pickup.go chooses.  The outputs come from the ledger (Ledger.v); the
    transaction pool is asked whether it spends an outpoint already.  The JSON form
    of a vote and the size of a payload are parameters. *)

From S2P Require Import Prelude Opcode Script Address Standard Tx AssetId Float64 SigHash SigCache Engine TokenApi Unit ValPayment Ledger HeapSort Pickup.
From Stdlib Require Import ZArith Lia Bool.
Local Open Scope Z_scope.

Module Wallet.
Import Pick.

Record Txo4Greedy := newTxo4Greedy { tg_OutPoint : OutPoint; tg_Amount : Z }.
Definition GetAmount (txo : Txo4Greedy) : Z := tg_Amount txo.

Inductive wallet_error :=
| LedgerError (e : utxo_error) | EmptyUtxos | EmptyTokenUtxos | ZeroFee | LowBalance | Unpicked | TxError (e : tx_error) | JsonError.

Definition NewTxIn (prevOut : OutPoint) (signatureScript : bytes) : Input := mkInput signatureScript [] (Some prevOut).
Definition NewTxOut (value : Z) (pkScript : bytes) (asset : Asset) : Output := mkOutput value pkScript (Some asset).
Definition ToAsset (id : bytes) : Asset := mkAsset id ZeroUniqueId.

(** The result of a method on a transaction that was just made. *)
Definition made (tx : Transaction) (m : ST Transaction tx_error unit) : result wallet_error Transaction :=
  match m tx with (tx', Ok _) => Ok tx' | (_, Err e) => Err (TxError e) | (_, Panic) => Panic end.
Definition from_ledger {A} (r : result utxo_error A) : result wallet_error A :=
  match r with Ok a => Ok a | Err e => Err (LedgerError e) | Panic => Panic end.

Section Wallet.
Context `{ScriptEnv} `{!GoRange OutPoint Utxo} `{!GoSorter (Less GetAmount)}.
Variables (db : UtxoDb) (OutPointIsSpend : OutPoint -> bool) (GasToken : bytes).

(** ** The outputs an account can spend *)

(** One turn of the loop of getAddrCoreUtxos. *)
Definition core_turn (acc : result wallet_error (gmap OutPoint Utxo)) (ou : OutPoint * Utxo) : result wallet_error (gmap OutPoint Utxo) :=
  let? coreUtxos := acc in
  let? asset := rget (u_Asset ou.2) in
  if negb (bytes_equal (AssetId asset) GasToken) then Ok coreUtxos else
  if IsSpent ou.2 then Ok coreUtxos else
  if OutPointIsSpend ou.1 then Ok coreUtxos else
  Ok (<[ou.1 := ou.2]> coreUtxos).
Definition getAddrCoreUtxos (addr : Address) : result wallet_error (gmap OutPoint Utxo) :=
  let? allTxos := from_ledger (GetAddrUtxos addr None db) in
  fold_left core_turn (go_range allTxos) (Ok ∅).

Definition token_turn (token : Asset) (acc : result wallet_error (gmap OutPoint Utxo * gmap OutPoint Utxo)) (ou : OutPoint * Utxo)
  : result wallet_error (gmap OutPoint Utxo * gmap OutPoint Utxo) :=
  let? (coreUtxos, tokenUtxos) := acc in
  let? asset := rget (u_Asset ou.2) in
  let isPTN := bytes_equal (AssetId asset) GasToken in
  if negb isPTN && negb (Asset_Equal asset token) then Ok (coreUtxos, tokenUtxos) else
  if IsSpent ou.2 then Ok (coreUtxos, tokenUtxos) else
  if OutPointIsSpend ou.1 then Ok (coreUtxos, tokenUtxos) else
  Ok (if isPTN then (<[ou.1 := ou.2]> coreUtxos, tokenUtxos) else (coreUtxos, <[ou.1 := ou.2]> tokenUtxos)).
Definition getAddrCoreUtxosToken (addr : Address) (assetToken : Asset) : result wallet_error (gmap OutPoint Utxo * gmap OutPoint Utxo) :=
  let? allTxos := from_ledger (GetAddrUtxos addr None db) in
  fold_left (token_turn assetToken) (go_range allTxos) (Ok (∅, ∅)).

(** ** Payments *)

Definition greedy_utxos (utxos : gmap OutPoint Utxo) : list Txo4Greedy :=
  map (fun ou : OutPoint * Utxo => newTxo4Greedy ou.1 (u_Amount ou.2)) (go_range utxos).
Definition select (utxos : gmap OutPoint Utxo) (daoTotal : Z) : result wallet_error (list Txo4Greedy * Z) :=
  match Select_utxo_Greedy GetAmount (greedy_utxos utxos) daoTotal with Ok r => Ok r | Err _ => Err Unpicked | Panic => Panic end.
(** The change goes back to the payer, in the same output when the payer pays itself. *)
Definition out_amounts (from to : Address) (daoAmount change : Z) : list (Address * Z) :=
  if 0 <? change then
    if Equal from to then [(to, uint64 (daoAmount + change))] else [(to, daoAmount); (from, change)]
  else [(to, daoAmount)].
Definition payment_of (selUtxos : list Txo4Greedy) (outAmounts : list (Address * Z)) (asset : Asset) : PaymentPayload :=
  mkPayment (map (fun tg => NewTxIn (tg_OutPoint tg) []) selUtxos)
            (map (fun oa : Address * Z => NewTxOut oa.2 (GenerateLockScript oa.1) asset) outAmounts) 0.
Definition NewMessage (p : PaymentPayload) : Message := mkMessage APP_PAYMENT (Some (PayPayment p)).

Definition createBaseTransaction (from to : Address) (daoAmount daoFee : Z) (certID : option bytes) : result wallet_error Transaction :=
  let daoTotal := uint64 (daoAmount + daoFee) in
  let? coreUtxos := getAddrCoreUtxos from in
  if bool_decide (coreUtxos = ∅) then Err EmptyUtxos else
  let? (selUtxos, change) := select coreUtxos daoTotal in
  let pload := payment_of selUtxos (out_amounts from to daoAmount change) (ToAsset GasToken) in
  made (NewTransaction [NewMessage pload]) (SetCertId env_keccakHash (default [] certID)).

(** The asset is that of some output offered. *)
Definition getPayload (from to : Address) (daoAmount daoFee : Z) (utxos : gmap OutPoint Utxo) : result wallet_error PaymentPayload :=
  let daoTotal := uint64 (daoAmount + daoFee) in
  let? (selUtxos, change) := select utxos daoTotal in
  let? asset := match go_range utxos with [] => Ok (mkAsset ZeroIdType16 ZeroUniqueId) | ou :: _ => rget (u_Asset ou.2) end in
  Ok (payment_of selUtxos (out_amounts from to daoAmount change) asset).

Definition GetPtnBalance (addr : Address) : Z := GetAccountBalance addr db.

Definition createTokenTransaction (from to : Address) (token : Asset) (daoAmountToken daoFee : Z) : result wallet_error Transaction :=
  if daoFee =? 0 then Err ZeroFee else
  if GetPtnBalance from <? daoFee then Err LowBalance else
  let? (coreUtxos, tokenUtxos) := getAddrCoreUtxosToken from token in
  if bool_decide (coreUtxos = ∅) then Err EmptyUtxos else
  if bool_decide (tokenUtxos = ∅) then Err EmptyTokenUtxos else
  let? ploadPTN := getPayload from from 0 daoFee coreUtxos in
  let? ploadToken := getPayload from to daoAmountToken 0 tokenUtxos in
  Ok (NewTransaction [NewMessage ploadPTN; NewMessage ploadToken]).

(** ** Transactions *)

Section Transactions.
Variables (cp : ChainParameters) (CalcDateSize : option payload -> Z) (marshal : gmap string bool -> option bytes).

Definition calculateDataFee (data : option payload) : Z :=
  to_uint64 (fdiv (fmul (of_int (CalcDateSize data)) (of_int (TransferPtnPricePerKByte cp))) (of_int 1024)).
Definition with_data_fee (msg : Message) (daoFee : Z) : Z :=
  if App msg =? APP_DATA then uint64 (daoFee + calculateDataFee (Payload msg)) else daoFee.

Definition CreateGenericTransaction (from to : Address) (daoAmount daoFee : Z) (certID : option bytes) (msg : Message)
  : result wallet_error (Transaction * Z) :=
  let daoFee := with_data_fee msg daoFee in
  let? tx := createBaseTransaction from to daoAmount daoFee certID in
  let? tx := made tx (AddMessage env_keccakHash (Some msg)) in
  Ok (tx, daoFee).
Definition CreateTokenTransaction (from to : Address) (token : Asset) (daoAmountToken daoFee : Z) (msg : Message)
  : result wallet_error (Transaction * Z) :=
  let daoFee := with_data_fee msg daoFee in
  let? tx := createTokenTransaction from to token daoAmountToken daoFee in
  let? tx := made tx (AddMessage env_keccakHash (Some msg)) in
  Ok (tx, daoFee).
Definition GenVoteMediatorTx (voter : Address) (mediators : gmap string bool) : result wallet_error (Transaction * Z) :=
  match marshal mediators with
  | None => Err JsonError
  | Some msb =>
      let accountUpdate := mkAccountUpdate [mkAccountWrite false "VotedMediators" msb] in
      let msg := mkMessage APP_ACCOUNT_UPDATE (Some (PayAccountUpdate accountUpdate)) in
      CreateGenericTransaction voter voter 0 (AccountUpdateFee cp) None msg
  end.
Definition GenTransferPtnTx (from to : Address) (daoAmount : Z) (text : option string) : result wallet_error (Transaction * Z) :=
  let fee := TransferPtnBaseFee cp in
  match text with
  | None | Some ""%string =>
      let? tx := createBaseTransaction from to daoAmount fee None in Ok (tx, fee)
  | Some text =>
      let msg := mkMessage APP_DATA (Some (PayData (mkData (String.list_byte_of_string text) [] []))) in
      CreateGenericTransaction from to daoAmount fee None msg
  end.
End Transactions.

End Wallet.
End Wallet.
