(* ===== verification/WalletProps.v ===== *)
(** * The payments of an account, in the ledger and before the validator

    What the transactions of Wallet.v spend and pay, that the fee the validator
    computes from them is the fee asked for, and the requests whose transactions
    the validator cannot accept. *)

From S2P Require Import Prelude Errors Opcode Text Script Builder Address Standard Tx TxProps AssetId Float64 SigHash SigCache Engine EngineProps TokenApi TxFee Unit ValPayment ValPayProps ValTx StateDb Rwset Ledger RlpModel SigCheck Steps Spend Redeem Sign SignProps ApiProps ValSigned LedgerProps HeapSort Pickup Wallet.
From Stdlib Require Import ZArith Lia Bool.
Local Open Scope Z_scope.

Module WalletProps.
Import Pick Wallet.

Section Wallet.
Context `{E : ScriptEnv} `{R : !GoRange OutPoint Utxo} `{S : !GoSorter (Less GetAmount)}.
Variables (db : UtxoDb) (OutPointIsSpend : OutPoint -> bool) (GasToken : bytes).
Implicit Types (o : OutPoint) (u : Utxo) (m : gmap OutPoint Utxo) (from to : Address).

(** An output of the gas token that neither the ledger nor the pool says is spent. *)
Definition core_utxo (ou : OutPoint * Utxo) : Prop :=
  (exists a, u_Asset ou.2 = Some a /\ AssetId a = GasToken) /\ IsSpent ou.2 = false /\ OutPointIsSpend ou.1 = false.
Definition offered from (ou : OutPoint * Utxo) : Prop :=
  ou.1 ∈ GetAddrOutpoints from db /\ utxos db !! ou.1 = Some ou.2 /\ core_utxo ou.

Local Abbreviation turn := (core_turn OutPointIsSpend GasToken).

Lemma core_fold_stuck r l : (forall m, r <> Ok m) -> fold_left turn l r = r.
Proof.
  revert r. induction l as [|ou l IH]; intros r Hr; [done|]. cbn [fold_left].
  destruct r as [m| |]; [by destruct (Hr m)| |]; by apply IH.
Qed.
Lemma core_turn_ok m ou m' : turn (Ok m) ou = Ok m' ->
  (core_utxo ou /\ m' = <[ou.1 := ou.2]> m) \/ (~ core_utxo ou /\ m' = m).
Proof.
  unfold core_turn, core_utxo, rget, bytes_equal. cbn [rbind]. destruct (u_Asset ou.2) as [a|]; cbn [rbind]; [|done].
  case_bool_decide as Ha; cbn [negb]; [|intros [= <-]; right; split; [naive_solver|done]].
  destruct (IsSpent ou.2); [intros [= <-]; right; split; [naive_solver|done]|].
  destruct (OutPointIsSpend ou.1); intros [= <-]; [right; naive_solver|left; naive_solver].
Qed.
Lemma core_fold l : forall m m', fold_left turn l (Ok m) = Ok m' -> NoDup l.*1 -> (forall o, o ∈ l.*1 -> m !! o = None) ->
  forall o u, m' !! o = Some u <-> m !! o = Some u \/ ((o, u) ∈ l /\ core_utxo (o, u)).
Proof.
  induction l as [|ou l IH]; intros m m' Hf Hnd Hm o u; cbn [fold_left] in Hf.
  - injection Hf as <-. split; [by left|]. intros [?|[Hin _]]; [done|by apply not_elem_of_nil in Hin].
  - destruct (turn (Ok m) ou) as [m1| |] eqn:Ht; [|by rewrite core_fold_stuck in Hf..].
    cbn [fmap list_fmap] in Hnd, Hm. apply NoDup_cons in Hnd as [Hnot Hnd].
    assert (Hl : forall o', o' ∈ l.*1 -> ou.1 <> o') by (intros o' Ho' <-; done).
    assert (Hin : forall o' u', (o', u') ∈ l -> o' ∈ l.*1) by (intros o' u' Hin; apply list_elem_of_fmap; by exists (o', u')).
    rewrite (IH m1 m' Hf Hnd), elem_of_cons.
    + apply core_turn_ok in Ht as [[Hc ->]|[Hc ->]].
      * destruct (decide (ou.1 = o)) as [<-|Hne]; [rewrite lookup_insert_eq|rewrite lookup_insert_ne by done].
        -- assert (Hmo : m !! ou.1 = None) by (apply Hm; left). rewrite Hmo. split.
           ++ intros [[= <-]|[Hi _]]; [right; by destruct ou; split; [left|]|]. by destruct Hnot; eapply Hin.
           ++ intros [[=]|[[Heq|Hi] _]]; [left; by rewrite <- Heq|]. by destruct Hnot; eapply Hin.
        -- split; [naive_solver|]. intros [?|[[<-|?] ?]]; [by left|done|by right].
      * split; [naive_solver|]. intros [?|[[->|?] ?]]; [by left|done|by right].
    + intros o' Ho'. apply core_turn_ok in Ht as [[_ ->]|[_ ->]]; [rewrite lookup_insert_ne by by apply Hl|]; by apply Hm; right.
Qed.

Lemma core_utxos_spec from core : getAddrCoreUtxos db OutPointIsSpend GasToken from = Ok core ->
  forall o u, core !! o = Some u <-> offered from (o, u).
Proof.
  unfold getAddrCoreUtxos, GetAddrUtxos. destruct (utxos_at_lookup (GetAddrOutpoints from db) db) as (all & Hall & Hl).
  rewrite Hall. cbn [from_ledger rbind]. intros Hf o u. rewrite (core_fold _ _ _ Hf).
  - rewrite lookup_empty, go_range_perm, elem_of_map_to_list, Hl. unfold offered. cbn [fst snd]. naive_solver.
  - rewrite go_range_perm. apply NoDup_fst_map_to_list.
  - intros o' _. apply lookup_empty.
Qed.

(** ** What is chosen *)

Lemma greedy_outpoints m : NoDup (map tg_OutPoint (greedy_utxos m)).
Proof. unfold greedy_utxos. rewrite map_map. cbn. rewrite go_range_perm. apply NoDup_fst_map_to_list. Qed.

Lemma select_inv m total sel change : select m total = Ok (sel, change) -> Select_utxo_Greedy GetAmount (greedy_utxos m) total = Ok (sel, change).
Proof. unfold select. destruct (Select_utxo_Greedy _ _ _) as [r| |]; congruence. Qed.

(** A choice among the outputs of a map is a list of its entries. *)
Lemma chosen_entries m sel : sel ⊆+ greedy_utxos m ->
  exists l : list (OutPoint * Utxo), NoDup l.*1 /\ Forall (fun ou => m !! ou.1 = Some ou.2) l /\
    sel = map (fun ou => newTxo4Greedy ou.1 (u_Amount ou.2)) l.
Proof.
  intros Hs. assert (Hin : Forall (fun tg => exists u, m !! tg_OutPoint tg = Some u /\ tg_Amount tg = u_Amount u) sel).
  { apply Forall_forall. intros tg Htg. eapply elem_of_submseteq in Hs; [|done]. unfold greedy_utxos in Hs.
    apply list_elem_of_fmap in Hs as (ou & -> & Hou). rewrite go_range_perm in Hou. destruct ou as [o u].
    apply elem_of_map_to_list in Hou. by exists u. }
  assert (Hnd : NoDup (map tg_OutPoint sel)).
  { pose proof (greedy_outpoints m) as Hnd. apply submseteq_Permutation in Hs as (k & Hk). rewrite Hk, map_app in Hnd.
    by apply NoDup_app in Hnd as [? _]. }
  clear Hs. induction sel as [|tg sel IH]; [exists []; by repeat constructor|].
  apply Forall_cons in Hin as [(u & Hu & Ha) Hin]. cbn [map] in Hnd. apply NoDup_cons in Hnd as [Hnot Hnd].
  destruct (IH Hin Hnd) as (l & Hl1 & Hl2 & ->). exists ((tg_OutPoint tg, u) :: l). split_and!.
  - cbn. constructor; [|done]. rewrite map_map in Hnot. done.
  - by constructor.
  - cbn. rewrite <- Ha. by destruct tg.
Qed.

Definition amounts (l : list (OutPoint * Utxo)) : Z := sum_amounts l.*2.
Lemma total_amounts l : Pick.total GetAmount (map (fun ou : OutPoint * Utxo => newTxo4Greedy ou.1 (u_Amount ou.2)) l) = amounts l.
Proof. induction l as [|ou l IH]; [done|]. change (u_Amount ou.2 + Pick.total GetAmount (map (fun ou : OutPoint * Utxo => newTxo4Greedy ou.1 (u_Amount ou.2)) l) = u_Amount ou.2 + amounts l). by rewrite IH. Qed.

(** ** The transaction *)

Lemma made_certified tx0 cert tx : made tx0 (SetCertId env_keccakHash cert) = Ok tx -> Messages tx = Messages tx0.
Proof.
  unfold made, SetCertId, set_data, bind, gets, modify, lift. destruct ((Hash_ env_keccakHash _).2); [|done|done].
  cbn. by intros [= <-].
Qed.

Definition made_payment (sel : list (OutPoint * Utxo)) (outs : list (Address * Z)) : PaymentPayload :=
  payment_of (map (fun ou : OutPoint * Utxo => newTxo4Greedy ou.1 (u_Amount ou.2)) sel) outs (ToAsset GasToken).

Local Abbreviation base := (createBaseTransaction db OutPointIsSpend GasToken).

Lemma base_inv from to amt fee cert tx : base from to amt fee cert = Ok tx ->
  exists core sel change, getAddrCoreUtxos db OutPointIsSpend GasToken from = Ok core /\ core <> ∅ /\
    Select_utxo_Greedy GetAmount (greedy_utxos core) (uint64 (amt + fee)) = Ok (sel, change) /\
    Messages tx = [NewMessage (payment_of sel (out_amounts from to amt change) (ToAsset GasToken))].
Proof.
  unfold createBaseTransaction. destruct (getAddrCoreUtxos _ _ _ from) as [core| |]; cbn [rbind]; [|done|done].
  case_bool_decide as Hc; [done|]. destruct (select core _) as [[sel change]| |] eqn:Hs; cbn [rbind]; [|done|done].
  intros Hm. apply made_certified in Hm. exists core, sel, change. split_and!; [done|done|by apply select_inv|by rewrite Hm].
Qed.

Lemma input_points sel outs : map PreviousOutPoint (Inputs (made_payment sel outs)) = map Some sel.*1.
Proof. unfold made_payment, payment_of. cbn. rewrite !map_map. by apply map_ext. Qed.

Lemma payment_values sel from to amt change : 0 <= amt -> 0 <= change -> amt + change < 2 ^ 64 ->
  ValPayProps.sum_values (Outputs (made_payment sel (out_amounts from to amt change))) = amt + change.
Proof.
  intros Ha Hc Hlt. unfold out_amounts. destruct (Z.ltb_spec 0 change); [|cbn; lia].
  destruct (Equal from to); cbn; [|lia]. rewrite uint64_small by lia. lia.
Qed.

Lemma inputs_resolve sel : Forall (fun ou : OutPoint * Utxo => utxos db !! ou.1 = Some ou.2) sel -> forall outs,
  TxProps.resolves (query_of (ledger_query db)) (Inputs (made_payment sel outs)) sel.*2.
Proof.
  intros Hs outs. unfold TxProps.resolves, made_payment, payment_of. cbn. rewrite map_map.
  induction Hs as [|ou sel Hou _ IH]; cbn; constructor; [|done]. cbn. by rewrite Hou.
Qed.

Lemma not_coinbase sel outs : sel <> [] -> IsCoinbase (made_payment sel outs) = false.
Proof.
  intros Hne. unfold IsCoinbase, made_payment, payment_of. cbn. rewrite map_map, orb_false_iff. split.
  - destruct sel; [done|]. cbn. apply Z.eqb_neq. rewrite len_cons. pose proof (len_nonneg (map (λ x : OutPoint * Utxo, NewTxIn x.1 []) sel)). cbn in *. lia.
  - clear Hne. induction sel; [done|]. done.
Qed.

(** What the validator computes as the fee. *)
Lemma made_fee sel from to amt change tx : sel <> [] -> Forall (fun ou : OutPoint * Utxo => utxos db !! ou.1 = Some ou.2) sel ->
  Messages tx = [NewMessage (made_payment sel (out_amounts from to amt change))] ->
  GetTxFee (query_of (ledger_query db)) tx =
    let ins := uint64 (amounts sel) in
    let outs := uint64 (ValPayProps.sum_values (Outputs (made_payment sel (out_amounts from to amt change)))) in
    if ins <? outs then Err TxInLessThanOut
    else Ok (mkAmountAsset (ins - outs) (match last sel.*2 with Some u => u_Asset u | None => None end)).
Proof.
  intros Hne Hsel Hm. set (pay := made_payment sel (out_amounts from to amt change)) in *.
  unfold GetTxFee. rewrite Hm.
  change (index [NewMessage pay] 0) with (Some (NewMessage pay)). cbn [rget rbind].
  change (negb (App (NewMessage pay) =? APP_PAYMENT)) with false. cbv iota.
  unfold as_payment, NewMessage. cbn [Payload rbind].
  rewrite (not_coinbase sel _ Hne : IsCoinbase pay = false).
  rewrite (fee_inputs_sum _ _ _ (inputs_resolve sel Hsel (out_amounts from to amt change))) by lia. cbn [rbind].
  rewrite fee_outputs_sum by lia. cbn [rbind]. cbv zeta. rewrite !Z.add_0_l, sum_amounts_map, sum_values_map. done.
Qed.

(** What a successful request made, as entries of the ledger. *)
Lemma base_made from to amt fee cert tx : 0 <= uint64 (amt + fee) ->
  Forall (fun ou => 0 <= u_Amount ou.2) (map_to_list (utxos db)) ->
  base from to amt fee cert = Ok tx ->
  exists core sel change, getAddrCoreUtxos db OutPointIsSpend GasToken from = Ok core /\
    Messages tx = [NewMessage (made_payment sel (out_amounts from to amt change))] /\
    NoDup sel.*1 /\ (length sel = Nat.min cap (size core)) /\ sel <> [] /\ Forall (offered from) sel /\
    change = uint64 (amounts sel) - uint64 (amt + fee) /\ 0 <= change /\ 0 <= amounts sel /\
    amounts sel = Pick.total GetAmount (top GetAmount (greedy_utxos core)).
Proof.
  intros _ Hpos H. destruct (base_inv _ _ _ _ _ _ H) as (core & sel0 & change & Hcore & Hne & Hs & Hm).
  assert (Hrange : 0 <= uint64 (amt + fee) < 2 ^ 64) by apply uint64_range.
  pose proof (Select_takes_all GetAmount _ _ _ _ Hrange Hs) as Hlen.
  rewrite Select_eq in Hs by done. destruct (_ <? _) eqn:Hlt; [done|]. apply Z.ltb_ge in Hlt. injection Hs as <- <-.
  destruct (chosen_entries core _ (top_subset GetAmount (greedy_utxos core))) as (sel & Hnd & Hin & Hsel).
  exists core, sel, (uint64 (amounts sel) - uint64 (amt + fee)). rewrite <- (total_amounts sel), <- Hsel.
  assert (Hlenc : length (greedy_utxos core) = size core).
  { unfold greedy_utxos. rewrite length_map, go_range_perm. by rewrite length_map_to_list. }
  rewrite Hlenc, Hsel, length_map in Hlen.
  assert (Hoff : Forall (offered from) sel).
  { eapply Forall_impl; [exact Hin|]. intros [o u] Hou. by apply (core_utxos_spec _ _ Hcore). }
  split_and!; try done.
  - unfold made_payment. rewrite <- Hsel. done.
  - intros ->. cbn [length] in Hlen. assert (size core <> 0%nat) by by rewrite map_size_empty_iff. unfold cap in Hlen. lia.
  - lia.
  - rewrite Hsel, total_amounts. clear -Hpos Hoff. unfold amounts. induction Hoff as [|ou l (_ & Hu & _) _ IH]; [done|].
    change (0 <= u_Amount ou.2 + sum_amounts l.*2). rewrite Forall_forall in Hpos. assert (0 <= u_Amount ou.2); [|lia].
    apply (Hpos ou). destruct ou. by apply elem_of_map_to_list.
Qed.

(** C32: A transfer does what was asked for, when the sums stay below 2^64.  It spends at most 500 distinct
    outputs, all of them unspent outputs of the payer in the ledger, of the gas token and not spent in
    the pool; it pays the amount to the payee and the rest, less the fee, back to the payer; and the
    validator computes the fee that was asked for. *)
Theorem transfer_spec from to amt fee cert tx core :
  Forall (fun ou => 0 <= u_Amount ou.2) (map_to_list (utxos db)) ->
  getAddrCoreUtxos db OutPointIsSpend GasToken from = Ok core ->
  0 <= amt -> 0 <= fee -> amt + fee < 2 ^ 64 -> Pick.total GetAmount (top GetAmount (greedy_utxos core)) < 2 ^ 64 ->
  base from to amt fee cert = Ok tx ->
  exists sel change, 0 <= change /\ let pay := made_payment sel (out_amounts from to amt change) in
    Messages tx = [NewMessage pay] /\
    map PreviousOutPoint (Inputs pay) = map Some sel.*1 /\ NoDup sel.*1 /\ (1 <= length sel <= 500)%nat /\ Forall (offered from) sel /\
    amounts sel = ValPayProps.sum_values (Outputs pay) + fee /\ ValPayProps.sum_values (Outputs pay) = amt + change /\
    exists f, GetTxFee (query_of (ledger_query db)) tx = Ok f /\ aa_Amount f = fee.
Proof.
  intros Hpos Hcore Ha Hf Hlt Hsum H.
  destruct (base_made _ _ _ _ _ _ (proj1 (uint64_range _)) Hpos H) as (core' & sel & change & Hcore' & Hm & Hnd & Hlen & Hne & Hoff & Hch & Hc0 & Hs0 & Htot).
  rewrite Hcore in Hcore'. injection Hcore' as <-. rewrite !uint64_small in Hch by lia.
  assert (Hv : ValPayProps.sum_values (Outputs (made_payment sel (out_amounts from to amt change))) = amt + change) by (apply payment_values; lia).
  assert (Hu : Forall (fun ou : OutPoint * Utxo => utxos db !! ou.1 = Some ou.2) sel).
  { eapply Forall_impl; [exact Hoff|]. by intros ou (_ & ? & _). }
  exists sel, change. cbv zeta. split_and!; try done; [by apply input_points| |unfold cap in Hlen; lia|lia|].
  - assert (length sel <> 0%nat) by by destruct sel. lia.
  - rewrite (made_fee _ _ _ _ _ _ Hne Hu Hm). cbv zeta. rewrite Hv, !uint64_small by lia.
    rewrite (proj2 (Z.ltb_ge _ _)) by lia. eexists. split; [done|]. cbn. lia.
Qed.

(** A transfer is refused only when no 500 spendable outputs of the payer cover the amount and the fee. *)
Theorem transfer_refused from to amt fee cert core :
  Forall (fun ou => 0 <= u_Amount ou.2) (map_to_list (utxos db)) ->
  getAddrCoreUtxos db OutPointIsSpend GasToken from = Ok core -> core <> ∅ ->
  0 <= amt -> 0 <= fee -> amt + fee < 2 ^ 64 -> Pick.total GetAmount (top GetAmount (greedy_utxos core)) < 2 ^ 64 ->
  (base from to amt fee cert = Err Unpicked <->
   forall l : list (OutPoint * Utxo), NoDup l.*1 -> Forall (fun ou => core !! ou.1 = Some ou.2) l -> (length l <= cap)%nat -> amounts l < amt + fee).
Proof.
  intros Hpos Hcore Hne Ha Hf Hlt Hsum.
  assert (Hg : Forall (fun a => 0 <= GetAmount a) (greedy_utxos core)).
  { apply Forall_forall. intros tg Htg. unfold greedy_utxos in Htg. apply list_elem_of_fmap in Htg as (ou & -> & Hou).
    rewrite go_range_perm in Hou. destruct ou as [o u]. apply elem_of_map_to_list in Hou.
    apply (core_utxos_spec _ _ Hcore) in Hou as (_ & Hu & _). rewrite Forall_forall in Hpos. apply (Hpos (o, u)).
    by apply elem_of_map_to_list. }
  assert (Hu : uint64 (amt + fee) = amt + fee) by (apply uint64_small; lia).
  assert (H0 : 0 <= Pick.total GetAmount (top GetAmount (greedy_utxos core))).
  { apply total_nonneg. rewrite Forall_forall in *. intros tg Htg. apply Hg. eapply elem_of_submseteq; [exact Htg|apply top_subset]. }
  assert (Hbase : base from to amt fee cert = Err Unpicked <-> Pick.total GetAmount (top GetAmount (greedy_utxos core)) < amt + fee).
  { unfold createBaseTransaction. rewrite Hcore. cbn [rbind]. rewrite bool_decide_eq_false_2 by done. unfold select.
    rewrite Hu, Select_eq, (uint64_small (Pick.total _ _)) by lia. destruct (Z.ltb_spec (Pick.total GetAmount (top GetAmount (greedy_utxos core))) (amt + fee)); [done|].
    cbn [rbind]. split; [|lia]. unfold made. by destruct (SetCertId _ _ _) as [? [| |]]. }
  rewrite Hbase. split.
  - intros Hlt' l Hnd Hl Hlen. rewrite <- total_amounts. eapply Z.le_lt_trans; [|exact Hlt'].
    apply top_greatest; [done| |by rewrite length_map]. unfold greedy_utxos. rewrite go_range_perm.
    apply (fmap_submseteq (fun ou : OutPoint * Utxo => newTxo4Greedy ou.1 (u_Amount ou.2))), NoDup_submseteq; [by eapply NoDup_fmap_1|].
    intros [o u] Hin. apply elem_of_map_to_list. rewrite Forall_forall in Hl. by apply (Hl _ Hin).
  - intros Hall. destruct (chosen_entries core _ (top_subset GetAmount (greedy_utxos core))) as (l & Hnd & Hin & Hl).
    rewrite Hl, total_amounts. apply Hall; [done|done|]. rewrite <- (length_map (fun ou : OutPoint * Utxo => newTxo4Greedy ou.1 (u_Amount ou.2))), <- Hl.
    apply top_length.
Qed.

(** Nobody checks the sum of the amount and the fee: when it reaches 2^64 it wraps around, and the
    transaction pays out 2^64 less the fee more than it spends.  The validator refuses it, as it must:
    either the payment is not valid or there is no fee. *)
Theorem transfer_overflow from to amt fee cert tx :
  Forall (fun ou => 0 <= u_Amount ou.2) (map_to_list (utxos db)) ->
  0 <= amt < 2 ^ 64 -> 0 <= fee < 2 ^ 64 -> 2 ^ 64 <= amt + fee -> Equal from to = false ->
  (forall core, getAddrCoreUtxos db OutPointIsSpend GasToken from = Ok core -> Pick.total GetAmount (top GetAmount (greedy_utxos core)) < 2 ^ 64) ->
  base from to amt fee cert = Ok tx ->
  exists sel pay, Messages tx = [NewMessage pay] /\ map PreviousOutPoint (Inputs pay) = map Some sel.*1 /\ Forall (offered from) sel /\
    ValPayProps.sum_values (Outputs pay) = amounts sel + 2 ^ 64 - fee /\
    forall (N : Node) q s s', validatePaymentPayload q tx 0 pay s = (s', Ok tt) ->
      GetTxFee (query_of (ledger_query db)) tx = Err TxInLessThanOut.
Proof.
  intros Hpos Ha Hf Hover Heq Hsum H.
  destruct (base_made _ _ _ _ _ _ (proj1 (uint64_range _)) Hpos H) as (core & sel & change & Hcore & Hm & Hnd & Hlen & Hne & Hoff & Hch & Hc0 & Hs0 & Htot).
  specialize (Hsum _ Hcore). rewrite <- Htot in Hsum.
  assert (Hw : uint64 (amt + fee) = amt + fee - 2 ^ 64).
  { unfold uint64, wrapU. symmetry. apply (Z.mod_unique _ _ 1); lia. }
  rewrite Hw, uint64_small in Hch by lia.
  assert (Hv : ValPayProps.sum_values (Outputs (made_payment sel (out_amounts from to amt change))) = amt + change).
  { unfold out_amounts. rewrite Heq. destruct (Z.ltb_spec 0 change); cbn; lia. }
  assert (Hwf : wf_values (Outputs (made_payment sel (out_amounts from to amt change)))).
  { unfold out_amounts, wf_values. rewrite Heq. destruct (Z.ltb_spec 0 change); repeat constructor; cbn; lia. }
  assert (Hu : Forall (fun ou : OutPoint * Utxo => utxos db !! ou.1 = Some ou.2) sel).
  { eapply Forall_impl; [exact Hoff|]. by intros ou (_ & ? & _). }
  exists sel, (made_payment sel (out_amounts from to amt change)). split_and!; [done|by apply input_points|done|lia|].
  intros N q s s' V. apply payment_rules in V as (_ & _ & Hlt & _); [|done].
  rewrite (made_fee _ _ _ _ _ _ Hne Hu Hm). cbv zeta. rewrite Hv in *. rewrite !uint64_small by lia.
  rewrite (proj2 (Z.ltb_lt _ _)) by lia. done.
Qed.

(** A payment of nothing but the fee (a vote) whose outputs are worth exactly the fee gets an output
    of zero, which no validator accepts. *)
Theorem exact_fee_rejected from to fee cert tx core :
  Forall (fun ou => 0 <= u_Amount ou.2) (map_to_list (utxos db)) -> 0 <= fee < 2 ^ 64 ->
  getAddrCoreUtxos db OutPointIsSpend GasToken from = Ok core -> Pick.total GetAmount (top GetAmount (greedy_utxos core)) = fee ->
  base from to 0 fee cert = Ok tx ->
  exists pay, Messages tx = [NewMessage pay] /\ map Value (Outputs pay) = [0] /\
    forall (N : Node) q s s', validatePaymentPayload q tx 0 pay s <> (s', Ok tt).
Proof.
  intros Hpos Hf Hcore Hsum H.
  destruct (base_made _ _ _ _ _ _ (proj1 (uint64_range _)) Hpos H) as (core' & sel & change & Hcore' & Hm & _ & _ & _ & _ & Hch & _ & _ & Htot).
  rewrite Hcore in Hcore'. injection Hcore' as <-. rewrite Htot, Hsum, Z.add_0_l, Z.sub_diag in Hch. subst change.
  exists (made_payment sel (out_amounts from to 0 0)). split_and!; [done|done|].
  intros N q s s' V. apply payment_rules in V as (_ & Hv & _).
  - cbn in Hv. apply Forall_cons in Hv as [Hv _]. cbn in Hv. lia.
  - repeat constructor; cbn; lia.
Qed.

End Wallet.

(** ** An account with two outputs *)

Definition payer : Address := replicate 20 x07 ++ [x00].
Definition payee : Address := replicate 20 x09 ++ [x00].
Definition first_point : OutPoint := mkOutPoint (replicate 32 x11) 0 1.
Definition second_point : OutPoint := mkOutPoint (replicate 32 x22) 0 0.
Definition account_db : UtxoDb :=
  mkUtxoDb (<[first_point := mkUtxo 9 (Some PTNAsset) [x51] 0 0 0]> {[second_point := mkUtxo 4 (Some PTNAsset) [x51] 0 0 0]}) ∅
    {[ (Address_Bytes payer, first_point); (Address_Bytes payer, second_point) ]} ∅ ∅.
Definition no_pool (o : OutPoint) : bool := false.

Definition transfer (amt fee : Z) : result wallet_error Transaction :=
  createBaseTransaction (H := sample_env) account_db no_pool PTNCOIN payer payee amt fee None.
Definition made_tx (amt fee : Z) : Transaction := match transfer amt fee with Ok tx => tx | _ => new_tx emptySdw end.
Definition account_core : gmap OutPoint Utxo :=
  match getAddrCoreUtxos account_db no_pool PTNCOIN payer with Ok m => m | _ => ∅ end.

Lemma account_core_ok : getAddrCoreUtxos account_db no_pool PTNCOIN payer = Ok account_core.
Proof.
  assert (Hok : forall r : result wallet_error (gmap OutPoint Utxo), match r with Ok _ => true | _ => false end = true ->
    r = Ok (match r with Ok m => m | _ => ∅ end)) by by intros [].
  apply Hok. vm_compute. reflexivity.
Qed.
Lemma account_positive : Forall (fun ou : OutPoint * Utxo => 0 <= u_Amount ou.2) (map_to_list (utxos account_db)).
Proof. vm_compute. repeat constructor; discriminate. Qed.
Lemma account_total : Pick.total GetAmount (top GetAmount (greedy_utxos account_core)) = 13.
Proof. vm_compute. reflexivity. Qed.

Lemma transfer_spec_witness : exists f, GetTxFee (query_of (ledger_query account_db)) (made_tx 6 2) = Ok f /\ aa_Amount f = 2.
Proof.
  assert (Ht : transfer 6 2 = Ok (made_tx 6 2)) by (vm_compute; reflexivity).
  destruct (transfer_spec (E := sample_env) account_db no_pool PTNCOIN payer payee 6 2 None (made_tx 6 2) account_core) as (sel & change & _ & _ & _ & _ & _ & _ & _ & _ & Hf).
  - exact account_positive.
  - exact account_core_ok.
  - lia.
  - lia.
  - lia.
  - rewrite account_total. lia.
  - exact Ht.
  - exact Hf.
Defined.

Lemma transfer_refused_witness : transfer 12 2 = Err Unpicked /\ forall l : list (OutPoint * Utxo), NoDup l.*1 ->
  Forall (fun ou => account_core !! ou.1 = Some ou.2) l -> (length l <= cap)%nat -> amounts l < 12 + 2.
Proof.
  assert (Ht : transfer 12 2 = Err Unpicked) by (vm_compute; reflexivity).
  split; [exact Ht|]. refine (proj1 (transfer_refused (E := sample_env) account_db no_pool PTNCOIN payer payee 12 2 None account_core _ _ _ _ _ _ _) Ht).
  - exact account_positive.
  - exact account_core_ok.
  - intros Hc. apply (f_equal size) in Hc. vm_compute in Hc. discriminate.
  - lia.
  - lia.
  - lia.
  - rewrite account_total. lia.
Defined.

Lemma transfer_overflow_witness : exists sel pay, Messages (made_tx 1 (2 ^ 64 - 1)) = [NewMessage pay] /\
  ValPayProps.sum_values (Outputs pay) = amounts sel + 2 ^ 64 - (2 ^ 64 - 1).
Proof.
  assert (Ht : transfer 1 (2 ^ 64 - 1) = Ok (made_tx 1 (2 ^ 64 - 1))) by (vm_compute; reflexivity).
  destruct (transfer_overflow (E := sample_env) account_db no_pool PTNCOIN payer payee 1 (2 ^ 64 - 1) None (made_tx 1 (2 ^ 64 - 1))) as (sel & pay & Hm & _ & _ & Hv & _).
  - exact account_positive.
  - lia.
  - lia.
  - lia.
  - reflexivity.
  - intros core Hc. assert (Heq : Ok account_core = Ok core) by (transitivity (getAddrCoreUtxos account_db no_pool PTNCOIN payer); [symmetry; exact account_core_ok|exact Hc]).
    assert (Hinj : forall (A : Type) (a b : A), @Ok wallet_error A a = Ok b -> a = b) by congruence.
    rewrite <- (Hinj _ _ _ Heq), account_total. lia.
  - exact Ht.
  - exists sel, pay. split; [exact Hm|exact Hv].
Defined.

Lemma exact_fee_rejected_witness : exists pay, Messages (made_tx 0 13) = [NewMessage pay] /\ map Value (Outputs pay) = [0].
Proof.
  assert (Ht : transfer 0 13 = Ok (made_tx 0 13)) by (vm_compute; reflexivity).
  destruct (exact_fee_rejected (E := sample_env) account_db no_pool PTNCOIN payer payee 13 None (made_tx 0 13) account_core) as (pay & Hm & Hv & _).
  - exact account_positive.
  - lia.
  - exact account_core_ok.
  - exact account_total.
  - exact Ht.
  - exists pay. split; [exact Hm|exact Hv].
Defined.

End WalletProps.
