(* ===== verification/Payout.v ===== *)
(** * What a contract pays out

    src/consensus/jury/invokeresult.go: the payments a juror makes of the result of
    an execution: payouts grouped by asset, the merging of small outputs, new and
    additional tokens; and contractPayBack and genContractErrorMsg of
    src/consensus/jury/common.go, the messages of an execution that failed.  The
    unspent outputs are those of Ledger.v, the result is that of Rwset.v (the
    identifier of its request is an argument), the choice of outputs that of
    Pickup.v.  Definitions of tokens are JSON, decoded by parameters. *)

From S2P Require Import Prelude Errors Opcode Script Builder Address Standard Tx AssetId RlpModel SigHash SigCache Engine TokenApi Unit ValPayment Ledger Rwset HeapSort Pickup Wallet.
From Stdlib Require Import ZArith Lia Bool.
Local Open Scope Z_scope.

Module Payout.
Import Pick Wallet Rw.

Inductive payout_error :=
| PayLedger (e : utxo_error) | PayTx (e : tx_error) | PayPick (e : pick_error) | PayScript (e : Errors.error) | PayJson | UniqueBytesShort | PayFailed.

Definition MaxNumberMergeUtxos : Z := 500.
Definition NewSelfHash : Hash := replicate 32 xff.

(** [modules.UtxoWithOutPoint] *)
Abbreviation UtxoWithOutPoint := (OutPoint * Utxo)%type.
Definition UtxoAmount (u : UtxoWithOutPoint) : Z := u_Amount u.2.
Record addrAmount := mkAddrAmount { aam_Address : Address; aam_Amount : Z }.

(** ** Payouts by asset *)

(** The entry of the address, the first there is, grows; its amount is a uint64. *)
Fixpoint add_amount (payTo : Address) (amount : Z) (aa : list addrAmount) : list addrAmount :=
  match aa with
  | [] => [mkAddrAmount payTo amount]
  | a :: aa =>
      if bytes_equal (aam_Address a) payTo then mkAddrAmount (aam_Address a) (uint64 (aam_Amount a + amount)) :: aa
      else a :: add_amount payTo amount aa
  end.
Fixpoint group_payouts {E} (payouts : list TokenPayOut) (acc : gmap Asset (list addrAmount)) : result E (gmap Asset (list addrAmount)) :=
  match payouts with
  | [] => Ok acc
  | payout :: payouts =>
      let? asset := rget (po_Asset payout) in
      group_payouts payouts (<[asset := add_amount (po_PayTo payout) (po_Amount payout) (default [] (acc !! asset))]> acc)
  end.
Definition tokenPayOutGroupByAsset {E} (payouts : list TokenPayOut) : result E (gmap Asset (list addrAmount)) := group_payouts payouts ∅.

(** ** Merging small outputs *)

(** The first asset of which the range has met [num] outputs. *)
Fixpoint select_asset {E} (l : list UtxoWithOutPoint) (num : Z) (mAssets : gmap Asset (list UtxoWithOutPoint))
  : result E (option (Asset * list UtxoWithOutPoint)) :=
  match l with
  | [] => Ok None
  | uo :: l =>
      let? asset := rget (u_Asset uo.2) in
      let group := default [] (mAssets !! asset) ++ [uo] in
      if num <=? len group then Ok (Some (asset, group)) else select_asset l num (<[asset := group]> mAssets)
  end.

Section Payout.
Context `{ScriptEnv} `{!GoRange OutPoint Utxo} `{!GoRange Asset (list addrAmount)} `{!GoSorter (Less UtxoAmount)}.
Variable db : UtxoDb.

Definition selectUtxo {E} (mUtxos : gmap OutPoint Utxo) (num : Z) : result E (option (Asset * list UtxoWithOutPoint)) :=
  select_asset (go_range mUtxos) num ∅.
Definition mergeUtxo {E} (addr : Address) (utxos : gmap OutPoint Utxo) (limitNum : Z) : result E (option PaymentPayload) :=
  let? selected := selectUtxo utxos limitNum in
  match selected with
  | None => Ok None
  | Some (asset, selected) =>
      let amount := fold_left (fun amount s => uint64 (amount + UtxoAmount s)) selected 0 in
      Ok (Some (mkPayment (map (fun s : UtxoWithOutPoint => NewTxIn s.1 []) selected) [NewTxOut amount (GenerateLockScript addr) asset] 0))
  end.

(** ** Payments *)

(** The address of a script; the error is dropped. *)
Definition script_address {E} (pkScript : bytes) : result E Address :=
  match GetAddressFromScript pkScript with Ok a => Ok a | Err _ => Ok zeroAddress | Panic => Panic end.

(** The outputs of the request itself that pay the contract can be spent at once, under the self hash. *)
Fixpoint add_own (addr : Address) (asset : Asset) (l : list UtxoWithOutPoint) (utxos : gmap OutPoint Utxo)
  : result payout_error (gmap OutPoint Utxo) :=
  match l with
  | [] => Ok utxos
  | (out, utxo) :: l =>
      let? toAddr := script_address (u_PkScript utxo) in
      let? a := rget (u_Asset utxo) in
      add_own addr asset l
        (if Asset_Equal a asset && bytes_equal toAddr addr
         then <[mkOutPoint NewSelfHash (MessageIndex out) (OutIndex out) := utxo]> utxos else utxos)
  end.
Definition convertMapUtxo (utxo : gmap OutPoint Utxo) : list UtxoWithOutPoint := go_range utxo.

Definition ledger_utxos (addr : Address) (asset : option Asset) : result payout_error (gmap OutPoint Utxo) :=
  match GetAddrUtxos addr asset db with Ok m => Ok m | Err e => Err (PayLedger e) | Panic => Panic end.

Definition asset_outputs (asset : Asset) (addr : Address) (aa : list addrAmount) (change : Z) : list Output :=
  map (fun a => NewTxOut (aam_Amount a) (GenerateLockScript (aam_Address a)) asset) aa ++
  (if 0 <? change then [NewTxOut change (GenerateLockScript addr) asset] else []).
(** The body of the loop over the assets. *)
Definition asset_payment (addr : Address) (paytoContractUtxo : gmap OutPoint Utxo) (asset : Asset) (aa : list addrAmount)
  : result payout_error PaymentPayload :=
  let? utxos := ledger_utxos addr (Some asset) in
  let? utxos := add_own addr asset (go_range paytoContractUtxo) utxos in
  let us := convertMapUtxo utxos in
  let totalPayAmt := fold_left (fun n a => uint64 (n + aam_Amount a)) aa 0 in
  match Select_utxo_Greedy UtxoAmount us totalPayAmt with
  | Ok (selected, change) =>
      Ok (mkPayment (map (fun s : UtxoWithOutPoint => NewTxIn s.1 []) selected) (asset_outputs asset addr aa change) 0)
  | Err e => Err (PayPick e)
  | Panic => Panic
  end.
Fixpoint asset_payments (addr : Address) (paytoContractUtxo : gmap OutPoint Utxo) (l : list (Asset * list addrAmount))
  : result payout_error (list PaymentPayload) :=
  match l with
  | [] => Ok []
  | (asset, aa) :: l =>
      let? payment := asset_payment addr paytoContractUtxo asset aa in
      let? payments := asset_payments addr paytoContractUtxo l in Ok (payment :: payments)
  end.

Definition resultToContractPayments (requestTx : option Transaction) (result_ : ContractInvokeResult) : result payout_error (list PaymentPayload) :=
  let addr := NewAddress (ir_ContractId result_) ContractHash in
  let? paytoContractUtxo :=
    match requestTx with
    | None => Ok ∅
    | Some tx => match (GetNewUtxos env_keccakHash tx).2 with Ok m => Ok m | Err e => Err (PayTx e) | Panic => Panic end
    end in
  if 0 <? len (ir_TokenPayOut result_) then
    let? payouts := tokenPayOutGroupByAsset (ir_TokenPayOut result_) in
    asset_payments addr paytoContractUtxo (go_range payouts)
  else
    let? utxos := ledger_utxos addr None in
    let? payment := mergeUtxo addr utxos MaxNumberMergeUtxos in
    Ok (match payment with Some p => [p] | None => [] end).

(** ** New tokens *)

Record FungibleToken := mkFungible { ft_Symbol : string; ft_Decimals : byte; ft_TotalSupply : Z }.
Record NonFungibleToken := mkNonFungible { nt_Symbol : string; nt_Type : byte; nt_TotalSupply : Z; NonFungibleData : list bytes }.
Record VoteToken := mkVoteToken { vt_Symbol : string; vt_TotalSupply : Z }.

Section Coinbase.
Variables (to_fungible : bytes -> option FungibleToken) (to_non_fungible : bytes -> option NonFungibleToken) (to_vote : bytes -> option VoteToken).

(** [newAsset.AssetId, _ = NewAssetId(...)]: the zero identifier when there is an error. *)
Definition asset_id_of {E} (symbol : string) (assetType decimal : byte) (requestId : bytes) (uniqueIdType : byte) : result E bytes :=
  match NewAssetId symbol assetType decimal requestId uniqueIdType with Ok id => Ok id | Err _ => Ok ZeroIdType16 | Panic => Panic end.

(** [for i := uint64(0); i < token.TotalSupply; i++]: the supply says how many entries there are. *)
Fixpoint nft_outputs (requestId : Hash) (token : NonFungibleToken) (creator : Address) (left : Z) (data : list bytes)
  : result payout_error (list Output) :=
  if left <=? 0 then Ok [] else
  match data with
  | [] => Panic
  | uniqueBytes :: data =>
      if len uniqueBytes <? 16 then Err UniqueBytesShort else
      let? id := asset_id_of (nt_Symbol token) AssetType_NonFungibleToken x00 requestId (nt_Type token) in
      let? outs := nft_outputs requestId token creator (left - 1) data in
      Ok (NewTxOut 1 (GenerateLockScript creator) (mkAsset id (SetBytes ZeroUniqueId uniqueBytes)) :: outs)
  end.

Definition define_outputs (requestId : Hash) (td : TokenDefine) : result payout_error (list Output) :=
  let creator := td_Creator td in
  if td_TokenType td =? 0 then
    match to_fungible (td_TokenDefineJson td) with
    | None => Err PayJson
    | Some token =>
        let? id := asset_id_of (ft_Symbol token) AssetType_FungibleToken (ft_Decimals token) requestId UniqueIdType_Null in
        Ok [NewTxOut (ft_TotalSupply token) (GenerateLockScript creator) (ToAsset id)]
    end
  else if td_TokenType td =? 1 then
    match to_non_fungible (td_TokenDefineJson td) with
    | None => Err PayJson
    | Some token => nft_outputs requestId token creator (nt_TotalSupply token) (NonFungibleData token)
    end
  else if td_TokenType td =? 2 then
    match to_vote (td_TokenDefineJson td) with
    | None => Err PayJson
    | Some token =>
        let? id := asset_id_of (vt_Symbol token) AssetType_VoteToken x00 requestId UniqueIdType_Null in
        Ok [NewTxOut (vt_TotalSupply token) (GenerateLockScript creator) (ToAsset id)]
    end
  else Ok [].

Definition supply_output (ts : TokenSupply) : Output :=
  NewTxOut (ts_Amount ts) (GenerateLockScript (ts_Creator ts)) (mkAsset (SetBytes ZeroIdType16 (ts_AssetId ts)) (SetBytes ZeroUniqueId (ts_UniqueId ts))).

Definition resultToCoinbase (requestId : Hash) (result_ : ContractInvokeResult) : result payout_error (list PaymentPayload) :=
  let? defined :=
    match ir_TokenDefine result_ with
    | None => Ok []
    | Some td => let? outs := define_outputs requestId td in Ok [mkPayment [] outs 0]
    end in
  Ok (defined ++ if 0 <? len (ir_TokenSupply result_) then [mkPayment [] (map supply_output (ir_TokenSupply result_)) 0] else []).
End Coinbase.

(** ** Paying back (common.go) *)

Definition defaultTxInOutAlloc : Z := 0.
Definition NewPaymentPayload (inputs : list Input) (outputs : list Output) : PaymentPayload := mkPayment inputs outputs defaultTxInOutAlloc.

(** [None] is the early [return nil], which drops what was collected. *)
Fixpoint payback_outputs {E} (addr : bytes) (msgIdx outIdx : Z) (payment : PaymentPayload) (outs : list Output) : result E (option (list Message)) :=
  match outs with
  | [] => Ok (Some [])
  | out :: outs =>
      match GetAddressFromScript (PkScript out) with
      | Err _ => Ok None
      | Panic => Panic
      | Ok toAddr =>
          if bytes_equal (Address_Bytes toAddr) addr then
            let? input0 := rget (index (Inputs payment) 0) in
            match GetAddressFromUnlockScript (SignatureScript input0) with
            | Err _ => Ok None
            | Panic => Panic
            | Ok fromAddr =>
                let input := NewTxIn (mkOutPoint NewSelfHash (uint32 msgIdx) (uint32 outIdx)) [] in
                let output := mkOutput (Value out) (GenerateLockScript fromAddr) (out_Asset out) in
                let payback := mkMessage APP_PAYMENT (Some (PayPayment (NewPaymentPayload [input] [output]))) in
                let? rest := payback_outputs addr msgIdx (outIdx + 1) payment outs in
                Ok (cons payback <$> rest)
            end
          else payback_outputs addr msgIdx (outIdx + 1) payment outs
      end
  end.
Fixpoint payback_messages {E} (addr : bytes) (msgIdx : Z) (msgs : list Message) : result E (option (list Message)) :=
  match msgs with
  | [] => Ok (Some [])
  | msg :: msgs =>
      if IsRequest (App msg) then Ok (Some []) else
      let? mine := if App msg =? APP_PAYMENT then let? payment := as_payment msg in payback_outputs addr msgIdx 0 payment (Outputs payment) else Ok (Some []) in
      match mine with
      | None => Ok None
      | Some mine => let? rest := payback_messages addr (msgIdx + 1) msgs in Ok (app mine <$> rest)
      end
  end.
(** A nil [addr] matches no output: the addresses of outputs have 20 bytes. *)
Definition contractPayBack {E} (tx : Transaction) (addr : bytes) : result E (list Message) :=
  let? msgs := TxMessages tx in
  let? r := payback_messages addr 0 msgs in Ok (default [] r).

End Payout.
End Payout.
