(* ===== verification/PayoutProps.v ===== *)
(** * Payouts keep the money of the contract

    The payments of Payout.v: grouping adds up what each address is due, a payment
    spends outputs of the contract and pays out all of them; and the results that go
    wrong: sums that wrap around, payments whose order depends on a map, a token
    definition that makes the juror panic, money paid back to an address nobody has. *)

From S2P Require Import Prelude Errors Opcode Text Script Builder Address Standard Tx TxProps AssetId RlpModel Float64 SigHash SigCache Engine EngineProps TokenApi ApiProps Unit ValPayment ValPayProps Ledger LedgerProps Rwset HeapSort Pickup Wallet WalletProps Payout.
From Stdlib Require Import ZArith Lia Bool.
Local Open Scope Z_scope.

Module PayoutProps.
Import Pick Wallet WalletProps Rw Payout.

(** ** Grouping *)

Definition due (asset : Asset) (addr : Address) (payouts : list TokenPayOut) : Z :=
  foldr (fun p n => (if decide (po_Asset p = Some asset /\ po_PayTo p = addr) then po_Amount p else 0) + n) 0 payouts.
Definition entry (addr : Address) (aa : list addrAmount) : Z :=
  foldr (fun a n => (if decide (aam_Address a = addr) then aam_Amount a else 0) + n) 0 aa.

Definition small (aa : list addrAmount) : Prop := Forall (fun a => 0 <= aam_Amount a < 2 ^ 64) aa.

Lemma add_amount_addresses payTo amount aa : NoDup (map aam_Address aa) -> NoDup (map aam_Address (add_amount payTo amount aa)) /\
  forall x, x ∈ map aam_Address (add_amount payTo amount aa) <-> x = payTo \/ x ∈ map aam_Address aa.
Proof.
  induction aa as [|a aa IH]; cbn [add_amount map aam_Address]; intros Hnd.
  - split; [apply NoDup_singleton|]. intros x. rewrite list_elem_of_singleton. split; [by left|]. intros [->|Hx]; [done|by apply not_elem_of_nil in Hx].
  - apply NoDup_cons in Hnd as [Hnot Hnd]. destruct (IH Hnd) as [Hnd' Hin]. unfold bytes_equal. case_bool_decide as Ha; cbn [map aam_Address].
    + split; [by constructor|]. intros x. rewrite elem_of_cons. subst payTo. naive_solver.
    + split; [constructor; [rewrite Hin; naive_solver|done]|]. intros x. rewrite !elem_of_cons, Hin. naive_solver.
Qed.
Lemma entry_absent addr aa : addr ∉ map aam_Address aa -> entry addr aa = 0.
Proof.
  induction aa as [|a aa IH]; [done|]. cbn [map]. rewrite not_elem_of_cons. intros [Hne Hnot]. cbn [entry foldr].
  rewrite decide_False by congruence. by apply IH.
Qed.
Lemma add_amount_entry payTo amount aa addr : NoDup (map aam_Address aa) ->
  entry addr (add_amount payTo amount aa) mod 2 ^ 64 = (entry addr aa + if decide (payTo = addr) then amount else 0) mod 2 ^ 64.
Proof.
  induction aa as [|a aa IH]; intros Hnd; cbn [add_amount].
  - cbn [entry foldr aam_Address aam_Amount]. f_equal. lia.
  - cbn [map] in Hnd. apply NoDup_cons in Hnd as [Hnot Hnd]. unfold bytes_equal. case_bool_decide as Ha.
    + cbn [entry foldr aam_Address aam_Amount]. fold (entry addr aa). subst payTo. case_decide as Hx; [|f_equal; lia].
      unfold uint64, wrapU. rewrite Zplus_mod_idemp_l. f_equal. lia.
    + cbn [entry foldr]. fold (entry addr aa) (entry addr (add_amount payTo amount aa)). rewrite Z.add_mod, (IH Hnd) by lia.
      rewrite <- Z.add_mod by lia. f_equal. lia.
Qed.

Definition groups_ok (payouts : list TokenPayOut) (acc : gmap Asset (list addrAmount)) : Prop :=
  forall asset, let aa := default [] (acc !! asset) in
    NoDup (map aam_Address aa) /\ forall addr, entry addr aa mod 2 ^ 64 = due asset addr payouts mod 2 ^ 64.

Lemma due_app asset addr l k : due asset addr (l ++ k) = due asset addr l + due asset addr k.
Proof. induction l as [|p l IH]; [done|]. cbn [app due foldr]. fold (due asset addr (l ++ k)) (due asset addr l). rewrite IH. lia. Qed.

Lemma group_payouts_ok {E} l : forall done_ acc m, groups_ok done_ acc -> @group_payouts E l acc = Ok m -> groups_ok (done_ ++ l) m.
Proof.
  induction l as [|p l IH]; intros done_ acc m Hok Hg; cbn [group_payouts] in Hg.
  - injection Hg as <-. by rewrite app_nil_r.
  - destruct (po_Asset p) as [asset|] eqn:Hp; cbn [rget rbind] in Hg; [|done].
    replace (done_ ++ p :: l) with ((done_ ++ [p]) ++ l) by by rewrite <- app_assoc. eapply IH; [|exact Hg].
    intros a. destruct (Hok a) as [Hnd Hent]. cbv zeta in *. destruct (decide (asset = a)) as [->|Hne].
    + rewrite lookup_insert_eq. cbn [from_option id]. split; [by apply add_amount_addresses|]. intros addr.
      rewrite add_amount_entry by done. rewrite due_app, Z.add_mod, Hent, <- Z.add_mod by lia. do 2 f_equal.
      cbn [due foldr]. rewrite Z.add_0_r. rewrite Hp. repeat case_decide; naive_solver.
    + rewrite lookup_insert_ne by done. split; [done|]. intros addr. rewrite due_app. cbn [due foldr]. rewrite Hent.
      rewrite decide_False by (rewrite Hp; naive_solver). f_equal. lia.
Qed.

(** The payments of a contract, before the outputs are chosen: for every asset each address occurs once,
    and is due the sum of its payouts of that asset, modulo 2^64. *)
Theorem payout_grouping (payouts : list TokenPayOut) m : @tokenPayOutGroupByAsset payout_error payouts = Ok m ->
  forall asset, let aa := default [] (m !! asset) in
    NoDup (map aam_Address aa) /\ forall addr, entry addr aa mod 2 ^ 64 = due asset addr payouts mod 2 ^ 64.
Proof.
  intros Hg. refine (group_payouts_ok payouts [] ∅ m _ Hg). intros asset. rewrite lookup_empty. cbn. split; [apply NoDup_nil_2|]. done.
Qed.

Lemma payout_grouping_witness :
  let a := PTNAsset in
  exists m, @tokenPayOutGroupByAsset payout_error [mkPayOut (Some a) 3 [x01] 0; mkPayOut (Some a) 4 [x01] 0] = Ok m /\
    entry [x01] (default [] (m !! a)) mod 2 ^ 64 = 7.
Proof.
  intros a. eexists. split; [reflexivity|]. rewrite (proj2 (payout_grouping [mkPayOut (Some a) 3 [x01] 0; mkPayOut (Some a) 4 [x01] 0] _ eq_refl a) [x01]).
  reflexivity.
Defined.

(** ** A payment *)

Section Payments.
Context `{E : ScriptEnv} `{R : !GoRange OutPoint Utxo} `{RA : !GoRange Asset (list addrAmount)} `{S : !GoSorter (Less UtxoAmount)}.
Variable db : UtxoDb.

(** An output the contract can spend: in its index in the ledger, or made by the request itself. *)
Definition contract_output (addr : Address) (asset : Asset) (own : gmap OutPoint Utxo) (ou : UtxoWithOutPoint) : Prop :=
  (exists b, u_Asset ou.2 = Some b /\ Asset_Equal b asset = true) /\
  ((ou.1 ∈ GetAddrOutpoints addr db /\ utxos db !! ou.1 = Some ou.2) \/
   (IsSelfHash (TxHash ou.1) = true /\ @script_address E payout_error (u_PkScript ou.2) = Ok addr /\
    exists out, own !! out = Some ou.2 /\ MessageIndex out = MessageIndex ou.1 /\ OutIndex out = OutIndex ou.1)).

Lemma utxos_at_asset asset l m : utxos_at (Some asset) l db = Ok m ->
  forall o u, m !! o = Some u -> o ∈ l /\ utxos db !! o = Some u /\ u_Asset u = Some asset.
Proof.
  revert m. induction l as [|o1 l IH]; intros m Hm o u Ho; cbn [utxos_at] in Hm; [injection Hm as <-; by rewrite lookup_empty in Ho|].
  destruct (utxos_at (Some asset) l db) as [rest| |]; cbn [rbind] in Hm; [|done|done].
  destruct (utxos db !! o1) as [u1|] eqn:H1.
  - unfold asset_fits, rget in Hm. destruct (u_Asset u1) as [b|] eqn:Hb; cbn [rbind] in Hm; [|done].
    destruct (IsSimilar asset b) eqn:Hs.
    + injection Hm as <-. destruct (decide (o1 = o)) as [->|Hne].
      * rewrite lookup_insert_eq in Ho. injection Ho as <-. apply IsSimilar_eq in Hs as <-. rewrite elem_of_cons. tauto.
      * rewrite lookup_insert_ne in Ho by done. destruct (IH rest eq_refl _ _ Ho) as (? & ? & ?). rewrite elem_of_cons. tauto.
    + injection Hm as <-. destruct (IH rest eq_refl _ _ Ho) as (? & ? & ?). rewrite elem_of_cons. tauto.
  - injection Hm as <-. destruct (IH rest eq_refl _ _ Ho) as (? & ? & ?). rewrite elem_of_cons. tauto.
Qed.

Lemma add_own_lookup addr asset l : forall m m', add_own addr asset l m = Ok m' ->
  forall o u, m' !! o = Some u -> m !! o = Some u \/
    (TxHash o = NewSelfHash /\ @script_address E payout_error (u_PkScript u) = Ok addr /\
     (exists b, u_Asset u = Some b /\ Asset_Equal b asset = true) /\
     exists out, (out, u) ∈ l /\ MessageIndex out = MessageIndex o /\ OutIndex out = OutIndex o).
Proof.
  induction l as [|[out utxo] l IH]; intros m m' H o u Ho; cbn [add_own] in H; [injection H as <-; by left|].
  destruct (script_address (u_PkScript utxo)) as [toAddr| |] eqn:Hs; cbn [rbind] in H; [|done|done].
  unfold rget in H. destruct (u_Asset utxo) as [a|] eqn:Ha; cbn [rbind] in H; [|done].
  destruct (IH _ _ H _ _ Ho) as [Hm|(H1 & H2 & H3 & out' & H4 & H5)].
  - destruct (Asset_Equal a asset && bytes_equal toAddr addr) eqn:Hc; [|by left].
    apply andb_prop in Hc as [Hc1 Hc2]. unfold bytes_equal in Hc2. case_bool_decide; [subst toAddr|done].
    apply lookup_insert_Some in Hm as [[<- <-]|[_ Hm]]; [|by left]. right. split_and!; [done|done|by exists a|].
    exists out. split; [left|done].
  - right. split_and!; [done|done|done|]. exists out'. split; [by right|done].
Qed.

Definition chosen_payment (asset : Asset) (addr : Address) (aa : list addrAmount) (sel : list UtxoWithOutPoint) (change : Z) : PaymentPayload :=
  mkPayment (map (fun s : UtxoWithOutPoint => NewTxIn s.1 []) sel) (asset_outputs asset addr aa change) 0.
Definition owed (aa : list addrAmount) : Z := foldr (fun a n => aam_Amount a + n) 0 aa.

Lemma owed_wraps aa : forall n, 0 <= n < 2 ^ 64 -> fold_left (fun n a => uint64 (n + aam_Amount a)) aa n = uint64 (n + owed aa).
Proof.
  induction aa as [|a aa IH]; intros n Hn; cbn [fold_left owed foldr]; [rewrite Z.add_0_r; symmetry; by apply uint64_small|].
  fold (owed aa). rewrite IH by apply uint64_range. rewrite uint64_add. f_equal. lia.
Qed.
Lemma outputs_value asset addr aa change : 0 <= change -> ValPayProps.sum_values (asset_outputs asset addr aa change) = owed aa + change.
Proof.
  intros Hc. unfold asset_outputs. induction aa as [|a aa IH].
  - cbn [map app owed foldr]. destruct (Z.ltb_spec 0 change); cbn; lia.
  - change (aam_Amount a + ValPayProps.sum_values (map (fun a => NewTxOut (aam_Amount a) (GenerateLockScript (aam_Address a)) asset) aa ++
      (if 0 <? change then [NewTxOut change (GenerateLockScript addr) asset] else [])) = aam_Amount a + owed aa + change). rewrite IH. lia.
Qed.
Lemma total_utxos (l : list UtxoWithOutPoint) : Pick.total UtxoAmount l = sum_amounts l.*2.
Proof. induction l as [|u l IH]; [done|]. change (UtxoAmount u + Pick.total UtxoAmount l = u_Amount u.2 + sum_amounts l.*2). by rewrite IH. Qed.

(** C33: A payment of a contract keeps its money.  It spends at most 500 distinct outputs, each of the asset
    paid and each the contract's own, in the ledger or made by the request; it pays every address what it
    is owed, in that asset, and the rest goes back to the contract: as much as was spent is paid out. *)
Theorem contract_payment_conserves addr own asset aa pay :
  Forall (fun ou => 0 <= u_Amount ou.2) (map_to_list (utxos db)) -> Forall (fun ou => 0 <= u_Amount ou.2) (map_to_list own) ->
  Forall (fun a => 0 <= aam_Amount a) aa -> owed aa < 2 ^ 64 ->
  (forall l : list UtxoWithOutPoint, NoDup l.*1 -> Forall (contract_output addr asset own) l -> (length l <= cap)%nat -> sum_amounts l.*2 < 2 ^ 64) ->
  asset_payment db addr own asset aa = Ok pay ->
  exists sel change, 0 <= change /\ pay = chosen_payment asset addr aa sel change /\
    NoDup sel.*1 /\ (length sel <= 500)%nat /\ Forall (contract_output addr asset own) sel /\
    sum_amounts sel.*2 = ValPayProps.sum_values (Outputs pay) /\ ValPayProps.sum_values (Outputs pay) = owed aa + change /\
    Forall (fun o => out_Asset o = Some asset) (Outputs pay).
Proof.
  intros Hdb Hown Haa Howed Hsmall H. unfold asset_payment, ledger_utxos, GetAddrUtxos in H.
  destruct (utxos_at (Some asset) _ db) as [m| |] eqn:Hm; cbn [rbind] in H; [|done|done].
  destruct (add_own addr asset (go_range own) m) as [m'| |] eqn:Ho; cbn [rbind] in H; [|done|done].
  rewrite owed_wraps in H by lia. rewrite Z.add_0_l, uint64_small in H by (split; [|done]; clear -Haa; unfold owed; induction Haa; cbn; lia).
  assert (Hc : forall o u, m' !! o = Some u -> contract_output addr asset own (o, u) /\ 0 <= u_Amount u).
  { intros o u Hu. destruct (add_own_lookup _ _ _ _ _ Ho _ _ Hu) as [H0|(H1 & H2 & H3 & out & H4 & H5)].
    - destruct (utxos_at_asset _ _ _ Hm _ _ H0) as (Hi & Hl & Ha). split.
      + split; [exists asset; split; [done|]; unfold Asset_Equal, bytes_equal; by rewrite bool_decide_eq_true_2|by left].
      + rewrite Forall_forall in Hdb. apply (Hdb (o, u)). by apply elem_of_map_to_list.
    - rewrite go_range_perm in H4. split.
      + split; [done|]. right. cbn. split; [by rewrite H1|]. split; [done|]. exists out. split; [by apply elem_of_map_to_list|done].
      + rewrite Forall_forall in Hown. by apply (Hown (out, u)). }
  assert (Hall : Forall (contract_output addr asset own) (go_range m')).
  { apply Forall_forall. intros [o u] Hin. rewrite go_range_perm in Hin. apply elem_of_map_to_list in Hin. by apply Hc. }
  pose proof (top_subset UtxoAmount (go_range m')) as Hsub. set (sel := top UtxoAmount (go_range m')) in *.
  assert (Hsel : Forall (contract_output addr asset own) sel).
  { rewrite Forall_forall in *. intros ou Hou. apply Hall. by eapply elem_of_submseteq. }
  assert (Hnd : NoDup sel.*1).
  { assert (Hg : NoDup (go_range m').*1) by (rewrite go_range_perm; apply NoDup_fst_map_to_list).
    apply submseteq_Permutation in Hsub as (k & Hk). rewrite Hk, fmap_app in Hg. by apply NoDup_app in Hg as [? _]. }
  assert (Hlen : (length sel <= cap)%nat) by apply top_length.
  assert (Hpos : 0 <= sum_amounts sel.*2).
  { rewrite <- total_utxos. apply total_nonneg, Forall_forall. intros [o u] Hou. eapply elem_of_submseteq in Hou; [|exact Hsub].
    unfold convertMapUtxo in *. rewrite go_range_perm in Hou. apply elem_of_map_to_list in Hou. exact (proj2 (Hc _ _ Hou)). }
  specialize (Hsmall sel Hnd Hsel Hlen). unfold convertMapUtxo in H.
  rewrite Select_eq in H by (split; [|done]; clear -Haa; unfold owed; induction Haa; cbn; lia). fold sel in H.
  rewrite total_utxos, uint64_small in H by lia. destruct (_ <? _) eqn:Hlt; [done|]. apply Z.ltb_ge in Hlt. injection H as <-.
  exists sel, (sum_amounts sel.*2 - owed aa). cbn [Outputs]. rewrite outputs_value by lia.
  split_and!; try done; [lia|lia|]. unfold asset_outputs. apply Forall_app. split.
  - apply Forall_forall. intros o Hin. by apply list_elem_of_fmap in Hin as (a & -> & _).
  - destruct (_ <? _); repeat constructor.
Qed.

(** The payments of two assets come in the order of a range over a Go map: jurors who iterate in
    different orders make different results of one execution. *)
Theorem payouts_unordered addr own a b x y pays : a <> b -> x <> [] -> y <> [] ->
  asset_payments db addr own [(a, x); (b, y)] = Ok pays ->
  exists p q, pays = [p; q] /\ asset_payments db addr own [(b, y); (a, x)] = Ok [q; p] /\ [p; q] <> [q; p].
Proof.
  intros Hab Hx Hy H. cbn [asset_payments] in *.
  destruct (asset_payment db addr own a x) as [p| |] eqn:Hp; cbn [rbind] in *; [|done|done].
  destruct (asset_payment db addr own b y) as [q| |] eqn:Hq; cbn [rbind] in *; [|done|done].
  injection H as <-. exists p, q. split_and!; [done|done|]. intros Heq. injection Heq as Heq.
  assert (Hout : forall asset aa pay, aa <> [] -> asset_payment db addr own asset aa = Ok pay -> exists o os, Outputs pay = o :: os /\ out_Asset o = Some asset).
  { clear. intros asset aa pay Haa H. unfold asset_payment in H. destruct (ledger_utxos _ _ _); cbn [rbind] in H; [|done|done].
    destruct (add_own _ _ _ _); cbn [rbind] in H; [|done|done]. destruct (Select_utxo_Greedy _ _ _) as [[s c]| |]; [|done|done].
    injection H as <-. destruct aa as [|z aa]; [done|]. cbn. eauto. }
  destruct (Hout _ _ _ Hx Hp) as (o & os & Ho & Ha). destruct (Hout _ _ _ Hy Hq) as (o' & os' & Ho' & Hb). congruence.
Qed.

(** A definition of a non-fungible token that promises more pieces than it lists makes the juror panic. *)
Theorem nft_supply_panics requestId token creator :
  Forall (fun d => 16 <= len d) (NonFungibleData token) -> len (NonFungibleData token) < nt_TotalSupply token ->
  (exists id, NewAssetId (nt_Symbol token) AssetType_NonFungibleToken x00 requestId (nt_Type token) = Ok id) ->
  nft_outputs requestId token creator (nt_TotalSupply token) (NonFungibleData token) = Panic.
Proof.
  intros Hd Hlen (id & Hid). revert Hlen. generalize (nt_TotalSupply token) as left. induction Hd as [|d data Hd _ IH]; intros left Hlen; cbn [nft_outputs].
  - rewrite (proj2 (Z.leb_gt _ _)); [done|]. exact Hlen.
  - rewrite len_cons in Hlen. pose proof (len_nonneg data). rewrite (proj2 (Z.leb_gt _ _)), (proj2 (Z.ltb_ge _ _)) by lia.
    unfold asset_id_of. rewrite Hid. cbn [rbind]. rewrite IH; [done|lia].
Qed.

(** Money paid back is lost when the requester's outputs are locked to a script hash of one key.  The
    address of a payer is read off its unlock script, whose two pushes are taken for a signature and a key:
    the output that pays back is locked to the hash of the redeem script as if it were that of a key. *)
Theorem payback_lost (tx : Transaction) (input0 : Input) (ins : list Input) (out : Output) (lt : Z) (req : Message) (rest : list Message)
    (sign redeemScript : bytes) (contract : Address) :
  Messages tx = mkMessage APP_PAYMENT (Some (PayPayment (mkPayment (input0 :: ins) [out] lt))) :: req :: rest -> TxMessages (E := payout_error) tx = Ok (Messages tx) ->
  IsRequest (App req) = true -> GetAddressFromScript (PkScript out) = Ok contract ->
  SignatureScript input0 = script (AddData redeemScript (AddData sign NewScriptBuilder)) ->
  2 <= len sign <= 75 -> 2 <= len redeemScript <= 520 ->
  contractPayBack (E := payout_error) tx (Address_Bytes contract) =
    Ok [mkMessage APP_PAYMENT (Some (PayPayment (mkPayment [NewTxIn (mkOutPoint NewSelfHash 0 0) []]
      [mkOutput (Value out) (GenerateLockScript (NewAddress (Hash160 redeemScript) PublicKeyHash)) (out_Asset out)] 0)))].
Proof.
  intros Hm Hc Hr Ha Hs L1 L2.
  assert (Hu : GetAddressFromUnlockScript (SignatureScript input0) = Ok (NewAddress (Hash160 redeemScript) PublicKeyHash)).
  { rewrite Hs. apply (unlock_script_address sign sign redeemScript [[x00]]); [done|done|done|vm_compute; split; congruence|].
    constructor; [vm_compute; split; congruence|constructor]. }
  unfold contractPayBack. rewrite Hc. cbn [rbind]. rewrite Hm.
  cbn [payback_messages App as_payment Payload Outputs payback_outputs]. change (IsRequest APP_PAYMENT) with false. cbv iota.
  change (APP_PAYMENT =? APP_PAYMENT) with true. cbv iota. cbn [rbind payback_outputs Outputs]. rewrite Ha. unfold bytes_equal.
  rewrite bool_decide_eq_true_2 by done. cbn [Inputs]. change (index (input0 :: ins) 0) with (Some input0). cbn [rget rbind]. rewrite Hu.
  cbn [rbind fmap option_fmap option_map]. rewrite Hr. reflexivity.
Qed.

End Payments.

(** ** Witnesses *)

Lemma sums_bounded m (l : list UtxoWithOutPoint) : Forall (fun ou => 0 <= u_Amount ou.2) (map_to_list m) -> NoDup l.*1 ->
  Forall (fun ou : UtxoWithOutPoint => m !! ou.1 = Some ou.2) l -> sum_amounts l.*2 <= Pick.total UtxoAmount (map_to_list m).
Proof.
  intros Hpos Hnd Hl. rewrite <- total_utxos.
  assert (Hs : l ⊆+ map_to_list m).
  { apply NoDup_submseteq; [by eapply NoDup_fmap_1|]. intros [o u] Hin. apply elem_of_map_to_list. rewrite Forall_forall in Hl. by apply (Hl _ Hin). }
  apply submseteq_Permutation in Hs as (k & Hk). rewrite Hk in Hpos |- *. apply Forall_app in Hpos as [_ Hk'].
  rewrite Pick.picked_app. assert (0 <= Pick.total UtxoAmount k) by by apply total_nonneg. lia.
Qed.

Definition owing : list addrAmount := [mkAddrAmount payee 6; mkAddrAmount payer 1].
Definition paid : PaymentPayload :=
  match asset_payment (H := sample_env) account_db payer ∅ PTNAsset owing with Ok p => p | _ => mkPayment [] [] 0 end.
Lemma paid_by_contract : asset_payment (H := sample_env) account_db payer ∅ PTNAsset owing = Ok paid.
Proof. vm_compute. reflexivity. Qed.

Lemma contract_payment_conserves_witness : ValPayProps.sum_values (Outputs paid) = 13 /\ Forall (fun o => out_Asset o = Some PTNAsset) (Outputs paid).
Proof.
  split; [vm_compute; reflexivity|].
  destruct (contract_payment_conserves (E := sample_env) account_db payer ∅ PTNAsset owing paid) as (sel & change & _ & _ & _ & _ & _ & _ & _ & Ha).
  - exact account_positive.
  - constructor.
  - repeat constructor; cbn; lia.
  - reflexivity.
  - intros l Hnd Hl _. eapply Z.le_lt_trans; [apply (sums_bounded (utxos account_db)); [exact account_positive|exact Hnd|]|].
    + eapply Forall_impl; [exact Hl|]. intros ou (_ & [(_ & Hu)|(_ & _ & out & Ho & _)]); [exact Hu|]. by rewrite lookup_empty in Ho.
    + vm_compute. reflexivity.
  - exact paid_by_contract.
  - exact Ha.
Defined.

Definition other_asset : Asset := mkAsset (replicate 16 x01) ZeroUniqueId.
Definition two_assets_db : UtxoDb :=
  mkUtxoDb (<[first_point := mkUtxo 9 (Some PTNAsset) [x51] 0 0 0]> {[second_point := mkUtxo 4 (Some other_asset) [x51] 0 0 0]}) ∅
    {[ (Address_Bytes payer, first_point); (Address_Bytes payer, second_point) ]} ∅ ∅.
Definition two_payments (l : list (Asset * list addrAmount)) : list PaymentPayload :=
  match asset_payments (H := sample_env) two_assets_db payer ∅ l with Ok ps => ps | _ => [] end.
Lemma two_payments_ok : asset_payments (H := sample_env) two_assets_db payer ∅ [(PTNAsset, owing); (other_asset, [mkAddrAmount payee 4])] =
  Ok (two_payments [(PTNAsset, owing); (other_asset, [mkAddrAmount payee 4])]).
Proof. vm_compute. reflexivity. Qed.
Lemma payouts_unordered_witness : exists p q, two_payments [(PTNAsset, owing); (other_asset, [mkAddrAmount payee 4])] = [p; q] /\ [p; q] <> [q; p].
Proof.
  destruct (payouts_unordered (E := sample_env) two_assets_db payer ∅ PTNAsset other_asset owing [mkAddrAmount payee 4] _
    ltac:(discriminate) ltac:(discriminate) ltac:(discriminate) two_payments_ok) as (p & q & Hp & _ & Hne).
  exists p, q. split; [exact Hp|exact Hne].
Defined.

Lemma nft_supply_panics_witness :
  nft_outputs (replicate 32 x01) (mkNonFungible "CAT" x00 2 [replicate 16 x02]) payee 2 [replicate 16 x02] = Panic.
Proof.
  apply (nft_supply_panics (replicate 32 x01) (mkNonFungible "CAT" x00 2 [replicate 16 x02]) payee).
  - repeat constructor. vm_compute. congruence.
  - reflexivity.
  - eexists. vm_compute. reflexivity.
Defined.

(** Two payouts of 2^63 to one address leave it nothing. *)
Example payout_wraps : exists m,
  tokenPayOutGroupByAsset (E := payout_error) [mkPayOut (Some PTNAsset) (2 ^ 63) payee 0; mkPayOut (Some PTNAsset) (2 ^ 63) payee 0] = Ok m /\
  m !! PTNAsset = Some [mkAddrAmount payee 0].
Proof. eexists. split; [reflexivity|]. vm_compute. reflexivity. Qed.

(** A request that pays a contract from a script hash with one key *)
Definition a_contract : Address := replicate 20 x0c ++ [ContractHash].
Definition single_redeem : bytes := [x21] ++ replicate 33 x02 ++ [xac].
Definition paying_input : Input := mkInput (script (AddData single_redeem (AddData [x0a; x0b] NewScriptBuilder))) [] (Some first_point).
Definition paying_output : Output := mkOutput 5 (GenerateLockScript a_contract) (Some PTNAsset).
Definition paying_tx : Transaction :=
  new_tx (mkSdw [mkMessage APP_PAYMENT (Some (PayPayment (mkPayment [paying_input] [paying_output] 0)));
                 mkMessage APP_CONTRACT_INVOKE_REQUEST (Some (PayInvokeRequest (mkInvokeReq (Address_Bytes a_contract) [] 0)))] [] false).
Lemma payback_lost_witness : exists msg, contractPayBack (H := sample_env) (E := payout_error) paying_tx (Address_Bytes a_contract) = Ok [msg].
Proof.
  eexists. apply (payback_lost (E := sample_env) paying_tx paying_input [] paying_output 0 (mkMessage APP_CONTRACT_INVOKE_REQUEST (Some (PayInvokeRequest (mkInvokeReq (Address_Bytes a_contract) [] 0)))) [] [x0a; x0b] single_redeem a_contract).
  - reflexivity.
  - vm_compute. reflexivity.
  - reflexivity.
  - vm_compute. reflexivity.
  - reflexivity.
  - vm_compute. split; congruence.
  - vm_compute. split; congruence.
Defined.

End PayoutProps.
