(* ===== verification/Jury.v ===== *)
(** * The signatures of a jury

    src/consensus/jury/common.go: collecting the signatures of the jurors under the
    result of a contract, moving them into the unlock scripts of what the contract
    pays out, the messages of failed executions, and the small tests and fees of the
    file; CompareMessages of src/dag/modules/message.go.  A transaction is a shared
    object: the methods are state transformers of Tx.v.  Log texts, the request
    ids that only name log lines, and the nil transaction are left out; a nil signature is
    an empty one. *)

From S2P Require Import Prelude Errors Float64 Text Opcode Script Builder Address Standard Tx AssetId RlpModel SigHash SigCache Engine TokenApi TxFee Unit ValPayment ChainParams Ledger Rwset HeapSort Pickup Wallet Payout.
From Stdlib Require Import ZArith Lia Bool Ascii.
Local Open Scope Z_scope.

Module Jury.
Import Wallet Payout.

Inductive jury_error := JuryTx (e : tx_error) | JuryError (msg : string).
Definition of_tx {A} (r : result tx_error A) : result jury_error A :=
  match r with Ok a => Ok a | Err e => Err (JuryTx e) | Panic => Panic end.
Definition on_tx {A} (m : ST Transaction tx_error A) : ST Transaction jury_error A :=
  fun tx => let '(tx', r) := m tx in (tx', of_tx r).

(** ** Reading transactions *)

Definition getContractTxType (tx : Transaction) : option MessageType :=
  App <$> List.find (fun msg => (APP_CONTRACT_TPL_REQUEST <=? App msg) && (App msg <=? APP_CONTRACT_STOP_REQUEST)) (Messages tx).
Fixpoint find_msg (msgType : MessageType) (i : Z) (msgs : list Message) : Z * option Message :=
  match msgs with
  | [] => (0, None)
  | msg :: msgs => if App msg =? msgType then (i, Some msg) else find_msg msgType (i + 1) msgs
  end.
(** On deep copies of the messages. *)
Definition getContractTxContractInfo {E} (tx : Transaction) (msgType : MessageType) : result E (Z * option Message) :=
  let? msgs := TxMessages tx in Ok (find_msg msgType 0 msgs).

Definition sig_payload {E} (msg : Message) : result E SignaturePayload :=
  match Payload msg with Some (PaySignature p) => Ok p | _ => Panic end.
Definition signature_msg (tx : Transaction) : option Message := List.find (fun msg => App msg =? APP_SIGNATURE) (Messages tx).
Definition getSignature {E} (tx : Transaction) : result E (list bytes * list bytes) :=
  match signature_msg tx with
  | None => Ok ([], [])
  | Some msg => let? sig := sig_payload msg in Ok (map ss_PubKey (Signatures sig), map ss_Signature (Signatures sig))
  end.
Definition getTxSigNum {E} (tx : Transaction) : result E Z :=
  match signature_msg tx with
  | None => Ok 0
  | Some msg => let? sig := sig_payload msg in Ok (len (Signatures sig))
  end.

(** The first signature is the local one; an empty list is indexed. *)
Fixpoint least_of (localSig : bytes) (sigs : list SignatureSet) : bool :=
  match sigs with
  | [] => true
  | s :: sigs =>
      if len (ss_Signature s) =? 0 then false else
      match bytes_compare localSig (ss_Signature s) with Gt => false | _ => least_of localSig sigs end
  end.
Definition localIsMinSignature {E} (tx : Transaction) : result E bool :=
  if len (Messages tx) <? 3 then Ok false else
  match signature_msg tx with
  | None => Ok false
  | Some msg =>
      let? sig := sig_payload msg in
      match Signatures sig with [] => Panic | s :: sigs => Ok (least_of (ss_Signature s) sigs) end
  end.

Fixpoint count_inputs {E} (afterReq isSysContract : bool) (cnt : Z) (msgs : list Message) : result E Z :=
  match msgs with
  | [] => Ok cnt
  | msg :: msgs =>
      if App msg =? APP_CONTRACT_INVOKE_REQUEST then
        match Payload msg with
        | Some (PayInvokeRequest r) => count_inputs true (IsSystemContractId (vr_ContractId r)) cnt msgs
        | _ => Panic
        end
      else if afterReq && (App msg =? APP_PAYMENT) then
        let? payment := as_payment msg in
        count_inputs afterReq isSysContract (if negb (IsCoinbase payment) && isSysContract then cnt + len (Inputs payment) else cnt) msgs
      else count_inputs afterReq isSysContract cnt msgs
  end.
Definition getContractInvokeMulPaymentInputNum {E} (tx : Transaction) : result E Z :=
  let? msgs := TxMessages tx in count_inputs false false 0 msgs.

(** ** Comparing messages (modules/message.go) *)

(** The type assertion of CompareMessages: a payload of another type is a nil pointer, which the
    library encodes as the empty list. *)
Definition typed (app : MessageType) (p : option payload) : option payload :=
  match p with
  | Some (PayTpl _) => if app =? APP_CONTRACT_TPL then p else None
  | Some (PayDeploy _) => if app =? APP_CONTRACT_DEPLOY then p else None
  | Some (PayInvoke _) => if app =? APP_CONTRACT_INVOKE then p else None
  | Some (PayStop _) => if app =? APP_CONTRACT_STOP then p else None
  | Some (PayTplRequest _) => if app =? APP_CONTRACT_TPL_REQUEST then p else None
  | Some (PayDeployRequest _) => if app =? APP_CONTRACT_DEPLOY_REQUEST then p else None
  | Some (PayInvokeRequest _) => if app =? APP_CONTRACT_INVOKE_REQUEST then p else None
  | Some (PayStopRequest _) => if app =? APP_CONTRACT_STOP_REQUEST then p else None
  | _ => None
  end.
Definition compared (app : MessageType) : bool :=
  existsb (Z.eqb app) [APP_CONTRACT_TPL; APP_CONTRACT_DEPLOY; APP_CONTRACT_INVOKE; APP_CONTRACT_STOP; APP_CONTRACT_TPL_REQUEST;
                       APP_CONTRACT_DEPLOY_REQUEST; APP_CONTRACT_INVOKE_REQUEST; APP_CONTRACT_STOP_REQUEST].

Section Compare.
Context {L : RlpLib}.

Definition enc_typed (p : option payload) : result tx_error bytes := match p with None => Ok [xc0] | Some _ => enc_payload p end.
(** [Equal] of the payloads: the same encoding. *)
Definition payload_Equal {E} (a b : option payload) : result E bool :=
  match enc_typed a with
  | Err _ => Ok false
  | Panic => Panic
  | Ok rlpA =>
      match enc_typed b with
      | Err _ => Ok false
      | Panic => Panic
      | Ok rlpB => Ok (bytes_equal rlpA rlpB)
      end
  end.
(** Payments, signatures, data and account updates are not compared. *)
Definition CompareMessages {E} (msg inMsg : Message) : result E bool :=
  if negb (App msg =? App inMsg) then Ok false
  else if compared (App msg) then payload_Equal (typed (App msg) (Payload msg)) (typed (App msg) (Payload inMsg))
  else Ok true.

Definition last_of (msgType : MessageType) (msgs : list Message) : option Message := List.find (fun v => App v =? msgType) (rev msgs).
(** A nil slice is not an empty one here: [None]. *)
Definition msgsCompareInvoke {E} (msgsA msgsB : option (list Message)) : result E bool :=
  match msgsA, msgsB with
  | Some a, Some b =>
      match last_of APP_CONTRACT_INVOKE a, last_of APP_CONTRACT_INVOKE b with
      | Some msg1, Some msg2 => CompareMessages msg1 msg2
      | _, _ => Ok false
      end
  | _, _ => Ok false
  end.

(** ** Collecting signatures *)

(** The loop over both transactions: the last signature message received. *)
Fixpoint compare_all (msgs recv_msgs : list Message) (recvSigMsg : option Message) : result jury_error (option Message) :=
  match msgs, recv_msgs with
  | msg :: msgs, recv :: recv_msgs =>
      if App recv =? APP_SIGNATURE then compare_all msgs recv_msgs (Some recv)
      else
        let? same := CompareMessages msg recv in
        if negb same then Err (JuryError "tx msg is not equal") else compare_all msgs recv_msgs recvSigMsg
  | _, _ => Ok recvSigMsg
  end.
(** [for _, sig := range sigs]: the received list is indexed at 0 in every turn. *)
Fixpoint received_already (sigs recv : list SignatureSet) : result jury_error bool :=
  match sigs with
  | [] => Ok false
  | sig :: sigs =>
      match recv with
      | [] => Panic
      | r :: _ =>
          if bytes_equal (ss_PubKey sig) (ss_PubKey r) && bytes_equal (ss_Signature sig) (ss_Signature r) then Ok true
          else received_already sigs recv
      end
  end.

Variable keccak : bytes -> Hash.

(** [local] nil: false without an error. *)
Definition checkAndAddTxSigMsgData (recv : option Transaction) : ST Transaction jury_error bool :=
  match recv with
  | None => throw (JuryError "param is nil")
  | Some recv =>
      let! local := gets (fun tx => tx) in
      let! msgs := lift (TxMessages local) in
      let! recv_msgs := lift (TxMessages recv) in
      if negb (len msgs =? len recv_msgs) then throw (JuryError "tx msg is invalid") else
      let! recvSigMsg := lift (compare_all msgs recv_msgs None) in
      match recvSigMsg with
      | None => throw (JuryError "not find recv sig msg")
      | Some recvSigMsg =>
          match find_msg APP_SIGNATURE 0 msgs with
          | (_, None) => throw (JuryError "fail")
          | (i, Some msg) =>
              let! sigPayload := lift (sig_payload msg) in
              let! recvPayload := lift (match Signatures sigPayload with [] => Ok (mkSignature []) | _ => sig_payload recvSigMsg end) in
              let! already := lift (received_already (Signatures sigPayload) (Signatures recvPayload)) in
              if already : bool then ret false else
              let! recvPayload := lift (sig_payload recvSigMsg) in
              let added := match Signatures recvPayload with [] => [] | s :: _ => [s] end in
              on_tx (ModifiedMsg keccak i (mkMessage (App msg) (Some (PaySignature (mkSignature (Signatures sigPayload ++ added)))))) ;;;
              ret true
          end
      end
  end.

Definition addContractSignatureSet (sigSet : SignatureSet) : ST Transaction jury_error unit :=
  let! tx := gets (fun tx => tx) in
  let! (index, sigMsg) := lift (getContractTxContractInfo tx APP_SIGNATURE) in
  match sigMsg with
  | Some msg =>
      let! sig := lift (sig_payload msg) in
      on_tx (ModifiedMsg keccak index (mkMessage (App msg) (Some (PaySignature (mkSignature (Signatures sig ++ [sigSet]))))))
  | None => on_tx (AddMessage keccak (Some (mkMessage APP_SIGNATURE (Some (PaySignature (mkSignature [sigSet]))))))
  end.

End Compare.

(** ** The unlock script of a payout *)

(** [for i := 1; i < n; i++]: the last index whose signature is above the first. *)
Fixpoint above_first (maxSig : bytes) (i max : nat) (signs : list bytes) : nat :=
  match signs with
  | [] => max
  | sign :: signs => above_first maxSig (S i) (match bytes_compare maxSig sign with Lt => i | _ => max end) signs
  end.
Definition DeleOneMax {E} (signs : list bytes) : result E (list bytes) :=
  match signs with
  | [] => Panic
  | maxSig :: rest => let max := above_first maxSig 1 0 rest in Ok (take max signs ++ drop (S max) signs)
  end.
Fixpoint delete_many {E} (delNum : nat) (signs : list bytes) : result E (list bytes) :=
  match delNum with
  | O => Ok signs
  | S delNum => let? signs := DeleOneMax signs in delete_many delNum signs
  end.

Fixpoint key_index (pubkey : bytes) (j : nat) (pubkeyBytes : list bytes) : option nat :=
  match pubkeyBytes with
  | [] => None
  | k :: pubkeyBytes => if bytes_equal pubkey k then Some j else key_index pubkey (S j) pubkeyBytes
  end.
(** [for i := range pubkeys]; [signs] is indexed when the key is found. *)
Fixpoint place_signs {E} (pubkeyBytes pubkeys signs signsNew : list bytes) : result E (list bytes) :=
  match pubkeys with
  | [] => Ok signsNew
  | pubkey :: pubkeys =>
      match key_index pubkey 0 pubkeyBytes with
      | None => place_signs pubkeyBytes pubkeys (tail signs) signsNew
      | Some j =>
          match signs with
          | [] => Panic
          | s :: signs => place_signs pubkeyBytes pubkeys signs (<[j := s]> signsNew)
          end
      end
  end.
Definition redeem_words (redeem : bytes) : list string := Split " " (DisasmString redeem).1.
Definition redeem_keys (redeem : bytes) : list bytes :=
  let pubkeyStrs := redeem_words redeem in map DecodeString (take (length pubkeyStrs - 3) (drop 1 pubkeyStrs)).
(** The signatures in the order of the keys of the redeem script, and no more than it needs. *)
Definition SortSigs {E} (pubkeys signs : list bytes) (redeem : bytes) : result E (list bytes) :=
  let pubkeyBytes := redeem_keys redeem in
  let? signsNew := place_signs pubkeyBytes pubkeys signs (replicate (length pubkeyBytes) []) in
  let signsOrder := filter (fun s : bytes => 0 < len s) signsNew in
  let needed := (Params.ParseInt (List.hd ""%string (redeem_words redeem))).1 in
  delete_many (Z.to_nat (len signsOrder - needed)) signsOrder.

Section Payouts.
Context `{ScriptEnv}.
Variable GetJurorByAddrHash : Hash -> result string bytes.

Fixpoint juror_keys (ele : list ElectionInf) : result jury_error (option (list bytes)) :=
  match ele with
  | [] => Ok (Some [])
  | ju :: ele =>
      match GetJurorByAddrHash (el_AddrHash ju) with
      | Err _ => Ok None
      | Panic => Panic
      | Ok key => let? keys := juror_keys ele in Ok (cons key <$> keys)
      end
  end.
(** An unknown juror leaves no script at all. *)
Definition generateJuryRedeemScript (jury : ElectionNode) : result jury_error bytes :=
  let needed := to_byte (two_thirds (len (EleList jury))) in
  let? keys := juror_keys (EleList jury) in
  Ok (match keys with None => [] | Some pubKeys => (GenerateRedeemScript needed pubKeys).1 end).

Definition with_unlock (unlock : bytes) (p : PaymentPayload) : PaymentPayload :=
  mkPayment (map (fun input => mkInput unlock (Extra input) (PreviousOutPoint input)) (Inputs p)) (Outputs p) (LockTime p).
(** The first payout message gets the unlock script; the signatures are removed. *)
Definition processContractPayout (ele : option ElectionNode) : ST Transaction jury_error unit :=
  match ele with
  | None => ret tt
  | Some ele =>
      let! tx := gets (fun tx => tx) in
      let! payout := lift (HasContractPayoutMsg tx) in
      match payout with
      | None => ret tt
      | Some (index, payout_msg) =>
          let! (pubkeys, signs) := lift (getSignature tx) in
          let! redeem := lift (generateJuryRedeemScript ele) in
          let! signsOrder := lift (SortSigs pubkeys signs redeem) in
          let unlock := MergeContractUnlockScript signsOrder redeem in
          let! pay := lift (as_payment payout_msg) in
          on_tx (ModifiedMsg env_keccakHash index (mkMessage (App payout_msg) (Some (PayPayment (with_unlock unlock pay))))) ;;;
          let! msgs := gets Messages in
          on_tx (SetMessages env_keccakHash (List.filter (fun msg => negb (App msg =? APP_SIGNATURE)) msgs))
      end
  end.

(** ** Failed executions *)

(** [crypto.RequestIdToContractAddress] *)
Definition RequestIdToContractAddress (deployRequestId : Hash) : Address := NewAddress (Hash160 deployRequestId) ContractHash.
Fixpoint contract_id_of (reqHash : result tx_error Hash) (msgs : list Message) : result jury_error bytes :=
  match msgs with
  | [] => Ok []
  | msg :: msgs =>
      if App msg =? APP_CONTRACT_DEPLOY_REQUEST then let? h := of_tx reqHash in Ok (Address_Bytes (RequestIdToContractAddress h))
      else if App msg =? APP_CONTRACT_INVOKE_REQUEST then
        match Payload msg with Some (PayInvokeRequest r) => Ok (vr_ContractId r) | _ => Panic end
      else if App msg =? APP_CONTRACT_STOP_REQUEST then
        match Payload msg with Some (PayStopRequest r) => Ok (sr_ContractId r) | _ => Panic end
      else contract_id_of reqHash msgs
  end.
Definition GetContractId (tx : Transaction) : result jury_error bytes := contract_id_of (RequestHash env_keccakHash tx) (Messages tx).

Definition no_jury : ElectionNode := mkElectionNode 0 [].
(** [None] is a nil message, which the caller appends like any other. *)
Definition createContractErrorPayloadMsg (tx : Transaction) (errIn : string) : result jury_error (option Message) :=
  let contractErr := mkContractError 500 errIn in
  match getContractTxType tx with
  | None => Ok None
  | Some reqType =>
      let? (_, contractReq) := getContractTxContractInfo tx reqType in
      let? contractReq := rget contractReq in
      match Payload contractReq with
      | Some (PayTplRequest req) => if reqType =? APP_CONTRACT_TPL_REQUEST then Ok (Some (mkMessage APP_CONTRACT_TPL (Some (PayTplRequest req)))) else Panic
      | Some (PayDeployRequest req) =>
          if reqType =? APP_CONTRACT_DEPLOY_REQUEST then Ok (Some (mkMessage APP_CONTRACT_DEPLOY (Some (PayDeploy (mkDeploy [] [] "" [] no_jury [] [] 0 contractErr))))) else Panic
      | Some (PayInvokeRequest req) =>
          if reqType =? APP_CONTRACT_INVOKE_REQUEST then Ok (Some (mkMessage APP_CONTRACT_INVOKE (Some (PayInvoke (mkInvoke (vr_ContractId req) [] [] [] [] contractErr))))) else Panic
      | Some (PayStopRequest req) =>
          if reqType =? APP_CONTRACT_STOP_REQUEST then Ok (Some (mkMessage APP_CONTRACT_STOP (Some (PayStop (mkStop (sr_ContractId req) [] [] contractErr))))) else Panic
      | _ => Panic
      end
  end.
Definition genContractErrorMsg (tx : Transaction) (errIn : string) (errMsgEnable : bool) : result jury_error (list (option Message)) :=
  if negb errMsgEnable then Err (JuryError errIn) else
  let? errMsg := createContractErrorPayloadMsg tx errIn in
  let? addr := GetContractId tx in
  let? paybacks := contractPayBack tx addr in
  Ok (errMsg :: map Some paybacks).

(** The certificate goes between the first argument, which handleMsg0 made, and the rest. *)
Definition handleArg1 (tx : Transaction) (reqArgs : list bytes) : result jury_error (list bytes) :=
  match reqArgs with
  | a0 :: a1 :: args => Ok (a0 :: CertId tx :: a1 :: args)
  | _ => Err (JuryError "handlemsg1 req args error")
  end.

Definition checkTxReceived (all : list Transaction) (tx : option Transaction) : result jury_error bool :=
  if len all <? 1 then Ok false else
  match tx with
  | None => Ok true
  | Some tx =>
      let? inHash := of_tx ((Hash_ env_keccakHash tx).2) in
      let fix received (all : list Transaction) : result jury_error bool :=
        match all with
        | [] => Ok false
        | local :: all => let? h := of_tx ((Hash_ env_keccakHash local).2) in if bytes_equal inHash h then Ok true else received all
        end in
      received all
  end.

End Payouts.

(** ** Elections and fees *)

Definition electionWeightValue (total : Z) : Z :=
  if total <=? 20 then 4
  else if (20 <? total) && (total <=? 50) then 7
  else if (50 <? total) && (total <=? 100) then 8
  else if (100 <? total) && (total <=? 200) then 15
  else if (200 <? total) && (total <=? 500) then 17
  else if 500 <? total then 20
  else 4.

Definition getValidAddress (addrs : list Address) : list Address :=
  fold_left (fun result a => if existsb (fun b => Address.Equal a b) result then result else result ++ [a]) addrs [].

(** The difference of the counts is a uint64. *)
Definition checkJuryCountValid (numIn numLocal : Z) : bool :=
  if numLocal =? 0 then false
  else to_int (fdiv (fmul (of_int (uint64 (numIn - numLocal))) (of_int 100)) (of_int numLocal)) <=? 10.

Inductive FeeType := ContractFeeTypeTimeOut | ContractFeeTypeTxSize.
Section Fees.
Variable cp : ChainParameters.
Definition getContractFeeLevel (msg : MessageType) (feeType : FeeType) : float64 :=
  let opFee :=
    if msg =? APP_CONTRACT_TPL_REQUEST then ContractTxInstallFeeLevel cp
    else if msg =? APP_CONTRACT_DEPLOY_REQUEST then ContractTxDeployFeeLevel cp
    else if msg =? APP_CONTRACT_INVOKE_REQUEST then ContractTxInvokeFeeLevel cp
    else if msg =? APP_CONTRACT_STOP_REQUEST then ContractTxStopFeeLevel cp
    else of_int 0 in
  match feeType with
  | ContractFeeTypeTimeOut => fmul opFee (of_int (ContractTxTimeoutUnitFee cp))
  | ContractFeeTypeTxSize => fmul opFee (of_int (ContractTxSizeUnitFee cp))
  end.
Definition getContractTxNeedFee (msgType : MessageType) (timeout txSize : float64) : float64 * float64 :=
  (fmul (getContractFeeLevel msgType ContractFeeTypeTimeOut) timeout, fmul (getContractFeeLevel msgType ContractFeeTypeTxSize) txSize).
End Fees.

End Jury.
