(* ===== verification/JuryProps.v ===== *)
(** * Properties of the signatures of a jury

    SortSigs picks the signatures a redeem script needs; what processContractPayout moves
    into the unlock scripts, the engine accepts.  The failures: the comparison of messages
    that leaves out payments, the second payout that is left locked, the signature that is
    removed though it is not the greatest. *)

From S2P Require Import Prelude Errors Float64 Text Opcode Script Builder Address Standard Tx AssetId RlpModel TxProps TxFlow SigHash SigCache Engine EngineInv EngineRun EngineProps SigCheck Steps Spend Redeem Sign SignProps TokenApi ApiProps TxFee Unit ValPayment ChainParams Ledger Rwset HeapSort Pickup Wallet Payout Jury.
From Stdlib Require Import ZArith Lia Bool Ascii.
Local Open Scope Z_scope.

Module JuryProps.
Import Wallet Payout Jury.

(** ** Selecting the signatures *)

(** The signature a list gives for a key: the last one. *)
Fixpoint sign_for (k : bytes) (pubkeys signs : list bytes) (s0 : bytes) : bytes :=
  match pubkeys, signs with
  | pk :: pubkeys, s :: signs => sign_for k pubkeys signs (if bytes_equal pk k then s else s0)
  | _, _ => s0
  end.

Lemma key_index_spec pk kb : forall j, match key_index pk j kb with
  | Some i => (j <= i)%nat /\ kb !! (i - j)%nat = Some pk
  | None => pk ∉ kb
  end.
Proof.
  induction kb as [|k kb IH]; intros j; cbn [key_index]; [apply not_elem_of_nil|].
  unfold bytes_equal. case_bool_decide as Q.
  - subst. split; [lia|]. by rewrite Nat.sub_diag.
  - specialize (IH (S j)). destruct (key_index pk (S j) kb) as [i|].
    + destruct IH as [Le E]. split; [lia|]. by replace (i - j)%nat with (S (i - S j)) by lia.
    + rewrite elem_of_cons. intros [->|I]; done.
Qed.

Lemma map_insert_key (f : bytes -> bytes) kb j pk s : NoDup kb -> kb !! j = Some pk ->
  <[j := s]> (map f kb) = map (fun k => if bytes_equal pk k then s else f k) kb.
Proof.
  intros ND I. apply list_eq. intros i. rewrite list_lookup_insert. change (map f kb) with (f <$> kb).
  change (map ?g kb) with (g <$> kb). rewrite !list_lookup_fmap, length_fmap. apply lookup_lt_Some in I as Lt.
  unfold bytes_equal. case_decide as D.
  - destruct D as [<- _]. rewrite I. cbn. by rewrite bool_decide_eq_true_2.
  - destruct (kb !! i) as [k|] eqn:Ik; [|done]. cbn. rewrite bool_decide_eq_false_2; [done|]. intros <-.
    apply D. split; [|done]. by eapply NoDup_lookup.
Qed.

Lemma place_signs_spec {E} kb : NoDup kb -> forall pubkeys signs f, length pubkeys = length signs ->
  place_signs (E := E) kb pubkeys signs (map f kb) = Ok (map (fun k => sign_for k pubkeys signs (f k)) kb).
Proof.
  intros ND. induction pubkeys as [|pk pubkeys IH]; intros [|s signs] f L; try done. cbn [place_signs].
  pose proof (key_index_spec pk kb 0) as K. destruct (key_index pk 0 kb) as [j|].
  - destruct K as [_ K]. rewrite Nat.sub_0_r in K. rewrite (map_insert_key f kb j pk s) by done. by rewrite IH by (simpl in L; lia).
  - simpl tail. rewrite IH by (simpl in L; lia). f_equal. apply map_ext_in. intros k Ik. cbn [sign_for].
    unfold bytes_equal. rewrite bool_decide_eq_false_2; [done|]. intros ->. by apply K, list_elem_of_In.
Qed.

(** [DeleOneMax] removes one signature. *)
Lemma above_first_lt maxSig rest : forall i max, (max < i)%nat -> (above_first maxSig i max rest < i + length rest)%nat.
Proof.
  induction rest as [|s rest IH]; intros i max L; cbn [above_first length]; [lia|].
  rewrite Nat.add_succ_r, <- Nat.add_succ_l. apply IH. destruct (bytes_compare _ _); lia.
Qed.
Lemma DeleOneMax_sublist {E} signs : signs <> [] ->
  exists signs', DeleOneMax (E := E) signs = Ok signs' /\ signs' `sublist_of` signs /\ S (length signs') = length signs.
Proof.
  destruct signs as [|s signs]; [done|]. intros _. unfold DeleOneMax.
  pose proof (above_first_lt s signs 1 0 ltac:(lia)) as L. set (max := above_first _ _ _ _) in *.
  eexists. split; [done|]. split.
  - rewrite <- (take_drop max (s :: signs)) at 3. apply sublist_app; [done|].
    replace (S max) with (max + 1)%nat by lia. rewrite <- drop_drop. apply sublist_drop.
  - rewrite length_app, length_take, length_drop. cbn [length]. lia.
Qed.

Lemma delete_many_sublist {E} d : forall signs, (d <= length signs)%nat ->
  exists signs', delete_many (E := E) d signs = Ok signs' /\ signs' `sublist_of` signs /\ (length signs' + d = length signs)%nat.
Proof.
  induction d as [|d IH]; intros signs L; cbn [delete_many].
  - exists signs. split_and!; [done|done|lia].
  - destruct (DeleOneMax_sublist (E := E) signs) as (s1 & -> & S1 & L1); [by destruct signs; [simpl in L; lia|]|].
    cbn [rbind]. destruct (IH s1 ltac:(lia)) as (s2 & -> & S2 & L2). exists s2. split_and!; [done|by etrans|lia].
Qed.

(** ** Reading the redeem script *)

Lemma word_small n : 1 <= n <= 16 -> (Params.ParseInt (word (plain (small_op n)))).1 = n /\ no_space (word (plain (small_op n))) = true.
Proof.
  intros R. assert (I : n ∈ seqZ 1 16) by (apply elem_of_seqZ; lia). revert n I R.
  apply (Forall_forall (fun n => 1 <= n <= 16 -> (Params.ParseInt (word (plain (small_op n)))).1 = n /\ no_space (word (plain (small_op n))) = true)).
  repeat constructor; by vm_compute.
Qed.

Section Redeem.
Variables (keys : list bytes) (n : Z).
Hypotheses (Hn : 1 <= n <= 16) (Hk : 1 <= len keys <= 16) (Fk : Forall (fun k => 33 <= len k <= 65) keys).

Lemma redeem_words_ok : redeem_words (concat (map encoding (multisig_pops keys n))) =
  word (plain (small_op n)) :: map hex_bytes keys ++ [word (plain (small_op (len keys))); word (plain OP_CHECKMULTISIG)].
Proof.
  unfold redeem_words, DisasmString. rewrite parseScript_encoded by by apply multisig_good. cbn [fst].
  assert (Wk : map word (map push keys) = map hex_bytes keys).
  { rewrite map_map. apply map_ext_in. intros k I. rewrite Forall_forall in Fk. specialize (Fk k ltac:(by apply list_elem_of_In)). simpl in Fk.
    apply push_word. lia. }
  rewrite Split_disasm; [|done|].
  - unfold multisig_pops. cbn [map]. by rewrite map_app, Wk.
  - unfold multisig_pops. constructor; [by apply word_small|]. apply Forall_app. split.
    + apply List.Forall_map. eapply Forall_impl; [exact Fk|]. cbv beta. intros k Lk. rewrite push_word by lia. apply hex_no_space.
    + rewrite !Forall_cons. split_and!; [by apply word_small|by vm_compute|constructor].
Qed.

Lemma redeem_keys_ok : redeem_keys (concat (map encoding (multisig_pops keys n))) = keys.
Proof.
  unfold redeem_keys. rewrite redeem_words_ok. cbn [skipn length]. rewrite length_app, length_map. cbn [length].
  replace (S (length keys + 2) - 3)%nat with (length (map hex_bytes keys)) by (rewrite length_map; lia).
  rewrite drop_0, take_app_length, map_map. rewrite <- (map_id keys) at 2. apply map_ext. apply DecodeString_hex.
Qed.

(** SortSigs: no error, the signatures of keys of the script in the order of the keys, and as many of them
    as the script needs if there are so many. *)
Lemma SortSigs_ok {E} pubkeys signs : NoDup keys -> length pubkeys = length signs ->
  let have := filter (fun s : bytes => 0 < len s) (map (fun k => sign_for k pubkeys signs []) keys) in
  exists order, SortSigs (E := E) pubkeys signs (concat (map encoding (multisig_pops keys n))) = Ok order /\
    order `sublist_of` have /\ len order = Z.min n (len have).
Proof.
  intros ND L have. unfold SortSigs. rewrite redeem_keys_ok, redeem_words_ok. cbn [List.hd].
  replace (replicate (length keys) []) with (map (fun _ : bytes => @nil byte) keys).
  2:{ clear. induction keys as [|k l IH]; [done|]. cbn [map length replicate]. by rewrite IH. }
  rewrite place_signs_spec by done. cbn [rbind]. fold have. rewrite (proj1 (word_small n Hn)).
  destruct (delete_many_sublist (E := E) (Z.to_nat (len have - n)) have) as (order & -> & So & Lo); [unfold len; lia|].
  exists order. split_and!; [done|done|]. unfold len in *. lia.
Qed.
End Redeem.

(** Signatures in the order of their keys can be matched with them. *)
Lemma sublist_signed (ok : bytes -> bytes -> bool) (sg : bytes -> bytes) (tag : bytes -> bytes) keys : forall order,
  (forall k, k ∈ keys -> 0 < len (sg k) -> ok k (tag (sg k)) = true) ->
  order `sublist_of` filter (fun s : bytes => 0 < len s) (map sg keys) -> signed_in_order ok keys (map tag order).
Proof.
  induction keys as [|k keys IH]; intros order F S.
  - apply sublist_nil_r in S as ->. constructor.
  - cbn [map] in S. rewrite filter_cons in S. case_decide as D.
    + apply sublist_cons_r in S as [S|(l' & -> & S)].
      * apply sio_skip, IH; [|done]. intros k' I. apply F. by constructor.
      * cbn [map]. apply sio_take; [apply F; [constructor|done]|]. apply IH; [|done]. intros k' I. apply F. by constructor.
    + apply sio_skip, IH; [|done]. intros k' I. apply F. by constructor.
Qed.

(** ** The engine on a payout *)

(** The verdict on an output of a contract whose jury has a multi-signature redeem script. *)
Lemma p2ch_multisig_verdict `{ScriptEnv} (t : Transaction) (m i : Z) (mg : Message) (p : PaymentPayload) (input : Input)
    (keys sigs : list bytes) (R h lock : bytes) (c : option SigCache) :
  len h = 20 -> 1 <= len keys <= 16 -> 1 <= len sigs <= len keys -> NoDup keys ->
  Forall (fun key => 33 <= len key <= 65) keys -> Forall pushable sigs ->
  R = concat (map encoding (multisig_pops keys (len sigs))) -> len R <= MaxScriptElementSize -> jury_accepts R h = Ok true ->
  (forall script ht, 0 <= ht < 256 -> exists data, calcSignatureData env_keccakHash script ht t m i = Ok data) ->
  len (SignatureScript input) <= maxScriptSize ->
  index (Messages t) m = Some mg -> Payload mg = Some (PayPayment p) -> index (Inputs p) i = Some input ->
  SignatureScript input = concat (map encoding (map canonical_pop (([] :: sigs) ++ [R]))) -> payToContractHash h = Ok lock ->
  exists vm v (b : bool), NewEngine lock t m i StandardVerifyExcludeSignFlags c = Ok vm /\
    Execute vm = (v, Some (if b then Ok tt else Err ErrStackScriptFailed)) /\
    (signed_in_order (sig_ok vm (multisig_code keys sigs)) keys sigs -> b = true).
Proof.
  intros Hh Hk Hn ND Fk Fs HR LR Ja Hd Sz Im Pm Ii Ss Lk. rewrite payToContractHash_ok in Lk by done. injection Lk as <-.
  destruct (multisig_pops_end keys sigs Hk Hn Fk) as [Lp _].
  assert (Ps : parseScript R = (multisig_pops keys (len sigs), None)).
  { subst R. apply parseScript_encoded. apply multisig_good; done || lia. }
  assert (Lr : 4 <= len R).
  { apply parse_length in Ps. rewrite Lp, len_cons, len_app, len_cons, len_nil in Ps. lia. }
  assert (F : Forall pushable (([] :: sigs) ++ [R])).
  { apply Forall_app. split; [|repeat constructor; [done|]; intros ->; by vm_compute in Lr].
    constructor; [|done]. by split; [by vm_compute|]. }
  assert (L : len (([] :: sigs) ++ [R]) < maxStackSize) by (rewrite len_app, !len_cons, len_nil; unfold maxStackSize; lia).
  rewrite Ss in Sz. destruct (lock_pops_class h Hh) as (_ & _ & C1 & C2).
  pose proof (redeem_engine t m i _ R c F Sz false true (p2ch_pops h) eq_refl mg p input _ Im Pm Ii Ss (p2ch_load h Hh) C1 C2) as N.
  destruct (Execute_spec _ (NewEngine_inv _ _ _ _ _ _ _ N) (NewEngine_start _ _ _ _ _ _ _ N)) as (v & r & E & _).
  pose proof E as G. rewrite (Execute_iff _ _ _ _ _ _ _ _ _ N), unlock_run, p2ch_lock, Ja in G by done.
  unfold redeem_goes in G. rewrite Ps in G. apply multisig_run in G as (b & -> & Lo & _); try done.
  eexists _, v, b. split; [exact N|]. split; [exact E|exact Lo].
Qed.

(** What MergeContractUnlockScript makes of the signatures. *)
Lemma unlock_script_encoding signs R : 1 <= len signs <= 16 -> Forall (fun s => 1 <= len s <= 74) signs -> len R <= MaxScriptElementSize ->
  MergeContractUnlockScript signs R =
    concat (map encoding (map canonical_pop (([] :: map (fun s => s ++ [x04]) signs) ++ [R]))) /\
  len (MergeContractUnlockScript signs R) <= maxScriptSize.
Proof.
  intros Ln Fs LR. unfold MergeContractUnlockScript. pose proof (canonicalDataSize_bound R).
  assert (B1 := building_AddOp _ _ OP_0 building_new eq_refl ltac:(done)).
  destruct (building_signs signs _ _ B1 Fs) as [B2 L2]; [change (len (script (AddOp OP_0 NewScriptBuilder))) with 1; lia|].
  change (len (script (AddOp OP_0 NewScriptBuilder))) with 1 in L2.
  cbv zeta in L2. pose proof (building_len _ _ B2) as Ls.
  eapply (building_AddData _ _ R) in B2; [|done|unfold MaxScriptElementSize, maxScriptSize in *; lia].
  assert (M : len (script (AddData R (fold_left (fun b sign => AddData (sign ++ [x04]) b) signs (AddOp OP_0 NewScriptBuilder)))) <= maxScriptSize).
  { rewrite (building_len _ _ B2), encodings_len_app, <- Ls. cbn [map concat].
    unfold MaxScriptElementSize, maxScriptSize in *. rewrite app_nil_r, <- canonicalDataSize_encoding by lia. lia. }
  assert (Eq : ([] ++ [plain OP_0]) ++ map (fun s => push (s ++ [x04])) signs ++ [canonical_pop R] =
               map canonical_pop (([] :: map (fun s => s ++ [x04]) signs) ++ [R])).
  { cbn [app map]. rewrite map_app. f_equal. cbn [map]. f_equal. rewrite map_map. apply map_ext_in. intros s I.
    rewrite Forall_forall in Fs. specialize (Fs s ltac:(by apply list_elem_of_In)). simpl in Fs. symmetry. apply canonical_pop_push.
    rewrite len_app, len_cons, len_nil. lia. }
  rewrite <- app_assoc, Eq in B2. destruct B2 as (E & G & S). by split.
Qed.

(** ** What the jurors sign *)

Definition unsigned (msgs : list Message) : list Message := List.filter (fun m => negb (App m =? APP_SIGNATURE)) msgs.

Lemma payload_of_payment m : complete m -> App m = APP_PAYMENT -> exists p, Payload m = Some (PayPayment p).
Proof. intros (p & P & A & _) Ap. rewrite P. rewrite Ap in A. destruct p; try discriminate A. by eexists. Qed.

Lemma ResultRaw_strip msgs : Forall complete msgs -> ResultRaw_loop (E := tx_error) true msgs = Ok (map strip_message (unsigned msgs)).
Proof.
  induction 1 as [|m msgs C _ IH]; [done|]. cbn [ResultRaw_loop unsigned List.filter orb]. rewrite IH.
  destruct (App m =? APP_SIGNATURE) eqn:S; [done|]. cbn [negb map andb]. unfold strip_message at 2.
  destruct (Z.eqb_spec (App m) APP_PAYMENT) as [A|_]; [|done].
  destruct (payload_of_payment m C A) as [p P]. unfold as_payment. by rewrite P.
Qed.

Lemma ResultRaw_form before req after : Forall complete after -> IsRequest (App req) = true ->
  Forall (fun m => IsRequest (App m) = false /\ App m <> APP_SIGNATURE) before ->
  ResultRaw_loop (E := tx_error) false (before ++ req :: after) = Ok (before ++ req :: map strip_message (unsigned after)).
Proof.
  intros C R F. destruct (request_kind req R) as [K1 K2]. induction F as [|m before [Hm Hs] _ IH]; simpl.
  - rewrite R, K1, K2. simpl. by rewrite ResultRaw_strip.
  - rewrite Hm, (proj2 (Z.eqb_neq _ _) Hs). simpl. by rewrite IH.
Qed.

Lemma set_scripts_off ins : forall i idx s, set_scripts i idx false s ins = map (fun x => mkInput [] (Extra x) (PreviousOutPoint x)) ins.
Proof. induction ins as [|x ins IH]; intros; cbn [set_scripts map]; [done|]. by rewrite andb_false_r, IH. Qed.

(** The copy that is signed with the hash type 4: payments from the request on lose their scripts. *)
Lemma edit_raw_after {E} msgs : Forall complete msgs -> forall mIdx m idx ri s, ri <= mIdx ->
  edit_messages (E := E) mIdx m idx ri true SigHashRaw s msgs = Ok (map strip_message msgs).
Proof.
  induction 1 as [|mg msgs C _ IH]; intros mIdx m idx ri s Le; [done|]. cbn [edit_messages]. rewrite IH by lia.
  cbn [map]. unfold strip_message at 2. destruct (Z.eqb_spec (App mg) APP_PAYMENT) as [A|_]; [|done].
  destruct (payload_of_payment mg C A) as [p P]. unfold as_payment. rewrite P. cbn [rbind].
  replace (mIdx <? ri) with false by lia. cbn [andb]. change (SigHashRaw =? SigHashRaw) with true. rewrite andb_false_r, set_scripts_off. done.
Qed.
Lemma edit_raw_before {E} before rest : Forall complete before -> forall mIdx m idx ri s r, mIdx + len before <= ri ->
  edit_messages (E := E) (mIdx + len before) m idx ri true SigHashRaw s rest = Ok r ->
  edit_messages (E := E) mIdx m idx ri true SigHashRaw s (before ++ rest) = Ok (before ++ r).
Proof.
  induction 1 as [|mg before C _ IH]; intros mIdx m idx ri s r Le E0.
  - rewrite len_nil, Z.add_0_r in E0. done.
  - rewrite len_cons in Le, E0. pose proof (len_nonneg before). cbn [app edit_messages].
    rewrite (IH (mIdx + 1) m idx ri s r) by (lia || (rewrite <- E0; f_equal; lia)).
    destruct (Z.eqb_spec (App mg) APP_PAYMENT) as [A|_]; [|done].
    destruct (payload_of_payment mg C A) as [p P]. unfold as_payment. rewrite P. cbn [rbind].
    by replace (mIdx <? ri) with true by lia.
Qed.

Lemma request_index before req rest : IsRequest (App req) = true -> Forall (fun m => IsRequest (App m) = false /\ App m <> APP_SIGNATURE) before ->
  forall i, find_index_from i (fun m => IsRequest (App m)) (before ++ req :: rest) = i + len before.
Proof.
  intros R. induction 1 as [|m before [Hm _] _ IH]; intros i; cbn [app find_index_from].
  - rewrite R. rewrite len_nil. lia.
  - rewrite Hm, IH, len_cons. lia.
Qed.

(** With the hash type 4 a payment after the request is signed with the raw result, whatever the scripts. *)
Lemma raw_signed_data {L : RlpLib} {LL : RlpLaws L} keccak script before req rest certid illegal h m idx mg p :
  encodable_tx (mkSdw (before ++ req :: rest) certid illegal) ->
  encodable_tx (mkSdw (before ++ req :: map strip_message rest) certid illegal) ->
  Forall complete (before ++ req :: rest) -> IsRequest (App req) = true ->
  Forall (fun m => IsRequest (App m) = false /\ App m <> APP_SIGNATURE) before ->
  len before < m -> index (before ++ req :: rest) m = Some mg -> App mg = APP_PAYMENT -> Payload mg = Some (PayPayment p) ->
  calcSignatureData keccak script SigHashRaw (mkTx (mkSdw (before ++ req :: rest) certid illegal) h) m idx =
  EncodeRLP (mkSdw (before ++ req :: map strip_message rest) certid illegal).
Proof.
  intros En En' C R F Lm I A P.
  set (tx := mkTx _ h). rewrite (calcSignatureData_form keccak script SigHashRaw tx m idx tx m) by (done || exact En).
  unfold message_at at 1. change (Messages tx) with (before ++ req :: rest). rewrite I. cbn [rget rbind]. unfold as_payment at 1. rewrite P. cbn [rbind].
  change (Z.land SigHashRaw sigHashMask =? SigHashSingle) with false. cbn [andb]. cbv zeta.
  unfold GetRequestMsgIndex. change (Messages tx) with (before ++ req :: rest). rewrite (request_index before req rest R F 0), Z.add_0_l.
  pose proof (len_nonneg before). replace (len before <? m) with true by lia. replace (len before =? -1) with false by lia. cbn [negb andb].
  apply Forall_app in C as [Cb Cr]. inversion Cr as [|? ? Cq Cr']; subst. destruct (request_kind req R) as [_ K].
  rewrite (edit_raw_before before (req :: rest) Cb 0 m idx (len before) _ (req :: map strip_message rest)); [|lia|].
  2:{ pose proof (edit_raw_after (E := tx_error) (req :: rest) Cr (0 + len before) m idx (len before)) as X. rewrite X by lia. cbn [map].
      unfold strip_message at 1. by rewrite K. }
  cbn [rbind]. set (msgs := before ++ req :: map strip_message rest).
  assert (I2 : index msgs m = Some (strip_message mg)).
  { revert I. unfold index. replace (m <? 0) with false by lia. unfold msgs. rewrite !lookup_app_r by (unfold len in *; lia).
    destruct (Z.to_nat m - length before)%nat as [|k] eqn:Q; [unfold len in *; lia|].
    change ((req :: rest) !! S k) with (rest !! k). change ((req :: ?l) !! S k) with (l !! k). intros I'. change (map strip_message rest) with (strip_message <$> rest). by rewrite list_lookup_fmap, I'. }
  unfold message_at. rewrite I2. cbn [rget rbind]. assert (P2 : Payload (strip_message mg) = Some (PayPayment (clear_signatures p))).
  { unfold strip_message. by rewrite A, P. }
  unfold as_payment. rewrite P2. cbn [rbind]. change (edit_outputs SigHashRaw idx ?q) with (Ok (E := tx_error) q). cbn [rbind].
  change (edit_inputs SigHashRaw idx ?q) with (Ok (E := tx_error) q). cbn [rbind].
  rewrite (list_insert_payment msgs m _ _ I2 P2). change (CertId tx) with certid. change (Illegal tx) with illegal.
  destruct (rlp_roundtrip_data _ En') as (b' & E' & _). fold msgs in E'. by rewrite E'.
Qed.

(** ** Moving the signatures *)

Lemma set_data_total `{L : RlpLib} {LL : RlpLaws L} keccak msgs certid illegal tx : codec_safe c_payment -> codec_safe c_tx -> Forall sendable msgs ->
  exists h, set_data keccak (mkSdw msgs certid illegal) tx = (mkTx (mkSdw msgs certid illegal) (Some h), Ok tt).
Proof.
  intros CP CT F. unfold set_data, bind, modify, lift, Hash_, bind, gets, lift, RlpHash, legal, new_tx. cbn [tx_hash txdata sdw_Illegal sdw_TxMessages sdw_CertId snd].
  assert (N : forall b, EncodeRLP (mkSdw msgs certid b) <> Panic) by (intros b; by apply EncodeRLP_safe).
  destruct illegal; match goal with |- context [EncodeRLP ?d] => pose proof (N (sdw_Illegal d)) as M; cbn [sdw_Illegal] in M; destruct (EncodeRLP d) end;
    try done; by eexists.
Qed.

Lemma Payout_split {E} msgs : forall i b idx mg, Payout_loop (E := E) i b msgs = Ok (Some (idx, mg)) ->
  exists pre post, msgs = pre ++ mg :: post /\ idx = i + len pre /\ App mg = APP_PAYMENT /\
    (b = true \/ existsb (fun m => IsRequest (App m)) pre = true).
Proof.
  induction msgs as [|x msgs IH]; intros i b idx mg; cbn [Payout_loop]; [done|].
  assert (Go : forall b', Payout_loop (E := E) (i + 1) b' msgs = Ok (Some (idx, mg)) -> (b' = true -> b = true \/ IsRequest (App x) = true) ->
    exists pre post, x :: msgs = pre ++ mg :: post /\ idx = i + len pre /\ App mg = APP_PAYMENT /\
      (b = true \/ existsb (fun m => IsRequest (App m)) pre = true)).
  { intros b' H B. destruct (IH _ _ _ _ H) as (pre & post & -> & -> & A & X). exists (x :: pre), post. rewrite len_cons.
    split_and!; [done|lia|done|]. cbn [existsb]. rewrite orb_true_iff.
    destruct X as [X|X]; [|by auto]. destruct (B X); auto. }
  destruct (IsRequest (App x)) eqn:Rx; [intros H; by apply (Go true H); auto|].
  destruct b eqn:Qb; cbn [andb]; [|intros H; by apply (Go false H)].
  destruct (Z.eqb_spec (App x) APP_PAYMENT) as [A|_]; [|intros H; apply (Go true H); auto].
  destruct (as_payment x) as [p| |]; cbn [rbind]; [|done|done]. destruct (IsCoinbase p); cbn [negb]; [intros H; apply (Go true H); auto|].
  intros [= <- <-]. exists [], msgs. rewrite len_nil. split_and!; [done|lia|done|by left].
Qed.

Lemma unsigned_app l1 l2 : unsigned (l1 ++ l2) = unsigned l1 ++ unsigned l2.
Proof. unfold unsigned. by rewrite List.filter_app. Qed.
Lemma unsigned_sendable `{L : RlpLib} msgs : Forall sendable msgs -> Forall sendable (unsigned msgs).
Proof. induction 1; simpl; [done|]. destruct (negb _); [by constructor|done]. Qed.

Lemma with_unlock_strip mg pay s : App mg = APP_PAYMENT -> Payload mg = Some (PayPayment pay) ->
  strip_message (mkMessage (App mg) (Some (PayPayment (with_unlock s pay)))) = strip_message mg.
Proof.
  intros A P. unfold strip_message. cbn [App Payload]. rewrite A, P. change (APP_PAYMENT =? APP_PAYMENT) with true. cbv iota.
  do 3 f_equal. unfold clear_signatures, with_unlock. cbn [Inputs Outputs LockTime]. f_equal. by rewrite map_map.
Qed.

Section Moved.
Context `{ScriptEnv} (LL : RlpLaws env_rlp) (GetJuror : Hash -> result string bytes).
Hypotheses (SafeP : codec_safe c_payment) (SafeT : codec_safe c_tx).

(** The payout message gets the unlock script and the signatures are gone. *)
Lemma payout_moved ele tx idx payout pay pubkeys signs R order :
  Forall sendable (Messages tx) -> HasContractPayoutMsg (E := jury_error) tx = Ok (Some (idx, payout)) -> Payload payout = Some (PayPayment pay) ->
  getSignature (E := jury_error) tx = Ok (pubkeys, signs) -> generateJuryRedeemScript GetJuror ele = Ok R -> SortSigs (E := jury_error) pubkeys signs R = Ok order ->
  exists pre post tx', Messages tx = pre ++ payout :: post /\ App payout = APP_PAYMENT /\ existsb (fun m => IsRequest (App m)) pre = true /\
    processContractPayout GetJuror (Some ele) tx = (tx', Ok tt) /\
    txdata tx' = mkSdw (unsigned pre ++ mkMessage (App payout) (Some (PayPayment (with_unlock (MergeContractUnlockScript order R) pay))) :: unsigned post)
                   (CertId tx) (Illegal tx).
Proof.
  intros F Hp Pp Gs Gr So. pose proof Hp as Sp. apply Payout_split in Sp as (pre & post & M & -> & A & [|X]); [done|].
  rewrite M in F. pose proof F as F0. apply Forall_app in F as [F1 F2]. inversion F2 as [|? ? Fp F3]; subst.
  set (mg := mkMessage (App payout) (Some (PayPayment (with_unlock (MergeContractUnlockScript order R) pay)))).
  assert (Sm : sendable mg) by (eapply sendable_strip; [by apply with_unlock_strip|done]).
  destruct (set_data_total env_keccakHash (pre ++ mg :: post) (CertId tx) (Illegal tx) tx SafeP SafeT) as [h1 E1].
  { apply Forall_app. split; [done|by constructor]. }
  set (tx1 := mkTx _ (Some h1)) in E1.
  destruct (set_data_total env_keccakHash (unsigned pre ++ mg :: unsigned post) (CertId tx) (Illegal tx) tx1 SafeP SafeT) as [h2 E2].
  { apply Forall_app. split; [by apply unsigned_sendable|]. constructor; [done|by apply unsigned_sendable]. }
  exists pre, post. eexists. split; [done|]. split; [done|]. split; [done|]. split.
  - unfold processContractPayout, bind, gets, lift. rewrite Hp, Gs, Gr, So. cbv beta iota zeta. unfold as_payment. rewrite Pp. fold mg.
    unfold on_tx, ModifiedMsg, bind, gets. rewrite M, Z.add_0_l, len_app, len_cons. pose proof (len_nonneg post).
    replace (_ <? _) with false by lia. pose proof (replace_at_app pre payout post mg 0) as Ra. rewrite Z.add_0_l in Ra. rewrite Ra, E1. cbn [of_tx].
    change (Messages tx1) with (pre ++ mg :: post). change (List.filter _ ?l) with (unsigned l). rewrite unsigned_app.
    assert (U : unsigned (mg :: post) = mg :: unsigned post).
    { unfold unsigned. cbn [List.filter]. change (App mg) with (App payout). by rewrite A. }
    rewrite U. unfold SetMessages, bind, gets. rewrite len_app, len_cons. pose proof (len_nonneg (unsigned pre)). pose proof (len_nonneg (unsigned post)).
    replace (0 <? _) with true by lia. change (CertId tx1) with (CertId tx). change (Illegal tx1) with (Illegal tx). rewrite E2. done.
  - done.
Qed.
End Moved.

(** ** The redeem script of a jury *)

Lemma two_thirds_jury c : 2 <= c <= 15 -> 1 <= b2z (to_byte (two_thirds c)) <= c /\ b2z (to_byte (two_thirds c)) = to_int (two_thirds c).
Proof.
  intros R. assert (I : c ∈ seqZ 2 14) by (apply elem_of_seqZ; lia). revert c I R.
  apply (Forall_forall (fun c => 2 <= c <= 15 -> 1 <= b2z (to_byte (two_thirds c)) <= c /\ b2z (to_byte (two_thirds c)) = to_int (two_thirds c))).
  repeat constructor; vm_compute; congruence.
Qed.

Lemma pushes_size keys : Forall (fun key => len key = 33) keys -> len (concat (map encoding (map push keys))) = 34 * len keys.
Proof.
  induction 1 as [|k keys L _ IH]; [done|]. cbn [map concat]. rewrite len_app, IH, encoding_push, !len_cons, L by lia. lia.
Qed.
Lemma redeem_size keys n : 1 <= n <= 16 -> 1 <= len keys <= 16 -> Forall (fun key => len key = 33) keys ->
  len (concat (map encoding (multisig_pops keys n))) = 34 * len keys + 3.
Proof.
  intros N K F. unfold multisig_pops. change (?x :: map push keys ++ ?l) with ([x] ++ map push keys ++ l).
  rewrite !encodings_len_app, pushes_size by done. cbn [map concat].
  rewrite !encoding_plain by (apply small_op_facts; lia || reflexivity). unfold len. simpl. lia.
Qed.

Lemma juror_keys_ok GetJuror ele keys : Forall2 (fun ju key => GetJuror (el_AddrHash ju) = Ok key) ele keys ->
  juror_keys GetJuror ele = Ok (Some keys).
Proof. induction 1 as [|ju key ele keys E _ IH]; [done|]. cbn [juror_keys]. by rewrite E, IH. Qed.

Section JuryRedeem.
Context `{ScriptEnv} (GetJuror : Hash -> result string bytes) (ele : ElectionNode) (keys : list bytes).
Hypotheses (Jk : Forall2 (fun ju key => GetJuror (el_AddrHash ju) = Ok key) (EleList ele) keys)
  (Lk : 2 <= len keys <= 15) (Fk : Forall (fun key => len key = 33) keys).
Abbreviation needed := (to_int (two_thirds (len keys))).

Lemma jury_redeem_script : exists R, generateJuryRedeemScript GetJuror ele = Ok R /\
  R = concat (map encoding (multisig_pops (sort_keys keys) needed)) /\ len R <= MaxScriptElementSize.
Proof.
  destruct (two_thirds_jury (len keys) Lk) as [N Eq]. assert (Le : len (EleList ele) = len keys).
  { unfold len. f_equal. by eapply Forall2_length. }
  unfold generateJuryRedeemScript. rewrite (juror_keys_ok GetJuror _ _ Jk), Le. cbn [rbind]. eexists. split; [done|].
  destruct (GenerateRedeemScript_pops (to_byte (two_thirds (len keys))) keys ltac:(lia) ltac:(lia)) as [-> _].
  { eapply Forall_impl; [exact Fk|]. intros k L. cbv beta in L. unfold is_pubkey_len. rewrite L. reflexivity. }
  cbn [fst]. rewrite Eq. split; [done|]. assert (Ls : len (sort_keys keys) = len keys) by (unfold len; by rewrite sort_keys_perm).
  rewrite redeem_size; [rewrite Ls; unfold MaxScriptElementSize; lia|lia|lia|by rewrite sort_keys_perm].
Qed.
End JuryRedeem.

Lemma sign_for_spec k pubkeys : forall signs s0, length pubkeys = length signs ->
  if bool_decide (k ∈ pubkeys) then exists i, pubkeys !! i = Some k /\ signs !! i = Some (sign_for k pubkeys signs s0)
  else sign_for k pubkeys signs s0 = s0.
Proof.
  induction pubkeys as [|pk pubkeys IH]; intros [|s signs] s0 L; try done. cbn [sign_for].
  specialize (IH signs (if bytes_equal pk k then s else s0) ltac:(simpl in L; lia)). unfold bytes_equal in *.
  destruct (bool_decide_reflect (k ∈ pubkeys)) as [I|I].
  - rewrite bool_decide_eq_true_2 by (by constructor). destruct IH as (i & I1 & I2). by exists (S i).
  - destruct (decide (pk = k)) as [->|N].
    + rewrite (bool_decide_eq_true_2 (k = k)) in IH |- * by done. rewrite bool_decide_eq_true_2 by constructor. exists 0%nat. by rewrite IH.
    + rewrite (bool_decide_eq_false_2 (pk = k)) in IH |- * by done. rewrite bool_decide_eq_false_2; [done|]. rewrite elem_of_cons. intros [->|]; done.
Qed.

Lemma getSignature_length {E} tx pubkeys signs : getSignature (E := E) tx = Ok (pubkeys, signs) -> length pubkeys = length signs.
Proof.
  unfold getSignature. destruct (signature_msg tx) as [msg|]; [|by intros [= <- <-]].
  destruct (sig_payload msg) as [p| |]; cbn [rbind]; [|done|done]. intros [= <- <-]. by rewrite !length_map.
Qed.

Lemma signed_count keys pubkeys signs : length pubkeys = length signs ->
  (forall i key s, pubkeys !! i = Some key -> signs !! i = Some s -> key ∈ keys -> 0 < len s) ->
  length (filter (fun s : bytes => 0 < len s) (map (fun k => sign_for k pubkeys signs []) keys)) = length (filter (fun key => key ∈ pubkeys) keys).
Proof.
  intros L F. assert (G : forall k, k ∈ keys -> 0 < len (sign_for k pubkeys signs []) <-> k ∈ pubkeys).
  { intros k I. pose proof (sign_for_spec k pubkeys signs [] L) as S. case_bool_decide as D.
    - destruct S as (i & I1 & I2). split; [done|]. intros _. by apply (F i k).
    - rewrite S. split; [intros X; by vm_compute in X|done]. }
  clear F. induction keys as [|k keys IH]; [done|]. cbn [map]. rewrite !filter_cons. specialize (IH ltac:(intros; apply G; by constructor)).
  pose proof (G k ltac:(constructor)) as Gk. do 2 case_decide; cbn [length]; tauto || lia.
Qed.

Lemma before_unique (before1 before2 : list Message) req1 req2 after1 after2 : before1 ++ req1 :: after1 = before2 ++ req2 :: after2 ->
  IsRequest (App req1) = true -> Forall (fun m => IsRequest (App m) = false) before1 -> existsb (fun m => IsRequest (App m)) before2 = true ->
  exists mid, before2 = before1 ++ req1 :: mid /\ after1 = mid ++ req2 :: after2.
Proof.
  revert before2. induction before1 as [|x before1 IH]; intros [|y before2] E R F X; try done.
  - injection E as -> ->. by exists before2.
  - inversion F as [|? ? Fx F']; subst. injection E as <- E. cbn [existsb] in X. rewrite Fx in X. simpl in X.
    destruct (IH before2 E R F' X) as (mid & -> & ->). by exists mid.
Qed.

Lemma strip_strip m : strip_message (strip_message m) = strip_message m.
Proof.
  unfold strip_message at 2. destruct (App m =? APP_PAYMENT) eqn:A; [|done].
  destruct (Payload m) as [[p| | | | | | | | | | |]|] eqn:P; try done. unfold strip_message. cbn [App Payload]. rewrite A, P.
  do 3 f_equal. unfold clear_signatures. cbn [Inputs Outputs LockTime]. by rewrite map_map.
Qed.

Lemma sorted_keys keys : NoDup keys -> Forall (fun key => len key = 33) keys ->
  len (sort_keys keys) = len keys /\ NoDup (sort_keys keys) /\ Forall (fun k => 33 <= len k <= 65) (sort_keys keys).
Proof.
  intros ND Fk. split; [unfold len; by rewrite sort_keys_perm|]. split; [by rewrite sort_keys_perm|]. rewrite sort_keys_perm.
  eapply Forall_impl; [exact Fk|]. intros k L. cbv beta in L. lia.
Qed.

Section JuryOrder.
Context `{ScriptEnv} (keys pubkeys signs : list bytes) (data : bytes).
Hypotheses (Lk : 2 <= len keys <= 15) (ND : NoDup keys) (Fk : Forall (fun key => len key = 33) keys) (Lp : length pubkeys = length signs)
  (Vs : forall i key sign, pubkeys !! i = Some key -> signs !! i = Some sign -> key ∈ keys -> 33 <= len sign <= 74 /\ Verify key sign data = true).
Abbreviation needed := (to_int (two_thirds (len keys))).
Hypothesis Enough : needed <= len (filter (fun key => key ∈ pubkeys) keys).

(** As many signatures as needed, and they can be matched with the keys of the redeem script. *)
Lemma jury_order : exists order,
  SortSigs (E := jury_error) pubkeys signs (concat (map encoding (multisig_pops (sort_keys keys) needed))) = Ok order /\
  len order = needed /\ 1 <= needed <= len keys /\ Forall (fun s => 33 <= len s <= 74) order /\
  forall ok, (forall key sign, 33 <= len sign -> Verify key sign data = true -> ok key (sign ++ [x04]) = true) ->
    signed_in_order ok (sort_keys keys) (map (fun s => s ++ [x04]) order).
Proof.
  destruct (sorted_keys keys ND Fk) as (Ls & NDs & Fs). destruct (two_thirds_jury (len keys) Lk) as [N Eq]. rewrite Eq in N.
  destruct (SortSigs_ok (E := jury_error) (sort_keys keys) needed ltac:(lia) ltac:(lia) Fs pubkeys signs NDs Lp) as (order & So & Sub & Lo).
  assert (G : forall k, k ∈ sort_keys keys -> 0 < len (sign_for k pubkeys signs []) ->
    33 <= len (sign_for k pubkeys signs []) <= 74 /\ Verify k (sign_for k pubkeys signs []) data = true).
  { intros k I P. rewrite sort_keys_perm in I. pose proof (sign_for_spec k pubkeys signs [] Lp) as S. case_bool_decide as D.
    - destruct S as (i & I1 & I2). by apply (Vs i).
    - rewrite S in P. by vm_compute in P. }
  exists order. split; [done|]. split; [|split; [done|split]].
  - rewrite Lo. enough (X : needed <= len (filter (fun s : bytes => 0 < len s) (map (fun k => sign_for k pubkeys signs []) (sort_keys keys)))) by lia.
    unfold len at 2. rewrite signed_count; [|done|].
    + rewrite sort_keys_perm. exact Enough.
    + intros i key s I1 I2 I3. rewrite sort_keys_perm in I3. pose proof (Vs i key s I1 I2 I3) as [? _]. lia.
  - apply Forall_forall. intros s I. assert (I' := sublist_submseteq _ _ Sub). apply (elem_of_submseteq _ _ s) in I'; [|done].
    apply list_elem_of_filter in I' as [P I']. apply list_elem_of_fmap in I' as (k & -> & I'). by apply G.
  - intros ok Ok. apply (sublist_signed ok (fun k => sign_for k pubkeys signs []) (fun s => s ++ [x04])); [|done].
    intros k I P. destruct (G k I P) as [? ?]. apply Ok; [lia|done].
Qed.
End JuryOrder.

Lemma strip_of_raw before req rest certid illegal : 
  strip (mkSdw (before ++ req :: map strip_message rest) certid illegal) = strip (mkSdw (before ++ req :: rest) certid illegal).
Proof.
  unfold strip. cbn [sdw_TxMessages sdw_CertId sdw_Illegal]. f_equal. rewrite !map_app. cbn [map]. do 2 f_equal.
  rewrite map_map. apply map_ext. apply strip_strip.
Qed.

Lemma filter_unsigned msgs : List.filter (fun m => negb (App m =? APP_SIGNATURE)) (unsigned msgs) = unsigned msgs.
Proof. unfold unsigned. induction msgs as [|m msgs IH]; [done|]. cbn [List.filter]. destruct (negb _) eqn:Q; [|done]. cbn [List.filter]. by rewrite Q, IH. Qed.

Section PaidOut.
Context `{ScriptEnv} (LL : RlpLaws env_rlp) (Blind : script_blind env_rlp) (SafeP : codec_safe c_payment) (SafeT : codec_safe c_tx).
Variables (before mid post : list Message) (req payout : Message) (pay : PaymentPayload) (certid unlock : bytes) (illegal : bool) (raw : Transaction)
  (h : option Hash).
Hypotheses (R : IsRequest (App req) = true) (Fb : Forall (fun m => IsRequest (App m) = false /\ App m <> APP_SIGNATURE) before)
  (Cp : Forall complete (before ++ req :: mid ++ payout :: post)) (A : App payout = APP_PAYMENT) (Pp : Payload payout = Some (PayPayment pay)).
Abbreviation rest := (unsigned mid ++ payout :: unsigned post).
Hypotheses (Raw : txdata raw = mkSdw (before ++ req :: map strip_message rest) certid illegal)
  (En : encodable_tx (txdata raw)) (En1 : encodable_tx (mkSdw [payout] [] false)).
Abbreviation mg := (mkMessage (App payout) (Some (PayPayment (with_unlock unlock pay)))).
Abbreviation tx' := (mkTx (mkSdw (before ++ req :: unsigned mid ++ mg :: unsigned post) certid illegal) h).
Abbreviation m := (len before + 1 + len (unsigned mid)).

Lemma paid_rest : map strip_message (unsigned mid ++ mg :: unsigned post) = map strip_message rest.
Proof. rewrite !map_app. cbn [map]. by rewrite with_unlock_strip. Qed.

Lemma paid_encodable : encodable_tx (txdata tx').
Proof.
  apply (Blind (txdata raw)); [|done]. rewrite Raw, <- paid_rest. apply strip_of_raw.
Qed.

Lemma paid_complete : Forall complete (before ++ req :: unsigned mid ++ mg :: unsigned post) /\ complete mg.
Proof.
  apply Forall_app in Cp as [C1 C2]. apply Forall_cons in C2 as [C2 C3]. apply Forall_app in C3 as [C3 C4]. apply Forall_cons in C4 as [C4 C5].
  assert (Cm : complete mg).
  { destruct C4 as (q & Q & K & C). rewrite Pp in Q. injection Q as <-. eexists. split; [done|]. split; [done|]. exact C. }
  split; [|done]. apply Forall_app. split; [done|]. constructor; [done|]. apply Forall_app. split; [by apply complete_filter|].
  constructor; [done|by apply complete_filter].
Qed.

Lemma paid_index : index (before ++ req :: unsigned mid ++ mg :: unsigned post) m = Some mg.
Proof.
  change (before ++ req :: ?l) with (before ++ [req] ++ l). rewrite !app_assoc. apply index_middle.
  rewrite !len_app, len_cons, len_nil. lia.
Qed.

(** The data of a type 4 signature of the payout, and that there are data of any type. *)
Lemma paid_data script i : calcSignatureData env_keccakHash script SigHashRaw tx' m i = EncodeRLP (txdata raw).
Proof.
  rewrite Raw, <- paid_rest. pose proof (len_nonneg (unsigned mid)).
  apply (raw_signed_data env_keccakHash script before req (unsigned mid ++ mg :: unsigned post) certid illegal h m i mg (with_unlock unlock pay)); try done.
  - apply paid_encodable.
  - rewrite paid_rest, <- Raw. exact En.
  - apply paid_complete.
  - lia.
  - apply paid_index.
Qed.
Lemma paid_any script ht i : 0 <= i < len (Inputs pay) -> exists d, calcSignatureData env_keccakHash script ht tx' m i = Ok d.
Proof.
  intros Ri. apply (calcSignatureData_ok env_keccakHash script ht tx' m i mg (with_unlock unlock pay)); try done.
  - apply paid_encodable.
  - apply (Blind (mkSdw [payout] [] false)); [|done]. unfold strip. cbn [sdw_TxMessages map]. by rewrite with_unlock_strip.
  - apply paid_complete.
  - apply paid_index.
  - unfold with_unlock, len. cbn [Inputs]. rewrite length_map. exact Ri.
Qed.
Lemma paid_unsigned : signature_msg tx' = None.
Proof.
  unfold signature_msg. change (Messages tx') with (before ++ req :: unsigned mid ++ mg :: unsigned post).
  assert (U : unsigned (before ++ req :: unsigned mid ++ mg :: unsigned post) = before ++ req :: unsigned mid ++ mg :: unsigned post).
  { unfold unsigned. rewrite results_split by done. rewrite List.filter_app. cbn [List.filter App]. rewrite A. cbn [negb].
    by rewrite !filter_unsigned. }
  rewrite <- U. clear U. generalize (before ++ req :: unsigned mid ++ mg :: unsigned post). intros l.
  induction l as [|x l IH]; [done|]. cbn [unsigned List.filter]. destruct (App x =? APP_SIGNATURE) eqn:Q; cbn [negb]; [exact IH|]. cbn [List.find]. by rewrite Q.
Qed.
End PaidOut.

Lemma tagged_pushable order : Forall (fun s => 1 <= len s <= 74) order -> Forall pushable (map (fun s => s ++ [x04]) order).
Proof.
  induction 1 as [|s order L _ IH]; [constructor|]. constructor; [|done]. split.
  - rewrite len_app, len_cons, len_nil. unfold MaxScriptElementSize. lia.
  - intros E. apply (f_equal len) in E. rewrite len_app, len_cons, len_nil in E. change (len [x00]) with 1 in E. lia.
Qed.

Lemma jury_accepted `{ScriptEnv} redeem h : pickupJuryRedeemScript (NewAddress h ContractHash) = Ok redeem -> jury_accepts redeem h = Ok true.
Proof. intros E. unfold jury_accepts. destruct (IsSystemContractAddress _); [done|]. rewrite E. cbn [rbind]. unfold bytes_equal. by rewrite bool_decide_eq_true_2. Qed.


(** ** Properties *)

(** C34: What the jurors sign, the engine accepts.  The jurors sign the raw result of a contract request;
    processContractPayout takes the signatures out of the transaction and puts as many as the redeem
    script needs, in the order of its keys, into the unlock scripts of the payout; then every input of
    the payout that spends an output of a contract with this jury passes, whatever the signature cache
    holds, provided two thirds of two to fifteen jurors have signed and no signature of a juror is wrong. *)
Theorem jury_payout_accepted `{ScriptEnv} (LL : RlpLaws env_rlp) (GetJuror : Hash -> result string bytes) (ele : ElectionNode)
    (keys pubkeys signs : list bytes) (tx raw : Transaction) (idx : Z) (payout : Message) (pay : PaymentPayload) (data : bytes) :
  script_blind env_rlp -> codec_safe c_payment -> codec_safe c_tx ->
  Forall2 (fun ju key => GetJuror (el_AddrHash ju) = Ok key) (EleList ele) keys ->
  2 <= len keys <= 15 -> NoDup keys -> Forall (fun key => len key = 33) keys ->
  Forall complete (Messages tx) -> encodable_tx (txdata tx) -> encodable_tx (mkSdw [payout] [] false) ->
  request_first (Messages tx) ->
  HasContractPayoutMsg (E := jury_error) tx = Ok (Some (idx, payout)) -> Payload payout = Some (PayPayment pay) ->
  GetResultRawTx (E := tx_error) tx = Ok raw -> encodable_tx (txdata raw) -> EncodeRLP (txdata raw) = Ok data ->
  getSignature (E := jury_error) tx = Ok (pubkeys, signs) ->
  (forall i key sign, pubkeys !! i = Some key -> signs !! i = Some sign -> key ∈ keys ->
    33 <= len sign <= 74 /\ Verify key sign data = true) ->
  to_int (two_thirds (len keys)) <= len (filter (fun key => key ∈ pubkeys) keys) ->
  exists redeem tx' m unlock, generateJuryRedeemScript GetJuror ele = Ok redeem /\
    processContractPayout GetJuror (Some ele) tx = (tx', Ok tt) /\
    index (Messages tx') m = Some (mkMessage APP_PAYMENT (Some (PayPayment (with_unlock unlock pay)))) /\
    signature_msg tx' = None /\
    forall h lock i c, len h = 20 -> pickupJuryRedeemScript (NewAddress h ContractHash) = Ok redeem ->
      payToContractHash h = Ok lock -> 0 <= i < len (Inputs pay) ->
      exists vm v, NewEngine lock tx' m i StandardVerifyExcludeSignFlags c = Ok vm /\ Execute vm = (v, Some (Ok tt)).
Proof.
  intros Blind SafeP SafeT Jk Lk ND Fk Cp En En1 (before & req & after & M & R & Fb) Hp Pp Raw EnR Dr Gs Vs Enough.
  destruct (jury_redeem_script GetJuror ele keys Jk Lk Fk) as (redeem & Gr & Er & Lr).
  pose proof (getSignature_length _ _ _ Gs) as Lp. destruct (sorted_keys keys ND Fk) as (Ls & NDs & Fs).
  destruct (jury_order keys pubkeys signs data Lk ND Fk Lp Vs Enough) as (order & So & Lo & N & Fo & Sio). rewrite <- Er in So.
  destruct (payout_moved LL GetJuror SafeP SafeT ele tx idx payout pay pubkeys signs redeem order) as (pre & post & tx' & M2 & A & X & Run & D'); try done.
  { eapply Forall_impl; [apply En|apply sendable_encodable]. }
  rewrite M in M2. destruct (before_unique before pre req payout after post M2 R ltac:(eapply Forall_impl; [exact Fb|by intros ? []]) X) as (mid & -> & ->).
  set (unlock := MergeContractUnlockScript order redeem) in *.
  assert (Ub : unsigned (before ++ req :: mid) = before ++ req :: unsigned mid) by by apply results_split.
  destruct tx' as [d' h']. cbn [txdata] in D'. rewrite Ub, <- app_assoc in D'. cbn [app] in D'. subst d'.
  assert (Rw : txdata raw = mkSdw (before ++ req :: map strip_message (unsigned mid ++ payout :: unsigned post)) (CertId tx) (Illegal tx)).
  { unfold GetResultRawTx in Raw. rewrite TxMessages_id in Raw by done. cbn [rbind] in Raw. rewrite M in Cp, Raw.
    apply Forall_app in Cp as [_ Cp]. apply Forall_cons in Cp as [_ Cp]. rewrite ResultRaw_form in Raw by done.
    injection Raw as <-. rewrite unsigned_app. cbn [unsigned List.filter]. rewrite A. done. }
  rewrite M in Cp. match type of Run with _ = (?t, _) => set (tx' := t) in * end.
  exists redeem, tx', (len before + 1 + len (unsigned mid)), unlock. split; [exact Gr|]. split; [exact Run|].
  split; [rewrite <- A; by apply (paid_index before mid post req payout pay unlock)|]. split; [by apply (paid_unsigned before mid post req payout pay (CertId tx) unlock (Illegal tx))|].
  intros h lock i c Hh Pick Lk' Ri.
  set (sigs := map (fun s => s ++ [x04]) order). assert (Lg : len sigs = len order) by (unfold sigs, len; by rewrite length_map).
  destruct (unlock_script_encoding order redeem) as [Enc Size]; [lia|eapply Forall_impl; [exact Fo|]; cbv beta; lia|done|]. fold unlock sigs in Enc, Size.
  destruct (lookup_lt_is_Some_2 (Inputs pay) (Z.to_nat i) ltac:(unfold len in Ri; lia)) as [input Ii].
  destruct (p2ch_multisig_verdict tx' (len before + 1 + len (unsigned mid)) i
    (mkMessage (App payout) (Some (PayPayment (with_unlock unlock pay)))) (with_unlock unlock pay) (mkInput unlock (Extra input) (PreviousOutPoint input))
    (sort_keys keys) sigs redeem h lock c Hh) as (vm & v & b & Ne & Ex & Acc);
    [lia|lia|done|done|apply tagged_pushable; eapply Forall_impl; [exact Fo|]; cbv beta; lia|by rewrite Lg, Lo|done| | |exact Size|by apply (paid_index before mid post req payout pay unlock)|done| |exact Enc|done|].
  - by apply jury_accepted.
  - intros script ht _. by apply (paid_any LL Blind SafeP SafeT before mid post req payout pay (CertId tx) unlock (Illegal tx) raw).
  - unfold index, with_unlock. cbn [Inputs]. replace (i <? 0) with false by lia. change (map ?f (Inputs pay)) with (f <$> Inputs pay). by rewrite list_lookup_fmap, Ii.
  - exists vm, v. split; [exact Ne|]. rewrite Acc in Ex; [exact Ex|]. apply Sio. intros key sign Ls' V. unfold sig_ok. rewrite len_app, len_cons, len_nil.
    replace (len sign + (0 + 1) =? 0) with false by lia. change x04 with (z2b SigHashRaw). rewrite split_sig_app by (by split).
    apply NewEngine_ok in Ne as (? & ? & ? & ? & ? & _ & _ & _ & _ & _ & _ & _ & ->). cbn [Engine.tx msgIdx txIdx fst snd].
    pose proof (paid_data LL Blind before mid post req payout pay (CertId tx) unlock (Illegal tx) raw h' R Fb Cp A Pp Rw EnR (multisig_code (sort_keys keys) sigs) i) as Pd.
    change (calcSignatureData env_keccakHash (multisig_code (sort_keys keys) sigs) SigHashRaw tx' (len before + 1 + len (unsigned mid)) i = EncodeRLP (txdata raw)) in Pd.
    rewrite Pd, Dr. exact V.
Qed.

(** *** Sample data *)

(** A jury of two whose keys are those of [ms_keys]; the key of a juror is the start of its signature. *)
Definition jury_redeem : bytes := (GenerateRedeemScript x02 ms_keys).1.
Definition env_of (redeem : bytes) : ScriptEnv := {|
  env_rlp := digit_lib;
  env_keccakHash := fun b => take 32 b;
  Verify := fun pk sig _ => is_prefix pk sig;
  Hash160 := fun b => take 20 (b ++ replicate 20 x00);
  Ripemd160 := fun b => b; Sha1 := fun b => b; Keccak256 := fun b => b;
  pickupJuryRedeemScript := fun _ => Ok redeem;
  cacheOrder := fun c => elements (validSigs c);
  cacheRand := fun _ => None
|}.
Definition jury_env : ScriptEnv := env_of jury_redeem.
Definition jury_of_two : ElectionNode := mkElectionNode 2 (map (fun k => mkElectionInf x00 k [] []) ms_keys).
Definition pay_out (n : Z) : PaymentPayload := mkPayment [mkInput [] [] (Some (mkOutPoint (replicate 32 x11) 0 n))] [mkOutput 7 [x76] (Some PTNAsset)] 0.
Definition pay_msg (n : Z) : Message := mkMessage APP_PAYMENT (Some (PayPayment (pay_out n))).
Definition call_msg : Message := mkMessage APP_CONTRACT_INVOKE_REQUEST (Some (PayInvokeRequest (mkInvokeReq [x01] [] 0))).
Definition signed_by (keys : list bytes) : Message := mkMessage APP_SIGNATURE (Some (PaySignature (mkSignature (map (fun k => mkSignatureSet k k) keys)))).
Definition jury_tx : Transaction := NewTransaction [call_msg; pay_msg 1; signed_by ms_keys].

Lemma jury_payout_accepted_witness :
  exists tx' m pay', processContractPayout (H := jury_env) (fun h => Ok h) (Some jury_of_two) jury_tx = (tx', Ok tt) /\
    index (Messages tx') m = Some (mkMessage APP_PAYMENT (Some (PayPayment pay'))) /\
    forall lock, payToContractHash (replicate 20 x11) = Ok lock ->
      exists vm v, NewEngine lock tx' m 0 StandardVerifyExcludeSignFlags None = Ok vm /\
        Execute (H := jury_env) vm = (v, Some (Ok tt)).
Proof.
  destruct (GetResultRawTx (E := tx_error) jury_tx) as [raw| |] eqn:Raw; [|discriminate Raw..].
  assert (Er : encodable_tx (L := digit_lib) (txdata raw)).
  { injection Raw as <-. apply digit_encodable. repeat constructor; eexists; split_and!; try reflexivity; repeat constructor; discriminate. }
  destruct (rlp_roundtrip_data (L := digit_lib) _ Er) as (data & Ed & _).
  destruct (jury_payout_accepted (H := jury_env) digit_laws (fun h => Ok h) jury_of_two ms_keys ms_keys ms_keys jury_tx raw 1
    (pay_msg 1) (pay_out 1) data) as (redeem & tx' & m & unlock & Gr & Run & I & _ & Acc).
  - exact digit_script_blind.
  - intros a. discriminate.
  - intros a. discriminate.
  - repeat constructor.
  - vm_compute. split; congruence.
  - constructor; [|constructor; [apply not_elem_of_nil|constructor]]. intros E; apply list_elem_of_singleton in E; discriminate E.
  - repeat constructor.
  - repeat constructor; eexists; split_and!; try reflexivity; repeat constructor; discriminate.
  - apply digit_encodable. repeat constructor; eexists; split_and!; try reflexivity; repeat constructor; discriminate.
  - apply digit_encodable. repeat constructor; eexists; split_and!; try reflexivity; repeat constructor; discriminate.
  - exists [], call_msg, [pay_msg 1; signed_by ms_keys]. repeat constructor.
  - reflexivity.
  - reflexivity.
  - exact Raw.
  - exact Er.
  - exact Ed.
  - reflexivity.
  - intros i key sign I1 I2 _. rewrite I1 in I2. injection I2 as <-. apply list_elem_of_lookup_2 in I1. unfold ms_keys in I1.
    apply elem_of_cons in I1 as [-> |I1]; [|apply list_elem_of_singleton in I1 as ->]; (split; [vm_compute; split; congruence|reflexivity]).
  - vm_compute. congruence.
  - exists tx', m, (with_unlock unlock (pay_out 1)). split; [exact Run|]. split; [exact I|]. intros lock Lk.
    apply (Acc (replicate 20 x11) lock 0 None eq_refl); [|exact Lk|vm_compute; split; congruence].
    assert (redeem = jury_redeem) as ->; [|reflexivity].
    assert (G : generateJuryRedeemScript (fun h => Ok h) jury_of_two = Ok jury_redeem) by (vm_compute; reflexivity).
    rewrite G in Gr. injection Gr as Gr. symmetry. exact Gr.
Defined.

(** A redeem script that is too long for a push is left out of the unlock script. *)
Lemma dropped_redeem signs redeem : 1 <= len signs <= 16 -> Forall (fun s => 1 <= len s <= 74) signs -> MaxScriptElementSize < len redeem ->
  exists pre s, signs = pre ++ [s] /\ let items := [] :: map (fun s => s ++ [x04]) pre in
    MergeContractUnlockScript signs redeem = concat (map encoding (map canonical_pop (items ++ [s ++ [x04]]))) /\
    len (MergeContractUnlockScript signs redeem) <= maxScriptSize /\ Forall pushable (items ++ [s ++ [x04]]).
Proof.
  intros Ls Fs Lr. destruct signs as [|s0 signs0] using rev_ind; [rewrite len_nil in Ls; lia|]. exists signs0, s0. split; [done|]. cbv zeta.
  set (signs := signs0 ++ [s0]) in *.
  assert (B1 := building_AddOp _ _ OP_0 building_new eq_refl ltac:(done)).
  destruct (building_signs signs _ _ B1 Fs) as [B2 L2]; [change (len (script (AddOp OP_0 NewScriptBuilder))) with 1; lia|].
  change (len (script (AddOp OP_0 NewScriptBuilder))) with 1 in L2. cbv zeta in L2.
  assert (Drop : MergeContractUnlockScript signs redeem = script (fold_left (fun b sign => AddData (sign ++ [x04]) b) signs (AddOp OP_0 NewScriptBuilder))).
  { unfold MergeContractUnlockScript. destruct B2 as (Er & _ & _). unfold AddData at 1. rewrite Er.
    destruct (maxScriptSize <? _); [done|]. by rewrite (proj2 (Z.ltb_lt _ _) Lr). }
  rewrite Drop. destruct B2 as (_ & _ & Sc). split_and!.
  - rewrite Sc. do 2 f_equal. unfold signs. rewrite !map_app. cbn [app map]. f_equal. rewrite map_map.
    assert (Eq : forall s, s ∈ signs -> push (s ++ [x04]) = canonical_pop (s ++ [x04])).
    { intros s I. rewrite Forall_forall in Fs. specialize (Fs s I). simpl in Fs. symmetry. apply canonical_pop_push. rewrite len_app, len_cons, len_nil. lia. }
    rewrite Eq by (apply elem_of_app; right; constructor). f_equal. apply map_ext_in. intros s I. apply Eq, elem_of_app. left. by apply list_elem_of_In.
  - unfold maxScriptSize. lia.
  - pose proof (tagged_pushable signs Fs) as P. unfold signs in P. rewrite map_app in P. cbn [map] in P.
    change (([] :: ?l) ++ ?x) with ([] :: l ++ x). constructor; [by split; [by vm_compute|]|exact P].
Qed.

(** C30: Sixteen jurors are too many: their redeem script is longer than the builder allows a push to be,
    MergeContractUnlockScript drops it with the error, and the engine takes the last signature for the
    redeem script.  No signatures spend the output, although the number of jurors, a parameter of the
    chain, has no upper bound. *)
Theorem jury_of_sixteen_locked `{ScriptEnv} (keys signs : list bytes) (needed : byte) (redeem h lock : bytes) (t : Transaction)
    (m i : Z) (mg : Message) (p : PaymentPayload) (input : Input) (c : option SigCache) :
  len keys = 16 -> Forall (fun key => len key = 33) keys -> 1 <= b2z needed <= 16 -> redeem = (GenerateRedeemScript needed keys).1 ->
  1 <= len signs <= 16 -> Forall (fun s => 1 <= len s <= 74) signs ->
  len h = 20 -> payToContractHash h = Ok lock -> IsSystemContractAddress (NewAddress h ContractHash) = false ->
  pickupJuryRedeemScript (NewAddress h ContractHash) = Ok redeem ->
  index (Messages t) m = Some mg -> Payload mg = Some (PayPayment p) -> index (Inputs p) i = Some input ->
  SignatureScript input = MergeContractUnlockScript signs redeem ->
  exists vm v, NewEngine lock t m i StandardVerifyExcludeSignFlags c = Ok vm /\ Execute vm = (v, Some (Err ErrStackScriptFailed)).
Proof.
  intros Lk Fk N -> Ls Fs Hh Lock Sys Pick Im Pm Ii Ss.
  destruct (GenerateRedeemScript_pops needed keys ltac:(lia) N) as [Gr _].
  { eapply Forall_impl; [exact Fk|]. intros k L. cbv beta in L. unfold is_pubkey_len. by rewrite L. }
  rewrite Gr in *. cbn [fst] in *. set (redeem := concat _) in *.
  assert (Lr : len redeem = 547).
  { unfold redeem. assert (Lsk : len (sort_keys keys) = 16) by (unfold len in *; by rewrite sort_keys_perm).
    rewrite redeem_size; [rewrite Lsk; done|done|lia|by rewrite sort_keys_perm]. }
  destruct (dropped_redeem signs redeem Ls Fs ltac:(rewrite Lr; reflexivity)) as (pre & s & Es & Enc & Size & Fp).
  rewrite <- Ss in Size. rewrite Enc in Ss.
  destruct (p2ch_spend t m i mg p input ([] :: map (fun s => s ++ [x04]) pre) (s ++ [x04]) h lock c Hh Fp) as (vm & Ne & Ex); [|done..|].
  { rewrite Es, len_app, len_cons, len_nil in Ls. cbn [app]. rewrite len_cons, len_app, len_cons, len_nil.
    unfold len at 1. rewrite length_map. unfold len, maxStackSize in *. lia. }
  exists vm. eexists. split; [exact Ne|]. apply Ex. unfold jury_accepts. rewrite Sys, Pick. cbn [rbind].
  replace (bytes_equal redeem (s ++ [x04])) with false; [by split|]. symmetry. unfold bytes_equal. apply bool_decide_eq_false_2.
  intros E. apply (f_equal len) in E. rewrite Lr, len_app, len_cons, len_nil in E.
  rewrite Es in Fs. apply Forall_app in Fs as [_ Fs]. apply Forall_cons in Fs as [Fs _]. lia.
Qed.

Definition sixteen_redeem : bytes := (GenerateRedeemScript x0b (replicate 16 (replicate 33 x0a))).1.
Definition sixteen_unlock : bytes := MergeContractUnlockScript (replicate 11 (replicate 33 x0a)) sixteen_redeem.

Lemma jury_of_sixteen_locked_witness :
  exists lock vm v, payToContractHash (replicate 20 x11) = Ok lock /\
    NewEngine lock (spend_with sixteen_unlock) 0 0 StandardVerifyExcludeSignFlags None = Ok vm /\
    Execute (H := env_of sixteen_redeem) vm = (v, Some (Err ErrStackScriptFailed)).
Proof.
  destruct (payToContractHash (replicate 20 x11)) as [lock| |] eqn:L; [|vm_compute in L; discriminate L..].
  destruct (jury_of_sixteen_locked (H := env_of sixteen_redeem) (replicate 16 (replicate 33 x0a)) (replicate 11 (replicate 33 x0a)) x0b sixteen_redeem
    (replicate 20 x11) lock (spend_with sixteen_unlock) 0 0 (spend_message sixteen_unlock) (spend_payment sixteen_unlock) (spend_input sixteen_unlock) None)
    as (vm & v & N & E).
  - reflexivity.
  - by apply Forall_replicate.
  - vm_compute. split; congruence.
  - reflexivity.
  - vm_compute. split; congruence.
  - apply Forall_replicate. vm_compute. split; congruence.
  - reflexivity.
  - exact L.
  - vm_compute. reflexivity.
  - reflexivity.
  - reflexivity.
  - reflexivity.
  - reflexivity.
  - reflexivity.
  - exists lock, vm, v. split; [reflexivity|]. by split.
Defined.

(** ** Comparing messages *)

(** The same kind of message; the same message unless it is a payment. *)
Definition same_but_payments (m m' : Message) : Prop := App m = App m' /\ (App m = APP_PAYMENT \/ m = m').

Section Compare.
Context {L : RlpLib} (keccak : bytes -> Hash).

Lemma compare_all_payments recv recv' : Forall2 same_but_payments recv recv' ->
  forall msgs last, compare_all msgs recv last = compare_all msgs recv' last.
Proof.
  induction 1 as [|m m' recv recv' [A S] _ IH]; intros msgs last; [done|]. destruct msgs as [|x msgs]; [done|]. cbn [compare_all].
  destruct S as [P|<-].
  - rewrite <- A, P. change (APP_PAYMENT =? APP_SIGNATURE) with false. cbv iota.
    assert (C : CompareMessages (E := jury_error) x m = CompareMessages x m').
    { unfold CompareMessages. rewrite <- A, P. destruct (Z.eqb_spec (App x) APP_PAYMENT) as [Q|]; [|done]. rewrite Q. done. }
    rewrite C. destruct (CompareMessages x m') as [[]| |]; cbn [rbind negb]; [apply IH|done|done|done].
  - destruct (App m =? APP_SIGNATURE); [apply IH|]. destruct (CompareMessages x m) as [[]| |]; cbn [rbind negb]; [apply IH|done|done|done].
Qed.

(** Before it adds the signature of another juror to its own result, a juror compares the two
    transactions, but not their payments: whatever the other transaction pays, and to whom, the outcome
    is the same. *)
Theorem payments_not_compared (tx recv recv' : Transaction) :
  Forall complete (Messages recv) -> Forall complete (Messages recv') ->
  Forall2 same_but_payments (Messages recv) (Messages recv') ->
  checkAndAddTxSigMsgData keccak (Some recv) tx = checkAndAddTxSigMsgData keccak (Some recv') tx.
Proof.
  intros C C' S. unfold checkAndAddTxSigMsgData, bind, gets, lift. rewrite (TxMessages_id _ C), (TxMessages_id _ C').
  destruct (TxMessages tx) as [msgs| |]; [|done|done].
  assert (Le : len (Messages recv) = len (Messages recv')) by (unfold len; f_equal; by eapply Forall2_length).
  rewrite Le, (compare_all_payments _ _ S). done.
Qed.
End Compare.

Definition robbed_msg : Message := mkMessage APP_PAYMENT (Some (PayPayment (mkPayment [] [mkOutput 1000000 [x66] (Some PTNAsset)] 0))).

(** The signature of the second juror is added although it signed another payment. *)
Lemma payments_not_compared_witness :
  exists tx', checkAndAddTxSigMsgData (L := digit_lib) (fun b => take 32 b) (Some (NewTransaction [call_msg; robbed_msg; signed_by (drop 1 ms_keys)]))
    (NewTransaction [call_msg; pay_msg 1; signed_by (take 1 ms_keys)]) = (tx', Ok true) /\ signature_msg tx' = Some (signed_by ms_keys).
Proof.
  rewrite (payments_not_compared (L := digit_lib) (fun b => take 32 b) _ _ (NewTransaction [call_msg; pay_msg 1; signed_by (drop 1 ms_keys)])).
  - eexists. split; [vm_compute; reflexivity|reflexivity].
  - repeat constructor; eexists; split_and!; try reflexivity; repeat constructor; discriminate.
  - repeat constructor; eexists; split_and!; try reflexivity; repeat constructor; discriminate.
  - repeat constructor; by right.
Defined.

(** ** Smaller failures *)

(** Of two payouts, one for each asset, the second one keeps its empty unlock script and the signatures
    that could unlock it are removed. *)
Definition two_payouts : Transaction := NewTransaction [call_msg; pay_msg 1; pay_msg 2; signed_by ms_keys].
Example second_payout_locked : exists tx', processContractPayout (H := jury_env) (fun h => Ok h) (Some jury_of_two) two_payouts = (tx', Ok tt) /\
  index (Messages tx') 2 = Some (pay_msg 2) /\ signature_msg tx' = None.
Proof. eexists. split; [vm_compute; reflexivity|]. split; reflexivity. Qed.

(** The greatest signature stays: the index moves on while the value it is compared with does not. *)
Example DeleOneMax_keeps_greatest : DeleOneMax (E := jury_error) [[x02]; [x05]; [x03]] = Ok [[x02]; [x05]].
Proof. reflexivity. Qed.

(** One juror too few is a difference of nearly 2^64. *)
Example jury_count_wraps : checkJuryCountValid 999 1000 = false /\ checkJuryCountValid 1001 1000 = true.
Proof. split; vm_compute; reflexivity. Qed.

End JuryProps.
