(* ===== verification/TempDb.v ===== *)
(** * Temporary databases

    The interface Database of src/common/ptndb/interface.go, with what its users rely on as laws;
    the database in memory of src/common/ptndb/memory_database.go and the temporary database of
    src/dag/memunit/tempdb.go, which keeps what is written to it apart from the database below.
    Keys are byte lists (Go converts them to strings for its maps).  Values are copied by the
    database in memory and by batches; Put of the temporary database keeps the caller's slice, which
    no caller writes to afterwards.  The locks, which every method holds throughout, and the method
    Close, which does nothing, are left out. *)

From S2P Require Import Prelude StateDb.
From Stdlib Require Import ZArith Lia ZifyBool.
Import State.
Local Open Scope Z_scope.

Module Temp.

Inductive db_error := NotFound.

(** ** The interface *)

(** A write of a batch: [None] deletes. *)
Record kv := mkKv { k_key : bytes; k_value : option bytes }.

Class Database (D : Type) := {
  Get : D -> bytes -> result db_error bytes;
  Has : D -> bytes -> result db_error bool;
  Put : bytes -> bytes -> D -> D;
  Delete : bytes -> D -> D;
  Write : list kv -> D -> D;                              (* a batch, in order *)
  NewIteratorWithPrefix : D -> bytes -> list (bytes * bytes);  (* what the iterator has before it *)
  view : D -> Db                                          (* the contents *)
}.

Definition write_kv (w : kv) (m : Db) : Db := match k_value w with Some v => <[k_key w := v]> m | None => delete (k_key w) m end.
Definition write_all (ws : list kv) (m : Db) : Db := fold_left (fun m w => write_kv w m) ws m.

Class DatabaseLaws (D : Type) `{Database D} : Prop := {
  Get_view : forall d k, Get d k = match view d !! k with Some v => Ok v | None => Err NotFound end;
  Has_view : forall d k, Has d k = Ok (bool_decide (is_Some (view d !! k)));
  Put_view : forall k v d, view (Put k v d) = <[k := v]> (view d);
  Delete_view : forall k d, view (Delete k d) = delete k (view d);
  Write_view : forall ws d, view (Write ws d) = write_all ws (view d);
  Iterator_view : forall d prefix, NewIteratorWithPrefix d prefix ≡ₚ map_to_list (getprefix prefix (view d)) }.

(** ** The database in memory *)

Section Memory.
Context `{!GoRange bytes bytes}.

Record MemDatabase := mkMem { mem_db : Db }.
Definition mem_Get (d : MemDatabase) (key : bytes) : result db_error bytes :=
  match mem_db d !! key with Some entry => Ok entry | None => Err NotFound end.
Definition mem_Has (d : MemDatabase) (key : bytes) : result db_error bool := Ok (bool_decide (is_Some (mem_db d !! key))).
Definition mem_Put (key value : bytes) (d : MemDatabase) : MemDatabase := mkMem (<[key := value]> (mem_db d)).
Definition mem_Delete (key : bytes) (d : MemDatabase) : MemDatabase := mkMem (delete key (mem_db d)).
Definition mem_Write (writes : list kv) (d : MemDatabase) : MemDatabase :=
  fold_left (fun d w => match k_value w with None => mkMem (delete (k_key w) (mem_db d)) | Some v => mkMem (<[k_key w := v]> (mem_db d)) end) writes d.
Definition mem_NewIteratorWithPrefix (d : MemDatabase) (prefix : bytes) : list (bytes * bytes) :=
  List.filter (fun e => is_prefix prefix e.1) (go_range (mem_db d)).
Definition Keys (d : MemDatabase) : list bytes := map fst (go_range (mem_db d)).
Definition mem_Len (d : MemDatabase) : Z := Z.of_nat (size (mem_db d)).

#[export] Instance mem_database : Database MemDatabase := {|
  Get := mem_Get; Has := mem_Has; Put := mem_Put; Delete := mem_Delete; Write := mem_Write;
  NewIteratorWithPrefix := mem_NewIteratorWithPrefix; view := mem_db |}.
End Memory.

(** ** Iterators *)

Record TempdbIterator := mkIterator { it_result : list (bytes * bytes); it_idx : Z }.
Definition Next (i : TempdbIterator) : TempdbIterator * bool :=
  let idx := it_idx i + 1 in (mkIterator (it_result i) idx, idx <? len (it_result i)).
(** The entry under the iterator: nothing at -1, and an index out of range after the end. *)
Definition entry (i : TempdbIterator) : result db_error (option (bytes * bytes)) :=
  if it_idx i =? -1 then Ok None else let? e := rget (index (it_result i) (it_idx i)) in Ok (Some e).
Definition Key (i : TempdbIterator) : result db_error (option bytes) := let? e := entry i in Ok (fst <$> e).
Definition Value (i : TempdbIterator) : result db_error (option bytes) := let? e := entry i in Ok (snd <$> e).
Definition First (i : TempdbIterator) : bool := negb (it_idx i =? -1).
Definition Last (i : TempdbIterator) : bool := negb (it_idx i =? -1).
Definition Prev (i : TempdbIterator) : bool := negb (it_idx i =? -1).
Definition Valid (i : TempdbIterator) : bool := negb (it_idx i =? -1).
Fixpoint seek_loop (n : nat) (j : Z) (key : bytes) (l : list (bytes * bytes)) : result db_error bool :=
  match n with
  | O => Ok false
  | S n => let? e := rget (index l j) in if bytes_equal key e.1 then Ok true else seek_loop n (j + 1) key l
  end.
(** [for j := 0; j <= i.idx; j++]: only what the iterator has passed; it does not move. *)
Definition Seek (key : bytes) (i : TempdbIterator) : result db_error bool :=
  if it_idx i =? -1 then Ok false else seek_loop (Z.to_nat (it_idx i + 1)) 0 key (it_result i).

(** [for iter.Next() { key := iter.Key(); value := iter.Value(); ... }] *)
Fixpoint drain (fuel : nat) (i : TempdbIterator) : result db_error (list (bytes * bytes)) :=
  match fuel with
  | O => Ok []
  | S fuel =>
      let '(i, more) := Next i in
      if more then
        let? k := Key i in let? v := Value i in
        match k, v with
        | Some k, Some v => let? rest := drain fuel i in Ok ((k, v) :: rest)
        | _, _ => Panic
        end
      else Ok []
  end.
Definition all_entries (l : list (bytes * bytes)) : result db_error (list (bytes * bytes)) := drain (S (length l)) (mkIterator l (-1)).

(** ** The temporary database *)

Record Overlay := mkOverlay { t_kv : Db; t_deleted : gset bytes }.
(** The database below is shared and never written. *)
Record Tempdb (D : Type) := mkTemp { t_over : Overlay; t_db : D }.
Arguments mkTemp {D}. Arguments t_over {D}. Arguments t_db {D}.

Definition no_writes : Overlay := mkOverlay ∅ ∅.
Definition overlay_Put (key value : bytes) (o : Overlay) : Overlay := mkOverlay (<[key := value]> (t_kv o)) (t_deleted o ∖ {[key]}).
Definition overlay_Delete (key : bytes) (o : Overlay) : Overlay := mkOverlay (delete key (t_kv o)) ({[key]} ∪ t_deleted o).
(** The loop of [tempBatch.Write]. *)
Definition overlay_Write (writes : list kv) (o : Overlay) : Overlay :=
  fold_left (fun o w => match k_value w with None => overlay_Delete (k_key w) o | Some v => overlay_Put (k_key w) v o end) writes o.

Section Tempdb.
Context {D : Type} `{Database D} `{!GoRange bytes bytes} `{!GoKeys bytes}.

Definition NewTempdb (db : D) : Tempdb D := mkTemp no_writes db.
Definition Clear (t : Tempdb D) : Tempdb D := mkTemp no_writes (t_db t).
Definition temp_Put (key value : bytes) (t : Tempdb D) : Tempdb D := mkTemp (overlay_Put key value (t_over t)) (t_db t).
Definition temp_Delete (key : bytes) (t : Tempdb D) : Tempdb D := mkTemp (overlay_Delete key (t_over t)) (t_db t).
Definition temp_Write (writes : list kv) (t : Tempdb D) : Tempdb D := mkTemp (overlay_Write writes (t_over t)) (t_db t).
Definition temp_Has (t : Tempdb D) (key : bytes) : result db_error bool :=
  if bool_decide (key ∈ t_deleted (t_over t)) then Ok false
  else match t_kv (t_over t) !! key with Some _ => Ok true | None => Has (t_db t) key end.
Definition temp_Get (t : Tempdb D) (key : bytes) : result db_error bytes :=
  if bool_decide (key ∈ t_deleted (t_over t)) then Err NotFound
  else match t_kv (t_over t) !! key with Some entry => Ok entry | None => Get (t_db t) key end.
(** [getprefix]: the rows below, as a map. *)
Definition rows_below (db : D) (prefix : bytes) : Db := fold_left (fun m e => <[e.1 := e.2]> m) (NewIteratorWithPrefix db prefix) ∅.
Definition temp_NewIteratorWithPrefix (t : Tempdb D) (prefix : bytes) : list (bytes * bytes) :=
  let result_ := rows_below (t_db t) prefix in
  let result_ := fold_left (fun m e => if is_prefix prefix (fst e) then <[e.1 := e.2]> m else m) (go_range (t_kv (t_over t))) result_ in
  let result_ := fold_left (fun m key => if is_prefix prefix key then delete key m else m) (go_keys (t_deleted (t_over t))) result_ in
  go_range result_.
Definition temp_Len (t : Tempdb D) : Z := Z.of_nat (size (t_kv (t_over t))).

(** The contents: what was written over what is below, without what was deleted. *)
Definition seen (o : Overlay) (m : Db) : Db := filter (fun e => e.1 ∉ t_deleted o) (t_kv o ∪ m).

#[export] Instance temp_database : Database (Tempdb D) := {|
  Get := temp_Get; Has := temp_Has; Put := temp_Put; Delete := temp_Delete; Write := temp_Write;
  NewIteratorWithPrefix := temp_NewIteratorWithPrefix; view := fun t => seen (t_over t) (view (t_db t)) |}.

(** NewIterator does not look at the writes. *)
Definition NewIterator (below : D -> list (bytes * bytes)) (t : Tempdb D) : list (bytes * bytes) := below (t_db t).
End Tempdb.

(** A batch collects copies of keys and values. *)
Record tempBatch := mkBatch { writes : list kv; bt_size : Z }.
Definition NewBatch : tempBatch := mkBatch [] 0.
Definition batch_Put (key value : bytes) (b : tempBatch) : tempBatch := mkBatch (writes b ++ [mkKv key (Some value)]) (bt_size b + len value).
Definition batch_Delete (key : bytes) (b : tempBatch) : tempBatch := mkBatch (writes b ++ [mkKv key None]) (bt_size b + 1).
Definition ValueSize (b : tempBatch) : Z := bt_size b.
Definition batch_Reset (b : tempBatch) : tempBatch := mkBatch [] 0.

(** ** The database in memory keeps the laws *)

Lemma go_range_filter `{!GoRange bytes bytes} (m : Db) prefix :
  List.filter (fun e => is_prefix prefix e.1) (go_range m) ≡ₚ map_to_list (getprefix prefix m).
Proof.
  apply NoDup_Permutation.
  - apply NoDup_ListNoDup, List.NoDup_filter, NoDup_ListNoDup. rewrite go_range_perm. apply NoDup_map_to_list.
  - apply NoDup_map_to_list.
  - intros [k v]. rewrite list_elem_of_In, List.filter_In, <- list_elem_of_In, (elem_of_Permutation_proper _ _ _ (go_range_perm m)), !elem_of_map_to_list.
    unfold getprefix. rewrite map_lookup_filter_Some. done.
Qed.

#[export] Instance mem_laws `{!GoRange bytes bytes} : DatabaseLaws MemDatabase.
Proof.
  split; try done.
  - intros ws d. revert d. induction ws as [|w ws IH]; intros d; [done|]. change (view (mem_Write (w :: ws) d) = write_all ws (write_kv w (mem_db d))).
    unfold mem_Write. cbn [fold_left]. change (fold_left _ ws ?d') with (Write ws d'). rewrite IH. f_equal. unfold write_kv. by destruct (k_value w).
  - intros d prefix. apply go_range_filter.
Qed.

Lemma getprefix_lookup (prefix : bytes) (m : Db) (k : bytes) : getprefix prefix m !! k = if is_prefix prefix k then m !! k else None.
Proof.
  unfold getprefix. destruct (is_prefix prefix k) eqn:P.
  - destruct (m !! k) as [v|] eqn:M; [by apply map_lookup_filter_Some|]. apply map_lookup_filter_None_2. by left.
  - apply map_lookup_filter_None_2. right. intros v _. simpl. congruence.
Qed.

(** ** An overlay shows its writes *)

Lemma seen_lookup o m k : seen o m !! k = if bool_decide (k ∈ t_deleted o) then None else match t_kv o !! k with Some v => Some v | None => m !! k end.
Proof.
  unfold seen. case_bool_decide as D.
  - apply map_lookup_filter_None_2. right. intros v _. simpl. tauto.
  - destruct (t_kv o !! k) as [v|] eqn:E.
    + apply map_lookup_filter_Some. split; [by apply lookup_union_Some_l|done].
    + destruct (m !! k) as [v|] eqn:M.
      * apply map_lookup_filter_Some. split; [by rewrite lookup_union_r|done].
      * apply map_lookup_filter_None_2. left. by rewrite lookup_union_r.
Qed.

Lemma seen_no_writes m : seen no_writes m = m.
Proof. apply map_eq. intros k. rewrite seen_lookup. cbn. rewrite lookup_empty. by rewrite bool_decide_eq_false_2. Qed.

Lemma seen_Put k v o m : seen (overlay_Put k v o) m = <[k := v]> (seen o m).
Proof.
  apply map_eq. intros j. rewrite seen_lookup. unfold overlay_Put. cbn [t_kv t_deleted]. destruct (decide (k = j)) as [->|N].
  - rewrite !lookup_insert_eq, bool_decide_eq_false_2 by set_solver. done.
  - rewrite !lookup_insert_ne, seen_lookup by done. rewrite (bool_decide_ext (j ∈ t_deleted o ∖ {[k]}) (j ∈ t_deleted o)) by set_solver. done.
Qed.
Lemma seen_Delete k o m : seen (overlay_Delete k o) m = delete k (seen o m).
Proof.
  apply map_eq. intros j. rewrite seen_lookup. unfold overlay_Delete. cbn [t_kv t_deleted]. destruct (decide (k = j)) as [->|N].
  - rewrite bool_decide_eq_true_2 by set_solver. symmetry. apply lookup_delete_eq.
  - rewrite !lookup_delete_ne, seen_lookup by done. rewrite (bool_decide_ext (j ∈ {[k]} ∪ t_deleted o) (j ∈ t_deleted o)) by set_solver. done.
Qed.
Lemma seen_Write ws : forall o m, seen (overlay_Write ws o) m = write_all ws (seen o m).
Proof.
  induction ws as [|w ws IH]; intros o m; [done|]. unfold overlay_Write, write_all. cbn [fold_left].
  change (fold_left _ ws ?o') with (overlay_Write ws o') at 1. rewrite IH. unfold write_kv. destruct (k_value w); [by rewrite seen_Put|by rewrite seen_Delete].
Qed.

(** ** The temporary database implements the interface *)

Section Laws.
Context {D : Type} `{DatabaseLaws D} `{!GoRange bytes bytes} `{!GoKeys bytes}.

Lemma fold_insert (l : list (bytes * bytes)) : NoDup l.*1 -> forall (m : Db) k,
  fold_left (fun m e => <[e.1 := e.2]> m) l m !! k = match (list_to_map l : Db) !! k with Some v => Some v | None => m !! k end.
Proof.
  induction l as [|[j v] l IH]; intros N m k; [change (list_to_map [] : Db) with (∅ : Db); by rewrite lookup_empty|]. cbn [fmap list_fmap] in N. apply NoDup_cons in N as [Nj N].
  cbn [fold_left list_to_map foldr fst snd]. rewrite IH by done. change (foldr _ ∅ l) with (list_to_map l : Db). destruct (decide (j = k)) as [->|Ne].
  - rewrite lookup_insert_eq, (not_elem_of_list_to_map_1 l k) by done. by rewrite lookup_insert_eq.
  - rewrite !lookup_insert_ne by done. done.
Qed.
Lemma range_insert (m0 m : Db) l : l ≡ₚ map_to_list m0 -> fold_left (fun m e => <[e.1 := e.2]> m) l m = m0 ∪ m.
Proof.
  intros P. assert (N : NoDup l.*1) by (rewrite P; apply NoDup_fst_map_to_list). apply map_eq. intros k. rewrite fold_insert by done.
  assert (E : (list_to_map l : Db) = m0) by (rewrite (list_to_map_proper l (map_to_list m0)); [apply list_to_map_to_list|done|done]).
  rewrite E. destruct (m0 !! k) as [v|] eqn:L; [symmetry; by apply lookup_union_Some_l|by rewrite lookup_union_r].
Qed.
Lemma fold_if {A B} (p : A -> bool) (f : B -> A -> B) l : forall b, fold_left (fun b a => if p a then f b a else b) l b = fold_left f (List.filter p l) b.
Proof. induction l as [|a l IH]; intros b; [done|]. cbn [fold_left List.filter]. destruct (p a); apply IH. Qed.
Lemma fold_delete (l : list bytes) : forall (m : Db) k, fold_left (fun m key => delete key m) l m !! k = if bool_decide (k ∈ l) then None else m !! k.
Proof.
  induction l as [|j l IH]; intros m k; [done|]. cbn [fold_left]. rewrite IH. destruct (decide (j = k)) as [->|Ne].
  - rewrite lookup_delete_eq, (bool_decide_eq_true_2 (k ∈ k :: l)) by constructor. by case_bool_decide.
  - rewrite lookup_delete_ne by done. rewrite (bool_decide_ext (k ∈ j :: l) (k ∈ l)); [done|]. rewrite elem_of_cons. naive_solver.
Qed.

Lemma temp_rows (t : Tempdb D) prefix : temp_NewIteratorWithPrefix t prefix ≡ₚ map_to_list (getprefix prefix (seen (t_over t) (view (t_db t)))).
Proof.
  unfold temp_NewIteratorWithPrefix. rewrite go_range_perm. apply reflexive_eq. f_equal.
  rewrite (fold_if (fun e : bytes * bytes => is_prefix prefix e.1) (fun (m : Db) e => <[e.1 := e.2]> m)).
  rewrite (fold_if (is_prefix prefix) (fun (m : Db) key => delete key m)). unfold rows_below.
  rewrite (range_insert _ _ _ (Iterator_view (t_db t) prefix)), (map_union_empty), (range_insert _ _ _ (go_range_filter (t_kv (t_over t)) prefix)).
  apply map_eq. intros k. rewrite fold_delete.
  assert (I : k ∈ List.filter (is_prefix prefix) (go_keys (t_deleted (t_over t))) <-> is_prefix prefix k = true /\ k ∈ t_deleted (t_over t)).
  { rewrite list_elem_of_In, List.filter_In, <- list_elem_of_In, (elem_of_Permutation_proper _ _ _ (go_keys_perm _)), elem_of_elements. tauto. }
  rewrite (bool_decide_ext _ _ I), lookup_union, !getprefix_lookup, seen_lookup. destruct (is_prefix prefix k).
  - rewrite (bool_decide_ext (true = true /\ k ∈ t_deleted (t_over t)) (k ∈ t_deleted (t_over t))) by tauto. case_bool_decide; [done|].
    by destruct (t_kv _ !! k), (view _ !! k).
  - by rewrite bool_decide_eq_false_2 by (intros [? _]; done).
Qed.

#[export] Instance temp_laws : DatabaseLaws (Tempdb D).
Proof.
  split.
  - intros t k. change (temp_Get t k = match seen (t_over t) (view (t_db t)) !! k with Some v => Ok v | None => Err NotFound end).
    unfold temp_Get. rewrite seen_lookup, Get_view. case_bool_decide; [done|]. by destruct (t_kv _ !! k).
  - intros t k. change (temp_Has t k = Ok (bool_decide (is_Some (seen (t_over t) (view (t_db t)) !! k)))).
    unfold temp_Has. rewrite seen_lookup, Has_view. case_bool_decide; [done|]. by destruct (t_kv _ !! k).
  - intros k v t. apply seen_Put.
  - intros k t. apply seen_Delete.
  - intros ws t. apply seen_Write.
  - intros t prefix. apply temp_rows.
Qed.
End Laws.

(** ** Iterators *)

Lemma index_at {A} (l : list A) n : index l (Z.of_nat n) = l !! n.
Proof. unfold index. replace (Z.of_nat n <? 0) with false by lia. by rewrite Nat2Z.id. Qed.

Lemma drain_from l n : forall fuel, (length l - n < fuel)%nat -> (n <= length l)%nat ->
  drain fuel (mkIterator l (Z.of_nat n - 1)) = Ok (drop n l).
Proof.
  remember (length l - n)%nat as k eqn:K. revert n K. induction k as [|k IH]; intros n K fuel Lf Ln; (destruct fuel as [|fuel]; [lia|]);
    cbn [drain Next it_result it_idx]; replace (Z.of_nat n - 1 + 1) with (Z.of_nat n) by lia.
  - replace (Z.of_nat n <? len l) with false by (unfold len; lia). rewrite drop_ge by lia. done.
  - replace (Z.of_nat n <? len l) with true by (unfold len; lia). destruct (lookup_lt_is_Some_2 l n ltac:(lia)) as [[a b] E].
    unfold Key, Value, entry. cbn [it_result it_idx]. replace (Z.of_nat n =? -1) with false by lia. rewrite index_at, E. cbn [rget rbind fmap option_fmap option_map].
    replace (Z.of_nat n) with (Z.of_nat (S n) - 1) by lia. rewrite IH by lia. cbn [rbind]. by rewrite (drop_S l (a, b) n E).
Qed.
(** The usual loop over an iterator meets every entry once and never panics. *)
Lemma all_entries_ok l : all_entries l = Ok l.
Proof. unfold all_entries. change (-1) with (Z.of_nat 0 - 1). rewrite drain_from by lia. done. Qed.

(** ** What a user of a database sees *)

Inductive db_op := OGet (key : bytes) | OHas (key : bytes) | OPut (key value : bytes) | ODelete (key : bytes) | OWrite (ws : list kv) | ORows (prefix : bytes).
Inductive answer := AValue (r : result db_error bytes) | AHas (r : result db_error bool) | ARows (r : result db_error (list (bytes * bytes))) | ADone.

Section Runs.
Context {D : Type} `{Database D}.
Definition run_op (d : D) (op : db_op) : D * answer :=
  match op with
  | OGet key => (d, AValue (Get d key))
  | OHas key => (d, AHas (Has d key))
  | OPut key value => (Put key value d, ADone)
  | ODelete key => (Delete key d, ADone)
  | OWrite ws => (Write ws d, ADone)
  | ORows prefix => (d, ARows (all_entries (NewIteratorWithPrefix d prefix)))
  end.
Fixpoint run_ops (d : D) (ops : list db_op) : D * list answer :=
  match ops with
  | [] => (d, [])
  | op :: ops => let '(d, a) := run_op d op in let '(d, l) := run_ops d ops in (d, a :: l)
  end.
End Runs.

(** The same answer, the order of rows apart. *)
Definition same_answer (a b : answer) : Prop :=
  match a, b with
  | ARows (Ok l), ARows (Ok k) => l ≡ₚ k
  | _, _ => a = b
  end.

(** Two databases with the same contents give the same answers. *)
Lemma run_op_same {D1 D2 : Type} `{DatabaseLaws D1} `{DatabaseLaws D2} (d1 : D1) (d2 : D2) op : view d1 = view d2 ->
  same_answer (run_op d1 op).2 (run_op d2 op).2 /\ view (run_op d1 op).1 = view (run_op d2 op).1.
Proof.
  intros V. destruct op; cbn [run_op fst snd same_answer]; rewrite ?Get_view, ?Has_view, ?Put_view, ?Delete_view, ?Write_view, ?V; try done.
  split; [|done]. rewrite !all_entries_ok. cbn [same_answer]. by rewrite !Iterator_view, V.
Qed.
Lemma run_ops_same {D1 D2 : Type} `{DatabaseLaws D1} `{DatabaseLaws D2} ops : forall (d1 : D1) (d2 : D2), view d1 = view d2 ->
  Forall2 same_answer (run_ops d1 ops).2 (run_ops d2 ops).2 /\ view (run_ops d1 ops).1 = view (run_ops d2 ops).1.
Proof.
  induction ops as [|op ops IH]; intros d1 d2 V; [split; [constructor|done]|]. cbn [run_ops].
  destruct (run_op_same d1 d2 op V) as [A V']. destruct (run_op d1 op) as [d1' a1], (run_op d2 op) as [d2' a2]. cbn [fst snd] in *.
  destruct (IH d1' d2' V') as [As Vs]. destruct (run_ops d1' ops), (run_ops d2' ops). split; [by constructor|done].
Qed.

(** The database below is not written. *)
Lemma run_ops_below {D : Type} `{Database D} `{!GoRange bytes bytes} `{!GoKeys bytes} ops : forall t : Tempdb D, t_db (run_ops t ops).1 = t_db t.
Proof.
  induction ops as [|op ops IH]; intros t; [done|]. cbn [run_ops]. assert (E : t_db (run_op t op).1 = t_db t) by by destruct op.
  destruct (run_op t op) as [t' a]. cbn [fst] in E. specialize (IH t'). destruct (run_ops t' ops). cbn [fst] in *. by rewrite IH.
Qed.

(** C35: A temporary database is a database in the sense of the class [Database], which leaves out
    the iterator over all keys ([NewIterator] ignores what was written): whatever is read, written,
    deleted and listed by prefix, in batches or not, every answer is the one a map with the contents of the database below would
    give, and the database below stays as it is.  So temporary databases can be stacked. *)
Theorem tempdb_refines {D : Type} `{DatabaseLaws D} `{!GoRange bytes bytes} `{!GoKeys bytes} (db : D) (ops : list db_op) :
  let '(t, answers) := run_ops (NewTempdb db) ops in
  let '(spec, expected) := run_ops (mkMem (view db)) ops in
  Forall2 same_answer answers expected /\ view t = mem_db spec /\ t_db t = db.
Proof.
  assert (V : view (NewTempdb db) = view (mkMem (view db))) by apply seen_no_writes.
  destruct (run_ops_same ops (NewTempdb db) (mkMem (view db)) V) as [A V']. pose proof (run_ops_below ops (NewTempdb db)) as B.
  destruct (run_ops (NewTempdb db) ops), (run_ops (mkMem (view db)) ops). by split.
Qed.

(** ** Saving below what an overlay already holds *)

Definition covered (o : Overlay) (k : bytes) : Prop := is_Some (t_kv o !! k) \/ k ∈ t_deleted o.

Lemma covered_Write ws : forall o k, covered o k \/ k ∈ map k_key ws -> covered (overlay_Write ws o) k.
Proof.
  induction ws as [|w ws IH]; intros o k C; [destruct C as [|I]; [done|by apply elem_of_nil in I]|].
  unfold overlay_Write. cbn [fold_left]. change (fold_left _ ws ?o') with (overlay_Write ws o'). apply IH. cbn [map] in C. rewrite elem_of_cons in C.
  destruct (decide (k = k_key w)) as [->|Ne].
  - left. destruct (k_value w) as [v|]; [left|right]; unfold overlay_Put, overlay_Delete; cbn [t_kv t_deleted]; [by rewrite lookup_insert_eq|set_solver].
  - destruct C as [[C|C]|[C|C]]; [left|left|done|by right]; destruct (k_value w); unfold covered, overlay_Put, overlay_Delete; cbn [t_kv t_deleted].
    + left. by rewrite lookup_insert_ne.
    + left. by rewrite lookup_delete_ne.
    + right. set_solver.
    + right. set_solver.
Qed.

(** Writes below to keys the overlay covers cannot be seen. *)
Lemma seen_covered o m m' : (forall k, ~ covered o k -> m !! k = m' !! k) -> seen o m = seen o m'.
Proof.
  intros E. apply map_eq. intros k. rewrite !seen_lookup. case_bool_decide as D; [done|]. destruct (t_kv o !! k) eqn:K; [done|].
  apply E. intros [[v C]|C]; [congruence|done].
Qed.
Lemma write_all_other ws : forall m k, k ∉ map k_key ws -> write_all ws m !! k = m !! k.
Proof.
  induction ws as [|w ws IH]; intros m k N; [done|]. unfold write_all. cbn [fold_left]. change (fold_left _ ws ?m') with (write_all ws m').
  cbn [map] in N. rewrite not_elem_of_cons in N. destruct N as [N1 N2]. rewrite IH by done. unfold write_kv.
  destruct (k_value w); [by rewrite lookup_insert_ne|by rewrite lookup_delete_ne].
Qed.

Section Stable.
Context {U : Type} (save : Db -> U -> list kv).

(** Saving units one after another, into a database or on an overlay over it. *)
Definition save_all (us : list U) (m : Db) : Db := fold_left (fun m u => write_all (save m u) m) us m.
Definition overlay_save (m : Db) (us : list U) (o : Overlay) : Overlay := fold_left (fun o u => overlay_Write (save (seen o m) u) o) us o.

Lemma seen_save (us : list U) : forall (o : Overlay) (m : Db), seen (overlay_save m us o) m = save_all us (seen o m).
Proof.
  induction us as [|u us IH]; intros o m; [done|].
  change (overlay_save m (u :: us) o) with (overlay_save m us (overlay_Write (save (seen o m) u) o)). rewrite IH. by rewrite seen_Write.
Qed.

(** The keys written by the units are covered afterwards. *)
Lemma save_covers (us : list U) : forall (o : Overlay) (m : Db) (k : bytes), (covered o k -> covered (overlay_save m us o) k) /\
  (save_all us (seen o m) !! k <> seen o m !! k -> covered (overlay_save m us o) k).
Proof.
  induction us as [|u us IH]; intros o m k; [split; [done|by intros N]|].
  change (overlay_save m (u :: us) o) with (overlay_save m us (overlay_Write (save (seen o m) u) o)).
  change (save_all (u :: us) (seen o m)) with (save_all us (write_all (save (seen o m) u) (seen o m))). rewrite <- seen_Write. destruct (IH (overlay_Write (save (seen o m) u) o) m k) as [C1 C2]. split.
  - intros C. apply C1, covered_Write. by left.
  - intros N. destruct (decide (k ∈ map k_key (save (seen o m) u))) as [I|I]; [apply C1, covered_Write; by right|].
    apply C2. rewrite seen_Write, write_all_other by done. by rewrite <- seen_Write.
Qed.

Lemma overlay_save_app (m : Db) (us1 us2 : list U) (o : Overlay) : overlay_save m (us1 ++ us2) o = overlay_save m us2 (overlay_save m us1 o).
Proof. apply fold_left_app. Qed.

(** C36: What a temporary database shows does not change when units it already holds become stable: when
    it was made by saving the units of a branch over the stable database, and the first of them are
    then saved into the stable database itself, in the same order, it still shows the contents
    after the whole branch. *)
Theorem stabilised_view (us1 us2 : list U) (m : Db) :
  let temp := overlay_save m (us1 ++ us2) no_writes in
  seen temp m = save_all (us1 ++ us2) m /\ seen temp (save_all us1 m) = save_all us2 (save_all us1 m).
Proof.
  cbv zeta. pose proof (seen_save (us1 ++ us2) no_writes m) as S. rewrite seen_no_writes in S. split; [done|].
  assert (E2 : save_all (us1 ++ us2) m = save_all us2 (save_all us1 m)) by apply fold_left_app.
  rewrite <- E2, <- S. apply seen_covered. intros k N.
  destruct (decide (save_all us1 m !! k = m !! k)) as [E|E]; [done|]. exfalso. apply N. rewrite overlay_save_app.
  pose proof (save_covers us1 no_writes m k) as [_ C]. rewrite seen_no_writes in C. destruct (save_covers us2 (overlay_save m us1 no_writes) m k) as [C1 _]. exact (C1 (C E)).
Qed.
End Stable.

(** ** Failures *)

(** NewIterator of a temporary database lists what is below only. *)
Example iterator_ignores_writes : NewIterator (fun d : MemDatabase => map_to_list (mem_db d)) (temp_Put [x01] [x02] (NewTempdb (mkMem ∅))) = [].
Proof. reflexivity. Qed.
(** An iterator does not find a key that is still before it, nor before its first step. *)
Example seek_finds_nothing : Seek [x01] (mkIterator [([x01], [x02])] (-1)) = Ok false /\ Seek [x03] (mkIterator [([x01], [x02]); ([x03], [x04])] 0) = Ok false.
Proof. by split. Qed.
(** A further read after the end panics, and so does seeking. *)
Example read_past_end : Key (Next (mkIterator [] (-1))).1 = Panic /\ Seek [x01] (Next (mkIterator [] (-1))).1 = Panic.
Proof. by split. Qed.

(** ** Witnesses *)

Lemma tempdb_refines_witness : let t := (run_ops (NewTempdb (mkMem {[ [x01] := [x02] ]})) [ODelete [x01]; OPut [x03] [x04]; ORows []]).1 in
  view t = mem_db (run_ops (mkMem {[ [x01] := [x02] ]}) [ODelete [x01]; OPut [x03] [x04]; ORows []]).1.
Proof.
  pose proof (tempdb_refines (mkMem {[ [x01] := [x02] ]}) [ODelete [x01]; OPut [x03] [x04]; ORows []]) as W.
  change (view (mkMem {[ [x01] := [x02] ]})) with ({[ [x01] := [x02] ]} : Db) in W.
  destruct (run_ops (NewTempdb _) _), (run_ops (mkMem _) _). apply W.
Defined.

End Temp.
