(* ===== verification/Nth.v ===== *)
(** * Selecting the nth element

    src/common/sort/nth.go: [Element], which the tree of unstable units uses to find the unit that
    enough mediators confirmed.  Indexes are [nat] as in HeapSort.v, whose [Less], [Swap] and
    [shuffled] this file uses; the loops have fuel and panic without it, so that a result of [Ok]
    is also the end of the loop. *)

From S2P Require Import Prelude HeapSort Float64.
From Stdlib Require Import ZArith Lia Bool Floats.SpecFloat.
Import Heap.
Local Open Scope nat_scope.

Module Nth.

Section Select.
Context {A : Type} {E : Type} (less : A -> A -> bool).
Local Abbreviation Less := (Less (E := E) less).
Local Abbreviation Swap := (Swap (A := A) (E := E)).

(** ** Partitions *)

(** The inner loops of [hoarePartition]; the flag is [break Loop]. *)
Fixpoint up_loop (turns a b begin_ : nat) : ST (list A) E (nat * bool) :=
  match turns with
  | O => panic
  | S turns =>
      if b <? a then ret (a, true)
      else let! x := Less a begin_ in if negb x then ret (a, false) else up_loop turns (S a) b begin_
  end.
Fixpoint down_loop (turns b begin_ : nat) : ST (list A) E nat :=
  match turns with
  | O => panic
  | S turns => let! x := Less begin_ b in if x : bool then down_loop turns (b - 1) begin_ else ret b
  end.
Fixpoint hoare_loop (turns a b begin_ : nat) : ST (list A) E nat :=
  match turns with
  | O => panic
  | S turns' =>
      let! (a, out) := up_loop (S (S b - a)) a b begin_ in
      if out : bool then ret a else
      let! b := down_loop (S b) b begin_ in
      if b <=? a then ret a else Swap a b ;;; hoare_loop turns' (a + 1) (b - 1) begin_
  end.
Definition hoarePartition (p begin_ end_ : nat) : ST (list A) E nat :=
  Swap p begin_ ;;;
  let! a := hoare_loop (end_ - begin_) (begin_ + 1) (end_ - 1) begin_ in
  Swap begin_ (a - 1) ;;; ret (a - 1).

(** [for i := i; i < i + n; i++] *)
Fixpoint upto (n i : nat) (body : nat -> ST (list A) E unit) : ST (list A) E unit :=
  match n with O => ret tt | S n => body i ;;; upto n (S i) body end.

Fixpoint simple_loop (turns p i : nat) : ST (list A) E nat :=
  match turns with
  | O => ret p
  | S turns =>
      let! x := Less i p in
      if x : bool then Swap p i ;;; Swap (p + 1) i ;;; simple_loop turns (p + 1) (S i)
      else simple_loop turns p (S i)
  end.
Definition simplePartition (k a b : nat) : ST (list A) E nat := simple_loop (b - (a + 1)) a (a + 1).

(** The two scans of [expandPartition]. *)
Fixpoint left_scan (turns i a p : nat) : ST (list A) E nat :=
  match turns with
  | O => panic
  | S turns => if i <? a then let! x := Less i p in if x : bool then left_scan turns (S i) a p else ret i else ret i
  end.
Fixpoint right_scan (turns j b p : nat) : ST (list A) E nat :=
  match turns with
  | O => panic
  | S turns => if b <? j then let! x := Less j p in if negb x then right_scan turns (j - 1) b p else ret j else ret j
  end.
Fixpoint expand_loop (turns i j a p b : nat) : ST (list A) E (nat * nat) :=
  match turns with
  | O => panic
  | S turns =>
      let! i := left_scan (S (a - i)) i a p in
      let! j := right_scan (S (j - b)) j b p in
      if (i =? a) || (j =? b) then ret (i, j) else Swap i j ;;; expand_loop turns (i + 1) (j - 1) a p b
  end.
Definition expandPartition (a p b begin_ end_ : nat) : ST (list A) E nat :=
  let! (i, j) := expand_loop (S (a - begin_)) begin_ (end_ - 1) a p b in
  if negb (i =? a) then hoarePartition p i a
  else if negb (j =? b) then hoarePartition p b (j + 1)
  else ret p.

(** ** Medians *)

Definition median3 (a b c : nat) : ST (list A) E unit :=
  (let! x := Less b a in if x : bool then Swap b a else ret tt) ;;;
  let! y := Less c b in
  if y : bool then Swap c b ;;; let! z := Less b a in if z : bool then Swap b a else ret tt
  else ret tt.
Definition lowerMedian4 (a b c d : nat) : ST (list A) E unit :=
  median3 a b c ;;;
  let! x := Less d b in
  if x : bool then Swap d b ;;; let! y := Less b a in if y : bool then Swap b a else ret tt
  else ret tt.

(** ** Selection *)

Fixpoint quickSelect (turns : nat) (partition : nat -> nat -> nat -> ST (list A) E nat) (k a b : nat) : ST (list A) E unit :=
  match turns with
  | O => panic
  | S turns =>
      let! p := partition k a b in
      if p =? k then ret tt
      else if k <? p then quickSelect turns partition k a p
      else quickSelect turns partition k (p + 1) b
  end.

(** [depth] bounds the recursion through [quickSelect]. *)
Fixpoint repeatedStepLeft (depth k a b : nat) : ST (list A) E nat :=
  match depth with
  | O => panic
  | S depth =>
      let l := b - a in
      if l <? 12 then hoarePartition (a + l / 2) a b else
      let f := l / 4 in
      upto f a (fun i => lowerMedian4 i (i + f) (i + 2 * f) (i + 3 * f)) ;;;
      let f2 := f / 3 in
      upto f2 (a + f) (fun i => median3 i (i + f2) (i + 2 * f2)) ;;;
      let newA := a + f in
      quickSelect (S f2) (repeatedStepLeft depth) (newA + (k - a) * f2 / l) newA (newA + f2) ;;;
      expandPartition newA (newA + (k - a) * f2 / l) (newA + f2 - 1) a b
  end.
Fixpoint repeatedStepFarLeft (depth k a b : nat) : ST (list A) E nat :=
  match depth with
  | O => panic
  | S depth =>
      let l := b - a in
      if l <? 12 then hoarePartition (a + l / 2) a b else
      let f := l / 4 in
      upto f (a + f) (fun i => lowerMedian4 (i - f) i (i + f) (i + 2 * f)) ;;;
      let f2 := f / 3 in
      upto f2 (a + f) (fun i =>
        (let! x := Less (i + f2) i in if x : bool then Swap (i + f2) i else ret tt) ;;;
        let! y := Less (i + 2 * f2) i in if y : bool then Swap (i + 2 * f2) i else ret tt) ;;;
      let newA := a + f in
      quickSelect (S f2) (repeatedStepFarLeft depth) (newA + (k - a) * f2 / l) newA (newA + f2) ;;;
      expandPartition newA (newA + (k - a) * f2 / l) (newA + f2 - 1) a b
  end.
Definition repeatedStepFarRight := simplePartition.
Definition repeatedStepRight := simplePartition.
Definition repeatedStepImproved := simplePartition.

(** The step for a rank [k] among [l] elements; [7/16], [1/12] and so on are the nearest float64. *)
Definition fl (n d : Z) : float64 := fdiv (of_int n) (of_int d).
Definition adaptive_step (k a b : nat) : ST (list A) E nat :=
  let l := b - a in
  let r := fdiv (of_int (Z.of_nat k)) (of_int (Z.of_nat l)) in
  if l <? 12 then hoarePartition (a + l / 2) a b
  else if SFltb r (fl 7 16) then
    if SFltb r (fl 1 12) then repeatedStepFarLeft (S l) k a b else repeatedStepLeft (S l) k a b
  else if SFleb (fl 9 16) r then
    if SFleb (fl 11 12) r then repeatedStepFarRight k a b else repeatedStepRight k a b
  else repeatedStepImproved k a b.
Definition quickSelectAdaptive (k a b : nat) : ST (list A) E unit := quickSelect (S (b - a)) adaptive_step k a b.

Definition Element (n : Z) : ST (list A) E unit :=
  let! l := Len in
  if ((n <? 0) || (Z.of_nat l <=? n))%Z then ret tt else quickSelectAdaptive (Z.to_nat n) 0 l.

End Select.

(** ** Every step rearranges its range *)

Section Correct.
Context {A : Type} {E : Type} `{Inhabited A} (less : A -> A -> bool) `{!LessOrder less}.
Local Abbreviation le := (le_of less).
Implicit Types (l : list A) (a b i j k p lo hi : nat).

Definition rearranges {T} lo hi (P : T -> Prop) (m : ST (list A) E T) : Prop :=
  forall l, hi <= length l -> exists l' v, m l = (l', Ok v) /\ shuffled lo hi l l' /\ P v.

Lemma rearranges_ret {T} lo hi (P : T -> Prop) v : P v -> rearranges lo hi P (ret v).
Proof. intros Pv l _. exists l, v. by eauto using shuffled_refl. Qed.
Lemma rearranges_bind {T U} lo hi (P : T -> Prop) (Q : U -> Prop) m (f : T -> ST (list A) E U) :
  rearranges lo hi P m -> (forall v, P v -> rearranges lo hi Q (f v)) -> rearranges lo hi Q (bind m f).
Proof.
  intros M F l L. destruct (M l L) as (l1 & v & E1 & S1 & Pv). assert (L1 : hi <= length l1) by by rewrite (shuffled_length _ _ _ _ S1).
  destruct (F v Pv l1 L1) as (l2 & u & E2 & S2 & Qu). exists l2, u. split; [by rewrite (bind_ok _ _ _ _ _ E1)|]. eauto using shuffled_trans.
Qed.
Lemma rearranges_wider {T} a b lo hi (P Q : T -> Prop) m : lo <= a -> b <= hi -> (forall v, P v -> Q v) -> rearranges a b P m -> rearranges lo hi Q m.
Proof.
  intros La Lb I M l L. destruct (M l) as (l1 & v & E1 & S1 & Pv); [lia|]. exists l1, v. split; [done|]. split; [|auto].
  by eapply shuffled_wider.
Qed.
Lemma rearranges_Less lo hi i j : i < hi -> j < hi -> rearranges lo hi (fun _ => True) (Less less i j).
Proof. intros Hi Hj l L. exists l, (less (l !!! i) (l !!! j)). rewrite Less_ok by lia. eauto using shuffled_refl. Qed.
Lemma rearranges_Swap lo hi i j : lo <= i < hi -> lo <= j < hi -> rearranges lo hi (fun _ => True) (Swap i j).
Proof. intros Hi Hj l L. exists (swap l i j), tt. rewrite Swap_ok by lia. split; [done|]. split; [by apply swap_shuffled|done]. Qed.

Lemma rearranges_upto n : forall i lo hi body, (forall j, i <= j < i + n -> rearranges lo hi (fun _ => True) (body j)) ->
  rearranges lo hi (fun _ => True) (upto n i body).
Proof.
  induction n as [|n IH]; intros i lo hi body B; [by apply rearranges_ret|]. cbn [upto].
  eapply rearranges_bind; [apply B; lia|]. intros _ _. apply IH. intros j Hj. apply B. lia.
Qed.

(** A compare and a conditional swap. *)
Lemma rearranges_order lo hi i j (m : ST (list A) E unit) : lo <= i < hi -> lo <= j < hi -> rearranges lo hi (fun _ => True) m ->
  rearranges lo hi (fun _ => True) (let! x := Less less i j in if x : bool then Swap i j ;;; m else ret tt).
Proof.
  intros Hi Hj M. eapply rearranges_bind; [apply rearranges_Less; lia|]. intros x _. destruct x; [|by apply rearranges_ret].
  eapply rearranges_bind; [by apply rearranges_Swap|]. by intros _ _.
Qed.
Lemma rearranges_order1 lo hi i j : lo <= i < hi -> lo <= j < hi ->
  rearranges lo hi (fun _ => True) (let! x := Less less i j in if x : bool then Swap i j else ret tt).
Proof.
  intros Hi Hj. eapply rearranges_bind; [apply rearranges_Less; lia|]. intros x _. destruct x; [by apply rearranges_Swap|by apply rearranges_ret].
Qed.
Lemma rearranges_median3 lo hi a b c : lo <= a < hi -> lo <= b < hi -> lo <= c < hi -> rearranges lo hi (fun _ => True) (median3 less a b c).
Proof.
  intros Ha Hb Hc. eapply rearranges_bind; [by apply rearranges_order1|]. intros _ _. apply rearranges_order; [done|done|]. by apply rearranges_order1.
Qed.
Lemma rearranges_lowerMedian4 lo hi a b c d : lo <= a < hi -> lo <= b < hi -> lo <= c < hi -> lo <= d < hi ->
  rearranges lo hi (fun _ => True) (lowerMedian4 less a b c d).
Proof.
  intros Ha Hb Hc Hd. eapply rearranges_bind; [by apply rearranges_median3|]. intros _ _. apply rearranges_order; [done|done|]. by apply rearranges_order1.
Qed.

(** ** Hoare's partition *)

(** [p] holds an element that those before it do not exceed and those after it do not precede. *)
Definition split_at lo hi p l : Prop := (forall i, lo <= i < p -> le (l !!! i) (l !!! p)) /\ (forall i, p < i < hi -> le (l !!! p) (l !!! i)).

Lemma up_loop_spec turns : forall a b begin_ l, begin_ < length l -> S b <= length l -> a <= S b -> S b - a < turns ->
  exists a' out, up_loop (E := E) less turns a b begin_ l = (l, Ok (a', out)) /\ a <= a' <= S b /\ (forall i, a <= i < a' -> le (l !!! i) (l !!! begin_)) /\
    (if out : bool then a' = S b else a' <= b /\ le (l !!! begin_) (l !!! a')).
Proof.
  induction turns as [|turns IH]; intros a b begin_ l Lb Le La T; [lia|]. cbn [up_loop]. destruct (b <? a) eqn:C; [apply Nat.ltb_lt in C|apply Nat.ltb_ge in C].
  - exists a, true. split; [done|]. split; [lia|]. split; [|lia]. intros i Hi. lia.
  - rewrite (bind_ok _ _ _ _ _ (Less_ok less l a begin_ ltac:(lia) Lb)). destruct (less (l !!! a) (l !!! begin_)) eqn:X; cbn [negb].
    + destruct (IH (S a) b begin_ l) as (a' & out & R & Ra & Rl & Ro); [lia..|]. exists a', out. split; [done|]. split; [lia|]. split; [|done].
      intros i Hi. destruct (decide (i = a)) as [->|]; [by apply less_le|]. apply Rl. lia.
    + exists a, false. split; [done|]. split; [lia|]. split; [intros i Hi; lia|]. split; [lia|done].
Qed.
Lemma down_loop_spec turns : forall b begin_ l, begin_ <= b < length l -> b - begin_ < turns ->
  exists b', down_loop (E := E) less turns b begin_ l = (l, Ok b') /\ begin_ <= b' <= b /\ (forall i, b' < i <= b -> le (l !!! begin_) (l !!! i)) /\ le (l !!! b') (l !!! begin_).
Proof.
  induction turns as [|turns IH]; intros b begin_ l Lb T; [lia|]. cbn [down_loop].
  rewrite (bind_ok _ _ _ _ _ (Less_ok less l begin_ b ltac:(lia) ltac:(lia))). destruct (less (l !!! begin_) (l !!! b)) eqn:X.
  - assert (begin_ <> b) by (intros ->; pose proof (le_refl less (l !!! b)) as R; unfold le_of in R; congruence).
    destruct (IH (b - 1) begin_ l) as (b' & R & Rb & Rl & Rp); [lia..|]. exists b'. split; [done|]. split; [lia|]. split; [|done].
    intros i Hi. destruct (decide (i = b)) as [->|]; [by apply less_le|]. apply Rl. lia.
  - exists b. split; [done|]. split; [lia|]. split; [intros i Hi; lia|done].
Qed.

Lemma hoare_loop_spec turns : forall a b begin_ end_ l, begin_ < a -> a <= S b -> b < end_ -> end_ <= length l -> S b - a < turns ->
  (forall i, begin_ < i < a -> le (l !!! i) (l !!! begin_)) -> (forall i, b < i < end_ -> le (l !!! begin_) (l !!! i)) ->
  exists l' a', hoare_loop (E := E) less turns a b begin_ l = (l', Ok a') /\ shuffled (begin_ + 1) end_ l l' /\ begin_ < a' <= end_ /\
    (forall i, begin_ < i < a' -> le (l' !!! i) (l' !!! begin_)) /\ (forall i, a' <= i < end_ -> le (l' !!! begin_) (l' !!! i)).
Proof.
  induction turns as [|turns IH]; intros a b begin_ end_ l La Lab Lb Le T Low High; [lia|]. cbn [hoare_loop].
  destruct (up_loop_spec (S (S b - a)) a b begin_ l) as (a1 & out & R & Ra & Rl & Ro); [lia..|]. rewrite (bind_ok _ _ _ _ _ R).
  assert (Low1 : forall i, begin_ < i < a1 -> le (l !!! i) (l !!! begin_)) by (intros i Hi; destruct (decide (i < a)); [apply Low|apply Rl]; lia).
  destruct out.
  { exists l, a1. split; [done|]. split; [apply shuffled_refl|]. split; [lia|]. split; [done|]. intros i Hi. apply High. lia. }
  destruct (down_loop_spec (S b) b begin_ l) as (b1 & R2 & Rb & Rh & Rp); [lia..|]. rewrite (bind_ok _ _ _ _ _ R2). destruct Ro as [Ro Rq].
  assert (High1 : forall i, b1 < i < end_ -> le (l !!! begin_) (l !!! i)) by (intros i Hi; destruct (decide (b < i)); [apply High|apply Rh]; lia).
  destruct (b1 <=? a1) eqn:C; [apply Nat.leb_le in C|apply Nat.leb_gt in C].
  { exists l, a1. split; [done|]. split; [apply shuffled_refl|]. split; [lia|]. split; [done|]. intros i Hi.
    destruct (decide (i = a1)) as [->|]; [done|]. apply High1. lia. }
  rewrite (bind_ok _ _ _ _ _ (Swap_ok l a1 b1 ltac:(lia) ltac:(lia))).
  destruct (IH (a1 + 1) (b1 - 1) begin_ end_ (swap l a1 b1)) as (l' & a' & R3 & S3 & Ra3 & Rl3 & Rh3); [lia..| |lia| | |].
  - unfold swap. by rewrite !length_insert.
  - intros i Hi. rewrite !swap_at by lia. repeat case_decide; try lia; [done|]. apply Low1. lia.
  - intros i Hi. rewrite !swap_at by lia. repeat case_decide; try lia; [done|]. apply High1. lia.
  - exists l', a'. split; [done|]. split; [|done]. eapply shuffled_trans; [|exact S3]. apply swap_shuffled; lia.
Qed.

Lemma hoarePartition_spec p lo hi l : lo < hi -> hi <= length l -> p < length l ->
  exists l' q, hoarePartition (E := E) less p lo hi l = (l', Ok q) /\ lo <= q < hi /\ split_at lo hi q l' /\ shuffled lo hi (swap l p lo) l' /\ l' !!! q = l !!! p.
Proof.
  intros L Lh Lp. unfold hoarePartition. rewrite (bind_ok _ _ _ _ _ (Swap_ok l p lo ltac:(lia) ltac:(lia))).
  set (l1 := swap l p lo). assert (Len1 : length l1 = length l) by (unfold l1, swap; by rewrite !length_insert).
  destruct (hoare_loop_spec (hi - lo) (lo + 1) (hi - 1) lo hi l1) as (l2 & a & R & S2 & Ra & Rl & Rh); [lia..|intros i Hi; lia|intros i Hi; lia|].
  rewrite (bind_ok _ _ _ _ _ R). assert (Len2 : length l2 = length l) by (rewrite (shuffled_length _ _ _ _ S2); done).
  rewrite (bind_ok _ _ _ _ _ (Swap_ok l2 lo (a - 1) ltac:(lia) ltac:(lia))).
  assert (At : swap l2 lo (a - 1) !!! (a - 1) = l2 !!! lo) by (rewrite swap_at by lia; repeat case_decide; try done; congruence).
  exists (swap l2 lo (a - 1)), (a - 1). split; [done|]. split; [lia|]. split; [|split].
  - split; intros i Hi; rewrite At, swap_at by lia; repeat case_decide; try lia.
    + apply Rl. lia.
    + apply Rl. lia.
    + apply Rh. lia.
  - eapply shuffled_trans; [eapply shuffled_wider; [| |exact S2]; lia|]. apply swap_shuffled; lia.
  - rewrite At. destruct S2 as [_ Out _]. rewrite (Out lo) by lia. unfold l1. rewrite swap_at by lia. repeat case_decide; [congruence|done|done].
Qed.
Lemma rearranges_hoare p a b lo hi : lo <= a < b -> b <= hi -> lo <= p < hi -> rearranges lo hi (fun q => lo <= q < hi) (hoarePartition less p a b).
Proof.
  intros La Lb Lp l L. destruct (hoarePartition_spec p a b l) as (l' & q & R & Rq & _ & S1 & _); [lia..|].
  exists l', q. split; [done|]. split; [|lia]. eapply shuffled_trans; [apply (swap_shuffled lo hi l p a); lia|]. eapply shuffled_wider; [| |exact S1]; lia.
Qed.

(** ** The simple partition *)

Lemma simple_loop_spec turns : forall p i lo hi l, lo <= p < i -> i + turns = hi -> hi <= length l ->
  (forall j, lo <= j < p -> le (l !!! j) (l !!! p)) -> (forall j, p < j < i -> le (l !!! p) (l !!! j)) ->
  exists l' q, simple_loop (E := E) less turns p i l = (l', Ok q) /\ shuffled lo hi l l' /\ lo <= q < hi /\ split_at lo hi q l'.
Proof.
  induction turns as [|turns IH]; intros p i lo hi l Lp Li Lh Low High.
  { exists l, p. split; [done|]. split; [apply shuffled_refl|]. split; [lia|]. split; [done|]. intros j Hj. apply High. lia. }
  cbn [simple_loop]. rewrite (bind_ok _ _ _ _ _ (Less_ok less l i p ltac:(lia) ltac:(lia))). destruct (less (l !!! i) (l !!! p)) eqn:X.
  - rewrite (bind_ok _ _ _ _ _ (Swap_ok l p i ltac:(lia) ltac:(lia))).
    assert (Len1 : length (swap l p i) = length l) by (unfold swap; by rewrite !length_insert).
    rewrite (bind_ok _ _ _ _ _ (Swap_ok (swap l p i) (p + 1) i ltac:(lia) ltac:(lia))).
    assert (Len2 : length (swap (swap l p i) (p + 1) i) = length l) by (unfold swap; by rewrite !length_insert).
    destruct (IH (p + 1) (S i) lo hi (swap (swap l p i) (p + 1) i)) as (l' & q & R & S1 & Rq & Sp); [lia|lia|lia| | |].
    + intros j Hj. rewrite !swap_at by (rewrite ?Len1; lia). repeat case_decide; try lia; try (by apply less_le); try (by apply le_refl).
      apply Low. lia.
    + intros j Hj. rewrite !swap_at by (rewrite ?Len1; lia). repeat case_decide; try lia; apply High; lia.
    + exists l', q. split; [done|]. split; [|done]. eapply shuffled_trans; [apply (swap_shuffled lo hi l p i); lia|].
      eapply shuffled_trans; [|exact S1]. apply swap_shuffled; lia.
  - apply IH; [lia|lia|lia|done|]. intros j Hj. destruct (decide (j = i)) as [->|]; [done|]. apply High. lia.
Qed.
Lemma simplePartition_spec k lo hi l : lo < hi -> hi <= length l ->
  exists l' q, simplePartition (E := E) less k lo hi l = (l', Ok q) /\ shuffled lo hi l l' /\ lo <= q < hi /\ split_at lo hi q l'.
Proof. intros L Lh. apply simple_loop_spec; [lia|lia|done|intros j Hj; lia|intros j Hj; lia]. Qed.

(** ** Expanding a partition *)

Lemma left_scan_spec turns : forall i a p l, i <= a -> a <= length l -> p < length l -> a - i < turns ->
  exists i', left_scan (E := E) less turns i a p l = (l, Ok i') /\ i <= i' <= a /\ (forall j, i <= j < i' -> le (l !!! j) (l !!! p)) /\
    (i' < a -> le (l !!! p) (l !!! i')).
Proof.
  induction turns as [|turns IH]; intros i a p l Li La Lp T; [lia|]. cbn [left_scan]. destruct (i <? a) eqn:C; [apply Nat.ltb_lt in C|apply Nat.ltb_ge in C].
  - rewrite (bind_ok _ _ _ _ _ (Less_ok less l i p ltac:(lia) Lp)). destruct (less (l !!! i) (l !!! p)) eqn:X.
    + destruct (IH (S i) a p l) as (i' & R & Ri & Rl & Rs); [lia..|]. exists i'. split; [done|]. split; [lia|]. split; [|done].
      intros j Hj. destruct (decide (j = i)) as [->|]; [by apply less_le|]. apply Rl. lia.
    + exists i. split; [done|]. split; [lia|]. split; [intros j Hj; lia|done].
  - exists i. split; [done|]. split; [lia|]. split; intros j; lia.
Qed.
Lemma right_scan_spec turns : forall j b p l, b <= j < length l -> p < length l -> j - b < turns ->
  exists j', right_scan (E := E) less turns j b p l = (l, Ok j') /\ b <= j' <= j /\ (forall i, j' < i <= j -> le (l !!! p) (l !!! i)) /\
    (b < j' -> le (l !!! j') (l !!! p)).
Proof.
  induction turns as [|turns IH]; intros j b p l Lj Lp T; [lia|]. cbn [right_scan]. destruct (b <? j) eqn:C; [apply Nat.ltb_lt in C|apply Nat.ltb_ge in C].
  - rewrite (bind_ok _ _ _ _ _ (Less_ok less l j p ltac:(lia) Lp)). destruct (less (l !!! j) (l !!! p)) eqn:X; cbn [negb].
    + exists j. split; [done|]. split; [lia|]. split; [intros i Hi; lia|]. intros _. by apply less_le.
    + destruct (IH (j - 1) b p l) as (j' & R & Rj & Rl & Rs); [lia..|]. exists j'. split; [done|]. split; [lia|]. split; [|done].
      intros i Hi. destruct (decide (i = j)) as [->|]; [done|]. apply Rl. lia.
  - exists j. split; [done|]. split; [lia|]. split; intros i; lia.
Qed.

(** Around the middle [a, b] stand on the left what [p] is not exceeded by, on the right what it
    does not exceed, as far as the other side allows. *)
Lemma expand_loop_spec turns : forall i j a p b lo hi l, lo <= i <= a -> a <= p <= b -> b <= j < hi -> hi <= length l -> a - i < turns ->
  (forall x, lo <= x < i -> le (l !!! x) (l !!! p)) -> (forall x, j < x < hi -> le (l !!! p) (l !!! x)) ->
  exists l' i' j', expand_loop (E := E) less turns i j a p b l = (l', Ok (i', j')) /\ shuffled lo hi l l' /\ i <= i' <= a /\ b <= j' <= j /\ (i' = a \/ j' = b) /\
    (forall x, a <= x <= b -> l' !!! x = l !!! x) /\
    (forall x, lo <= x < i' -> le (l' !!! x) (l' !!! p)) /\ (forall x, j' < x < hi -> le (l' !!! p) (l' !!! x)) /\
    (i' < a -> le (l' !!! p) (l' !!! i')).
Proof.
  induction turns as [|turns IH]; intros i j a p b lo hi l Li Lp Lj Lh T Low High; [lia|]. cbn [expand_loop].
  destruct (left_scan_spec (S (a - i)) i a p l) as (i1 & R1 & Ri & Rl & Rs); [lia..|]. rewrite (bind_ok _ _ _ _ _ R1).
  destruct (right_scan_spec (S (j - b)) j b p l) as (j1 & R2 & Rj & Rh & Rt); [lia..|]. rewrite (bind_ok _ _ _ _ _ R2).
  assert (Low1 : forall x, lo <= x < i1 -> le (l !!! x) (l !!! p)) by (intros x Hx; destruct (decide (x < i)); [apply Low|apply Rl]; lia).
  assert (High1 : forall x, j1 < x < hi -> le (l !!! p) (l !!! x)) by (intros x Hx; destruct (decide (j < x)); [apply High|apply Rh]; lia).
  destruct ((i1 =? a) || (j1 =? b)) eqn:C.
  { exists l, i1, j1. split; [done|]. split; [apply shuffled_refl|]. split; [lia|]. split; [lia|].
    apply orb_true_iff in C. rewrite !Nat.eqb_eq in C. done. }
  apply orb_false_iff in C as [C1 C2]. apply Nat.eqb_neq in C1, C2.
  rewrite (bind_ok _ _ _ _ _ (Swap_ok l i1 j1 ltac:(lia) ltac:(lia))).
  assert (Len1 : length (swap l i1 j1) = length l) by (unfold swap; by rewrite !length_insert).
  destruct (IH (i1 + 1) (j1 - 1) a p b lo hi (swap l i1 j1)) as (l' & i' & j' & R & S1 & R3 & R4 & R5 & Mid & R6 & R7 & R8); [lia..| | |].
  - intros x Hx. rewrite !swap_at by lia. repeat case_decide; try lia; [apply Rt; lia|apply Low1; lia].
  - intros x Hx. rewrite !swap_at by lia. repeat case_decide; try lia; [apply Rs; lia|apply High1; lia].
  - exists l', i', j'. split; [done|]. split; [eapply shuffled_trans; [|exact S1]; apply swap_shuffled; lia|]. split; [lia|]. split; [lia|].
    split; [done|]. split; [|done]. intros x Hx. rewrite Mid by done. rewrite swap_at by lia. repeat case_decide; try lia; done.
Qed.

Lemma rearranges_expandPartition a p b lo hi : lo <= a -> a <= p <= b -> b < hi ->
  rearranges lo hi (fun q => lo <= q < hi) (expandPartition less a p b lo hi).
Proof.
  intros La Lp Lb l L. unfold expandPartition.
  destruct (expand_loop_spec (S (a - lo)) lo (hi - 1) a p b lo hi l) as (l1 & i & j & R & S1 & Ri & Rj & _); [lia..|intros x Hx; lia|intros x Hx; lia|].
  rewrite (bind_ok _ _ _ _ _ R). assert (L1 : hi <= length l1) by by rewrite (shuffled_length _ _ _ _ S1).
  assert (K : rearranges lo hi (fun q => lo <= q < hi)
    (if negb (i =? a) then hoarePartition (E := E) less p i a else if negb (j =? b) then hoarePartition less p b (j + 1) else ret p)).
  { destruct (Nat.eqb_spec i a); cbn [negb]; [|apply rearranges_hoare; lia]. destruct (Nat.eqb_spec j b); cbn [negb]; [|apply rearranges_hoare; lia].
    apply rearranges_ret. lia. }
  destruct (K l1 L1) as (l2 & q & R2 & S2 & Q). exists l2, q. split; [done|]. eauto using shuffled_trans.
Qed.

(** A middle of one element is expanded to a partition of the range. *)
Lemma expandPartition_one a lo hi l : lo <= a < hi -> hi <= length l ->
  exists l' q, expandPartition (E := E) less a a a lo hi l = (l', Ok q) /\ shuffled lo hi l l' /\ lo <= q < hi /\ split_at lo hi q l'.
Proof.
  intros La L. unfold expandPartition.
  destruct (expand_loop_spec (S (a - lo)) lo (hi - 1) a a a lo hi l) as (l1 & i & j & R & S1 & Ri & Rj & Or & _ & Low & High & Stop); [lia..|intros x Hx; lia|intros x Hx; lia|].
  rewrite (bind_ok _ _ _ _ _ R). assert (L1 : hi <= length l1) by by rewrite (shuffled_length _ _ _ _ S1).
  destruct (Nat.eqb_spec i a) as [->|Ni]; cbn [negb].
  - destruct (Nat.eqb_spec j a) as [->|Nj]; cbn [negb].
    { exists l1, a. split; [done|]. split; [done|]. split; [lia|]. split; [done|]. intros x Hx. apply High. lia. }
    destruct (hoarePartition_spec a a (j + 1) l1) as (l2 & q & R2 & Rq & [P1 P2] & S2 & V); [lia..|]. exists l2, q. split; [done|].
    assert (S3 : shuffled a (j + 1) l1 l2) by (eapply shuffled_trans; [|exact S2]; apply swap_shuffled; lia).
    split; [eapply shuffled_trans; [exact S1|]; eapply shuffled_wider; [| |exact S3]; lia|]. split; [lia|]. destruct S3 as [_ Out _]. split; intros x Hx.
    + destruct (decide (x < a)); [|apply P1; lia]. rewrite V, Out by lia. apply Low. lia.
    + destruct (decide (j < x)); [|apply P2; lia]. rewrite V, Out by lia. apply High. lia.
  - destruct Or as [?| ->]; [done|].
    destruct (hoarePartition_spec a i a l1) as (l2 & q & R2 & Rq & [P1 P2] & S2 & V); [lia..|]. exists l2, q. split; [done|].
    assert (S3 : shuffled lo hi (swap l1 a i) l2) by (eapply shuffled_wider; [| |exact S2]; lia).
    split; [eapply shuffled_trans; [exact S1|]; eapply shuffled_trans; [|exact S3]; apply swap_shuffled; lia|]. split; [lia|].
    destruct S2 as [_ Out _]. split; intros x Hx.
    + destruct (decide (x < i)); [|apply P1; lia]. rewrite V, Out, swap_at by lia. repeat case_decide; try lia. apply Low. lia.
    + destruct (decide (x < a)); [apply P2; lia|]. rewrite V, Out, swap_at by lia. repeat case_decide; try lia; [apply Stop; lia|apply High; lia].
Qed.

(** ** Selection ends *)

(** Every step returns an index of the range: the search ends. *)
Lemma rearranges_quickSelect turns partition : forall k lo hi a b, lo <= a -> b <= hi -> a <= k < b -> b - a < turns ->
  (forall a b, lo <= a -> b <= hi -> a <= k < b -> rearranges a b (fun q => a <= q < b) (partition k a b)) ->
  rearranges lo hi (fun _ => True) (quickSelect (A := A) (E := E) turns partition k a b).
Proof.
  induction turns as [|turns IH]; intros k lo hi a b La Lb Lk T P; [lia|]. cbn [quickSelect].
  eapply (rearranges_bind lo hi (fun q => a <= q < b)); [eapply rearranges_wider; [| | |by apply P]; [done|done|tauto]|].
  intros q Rq. destruct (q =? k) eqn:C; [by apply rearranges_ret|]. apply Nat.eqb_neq in C.
  destruct (k <? q) eqn:C2; [apply Nat.ltb_lt in C2|apply Nat.ltb_ge in C2]; apply IH; try lia; done.
Qed.

(** The numbers of [repeatedStepLeft]. *)
Lemma step_bounds k a b : a <= k < b -> 12 <= b - a ->
  let l := b - a in let f := l / 4 in let f2 := f / 3 in
  3 <= f /\ 4 * f <= l /\ 1 <= f2 /\ 3 * f2 <= f /\ (k - a) * f2 / l < f2.
Proof.
  intros Rk L l f f2. pose proof (Nat.div_mod_eq l 4) as D1. pose proof (Nat.mod_upper_bound l 4 ltac:(lia)) as M1.
  pose proof (Nat.div_mod_eq f 3) as D2. pose proof (Nat.mod_upper_bound f 3 ltac:(lia)) as M2. fold f in D1. fold f2 in D2.
  assert (12 <= l) by done. assert (1 <= f2) by lia. repeat split; try lia.
  apply Nat.Div0.div_lt_upper_bound. unfold l. nia.
Qed.

Lemma rearranges_step depth : forall k a b, a <= k < b -> b - a < depth ->
  rearranges a b (fun q => a <= q < b) (repeatedStepLeft (E := E) less depth k a b) /\
  rearranges a b (fun q => a <= q < b) (repeatedStepFarLeft (E := E) less depth k a b).
Proof.
  induction depth as [|depth IH]; intros k a b Rk D; [lia|]. cbn [repeatedStepLeft repeatedStepFarLeft].
  destruct (b - a <? 12) eqn:C; [apply Nat.ltb_lt in C|apply Nat.ltb_ge in C].
  { pose proof (Nat.Div0.div_lt_upper_bound (b - a) 2 (b - a) ltac:(lia)). split; apply rearranges_hoare; lia. }
  pose proof (step_bounds k a b Rk C) as (F1 & F2 & F3 & F4 & F5). set (l := b - a) in *. set (f := l / 4) in *. set (f2 := f / 3) in *.
  set (t := (k - a) * f2 / l) in *. assert (El : l = b - a) by done.
  split; (eapply rearranges_bind; [apply rearranges_upto; intros j Hj; apply rearranges_lowerMedian4; lia|]); intros _ _; cbv zeta;
    (eapply rearranges_bind; [apply rearranges_upto; intros j Hj|]).
  - apply rearranges_median3; lia.
  - intros _ _. eapply rearranges_bind; [|intros _ _; apply rearranges_expandPartition; lia].
    apply (rearranges_wider (a + f) (a + f + f2) a b (fun _ => True) (fun _ => True)); [lia|lia|auto|].
    apply rearranges_quickSelect; try lia. intros a' b' La Lb R. apply IH; lia.
  - eapply rearranges_bind; [apply rearranges_order1; lia|]. intros _ _. apply rearranges_order1; lia.
  - intros _ _. eapply rearranges_bind; [|intros _ _; apply rearranges_expandPartition; lia].
    apply (rearranges_wider (a + f) (a + f + f2) a b (fun _ => True) (fun _ => True)); [lia|lia|auto|].
    apply rearranges_quickSelect; try lia. intros a' b' La Lb R. apply IH; lia.
Qed.
Lemma rearranges_simple k a b : a < b -> rearranges a b (fun q => a <= q < b) (simplePartition (E := E) less k a b).
Proof. intros L l Lh. destruct (simplePartition_spec k a b l L Lh) as (l' & q & R & S1 & Q & _). eauto 6. Qed.
Lemma rearranges_adaptive k a b : a <= k < b -> rearranges a b (fun q => a <= q < b) (adaptive_step (E := E) less k a b).
Proof.
  intros Rk. unfold adaptive_step. destruct (b - a <? 12) eqn:C.
  { apply Nat.ltb_lt in C. pose proof (Nat.Div0.div_lt_upper_bound (b - a) 2 (b - a) ltac:(lia)). apply rearranges_hoare; lia. }
  destruct (SFltb _ _); [destruct (SFltb _ _); apply rearranges_step; lia|]. destruct (SFleb _ _); [destruct (SFleb _ _)|]; apply rearranges_simple; lia.
Qed.

(** ** Selection is right on short slices *)

Definition partitions lo hi (m : ST (list A) E nat) : Prop :=
  forall l, hi <= length l -> exists l' q, m l = (l', Ok q) /\ shuffled lo hi l l' /\ lo <= q < hi /\ split_at lo hi q l'.

Lemma partitions_after {T} lo hi (m : ST (list A) E T) n :
  rearranges lo hi (fun _ => True) m -> (forall v, partitions lo hi (n v)) -> partitions lo hi (bind m n).
Proof.
  intros M N l L. destruct (M l L) as (l1 & v & R1 & S1 & _). rewrite (bind_ok _ _ _ _ _ R1).
  destruct (N v l1) as (l2 & q & R2 & S2 & Q); [by rewrite (shuffled_length _ _ _ _ S1)|]. exists l2, q. split; [done|].
  split; [|done]. eauto using shuffled_trans.
Qed.
Lemma partitions_hoare p a b : a <= p < b -> partitions a b (hoarePartition less p a b).
Proof.
  intros Lp l L. destruct (hoarePartition_spec p a b l) as (l' & q & R & Rq & Sp & S1 & _); [lia..|]. exists l', q. split; [done|].
  split; [|done]. eapply shuffled_trans; [|exact S1]. apply swap_shuffled; lia.
Qed.

(** With less than 24 elements, [f2] is 1: the middle is one element. *)
Lemma step_short depth k a b : a <= k < b -> 12 <= b - a < 24 -> 1 < depth ->
  partitions a b (repeatedStepLeft less (S depth) k a b) /\ partitions a b (repeatedStepFarLeft less (S depth) k a b).
Proof.
  intros Rk [C L] D. pose proof (step_bounds k a b Rk C) as (F1 & F2 & F3 & F4 & F5).
  assert (E2 : (b - a) / 4 / 3 = 1) by lia. rewrite E2 in F5. assert (E3 : (k - a) * 1 / (b - a) = 0) by (apply Nat.div_small; lia).
  cbn [repeatedStepLeft repeatedStepFarLeft]. rewrite (proj2 (Nat.ltb_ge (b - a) 12) C).
  rewrite E2, E3, Nat.add_0_r. replace (a + (b - a) / 4 + 1 - 1) with (a + (b - a) / 4) by lia. set (f := (b - a) / 4) in *.
  assert (P : partitions a b (expandPartition less (a + f) (a + f) (a + f) a b)) by (intros l Lh; apply expandPartition_one; lia).
  split; (apply partitions_after; [apply rearranges_upto; intros j Hj; apply rearranges_lowerMedian4; lia|]); intros _; cbv zeta;
    (apply partitions_after; [apply rearranges_upto; intros j Hj|]).
  - apply rearranges_median3; lia.
  - intros _. apply partitions_after; [|by intros _].
    apply (rearranges_wider (a + f) (a + f + 1) a b (fun _ => True) (fun _ => True)); [lia|lia|auto|].
    apply rearranges_quickSelect; try lia. intros a' b' La Lb R. apply rearranges_step; lia.
  - eapply rearranges_bind; [apply rearranges_order1; lia|]. intros _ _. apply rearranges_order1; lia.
  - intros _. apply partitions_after; [|by intros _].
    apply (rearranges_wider (a + f) (a + f + 1) a b (fun _ => True) (fun _ => True)); [lia|lia|auto|].
    apply rearranges_quickSelect; try lia. intros a' b' La Lb R. apply rearranges_step; lia.
Qed.
Lemma adaptive_short k a b : a <= k < b -> b - a < 24 -> partitions a b (adaptive_step less k a b).
Proof.
  intros Rk L. unfold adaptive_step. destruct (b - a <? 12) eqn:C.
  { apply Nat.ltb_lt in C. pose proof (Nat.Div0.div_lt_upper_bound (b - a) 2 (b - a) ltac:(lia)). apply partitions_hoare; lia. }
  apply Nat.ltb_ge in C.
  destruct (SFltb _ _); [destruct (SFltb _ _); apply step_short; lia|].
  destruct (SFleb _ _); [destruct (SFleb _ _)|]; intros l Lh; apply simplePartition_spec; lia.
Qed.

(** What lies before the range does not exceed, what lies behind it does not precede, what is in it. *)
Definition bracketed a b l : Prop :=
  (forall i j, i < a -> a <= j < length l -> le (l !!! i) (l !!! j)) /\ (forall i j, i < b -> b <= j < length l -> le (l !!! i) (l !!! j)).

Lemma bracketed_shuffled a b l l' : a <= b -> b <= length l -> shuffled a b l l' -> bracketed a b l -> bracketed a b l'.
Proof.
  intros Lab Lb S [B1 B2]. pose proof (shuffled_length _ _ _ _ S) as Len. destruct S as [_ Out In].
  assert (K : forall i, i < length l -> exists i', l' !!! i = l !!! i' /\ i' < length l /\ (i < a -> i' < a) /\ (a <= i -> a <= i') /\ (i < b -> i' < b) /\ (b <= i -> b <= i')).
  { intros i Hi. destruct (decide (a <= i < b)) as [R|R].
    - destruct (In i R) as (i' & R' & ->). exists i'. split; [done|]. lia.
    - exists i. rewrite Out by lia. split; [done|]. lia. }
  split; intros i j Hi Hj; rewrite Len in Hj; destruct (K i ltac:(lia)) as (i' & -> & Ki), (K j ltac:(lia)) as (j' & -> & Kj); [apply B1|apply B2]; lia.
Qed.

Lemma quickSelect_spec turns partition : forall k a b l, a <= k < b -> b <= length l -> b - a < turns ->
  (forall a' b', a <= a' -> b' <= b -> a' <= k < b' -> partitions a' b' (partition k a' b')) -> bracketed a b l ->
  exists l', quickSelect turns partition k a b l = (l', Ok tt) /\ shuffled a b l l' /\ split_at 0 (length l) k l'.
Proof.
  induction turns as [|turns IH]; intros k a b l Rk Lb T P B; [lia|]. cbn [quickSelect].
  destruct (P a b ltac:(lia) ltac:(lia) Rk l Lb) as (l1 & q & R & S1 & Rq & [Sp1 Sp2]). rewrite (bind_ok _ _ _ _ _ R).
  pose proof (shuffled_length _ _ _ _ S1) as Len. destruct (bracketed_shuffled a b l l1 ltac:(lia) Lb S1 B) as [B1 B2]. rewrite Len in B1, B2.
  assert (Q1 : forall i, i < q -> le (l1 !!! i) (l1 !!! q)) by (intros i Hi; destruct (decide (i < a)); [apply B1|apply Sp1]; lia).
  assert (Q2 : forall i, q < i < length l -> le (l1 !!! q) (l1 !!! i)) by (intros i Hi; destruct (decide (i < b)); [apply Sp2|apply B2]; lia).
  destruct (Nat.eqb_spec q k) as [->|Ne].
  { exists l1. split; [done|]. split; [done|]. split; intros i Hi; [apply Q1|apply Q2]; lia. }
  assert (W : forall c d, a <= c -> d <= b -> c <= k < d -> d - c < turns -> bracketed c d l1 ->
    exists l', quickSelect turns partition k c d l1 = (l', Ok tt) /\ shuffled a b l l' /\ split_at 0 (length l) k l').
  { intros c d Lc Ld Rcd Td Bcd. destruct (IH k c d l1) as (l2 & R2 & S2 & Sp); [lia|lia|lia| |done|].
    - intros a' b' La' Lb' R'. apply P; lia.
    - exists l2. split; [done|]. rewrite Len in Sp. split; [|done]. eapply shuffled_trans; [exact S1|]. eapply shuffled_wider; [| |exact S2]; lia. }
  destruct (k <? q) eqn:C; [apply Nat.ltb_lt in C|apply Nat.ltb_ge in C]; apply W; try lia; split; rewrite Len; intros i j Hi Hj.
  - apply B1; lia.
  - destruct (decide (j = q)) as [->|]; [apply Q1; lia|]. eapply le_trans; [done|apply Q1; lia|apply Q2; lia].
  - destruct (decide (i = q)) as [->|]; [apply Q2; lia|]. eapply le_trans; [done|apply Q1; lia|apply Q2; lia].
  - apply B2; lia.
Qed.
End Correct.

(** ** Element *)

Lemma Len_ok {A E} (l : list A) : @Len A E l = (l, Ok (length l)).
Proof. done. Qed.

(** Element always ends without a panic and rearranges the slice, whatever its length and the rank
    asked for; a rank outside the slice leaves it alone. *)
Theorem Element_ends {A E : Type} (less : A -> A -> bool) `{!LessOrder less} (n : Z) (l : list A) :
  exists l', @Element A E less n l = (l', Ok tt) /\ l' ≡ₚ l /\ (~ (0 <= n < len l)%Z -> l' = l).
Proof.
  unfold Element. rewrite (bind_ok _ _ _ _ _ (Len_ok l)). unfold len.
  destruct ((n <? 0) || (Z.of_nat (length l) <=? n))%Z eqn:C; [by exists l|]. apply orb_false_iff in C as [C1 C2]. apply Z.ltb_ge in C1. apply Z.leb_gt in C2.
  destruct l as [|x l]; [simpl in C2; lia|]. assert (Inhabited A) as I by (constructor; exact x).
  assert (K : rearranges (E := E) 0 (length (x :: l)) (fun _ => True) (quickSelectAdaptive less (Z.to_nat n) 0 (length (x :: l)))).
  { unfold quickSelectAdaptive. apply rearranges_quickSelect; try lia. intros a b _ _ R. by apply rearranges_adaptive. }
  destruct (K (x :: l) ltac:(lia)) as (l' & [] & R & S1 & _). exists l'. split; [done|]. split; [by apply S1|]. lia.
Qed.

Lemma Element_ok {A E : Type} (less : A -> A -> bool) `{!LessOrder less} (n : Z) (l : list A) :
  (0 <= n < len l)%Z -> (len l < 24)%Z ->
  exists l' x, @Element A E less n l = (l', Ok tt) /\ l' ≡ₚ l /\ l' !! Z.to_nat n = Some x /\
    forall i y, l' !! i = Some y -> (i < Z.to_nat n -> less x y = false) /\ (Z.to_nat n < i -> less y x = false).
Proof.
  unfold len. intros Rn L. unfold Element. rewrite (bind_ok _ _ _ _ _ (Len_ok l)).
  replace ((n <? 0) || (Z.of_nat (length l) <=? n))%Z with false by (symmetry; apply orb_false_iff; lia).
  destruct l as [|x l]; [simpl in Rn; lia|]. assert (Inhabited A) as I by (constructor; exact x).
  destruct (quickSelect_spec (E := E) less (S (length (x :: l) - 0)) (adaptive_step less) (Z.to_nat n) 0 (length (x :: l)) (x :: l))
    as (l' & R & S1 & [P1 P2]); [lia|lia|lia| | |].
  - intros a b La Lb R. apply adaptive_short; [done|done|lia].
  - split; intros i j Hi Hj; lia.
  - pose proof (shuffled_length _ _ _ _ S1) as Len. exists l', (l' !!! Z.to_nat n). split; [done|]. split; [by apply S1|].
    split; [apply lookup_at; lia|]. intros i y Y. pose proof (lookup_lt_Some _ _ _ Y). apply list_lookup_total_correct in Y as <-.
    split; intros Hi; [apply P1|apply P2]; lia.
Qed.

(** C37: On less than 24 elements Element does what it promises: the element of rank [n] stands at [n],
    none before it exceeds it and none behind it precedes it. *)
Theorem Element_spec {A E : Type} (less : A -> A -> bool) `{!LessOrder less} (n : Z) (l : list A) :
  (0 <= n < len l)%Z -> (len l < 24)%Z ->
  exists l' x, @Element A E less n l = (l', Ok tt) /\ l' ≡ₚ l /\ l' !! Z.to_nat n = Some x /\
    forall i y, l' !! i = Some y -> (i < Z.to_nat n -> less x y = false) /\ (Z.to_nat n < i -> less y x = false).
Proof. apply Element_ok; assumption. Qed.

(** Twenty-five elements, of which a greater one than the eighth is selected: the expansion of a
    partition moves its pivot out of the middle. *)
Definition slice25 : list Z := [15; 23; 11; 0; 7; 17; 3; 4; 8; 10; 18; 9; 13; 19; 16; 12; 6; 1; 20; 14; 2; 21; 22; 24; 5]%Z.

(** On 25 elements Element may select a wrong one: of the numbers 0 to 24 in some order, it puts 9
    at the place of 7 and 7 at the place of 8. *)
Theorem Element_wrong : slice25 ≡ₚ seqZ 0 25 /\
  (forall n, In n [7; 8]%Z -> (@Element Z unit Z.ltb n slice25).2 = Ok tt) /\
  (@Element Z unit Z.ltb 7 slice25).1 !! 7 = Some 9%Z /\ (@Element Z unit Z.ltb 8 slice25).1 !! 8 = Some 7%Z.
Proof.
  split; [|split; [intros n [<-|[<-|[]]]; vm_compute; reflexivity|split; vm_compute; reflexivity]].
  rewrite <- (GoSort_perm Z.ltb slice25). apply reflexive_eq. vm_compute. reflexivity.
Qed.

(** ** Witnesses *)




Lemma Element_spec_witness : exists l' x, @Element Z unit Z.ltb 2 [5; 3; 9; 1]%Z = (l', Ok tt) /\ l' ≡ₚ [5; 3; 9; 1]%Z /\ l' !! 2 = Some x /\
  forall i y, l' !! i = Some y -> (i < 2 -> Z.ltb x y = false) /\ (2 < i -> Z.ltb y x = false).
Proof. apply (Element_spec (E := unit) Z.ltb 2 [5; 3; 9; 1]%Z); vm_compute; [split; [discriminate|reflexivity]|reflexivity]. Defined.

Lemma Element_ends_witness : exists l', @Element Z unit Z.ltb 3 [2; 1]%Z = (l', Ok tt) /\ l' ≡ₚ [2; 1]%Z /\ (~ (0 <= 3 < len [2; 1])%Z -> l' = [2; 1]%Z).
Proof. exact (Element_ends Z.ltb 3 [2; 1]%Z). Defined.

End Nth.
