(* ===== verification/MemDag.v ===== *)
(** * The tree of unstable units

    src/dag/memunit/memdag.go and chain_tempdb.go: the units that are not stable yet, in a tree
    over the last stable unit, each tip with a temporary database (TempDb.v) that shows the state
    after it; orphans, whose parents are missing; and making units stable, which saves them in
    order into the database and drops the branches that lost.

    What a repository or a validator made on a database does is a function of the contents of
    that database: the class [Repos] gives the writes of pushing a unit, the verdicts, the
    mediators and the headers.  The units are values of any type with the interface [MemUnit].
    Temporary databases are shared, by the entries of a parent and a child, so they stand in a
    store ([temps]).  A [go] statement adds a job to the state, run when the scheduler likes:
    [run_job]; the jobs of the transaction pool are only recorded.  Each method holds the lock
    from beginning to end, so it is one function; the jobs do not take it, and each is run at
    once here (they touch maps that are safe for concurrent use, entry by entry). *)

From S2P Require Import Prelude AssetId Opcode Script Tx Unit ValPayment StateDb TempDb HeapSort Nth.
From Stdlib Require Import ZArith Lia Bool ZifyBool.
Import State Temp Nth.
Local Open Scope Z_scope.

Module MemDag.

(** ** The interfaces *)

(** What the tree asks of a unit. *)
Class MemUnit (U : Type) := {
  Hash : U -> bytes;
  ParentHash : U -> list bytes;
  NumberU64 : U -> Z;
  GetAssetId : U -> bytes;
  Transactions : U -> list Transaction;
  GetGroupSign : U -> bytes;
  GetGroupPubKeyByte : U -> bytes;
  SetGroupSign : bytes -> U -> U }.

(** Units of Unit.v with their headers, numbers and hashes at hand. *)
Record full_unit := mkFull { fu_header : Header; fu_number : ChainIndex; fu_hash : bytes; fu_txs : list Transaction }.
Definition fu_unit (u : full_unit) : Unit := mkUnit (Some (fu_header u)) (fu_txs u).
#[export] Instance full_mem : MemUnit full_unit := {|
  Hash := fu_hash; ParentHash := fun u => Unit.ParentHash (fu_header u); NumberU64 := fun u => ci_Index (fu_number u); GetAssetId := fun u => ci_AssetID (fu_number u);
  Transactions := fu_txs; GetGroupSign := fun u => group_sign (fu_header u); GetGroupPubKeyByte := fun u => group_pubKey (fu_header u);
  SetGroupSign := fun s u => mkFull (Unit.SetGroupSign s (fu_header u)) (fu_number u) (fu_hash u) (fu_txs u) |}.

(** What the repositories and validators on a database do, by its contents; third-party group
    signatures; the cache that the validators share.  A push gives the writes it makes, those
    before a failure included. *)
Class Repos (U : Type) := {
  PushUnit : Db -> U -> list kv * option string;
  SaveNewestHeader : Db -> U -> list kv * option string;
  rep_SaveHeader : Db -> U -> list kv * option string;
  LastConfirmedUnitNums : Db -> list Z;                       (* of LookupMediatorInfo *)
  GetHeaderByNumber : Db -> bytes -> Z -> option (bytes * Z);  (* of an asset: its hash and number *)
  Cache : Type;
  rep_ValidateHeader : Cache -> Db -> U -> Cache * Z;
  ValidateUnitExceptGroupSig : Cache -> Db -> U -> Cache * Z;
  Point : Type;
  UnmarshalBinary : bytes -> option Point;
  bls_Verify : Point -> bytes -> bytes -> bool }.

Inductive mem_error := ErrNullPoint | ErrNotFound | ValidateError (code : Z) | SaveError (e : string).

(** ** State *)

(** A database a repository is made on: the stable one or a temporary one. *)
Inductive Ref := Stable | Temp (i : nat).

(** The repositories of an entry are those on its database. *)
Record ChainTempDb (U : Type) := mkChainTemp { ct_Tempdb : Ref; ct_Unit : option U }.
Arguments mkChainTemp {U}. Arguments ct_Tempdb {U}. Arguments ct_Unit {U}.

Inductive job (U : Type) :=
| DelHeightUnitsAndTemp (height : Z)
| RemoveLowOrphanUnit (lessThan : Z)
| ResetPendingTxs (txs : list Transaction)
| SetPendingTxs (hash : bytes) (height : Z) (txs : list Transaction)
| SendStoredTxs (txs : list Transaction)
| SendToGroupSign
| SwitchMainChainEvent (old new : option U).                  (* the observers, called at once *)
Arguments DelHeightUnitsAndTemp {U}. Arguments RemoveLowOrphanUnit {U}. Arguments ResetPendingTxs {U}.
Arguments SetPendingTxs {U}. Arguments SendStoredTxs {U}. Arguments SendToGroupSign {U}. Arguments SwitchMainChainEvent {U}.

Section Machine.
Context {U : Type} `{!MemUnit U} `{!Repos U} `{!GoRange bytes (option U)} `{!GoRange bytes U}.
Abbreviation Entry := (ChainTempDb U).

Record MemDag := mkDag {
  stableUnitHash : bytes; stableUnitHeight : Z; lastMainChainUnit : option U; threshold : Z;
  height_hashs : gmap Z (list bytes); orphanUnits : gmap bytes U; orphanUnitsParants : gmap bytes bytes;
  chainUnits : gmap bytes Entry; tempdb : gmap bytes Entry;
  saveHeaderOnly : bool; db : Db; temps : list (Overlay * Ref); cache : Cache; jobs : list (job U) }.

Abbreviation M := (ST MemDag mem_error).

Definition with_stable (hash : bytes) (height : Z) (s : MemDag) : MemDag :=
  mkDag hash height (lastMainChainUnit s) (threshold s) (height_hashs s) (orphanUnits s) (orphanUnitsParants s) (chainUnits s) (tempdb s)
    (saveHeaderOnly s) (db s) (temps s) (cache s) (jobs s).
Definition setLastMainchainUnit (unit_ : option U) (s : MemDag) : MemDag :=
  mkDag (stableUnitHash s) (stableUnitHeight s) unit_ (threshold s) (height_hashs s) (orphanUnits s) (orphanUnitsParants s) (chainUnits s) (tempdb s)
    (saveHeaderOnly s) (db s) (temps s) (cache s) (jobs s).
Definition SetStableThreshold (count : Z) (s : MemDag) : MemDag :=
  mkDag (stableUnitHash s) (stableUnitHeight s) (lastMainChainUnit s) count (height_hashs s) (orphanUnits s) (orphanUnitsParants s) (chainUnits s) (tempdb s)
    (saveHeaderOnly s) (db s) (temps s) (cache s) (jobs s).
Definition with_heights (m : gmap Z (list bytes)) (s : MemDag) : MemDag :=
  mkDag (stableUnitHash s) (stableUnitHeight s) (lastMainChainUnit s) (threshold s) m (orphanUnits s) (orphanUnitsParants s) (chainUnits s) (tempdb s)
    (saveHeaderOnly s) (db s) (temps s) (cache s) (jobs s).
Definition with_orphans (o : gmap bytes U) (p : gmap bytes bytes) (s : MemDag) : MemDag :=
  mkDag (stableUnitHash s) (stableUnitHeight s) (lastMainChainUnit s) (threshold s) (height_hashs s) o p (chainUnits s) (tempdb s)
    (saveHeaderOnly s) (db s) (temps s) (cache s) (jobs s).
Definition with_chain (c t : gmap bytes Entry) (s : MemDag) : MemDag :=
  mkDag (stableUnitHash s) (stableUnitHeight s) (lastMainChainUnit s) (threshold s) (height_hashs s) (orphanUnits s) (orphanUnitsParants s) c t
    (saveHeaderOnly s) (db s) (temps s) (cache s) (jobs s).
Definition with_store (d : Db) (l : list (Overlay * Ref)) (s : MemDag) : MemDag :=
  mkDag (stableUnitHash s) (stableUnitHeight s) (lastMainChainUnit s) (threshold s) (height_hashs s) (orphanUnits s) (orphanUnitsParants s) (chainUnits s) (tempdb s)
    (saveHeaderOnly s) d l (cache s) (jobs s).
Definition with_cache (c : Cache) (s : MemDag) : MemDag :=
  mkDag (stableUnitHash s) (stableUnitHeight s) (lastMainChainUnit s) (threshold s) (height_hashs s) (orphanUnits s) (orphanUnitsParants s) (chainUnits s) (tempdb s)
    (saveHeaderOnly s) (db s) (temps s) c (jobs s).
Definition with_jobs (j : list (job U)) (s : MemDag) : MemDag :=
  mkDag (stableUnitHash s) (stableUnitHeight s) (lastMainChainUnit s) (threshold s) (height_hashs s) (orphanUnits s) (orphanUnitsParants s) (chainUnits s) (tempdb s)
    (saveHeaderOnly s) (db s) (temps s) (cache s) j.

(** The [go] statement *)
Definition go (j : job U) : M unit := modify (fun s => with_jobs (jobs s ++ [j]) s).
(** The use of a pointer to a unit *)
Definition deref (u : option U) : M U := get u.
Definition parent0 (u : U) : M bytes := get (ParentHash u !! 0%nat).

(** ** Databases *)

(** What a database shows: a temporary one its writes over what is below it. *)
Fixpoint shows (fuel : nat) (d : Db) (l : list (Overlay * Ref)) (r : Ref) : Db :=
  match r, fuel with
  | Stable, _ => d
  | Temp i, S fuel => match l !! i with Some (o, below) => seen o (shows fuel d l below) | None => ∅ end
  | Temp i, O => ∅
  end.
Definition contents (s : MemDag) (r : Ref) : Db := shows (length (temps s)) (db s) (temps s) r.

Definition write_at (r : Ref) (ws : list kv) (s : MemDag) : MemDag :=
  match r with
  | Stable => with_store (write_all ws (db s)) (temps s) s
  | Temp i => with_store (db s) (alter (fun ob => (overlay_Write ws ob.1, ob.2)) i (temps s)) s
  end.
Definition save_at (r : Ref) (f : Db -> list kv * option string) : M (option string) :=
  fun s => let '(ws, e) := f (contents s r) in (write_at r ws s, Ok e).

(** [NewTempdb]: a new overlay over [below]. *)
Definition NewTempdb_at (below : Ref) : M Ref :=
  fun s => (with_store (db s) (temps s ++ [(no_writes, below)]) s, Ok (Temp (length (temps s)))).
Definition NewChainTempDb (below : Ref) : M Entry := let! r := NewTempdb_at below in ret (mkChainTemp r None).

(** On an error the receiver is returned. *)
Definition saveUnit (headerOnly : bool) (r : Ref) (u : U) : M (option string) :=
  save_at r (fun d => if headerOnly then SaveNewestHeader d u else PushUnit d u).
Definition ChainTempDb_AddUnit (chain_temp : Entry) (unit_ : option U) : M (Entry * option string) :=
  let! headerOnly := gets saveHeaderOnly in
  let! u := deref unit_ in
  let! e := saveUnit headerOnly (ct_Tempdb chain_temp) u in
  match e with
  | Some e => ret (chain_temp, Some e)
  | None => ret (mkChainTemp (ct_Tempdb chain_temp) unit_, None)
  end.

Definition validate (r : Ref) (u : U) : M Z :=
  fun s => let '(c, code) := if saveHeaderOnly s then rep_ValidateHeader (cache s) (contents s r) u
                             else ValidateUnitExceptGroupSig (cache s) (contents s r) u in
           (with_cache c s, Ok code).

(** ** Reading the tree *)

Definition getChainUnits (s : MemDag) : gmap bytes (option U) := ct_Unit <$> chainUnits s.
Definition getChainUnit (hash : bytes) : M Entry :=
  let! c := gets chainUnits in match c !! hash with Some e => ret e | None => throw ErrNotFound end.
Definition GetLastStableUnitInfo (s : MemDag) : bytes * Z := (stableUnitHash s, stableUnitHeight s).

(** [int(unit.NumberU64() - chain.GetLastStableUnitHeight())] *)
Definition above_stable (number stable : Z) : Z := int64 (uint64 (number - stable)).

(** The loop fills the slice from behind; where it breaks off, nil units are left in front. *)
Fixpoint fork_loop (n : nat) (chain_units : gmap bytes (option U)) (hash : bytes) (found : list (option U)) : M (list (option U)) :=
  match n with
  | O => ret found
  | S n =>
      match chain_units !! hash with
      | None => ret (replicate (S n) None ++ found)
      | Some u => let! v := deref u in let! hash := parent0 v in fork_loop n chain_units hash (u :: found)
      end
  end.
Definition getForkUnits (unit_ : U) : M (list (option U)) :=
  let! chain_units := gets getChainUnits in
  let! stable := gets stableUnitHeight in
  let unstableCount := above_stable (NumberU64 unit_) stable in
  if unstableCount <=? 1 then ret [Some unit_] else
  let! hash := parent0 unit_ in
  let! unstableUnits := fork_loop (Z.to_nat (unstableCount - 1)) chain_units hash [] in
  ret (unstableUnits ++ [Some unit_]).

(** [continue] leaves the hash as it is: a unit that is missing is missed again, to the end. *)
Fixpoint main_loop (n : nat) (chain_units : gmap bytes (option U)) (hash : bytes) (found : list (option U)) : M (list (option U)) :=
  match n with
  | O => ret found
  | S n =>
      match chain_units !! hash with
      | None => main_loop n chain_units hash (None :: found)
      | Some u => let! v := deref u in let! hash := parent0 v in main_loop n chain_units hash (u :: found)
      end
  end.
Definition getMainChainUnits : M (list (option U)) :=
  let! last := gets lastMainChainUnit in
  let! last := deref last in
  let! stable := gets stableUnitHeight in
  let unstableCount := above_stable (NumberU64 last) stable in
  let! chain_units := gets getChainUnits in
  if unstableCount <? 0 then panic (* makeslice *) else
  main_loop (Z.to_nat unstableCount) chain_units (Hash last) [].

(** The database of the repositories that the rest of the node reads. *)
Definition GetUnstableRepositories : M Ref :=
  let! last := gets lastMainChainUnit in
  match last with
  | None => NewTempdb_at Stable
  | Some u =>
      let! c := gets chainUnits in
      match c !! Hash u with
      | None => let! t := gets tempdb in match t !! Hash u with None => NewTempdb_at Stable | Some e => ret (ct_Tempdb e) end
      | Some e =>
          let! v := deref (ct_Unit e) in
          let! stable := gets stableUnitHeight in
          if NumberU64 v <? stable then NewTempdb_at Stable else ret (ct_Tempdb e)
      end
  end.

(** GetHeaderByNumber and GetHeaderByHash ask the repository of the main chain's tip. *)
Definition main_repository : M Ref :=
  let! last := gets lastMainChainUnit in
  let! last := deref last in
  let! t := gets tempdb in
  match t !! Hash last with Some e => ret (ct_Tempdb e) | None => throw ErrNotFound end.

(** ** Orphans *)

Definition rekey (s : MemDag) : gmap bytes U * gmap bytes U :=
  fold_left (fun '(m, units) '(hash, u) =>
    let u_hash := Hash u in
    (if bool_decide (hash = u_hash) then m else <[u_hash := u]> (delete hash m), <[u_hash := u]> units))
    (go_range (orphanUnits s)) (orphanUnits s, ∅).
Definition getOrphanUnits : M (gmap bytes U) :=
  fun s => let '(m, units) := rekey s in (with_orphans m (orphanUnitsParants s) s, Ok units).

Definition removeLowOrphanUnit (lessThan : Z) : M unit :=
  let! orphans := getOrphanUnits in
  each (fun '(hash, unit_) =>
    if NumberU64 unit_ <=? lessThan then
      let txs := Transactions unit_ in
      (if 1 <? len txs then go (ResetPendingTxs txs) else ret tt) ;;;
      modify (fun s => with_orphans (delete hash (orphanUnits s)) (orphanUnitsParants s) s)
    else ret tt) (go_range orphans).

(** ** Heights *)

Definition addUnitHeight (unit_ : U) : M unit :=
  modify (fun s => let height := NumberU64 unit_ in
    with_heights (<[height := default [] (height_hashs s !! height) ++ [Hash unit_]]> (height_hashs s)) s).

Definition delHeightUnitsAndTemp (height : Z) : M unit :=
  modify (fun s =>
    let low := filter (fun e => e.1 <= height) (height_hashs s) in
    let to_del_hash := concat (map_to_list low).*2 in
    with_chain (chainUnits s) (fold_left (fun t hash => if bool_decide (hash = stableUnitHash s) then t else delete hash t) to_del_hash (tempdb s))
      (with_heights (filter (fun e => ~ e.1 <= height) (height_hashs s)) s)).

(** Temporary databases of units that fell behind are cleared, and no longer found. *)
Definition stale (s : MemDag) (hash : bytes) : M bool :=
  match chainUnits s !! hash with
  | None => ret false
  | Some e =>
      let! u := deref (ct_Unit e) in
      ret ((NumberU64 u <? stableUnitHeight s) || ((NumberU64 u =? stableUnitHeight s) && negb (bytes_equal (Hash u) (stableUnitHash s))))
  end.
Definition Clear_at (r : Ref) (s : MemDag) : MemDag :=
  match r with
  | Stable => s
  | Temp i => with_store (db s) (alter (fun ob => (no_writes, ob.2)) i (temps s)) s
  end.
Fixpoint rebuild_loop (l : list bytes) (s0 : MemDag) : M (list bytes) :=
  match l with
  | [] => ret []
  | hash :: l => let! x := stale s0 hash in let! rest := rebuild_loop l s0 in ret (if x : bool then hash :: rest else rest)
  end.
Definition rebuildTempdb : M unit :=
  let! s := gets id in
  let! to_del := rebuild_loop (map_to_list (tempdb s)).*1 s in
  modify (fun s => fold_left (fun s h =>
    match tempdb s !! h with
    | Some temp => with_chain (chainUnits s) (delete h (tempdb s)) (Clear_at (ct_Tempdb temp) s)
    | None => s
    end) to_del s).

(** ** Making units stable *)

(** A range loop that deletes: the keys as they stood, those deleted meanwhile left out.  The map
    [chain_units] is a copy that the calls share; [fuel] bounds their depth. *)
Fixpoint removeUnitAndChildren (fuel : nat) (chain_units : gmap bytes (option U)) (hash : bytes) : M (gmap bytes (option U)) :=
  match fuel with
  | O => panic
  | S fuel =>
      foldM (fun chain_units '(h, _) =>
        match chain_units !! h with
        | None => ret chain_units
        | Some unit_ =>
            let! unit_ := deref unit_ in
            if NumberU64 unit_ =? 0 then ret chain_units
            else if bytes_equal h hash then
              let txs := Transactions unit_ in
              (if 1 <? len txs then go (ResetPendingTxs txs) else ret tt) ;;;
              modify (fun s => with_chain (delete h (chainUnits s)) (tempdb s) s) ;;;
              ret (delete h chain_units)
            else
              let! parent := parent0 unit_ in
              if bytes_equal parent hash then removeUnitAndChildren fuel chain_units h else ret chain_units
        end) (go_range chain_units) chain_units
  end.

(** The parents first; what becomes of them is not looked at. *)
Fixpoint setNextStableUnit (fuel : nat) (chain_units : gmap bytes (option U)) (unit_ : option U) : M bool :=
  match fuel with
  | O => panic
  | S fuel =>
      let! u := deref unit_ in
      let hash := Hash u in
      let height := NumberU64 u in
      let! stable := gets stableUnitHash in
      if bytes_equal hash stable then ret false else
      let! parentHash := parent0 u in
      (match chain_units !! parentHash with
       | Some parentUnit => setNextStableUnit fuel chain_units parentUnit ;;; ret tt
       | None => ret tt
       end) ;;;
      let! headerOnly := gets saveHeaderOnly in
      let! err := saveUnit headerOnly Stable u in
      match err with
      | Some _ => ret false
      | None =>
          (if negb headerOnly && (1 <? len (Transactions u)) then go (SendStoredTxs (Transactions u)) else ret tt) ;;;
          modify (fun s => with_chain (delete hash (chainUnits s)) (tempdb s) s) ;;;
          modify (with_stable hash height) ;;;
          ret true
      end
  end.

(** Units as low as the new stable one, in the order of a range, with what hangs on them. *)
Definition drop_forks (chain_units : gmap bytes (option U)) (hash : bytes) (height : Z) : M unit :=
  each (fun '(_, funit) =>
    let! u := deref funit in
    if (NumberU64 u <=? height) && negb (bytes_equal (Hash u) hash) then
      let! allChainUnits := gets getChainUnits in
      removeUnitAndChildren (S (size allChainUnits)) allChainUnits (Hash u) ;;; ret tt
    else ret tt) (go_range chain_units).
Definition setStableUnit (hash : bytes) (height : Z) : M bool :=
  let! stableHeight := gets stableUnitHeight in
  if negb (stableHeight <? height) then ret false else
  let! chain_units := gets getChainUnits in
  match chain_units !! hash with
  | None => ret false
  | Some unit_ =>
      let! saved := setNextStableUnit (S (size chain_units)) chain_units unit_ in
      if negb saved then ret false else
      go (DelHeightUnitsAndTemp height) ;;;
      drop_forks chain_units hash height ;;;
      go (RemoveLowOrphanUnit height) ;;;
      ret true
  end.

Definition checkUnitIrreversibleWithGroupSign (u : U) : bool :=
  let groupSign := GetGroupSign u in
  if len groupSign =? 0 then false else
  if len (GetGroupPubKeyByte u) =? 0 then false else
  match UnmarshalBinary (GetGroupPubKeyByte u) with
  | None => false
  | Some pubKey => bls_Verify pubKey (Hash u) groupSign
  end.

(** The number that [threshold] of the mediators have confirmed. *)
Definition confirmed_number (threshold_ : Z) (nums : list Z) : M (option Z) :=
  let offset := len nums - threshold_ in
  if negb (0 <? threshold_) || (offset <? 0) then ret None else
  let '(nums, r) := Element (E := mem_error) Z.ltb offset nums in
  let! _ := lift r in
  let! n := get (index nums offset) in
  ret (Some (uint64 n)).
Definition checkStableCondition (tempDB : Entry) (unit_ : U) : M bool :=
  if checkUnitIrreversibleWithGroupSign unit_ then setStableUnit (Hash unit_) (NumberU64 unit_) else
  let! t := gets threshold in
  let! d := gets (fun s => contents s (ct_Tempdb tempDB)) in
  let! n := confirmed_number t (LastConfirmedUnitNums d) in
  match n with
  | None => ret false
  | Some newLastStableUnitNum =>
      let! stable := gets stableUnitHeight in
      if negb (stable <? newLastStableUnitNum) then ret false else
      match GetHeaderByNumber d (GetAssetId unit_) newLastStableUnitNum with
      | None => ret false
      | Some (hash, number) => setStableUnit hash number
      end
  end.

(** ** Adding a unit *)

(** The check of a unit that came from elsewhere. *)
Definition check_unit (temp : Entry) (unit_ : U) (isGenerate : bool) : M unit :=
  if isGenerate then ret tt else
  let! validateCode := validate (ct_Tempdb temp) unit_ in
  if validateCode =? TxValidationCode_VALID then ret tt
  else go (ResetPendingTxs (Transactions unit_)) ;;; throw (ValidateError validateCode).

Definition store_unit (uHash : bytes) (e : Entry) : M unit :=
  modify (fun s => with_chain (<[uHash := e]> (chainUnits s)) (<[uHash := e]> (tempdb s)) s).

(** A child of the main chain's tip; [inter] is the parent among the units of the tree. *)
Definition extend_main (inter : option Entry) (unit_ : U) (isGenerate : bool) : M unit :=
  let! parentHash := parent0 unit_ in
  let uHash := Hash unit_ in
  let height := NumberU64 unit_ in
  let! inter_temp := gets (fun s => tempdb s !! parentHash) in
  let! temp_db := match inter_temp with
                  | Some e => ret e
                  | None => NewChainTempDb (match inter with Some p_temp => ct_Tempdb p_temp | None => Stable end)
                  end in
  check_unit temp_db unit_ isGenerate ;;;
  let! (tempDB, err) := ChainTempDb_AddUnit temp_db (Some unit_) in
  match err with
  | Some e => throw (SaveError e)
  | None =>
      store_unit uHash tempDB ;;;
      (match inter_temp with
       | Some _ =>
           modify (fun s => with_chain (chainUnits s) (delete parentHash (tempdb s)) s) ;;;
           modify (setLastMainchainUnit (Some unit_)) ;;;
           checkStableCondition tempDB unit_ ;;; ret tt
       | None => ret tt
       end) ;;;
      if 0 <? len (Transactions unit_) then go (SetPendingTxs uHash height (Transactions unit_)) else ret tt
  end.

(** The observers see the change at once. *)
Definition switchMainChain (newUnit : U) : M unit :=
  let! chain_units := gets getChainUnits in
  let! forks_units := getForkUnits newUnit in
  let! chain_units := foldM (fun chain_units m_u => let! u := deref m_u in ret (delete (Hash u) chain_units)) forks_units chain_units in
  each (fun '(_, un_unit) => let! u := deref un_unit in
    if 1 <? len (Transactions u) then go (ResetPendingTxs (Transactions u)) else ret tt) (go_range chain_units) ;;;
  each (fun unit_ => let! u := deref unit_ in
    if 1 <? len (Transactions u) then go (SetPendingTxs (Hash u) (NumberU64 u) (Transactions u)) else ret tt) forks_units ;;;
  let! oldUnit := gets lastMainChainUnit in
  modify (setLastMainchainUnit (Some newUnit)) ;;;
  go (SwitchMainChainEvent oldUnit (Some newUnit)).

(** A child of another unit.  Without a temporary database the branch is saved into a new one; the
    errors of saving are dropped. *)
Definition extend_fork (unit_ : U) (isGenerate : bool) : M unit :=
  let! parentHash := parent0 unit_ in
  let uHash := Hash unit_ in
  let height := NumberU64 unit_ in
  let! inter_main := gets (fun s => tempdb s !! parentHash) in
  let! main_temp := match inter_main with
                    | Some e => ret e
                    | None =>
                        let! main_temp := NewChainTempDb Stable in
                        let! forks := getForkUnits unit_ in
                        foldM (fun main_temp u => let! (main_temp, _) := ChainTempDb_AddUnit main_temp u in ret main_temp) (removelast forks) main_temp
                    end in
  check_unit main_temp unit_ isGenerate ;;;
  let! (temp, _) := ChainTempDb_AddUnit main_temp (Some unit_) in
  modify (fun s => with_chain (chainUnits s) (delete parentHash (tempdb s)) s) ;;;
  store_unit uHash temp ;;;
  let! last := gets lastMainChainUnit in
  let! last := deref last in
  if NumberU64 last <? height then switchMainChain unit_ else ret tt.

(** The error of a call that is not looked at. *)
Definition ignore {A} (m : M A) : M unit :=
  fun s => match m s with (s', Panic) => (s', Panic) | (s', _) => (s', Ok tt) end.

Definition processOrphan (add : U -> bool -> M (Ref * bool)) (unitHash : bytes) (isProduce : bool) : M unit :=
  let! orphans := getOrphanUnits in
  match orphans !! unitHash with
  | None => ret tt
  | Some unit_ => modify (fun s => with_orphans (delete unitHash (orphanUnits s)) (orphanUnitsParants s) s) ;;; ignore (add unit_ isProduce)
  end.

(** The repositories of the main chain's tip, and whether the unit is an orphan; [fuel] bounds the
    orphans that are added on the way. *)
Fixpoint addUnit (fuel : nat) (unit_ : U) (isGenerate : bool) : M (Ref * bool) :=
  match fuel with
  | O => panic
  | S fuel =>
      let! parentHash := parent0 unit_ in
      let uHash := Hash unit_ in
      let! inter := gets (fun s => chainUnits s !! parentHash) in
      let! stable := gets stableUnitHash in
      let! isOrphan :=
        if bool_decide (is_Some inter) || bytes_equal parentHash stable then
          let! last := gets lastMainChainUnit in
          let! last := deref last in
          (if bytes_equal parentHash (Hash last) then extend_main inter unit_ isGenerate else extend_fork unit_ isGenerate) ;;;
          let! next := gets (fun s => orphanUnitsParants s !! uHash) in
          match next with
          | Some next_hash =>
              modify (fun s => with_orphans (orphanUnits s) (delete uHash (orphanUnitsParants s)) s) ;;;
              processOrphan (addUnit fuel) next_hash isGenerate ;;;
              ret false
          | None => ret false
          end
        else
          let! last := gets lastMainChainUnit in
          let! _ := deref last in                     (* its hash is logged *)
          modify (fun s => with_orphans (<[uHash := unit_]> (orphanUnits s)) (<[parentHash := uHash]> (orphanUnitsParants s)) s) ;;;
          ret true in
      addUnitHeight unit_ ;;;
      let! last := gets lastMainChainUnit in
      let! last := deref last in
      let! inter_tmp := gets (fun s => chainUnits s !! Hash last) in
      match inter_tmp with
      | None => let! temp := NewChainTempDb Stable in ret (ct_Tempdb temp, isOrphan)
      | Some tmp => ret (ct_Tempdb tmp, isOrphan)
      end
  end.

(** [None]: the unit was too old or is there already. *)
Definition AddUnit (unit_ : option U) (isGenerate : bool) : M (option Ref) :=
  match unit_ with
  | None => throw ErrNullPoint
  | Some u =>
      let! stable := gets stableUnitHeight in
      if negb (stable <? NumberU64 u) then go (ResetPendingTxs (Transactions u)) ;;; ret None else
      let! chain_units := gets getChainUnits in
      if bool_decide (is_Some (chain_units !! Hash u)) then ret None else
      let! fuel := gets (fun s => S (size (orphanUnits s))) in
      let! (r, isOrphan) := addUnit fuel u isGenerate in
      (if negb isOrphan then go SendToGroupSign else ret tt) ;;;
      ret (Some r)
  end.

(** ** The other ways to a stable unit *)

(** The signature goes into a copy of the header, saved over the unit's. *)
Definition SetUnitGroupSign (uHash groupSign : bytes) : M unit :=
  let! unit_temp := getChainUnit uHash in
  let! u := deref (ct_Unit unit_temp) in
  let! stable := gets stableUnitHeight in
  if negb (stable <? NumberU64 u) then ret tt else
  let! ok := setStableUnit uHash (NumberU64 u) in
  if negb ok then ret tt else
  let! err := save_at Stable (fun d => rep_SaveHeader d (SetGroupSign groupSign u)) in
  match err with
  | Some e => throw (SaveError e)
  | None => go SendToGroupSign
  end.

Definition AddStableUnit (unit_ : U) : M unit :=
  let! code := (fun s => let '(c, code) := ValidateUnitExceptGroupSig (cache s) (contents s Stable) unit_ in (with_cache c s, Ok code)) in
  if negb (code =? TxValidationCode_VALID) then throw (ValidateError code) else
  let! headerOnly := gets saveHeaderOnly in
  let! err := saveUnit headerOnly Stable unit_ in
  match err with
  | Some e => throw (SaveError e)
  | None => modify (with_stable (Hash unit_) (NumberU64 unit_))
  end.

(** The header counts as stable before it is saved. *)
Definition SaveHeader (header_ : U) : M unit :=
  modify (with_stable (Hash header_) (NumberU64 header_)) ;;;
  let! err := save_at Stable (fun d => SaveNewestHeader d header_) in
  match err with
  | Some e => throw (SaveError e)
  | None => ret tt
  end.

(** [newest] is what GetNewestUnit finds, [lookup] GetUnit or, for headers only, GetHeaderByHash;
    without a newest unit the hash is zero.  [None]: the stable unit is not in the database. *)
Definition NewMemDag (threshold_ : Z) (headerOnly : bool) (d : Db) (c : Cache) (newest : option (bytes * Z)) (lookup : bytes -> option U) : option MemDag :=
  let fresh stablehash index stableUnit :=
    let temp := mkChainTemp (Temp 0) stableUnit in
    Some (mkDag stablehash index stableUnit threshold_ ∅ ∅ ∅ {[ stablehash := temp ]} {[ stablehash := temp ]} headerOnly d [(no_writes, Stable)] c []) in
  match newest with
  | None => fresh zeroHash 0 None
  | Some (stablehash, index) => match lookup stablehash with None => None | Some u => fresh stablehash index (Some u) end
  end.

(** ** Runs *)

(** The jobs that touch the tree; the others are for the transaction pool and the feeds. *)
Definition run_job (j : job U) : M unit :=
  match j with
  | DelHeightUnitsAndTemp height => delHeightUnitsAndTemp height
  | RemoveLowOrphanUnit lessThan => removeLowOrphanUnit lessThan
  | _ => ret tt
  end.

Inductive event := EAddUnit (u : option U) (isGenerate : bool) | EGroupSign (hash sign : bytes) | EThreshold (count : Z) | ERebuild | EJob (before after : list (job U)) (j : job U).
Definition handle (e : event) : M unit :=
  match e with
  | EAddUnit u g => AddUnit u g ;;; ret tt
  | EGroupSign hash sign => SetUnitGroupSign hash sign
  | EThreshold count => modify (SetStableThreshold count)
  | ERebuild => rebuildTempdb
  | EJob before after j => modify (with_jobs (before ++ after)) ;;; run_job j
  end.
(** A job that is run was there. *)
Definition enabled (e : event) (s : MemDag) : Prop := match e with EJob before after j => jobs s = before ++ j :: after | _ => True end.
End Machine.
End MemDag.
