(* ===== verification/MemDagProps.v ===== *)
(** * What the tree of unstable units promises

    Removing a unit with its descendants, whatever the order of the range; making a unit stable,
    which saves exactly the path to it and keeps exactly what stands above it; and what goes
    wrong: heights that leave a gap, branches whose saving failed. *)

From S2P Require Import Prelude AssetId Opcode Script Tx Unit ValPayment StateDb TempDb HeapSort Nth MemDag.
From Stdlib Require Import ZArith Lia Bool ZifyBool.
Import State Temp Heap Nth MemDag.
Local Open Scope Z_scope.

Module MemDagProps.

Lemma bytes_equal_eq a b : bytes_equal a b = true <-> a = b.
Proof. apply bool_decide_eq_true. Qed.
Lemma bytes_equal_refl a : bytes_equal a a = true.
Proof. by apply bytes_equal_eq. Qed.

(** ** Keys taken out of a map *)

Definition without {A : Type} (D : gset bytes) (m : gmap bytes A) : gmap bytes A := filter (fun e => e.1 ∉ D) m.

Lemma without_lookup {A : Type} (D : gset bytes) (m : gmap bytes A) k : without D m !! k = if bool_decide (k ∈ D) then None else m !! k.
Proof.
  unfold without. case_bool_decide as I.
  - apply map_lookup_filter_None_2. right. intros v _. simpl. tauto.
  - destruct (m !! k) as [v|] eqn:M.
    + apply map_lookup_filter_Some. split; [done|]. done.
    + apply map_lookup_filter_None_2. by left.
Qed.
Lemma without_Some {A : Type} (D : gset bytes) (m : gmap bytes A) k v : without D m !! k = Some v <-> m !! k = Some v /\ k ∉ D.
Proof. rewrite without_lookup. case_bool_decide; [split; [done|tauto]|tauto]. Qed.
Lemma without_none {A : Type} (m : gmap bytes A) : without ∅ m = m.
Proof. apply map_eq. intros k. rewrite without_lookup. by rewrite bool_decide_eq_false_2. Qed.
Lemma without_delete {A : Type} (D : gset bytes) (m : gmap bytes A) k : delete k (without D m) = without ({[k]} ∪ D) m.
Proof.
  apply map_eq. intros j. rewrite without_lookup. destruct (decide (k = j)) as [->|N].
  - rewrite lookup_delete_eq, bool_decide_eq_true_2 by set_solver. done.
  - rewrite lookup_delete_ne, without_lookup by done. rewrite (bool_decide_ext (j ∈ {[k]} ∪ D) (j ∈ D)) by set_solver. done.
Qed.
Lemma without_union {A : Type} (D E : gset bytes) (m : gmap bytes A) : without E (without D m) = without (E ∪ D) m.
Proof.
  apply map_eq. intros j. rewrite !without_lookup. destruct (decide (j ∈ E)) as [I|I].
  - rewrite !bool_decide_eq_true_2 by set_solver. done.
  - rewrite (bool_decide_eq_false_2 _ I). rewrite (bool_decide_ext (j ∈ E ∪ D) (j ∈ D)) by set_solver. done.
Qed.

Section Props.
Context {U : Type} `{!MemUnit U} `{!Repos U} `{!GoRange bytes (option U)} `{!GoRange bytes U}.
Implicit Types (s : MemDag) (u v : U).
Abbreviation units := (gmap bytes (option U)).

(** ** Trees *)

Definition child (m : units) (a h : bytes) : Prop :=
  exists u, m !! h = Some (Some u) /\ NumberU64 u <> 0 /\ ParentHash u !! 0%nat = Some a.
(** [h] is the unit [a] or below it. *)
Definition falls (m : units) (a h : bytes) : Prop :=
  (exists u, m !! h = Some (Some u) /\ NumberU64 u <> 0) /\ rtc (child m) a h.

(** The units are there, under their hashes, and those that are not the first have a parent, with
    a smaller number if it is there. *)
Record forest (m : units) : Prop := {
  f_named : forall h o, m !! h = Some o -> exists u, o = Some u /\ Hash u = h;
  f_parent : forall h u, m !! h = Some (Some u) -> NumberU64 u <> 0 -> exists p, ParentHash u !! 0%nat = Some p;
  f_grows : forall a h u v, child m a h -> m !! a = Some (Some u) -> m !! h = Some (Some v) -> NumberU64 u < NumberU64 v }.

Lemma child_without D m a h : child (without D m) a h <-> child m a h /\ h ∉ D.
Proof. unfold child. setoid_rewrite without_Some. naive_solver. Qed.
Lemma forest_without D m : forest m -> forest (without D m).
Proof.
  intros [F1 F2 F3]. split.
  - intros h o H. apply without_Some in H as [H _]. eauto.
  - intros h u H. apply without_Some in H as [H _]. eauto.
  - intros a h u v C A B. apply child_without in C as [C _]. apply without_Some in A as [A _], B as [B _]. eauto.
Qed.

Lemma child_unit m a h : child m a h -> exists v, m !! h = Some (Some v).
Proof. intros (v & H & _). by exists v. Qed.
(** Numbers grow along a path between units of the tree. *)
Lemma tc_grows m a h u v : forest m -> tc (child m) a h -> m !! a = Some (Some u) -> m !! h = Some (Some v) -> NumberU64 u < NumberU64 v.
Proof.
  intros F P. revert u. induction P as [a h C|a b h C P IH]; intros u Hu Hv; [by apply (f_grows m F a h)|].
  destruct (child_unit _ _ _ C) as [w Hw]. specialize (IH w Hw Hv). pose proof (f_grows m F _ _ _ _ C Hu Hw). lia.
Qed.
Lemma tc_end m a h : tc (child m) a h -> exists v, m !! h = Some (Some v).
Proof. induction 1 as [a h C|a b h C P IH]; [by apply child_unit in C|done]. Qed.
Lemma no_cycle m a : forest m -> ~ tc (child m) a a.
Proof. intros F P. destruct (tc_end _ _ _ P) as [v V]. pose proof (tc_grows m a a v v F P V V). lia. Qed.

Lemma falls_end m a h : falls m a h -> exists u, m !! h = Some (Some u).
Proof. intros [(u & H & _) _]. by exists u. Qed.
Lemma falls_child m a h k : falls m a h -> child m h k -> falls m a k.
Proof. intros [_ P] C. split; [destruct C as (u & H & N & _); eauto|]. eapply rtc_r; done. Qed.
Lemma falls_down m a c h : child m a c -> falls m c h -> falls m a h.
Proof. intros C [E P]. split; [done|]. by eapply rtc_l. Qed.

(** Taking out a set that is closed under children leaves, of what falls, what was not taken. *)
Definition closed (m : units) (D : gset bytes) : Prop := forall x y, x ∈ D -> child m x y -> y ∈ D.
Lemma rtc_stays m D a h : closed m D -> h ∉ D -> rtc (child m) a h -> rtc (child (without D m)) a h.
Proof.
  intros C N P. induction P as [h|a b h Cab P IH]; [done|]. specialize (IH N). eapply rtc_l; [|exact IH].
  apply child_without. split; [done|]. intros I. apply N. clear - C P I. induction P as [b|b x h Cb P IH]; [done|]. apply IH. by apply (C b).
Qed.
Lemma falls_without m D a h : closed m D -> falls (without D m) a h <-> falls m a h /\ h ∉ D.
Proof.
  intros C. unfold falls. split.
  - intros [(u & H & N) P]. apply without_Some in H as [H I]. split; [|done]. split; [by exists u|].
    eapply rtc_subrel; [|exact P]. intros x y. by rewrite child_without; intros [? _].
  - intros [[(u & H & N) P] I]. split; [exists u; by rewrite without_Some|]. by apply rtc_stays.
Qed.

(** No path below [a] has more than [n] steps. *)
Fixpoint below (m : units) (n : nat) (a : bytes) : Prop :=
  match n with
  | O => forall c, ~ child m a c
  | S n => forall c, child m a c -> below m n c
  end.
Lemma below_without D m n : forall a, below m n a -> below (without D m) n a.
Proof.
  induction n as [|n IH]; intros a B c C; apply child_without in C as [C _]; [by apply (B c)|]. by apply IH, B.
Qed.
Lemma below_restore m c : forest m -> forall n x, rtc (child m) c x -> below (without {[c]} m) n x -> below m n x.
Proof.
  intros F. assert (K : forall x y, rtc (child m) c x -> child m x y -> child (without {[c]} m) x y).
  { intros x y P C. apply child_without. split; [done|]. intros I. apply elem_of_singleton in I as ->. apply (no_cycle m c F). eapply tc_rtc_l; [exact P|by apply tc_once]. }
  induction n as [|n IH]; intros x P B y C; [by eapply (B y), K|]. apply IH; [by eapply rtc_r|]. by apply B, K.
Qed.
Lemma below_size n : forall m a, forest m -> (size m <= n)%nat -> below m n a.
Proof.
  induction n as [|n IH]; intros m a F L c C; destruct (child_unit _ _ _ C) as [v V].
  - assert (m = ∅) as -> by (apply map_size_empty_inv; lia). by rewrite lookup_empty in V.
  - apply below_restore with c; [done|done|]. apply IH; [by apply forest_without|].
    assert (E : without {[c]} m = delete c m) by (rewrite <- (without_none m) at 2; by rewrite without_delete, union_empty_r_L).
    rewrite E, map_size_delete_Some by (by exists (Some v)). lia.
Qed.

(** ** Removing a unit and its descendants *)

Definition is_reset (j : job U) : Prop := match j with ResetPendingTxs _ => True | _ => False end.
Definition dropped (D : gset bytes) (js : list (job U)) s : MemDag :=
  with_jobs (jobs s ++ js) (with_chain (without D (chainUnits s)) (tempdb s) s).
Lemma dropped_dropped D E js ks s : dropped E ks (dropped D js s) = dropped (E ∪ D) (js ++ ks) s.
Proof. unfold dropped, with_jobs, with_chain. simpl. by rewrite without_union, app_assoc. Qed.
Lemma dropped_none s : dropped ∅ [] s = s.
Proof. unfold dropped, with_jobs, with_chain. simpl. rewrite without_none, app_nil_r. by destruct s. Qed.

(** The units taken out so far while [a] is being removed. *)
Definition partly (m : units) (a : bytes) (D : gset bytes) : Prop :=
  (forall h, h ∈ D -> falls m a h) /\ (forall x y, x ∈ D -> x <> a -> child m x y -> y ∈ D).
Definition visited (m : units) (a : bytes) (D : gset bytes) (h : bytes) : Prop :=
  (h = a -> falls m a a -> a ∈ D) /\ (child m a h -> h ∈ D).

Lemma partly_all m a D : forest m -> partly m a D -> (forall h o, m !! h = Some o -> visited m a D h) -> forall h, h ∈ D <-> falls m a h.
Proof.
  intros F [S C] V h. split; [apply S|]. intros Fa. pose proof Fa as [[u [Hu Nu]] P]. apply rtc_inv in P as [<-|(c & Cc & P)]; [by apply (proj1 (V a (Some u) Hu))|].
  assert (Dc : c ∈ D) by (destruct (child_unit _ _ _ Cc) as [w W]; by apply (proj2 (V c (Some w) W))).
  assert (Nc : forall x, rtc (child m) c x -> x <> a) by (intros x Px ->; apply (no_cycle m a F); eapply tc_rtc_r; [by apply tc_once|exact Px]).
  clear Fa Hu Nu V S Cc. induction P as [c|c y h Cy P IH]; [done|]. apply IH.
  - apply (C c); [done|apply Nc; done|done].
  - intros x Px. apply Nc. by eapply rtc_l.
Qed.

(** Whatever the order of the range, what is removed is the unit and all that stands on it, and the
    recursion ends. *)
Lemma remove_all n : forall m a s, forest m -> below m n a ->
  exists D js, removeUnitAndChildren (S n) m a s = (dropped D js s, Ok (without D m)) /\ Forall is_reset js /\ forall h, h ∈ D <-> falls m a h.
Proof.
  induction n as [n IH] using lt_wf_ind. intros m a s F B. cbn [removeUnitAndChildren].
  match goal with |- context [foldM ?f _ _] => set (body := f) end.
  assert (Loop : forall l D js, (forall h o, (h, o) ∈ l -> m !! h = Some o) -> partly m a D -> Forall is_reset js ->
    exists D' js', foldM body l (without D m) (dropped D js s) = (dropped D' js' s, Ok (without D' m)) /\ partly m a D' /\ Forall is_reset js' /\
      D ⊆ D' /\ forall h o, (h, o) ∈ l -> visited m a D' h).
  { induction l as [|[h o] l IHl]; intros D js Hl P J.
    { exists D, js. split; [done|]. split; [done|]. split; [done|]. split; [done|]. intros h o I. by apply elem_of_nil in I. }
    assert (Step : exists D' js', body (without D m) (h, o) (dropped D js s) = (dropped D' js' s, Ok (without D' m)) /\ partly m a D' /\ Forall is_reset js' /\
      D ⊆ D' /\ visited m a D' h); [|].
    2: { destruct Step as (D1 & js1 & R1 & P1 & J1 & S1 & V1). destruct (IHl D1 js1) as (D2 & js2 & R2 & P2 & J2 & S2 & V2); [intros; apply Hl; by right|done|done|].
      exists D2, js2. cbn [foldM]. rewrite (bind_ok _ _ _ _ _ R1), R2. split; [done|]. split; [done|]. split; [done|]. split; [set_solver|].
      intros k x I. apply elem_of_cons in I as [E|I]; [|by eapply V2]. injection E as -> ->. destruct V1 as [Va Vb]. split; [intros; apply S2; auto|intros; apply S2; auto]. }
    assert (Hm : m !! h = Some o) by (apply Hl; left). destruct (f_named m F h o Hm) as (u & -> & Hh).
    unfold body. rewrite without_lookup. case_bool_decide as I.
    { exists D, js. split; [done|]. split; [done|]. split; [done|]. split; [done|]. split; [by intros <- _|done]. }
    rewrite Hm. cbn [deref]. unfold deref. cbn [get]. rewrite (bind_ok (ret u) _ _ _ u) by done. destruct (NumberU64 u =? 0) eqn:N0.
    { exists D, js. split; [done|]. split; [done|]. split; [done|]. split; [done|]. split.
      - intros -> [[w [W Nw]] _]. rewrite Hm in W. injection W as <-. lia.
      - intros (w & W & Nw & _). rewrite Hm in W. injection W as <-. lia. }
    assert (Nu : NumberU64 u <> 0) by lia. destruct (bytes_equal h a) eqn:Ha.
    { apply bytes_equal_eq in Ha as ->.
      set (ks := (if 1 <? len (Transactions u) then [ResetPendingTxs (Transactions u)] else []) : list (job U)).
      exists ({[a]} ∪ D), (js ++ ks). split.
      { assert (G : (if 1 <? len (Transactions u) then go (ResetPendingTxs (Transactions u)) else ret tt) (dropped D js s) = (with_jobs (jobs s ++ js ++ ks) (dropped D js s), Ok tt)).
        { unfold ks. destruct (1 <? len (Transactions u)); unfold go, modify, ret, dropped, with_jobs, with_chain; simpl; by rewrite ?app_nil_r, ?app_assoc. }
        rewrite (bind_ok _ _ _ _ _ G). rewrite (bind_ok _ _ _ (dropped ({[a]} ∪ D) (js ++ ks) s) tt).
        - unfold ret. by rewrite without_delete.
        - unfold modify, dropped, with_jobs, with_chain. simpl. by rewrite without_delete. }
      assert (Fa : falls m a a) by (split; [by exists u|done]). split; [|split; [|split; [set_solver|]]].
      - destruct P as [P1 P2]. split; [intros x Hx; apply elem_of_union in Hx as [Hx|Hx]; [by apply elem_of_singleton in Hx as ->|auto]|].
        intros x y Hx Nx C. apply elem_of_union in Hx as [Hx|Hx]; [by apply elem_of_singleton in Hx|]. apply elem_of_union_r. by apply (P2 x).
      - apply Forall_app. split; [done|]. unfold ks. destruct (1 <? len (Transactions u)); by repeat constructor.
      - split; [set_solver|]. intros C. exfalso. by apply (no_cycle m a F), tc_once. }
    assert (Na : h <> a) by (intros ->; by rewrite bytes_equal_refl in Ha).
    destruct (f_parent m F h u Hm Nu) as [p Hp]. unfold parent0. rewrite Hp. cbn [get]. rewrite (bind_ok (ret p) _ _ _ p) by done. destruct (bytes_equal p a) eqn:Pa.
    - apply bytes_equal_eq in Pa as ->. assert (C : child m a h) by (by exists u). destruct n as [|n]; [by apply B in C|].
      destruct (IH n ltac:(lia) (without D m) h (dropped D js s)) as (E & ks & R & K & EE); [by apply forest_without|by apply below_without, B|].
      exists (E ∪ D), (js ++ ks). rewrite R, dropped_dropped, without_union. split; [done|].
      assert (Eh : h ∈ E). { apply EE. split; [exists u; by rewrite without_Some|done]. }
      split; [|split; [by apply Forall_app|split; [set_solver|]]].
      + destruct P as [P1 P2]. assert (Up : forall x, x ∈ E -> falls m h x).
        { intros x Hx. apply EE in Hx as [[w [W Nw]] Q]. apply without_Some in W as [W _]. split; [by exists w|].
          eapply rtc_subrel; [|exact Q]. intros y z. by rewrite child_without; intros [? _]. }
        split; [intros x Hx; apply elem_of_union in Hx as [Hx|Hx]; [by apply (falls_down _ _ h), Up|auto]|].
        intros x y Hx Nx Cy. apply elem_of_union in Hx as [Hx|Hx]; [|apply elem_of_union_r; by apply (P2 x)].
        destruct (decide (y ∈ D)) as [Iy|Iy]; [set_solver|]. apply elem_of_union_l, EE. eapply falls_child; [by apply EE|]. by apply child_without.
      + split; [intros; congruence|]. intros _. set_solver.
    - exists D, js. split; [done|]. split; [done|]. split; [done|]. split; [done|]. split; [congruence|].
      intros (w & W & _ & Pw). rewrite Hm in W. injection W as <-. rewrite Hp in Pw. injection Pw as ->. by rewrite bytes_equal_refl in Pa. }
  destruct (Loop (go_range m) ∅ []) as (D & js & R & P & J & _ & V).
  - intros h o I. apply elem_of_map_to_list. by rewrite <- (go_range_perm m).
  - split; [intros h I|intros x y I]; set_solver.
  - constructor.
  - rewrite without_none, dropped_none in R. exists D, js. split; [done|]. split; [done|]. apply partly_all; [done|done|].
    intros h o Hm. apply (V h o). rewrite go_range_perm. by apply elem_of_map_to_list.
Qed.

(** ** Dropping the branches that lost *)

Lemma getChainUnits_lookup s h : getChainUnits s !! h = ct_Unit <$> chainUnits s !! h.
Proof. unfold getChainUnits. apply lookup_fmap. Qed.
Lemma getChainUnits_dropped D js s : getChainUnits (dropped D js s) = without D (getChainUnits s).
Proof.
  apply map_eq. intros h. rewrite getChainUnits_lookup, without_lookup, getChainUnits_lookup. cbn [dropped chainUnits with_jobs with_chain].
  rewrite without_lookup. by case_bool_decide.
Qed.

Lemma drop_forks_all snapshot hash height s : forest (getChainUnits s) -> (forall h o, snapshot !! h = Some o -> exists u, o = Some u /\ Hash u = h) ->
  exists D js, drop_forks snapshot hash height s = (dropped D js s, Ok tt) /\ Forall is_reset js /\
    forall h, h ∈ D <-> exists f u, snapshot !! f = Some (Some u) /\ NumberU64 u <= height /\ f <> hash /\ falls (getChainUnits s) f h.
Proof.
  intros F Named. unfold drop_forks. match goal with |- context [each ?f _] => set (body := f) end. set (m := getChainUnits s) in *.
  assert (Loop : forall l D js, (forall h o, (h, o) ∈ l -> snapshot !! h = Some o) -> closed m D -> Forall is_reset js ->
    exists D' js', each body l (dropped D js s) = (dropped D' js' s, Ok tt) /\ closed m D' /\ Forall is_reset js' /\
      forall h, h ∈ D' <-> h ∈ D \/ exists f u, (f, Some u) ∈ l /\ NumberU64 u <= height /\ f <> hash /\ falls m f h).
  { induction l as [|[f o] l IHl]; intros D js Hl C J.
    { exists D, js. split; [done|]. split; [done|]. split; [done|]. intros h. split; [by left|]. intros [?|(f & u & I & _)]; [done|]. by apply elem_of_nil in I. }
    destruct (Named f o) as (u & -> & Hf); [apply Hl; left|].
    assert (Step : exists E ks, body (f, Some u) (dropped D js s) = (dropped (E ∪ D) (js ++ ks) s, Ok tt) /\ Forall is_reset ks /\
      forall h, h ∈ E <-> NumberU64 u <= height /\ f <> hash /\ falls m f h /\ h ∉ D).
    { unfold body, deref. cbn [get]. rewrite (bind_ok (ret u) _ _ _ u) by done. rewrite Hf. destruct ((NumberU64 u <=? height) && negb (bytes_equal f hash)) eqn:L.
      - apply andb_true_iff in L as [L1 L2]. assert (Nf : f <> hash) by (intros ->; by rewrite bytes_equal_refl in L2).
        rewrite (bind_ok (gets getChainUnits) _ _ _ _ eq_refl). rewrite getChainUnits_dropped.
        destruct (remove_all (size (without D m)) (without D m) f (dropped D js s)) as (E & ks & R & K & EE);
          [by apply forest_without|apply below_size; [by apply forest_without|done]|].
        exists E, ks. fold m. rewrite (bind_ok _ _ _ _ _ R), dropped_dropped. split; [done|]. split; [done|]. intros h. rewrite EE, falls_without by done. split; [|tauto]. intros [? ?]. split; [lia|done].
      - exists ∅, []. split; [by rewrite union_empty_l_L, app_nil_r|]. split; [done|]. intros h. split; [set_solver|]. intros (L1 & L2 & _).
        apply andb_false_iff in L as [L|L]; [lia|]. apply negb_false_iff, bytes_equal_eq in L. congruence. }
    destruct Step as (E & ks & R & K & EE). assert (C' : closed m (E ∪ D)).
    { intros x y Hx Cxy. destruct (decide (y ∈ D)) as [Iy|Iy]; [set_solver|]. apply elem_of_union in Hx as [Hx|Hx]; [|apply elem_of_union_r; by apply (C x)].
      apply elem_of_union_l, EE. apply EE in Hx as (A1 & A2 & A3 & _). split; [done|]. split; [done|]. split; [by eapply falls_child|done]. }
    destruct (IHl (E ∪ D) (js ++ ks)) as (D' & js' & R' & C2 & J' & EE'); [intros; apply Hl; by right|done|by apply Forall_app|].
    exists D', js'. cbn [each]. rewrite (bind_ok _ _ _ _ _ R). split; [done|]. split; [done|]. split; [done|]. intros h. rewrite EE', elem_of_union, EE. split.
    - intros [[(A1 & A2 & A3 & _)|I]|(g & v & I & A)]; [right; exists f, u; split; [left|done]|by left|right; exists g, v; split; [by right|done]].
    - intros [I|(g & v & I & A1 & A2 & A3)]; [by left; right|]. apply elem_of_cons in I as [I|I]; [|right; by exists g, v].
      injection I as -> ->. left. destruct (decide (h ∈ D)); [by right|by left]. }
  destruct (Loop (go_range snapshot) ∅ []) as (D & js & R & _ & J & EE).
  - intros h o I. apply elem_of_map_to_list. by rewrite <- (go_range_perm snapshot).
  - intros x y I. set_solver.
  - constructor.
  - rewrite dropped_none in R. exists D, js. split; [done|]. split; [done|]. intros h. rewrite EE. split.
    + intros [I|(f & u & I & A)]; [set_solver|]. exists f, u. split; [|done]. apply elem_of_map_to_list. by rewrite <- (go_range_perm snapshot).
    + intros (f & u & I & A). right. exists f, u. split; [|done]. rewrite go_range_perm. by apply elem_of_map_to_list.
Qed.

(** ** Saving the path *)

Definition save_one (headerOnly : bool) (d : Db) u : list kv * option string := if headerOnly then SaveNewestHeader d u else PushUnit d u.
(** The database after saving units one after another, if none fails. *)
Fixpoint save_path (headerOnly : bool) (us : list U) (d : Db) : option Db :=
  match us with
  | [] => Some d
  | u :: us => match save_one headerOnly d u with (ws, None) => save_path headerOnly us (write_all ws d) | (_, Some _) => None end
  end.
Lemma save_path_snoc ho us u : forall d d', save_path ho (us ++ [u]) d = Some d' ->
  exists d1 ws, save_path ho us d = Some d1 /\ save_one ho d1 u = (ws, None) /\ d' = write_all ws d1.
Proof.
  induction us as [|v us IH]; intros d d'; cbn [app save_path].
  - destruct (save_one ho d u) as [ws [e|]] eqn:E; [done|]. intros [= <-]. by exists d, ws.
  - destruct (save_one ho d v) as [ws [e|]]; [done|]. apply IH.
Qed.

(** The units from the stable one, exclusive, to [u]. *)
Inductive path (m : units) (stable : bytes) : list U -> U -> Prop :=
| path_first u : ParentHash u !! 0%nat = Some stable -> Hash u <> stable -> path m stable [u] u
| path_next us v u : path m stable us v -> m !! Hash v = Some (Some v) -> ParentHash u !! 0%nat = Some (Hash v) -> Hash u <> stable ->
    path m stable (us ++ [u]) u.

Definition sent (headerOnly : bool) u : list (job U) :=
  if negb headerOnly && (1 <? len (Transactions u)) then [SendStoredTxs (Transactions u)] else [].
(** One unit becomes stable. *)
Definition settle s u : MemDag :=
  with_stable (Hash u) (NumberU64 u) (with_chain (delete (Hash u) (chainUnits s)) (tempdb s)
    (with_jobs (jobs s ++ sent (saveHeaderOnly s) u) (with_store (write_all (save_one (saveHeaderOnly s) (db s) u).1 (db s)) (temps s) s))).
Definition settle_all (us : list U) s : MemDag := fold_left settle us s.

Lemma contents_stable s : contents s Stable = db s.
Proof. unfold contents. by destruct (length (temps s)). Qed.

(** The parents are saved first, whatever the fuel left. *)
Lemma setNext_path m stable us u : path m stable us u -> (forall o, m !! stable = Some o -> exists w, o = Some w /\ Hash w = stable) ->
  forall fuel s d', (length us < fuel)%nat -> stableUnitHash s = stable -> save_path (saveHeaderOnly s) us (db s) = Some d' ->
  setNextStableUnit fuel m (Some u) s = (settle_all us s, Ok true) /\ db (settle_all us s) = d'.
Proof.
  intros P Named. assert (Step : forall u s0 s ws, save_one (saveHeaderOnly s) (db s) u = (ws, None) -> saveHeaderOnly s0 = saveHeaderOnly s ->
    (let! err := saveUnit (saveHeaderOnly s0) Stable u in
     match err with
     | Some _ => ret false
     | None =>
         (if negb (saveHeaderOnly s0) && (1 <? len (Transactions u)) then go (SendStoredTxs (Transactions u)) else ret tt) ;;;
         modify (fun s => with_chain (delete (Hash u) (chainUnits s)) (tempdb s) s) ;;;
         modify (with_stable (Hash u) (NumberU64 u)) ;;;
         ret true
     end) s = (settle s u, Ok true)).
  { clear. intros u s0 s ws E ->. unfold settle. rewrite E. unfold saveUnit, save_at. unfold bind at 1. rewrite contents_stable.
    change (if saveHeaderOnly s then SaveNewestHeader (db s) u else PushUnit (db s) u) with (save_one (saveHeaderOnly s) (db s) u). rewrite E.
    cbn [write_at fst]. unfold sent. destruct (negb (saveHeaderOnly s) && _); unfold go, modify, ret, bind, with_stable, with_chain, with_store, with_jobs; simpl; by rewrite ?app_nil_r. }
  induction P as [u Pu Nu|us v u P IH Hv Pu Nu]; intros fuel s d' L St Sv; (destruct fuel as [|fuel]; [simpl in L; lia|]); cbn [setNextStableUnit];
    unfold deref; cbn [get]; rewrite (bind_ok (ret u) _ _ _ u) by done; rewrite (bind_ok (gets stableUnitHash) _ _ _ _ eq_refl), St;
    rewrite (proj1 (not_true_iff_false _) (fun E => Nu (proj1 (bytes_equal_eq _ _) E))); unfold parent0; rewrite Pu; cbn [get];
    rewrite (bind_ok (ret _) _ _ _ _ eq_refl).
  - assert (K : (match m !! stable with Some parentUnit => setNextStableUnit fuel m parentUnit ;;; ret tt | None => ret tt end) s = (s, Ok tt)).
    { destruct (m !! stable) as [o|] eqn:E; [|done]. destruct (Named o eq_refl) as (w & -> & Hw). destruct fuel as [|fuel]; [simpl in L; lia|].
      cbn [setNextStableUnit]. unfold deref; cbn [get]. unfold bind, ret, gets. by rewrite St, Hw, bytes_equal_refl. }
    rewrite (bind_ok _ _ _ _ _ K), (bind_ok (gets saveHeaderOnly) _ _ _ _ eq_refl).
    cbn [save_path] in Sv. destruct (save_one (saveHeaderOnly s) (db s) u) as [ws [e|]] eqn:E; [done|]. injection Sv as <-.
    rewrite (Step u s s ws E eq_refl). split; [done|]. cbn. by rewrite E.
  - rewrite length_app in L. simpl in L. apply save_path_snoc in Sv as (d1 & ws & S1 & E & ->).
    destruct (IH fuel s d1) as [R D1]; [lia|done|done|]. rewrite Hv.
    assert (K : (setNextStableUnit fuel m (Some v) ;;; ret tt) s = (settle_all us s, Ok tt)) by by rewrite (bind_ok _ _ _ _ _ R).
    rewrite (bind_ok _ _ _ _ _ K), (bind_ok (gets saveHeaderOnly) _ _ _ _ eq_refl).
    assert (Ho : saveHeaderOnly (settle_all us s) = saveHeaderOnly s) by (clear; revert s; induction us as [|x us IH]; intros s; [done|]; etransitivity; [apply (IH (settle s x))|done]).
    rewrite (Step u (settle_all us s) (settle_all us s) ws); [|by rewrite Ho, D1|done]. unfold settle_all. rewrite fold_left_app. split; [done|].
    change (write_all (save_one (saveHeaderOnly (settle_all us s)) (db (settle_all us s)) u).1 (db (settle_all us s)) = write_all ws d1). by rewrite Ho, D1, E.
Qed.

Definition hashes (us : list U) : gset bytes := list_to_set (Hash <$> us).
Lemma elem_hashes us h : h ∈ hashes us <-> exists x, x ∈ us /\ Hash x = h.
Proof. unfold hashes. rewrite elem_of_list_to_set, list_elem_of_fmap. naive_solver. Qed.

Lemma settle_all_fields us : forall s,
  chainUnits (settle_all us s) = without (hashes us) (chainUnits s) /\ tempdb (settle_all us s) = tempdb s /\ temps (settle_all us s) = temps s /\
  lastMainChainUnit (settle_all us s) = lastMainChainUnit s /\ orphanUnits (settle_all us s) = orphanUnits s.
Proof.
  induction us as [|u us IH]; intros s; [cbn; by rewrite without_none|]. destruct (IH (settle s u)) as (E1 & E2 & E3 & E4 & E5).
  change (settle_all (u :: us) s) with (settle_all us (settle s u)). rewrite E1, E2, E3, E4, E5. split; [|done].
  change (chainUnits (settle s u)) with (delete (Hash u) (chainUnits s)). rewrite <- (without_none (chainUnits s)) at 1.
  rewrite without_delete, without_union. f_equal. unfold hashes. cbn. set_solver.
Qed.
Lemma settle_all_units us s : getChainUnits (settle_all us s) = without (hashes us) (getChainUnits s).
Proof.
  apply map_eq. intros h. rewrite getChainUnits_lookup, without_lookup, getChainUnits_lookup, (proj1 (settle_all_fields us s)), without_lookup.
  by case_bool_decide.
Qed.
Lemma settle_all_last us u s m stable : path m stable us u ->
  stableUnitHash (settle_all us s) = Hash u /\ stableUnitHeight (settle_all us s) = NumberU64 u.
Proof. destruct 1; unfold settle_all; [done|]. by rewrite fold_left_app. Qed.

(** ** The invariant of the tree *)

(** A unit that is neither the stable one nor the first. *)
Definition live s u : Prop := NumberU64 u <> 0 /\ Hash u <> stableUnitHash s.

(** Units have their hashes as keys; every live one stands, with the next number, on the stable
    unit or on a live one; the stable unit may be there itself, its parent not. *)
Record tree_ok s : Prop := {
  t_named : forall h o, getChainUnits s !! h = Some o -> exists u, o = Some u /\ Hash u = h /\ 0 <= NumberU64 u;
  t_linked : forall h u, getChainUnits s !! h = Some (Some u) -> live s u -> exists p, ParentHash u !! 0%nat = Some p /\
    (p = stableUnitHash s /\ NumberU64 u = stableUnitHeight s + 1 \/
     exists v, getChainUnits s !! p = Some (Some v) /\ live s v /\ NumberU64 u = NumberU64 v + 1);
  t_stable : forall u, getChainUnits s !! stableUnitHash s = Some (Some u) -> NumberU64 u = stableUnitHeight s /\
    (NumberU64 u <> 0 -> exists p, ParentHash u !! 0%nat = Some p /\ forall v, getChainUnits s !! p = Some (Some v) -> NumberU64 v = 0);
  t_height : 0 <= stableUnitHeight s }.

Lemma live_high s : tree_ok s -> forall n h u, NumberU64 u <= n -> getChainUnits s !! h = Some (Some u) -> live s u -> stableUnitHeight s < NumberU64 u.
Proof.
  intros T. assert (K : forall k : nat, forall h u, NumberU64 u <= Z.of_nat k -> getChainUnits s !! h = Some (Some u) -> live s u -> stableUnitHeight s < NumberU64 u).
  { induction k as [|k IH]; intros h u L Hu Lu.
    - destruct (t_named s T h _ Hu) as (u' & [= <-] & _ & N). destruct Lu. lia.
    - destruct (t_linked s T h u Hu Lu) as (p & _ & [[_ E]|(v & Hv & Lv & E)]); [lia|]. pose proof (IH p v ltac:(lia) Hv Lv). lia. }
  intros n h u _ Hu Lu. destruct (t_named s T h _ Hu) as (u' & [= <-] & _ & N). apply (K (Z.to_nat (NumberU64 u)) h u); [lia|done|done].
Qed.
Lemma tree_live s h u : tree_ok s -> getChainUnits s !! h = Some (Some u) -> stableUnitHeight s < NumberU64 u -> live s u.
Proof.
  intros T Hu L. pose proof (t_height s T). split; [lia|]. intros E. destruct (t_named s T h _ Hu) as (u' & [= <-] & Hh & _).
  rewrite E in Hh. rewrite <- Hh in Hu. destruct (t_stable s T u Hu). lia.
Qed.

Lemma tree_forest s : tree_ok s -> forest (getChainUnits s).
Proof.
  intros T. split.
  - intros h o H. destruct (t_named s T h o H) as (u & ? & ? & _). eauto.
  - intros h u H N. destruct (t_named s T h _ H) as (u' & [= <-] & Hh & _). destruct (decide (Hash u = stableUnitHash s)) as [E|E].
    + rewrite <- Hh, E in H. destruct (proj2 (t_stable s T u H) N) as (p & ? & _). eauto.
    + destruct (t_linked s T h u H) as (p & ? & _); [by split|]. eauto.
  - intros a h u v (w & Hw & Nw & Pw) Hu Hv. rewrite Hv in Hw. injection Hw as <-. destruct (t_named s T h _ Hv) as (v' & [= <-] & Hh & Nv0).
    destruct (t_named s T a _ Hu) as (u' & [= <-] & Ha & Nu0).
    destruct (decide (Hash v = stableUnitHash s)) as [E|E].
    + rewrite <- Hh, E in Hv. destruct (proj2 (t_stable s T v Hv) Nw) as (p & Hp & Hz). rewrite Pw in Hp. injection Hp as <-. rewrite (Hz u Hu). lia.
    + destruct (t_linked s T h v Hv) as (p & Hp & Or); [by split|]. rewrite Pw in Hp. injection Hp as <-. destruct Or as [[-> E2]|(x & Hx & _ & E2)].
      * destruct (t_stable s T u Hu). lia.
      * rewrite Hu in Hx. injection Hx as <-. lia.
Qed.

(** The path to a live unit; the numbers grow along it. *)
Lemma path_exists s : tree_ok s -> forall h u, getChainUnits s !! h = Some (Some u) -> live s u ->
  exists us, path (getChainUnits s) (stableUnitHash s) us u /\ NoDup (Hash <$> us) /\
    forall x, x ∈ us -> getChainUnits s !! Hash x = Some (Some x) /\ live s x /\ (x = u \/ NumberU64 x < NumberU64 u).
Proof.
  intros T. assert (K : forall k : nat, forall h u, NumberU64 u <= Z.of_nat k -> getChainUnits s !! h = Some (Some u) -> live s u ->
    exists us, path (getChainUnits s) (stableUnitHash s) us u /\ NoDup (Hash <$> us) /\
      forall x, x ∈ us -> getChainUnits s !! Hash x = Some (Some x) /\ live s x /\ (x = u \/ NumberU64 x < NumberU64 u)).
  { induction k as [|k IH]; intros h u L Hu Lu; destruct (t_named s T h _ Hu) as (u' & [= <-] & Hh & N); [destruct Lu; lia|].
    destruct (t_linked s T h u Hu Lu) as (p & Hp & [[-> E]|(v & Hv & Lv & E)]).
    - exists [u]. split; [constructor; [done|apply Lu]|]. split; [apply NoDup_singleton|]. intros x Hx. apply list_elem_of_singleton in Hx as ->. rewrite Hh. auto.
    - destruct (IH p v ltac:(lia) Hv Lv) as (us & P & ND & Q). destruct (t_named s T p _ Hv) as (v' & [= <-] & Hpv & _).
      exists (us ++ [u]). split; [eapply path_next; [exact P|by rewrite Hpv|by rewrite Hpv|apply Lu]|].
      split.
      { rewrite fmap_app. apply NoDup_app. split; [done|]. split; [|apply NoDup_singleton]. intros j I J. apply list_elem_of_singleton in J as ->.
        apply list_elem_of_fmap in I as (x & Ex & I). destruct (Q x I) as (A & _ & B). rewrite <- Ex, Hh, Hu in A. injection A as <-. destruct B as [->|B]; lia. }
      intros x Hx. apply elem_of_app in Hx as [Hx|Hx].
      + destruct (Q x Hx) as (A & A2 & B). split; [done|]. split; [done|]. right. destruct B as [->|B]; lia.
      + apply list_elem_of_singleton in Hx as ->. rewrite Hh. auto. }
  intros h u Hu Lu. destruct (t_named s T h _ Hu) as (u' & [= <-] & _ & N). apply (K (Z.to_nat (NumberU64 u)) h u); [lia|done|done].
Qed.
Lemma path_last m stable us u : path m stable us u -> u ∈ us.
Proof. destruct 1; [left|apply elem_of_app; right; left]. Qed.
Lemma path_short m stable us u : path m stable us u -> (forall x, x ∈ us -> m !! Hash x = Some (Some x)) -> NoDup (Hash <$> us) -> (length us <= size m)%nat.
Proof.
  intros P In ND. rewrite <- (length_fmap Hash us), <- (size_list_to_set (C := gset bytes) _ ND), <- (size_dom m). apply subseteq_size.
  intros h I. apply elem_of_list_to_set, list_elem_of_fmap in I as (x & -> & I). apply elem_of_dom. rewrite (In x I). by eexists.
Qed.

(** ** What stays *)

(** A unit has one parent. *)
Lemma child_unique (m : units) a b h : child m a h -> child m b h -> a = b.
Proof. intros (u & Hu & _ & Pu) (v & Hv & _ & Pv). rewrite Hu in Hv. injection Hv as <-. rewrite Pu in Pv. by injection Pv. Qed.

Lemma tc_back (m : units) a h : tc (child m) a h -> exists z, rtc (child m) a z /\ child m z h.
Proof. induction 1 as [a h C|a b h C _ (z & P & D)]; [by exists a|]. exists z. split; [by eapply rtc_l|done]. Qed.
(** A branch that reaches above [hash] without passing through it starts there. *)
Lemma around (m : units) D hash f h : hash ∈ D -> rtc (child (without D m)) f h -> tc (child m) hash h -> rtc (child m) hash f.
Proof.
  intros I P. revert h P. refine (rtc_ind_r (fun h => tc (child m) hash h -> rtc (child m) hash f) f _ _); [apply tc_rtc|].
  intros y h Py Ch IH Q. apply child_without in Ch as [Ch Nh].
  assert (R : rtc (child m) hash y) by (apply tc_back in Q as (z & Q & Cz); by rewrite <- (child_unique _ _ _ _ Cz Ch)).
  apply rtc_tc in R as [<-|R]; [|by apply IH]. apply rtc_tc in Py as [<-|Py]; [done|]. exfalso.
  apply tc_back in Py as (z & _ & Cy). by apply child_without in Cy as [_ Cy].
Qed.

(** Above [height], a live unit stands on one of that height. *)
Lemma ancestor_at s height : tree_ok s -> stableUnitHeight s < height -> forall h v, getChainUnits s !! h = Some (Some v) -> live s v -> height <= NumberU64 v ->
  exists a w, getChainUnits s !! a = Some (Some w) /\ live s w /\ NumberU64 w = height /\ rtc (child (getChainUnits s)) a h /\
    forall x y, getChainUnits s !! x = Some (Some y) -> tc (child (getChainUnits s)) a x -> height < NumberU64 y.
Proof.
  intros T Hs. assert (K : forall k : nat, forall h v, NumberU64 v = height + Z.of_nat k -> getChainUnits s !! h = Some (Some v) -> live s v ->
    exists a w, getChainUnits s !! a = Some (Some w) /\ live s w /\ NumberU64 w = height /\ rtc (child (getChainUnits s)) a h).
  { induction k as [|k IH]; intros h v N Hv Lv; [exists h, v; split; [done|]; split; [done|]; split; [lia|done]|].
    destruct (t_linked s T h v Hv Lv) as (p & Hp & [[_ E]|(x & Hx & Lx & E)]); [lia|].
    destruct (IH p x ltac:(lia) Hx Lx) as (a & w & A & B & C & D). exists a, w. split; [done|]. split; [done|]. split; [done|].
    eapply rtc_r; [exact D|]. exists v. split; [done|]. split; [apply Lv|done]. }
  intros h v Hv Lv L. destruct (K (Z.to_nat (NumberU64 v - height)) h v ltac:(lia) Hv Lv) as (a & w & A & B & C & D).
  exists a, w. do 4 (split; [done|]). intros x y Hy Q. rewrite <- C. by apply (tc_grows _ a x w y (tree_forest s T)).
Qed.

Lemma rtc_avoids (m : units) D a h : (forall x, tc (child m) a x -> x ∉ D) -> rtc (child m) a h -> rtc (child (without D m)) a h.
Proof.
  intros N P. revert h P. refine (rtc_ind_r (fun h => rtc (child (without D m)) a h) a _ _); [done|]. intros y h Py C IH.
  eapply rtc_r; [exact IH|]. apply child_without. split; [done|]. apply N. eapply tc_rtc_l; [exact Py|by apply tc_once].
Qed.

(** Of a tree, what neither becomes stable nor is dropped: what stands on the new stable unit, and
    the very first unit. *)
Lemma stays_iff s hash u us D : tree_ok s -> getChainUnits s !! hash = Some (Some u) -> stableUnitHeight s < NumberU64 u -> path (getChainUnits s) (stableUnitHash s) us u ->
  (forall x, x ∈ us -> getChainUnits s !! Hash x = Some (Some x) /\ live s x /\ (x = u \/ NumberU64 x < NumberU64 u)) ->
  (forall h, h ∈ D <-> exists f w, getChainUnits s !! f = Some (Some w) /\ NumberU64 w <= NumberU64 u /\ f <> hash /\ falls (without (hashes us) (getChainUnits s)) f h) ->
  forall h v, getChainUnits s !! h = Some (Some v) -> h ∉ D ∪ hashes us <-> NumberU64 v = 0 \/ tc (child (getChainUnits s)) hash h.
Proof.
  intros T Hu Lu P Q DD h v Hv. set (m := getChainUnits s) in *. pose proof (tree_forest s T) as F. fold m in F.
  destruct (t_named s T hash _ Hu) as (u' & [= <-] & Eu & _). destruct (t_named s T h _ Hv) as (v' & [= <-] & Ev & Nv).
  assert (Hash_in : hash ∈ hashes us) by (apply elem_hashes; exists u; split; [by eapply path_last|done]).
  assert (Low : forall k w, k ∈ hashes us -> m !! k = Some (Some w) -> NumberU64 w <> 0 /\ NumberU64 w <= NumberU64 u /\ (k <> hash -> NumberU64 w < NumberU64 u)).
  { intros k w I W. apply elem_hashes in I as (x & I & <-). destruct (Q x I) as (A & [Nx _] & B). rewrite W in A. injection A as ->. split; [done|].
    destruct B as [->|B]; [split; [lia|done]|lia]. }
  rewrite not_elem_of_union. split.
  - intros [ND NH]. destruct (decide (NumberU64 v = 0)) as [|N0]; [by left|right].
    assert (Self : NumberU64 v <= NumberU64 u -> h <> hash -> False).
    { intros L N. apply ND, DD. exists h, v. split; [done|]. split; [done|]. split; [done|]. split; [exists v; by rewrite without_Some|done]. }
    destruct (decide (h = hash)) as [->|Nh]; [done|]. destruct (decide (NumberU64 v <= NumberU64 u)) as [L|L]; [by destruct (Self L Nh)|].
    assert (Lv : live s v) by (apply (tree_live s h v T Hv); lia).
    destruct (ancestor_at s (NumberU64 u) T Lu h v Hv Lv ltac:(lia)) as (a & w & Hw & Lw & Ew & R & Above). destruct (decide (a = hash)) as [->|Na].
    + apply rtc_tc in R as [->|R]; [done|done].
    + exfalso. apply ND, DD. exists a, w. split; [done|]. split; [lia|]. split; [done|]. split; [exists v; by rewrite without_Some|].
      apply rtc_avoids; [|done]. intros x C I. destruct (tc_end _ _ _ C) as [y Y]. destruct (Low x y I Y) as (_ & Ly & _). pose proof (Above x y Y C). lia.
  - intros Or. assert (Hi : NumberU64 v <> 0 -> NumberU64 u < NumberU64 v) by (intros N; destruct Or as [?|C]; [done|by apply (tc_grows m hash h u v)]). split.
    + intros I. apply DD in I as (f & w & Hw & L & Nf & [(x & X & Nx) R]). apply without_Some in X as [X _]. rewrite Hv in X. injection X as <-.
      destruct Or as [?|C]; [done|]. destruct (rtc_inv _ _ (around m _ hash f h Hash_in R C)) as [|(y & Cy & Ry)]; [done|].
      assert (K : tc (child m) hash f) by (eapply tc_rtc_r; [by apply tc_once|exact Ry]). pose proof (tc_grows m hash f u w F K Hu Hw). lia.
    + intros I. destruct (Low h v I Hv) as (N & L & _). specialize (Hi N). lia.
Qed.

(** C7: Making a unit stable saves exactly the units between the stable one and it, in order, and
    keeps in the tree exactly those that stand on it (and the very first unit): the units saved,
    those as low and all that stands on these are gone.  The result does not depend on the order
    in which Go ranges over its maps, and the tree stays well formed. *)
Theorem setStableUnit_spec s hash u : tree_ok s -> getChainUnits s !! hash = Some (Some u) -> stableUnitHeight s < NumberU64 u ->
  exists us, path (getChainUnits s) (stableUnitHash s) us u /\ forall d, save_path (saveHeaderOnly s) us (db s) = Some d ->
  exists s', setStableUnit hash (NumberU64 u) s = (s', Ok true) /\ stableUnitHash s' = hash /\ stableUnitHeight s' = NumberU64 u /\ db s' = d /\
    tempdb s' = tempdb s /\ temps s' = temps s /\ lastMainChainUnit s' = lastMainChainUnit s /\ tree_ok s' /\
    forall h o, getChainUnits s' !! h = Some o <-> exists v, o = Some v /\ getChainUnits s !! h = Some o /\ (NumberU64 v = 0 \/ tc (child (getChainUnits s)) hash h).
Proof.
  intros T Hu Lu. pose proof (tree_live s hash u T Hu Lu) as Liv. destruct (path_exists s T hash u Hu Liv) as (us & P & ND & Q). exists us. split; [done|].
  intros d Sv. destruct (t_named s T hash _ Hu) as (u' & [= <-] & Eu & _). set (m := getChainUnits s) in *.
  assert (L : (length us < S (size m))%nat) by (apply Nat.lt_succ_r; eapply path_short; [exact P|intros x I; by apply Q|done]).
  destruct (setNext_path m (stableUnitHash s) us u P) with (fuel := S (size m)) (s := s) (d' := d) as [R Ed]; [|done|done|done|].
  { intros o H. destruct (t_named s T _ o H) as (w & ? & ? & _). eauto. }
  set (s1 := settle_all us s) in *. set (s2 := with_jobs (jobs s1 ++ [DelHeightUnitsAndTemp (NumberU64 u)]) s1).
  assert (E2 : getChainUnits s2 = without (hashes us) m) by apply settle_all_units.
  destruct (drop_forks_all m hash (NumberU64 u) s2) as (D & js & R2 & _ & DD).
  { rewrite E2. by apply forest_without, tree_forest. }
  { intros h o H. destruct (t_named s T _ o H) as (w & ? & ? & _). eauto. }
  rewrite E2 in DD. pose proof (stays_iff s hash u us D T Hu Lu P Q DD) as Stay.
  set (s3 := with_jobs (jobs (dropped D js s2) ++ [RemoveLowOrphanUnit (NumberU64 u)]) (dropped D js s2)). exists s3.
  destruct (settle_all_last us u s m _ P) as [H1 H2]. destruct (settle_all_fields us s) as (_ & F2 & F3 & F4 & _). fold s1 in H1, H2, F2, F3, F4.
  assert (E3 : getChainUnits s3 = without (D ∪ hashes us) m) by (change (getChainUnits s3) with (getChainUnits (dropped D js s2)); by rewrite getChainUnits_dropped, E2, without_union).
  assert (In3 : forall h o, getChainUnits s3 !! h = Some o <-> exists v, o = Some v /\ m !! h = Some o /\ (NumberU64 v = 0 \/ tc (child m) hash h)).
  { intros h o. rewrite E3, without_Some. split.
    - intros [H N]. destruct (t_named s T h o H) as (v & -> & _). exists v. split; [done|]. split; [done|]. by apply (Stay h v).
    - intros (v & -> & H & Or). split; [done|]. by apply (Stay h v). }
  split.
  { unfold setStableUnit. rewrite (bind_ok (gets stableUnitHeight) _ _ _ _ eq_refl). replace (negb (stableUnitHeight s <? NumberU64 u)) with false by lia.
    rewrite (bind_ok (gets getChainUnits) _ _ _ _ eq_refl). fold m. rewrite Hu, (bind_ok _ _ _ _ _ R). cbn [negb]. unfold go at 1.
    rewrite (bind_ok (modify _) _ s1 s2 tt) by done. rewrite (bind_ok _ _ _ _ _ R2). done. }
  split; [by rewrite <- Eu|]. split; [done|]. split; [done|]. split; [done|]. split; [done|]. split; [done|]. split; [|done].
  clear R R2. split.
  - intros h o H. apply In3 in H as (v & -> & H & _). by apply (t_named s T).
  - intros h v H [N0 Nh]. change (stableUnitHash s3) with (stableUnitHash s1) in Nh. rewrite H1, Eu in Nh.
    change (stableUnitHeight s3) with (stableUnitHeight s1). change (stableUnitHash s3) with (stableUnitHash s1). rewrite H1, H2, Eu.
    apply In3 in H as (v' & [= <-] & H & Or). destruct Or as [|C]; [done|]. pose proof (tc_grows m hash h u v (tree_forest s T) C Hu H) as G.
    assert (Lv : live s v) by (apply (tree_live s h v T H); lia). destruct (t_linked s T h v H Lv) as (p & Hp & Or). exists p. split; [done|].
    destruct (tc_back m hash h C) as (z & Rz & (x & Hx & _ & Px)). rewrite H in Hx. injection Hx as <-. rewrite Hp in Px. injection Px as <-.
    destruct Or as [[_ E]|(w & Hw & Lw & E)]; [lia|]. destruct (decide (p = hash)) as [->|Np].
    + left. split; [done|]. fold m in Hw. rewrite Hu in Hw. injection Hw as <-. done.
    + right. exists w. split; [|split; [|done]].
      * apply In3. exists w. split; [done|]. split; [done|]. right. apply rtc_tc in Rz as [->|Rz]; done.
      * split; [apply Lw|]. change (stableUnitHash s3) with (stableUnitHash s1). rewrite H1, Eu. destruct (t_named s T p _ Hw) as (w' & [= <-] & -> & _). done.
  - intros v H. change (stableUnitHash s3) with (stableUnitHash s1) in H. rewrite H1, Eu in H. apply In3 in H as (v' & [= <-] & H & Or). exfalso.
    destruct Or as [Z|C]; [|by apply (no_cycle m hash (tree_forest s T))]. rewrite Hu in H. injection H as <-. destruct Liv. done.
  - change (stableUnitHeight s3) with (stableUnitHeight s1). rewrite H2. pose proof (t_height s T). lia.
Qed.

(** ** The number that enough mediators confirmed *)

Lemma at_least_from (l : list Z) k (n : Z) : (forall i y, l !! i = Some y -> (k <= i)%nat -> n <= y) -> (length l - k <= length (List.filter (Z.leb n) l))%nat.
Proof.
  intros H. rewrite <- (take_drop k l) at 2. rewrite List.filter_app, length_app.
  assert (E : List.filter (Z.leb n) (drop k l) = drop k l).
  { apply forallb_filter_id, forallb_forall. intros y I. apply list_elem_of_In, list_elem_of_lookup in I as [i I]. rewrite lookup_drop in I. apply Z.leb_le, (H _ _ I). lia. }
  rewrite E, length_drop. lia.
Qed.
Lemma at_most_to (l : list Z) k (n : Z) : (forall i y, l !! i = Some y -> (i <= k)%nat -> y <= n) -> (length (List.filter (Z.ltb n) l) <= length l - S k)%nat.
Proof.
  intros H. rewrite <- (take_drop (S k) l) at 1. rewrite List.filter_app, length_app.
  assert (E : List.filter (Z.ltb n) (take (S k) l) = []).
  { destruct (List.filter _ _) as [|y l'] eqn:F; [done|]. assert (I : In y (List.filter (Z.ltb n) (take (S k) l))) by (rewrite F; by left).
    apply List.filter_In in I as [I L]. apply list_elem_of_In, list_elem_of_lookup in I as [i I]. pose proof (lookup_lt_Some _ _ _ I) as Li. rewrite length_take in Li.
    rewrite lookup_take_lt in I by lia. apply Z.ltb_lt in L. specialize (H i y I ltac:(lia)). lia. }
  rewrite E. cbn. etransitivity; [apply filter_length_le|]. by rewrite length_drop.
Qed.

(** C38: With less than 24 mediators, the number taken for stable is the greatest that the required
    count of mediators have confirmed: so many have confirmed it or a later one, and fewer a
    later one. *)
Theorem confirmed_number_spec (t : Z) (nums : list Z) s : 0 < t <= len nums -> len nums < 24 -> Forall (fun n => 0 <= n < 2 ^ 32) nums ->
  exists n, confirmed_number t nums s = (s, Ok (Some n)) /\ t <= len (List.filter (Z.leb n) nums) /\ len (List.filter (Z.ltb n) nums) < t.
Proof.
  unfold len. intros Rt L U32. unfold confirmed_number. fold (len nums). replace (negb (0 <? t) || (len nums - t <? 0)) with false by (unfold len; lia).
  destruct (Element_ok (E := mem_error) Z.ltb (len nums - t) nums) as (l' & x & R & P & X & Ord); [unfold len; lia|unfold len; lia|].
  rewrite R. unfold lift. rewrite (bind_ok _ _ s s tt) by done. unfold index. replace (len nums - t <? 0) with false by (unfold len; lia). rewrite X.
  exists x. pose proof (Permutation_length P) as Len. assert (Px : 0 <= x < 2 ^ 32).
  { rewrite Forall_forall in U32. apply U32. rewrite <- P. by apply list_elem_of_lookup_2 in X. }
  split; [unfold get, bind, ret; rewrite uint64_small by lia; done|].
  assert (C : forall f : Z -> bool, length (List.filter f nums) = length (List.filter f l')).
  { intros f. apply Permutation_length. clear - P. induction P as [|y l l2 P IH|y z l|l1 l2 l3 _ IH1 _ IH2]; cbn; [done| | |by rewrite IH2].
    - destruct (f y); [by constructor|done].
    - destruct (f y), (f z); try done. apply Permutation_swap. }
  rewrite !C. unfold len in *. split.
  - pose proof (at_least_from l' (Z.to_nat (Z.of_nat (length nums) - t)) x) as A. enough (forall i y, l' !! i = Some y -> (Z.to_nat (Z.of_nat (length nums) - t) <= i)%nat -> x <= y) as H by (specialize (A H); lia).
    intros i y Y Li. destruct (decide (i = Z.to_nat (Z.of_nat (length nums) - t))) as [->|N]; [rewrite X in Y; injection Y as ->; lia|].
    pose proof (proj2 (Ord i y Y) ltac:(lia)). lia.
  - pose proof (at_most_to l' (Z.to_nat (Z.of_nat (length nums) - t)) x) as A. enough (forall i y, l' !! i = Some y -> (i <= Z.to_nat (Z.of_nat (length nums) - t))%nat -> y <= x) as H by (specialize (A H); lia).
    intros i y Y Li. destruct (decide (i = Z.to_nat (Z.of_nat (length nums) - t))) as [->|N]; [rewrite X in Y; injection Y as ->; lia|].
    pose proof (proj1 (Ord i y Y) ltac:(lia)). lia.
Qed.

(** With 25 mediators and the threshold of 18, a number counts as confirmed that only 16 have
    reached; the right one is lower. *)
Theorem early_stable s : confirmed_number 18 slice25 s = (s, Ok (Some 9)) /\ len slice25 = 25 /\ len (List.filter (Z.leb 9) slice25) = 16.
Proof.
  assert (R : Element (E := mem_error) Z.ltb 7 slice25 = ((Element (E := mem_error) Z.ltb 7 slice25).1, Ok tt)) by (vm_compute; reflexivity).
  split; [|by split]. unfold confirmed_number. change (len slice25 - 18) with 7. change (negb (0 <? 18) || (7 <? 0)) with false. cbv beta iota. rewrite R.
  unfold lift. rewrite (bind_ok _ _ s s tt) by done.
  assert (X : index (Element (E := mem_error) Z.ltb 7 slice25).1 7 = Some 9) by (vm_compute; reflexivity). rewrite X. done.
Qed.

(** ** A unit too high *)

Lemma fork_gap (n : nat) (chain_units : units) (hash : bytes) s : chain_units !! hash = None -> fork_loop (S n) chain_units hash [] s = (s, Ok (replicate (S n) None)).
Proof. intros H. cbn [fork_loop]. rewrite H. by rewrite app_nil_r. Qed.

(** C40: A unit that names the stable unit as its parent and has a number at least 2 above it stops
    the node once the main chain has left the stable unit, that is, when the tip is another unit and
    the stable unit is neither in [chainUnits] nor in [tempdb]: the branch to the new unit is looked
    up before the unit is checked, and what was not found is saved as a nil unit. *)
Theorem height_gap_panics s u (last : U) isGenerate : ParentHash u !! 0%nat = Some (stableUnitHash s) -> 0 <= stableUnitHeight s -> stableUnitHeight s + 2 <= NumberU64 u < 2 ^ 63 ->
  lastMainChainUnit s = Some last -> Hash last <> stableUnitHash s -> chainUnits s !! stableUnitHash s = None -> tempdb s !! stableUnitHash s = None ->
  chainUnits s !! Hash u = None -> (AddUnit (Some u) isGenerate s).2 = Panic.
Proof.
  intros Hp H0 Hn Hl Nl Hc Ht Hu. unfold AddUnit. rewrite (bind_ok (gets stableUnitHeight) _ _ _ _ eq_refl). replace (negb (stableUnitHeight s <? NumberU64 u)) with false by lia.
  rewrite (bind_ok (gets getChainUnits) _ _ _ _ eq_refl), getChainUnits_lookup, Hu. cbn [fmap option_fmap option_map]. rewrite bool_decide_eq_false_2 by (by intros [? ?]).
  rewrite (bind_ok (gets _) _ _ _ _ eq_refl). enough (G : (addUnit (S (size (orphanUnits s))) u isGenerate s).2 = Panic).
  { unfold bind. destruct (addUnit _ u isGenerate s) as [s' r]. cbn [snd] in G. by rewrite G. }
  cbn [addUnit]. unfold parent0 at 1. rewrite Hp. cbn [get].
  assert (K : (extend_fork u isGenerate s).2 = Panic).
  { unfold extend_fork, parent0. rewrite Hp. cbn [get]. rewrite (bind_ok (ret _) _ _ _ _ eq_refl), (bind_ok (gets _) _ _ _ _ eq_refl), Ht.
    unfold bind at 1. unfold bind at 1. unfold NewChainTempDb, NewTempdb_at. unfold bind at 1. set (s1 := with_store _ _ s). unfold ret at 1.
    assert (F : exists n, getForkUnits u s1 = (s1, Ok (replicate (S n) None ++ [Some u]))).
    { unfold getForkUnits. rewrite (bind_ok (gets getChainUnits) _ _ _ _ eq_refl), (bind_ok (gets stableUnitHeight) _ _ _ _ eq_refl). change (stableUnitHeight s1) with (stableUnitHeight s).
      assert (A : above_stable (NumberU64 u) (stableUnitHeight s) = NumberU64 u - stableUnitHeight s) by (unfold above_stable; rewrite uint64_small, int64_small; lia).
      rewrite A. replace (NumberU64 u - stableUnitHeight s <=? 1) with false by lia. unfold parent0. rewrite Hp. cbn [get]. rewrite (bind_ok (ret _) _ _ _ _ eq_refl).
      destruct (Z.to_nat (NumberU64 u - stableUnitHeight s - 1)) as [|n] eqn:N; [lia|]. exists n.
      rewrite (bind_ok _ _ _ _ _ (fork_gap n _ (stableUnitHash s) s1 ltac:(by rewrite getChainUnits_lookup; cbn; rewrite Hc))). done. }
    destruct F as [n F]. unfold bind at 1. rewrite F. rewrite removelast_app by done. done. }
  rewrite (bind_ok (ret _) _ _ _ _ eq_refl), (bind_ok (gets _) _ _ _ _ eq_refl), (bind_ok (gets _) _ _ _ _ eq_refl). rewrite bytes_equal_refl, orb_true_r.
  unfold bind. unfold gets at 1. rewrite Hl. unfold deref, get, ret. replace (bytes_equal (stableUnitHash s) (Hash last)) with false
    by (symmetry; apply bool_decide_eq_false; congruence). destruct (extend_fork u isGenerate s) as [s' r]. cbn [snd] in K. by rewrite K.
Qed.

(** ** Connecting orphans ends *)

(** Nothing but the orphan steps touches the orphans. *)
Definition frames {A} (m : ST (@MemDag U _) mem_error A) : Prop := forall s, orphanUnits (m s).1 = orphanUnits s.
Lemma frames_ret {A} (a : A) : frames (ret a). Proof. done. Qed.
Lemma frames_throw {A} e : frames (A := A) (throw e). Proof. done. Qed.
Lemma frames_panic {A} : frames (A := A) panic. Proof. done. Qed.
Lemma frames_gets {A} (f : MemDag -> A) : frames (gets f). Proof. done. Qed.
Lemma frames_get {A} (o : option A) : frames (get o). Proof. by destruct o. Qed.
Lemma frames_lift {A} (r : result mem_error A) : frames (lift r). Proof. done. Qed.
Lemma frames_modify (f : MemDag -> MemDag) : (forall s, orphanUnits (f s) = orphanUnits s) -> frames (modify f). Proof. intros F s. apply F. Qed.
Lemma frames_bind {A B} (m : ST MemDag mem_error A) (k : A -> ST MemDag mem_error B) : frames m -> (forall a, frames (k a)) -> frames (bind m k).
Proof. intros M K s. unfold bind. specialize (M s). destruct (m s) as [s' [a|e|]]; cbn in *; [by rewrite K|done|done]. Qed.
Lemma frames_if {A} (b : bool) (m n : ST MemDag mem_error A) : frames m -> frames n -> frames (if b then m else n). Proof. by destruct b. Qed.
Lemma frames_go (j : job U) : frames (go j). Proof. done. Qed.
Lemma frames_foldM {A B} (f : B -> A -> ST MemDag mem_error B) l : (forall b a, frames (f b a)) -> forall b, frames (foldM f l b).
Proof. intros F. induction l as [|a l IH]; intros b; [done|]. by apply frames_bind. Qed.
Lemma frames_each {A} (f : A -> ST MemDag mem_error unit) l : (forall a, frames (f a)) -> frames (each f l).
Proof. intros F. induction l as [|a l IH]; [done|]. by apply frames_bind. Qed.
Lemma frames_save_at r f : frames (save_at r f).
Proof. intros s. unfold save_at. destruct (f _) as [ws e]. by destruct r. Qed.
Lemma frames_validate r u : frames (validate r u).
Proof. intros s. unfold validate. by destruct (if saveHeaderOnly s then _ else _). Qed.

Create HintDb frames.
#[local] Hint Resolve frames_ret frames_throw frames_panic frames_gets frames_get frames_lift frames_modify frames_go frames_save_at frames_validate : frames.
Ltac frame :=
  repeat first [ progress intros | solve [auto with frames] | apply frames_bind | apply frames_if | apply frames_foldM | apply frames_each
    | match goal with |- frames (match ?x with _ => _ end) => destruct x end ].

Lemma frames_new r : frames (NewChainTempDb r).
Proof. done. Qed.
Lemma frames_AddUnit e o : frames (ChainTempDb_AddUnit e o).
Proof. unfold ChainTempDb_AddUnit, deref, saveUnit. frame. Qed.
Lemma frames_fork_loop n : forall m h l, frames (fork_loop n m h l).
Proof. induction n as [|n IH]; intros m h l; cbn [fork_loop]; [done|]. unfold deref, parent0. frame. Qed.
Lemma frames_getForkUnits u : frames (getForkUnits u).
Proof. unfold getForkUnits, parent0. frame; apply frames_fork_loop. Qed.
Lemma frames_remove n : forall m h, frames (removeUnitAndChildren n m h).
Proof. induction n as [|n IH]; intros m h; cbn [removeUnitAndChildren]; [done|]. unfold deref, parent0. frame. Qed.
Lemma frames_setNext n : forall m o, frames (setNextStableUnit n m o).
Proof. induction n as [|n IH]; intros m o; cbn [setNextStableUnit]; [done|]. unfold deref, parent0, saveUnit. frame. Qed.
#[local] Hint Resolve frames_new frames_AddUnit frames_getForkUnits frames_remove frames_setNext : frames.
Lemma frames_setStableUnit h n : frames (setStableUnit h n).
Proof. unfold setStableUnit, drop_forks, deref. frame. Qed.
#[local] Hint Resolve frames_setStableUnit : frames.
Lemma frames_confirmed t l : frames (confirmed_number t l).
Proof. unfold confirmed_number. frame. Qed.
#[local] Hint Resolve frames_confirmed : frames.
Lemma frames_check e u : frames (checkStableCondition e u).
Proof. unfold checkStableCondition. frame. Qed.
#[local] Hint Resolve frames_check : frames.
Lemma frames_extend_main o u g : frames (extend_main o u g).
Proof. unfold extend_main, check_unit, store_unit, parent0. frame. Qed.
Lemma frames_extend_fork u g : frames (extend_fork u g).
Proof. unfold extend_fork, switchMainChain, check_unit, store_unit, parent0, deref. frame. Qed.

Definition orphans_named s : Prop := forall h u, orphanUnits s !! h = Some u -> Hash u = h.
Lemma rekey_named s : orphans_named s -> rekey s = (orphanUnits s, orphanUnits s).
Proof.
  intros N. unfold rekey. match goal with |- context [fold_left ?f _ _] => set (step := f) end. assert (K : forall l (units : gmap bytes U), (forall h u, (h, u) ∈ l -> Hash u = h) ->
    fold_left step l (orphanUnits s, units) = (orphanUnits s, fold_left (fun units '(h, u) => <[h := u]> units) l units)).
  { induction l as [|[h u] l IH]; intros units Hl; [done|]. cbn [fold_left]. unfold step at 2. rewrite (Hl h u) by left. rewrite bool_decide_eq_true_2 by done.
    apply IH. intros h' u' I. apply Hl. by right. }
  rewrite K; [f_equal|intros h u I; apply N, elem_of_map_to_list; by rewrite <- (go_range_perm (orphanUnits s))].
  assert (E : forall l (units : gmap bytes U), NoDup l.*1 -> (forall h u, (h, u) ∈ l -> orphanUnits s !! h = Some u) ->
    forall k, fold_left (fun units '(h, u) => <[h := u]> units) l units !! k = if bool_decide (k ∈ l.*1) then orphanUnits s !! k else units !! k).
  { induction l as [|[h u] l IH]; intros units ND Hl k; [done|]. cbn [fold_left fmap list_fmap fst] in *. apply NoDup_cons in ND as [Nh ND].
    rewrite IH by (done || (intros; apply Hl; by right)). destruct (decide (k = h)) as [->|Nk].
    - rewrite bool_decide_eq_false_2 by done. rewrite bool_decide_eq_true_2 by left. rewrite lookup_insert_eq. symmetry. apply Hl. left.
    - rewrite lookup_insert_ne by done. rewrite (bool_decide_ext (k ∈ h :: l.*1) (k ∈ l.*1)); [done|]. rewrite elem_of_cons. naive_solver. }
  apply map_eq. intros k. rewrite E.
  - case_bool_decide as I; [done|]. rewrite lookup_empty. destruct (orphanUnits s !! k) as [u|] eqn:O; [|done]. exfalso. apply I, list_elem_of_fmap. exists (k, u). split; [done|].
    rewrite (go_range_perm (orphanUnits s)). by apply elem_of_map_to_list.
  - rewrite (go_range_perm (orphanUnits s)). apply NoDup_fst_map_to_list.
  - intros h u I. apply elem_of_map_to_list. by rewrite <- (go_range_perm (orphanUnits s)).
Qed.

Lemma bind_cong {A B} (m : ST (@MemDag U _) mem_error A) (k k' : A -> ST MemDag mem_error B) s :
  (forall s' a, m s = (s', Ok a) -> k a s' = k' a s') -> bind m k s = bind m k' s.
Proof. intros E. unfold bind. destruct (m s) as [s' [a|e|]]; [by apply E|done|done]. Qed.

Lemma bind_first {A B} (m m' : ST (@MemDag U _) mem_error A) (k : A -> ST MemDag mem_error B) s : m s = m' s -> bind m k s = bind m' k s.
Proof. intros E. unfold bind. by rewrite E. Qed.

(** Connecting an orphan takes it away first, so that as many calls as there are orphans, and the
    first one, are enough. *)
Lemma addUnit_fuel f : forall g u b s, orphans_named s -> (size (orphanUnits s) < f)%nat -> (size (orphanUnits s) < g)%nat ->
  addUnit f u b s = addUnit g u b s.
Proof.
  induction f as [|f IH]; intros g u b s N Lf Lg; [lia|]. destruct g as [|g]; [lia|]. cbn [addUnit].
  apply bind_cong. intros s1 parentHash E1. assert (s1 = s) as -> by (unfold parent0, get, ret in E1; destruct (_ !! _); by injection E1). clear E1.
  rewrite !(bind_ok (gets _) _ s s _ eq_refl). apply bind_first.
  destruct (bool_decide _ || _); [|done]. rewrite !(bind_ok (gets _) _ s s _ eq_refl). apply bind_cong. intros s1 last E1.
  assert (s1 = s) as -> by (unfold deref, get in E1; destruct (lastMainChainUnit s); by injection E1). clear E1.
  apply bind_cong. intros s1 [] E1. assert (O : orphanUnits s1 = orphanUnits s).
  { destruct (bytes_equal parentHash (Hash last)); [pose proof (frames_extend_main (chainUnits s !! parentHash) u b s) as K|pose proof (frames_extend_fork u b s) as K]; by rewrite E1 in K. }
  rewrite !(bind_ok (gets _) _ s1 s1 _ eq_refl). destruct (orphanUnitsParants s1 !! Hash u) as [next|]; [|done].
  rewrite !(bind_ok (modify _) _ s1 _ tt eq_refl). set (s2 := with_orphans _ _ s1).
  assert (N2 : orphans_named s2) by (intros h v H; apply N; by rewrite <- O).
  assert (O2 : orphanUnits s2 = orphanUnits s) by done.
  apply bind_first.
  unfold processOrphan. assert (G : getOrphanUnits s2 = (with_orphans (orphanUnits s2) (orphanUnitsParants s2) s2, Ok (orphanUnits s2))) by (unfold getOrphanUnits; by rewrite rekey_named).
  rewrite !(bind_ok _ _ _ _ _ G). destruct (orphanUnits s2 !! next) as [v|] eqn:V; [|done].
  rewrite !(bind_ok (modify _) _ _ _ tt eq_refl). set (s3 := with_orphans _ _ _). unfold ignore.
  assert (Z : orphanUnits s3 = delete next (orphanUnits s)) by (unfold s3; cbn; by rewrite <- O2).
  rewrite (IH g v b s3); [done| | |].
  - intros h w H. rewrite Z in H. apply lookup_delete_Some in H as [_ H]. by apply N.
  - rewrite Z, map_size_delete_Some by (rewrite <- O2, V; by eexists). assert (size (orphanUnits s) <> 0)%nat; [|lia]. rewrite <- O2. intros E0. apply map_size_empty_inv in E0. by rewrite E0, lookup_empty in V.
  - rewrite Z, map_size_delete_Some by (rewrite <- O2, V; by eexists). assert (size (orphanUnits s) <> 0)%nat; [|lia]. rewrite <- O2. intros E0. apply map_size_empty_inv in E0. by rewrite E0, lookup_empty in V.
Qed.

(** A tree just made over a stable unit is well formed. *)
Lemma NewMemDag_ok t ho d c hash index lookup_ u s : NewMemDag t ho d c (Some (hash, index)) lookup_ = Some s ->
  lookup_ hash = Some u -> Hash u = hash -> NumberU64 u = index -> 0 <= index ->
  (index <> 0 -> exists p, ParentHash u !! 0%nat = Some p /\ p <> hash) -> tree_ok s /\ orphans_named s.
Proof.
  intros E L Eh En N0 Par. unfold NewMemDag in E. rewrite L in E. injection E as <-.
  assert (K : forall h o, ct_Unit <$> ({[ hash := mkChainTemp (Temp 0) (Some u) ]} : gmap bytes (ChainTempDb U)) !! h = Some o -> h = hash /\ o = Some u).
  { intros h o H. apply fmap_Some in H as (x & H & ->). by apply lookup_singleton_Some in H as [<- <-]. }
  split; [|intros h v H; cbn in H; by rewrite lookup_empty in H]. split; cbn [stableUnitHash stableUnitHeight].
  - intros h o H. rewrite getChainUnits_lookup in H. apply K in H as [-> ->]. exists u. split; [done|]. split; [done|lia].
  - intros h v H [_ Nv]. rewrite getChainUnits_lookup in H. apply K in H as [-> [= ->]]. cbn in Nv. done.
  - intros v H. rewrite getChainUnits_lookup in H. apply K in H as [_ [= ->]]. split; [done|]. intros Nz. destruct (Par ltac:(lia)) as (p & Hp & Np).
    exists p. split; [done|]. intros w W. rewrite getChainUnits_lookup in W. by apply K in W as [-> _].
  - done.
Qed.

(** Adding a unit ends, however many orphans it connects: as much fuel as there are orphans, and
    one more, is enough, and more makes no difference. *)
Theorem addUnit_enough f u isGenerate s : orphans_named s -> (size (orphanUnits s) < f)%nat ->
  addUnit f u isGenerate s = addUnit (S (size (orphanUnits s))) u isGenerate s.
Proof. intros N L. apply addUnit_fuel; [done|done|lia]. Qed.
End Props.

(** ** A small tree *)

Definition no_asset : bytes := replicate 16 x00.
Definition sample_unit (h p : byte) (n : Z) : full_unit :=
  mkFull (NewHeader [[p]] zeroHash [] [] [] [] [] no_asset n 0) (mkChainIndex no_asset n) [h] [].
(** Saving a unit writes its hash, unless it is the one hashed [fails]. *)
Definition sample_push (fails : byte) (d : Db) (u : full_unit) : list kv * option string :=
  if bytes_equal (fu_hash u) [fails] then ([], Some "not saved"%string) else ([mkKv (fu_hash u) (Some [])], None).
Definition sample_repos (fails : byte) : Repos full_unit := {|
  PushUnit := sample_push fails; SaveNewestHeader := sample_push fails; rep_SaveHeader := sample_push fails;
  LastConfirmedUnitNums := fun _ => []; GetHeaderByNumber := fun _ _ _ => None;
  Cache := Datatypes.unit; rep_ValidateHeader := fun c _ _ => (c, TxValidationCode_VALID); ValidateUnitExceptGroupSig := fun c _ _ => (c, TxValidationCode_VALID);
  Point := Datatypes.unit; UnmarshalBinary := fun _ => None; bls_Verify := fun _ _ _ => false |}.

Definition unitA := sample_unit x01 x00 6.
Definition unitB := sample_unit x02 x00 6.
Definition unitC := sample_unit x03 x01 7.
Definition unitD := sample_unit x04 x03 8.
Definition unitE := sample_unit x05 x02 7.
Definition sample_chain : gmap bytes (ChainTempDb full_unit) :=
  list_to_map (map (fun u => (fu_hash u, mkChainTemp (Temp 0) (Some u))) [unitA; unitB; unitC; unitD; unitE]).
Definition sample_tree : MemDag (Repos0 := sample_repos xff) :=
  mkDag (Repos0 := sample_repos xff) [x00] 5 (Some unitD) 1 ∅ ∅ ∅ sample_chain ∅ false ∅ [(no_writes, Stable)] tt [].

Lemma sample_units h o : @getChainUnits full_unit (sample_repos xff) sample_tree !! h = Some o ->
  exists u, o = Some u /\ Hash u = h /\ (u = unitA \/ u = unitB \/ u = unitC \/ u = unitD \/ u = unitE).
Proof.
  rewrite getChainUnits_lookup. intros H. apply fmap_Some in H as (e & H & ->). cbn [sample_tree chainUnits] in H. unfold sample_chain in H.
  apply elem_of_list_to_map_2, list_elem_of_fmap in H as (u & E & I). injection E as -> ->. exists u. split; [done|]. split; [done|].
  rewrite !elem_of_cons, elem_of_nil in I. tauto.
Qed.
Lemma sample_tree_ok : tree_ok (Repos0 := sample_repos xff) sample_tree.
Proof.
  split.
  - intros h o H. apply sample_units in H as (u & -> & Hh & [-> |[-> |[-> |[-> | ->]]]]); by eexists.
  - intros h u H _. apply sample_units in H as (v & [= <-] & _ & [-> |[-> |[-> |[-> | ->]]]]).
    + exists [x00]. split; [done|]. left. by split.
    + exists [x00]. split; [done|]. left. by split.
    + exists [x01]. split; [done|]. right. exists unitA. split; [vm_compute; reflexivity|]. split; [by split|done].
    + exists [x03]. split; [done|]. right. exists unitC. split; [vm_compute; reflexivity|]. split; [by split|done].
    + exists [x02]. split; [done|]. right. exists unitB. split; [vm_compute; reflexivity|]. split; [by split|done].
  - intros u H. apply sample_units in H as (v & [= <-] & Hh & [-> |[-> |[-> |[-> | ->]]]]); done.
  - done.
Qed.
Lemma sample_path us : path (getChainUnits (Repos0 := sample_repos xff) sample_tree) [x00] us unitC -> us = [unitA; unitC].
Proof.
  intros P. inversion P as [u Pu _|us1 v u P1 Hv Pu _]; subst; [done|]. apply sample_units in Hv as (w & [= <-] & _ & [-> |[-> |[-> |[-> | ->]]]]); try done.
  inversion P1 as [u Pu1 _|us2 v u P2 Hv2 Pu1 _]; subst; [done|]. apply sample_units in Hv2 as (w & [= <-] & _ & [-> |[-> |[-> |[-> | ->]]]]); done.
Qed.

(** ** What goes wrong *)

(** The header counts as the stable one although it was not saved. *)
Theorem SaveHeader_unsaved {U : Type} `{!MemUnit U} `{!Repos U} (s : MemDag) (u : U) ws e : SaveNewestHeader (db s) u = (ws, Some e) ->
  exists s', SaveHeader u s = (s', Err (SaveError e)) /\ stableUnitHash s' = Hash u /\ stableUnitHeight s' = NumberU64 u.
Proof.
  intros E. unfold SaveHeader, save_at. unfold bind, modify. rewrite contents_stable. cbn [with_stable db]. rewrite E. by eexists.
Qed.

(** A tree like the one above in which the unit hashed [fails] cannot be saved. *)
Definition tree_failing (fails : byte) : MemDag (Repos0 := sample_repos fails) :=
  mkDag (Repos0 := sample_repos fails) [x00] 5 (Some unitD) 1 ∅ ∅ ∅ sample_chain ∅ false ∅ [(no_writes, Stable)] tt [].

(** A fork on the stable unit that cannot be saved is added all the same, as a nil unit; the next
    unit to become stable stops the node. *)
Example unsaved_fork_stops : let s := (AddUnit (Repos0 := sample_repos x06) (Some (sample_unit x06 x00 6)) false (tree_failing x06)) in
  s.2 = Ok (Some (Temp 0)) /\ (setStableUnit (Repos0 := sample_repos x06) [x03] 7 s.1).2 = Panic.
Proof. vm_compute. by split. Qed.
(** A fork higher up that cannot be saved is added as its parent. *)
Example unsaved_fork_is_parent : let s := (AddUnit (Repos0 := sample_repos x06) (Some (sample_unit x06 x02 7)) false (tree_failing x06)) in
  ct_Unit <$> (chainUnits (Repos0 := sample_repos x06) s.1 !! [x06]) = Some (Some unitB).
Proof. vm_compute. reflexivity. Qed.

Definition run_adds (us : list full_unit) : MemDag (Repos0 := sample_repos xff) :=
  fold_left (fun s u => (AddUnit (Repos0 := sample_repos xff) (Some u) false s).1) us sample_tree.
(** Of two orphans with the same parent only the one that came last is connected when the parent
    comes; the other one stays an orphan. *)
Example orphan_lost : let s := run_adds [sample_unit x08 x07 9; sample_unit x09 x07 9; sample_unit x07 x04 8] in
  is_Some (chainUnits (Repos0 := sample_repos xff) s !! [x09]) /\ chainUnits (Repos0 := sample_repos xff) s !! [x08] = None /\
  is_Some (orphanUnits (Repos0 := sample_repos xff) s !! [x08]) /\ orphanUnitsParants (Repos0 := sample_repos xff) s = ∅.
Proof. vm_compute. repeat split; by eexists. Qed.

(** ** Witnesses *)

Definition saved_AC : Db := <[ [x03] := ([] : bytes) ]> (<[ [x01] := ([] : bytes) ]> ∅).
Lemma setStableUnit_spec_witness : exists s', setStableUnit (Repos0 := sample_repos xff) [x03] 7 sample_tree = (s', Ok true) /\
  db s' = saved_AC /\ tree_ok s'.
Proof.
  destruct (setStableUnit_spec (Repos0 := sample_repos xff) sample_tree [x03] unitC sample_tree_ok ltac:(vm_compute; reflexivity) eq_refl) as (us & P & K).
  apply sample_path in P as ->. destruct (K saved_AC eq_refl) as (s' & R & _ & _ & D & _ & _ & _ & T & _).
  exists s'. split; [exact R|]. split; [exact D|exact T].
Defined.
Lemma confirmed_number_spec_witness : exists n, confirmed_number (Repos0 := sample_repos xff) 2 [7; 3; 5] sample_tree = (sample_tree, Ok (Some n)) /\
  2 <= len (List.filter (Z.leb n) [7; 3; 5]) /\ len (List.filter (Z.ltb n) [7; 3; 5]) < 2.
Proof.
  apply (confirmed_number_spec (Repos0 := sample_repos xff) 2 [7; 3; 5] sample_tree); [by split|done|]. apply Forall_forall. intros x. rewrite !elem_of_cons, elem_of_nil. lia.
Defined.
Lemma height_gap_panics_witness : (AddUnit (Repos0 := sample_repos xff) (Some (sample_unit x09 x00 7)) false sample_tree).2 = Panic.
Proof.
  apply (height_gap_panics (Repos0 := sample_repos xff) sample_tree (sample_unit x09 x00 7) unitD false); try reflexivity; try (vm_compute; (reflexivity || discriminate)).
  split; [discriminate|reflexivity].
Defined.
Lemma addUnit_enough_witness : addUnit (Repos0 := sample_repos xff) 9 unitA false sample_tree = addUnit (Repos0 := sample_repos xff) 1 unitA false sample_tree.
Proof. apply (addUnit_enough (Repos0 := sample_repos xff) 9 unitA false sample_tree); [intros h u H; done|]. apply Nat.ltb_lt. vm_compute. reflexivity. Defined.

End MemDagProps.
