(* ===== verification/TxPool.v ===== *)
(** * The transaction pool

    src/txspool/txpool.go, txlist.go, types.go, config.go: the transactions that wait for a unit,
    with the outpoints they spend and the outputs they make, the list sorted by priority, the
    orphans, and the sequence of transactions that go first.

    The pool, its maps and its lists share pointers to [TxPoolTransaction]s, which the operations
    change in place; so the records stand in a store ([heap]) and everything else holds references.
    A [go] statement adds a job, run when the scheduler likes ([run_job]).  A method is one
    function: the maps are safe for concurrent use, but most methods hold the lock for reading
    only, and how two of them interleave is not modelled.  The clock is an argument; a priority,
    which the source keeps as the text of a float64, is that float64 (the shortest text is read
    back exactly) or [None] for the empty text.  Transactions are values of any type with the
    interface [PoolItem], complete ones in the sense of Tx.v; what the pool asks of the ledger and
    the validator is the class [Dags].  The journal is the list of the records written to it. *)

From S2P Require Import Prelude Errors Float64 Opcode Script Address Standard Tx AssetId TxFee Unit ValPayment HeapSort Pickup.
From Stdlib Require Import ZArith Lia Bool ZifyBool Floats.SpecFloat.
Import Heap Pick.
Local Open Scope Z_scope.

Module Pool.

(** ** The interfaces *)

(** What the pool asks of a transaction. *)
Class PoolItem (T : Type) := {
  tx_Tx : T -> Transaction;
  tx_Hash : T -> bytes;
  tx_baseSize : T -> Z }.
Definition tx_Size {T} `{!PoolItem T} (tx : T) : float64 := of_int (tx_baseSize tx).
Definition tx_Messages {T} `{!PoolItem T} (tx : T) : list Message := Messages (tx_Tx tx).

(** Transactions of Tx.v with their hash and size at hand. *)
Record pooled := mkPooled { pt_tx : Transaction; pt_hash : bytes; pt_size : Z }.
#[export] Instance pooled_item : PoolItem pooled := {| tx_Tx := pt_tx; tx_Hash := pt_hash; tx_baseSize := pt_size |}.

(** The ledger as the pool reads it, and the validator with its cache of verdicts: the additions of
    a valid transaction, or the code and the error. *)
Class Dags (T : Type) := {
  Ledger : Type;
  IsTransactionExist : Ledger -> bytes -> bool;
  dag_GetUtxoEntry : Ledger -> OutPoint -> result string Utxo;
  GetTxFromAddress : Ledger -> T -> result string (list Address);
  VCache : Type;
  ValidateTx : (option OutPoint -> result string Utxo) -> Ledger -> VCache -> T -> VCache * result (Z * string) (list Addition);
  GetAddressFromScript : bytes -> result string Address;
  Address_String : Address -> string;
  UnitMaxSize : Z }.                                           (* CurrentSysParameters.UnitMaxSize *)

Definition is_nan (x : float64) : bool := match x with S754_nan => true | _ => false end.

(** [sort.Sort] by descending priority; nothing is promised where a priority is not a number. *)
Class PrioritySort := {
  sort_priority : list (float64 * nat) -> list (float64 * nat);
  sort_priority_perm : forall l, sort_priority l ≡ₚ l;
  sort_priority_sorted : forall l, Forall (fun p => is_nan p.1 = false) l ->
    Sorting.Sorted.StronglySorted (fun a b => fgt b.1 a.1 = false) (sort_priority l) }.

(** An order of all float64s, which is theirs where they are numbers, sorts so. *)
Definition fkey (x : float64) : Z * Z * Z :=
  match x with
  | S754_nan => (-3, 0, 0) | S754_infinity true => (-2, 0, 0) | S754_finite true m e => (-1, - e, Z.neg m)
  | S754_zero _ => (0, 0, 0) | S754_finite false m e => (1, e, Z.pos m) | S754_infinity false => (2, 0, 0)
  end.
Definition key_gt (x y : Z * Z * Z) : bool :=
  let '(a, b, c) := x in let '(a', b', c') := y in (a' <? a) || ((a =? a') && ((b' <? b) || ((b =? b') && (c' <? c)))).
Definition above (p q : float64 * nat) : bool := key_gt (fkey p.1) (fkey q.1).
#[export] Instance above_order : LessOrder above.
Proof.
  split; unfold above; intros [f i] [g j]; simpl; destruct (fkey f) as [[a b] c], (fkey g) as [[a' b'] c']; unfold key_gt; [lia|].
  intros [h k]; simpl; destruct (fkey h) as [[a'' b''] c'']; lia.
Qed.
Lemma fgt_key x y : is_nan x = false -> is_nan y = false -> fgt x y = key_gt (fkey x) (fkey y).
Proof.
  unfold fgt, key_gt, fkey. destruct x as [s|[]| |[] m e], y as [s'|[]| |[] m' e']; try done; intros _ _; simpl.
  all: change (Pos.compare_cont Eq m m') with (Pos.compare m m'); destruct (Z.compare_spec e e'); subst; simpl; try lia;
    destruct (Pos.compare_spec m m'); simpl; subst; lia.
Qed.
Lemma above_sorts l : Forall (fun p => is_nan p.1 = false) l -> Sorting.Sorted.StronglySorted (fun a b => fgt b.1 a.1 = false) (GoSort above l).
Proof.
  intros F. pose proof (GoSort_sorted above l) as K. rewrite <- (GoSort_perm above l) in F. revert F.
  induction K as [|p k S IH A]; intros F; [constructor|]. apply Forall_cons in F as [Fp F]. constructor; [by apply IH|].
  rewrite Forall_forall in A, F |- *. intros q E. rewrite fgt_key; [by apply A|by apply F|done].
Qed.
#[export] Instance priority_GoSort : PrioritySort :=
  {| sort_priority := GoSort above; sort_priority_perm := GoSort_perm above; sort_priority_sorted := above_sorts |}.

Definition by_creation (a b : Z * nat) : bool := a.1 <? b.1.
#[export] Instance by_creation_order : LessOrder by_creation.
Proof. split; unfold by_creation; intros *; rewrite ?Z.ltb_lt, ?Z.ltb_ge; lia. Qed.

(** ** Configuration *)

Record TxPoolConfig := mkConfig {
  NoLocals : bool; Journal : string; Rejournal : Z; FeeLimit : Z; PriceBump : Z; GlobalSlots : Z; GlobalQueue : Z;
  Lifetime : Z; Removetime : Z; OrphanTTL : Z; MaxOrphanTxs : Z; MaxOrphanTxSize : Z }.
Definition second : Z := 10 ^ 9.
Definition minute : Z := 60 * second.
Definition hour : Z := 60 * minute.
Definition DefaultTxPoolConfig : TxPoolConfig :=
  mkConfig false "transactions.rlp" hour 1 10 48192 12048 (3 * hour) (30 * minute) (20 * minute) 10000 2000000.
Definition sanitize (c : TxPoolConfig) : TxPoolConfig :=
  mkConfig (NoLocals c) (Journal c) (if Rejournal c <? second then second else Rejournal c) (FeeLimit c)
    (if PriceBump c <? 1 then PriceBump DefaultTxPoolConfig else PriceBump c) (GlobalSlots c) (GlobalQueue c)
    (Lifetime c) (Removetime c) (OrphanTTL c) (MaxOrphanTxs c) (MaxOrphanTxSize c).

(** ** Transactions of the pool *)

(** Times are nanoseconds since 1970. *)
Record TxPoolTransaction (T : Type) := mkPoolTx {
  Tx : T; From : list OutPoint; CreationDate : Z; Priority_lvl : option float64; UnitHash : bytes; UnitIndex : Z;
  Pending : bool; Confirmed : bool; IsOrphan : bool; Discarded : bool; TxFee : option (list Addition);
  Index : Z; Tag : Z; Expiration : Z }.
Arguments mkPoolTx {T}. Arguments Tx {T}. Arguments From {T}. Arguments CreationDate {T}. Arguments Priority_lvl {T}.
Arguments UnitHash {T}. Arguments UnitIndex {T}. Arguments Pending {T}. Arguments Confirmed {T}. Arguments IsOrphan {T}.
Arguments Discarded {T}. Arguments TxFee {T}. Arguments Index {T}. Arguments Tag {T}. Arguments Expiration {T}.

Definition Unix (t : Z) : Z := t / second.
Definition Second (t : Z) : Z := Unix t mod 60.

(** [fmt.Sprintf("%f", x)], read back: the decimal of six places nearest to x, ties to even, and the
    float64 nearest to it. *)
Definition half_even (p q : Z) : Z :=
  let n := p / q in let r := p mod q in
  if (2 * r <? q) || ((2 * r =? q) && Z.even n) then n else n + 1.
Definition six_places (x : float64) : float64 :=
  match x with
  | S754_finite s m e =>
      let n := half_even (Z.pos m * 10 ^ 6 * 2 ^ (Z.max e 0)) (2 ^ (Z.max (- e) 0)) in
      match n with
      | Z.pos n => fdiv (S754_finite s n 0) (S754_finite false (10 ^ 6) 0)
      | _ => S754_zero s
      end
  | _ => x
  end.

(** The text of a float64 that is greater than the text [0]. *)
Definition text_positive (x : float64) : bool := match x with S754_finite false _ _ | S754_nan => true | _ => false end.

Section Item.
Context {T : Type} `{!PoolItem T}.
Implicit Types (tx : TxPoolTransaction T).

Definition with_priority (f : option float64) tx : TxPoolTransaction T :=
  mkPoolTx (Tx tx) (From tx) (CreationDate tx) f (UnitHash tx) (UnitIndex tx) (Pending tx) (Confirmed tx) (IsOrphan tx) (Discarded tx)
    (TxFee tx) (Index tx) (Tag tx) (Expiration tx).
Definition with_date (d : Z) tx : TxPoolTransaction T :=
  mkPoolTx (Tx tx) (From tx) d (Priority_lvl tx) (UnitHash tx) (UnitIndex tx) (Pending tx) (Confirmed tx) (IsOrphan tx) (Discarded tx)
    (TxFee tx) (Index tx) (Tag tx) (Expiration tx).
Definition with_unit (h : bytes) (n : Z) tx : TxPoolTransaction T :=
  mkPoolTx (Tx tx) (From tx) (CreationDate tx) (Priority_lvl tx) h n (Pending tx) (Confirmed tx) (IsOrphan tx) (Discarded tx)
    (TxFee tx) (Index tx) (Tag tx) (Expiration tx).
Definition with_status (pending confirmed discarded : bool) tx : TxPoolTransaction T :=
  mkPoolTx (Tx tx) (From tx) (CreationDate tx) (Priority_lvl tx) (UnitHash tx) (UnitIndex tx) pending confirmed (IsOrphan tx) discarded
    (TxFee tx) (Index tx) (Tag tx) (Expiration tx).
Definition with_orphan (b : bool) tx : TxPoolTransaction T :=
  mkPoolTx (Tx tx) (From tx) (CreationDate tx) (Priority_lvl tx) (UnitHash tx) (UnitIndex tx) (Pending tx) (Confirmed tx) b (Discarded tx)
    (TxFee tx) (Index tx) (Tag tx) (Expiration tx).
Definition with_fee (l : option (list Addition)) tx : TxPoolTransaction T :=
  mkPoolTx (Tx tx) (From tx) (CreationDate tx) (Priority_lvl tx) (UnitHash tx) (UnitIndex tx) (Pending tx) (Confirmed tx) (IsOrphan tx) (Discarded tx)
    l (Index tx) (Tag tx) (Expiration tx).
Definition with_index (i : Z) tx : TxPoolTransaction T :=
  mkPoolTx (Tx tx) (From tx) (CreationDate tx) (Priority_lvl tx) (UnitHash tx) (UnitIndex tx) (Pending tx) (Confirmed tx) (IsOrphan tx) (Discarded tx)
    (TxFee tx) i (Tag tx) (Expiration tx).
Definition with_expiry (tag expiration : Z) tx : TxPoolTransaction T :=
  mkPoolTx (Tx tx) (From tx) (CreationDate tx) (Priority_lvl tx) (UnitHash tx) (UnitIndex tx) (Pending tx) (Confirmed tx) (IsOrphan tx) (Discarded tx)
    (TxFee tx) (Index tx) tag expiration.

(** The sum is a uint64, the result an int64. *)
Definition GetTxFee_ tx : Z :=
  int64 (match TxFee tx with Some l => fold_left (fun fee ad => uint64 (fee + ad_Amount ad)) l 0 | None => 20 end).

(** [float64(fee)/size*(1+float64(now.Second()-date.Second())/(24*3600))] *)
Definition fee_priority (now : Z) tx : float64 :=
  six_places (fmul (fdiv (of_int (GetTxFee_ tx)) (tx_Size (Tx tx)))
    (fadd (of_int 1) (fdiv (of_int (Second now - Second (CreationDate tx))) (of_int (24 * 3600))))).
Definition GetPriorityLvl (now : Z) tx : TxPoolTransaction T :=
  if match Priority_lvl tx with Some f => text_positive f | None => false end then tx
  else if 0 <? GetTxFee_ tx then
    let tx := if Unix (CreationDate tx) <=? 0 then with_date now tx else tx in with_priority (Some (fee_priority now tx)) tx
  else with_priority (Some (S754_zero false)) tx.
(** [strconv.ParseFloat(tx.Priority_lvl, 64)], the error dropped *)
Definition priority tx : float64 := default (S754_zero false) (Priority_lvl tx).
Definition Less tx other : bool := fgt (priority other) (priority tx).
Definition SetPriorityLvl (f : float64) tx : TxPoolTransaction T := with_priority (Some f) tx.

(** The payment messages of a transaction, with their indexes. *)
Fixpoint payments_from (i : Z) (msgs : list Message) : list (Z * PaymentPayload) :=
  match msgs with
  | [] => []
  | msg :: msgs =>
      (if App msg =? APP_PAYMENT then match Payload msg with Some (PayPayment p) => [(i, p)] | _ => [] end else []) ++ payments_from (i + 1) msgs
  end.
Definition payments (t : T) : list (Z * PaymentPayload) := payments_from 0 (tx_Messages t).
Definition previous (p : PaymentPayload) : list (option OutPoint) := map PreviousOutPoint (Inputs p).
Definition spends (t : T) : list OutPoint := omap id (concat (map (fun p => previous p.2) (payments t))).
(** The outpoints of the outputs of a payment message. *)
Definition made_points (h : bytes) (ip : Z * PaymentPayload) : list (OutPoint * Output) :=
  imap (fun j out => (mkOutPoint h (uint32 ip.1) (uint32 (Z.of_nat j)), out)) (Outputs ip.2).

Definition first_previous (p : PaymentPayload) : list OutPoint :=
  match omap id (previous p) with o :: _ => [o] | [] => [] end.
Definition TxtoTxpoolTx (now : Z) (t : T) : TxPoolTransaction T :=
  mkPoolTx t (concat (map (fun p => first_previous p.2) (payments t))) now None zeroHash 0 false false false false None 0 0 0.

(** The first message must be a payment: a failed type assertion panics. *)
Definition first_coinbase {E} (t : T) : result E bool :=
  let? msg := rget (index (tx_Messages t) 0) in let? p := as_payment msg in Ok (IsCoinbase p).
Definition IsCoinBase (t : T) : bool :=
  match tx_Messages t with [msg] => match Payload msg with Some (PayPayment p) => IsCoinbase p | _ => false end | _ => false end.

Inductive sanity_error := NoInputs | TooBig | DuplicateInputs.
Definition TX_BASESIZE : Z := 100 * 1024.
Fixpoint duplicates (l : list OutPoint) : bool :=
  match l with [] => false | o :: l => bool_decide (o ∈ l) || duplicates l end.
Definition CheckTransactionSanity (t : T) : option sanity_error :=
  let msgs := tx_Messages t in
  if len msgs =? 0 then Some NoInputs
  else if TX_BASESIZE <? tx_baseSize t then Some TooBig
  else if existsb (fun msg => match Payload msg with Some (PayPayment p) => duplicates (omap id (previous p)) | _ => false end) msgs
  then Some DuplicateInputs else None.
End Item.

(** ** State *)

Inductive pool_error :=
| KnownTransaction | KnownOrphan | Packaged | Invalid (code : Z) (e : string) | ErrUnderpriced | Unsane (e : sanity_error)
| AlreadySpent | NotInPool | NullMessage | QueryError (e : string).

Inductive job :=
| PutPriority (r : nat)
| JournalTx (r : nat)
| TxPreEvent (r : nat)                                       (* txFeed.Send *)
| PromoteTx (hash : bytes) (r : nat) (number index : Z)
| DeleteHash (hash : bytes)
| RemoveTx (hash : bytes)
| RemoveTransaction_ (r : nat) (removeRedeemers : bool).

Section Machine.
Context {T : Type} `{!PoolItem T} `{!Dags T} `{!GoRange bytes nat} `{!PrioritySort} `{!GoSorter by_creation}.
Abbreviation PoolTx := (TxPoolTransaction T).

(** [items] and [stales] are the fields of [priority_sorted]; the journal has a file open or not. *)
Record TxPool := mkPool {
  config : TxPoolConfig; unit_ : Ledger; vcache : VCache; heap : list PoolTx;
  all : gmap bytes nat; items : list nat; stales : Z; outpoints : gmap OutPoint nat; orphans : gmap bytes nat;
  outputs : gmap OutPoint Utxo; sequenTxs : list nat; nextExpireScan : Z; journal : option (bool * list PoolTx); jobs : list job }.

Abbreviation M := (ST TxPool pool_error).

Definition with_cache (c : VCache) (s : TxPool) : TxPool :=
  mkPool (config s) (unit_ s) c (heap s) (all s) (items s) (stales s) (outpoints s) (orphans s) (outputs s) (sequenTxs s) (nextExpireScan s) (journal s) (jobs s).
Definition with_heap (h : list PoolTx) (s : TxPool) : TxPool :=
  mkPool (config s) (unit_ s) (vcache s) h (all s) (items s) (stales s) (outpoints s) (orphans s) (outputs s) (sequenTxs s) (nextExpireScan s) (journal s) (jobs s).
Definition with_all (m : gmap bytes nat) (s : TxPool) : TxPool :=
  mkPool (config s) (unit_ s) (vcache s) (heap s) m (items s) (stales s) (outpoints s) (orphans s) (outputs s) (sequenTxs s) (nextExpireScan s) (journal s) (jobs s).
Definition with_items (l : list nat) (n : Z) (s : TxPool) : TxPool :=
  mkPool (config s) (unit_ s) (vcache s) (heap s) (all s) l n (outpoints s) (orphans s) (outputs s) (sequenTxs s) (nextExpireScan s) (journal s) (jobs s).
Definition with_outpoints (m : gmap OutPoint nat) (s : TxPool) : TxPool :=
  mkPool (config s) (unit_ s) (vcache s) (heap s) (all s) (items s) (stales s) m (orphans s) (outputs s) (sequenTxs s) (nextExpireScan s) (journal s) (jobs s).
Definition with_orphans (m : gmap bytes nat) (s : TxPool) : TxPool :=
  mkPool (config s) (unit_ s) (vcache s) (heap s) (all s) (items s) (stales s) (outpoints s) m (outputs s) (sequenTxs s) (nextExpireScan s) (journal s) (jobs s).
Definition with_outputs (m : gmap OutPoint Utxo) (s : TxPool) : TxPool :=
  mkPool (config s) (unit_ s) (vcache s) (heap s) (all s) (items s) (stales s) (outpoints s) (orphans s) m (sequenTxs s) (nextExpireScan s) (journal s) (jobs s).
Definition with_sequen (l : list nat) (s : TxPool) : TxPool :=
  mkPool (config s) (unit_ s) (vcache s) (heap s) (all s) (items s) (stales s) (outpoints s) (orphans s) (outputs s) l (nextExpireScan s) (journal s) (jobs s).
Definition with_scan (t : Z) (s : TxPool) : TxPool :=
  mkPool (config s) (unit_ s) (vcache s) (heap s) (all s) (items s) (stales s) (outpoints s) (orphans s) (outputs s) (sequenTxs s) t (journal s) (jobs s).
Definition with_journal (j : option (bool * list PoolTx)) (s : TxPool) : TxPool :=
  mkPool (config s) (unit_ s) (vcache s) (heap s) (all s) (items s) (stales s) (outpoints s) (orphans s) (outputs s) (sequenTxs s) (nextExpireScan s) j (jobs s).
Definition with_jobs (l : list job) (s : TxPool) : TxPool :=
  mkPool (config s) (unit_ s) (vcache s) (heap s) (all s) (items s) (stales s) (outpoints s) (orphans s) (outputs s) (sequenTxs s) (nextExpireScan s) (journal s) l.

Definition NewTxPool4DI (c : TxPoolConfig) (u : Ledger) (v : VCache) (now : Z) : TxPool :=
  let c := sanitize c in mkPool c u v [] ∅ [] 0 ∅ ∅ ∅ [] (now + OrphanTTL c) None [].

(** Pointers *)
Definition alloc (p : PoolTx) : M nat := fun s => (with_heap (heap s ++ [p]) s, Ok (length (heap s))).
Definition deref (r : nat) : M PoolTx := let! h := gets heap in get (h !! r).
Definition update (r : nat) (f : PoolTx -> PoolTx) : M unit := modify (fun s => with_heap (alter f r (heap s)) s).

Definition go (j : job) : M unit := modify (fun s => with_jobs (jobs s ++ [j]) s).

Definition all_Store (h : bytes) (r : nat) : M unit := modify (fun s => with_all (<[h := r]> (all s)) s).
Definition all_Delete (h : bytes) : M unit := modify (fun s => with_all (delete h (all s)) s).
Definition orphans_Store (h : bytes) (r : nat) : M unit := modify (fun s => with_orphans (<[h := r]> (orphans s)) s).
Definition orphans_Delete (h : bytes) : M unit := modify (fun s => with_orphans (delete h (orphans s)) s).
Definition outpoints_Delete (o : OutPoint) : M unit := modify (fun s => with_outpoints (delete o (outpoints s)) s).
Definition deleteOrphanTxOutputs (o : OutPoint) : M unit := modify (fun s => with_outputs (delete o (outputs s)) s).

(** ** The list sorted by priority: txlist.go *)

Definition keyed (h : list PoolTx) (l : list nat) : list (float64 * nat) :=
  map (fun r => (match h !! r with Some p => priority p | None => S754_zero false end, r)) l.
Definition sort_items (h : list PoolTx) (l : list nat) : list nat := (sort_priority (keyed h l)).*2.
(** [txPrioritiedList.Put] *)
Definition Put (r : nat) : M unit := modify (fun s => with_items (sort_items (heap s) (items s ++ [r])) (stales s) s).

Fixpoint get_loop (l : list nat) : M (list nat * option nat) :=
  match l with
  | [] => ret ([], None)
  | r :: l =>
      let! p := deref r in
      let! a := gets all in
      match a !! tx_Hash (Tx p) with
      | None => get_loop l
      | Some _ => if Pending p || Discarded p then get_loop l else ret (l, Some r)
      end
  end.
Definition priority_Get : M (option nat) :=
  let! l := gets items in
  let! (l, tx) := get_loop l in
  modify (fun s => with_items l (stales s) s) ;;;
  ret tx.

Definition ready (h : list PoolTx) (r : nat) : bool :=
  match h !! r with Some p => negb (Pending p) && negb (Discarded p) | None => false end.
Definition Removed : M unit :=
  modify (fun s =>
    let n := stales s + 1 in
    if n <=? len (items s) / 5 then with_items (items s) n s
    else with_items (sort_items (heap s) (List.filter (ready (heap s)) (go_range (all s)).*2)) 0 s).

Definition fge (x y : float64) : bool := match SFcompare x y with Some Gt | Some Eq => true | _ => false end.
Fixpoint drop_stale (l : list nat) (n : Z) : M (list nat * Z) :=
  match l with
  | [] => ret ([], n)
  | r :: l' =>
      let! p := deref r in
      let! a := gets all in
      match a !! tx_Hash (Tx p) with None => drop_stale l' (n - 1) | Some _ => ret (l, n) end
  end.
Definition Underpriced (r : nat) : M bool :=
  let! p := deref r in
  let! a := gets all in
  match a !! tx_Hash (Tx p) with
  | Some _ => ret false
  | None =>
      let! l := gets items in
      let! n := gets stales in
      let! (l, n) := drop_stale l n in
      modify (with_items l n) ;;;
      match l with
      | [] => ret false
      | cheapest :: _ => let! c := deref cheapest in ret (fge (priority c) (priority p))
      end
  end.

Fixpoint discard_loop (a : gmap bytes nat) (count : nat) (l : list nat) (n : Z) : M (list nat * list nat * Z) :=
  match l, count with
  | r :: l', S count' =>
      let! p := deref r in
      match a !! tx_Hash (Tx p) with
      | None => discard_loop a count l' (n - 1)
      | Some _ => let! (drop, l, n) := discard_loop a count' l' n in ret (r :: drop, l, n)
      end
  | _, _ => ret ([], l, n)
  end.
Definition Discard (count : Z) : M (list nat) :=
  let! a := gets all in
  let! l := gets items in
  let! n := gets stales in
  let! (drop, l, n) := discard_loop a (Z.to_nat count) l n in
  modify (with_items l n) ;;;
  ret drop.

(** ** Reading the pool *)

Definition GetUtxoEntry (s : TxPool) (outpoint : option OutPoint) : result string Utxo :=
  match outpoint with
  | None => Panic
  | Some o => match outputs s !! o with Some utxo => Ok utxo | None => dag_GetUtxoEntry (unit_ s) o end
  end.
Definition AllHashs : M (list bytes) := gets (fun s => (go_range (all s)).*1).
Definition AllLength : M Z := gets (fun s => Z.of_nat (size (all s))).
Definition AllTxpoolTxs : M (gmap bytes nat) :=
  let! a := gets all in
  foldM (fun txs '(hash, r) =>
    let! p := deref r in
    let h := tx_Hash (Tx p) in
    (if bytes_equal hash h then ret tt else all_Delete hash ;;; all_Store h r) ;;;
    ret (<[h := r]> txs)) (go_range a) ∅.
Definition AllOrphanTxs : M (gmap bytes nat) :=
  let! o := gets orphans in
  foldM (fun txs '(_, r) => let! p := deref r in ret (<[tx_Hash (Tx p) := r]> txs)) (go_range o) ∅.
Definition AllTxs : M (list T) :=
  let! txs := AllTxpoolTxs in
  foldM (fun l '(_, r) => let! p := deref r in ret (l ++ [Tx p])) (go_range txs) [].

(** [sequenTxs.All()] empties the sequence. *)
Definition All : M (list nat) := fun s => (with_sequen [] s, Ok (sequenTxs s)).
Definition GetSequenTxs : M (list nat) := All.

Definition count_if (f : PoolTx -> bool) (l : list nat) (n : Z) : M Z :=
  foldM (fun n r => let! p := deref r in ret (if f p then n + 1 else n)) l n.
Definition stats : M (Z * Z * Z) :=
  let! poolTxs := AllTxpoolTxs in
  let! orphanTxs := AllOrphanTxs in
  let! seq_txs := All in
  let! p_count := count_if Pending (go_range poolTxs).*2 0 in
  let! q_count := count_if (fun tx => negb (Pending tx) && negb (Confirmed tx)) (go_range poolTxs).*2 0 in
  let! q_count := count_if (fun tx => negb (Pending tx)) (go_range orphanTxs).*2 q_count in
  let! q_count := count_if (fun tx => negb (Pending tx)) seq_txs q_count in
  ret (p_count, q_count, Z.of_nat (size orphanTxs)).
Definition Stats : M (Z * Z * Z) := stats.

Definition select_if (f : PoolTx -> bool) (m acc : gmap bytes nat) : M (gmap bytes nat) :=
  foldM (fun acc '(h, r) => let! p := deref r in ret (if f p then <[h := r]> acc else acc)) (go_range m) acc.
Definition Content : M (gmap bytes nat * gmap bytes nat) :=
  let! alltxs := AllTxpoolTxs in
  let! orphanTxs := AllOrphanTxs in
  let! pending := select_if Pending alltxs ∅ in
  let! queue := select_if (fun tx => negb (Pending tx) && negb (Confirmed tx)) alltxs ∅ in
  let! queue := select_if (fun tx => negb (Pending tx)) orphanTxs queue in
  ret (pending, queue).
Definition pending_ : M (gmap bytes (list nat)) :=
  let! txs := AllTxpoolTxs in
  foldM (fun m '(_, r) => let! p := deref r in
    ret (if Pending p then <[UnitHash p := default [] (m !! UnitHash p) ++ [r]]> m else m)) (go_range txs) ∅.
Definition Queued : M (list nat) :=
  let! txs := AllTxpoolTxs in
  foldM (fun l '(_, r) => let! p := deref r in ret (if Pending p then l else l ++ [r])) (go_range txs) [].
(** By hash; where a hash occurs twice, the last in the order of the ranges. *)
Definition local_ : M (gmap bytes nat) :=
  let! pending := pending_ in
  foldM (fun txs r => let! p := deref r in ret (<[tx_Hash (Tx p) := r]> txs)) (concat (map_to_list pending).*2) ∅.

Definition isOrphanInPool (hash : bytes) : M bool := gets (fun s => bool_decide (is_Some (orphans s !! hash))).
Definition isTransactionInPool (hash : bytes) : M bool :=
  gets (fun s => bool_decide (is_Some (all s !! hash)) || bool_decide (is_Some (orphans s !! hash))).
Definition IsTransactionExist_ (hash : bytes) : M bool := gets (fun s => IsTransactionExist (unit_ s) hash).

Inductive TxStatus := TxStatusNotIncluded | TxStatusIncluded | TxStatusQueued | TxStatusPending | TxStatusConfirmed | TxStatusUnKnow.
Definition Status (hashes : list bytes) : M (list TxStatus) :=
  let! poolTxs := AllTxpoolTxs in
  foldM (fun l hash =>
    match poolTxs !! hash with
    | Some r => let! p := deref r in
        ret (l ++ [if Pending p then TxStatusPending else if Confirmed p then TxStatusConfirmed
                   else if negb (Discarded p) then TxStatusQueued else TxStatusIncluded])
    | None => ret (l ++ [TxStatusNotIncluded])
    end) hashes [].

Definition Get (hash : bytes) : M (option nat * bytes) :=
  let! a := gets all in
  match a !! hash with
  | Some r =>
      let! p := deref r in
      if negb (bytes_equal (tx_Hash (Tx p)) hash) then all_Delete hash ;;; Removed ;;; ret (None, zeroHash)
      else if Pending p then ret (Some r, UnitHash p) else ret (Some r, zeroHash)
  | None => let! o := gets orphans in ret (o !! hash, zeroHash)
  end.

Definition OutPointIsSpend (outPoint : option OutPoint) : M bool :=
  let! o := get outPoint in
  if IsSelfHash (TxHash o) then ret false else
  let! m := gets outpoints in
  match m !! o with Some _ => throw AlreadySpent | None => ret false end.
Definition CheckSpend (output : OutPoint) : M (option T) :=
  let! m := gets outpoints in
  match m !! output with Some r => let! p := deref r in ret (Some (Tx p)) | None => ret None end.
Definition all_previous (t : T) : list (option OutPoint) := concat (map (fun ip => previous ip.2) (payments t)).
Definition checkPoolDoubleSpend (r : nat) : M unit :=
  let! p := deref r in
  each (fun o => OutPointIsSpend o ;;; ret tt) (all_previous (Tx p)).
Definition GetTxFee (t : T) : M (result tx_error AmountAsset) :=
  fun s => match Tx.GetTxFee (GetUtxoEntry s) (tx_Tx t) with Panic => (s, Panic) | v => (s, Ok v) end.

(** Whether an input is missing, with the error of the last query that failed. *)
Fixpoint missing (s : TxPool) (l : list (option OutPoint)) : result string unit :=
  match l with
  | [] => Ok tt
  | o :: l =>
      match GetUtxoEntry s o with
      | Panic => Panic
      | Ok _ => missing s l
      | Err e => match o with Some p => if bool_decide (is_Some (outputs s !! p)) then missing s l else Err e | None => Panic end
      end
  end.
Definition ValidateOrphanTx (t : T) : M (bool * option pool_error) :=
  if len (tx_Messages t) <=? 0 then ret (false, Some NullMessage)
  else fun s => (s, match missing s (all_previous t) with Panic => Panic | Ok _ => Ok (false, None) | Err e => Ok (true, Some (QueryError e)) end).

(** The strings of the addresses a transaction concerns, once for each payment message. *)
Definition script_strings (p : PaymentPayload) : list string :=
  omap (fun out => match GetAddressFromScript (PkScript out) with Ok a => Some (Address_String a) | _ => None end) (Outputs p).
Definition concerns (from : list Address) (t : T) : list string :=
  concat (map (fun ip => map Address_String from ++ script_strings ip.2) (payments t)).
Definition add_concerned (addr : string) (froms : T -> TxPool -> result string (list Address)) (r : nat) (txs : list nat) : M (list nat) :=
  let! p := deref r in
  let! s := gets id in
  match (match payments (Tx p) with [] => Ok [] | _ => froms (Tx p) s end) with
  | Panic => panic
  | v => ret (txs ++ map (fun _ => r) (List.filter (String.eqb addr) (concerns (match v with Ok l => l | _ => [] end) (Tx p))))
  end.
Fixpoint distinct (l : list nat) (result : list nat) : M (list nat) :=
  match l with
  | [] => ret result
  | r :: l =>
      let! p := deref r in
      let! found := foldM (fun b old => let! q := deref old in ret (b || bytes_equal (tx_Hash (Tx q)) (tx_Hash (Tx p)))) result false in
      distinct l (if found : bool then result else result ++ [r])
  end.
Definition getPoolTxsByAddr (addr : string) : M (list nat) :=
  let! poolTxs := AllTxpoolTxs in
  let! txs := foldM (fun txs '(_, r) => let! p := deref r in if Confirmed p then ret txs else
    add_concerned addr (fun t s => match GetFromAddrs (GetUtxoEntry s) GetAddressFromScript (tx_Tx t) with
      | Ok l => Ok (elements l) | Err _ => Err ""%string | Panic => Panic end) r txs) (go_range poolTxs) [] in
  let! orphanTxs := AllOrphanTxs in
  let! txs := foldM (fun txs '(h, r) => let! a := gets all in if bool_decide (is_Some (a !! h)) then ret txs else
    add_concerned addr (fun t s => GetTxFromAddress (unit_ s) t) r txs) (go_range orphanTxs) txs in
  distinct txs [].

(** ** Adding *)

Definition utxo_of (out : Output) : M Utxo :=
  let! a := get (out_Asset out) in ret (mkUtxo (Value out) (Some (mkAsset (AssetId a) (UniqueId a))) (PkScript out) 0 0 0).
Definition store_outputs (t : T) : M unit :=
  each (fun '(o, out) => let! utxo := utxo_of out in modify (fun s => with_outputs (<[o := utxo]> (outputs s)) s))
    (concat (map (made_points (tx_Hash t)) (payments t))).
Definition addCache (r : nat) : M unit :=
  let! p := deref r in
  each (fun ip =>
    each (fun o => match o with Some o => modify (fun s => with_outpoints (<[o := r]> (outpoints s)) s) | None => ret tt end) (previous ip.2) ;;;
    each (fun '(o, out) => let! utxo := utxo_of out in modify (fun s => with_outputs (<[o := utxo]> (outputs s)) s)) (made_points (tx_Hash (Tx p)) ip))
    (payments (Tx p)).
Definition addOrphan (r : nat) (tag : Z) : M unit :=
  let! c := gets config in
  if MaxOrphanTxs c <=? 0 then ret tt else
  let! p := deref r in
  update r (fun p => with_orphan true (with_expiry tag (CreationDate p + OrphanTTL c) p)) ;;;
  orphans_Store (tx_Hash (Tx p)) r ;;;
  store_outputs (Tx p).
Definition setPriorityLvl (now : Z) (r : nat) : M unit := update r (GetPriorityLvl now).
Definition validateTx (r : nat) : M (result (Z * string) (list Addition)) :=
  let! p := deref r in
  fun s => let '(c, v) := ValidateTx (GetUtxoEntry s) (unit_ s) (vcache s) (Tx p) in
           (with_cache c s, match v with Panic => Panic | v => Ok v end).
(** [if tx.TxFee != nil { tx.TxFee = make(...) }; tx.TxFee = append(tx.TxFee, addition...)]: a nil
    slice stays nil when nothing is appended. *)
Definition add_fee (addition : list Addition) (p : PoolTx) : PoolTx :=
  with_fee (match TxFee p, addition with None, [] => None | _, _ => Some addition end) p.

(** A dependent goes before the transaction; [fuel] bounds the depth. *)
Fixpoint removeTransaction (fuel : nat) (r : nat) (removeRedeemers : bool) : M unit :=
  match fuel with
  | O => panic
  | S fuel =>
      let! p := deref r in
      let hash := tx_Hash (Tx p) in
      (if removeRedeemers then
         each (fun '(preout, _) => let! m := gets outpoints in
           match m !! preout with Some q => removeTransaction fuel q true | None => ret tt end) (concat (map (made_points hash) (payments (Tx p))))
       else ret tt) ;;;
      let! a := gets all in
      match a !! hash with
      | None => ret tt
      | Some q =>
          let! pooltx := deref q in
          each (fun o => let! o := get o in outpoints_Delete o) (all_previous (Tx pooltx)) ;;;
          update r (fun p => with_status (Pending p) (Confirmed p) true p) ;;;
          all_Store hash r
      end
  end.
Definition remove_transaction (r : nat) (removeRedeemers : bool) : M unit :=
  let! h := gets heap in removeTransaction (S (length h)) r removeRedeemers.

(** [int(slots + queue - 1)] of uint64s *)
Definition pool_limit (c : TxPoolConfig) : Z := uint64 (GlobalSlots c + GlobalQueue c).
Definition make_room (r : nat) : M unit :=
  let! c := gets config in
  let! length := AllLength in
  if uint64 length <? pool_limit c then ret tt else
  let! under := Underpriced r in
  if under then throw ErrUnderpriced else
  let count := int64 (length - int64 (uint64 (pool_limit c - 1))) in
  if 0 <? count then
    let! drop := Discard count in
    each (fun tx => remove_transaction tx true) drop
  else ret tt.

Definition add (now : Z) (r : nat) : M bool :=
  let! tx := deref r in
  let! coinbase := lift (first_coinbase (Tx tx)) in
  if coinbase then ret true else
  let hash := tx_Hash (Tx tx) in
  let! a := gets all in
  if bool_decide (is_Some (a !! hash)) then throw KnownTransaction else
  let! orphan := isOrphanInPool hash in
  if orphan then throw KnownOrphan else
  let! packaged := IsTransactionExist_ hash in
  if packaged then throw Packaged else
  let! v := validateTx r in
  match v with
  | Err (code, err) =>
      let! ok := (if code =? TxValidationCode_ORPHAN then let! v := ValidateOrphanTx (Tx tx) in ret v.1 else ret false) in
      if ok : bool then addOrphan r 0 ;;; ret true else throw (Invalid code err)
  | Panic => panic
  | Ok addition =>
      update r (add_fee addition) ;;;
      setPriorityLvl now r ;;;
      make_room r ;;;
      go (PutPriority r) ;;;
      all_Store hash r ;;;
      addCache r ;;;
      go (JournalTx r) ;;;
      go (TxPreEvent r) ;;;
      ret true
  end.

(** ** Promotion: pool.promoteExecutables *)

Definition drop_offender (pendingTxs : list nat) (hash : bytes) (pending : Z) : M Z :=
  let! found := foldM (fun b tx => let! p := deref tx in ret (b || bytes_equal hash (tx_Hash (Tx p)))) pendingTxs false in
  if found : bool then all_Delete hash ;;; Removed ;;; ret (pending - 1) else ret pending.
Fixpoint drop_round (fuel : nat) (slots : Z) (pendingTxs : list nat) (offenders : list bytes) (pending : Z) : M Z :=
  if uint64 pending <=? slots then ret pending else
  match fuel with
  | O => panic
  | S fuel =>
      let! pending := foldM (fun n hash => drop_offender pendingTxs hash n) offenders pending in
      drop_round fuel slots pendingTxs offenders pending
  end.
(** The offenders come from the priority queue in descending order of their float32 priority, which
    is their index (exact below 2^24). *)
Fixpoint offend_loop (slots : Z) (pendingTxs : list nat) (spammers offenders : list bytes) (pending : Z) : M (list bytes * Z) :=
  if uint64 pending <=? slots then ret (offenders, pending) else
  match spammers with
  | [] => ret (offenders, pending)
  | offender :: spammers =>
      let offenders := offenders ++ [offender] in
      let! pending := (if 1 <? len offenders then drop_round (Z.to_nat pending) slots pendingTxs (removelast offenders) pending else ret pending) in
      offend_loop slots pendingTxs spammers offenders pending
  end.
Definition promoteExecutables : M unit :=
  let! poolTxs := AllTxpoolTxs in
  let! pendingTxs := foldM (fun l '(_, r) => let! p := deref r in ret (if Pending p then l else l ++ [r])) (go_range poolTxs) [] in
  let! c := gets config in
  let slots := GlobalSlots c in
  let pending := len pendingTxs in
  if uint64 pending <=? slots then ret tt else
  let! hashes := foldM (fun l r => let! p := deref r in ret (l ++ [tx_Hash (Tx p)])) pendingTxs [] in
  let! (offenders, pending) := offend_loop slots pendingTxs (rev hashes) [] pending in
  if (slots <? uint64 pending) && (0 <? len offenders) then
    drop_round (Z.to_nat pending) slots pendingTxs offenders pending ;;; ret tt
  else ret tt.

(** ** Entering the pool *)

Definition IsNewContractInvokeRequest_ (t : T) : M bool := lift (IsNewContractInvokeRequest (tx_Tx t)).
Definition addTx (now : Z) (r : nat) : M unit :=
  let! replace := add now r in
  if replace then ret tt else promoteExecutables.
Definition addLocal (now : Z) (r : nat) : M unit := addTx now r.
Definition AddLocal (now : Z) (t : T) : M unit :=
  let! request := IsNewContractInvokeRequest_ t in
  if request then ret tt else
  let! r := alloc (TxtoTxpoolTx now t) in addLocal now r.
Definition AddRemote (now : Z) (t : T) : M unit :=
  let! request := IsNewContractInvokeRequest_ t in
  if request then ret tt else
  let! coinbase := lift (first_coinbase t) in
  if coinbase then ret tt else
  let! r := alloc (TxtoTxpoolTx now t) in addTx now r.

(** Errors are collected; the first one ends the loop. *)
Fixpoint addTxs_loop (now : Z) (l : list nat) (replace : bool) : M (bool * list pool_error) :=
  match l with
  | [] => ret (replace, [])
  | r :: l => fun s =>
      match add now r s with
      | (s, Ok replace) => addTxs_loop now l replace s
      | (s, Err e) => (s, Ok (false, [e]))
      | (s, Panic) => (s, Panic)
      end
  end.
Definition addTxsLocked (now : Z) (l : list nat) : M (list pool_error) :=
  let! (replace, errs) := addTxs_loop now l false in
  (if replace : bool then ret tt else promoteExecutables) ;;;
  ret errs.
Definition alloc_all (now : Z) (txs : list T) : M (list nat) :=
  foldM (fun l t => let! r := alloc (TxtoTxpoolTx now t) in ret (l ++ [r])) txs [].
Definition AddLocals (now : Z) (txs : list T) : M (list pool_error) := let! l := alloc_all now txs in addTxsLocked now l.
Definition AddRemotes (now : Z) (txs : list T) : M (list pool_error) := let! l := alloc_all now txs in addTxsLocked now l.

Definition addSequenTx (now : Z) (r : nat) : M unit :=
  let! p := deref r in
  let hash := tx_Hash (Tx p) in
  let! packaged := IsTransactionExist_ hash in
  if packaged then ret tt else
  let! known := isTransactionInPool hash in
  if known then ret tt else
  let! v := validateTx r in
  match v with
  | Err (code, err) => throw (Invalid code err)
  | Panic => panic
  | Ok addition =>
      update r (add_fee addition) ;;;
      checkPoolDoubleSpend r ;;;
      setPriorityLvl now r ;;;
      modify (fun s => with_sequen (sequenTxs s ++ [r]) s) ;;;
      all_Store hash r ;;;
      addCache r ;;;
      go (TxPreEvent r)
  end.
Definition AddSequenTx (now : Z) (t : T) : M unit := let! r := alloc (TxtoTxpoolTx now t) in addSequenTx now r.
Definition AddSequenTxs (now : Z) (txs : list T) : M unit := each (AddSequenTx now) txs.

(** The transaction and the time of a descriptor *)
Definition maybeAcceptTransaction (now : Z) (t : T) : M (option (T * Z)) :=
  let! known := isTransactionInPool (tx_Hash t) in
  if known then ret None else
  match CheckTransactionSanity t with
  | Some e => throw (Unsane e)
  | None =>
      if IsCoinBase t then ret None else
      let! r := alloc (TxtoTxpoolTx now t) in
      checkPoolDoubleSpend r ;;;
      add now r ;;;
      let! p := deref r in
      ret (Some (t, CreationDate p))
  end.
Definition ProcessTransaction (now : Z) (t : T) : M unit := maybeAcceptTransaction now t ;;; ret tt.

(** ** Leaving the pool *)

Definition delete_made (hash : bytes) (t : T) : M unit := each (fun '(o, _) => deleteOrphanTxOutputs o) (concat (map (made_points hash) (payments t))).
Definition delete_spent (t : T) : M unit := each outpoints_Delete (spends t).
Definition DeleteTxByHash (hash : bytes) : M unit :=
  let! a := gets all in
  match a !! hash with
  | None => throw NotInPool
  | Some r =>
      all_Delete hash ;;;
      orphans_Delete hash ;;;
      Removed ;;;
      let! p := deref r in
      delete_spent (Tx p) ;;;
      delete_made hash (Tx p)
  end.
Definition removeTx (hash : bytes) : M unit :=
  let! a := gets all in
  match a !! hash with
  | None => ret tt
  | Some r =>
      update r (fun p => with_status (Pending p) true (Discarded p) p) ;;;
      all_Store hash r ;;;
      let! p := deref r in
      delete_spent (Tx p) ;;;
      delete_made hash (Tx p)
  end.
Definition RemoveTxs (hashs : list bytes) : M unit := each removeTx hashs.
Definition SendStoredTxs (hashs : list bytes) : M unit := RemoveTxs hashs.
Definition RemoveTransaction (hash : bytes) (removeRedeemers : bool) : M unit :=
  let! a := gets all in
  match a !! hash with Some r => go (RemoveTransaction_ r removeRedeemers) | None => go (RemoveTx hash) end.
(** The payload of a payment message is asserted to be a payment. *)
Definition RemoveDoubleSpends (t : T) : M unit :=
  each (fun msg => if App msg =? APP_PAYMENT then
      let! p := lift (as_payment msg) in
      each (fun o => let! o := get o in let! m := gets outpoints in
        match m !! o with Some ptx => go (RemoveTransaction_ ptx true) | None => ret tt end) (previous p)
    else ret tt) (tx_Messages t).
Definition is_before (t now : Z) : bool := t <? now.
(** The errors of the deletions are dropped. *)
Definition try {A} (m : M A) : M unit := fun s => match m s with (s, Panic) => (s, Panic) | (s, _) => (s, Ok tt) end.
Definition DeleteTx (now : Z) : M unit :=
  let! c := gets config in
  let! txs := AllTxpoolTxs in
  each (fun '(hash, r) =>
    let! p := deref r in
    if Discarded p || (Confirmed p && is_before (CreationDate p + Removetime c) now) || is_before (CreationDate p + Lifetime c) now
    then try (DeleteTxByHash hash) else ret tt) (go_range txs).

Definition discardTx (hash : bytes) : M unit :=
  let! o := gets orphans in
  let! a := gets all in
  let mark r := update r (fun p => with_status (Pending p) (Confirmed p) true p) in
  match o !! hash with Some r => mark r ;;; orphans_Store hash r | None => ret tt end ;;;
  match a !! hash with Some r => mark r ;;; all_Store hash r | None => ret tt end.
Definition DiscardTx (hash : bytes) : M unit := discardTx hash.
Definition DiscardTxs (hashs : list bytes) : M unit := each discardTx hashs.

(** ** Orphans *)

Definition removeOrphan (r : nat) (reRedeemers : bool) : M unit :=
  let! p := deref r in
  let hash := tx_Hash (Tx p) in
  let! orphanTxs := AllOrphanTxs in
  match orphanTxs !! hash with
  | None => ret tt
  | Some q =>
      let! otx := deref q in
      each (fun o => let! o := get o in deleteOrphanTxOutputs o) (all_previous (Tx otx)) ;;;
      (if reRedeemers then delete_made hash (Tx p) else ret tt) ;;;
      orphans_Delete hash
  end.
Definition RemoveOrphan (r : nat) : M unit := removeOrphan r false.
Definition limitNumberOrphans (now : Z) : M unit :=
  let! orphanTxs := AllOrphanTxs in
  let! next := gets nextExpireScan in
  let! c := gets config in
  (if next <? now then
     each (fun '(_, tx) =>
       let! p := deref tx in
       (if Expiration p <? now then removeOrphan tx true else ret tt) ;;;
       let! (ok, err) := ValidateOrphanTx (Tx p) in
       match ok, err with false, None => try (add now tx) | _, _ => ret tt end) (go_range orphanTxs) ;;;
     modify (with_scan (now + OrphanTTL c))
   else ret tt) ;;;
  let! rest := AllOrphanTxs in
  if Z.of_nat (size rest) + 1 <=? MaxOrphanTxs c then ret tt else
  match go_range orphanTxs with
  | [] => ret tt
  | (_, tx) :: _ => removeOrphan tx false
  end.

(** ** Units *)

Definition deletePoolUtxos (t : T) : M unit := each (fun o => let! o := get o in deleteOrphanTxOutputs o) (all_previous t).
Definition own_fee (r : nat) : M unit :=
  let! p := deref r in
  match TxFee p with
  | Some _ => ret tt
  | None =>
      let! amount := GetTxFee (Tx p) in
      match amount with Ok a => update r (with_fee (Some [mkAddition zeroAddress (aa_Amount a) (aa_Asset a)])) | _ => ret tt end
  end.
Definition promoteTx (now : Z) (hash : bytes) (r : nat) (number index : Z) : M unit :=
  let! tx := deref r in
  let tx_hash := tx_Hash (Tx tx) in
  own_fee r ;;;
  setPriorityLvl now r ;;;
  let! a := gets all in
  let! better := match a !! tx_hash with
                 | Some this => let! p := deref this in ret (if Pending p || Confirmed p then Some this else None)
                 | None => ret None
                 end in
  match better with
  | Some this =>
      update this (fun p => with_status true (Confirmed p) true p) ;;;
      all_Store tx_hash this ;;;
      deletePoolUtxos (Tx tx)
  | None =>
      update r (fun p => with_index index (with_unit hash number (with_status true false false p))) ;;;
      deletePoolUtxos (Tx tx) ;;;
      all_Store tx_hash r
  end.
Definition setPendingTx (now : Z) (unit_hash : bytes) (t : T) (number index : Z) : M unit :=
  let! a := gets all in
  match a !! tx_Hash t with
  | Some r => update r (fun p => with_index index (with_status true false false p)) ;;; all_Store (tx_Hash t) r
  | None =>
      let! r := alloc (TxtoTxpoolTx now t) in
      addCache r ;;;
      promoteTx now unit_hash r number index
  end.
Fixpoint pending_loop (now : Z) (unit_hash : bytes) (num i : Z) (txs : list T) : M unit :=
  match txs with
  | [] => ret tt
  | t :: txs => (if i =? 0 then ret tt else setPendingTx now unit_hash t num i) ;;; pending_loop now unit_hash num (i + 1) txs
  end.
Definition SetPendingTxs (now : Z) (unit_hash : bytes) (num : Z) (txs : list T) : M unit :=
  pending_loop now unit_hash num 0 txs ;;;
  if 0 <? len txs then Removed else ret tt.
Definition resetPendingTx (now : Z) (t : T) : M unit :=
  try (DeleteTxByHash (tx_Hash t)) ;;;
  let! r := alloc (TxtoTxpoolTx now t) in
  add now r ;;; ret tt.
Definition ResetPendingTxs (now : Z) (txs : list T) : M unit := each (fun t => try (resetPendingTx now t)) (tail txs).

(** ** The transactions of the next unit *)

(** The transaction of the pool with a hash, else the orphan. *)
Definition waiting (poolTxs orphanTxs : gmap bytes nat) (h : bytes) : option nat :=
  match poolTxs !! h with Some queue_tx => Some queue_tx | None => orphanTxs !! h end.
(** The pool transactions that make the missing inputs of a transaction, each after its own. *)
Fixpoint getPrecusorTxs (fuel : nat) (r : nat) (poolTxs orphanTxs : gmap bytes nat) : M (list nat) :=
  match fuel with
  | O => panic
  | S fuel =>
      let! p := deref r in
      foldM (fun pretxs o =>
        let! u := gets unit_ in
        match dag_GetUtxoEntry u o with
        | Panic => panic
        | Ok _ => ret pretxs
        | Err _ =>
            match waiting poolTxs orphanTxs (TxHash o) with
            | None => ret pretxs
            | Some queue_tx =>
                let! q := deref queue_tx in
                if Pending q then ret pretxs else
                let! list := getPrecusorTxs fuel queue_tx poolTxs orphanTxs in
                ret (pretxs ++ list ++ [queue_tx])
            end
        end) (spends (Tx p)) []
  end.
Definition precusors (r : nat) (poolTxs orphanTxs : gmap bytes nat) : M (list nat) :=
  let! h := gets heap in getPrecusorTxs (S (length h)) r poolTxs orphanTxs.

Definition sizes (l : list nat) (total : float64) : M float64 := foldM (fun total r => let! p := deref r in ret (fadd total (tx_Size (Tx p)))) l total.
(** [turns]: how many turns the clock allows. *)
Fixpoint select_loop (turns : nat) (poolTxs orphanTxs : gmap bytes nat) (list : list nat) (total : float64) : M (Datatypes.list nat * float64) :=
  match turns with
  | O => ret (list, total)
  | S turns =>
      if fge total (of_int UnitMaxSize) then ret (list, total) else
      let! tx := priority_Get in
      match tx with
      | None => ret (list, total)
      | Some r =>
          let! p := deref r in
          if Pending p then select_loop turns poolTxs orphanTxs list total else
          let! packaged := IsTransactionExist_ (tx_Hash (Tx p)) in
          if packaged then select_loop turns poolTxs orphanTxs list total else
          let! p_txs := precusors r poolTxs orphanTxs in
          let! total := sizes (p_txs ++ [r]) total in
          select_loop turns poolTxs orphanTxs (list ++ p_txs ++ [r]) total
      end
  end.
Fixpoint orphan_loop (hash : bytes) (index : Z) (or_list : list nat) (list : list nat) (total : float64) : M (Datatypes.list nat * float64) :=
  match or_list with
  | [] => ret (list, total)
  | r :: or_list =>
      let! p := deref r in
      let txhash := tx_Hash (Tx p) in
      let! packaged := IsTransactionExist_ txhash in
      if packaged then orphans_Delete txhash ;;; orphan_loop hash index or_list list total else
      let! (ok, err) := ValidateOrphanTx (Tx p) in
      match ok, err with
      | false, None =>
          update r (fun p => with_orphan false (with_unit hash index (with_status true (Confirmed p) (Discarded p) p))) ;;;
          all_Store txhash r ;;;
          orphans_Delete txhash ;;;
          let list := list ++ [r] in
          let total := fadd total (tx_Size (Tx p)) in
          if fgt total (of_int UnitMaxSize) then ret (list, total) else orphan_loop hash index or_list list total
      | _, _ => orphan_loop hash index or_list list total
      end
  end.
(** The last transaction with a hash stands at the first place of the hash. *)
Fixpoint index_loop (i : Z) (list : list nat) (m : gmap bytes nat) (indexL : Datatypes.list bytes) : M (gmap bytes nat * Datatypes.list bytes) :=
  match list with
  | [] => ret (m, indexL)
  | r :: list =>
      let! p := deref r in
      update r (with_index i) ;;;
      index_loop (i + 1) list (<[tx_Hash (Tx p) := r]> m) (indexL ++ [tx_Hash (Tx p)])
  end.
Fixpoint unique_loop (hash : bytes) (index i : Z) (indexL : list bytes) (m : gmap bytes nat) (list : list nat) : M (Datatypes.list nat) :=
  match indexL with
  | [] => ret list
  | t_hash :: indexL =>
      match m !! t_hash with
      | None => unique_loop hash index (i + 1) indexL m list
      | Some tx =>
          let m := delete t_hash m in
          let! packaged := IsTransactionExist_ t_hash in
          if packaged then go (DeleteHash t_hash) ;;; unique_loop hash index (i + 1) indexL m list
          else go (PromoteTx hash tx index i) ;;; unique_loop hash index (i + 1) indexL m (list ++ [tx])
      end
  end.
Definition sort_orphans (l : list nat) : M (list nat) :=
  let! keys := foldM (fun k r => let! p := deref r in ret (k ++ [(Unix (CreationDate p), r)])) l [] in
  ret (sort_Sort keys).*2.
Definition GetSortedTxs (turns : nat) (hash : bytes) (index : Z) : M (list nat * float64) :=
  let! stxs := GetSequenTxs in
  let! poolTxs := AllTxpoolTxs in
  let! orphanTxs := AllOrphanTxs in
  let! total := sizes stxs (S754_zero false) in
  let! (list, total) := select_loop turns poolTxs orphanTxs stxs total in
  let! or_list := sort_orphans (go_range orphanTxs).*2 in
  let! (list, total) := orphan_loop hash index or_list list total in
  let! (m, indexL) := index_loop 0 list ∅ [] in
  let! list := unique_loop hash index 0 indexL m [] in
  ret (list, total).

(** ** The journal and the scheduler *)

Definition journal_insert (p : PoolTx) (j : bool * list PoolTx) : bool * list PoolTx := if j.1 then (true, j.2 ++ [p]) else j.
(** Without a journal the log statement, or the insertion, dereferences nil. *)
Definition journalTx (r : nat) : M unit :=
  let! c := gets config in
  if NoLocals c then ret tt else
  let! p := deref r in
  let! j := gets journal in
  let! j := get j in
  modify (with_journal (Some (journal_insert p j))).
Definition rotate (txs : list nat) : M unit :=
  let! l := foldM (fun l r => let! p := deref r in ret (l ++ [p])) txs [] in
  modify (with_journal (Some (true, l))).
(** The files, read and written without errors: [stored] is what the journal file holds. *)
Definition startJournal (now : Z) (stored : list PoolTx) : M unit :=
  let! c := gets config in
  if NoLocals c || String.eqb (Journal c) "" then ret tt else
  modify (with_journal (Some (true, []))) ;;;
  each (fun p => let! r := alloc p in try (addLocal now r)) stored ;;;
  let! txs := local_ in
  rotate (map_to_list txs).*2.

(** What the scheduler runs, one job at a time in any order; a panic of a goroutine ends the node. *)
Definition run_job (now : Z) (j : job) : M unit :=
  match j with
  | PutPriority r => Put r
  | JournalTx r => journalTx r
  | TxPreEvent _ => ret tt
  | PromoteTx hash r number index => promoteTx now hash r number index
  | DeleteHash hash => try (DeleteTxByHash hash)
  | RemoveTx hash => removeTx hash
  | RemoveTransaction_ r redeemers => remove_transaction r redeemers
  end.
Definition run_next (now : Z) (i : nat) : M unit :=
  let! l := gets jobs in
  match l !! i with
  | None => ret tt
  | Some j => modify (with_jobs (base.delete i l)) ;;; run_job now j
  end.
End Machine.

End Pool.
