(* ===== verification/TxPoolProps.v ===== *)
(** * The invariant of the transaction pool

    What every operation of TxPool.v keeps, whatever its outcome: maps name transactions by their
    hash, an outpoint is marked by a transaction that spends it, pointers do not dangle and never
    change their transaction.  [wp] states it for one computation; the lemmas [wp_...], in the
    database [wps], compose it. *)

From S2P Require Import Prelude Errors Float64 Opcode Script Address Standard Tx AssetId TxFee Unit ValPayment HeapSort Pickup TxPool.
From Stdlib Require Import ZArith Lia Bool ZifyBool.
Import Heap Pick Pool.
Local Open Scope Z_scope.

Module PoolProps.

Create HintDb wps.

Section Props.
Context {T : Type} `{!PoolItem T} `{!Dags T} `{!GoRange bytes nat} `{!PrioritySort} `{!GoSorter by_creation}.
Abbreviation Pool := (TxPool (T := T)).
Abbreviation M := (ST Pool pool_error).
Implicit Types (s : Pool) (r : nat) (t : T) (h : bytes) (o : OutPoint).

(** ** The invariant *)

(** The transaction behind a pointer. *)
Definition has s r t : Prop := Tx <$> heap s !! r = Some t.
Definition known s r : Prop := exists t, has s r t.
Definition job_known s (j : job) : Prop :=
  match j with
  | PutPriority r | JournalTx r | TxPreEvent r | PromoteTx _ r _ _ | RemoveTransaction_ r _ => known s r
  | DeleteHash _ | RemoveTx _ => True
  end.

(** Maps name transactions by their hash, an outpoint is marked by a transaction that spends it,
    and every pointer is to a transaction. *)
Record pool_ok s : Prop := {
  ok_all : forall h r, all s !! h = Some r -> exists t, has s r t /\ tx_Hash t = h;
  ok_orphans : forall h r, orphans s !! h = Some r -> exists t, has s r t /\ tx_Hash t = h;
  ok_outpoints : forall o r, outpoints s !! o = Some r -> exists t, has s r t /\ o ∈ spends t;
  ok_items : forall r, r ∈ items s -> known s r;
  ok_sequen : forall r, r ∈ sequenTxs s -> known s r;
  ok_jobs : forall j, j ∈ jobs s -> job_known s j }.

(** Pointers keep their transactions. *)
Definition grows s s' : Prop := forall r t, has s r t -> has s' r t.
Lemma grows_refl s : grows s s.
Proof. by intros r t. Qed.
Lemma grows_trans s1 s2 s3 : grows s1 s2 -> grows s2 s3 -> grows s1 s3.
Proof. intros A B r t E. by apply B, A. Qed.
Lemma known_grows s s' r : grows s s' -> known s r -> known s' r.
Proof. intros G [t E]. exists t. by apply G. Qed.
Lemma job_grows s s' j : grows s s' -> job_known s j -> job_known s' j.
Proof. destruct j; simpl; try done; apply known_grows. Qed.
Lemma has_fun s r t t' : has s r t -> has s r t' -> t = t'.
Proof. unfold has. congruence. Qed.

(** What a computation promises from a good pool: the pool stays good, and [Q] of what it returns. *)
Definition wp {A} (m : M A) s (Q : A -> Pool -> Prop) : Prop :=
  pool_ok s -> pool_ok (m s).1 /\ grows s (m s).1 /\ forall a, (m s).2 = Ok a -> Q a (m s).1.

Lemma wp_bind {A B} (m : M A) (k : A -> M B) s Q :
  wp m s (fun a s' => grows s s' -> wp (k a) s' Q) -> wp (bind m k) s Q.
Proof.
  intros W I. destruct (W I) as (I' & G & K). unfold bind. destruct (m s) as [s' [a| |]]; simpl in *; [|done..].
  destruct (K a eq_refl G I') as (I2 & G2 & K2). split_and!; [done|by eapply grows_trans|done].
Qed.
Lemma wp_mono {A} (m : M A) s (P Q : A -> Pool -> Prop) : wp m s P -> (forall a s', pool_ok s' -> grows s s' -> P a s' -> Q a s') -> wp m s Q.
Proof. intros W K I. destruct (W I) as (I' & G & Hp). split_and!; auto. Qed.
Lemma wp_ret {A} (a : A) s (Q : A -> Pool -> Prop) : Q a s -> wp (ret a) s Q.
Proof. intros K I. split_and!; [done|apply grows_refl|]. simpl. by intros b [= <-]. Qed.
Lemma wp_throw {A} e s (Q : A -> Pool -> Prop) : wp (throw e) s Q.
Proof. intros I. split_and!; [done|apply grows_refl|done]. Qed.
Lemma wp_panic {A} s (Q : A -> Pool -> Prop) : wp panic s Q.
Proof. intros I. split_and!; [done|apply grows_refl|done]. Qed.
Lemma wp_gets {A} (f : Pool -> A) s (Q : A -> Pool -> Prop) : Q (f s) s -> wp (gets f) s Q.
Proof. apply (wp_ret (f s)). Qed.
Lemma wp_lift {A} (v : result pool_error A) s (Q : A -> Pool -> Prop) : (forall a, v = Ok a -> Q a s) -> wp (lift v) s Q.
Proof. intros K I. split_and!; [done|apply grows_refl|]. simpl. intros a E. by apply K. Qed.
Lemma wp_get {A} (x : option A) s (Q : A -> Pool -> Prop) : (forall a, x = Some a -> Q a s) -> wp (get x) s Q.
Proof. intros K. destruct x; [by apply wp_ret, K|apply wp_panic]. Qed.
Lemma wp_modify (f : Pool -> Pool) s (Q : unit -> Pool -> Prop) : (pool_ok s -> pool_ok (f s) /\ grows s (f s)) -> Q tt (f s) -> wp (modify f) s Q.
Proof. intros K Hq I. destruct (K I). split_and!; [done..|]. by intros []. Qed.
Lemma wp_deref r s (Q : TxPoolTransaction T -> Pool -> Prop) : (forall p, has s r (Tx p) -> heap s !! r = Some p -> Q p s) -> wp (deref r) s Q.
Proof. intros K. apply wp_bind, wp_gets. intros _. apply wp_get. intros p E. apply K; [|done]. unfold has. by rewrite E. Qed.
Lemma wp_try {A} (m : M A) s Q : wp m s (fun _ _ => True) -> (forall s', pool_ok s' -> grows s s' -> Q tt s') -> wp (try m) s Q.
Proof.
  intros W K I. destruct (W I) as (I' & G & _). unfold try. destruct (m s) as [s' [a| |]]; simpl in *; split_and!; try done; intros [] [=]; auto.
Qed.
Lemma wp_each {A} (f : A -> M unit) l s : (forall a s', a ∈ l -> grows s s' -> wp (f a) s' (fun _ _ => True)) -> wp (each f l) s (fun _ _ => True).
Proof.
  intros K. cut (forall s', grows s s' -> wp (each f l) s' (fun _ _ => True)); [intros Hc; apply Hc, grows_refl|].
  induction l as [|a l IH]; intros s' G; [by apply wp_ret|]. apply wp_bind. eapply wp_mono; [apply K; [left|done]|].
  intros _ s2 I2 G2 _ _. apply IH; [|by eapply grows_trans]. intros b s3 E. apply K. by right.
Qed.
(** The property of the accumulator must not be lost as the pool grows. *)
Lemma wp_foldM {A B} (P : B -> Pool -> Prop) (f : B -> A -> M B) l s b : (forall c s1 s2, grows s1 s2 -> P c s1 -> P c s2) ->
  (forall a c s', a ∈ l -> grows s s' -> P c s' -> wp (f c a) s' P) -> P b s -> wp (foldM f l b) s P.
Proof.
  intros Hm K Hb. cut (forall s', grows s s' -> forall c, P c s' -> wp (foldM f l c) s' P); [intros Hc; apply Hc; [apply grows_refl|done]|].
  induction l as [|a l IH]; intros s' G c Hc; [by apply wp_ret|]. apply wp_bind. eapply wp_mono; [apply K; [left|done|done]|].
  intros d s2 I2 G2 Hd _. apply IH; [|by eapply grows_trans|done]. intros x y s3 E. apply K. by right.
Qed.
Lemma wp_ok {A} (m : M A) s Q : (pool_ok s -> wp m s Q) -> wp m s Q.
Proof. intros K I. by apply K. Qed.
Lemma wp_true {A} (m : M A) s Q : wp m s Q -> wp m s (fun _ _ => True).
Proof. intros W. by eapply wp_mono. Qed.

(** ** The ways a state changes *)

Lemma grows_same s s' : heap s' = heap s -> grows s s'.
Proof. intros E r t Ht. unfold has in *. by rewrite E. Qed.
Hint Resolve grows_refl grows_same : core.

Ltac fields := intros I; split; [destruct I; constructor; simpl; try assumption|by apply grows_same].

Lemma ok_heap l s : grows s (with_heap l s) -> pool_ok s -> pool_ok (with_heap l s) /\ grows s (with_heap l s).
Proof.
  intros G I. split; [|done]. destruct I as [A O P It Sq J]. constructor; simpl.
  1: intros k r (t & Ht & K)%A. 2: intros k r (t & Ht & K)%O. 3: intros k r (t & Ht & K)%P.
  1-3: exists t; split; [by apply G|done].
  1-2: intros r E; eapply known_grows; [exact G|auto].
  intros j E. eapply job_grows; [exact G|auto].
Qed.
Lemma ok_cache c s : pool_ok s -> pool_ok (with_cache c s) /\ grows s (with_cache c s).
Proof. fields. Qed.
Lemma ok_outputs m s : pool_ok s -> pool_ok (with_outputs m s) /\ grows s (with_outputs m s).
Proof. fields. Qed.
Lemma ok_scan (z : Z) s : pool_ok s -> pool_ok (with_scan z s) /\ grows s (with_scan z s).
Proof. fields. Qed.
Lemma ok_journal j s : pool_ok s -> pool_ok (with_journal j s) /\ grows s (with_journal j s).
Proof. fields. Qed.
Lemma ok_with_all m s : (forall h r, m !! h = Some r -> all s !! h = Some r \/ exists t, has s r t /\ tx_Hash t = h) -> pool_ok s ->
  pool_ok (with_all m s) /\ grows s (with_all m s).
Proof. intros K. fields. intros h r E. destruct (K h r E) as [Ha|Ht]; [by apply ok_all0|exact Ht]. Qed.
Lemma ok_with_orphans m s : (forall h r, m !! h = Some r -> orphans s !! h = Some r \/ exists t, has s r t /\ tx_Hash t = h) -> pool_ok s ->
  pool_ok (with_orphans m s) /\ grows s (with_orphans m s).
Proof. intros K. fields. intros h r E. destruct (K h r E) as [Ha|Ht]; [by apply ok_orphans0|exact Ht]. Qed.
Lemma ok_with_outpoints m s : (forall o r, m !! o = Some r -> outpoints s !! o = Some r \/ exists t, has s r t /\ o ∈ spends t) -> pool_ok s ->
  pool_ok (with_outpoints m s) /\ grows s (with_outpoints m s).
Proof. intros K. fields. intros o r E. destruct (K o r E) as [Ha|Ht]; [by apply ok_outpoints0|exact Ht]. Qed.
Lemma ok_with_items l n s : (forall r, r ∈ l -> known s r) -> pool_ok s -> pool_ok (with_items l n s) /\ grows s (with_items l n s).
Proof. intros K. fields. Qed.
Lemma ok_with_sequen l s : (forall r, r ∈ l -> known s r) -> pool_ok s -> pool_ok (with_sequen l s) /\ grows s (with_sequen l s).
Proof. intros K. fields. Qed.
Lemma ok_with_jobs l s : (forall j, j ∈ l -> job_known s j) -> pool_ok s -> pool_ok (with_jobs l s) /\ grows s (with_jobs l s).
Proof. intros K. fields. Qed.

(** ** The basic operations *)

Lemma has_alter r f s r' : (forall p, Tx (f p) = Tx p) -> forall t, has (with_heap (alter f r (heap s)) s) r' t <-> has s r' t.
Proof.
  intros K t. unfold has. simpl. rewrite list_lookup_alter. destruct (decide (r = r')) as [->|N], (heap s !! r') as [p|]; simpl; by rewrite ?K.
Qed.
Lemma wp_update r f s Q : (forall p, Tx (f p) = Tx p) -> Q tt (with_heap (alter f r (heap s)) s) -> wp (update r f) s Q.
Proof. intros K Hq. apply wp_modify; [|done]. apply ok_heap. intros r' t. by rewrite has_alter. Qed.
Lemma wp_alloc p s Q : (forall s', has s' (length (heap s)) (Tx p) -> grows s s' -> Q (length (heap s)) s') -> wp (alloc p) s Q.
Proof.
  intros K I. unfold alloc. simpl. assert (G : grows s (with_heap (heap s ++ [p]) s)).
  { intros r t E. unfold has in *. simpl. destruct (heap s !! r) as [q|] eqn:Eq; [|done]. by rewrite (lookup_app_l_Some _ _ _ _ Eq). }
  split_and!; [by apply ok_heap|done|]. intros a [= <-]. apply K; [|done]. unfold has. simpl.
  by rewrite lookup_app_r, Nat.sub_diag by lia.
Qed.
Lemma wp_go j s Q : job_known s j -> Q tt (with_jobs (jobs s ++ [j]) s) -> wp (go j) s Q.
Proof.
  intros K Hq. apply wp_modify; [|done]. intros I. apply ok_with_jobs; [|done]. intros j'. rewrite elem_of_app, list_elem_of_singleton.
  intros [E| ->]; [by apply I|done].
Qed.
Lemma wp_all_Store h r s Q : (exists t, has s r t /\ tx_Hash t = h) -> Q tt (with_all (<[h := r]> (all s)) s) -> wp (all_Store h r) s Q.
Proof.
  intros K Hq. apply wp_modify; [|done]. apply ok_with_all. intros h' r'. rewrite lookup_insert_Some. intros [[<- <-]|[_ E]]; auto.
Qed.
Lemma wp_all_Delete h s Q : Q tt (with_all (delete h (all s)) s) -> wp (all_Delete h) s Q.
Proof. intros Hq. apply wp_modify; [|done]. apply ok_with_all. intros h' r'. rewrite lookup_delete_Some. intros [_ E]. auto. Qed.
Lemma wp_orphans_Store h r s Q : (exists t, has s r t /\ tx_Hash t = h) -> Q tt (with_orphans (<[h := r]> (orphans s)) s) -> wp (orphans_Store h r) s Q.
Proof.
  intros K Hq. apply wp_modify; [|done]. apply ok_with_orphans. intros h' r'. rewrite lookup_insert_Some. intros [[<- <-]|[_ E]]; auto.
Qed.
Lemma wp_orphans_Delete h s Q : Q tt (with_orphans (delete h (orphans s)) s) -> wp (orphans_Delete h) s Q.
Proof. intros Hq. apply wp_modify; [|done]. apply ok_with_orphans. intros h' r'. rewrite lookup_delete_Some. intros [_ E]. auto. Qed.
Lemma wp_mark o r s Q : (exists t, has s r t /\ o ∈ spends t) -> Q tt (with_outpoints (<[o := r]> (outpoints s)) s) ->
  wp (modify (fun s => with_outpoints (<[o := r]> (outpoints s)) s)) s Q.
Proof.
  intros K Hq. apply wp_modify; [|done]. apply ok_with_outpoints. intros h' r'. rewrite lookup_insert_Some. intros [[<- <-]|[_ E]]; auto.
Qed.
Lemma wp_outpoints_Delete o s Q : Q tt (with_outpoints (delete o (outpoints s)) s) -> wp (outpoints_Delete o) s Q.
Proof. intros Hq. apply wp_modify; [|done]. apply ok_with_outpoints. intros h' r'. rewrite lookup_delete_Some. intros [_ E]. auto. Qed.
Lemma wp_outputs_Delete o s Q : Q tt (with_outputs (delete o (outputs s)) s) -> wp (deleteOrphanTxOutputs o) s Q.
Proof. intros Hq. apply wp_modify; [apply ok_outputs|done]. Qed.

Lemma in_range (m : gmap bytes nat) h r : (h, r) ∈ go_range m <-> m !! h = Some r.
Proof. by rewrite go_range_perm, elem_of_map_to_list. Qed.
Lemma sort_items_in (l : list (TxPoolTransaction T)) k r : r ∈ sort_items l k <-> r ∈ k.
Proof.
  unfold sort_items. rewrite sort_priority_perm. unfold keyed. rewrite <- list_fmap_compose.
  replace (snd ∘ _) with (@id nat) by reflexivity. by rewrite list_fmap_id.
Qed.

(** ** What every operation keeps *)

Definition names (m : gmap bytes nat) s : Prop := forall h r, m !! h = Some r -> exists t, has s r t /\ tx_Hash t = h.
Definition knowns (l : list nat) s : Prop := forall r, r ∈ l -> known s r.
Lemma names_grows m s s' : grows s s' -> names m s -> names m s'.
Proof. intros G N h r E. destruct (N h r E) as (t & Ht & K). exists t. by split; [apply G|]. Qed.
Lemma knowns_grows l s s' : grows s s' -> knowns l s -> knowns l s'.
Proof. intros G N r E. eapply known_grows; eauto. Qed.
Lemma knowns_app l k s : knowns l s -> knowns k s -> knowns (l ++ k) s.
Proof. intros A B r. rewrite elem_of_app. intros [E|E]; auto. Qed.
Lemma knowns_one r s : known s r -> knowns [r] s.
Proof. intros K x. by rewrite list_elem_of_singleton; intros ->. Qed.
Lemma knowns_nil s : knowns [] s.
Proof. intros x E. by apply not_elem_of_nil in E. Qed.
Lemma names_range m s : names m s -> knowns (go_range m).*2 s.
Proof. intros N r ([h r'] & -> & E)%list_elem_of_fmap. apply in_range in E. destruct (N h r' E) as (t & Ht & _). by exists t. Qed.

(** Facts about the state before a step hold after it. *)
Ltac carry s G :=
  repeat match goal with
  | K : has s _ _ |- _ => apply G in K
  | K : known s _ |- _ => apply (known_grows _ _ _ G) in K
  | K : names _ s |- _ => apply (names_grows _ _ _ G) in K
  | K : knowns _ s |- _ => apply (knowns_grows _ _ _ G) in K
  end.
Ltac known_tac := first [assumption | eexists; split; [eassumption|done] | eexists; eassumption | done].
Ltac after := let a := fresh "a" in let s' := fresh "s" in let I := fresh "I" in let G := fresh "G" in let P := fresh "P" in
  intros a s' I G P; cbv beta in *;
  try (intros _);
  match type of G with grows ?s _ => carry s G end.
Ltac prim :=
  first [ apply wp_ret | apply wp_throw | apply wp_panic | apply wp_gets | apply wp_get; intros ? ? | apply wp_lift; intros ? ?
        | apply wp_deref; intros ? ? ? | apply wp_update; [done|] | apply wp_all_Delete | apply wp_all_Store; [known_tac|]
        | apply wp_orphans_Delete | apply wp_orphans_Store; [known_tac|] | apply wp_outpoints_Delete | apply wp_outputs_Delete
        | apply wp_go; [known_tac|] | solve [eauto with wps] ].
Ltac step := apply wp_bind; eapply wp_mono with (P := fun _ _ => True); [prim; done|after].

Lemma wp_modify_true (f : Pool -> Pool) s : (pool_ok s -> pool_ok (f s) /\ grows s (f s)) -> wp (modify f) s (fun _ _ => True).
Proof. intros K. by apply wp_modify. Qed.

Lemma wp_Put r s : known s r -> wp (Put r) s (fun _ _ => True).
Proof.
  intros K. apply wp_modify_true. intros I. apply ok_with_items; [|done]. intros r'. rewrite sort_items_in, elem_of_app, list_elem_of_singleton.
  intros [E| ->]; [by apply I|done].
Qed.
Lemma wp_Removed s : wp Removed s (fun _ _ => True).
Proof.
  apply wp_modify_true. intros I. cbv beta zeta. case_match; (apply ok_with_items; [|done]); [apply I|].
  intros r. rewrite sort_items_in, list_elem_of_In, List.filter_In, <- list_elem_of_In. intros [E _]. exact (names_range _ _ (ok_all s I) r E).
Qed.
Hint Resolve wp_Put wp_Removed : wps.

Lemma wp_get_loop l s : knowns l s -> wp (get_loop l) s (fun v s' => knowns v.1 s' /\ forall r, v.2 = Some r -> known s' r).
Proof.
  revert s. induction l as [|r l IH]; intros s K; [by apply wp_ret|]. cbn [get_loop]. apply wp_bind, wp_deref. intros p Hp _ _.
  apply wp_bind, wp_gets. intros _. assert (Kl : knowns l s) by (intros x E; apply K; by right).
  case_match; [|by apply IH]. case_match; [by apply IH|]. apply wp_ret. simpl. split; [done|]. intros r' [= <-]. by exists (Tx p).
Qed.
Lemma wp_priority_Get s : wp priority_Get s (fun v s' => forall r, v = Some r -> known s' r).
Proof.
  apply wp_ok. intros I. apply wp_bind, wp_gets. intros _. apply wp_bind. eapply wp_mono; [apply wp_get_loop; intros r E; by apply I|].
  intros [l v] s1 I1 G1 [K1 K2] _. simpl in *. apply wp_bind, wp_modify; [by apply ok_with_items|]. intros G2. apply wp_ret. intros r E.
  eapply known_grows; [exact G2|]. by apply K2.
Qed.
Lemma wp_drop_stale l n s : knowns l s -> wp (drop_stale l n) s (fun v s' => knowns v.1 s').
Proof.
  revert n s. induction l as [|r l IH]; intros n s K; [by apply wp_ret|]. cbn [drop_stale]. apply wp_bind, wp_deref. intros p Hp _ _.
  apply wp_bind, wp_gets. intros _. case_match; [by apply wp_ret|]. apply IH. intros x E; apply K; by right.
Qed.
Lemma wp_Underpriced r s : wp (Underpriced r) s (fun _ _ => True).
Proof.
  apply wp_ok. intros I. apply wp_bind, wp_deref. intros p Hp _ _. apply wp_bind, wp_gets. intros _. case_match; [by apply wp_ret|].
  apply wp_bind, wp_gets. intros _. apply wp_bind, wp_gets. intros _. apply wp_bind. eapply wp_mono; [apply wp_drop_stale; intros x E; by apply I|].
  intros [l n] s1 I1 G1 K1 _. simpl in K1. apply wp_bind, wp_modify; [by apply ok_with_items|]. intros G2. destruct l; [by apply wp_ret|].
  apply wp_bind, wp_deref. intros q _ _ _. by apply wp_ret.
Qed.
Lemma wp_discard_loop a l : forall count n s, knowns l s -> wp (discard_loop a count l n) s (fun v s' => knowns v.1.1 s' /\ knowns v.1.2 s').
Proof.
  induction l as [|r l IH]; intros count n s K; [|destruct count as [|count]].
  1-2: apply wp_ret; split; [apply knowns_nil|done].
  cbn [discard_loop].
  apply wp_bind, wp_deref. intros p Hp _ _. assert (Kl : knowns l s) by (intros x E; apply K; by right). case_match; [|by apply IH].
  apply wp_bind. eapply wp_mono; [by apply IH|]. intros [[d k] m] s1 I1 G1 [K1 K2] _. apply wp_ret. simpl in *. split; [|done].
  apply (knowns_app [r]); [|done]. apply knowns_one. exists (Tx p). by apply G1.
Qed.
Lemma wp_Discard count s : wp (Discard count) s knowns.
Proof.
  apply wp_ok. intros I. do 3 (apply wp_bind, wp_gets; intros _). apply wp_bind. eapply wp_mono; [apply wp_discard_loop; intros x E; by apply I|].
  intros [[d k] m] s1 I1 G1 [K1 K2] _. simpl in *. apply wp_bind, wp_modify; [by apply ok_with_items|]. intros G2. apply wp_ret. eapply knowns_grows; eauto.
Qed.
Hint Resolve wp_Underpriced wp_Discard : wps.

Lemma wp_AllTxpoolTxs s : wp AllTxpoolTxs s names.
Proof.
  apply wp_ok. intros I. apply wp_bind, wp_gets. intros _.
  apply wp_foldM; [intros m s1 s2 G; by apply names_grows| |intros h r E; by rewrite lookup_empty in E].
  intros [h r] m s1 E G Nm. apply wp_bind, wp_deref. intros p Hp _ _. apply wp_bind. eapply wp_mono with (P := fun _ _ => True).
  { case_match; [by apply wp_ret|]. apply wp_bind, wp_all_Delete. intros _. apply wp_all_Store; [|done]. by exists (Tx p). }
  intros _ s2 I2 G2 _ _. apply wp_ret. carry s1 G2. intros h' r'. rewrite lookup_insert_Some. intros [[<- <-]|[_ E2]]; [by exists (Tx p)|by apply Nm].
Qed.
Lemma wp_AllOrphanTxs s : wp AllOrphanTxs s names.
Proof.
  apply wp_bind, wp_gets. intros _. apply wp_foldM; [intros m s1 s2 G; by apply names_grows| |intros h r E; by rewrite lookup_empty in E].
  intros [h r] m s1 E G Nm. apply wp_bind, wp_deref. intros p Hp _ _. apply wp_ret. intros h' r'. rewrite lookup_insert_Some.
  intros [[<- <-]|[_ E2]]; [by exists (Tx p)|by apply Nm].
Qed.
Hint Resolve wp_AllTxpoolTxs wp_AllOrphanTxs : wps.

Lemma wp_fold_true {A B} (f : B -> A -> M B) l s b : (forall a c s', a ∈ l -> grows s s' -> wp (f c a) s' (fun _ _ => True)) -> wp (foldM f l b) s (fun _ _ => True).
Proof. intros K. apply wp_foldM; [done| |done]. intros. by apply K. Qed.
Lemma wp_fold_knowns {A} (f : list nat -> A -> M (list nat)) l s b : (forall a c s', a ∈ l -> grows s s' -> knowns c s' -> wp (f c a) s' knowns) ->
  knowns b s -> wp (foldM f l b) s knowns.
Proof. intros K Hb. apply wp_foldM; [intros c s1 s2 G; by apply knowns_grows|done|done]. Qed.

Lemma wp_OutPointIsSpend (x : option OutPoint) s : wp (OutPointIsSpend x) s (fun _ _ => True).
Proof. apply wp_bind, wp_get. intros o' _ _. case_match; [by apply wp_ret|]. apply wp_bind, wp_gets. intros _. case_match; [apply wp_throw|by apply wp_ret]. Qed.
Lemma wp_checkPoolDoubleSpend r s : wp (checkPoolDoubleSpend r) s (fun _ _ => True).
Proof. apply wp_bind, wp_deref. intros p _ _ _. apply wp_each. intros x s1 _ _. apply wp_bind. eapply wp_mono; [apply wp_OutPointIsSpend|]. intros. by apply wp_ret. Qed.
Lemma wp_ValidateOrphanTx t s : wp (ValidateOrphanTx t) s (fun _ _ => True).
Proof. unfold ValidateOrphanTx. case_match; [by apply wp_ret|]. intros I. split_and!; simpl; [done|apply grows_refl|done]. Qed.
Lemma wp_utxo_of out s : wp (utxo_of out) s (fun _ _ => True).
Proof. apply wp_bind, wp_get. intros a _ _. by apply wp_ret. Qed.
Lemma wp_store_output o out s : wp (let! utxo := utxo_of out in modify (fun s => with_outputs (<[o := utxo]> (outputs s)) s)) s (fun _ _ => True).
Proof. apply wp_bind. eapply wp_mono; [apply wp_utxo_of|]. intros u s1 I1 G1 _ _. apply wp_modify_true, ok_outputs. Qed.
Lemma wp_store_outputs t s : wp (store_outputs t) s (fun _ _ => True).
Proof. apply wp_each. intros [o out] s' _ _. apply wp_store_output. Qed.
Hint Resolve wp_OutPointIsSpend wp_checkPoolDoubleSpend wp_ValidateOrphanTx wp_store_outputs wp_store_output : wps.

Lemma spends_in t ip o : ip ∈ payments t -> Some o ∈ previous ip.2 -> o ∈ spends t.
Proof.
  intros E1 E2. unfold spends. apply list_elem_of_omap. exists (Some o). split; [|done]. apply list_elem_of_In, in_concat. exists (previous ip.2).
  split; [|by apply list_elem_of_In]. apply in_map_iff. exists ip. by split; [|apply list_elem_of_In].
Qed.
Lemma wp_addCache r s : wp (addCache r) s (fun _ _ => True).
Proof.
  apply wp_bind, wp_deref. intros p Hp _ _. apply wp_each. intros ip s1 E1 G1. carry s G1.
  apply wp_bind. eapply wp_mono with (P := fun _ _ => True).
  { apply wp_each. intros [o|] s2 E2 G2; [|by apply wp_ret]. carry s1 G2. apply wp_mark; [|done]. exists (Tx p). split; [done|]. by eapply spends_in. }
  intros _ s2 I2 G2 _ _. apply wp_each. intros [o out] s3 _ _. apply wp_store_output.
Qed.
Lemma wp_addOrphan r (tag : Z) s : wp (addOrphan r tag) s (fun _ _ => True).
Proof.
  apply wp_bind, wp_gets. intros _. case_match; [by apply wp_ret|]. apply wp_bind, wp_deref. intros p Hp _ _.
  step. step. apply wp_store_outputs.
Qed.
Lemma wp_validateTx r s : wp (validateTx r) s (fun _ _ => True).
Proof.
  apply wp_bind, wp_deref. intros p _ _ _ I. destruct (ValidateTx _ _ _ _) as [c v]. simpl. split_and!; [by apply ok_cache|by apply ok_cache|done].
Qed.
Lemma wp_setPriorityLvl (now : Z) r s : wp (setPriorityLvl now r) s (fun _ _ => True).
Proof. apply wp_update; [|done]. intros p. unfold GetPriorityLvl. by repeat case_match. Qed.
Hint Resolve wp_addCache wp_addOrphan wp_validateTx wp_setPriorityLvl : wps.

Lemma wp_removeTransaction fuel : forall r b s, known s r -> wp (removeTransaction fuel r b) s (fun _ _ => True).
Proof.
  induction fuel as [|fuel IH]; intros r b s K; [apply wp_panic|]. cbn [removeTransaction]. apply wp_bind, wp_deref. intros p Hp _ _.
  apply wp_bind. eapply wp_mono with (P := fun _ _ => True).
  { destruct b; [|by apply wp_ret]. apply wp_each. intros [o out] s1 _ G1. apply wp_ok. intros I1. apply wp_bind, wp_gets. intros _.
    case_match eqn:E; [|by apply wp_ret]. apply IH. destruct (ok_outpoints _ I1 _ _ E) as (t & Ht & _). by exists t. }
  after. apply wp_bind, wp_gets. intros _. case_match; [|by apply wp_ret]. apply wp_bind, wp_deref. intros q Hq _ _.
  apply wp_bind. eapply wp_mono; [apply wp_each; intros x s2 _ _; apply wp_bind, wp_get; intros o' _ _; by apply wp_outpoints_Delete|].
  after. step. prim. done.
Qed.
Lemma wp_remove_transaction r b s : known s r -> wp (remove_transaction r b) s (fun _ _ => True).
Proof. intros K. apply wp_bind, wp_gets. intros _. by apply wp_removeTransaction. Qed.
Hint Resolve wp_remove_transaction : wps.
Lemma wp_make_room r s : wp (make_room r) s (fun _ _ => True).
Proof.
  do 2 (apply wp_bind, wp_gets; intros _). case_match; [by apply wp_ret|]. apply wp_bind. eapply wp_mono; [apply wp_Underpriced|].
  after. case_match; [apply wp_throw|]. cbv zeta. case_match; [|by apply wp_ret]. apply wp_bind. eapply wp_mono; [apply wp_Discard|].
  after. apply wp_each. intros r' s3 E G3. carry s1 G3. auto with wps.
Qed.
Hint Resolve wp_make_room : wps.

Lemma wp_add (now : Z) r s : known s r -> wp (add now r) s (fun _ _ => True).
Proof.
  intros K. apply wp_bind, wp_deref. intros p Hp _ _. apply wp_bind, wp_lift. intros c _ _. case_match; [by apply wp_ret|].
  apply wp_bind, wp_gets. intros _. case_match; [apply wp_throw|]. apply wp_bind, wp_gets. intros _. case_match; [apply wp_throw|].
  apply wp_bind, wp_gets. intros _. case_match; [apply wp_throw|]. step. case_match; [|  |apply wp_panic].
  - do 8 step. by apply wp_ret.
  - case_match. apply wp_bind. eapply wp_mono with (P := fun _ _ => True); [case_match; [|by apply wp_ret]; step; by apply wp_ret|].
    after. case_match; [|apply wp_throw]. step. by apply wp_ret.
Qed.
Hint Resolve wp_add : wps.

(** Loops that only read *)
Lemma wp_read {A B} (f : B -> TxPoolTransaction T -> M B) (r : A -> nat) l s b : (forall c p s', wp (f c p) s' (fun _ _ => True)) ->
  wp (foldM (fun c a => let! p := deref (r a) in f c p) l b) s (fun _ _ => True).
Proof. intros K. apply wp_fold_true. intros a c s' _ _. apply wp_bind, wp_deref. intros p _ _ _. apply K. Qed.

Lemma wp_drop_round fuel slots pendingTxs offenders : forall pending s, wp (drop_round fuel slots pendingTxs offenders pending) s (fun _ _ => True).
Proof.
  induction fuel as [|fuel IH]; intros pending s; cbn [drop_round]; (case_match; [by apply wp_ret|]); [apply wp_panic|].
  apply wp_bind. eapply wp_mono; [|intros; by apply IH]. apply wp_fold_true. intros h n s1 _ _. apply wp_bind. eapply wp_mono.
  { apply wp_fold_true. intros x b s2 _ _. apply wp_bind, wp_deref. intros p _ _ _. by apply wp_ret. }
  after. case_match; [|by apply wp_ret]. do 2 step. by apply wp_ret.
Qed.
Lemma wp_offend_loop slots pendingTxs spammers : forall offenders pending s, wp (offend_loop slots pendingTxs spammers offenders pending) s (fun _ _ => True).
Proof.
  induction spammers as [|h l IH]; intros offenders pending s; cbn [offend_loop]; (case_match; [by apply wp_ret|]); [by apply wp_ret|].
  cbv zeta. apply wp_bind. eapply wp_mono with (P := fun _ _ => True); [|intros; by apply IH]. case_match; [apply wp_drop_round|by apply wp_ret].
Qed.
Lemma wp_promoteExecutables s : wp promoteExecutables s (fun _ _ => True).
Proof.
  apply wp_bind. eapply wp_mono; [apply wp_AllTxpoolTxs|]. after. apply wp_bind. eapply wp_mono.
  { apply wp_fold_true. intros [h r] l s1 _ _. apply wp_bind, wp_deref. intros p _ _ _. by apply wp_ret. }
  after. apply wp_bind, wp_gets. intros _. cbv zeta. case_match; [by apply wp_ret|]. apply wp_bind. eapply wp_mono.
  { apply wp_fold_true. intros r l s3 _ _. apply wp_bind, wp_deref. intros p _ _ _. by apply wp_ret. }
  after. apply wp_bind. eapply wp_mono; [apply wp_offend_loop|]. intros [off pend] s4 I4 G4 _ _. case_match; [|by apply wp_ret].
  apply wp_bind. eapply wp_mono; [apply wp_drop_round|]. after. by apply wp_ret.
Qed.
Hint Resolve wp_promoteExecutables : wps.

Lemma wp_addTx (now : Z) r s : known s r -> wp (addTx now r) s (fun _ _ => True).
Proof. intros K. step. case_match; [by apply wp_ret|auto with wps]. Qed.
Hint Resolve wp_addTx : wps.
Lemma wp_alloc_new (now : Z) t (Q : nat -> Pool -> Prop) s : (forall r s', has s' r t -> grows s s' -> Q r s') -> wp (alloc (TxtoTxpoolTx now t)) s Q.
Proof. intros K. apply wp_alloc. intros s' E G. by apply K. Qed.
Ltac new := apply wp_bind; apply wp_alloc_new; let r := fresh "r" in let s' := fresh "s" in let E := fresh "E" in let G := fresh "G" in intros r s' E G _.
Lemma wp_AddLocal (now : Z) t s : wp (AddLocal now t) s (fun _ _ => True).
Proof. apply wp_bind, wp_lift. intros b _ _. case_match; [by apply wp_ret|]. new. apply wp_addTx. by exists t. Qed.
Lemma wp_AddRemote (now : Z) t s : wp (AddRemote now t) s (fun _ _ => True).
Proof.
  apply wp_bind, wp_lift. intros b _ _. case_match; [by apply wp_ret|]. apply wp_bind, wp_lift. intros c _ _. case_match; [by apply wp_ret|].
  new. apply wp_addTx. by exists t.
Qed.
Lemma wp_addTxs_loop (now : Z) l : forall b s, knowns l s -> wp (addTxs_loop now l b) s (fun _ _ => True).
Proof.
  induction l as [|r l IH]; intros b s K; [by apply wp_ret|]. intros I. cbn [addTxs_loop].
  assert (Kr : known s r) by (apply K; left). destruct (wp_add now r s Kr I) as (I1 & G1 & _). destruct (add now r s) as [s1 [c|e|]]; simpl in *; [|done..].
  destruct (IH c s1) as (I2 & G2 & _); [intros x E; eapply known_grows, K; [done|by right]|done|]. split_and!; [done|by eapply grows_trans|done].
Qed.
Lemma wp_addTxsLocked (now : Z) l s : knowns l s -> wp (addTxsLocked now l) s (fun _ _ => True).
Proof.
  intros K. apply wp_bind. eapply wp_mono; [by apply wp_addTxs_loop|]. intros [b errs] s1 I1 G1 _ _. apply wp_bind. eapply wp_mono with (P := fun _ _ => True).
  { case_match; [by apply wp_ret|auto with wps]. } after. by apply wp_ret.
Qed.
Lemma wp_alloc_all (now : Z) txs s : wp (alloc_all now txs) s knowns.
Proof.
  apply wp_fold_knowns; [|apply knowns_nil]. intros t l s1 _ _ K. new. apply wp_ret. carry s1 G. apply knowns_app; [done|apply knowns_one; by exists t].
Qed.
Lemma wp_AddLocals (now : Z) txs s : wp (AddLocals now txs) s (fun _ _ => True).
Proof. apply wp_bind. eapply wp_mono; [apply wp_alloc_all|]. after. by apply wp_addTxsLocked. Qed.

Lemma wp_addSequenTx (now : Z) r s : known s r -> wp (addSequenTx now r) s (fun _ _ => True).
Proof.
  intros K. apply wp_bind, wp_deref. intros p Hp _ _. apply wp_bind, wp_gets. intros _. case_match; [by apply wp_ret|].
  apply wp_bind, wp_gets. intros _. case_match; [by apply wp_ret|]. step. case_match; [|case_match; apply wp_throw|apply wp_panic].
  do 3 step. apply wp_bind. eapply wp_mono with (P := fun _ _ => True).
  { apply wp_modify_true. intros Ok. apply ok_with_sequen; [|done]. intros x. rewrite elem_of_app, list_elem_of_singleton. intros [E| ->]; [by apply (ok_sequen _ Ok)|assumption]. }
  after. do 2 step. prim. done.
Qed.
Lemma wp_AddSequenTx (now : Z) t s : wp (AddSequenTx now t) s (fun _ _ => True).
Proof. new. apply wp_addSequenTx. by exists t. Qed.
Lemma wp_AddSequenTxs (now : Z) txs s : wp (AddSequenTxs now txs) s (fun _ _ => True).
Proof. apply wp_each. intros. apply wp_AddSequenTx. Qed.
Lemma wp_ProcessTransaction (now : Z) t s : wp (ProcessTransaction now t) s (fun _ _ => True).
Proof.
  apply wp_bind. eapply wp_mono with (P := fun _ _ => True); [|intros; by apply wp_ret]. apply wp_bind, wp_gets. intros _. case_match; [by apply wp_ret|].
  case_match; [apply wp_throw|]. case_match; [by apply wp_ret|]. new. assert (known s0 r) by (by exists t). do 2 step.
  apply wp_bind, wp_deref. intros p _ _ _. by apply wp_ret.
Qed.

Lemma wp_delete_made h t s : wp (delete_made h t) s (fun _ _ => True).
Proof. apply wp_each. intros [o out] s1 _ _. by apply wp_outputs_Delete. Qed.
Lemma wp_delete_spent t s : wp (delete_spent t) s (fun _ _ => True).
Proof. apply wp_each. intros o s1 _ _. by apply wp_outpoints_Delete. Qed.
Lemma wp_deletePoolUtxos t s : wp (deletePoolUtxos t) s (fun _ _ => True).
Proof. apply wp_each. intros x s1 _ _. apply wp_bind, wp_get. intros o _ _. by apply wp_outputs_Delete. Qed.
Hint Resolve wp_delete_made wp_delete_spent wp_deletePoolUtxos : wps.
Lemma named_all h r s : pool_ok s -> all s !! h = Some r -> exists t, has s r t /\ tx_Hash t = h.
Proof. intros I. apply I. Qed.
Lemma named_orphans h r s : pool_ok s -> orphans s !! h = Some r -> exists t, has s r t /\ tx_Hash t = h.
Proof. intros I. apply I. Qed.
Lemma wp_DeleteTxByHash h s : wp (DeleteTxByHash h) s (fun _ _ => True).
Proof.
  apply wp_bind, wp_gets. intros _. case_match; [|apply wp_throw]. do 3 step. apply wp_bind, wp_deref. intros p _ _ _. step. auto with wps.
Qed.
Lemma wp_removeTx h s : wp (removeTx h) s (fun _ _ => True).
Proof.
  apply wp_ok. intros I0. apply wp_bind, wp_gets. intros _. case_match eqn:E; [|by apply wp_ret]. destruct (named_all _ _ _ I0 E) as (t & Ht & Hh).
  do 2 step. apply wp_bind, wp_deref. intros p _ _ _. step. auto with wps.
Qed.
Hint Resolve wp_DeleteTxByHash wp_removeTx : wps.
Lemma wp_try_true {A} (m : M A) s : wp m s (fun _ _ => True) -> wp (try m) s (fun _ _ => True).
Proof. intros W. by apply wp_try. Qed.
Hint Resolve wp_try_true : wps.
Lemma wp_RemoveTransaction h b s : wp (RemoveTransaction h b) s (fun _ _ => True).
Proof.
  apply wp_ok. intros I0. apply wp_bind, wp_gets. intros _. case_match eqn:E; [|by apply wp_go].
  destruct (named_all _ _ _ I0 E) as (t & Ht & Hh). apply wp_go; [by exists t|done].
Qed.
Lemma wp_RemoveDoubleSpends t s : wp (RemoveDoubleSpends t) s (fun _ _ => True).
Proof.
  apply wp_each. intros msg s1 _ _. case_match; [|by apply wp_ret]. apply wp_bind, wp_lift. intros p _ _. apply wp_each. intros x s2 _ _.
  apply wp_bind, wp_get. intros o _ _. apply wp_ok. intros I2. apply wp_bind, wp_gets. intros _. case_match eqn:E; [|by apply wp_ret].
  destruct (ok_outpoints _ I2 _ _ E) as (u & Hu & _). apply wp_go; [by exists u|done].
Qed.
Lemma wp_DeleteTx (now : Z) s : wp (DeleteTx now) s (fun _ _ => True).
Proof.
  apply wp_bind, wp_gets. intros _. apply wp_bind. eapply wp_mono; [apply wp_AllTxpoolTxs|]. after. apply wp_each. intros [h r] s2 _ _.
  apply wp_bind, wp_deref. intros p _ _ _. case_match; [auto with wps|by apply wp_ret].
Qed.
Lemma wp_discardTx h s : wp (discardTx h) s (fun _ _ => True).
Proof.
  apply wp_ok. intros I0. do 2 (apply wp_bind, wp_gets; intros _). cbv zeta.
  assert (K : forall r, all s !! h = Some r -> exists t, has s r t /\ tx_Hash t = h) by (intros; by apply named_all).
  apply wp_bind. eapply wp_mono with (P := fun _ _ => True).
  { case_match eqn:E; [|by apply wp_ret]. destruct (named_orphans _ _ _ I0 E) as (t & Ht & Hh). step. prim; done. }
  intros _ s1 I1 G1 _ _. case_match; [|by apply wp_ret]. destruct (K _ eq_refl) as (t & Ht & Hh). carry s G1. step. prim; done.
Qed.
Hint Resolve wp_RemoveTransaction wp_RemoveDoubleSpends wp_DeleteTx wp_discardTx : wps.

Lemma wp_removeOrphan r b s : wp (removeOrphan r b) s (fun _ _ => True).
Proof.
  apply wp_bind, wp_deref. intros p _ _ _. apply wp_bind. eapply wp_mono; [apply wp_AllOrphanTxs|]. after. case_match; [|by apply wp_ret].
  apply wp_bind, wp_deref. intros q _ _ _. apply wp_bind. eapply wp_mono; [apply wp_deletePoolUtxos|]. after.
  apply wp_bind. eapply wp_mono with (P := fun _ _ => True); [case_match; [auto with wps|by apply wp_ret]|]. after. prim; done.
Qed.
Hint Resolve wp_removeOrphan : wps.
Lemma wp_limitNumberOrphans (now : Z) s : wp (limitNumberOrphans now) s (fun _ _ => True).
Proof.
  apply wp_bind. eapply wp_mono; [apply wp_AllOrphanTxs|]. intros txs s1 I1 G1 N1 _. do 2 (apply wp_bind, wp_gets; intros _).
  apply wp_bind. eapply wp_mono with (P := fun _ _ => True).
  { case_match; [|by apply wp_ret]. apply wp_bind. eapply wp_mono with (P := fun _ _ => True); [|intros; apply wp_modify_true, ok_scan].
    apply wp_each. intros [h r] s2 E G2. apply in_range in E. destruct (N1 _ _ E) as (t & Ht & _). carry s1 G2.
    apply wp_bind, wp_deref. intros p Hp _ _. apply wp_bind. eapply wp_mono with (P := fun _ _ => True); [case_match; [auto with wps|by apply wp_ret]|].
    after. apply wp_bind. eapply wp_mono; [apply wp_ValidateOrphanTx|]. intros [b e] s4 I4 G4 _ _. match type of G4 with grows ?s3 _ => carry s3 G4 end.
    assert (known s4 r) by (by exists t). repeat case_match; auto using wp_ret with wps. }
  intros _ s2 I2 G2 _ _. apply wp_bind. eapply wp_mono; [apply wp_AllOrphanTxs|]. after. case_match; [by apply wp_ret|].
  repeat case_match; auto using wp_ret with wps.
Qed.

Lemma wp_own_fee r s : wp (own_fee r) s (fun _ _ => True).
Proof.
  apply wp_bind, wp_deref. intros p _ _ _. case_match; [by apply wp_ret|]. apply wp_bind. eapply wp_mono with (P := fun _ _ => True).
  { unfold GetTxFee. intros I. by case_match; split_and!; simpl. }
  after. case_match; [by apply wp_update|by apply wp_ret..].
Qed.
Hint Resolve wp_own_fee : wps.
Lemma wp_promoteTx (now : Z) h r (number index : Z) s : known s r -> wp (promoteTx now h r number index) s (fun _ _ => True).
Proof.
  intros K. apply wp_bind, wp_deref. intros p Hp _ _. do 2 step. apply wp_ok. intros I2. apply wp_bind, wp_gets. intros _.
  apply wp_bind. eapply wp_mono with (P := fun v s' => forall this, v = Some this -> exists t, has s' this t /\ tx_Hash t = tx_Hash (Tx p)).
  { case_match eqn:E; [|by apply wp_ret]. destruct (named_all _ _ _ I2 E) as (t & Ht & Hh). apply wp_bind, wp_deref. intros q _ _ _. apply wp_ret.
    case_match; [|done]. intros this [= <-]. by exists t. }
  intros v s2 I3 G2 Kv _. carry s1 G2. destruct v as [this|].
  - destruct (Kv this eq_refl) as (t & Ht & Hh). do 2 step. auto with wps.
  - do 2 step. prim; done.
Qed.
Hint Resolve wp_promoteTx : wps.
Lemma wp_setPendingTx (now : Z) h t (number index : Z) s : wp (setPendingTx now h t number index) s (fun _ _ => True).
Proof.
  apply wp_ok. intros I0. apply wp_bind, wp_gets. intros _. case_match eqn:E.
  - destruct (named_all _ _ _ I0 E) as (u & Hu & Hh). step. prim; done.
  - new. assert (known s0 r) by (by exists t). step. auto with wps.
Qed.
Lemma wp_pending_loop (now : Z) h (num : Z) txs : forall (i : Z) s, wp (pending_loop now h num i txs) s (fun _ _ => True).
Proof.
  induction txs as [|t txs IH]; intros i s; [by apply wp_ret|]. cbn [pending_loop]. apply wp_bind. eapply wp_mono with (P := fun _ _ => True); [|intros; apply IH].
  case_match; [by apply wp_ret|apply wp_setPendingTx].
Qed.
Lemma wp_SetPendingTxs (now : Z) h (num : Z) txs s : wp (SetPendingTxs now h num txs) s (fun _ _ => True).
Proof. apply wp_bind. eapply wp_mono; [apply wp_pending_loop|]. after. case_match; [apply wp_Removed|by apply wp_ret]. Qed.
Lemma wp_ResetPendingTxs (now : Z) txs s : wp (ResetPendingTxs now txs) s (fun _ _ => True).
Proof.
  apply wp_each. intros t s1 _ _. apply wp_try_true. step. new. apply wp_bind. eapply wp_mono; [apply wp_add; by exists t|]. after. by apply wp_ret.
Qed.

Lemma wp_getPrecusorTxs fuel : forall r poolTxs orphanTxs s, names poolTxs s -> names orphanTxs s -> wp (getPrecusorTxs fuel r poolTxs orphanTxs) s knowns.
Proof.
  induction fuel as [|fuel IH]; intros r m n s Nm Nn; [apply wp_panic|]. cbn [getPrecusorTxs]. apply wp_bind, wp_deref. intros p _ _ _.
  apply wp_fold_knowns; [|apply knowns_nil]. intros o l s1 _ G1 K1. carry s G1. apply wp_bind, wp_gets. intros _.
  case_match; [by apply wp_ret| |apply wp_panic].
  destruct (waiting m n (TxHash o)) as [q'|] eqn:E; [|by apply wp_ret].
  assert (Kq : known s1 q').
  { revert E. unfold waiting. case_match eqn:E1; [intros [= <-]; destruct (Nm _ _ E1) as (t & Ht & _)|intros E2; destruct (Nn _ _ E2) as (t & Ht & _)]; by exists t. }
  clear E.
  apply wp_bind, wp_deref. intros q _ _ _. case_match; [by apply wp_ret|]. apply wp_bind. eapply wp_mono; [by apply IH|]. after. apply wp_ret.
  apply knowns_app; [done|]. apply knowns_app; [done|by apply knowns_one].
Qed.
Lemma wp_sizes l total s : wp (sizes l total) s (fun _ _ => True).
Proof. apply wp_fold_true. intros r x s1 _ _. apply wp_bind, wp_deref. intros p _ _ _. by apply wp_ret. Qed.
Lemma wp_select_loop turns m n : forall list total s, names m s -> names n s -> knowns list s ->
  wp (select_loop turns m n list total) s (fun v s' => knowns v.1 s').
Proof.
  induction turns as [|turns IH]; intros list total s Nm Nn K; [by apply wp_ret|]. cbn [select_loop]. case_match; [by apply wp_ret|].
  apply wp_bind. eapply wp_mono; [apply wp_priority_Get|]. intros v s1 I1 G1 Kv _. carry s G1. destruct v as [r|]; [|by apply wp_ret].
  specialize (Kv r eq_refl). apply wp_bind, wp_deref. intros p _ _ _. case_match; [by apply IH|]. apply wp_bind, wp_gets. intros _.
  case_match; [by apply IH|]. apply wp_bind. eapply wp_mono; [apply wp_bind, wp_gets; intros _; by apply wp_getPrecusorTxs|]. after.
  apply wp_bind. eapply wp_mono; [apply wp_sizes|]. after. apply IH; [done..|]. apply knowns_app; [done|]. apply knowns_app; [done|by apply knowns_one].
Qed.
Lemma wp_orphan_loop h (index : Z) l : forall list total s, knowns l s -> knowns list s -> wp (orphan_loop h index l list total) s (fun v s' => knowns v.1 s').
Proof.
  induction l as [|r l IH]; intros list total s Kl K; [by apply wp_ret|]. cbn [orphan_loop]. apply wp_bind, wp_deref. intros p Hp _ _.
  assert (Kr : known s r) by (by exists (Tx p)). assert (Kl' : knowns l s) by (intros x E; apply Kl; by right). clear Kl.
  apply wp_bind, wp_gets. intros _. case_match; [step; by apply IH|]. apply wp_bind. eapply wp_mono; [apply wp_ValidateOrphanTx|].
  intros [b e] s1 I1 G1 _ _. carry s G1. destruct b, e; [by apply IH..|]. do 3 step.
  match goal with |- wp _ ?s4 _ => assert (K4 : knowns (list ++ [r]) s4) by (apply knowns_app; [done|by apply knowns_one]) end.
  cbv zeta. case_match; [by apply wp_ret|by apply IH].
Qed.
Lemma wp_index_loop l : forall (i : Z) m hs s, names m s -> wp (index_loop i l m hs) s (fun v s' => names v.1 s').
Proof.
  induction l as [|r l IH]; intros i m hs s Nm; [by apply wp_ret|]. cbn [index_loop]. apply wp_bind, wp_deref. intros p Hp _ _. step.
  apply IH. intros h' r'. rewrite lookup_insert_Some. intros [[<- <-]|[_ E]]; [by exists (Tx p)|by apply Nm].
Qed.
Lemma wp_unique_loop h (index : Z) hs : forall (i : Z) m list s, names m s -> wp (unique_loop h index i hs m list) s (fun _ _ => True).
Proof.
  induction hs as [|k hs IH]; intros i m list s Nm; [by apply wp_ret|]. cbn [unique_loop]. case_match eqn:E; [|by apply IH].
  destruct (Nm _ _ E) as (t & Ht & _). assert (Nd : names (delete k m) s) by (intros h' r'; rewrite lookup_delete_Some; intros [_ E']; by apply Nm).
  apply wp_bind, wp_gets. intros _. case_match; step; by apply IH.
Qed.
Lemma wp_sort_orphans l s : knowns l s -> wp (sort_orphans l) s knowns.
Proof.
  intros K. apply wp_bind. eapply wp_mono.
  { apply (wp_foldM (fun k s' => knowns k.*2 s')); [intros c s1 s2 G; by apply knowns_grows| |apply knowns_nil].
    intros r k s1 _ _ Kk. apply wp_bind, wp_deref. intros p Hp _ _. apply wp_ret. rewrite fmap_app. apply knowns_app; [done|].
    apply knowns_one. by exists (Tx p). }
  intros keys s1 I1 G1 K1 _. apply wp_ret. intros r. rewrite sort_perm. apply K1.
Qed.
Lemma wp_GetSortedTxs turns h (index : Z) s : wp (GetSortedTxs turns h index) s (fun _ _ => True).
Proof.
  apply wp_ok. intros I0. apply wp_bind. eapply wp_mono with (P := knowns).
  { intros _. unfold GetSequenTxs, All. simpl. destruct (ok_with_sequen [] s) as [I1 G1]; [apply knowns_nil|done|]. split_and!; [done|done|].
    intros l [= <-] r E. eapply known_grows; [exact G1|]. by apply (ok_sequen _ I0). }
  after. apply wp_bind. eapply wp_mono; [apply wp_AllTxpoolTxs|]. after. apply wp_bind. eapply wp_mono; [apply wp_AllOrphanTxs|]. after.
  apply wp_bind. eapply wp_mono; [apply wp_sizes|]. after. apply wp_bind. eapply wp_mono; [by apply wp_select_loop|].
  intros [list total] s5 I5 G5 K5 _. simpl in K5. match type of G5 with grows ?s4 _ => carry s4 G5 end.
  apply wp_bind. eapply wp_mono; [apply wp_sort_orphans; by apply names_range|]. after.
  apply wp_bind. eapply wp_mono; [by apply wp_orphan_loop|]. intros [list2 total2] s7 I7 G7 K7 _.
  apply wp_bind. eapply wp_mono; [apply wp_index_loop; intros h' r' E; by rewrite lookup_empty in E|]. intros [m hs] s8 I8 G8 K8 _.
  apply wp_bind. eapply wp_mono; [by apply wp_unique_loop|]. after. by apply wp_ret.
Qed.

Lemma wp_journalTx r s : wp (journalTx r) s (fun _ _ => True).
Proof.
  apply wp_bind, wp_gets. intros _. case_match; [by apply wp_ret|]. apply wp_bind, wp_deref. intros p _ _ _. apply wp_bind, wp_gets. intros _.
  apply wp_bind, wp_get. intros j _ _. apply wp_modify_true, ok_journal.
Qed.
Lemma wp_rotate l s : wp (rotate l) s (fun _ _ => True).
Proof.
  apply wp_bind. eapply wp_mono; [apply wp_fold_true; intros r x s1 _ _; apply wp_bind, wp_deref; intros p _ _ _; by apply wp_ret|].
  after. apply wp_modify_true, ok_journal.
Qed.
Lemma wp_pending s : wp pending_ s (fun _ _ => True).
Proof.
  apply wp_bind. eapply wp_mono; [apply wp_AllTxpoolTxs|]. after. apply wp_fold_true. intros [h r] m s1 _ _. apply wp_bind, wp_deref. intros p _ _ _. by apply wp_ret.
Qed.
Lemma wp_local s : wp local_ s (fun _ _ => True).
Proof.
  apply wp_bind. eapply wp_mono; [apply wp_pending|]. after. apply wp_fold_true. intros r m s1 _ _. apply wp_bind, wp_deref. intros p _ _ _. by apply wp_ret.
Qed.
Lemma wp_startJournal (now : Z) l s : wp (startJournal now l) s (fun _ _ => True).
Proof.
  apply wp_bind, wp_gets. intros _. case_match; [by apply wp_ret|]. apply wp_bind. eapply wp_mono; [apply wp_modify_true, ok_journal|]. after.
  apply wp_bind. eapply wp_mono.
  { apply wp_each. intros p s1 _ _. apply wp_bind, wp_alloc. intros s2 E2 G2 _. apply wp_try_true, wp_addTx. by exists (Tx p). }
  after. apply wp_bind. eapply wp_mono; [apply wp_local|]. after. apply wp_rotate.
Qed.
Lemma wp_run_job (now : Z) j s : job_known s j -> wp (run_job now j) s (fun _ _ => True).
Proof.
  destruct j; simpl; intros K; [by apply wp_Put|apply wp_journalTx|by apply wp_ret|by apply wp_promoteTx|auto with wps|auto with wps|auto with wps].
Qed.
Lemma wp_run_next (now : Z) i s : wp (run_next now i) s (fun _ _ => True).
Proof.
  apply wp_ok. intros I0. apply wp_bind, wp_gets. intros _. case_match eqn:E; [|by apply wp_ret].
  assert (K := ok_jobs _ I0 _ (list_elem_of_lookup_2 _ _ _ E)). apply wp_bind. eapply wp_mono.
  { apply wp_modify_true. intros _. apply ok_with_jobs; [|done]. intros j' Ej. apply (ok_jobs _ I0).
    apply list_elem_of_lookup_1 in Ej as [k Ek]. rewrite list_lookup_delete in Ek. case_decide; by eapply list_elem_of_lookup_2. }
  intros _ s1 I1 G1 _ _. apply wp_run_job. by eapply job_grows.
Qed.

Lemma wp_Get h s : wp (Pool.Get h) s (fun _ _ => True).
Proof.
  apply wp_bind, wp_gets. intros _. case_match; [|by apply wp_bind, wp_gets; intros _; apply wp_ret]. apply wp_bind, wp_deref. intros p _ _ _.
  case_match; [do 2 step; by apply wp_ret|]. case_match; by apply wp_ret.
Qed.
Lemma wp_count_if f l n s : wp (count_if f l n) s (fun _ _ => True).
Proof. apply wp_fold_true. intros r c s1 _ _. apply wp_bind, wp_deref. intros p _ _ _. by apply wp_ret. Qed.
Lemma wp_Stats s : wp Stats s (fun _ _ => True).
Proof.
  apply wp_bind. eapply wp_mono; [apply wp_AllTxpoolTxs|]. after. apply wp_bind. eapply wp_mono; [apply wp_AllOrphanTxs|]. after.
  apply wp_bind. eapply wp_mono with (P := fun _ _ => True).
  { intros I'. unfold All. simpl. destruct (ok_with_sequen [] s1) as [I1 G1]; [apply knowns_nil|done|]. by split_and!. }
  after. do 4 (apply wp_bind; eapply wp_mono; [apply wp_count_if|]; after). by apply wp_ret.
Qed.

(** ** Runs *)

(** What the rest of the node does with a pool; the ledger and the validator's cache change by
    themselves, and jobs run when the scheduler likes. *)
Inductive event :=
| EAddLocal (now : Z) (t : T) | EAddRemote (now : Z) (t : T) | EAddTxs (now : Z) (txs : list T) | EAddSequenTxs (now : Z) (txs : list T)
| EProcess (now : Z) (t : T) | ERemoveTxs (hs : list bytes) | ERemove (h : bytes) (redeemers : bool) | ERemoveDoubleSpends (t : T)
| EDelete (now : Z) | EDiscardTxs (hs : list bytes) | ELimitOrphans (now : Z) | ESetPending (now : Z) (h : bytes) (num : Z) (txs : list T)
| EResetPending (now : Z) (txs : list T) | EGetSorted (turns : nat) (h : bytes) (index : Z) | EGet (h : bytes) | EStats | EHashes
| ERunJob (now : Z) (i : nat) | ELedger (l : Ledger) (c : VCache).
Definition handle (e : event) : M unit :=
  match e with
  | EAddLocal now t => AddLocal now t
  | EAddRemote now t => AddRemote now t
  | EAddTxs now txs => AddLocals now txs ;;; ret tt
  | EAddSequenTxs now txs => AddSequenTxs now txs
  | EProcess now t => ProcessTransaction now t
  | ERemoveTxs hs => RemoveTxs hs
  | ERemove h b => RemoveTransaction h b
  | ERemoveDoubleSpends t => RemoveDoubleSpends t
  | EDelete now => DeleteTx now
  | EDiscardTxs hs => DiscardTxs hs
  | ELimitOrphans now => limitNumberOrphans now
  | ESetPending now h num txs => SetPendingTxs now h num txs
  | EResetPending now txs => ResetPendingTxs now txs
  | EGetSorted turns h index => GetSortedTxs turns h index ;;; ret tt
  | EGet h => Pool.Get h ;;; ret tt
  | EStats => Stats ;;; ret tt
  | EHashes => AllHashs ;;; ret tt
  | ERunJob now i => run_next now i
  | ELedger l c => modify (fun s => mkPool (config s) l c (heap s) (all s) (items s) (stales s) (outpoints s) (orphans s) (outputs s)
      (sequenTxs s) (nextExpireScan s) (journal s) (jobs s))
  end.
Fixpoint run (es : list event) s : Pool := match es with [] => s | e :: es => run es (handle e s).1 end.

Lemma wp_drop_result {A} (m : M A) s : wp m s (fun _ _ => True) -> wp (m ;;; ret tt) s (fun _ _ => True).
Proof. intros W. apply wp_bind. eapply wp_mono; [exact W|]. after. by apply wp_ret. Qed.
Lemma wp_handle e s : wp (handle e) s (fun _ _ => True).
Proof.
  destruct e; cbn [handle].
  - apply wp_AddLocal.
  - apply wp_AddRemote.
  - apply wp_drop_result, wp_AddLocals.
  - apply wp_AddSequenTxs.
  - apply wp_ProcessTransaction.
  - apply wp_each. intros. apply wp_removeTx.
  - apply wp_RemoveTransaction.
  - apply wp_RemoveDoubleSpends.
  - apply wp_DeleteTx.
  - apply wp_each. intros. apply wp_discardTx.
  - apply wp_limitNumberOrphans.
  - apply wp_SetPendingTxs.
  - apply wp_ResetPendingTxs.
  - apply wp_drop_result, wp_GetSortedTxs.
  - apply wp_drop_result, wp_Get.
  - apply wp_drop_result, wp_Stats.
  - by apply wp_drop_result, wp_gets.
  - apply wp_run_next.
  - apply wp_modify_true. intros I. split; [destruct I; by constructor|by apply grows_same].
Qed.

Lemma run_ok es : forall s, pool_ok s -> pool_ok (run es s).
Proof. induction es as [|e es IH]; intros s I; [done|]. apply IH. by apply (wp_handle e s). Qed.
Lemma new_pool_ok c u v (now : Z) : pool_ok (NewTxPool4DI c u v now).
Proof. constructor; simpl; intros *; rewrite ?lookup_empty, ?elem_of_nil; done. Qed.

End Props.
End PoolProps.
