(* ===== verification/TxPoolSorted.v ===== *)
(** * What the transaction pool hands out and what it drops

    The choice of the transactions of a unit ([GetSortedTxs]): it ends, lists nothing twice and puts
    transactions behind those they wait for.  Making room in a full pool, which drops from the wrong
    end.  And runs of a small pool: double spends that are accepted, a sequence that is lost by
    asking for its length, orphans that are packed before their parents, discarded when packed, and
    not admitted by the scan. *)

From S2P Require Import Prelude Errors Float64 Opcode Script Address Standard Tx AssetId TxFee Unit ValPayment HeapSort Pickup TxPool TxPoolProps.
From Stdlib Require Import ZArith Lia Bool ZifyBool Floats.SpecFloat.
Import Heap Pick Pool PoolProps.
Local Open Scope Z_scope.

Module PoolSorted.

(** ** Lists *)

Lemma length_filter_lt {A} (P Q : A -> Prop) `{!forall x, Decision (P x)} `{!forall x, Decision (Q x)} (l : list A) x :
  (forall y, P y -> Q y) -> x ∈ l -> Q x -> ~ P x -> (length (filter P l) < length (filter Q l))%nat.
Proof.
  intros Hi E Qx Nx. assert (W : forall k, (length (filter P k) <= length (filter Q k))%nat).
  { induction k as [|y k IH]; [done|]. rewrite !filter_cons. repeat case_decide; simpl; auto with lia. exfalso; auto. }
  induction l as [|y l IH]; [by apply not_elem_of_nil in E|]. rewrite !filter_cons. apply elem_of_cons in E as [->|E].
  - rewrite decide_False, decide_True by done. simpl. specialize (W l). lia.
  - specialize (IH E). repeat case_decide; simpl; try lia. exfalso; auto.
Qed.
Lemma fold_insert_map {A} (l : list (bytes * A)) : NoDup l.*1 -> forall m : gmap bytes A, fold_left (fun m '(h, r) => <[h := r]> m) l m = (list_to_map l : gmap bytes A) ∪ m.
Proof.
  induction l as [|[h r] l IH]; simpl; intros N m; [by rewrite (left_id ∅ (∪))|]. apply NoDup_cons in N as [N1 N2]. rewrite IH by done.
  rewrite <- insert_union_r; [by rewrite insert_union_l|]. by apply not_elem_of_list_to_map_1.
Qed.
Lemma range_all `{!GoRange bytes nat} (m : gmap bytes nat) : fold_left (fun m '(h, r) => <[h := r]> m) (go_range m) ∅ = m.
Proof.
  assert (N : NoDup (go_range m).*1) by (rewrite go_range_perm; apply NoDup_fst_map_to_list).
  rewrite fold_insert_map by done. rewrite (right_id ∅ (∪)).
  rewrite (list_to_map_proper (go_range m) (map_to_list m)); [by rewrite list_to_map_to_list|done|apply go_range_perm].
Qed.

(** The hashes that a list shows for the first time, those of [packed] left out. *)
Section Firsts.
Variable packed : bytes -> bool.
Fixpoint firsts (seen : gset bytes) (hs : list bytes) : list bytes :=
  match hs with
  | [] => []
  | h :: hs => if decide (h ∈ seen) then firsts seen hs else (if packed h then [] else [h]) ++ firsts ({[h]} ∪ seen) hs
  end.
Lemma firsts_app l k : forall seen, firsts seen (l ++ k) = firsts seen l ++ firsts (list_to_set l ∪ seen) k.
Proof.
  induction l as [|h l IH]; intros seen; [simpl; f_equal; set_solver|]. cbn [firsts app]. case_decide.
  - rewrite IH. do 2 f_equal. set_solver.
  - rewrite IH, <- app_assoc. do 3 f_equal. set_solver.
Qed.
Lemma firsts_elem l g : forall seen, g ∈ firsts seen l <-> g ∈ l /\ g ∉ seen /\ packed g = false.
Proof.
  induction l as [|h l IH]; intros seen; cbn [firsts]; [set_solver|]. case_decide as D; [rewrite IH; set_solver|]. rewrite elem_of_app, IH.
  destruct (packed h) eqn:Ph.
  - split; [set_solver|]. intros (E & Ns & Pg). right. split_and!; [|destruct (decide (g = h)); [congruence|set_solver]|done].
    apply elem_of_cons in E as [->|E]; [congruence|done].
  - rewrite list_elem_of_singleton. split; [intros [->|(E & Ns & Pg)]; set_solver|]. intros (E & Ns & Pg). destruct (decide (g = h)) as [->|Ng]; [by left|].
    right. split_and!; [set_solver|set_solver|done].
Qed.
Lemma firsts_NoDup l : forall seen, NoDup (firsts seen l).
Proof.
  induction l as [|h l IH]; intros seen; cbn [firsts]; [by apply NoDup_nil|]. case_decide; [apply IH|]. destruct (packed h); [apply IH|]. simpl.
  apply NoDup_cons. split; [|apply IH]. rewrite firsts_elem. set_solver.
Qed.
(** What stood before the place where a hash was first shown was shown before. *)
Lemma firsts_before l h : forall seen i, firsts seen l !! i = Some h ->
  exists k, l !! k = Some h /\ forall g, g ∈ take k l -> packed g = true \/ g ∈ seen \/ g ∈ take i (firsts seen l).
Proof.
  induction l as [|x l IH]; intros seen i E; cbn [firsts] in *; [done|]. case_decide as D.
  - destruct (IH _ _ E) as (k & Ek & K). exists (S k). split; [done|]. intros g. cbn [take]. rewrite elem_of_cons. intros [->|Eg]; auto.
  - destruct (packed x) eqn:Px; simpl in *.
    + destruct (IH _ _ E) as (k & Ek & K). exists (S k). split; [done|]. intros g. cbn [take]. rewrite elem_of_cons. intros [->|Eg]; [by left|].
      destruct (K _ Eg) as [?|[?|?]]; [by left| |by right; right]. destruct (decide (g = x)) as [->|]; [by left|]. right. left. set_solver.
    + destruct i as [|i]; simpl in E; [injection E as <-; exists 0%nat; split; [done|]; intros g Eg; by apply not_elem_of_nil in Eg|].
      destruct (IH _ _ E) as (k & Ek & K). exists (S k). split; [done|]. intros g. cbn [take]. rewrite !elem_of_cons. intros [->|Eg]; [auto|].
      destruct (K _ Eg) as [?|[?|?]]; [by left| |auto]. destruct (decide (g = x)) as [->|]; [auto|]. right. left. set_solver.
Qed.
End Firsts.

Section Sorted.
Context {T : Type} `{!PoolItem T} `{!Dags T} `{!GoRange bytes nat} `{!PrioritySort} `{!GoSorter by_creation}.
Abbreviation Pool := (TxPool (T := T)).
Abbreviation M := (ST Pool pool_error).
Implicit Types (s : Pool) (r q : nat) (t : T) (h : bytes) (o : OutPoint).

(** ** Reading the pool *)

Lemma foldM_pure {A B} (f : B -> A -> M B) (g : B -> A -> B) l s : (forall a b, a ∈ l -> f b a s = (s, Ok (g b a))) -> forall b, foldM f l b s = (s, Ok (fold_left g l b)).
Proof.
  induction l as [|a l IH]; intros K b; [done|]. cbn [foldM fold_left]. unfold bind. rewrite K by left. apply IH. intros x c E. apply K. by right.
Qed.
Lemma has_deref s r t : has s r t -> exists p, heap s !! r = Some p /\ Tx p = t /\ deref r s = (s, Ok p).
Proof.
  unfold has. intros E. destruct (heap s !! r) as [p|] eqn:Ep; [|done]. injection E as E. exists p. split_and!; [done..|].
  unfold deref, bind, gets, get. by rewrite Ep.
Qed.
Lemma AllTxpoolTxs_eq s : pool_ok s -> AllTxpoolTxs s = (s, Ok (all s)).
Proof.
  intros I. unfold AllTxpoolTxs. unfold bind at 1. unfold gets. cbv beta.
  rewrite (foldM_pure _ (fun m '(h, r) => <[h := r]> m)).
  { by rewrite range_all. }
  intros [h r] m E. apply in_range in E. destruct (ok_all _ I _ _ E) as (t & Ht & Hh). destruct (has_deref _ _ _ Ht) as (p & Ep & Et & D).
  unfold bind. rewrite D. cbv zeta. rewrite Et, Hh. unfold bytes_equal. by rewrite bool_decide_true by done.
Qed.
Lemma AllOrphanTxs_eq s : pool_ok s -> AllOrphanTxs s = (s, Ok (orphans s)).
Proof.
  intros I. unfold AllOrphanTxs. unfold bind at 1. unfold gets. cbv beta.
  rewrite (foldM_pure _ (fun m '(h, r) => <[h := r]> m)).
  { by rewrite range_all. }
  intros [h r] m E. apply in_range in E. destruct (ok_orphans _ I _ _ E) as (t & Ht & Hh). destruct (has_deref _ _ _ Ht) as (p & Ep & Et & D).
  unfold bind. rewrite D. by rewrite Et, Hh.
Qed.

(** ** What a transaction waits for *)

Definition hsh s r : bytes := match heap s !! r with Some p => tx_Hash (Tx p) | None => zeroHash end.
(** [q] is the transaction of the pool that makes an input of [r] the ledger does not have. *)
Definition waits s (m n : gmap bytes nat) r q : Prop :=
  exists p o e pq, heap s !! r = Some p /\ o ∈ spends (Tx p) /\ dag_GetUtxoEntry (unit_ s) o = Err e /\ waiting m n (TxHash o) = Some q /\
    heap s !! q = Some pq /\ Pending pq = false.
Definition ordered s m n (l : list nat) : Prop := forall i r, l !! i = Some r -> forall q, waits s m n r q -> q ∈ take i l.

(** Hashes have no cycles and name one transaction, the ledger answers, and orphans have all their
    outpoints. *)
Record selectable s : Prop := {
  sel_acyclic : exists rank : bytes -> nat, forall r t o, has s r t -> o ∈ spends t -> (rank (TxHash o) < rank (tx_Hash t))%nat;
  sel_ledger : forall o, dag_GetUtxoEntry (unit_ s) o <> Panic;
  sel_orphans : forall h r t, orphans s !! h = Some r -> has s r t -> Forall is_Some (all_previous t);
  sel_hash : forall r r' t t', has s r t -> has s r' t' -> tx_Hash t = tx_Hash t' -> t = t' }.

Lemma ordered_nil s m n : ordered s m n [].
Proof. by intros i r E. Qed.
Lemma ordered_app s m n l k : ordered s m n l -> ordered s m n k -> ordered s m n (l ++ k).
Proof.
  intros A B i r E q W. apply lookup_app_Some in E as [E|[L E]].
  - rewrite take_app_le by (apply lookup_lt_Some in E; lia). by eapply A.
  - rewrite take_app_ge by done. apply elem_of_app. right. by eapply B.
Qed.
Lemma ordered_snoc s m n l r : ordered s m n l -> (forall q, waits s m n r q -> q ∈ l) -> ordered s m n (l ++ [r]).
Proof.
  intros A B i x E q W. apply lookup_app_Some in E as [E|[L E]].
  - rewrite take_app_le by (apply lookup_lt_Some in E; lia). by eapply A.
  - rewrite take_app_ge by done. apply elem_of_app. left. apply list_lookup_singleton_Some in E as [_ <-]. by apply B.
Qed.
Lemma has_hsh s r t : has s r t -> hsh s r = tx_Hash t.
Proof. intros E. destruct (has_deref _ _ _ E) as (p & Ep & <- & _). unfold hsh. by rewrite Ep. Qed.

Section Precusors.
Variables (s : Pool) (m n : gmap bytes nat) (rank : bytes -> nat).
Hypothesis (Nm : names m s) (Nn : names n s) (Hrank : forall r t o, has s r t -> o ∈ spends t -> (rank (TxHash o) < rank (tx_Hash t))%nat)
  (Hdag : forall o, dag_GetUtxoEntry (unit_ s) o <> Panic).

Lemma waiting_named h q : waiting m n h = Some q -> exists t, has s q t /\ tx_Hash t = h.
Proof. unfold waiting. case_match eqn:E1; [intros [= <-]; by apply Nm|apply Nn]. Qed.
(** How many transactions rank lower: more than for the transactions it waits for. *)
Definition lower r : nat := length (filter (fun p => rank (tx_Hash (Tx p)) < rank (hsh s r))%nat (heap s)).
Lemma lower_lt r t o q : has s r t -> o ∈ spends t -> waiting m n (TxHash o) = Some q -> (lower q < lower r)%nat.
Proof.
  intros Ht Eo Ew. destruct (waiting_named _ _ Ew) as (u & Hu & Hh). destruct (has_deref _ _ _ Hu) as (p & Ep & Et & _).
  assert (L : (rank (hsh s q) < rank (hsh s r))%nat) by (rewrite (has_hsh _ _ _ Hu), (has_hsh _ _ _ Ht), Hh; by eapply Hrank).
  apply length_filter_lt with (x := p); [intros y; lia|by eapply list_elem_of_lookup_2| |]; rewrite Et, <- (has_hsh _ _ _ Hu); lia.
Qed.
Lemma lower_heap r : (lower r <= length (heap s))%nat.
Proof. apply length_filter. Qed.

Lemma getPrecusorTxs_ok fuel : forall r, known s r -> (lower r < fuel)%nat ->
  exists l, getPrecusorTxs fuel r m n s = (s, Ok l) /\ ordered s m n l /\ (forall q, waits s m n r q -> q ∈ l) /\ knowns l s.
Proof.
  induction fuel as [|fuel IH]; intros r [t Ht] L; [lia|]. cbn [getPrecusorTxs]. destruct (has_deref _ _ _ Ht) as (p & Ep & Et & D).
  unfold bind at 1. rewrite D.
  match goal with |- context [foldM ?f _ _ _] => assert (K : forall os acc, (forall o, o ∈ os -> o ∈ spends t) -> ordered s m n acc -> knowns acc s ->
    exists l, foldM f os acc s = (s, Ok l) /\ ordered s m n l /\ knowns l s /\ (forall x, x ∈ acc -> x ∈ l) /\
      (forall o e q pq, o ∈ os -> dag_GetUtxoEntry (unit_ s) o = Err e -> waiting m n (TxHash o) = Some q -> heap s !! q = Some pq -> Pending pq = false -> q ∈ l)) end.
  { induction os as [|o os IHo]; intros acc Hos Oa Ka; cbn [foldM].
    { exists acc. split_and!; try done. intros o e q pq E. by apply not_elem_of_nil in E. }
    assert (Hos' : forall o', o' ∈ os -> o' ∈ spends t) by (intros; apply Hos; by right).
    unfold bind at 1. unfold bind at 1. unfold gets. cbv beta. destruct (dag_GetUtxoEntry (unit_ s) o) as [u|e|] eqn:Ed; [| |by apply Hdag in Ed].
    - destruct (IHo acc Hos' Oa Ka) as (l & El & Ol & Kl & Il & Wl). exists l. split_and!; try done.
      intros o' e q pq [->|E]%elem_of_cons Ed' Ew Eq Pq; [congruence|by eapply Wl].
    - destruct (waiting m n (TxHash o)) as [q|] eqn:Ew.
      2:{ destruct (IHo acc Hos' Oa Ka) as (l & El & Ol & Kl & Il & Wl). exists l. split_and!; try done.
          intros o' e' q pq [->|E]%elem_of_cons Ed' Ew' Eq Pq; [congruence|by eapply Wl]. }
      destruct (waiting_named _ _ Ew) as (u & Hu & Hh). destruct (has_deref _ _ _ Hu) as (pq & Epq & Etq & Dq). unfold bind at 1. rewrite Dq.
      destruct (Pending pq) eqn:Pq.
      { destruct (IHo acc Hos' Oa Ka) as (l & El & Ol & Kl & Il & Wl). exists l. split_and!; try done.
        intros o' e' q' pq' [->|E]%elem_of_cons Ed' Ew' Eq' Pq'; [congruence|by eapply Wl]. }
      destruct (IH q) as (l1 & E1 & O1 & W1 & K1).
      { by exists u. } { assert (lower q < lower r)%nat by (eapply lower_lt; [done|apply Hos; left|done]). lia. }
      unfold bind at 1. rewrite E1. unfold ret at 1.
      destruct (IHo (acc ++ l1 ++ [q])) as (l & El & Ol & Kl & Il & Wl); [done| | |].
      { apply ordered_app; [done|]. by apply ordered_snoc. }
      { apply knowns_app; [done|]. apply knowns_app; [done|]. apply knowns_one. by exists u. }
      exists l. split_and!; try done; [intros x Ex; apply Il, elem_of_app; by left|].
      intros o' e' q' pq' [->|E]%elem_of_cons Ed' Ew' Eq' Pq'; [|by eapply Wl]. rewrite Ew in Ew'. injection Ew' as <-.
      apply Il. rewrite !elem_of_app. right. right. left. }
  rewrite Et. destruct (K (spends t) [] (fun o E => E) (ordered_nil _ _ _) (knowns_nil _)) as (l & El & Ol & Kl & _ & Wl). exists l. split_and!; try done.
  intros q (p' & o & e & pq & Ep' & Eo & Ed & Ew & Epq & Pq). rewrite Ep in Ep'. injection Ep' as <-. rewrite Et in Eo. by eapply Wl.
Qed.
Lemma precusors_ok r : known s r ->
  exists l, precusors r m n s = (s, Ok l) /\ ordered s m n l /\ (forall q, waits s m n r q -> q ∈ l) /\ knowns l s.
Proof. intros K. apply getPrecusorTxs_ok; [done|]. pose proof (lower_heap r). lia. Qed.
End Precusors.

(** ** The loops of GetSortedTxs *)

Lemma known_deref s r : known s r -> exists p, heap s !! r = Some p /\ has s r (Tx p) /\ deref r s = (s, Ok p).
Proof. intros [t Ht]. destruct (has_deref _ _ _ Ht) as (p & Ep & <- & D). by exists p. Qed.
Lemma sizes_ok l s : knowns l s -> forall total, exists total', sizes l total s = (s, Ok total').
Proof.
  induction l as [|r l IH]; intros K total; [by exists total|]. unfold sizes. cbn [foldM]. destruct (known_deref s r) as (p & _ & _ & D); [apply K; left|].
  unfold bind at 1. unfold bind at 1. rewrite D. apply IH. intros x E. apply K. by right.
Qed.
(** The list sorted by priority hands out its transactions one by one; it drops those that are not
    ready. *)
Definition can_go s r : Prop := is_Some (all s !! hsh s r) /\ ready (heap s) r = true.
Lemma get_loop_ok l s : knowns l s -> exists l' v, get_loop l s = (s, Ok (l', v)) /\ knowns l' s /\ (forall r, v = Some r -> known s r) /\
  (forall r, r ∈ l -> can_go s r -> r ∈ l' \/ v = Some r) /\ (match v with Some _ => (length l' < length l)%nat | None => l' = [] end).
Proof.
  induction l as [|r l IH]; intros K; [exists [], None; split_and!; try done; set_solver|]. cbn [get_loop].
  assert (Kl : knowns l s) by (intros x E; apply K; by right). destruct (known_deref s r) as (p & Ep & Hp & D); [apply K; left|].
  assert (skip : ~ can_go s r -> exists l' v, get_loop l s = (s, Ok (l', v)) /\ knowns l' s /\ (forall r, v = Some r -> known s r) /\
    (forall x, x ∈ r :: l -> can_go s x -> x ∈ l' \/ v = Some x) /\ (match v with Some _ => (length l' < length (r :: l))%nat | None => l' = [] end)).
  { intros N. destruct (IH Kl) as (l' & v & E & K' & Kv & C & L). exists l', v. split_and!; try done.
    - intros x [->|Ex]%elem_of_cons Cx; [done|by apply C].
    - destruct v; [simpl; lia|done]. }
  unfold bind at 1. rewrite D. unfold bind at 1. unfold gets. cbv beta.
  destruct (all s !! tx_Hash (Tx p)) eqn:Ea; [|apply skip; intros [[x Ex] _]; unfold hsh in Ex; rewrite Ep in Ex; congruence].
  destruct (Pending p || Discarded p) eqn:Ef; [apply skip; intros [_ R]; unfold ready in R; rewrite Ep in R; destruct (Pending p), (Discarded p); done|].
  exists l, (Some r). split_and!; try done; [intros r' [= <-]; by exists (Tx p)| |simpl; lia].
  intros x [->|Ex]%elem_of_cons _; [by right|by left].
Qed.
Lemma priority_Get_ok s : knowns (items s) s -> exists l v, priority_Get s = (with_items l (stales s) s, Ok v) /\ knowns l s /\ (forall r, v = Some r -> known s r) /\
  (forall r, r ∈ items s -> can_go s r -> r ∈ l \/ v = Some r) /\ (match v with Some _ => (length l < length (items s))%nat | None => l = [] end).
Proof.
  intros K. destruct (get_loop_ok _ _ K) as (l & v & E & Kl & Kv & C & L). exists l, v. split_and!; try done.
  unfold priority_Get. unfold bind at 1. unfold gets. cbv beta. unfold bind at 1. by rewrite E.
Qed.

(** States that differ in the list of priorities only. *)
Definition same s s' : Prop := heap s' = heap s /\ unit_ s' = unit_ s /\ orphans s' = orphans s /\ outputs s' = outputs s.
Lemma same_items l z s : same s (with_items l z s).
Proof. by repeat split. Qed.
Lemma same_refl s : same s s.
Proof. by repeat split. Qed.
Lemma same_trans s1 s2 s3 : same s1 s2 -> same s2 s3 -> same s1 s3.
Proof. intros (A & B & C & D) (A' & B' & C' & D'). repeat split; congruence. Qed.
Lemma same_grows s s' : same s s' -> grows s s' /\ grows s' s.
Proof. intros (A & _). split; by apply grows_same. Qed.
Lemma same_ordered s s' m n l : same s s' -> ordered s' m n l -> ordered s m n l.
Proof. intros (A & B & _) O i r E q (p & o & e & pq & W). apply (O i r E). exists p, o, e, pq. by rewrite A, B. Qed.

Lemma deref_eq s r : deref r s = (s, match heap s !! r with Some p => Ok p | None => Panic end).
Proof. unfold deref, bind, gets, get. by destruct (heap s !! r). Qed.
Lemma sizes_cons r l total s : sizes (r :: l) total s =
  match heap s !! r with Some p => sizes l (fadd total (tx_Size (Tx p))) s | None => (s, Panic) end.
Proof. unfold sizes. cbn [foldM]. unfold bind at 1. unfold bind at 1. rewrite deref_eq. by destruct (heap s !! r). Qed.
Lemma sizes_app l k s : forall total tot1, sizes l total s = (s, Ok tot1) -> sizes (l ++ k) total s = sizes k tot1 s.
Proof.
  induction l as [|r l IH]; intros total tot1 E; [by injection E as ->|]. simpl. rewrite sizes_cons in *. destruct (heap s !! r); [by apply IH|done].
Qed.
Lemma sizes_same l s s' : same s s' -> forall total tot, sizes l total s = (s, Ok tot) -> sizes l total s' = (s', Ok tot).
Proof.
  intros (Hh & _). induction l as [|r l IH]; intros total tot E; [by injection E as ->|]. rewrite sizes_cons in *. rewrite Hh.
  destruct (heap s !! r); [by apply IH|done].
Qed.

(** What the loop over the priorities leaves behind: nothing that could go is lost, and it ends
    when the list is empty or the unit is full, unless the clock ends it. *)
Definition taken s s' (turns : nat) (sel : list nat) (total : float64) : Prop :=
  (forall r, r ∈ items s -> can_go s r -> r ∈ items s' \/ IsTransactionExist (unit_ s) (hsh s r) = true \/ r ∈ sel) /\
  ((length (items s) < turns)%nat -> items s' = [] \/ fge total (of_int UnitMaxSize) = true).
Lemma select_ok m n (rank : bytes -> nat) turns : forall list total s, names m s -> names n s -> knowns (items s) s ->
  (forall r t o, has s r t -> o ∈ spends t -> (rank (TxHash o) < rank (tx_Hash t))%nat) -> (forall o, dag_GetUtxoEntry (unit_ s) o <> Panic) ->
  exists s' sel total', select_loop turns m n list total s = (s', Ok (list ++ sel, total')) /\ same s s' /\ ordered s m n sel /\ knowns sel s /\
    sizes sel total s = (s, Ok total') /\ taken s s' turns sel total'.
Proof.
  induction turns as [|turns IH]; intros list total s Nm Nn K R Dg; cbn [select_loop].
  { exists s, [], total. rewrite app_nil_r. split_and!; [done|apply same_refl|apply ordered_nil|apply knowns_nil|done|split; [auto|lia]]. }
  destruct (fge total _) eqn:Ef.
  { exists s, [], total. rewrite app_nil_r. split_and!; [done|apply same_refl|apply ordered_nil|apply knowns_nil|done|split; auto]. }
  destruct (priority_Get_ok s K) as (l & v & E & Kl & Kv & C & L). unfold bind at 1. rewrite E. set (s1 := with_items l (stales s) s).
  assert (S1 : same s s1) by apply same_items. destruct v as [r|].
  2:{ exists s1, [], total. rewrite app_nil_r. split_and!; [done|done|apply ordered_nil|apply knowns_nil|done|]. split; [|by left].
      intros r Er Cr. destruct (C r Er Cr) as [?|?]; [by left|done]. }
  assert (N1 : names m s1 /\ names n s1 /\ knowns (items s1) s1) by (split_and!; done). destruct N1 as (Nm1 & Nn1 & K1).
  destruct (known_deref s1 r) as (p & Ep & Hp & D); [by apply Kv|]. unfold bind at 1. rewrite D.
  assert (skip : (can_go s r -> IsTransactionExist (unit_ s) (hsh s r) = true) -> exists s' sel total', select_loop turns m n list total s1 = (s', Ok (list ++ sel, total')) /\
    same s s' /\ ordered s m n sel /\ knowns sel s /\ sizes sel total s = (s, Ok total') /\ taken s s' (S turns) sel total').
  { intros Sk. destruct (IH list total s1 Nm1 Nn1 K1 R Dg) as (s2 & sel & tot & E2 & S2 & O2 & Ks & Z2 & T2 & T3). exists s2, sel, tot.
    split_and!; [done|by eapply same_trans|done|done|by apply (sizes_same _ s1)|]. split.
    - intros x Ex Cx. destruct (C x Ex Cx) as [Ex'|[= <-]]; [by apply (T2 x)|right; left; by apply Sk].
    - intros Lt. apply T3. simpl. lia. }
  destruct (Pending p) eqn:Pp.
  { apply skip. intros [_ Rd]. unfold ready in Rd. change (heap s !! r = Some p) in Ep. rewrite Ep, Pp in Rd. done. }
  unfold bind at 1. unfold IsTransactionExist_, gets. cbv beta. destruct (IsTransactionExist (unit_ s1) (tx_Hash (Tx p))) eqn:Ex.
  { apply skip. intros _. unfold hsh. change (heap s !! r = Some p) in Ep. by rewrite Ep. }
  destruct (precusors_ok s1 m n rank Nm1 Nn1 R Dg r) as (pre & Epr & Op & Wp & Kp); [by apply Kv|]. unfold bind at 1. rewrite Epr.
  assert (Kpr : knowns (pre ++ [r]) s1) by (apply knowns_app; [done|apply knowns_one; by apply Kv]).
  destruct (sizes_ok (pre ++ [r]) s1 Kpr total) as (tot & Et). unfold bind at 1. rewrite Et.
  destruct (IH (list ++ pre ++ [r]) tot s1 Nm1 Nn1 K1 R Dg) as (s2 & sel & tot2 & E2 & S2 & O2 & Ks & Z2 & T2 & T3).
  exists s2, ((pre ++ [r]) ++ sel), tot2. split_and!; [rewrite E2; by rewrite !app_assoc|by eapply same_trans| |by apply knowns_app| |].
  - apply ordered_app; [by apply ordered_snoc|done].
  - apply (sizes_same _ s1); [done|]. by rewrite (sizes_app _ _ _ _ _ Et).
  - split.
    + intros x Ex' Cx. destruct (C x Ex' Cx) as [El|[= <-]].
      * destruct (T2 x El Cx) as [?|[?|?]]; [by left|by right; left|right; right; rewrite elem_of_app; by right].
      * right. right. rewrite !elem_of_app. left. right. left.
    + intros Lt. apply T3. simpl. lia.
Qed.

Lemma sort_orphans_ok l s : knowns l s -> exists l', sort_orphans l s = (s, Ok l') /\ l' ≡ₚ l.
Proof.
  intros K. assert (F : forall l acc, knowns l s -> exists ks, foldM (fun k r => let! p := deref r in ret (k ++ [(Unix (CreationDate p), r)])) l acc s = (s, Ok (acc ++ ks)) /\ ks.*2 = l).
  { clear. induction l as [|r l IH]; intros acc K; [exists []; by rewrite app_nil_r|]. cbn [foldM]. destruct (known_deref s r) as (p & _ & _ & D); [apply K; left|].
    unfold bind at 1. unfold bind at 1. rewrite D. unfold ret at 1.
    destruct (IH (acc ++ [(Unix (CreationDate p), r)])) as (ks & E & <-); [intros x Ex; apply K; by right|]. exists ((Unix (CreationDate p), r) :: ks).
    by rewrite E, <- app_assoc. }
  destruct (F l [] K) as (ks & E & Ek). exists (sort_Sort ks).*2. unfold sort_orphans. unfold bind at 1. rewrite E. split; [done|]. by rewrite sort_perm, Ek.
Qed.

Lemma missing_ok s l : (forall o, dag_GetUtxoEntry (unit_ s) o <> Panic) -> Forall is_Some l -> missing s l <> Panic.
Proof.
  intros Dg. induction l as [|x l IH]; intros F; [done|]. apply Forall_cons in F as [[o ->] F]. simpl. unfold GetUtxoEntry.
  destruct (outputs s !! o); [by apply IH|]. destruct (dag_GetUtxoEntry (unit_ s) o) eqn:Ed; [by apply IH| |by apply Dg in Ed].
  case_bool_decide; [by apply IH|done].
Qed.
Lemma ValidateOrphanTx_ok s t : (forall o, dag_GetUtxoEntry (unit_ s) o <> Panic) -> Forall is_Some (all_previous t) -> exists v, ValidateOrphanTx t s = (s, Ok v).
Proof.
  intros Dg F. unfold ValidateOrphanTx. case_match; [by eexists|]. destruct (missing s (all_previous t)) eqn:E; [by eexists..|]. by apply missing_ok in E.
Qed.
Lemma orphan_ok h (index : Z) l : forall list total s, (forall r, r ∈ l -> exists t, has s r t /\ Forall is_Some (all_previous t)) ->
  (forall o, dag_GetUtxoEntry (unit_ s) o <> Panic) ->
  exists s' orph total', orphan_loop h index l list total s = (s', Ok (list ++ orph, total')) /\ unit_ s' = unit_ s /\ items s' = items s /\ grows s s' /\ (forall r, r ∈ orph -> r ∈ l).
Proof.
  induction l as [|r l IH]; intros list total s K Dg; cbn [orphan_loop]; [exists s, [], total; rewrite app_nil_r; split_and!; [done|done|done|apply grows_refl|done]|].
  destruct (K r) as (t & Ht & Ft); [left|]. destruct (has_deref _ _ _ Ht) as (p & Ep & Et & D). unfold bind at 1. rewrite D. cbv zeta.
  assert (next : forall s1, grows s s1 -> unit_ s1 = unit_ s -> items s1 = items s -> forall list1 total1, exists s' orph total', orphan_loop h index l list1 total1 s1 = (s', Ok (list1 ++ orph, total')) /\
    unit_ s' = unit_ s /\ items s' = items s /\ grows s s' /\ (forall x, x ∈ orph -> x ∈ l)).
  { intros s1 G1 U1 J1 list1 total1. destruct (IH list1 total1 s1) as (s2 & orph & tot & E2 & U2 & J2 & G2 & I2).
    - intros x Ex. destruct (K x) as (u & Hu & Fu); [by right|]. exists u. by split; [apply G1|].
    - by rewrite U1.
    - exists s2, orph, tot. split_and!; [done|congruence|congruence|by eapply grows_trans|done]. }
  assert (weaken : forall s1, grows s s1 -> unit_ s1 = unit_ s -> items s1 = items s -> forall total1, exists s' orph total', orphan_loop h index l list total1 s1 = (s', Ok (list ++ orph, total')) /\
    unit_ s' = unit_ s /\ items s' = items s /\ grows s s' /\ (forall x, x ∈ orph -> x ∈ r :: l)).
  { intros s1 G1 U1 J1 total1. destruct (next s1 G1 U1 J1 list total1) as (s2 & orph & tot & E2 & U2 & J2 & G2 & I2). exists s2, orph, tot. split_and!; try done.
    intros x Ex. right. by apply I2. }
  unfold bind at 1. unfold IsTransactionExist_, gets. cbv beta. destruct (IsTransactionExist _ _).
  { unfold bind at 1. unfold orphans_Delete, modify. apply weaken; [by apply grows_same|done..]. }
  destruct (ValidateOrphanTx_ok s (Tx p) Dg) as ([b e] & Ev); [by rewrite Et|]. unfold bind at 1. rewrite Ev.
  destruct b, e; [apply weaken; [apply grows_refl|done..]..|]. unfold bind at 1. unfold update, modify at 1. unfold bind at 1. unfold all_Store, modify at 1. unfold bind at 1.
  unfold orphans_Delete, modify at 1. match goal with |- context [if _ then ret _ else orphan_loop _ _ _ _ _] => idtac end.
  match goal with |- context [(if _ then _ else _) ?s1] => assert (G1 : grows s s1) by (intros x u Hu; unfold has in *; simpl; by apply (has_alter r)) end.
  destruct (fgt _ _).
  - eexists _, [r], _. split_and!; [done|done|done|exact G1|]. intros x Ex. apply list_elem_of_singleton in Ex as ->. left.
  - match type of G1 with grows _ ?s1 => destruct (next s1 G1 eq_refl eq_refl (list ++ [r]) (fadd total (tx_Size (Tx p)))) as (s2 & orph & tot & E2 & U2 & J2 & G2 & I2) end.
    exists s2, (r :: orph), tot. split_and!; [by rewrite E2, <- app_assoc|done|done|done|]. intros x [->|Ex]%elem_of_cons; [left|right; by apply I2].
Qed.

Lemma hsh_grows s s' r : grows s s' -> known s r -> hsh s' r = hsh s r.
Proof. intros G [t Ht]. by rewrite (has_hsh _ _ _ Ht), (has_hsh _ _ _ (G _ _ Ht)). Qed.
Lemma index_ok l : forall (i : Z) m hs s, knowns l s -> exists s' m', index_loop i l m hs s = (s', Ok (m', hs ++ map (hsh s) l)) /\
  unit_ s' = unit_ s /\ items s' = items s /\ grows s s' /\ grows s' s /\
  (forall h, is_Some (m !! h) \/ h ∈ map (hsh s) l -> is_Some (m' !! h)) /\ (forall h r, m' !! h = Some r -> m !! h = Some r \/ (r ∈ l /\ hsh s r = h)).
Proof.
  induction l as [|r l IH]; intros i m hs s K; cbn [index_loop map].
  { exists s, m. rewrite app_nil_r. split_and!; [done|done|done|apply grows_refl|apply grows_refl| |by left].
    intros h [?|E]; [done|by apply not_elem_of_nil in E]. }
  assert (Kl : knowns l s) by (intros x E; apply K; by right). destruct (known_deref s r) as (p & Ep & Hp & D); [apply K; left|].
  unfold bind at 1. rewrite D. unfold bind at 1. unfold update, modify. set (s1 := with_heap (alter (with_index i) r (heap s)) s).
  assert (G : forall x t, has s1 x t <-> has s x t) by (intros; by apply has_alter).
  assert (G1 : grows s s1) by (intros x t; by rewrite G). assert (G2 : grows s1 s) by (intros x t; by rewrite G).
  destruct (IH (i + 1) (<[tx_Hash (Tx p) := r]> m) (hs ++ [tx_Hash (Tx p)]) s1) as (s2 & m' & E & U & J & G3 & G4 & In & Out).
  { intros x Ex. eapply known_grows, Kl; done. }
  assert (Hm : map (hsh s1) l = map (hsh s) l).
  { apply map_ext_in. intros x Ex. apply hsh_grows; [done|]. by apply Kl, list_elem_of_In. }
  rewrite Hm in *. exists s2, m'. split_and!; try done.
  - rewrite E, <- app_assoc. do 3 f_equal. simpl. by rewrite (has_hsh _ _ _ Hp).
  - by eapply grows_trans.
  - by eapply grows_trans.
  - intros h Hh. apply In. rewrite (has_hsh _ _ _ Hp), elem_of_cons in Hh. destruct (decide (h = tx_Hash (Tx p))) as [->|N]; [left; by rewrite lookup_insert_eq|].
    rewrite lookup_insert_ne by done. destruct Hh as [?|[?|?]]; [by left|done|by right].
  - intros h x Ex. destruct (Out h x Ex) as [Em|[El Eh]].
    + apply lookup_insert_Some in Em as [[<- <-]|[_ Em]]; [right|by left]. split; [left|by apply has_hsh].
    + right. split; [by right|]. rewrite <- Eh. symmetry. apply hsh_grows; [done|by apply Kl].
Qed.

Lemma unique_ok h0 (index : Z) hs : forall (i : Z) (m : gmap bytes nat) list s seen, (forall h, h ∈ hs -> h ∉ seen -> is_Some (m !! h)) -> (forall h, h ∈ seen -> m !! h = None) ->
  exists s' l, unique_loop h0 index i hs m list s = (s', Ok (list ++ l)) /\ Forall2 (fun r h => m !! h = Some r) l (firsts (IsTransactionExist (unit_ s)) seen hs) /\
    items s' = items s.
Proof.
  induction hs as [|h hs IH]; intros i m list s seen In Out; cbn [unique_loop firsts]; [exists s, []; by rewrite app_nil_r|].
  destruct (m !! h) as [r|] eqn:Em.
  - rewrite decide_False by (intros D; by rewrite Out in Em).
    assert (next : forall s1, unit_ s1 = unit_ s -> items s1 = items s -> forall list1 i1, exists s' l, unique_loop h0 index i1 hs (delete h m) list1 s1 = (s', Ok (list1 ++ l)) /\
      Forall2 (fun r h => m !! h = Some r) l (firsts (IsTransactionExist (unit_ s)) ({[h]} ∪ seen) hs) /\ items s' = items s).
    { intros s1 U1 J1 list1 i1. destruct (IH i1 (delete h m) list1 s1 ({[h]} ∪ seen)) as (s2 & l & E & F & J).
      - intros k Ek Nk. rewrite lookup_delete_ne by set_solver. apply In; [by right|set_solver].
      - intros k Ek. destruct (decide (k = h)) as [->|N]; [by rewrite lookup_delete_eq|]. rewrite lookup_delete_ne by done. apply Out. set_solver.
      - rewrite U1 in F. exists s2, l. split_and!; [done| |congruence]. eapply Forall2_impl; [exact F|]. intros x y Ey. by apply lookup_delete_Some in Ey as [_ Ey]. }
    unfold bind at 1. unfold IsTransactionExist_, gets. cbv beta zeta. destruct (IsTransactionExist (unit_ s) h).
    + unfold bind at 1. unfold go, modify. by apply next.
    + unfold bind at 1. unfold go, modify. match goal with |- context [unique_loop _ _ ?i1 hs _ ?l1 ?s1] => destruct (next s1 eq_refl eq_refl l1 i1) as (s2 & l & E & F & J) end.
      exists s2, (r :: l). split_and!; [by rewrite E, <- app_assoc|by constructor|done].
  - case_decide as D; [|destruct (In h) as [x Ex]; [left|done|congruence]]. apply IH; [|done]. intros k Ek. apply In. by right.
Qed.

Lemma named_by (m : gmap bytes nat) s l hs : Forall2 (fun r h => m !! h = Some r) l hs -> (forall h r, m !! h = Some r -> known s r /\ hsh s r = h) ->
  map (hsh s) l = hs /\ forall r, r ∈ l -> known s r.
Proof.
  intros F K. induction F as [|r h l hs E F [IH1 IH2]]; [split; [done|by intros r ?%not_elem_of_nil]|]. destruct (K _ _ E) as [Kr Hr]. split.
  - simpl. by rewrite Hr, IH1.
  - intros x [->|Ex]%elem_of_cons; auto.
Qed.

(** The call, with the list before hashes were made unique: the sequence, the choice by priority,
    the orphans. *)
Lemma GetSortedTxs_raw turns h (index : Z) s : pool_ok s -> selectable s ->
  exists s' sel orph l size total, GetSortedTxs turns h index s = (s', Ok (l, total)) /\
    map (hsh s) l = firsts (IsTransactionExist (unit_ s)) ∅ (map (hsh s) (sequenTxs s) ++ map (hsh s) sel ++ map (hsh s) orph) /\
    (forall r, r ∈ l -> known s r) /\
    ordered s (all s) (orphans s) sel /\ knowns sel s /\ (forall r, r ∈ orph -> is_Some (orphans s !! hsh s r)) /\
    sizes (sequenTxs s ++ sel) (S754_zero false) s = (s, Ok size) /\ taken s s' turns sel size.
Proof.
  intros I Sl. destruct (sel_acyclic _ Sl) as [rank R]. unfold GetSortedTxs. unfold bind at 1. unfold GetSequenTxs, All. set (s1 := with_sequen [] s).
  destruct (ok_with_sequen [] s) as [I1 G1]; [apply knowns_nil|done|]. fold s1 in I1, G1. assert (S1 : same s s1) by (by repeat split).
  unfold bind at 1. rewrite AllTxpoolTxs_eq by done. unfold bind at 1. rewrite AllOrphanTxs_eq by done.
  change (all s1) with (all s). change (orphans s1) with (orphans s).
  assert (Kq : knowns (sequenTxs s) s1) by (eapply knowns_grows; [exact G1|exact (ok_sequen _ I)]).
  destruct (sizes_ok _ s1 Kq (S754_zero false)) as (tot1 & E1). unfold bind at 1. rewrite E1.
  destruct (select_ok (all s) (orphans s) rank turns (sequenTxs s) tot1 s1) as (s2 & sel & tot2 & E2 & S2 & O2 & K2 & Z2 & T2);
    [exact (ok_all _ I1)|exact (ok_orphans _ I1)|exact (ok_items _ I1)|exact R|apply Sl|].
  unfold bind at 1. rewrite E2. assert (S02 : same s s2) by (by eapply same_trans). destruct (same_grows _ _ S02) as [G02 G20].
  destruct (sort_orphans_ok (go_range (orphans s)).*2 s2) as (ol & E3 & P3); [apply names_range; exact (names_grows _ _ _ G02 (ok_orphans _ I))|].
  unfold bind at 1. rewrite E3. assert (Po : forall r, r ∈ ol -> exists k, orphans s !! k = Some r).
  { intros r. rewrite P3, list_elem_of_fmap. intros ([k r'] & -> & Ek). exists k. by apply in_range. }
  destruct (orphan_ok h index ol (sequenTxs s ++ sel) tot2 s2) as (s3 & orph & tot3 & E4 & U4 & J4 & G4 & In4).
  { intros r Er. destruct (Po r Er) as [k Ek]. destruct (ok_orphans _ I _ _ Ek) as (t & Ht & _). exists t. split; [by apply G02|]. by eapply sel_orphans. }
  { destruct S02 as (_ & -> & _). apply Sl. }
  unfold bind at 1. rewrite E4. assert (G03 : grows s s3) by (by eapply grows_trans). set (rawl := (sequenTxs s ++ sel) ++ orph).
  assert (Kr : knowns rawl s).
  { apply knowns_app; [apply knowns_app; [exact (ok_sequen _ I)|done]|]. intros r Er. destruct (Po r (In4 r Er)) as [k Ek]. destruct (ok_orphans _ I _ _ Ek) as (t & Ht & _). by exists t. }
  destruct (index_ok rawl 0 ∅ [] s3) as (s4 & m' & E5 & U5 & J5 & G5 & G6 & In5 & Out5); [exact (knowns_grows _ _ _ G03 Kr)|]. unfold bind at 1. rewrite E5.
  assert (Hr : map (hsh s3) rawl = map (hsh s) rawl) by (apply map_ext_in; intros r Er; apply hsh_grows; [done|by apply Kr, list_elem_of_In]).
  destruct (unique_ok h index ([] ++ map (hsh s3) rawl) 0 m' [] s4 ∅) as (s5 & l & E6 & F6 & J6); [intros k Ek _; apply In5; by right|by intros k ?%not_elem_of_empty|].
  unfold bind at 1. rewrite E6. assert (Ul : unit_ s4 = unit_ s) by (rewrite U5, U4; apply S02). rewrite Ul, Hr in F6.
  assert (Fl : forall k r, m' !! k = Some r -> known s r /\ hsh s r = k).
  { intros k r Ek. destruct (Out5 k r Ek) as [En|[Er <-]]; [by rewrite lookup_empty in En|]. split; [by apply Kr|]. symmetry. by apply hsh_grows, Kr. }
  exists s5, sel, orph, l, tot2, tot3. split_and!; [done| | |exact (same_ordered _ _ _ _ _ S1 O2)|exact K2| | |].
  - unfold rawl in F6. simpl in F6. rewrite !map_app in F6. rewrite <- app_assoc in F6. exact (proj1 (named_by _ _ _ _ F6 Fl)).
  - exact (proj2 (named_by _ _ _ _ F6 Fl)).
  - intros r Er. destruct (Po r (In4 r Er)) as [k Ek]. destruct (ok_orphans _ I _ _ Ek) as (t & Ht & Hh). rewrite (has_hsh _ _ _ Ht), Hh. by exists r.
  - apply (sizes_same _ s1); [by repeat split|]. by rewrite (sizes_app _ _ _ _ _ E1).
  - destruct T2 as [T2 T3]. split; [intros r Er Cr|intros Lt]; rewrite J6, J5, J4; [by apply T2|by apply T3].
Qed.

Lemma map_split3 {A B} (f : A -> B) l x y z : map f l = x ++ y ++ z -> exists la lb lc, l = la ++ lb ++ lc /\ map f la = x /\ map f lb = y /\ map f lc = z.
Proof.
  intros E. apply map_eq_app in E as (la & k & -> & <- & E). apply map_eq_app in E as (lb & lc & -> & <- & <-). by exists la, lb, lc.
Qed.
Lemma waits_same s m n r r0 q : selectable s -> known s r -> known s r0 -> hsh s r = hsh s r0 -> waits s m n r q -> waits s m n r0 q.
Proof.
  intros Sl [t Ht] [t0 Ht0] Eh (p & o & e & pq & Ep & W). rewrite (has_hsh _ _ _ Ht), (has_hsh _ _ _ Ht0) in Eh.
  assert (t = t0) as <- by (by eapply sel_hash). destruct (has_deref _ _ _ Ht) as (p' & Ep' & Et & _). destruct (has_deref _ _ _ Ht0) as (p0 & Ep0 & Et0 & _).
  exists p0, o, e, pq. split; [done|]. rewrite Et0, <- Et. replace p' with p by congruence. done.
Qed.


(** ** Making room *)

(** What the next calls of [priority_Get] hand out. *)
Fixpoint get_many (k : nat) : M (list nat) :=
  match k with
  | O => ret []
  | S k => let! tx := priority_Get in match tx with None => ret [] | Some r => let! l := get_many k in ret (r :: l) end
  end.
Lemma can_go_inv s r : can_go s r -> exists p, heap s !! r = Some p /\ is_Some (all s !! tx_Hash (Tx p)) /\ (Pending p || Discarded p) = false.
Proof.
  unfold can_go, hsh, ready. intros [A R]. destruct (heap s !! r) as [p|]; [|done]. exists p. split_and!; [done..|]. by destruct (Pending p), (Discarded p).
Qed.
Lemma with_items_twice l z l' z' s : with_items l z (with_items l' z' s) = with_items l z s.
Proof. done. Qed.
Lemma get_many_eq k s : forall l, Forall (can_go s) l -> get_many k (with_items l (stales s) s) = (with_items (drop k l) (stales s) s, Ok (take k l)).
Proof.
  induction k as [|k IH]; intros l F; [done|]. cbn [get_many]. unfold bind at 1. unfold priority_Get. unfold bind at 1. unfold gets at 1. unfold bind at 1.
  destruct l as [|r l]; [done|]. apply Forall_cons in F as [C F]. destruct (can_go_inv _ _ C) as (p & Ep & [x Ea] & Ef). change (items _) with (r :: l). cbn [get_loop].
  unfold bind at 1. rewrite deref_eq. change (heap (with_items _ _ s)) with (heap s). rewrite Ep. unfold bind at 1. unfold gets at 1. simpl. rewrite Ea, Ef. simpl.
  unfold bind at 1. match goal with |- context [get_many k ?s1] => change s1 with (with_items l (stales s) s) end. by rewrite (IH l F).
Qed.
Lemma discard_loop_eq s l : forall k n, Forall (can_go s) l -> discard_loop (all s) k l n s = (s, Ok (take k l, drop k l, n)).
Proof.
  induction l as [|r l IH]; intros [|k] n F; [done..|]. apply Forall_cons in F as [C F]. destruct (can_go_inv _ _ C) as (p & Ep & [x Ea] & Ef).
  cbn [discard_loop]. unfold bind at 1. rewrite deref_eq, Ep, Ea. unfold bind at 1. by rewrite IH.
Qed.
Lemma Discard_eq k s : Forall (can_go s) (items s) -> Discard (Z.of_nat k) s = get_many k s.
Proof.
  intros F. transitivity (get_many k (with_items (items s) (stales s) s)); [|by destruct s]. rewrite get_many_eq by done.
  unfold Discard. unfold bind at 1, gets at 1. unfold bind at 1, gets at 1. unfold bind at 1, gets at 1. unfold bind at 1. rewrite Nat2Z.id. by rewrite discard_loop_eq.
Qed.
Lemma Underpriced_eq r p first rest s : items s = first :: rest -> Forall (can_go s) (items s) -> heap s !! r = Some p -> all s !! tx_Hash (Tx p) = None ->
  exists hd : TxPoolTransaction T, heap s !! first = Some hd /\ Underpriced r s = (s, Ok (fge (priority hd) (priority p))).
Proof.
  intros Ei F Ep Ea. rewrite Ei in F. apply Forall_cons in F as [C F]. destruct (can_go_inv _ _ C) as (hd & Eq & [x Ex] & Ef). exists hd. split; [done|].
  unfold Underpriced. unfold bind at 1. rewrite deref_eq, Ep. unfold bind at 1, gets at 1. rewrite Ea. unfold bind at 1, gets at 1. unfold bind at 1, gets at 1.
  unfold bind at 1. rewrite Ei. cbn [drop_stale]. unfold bind at 1. rewrite deref_eq, Eq. unfold bind at 1, gets at 1. rewrite Ex. simpl.
  unfold bind at 1, modify at 1. unfold bind at 1. rewrite deref_eq. simpl. rewrite Eq, <- Ei. by destruct s.
Qed.

(** After Put the list is sorted by descending priority. *)
Lemma Put_sorted r s : Forall (fun p => is_nan p.1 = false) (keyed (heap s) (items s ++ [r])) ->
  Sorting.Sorted.StronglySorted (fun a b => fgt b.1 a.1 = false) (keyed (heap s) (items (Put r s).1)).
Proof.
  intros F. unfold Put, modify. simpl. unfold sort_items. set (k := keyed (heap s) (items s ++ [r])) in *. pose proof (sort_priority_sorted k F) as S.
  replace (keyed (heap s) (sort_priority k).*2) with (sort_priority k); [done|]. symmetry.
  assert (K : Forall (fun p => p.1 = match heap s !! p.2 with Some p => priority p | None => S754_zero false end) (sort_priority k)).
  { apply Forall_forall. intros x. rewrite sort_priority_perm. unfold k, keyed. rewrite list_elem_of_fmap. by intros (r' & -> & _). }
  clear S. induction K as [|[f x] l E K IH]; [done|]. simpl in *. by rewrite E, IH at 1.
Qed.

(** C39: A full pool makes room at the wrong end.  A new transaction is compared with the first of the
    list, which in a list sorted as [Put] leaves it has the highest priority: unless it outbids that
    one it is refused as underpriced; and when it does, the transactions dropped for it, with all
    that depend on them, are those that the next unit would have taken first.  For a pool within its
    counters whose list holds only transactions that are ready to go. *)
Theorem make_room_drops_next r p first rest s : items s = first :: rest -> Forall (can_go s) (items s) -> heap s !! r = Some p -> all s !! tx_Hash (Tx p) = None ->
  0 < pool_limit (config s) <= Z.of_nat (size (all s)) -> Z.of_nat (size (all s)) < 2 ^ 62 ->
  exists hd : TxPoolTransaction T, heap s !! first = Some hd /\
    (Sorting.Sorted.StronglySorted (fun a b => fgt b.1 a.1 = false) (keyed (heap s) (items s)) ->
       forall q pq, q ∈ rest -> heap s !! q = Some pq -> fgt (priority pq) (priority hd) = false) /\
    make_room r s = if fge (priority hd) (priority p) then (s, Err ErrUnderpriced)
                    else (let! drop := get_many (Z.to_nat (Z.of_nat (size (all s)) - (pool_limit (config s) - 1))) in each (fun tx => remove_transaction tx true) drop) s.
Proof.
  intros Ei F Ep Ea L B. destruct (Underpriced_eq r p first rest s Ei F Ep Ea) as (hd & Eq & U). exists hd. split; [done|]. split.
  { rewrite Ei. intros S q pq Eqr Epq. simpl in S. apply Sorting.Sorted.StronglySorted_inv in S as [_ S]. rewrite Forall_forall in S.
    assert (K : keyed (heap s) [q] = [(priority pq, q)]) by (unfold keyed; simpl; by rewrite Epq).
    assert (In : (priority pq, q) ∈ keyed (heap s) rest).
    { unfold keyed in *. apply list_elem_of_fmap. exists q. split; [by injection K as ->|done]. }
    specialize (S _ In). simpl in S. by rewrite Eq in S. }
  unfold make_room. unfold bind at 1, gets at 1. unfold bind at 1, AllLength, gets at 1. rewrite uint64_small by lia.
  replace (_ <? _) with false by lia. unfold bind at 1. rewrite U. destruct (fge _ _); [done|]. cbv zeta.
  rewrite (uint64_small (_ - 1)), (int64_small (_ - 1)), int64_small by lia. replace (0 <? _) with true by lia.
  rewrite <- (Z2Nat.id (_ - (_ - 1))) by lia. unfold bind. rewrite Discard_eq, Nat2Z.id by done. done.
Qed.

(** An orphan is refused by [add] because it is an orphan, so the periodic scan, which passes it to
    [add] once its inputs are there, moves none that has not expired into the pool. *)
Lemma add_refuses_orphan (now : Z) r p s : heap s !! r = Some p -> first_coinbase (E := pool_error) (Tx p) = Ok false -> is_Some (orphans s !! tx_Hash (Tx p)) ->
  exists e, add now r s = (s, Err e).
Proof.
  intros Ep Ec [x Eo]. unfold add. unfold bind at 1. rewrite deref_eq, Ep. unfold bind at 1, lift at 1. rewrite Ec. cbv zeta. unfold bind at 1, gets at 1.
  case_bool_decide; [by eexists|]. unfold bind at 1, isOrphanInPool, gets at 1. rewrite Eo. rewrite bool_decide_true by done. by eexists.
Qed.
End Sorted.

(** ** Runs *)

Module Runs.

(** A ledger of outputs; the validator asks for every input, and the fee is the first byte of the
    hash. *)
Definition first_byte (t : pooled) : Z := match pt_hash t with b :: _ => b2z b | [] => 0 end.
Definition inputs_there (query : option OutPoint -> result string Utxo) (t : pooled) : bool :=
  forallb (fun x => match query x with Ok _ => true | _ => false end) (all_previous t).
Definition ledger_dags : Dags pooled := {|
  Ledger := gmap OutPoint Utxo; IsTransactionExist := fun _ _ => false;
  dag_GetUtxoEntry := fun m o => match m !! o with Some u => Ok u | None => Err "not found"%string end;
  GetTxFromAddress := fun _ _ => Ok []; VCache := unit;
  ValidateTx := fun query _ c t => (c, if inputs_there query t then Ok [mkAddition zeroAddress (first_byte t) None] else Err (TxValidationCode_ORPHAN, "ORPHAN TX"%string));
  GetAddressFromScript := fun _ => Err ""%string; Address_String := fun _ => ""%string; UnitMaxSize := 100 |}.
#[export] Existing Instance ledger_dags.

Definition point (h : byte) : OutPoint := mkOutPoint [h] 0 0.
(** A transaction that spends the first output of the transactions [ins], of size [size]. *)
Definition spend (h : byte) (ins : list byte) (size : Z) : pooled :=
  mkPooled (new_tx (mkSdw [mkMessage APP_PAYMENT (Some (PayPayment (mkPayment (map (fun i => mkInput [] [] (Some (point i))) ins)
    [mkOutput 1 [] (Some PTNAsset)] 0)))] [] false)) [h] size.
Definition utxo : Utxo := mkUtxo 1 (Some PTNAsset) [] 0 0 0.
Definition start (c : TxPoolConfig) : TxPool := NewTxPool4DI c (<[point xf1 := utxo]> (<[point xf2 := utxo]> ∅) : gmap OutPoint Utxo) tt 0.
Definition now : Z := 10 * second.
(** The goroutines run in order. *)
Definition settle (k : nat) : list event := replicate k (ERunJob now 0).
Definition play (c : TxPoolConfig) (es : list event) : TxPool := run es (start c).
Definition node : TxPoolConfig := mkConfig true "" hour 1 10 10 10 (3 * hour) (30 * minute) (20 * minute) 100 1000.

Definition parent : pooled := spend x01 [xf1] 10.
Definition child : pooled := spend x02 [x01] 10.
(** The child has the higher priority. *)
Definition family : TxPool := play node ([EAddLocal now parent; EAddLocal now child] ++ settle 6).
Example parent_first : items family = [1; 0]%nat /\ match (GetSortedTxs 10 [x99] 1 family).2 with Ok (l, _) => l | _ => [] end = [0; 1]%nat.
Proof. vm_compute. done. Qed.

(** Two transactions that spend one outpoint: the checks of AddLocal do not see it, those of
    ProcessTransaction do. *)
Definition rival : pooled := spend x03 [xf1] 10.
Example both_spends_accepted : let s := play node (EAddLocal now parent :: settle 3) in
  (AddLocal now rival s).2 = Ok tt /\ outpoints (AddLocal now rival s).1 !! point xf1 = Some 1%nat /\ (ProcessTransaction now rival s).2 = Err AlreadySpent.
Proof. vm_compute. done. Qed.

(** Asking for the numbers empties the sequence: its transactions are in no later unit. *)
Example stats_empty_sequence : let s := play node [EAddSequenTxs now [parent]] in
  match (GetSortedTxs 10 [x99] 1 s).2 with Ok (l, _) => l | _ => [] end = [0]%nat /\
  match (GetSortedTxs 10 [x99] 1 (Stats s).1).2 with Ok (l, _) => l | _ => [9]%nat end = [].
Proof. vm_compute. done. Qed.

(** An orphan whose parent arrived goes into the unit, and is marked to be discarded. *)
Definition adopted : TxPool := play node (EAddLocal now child :: EAddLocal now parent :: settle 3).
Example orphan_marked_discarded : let s := run (EGetSorted 10 [x99] 1 :: settle 2) adopted in
  match (GetSortedTxs 10 [x99] 1 adopted).2 with Ok (l, _) => l | _ => [] end = [1; 0]%nat /\
  (fun p => (Pending p, Discarded p)) <$> heap s !! 0%nat = Some (true, true).
Proof. vm_compute. done. Qed.
(** The scan of the orphans does not admit it. *)
Example orphan_not_admitted : let s := (limitNumberOrphans (20 * minute + 5 * second) adopted).1 in
  size (all s) = 1%nat /\ size (orphans s) = 1%nat /\ nextExpireScan s = 40 * minute + 5 * second.
Proof. vm_compute. done. Qed.

(** An orphan goes into a full unit before its parent, which is left waiting. *)
Definition heavy : pooled := spend x90 [xf2] 100.
Example orphan_before_parent : let s := play node (EAddLocal now child :: EAddLocal now parent :: EAddLocal now heavy :: settle 6) in
  match (GetSortedTxs 10 [x99] 1 s).2 with Ok (l, _) => l | _ => [] end = [2; 0]%nat.
Proof. vm_compute. done. Qed.

(** Without a journal file configured, the goroutine that writes the journal ends the node. *)
Example no_journal_panics : let s := play (mkConfig false "" hour 1 10 10 10 (3 * hour) (30 * minute) (20 * minute) 100 1000) [EAddLocal now parent] in
  jobs s = [PutPriority 0; JournalTx 0; TxPreEvent 0] /\ (run_job now (JournalTx 0) s).2 = Panic.
Proof. vm_compute. done. Qed.

(** Checking that a pool can be chosen from, on the transactions it holds. *)
Lemma selectable_dec (rank : bytes -> nat) (s : TxPool) : let ts := map Tx (heap s) in
  Forall (fun t => Forall (fun o => (rank (TxHash o) < rank (tx_Hash t))%nat) (spends t)) ts -> orphans s = ∅ -> NoDup (map pt_hash ts) -> selectable s.
Proof.
  intros ts R O N. assert (K : forall r t, has s r t -> ts !! r = Some t) by (intros r t E; unfold ts; by rewrite list_lookup_fmap). constructor.
  - exists rank. intros r t o E Eo. rewrite Forall_forall in R. specialize (R t (list_elem_of_lookup_2 _ _ _ (K _ _ E))). rewrite Forall_forall in R. by apply R.
  - intros o. simpl. by destruct (_ !! o).
  - intros h r t E. by rewrite O, lookup_empty in E.
  - intros r r' t t' E E' Eh. assert (r = r') as <-; [|by eapply has_fun].
    apply (NoDup_lookup (map pt_hash ts) r r' (pt_hash t)); [done|..]; rewrite list_lookup_fmap; [by rewrite (K _ _ E)|]. rewrite (K _ _ E'). exact (f_equal Some (eq_sym Eh)).
Qed.
Definition generation (h : bytes) : nat := match h with [x01] => 1 | [x02] => 2 | _ => 0 end.
Lemma family_ok : pool_ok family.
Proof. apply run_ok, new_pool_ok. Qed.
Lemma family_txs : map Tx (heap family) = [parent; child] /\ spends parent = [point xf1] /\ spends child = [point x01].
Proof. vm_compute. done. Qed.
Lemma family_selectable : selectable family.
Proof.
  destruct family_txs as (Et & Ep & Ec). apply (selectable_dec generation); rewrite ?Et.
  - constructor; [rewrite Ep|constructor; [rewrite Ec|constructor]]; constructor; try constructor; vm_compute; lia.
  - vm_compute. done.
  - by apply (bool_decide_unpack _); vm_compute.
Qed.


(** A pool for two transactions, of the fees 9 and 1 for each byte, refuses one of the fee 5 and
    drops the one of the fee 9 for one of the fee 12. *)
Definition tight : TxPool :=
  let s := play (mkConfig true "" hour 1 10 2 0 (3 * hour) (30 * minute) (20 * minute) 100 1000)
    (EAddLocal now (spend x09 [xf1] 1) :: EAddLocal now (spend x01 [xf2] 1) :: settle 6) in
  (alloc (with_priority (Some (of_int 12)) (TxtoTxpoolTx now (spend x0c [xf2] 1))) s).1.
Example full_pool : items tight = [0; 1]%nat /\
  (AddLocal now (spend x05 [xf2] 1) tight).2 = Err ErrUnderpriced /\
  let s := (AddLocal now (spend x0c [xf2] 1) tight).1 in Discarded <$> heap s !! 0%nat = Some true /\ Discarded <$> heap s !! 1%nat = Some false.
Proof. vm_compute. done. Qed.
Lemma tight_ready : Forall (can_go tight) (items tight) /\ heap tight !! 2%nat = Some (with_priority (Some (of_int 12)) (TxtoTxpoolTx now (spend x0c [xf2] 1))).
Proof. split; [|by vm_compute]. replace (items tight) with [0; 1]%nat by (by vm_compute). repeat constructor; vm_compute; eauto. Qed.
Lemma tight_full : all tight !! [x0c] = None /\ items tight = [0; 1]%nat /\ pool_limit (config tight) = 2 /\ size (all tight) = 2%nat.
Proof. vm_compute. done. Qed.
Lemma make_room_drops_next_witness : exists hd : TxPoolTransaction pooled, heap tight !! 0%nat = Some hd /\
  make_room 2 tight = if fge (priority hd) (of_int 12) then (tight, Err ErrUnderpriced)
                      else (let! drop := get_many 1 in each (fun tx => remove_transaction tx true) drop) tight.
Proof.
  destruct tight_ready as [F Ep].
  destruct tight_full as (N1 & N2 & N3 & N4).
  destruct (make_room_drops_next 2 _ 0 [1%nat] tight N2 F Ep N1) as (hd & Eh & _ & R); [rewrite N3, N4; lia|rewrite N4; lia|].
  exists hd. split; [exact Eh|]. rewrite R, N3, N4. reflexivity.
Defined.
End Runs.
End PoolSorted.
